(* ===== verification/_CoqProject ===== *)
-Q . S2P
Prelude.v
Serialize.v
Arith256.v
Transaction.v
Compressor.v
Coins.v
CoinsView.v
CoinsCache.v
UpdateCoins.v
Interest.v
Subsidy.v
Script.v
Interpreter.v
SigHash.v
Seasons.v
CheckTx.v
TxInputs.v
IncrementalMerkle.v
HashStream.v
Sha2.v
Hashes.v
BlockMerkle.v
BlockIndex.v
BlockTree.v
Standard.v
Notary.v
Pow.v
CheckPow.v
Upgrades.v
Checkpoints.v
BlockChecks.v
Ledger.v
ConnectTxs.v
ConnectBlock.v
BlockEffect.v
Bloom.v
Base58.v
Bech32.v
KeyIO.v
StrEncodings.v
Mempool.v
MempoolAccept.v
ActivateChain.v
ActivateEffect.v
ActivateEnd.v
ActivateBest.v
