(* ===== verification/Prelude.v ===== *)
(** * SquishyCoin: a verification of the node's core

    SquishyCoin is a full node in the Bitcoin, Zcash and Komodo line, written
    in C++ under src/src/.  A block arrives from a peer, its header enters the
    block tree, its transactions are parsed, checked on their own, checked
    against the set of unspent coins, their scripts are run, and the coins are
    updated; the note commitments of shielded transactions go into incremental
    Merkle trees; transactions that wait for a block are checked the same way and
    kept in the memory pool; light clients are served partial Merkle trees of the
    transactions their Bloom filters match.  This library
    translates those parts into executable definitions and proves what makes
    them correct.

    ** Files, and the code they model

    - [Prelude]: machine integers as [Z] with the wrap-around written out
      ([u8] ... [i64]), the width hint database, shared tactics.
    - [Serialize]: serialize.h.  CompactSize, VARINT, vectors and the [codec]
      record: a writer, a reader and the law that reading what was written
      returns it.  Every wire format below is a codec or is proved like one.
    - [Arith256]: arith_uint256.cpp/.h, limb by limb, and difficulty words.
    - [Transaction]: primitives/transaction.cpp/.h and amount.h.
    - [Compressor]: compressor.cpp/.h.
    - [Coins], [CoinsView], [CoinsCache]: coins.cpp/.h and txdb.cpp.  The class
      [CoinsView] is the interface of CCoinsView; [CoinsViewReads] are the laws a
      cache above needs of a view and [CoinsViewLaws] adds those of writing.  The
      database view and the cache are instances of both, the memory pool's view
      of the first, and the cache's theorems hold over any view with the laws.
    - [UpdateCoins]: UpdateCoins, ApplyTxInUndo and the coins part of
      DisconnectBlock of main.cpp, and undo.h.
    - [Interest], [Subsidy]: squishy_interest.cpp, squishy_utils.cpp.
    - [Script], [Interpreter], [SigHash]: script/script.cpp,
      script/interpreter.cpp, and the lock-time rules of main.cpp.  Errors are
      the left values of a sum; signature checking is the interface [checker].
    - [CheckTx], [TxInputs]: the context-free checks, HaveInputs and
      CheckTxInputs of main.cpp, the latter against any [CoinsView].
    - [IncrementalMerkle]: zcash/IncrementalMerkleTree.cpp/.hpp, over the class
      [MerkleHash] of its node hashes.
    - [HashStream], [Sha2], [Hashes]: crypto/ and hash.cpp.  The class
      [BlockHash] is what the streaming code needs of a compression function;
      the unrolled rounds are in the model as tables of the source's lines.
    - [BlockMerkle]: consensus/merkle.cpp, primitives/block.cpp, merkleblock.cpp.
    - [BlockIndex], [BlockTree]: chain.cpp/.h and the functions of main.cpp that
      keep the tree of block index entries.  Objects live in a store from
      addresses to records, so aliasing is explicit.
    - [Standard]: script/standard.cpp/.h: output types, destinations, scripts.
    - [Seasons], [Notary]: squishy_hardfork.h, squishy_notary.cpp,
      notaries_staked.cpp and the parts of squishy_bitcoind.cpp on notary keys;
      the tables are a record of globals.
    - [Pow], [CheckPow]: pow.cpp, the difficulty of the next block and the check
      of a header with the notary rules, over [BlockIndex] and [Notary].
    - [Upgrades], [Checkpoints]: consensus/upgrades.cpp; the notarised checkpoints
      of squishy_structs.cpp and squishy_notary.cpp, squishy_checkpoint, and
      checkpoints.cpp.
    - [BlockChecks]: CheckTransaction, CheckBlockHeader, CheckBlock and the
      contextual checks of main.cpp with squishy_check_deposit, over [CheckTx],
      [CheckPow], [BlockMerkle], [Upgrades] and [Checkpoints].
    - [Ledger], [ConnectTxs], [ConnectBlock]: the abstract ledger UpdateCoins
      implements; ContextualCheckInputs and the loop of ConnectBlock over the
      transactions; ConnectBlock and DisconnectBlock, over [BlockChecks] (through the
      interface [ChecksBlocks]), [TxInputs], [UpdateCoins] and [CoinsCache].
    - [BlockEffect]: what connecting and disconnecting a block do.
    - [Mempool], [MempoolAccept]: txmempool.cpp, the pool's maps with pointers as
      addresses into a store of live entries; AcceptToMemoryPool with the
      standardness rules of main.cpp, through the cache of [CoinsCache] over the
      view CCoinsViewMemPool, an instance of [CoinsView].
    - [ActivateChain]: DisconnectTip, ConnectTip, InvalidateBlock, FlushStateToDisk,
      ActivateBestChainStep and ActivateBestChain of main.cpp over a record of the
      globals: the tree of [BlockTree], the coins of the tip with [ConnectBlock], the
      pool of [MempoolAccept], the points of [Checkpoints].  [ActivateEffect] is what each
      action leaves as it was, [ActivateEnd] how a round ends, [ActivateBest] the loop.
    - [Bloom]: bloom.cpp and the filter messages of main.cpp.
    - [Base58], [Bech32], [KeyIO], [StrEncodings]: base58.cpp, bech32.cpp with
      the regrouping of bits, key_io.cpp, utilstrencodings.cpp, utilmoneystr.cpp
      and the amounts of the RPC interface.

    ** State and effects

    A function that the code calls on an object takes the object's record and
    returns the new one; a function on globals takes a record of the globals;
    the coins view is threaded through the monad of [TxInputs].  A function
    that can throw, fail an assertion or follow a dangling pointer returns an
    option or a sum, and theorems state that these outcomes do not occur, or
    exactly when they do.  Order and interleaving are explicit: the cache and
    the block tree are step relations whose reachable states are characterised
    by invariants.

    ** What the theorems show

    - Round trips: every wire format modelled is read back as written, with the
      rest of the stream untouched; disconnecting a block undoes connecting it;
      a partial Merkle tree leads back to the block's root.
    - Refinement: limb arithmetic is arithmetic modulo 2^256; the coins cache,
      however it was filled, shows what the base view plus the changes would,
      and flushing makes the base show it; the incremental tree and its
      witnesses are the full Merkle tree of the appended leaves; the signature
      hash serializes the transaction its specification describes.
    - Equivalence: the unrolled SHA-2 rounds are FIPS 180-4, cutting a message
      into writes does not matter,
      FindFork is the last common ancestor, the work of a block is exact.
    - Safety: accepted transactions have exact sums, no duplicate inputs, spend
      available coins and conserve value up to the interest rule; a signature
      hash commits to the transaction; the mutation check closes CVE-2012-2459;
      extraction from an untrusted partial tree reports only nodes of the row of
      the block's tree that the claimed number of transactions points to.
    - Invariants and termination: the reachable coins caches and block trees;
      the skip-list walk, the queue of ReceivedBlockTransactions and the loop
      of FindMostWorkChain always end.
    - Bounds: monetary ranges, script limits, retargeting.
    - Rules of the chain: Solver's answers have the shape their type promises;
      the notaries of a height are those last elected; the next difficulty is
      defined for block times up to 1600 seconds without the TSA rule, and within
      the limit without the adaptive rules; a header of the main chain above
      height 1000000 passes exactly with the work its key and rotation entitle it
      to, and with none if its key is zero; after a gap every notary is
      eventually allowed to mine.
    - Checks of blocks: an accepted block has valid work, is well formed and is
      the only one with its Merkle root unless the hash is broken; its coinbase
      belongs to its height; an accepted header does not fork below a notarisation; the cached search for a
      notarisation is transparent; the upgrades cut the heights into epochs.
    - Blocks: an accepted block is a sequence of legal steps of the ledger, it
      conserves value up to its reward, and disconnecting it restores the state.
    - The best chain: activating it ends, with a tip as good as every candidate
      left that can be connected, as long as no block is reported as possibly
      corrupted; no run of it takes a notarised block off the chain.
    - Memory pool: after any sequence of tested additions, removals and safe clears
      the indexes are those of the entries and no pointer dangles; every removal
      takes out exactly the transactions it names with their descendants; what is accepted is minable,
      and the pool stays minable on the ledger while blocks are connected.
    - Filters and texts: a rolling filter never forgets its window, a filter
      follows spends by itself, no peer's filter makes the node read out of
      bounds; every address, key and amount is read back from its text, and
      Bech32 detects up to three wrong characters.

    ** Fuel and bounds

    Loops that are not structural take fuel.  Where a model could run out, a
    theorem shows the fuel given is enough: the height of an entry plus one
    for walks down a chain, the number of candidates plus one for
    FindMostWorkChain, the number of waiting blocks plus one for the queue,
    the height of the target and the length of the chain for the loops of
    ActivateBestChainStep ([connect_rounds_fuel], [disconnect_to_fuel],
    [invalidate_loop_fuel], [rewind_loop_fuel]), (n + 1) (n + 2) rounds of
    ActivateBestChain for n entries, the length of the script for the interpreter,
    ten digits for a VARINT,
    the number of leaves for Merkle trees.  Sizes are bounded where the code
    is: 2^30 transactions in a block, heights and counters that fit their
    widths; where an overflow is reachable it is modelled and stated.

    ** Parameters

    Code that is not part of the repository is a variable: secp256k1 (point
    decompression, signature checks), librustzcash and libsodium (proof
    verification, Pedersen and Ed25519), BLAKE2b, crypto-conditions, LevelDB's
    storage.  The theorems on Merkle trees assume nothing of the hash: they state
    their conclusion or exhibit a break of it among the pairs that were hashed
    ([hash_broken], [collision], [leaf_is_node] of [BlockMerkle]).

    ** Not modelled, and why

    Sockets, threads, files, RPC, the wallet and the graphical interface are
    I/O around this core.  ActivateBestChain takes the block files, the clock and the
    disk as functions; an undo file gives back the record that was written at a
    position, not its bytes (the format of an undo record is in [UpdateCoins]).
    The crypto-condition modules under src/src/cc and the vendored libraries
    (leveldb, secp256k1, snark, univalue, cryptoconditions) are separate
    programs.  Floating-point code (fee estimation, priorities, filter sizes)
    is left out or is an argument.

    ** Plan

    The core is covered.  What would extend it: ReconsiderBlock and the block files as
    a store; the wallet's note witnesses over [IncrementalMerkle]; the vectorised SHA-256. *)
From Stdlib Require Export ZArith Lia Bool.
From stdpp Require Export base tactics list gmap fin_maps option numbers.

#[global] Open Scope Z_scope.

(** ** Machine integers

    A w-bit C++ integer is the [Z] it denotes.  Every arithmetic result the
    source stores in a variable of a fixed width goes through one of the
    conversions below: [uN] is the (fully defined) reduction of unsigned types
    and [iN] the two's complement conversion of signed types. *)

Definition u8 (z : Z) : Z := z mod 2 ^ 8.
Definition u16 (z : Z) : Z := z mod 2 ^ 16.
Definition u32 (z : Z) : Z := z mod 2 ^ 32.
Definition u64 (z : Z) : Z := z mod 2 ^ 64.
Definition i32 (z : Z) : Z := (z + 2 ^ 31) mod 2 ^ 32 - 2 ^ 31.
Definition i64 (z : Z) : Z := (z + 2 ^ 63) mod 2 ^ 64 - 2 ^ 63.

(** The value ranges of the types. *)
Definition is_u8 (z : Z) : Prop := 0 <= z < 2 ^ 8.
Definition is_u32 (z : Z) : Prop := 0 <= z < 2 ^ 32.
Definition is_u64 (z : Z) : Prop := 0 <= z < 2 ^ 64.
Definition is_i32 (z : Z) : Prop := - 2 ^ 31 <= z < 2 ^ 31.
Definition is_i64 (z : Z) : Prop := - 2 ^ 63 <= z < 2 ^ 63.

(** A byte string: [std::vector<unsigned char>], [CScript], stream contents. *)
Abbreviation bytes := (list Z).
Definition is_bytes (l : bytes) : Prop := Forall is_u8 l.

(** ** Tactics *)

(** Turn boolean comparisons in the context and the goal into propositions. *)
Ltac bool_to_prop :=
  repeat match goal with
  | H : _ && _ = true |- _ => apply andb_prop in H; destruct H
  | H : _ || _ = false |- _ => apply orb_false_elim in H; destruct H
  | H : negb _ = true |- _ => apply negb_true_iff in H
  | H : negb _ = false |- _ => apply negb_false_iff in H
  | H : (_ =? _) = true |- _ => apply Z.eqb_eq in H
  | H : (_ =? _) = false |- _ => apply Z.eqb_neq in H
  | H : (_ <? _) = true |- _ => apply Z.ltb_lt in H
  | H : (_ <? _) = false |- _ => apply Z.ltb_ge in H
  | H : (_ <=? _) = true |- _ => apply Z.leb_le in H
  | H : (_ <=? _) = false |- _ => apply Z.leb_gt in H
  end.

(** Case analysis on the first boolean comparison found in the goal. *)
Ltac case_bool :=
  match goal with
  | |- context [?a =? ?b] => destruct (Z.eqb_spec a b)
  | |- context [?a <? ?b] => destruct (Z.ltb_spec a b)
  | |- context [?a <=? ?b] => destruct (Z.leb_spec a b)
  end.

(** Linear arithmetic that also knows division and remainder by constants. *)
Ltac zlia := Z.to_euclidean_division_equations; lia.

(** Unfold the width conversions and ranges. *)
Ltac unfold_width :=
  unfold u8, u16, u32, u64, i32, i64, is_u8, is_u32, is_u64, is_i32, is_i64 in *.

(** ** Facts about the width conversions *)

Create HintDb width.

Section Width.
Implicit Type z : Z.

Lemma u8_range z : is_u8 (u8 z).
Proof. apply Z.mod_pos_bound. lia. Qed.

Lemma u32_range z : is_u32 (u32 z).
Proof. apply Z.mod_pos_bound. lia. Qed.

Lemma u64_range z : is_u64 (u64 z).
Proof. apply Z.mod_pos_bound. lia. Qed.

Lemma i32_range z : is_i32 (i32 z).
Proof. unfold i32, is_i32. pose proof (Z.mod_pos_bound (z + 2 ^ 31) (2 ^ 32)). lia. Qed.

Lemma i64_range z : is_i64 (i64 z).
Proof. unfold i64, is_i64. pose proof (Z.mod_pos_bound (z + 2 ^ 63) (2 ^ 64)). lia. Qed.

Lemma u8_id z : is_u8 z -> u8 z = z.
Proof. apply Z.mod_small. Qed.

Lemma u32_id z : is_u32 z -> u32 z = z.
Proof. apply Z.mod_small. Qed.

Lemma u64_id z : is_u64 z -> u64 z = z.
Proof. apply Z.mod_small. Qed.

Lemma i32_id z : is_i32 z -> i32 z = z.
Proof. unfold i32, is_i32. intros. rewrite Z.mod_small; lia. Qed.

Lemma i64_id z : is_i64 z -> i64 z = z.
Proof. unfold i64, is_i64. intros. rewrite Z.mod_small; lia. Qed.

Lemma i64_u64 z : i64 (u64 z) = i64 z.
Proof. unfold i64, u64. by rewrite Zplus_mod_idemp_l. Qed.

Lemma u64_i64 z : u64 (i64 z) = u64 z.
Proof.
  unfold i64, u64. rewrite Zminus_mod_idemp_l. f_equal. lia.
Qed.
End Width.

#[export] Hint Resolve u8_range u32_range u64_range i32_range i64_range : width.
#[export] Hint Rewrite i64_u64 u64_i64 : width.

(** ** Lists and options *)

Lemma is_bytes_app l k : is_bytes (l ++ k) <-> is_bytes l /\ is_bytes k.
Proof. apply Forall_app. Qed.

Lemma is_bytes_take n l : is_bytes l -> is_bytes (take n l).
Proof. apply Forall_take. Qed.

Lemma is_bytes_drop n l : is_bytes l -> is_bytes (drop n l).
Proof. apply Forall_drop. Qed.

#[export] Hint Resolve is_bytes_take is_bytes_drop : width.
