(* ===== verification/Serialize.v ===== *)
(** * Binary serialization (src/src/serialize.h)

    Streams, little-endian integers, [CompactSize], [VARINT], strings,
    vectors, optionals, arrays and pairs, each as a pair of a writer (a
    function to bytes) and a reader (a function on the remaining bytes, [None]
    standing for the [std::ios_base::failure] the source throws).  The class
    [Codec] is the interface the rest of the development programs against: a
    type with a writer, a reader and the law that the reader inverts the
    writer on any continuation of the stream. *)
From S2P Require Import Prelude.

(** ** Streams *)

(** A reader consumes a prefix of the stream or throws. *)
Definition reader (A : Type) : Type := bytes -> option (A * bytes).

#[global] Instance reader_ret : MRet reader := fun A a s => Some (a, s).
#[global] Instance reader_bind : MBind reader := fun A B f m s =>
  match m s with
  | Some (a, s') => f a s'
  | None => None
  end.

Definition reader_fail {A} : reader A := fun _ => None.

(** [s.read(p, n)]: fails when fewer than [n] bytes are left. *)
Definition read_bytes (n : nat) : reader bytes := fun s =>
  if (length s <? n)%nat then None else Some (take n s, drop n s).

(** ** Little-endian words *)

Fixpoint le_bytes (n : nat) (z : Z) : bytes :=
  match n with
  | O => []
  | S n => z mod 256 :: le_bytes n (z / 256)
  end.

Fixpoint le_value (l : bytes) : Z :=
  match l with
  | [] => 0
  | b :: l => b + 256 * le_value l
  end.

Definition ser_writedata8 (obj : Z) : bytes := le_bytes 1 (u8 obj).
Definition ser_writedata16 (obj : Z) : bytes := le_bytes 2 (u16 obj).
Definition ser_writedata32 (obj : Z) : bytes := le_bytes 4 (u32 obj).
Definition ser_writedata32be (obj : Z) : bytes := rev (le_bytes 4 (u32 obj)).
Definition ser_writedata64 (obj : Z) : bytes := le_bytes 8 (u64 obj).

Definition ser_readdata8 : reader Z := l ← read_bytes 1; mret (le_value l).
Definition ser_readdata16 : reader Z := l ← read_bytes 2; mret (le_value l).
Definition ser_readdata32 : reader Z := l ← read_bytes 4; mret (le_value l).
Definition ser_readdata32be : reader Z := l ← read_bytes 4; mret (le_value (rev l)).
Definition ser_readdata64 : reader Z := l ← read_bytes 8; mret (le_value l).

(** ** CompactSize *)

Definition MAX_SIZE : Z := 0x02000000.

Definition GetSizeOfCompactSize (nSize : Z) : Z :=
  if nSize <? 253 then 1
  else if nSize <=? 0xFFFF then 3
  else if nSize <=? 0xFFFFFFFF then 5
  else 9.

Definition WriteCompactSize (nSize : Z) : bytes :=
  if nSize <? 253 then ser_writedata8 nSize
  else if nSize <=? 0xFFFF then ser_writedata8 253 ++ ser_writedata16 nSize
  else if nSize <=? 0xFFFFFFFF then ser_writedata8 254 ++ ser_writedata32 nSize
  else ser_writedata8 255 ++ ser_writedata64 nSize.

(** The size as read, rejected when a shorter encoding exists. *)
Definition ReadCompactSize : reader Z :=
  chSize ← ser_readdata8;
  nSizeRet ←
    (if chSize <? 253 then mret chSize
     else if chSize =? 253 then
       n ← ser_readdata16; if n <? 253 then reader_fail else mret n
     else if chSize =? 254 then
       n ← ser_readdata32; if n <? 0x10000 then reader_fail else mret n
     else
       n ← ser_readdata64; if n <? 0x100000000 then reader_fail else mret n);
  if nSizeRet >? MAX_SIZE then reader_fail else mret nSizeRet.

(** ** VARINT *)

(** The number of loop iterations [tmp] has room for at the widest type the
    templates are instantiated with: [(sizeof(uint64_t)*8+6)/7]. *)
Definition varint_fuel : nat := 10.

Fixpoint sizeof_varint_loop (fuel : nat) (n nRet : Z) : Z :=
  match fuel with
  | O => nRet
  | S fuel =>
      if n <=? 0x7F then nRet + 1
      else sizeof_varint_loop fuel (Z.shiftr n 7 - 1) (nRet + 1)
  end.

Definition GetSizeOfVarInt (n : Z) : Z := sizeof_varint_loop varint_fuel n 0.

(** The first loop of [WriteVarInt] fills [tmp] from index 0, the second one
    writes it out from the last index down: consing the digits yields the
    bytes in stream order.  [len0] is the test [len == 0]. *)
Fixpoint write_varint_loop (fuel : nat) (n : Z) (len0 : bool) (out : bytes) : bytes :=
  match fuel with
  | O => out
  | S fuel =>
      let digit := Z.lor (Z.land n 0x7F) (if len0 then 0x00 else 0x80) in
      if n <=? 0x7F then digit :: out
      else write_varint_loop fuel (Z.shiftr n 7 - 1) false (digit :: out)
  end.

Definition WriteVarInt (n : Z) : bytes := write_varint_loop varint_fuel n true [].

(** [conv] is the conversion to the integer type [I] of the template. *)
Fixpoint read_varint_loop (conv : Z -> Z) (n : Z) (s : bytes) : option (Z * bytes) :=
  match s with
  | [] => None
  | chData :: s =>
      let n := Z.lor (conv (Z.shiftl n 7)) (Z.land chData 0x7F) in
      if negb (Z.land chData 0x80 =? 0)
      then read_varint_loop conv (conv (n + 1)) s
      else Some (n, s)
  end.

Definition ReadVarInt (conv : Z -> Z) : reader Z := read_varint_loop conv 0.

(** ** Composite types *)

Definition Serialize_opt {A} (ser : A -> bytes) (item : option A) : bytes :=
  match item with
  | Some a => ser_writedata8 0x01 ++ ser a
  | None => ser_writedata8 0x00
  end.

Definition Unserialize_opt {A} (unser : reader A) : reader (option A) :=
  discriminant ← ser_readdata8;
  if discriminant =? 0x00 then mret None
  else if discriminant =? 0x01 then o ← unser; mret (Some o)
  else reader_fail.

(** [for (i = 0; i < N; i++) Unserialize(is, item[i])] *)
Fixpoint unserialize_n {A} (unser : reader A) (n : nat) : reader (list A) :=
  match n with
  | O => mret []
  | S n => a ← unser; l ← unserialize_n unser n; mret (a :: l)
  end.

Definition Serialize_elems {A} (ser : A -> bytes) (v : list A) : bytes :=
  concat (map ser v).

(** [vector<T>]: the element count, then the elements. *)
Definition Serialize_vector {A} (ser : A -> bytes) (v : list A) : bytes :=
  WriteCompactSize (Z.of_nat (length v)) ++ Serialize_elems ser v.

(** The outer loop grows the vector by at most [chunk = 5000000 / sizeof(T)]
    elements at a time, the inner loop reads that many elements. *)
Fixpoint unserialize_chunks {A} (unser : reader A) (fuel : nat) (chunk nSize nMid : Z)
    : reader (list A) :=
  match fuel with
  | O => reader_fail
  | S fuel =>
      if nMid <? nSize then
        let nMid' := if nMid + chunk >? nSize then nSize else nMid + chunk in
        l ← unserialize_n unser (Z.to_nat (nMid' - nMid));
        k ← unserialize_chunks unser fuel chunk nSize nMid';
        mret (l ++ k)
      else mret []
  end.

Definition Unserialize_vector {A} (sizeofT : Z) (unser : reader A) : reader (list A) :=
  nSize ← ReadCompactSize;
  unserialize_chunks unser (S (Z.to_nat nSize)) (5000000 / sizeofT) nSize 0.

(** [vector<unsigned char>], [CScript] and strings: one opaque blob, read in
    blocks of at most 5000000 bytes. *)
Definition Serialize_blob (v : bytes) : bytes :=
  WriteCompactSize (Z.of_nat (length v)) ++ v.

Fixpoint unserialize_blocks (fuel : nat) (nSize i : Z) : reader bytes :=
  match fuel with
  | O => reader_fail
  | S fuel =>
      if i <? nSize then
        let blk := Z.min (nSize - i) (1 + 4999999 / 1) in
        l ← read_bytes (Z.to_nat blk);
        k ← unserialize_blocks fuel nSize (i + blk);
        mret (l ++ k)
      else mret []
  end.

Definition Unserialize_blob : reader bytes :=
  nSize ← ReadCompactSize;
  unserialize_blocks (S (Z.to_nat nSize)) nSize 0.

(** [LIMITED_STRING(obj, Limit)] *)
Definition Unserialize_limited (Limit : Z) : reader bytes :=
  size ← ReadCompactSize;
  if size >? Limit then reader_fail else read_bytes (Z.to_nat size).

(** ** The codec interface

    What [ADD_SERIALIZE_METHODS] and the [Serialize]/[Unserialize] overloads
    give a type: a writer, a reader, and (the contract every client relies on)
    the law that reading back a written valid value returns it and leaves the
    rest of the stream. *)
Record codec (A : Type) := Codec {
  valid : A -> Prop;
  ser : A -> bytes;
  unser : reader A;
  unser_ser : forall a rest, valid a -> unser (ser a ++ rest) = Some (a, rest)
}.
Arguments Codec {A}.
Arguments valid {A}.
Arguments ser {A}.
Arguments unser {A}.
Arguments unser_ser {A}.

(** ** Lemmas: readers *)

Lemma reader_bind_some {A B} (m : reader A) (f : A -> reader B) s a s' :
  m s = Some (a, s') -> (m ≫= f) s = f a s'.
Proof. unfold mbind, reader_bind. by intros ->. Qed.

(** The step every composite round trip is made of. *)
Lemma bind_unser {A B} (c : codec A) (f : A -> reader B) a rest :
  valid c a -> (unser c ≫= f) (ser c a ++ rest) = f a rest.
Proof. intros. by apply reader_bind_some, unser_ser. Qed.

Lemma reader_bind_inv {A B} (m : reader A) (f : A -> reader B) s r :
  (m ≫= f) s = Some r -> exists a s', m s = Some (a, s') /\ f a s' = Some r.
Proof. unfold mbind, reader_bind. destruct (m s) as [[a s']|]; [eauto | done]. Qed.

Lemma read_bytes_app n l s : length l = n -> read_bytes n (l ++ s) = Some (l, s).
Proof.
  intros <-. unfold read_bytes.
  destruct (Nat.ltb_spec (length (l ++ s)) (length l)) as [Hlt|_].
  { rewrite length_app in Hlt. lia. }
  by rewrite take_app_length, drop_app_length.
Qed.

Lemma read_bytes_inv n s l s' :
  read_bytes n s = Some (l, s') -> s = l ++ s' /\ length l = n.
Proof.
  unfold read_bytes. destruct (Nat.ltb_spec (length s) n) as [|Hle]; [done|].
  intros [= <- <-]. rewrite take_drop, length_take. split; [done | lia].
Qed.

(** ** Lemmas: little-endian words *)

Lemma length_le_bytes n z : length (le_bytes n z) = n.
Proof. revert z. induction n; intros; simpl; auto. Qed.

Lemma le_value_le_bytes n z : le_value (le_bytes n z) = z mod 256 ^ Z.of_nat n.
Proof.
  revert z. induction n as [|n IH]; intros z; [by rewrite Z.mod_1_r|].
  cbn [le_bytes le_value]. rewrite IH, Nat2Z.inj_succ, Z.pow_succ_r by lia.
  rewrite Z.rem_mul_r by lia. lia.
Qed.

Lemma le_bytes_le_value l : is_bytes l -> le_bytes (length l) (le_value l) = l.
Proof.
  induction 1 as [|b l Hb Hl IH]; [done|].
  cbn [length le_bytes le_value]. unfold is_u8 in Hb.
  f_equal.
  - rewrite Z.mul_comm, Z.mod_add, Z.mod_small by lia. done.
  - rewrite Z.mul_comm, Z.div_add, Z.div_small, Z.add_0_l by lia. done.
Qed.

Lemma le_bytes_is_bytes n z : is_bytes (le_bytes n z).
Proof.
  revert z. induction n as [|n IH]; intros z; [constructor|].
  constructor; [apply Z.mod_pos_bound; lia | apply IH].
Qed.

Lemma le_value_range l : is_bytes l -> 0 <= le_value l < 256 ^ Z.of_nat (length l).
Proof.
  induction 1 as [|b l Hb Hl IH]; [done|].
  cbn [length le_value]. rewrite Nat2Z.inj_succ, Z.pow_succ_r by lia.
  unfold is_u8 in Hb. lia.
Qed.

(** A reader of [n] little-endian bytes inverts the writer on [0, 256^n). *)
Lemma read_le n z s :
  0 <= z < 256 ^ Z.of_nat n ->
  (l ← read_bytes n; mret (le_value l)) (le_bytes n z ++ s) = Some (z, s).
Proof.
  intros. erewrite reader_bind_some by (apply read_bytes_app, length_le_bytes).
  unfold mret, reader_ret. by rewrite le_value_le_bytes, Z.mod_small.
Qed.

(** What a successful little-endian read consumed. *)
Lemma read_le_inv n s z s' :
  is_bytes s ->
  (l ← read_bytes n; mret (le_value l)) s = Some (z, s') ->
  s = le_bytes n z ++ s' /\ 0 <= z < 256 ^ Z.of_nat n /\ is_bytes s'.
Proof.
  intros Hs (l & s1 & Hr & Hv)%reader_bind_inv.
  apply read_bytes_inv in Hr as [-> <-].
  apply is_bytes_app in Hs as [Hl Hs1].
  injection Hv as <- <-. pose proof (le_value_range l Hl).
  split_and!; [|lia..|done]. by rewrite le_bytes_le_value.
Qed.

Lemma le_bytes_mod n z : le_bytes n (z mod 256 ^ Z.of_nat n) = le_bytes n z.
Proof.
  rewrite <- le_value_le_bytes.
  rewrite <- (length_le_bytes n z) at 1.
  apply le_bytes_le_value, le_bytes_is_bytes.
Qed.

Lemma le_bytes_1 b : is_u8 b -> le_bytes 1 b = [b].
Proof. unfold is_u8. intros. simpl. by rewrite Z.mod_small by lia. Qed.

(** ** Lemmas: CompactSize *)

Lemma readdata8_cons b s : is_u8 b -> ser_readdata8 (b :: s) = Some (b, s).
Proof.
  intros Hb. change (b :: s) with ([b] ++ s). rewrite <- (le_bytes_1 b) by done.
  apply (read_le 1). exact Hb.
Qed.

Lemma ReadCompactSize_Write n s :
  0 <= n <= MAX_SIZE -> ReadCompactSize (WriteCompactSize n ++ s) = Some (n, s).
Proof.
  intros Hn. unfold MAX_SIZE in Hn. unfold WriteCompactSize.
  assert (Hfin : forall m, 0 <= m <= MAX_SIZE ->
    (if m >? MAX_SIZE then reader_fail else mret m) s = Some (m, s)).
  { intros m Hm. rewrite Z.gtb_ltb. case_bool; [lia | done]. }
  repeat case_bool; try lia;
    unfold ReadCompactSize, ser_writedata8, ser_writedata16, ser_writedata32;
    rewrite ?u8_id by (unfold is_u8; lia).
  - erewrite reader_bind_some by (apply (read_le 1); simpl; lia).
    rewrite (proj2 (Z.ltb_lt n 253)) by lia.
    erewrite reader_bind_some by done. apply Hfin. done.
  - rewrite <- app_assoc. erewrite reader_bind_some by (by apply (read_le 1)).
    simpl. unfold u16. rewrite (Z.mod_small n) by lia.
    erewrite reader_bind_some; [by apply Hfin|].
    erewrite reader_bind_some by (apply (read_le 2); simpl; lia).
    case_bool; [lia | done].
  - rewrite <- app_assoc. erewrite reader_bind_some by (by apply (read_le 1)).
    simpl. rewrite u32_id by (unfold is_u32; lia).
    erewrite reader_bind_some; [by apply Hfin|].
    erewrite reader_bind_some by (apply (read_le 4); simpl; lia).
    case_bool; [lia | done].
Qed.

(** The tail of [ReadCompactSize]: the limit check does not consume bytes. *)
Lemma compact_limit_inv m s n s' :
  (if m >? MAX_SIZE then reader_fail else mret m) s = Some (n, s') ->
  n = m /\ s' = s /\ n <= MAX_SIZE.
Proof.
  rewrite Z.gtb_ltb. case_bool; [done|]. intros [= <- <-]. split_and!; [done | done | lia].
Qed.

(** One multi-byte branch of [ReadCompactSize], inverted. *)
Lemma compact_word_inv k lo s n s' :
  is_bytes s ->
  (n ← (l ← read_bytes k; mret (le_value l)); if n <? lo then reader_fail else mret n) s
    = Some (n, s') ->
  s = le_bytes k n ++ s' /\ lo <= n < 256 ^ Z.of_nat k.
Proof.
  intros Hs (m & s1 & Hr & Hm)%reader_bind_inv.
  apply read_le_inv in Hr as (-> & Hb & _); [|done].
  destruct (Z.ltb_spec m lo); [done|]. injection Hm as <- <-.
  split; [done | lia].
Qed.

Lemma ReadCompactSize_canonical s n s' :
  is_bytes s -> ReadCompactSize s = Some (n, s') ->
  s = WriteCompactSize n ++ s' /\ 0 <= n <= MAX_SIZE.
Proof.
  intros Hs (ch & s1 & Hch & H)%reader_bind_inv.
  apply read_le_inv in Hch as (-> & Hr & Hs1); [|done].
  apply reader_bind_inv in H as (m & s2 & Hm & H).
  apply compact_limit_inv in H as (-> & -> & Hmax). unfold MAX_SIZE in *.
  change (256 ^ Z.of_nat 1) with 256 in Hr.
  rewrite le_bytes_1 by (unfold is_u8; lia).
  unfold WriteCompactSize, ser_writedata8, ser_writedata16, ser_writedata32, ser_writedata64.
  destruct (Z.ltb_spec ch 253).
  { injection Hm as -> ->. rewrite (proj2 (Z.ltb_lt m 253)) by lia.
    rewrite u8_id, le_bytes_1 by (unfold is_u8; lia). split; [done | lia]. }
  destruct (Z.eqb_spec ch 253) as [->|]; [|destruct (Z.eqb_spec ch 254) as [->|]].
  all: apply compact_word_inv in Hm as [-> Hb]; [|done]; simpl in Hb.
  3: { exfalso. lia. }
  all: repeat case_bool; try lia; unfold u16, u32.
  all: rewrite (Z.mod_small m) by lia; simpl; split; [done | lia].
Qed.

Lemma length_WriteCompactSize n :
  Z.of_nat (length (WriteCompactSize n)) = GetSizeOfCompactSize n.
Proof.
  unfold WriteCompactSize, GetSizeOfCompactSize.
  repeat case_bool; by rewrite ?length_app.
Qed.

(** ** Lemmas: VARINT *)

Lemma land_127 n : Z.land n 0x7F = n mod 128.
Proof. exact (Z.land_ones n 7 ltac:(lia)). Qed.

Lemma lor_low a b k : 0 <= k -> a mod 2 ^ k = 0 -> 0 <= b < 2 ^ k -> Z.lor a b = a + b.
Proof.
  intros Hk Ha Hb. symmetry. rewrite <- Z.lxor_lor; [apply Z.add_nocarry_lxor|];
  apply Z.bits_inj'; intros i Hi; rewrite Z.land_spec, Z.bits_0;
  destruct (Z.lt_ge_cases i k).
  1,3: replace (Z.testbit a i) with (Z.testbit (a mod 2 ^ k) i)
         by (apply Z.mod_pow2_bits_low; lia); rewrite Ha, Z.bits_0; done.
  all: rewrite <- (Z.mod_small b (2 ^ k)), Z.mod_pow2_bits_high by lia; apply andb_false_r.
Qed.

Lemma lor_digit n d : 0 <= d < 128 -> Z.lor (Z.shiftl n 7) d = 128 * n + d.
Proof.
  intros. rewrite (lor_low _ _ 7), Z.shiftl_mul_pow2 by
    (rewrite ?Z.shiftl_mul_pow2 by lia; try apply Z.mod_mul; lia). lia.
Qed.

Lemma lor_128 d : 0 <= d < 128 -> Z.lor d 0x80 = d + 128.
Proof. intros. rewrite Z.lor_comm, (lor_low _ _ 7); [lia | lia | done | lia]. Qed.

Lemma digit_low d : 0 <= d < 128 -> Z.land d 0x7F = d /\ Z.land d 0x80 = 0.
Proof.
  intros. split; [rewrite land_127; apply Z.mod_small; lia|].
  apply Z.bits_inj'. intros i Hi. rewrite Z.land_spec, Z.bits_0.
  destruct (Z.eq_dec i 7) as [->|].
  - rewrite <- (Z.mod_small d (2 ^ 7)), Z.mod_pow2_bits_high by lia. done.
  - change 0x80 with (2 ^ 7). rewrite Z.pow2_bits_false by lia. apply andb_false_r.
Qed.

Lemma digit_high d : 0 <= d < 128 ->
  Z.land (d + 128) 0x7F = d /\ (Z.land (d + 128) 0x80 =? 0) = false.
Proof.
  intros Hd. split.
  - rewrite land_127. replace (d + 128) with (d + 1 * 128) by lia.
    rewrite Z.mod_add by lia. apply Z.mod_small. lia.
  - rewrite <- lor_128, Z.land_lor_distr_l, (proj2 (digit_low d Hd)) by done. done.
Qed.

Section VarInt.
Variable conv : Z -> Z.

(** Reading one digit with the continuation bit, and the last digit. *)
Lemma read_varint_more n d s :
  0 <= d < 128 -> conv (Z.shiftl n 7) = Z.shiftl n 7 ->
  read_varint_loop conv n (d + 128 :: s) = read_varint_loop conv (conv (128 * n + d + 1)) s.
Proof.
  intros Hd Hc. cbn [read_varint_loop]. destruct (digit_high d Hd) as [-> ->].
  by rewrite Hc, lor_digit.
Qed.

Lemma read_varint_last n d s :
  0 <= d < 128 -> conv (Z.shiftl n 7) = Z.shiftl n 7 ->
  read_varint_loop conv n (d :: s) = Some (128 * n + d, s).
Proof.
  intros Hd Hc. cbn [read_varint_loop]. destruct (digit_low d Hd) as [-> ->].
  by rewrite Hc, lor_digit.
Qed.

Lemma varint_split n : n = 128 * Z.shiftr n 7 + n mod 128.
Proof. rewrite Z.shiftr_div_pow2 by lia. change (2 ^ 7) with 128. apply Z.div_mod. lia. Qed.

(** The leading digits of [n] leave the reader at [n + 1]. *)
Lemma read_varint_prefix fuel n out :
  (0 < fuel)%nat -> 0 <= n < 128 ^ Z.of_nat fuel ->
  (forall z, 0 <= z <= n + 1 -> conv z = z) ->
  read_varint_loop conv 0 (write_varint_loop fuel n false out) =
  read_varint_loop conv (n + 1) out.
Proof.
  revert n out. induction fuel as [|fuel IH]; intros n out Hf Hn Hc; [lia|].
  cbn [write_varint_loop].
  pose proof (Z.mod_pos_bound n 128 ltac:(lia)) as Hm.
  pose proof (varint_split n) as Hs.
  rewrite land_127, lor_128 by lia. rewrite Nat2Z.inj_succ, Z.pow_succ_r in Hn by lia.
  destruct (Z.leb_spec n 0x7F).
  - rewrite (Z.mod_small n) in * by lia.
    rewrite read_varint_more by (try apply Hc; rewrite ?Z.shiftl_mul_pow2; lia).
    by rewrite Hc by lia.
  - destruct fuel; [simpl in Hn; lia|].
    rewrite IH by (intros; try apply Hc; lia).
    rewrite read_varint_more by (try apply Hc; rewrite ?Z.shiftl_mul_pow2; lia).
    rewrite Hc by lia. f_equal. lia.
Qed.

Lemma ReadVarInt_Write_conv n s :
  0 <= n < 2 ^ 64 -> (forall z, 0 <= z <= n -> conv z = z) ->
  ReadVarInt conv (WriteVarInt n ++ s) = Some (n, s).
Proof.
  intros Hn Hc. unfold ReadVarInt, WriteVarInt, varint_fuel. cbn [write_varint_loop].
  assert (Happ : forall f m b o, write_varint_loop f m b o ++ s = write_varint_loop f m b (o ++ s)).
  { induction f as [|f IH]; intros; cbn [write_varint_loop]; [done|].
    case_bool; [done | apply IH]. }
  pose proof (Z.mod_pos_bound n 128 ltac:(lia)) as Hm.
  pose proof (varint_split n) as Hs.
  rewrite land_127, Z.lor_0_r. destruct (Z.leb_spec n 0x7F).
  - simpl app. rewrite read_varint_last by (try apply Hc; rewrite ?Z.shiftl_mul_pow2; lia).
    rewrite Z.mod_small by lia. done.
  - fold (write_varint_loop 9 (Z.shiftr n 7 - 1) false [n mod 128]).
    rewrite Happ, (read_varint_prefix 9) by (intros; try apply Hc; simpl; lia).
    simpl app. rewrite read_varint_last by (try apply Hc; rewrite ?Z.shiftl_mul_pow2; lia).
    f_equal. f_equal. lia.
Qed.
End VarInt.

Lemma length_write_varint_loop fuel n len0 out nRet :
  Z.of_nat (length (write_varint_loop fuel n len0 out)) + nRet
  = sizeof_varint_loop fuel n nRet + Z.of_nat (length out).
Proof.
  revert n len0 out nRet. induction fuel as [|fuel IH]; intros;
    cbn [write_varint_loop sizeof_varint_loop]; [lia|].
  case_bool; [simpl; lia|].
  specialize (IH (Z.shiftr n 7 - 1) false
    (Z.lor (Z.land n 127) (if len0 then 0 else 128) :: out) (nRet + 1)).
  simpl length in IH. lia.
Qed.

(** With [k] digits to go the loop stops within [k] iterations. *)
Lemma sizeof_varint_bound fuel k n nRet :
  0 <= n < 128 ^ Z.of_nat k -> (1 <= k <= fuel)%nat ->
  sizeof_varint_loop fuel n nRet <= nRet + Z.of_nat k.
Proof.
  revert k n nRet. induction fuel as [|fuel IH]; intros k n nRet Hn Hk; [lia|].
  cbn [sizeof_varint_loop]. case_bool; [lia|].
  destruct k as [|[|k]]; [lia| simpl in Hn; lia |].
  pose proof (varint_split n). pose proof (Z.mod_pos_bound n 128 ltac:(lia)).
  rewrite Nat2Z.inj_succ, Z.pow_succ_r in Hn by lia.
  specialize (IH (S k) (Z.shiftr n 7 - 1) (nRet + 1)). lia.
Qed.

(** ** Lemmas: composite types *)

Section Composite.
Context {A : Type} (c : codec A).

Lemma unserialize_n_elems v rest :
  Forall (valid c) v ->
  unserialize_n (unser c) (length v) (Serialize_elems (ser c) v ++ rest) = Some (v, rest).
Proof.
  induction 1 as [|a v Ha Hv IH]; [done|].
  unfold Serialize_elems in *. simpl. rewrite <- app_assoc, bind_unser by done.
  by erewrite reader_bind_some.
Qed.

(** Chunking the allocation does not change what is read. *)
Lemma unserialize_chunks_elems fuel chunk v rest nMid :
  Forall (valid c) v -> 0 < chunk -> 0 <= nMid ->
  (length v < fuel)%nat ->
  unserialize_chunks (unser c) fuel chunk (nMid + Z.of_nat (length v)) nMid
    (Serialize_elems (ser c) v ++ rest) = Some (v, rest).
Proof.
  intros Hv Hch. revert v nMid Hv. induction fuel as [|fuel IH]; intros v nMid Hv Hm Hf; [lia|].
  cbn [unserialize_chunks]. case_bool; [|by destruct v; [|simpl in *; lia]].
  set (nMid' := if nMid + chunk >? _ then _ else _).
  assert (Hmid : nMid < nMid' <= nMid + Z.of_nat (length v)).
  { subst nMid'. rewrite Z.gtb_ltb. case_bool; lia. }
  set (k := Z.to_nat (nMid' - nMid)).
  replace (Serialize_elems (ser c) v)
    with (Serialize_elems (ser c) (take k v) ++ Serialize_elems (ser c) (drop k v))
    by (unfold Serialize_elems; by rewrite <- concat_app, <- map_app, take_drop).
  rewrite <- app_assoc.
  assert (Hk : length (take k v) = k) by (rewrite length_take; lia).
  replace (unserialize_n (unser c) k)
    with (unserialize_n (unser c) (length (take k v))) by (by rewrite Hk).
  erewrite reader_bind_some by (apply unserialize_n_elems, Forall_take, Hv).
  assert (Hd : nMid + Z.of_nat (length v) = nMid' + Z.of_nat (length (drop k v)))
    by (rewrite length_drop; lia).
  rewrite Hd. erewrite reader_bind_some
    by (apply IH; [by apply Forall_drop | lia | rewrite length_drop; lia]).
  unfold mret, reader_ret. by rewrite take_drop.
Qed.

Lemma Unserialize_vector_Serialize sizeofT v rest :
  0 < sizeofT <= 5000000 -> Forall (valid c) v -> Z.of_nat (length v) <= MAX_SIZE ->
  Unserialize_vector sizeofT (unser c) (Serialize_vector (ser c) v ++ rest) = Some (v, rest).
Proof.
  intros Hs Hv Hl. unfold Unserialize_vector, Serialize_vector. rewrite <- app_assoc.
  erewrite reader_bind_some by (apply ReadCompactSize_Write; lia).
  apply (unserialize_chunks_elems _ _ v rest 0); [done | | lia | lia].
  apply Z.div_str_pos. lia.
Qed.

Lemma Unserialize_opt_Serialize item rest :
  (forall a, item = Some a -> valid c a) ->
  Unserialize_opt (unser c) (Serialize_opt (ser c) item ++ rest) = Some (item, rest).
Proof.
  intros Hv. unfold Unserialize_opt, Serialize_opt.
  destruct item as [a|]; rewrite <- ?app_assoc.
  - erewrite reader_bind_some by (by apply (read_le 1)). simpl.
    by rewrite bind_unser by auto.
  - by erewrite reader_bind_some by (by apply (read_le 1)).
Qed.
End Composite.

Lemma unserialize_blocks_app fuel v rest i :
  (length v < fuel)%nat -> 0 <= i ->
  unserialize_blocks fuel (i + Z.of_nat (length v)) i (v ++ rest) = Some (v, rest).
Proof.
  revert v i. induction fuel as [|fuel IH]; intros v i Hf Hi; [lia|].
  cbn [unserialize_blocks]. case_bool; [|by destruct v; [|simpl in *; lia]].
  change (1 + 4999999 / 1) with 5000000.
  set (blk := Z.min _ _). assert (Hb : 0 < blk <= Z.of_nat (length v)) by lia.
  set (k := Z.to_nat blk). replace (v ++ rest) with (take k v ++ drop k v ++ rest)
    by (by rewrite app_assoc, take_drop).
  erewrite reader_bind_some by (apply read_bytes_app; rewrite length_take; lia).
  replace (i + Z.of_nat (length v)) with (i + blk + Z.of_nat (length (drop k v)))
    by (rewrite length_drop; lia).
  erewrite reader_bind_some by (apply IH; rewrite ?length_drop; lia).
  unfold mret, reader_ret. by rewrite take_drop.
Qed.

Lemma Unserialize_blob_Serialize v rest :
  Z.of_nat (length v) <= MAX_SIZE ->
  Unserialize_blob (Serialize_blob v ++ rest) = Some (v, rest).
Proof.
  intros. unfold Unserialize_blob, Serialize_blob. rewrite <- app_assoc.
  erewrite reader_bind_some by (apply ReadCompactSize_Write; lia).
  apply (unserialize_blocks_app _ v rest 0); lia.
Qed.

(** ** Codecs of the basic types *)

Definition c_u8 : codec Z.
Proof.
  refine (Codec is_u8 ser_writedata8 ser_readdata8 _).
  intros a rest Ha. unfold ser_writedata8. rewrite u8_id by done. by apply (read_le 1).
Defined.

Definition c_u32 : codec Z.
Proof.
  refine (Codec is_u32 ser_writedata32 ser_readdata32 _).
  intros a rest Ha. unfold ser_writedata32. rewrite u32_id by done. by apply (read_le 4).
Defined.

Definition c_u64 : codec Z.
Proof.
  refine (Codec is_u64 ser_writedata64 ser_readdata64 _).
  intros a rest Ha. unfold ser_writedata64. rewrite u64_id by done. by apply (read_le 8).
Defined.

(** Signed integers are stored through the unsigned type of their width. *)
Definition c_i32 : codec Z.
Proof.
  refine (Codec is_i32 ser_writedata32 (z ← ser_readdata32; mret (i32 z)) _).
  intros a rest Ha. unfold ser_writedata32.
  erewrite reader_bind_some by (apply (read_le 4); apply u32_range).
  unfold mret, reader_ret. f_equal. f_equal.
  unfold i32, u32. rewrite Zplus_mod_idemp_l. by apply i32_id.
Defined.

Definition c_i64 : codec Z.
Proof.
  refine (Codec is_i64 ser_writedata64 (z ← ser_readdata64; mret (i64 z)) _).
  intros a rest Ha. unfold ser_writedata64.
  erewrite reader_bind_some by (apply (read_le 8); apply u64_range).
  unfold mret, reader_ret. f_equal. f_equal. rewrite i64_u64. by apply i64_id.
Defined.

Definition c_bool : codec bool.
Proof.
  refine (Codec (fun _ : bool => True) (fun b => ser_writedata8 (if b then 1 else 0))
    (z ← ser_readdata8; mret (negb (z =? 0))) _).
  intros [] rest _; by erewrite reader_bind_some by (by apply (read_le 1)).
Defined.

(** Arrays of fixed size and POD, [FLATDATA]: the bytes as they are. *)
Definition c_flat (n : nat) : codec bytes.
Proof.
  refine (Codec (fun l => length l = n) id (read_bytes n) _).
  intros a rest <-. by apply read_bytes_app.
Defined.

(** [uint256] (and [uint160], ...): a blob whose little-endian value the model keeps. *)
Definition c_blob_int (n : nat) : codec Z.
Proof.
  refine (Codec (fun z => 0 <= z < 256 ^ Z.of_nat n) (le_bytes n)
    (l ← read_bytes n; mret (le_value l)) _).
  intros a rest Ha. by apply read_le.
Defined.

Definition c_uint256 : codec Z := c_blob_int 32.

Definition c_varint (conv : Z -> Z) : codec Z.
Proof.
  refine (Codec (fun n => 0 <= n < 2 ^ 64 /\ forall z, 0 <= z <= n -> conv z = z)
    WriteVarInt (ReadVarInt conv) _).
  intros a rest [Ha Hc]. by apply ReadVarInt_Write_conv.
Defined.

Definition c_bytes : codec bytes.
Proof.
  refine (Codec (fun v => Z.of_nat (length v) <= MAX_SIZE) Serialize_blob Unserialize_blob _).
  intros a rest. apply Unserialize_blob_Serialize.
Defined.

Definition c_opt {A} (c : codec A) : codec (option A).
Proof.
  refine (Codec (fun o => forall a, o = Some a -> valid c a)
    (Serialize_opt (ser c)) (Unserialize_opt (unser c)) _).
  intros a rest. apply Unserialize_opt_Serialize.
Defined.

Definition c_array {A} (n : nat) (c : codec A) : codec (list A).
Proof.
  refine (Codec (fun v => length v = n /\ Forall (valid c) v)
    (Serialize_elems (ser c)) (unserialize_n (unser c) n) _).
  intros a rest [<- Hv]. by apply unserialize_n_elems.
Defined.

Definition c_pair {A B} (c : codec A) (d : codec B) : codec (A * B).
Proof.
  refine (Codec (fun p => valid c p.1 /\ valid d p.2)
    (fun p => ser c p.1 ++ ser d p.2)
    (a ← unser c; b ← unser d; mret (a, b)) _).
  intros [a b] rest [Ha Hb]. rewrite <- app_assoc, bind_unser by done.
  by rewrite bind_unser by done.
Defined.

(** The size of an element type is the compiler's; the reader is correct for
    any size the allocation chunk of 5000000 bytes accommodates. *)
Definition c_vector {A} (sizeofT : Z) (c : codec A) : codec (list A).
Proof.
  refine (Codec (fun v => 0 < sizeofT <= 5000000 /\ Forall (valid c) v
      /\ Z.of_nat (length v) <= MAX_SIZE)
    (Serialize_vector (ser c)) (Unserialize_vector sizeofT (unser c)) _).
  intros a rest (Hs & Hv & Hl). by apply Unserialize_vector_Serialize.
Defined.

(** A record is serialized field by field: transport along the bijection
    between the record and the tuple of its fields. *)
Definition c_iso {A B} (f : A -> B) (g : B -> A) (Hfg : forall b, f (g b) = b)
    (c : codec A) : codec B.
Proof.
  refine (Codec (fun b => valid c (g b)) (fun b => ser c (g b))
    (a ← unser c; mret (f a)) _).
  intros b rest Hb. rewrite bind_unser by done. unfold mret, reader_ret. by rewrite Hfg.
Defined.

(** ** Properties *)

(** [ReadCompactSize] accepts exactly the canonical encodings: on a stream
    of bytes it returns [n] and the rest if and only if the stream starts with
    what [WriteCompactSize] writes for [n], with [n] at most [MAX_SIZE]. *)
Theorem ReadCompactSize_iff s n s' :
  is_bytes s ->
  ReadCompactSize s = Some (n, s') <->
  s = WriteCompactSize n ++ s' /\ 0 <= n <= MAX_SIZE.
Proof.
  intros Hs. split; [by apply ReadCompactSize_canonical|].
  intros [-> Hn]. by apply ReadCompactSize_Write.
Qed.

Lemma ReadCompactSize_iff_witness :
  is_bytes [253; 44; 1; 7] /\ ReadCompactSize [253; 44; 1; 7] = Some (300, [7]).
Proof.
  assert (H : is_bytes [253; 44; 1; 7]) by (repeat constructor; vm_compute; congruence).
  split; [exact H|]. apply (ReadCompactSize_iff _ _ _ H).
  split; [reflexivity | unfold MAX_SIZE; lia].
Defined.

(** [WriteVarInt] and [ReadVarInt] are inverse at the types they are
    instantiated with, the writer stays inside its buffer
    [tmp[(sizeof(n)*8+6)/7]], and [GetSizeOfVarInt] is the length written. *)
Theorem VarInt_correct n s :
  0 <= n < 2 ^ 64 ->
  ReadVarInt u64 (WriteVarInt n ++ s) = Some (n, s) /\
  (n < 2 ^ 32 -> ReadVarInt u32 (WriteVarInt n ++ s) = Some (n, s)) /\
  (n < 2 ^ 31 -> ReadVarInt i32 (WriteVarInt n ++ s) = Some (n, s)) /\
  Z.of_nat (length (WriteVarInt n)) = GetSizeOfVarInt n /\
  GetSizeOfVarInt n <= (64 + 6) / 7 /\
  (n < 2 ^ 32 -> GetSizeOfVarInt n <= (32 + 6) / 7).
Proof.
  intros Hn. split_and!; intros.
  1: apply ReadVarInt_Write_conv; [done|]; intros; apply u64_id; unfold_width; lia.
  1: apply ReadVarInt_Write_conv; [done|]; intros; apply u32_id; unfold_width; lia.
  1: apply ReadVarInt_Write_conv; [done|]; intros; apply i32_id; unfold_width; lia.
  - pose proof (length_write_varint_loop varint_fuel n true [] 0) as H.
    change (Z.of_nat (@length Z [])) with 0 in H.
    unfold WriteVarInt, GetSizeOfVarInt. lia.
  - pose proof (sizeof_varint_bound varint_fuel 10 n 0) as H.
    unfold GetSizeOfVarInt. change ((64 + 6) / 7) with 10. unfold varint_fuel in *. lia.
  - pose proof (sizeof_varint_bound varint_fuel 5 n 0) as H'.
    unfold GetSizeOfVarInt. change ((32 + 6) / 7) with 5. unfold varint_fuel in *. lia.
Qed.

Lemma VarInt_correct_witness : ReadVarInt u64 (WriteVarInt 16511 ++ [1]) = Some (16511, [1]).
Proof. exact (proj1 (VarInt_correct 16511 [1] ltac:(lia))). Defined.

(** The reader does not detect overflow, so an integer has further encodings
    that wrap around to it; and the table above the code is wrong for 16511
    and 65535, whose encodings are the ones below. *)
Lemma varint_overflow_not_unique :
  exists s, s <> WriteVarInt 5 /\ ReadVarInt u64 s = Some (5, []).
Proof.
  exists (write_varint_loop 11 (2 ^ 64 + 5) true []).
  split; [vm_compute; congruence | reflexivity].
Qed.

Lemma varint_comment_table :
  WriteVarInt 16511 = [0xFF; 0x7F] /\ WriteVarInt 65535 = [0x82; 0xFE; 0x7F].
Proof. split; reflexivity. Qed.
