(* ===== verification/Arith256.v ===== *)
(** * 256-bit unsigned arithmetic (src/src/arith_uint256.{h,cpp})

    [base_uint<256>] as its array of eight 32-bit limbs, every operator as the
    loop the source runs over the limbs, and the proof that each of them
    computes the corresponding operation on [Z] modulo 2^256.  The "compact"
    encoding of difficulty targets is at the end. *)
From S2P Require Import Prelude Serialize.

(** ** Data *)

Definition WIDTH : nat := 8.

(** [uint32_t pn[WIDTH]], least significant limb first. *)
Abbreviation base_uint := (list Z).

Definition bu_wf (l : base_uint) : Prop := length l = WIDTH /\ Forall is_u32 l.

(** The number an array of limbs stands for. *)
Fixpoint bu_val (l : base_uint) : Z :=
  match l with
  | [] => 0
  | x :: l => x + 2 ^ 32 * bu_val l
  end.

(** ** Operations *)

Definition bu_zero : base_uint := repeat 0 WIDTH.

(** Conversion from [uint64_t]. *)
Definition bu_of_u64 (b : Z) : base_uint :=
  u32 b :: u32 (Z.shiftr b 32) :: repeat 0 (WIDTH - 2).

Fixpoint add_loop (carry : Z) (a b : base_uint) : base_uint :=
  match a, b with
  | x :: a, y :: b =>
      let n := u64 (carry + x + y) in
      Z.land n 0xffffffff :: add_loop (Z.shiftr n 32) a b
  | _, _ => []
  end.

Definition bu_add (a b : base_uint) : base_uint := add_loop 0 a b.

(** [while (++pn[i] == 0 && i < WIDTH-1) i++] *)
Fixpoint bu_incr (l : base_uint) : base_uint :=
  match l with
  | [] => []
  | x :: l => let x' := u32 (x + 1) in if x' =? 0 then x' :: bu_incr l else x' :: l
  end.

(** [while (--pn[i] == (uint32_t)-1 && i < WIDTH-1) i++] *)
Fixpoint bu_decr (l : base_uint) : base_uint :=
  match l with
  | [] => []
  | x :: l =>
      let x' := u32 (x - 1) in if x' =? 0xffffffff then x' :: bu_decr l else x' :: l
  end.

Definition bu_not (l : base_uint) : base_uint := map (fun x => u32 (Z.lnot x)) l.

Definition bu_neg (l : base_uint) : base_uint := bu_incr (bu_not l).

Definition bu_sub (a b : base_uint) : base_uint := bu_add a (bu_neg b).

Fixpoint mul32_loop (carry b32 : Z) (l : base_uint) : base_uint :=
  match l with
  | [] => []
  | x :: l =>
      let n := u64 (carry + u64 (b32 * x)) in
      Z.land n 0xffffffff :: mul32_loop (Z.shiftr n 32) b32 l
  end.

Definition bu_mul32 (l : base_uint) (b32 : Z) : base_uint := mul32_loop 0 b32 l.

(** The inner loop of [operator*=]: [pn] is the suffix of the result from
    index [j] on, so the test [i + j < WIDTH] is the end of [pn]. *)
Fixpoint mul_row (carry aj : Z) (pn b : base_uint) : base_uint :=
  match pn, b with
  | x :: pn, y :: b =>
      let n := u64 (carry + x + u64 (aj * y)) in
      Z.land n 0xffffffff :: mul_row (Z.shiftr n 32) aj pn b
  | _, _ => []
  end.

(** The outer loop: row [j] no longer touches the limbs below [j]. *)
Fixpoint mul_rows (a b pn : base_uint) : base_uint :=
  match a with
  | [] => []
  | aj :: a =>
      match mul_row 0 aj pn b with
      | [] => []
      | p :: pn => p :: mul_rows a b pn
      end
  end.

Definition bu_mul (a b : base_uint) : base_uint := mul_rows a b bu_zero.

(** [pn[i] |= v] *)
Definition lor_at (i : nat) (v : Z) (pn : base_uint) : base_uint :=
  alter (fun x => Z.lor x v) i pn.

Definition bu_shl (a : base_uint) (shift : Z) : base_uint :=
  let k := Z.to_nat (shift / 32) in
  let shift := shift mod 32 in
  fold_left (fun pn i =>
    let pn :=
      if (i + k + 1 <? WIDTH)%nat && negb (shift =? 0)
      then lor_at (i + k + 1) (Z.shiftr (nth i a 0) (32 - shift)) pn else pn in
    if (i + k <? WIDTH)%nat
    then lor_at (i + k) (u32 (Z.shiftl (nth i a 0) shift)) pn else pn)
    (seq 0 WIDTH) bu_zero.

Definition bu_shr (a : base_uint) (shift : Z) : base_uint :=
  let k := Z.to_nat (shift / 32) in
  let shift := shift mod 32 in
  fold_left (fun pn i =>
    let pn :=
      if (k + 1 <=? i)%nat && negb (shift =? 0)
      then lor_at (i - k - 1) (u32 (Z.shiftl (nth i a 0) (32 - shift))) pn else pn in
    if (k <=? i)%nat
    then lor_at (i - k) (Z.shiftr (nth i a 0) shift) pn else pn)
    (seq 0 WIDTH) bu_zero.

(** [CompareTo] from the most significant limb down.  The source first tests
    that neither array lies in the first page of memory; objects never do. *)
Fixpoint compare_msb (a b : base_uint) : Z :=
  match a, b with
  | x :: a, y :: b => if x <? y then -1 else if x >? y then 1 else compare_msb a b
  | _, _ => 0
  end.

Definition CompareTo (a b : base_uint) : Z := compare_msb (rev a) (rev b).

Definition EqualTo (l : base_uint) (b : Z) : bool :=
  match l with
  | p0 :: p1 :: hi =>
      forallb (fun x => x =? 0) hi && (p1 =? Z.shiftr b 32) && (p0 =? Z.land b 0xffffffff)
  | _ => false
  end.

(** [for (int bits = 31; bits > 0; bits--)] on a non-zero limb. *)
Fixpoint limb_bits (bits : nat) (w pos : Z) : Z :=
  match bits with
  | O => 32 * pos + 1
  | S bits' =>
      if negb (Z.land w (Z.shiftl 1 (Z.of_nat bits)) =? 0)
      then 32 * pos + Z.of_nat bits + 1
      else limb_bits bits' w pos
  end.

Fixpoint bits_msb (l : base_uint) : Z :=
  match l with
  | [] => 0
  | w :: l => if w =? 0 then bits_msb l else limb_bits 31 w (Z.of_nat (length l))
  end.

Definition bu_bits (l : base_uint) : Z := bits_msb (rev l).

(** [while (shift >= 0)], with [n] the number of iterations left. *)
Fixpoint div_loop (n : nat) (num div quot : base_uint) : base_uint :=
  match n with
  | O => quot
  | S shift =>
      if CompareTo num div >=? 0
      then div_loop shift (bu_sub num div) (bu_shr div 1)
             (lor_at (shift / 32) (Z.shiftl 1 (Z.of_nat (shift mod 32))) quot)
      else div_loop shift num (bu_shr div 1) quot
  end.

(** [None] is the [uint_error] thrown on division by zero. *)
Definition bu_div (num div : base_uint) : option base_uint :=
  let num_bits := bu_bits num in
  let div_bits := bu_bits div in
  if div_bits =? 0 then None
  else if div_bits >? num_bits then Some bu_zero
  else
    let shift := num_bits - div_bits in
    Some (div_loop (S (Z.to_nat shift)) num (bu_shl div shift) bu_zero).

Definition GetLow64 (l : base_uint) : Z := Z.lor (nth 0 l 0) (Z.shiftl (nth 1 l 0) 32).

(** ** The compact encoding *)

(** The value and the flags [pfNegative], [pfOverflow]. *)
Definition SetCompact (nCompact : Z) : base_uint * bool * bool :=
  let nSize := Z.shiftr nCompact 24 in
  let nWord := Z.land nCompact 0x007fffff in
  let '(v, nWord) :=
    if nSize <=? 3 then
      let nWord := Z.shiftr nWord (8 * (3 - nSize)) in (bu_of_u64 nWord, nWord)
    else (bu_shl (bu_of_u64 nWord) (8 * (nSize - 3)), nWord) in
  (v,
   negb (nWord =? 0) && negb (Z.land nCompact 0x00800000 =? 0),
   negb (nWord =? 0) && ((nSize >? 34) ||
                         ((nWord >? 0xff) && (nSize >? 33)) ||
                         ((nWord >? 0xffff) && (nSize >? 32)))).

(** [None] is a failed assertion. *)
Definition GetCompact (l : base_uint) (fNegative : bool) : option Z :=
  let nSize := (bu_bits l + 7) / 8 in
  let nCompact :=
    if nSize <=? 3 then u32 (u64 (Z.shiftl (GetLow64 l) (8 * (3 - nSize))))
    else u32 (GetLow64 (bu_shr l (8 * (nSize - 3)))) in
  let '(nCompact, nSize) :=
    if negb (Z.land nCompact 0x00800000 =? 0)
    then (Z.shiftr nCompact 8, nSize + 1) else (nCompact, nSize) in
  if negb (Z.land nCompact (Z.lnot 0x007fffff) =? 0) then None
  else if negb (nSize <? 256) then None
  else
    let nCompact := Z.lor nCompact (Z.shiftl nSize 24) in
    Some (Z.lor nCompact
            (if fNegative && negb (Z.land nCompact 0x007fffff =? 0) then 0x00800000 else 0)).

(** [ArithToUint256] and [UintToArith256]: the limbs as little-endian bytes. *)
Definition ArithToUint256 (a : base_uint) : bytes := concat (map (le_bytes 4) a).

Fixpoint UintToArith256_loop (n : nat) (b : bytes) : base_uint :=
  match n with
  | O => []
  | S n => le_value (take 4 b) :: UintToArith256_loop n (drop 4 b)
  end.

Definition UintToArith256 (b : bytes) : base_uint := UintToArith256_loop WIDTH b.

(** ** Lemmas: values and carries *)

Create HintDb limbs.

Lemma land_ffffffff n : Z.land n 0xffffffff = n mod 2 ^ 32.
Proof. exact (Z.land_ones n 32 ltac:(lia)). Qed.

Lemma shiftr_32 n : Z.shiftr n 32 = n / 2 ^ 32.
Proof. by rewrite Z.shiftr_div_pow2. Qed.

(** The modulus of [n] limbs. *)
Definition limb_mod (n : nat) : Z := 2 ^ (32 * Z.of_nat n).

Lemma limb_mod_S n : limb_mod (S n) = 2 ^ 32 * limb_mod n.
Proof. unfold limb_mod. rewrite <- Z.pow_add_r by lia. f_equal. lia. Qed.

Lemma limb_mod_pos n : 0 < limb_mod n.
Proof. apply Z.pow_pos_nonneg; lia. Qed.

Lemma bu_val_range l : Forall is_u32 l -> 0 <= bu_val l < limb_mod (length l).
Proof.
  induction 1 as [|x l Hx _ IH]; [done|].
  cbn [bu_val length]. rewrite limb_mod_S. unfold is_u32 in Hx. lia.
Qed.

Lemma bu_val_wf_range l : bu_wf l -> 0 <= bu_val l < 2 ^ 256.
Proof. intros [Hl Hf]. pose proof (bu_val_range l Hf). by rewrite Hl in *. Qed.

(** One step of every carry loop: the low word stays, the high word moves on. *)
Lemma limb_carry n v M :
  0 < M -> n mod 2 ^ 32 + 2 ^ 32 * ((n / 2 ^ 32 + v) mod M) = (n + 2 ^ 32 * v) mod (2 ^ 32 * M).
Proof.
  intros. rewrite (Z.rem_mul_r (n + 2 ^ 32 * v)) by lia.
  rewrite (Z.mul_comm (2 ^ 32) v), Z.mod_add, Z.div_add by lia. done.
Qed.

Lemma mod_u32 n : is_u32 (n mod 2 ^ 32).
Proof. apply u32_range. Qed.

Lemma bu_val_inj a b :
  length a = length b -> Forall is_u32 a -> Forall is_u32 b -> bu_val a = bu_val b -> a = b.
Proof.
  intros Hl Ha. revert b Hl. induction Ha as [|x a Hx Ha IH]; intros [|y b] Hl Hb He; try done.
  apply Forall_cons_1 in Hb as [Hy Hb]. cbn [bu_val length] in *. unfold is_u32 in *.
  assert (x = y /\ bu_val a = bu_val b) as [-> Hv] by lia.
  f_equal. apply IH; auto; lia.
Qed.

(** ** Lemmas: addition, negation, subtraction *)

Lemma add_loop_val carry a b :
  length a = length b -> Forall is_u32 a -> Forall is_u32 b -> 0 <= carry <= 1 ->
  bu_val (add_loop carry a b) = (carry + bu_val a + bu_val b) mod limb_mod (length a) /\
  Forall is_u32 (add_loop carry a b) /\ length (add_loop carry a b) = length a.
Proof.
  intros Hl Ha. revert carry b Hl. induction Ha as [|x a Hx Ha IH];
    intros carry [|y b] Hl Hb Hc; try done.
  { cbn. split_and!; [by rewrite Z.mod_1_r | constructor | done]. }
  apply Forall_cons_1 in Hb as [Hy Hb]. cbn [bu_val length add_loop] in *. unfold is_u32 in Hx, Hy.
  rewrite u64_id, land_ffffffff, shiftr_32 by (unfold is_u64; lia).
  set (n := carry + x + y).
  assert (0 <= n / 2 ^ 32 <= 1) by (split; [apply Z.div_pos; lia|];
    apply Z.lt_succ_r, Z.div_lt_upper_bound; lia).
  destruct (IH (n / 2 ^ 32) b) as (Hv & Hf & Hlen); [lia|done|done|].
  rewrite Hv, limb_mod_S, <- Z.add_assoc, limb_carry by apply limb_mod_pos.
  split_and!; [f_equal; lia | | by rewrite Hlen].
  constructor; [apply mod_u32 | done].
Qed.

Lemma bu_add_val a b : bu_wf a -> bu_wf b ->
  bu_val (bu_add a b) = (bu_val a + bu_val b) mod 2 ^ 256 /\ bu_wf (bu_add a b).
Proof.
  intros [La Ha] [Lb Hb]. destruct (add_loop_val 0 a b) as (Hv & Hf & Hl); [lia|done..|].
  unfold bu_add. rewrite Hv, La. split; [done|]. split; [by rewrite Hl | done].
Qed.

Lemma bu_incr_val l : Forall is_u32 l ->
  bu_val (bu_incr l) = (bu_val l + 1) mod limb_mod (length l) /\
  Forall is_u32 (bu_incr l) /\ length (bu_incr l) = length l.
Proof.
  induction 1 as [|x l Hx Hl IH]; [by rewrite Z.mod_1_r|].
  destruct IH as (Hv & Hf & Hlen). pose proof (bu_val_range l Hl).
  pose proof (limb_mod_pos (length l)).
  cbn [bu_incr]. unfold u32, is_u32 in *.
  destruct (Z.eq_dec x (2 ^ 32 - 1)) as [->|Hne].
  - replace ((2 ^ 32 - 1 + 1) mod 2 ^ 32) with 0 by done. rewrite Z.eqb_refl.
    cbn [bu_val length]. rewrite Hv, limb_mod_S, Hlen. split_and!; [|by constructor|done].
    rewrite Z.add_0_l, <- Z.mul_mod_distr_l by lia. f_equal. lia.
  - rewrite Z.mod_small by lia. destruct (Z.eqb_spec (x + 1) 0); [lia|].
    cbn [bu_val length]. rewrite limb_mod_S, Z.mod_small by lia.
    split_and!; [lia | constructor; [unfold is_u32; lia | done] | done].
Qed.

Lemma bu_not_val l : Forall is_u32 l ->
  bu_val (bu_not l) = limb_mod (length l) - 1 - bu_val l /\
  Forall is_u32 (bu_not l) /\ length (bu_not l) = length l.
Proof.
  induction 1 as [|x l Hx Hl IH]; [done|].
  destruct IH as (Hv & Hf & Hlen). cbn [bu_not map bu_val length].
  fold (bu_not l). rewrite Hv, Hlen, limb_mod_S.
  assert (Hn : u32 (Z.lnot x) = 2 ^ 32 - 1 - x).
  { unfold u32, is_u32 in *. unfold Z.lnot.
    replace (Z.pred (- x)) with (2 ^ 32 - 1 - x + (-1) * 2 ^ 32) by lia.
    rewrite Z.mod_add, Z.mod_small; lia. }
  rewrite Hn. split_and!; [lia | constructor; [unfold is_u32 in *; lia | done] | done].
Qed.

Lemma bu_neg_val l : bu_wf l -> bu_val (bu_neg l) = (- bu_val l) mod 2 ^ 256 /\ bu_wf (bu_neg l).
Proof.
  intros [Hl Hf]. destruct (bu_not_val l Hf) as (Hv & Hf' & Hl').
  destruct (bu_incr_val _ Hf') as (Hv2 & Hf2 & Hl2). unfold bu_neg.
  rewrite Hv2, Hv, Hl', Hl. change (limb_mod WIDTH) with (2 ^ 256).
  split; [|split; [by rewrite Hl2, Hl', Hl | done]].
  replace (2 ^ 256 - 1 - bu_val l + 1) with (- bu_val l + 1 * 2 ^ 256) by lia.
  apply Z.mod_add. lia.
Qed.

Lemma bu_sub_val a b : bu_wf a -> bu_wf b ->
  bu_val (bu_sub a b) = (bu_val a - bu_val b) mod 2 ^ 256 /\ bu_wf (bu_sub a b).
Proof.
  intros Ha Hb. destruct (bu_neg_val b Hb) as [Hv Hw].
  destruct (bu_add_val a (bu_neg b) Ha Hw) as [Hv2 Hw2].
  split; [|done]. unfold bu_sub. rewrite Hv2, Hv, Zplus_mod_idemp_r. done.
Qed.

(** ** Lemmas: multiplication *)

Lemma mul32_loop_val carry b32 l :
  Forall is_u32 l -> is_u32 b32 -> is_u32 carry ->
  bu_val (mul32_loop carry b32 l) = (carry + b32 * bu_val l) mod limb_mod (length l) /\
  Forall is_u32 (mul32_loop carry b32 l) /\ length (mul32_loop carry b32 l) = length l.
Proof.
  intros Hl Hb. revert carry. induction Hl as [|x l Hx Hl IH]; intros carry Hc.
  { by rewrite Z.mod_1_r. }
  cbn [mul32_loop bu_val length]. unfold is_u32 in Hx, Hb, Hc.
  assert (0 <= b32 * x <= (2 ^ 32 - 1) * (2 ^ 32 - 1)) by nia.
  rewrite !u64_id, land_ffffffff, shiftr_32 by (rewrite ?u64_id; unfold is_u64; lia).
  set (n := carry + b32 * x).
  assert (is_u32 (n / 2 ^ 32)).
  { split; [apply Z.div_pos; lia | apply Z.div_lt_upper_bound; lia]. }
  destruct (IH (n / 2 ^ 32)) as (Hv & Hf & Hlen); [done|].
  rewrite Hv, limb_mod_S, limb_carry by apply limb_mod_pos.
  split_and!; [f_equal; lia | | by rewrite Hlen].
  constructor; [apply mod_u32 | done].
Qed.

Lemma mul_row_val carry aj pn b :
  Forall is_u32 pn -> Forall is_u32 b -> (length pn <= length b)%nat ->
  is_u32 aj -> is_u32 carry ->
  bu_val (mul_row carry aj pn b) = (carry + bu_val pn + aj * bu_val b) mod limb_mod (length pn) /\
  Forall is_u32 (mul_row carry aj pn b) /\ length (mul_row carry aj pn b) = length pn.
Proof.
  intros Hp. revert carry b. induction Hp as [|x pn Hx Hp IH]; intros carry b Hb Hl Ha Hc.
  { cbn. split_and!; [by rewrite Z.mod_1_r | constructor | done]. }
  destruct b as [|y b]; [simpl in Hl; lia|]. apply Forall_cons_1 in Hb as [Hy Hb].
  cbn [mul_row bu_val length] in *. unfold is_u32 in Hx, Hy, Ha, Hc.
  assert (0 <= aj * y <= (2 ^ 32 - 1) * (2 ^ 32 - 1)) by nia.
  rewrite !u64_id, land_ffffffff, shiftr_32 by (rewrite ?u64_id; unfold is_u64; lia).
  set (n := carry + x + aj * y).
  assert (is_u32 (n / 2 ^ 32)).
  { split; [apply Z.div_pos; lia | apply Z.div_lt_upper_bound; lia]. }
  destruct (IH (n / 2 ^ 32) b) as (Hv & Hf & Hlen); [done|lia|done..|].
  rewrite Hv, limb_mod_S, <- Z.add_assoc, limb_carry by apply limb_mod_pos.
  split_and!; [f_equal; lia | | by rewrite Hlen].
  constructor; [apply mod_u32 | done].
Qed.

Lemma mul_rows_val a b pn :
  Forall is_u32 a -> Forall is_u32 b -> Forall is_u32 pn ->
  length a = length pn -> (length pn <= length b)%nat ->
  bu_val (mul_rows a b pn) = (bu_val pn + bu_val a * bu_val b) mod limb_mod (length pn) /\
  Forall is_u32 (mul_rows a b pn) /\ length (mul_rows a b pn) = length pn.
Proof.
  intros Ha Hb. revert pn. induction Ha as [|aj a Haj Ha IH]; intros pn Hp Hl Hle.
  { destruct pn; [|done]. cbn. by rewrite Z.mod_1_r. }
  destruct (mul_row_val 0 aj pn b) as (Hv & Hf & Hlen); [done..|unfold is_u32; lia|].
  cbn [mul_rows length bu_val] in *. destruct (mul_row 0 aj pn b) as [|p r]; [simpl in *; lia|].
  apply Forall_cons_1 in Hf as [Hpu Hr]. cbn [length bu_val] in *.
  destruct (IH r) as (Hv2 & Hf2 & Hlen2); [done|lia|lia|].
  rewrite Hv2, Hlen2, <- Hlen, limb_mod_S in *.
  split_and!; [|by constructor|done].
  pose proof (limb_carry p (bu_val r + bu_val a * bu_val b) (limb_mod (length r))
    (limb_mod_pos _)) as Hc.
  rewrite (Z.mod_small p), (Z.div_small p), Z.add_0_l in Hc by (unfold is_u32 in *; lia).
  rewrite Hc. replace (p + 2 ^ 32 * (bu_val r + bu_val a * bu_val b))
    with (p + 2 ^ 32 * bu_val r + 2 ^ 32 * (bu_val a * bu_val b)) by lia.
  rewrite Hv, Zplus_mod_idemp_l. f_equal. lia.
Qed.

Lemma bu_zero_wf : bu_wf bu_zero.
Proof. split; [done|]. repeat constructor; unfold is_u32; lia. Qed.

Lemma bu_mul_val a b : bu_wf a -> bu_wf b ->
  bu_val (bu_mul a b) = (bu_val a * bu_val b) mod 2 ^ 256 /\ bu_wf (bu_mul a b).
Proof.
  intros [La Ha] [Lb Hb]. destruct bu_zero_wf as [Lz Hz].
  destruct (mul_rows_val a b bu_zero) as (Hv & Hf & Hl); [done..|lia|lia|].
  unfold bu_mul. rewrite Hv. split; [done|]. split; [by rewrite Hl | done].
Qed.
#[export] Hint Resolve bu_zero_wf limb_mod_pos mod_u32 : limbs.

(** ** Lemmas: bits of an array of limbs *)

Lemma nth_is_u32 l i : Forall is_u32 l -> is_u32 (nth i l 0).
Proof.
  intros H. revert i. induction H; intros [|i]; simpl; auto; unfold is_u32; lia.
Qed.

Lemma testbit_u32_high w i : is_u32 w -> 32 <= i -> Z.testbit w i = false.
Proof.
  unfold is_u32. intros. rewrite <- (Z.mod_small w (2 ^ 32)) by lia.
  by apply Z.mod_pow2_bits_high.
Qed.

Lemma testbit_cons x v i : is_u32 x -> 0 <= i ->
  Z.testbit (x + 2 ^ 32 * v) i = if i <? 32 then Z.testbit x i else Z.testbit v (i - 32).
Proof.
  intros Hx Hi. unfold is_u32 in Hx.
  case_bool.
  - rewrite <- (Z.mod_pow2_bits_low (x + 2 ^ 32 * v) 32 i) by lia.
    rewrite (Z.mul_comm (2 ^ 32)), Z.mod_add, Z.mod_small by lia. done.
  - replace i with ((i - 32) + 32) at 1 by lia.
    rewrite <- Z.div_pow2_bits by lia.
    rewrite (Z.mul_comm (2 ^ 32)), Z.div_add, Z.div_small by lia. done.
Qed.

Lemma testbit_bu_val l i : Forall is_u32 l -> 0 <= i ->
  Z.testbit (bu_val l) i = Z.testbit (nth (Z.to_nat (i / 32)) l 0) (i mod 32).
Proof.
  intros Hl. revert i. induction Hl as [|x l Hx Hl IH]; intros i Hi.
  { destruct (Z.to_nat _); by rewrite !Z.bits_0. }
  cbn [bu_val]. rewrite testbit_cons by done. case_bool.
  - rewrite Z.div_small, Z.mod_small by lia. done.
  - rewrite IH by lia.
    replace (i / 32) with ((i - 32) / 32 + 1) by
      (rewrite <- Z.div_add by lia; f_equal; lia).
    replace (i mod 32) with ((i - 32) mod 32) by
      (rewrite <- (Z.mod_add (i - 32) 1) by lia; f_equal; lia).
    rewrite Z2Nat.inj_add by (try apply Z.div_pos; lia).
    rewrite Nat.add_1_r. done.
Qed.

Lemma length_lor_at i v l : length (lor_at i v l) = length l.
Proof. apply length_alter. Qed.

Lemma nth_lor_at m i v l :
  nth m (lor_at i v l) 0 =
  if decide (m = i /\ (i < length l)%nat) then Z.lor (nth m l 0) v else nth m l 0.
Proof.
  unfold lor_at. revert m i. induction l as [|x l IH]; intros m i.
  { destruct (decide _) as [[_ H]|_]; [simpl in H; lia|]. by destruct i, m. }
  destruct i as [|i], m as [|m].
  1-3: destruct (decide _) as [[H1 H2]|H]; first [done | lia | destruct H; simpl; lia].
  etrans; [apply IH|]. destruct (decide (m = i /\ _)) as [[-> H]|H];
    destruct (decide (S _ = _ /\ _)) as [[H1 H2]|H1]; simpl in *; try done; lia.
Qed.

Lemma lor_u32 x v : is_u32 x -> is_u32 v -> is_u32 (Z.lor x v).
Proof.
  unfold is_u32. intros Hx Hv. split; [apply Z.lor_nonneg; lia|].
  destruct (Z.eq_dec (Z.lor x v) 0) as [->|]; [lia|].
  apply Z.log2_lt_pow2; [pose proof (proj2 (Z.lor_nonneg x v)); lia|].
  rewrite Z.log2_lor by lia.
  assert (forall z, 0 <= z < 2 ^ 32 -> Z.log2 z < 32) as Hlog.
  { intros z Hz. destruct (Z.eq_dec z 0) as [->|]; [done|]. apply Z.log2_lt_pow2; lia. }
  pose proof (Hlog x Hx). pose proof (Hlog v Hv). lia.
Qed.

Lemma lor_at_u32 i v l : Forall is_u32 l -> is_u32 v -> Forall is_u32 (lor_at i v l).
Proof.
  intros Hl Hv. unfold lor_at. apply Forall_alter; [done|]. intros x _ Hx. by apply lor_u32.
Qed.

(** The arrays a shift loop builds are determined by their limbs. *)
Lemma testbit_u32_shiftl w s i : 0 <= i -> 0 <= s ->
  Z.testbit (u32 (Z.shiftl w s)) i = (i <? 32) && (s <=? i) && Z.testbit w (i - s).
Proof.
  intros. unfold u32. case_bool.
  - rewrite Z.mod_pow2_bits_low by lia. case_bool; simpl.
    + by rewrite Z.shiftl_spec_high by lia.
    + by rewrite Z.shiftl_spec_low by lia.
  - by rewrite Z.mod_pow2_bits_high by lia.
Qed.

Lemma shiftr_u32 w s : is_u32 w -> 0 <= s -> is_u32 (Z.shiftr w s).
Proof.
  unfold is_u32. intros. rewrite Z.shiftr_div_pow2 by lia.
  assert (0 < 2 ^ s) by (apply Z.pow_pos_nonneg; lia).
  split; [apply Z.div_pos; lia|]. apply Z.div_lt_upper_bound; nia.
Qed.

(** ** Lemmas: shifts *)

(** Limb [m] of a shifted array, whatever the order the loop fills it in. *)
Definition shl_limb (a : base_uint) (k : nat) (s : Z) (m : nat) : Z :=
  Z.lor (if (k + 1 <=? m)%nat && negb (s =? 0)
         then Z.shiftr (nth (m - k - 1) a 0) (32 - s) else 0)
        (if (k <=? m)%nat then u32 (Z.shiftl (nth (m - k) a 0) s) else 0).

Definition shr_limb (a : base_uint) (k : nat) (s : Z) (m : nat) : Z :=
  Z.lor (if (m + k <? WIDTH)%nat then Z.shiftr (nth (m + k) a 0) s else 0)
        (if (m + k + 1 <? WIDTH)%nat && negb (s =? 0)
         then u32 (Z.shiftl (nth (m + k + 1) a 0) (32 - s)) else 0).

Lemma bu_shl_limbs a shift :
  bu_shl a shift =
  map (shl_limb a (Z.to_nat (shift / 32)) (shift mod 32)) (seq 0 WIDTH).
Proof.
  unfold bu_shl. generalize (Z.to_nat (shift / 32)) as k, (shift mod 32) as s. intros k s.
  destruct (s =? 0) eqn:Es; unfold shl_limb; rewrite Es;
    do 8 (destruct k as [|k]; [cbn -[Z.lor Z.shiftr Z.shiftl u32 nth Z.sub];
      rewrite ?Z.lor_0_r, ?Z.lor_0_l; reflexivity|]); reflexivity.
Qed.

Lemma bu_shr_limbs a shift :
  bu_shr a shift =
  map (shr_limb a (Z.to_nat (shift / 32)) (shift mod 32)) (seq 0 WIDTH).
Proof.
  unfold bu_shr. generalize (Z.to_nat (shift / 32)) as k, (shift mod 32) as s. intros k s.
  destruct (s =? 0) eqn:Es; unfold shr_limb; rewrite Es;
    do 8 (destruct k as [|k]; [cbn -[Z.lor Z.shiftr Z.shiftl u32 nth Z.sub];
      rewrite ?Z.lor_0_r, ?Z.lor_0_l; reflexivity|]); reflexivity.
Qed.

Lemma zero_u32 : is_u32 0.
Proof. unfold is_u32. lia. Qed.
#[export] Hint Resolve lor_u32 shiftr_u32 zero_u32 u32_range nth_is_u32 : limbs.

Lemma map_limbs_wf f : (forall m, is_u32 (f m)) -> bu_wf (map f (seq 0 WIDTH)).
Proof.
  intros Hf. split; [done|]. cbn. repeat (constructor; [apply Hf|]). constructor.
Qed.

(** Bit [i] of an array given limb by limb. *)
Lemma testbit_map_limbs f i :
  (forall m, is_u32 (f m)) -> 0 <= i < 256 ->
  Z.testbit (bu_val (map f (seq 0 WIDTH))) i = Z.testbit (f (Z.to_nat (i / 32))) (i mod 32).
Proof.
  intros Hf Hi. rewrite testbit_bu_val by (try apply map_limbs_wf; auto; lia).
  assert ((Z.to_nat (i / 32) < WIDTH)%nat).
  { change WIDTH with (Z.to_nat 8). apply Z2Nat.inj_lt; [apply Z.div_pos; lia | lia |].
    apply Z.div_lt_upper_bound; lia. }
  rewrite (nth_indep _ 0 (f 0%nat)) by (by rewrite length_map, length_seq).
  rewrite map_nth, seq_nth by done. done.
Qed.

Lemma shl_limb_u32 a k s m : bu_wf a -> 0 <= s < 32 -> is_u32 (shl_limb a k s m).
Proof.
  intros [_ Ha] Hs. unfold shl_limb. apply lor_u32; case_match; auto with limbs.
  apply shiftr_u32; [auto with limbs | lia].
Qed.

Lemma shr_limb_u32 a k s m : bu_wf a -> 0 <= s < 32 -> is_u32 (shr_limb a k s m).
Proof.
  intros [_ Ha] Hs. unfold shr_limb. apply lor_u32; case_match; auto with limbs.
  apply shiftr_u32; [auto with limbs | lia].
Qed.

Lemma bits256_inj x y : 0 <= x < 2 ^ 256 -> 0 <= y < 2 ^ 256 ->
  (forall i, 0 <= i < 256 -> Z.testbit x i = Z.testbit y i) -> x = y.
Proof.
  intros Hx Hy H. apply Z.bits_inj'. intros i Hi. destruct (Z.lt_ge_cases i 256); [auto|].
  rewrite <- (Z.mod_small x (2 ^ 256)), <- (Z.mod_small y (2 ^ 256)) by lia.
  by rewrite !Z.mod_pow2_bits_high by lia.
Qed.

Lemma nat_test_leb (k : nat) z : 0 <= z -> (k <=? Z.to_nat z)%nat = (Z.of_nat k <=? z).
Proof. intros. destruct (Nat.leb_spec k (Z.to_nat z)), (Z.leb_spec (Z.of_nat k) z); lia. Qed.

Lemma nth_over l i : bu_wf l -> (WIDTH <= i)%nat -> nth i l 0 = 0.
Proof. intros [Hl _] Hi. apply nth_overflow. lia. Qed.

Lemma testbit_limb a m b : bu_wf a -> 0 <= m -> 0 <= b < 32 ->
  Z.testbit (bu_val a) (32 * m + b) = Z.testbit (nth (Z.to_nat m) a 0) b.
Proof.
  intros Ha Hm Hb. rewrite testbit_bu_val by (try apply Ha; lia).
  rewrite (Z.mul_comm 32), Z.div_add_l, Z.div_small, Z.add_0_r by lia.
  by rewrite Z.add_comm, Z.mod_add, Z.mod_small by lia.
Qed.

Lemma bu_shl_val a shift : bu_wf a -> 0 <= shift ->
  bu_val (bu_shl a shift) = (bu_val a * 2 ^ shift) mod 2 ^ 256 /\ bu_wf (bu_shl a shift).
Proof.
  intros Ha Hsh. rewrite bu_shl_limbs. set (q := shift / 32). set (s := shift mod 32).
  assert (Hs : 0 <= s < 32) by (apply Z.mod_pos_bound; lia).
  assert (Hq : 0 <= q) by (apply Z.div_pos; lia).
  assert (Heq : shift = 32 * q + s) by (apply Z.div_mod; lia).
  assert (Hu := fun m => shl_limb_u32 a (Z.to_nat q) s m Ha Hs).
  pose proof (map_limbs_wf _ Hu) as Hw. split; [|done].
  apply bits256_inj; [by apply bu_val_wf_range | apply Z.mod_pos_bound; lia |].
  intros i Hi. rewrite testbit_map_limbs, Z.mod_pow2_bits_low, Z.mul_pow2_bits by lia || done.
  set (m := i / 32). set (b := i mod 32).
  assert (Hb : 0 <= b < 32) by (apply Z.mod_pos_bound; lia).
  assert (Hm : 0 <= m) by (apply Z.div_pos; lia).
  assert (Hi' : i = 32 * m + b) by (apply Z.div_mod; lia). clearbody m b q s.
  unfold shl_limb. rewrite Z.lor_spec.
  replace (Z.to_nat q + 1)%nat with (Z.to_nat (q + 1)) by lia. rewrite !nat_test_leb by lia.
  rewrite !Z2Nat.id by lia.
  destruct (Z.leb_spec q m).
  2: { destruct (Z.leb_spec (q + 1) m); [lia|]. simpl andb. cbv iota. rewrite !Z.bits_0.
       rewrite (Z.testbit_neg_r (bu_val a)) by lia. done. }
  rewrite testbit_u32_shiftl by lia. destruct (Z.ltb_spec b 32); [|lia].
  replace (Z.to_nat m - Z.to_nat q)%nat with (Z.to_nat (m - q)) by lia.
  destruct (Z.leb_spec s b).
  - replace (i - shift) with (32 * (m - q) + (b - s)) by lia. rewrite testbit_limb by (auto; lia). simpl.
    case_match; rewrite ?Z.bits_0; [|done]. rewrite Z.shiftr_spec by lia.
    by rewrite (testbit_u32_high _ (b + (32 - s))) by (try apply nth_is_u32; try apply Ha; lia).
  - simpl. rewrite orb_false_r. destruct (Z.eqb_spec s 0); [lia|].
    destruct (Z.leb_spec (q + 1) m); simpl.
    + rewrite Z.shiftr_spec by lia.
      replace (i - shift) with (32 * (m - q - 1) + (b + (32 - s))) by lia.
      rewrite testbit_limb by (auto; lia). do 2 f_equal. lia.
    + rewrite Z.bits_0, (Z.testbit_neg_r (bu_val a)) by lia. done.
Qed.

Lemma shiftr_nth a i s : bu_wf a ->
  (if (i <? WIDTH)%nat then Z.shiftr (nth i a 0) s else 0) = Z.shiftr (nth i a 0) s.
Proof.
  intros Ha. destruct (Nat.ltb_spec i WIDTH); [done|]. by rewrite nth_over, Z.shiftr_0_l.
Qed.

Lemma bu_shr_val a shift : bu_wf a -> 0 <= shift ->
  bu_val (bu_shr a shift) = bu_val a / 2 ^ shift /\ bu_wf (bu_shr a shift).
Proof.
  intros Ha Hsh. rewrite bu_shr_limbs. set (q := shift / 32). set (s := shift mod 32).
  assert (Hs : 0 <= s < 32) by (apply Z.mod_pos_bound; lia).
  assert (Hq : 0 <= q) by (apply Z.div_pos; lia).
  assert (Heq : shift = 32 * q + s) by (apply Z.div_mod; lia).
  assert (Hu := fun m => shr_limb_u32 a (Z.to_nat q) s m Ha Hs).
  pose proof (map_limbs_wf _ Hu) as Hw. split; [|done].
  pose proof (bu_val_wf_range a Ha).
  assert (0 < 2 ^ shift) by (apply Z.pow_pos_nonneg; lia).
  apply bits256_inj; [by apply bu_val_wf_range | |].
  { split; [apply Z.div_pos; lia|]. apply Z.div_lt_upper_bound; nia. }
  intros i Hi. rewrite testbit_map_limbs, Z.div_pow2_bits by lia || done.
  set (m := i / 32). set (b := i mod 32).
  assert (Hb : 0 <= b < 32) by (apply Z.mod_pos_bound; lia).
  assert (Hm : 0 <= m) by (apply Z.div_pos; lia).
  assert (Hi' : i = 32 * m + b) by (apply Z.div_mod; lia). clearbody m b q s.
  unfold shr_limb. rewrite Z.lor_spec, shiftr_nth, Z.shiftr_spec by (auto; lia).
  replace (Z.to_nat m + Z.to_nat q)%nat with (Z.to_nat (m + q)) by lia.
  replace (Z.to_nat (m + q) + 1)%nat with (Z.to_nat (m + q + 1)) by lia.
  assert (Hhi : Z.testbit (if (Z.to_nat (m + q + 1) <? WIDTH)%nat && negb (s =? 0)
      then u32 (Z.shiftl (nth (Z.to_nat (m + q + 1)) a 0) (32 - s)) else 0) b =
    (32 <=? b + s) && Z.testbit (nth (Z.to_nat (m + q + 1)) a 0) (b + s - 32)).
  { destruct (Nat.ltb_spec (Z.to_nat (m + q + 1)) WIDTH); simpl.
    - destruct (Z.eqb_spec s 0); simpl; [|rewrite testbit_u32_shiftl by lia].
      + rewrite Z.bits_0. destruct (Z.leb_spec 32 (b + s)); [lia | done].
      + destruct (Z.ltb_spec b 32); [|lia]. simpl.
        destruct (Z.leb_spec (32 - s) b), (Z.leb_spec 32 (b + s)); try lia.
        simpl. f_equal. lia.
    - rewrite nth_over, !Z.bits_0 by done. by rewrite andb_false_r. }
  rewrite Hhi. destruct (Z.leb_spec 32 (b + s)).
  - rewrite testbit_u32_high by (try apply nth_is_u32; try apply Ha; lia). simpl.
    replace (i + shift) with (32 * (m + q + 1) + (b + s - 32)) by lia.
    by rewrite testbit_limb by (auto; lia).
  - rewrite orb_false_r. replace (i + shift) with (32 * (m + q) + (b + s)) by lia.
    by rewrite testbit_limb by (auto; lia).
Qed.

(** ** Lemmas: comparison and bit length *)

Lemma bu_val_snoc l x : bu_val (l ++ [x]) = bu_val l + limb_mod (length l) * x.
Proof.
  induction l as [|y l IH]; [cbn -[Z.mul]; unfold limb_mod; simpl; lia|].
  cbn [app bu_val length]. rewrite IH, limb_mod_S. lia.
Qed.

Lemma bu_val_rev_cons x l : bu_val (rev (x :: l)) = bu_val (rev l) + limb_mod (length l) * x.
Proof. simpl rev. by rewrite bu_val_snoc, length_rev. Qed.

Lemma Forall_rev_u32 l : Forall is_u32 l -> Forall is_u32 (rev l).
Proof. intros. rewrite <- reverse_rev || idtac. by apply Forall_rev. Qed.

Lemma compare_msb_spec a b :
  length a = length b -> Forall is_u32 a -> Forall is_u32 b ->
  compare_msb a b =
  match bu_val (rev a) ?= bu_val (rev b) with Lt => -1 | Eq => 0 | Gt => 1 end.
Proof.
  intros Hl Ha. revert b Hl. induction Ha as [|x a Hx Ha IH]; intros [|y b] Hl Hb; try done.
  apply Forall_cons_1 in Hb as [Hy Hb]. injection Hl as Hl.
  pose proof (bu_val_range _ (Forall_rev_u32 _ Ha)) as Ra.
  pose proof (bu_val_range _ (Forall_rev_u32 _ Hb)) as Rb.
  rewrite length_rev in Ra, Rb. rewrite !bu_val_rev_cons, <- Hl in *.
  cbn [compare_msb]. rewrite Z.gtb_ltb.
  destruct (Z.ltb_spec x y); [|destruct (Z.ltb_spec y x)].
  - rewrite (proj2 (Z.compare_lt_iff _ _)) by nia. done.
  - rewrite (proj2 (Z.compare_gt_iff _ _)) by nia. done.
  - replace y with x by lia. rewrite IH by done.
    rewrite !(Z.add_comm (bu_val _)), Z.add_compare_mono_l. done.
Qed.

Lemma CompareTo_spec a b : bu_wf a -> bu_wf b ->
  CompareTo a b = match bu_val a ?= bu_val b with Lt => -1 | Eq => 0 | Gt => 1 end.
Proof.
  intros [La Ha] [Lb Hb]. unfold CompareTo.
  rewrite compare_msb_spec by (rewrite ?length_rev; try apply Forall_rev_u32; auto; lia).
  by rewrite !rev_involutive.
Qed.

Lemma land_pow2 w n : 0 <= n -> Z.land w (Z.shiftl 1 n) = if Z.testbit w n then 2 ^ n else 0.
Proof.
  intros Hn. rewrite Z.shiftl_1_l. apply Z.bits_inj'. intros i Hi.
  rewrite Z.land_spec. destruct (Z.eq_dec i n) as [->|].
  - rewrite Z.pow2_bits_true by lia. destruct (Z.testbit w n); rewrite ?Z.bits_0; [|done].
    by rewrite Z.pow2_bits_true.
  - rewrite Z.pow2_bits_false, andb_false_r by lia.
    destruct (Z.testbit w n); rewrite ?Z.bits_0; [|done]. by rewrite Z.pow2_bits_false by lia.
Qed.

Lemma limb_bits_spec bits w pos :
  0 < w < 2 ^ Z.of_nat (S bits) -> limb_bits bits w pos = 32 * pos + Z.log2 w + 1.
Proof.
  induction bits as [|bits IH]; intros Hw.
  { assert (w = 1) as -> by (simpl in Hw; lia). simpl. lia. }
  cbn [limb_bits]. rewrite land_pow2 by lia.
  rewrite Nat2Z.inj_succ, Z.pow_succ_r in Hw by lia.
  destruct (Z.testbit w (Z.of_nat (S bits))) eqn:Ht.
  - destruct (Z.eqb_spec (2 ^ Z.of_nat (S bits)) 0) as [H0|_]; [lia|]. simpl.
    destruct (Z.lt_ge_cases w (2 ^ Z.of_nat (S bits))) as [Hlt|Hge].
    { rewrite <- (Z.mod_small w (2 ^ Z.of_nat (S bits))), Z.mod_pow2_bits_high in Ht by lia.
      done. }
    rewrite (Z.log2_unique w (Z.of_nat (S bits))); [lia|lia|].
    split; [lia|]. rewrite Z.pow_succ_r; lia.
  - simpl. apply IH. split; [lia|].
    destruct (Z.lt_ge_cases w (2 ^ Z.of_nat (S bits))) as [Hlt|Hge]; [done|].
    rewrite Z.testbit_false in Ht by lia.
    rewrite <- (Z.div_unique w (2 ^ Z.of_nat (S bits)) 1 (w - 2 ^ Z.of_nat (S bits))) in Ht by lia.
    done.
Qed.

Lemma bits_msb_spec l : Forall is_u32 l ->
  bits_msb l = if bu_val (rev l) =? 0 then 0 else Z.log2 (bu_val (rev l)) + 1.
Proof.
  induction 1 as [|w l Hw Hl IH]; [done|].
  pose proof (bu_val_range _ (Forall_rev_u32 _ Hl)) as R. rewrite length_rev in R.
  rewrite bu_val_rev_cons. cbn [bits_msb]. unfold is_u32 in Hw.
  destruct (Z.eqb_spec w 0) as [->|Hne]; [by rewrite Z.mul_0_r, Z.add_0_r|].
  rewrite limb_bits_spec by (simpl; lia).
  destruct (Z.eqb_spec (bu_val (rev l) + limb_mod (length l) * w) 0); [nia|].
  rewrite (Z.log2_unique (bu_val (rev l) + limb_mod (length l) * w) (32 * Z.of_nat (length l) + Z.log2 w)); [lia| |].
  { pose proof (Z.log2_nonneg w). lia. }
  destruct (Z.log2_spec w) as [H1 H2]; [lia|].
  rewrite Z.pow_add_r, <- Z.add_succ_r, Z.pow_add_r by (pose proof (Z.log2_nonneg w); lia).
  fold (limb_mod (length l)). nia.
Qed.

Lemma bu_bits_spec l : bu_wf l ->
  bu_bits l = if bu_val l =? 0 then 0 else Z.log2 (bu_val l) + 1.
Proof.
  intros [_ Hf]. unfold bu_bits.
  by rewrite bits_msb_spec, rev_involutive by (by apply Forall_rev_u32).
Qed.

(** ** Lemmas: division *)

Lemma lor_at_val q n : bu_wf q -> (n < 256)%nat ->
  bu_val (lor_at (n / 32) (Z.shiftl 1 (Z.of_nat (n mod 32))) q) =
  Z.lor (bu_val q) (2 ^ Z.of_nat n) /\
  bu_wf (lor_at (n / 32) (Z.shiftl 1 (Z.of_nat (n mod 32))) q).
Proof.
  intros Hq Hn. rewrite Z.shiftl_1_l, Nat2Z.inj_mod. change (Z.of_nat 32) with 32.
  set (b := Z.of_nat n mod 32). assert (Hb : 0 <= b < 32) by (apply Z.mod_pos_bound; lia).
  assert (Hu : is_u32 (2 ^ b)).
  { split; [lia|]. apply Z.pow_lt_mono_r; lia. }
  assert (Hw : bu_wf (lor_at (n / 32) (2 ^ b) q)).
  { split; [rewrite length_lor_at; apply Hq | apply lor_at_u32; [apply Hq | done]]. }
  split; [|done]. apply Z.bits_inj'. intros i Hi.
  assert (Hdiv : (n / 32 < length q)%nat).
  { destruct Hq as [-> _]. apply Nat.Div0.div_lt_upper_bound. unfold WIDTH. lia. }
  rewrite Z.lor_spec, !testbit_bu_val, nth_lor_at by (try apply Hw; try apply Hq; lia).
  destruct (Z.eq_dec i (Z.of_nat n)) as [->|Hne].
  - rewrite Z.pow2_bits_true, orb_true_r by lia.
    rewrite decide_True.
    2: { split; [|done]. rewrite <- (Nat2Z.id (n / 32)), Nat2Z.inj_div. done. }
    rewrite Z.lor_spec, Z.pow2_bits_true, orb_true_r by lia. done.
  - rewrite (Z.pow2_bits_false (Z.of_nat n)), orb_false_r by lia.
    case_decide as Hd; [|done]. destruct Hd as [Hd _].
    rewrite Z.lor_spec, Z.pow2_bits_false; [apply orb_false_r|]. intros Hib. apply Hne.
    apply (f_equal Z.of_nat) in Hd. rewrite Z2Nat.id, Nat2Z.inj_div in Hd
      by (apply Z.div_pos; lia).
    rewrite (Z.div_mod i 32), (Z.div_mod (Z.of_nat n) 32) by lia.
    change (Z.of_nat 32) with 32 in Hd. subst b. lia.
Qed.

Lemma div_loop_val D n num div quot :
  0 < D -> bu_wf num -> bu_wf div -> bu_wf quot -> (n <= 256)%nat ->
  bu_val num < D * 2 ^ Z.of_nat n ->
  (forall m, n = S m -> bu_val div = D * 2 ^ Z.of_nat m) ->
  bu_val quot mod 2 ^ Z.of_nat n = 0 ->
  bu_val (div_loop n num div quot) = bu_val quot + bu_val num / D /\
  bu_wf (div_loop n num div quot).
Proof.
  intros HD. revert num div quot. induction n as [|n IH];
    intros num div quot Hn Hd Hq Hle Hlt Hdv Hqm.
  { simpl. rewrite Z.div_small by (pose proof (bu_val_wf_range num Hn); simpl in Hlt; lia).
    split; [lia | done]. }
  specialize (Hdv n eq_refl).
  pose proof (bu_val_wf_range num Hn). pose proof (bu_val_wf_range div Hd).
  assert (Hp : 0 < 2 ^ Z.of_nat n) by (apply Z.pow_pos_nonneg; lia).
  rewrite Nat2Z.inj_succ, Z.pow_succ_r in Hlt, Hqm by lia.
  destruct (bu_shr_val div 1) as [Hs Hsw]; [done|lia|].
  assert (Hnext : forall m, n = S m -> bu_val (bu_shr div 1) = D * 2 ^ Z.of_nat m).
  { intros m ->. rewrite Hs, Hdv, Nat2Z.inj_succ, Z.pow_succ_r by lia.
    symmetry. apply Z.div_unique_exact; lia. }
  assert (Hqm' : bu_val quot mod 2 ^ Z.of_nat n = 0).
  { rewrite (Z.mul_comm 2) in Hqm. rewrite Z.rem_mul_r in Hqm by lia.
    pose proof (Z.mod_pos_bound (bu_val quot) (2 ^ Z.of_nat n)).
    pose proof (Z.mod_pos_bound (bu_val quot / 2 ^ Z.of_nat n) 2). nia. }
  cbn [div_loop]. rewrite CompareTo_spec by done. rewrite Z.geb_leb.
  destruct (Z.leb_spec (bu_val div) (bu_val num)) as [Hge|Hl].
  - replace (0 <=? _) with true by (destruct (Z.compare_spec (bu_val num) (bu_val div)); done || lia).
    destruct (bu_sub_val num div) as [Hv Hvw]; [done..|].
    rewrite Z.mod_small in Hv by lia.
    destruct (lor_at_val quot n) as [Hl Hlw]; [done|lia|].
    rewrite (lor_low _ _ (Z.succ (Z.of_nat n))) in Hl by
      (rewrite ?Z.pow_succ_r; try done; lia).
    destruct (IH (bu_sub num div) (bu_shr div 1) _ Hvw Hsw Hlw) as [Hr Hrw]; try lia; try done.
    { rewrite Hl, Z.add_mod, Hqm', Z.mod_same, Z.mod_0_l by lia. done. }
    split; [|done]. rewrite Hr, Hl, Hv, Hdv.
    replace (bu_val num - D * 2 ^ Z.of_nat n)
      with (bu_val num + (- 2 ^ Z.of_nat n) * D) by lia.
    rewrite Z.div_add by lia. lia.
  - replace (0 <=? _) with false by (destruct (Z.compare_spec (bu_val num) (bu_val div)); done || lia).
    apply IH; try done; lia.
Qed.

Lemma bu_val_of_u64 b : is_u64 b -> bu_val (bu_of_u64 b) = b /\ bu_wf (bu_of_u64 b).
Proof.
  unfold is_u64. intros Hb. unfold bu_of_u64. rewrite shiftr_32.
  assert (0 <= b / 2 ^ 32 < 2 ^ 32).
  { split; [apply Z.div_pos; lia | apply Z.div_lt_upper_bound; lia]. }
  rewrite (u32_id (b / 2 ^ 32)) by done. split.
  - cbn [bu_val repeat WIDTH Nat.sub]. unfold u32.
    pose proof (Z.div_mod b (2 ^ 32)). lia.
  - split; [done|]. cbn [repeat WIDTH Nat.sub].
    repeat (apply Forall_cons_2; [first [apply zero_u32 | apply u32_range | done]|]).
    apply Forall_nil_2.
Qed.

Lemma bu_div_val num div : bu_wf num -> bu_wf div ->
  match bu_div num div with
  | None => bu_val div = 0
  | Some q => bu_val div <> 0 /\ bu_val q = bu_val num / bu_val div /\ bu_wf q
  end.
Proof.
  intros Hn Hd. unfold bu_div. rewrite !bu_bits_spec by done.
  pose proof (bu_val_wf_range num Hn) as Rn. pose proof (bu_val_wf_range div Hd) as Rd.
  set (N := bu_val num) in *. set (D := bu_val div) in *.
  destruct (Z.eqb_spec D 0) as [|HD]; [done|].
  pose proof (Z.log2_nonneg D). destruct (Z.log2_spec D) as [HD1 HD2]; [lia|].
  destruct (Z.eqb_spec (Z.log2 D + 1) 0); [lia|]. rewrite Z.gtb_ltb.
  destruct (Z.ltb_spec (if N =? 0 then 0 else Z.log2 N + 1) (Z.log2 D + 1)) as [Hlt|Hge].
  { split_and!; [done | | apply bu_zero_wf]. symmetry. apply Z.div_small. split; [lia|].
    destruct (Z.eqb_spec N 0) as [->|]; [lia|].
    apply Z.log2_lt_cancel. lia. }
  destruct (Z.eqb_spec N 0) as [->|HN]; [lia|].
  destruct (Z.log2_spec N) as [HN1 HN2]; [lia|].
  assert (Z.log2 N < 256) by (apply Z.log2_lt_pow2; lia).
  set (sh := Z.log2 N + 1 - (Z.log2 D + 1)). assert (Hsh : 0 <= sh <= 255) by lia.
  destruct (bu_shl_val div sh) as [Hs Hsw]; [done|lia|]. fold D in Hs.
  assert (HND : Z.succ (Z.log2 N) = sh + Z.succ (Z.log2 D)) by lia.
  rewrite HND, Z.pow_add_r in HN2 by lia.
  assert (HL : 2 ^ (sh + Z.succ (Z.log2 D)) <= 2 ^ 256) by (apply Z.pow_le_mono_r; lia).
  rewrite Z.pow_add_r in HL by lia.
  assert (0 < 2 ^ sh) by (apply Z.pow_pos_nonneg; lia).
  rewrite Z.mod_small in Hs by nia.
  destruct (div_loop_val D (S (Z.to_nat sh)) num (bu_shl div sh) bu_zero) as [Hr Hrw];
    try done; try lia; try apply bu_zero_wf.
  { fold N. rewrite Nat2Z.inj_succ, Z2Nat.id, Z.pow_succ_r by lia.
    rewrite Z.pow_succ_r in HN2 by lia. nia. }
  { intros m [= <-]. by rewrite Z2Nat.id by lia. }
Qed.

(** ** Lemmas: the compact encoding *)

(** The number a compact word denotes, before the reduction to 256 bits. *)
Definition compact_value (c : Z) : Z :=
  let nSize := c / 2 ^ 24 in
  let mant := c mod 2 ^ 23 in
  if nSize <=? 3 then mant / 256 ^ (3 - nSize) else mant * 256 ^ (nSize - 3).

(** The compact word of a number: three mantissa bytes, the top bit clear. *)
Definition compact_of (v : Z) : Z :=
  let bits := if v =? 0 then 0 else Z.log2 v + 1 in
  let nSize := (bits + 7) / 8 in
  let m := if nSize <=? 3 then v * 256 ^ (3 - nSize) else v / 256 ^ (nSize - 3) in
  if m <? 2 ^ 23 then m + nSize * 2 ^ 24 else m / 256 + (nSize + 1) * 2 ^ 24.

Lemma pow2_8 k : 0 <= k -> 2 ^ (8 * k) = 256 ^ k.
Proof. intros. by rewrite Z.pow_mul_r by lia. Qed.

Lemma land_bit23 m : 0 <= m < 2 ^ 24 -> (Z.land m 0x00800000 =? 0) = (m <? 2 ^ 23).
Proof.
  intros Hm. change 0x00800000 with (Z.shiftl 1 23). rewrite land_pow2 by lia.
  destruct (Z.testbit m 23) eqn:Ht.
  - destruct (Z.ltb_spec m (2 ^ 23)); [|done].
    rewrite <- (Z.mod_small m (2 ^ 23)), Z.mod_pow2_bits_high in Ht by lia. done.
  - destruct (Z.ltb_spec m (2 ^ 23)); [done|].
    rewrite Z.testbit_false in Ht by lia.
    rewrite <- (Z.div_unique m (2 ^ 23) 1 (m - 2 ^ 23)) in Ht by lia. done.
Qed.

Lemma compact_value_nonneg c : 0 <= c -> 0 <= compact_value c.
Proof.
  intros. unfold compact_value. pose proof (Z.mod_pos_bound c (2 ^ 23)).
  case_bool; [apply Z.div_pos; [lia|] | apply Z.mul_nonneg_nonneg; [lia|]];
    try apply Z.pow_nonneg; try apply Z.pow_pos_nonneg; lia.
Qed.

(** The overflow flag is exactly "the denoted number does not fit 256 bits". *)
Lemma compact_overflow_iff mant nSize :
  0 <= mant < 2 ^ 23 -> 3 < nSize < 256 ->
  negb (mant =? 0) && ((nSize >? 34) || ((mant >? 0xff) && (nSize >? 33)) ||
                       ((mant >? 0xffff) && (nSize >? 32)))
  = (2 ^ 256 <=? mant * 256 ^ (nSize - 3)).
Proof.
  intros Hm Hs. rewrite <- pow2_8 by lia. rewrite !Z.gtb_ltb.
  destruct (Z.eqb_spec mant 0) as [->|]; [done|].
  assert (Hmono : forall k, k <= nSize -> 3 <= k -> 2 ^ (8 * (k - 3)) <= 2 ^ (8 * (nSize - 3)))
    by (intros; apply Z.pow_le_mono_r; lia).
  destruct (Z.ltb_spec 34 nSize).
  { pose proof (Hmono 35 ltac:(lia) ltac:(lia)). simpl. symmetry. apply Z.leb_le. nia. }
  destruct (Z.eq_dec nSize 34) as [->|]; [|destruct (Z.eq_dec nSize 33) as [->|]].
  1, 2: repeat case_bool; simpl; try lia; done.
  assert (2 ^ (8 * (nSize - 3)) <= 2 ^ (8 * (32 - 3))) by (apply Z.pow_le_mono_r; lia).
  destruct (Z.ltb_spec 33 nSize), (Z.ltb_spec 32 nSize); try lia.
  rewrite !andb_false_r. simpl. symmetry. apply Z.leb_gt. nia.
Qed.

Lemma SetCompact_spec c : is_u32 c ->
  let '(v, neg, ovf) := SetCompact c in
  bu_wf v /\ bu_val v = compact_value c mod 2 ^ 256 /\
  ovf = (2 ^ 256 <=? compact_value c) /\
  (neg = true <-> Z.testbit c 23 = true /\ compact_value c <> 0).
Proof.
  unfold is_u32. intros Hc. unfold SetCompact, compact_value.
  change 0x007fffff with (Z.ones 23). rewrite Z.land_ones, Z.shiftr_div_pow2 by lia.
  set (nSize := c / 2 ^ 24). set (mant := c mod 2 ^ 23).
  assert (Hm : 0 <= mant < 2 ^ 23) by (apply Z.mod_pos_bound; lia).
  assert (Hs : 0 <= nSize < 256)
    by (split; [apply Z.div_pos; lia | apply Z.div_lt_upper_bound; lia]).
  change 0x00800000 with (Z.shiftl 1 23). rewrite land_pow2 by lia.
  assert (Hneg : forall w, negb (w =? 0) &&
      negb ((if Z.testbit c 23 then 2 ^ 23 else 0) =? 0) = true <->
      Z.testbit c 23 = true /\ w <> 0).
  { intros w. destruct (Z.testbit c 23), (Z.eqb_spec w 0); simpl; intuition congruence. }
  clearbody nSize mant. destruct (Z.leb_spec nSize 3).
  - rewrite Z.shiftr_div_pow2, pow2_8 by lia.
    assert (0 < 256 ^ (3 - nSize)) by (apply Z.pow_pos_nonneg; lia).
    set (w := mant / 256 ^ (3 - nSize)).
    assert (Hw : 0 <= w < 2 ^ 23)
      by (split; [apply Z.div_pos; lia | apply Z.div_lt_upper_bound; nia]).
    destruct (bu_val_of_u64 w) as [Hv Hwf]; [unfold is_u64; lia|].
    split; [done|]. split; [by rewrite Hv, Z.mod_small by lia|]. split; [|apply Hneg].
    rewrite !Z.gtb_ltb. destruct (Z.leb_spec (2 ^ 256) w); [lia|].
    repeat case_bool; simpl; try lia; rewrite ?andb_false_r; done.
  - destruct (bu_val_of_u64 mant) as [Hv Hwf]; [unfold is_u64; lia|].
    destruct (bu_shl_val (bu_of_u64 mant) (8 * (nSize - 3))) as [Hsv Hsw]; [done|lia|].
    rewrite Hv, pow2_8 in Hsv by lia.
    assert (0 < 256 ^ (nSize - 3)) by (apply Z.pow_pos_nonneg; lia).
    split; [done|]. split; [done|]. split; [apply compact_overflow_iff; lia|]. split.
    + intros [H1 H2]%Hneg. split; [done | nia].
    + intros [H1 H2]. apply Hneg. split; [done | nia].
Qed.

Lemma GetLow64_val l : bu_wf l -> GetLow64 l = bu_val l mod 2 ^ 64.
Proof.
  intros [Hl Hf]. unfold GetLow64.
  destruct l as [|x [|y l]]; [done..|]. apply Forall_cons_1 in Hf as [Hx Hf].
  apply Forall_cons_1 in Hf as [Hy Hf]. unfold is_u32 in *. cbn [nth bu_val].
  rewrite Z.lor_comm, (lor_low _ _ 32), Z.shiftl_mul_pow2 by
    (rewrite ?Z.shiftl_mul_pow2, ?Z.mod_mul by lia; lia).
  replace (x + 2 ^ 32 * (y + 2 ^ 32 * bu_val l))
    with (x + y * 2 ^ 32 + bu_val l * 2 ^ 64) by lia.
  rewrite Z.mod_add, Z.mod_small by lia. lia.
Qed.

(** The mantissa [GetCompact] extracts has at most three bytes. *)
Lemma compact_mantissa_bound v nSize :
  0 <= v < 256 ^ nSize -> 0 <= nSize ->
  0 <= (if nSize <=? 3 then v * 256 ^ (3 - nSize) else v / 256 ^ (nSize - 3)) < 2 ^ 24.
Proof.
  intros Hv Hs. destruct (Z.leb_spec nSize 3).
  - assert (0 < 256 ^ (3 - nSize)) by (apply Z.pow_pos_nonneg; lia).
    assert (Heq : 256 ^ nSize * 256 ^ (3 - nSize) = 2 ^ 24)
      by (rewrite <- Z.pow_add_r by lia; replace (nSize + (3 - nSize)) with 3 by lia; done).
    nia.
  - assert (0 < 256 ^ (nSize - 3)) by (apply Z.pow_pos_nonneg; lia).
    split; [apply Z.div_pos; lia|]. apply Z.div_lt_upper_bound; [lia|].
    replace (2 ^ 24) with (256 ^ 3) by done. rewrite <- Z.pow_add_r by lia.
    replace (nSize - 3 + 3) with nSize by lia. lia.
Qed.

Lemma compact_size_bound v : 0 <= v < 2 ^ 256 ->
  let nSize := ((if v =? 0 then 0 else Z.log2 v + 1) + 7) / 8 in
  0 <= nSize <= 32 /\ v < 256 ^ nSize.
Proof.
  intros Hv. cbn zeta. destruct (Z.eqb_spec v 0) as [->|Hne]; [done|].
  destruct (Z.log2_spec v) as [H1 H2]; [lia|]. pose proof (Z.log2_nonneg v).
  assert (Z.log2 v < 256) by (apply Z.log2_lt_pow2; lia).
  set (n := (Z.log2 v + 1 + 7) / 8).
  assert (0 <= n <= 32 /\ Z.log2 v + 1 <= 8 * n) as [Hn Hb] by (subst n; zlia).
  split; [done|]. rewrite <- pow2_8 by lia. eapply Z.lt_le_trans; [exact H2|].
  apply Z.pow_le_mono_r; lia.
Qed.

Lemma GetCompact_spec l : bu_wf l -> GetCompact l false = Some (compact_of (bu_val l)).
Proof.
  intros Hl. pose proof (bu_val_wf_range l Hl) as Rl. unfold GetCompact, compact_of.
  rewrite bu_bits_spec by done. set (v := bu_val l) in *.
  destruct (compact_size_bound v Rl) as [Hs Hb].
  set (nSize := ((if v =? 0 then 0 else Z.log2 v + 1) + 7) / 8) in *.
  pose proof (compact_mantissa_bound v nSize ltac:(lia) ltac:(lia)) as Hm.
  replace (if nSize <=? 3 then _ else u32 _) with
    (if nSize <=? 3 then v * 256 ^ (3 - nSize) else v / 256 ^ (nSize - 3)).
  2: { destruct (Z.leb_spec nSize 3).
    - assert (256 ^ nSize <= 256 ^ 3) by (apply Z.pow_le_mono_r; lia).
      rewrite GetLow64_val by done. fold v. rewrite (Z.mod_small v) by lia.
      rewrite Z.shiftl_mul_pow2, pow2_8 by lia.
      rewrite u64_id, u32_id by (unfold is_u32, is_u64; lia). done.
    - destruct (bu_shr_val l (8 * (nSize - 3))) as [Hr Hw]; [done|lia|].
      rewrite GetLow64_val, Hr, pow2_8 by (done || lia). fold v.
      rewrite Z.mod_small, u32_id by (unfold is_u32; lia). done. }
  set (m := if nSize <=? 3 then _ else _) in *. clearbody m nSize.
  rewrite land_bit23 by done. cbn [andb negb]. rewrite ?Z.lor_0_r.
  assert (Hout : forall m' n', 0 <= m' < 2 ^ 23 -> 0 <= n' < 256 ->
    (if negb (Z.land m' (Z.lnot 0x007fffff) =? 0) then None
     else if negb (n' <? 256) then None
     else Some (Z.lor (Z.lor m' (Z.shiftl n' 24)) 0)) = Some (m' + n' * 2 ^ 24)).
  { intros m' n' Hm' Hn'. rewrite Z.lor_0_r.
    change (Z.land m' (Z.lnot (Z.ones 23))) with (Z.land m' (Z.lnot 0x007fffff)).
    replace (Z.land m' (Z.lnot 0x007fffff)) with 0.
    2: { symmetry. rewrite <- Z.ldiff_land. change 0x007fffff with (Z.ones 23).
         rewrite Z.ldiff_ones_r, Z.shiftr_div_pow2, Z.div_small by lia. done. }
    destruct (Z.ltb_spec n' 256); [|lia]. simpl.
    rewrite Z.lor_comm, (lor_low _ _ 24), Z.shiftl_mul_pow2 by
      (rewrite ?Z.shiftl_mul_pow2, ?Z.mod_mul by lia; lia). f_equal. lia. }
  destruct (Z.ltb_spec m (2 ^ 23)); cbn [negb andb].
  - apply Hout; lia.
  - rewrite Z.shiftr_div_pow2 by lia. change (2 ^ 8) with 256. apply Hout; [|lia].
    split; [apply Z.div_pos; lia | apply Z.div_lt_upper_bound; lia].
Qed.

Lemma compact_fields m e : 0 <= m < 2 ^ 23 -> 0 <= e ->
  (m + e * 2 ^ 24) / 2 ^ 24 = e /\ (m + e * 2 ^ 24) mod 2 ^ 23 = m.
Proof.
  intros. rewrite Z.div_add, Z.div_small by lia. split; [lia|].
  replace (e * 2 ^ 24) with (e * 2 * 2 ^ 23) by lia.
  rewrite Z.mod_add, Z.mod_small by lia. done.
Qed.

Lemma compact_value_fields m e : 0 <= m < 2 ^ 23 -> 0 <= e ->
  compact_value (m + e * 2 ^ 24) =
  if e <=? 3 then m / 256 ^ (3 - e) else m * 256 ^ (e - 3).
Proof. intros. unfold compact_value. by destruct (compact_fields m e) as [-> ->]. Qed.

(** Rounding down to a multiple of [K] when [v] is at least [2^15 * K]. *)
Lemma round_down v K : 0 < K -> 2 ^ 15 * K <= v ->
  v / K * K <= v /\ (v - v / K * K) * 2 ^ 15 <= v.
Proof. intros. pose proof (Z.div_mod v K). pose proof (Z.mod_pos_bound v K). lia. Qed.

Lemma compact_of_round v : 0 <= v < 2 ^ 256 ->
  let v' := compact_value (compact_of v) in
  v' <= v /\ (v - v') * 2 ^ 15 <= v /\ (v < 2 ^ 23 -> v' = v).
Proof.
  intros Hv. cbn zeta. unfold compact_of.
  destruct (compact_size_bound v Hv) as [Hs Hb].
  set (nSize := ((if v =? 0 then 0 else Z.log2 v + 1) + 7) / 8) in *.
  assert (Hlow : v = 0 \/ (1 <= nSize /\ 256 ^ (nSize - 1) <= v)).
  { destruct (Z.eqb_spec v 0) as [->|Hne]; [by left|]. right.
    destruct (Z.log2_spec v) as [H1 _]; [lia|]. pose proof (Z.log2_nonneg v).
    assert (1 <= nSize /\ 8 * (nSize - 1) <= Z.log2 v) as [? ?] by (subst nSize; zlia).
    split; [done|]. rewrite <- pow2_8 by lia. etrans; [|exact H1].
    apply Z.pow_le_mono_r; lia. }
  pose proof (compact_mantissa_bound v nSize ltac:(lia) ltac:(lia)) as Hm.
  clearbody nSize.
  assert (Hexp : forall k, 0 <= k -> 0 < 256 ^ k) by (intros; apply Z.pow_pos_nonneg; lia).
  destruct (Z.ltb_spec (if nSize <=? 3 then v * 256 ^ (3 - nSize) else v / 256 ^ (nSize - 3))
    (2 ^ 23)) as [Hlt|Hge].
  - rewrite compact_value_fields by lia. destruct (Z.leb_spec nSize 3).
    + rewrite Z.div_mul by (specialize (Hexp (3 - nSize)); lia). lia.
    + destruct (Hlow) as [->|[_ Hl]]; [rewrite Z.div_0_l by (specialize (Hexp (nSize - 3)); lia); lia|].
      replace (nSize - 1) with (2 + (nSize - 3)) in Hl by lia. rewrite Z.pow_add_r in Hl by lia.
      specialize (Hexp (nSize - 3) ltac:(lia)).
      destruct (round_down v (256 ^ (nSize - 3))); [done|lia|].
      split_and!; [done..|]. intros.
      assert (256 ^ 1 <= 256 ^ (nSize - 3)) by (apply Z.pow_le_mono_r; lia). lia.
  - rewrite compact_value_fields by (split; [apply Z.div_pos | apply Z.div_lt_upper_bound]; lia) || lia.
    destruct (Z.leb_spec nSize 3), (Z.leb_spec (nSize + 1) 3); try lia.
    + replace (3 - nSize) with (Z.succ (3 - (nSize + 1))) by lia.
      rewrite Z.pow_succ_r by lia. specialize (Hexp (3 - (nSize + 1)) ltac:(lia)).
      replace (v * (256 * 256 ^ (3 - (nSize + 1)))) with (v * 256 ^ (3 - (nSize + 1)) * 256) by lia.
      rewrite Z.div_mul, Z.div_mul by lia. lia.
    + assert (nSize = 3) as -> by lia. change (256 ^ (3 - 3)) with 1 in *.
      rewrite Z.mul_1_r in *. change (256 ^ (3 + 1 - 3)) with 256.
      destruct (round_down v 256); [lia|lia|]. split_and!; [done..|lia].
    + specialize (Hexp (nSize - 3) ltac:(lia)).
      rewrite Z.div_div by lia.
      replace (nSize + 1 - 3) with (Z.succ (nSize - 3)) by lia. rewrite Z.pow_succ_r by lia.
      rewrite (Z.mul_comm 256).
      assert (2 ^ 23 * 256 ^ (nSize - 3) <= v)
        by (pose proof (Z.mul_div_le v (256 ^ (nSize - 3))); nia).
      destruct (round_down v (256 ^ (nSize - 3) * 256)); [lia|lia|].
      split_and!; [done..|]. intros. nia.
Qed.

Lemma compact_of_shape v : 0 <= v < 2 ^ 256 ->
  is_u32 (compact_of v) /\ Z.testbit (compact_of v) 23 = false.
Proof.
  intros Hv. destruct (compact_size_bound v Hv) as [Hs Hb]. unfold compact_of.
  set (nSize := ((if v =? 0 then 0 else Z.log2 v + 1) + 7) / 8) in *.
  pose proof (compact_mantissa_bound v nSize ltac:(lia) ltac:(lia)) as Hm.
  set (m := if nSize <=? 3 then _ else _) in *. clearbody m nSize.
  assert (Hsh : forall m' e, 0 <= m' < 2 ^ 23 -> 0 <= e <= 33 ->
    is_u32 (m' + e * 2 ^ 24) /\ Z.testbit (m' + e * 2 ^ 24) 23 = false).
  { intros m' e Hm' He. split; [unfold is_u32; lia|]. rewrite Z.testbit_false by lia.
    replace (e * 2 ^ 24) with (e * 2 * 2 ^ 23) by lia.
    by rewrite Z.div_add, Z.div_small, Z.add_0_l, Z.mod_mul by lia. }
  case_bool; apply Hsh; try lia.
  split; [apply Z.div_pos; lia | apply Z.div_lt_upper_bound; lia].
Qed.

(** ** Properties *)

(** The limb loops of [base_uint<256>] compute addition, subtraction,
    negation, multiplication (by a word and by another number) and left shift
    modulo 2^256, right shift and comparison on the numbers the arrays stand
    for, and keep every limb a 32-bit word. *)
Theorem base_uint_refines_Z a b w shift :
  bu_wf a -> bu_wf b -> is_u32 w -> 0 <= shift ->
  (bu_wf (bu_add a b) /\ bu_val (bu_add a b) = (bu_val a + bu_val b) mod 2 ^ 256) /\
  (bu_wf (bu_sub a b) /\ bu_val (bu_sub a b) = (bu_val a - bu_val b) mod 2 ^ 256) /\
  (bu_wf (bu_neg a) /\ bu_val (bu_neg a) = (- bu_val a) mod 2 ^ 256) /\
  (bu_wf (bu_mul a b) /\ bu_val (bu_mul a b) = (bu_val a * bu_val b) mod 2 ^ 256) /\
  (bu_wf (bu_mul32 a w) /\ bu_val (bu_mul32 a w) = (bu_val a * w) mod 2 ^ 256) /\
  (bu_wf (bu_shl a shift) /\ bu_val (bu_shl a shift) = (bu_val a * 2 ^ shift) mod 2 ^ 256) /\
  (bu_wf (bu_shr a shift) /\ bu_val (bu_shr a shift) = bu_val a / 2 ^ shift) /\
  CompareTo a b = Z.sgn (bu_val a - bu_val b).
Proof.
  intros Ha Hb Hw Hs.
  pose proof (bu_add_val a b Ha Hb). pose proof (bu_sub_val a b Ha Hb).
  pose proof (bu_neg_val a Ha). pose proof (bu_mul_val a b Ha Hb).
  pose proof (bu_shl_val a shift Ha Hs). pose proof (bu_shr_val a shift Ha Hs).
  destruct (mul32_loop_val 0 w a (proj2 Ha) Hw zero_u32) as (Hv & Hf & Hl).
  rewrite (proj1 Ha) in Hv, Hl. rewrite Z.mul_comm in Hv.
  rewrite CompareTo_spec by done.
  destruct_and?. split_and!; try done.
  destruct (Z.compare_spec (bu_val a) (bu_val b)); lia.
Qed.

Lemma base_uint_refines_Z_witness :
  bu_val (bu_sub (bu_of_u64 5) (bu_of_u64 7)) = 2 ^ 256 - 2.
Proof.
  destruct (base_uint_refines_Z (bu_of_u64 5) (bu_of_u64 7) 3 1) as (_ & [_ H] & _).
  - apply bu_val_of_u64. unfold is_u64. lia.
  - apply bu_val_of_u64. unfold is_u64. lia.
  - unfold is_u32. lia.
  - lia.
  - rewrite H. reflexivity.
Defined.

(** [operator/=] throws exactly on a zero divisor and otherwise returns
    the exact quotient: the shift-and-subtract loop is integer division. *)
Theorem base_uint_division num div :
  bu_wf num -> bu_wf div ->
  (bu_div num div = None <-> bu_val div = 0) /\
  (forall q, bu_div num div = Some q -> bu_wf q /\ bu_val q = bu_val num / bu_val div).
Proof.
  intros Hn Hd. pose proof (bu_div_val num div Hn Hd) as H.
  destruct (bu_div num div) as [q|].
  - destruct H as (H1 & H2 & H3). split; [done|]. intros q' [= <-]. done.
  - split; [done|]. intros q' [=].
Qed.

Lemma base_uint_division_witness :
  exists q, bu_div (bu_of_u64 1000) (bu_of_u64 7) = Some q /\ bu_val q = 142.
Proof.
  eexists. split; [vm_compute; reflexivity|].
  refine (proj2 (proj2 (base_uint_division (bu_of_u64 1000) (bu_of_u64 7) _ _) _ _)).
  - apply bu_val_of_u64. unfold is_u64. lia.
  - apply bu_val_of_u64. unfold is_u64. lia.
  - vm_compute. reflexivity.
Defined.

(** [SetCompact] decodes a difficulty word: the value is the denoted
    number reduced to 256 bits, the overflow flag holds exactly when the
    denoted number does not fit (so without it the value is exact), and the
    negative flag exactly when the sign bit is set on a non-zero number. *)
Theorem SetCompact_decodes c :
  is_u32 c ->
  let '(v, neg, ovf) := SetCompact c in
  bu_wf v /\ bu_val v = compact_value c mod 2 ^ 256 /\
  (ovf = true <-> 2 ^ 256 <= compact_value c) /\
  (ovf = false -> bu_val v = compact_value c) /\
  (neg = true <-> Z.testbit c 23 = true /\ compact_value c <> 0).
Proof.
  intros Hc. pose proof (SetCompact_spec c Hc) as H.
  destruct (SetCompact c) as [[v neg] ovf]. destruct H as (Hw & Hv & -> & Hn).
  rewrite Z.leb_le, Z.leb_gt. pose proof (compact_value_nonneg c ltac:(unfold is_u32 in Hc; lia)).
  split_and!; try done; try apply Hn. intros. rewrite Hv. apply Z.mod_small. lia.
Qed.

Lemma SetCompact_decodes_witness : bu_val (SetCompact 0x05123456).1.1 = 0x1234560000.
Proof.
  pose proof (SetCompact_decodes 0x05123456 ltac:(unfold is_u32; lia)) as H.
  revert H. generalize (SetCompact 0x05123456). intros [[v neg] ovf] (_ & H & _).
  etransitivity; [exact H | reflexivity].
Defined.

(** [GetCompact] never trips its assertions, and [SetCompact] decodes its
    result without raising either flag to the number rounded down with a
    relative error of at most 2^-15, and exactly to the number below 2^23. *)
Theorem GetCompact_SetCompact l :
  bu_wf l ->
  exists c, GetCompact l false = Some c /\ is_u32 c /\
    let '(l', neg, ovf) := SetCompact c in
    neg = false /\ ovf = false /\
    bu_val l' <= bu_val l /\ (bu_val l - bu_val l') * 2 ^ 15 <= bu_val l /\
    (bu_val l < 2 ^ 23 -> bu_val l' = bu_val l).
Proof.
  intros Hl. pose proof (bu_val_wf_range l Hl) as Rl.
  destruct (compact_of_shape (bu_val l) Rl) as [Hu Ht].
  destruct (compact_of_round (bu_val l) Rl) as (H1 & H2 & H3).
  eexists. split; [by apply GetCompact_spec|]. split; [done|].
  pose proof (SetCompact_spec _ Hu) as H.
  destruct (SetCompact _) as [[l' neg] ovf]. destruct H as (Hw & Hv & -> & Hn).
  pose proof (compact_value_nonneg (compact_of (bu_val l)) ltac:(unfold is_u32 in Hu; lia)).
  rewrite Z.mod_small in Hv by lia. rewrite Hv. split_and!; try done.
  - destruct neg; [|done]. destruct (proj1 Hn eq_refl). congruence.
  - apply Z.leb_gt. lia.
Qed.

Lemma GetCompact_SetCompact_witness :
  exists c, GetCompact (bu_of_u64 0xc0de000000) false = Some c /\ is_u32 c.
Proof.
  destruct (GetCompact_SetCompact (bu_of_u64 0xc0de000000)) as (c & H & H1 & _).
  { apply bu_val_of_u64. unfold is_u64. lia. }
  exists c. split; [exact H | exact H1].
Defined.
