(* ===== verification/Transaction.v ===== *)
(** * Transactions (src/src/primitives/transaction.{h,cpp}, src/src/zcash/Proof.hpp)

    Outpoints, inputs, outputs, Sapling spends and outputs, JoinSplits with
    their two proof systems, and transactions with their versioned wire format.
    A [uint256] is the number whose little-endian bytes it holds; hashing is a
    parameter ([SerializeHash] of the serialized bytes). *)
From S2P Require Import Prelude Serialize.

(** ** Amounts *)

Definition COIN : Z := 100000000.
Definition CENT : Z := 1000000.

(** [MAX_MONEY] is a global the chain parameters set. *)
Definition MoneyRange (MAX_MONEY nValue : Z) : bool :=
  (nValue >=? 0) && (nValue <=? MAX_MONEY).

(** ** Data *)

Record COutPoint := mkCOutPoint { hash : Z; n : Z }.

Definition COutPoint_null : COutPoint := {| hash := 0; n := u32 (-1) |}.

Definition COutPoint_IsNull (o : COutPoint) : bool := (hash o =? 0) && (n o =? u32 (-1)).

Record CTxIn := mkCTxIn { prevout : COutPoint; scriptSig : bytes; nSequence : Z }.

Definition CTxIn_IsFinal (i : CTxIn) : bool := nSequence i =? 2 ^ 32 - 1.

(** The memory-only member [interest] is neither initialised nor serialized. *)
Record CTxOut := mkCTxOut { nValue : Z; scriptPubKey : bytes }.

Definition CTxOut_SetNull : CTxOut := {| nValue := -1; scriptPubKey := [] |}.

Definition CTxOut_IsNull (o : CTxOut) : bool := nValue o =? -1.

Record SpendDescription := mkSpendDescription {
  sd_cv : Z; sd_anchor : Z; sd_nullifier : Z; sd_rk : Z;
  sd_zkproof : bytes; sd_spendAuthSig : bytes
}.

Record OutputDescription := mkOutputDescription {
  od_cv : Z; od_cm : Z; od_ephemeralKey : Z;
  od_encCiphertext : bytes; od_outCiphertext : bytes; od_zkproof : bytes
}.

(** Compressed curve points: a flag bit and a field element of 32 (G1) or 64 (G2) bytes. *)
Record CompressedPoint := mkCompressedPoint { y_bit : bool; x_coord : Z }.

Record PHGRProof := mkPHGRProof {
  g_A : CompressedPoint; g_A_prime : CompressedPoint; g_B : CompressedPoint;
  g_B_prime : CompressedPoint; g_C : CompressedPoint; g_C_prime : CompressedPoint;
  g_K : CompressedPoint; g_H : CompressedPoint
}.

Inductive SproutProof :=
| PHGR (proof : PHGRProof)
| Groth (proof : bytes).

Record JSDescription := mkJSDescription {
  vpub_old : Z; vpub_new : Z; js_anchor : Z;
  nullifiers : list Z; commitments : list Z; js_ephemeralKey : Z;
  ciphertexts : list bytes; randomSeed : Z; macs : list Z; js_proof : SproutProof
}.

Record CMutableTransaction := mkCMutableTransaction {
  fOverwintered : bool; nVersion : Z; nVersionGroupId : Z;
  vin : list CTxIn; vout : list CTxOut; nLockTime : Z; nExpiryHeight : Z;
  valueBalance : Z; vShieldedSpend : list SpendDescription;
  vShieldedOutput : list OutputDescription; vjoinsplit : list JSDescription;
  joinSplitPubKey : Z; joinSplitSig : bytes; bindingSig : bytes
}.

Definition zero_sig : bytes := repeat 0 64.

Definition CMutableTransaction_default : CMutableTransaction :=
  {| fOverwintered := false; nVersion := 1; nVersionGroupId := 0; vin := []; vout := [];
     nLockTime := 0; nExpiryHeight := 0; valueBalance := 0; vShieldedSpend := [];
     vShieldedOutput := []; vjoinsplit := []; joinSplitPubKey := 0;
     joinSplitSig := zero_sig; bindingSig := zero_sig |}.

Definition OVERWINTER_TX_VERSION : Z := 3.
Definition SAPLING_TX_VERSION : Z := 4.
Definition OVERWINTER_VERSION_GROUP_ID : Z := 0x03C48270.
Definition SAPLING_VERSION_GROUP_ID : Z := 0x892F2085.

(** ** Serialization of the parts *)

Definition ZC_NUM_JS_INPUTS : nat := 2.
Definition ZC_NUM_JS_OUTPUTS : nat := 2.
Definition GROTH_PROOF_SIZE : nat := 48 + 96 + 48.
Definition SAPLING_ENCCIPHERTEXT_SIZE : nat := (1 + 11 + 8 + 32 + 512) + 16.
Definition SAPLING_OUTCIPHERTEXT_SIZE : nat := (32 + 32) + 16.
Definition NOTE_CIPHERTEXT_SIZE : nat := (1 + 8 + 32 + 32 + 512) + 16.

(** [std::array<unsigned char, N>] *)
Definition c_chars (k : nat) : codec bytes := c_array k c_u8.

Definition c_COutPoint : codec COutPoint :=
  c_iso (fun '(h, k) => mkCOutPoint h k) (fun o => (hash o, n o))
    (fun o => match o with mkCOutPoint _ _ => eq_refl end)
    (c_pair c_uint256 c_u32).

Definition c_CTxIn : codec CTxIn :=
  c_iso (fun '(p, (s, q)) => mkCTxIn p s q) (fun i => (prevout i, (scriptSig i, nSequence i)))
    (fun i => match i with mkCTxIn _ _ _ => eq_refl end)
    (c_pair c_COutPoint (c_pair c_bytes c_u32)).

Definition c_CTxOut : codec CTxOut :=
  c_iso (fun '(v, s) => mkCTxOut v s) (fun o => (nValue o, scriptPubKey o))
    (fun o => match o with mkCTxOut _ _ => eq_refl end)
    (c_pair c_i64 c_bytes).

Definition c_SpendDescription : codec SpendDescription :=
  c_iso (fun '(cv, (an, (nf, (rk, (pf, sg))))) => mkSpendDescription cv an nf rk pf sg)
    (fun d => (sd_cv d, (sd_anchor d, (sd_nullifier d, (sd_rk d, (sd_zkproof d, sd_spendAuthSig d))))))
    (fun d => match d with mkSpendDescription _ _ _ _ _ _ => eq_refl end)
    (c_pair c_uint256 (c_pair c_uint256 (c_pair c_uint256 (c_pair c_uint256
      (c_pair (c_chars GROTH_PROOF_SIZE) (c_chars 64)))))).

Definition c_OutputDescription : codec OutputDescription :=
  c_iso (fun '(cv, (cm, (ek, (ec, (oc, pf))))) => mkOutputDescription cv cm ek ec oc pf)
    (fun d => (od_cv d, (od_cm d, (od_ephemeralKey d,
      (od_encCiphertext d, (od_outCiphertext d, od_zkproof d))))))
    (fun d => match d with mkOutputDescription _ _ _ _ _ _ => eq_refl end)
    (c_pair c_uint256 (c_pair c_uint256 (c_pair c_uint256
      (c_pair (c_chars SAPLING_ENCCIPHERTEXT_SIZE)
        (c_pair (c_chars SAPLING_OUTCIPHERTEXT_SIZE) (c_chars GROTH_PROOF_SIZE)))))).

(** The leading byte is the prefix with the flag in bit 0; any other byte is
    rejected when reading. *)
Definition ser_leadingByte (mask : Z) (y : bool) : bytes :=
  ser_writedata8 (if y then Z.lor mask 1 else mask).

Definition unser_leadingByte (mask : Z) : reader bool :=
  leadingByte ← ser_readdata8;
  if negb (Z.land leadingByte (Z.lnot 1) =? mask) then reader_fail
  else mret (negb (Z.land leadingByte 1 =? 0)).

Definition G1_PREFIX_MASK : Z := 0x02.
Definition G2_PREFIX_MASK : Z := 0x0a.

Definition c_leadingByte (mask : Z) (Hm : mask = G1_PREFIX_MASK \/ mask = G2_PREFIX_MASK)
  : codec bool.
Proof.
  refine (Codec (fun _ : bool => True) (ser_leadingByte mask) (unser_leadingByte mask) _).
  intros y rest _. unfold ser_leadingByte, unser_leadingByte, ser_writedata8.
  destruct Hm as [-> | ->], y; by erewrite reader_bind_some by (by apply (read_le 1)).
Defined.

Definition c_CompressedPoint (mask : Z) (Hm : mask = G1_PREFIX_MASK \/ mask = G2_PREFIX_MASK)
    (size : nat) : codec CompressedPoint :=
  c_iso (fun '(y, x) => mkCompressedPoint y x) (fun p => (y_bit p, x_coord p))
    (fun p => match p with mkCompressedPoint _ _ => eq_refl end)
    (c_pair (c_leadingByte mask Hm) (c_blob_int size)).

Definition c_G1 := c_CompressedPoint G1_PREFIX_MASK (or_introl eq_refl) 32.
Definition c_G2 := c_CompressedPoint G2_PREFIX_MASK (or_intror eq_refl) 64.

Definition c_PHGRProof : codec PHGRProof :=
  c_iso (fun '(a, (a', (b, (b', (c, (c', (k, h))))))) => mkPHGRProof a a' b b' c c' k h)
    (fun p => (g_A p, (g_A_prime p, (g_B p, (g_B_prime p, (g_C p, (g_C_prime p, (g_K p, g_H p))))))))
    (fun p => match p with mkPHGRProof _ _ _ _ _ _ _ _ => eq_refl end)
    (c_pair c_G1 (c_pair c_G1 (c_pair c_G2 (c_pair c_G1 (c_pair c_G1 (c_pair c_G1
      (c_pair c_G1 c_G1))))))).

(** [SproutProofSerializer] throws when the proof is not of the system the
    transaction format prescribes. *)
Definition proof_matches (useGroth : bool) (p : SproutProof) : bool :=
  match p with PHGR _ => negb useGroth | Groth _ => useGroth end.

Definition ser_SproutProof (p : SproutProof) : bytes :=
  match p with PHGR p => ser c_PHGRProof p | Groth p => ser (c_chars GROTH_PROOF_SIZE) p end.

Definition unser_SproutProof (useGroth : bool) : reader SproutProof :=
  if useGroth then p ← unser (c_chars GROTH_PROOF_SIZE); mret (Groth p)
  else p ← unser c_PHGRProof; mret (PHGR p).

Definition c_SproutProof (useGroth : bool) : codec SproutProof.
Proof.
  refine (Codec (fun p => proof_matches useGroth p = true /\
      match p with PHGR p => valid c_PHGRProof p | Groth p => valid (c_chars GROTH_PROOF_SIZE) p end)
    ser_SproutProof (unser_SproutProof useGroth) _).
  intros [p|p] rest [Hm Hp]; destruct useGroth; try done; unfold unser_SproutProof, ser_SproutProof;
    by rewrite bind_unser by done.
Defined.

Definition c_JSDescription (useGroth : bool) : codec JSDescription :=
  c_iso (fun '(vo, (vn, (an, (nf, (cm, (ek, (rs, (mc, (pf, ct))))))))) =>
           mkJSDescription vo vn an nf cm ek ct rs mc pf)
    (fun d => (vpub_old d, (vpub_new d, (js_anchor d, (nullifiers d, (commitments d,
      (js_ephemeralKey d, (randomSeed d, (macs d, (js_proof d, ciphertexts d))))))))))
    (fun d => match d with mkJSDescription _ _ _ _ _ _ _ _ _ _ => eq_refl end)
    (c_pair c_i64 (c_pair c_i64 (c_pair c_uint256
      (c_pair (c_array ZC_NUM_JS_INPUTS c_uint256) (c_pair (c_array ZC_NUM_JS_OUTPUTS c_uint256)
        (c_pair c_uint256 (c_pair c_uint256 (c_pair (c_array ZC_NUM_JS_INPUTS c_uint256)
          (c_pair (c_SproutProof useGroth)
            (c_array ZC_NUM_JS_OUTPUTS (c_chars NOTE_CIPHERTEXT_SIZE))))))))))).

(** The compiler's sizes of the element types of the serialized vectors. *)
Record abi := mkAbi {
  sizeof_CTxIn : Z; sizeof_CTxOut : Z; sizeof_Spend : Z; sizeof_Output : Z; sizeof_JS : Z
}.

Definition abi_ok (A : abi) : Prop :=
  Forall (fun z => 0 < z <= 5000000)
    [sizeof_CTxIn A; sizeof_CTxOut A; sizeof_Spend A; sizeof_Output A; sizeof_JS A].

(** ** Serialization of transactions *)

Definition GetHeader (tx : CMutableTransaction) : Z :=
  let header := u32 (nVersion tx) in
  if fOverwintered tx then Z.lor header (2 ^ 31) else header.

Definition isOverwinterV3 (fOverwintered : bool) (nVersionGroupId nVersion : Z) : bool :=
  fOverwintered && (nVersionGroupId =? OVERWINTER_VERSION_GROUP_ID)
  && (nVersion =? OVERWINTER_TX_VERSION).

Definition isSaplingV4 (fOverwintered : bool) (nVersionGroupId nVersion : Z) : bool :=
  fOverwintered && (nVersionGroupId =? SAPLING_VERSION_GROUP_ID)
  && (nVersion =? SAPLING_TX_VERSION).

Definition useGroth (fOverwintered : bool) (nVersion : Z) : bool :=
  fOverwintered && (nVersion >=? SAPLING_TX_VERSION).

Definition is_nil {A} (l : list A) : bool := match l with [] => true | _ => false end.

Section Format.
Variable A : abi.

(** [None] is a thrown [std::ios_base::failure]. *)
Definition SerializeTransaction (tx : CMutableTransaction) : option bytes :=
  let v3 := isOverwinterV3 (fOverwintered tx) (nVersionGroupId tx) (nVersion tx) in
  let v4 := isSaplingV4 (fOverwintered tx) (nVersionGroupId tx) (nVersion tx) in
  let groth := useGroth (fOverwintered tx) (nVersion tx) in
  if fOverwintered tx && negb (v3 || v4) then None
  else if (nVersion tx >=? 2) && negb (forallb (fun d => proof_matches groth (js_proof d)) (vjoinsplit tx))
  then None
  else Some (
    ser c_u32 (GetHeader tx) ++
    (if fOverwintered tx then ser c_u32 (nVersionGroupId tx) else []) ++
    ser (c_vector (sizeof_CTxIn A) c_CTxIn) (vin tx) ++
    ser (c_vector (sizeof_CTxOut A) c_CTxOut) (vout tx) ++
    ser c_u32 (nLockTime tx) ++
    (if v3 || v4 then ser c_u32 (nExpiryHeight tx) else []) ++
    (if v4 then
       ser c_i64 (valueBalance tx) ++
       ser (c_vector (sizeof_Spend A) c_SpendDescription) (vShieldedSpend tx) ++
       ser (c_vector (sizeof_Output A) c_OutputDescription) (vShieldedOutput tx)
     else []) ++
    (if nVersion tx >=? 2 then
       ser (c_vector (sizeof_JS A) (c_JSDescription groth)) (vjoinsplit tx) ++
       (if negb (is_nil (vjoinsplit tx))
        then ser c_uint256 (joinSplitPubKey tx) ++ ser (c_chars 64) (joinSplitSig tx) else [])
     else []) ++
    (if v4 && negb (is_nil (vShieldedSpend tx) && is_nil (vShieldedOutput tx))
     then ser (c_chars 64) (bindingSig tx) else [])).

Definition UnserializeTransaction : reader CMutableTransaction :=
  header ← unser c_u32;
  let fOverwintered := negb (Z.shiftr header 31 =? 0) in
  let nVersion := Z.land header 0x7FFFFFFF in
  nVersionGroupId ← (if fOverwintered then unser c_u32 else mret 0);
  let v3 := isOverwinterV3 fOverwintered nVersionGroupId nVersion in
  let v4 := isSaplingV4 fOverwintered nVersionGroupId nVersion in
  if fOverwintered && negb (v3 || v4) then reader_fail else
  vin ← unser (c_vector (sizeof_CTxIn A) c_CTxIn);
  vout ← unser (c_vector (sizeof_CTxOut A) c_CTxOut);
  nLockTime ← unser c_u32;
  nExpiryHeight ← (if v3 || v4 then unser c_u32 else mret 0);
  valueBalance ← (if v4 then unser c_i64 else mret 0);
  vShieldedSpend ←
    (if v4 then unser (c_vector (sizeof_Spend A) c_SpendDescription) else mret []);
  vShieldedOutput ←
    (if v4 then unser (c_vector (sizeof_Output A) c_OutputDescription) else mret []);
  vjoinsplit ←
    (if nVersion >=? 2
     then unser (c_vector (sizeof_JS A) (c_JSDescription (useGroth fOverwintered nVersion)))
     else mret []);
  joinSplitPubKey ← (if negb (is_nil vjoinsplit) then unser c_uint256 else mret 0);
  joinSplitSig ← (if negb (is_nil vjoinsplit) then unser (c_chars 64) else mret zero_sig);
  bindingSig ←
    (if v4 && negb (is_nil vShieldedSpend && is_nil vShieldedOutput)
     then unser (c_chars 64) else mret zero_sig);
  mret (mkCMutableTransaction fOverwintered nVersion nVersionGroupId vin vout nLockTime
    nExpiryHeight valueBalance vShieldedSpend vShieldedOutput vjoinsplit
    joinSplitPubKey joinSplitSig bindingSig).
End Format.

(** ** Immutable transactions *)

Section Hashing.
(** [SerializeHash]: the double hash of the serialized bytes, as a [uint256]. *)
Variable SerializeHash : option bytes -> Z.
Variable A : abi.

Record CTransaction := mkCTransaction { ctx : CMutableTransaction; ctx_hash : Z }.

(** [CTransaction(const CMutableTransaction &)] *)
Definition CTransaction_copy (tx : CMutableTransaction) : CTransaction :=
  mkCTransaction tx (SerializeHash (SerializeTransaction A tx)).

(** [CTransaction(CMutableTransaction &&)]: the initialiser list has no entry
    for [bindingSig], which keeps its default [{{0}}]. *)
Definition CTransaction_move (tx : CMutableTransaction) : CTransaction :=
  let body := mkCMutableTransaction (fOverwintered tx) (nVersion tx) (nVersionGroupId tx)
    (vin tx) (vout tx) (nLockTime tx) (nExpiryHeight tx) (valueBalance tx)
    (vShieldedSpend tx) (vShieldedOutput tx) (vjoinsplit tx) (joinSplitPubKey tx)
    (joinSplitSig tx) zero_sig in
  mkCTransaction body (SerializeHash (SerializeTransaction A body)).

(** [CTransaction(deserialize_type, Stream&)] goes through the moving constructor. *)
Definition CTransaction_deserialize : reader CTransaction :=
  tx ← UnserializeTransaction A; mret (CTransaction_move tx).

(** [CTransaction::Unserialize]: [SerializationOp], then [UpdateHash]. *)
Definition CTransaction_Unserialize : reader CTransaction :=
  tx ← UnserializeTransaction A; mret (CTransaction_copy tx).
End Hashing.

(** ** Queries and value sums *)

Definition IsCoinBase (tx : CMutableTransaction) : bool :=
  match vin tx with [i] => COutPoint_IsNull (prevout i) | _ => false end.

(** The import marker is the literal [10e8]. *)
Definition IsCoinImport (tx : CMutableTransaction) : bool :=
  match vin tx with [i] => n (prevout i) =? 1000000000 | _ => false end.

Definition IsMint (tx : CMutableTransaction) : bool := IsCoinImport tx || IsCoinBase tx.

Definition tx_IsNull (tx : CMutableTransaction) : bool := is_nil (vin tx) && is_nil (vout tx).

Section Values.
Variable MAX_MONEY : Z.

(** [sum += v; if (!MoneyRange(v) || !MoneyRange(sum)) throw] *)
Definition add_checked (sum v : Z) : option Z :=
  let sum := i64 (sum + v) in
  if negb (MoneyRange MAX_MONEY v) || negb (MoneyRange MAX_MONEY sum) then None else Some sum.

Fixpoint sum_checked (sum : Z) (l : list Z) : option Z :=
  match l with
  | [] => Some sum
  | v :: l => match add_checked sum v with Some sum => sum_checked sum l | None => None end
  end.

Definition GetValueOut (tx : CMutableTransaction) : option Z :=
  match sum_checked 0 (map nValue (vout tx)) with
  | None => None
  | Some nValueOut =>
      match (if valueBalance tx <=? 0
             then add_checked nValueOut (i64 (- valueBalance tx)) else Some nValueOut) with
      | None => None
      | Some nValueOut => sum_checked nValueOut (map vpub_old (vjoinsplit tx))
      end
  end.

Definition GetShieldedValueIn (tx : CMutableTransaction) : option Z :=
  match (if valueBalance tx >=? 0 then add_checked 0 (valueBalance tx) else Some 0) with
  | None => None
  | Some nValue => sum_checked nValue (map vpub_new (vjoinsplit tx))
  end.
End Values.

(** [nTxSize] is the serialized size where the caller passes 0. *)
Definition CalculateModifiedSize (tx : CMutableTransaction) (serializedSize nTxSize : Z) : Z :=
  let nTxSize := if nTxSize =? 0 then u32 serializedSize else nTxSize in
  fold_left (fun sz i =>
    let offset := 41 + Z.min 110 (u32 (Z.of_nat (length (scriptSig i)))) in
    if sz >? offset then sz - offset else sz) (vin tx) nTxSize.

(** ** Fee rates (src/src/amount.cpp) *)

(** [nFeePaid*1000] is signed, the division by the [size_t] size unsigned. *)
Definition CFeeRate (nFeePaid nSize : Z) : Z :=
  if nSize >? 0 then i64 (u64 (i64 (nFeePaid * 1000)) / nSize) else 0.

Definition GetFee (nSatoshisPerK nSize : Z) : Z :=
  let nFee := i64 (u64 (u64 nSatoshisPerK * nSize) / 1000) in
  if (nFee =? 0) && (nSatoshisPerK >? 0) then nSatoshisPerK else nFee.

Definition GetFeePerK (nSatoshisPerK : Z) : Z := GetFee nSatoshisPerK 1000.

Definition OP_RETURN : Z := 0x6a.
Definition MAX_SCRIPT_SIZE : Z := 10000.

Definition IsUnspendable (script : bytes) : bool :=
  (match script with b :: _ => b =? OP_RETURN | [] => false end)
  || (Z.of_nat (length script) >? MAX_SCRIPT_SIZE).

Definition GetDustThreshold (minRelayTxFee : Z) (o : CTxOut) : Z :=
  if IsUnspendable (scriptPubKey o) then 0
  else
    let nSize := u64 (Z.of_nat (length (ser c_CTxOut o)) + 148) in
    i64 (3 * GetFee minRelayTxFee nSize).

Definition IsDust (minRelayTxFee : Z) (o : CTxOut) : bool :=
  nValue o <? GetDustThreshold minRelayTxFee o.

(** ** Validity of the members and the members a format keeps *)

Definition tx_valid (A : abi) (tx : CMutableTransaction) : Prop :=
  let groth := useGroth (fOverwintered tx) (nVersion tx) in
  0 <= nVersion tx < 2 ^ 31 /\ is_u32 (nVersionGroupId tx) /\
  valid (c_vector (sizeof_CTxIn A) c_CTxIn) (vin tx) /\
  valid (c_vector (sizeof_CTxOut A) c_CTxOut) (vout tx) /\
  is_u32 (nLockTime tx) /\ is_u32 (nExpiryHeight tx) /\ is_i64 (valueBalance tx) /\
  valid (c_vector (sizeof_Spend A) c_SpendDescription) (vShieldedSpend tx) /\
  valid (c_vector (sizeof_Output A) c_OutputDescription) (vShieldedOutput tx) /\
  valid (c_vector (sizeof_JS A) (c_JSDescription groth)) (vjoinsplit tx) /\
  valid c_uint256 (joinSplitPubKey tx) /\ valid (c_chars 64) (joinSplitSig tx) /\
  valid (c_chars 64) (bindingSig tx).

(** The transaction with every member its format does not carry at its default. *)
Definition tx_carried (tx : CMutableTransaction) : CMutableTransaction :=
  let v3 := isOverwinterV3 (fOverwintered tx) (nVersionGroupId tx) (nVersion tx) in
  let v4 := isSaplingV4 (fOverwintered tx) (nVersionGroupId tx) (nVersion tx) in
  let js := if nVersion tx >=? 2 then vjoinsplit tx else [] in
  let ss := if v4 then vShieldedSpend tx else [] in
  let so := if v4 then vShieldedOutput tx else [] in
  mkCMutableTransaction (fOverwintered tx) (nVersion tx)
    (if fOverwintered tx then nVersionGroupId tx else 0) (vin tx) (vout tx) (nLockTime tx)
    (if v3 || v4 then nExpiryHeight tx else 0) (if v4 then valueBalance tx else 0) ss so js
    (if negb (is_nil js) then joinSplitPubKey tx else 0)
    (if negb (is_nil js) then joinSplitSig tx else zero_sig)
    (if v4 && negb (is_nil ss && is_nil so) then bindingSig tx else zero_sig).

(** ** Lemmas *)

Lemma header_roundtrip tx : 0 <= nVersion tx < 2 ^ 31 ->
  is_u32 (GetHeader tx) /\
  negb (Z.shiftr (GetHeader tx) 31 =? 0) = fOverwintered tx /\
  Z.land (GetHeader tx) 0x7FFFFFFF = nVersion tx.
Proof.
  intros Hv. unfold GetHeader. rewrite u32_id by (unfold is_u32; lia).
  change 0x7FFFFFFF with (Z.ones 31). rewrite Z.land_ones, Z.shiftr_div_pow2 by lia.
  destruct (fOverwintered tx).
  - rewrite Z.lor_comm, (lor_low _ _ 31) by (try done; lia).
    replace (2 ^ 31 + nVersion tx) with (nVersion tx + 1 * 2 ^ 31) by lia.
    rewrite Z.div_add, Z.mod_add, Z.div_small, Z.mod_small by lia.
    split_and!; [unfold is_u32; lia | done | done].
  - rewrite Z.div_small, Z.mod_small by lia. split_and!; [unfold is_u32; lia | done | done].
Qed.

(** A conditional member: written or not, read or defaulted. *)
Lemma bind_unser_if {A B} (c : codec A) (b : bool) (a d : A) (f : A -> reader B) rest :
  (b = true -> valid c a) ->
  ((if b then unser c else mret d) ≫= f) ((if b then ser c a else []) ++ rest) =
  f (if b then a else d) rest.
Proof. intros. destruct b; [apply bind_unser; auto | done]. Qed.

Lemma app_if {A} (b : bool) (l k : list A) :
  (if b then l ++ k else []) = (if b then l else []) ++ (if b then k else []).
Proof. by destruct b. Qed.

Lemma app_if_guard {A} (b c : bool) (l : list A) :
  (if b then (if c then l else []) else []) = if b && c then l else [].
Proof. by destruct b, c. Qed.

Lemma is_nil_if {A} (b : bool) (l : list A) :
  negb (is_nil (if b then l else [])) = b && negb (is_nil l).
Proof. by destruct b. Qed.

Lemma is_nil_pair {A B} (v : bool) (l : list A) (k : list B) :
  v && negb (is_nil (if v then l else []) && is_nil (if v then k else [])) =
  v && negb (is_nil l && is_nil k).
Proof. by destruct v. Qed.

Lemma SerializeTransaction_carried A tx bs rest :
  tx_valid A tx -> SerializeTransaction A tx = Some bs ->
  UnserializeTransaction A (bs ++ rest) = Some (tx_carried tx, rest).
Proof.
  intros (Hver & Hgid & Hvin & Hvout & Hlock & Hexp & Hvb & Hss & Hso & Hjs & Hpk & Hsig & Hbs).
  unfold SerializeTransaction. destruct (header_roundtrip tx Hver) as (Hh & Hfo & Hnv).
  set (v3 := isOverwinterV3 _ _ _). set (v4 := isSaplingV4 _ _ _). set (gr := useGroth _ _).
  destruct (fOverwintered tx && negb (v3 || v4)) eqn:Hfmt; [done|].
  destruct ((nVersion tx >=? 2) && _); [done|]. intros <-%(inj Some).
  assert (Hv3 : isOverwinterV3 (fOverwintered tx)
    (if fOverwintered tx then nVersionGroupId tx else 0) (nVersion tx) = v3)
    by (subst v3; unfold isOverwinterV3; by destruct (fOverwintered tx)).
  assert (Hv4 : isSaplingV4 (fOverwintered tx)
    (if fOverwintered tx then nVersionGroupId tx else 0) (nVersion tx) = v4)
    by (subst v4; unfold isSaplingV4; by destruct (fOverwintered tx)).
  rewrite !app_if, app_if_guard, <- !app_assoc.
  unfold UnserializeTransaction. rewrite bind_unser by done.
  rewrite Hfo, Hnv, bind_unser_if by done. rewrite Hv3, Hv4, Hfmt.
  rewrite bind_unser, bind_unser, bind_unser by done.
  rewrite !bind_unser_if by done.
  rewrite !is_nil_if, app_if_guard, !bind_unser_if by done.
  rewrite (is_nil_pair v4), bind_unser_if by done.
  unfold tx_carried. fold v3 v4. by rewrite !is_nil_if, (is_nil_pair v4).
Qed.

Lemma tx_carried_idemp tx : tx_carried (tx_carried tx) = tx_carried tx.
Proof.
  unfold tx_carried, isOverwinterV3, isSaplingV4. destruct tx; simpl.
  repeat match goal with
  | |- context [if ?b then _ else _] => destruct b eqn:?; simpl in *; try congruence
  | |- context [?a =? ?b] => destruct (a =? b) eqn:?; simpl in *; try congruence
  end; done.
Qed.


(** The members the format does not carry do not influence what is written. *)
Lemma SerializeTransaction_idemp A tx :
  SerializeTransaction A (tx_carried tx) = SerializeTransaction A tx.
Proof.
  unfold SerializeTransaction, tx_carried, GetHeader.
  cbn [fOverwintered nVersion nVersionGroupId vin vout nLockTime nExpiryHeight valueBalance
       vShieldedSpend vShieldedOutput vjoinsplit joinSplitPubKey joinSplitSig bindingSig].
  set (v3 := isOverwinterV3 _ (nVersionGroupId tx) _).
  set (v4 := isSaplingV4 _ (nVersionGroupId tx) _).
  assert (Hv3 : isOverwinterV3 (fOverwintered tx)
    (if fOverwintered tx then nVersionGroupId tx else 0) (nVersion tx) = v3)
    by (subst v3; unfold isOverwinterV3; by destruct (fOverwintered tx)).
  assert (Hv4 : isSaplingV4 (fOverwintered tx)
    (if fOverwintered tx then nVersionGroupId tx else 0) (nVersion tx) = v4)
    by (subst v4; unfold isSaplingV4; by destruct (fOverwintered tx)).
  rewrite Hv3, Hv4. clearbody v3 v4.
  destruct (nVersion tx >=? 2), v3, v4, (fOverwintered tx), (vjoinsplit tx),
    (vShieldedSpend tx), (vShieldedOutput tx); reflexivity.
Qed.

(** ** Lemmas: value sums *)

Definition sum_Z (l : list Z) : Z := foldr Z.add 0 l.

Lemma MoneyRange_spec MAX v : MoneyRange MAX v = true <-> 0 <= v <= MAX.
Proof. unfold MoneyRange. rewrite andb_true_iff, Z.geb_leb, !Z.leb_le. lia. Qed.

Section ValueLemmas.
Variable MAX_MONEY : Z.
Hypothesis HMAX : 0 <= MAX_MONEY < 2 ^ 62.

Lemma add_checked_iff sum v r : 0 <= sum <= MAX_MONEY -> is_i64 v ->
  add_checked MAX_MONEY sum v = Some r <-> 0 <= v /\ r = sum + v /\ r <= MAX_MONEY.
Proof.
  intros Hs Hv. unfold add_checked.
  destruct (MoneyRange MAX_MONEY v) eqn:Ev; simpl.
  - apply MoneyRange_spec in Ev. rewrite i64_id by (unfold is_i64; lia).
    destruct (MoneyRange MAX_MONEY (sum + v)) eqn:Es; simpl.
    + apply MoneyRange_spec in Es. split; [intros [= <-]; lia|]. intros (_ & -> & _). done.
    + split; [done|]. intros (? & -> & ?).
      rewrite (proj2 (MoneyRange_spec MAX_MONEY (sum + v))) in Es by lia. done.
  - split; [done|]. intros (? & -> & ?).
    rewrite (proj2 (MoneyRange_spec MAX_MONEY v)) in Ev by lia. done.
Qed.

Lemma sum_Z_nonneg l : Forall (fun v => 0 <= v) l -> 0 <= sum_Z l.
Proof. induction 1; unfold sum_Z in *; simpl; lia. Qed.

Lemma sum_checked_iff l sum r : 0 <= sum <= MAX_MONEY -> Forall is_i64 l ->
  sum_checked MAX_MONEY sum l = Some r <->
  Forall (fun v => 0 <= v) l /\ r = sum + sum_Z l /\ r <= MAX_MONEY.
Proof.
  intros Hs Hl. revert sum Hs. induction Hl as [|v l Hv Hl IH]; intros sum Hs; simpl.
  { split; [intros [= <-]; unfold sum_Z; simpl; split_and!; [constructor | lia | lia]|].
    intros (_ & -> & _). unfold sum_Z. simpl. f_equal. lia. }
  rewrite list.Forall_cons. destruct (add_checked MAX_MONEY sum v) as [s|] eqn:Ea.
  - apply add_checked_iff in Ea as (H0 & -> & Hle); [|done..].
    rewrite IH by lia. unfold sum_Z. simpl. rewrite Z.add_assoc.
    split; [intros (? & ? & ?)|intros ((? & ?) & ? & ?)]; done.
  - split; [done|]. intros ([H0 Hnn] & -> & Hle).
    pose proof (sum_Z_nonneg l Hnn). unfold sum_Z in *. simpl in Hle.
    assert (add_checked MAX_MONEY sum v = Some (sum + v)); [|congruence].
    apply add_checked_iff; [done..|]. lia.
Qed.

Lemma sum_checked_none l sum : 0 <= sum <= MAX_MONEY -> Forall is_i64 l ->
  sum_checked MAX_MONEY sum l = None <->
  ~ (Forall (fun v => 0 <= v) l /\ sum + sum_Z l <= MAX_MONEY).
Proof.
  intros Hs Hl. destruct (sum_checked MAX_MONEY sum l) as [r|] eqn:E.
  - apply sum_checked_iff in E as (? & -> & ?); [|done..]. split; [done | by intros []].
  - split; [intros _ [? ?] | done].
    assert (sum_checked MAX_MONEY sum l = Some (sum + sum_Z l)); [|congruence].
    by apply sum_checked_iff.
Qed.

Lemma sum_checked_app l k sum :
  sum_checked MAX_MONEY sum (l ++ k) = (r ← sum_checked MAX_MONEY sum l; sum_checked MAX_MONEY r k).
Proof.
  revert sum. induction l as [|v l IH]; intros sum; simpl; [done|].
  by destruct (add_checked MAX_MONEY sum v).
Qed.
End ValueLemmas.

Lemma sum_Z_app l k : sum_Z (l ++ k) = sum_Z l + sum_Z k.
Proof. unfold sum_Z. induction l; simpl; lia. Qed.

(** The amounts a transaction takes out of, and puts into, the transparent pool. *)
Definition amounts_out (tx : CMutableTransaction) : list Z :=
  map nValue (vout tx) ++ (if valueBalance tx <=? 0 then [- valueBalance tx] else []) ++
  map vpub_old (vjoinsplit tx).

Definition amounts_in (tx : CMutableTransaction) : list Z :=
  (if valueBalance tx >=? 0 then [valueBalance tx] else []) ++ map vpub_new (vjoinsplit tx).

Definition tx_amounts_i64 (tx : CMutableTransaction) : Prop :=
  Forall (fun o => is_i64 (nValue o)) (vout tx) /\
  Forall (fun d => is_i64 (vpub_old d) /\ is_i64 (vpub_new d)) (vjoinsplit tx) /\
  is_i64 (valueBalance tx) /\ - 2 ^ 63 < valueBalance tx.

Lemma GetValueOut_sum_checked MAX tx : tx_amounts_i64 tx ->
  GetValueOut MAX tx = sum_checked MAX 0 (amounts_out tx).
Proof.
  intros (_ & _ & Hvb & Hmin). unfold GetValueOut, amounts_out.
  rewrite !sum_checked_app. destruct (sum_checked MAX 0 _) as [r|]; simpl; [|done].
  rewrite sum_checked_app. destruct (Z.leb_spec (valueBalance tx) 0); simpl; [|done].
  rewrite (i64_id (- _)) by (unfold is_i64 in *; lia).
  by destruct (add_checked MAX r (- valueBalance tx)).
Qed.

Lemma GetShieldedValueIn_sum_checked MAX tx :
  GetShieldedValueIn MAX tx = sum_checked MAX 0 (amounts_in tx).
Proof.
  unfold GetShieldedValueIn, amounts_in. rewrite sum_checked_app.
  destruct (valueBalance tx >=? 0); simpl; [|done].
  by destruct (add_checked MAX 0 (valueBalance tx)).
Qed.

Lemma amounts_i64 tx : tx_amounts_i64 tx ->
  Forall is_i64 (amounts_out tx) /\ Forall is_i64 (amounts_in tx).
Proof.
  intros (Ho & Hj & Hvb & Hmin). unfold amounts_out, amounts_in. split.
  - repeat (apply Forall_app; split).
    + by apply Forall_map.
    + case_bool; repeat constructor; unfold is_i64 in *; lia.
    + apply Forall_map. eapply Forall_impl; [|exact Hj]. by intros ? [].
  - apply Forall_app; split.
    + rewrite Z.geb_leb. case_bool; repeat constructor; unfold is_i64 in *; lia.
    + apply Forall_map. eapply Forall_impl; [|exact Hj]. by intros ? [].
Qed.

(** ** Properties *)

Definition abi_x86_64 : abi := mkAbi 72 40 384 948 1752.

(** A Sapling transaction with a shielded spend, used by the witnesses. *)
Definition tx_sapling : CMutableTransaction :=
  {| fOverwintered := true; nVersion := SAPLING_TX_VERSION;
     nVersionGroupId := SAPLING_VERSION_GROUP_ID; vin := [];
     vout := [{| nValue := 5 * COIN; scriptPubKey := [0x51] |}];
     nLockTime := 7; nExpiryHeight := 1000; valueBalance := 5 * COIN + 10000;
     vShieldedSpend := [{| sd_cv := 1; sd_anchor := 2; sd_nullifier := 3; sd_rk := 4;
                           sd_zkproof := repeat 9 GROTH_PROOF_SIZE;
                           sd_spendAuthSig := repeat 8 64 |}];
     vShieldedOutput := []; vjoinsplit := []; joinSplitPubKey := 0;
     joinSplitSig := zero_sig; bindingSig := repeat 6 64 |}.

Lemma Forall_repeat {A} (P : A -> Prop) a k : P a -> Forall P (repeat a k).
Proof. intros. induction k; simpl; by constructor. Qed.

Lemma valid_chars_repeat k b : is_u8 b -> valid (c_chars k) (repeat b k).
Proof. intros. split; [apply repeat_length | by apply Forall_repeat]. Qed.

Lemma tx_sapling_valid : tx_valid abi_x86_64 tx_sapling.
Proof.
  unfold tx_valid, tx_sapling.
  cbn [fOverwintered nVersion nVersionGroupId vin vout nLockTime nExpiryHeight valueBalance
       vShieldedSpend vShieldedOutput vjoinsplit joinSplitPubKey joinSplitSig bindingSig].
  repeat match goal with
  | |- _ /\ _ => split
  | |- valid (c_vector _ _) _ => split_and!
  | |- valid (c_chars _) _ => by apply valid_chars_repeat
  | |- Forall _ _ => constructor
  end; try done.
  unfold c_SpendDescription. simpl. split_and!; try done; by repeat constructor.
Qed.

(** The transaction format round-trips: what [SerializationOp] writes for a
    transaction whose members are in range is read back, leaving the rest of
    the stream, as the same transaction with every member the format does not
    carry at its default; and writing that transaction again gives the same
    bytes, so its hash is unchanged. *)
Theorem SerializeTransaction_roundtrip A tx bs rest :
  tx_valid A tx -> SerializeTransaction A tx = Some bs ->
  UnserializeTransaction A (bs ++ rest) = Some (tx_carried tx, rest) /\
  SerializeTransaction A (tx_carried tx) = Some bs.
Proof.
  intros Hv Hs. split; [by apply SerializeTransaction_carried|].
  by rewrite SerializeTransaction_idemp.
Qed.

Lemma SerializeTransaction_roundtrip_witness :
  exists bs, SerializeTransaction abi_x86_64 tx_sapling = Some bs /\
  UnserializeTransaction abi_x86_64 (bs ++ [1; 2]) = Some (tx_sapling, [1; 2]).
Proof.
  eexists. split; [vm_compute; reflexivity|].
  exact (proj1 (SerializeTransaction_roundtrip abi_x86_64 tx_sapling _ [1; 2]
    tx_sapling_valid eq_refl)).
Defined.

(** [GetValueOut] and [GetShieldedValueIn] return exactly when every amount
    they add is non-negative and the total is at most [MAX_MONEY], and then
    return the mathematical sum: the running 64-bit sum never wraps, and every
    other transaction is rejected by an exception. *)
Theorem value_sums_exact MAX_MONEY tx :
  0 <= MAX_MONEY < 2 ^ 62 -> tx_amounts_i64 tx ->
  (forall r, GetValueOut MAX_MONEY tx = Some r <->
     Forall (fun v => 0 <= v) (amounts_out tx) /\ r = sum_Z (amounts_out tx) /\ r <= MAX_MONEY) /\
  (forall r, GetShieldedValueIn MAX_MONEY tx = Some r <->
     Forall (fun v => 0 <= v) (amounts_in tx) /\ r = sum_Z (amounts_in tx) /\ r <= MAX_MONEY).
Proof.
  intros HM Htx. destruct (amounts_i64 tx Htx) as [Ho Hi].
  rewrite GetValueOut_sum_checked, GetShieldedValueIn_sum_checked by done.
  split; intros r; rewrite sum_checked_iff by (done || lia); by rewrite Z.add_0_l.
Qed.

Lemma value_sums_exact_witness :
  GetValueOut (21000000 * COIN) tx_sapling = Some (5 * COIN) /\
  GetShieldedValueIn (21000000 * COIN) tx_sapling = Some (5 * COIN + 10000).
Proof.
  destruct (value_sums_exact (21000000 * COIN) tx_sapling) as [Ho Hi].
  - unfold COIN. lia.
  - split_and!; repeat constructor; done.
  - split; [apply Ho | apply Hi]; split_and!; repeat constructor; done.
Defined.

(** Reading a Sapling transaction through the deserializing constructor
    [CTransaction(deserialize, s)] yields it with [bindingSig] zeroed, and
    hashed as such, whereas [CTransaction::Unserialize] keeps the signature: the
    two ways of reading a transaction from the same bytes disagree whenever the
    signature is not zero. *)
Theorem deserialize_constructor_drops_bindingSig SerializeHash A tx bs rest :
  tx_valid A tx -> SerializeTransaction A tx = Some bs -> tx_carried tx = tx ->
  CTransaction_Unserialize SerializeHash A (bs ++ rest) =
    Some (CTransaction_copy SerializeHash A tx, rest) /\
  CTransaction_deserialize SerializeHash A (bs ++ rest) =
    Some (CTransaction_move SerializeHash A tx, rest) /\
  (ctx (CTransaction_move SerializeHash A tx) = tx <-> bindingSig tx = zero_sig).
Proof.
  intros Hv Hs Hc. pose proof (SerializeTransaction_carried A tx bs rest Hv Hs) as Hr.
  rewrite Hc in Hr. unfold CTransaction_Unserialize, CTransaction_deserialize.
  rewrite !(reader_bind_some _ _ _ _ _ Hr). split_and!; [done..|].
  destruct tx; simpl. split; [by intros [=] | by intros ->].
Qed.

Lemma deserialize_constructor_drops_bindingSig_witness :
  ctx (CTransaction_move (fun _ => 0) abi_x86_64 tx_sapling) <> tx_sapling.
Proof.
  destruct (deserialize_constructor_drops_bindingSig (fun _ => 0) abi_x86_64 tx_sapling _ []
    tx_sapling_valid eq_refl eq_refl) as (_ & _ & H).
  intros Hm. apply H in Hm. vm_compute in Hm. congruence.
Defined.
