(* ===== verification/Compressor.v ===== *)
(** * Compressed outputs (src/src/compressor.{h,cpp}, src/src/pubkey.{h,cpp})

    The encoding of amounts and scripts in the coins database: six special
    scripts stored as a tag and a hash or an x-coordinate, every other script
    behind its length plus six, and amounts with their trailing zeroes taken
    out.  Point parsing and serialization of secp256k1 are parameters. *)
From S2P Require Import Prelude Serialize Transaction.

(** ** Amounts *)

(** [while (((n % 10) == 0) && e < 9) { n /= 10; e++; }]: the fuel is the room
    left below 9. *)
Fixpoint strip_zeroes (fuel : nat) (n e : Z) : Z * Z :=
  match fuel with
  | O => (n, e)
  | S fuel =>
      if (n mod 10 =? 0) && (e <? 9) then strip_zeroes fuel (n / 10) (e + 1) else (n, e)
  end.

Definition CompressAmount (n : Z) : Z :=
  if n =? 0 then 0
  else
    let '(n, e) := strip_zeroes 9 n 0 in
    if e <? 9 then
      let d := n mod 10 in
      let n := n / 10 in
      u64 (1 + (n * 9 + d - 1) * 10 + e)
    else u64 (1 + (n - 1) * 10 + 9).

(** [while (e) { n *= 10; e--; }] with [e < 10] *)
Fixpoint append_zeroes (e : nat) (n : Z) : Z :=
  match e with
  | O => n
  | S e => append_zeroes e (u64 (n * 10))
  end.

Definition DecompressAmount (x : Z) : Z :=
  if x =? 0 then 0
  else
    let x := x - 1 in
    let e := x mod 10 in
    let x := x / 10 in
    let n :=
      if e <? 9 then
        let d := x mod 9 + 1 in
        let x := x / 9 in
        u64 (x * 10 + d)
      else u64 (x + 1) in
    append_zeroes (Z.to_nat e) n.

(** ** Public keys *)

Definition GetLen (chHeader : Z) : Z :=
  if (chHeader =? 2) || (chHeader =? 3) then 33
  else if (chHeader =? 4) || (chHeader =? 6) || (chHeader =? 7) then 65
  else 0.

(** A [CPubKey] is the [size()] bytes it holds, none when it is invalid. *)
Definition CPubKey_Set (l : bytes) : bytes :=
  match l with
  | [] => []
  | h :: _ => if GetLen h =? Z.of_nat (length l) then l else []
  end.

Definition CPubKey_IsValid (pk : bytes) : bool := negb (is_nil pk).

(** ** Scripts *)

Definition OP_DUP : Z := 0x76.
Definition OP_EQUAL : Z := 0x87.
Definition OP_EQUALVERIFY : Z := 0x88.
Definition OP_HASH160 : Z := 0xa9.
Definition OP_CHECKSIG : Z := 0xac.

Definition nSpecialScripts : Z := 6.

(** [script[i]] *)
Definition at_ (script : bytes) (i : nat) : Z := nth i script 0.

(** [memcpy(dst, &script[i], len)] *)
Definition slice (script : bytes) (i len : nat) : bytes := take len (drop i script).

Definition size_is (script : bytes) (k : nat) : bool := (length script =? k)%nat.

Definition IsToKeyID (script : bytes) : option bytes :=
  if size_is script 25 && (at_ script 0 =? OP_DUP) && (at_ script 1 =? OP_HASH160)
     && (at_ script 2 =? 20) && (at_ script 23 =? OP_EQUALVERIFY)
     && (at_ script 24 =? OP_CHECKSIG)
  then Some (slice script 3 20) else None.

Definition IsToScriptID (script : bytes) : option bytes :=
  if size_is script 23 && (at_ script 0 =? OP_HASH160) && (at_ script 1 =? 20)
     && (at_ script 22 =? OP_EQUAL)
  then Some (slice script 2 20) else None.

Definition GetSpecialSize (nSize : Z) : Z :=
  if (nSize =? 0) || (nSize =? 1) then 20
  else if (nSize =? 2) || (nSize =? 3) || (nSize =? 4) || (nSize =? 5) then 32
  else 0.

Section Secp256k1.
Context {point : Type}.
(** [secp256k1_ec_pubkey_parse] and [secp256k1_ec_pubkey_serialize] with
    [SECP256K1_EC_UNCOMPRESSED]. *)
Variable ec_pubkey_parse : bytes -> option point.
Variable ec_pubkey_serialize : point -> bytes.

Definition IsFullyValid (pk : bytes) : bool :=
  if negb (CPubKey_IsValid pk) then false
  else match ec_pubkey_parse pk with Some _ => true | None => false end.

(** [None]: the method returned false and the key is unchanged. *)
Definition CPubKey_Decompress (pk : bytes) : option bytes :=
  if negb (CPubKey_IsValid pk) then None
  else match ec_pubkey_parse pk with
       | Some p => Some (CPubKey_Set (ec_pubkey_serialize p))
       | None => None
       end.

Definition IsToPubKey (script : bytes) : option bytes :=
  if size_is script 35 && (at_ script 0 =? 33) && (at_ script 34 =? OP_CHECKSIG)
     && ((at_ script 1 =? 0x02) || (at_ script 1 =? 0x03))
  then Some (CPubKey_Set (slice script 1 33))
  else if size_is script 67 && (at_ script 0 =? 65) && (at_ script 66 =? OP_CHECKSIG)
     && (at_ script 1 =? 0x04)
  then
    let pubkey := CPubKey_Set (slice script 1 65) in
    if IsFullyValid pubkey then Some pubkey else None
  else None.

Definition Compress (script : bytes) : option bytes :=
  match IsToKeyID script with
  | Some keyID => Some (0x00 :: keyID)
  | None =>
  match IsToScriptID script with
  | Some scriptID => Some (0x01 :: scriptID)
  | None =>
  match IsToPubKey script with
  | Some pubkey =>
      if (at_ pubkey 0 =? 0x02) || (at_ pubkey 0 =? 0x03)
      then Some (at_ pubkey 0 :: slice pubkey 1 32)
      else if at_ pubkey 0 =? 0x04
      then Some (Z.lor 0x04 (Z.land (at_ pubkey 64) 0x01) :: slice pubkey 1 32)
      else None
  | None => None
  end end end.

(** [None]: the method returned false and the script is unchanged.  The
    assertion on the decompressed size is [pubkey.size() == 65]. *)
Definition Decompress (nSize : Z) (vch : bytes) : option bytes :=
  if nSize =? 0x00 then
    Some ([OP_DUP; OP_HASH160; 20] ++ slice vch 0 20 ++ [OP_EQUALVERIFY; OP_CHECKSIG])
  else if nSize =? 0x01 then
    Some ([OP_HASH160; 20] ++ slice vch 0 20 ++ [OP_EQUAL])
  else if (nSize =? 0x02) || (nSize =? 0x03) then
    Some ([33; nSize] ++ slice vch 0 32 ++ [OP_CHECKSIG])
  else if (nSize =? 0x04) || (nSize =? 0x05) then
    match CPubKey_Decompress (CPubKey_Set ((nSize - 2) :: slice vch 0 32)) with
    | None => None
    | Some pubkey => Some ([65] ++ slice pubkey 0 65 ++ [OP_CHECKSIG])
    end
  else None.

Definition Serialize_script (script : bytes) : bytes :=
  match Compress script with
  | Some compr => compr
  | None => WriteVarInt (u32 (Z.of_nat (length script) + nSpecialScripts)) ++ script
  end.

(** [script] is the object read into. *)
Definition Unserialize_script (script : bytes) : reader bytes :=
  nSize ← ReadVarInt u32;
  if nSize <? nSpecialScripts then
    vch ← read_bytes (Z.to_nat (GetSpecialSize nSize));
    mret (match Decompress nSize vch with Some s => s | None => script end)
  else
    let nSize := nSize - nSpecialScripts in
    if nSize >? MAX_SCRIPT_SIZE then
      (* [ignore(int)] throws on a negative argument *)
      if i32 nSize <? 0 then reader_fail
      else _ ← read_bytes (Z.to_nat nSize); mret (script ++ [OP_RETURN])
    else read_bytes (Z.to_nat nSize).

(** [CTxOutCompressor] *)
Definition Serialize_txout (o : CTxOut) : bytes :=
  WriteVarInt (CompressAmount (u64 (nValue o))) ++ Serialize_script (scriptPubKey o).

Definition Unserialize_txout (o : CTxOut) : reader CTxOut :=
  nVal ← ReadVarInt u64;
  script ← Unserialize_script (scriptPubKey o);
  mret (mkCTxOut (i64 (DecompressAmount nVal)) script).
End Secp256k1.

(** What the code relies on in secp256k1: an uncompressed encoding that parses
    is the serialization of its point, and the point is the one its
    x-coordinate and the parity of its y-coordinate stand for. *)
Class Secp256k1Encoding {point : Type} (parse : bytes -> option point)
    (serialize : point -> bytes) : Prop := {
  serialize_parse x y p : length x = 32%nat -> length y = 32%nat ->
    parse (0x04 :: x ++ y) = Some p -> serialize p = 0x04 :: x ++ y;
  parse_compressed x y p : length x = 32%nat -> length y = 32%nat ->
    parse (0x04 :: x ++ y) = Some p ->
    parse (Z.lor 0x02 (Z.land (at_ y 31) 0x01) :: x) = Some p
}.

(** ** Lemmas: amounts *)

Lemma strip_zeroes_spec fuel m e :
  0 < m -> 0 <= e -> e + Z.of_nat fuel = 9 ->
  exists m' e', strip_zeroes fuel m e = (m', e') /\ e <= e' <= 9 /\
    m = m' * 10 ^ (e' - e) /\ 0 < m' /\ (e' = 9 \/ m' mod 10 <> 0).
Proof.
  revert m e. induction fuel as [|fuel IH]; intros m e Hm He Hf; simpl.
  { exists m, e. split; [done|]. rewrite Z.sub_diag. split_and!; lia. }
  destruct (Z.eqb_spec (m mod 10) 0) as [Hz|Hz]; simpl.
  - destruct (Z.ltb_spec e 9); [|lia].
    destruct (IH (m / 10) (e + 1)) as (m' & e' & -> & He' & Hd & Hm' & Hor);
      [zlia | lia | lia |].
    exists m', e'. split; [done|]. split; [lia|]. split; [|done].
    replace (e' - e) with (Z.succ (e' - (e + 1))) by lia. rewrite Z.pow_succ_r by lia.
    pose proof (Z.div_mod m 10). lia.
  - exists m, e. split; [done|]. rewrite Z.sub_diag. split_and!; lia.
Qed.

Lemma append_zeroes_exact e m :
  0 <= m -> m * 10 ^ Z.of_nat e < 2 ^ 64 -> append_zeroes e m = m * 10 ^ Z.of_nat e.
Proof.
  revert m. induction e as [|e IH]; intros m Hm Hb; simpl append_zeroes; [simpl; lia|].
  rewrite Nat2Z.inj_succ, Z.pow_succ_r in * by lia.
  pose proof (Z.pow_pos_nonneg 10 (Z.of_nat e)).
  rewrite u64_id by (unfold is_u64; nia). rewrite IH; lia.
Qed.

(** The code of an amount as an arithmetic expression. *)
Definition amount_code (m e : Z) : Z :=
  if e <? 9 then 1 + (m / 10 * 9 + m mod 10 - 1) * 10 + e else 1 + (m - 1) * 10 + 9.

Lemma DecompressAmount_code m e :
  0 < m -> 0 <= e <= 9 -> (e = 9 \/ m mod 10 <> 0) -> m * 10 ^ e < 2 ^ 64 ->
  DecompressAmount (amount_code m e) = m * 10 ^ e.
Proof.
  intros Hm He Hor Hb. unfold DecompressAmount, amount_code.
  assert (m <= m * 10 ^ e) by (pose proof (Z.pow_pos_nonneg 10 e); nia).
  destruct (Z.ltb_spec e 9).
  - destruct Hor as [|Hd]; [lia|].
    pose proof (Z.mod_pos_bound m 10). pose proof (Z.div_mod m 10).
    set (q := m / 10) in *. set (d := m mod 10) in *.
    destruct (Z.eqb_spec (1 + (q * 9 + d - 1) * 10 + e) 0); [nia|].
    replace (1 + (q * 9 + d - 1) * 10 + e - 1) with (e + (q * 9 + d - 1) * 10) by lia.
    rewrite (Z.mod_add e), (Z.div_add e), (Z.div_small e 10), (Z.mod_small e 10), Z.add_0_l by lia.
    destruct (Z.ltb_spec e 9); [|lia].
    replace (q * 9 + d - 1) with (d - 1 + q * 9) by lia.
    rewrite (Z.mod_add (d - 1)), (Z.div_add (d - 1)), (Z.div_small (d - 1) 9), (Z.mod_small (d - 1) 9), Z.add_0_l by lia.
    rewrite u64_id by (unfold is_u64; lia).
    replace (q * 10 + (d - 1 + 1)) with m by lia.
    rewrite append_zeroes_exact; rewrite ?Z2Nat.id by lia; (done || lia).
  - replace e with 9 in * by lia.
    destruct (Z.eqb_spec (1 + (m - 1) * 10 + 9) 0); [lia|].
    replace (1 + (m - 1) * 10 + 9 - 1) with (9 + (m - 1) * 10) by lia.
    rewrite (Z.mod_add 9), (Z.div_add 9), (Z.div_small 9 10), (Z.mod_small 9 10), Z.add_0_l by lia.
    change (9 <? 9) with false. cbv iota.
    rewrite u64_id by (unfold is_u64; lia).
    rewrite append_zeroes_exact; rewrite ?Z2Nat.id by lia; replace (m - 1 + 1) with m by lia;
      (done || lia).
Qed.

Lemma CompressAmount_code k : 0 < k <= 2 ^ 60 ->
  exists m e, k = m * 10 ^ e /\ 0 < m /\ 0 <= e <= 9 /\ (e = 9 \/ m mod 10 <> 0) /\
    CompressAmount k = amount_code m e /\ 0 < CompressAmount k < 2 ^ 64.
Proof.
  intros Hk. unfold CompressAmount. destruct (Z.eqb_spec k 0); [lia|].
  destruct (strip_zeroes_spec 9 k 0) as (m & e & -> & He & Hd & Hm & Hor); [lia..|].
  rewrite Z.sub_0_r in Hd. exists m, e.
  assert (Hle : m <= k) by (pose proof (Z.pow_pos_nonneg 10 e); nia).
  unfold amount_code. destruct (Z.ltb_spec e 9).
  - pose proof (Z.mod_pos_bound m 10). pose proof (Z.div_mod m 10).
    assert (m mod 10 <> 0) by (destruct Hor; lia).
    rewrite u64_id by (unfold is_u64; nia). split_and!; try lia; nia.
  - rewrite u64_id by (unfold is_u64; lia). split_and!; lia.
Qed.

Lemma DecompressAmount_Compress k : 0 <= k <= 2 ^ 60 ->
  DecompressAmount (CompressAmount k) = k /\ 0 <= CompressAmount k < 2 ^ 64.
Proof.
  intros Hk. destruct (Z.eq_dec k 0) as [->|]; [done|].
  destruct (CompressAmount_code k) as (m & e & -> & Hm & He & Hor & Hc & Hb); [lia|].
  split; [|lia]. rewrite Hc. apply DecompressAmount_code; try done. lia.
Qed.

(** ** Lemmas: scripts *)

Lemma IsToKeyID_inv script h : IsToKeyID script = Some h ->
  length h = 20%nat /\
  script = [OP_DUP; OP_HASH160; 20] ++ h ++ [OP_EQUALVERIFY; OP_CHECKSIG].
Proof.
  unfold IsToKeyID, size_is, at_, slice. intros H. case_match eqn:Hc; [|done].
  bool_to_prop. injection H as <-.
  match goal with H : (_ =? _)%nat = true |- _ => apply Nat.eqb_eq in H; rename H into Hl end.
  do 25 (destruct script as [|? script]; [discriminate Hl|]).
  destruct script; [|discriminate Hl]. simpl in *. by subst.
Qed.

Lemma IsToScriptID_inv script h : IsToScriptID script = Some h ->
  length h = 20%nat /\ script = [OP_HASH160; 20] ++ h ++ [OP_EQUAL].
Proof.
  unfold IsToScriptID, size_is, at_, slice. intros H. case_match eqn:Hc; [|done].
  bool_to_prop. injection H as <-.
  match goal with H : (_ =? _)%nat = true |- _ => apply Nat.eqb_eq in H; rename H into Hl end.
  do 23 (destruct script as [|? script]; [discriminate Hl|]).
  destruct script; [|discriminate Hl]. simpl in *. by subst.
Qed.

Lemma CPubKey_Set_id h l : GetLen h = Z.of_nat (S (length l)) -> CPubKey_Set (h :: l) = h :: l.
Proof. intros H. simpl. by rewrite H, Z.eqb_refl. Qed.

(** A list of a given length splits at its first and last elements. *)
Lemma list_ends {A} (l : list A) d k : length l = S (S k) ->
  l = nth 0 l d :: take k (drop 1 l) ++ [nth (S k) l d].
Proof.
  intros Hl. destruct l as [|a l]; [done|]. simpl in *. f_equal. rewrite drop_0.
  injection Hl as Hl. clear a. revert l Hl.
  induction k as [|k IH]; intros l Hl; destruct l as [|b l]; try done; simpl in *.
  - by destruct l.
  - f_equal. apply IH. lia.
Qed.

Section ScriptLemmas.
Context {point : Type} (parse : bytes -> option point) (serialize : point -> bytes).
Context `{!Secp256k1Encoding parse serialize}.

Lemma IsToPubKey_inv script pk : IsToPubKey parse script = Some pk ->
  (exists h x, (h = 0x02 \/ h = 0x03) /\ length x = 32%nat /\ pk = h :: x /\
     script = [33] ++ pk ++ [OP_CHECKSIG]) \/
  (exists x y p, length x = 32%nat /\ length y = 32%nat /\ pk = 0x04 :: x ++ y /\
     parse pk = Some p /\ script = [65] ++ pk ++ [OP_CHECKSIG]).
Proof.
  unfold IsToPubKey, size_is, slice. intros H.
  destruct (_ && _) eqn:Hc in H; [left | destruct (_ && _) eqn:Hd in H; [right | done]].
  - bool_to_prop. apply Nat.eqb_eq in H0.
    destruct script as [|s0 script]; [done|]. unfold at_ in *. simpl in H0, H3, H1, H2.
    pose proof (list_ends (s0 :: script) 0 33 H0) as Hs.
    assert (Hlen : length (take 33 (drop 1 (s0 :: script))) = 33%nat)
      by (rewrite length_take, length_drop; simpl length; lia).
    destruct script as [|h script]; [done|].
    change (take 33 (drop 1 (s0 :: h :: script))) with (h :: take 32 script) in *.
    assert (Hh : h = 2 \/ h = 3).
    { apply orb_prop in H1 as [H1|H1]; apply Z.eqb_eq in H1; simpl in H1; auto. }
    exists h, (take 32 script). apply (inj Some) in H as <-.
    injection Hlen as Hlen.
    split; [done|]. split; [done|].
    rewrite CPubKey_Set_id by (rewrite Hlen; by destruct Hh as [-> | ->]).
    split; [done|]. rewrite Hs. simpl in H2. simpl nth. by rewrite H3, H2.
  - bool_to_prop. apply Nat.eqb_eq in H0.
    destruct script as [|s0 script]; [done|]. unfold at_ in *.
    pose proof (list_ends (s0 :: script) 0 65 H0) as Hs.
    assert (Hlen : length (take 65 (drop 1 (s0 :: script))) = 65%nat)
      by (rewrite length_take, length_drop; lia).
    destruct script as [|h script]; [done|]. simpl in H1. subst h.
    change (take 65 (drop 1 (s0 :: 4 :: script))) with (4 :: take 64 script) in *.
    injection Hlen as Hlen. rewrite CPubKey_Set_id in H by (by rewrite Hlen).
    unfold IsFullyValid in H. simpl CPubKey_IsValid in H. simpl negb in H. cbv iota in H.
    destruct (parse (4 :: take 64 script)) as [p|] eqn:Hp; [|done]. apply (inj Some) in H as <-.
    assert (Hxy : take 64 script = take 32 script ++ take 32 (drop 32 script)).
    { by rewrite (take_take_drop script 32 32). }
    exists (take 32 script), (take 32 (drop 32 script)), p.
    rewrite length_take in Hlen.
    split_and!; [rewrite length_take; lia | rewrite length_take, length_drop; lia |
      by rewrite Hxy | done | ].
    rewrite Hs. simpl in H3, H2. simpl nth. by rewrite H3, H2.
Qed.

Lemma Decompress_Compress script c : Compress parse script = Some c ->
  exists tag vch, c = tag :: vch /\ 0 <= tag < nSpecialScripts /\
    Z.of_nat (length vch) = GetSpecialSize tag /\
    Decompress parse serialize tag vch = Some script.
Proof.
  unfold Compress.
  destruct (IsToKeyID script) as [h|] eqn:Hk.
  { intros <-%(inj Some). destruct (IsToKeyID_inv _ _ Hk) as [Hl ->].
    exists 0, h. unfold Decompress, slice. simpl Z.eqb. cbv iota. rewrite drop_0, Hl, (take_ge h) by lia.
    done. }
  destruct (IsToScriptID script) as [h|] eqn:Hs.
  { intros <-%(inj Some). destruct (IsToScriptID_inv _ _ Hs) as [Hl ->].
    exists 1, h. unfold Decompress, slice. simpl Z.eqb. cbv iota. rewrite drop_0, Hl, (take_ge h) by lia.
    done. }
  destruct (IsToPubKey parse script) as [pk|] eqn:Hp; [|done].
  destruct (IsToPubKey_inv _ _ Hp) as [(h & x & Hh & Hx & -> & ->)|(x & y & p & Hx & Hy & -> & Hpar & ->)].
  - intros Hc. exists h, x. unfold slice, at_ in Hc. simpl nth in Hc.
    change (drop 1 (h :: x)) with x in Hc. rewrite take_ge in Hc by lia.
    unfold Decompress, slice. rewrite drop_0, (take_ge x 32), Hx by lia.
    destruct Hh as [-> | ->]; injection Hc as <-; done.
  - intros Hc. unfold at_ in Hc. simpl nth in Hc. unfold slice in Hc.
    change (drop 1 (4 :: x ++ y)) with (x ++ y) in Hc.
    rewrite take_app_le, take_ge, app_nth2 in Hc by lia. rewrite Hx in Hc.
    change (63 - 32)%nat with 31%nat in Hc. apply (inj Some) in Hc as <-.
    pose proof (parse_compressed x y p Hx Hy Hpar) as Hpc.
    pose proof (serialize_parse x y p Hx Hy Hpar) as Hser. unfold at_ in Hpc.
    assert (Hb : Z.land (nth 31 y 0) 1 = 0 \/ Z.land (nth 31 y 0) 1 = 1).
    { pose proof (Z.land_ones (nth 31 y 0) 1 ltac:(lia)) as Ho. change (Z.ones 1) with 1 in Ho.
      rewrite Ho. pose proof (Z.mod_pos_bound (nth 31 y 0) (2 ^ 1)). lia. }
    assert (Hd : forall t, (t = 2 \/ t = 3) -> parse (t :: x) = Some p ->
      Decompress parse serialize (t + 2) x = Some ([65] ++ (4 :: x ++ y) ++ [OP_CHECKSIG])).
    { intros t Ht Hpt. unfold Decompress, slice. rewrite drop_0, (take_ge x 32) by lia.
      replace (t + 2 - 2) with t by lia.
      rewrite CPubKey_Set_id by (rewrite Hx; by destruct Ht as [-> | ->]).
      unfold CPubKey_Decompress. simpl CPubKey_IsValid. rewrite Hpt, Hser.
      rewrite CPubKey_Set_id by (by rewrite length_app, Hx, Hy).
      assert (Htake : take 65 (4 :: x ++ y) = 4 :: x ++ y)
        by (apply take_ge; cbn [length]; rewrite length_app; lia).
      cbn [CPubKey_IsValid is_nil negb]. cbv iota. rewrite drop_0, Htake.
      by destruct Ht as [-> | ->]. }
    destruct Hb as [Hb | Hb]; rewrite Hb in *;
      [exists 4, x; pose proof (Hd 2) as Hdt | exists 5, x; pose proof (Hd 3) as Hdt];
      (split; [done|]; split; [done|]; split; [by rewrite Hx | by apply Hdt; auto]).
Qed.

Lemma Unserialize_special script0 tag vch rest :
  0 <= tag < nSpecialScripts -> Z.of_nat (length vch) = GetSpecialSize tag ->
  Unserialize_script parse serialize script0 (tag :: vch ++ rest) =
  Some (match Decompress parse serialize tag vch with Some s => s | None => script0 end, rest).
Proof.
  unfold nSpecialScripts. intros Ht Hl. unfold Unserialize_script.
  assert (Hr : ReadVarInt u32 (tag :: vch ++ rest) = Some (tag, vch ++ rest)).
  { assert (tag = 0 \/ tag = 1 \/ tag = 2 \/ tag = 3 \/ tag = 4 \/ tag = 5) as Hc by lia.
    by destruct Hc as [->|[->|[->|[->|[->| ->]]]]]. }
  erewrite reader_bind_some by exact Hr.
  replace (tag <? nSpecialScripts) with true by (symmetry; apply Z.ltb_lt; unfold nSpecialScripts; lia).
  rewrite <- Hl, Nat2Z.id. by erewrite reader_bind_some by (by apply read_bytes_app).
Qed.

(** Reading into an empty script: the script written, or [OP_RETURN] in its
    place when it is too long to be spendable. *)
Lemma Unserialize_script_Serialize script rest :
  Z.of_nat (length script) < 2 ^ 31 ->
  Unserialize_script parse serialize [] (Serialize_script parse script ++ rest) =
  Some (if Z.of_nat (length script) <=? MAX_SCRIPT_SIZE then script else [OP_RETURN], rest).
Proof.
  intros Hl. unfold Serialize_script. destruct (Compress parse script) as [c|] eqn:Hc.
  - destruct (Decompress_Compress _ _ Hc) as (tag & vch & -> & Ht & Hv & Hd).
    simpl app. rewrite Unserialize_special, Hd by done.
    destruct (Z.leb_spec (Z.of_nat (length script)) MAX_SCRIPT_SIZE) as [_|Hbig]; [done|].
    exfalso. unfold Compress in Hc.
    destruct (IsToKeyID script) as [h|] eqn:Hk.
    { apply IsToKeyID_inv in Hk as [Hh ->]. rewrite !length_app, Hh in Hbig. done. }
    destruct (IsToScriptID script) as [h|] eqn:Hs.
    { apply IsToScriptID_inv in Hs as [Hh ->]. rewrite !length_app, Hh in Hbig. done. }
    destruct (IsToPubKey parse script) as [pk|] eqn:Hp; [|done].
    apply IsToPubKey_inv in Hp as [(h & x & _ & Hx & -> & ->)|(x & y & p & Hx & Hy & -> & _ & ->)];
      simpl in Hbig; rewrite !length_app in Hbig; unfold MAX_SCRIPT_SIZE in Hbig; simpl in Hbig;
      rewrite ?length_app in Hbig; lia.
  - unfold nSpecialScripts. rewrite <- app_assoc, u32_id by (unfold is_u32; lia).
    unfold Unserialize_script.
    erewrite reader_bind_some by (apply ReadVarInt_Write_conv; [lia|]; intros; apply u32_id;
      unfold is_u32; lia).
    unfold nSpecialScripts. destruct (Z.ltb_spec (Z.of_nat (length script) + 6) 6); [lia|].
    replace (Z.of_nat (length script) + 6 - 6) with (Z.of_nat (length script)) by lia.
    rewrite i32_id, Nat2Z.id, Z.gtb_ltb by (unfold is_i32; lia).
    rewrite Z.leb_antisym. destruct (MAX_SCRIPT_SIZE <? _); simpl negb; cbv iota.
    + destruct (Z.ltb_spec (Z.of_nat (length script)) 0); [lia|].
      by erewrite reader_bind_some by (by apply read_bytes_app).
    + by apply read_bytes_app.
Qed.

Lemma Unserialize_txout_Serialize o rest :
  0 <= nValue o <= 2 ^ 60 -> Z.of_nat (length (scriptPubKey o)) < 2 ^ 31 ->
  Unserialize_txout parse serialize CTxOut_SetNull (Serialize_txout parse o ++ rest) =
  Some (mkCTxOut (nValue o)
    (if Z.of_nat (length (scriptPubKey o)) <=? MAX_SCRIPT_SIZE then scriptPubKey o
     else [OP_RETURN]), rest).
Proof.
  intros Hv Hl. unfold Unserialize_txout, Serialize_txout.
  rewrite u64_id by (unfold is_u64; lia). rewrite <- app_assoc.
  destruct (DecompressAmount_Compress (nValue o) Hv) as [Hd Hc].
  erewrite reader_bind_some
    by (apply ReadVarInt_Write_conv; [done|]; intros; apply u64_id; unfold is_u64; lia).
  change (scriptPubKey CTxOut_SetNull) with (@nil Z).
  erewrite reader_bind_some by (by apply Unserialize_script_Serialize).
  rewrite Hd, i64_id by (unfold is_i64; lia). done.
Qed.
End ScriptLemmas.

(** The code of an amount determines its mantissa and exponent. *)
Lemma CompressAmount_exact m e :
  0 < m -> 0 <= e <= 9 -> (e = 9 \/ m mod 10 <> 0) -> m * 10 ^ e <= 2 ^ 60 ->
  CompressAmount (m * 10 ^ e) = amount_code m e.
Proof.
  intros Hm He Hor Hb.
  assert (Hpos : 0 < m * 10 ^ e) by (pose proof (Z.pow_pos_nonneg 10 e); nia).
  destruct (CompressAmount_code (m * 10 ^ e)) as (m' & e' & Heq & Hm' & He' & Hor' & -> & _); [lia|].
  assert (He'' : e = e').
  { destruct (Z.lt_trichotomy e e') as [Hlt|[Hlt|Hlt]]; [exfalso | done | exfalso].
    - destruct Hor as [|Hor]; [lia|]. apply Hor.
      replace e' with (e + (1 + (e' - e - 1))) in Heq by lia.
      rewrite !Z.pow_add_r in Heq by lia.
      assert (m = m' * (10 ^ 1 * 10 ^ (e' - e - 1)))
        by (apply (Z.mul_cancel_r _ _ (10 ^ e)); [pose proof (Z.pow_pos_nonneg 10 e); lia | lia]).
      subst m. replace (m' * (10 ^ 1 * 10 ^ (e' - e - 1))) with (m' * 10 ^ (e' - e - 1) * 10) by lia.
      apply Z.mod_mul. lia.
    - destruct Hor' as [|Hor']; [lia|]. apply Hor'.
      replace e with (e' + (1 + (e - e' - 1))) in Heq by lia.
      rewrite !Z.pow_add_r in Heq by lia.
      assert (m' = m * (10 ^ 1 * 10 ^ (e - e' - 1)))
        by (apply (Z.mul_cancel_r _ _ (10 ^ e')); [pose proof (Z.pow_pos_nonneg 10 e'); lia | lia]).
      subst m'. replace (m * (10 ^ 1 * 10 ^ (e - e' - 1))) with (m * 10 ^ (e - e' - 1) * 10) by lia.
      apply Z.mod_mul. lia. }
  subst e'. f_equal. apply (Z.mul_cancel_r _ _ (10 ^ e)); [|done].
  pose proof (Z.pow_pos_nonneg 10 e). lia.
Qed.

(** Every code is the code of a mantissa and an exponent. *)
Lemma amount_code_onto x : 0 < x ->
  exists m e, x = amount_code m e /\ 0 < m <= x /\ 0 <= e <= 9 /\ (e = 9 \/ m mod 10 <> 0) /\
    9 * m <= x + 90.
Proof.
  intros Hx. set (e := (x - 1) mod 10). set (q := (x - 1) / 10).
  pose proof (Z.mod_pos_bound (x - 1) 10) as He. pose proof (Z.div_mod (x - 1) 10) as Hq.
  fold e q in He, Hq. destruct (Z.eq_dec e 9) as [He9|].
  - exists (q + 1), 9. unfold amount_code. simpl. split_and!; try lia.
  - pose proof (Z.mod_pos_bound q 9). pose proof (Z.div_mod q 9).
    exists (q / 9 * 10 + (q mod 9 + 1)), e. unfold amount_code.
    destruct (Z.ltb_spec e 9); [|lia].
    replace (q / 9 * 10 + (q mod 9 + 1)) with (q mod 9 + 1 + q / 9 * 10) by lia.
    rewrite (Z.mod_add (q mod 9 + 1)), (Z.div_add (q mod 9 + 1)), (Z.div_small (q mod 9 + 1) 10),
      (Z.mod_small (q mod 9 + 1) 10) by lia.
    split_and!; try lia.
Qed.

(** ** Properties *)

(** [CompressAmount] and [DecompressAmount] are inverse bijections between
    the amounts up to 2^60 base units and their codes, and on the codes below
    10^10; no intermediate product overflows there. *)
Theorem amount_compression_bijective k :
  (0 <= k <= 2 ^ 60 -> DecompressAmount (CompressAmount k) = k) /\
  (0 <= k <= 10 ^ 10 -> CompressAmount (DecompressAmount k) = k).
Proof.
  split; intros Hk; [by apply DecompressAmount_Compress|].
  destruct (Z.eq_dec k 0) as [->|]; [done|].
  destruct (amount_code_onto k) as (m & e & -> & Hm & He & Hor & Hb); [lia|].
  assert (10 ^ e <= 10 ^ 9) by (apply Z.pow_le_mono_r; lia).
  assert (m * 10 ^ e <= 2 ^ 60).
  { destruct (Z.eq_dec e 9) as [-> | He9].
    - unfold amount_code in *. simpl in Hk. lia.
    - assert (10 ^ e <= 10 ^ 8) by (apply Z.pow_le_mono_r; lia). nia. }
  rewrite DecompressAmount_code by (done || lia). apply CompressAmount_exact; lia.
Qed.

Lemma amount_compression_bijective_witness :
  DecompressAmount (CompressAmount (50 * COIN)) = 50 * COIN /\
  CompressAmount (50 * COIN) = 50.
Proof.
  split; [apply (amount_compression_bijective (50 * COIN)); unfold COIN; lia | reflexivity].
Defined.

(** The compressed form of an output in the coins database is read back
    with its amount, and with its script unless the script is longer than
    [MAX_SCRIPT_SIZE], in which case it becomes [OP_RETURN]: unspendable before
    and after.  All six special scripts are covered, given only what secp256k1
    promises of its point encodings. *)
Theorem txout_compression_roundtrip {point : Type} (parse : bytes -> option point)
    (serialize : point -> bytes) (Henc : Secp256k1Encoding parse serialize) o rest :
  0 <= nValue o <= 2 ^ 60 -> Z.of_nat (length (scriptPubKey o)) < 2 ^ 31 ->
  exists o', Unserialize_txout parse serialize CTxOut_SetNull (Serialize_txout parse o ++ rest)
      = Some (o', rest) /\
    nValue o' = nValue o /\
    IsUnspendable (scriptPubKey o') = IsUnspendable (scriptPubKey o) /\
    (Z.of_nat (length (scriptPubKey o)) <= MAX_SCRIPT_SIZE -> o' = o).
Proof.
  intros Hv Hl. eexists. split; [by apply Unserialize_txout_Serialize|]. simpl.
  destruct (Z.leb_spec (Z.of_nat (length (scriptPubKey o))) MAX_SCRIPT_SIZE) as [|Hbig].
  - split_and!; [done..|]. intros _. by destruct o.
  - split_and!; [done | | lia]. unfold IsUnspendable.
    replace (Z.of_nat (length (scriptPubKey o)) >? MAX_SCRIPT_SIZE) with true
      by (symmetry; apply Z.gtb_lt; lia).
    by rewrite orb_true_r.
Qed.

(** A one-dimensional stand-in for the curve: points with equal coordinates. *)
Definition toy_parse (l : bytes) : option bytes :=
  match l with
  | h :: k =>
      if (h =? 4) && bool_decide (take 32 k = drop 32 k) && (length k =? 64)%nat
      then Some (take 32 k)
      else if (h =? Z.lor 2 (Z.land (at_ k 31) 1)) && (length k =? 32)%nat then Some k
      else None
  | [] => None
  end.

Definition toy_serialize (p : bytes) : bytes := 0x04 :: p ++ p.

#[local] Instance toy_encoding : Secp256k1Encoding toy_parse toy_serialize.
Proof.
  assert (Hodd : forall z, (4 =? Z.lor 2 (Z.land z 1)) = false).
  { intros z. pose proof (Z.land_ones z 1 ltac:(lia)) as Ho. change (Z.ones 1) with 1 in Ho.
    rewrite Ho. pose proof (Z.mod_pos_bound z (2 ^ 1)).
    assert (z mod 2 ^ 1 = 0 \/ z mod 2 ^ 1 = 1) as [-> | ->] by lia; done. }
  assert (Hinv : forall x y p, length x = 32%nat -> length y = 32%nat ->
    toy_parse (4 :: x ++ y) = Some p -> x = y /\ p = x).
  { intros x y p Hx Hy. unfold toy_parse. rewrite Hodd, !take_app_le, take_ge by lia.
    rewrite drop_app_ge, Hx, drop_0 by lia.
    destruct (bool_decide (x = y)) eqn:Hxy; simpl; [|done].
    apply bool_decide_eq_true in Hxy. case_match; [|done]. by intros [= <-]. }
  split; intros x y p Hx Hy Hp; destruct (Hinv x y p Hx Hy Hp) as [-> ->]; [done|].
  unfold toy_parse. rewrite Z.eqb_refl, Hy. replace (_ =? 4) with false; [done|].
  rewrite Z.eqb_sym. symmetry. apply Hodd.
Qed.

Lemma txout_compression_roundtrip_witness :
  exists o', Unserialize_txout toy_parse toy_serialize CTxOut_SetNull
      (Serialize_txout toy_parse (mkCTxOut COIN ([65; 4] ++ repeat 7 64 ++ [OP_CHECKSIG])) ++ [1])
      = Some (o', [1]) /\
    scriptPubKey o' = [65; 4] ++ repeat 7 64 ++ [OP_CHECKSIG] /\
    length (Serialize_txout toy_parse (mkCTxOut COIN ([65; 4] ++ repeat 7 64 ++ [OP_CHECKSIG])))
      = 34%nat.
Proof.
  set (o := mkCTxOut COIN ([65; 4] ++ repeat 7 64 ++ [OP_CHECKSIG])).
  destruct (txout_compression_roundtrip toy_parse toy_serialize toy_encoding o [1])
    as (o' & Hr & _ & _ & Ho').
  - vm_compute. split; congruence.
  - vm_compute. reflexivity.
  - exists o'. split; [exact Hr|]. split; [|vm_compute; reflexivity].
    rewrite Ho'; [reflexivity | vm_compute; congruence].
Defined.
