(* ===== verification/Coins.v ===== *)
(** * Coins (class CCoins of src/src/coins.h, src/src/coins.cpp)

    The unspent outputs of one transaction: construction from a transaction,
    spending, pruning, and the database format with its spentness bitmask. *)
From S2P Require Import Prelude Serialize Transaction Compressor.

(** ** Data and operations *)

Record CCoins := mkCCoins {
  fCoinBase : bool; coins_vout : list CTxOut; coins_nHeight : Z; coins_nVersion : Z
}.

Definition CCoins_Clear : CCoins := mkCCoins false [] 0 0.

(** [while (vout.size() > 0 && vout.back().IsNull()) vout.pop_back();] with the
    back of the vector at the head of the reversed list. *)
Fixpoint pop_nulls (r : list CTxOut) : list CTxOut :=
  match r with
  | o :: r' => if CTxOut_IsNull o then pop_nulls r' else r
  | [] => []
  end.

Definition cleanup_vout (l : list CTxOut) : list CTxOut := rev (pop_nulls (rev l)).

Definition Cleanup (c : CCoins) : CCoins :=
  mkCCoins (fCoinBase c) (cleanup_vout (coins_vout c)) (coins_nHeight c) (coins_nVersion c).

Definition ClearUnspendable (c : CCoins) : CCoins :=
  Cleanup (mkCCoins (fCoinBase c)
    (map (fun o => if IsUnspendable (scriptPubKey o) then CTxOut_SetNull else o) (coins_vout c))
    (coins_nHeight c) (coins_nVersion c)).

Definition FromTx (tx : CMutableTransaction) (nHeightIn : Z) : CCoins :=
  ClearUnspendable (mkCCoins (IsCoinBase tx) (vout tx) nHeightIn (nVersion tx)).

Definition IsAvailable (c : CCoins) (nPos : Z) : bool :=
  match coins_vout c !! Z.to_nat nPos with
  | Some o => negb (CTxOut_IsNull o)
  | None => false
  end.

Definition IsPruned (c : CCoins) : bool := forallb CTxOut_IsNull (coins_vout c).

(** The new value when the method returns true, [None] when it returns false. *)
Definition Spend (c : CCoins) (nPos : Z) : option CCoins :=
  if negb (IsAvailable c nPos) then None
  else Some (Cleanup (mkCCoins (fCoinBase c)
    (<[Z.to_nat nPos := CTxOut_SetNull]> (coins_vout c)) (coins_nHeight c) (coins_nVersion c))).

#[global] Instance COutPoint_eq_dec : EqDecision COutPoint.
Proof. solve_decision. Defined.

#[global] Instance CTxOut_eq_dec : EqDecision CTxOut.
Proof. solve_decision. Defined.

#[global] Instance CCoins_eq_dec : EqDecision CCoins.
Proof. solve_decision. Defined.

(** [operator==]: pruned objects are always equal. *)
Definition CCoins_eqb (a b : CCoins) : bool :=
  if IsPruned a && IsPruned b then true
  else Bool.eqb (fCoinBase a) (fCoinBase b) && (coins_nHeight a =? coins_nHeight b)
    && (coins_nVersion a =? coins_nVersion b) && bool_decide (coins_vout a = coins_vout b).

Definition TotalTxValue (c : CCoins) : Z :=
  fold_left (fun total o => i64 (total + nValue o)) (coins_vout c) 0.

(** ** The spentness mask *)

(** [i < vout.size() && !vout[i].IsNull()] *)
Definition avail (v : list CTxOut) (i : nat) : bool :=
  match v !! i with Some o => negb (CTxOut_IsNull o) | None => false end.

(** The inner loop of [CalcMaskSize]: whether byte [b] has a set bit. *)
Definition mask_byte_used (v : list CTxOut) (b : nat) : bool :=
  existsb (fun i => avail v (2 + b * 8 + i)) (seq 0 8).

(** The outer loop from byte [b] on, returning [nLastUsedByte] and
    [nNonzeroBytes]; every iteration passes eight outputs. *)
Fixpoint mask_size_loop (fuel : nat) (v : list CTxOut) (b nLastUsedByte nNonzeroBytes : nat)
    : nat * nat :=
  match fuel with
  | O => (nLastUsedByte, nNonzeroBytes)
  | S fuel =>
      if (2 + b * 8 <? length v)%nat then
        if mask_byte_used v b
        then mask_size_loop fuel v (S b) (S b) (S nNonzeroBytes)
        else mask_size_loop fuel v (S b) nLastUsedByte nNonzeroBytes
      else (nLastUsedByte, nNonzeroBytes)
  end.

Definition CalcMaskSize (c : CCoins) : nat * nat :=
  mask_size_loop (S (length (coins_vout c))) (coins_vout c) 0 0 0.

(** [chAvail] of byte [b] *)
Definition mask_byte (v : list CTxOut) (b : nat) : Z :=
  fold_left (fun ch i => if avail v (2 + b * 8 + i) then Z.lor ch (Z.shiftl 1 (Z.of_nat i)) else ch)
    (seq 0 8) 0.

(** ** Database format *)

Section Format.
Context {point : Type} (parse : bytes -> option point) (serialize : point -> bytes).

Definition b2z (b : bool) : Z := if b then 1 else 0.

(** [None] is the failed assertion on a pruned object. *)
Definition CCoins_Serialize (c : CCoins) : option bytes :=
  let '(nMaskSize, nMaskCode) := CalcMaskSize c in
  let fFirst := avail (coins_vout c) 0 in
  let fSecond := avail (coins_vout c) 1 in
  if negb (fFirst || fSecond || negb (Nat.eqb nMaskCode 0)) then None
  else
    let nCode := u32 (8 * (Z.of_nat nMaskCode - (if fFirst || fSecond then 0 else 1))
      + b2z (fCoinBase c) + 2 * b2z fFirst + 4 * b2z fSecond) in
    Some (WriteVarInt (coins_nVersion c) ++ WriteVarInt nCode ++
      concat (map (fun b => ser_writedata8 (mask_byte (coins_vout c) b)) (seq 0 nMaskSize)) ++
      concat (map (fun o => if CTxOut_IsNull o then [] else Serialize_txout parse o) (coins_vout c)) ++
      WriteVarInt (coins_nHeight c)).

(** The eight availability bits of a mask byte. *)
Definition mask_bits (chAvail : Z) : list bool :=
  map (fun p => negb (Z.land chAvail (Z.shiftl 1 (Z.of_nat p)) =? 0)) (seq 0 8).

(** [while (nMaskCode > 0)]: one byte of the stream per iteration. *)
Fixpoint read_mask (s : bytes) (nMaskCode : Z) (vAvail : list bool) : option (list bool * bytes) :=
  if negb (nMaskCode >? 0) then Some (vAvail, s)
  else
    match s with
    | [] => None
    | chAvail :: s =>
        read_mask s (if negb (chAvail =? 0) then nMaskCode - 1 else nMaskCode)
          (vAvail ++ mask_bits chAvail)
    end.

(** The loop over [vAvail] on a vector of [vAvail.size()] null outputs. *)
Fixpoint read_txouts (vAvail : list bool) : reader (list CTxOut) :=
  match vAvail with
  | [] => mret []
  | f :: vAvail =>
      o ← (if f : bool then Unserialize_txout parse serialize CTxOut_SetNull
           else mret CTxOut_SetNull);
      l ← read_txouts vAvail;
      mret (o :: l)
  end.

Definition CCoins_Unserialize : reader CCoins :=
  nVersion ← ReadVarInt i32;
  nCode ← ReadVarInt u32;
  let fCoinBase := negb (Z.land nCode 1 =? 0) in
  let vAvail := [negb (Z.land nCode 2 =? 0); negb (Z.land nCode 4 =? 0)] in
  let nMaskCode := u32 (nCode / 8 + (if negb (Z.land nCode 6 =? 0) then 0 else 1)) in
  vAvail ← (fun s => read_mask s nMaskCode vAvail);
  vout ← read_txouts vAvail;
  nHeight ← ReadVarInt i32;
  mret (Cleanup (mkCCoins fCoinBase vout nHeight nVersion)).
End Format.

(** ** Well-formed coins *)

(** Spent outputs are null, and none is at the end. *)
Definition vout_clean (v : list CTxOut) : Prop :=
  (forall o, o ∈ v -> CTxOut_IsNull o = true -> o = CTxOut_SetNull) /\
  (forall o, list.last v = Some o -> CTxOut_IsNull o = false).

Definition CCoins_wf (c : CCoins) : Prop := vout_clean (coins_vout c).

(** What the database format can represent. *)
Definition CCoins_storable (c : CCoins) : Prop :=
  CCoins_wf c /\ 0 <= coins_nVersion c < 2 ^ 31 /\ 0 <= coins_nHeight c < 2 ^ 31 /\
  Z.of_nat (length (coins_vout c)) < 2 ^ 31 /\
  Forall (fun o => CTxOut_IsNull o = true \/
    0 <= nValue o <= 2 ^ 60 /\ Z.of_nat (length (scriptPubKey o)) <= MAX_SCRIPT_SIZE) (coins_vout c).

(** ** Lemmas: cleaning up *)

Lemma pop_nulls_app r k :
  pop_nulls (r ++ k) = if forallb CTxOut_IsNull r then pop_nulls k else pop_nulls r ++ k.
Proof. induction r as [|o r IH]; simpl; [done|]. destruct (CTxOut_IsNull o); simpl; done. Qed.

Lemma cleanup_vout_snoc l o :
  cleanup_vout (l ++ [o]) = if CTxOut_IsNull o then cleanup_vout l else l ++ [o].
Proof.
  unfold cleanup_vout. rewrite rev_app_distr. simpl.
  destruct (CTxOut_IsNull o); [done|]. simpl. by rewrite rev_involutive.
Qed.

Lemma cleanup_vout_nulls l k :
  Forall (fun o => CTxOut_IsNull o = true) k -> cleanup_vout (l ++ k) = cleanup_vout l.
Proof.
  induction k as [|o k IH] using rev_ind; intros Hk; [by rewrite app_nil_r|].
  apply Forall_app in Hk as [Hk Ho]. rewrite app_assoc, cleanup_vout_snoc.
  apply Forall_cons_1 in Ho as [-> _]. auto.
Qed.

(** Cleaning up drops a suffix of null outputs. *)
Lemma cleanup_vout_split l : exists k, l = cleanup_vout l ++ k /\
  Forall (fun o => CTxOut_IsNull o = true) k.
Proof.
  induction l as [|o l IH] using rev_ind; [by exists []|].
  rewrite cleanup_vout_snoc. destruct (CTxOut_IsNull o) eqn:Ho; [|exists []; by rewrite app_nil_r].
  destruct IH as (k & Hl & Hk). exists (k ++ [o]). rewrite app_assoc, <- Hl.
  split; [done|]. apply Forall_app. split; [done | by repeat constructor].
Qed.

Lemma cleanup_vout_last l o : list.last (cleanup_vout l) = Some o -> CTxOut_IsNull o = false.
Proof.
  induction l as [|o' l IH] using rev_ind; [done|]. rewrite cleanup_vout_snoc.
  destruct (CTxOut_IsNull o') eqn:Ho; [done|]. rewrite last_snoc. by intros [= <-].
Qed.

Lemma cleanup_vout_id l :
  (forall o, list.last l = Some o -> CTxOut_IsNull o = false) -> cleanup_vout l = l.
Proof.
  destruct l as [|o l _] using rev_ind; [done|]. intros H. rewrite cleanup_vout_snoc.
  by rewrite H by apply last_snoc.
Qed.

Lemma cleanup_vout_clean l :
  (forall o, o ∈ l -> CTxOut_IsNull o = true -> o = CTxOut_SetNull) -> vout_clean (cleanup_vout l).
Proof.
  intros H. split; [|apply cleanup_vout_last]. intros o Ho. apply H.
  destruct (cleanup_vout_split l) as (k & -> & _). apply elem_of_app. by left.
Qed.

Lemma avail_cleanup l i : avail (cleanup_vout l) i = avail l i.
Proof.
  destruct (cleanup_vout_split l) as (k & Hl & Hk). set (c := cleanup_vout l) in *.
  clearbody c. subst l. unfold avail.
  destruct (decide (i < length c)%nat).
  - by rewrite lookup_app_l by done.
  - rewrite lookup_app_r by lia. rewrite (lookup_ge_None_2 c) by lia.
    destruct (k !! (i - length c)%nat) as [o|] eqn:Ho; [|done].
    rewrite Forall_lookup in Hk. by rewrite (Hk _ _ Ho).
Qed.

Lemma avail_ge l i : (length l <= i)%nat -> avail l i = false.
Proof. intros. unfold avail. by rewrite lookup_ge_None_2. Qed.

Lemma IsPruned_avail c : IsPruned c = true <-> forall i, avail (coins_vout c) i = false.
Proof.
  unfold IsPruned, avail. rewrite forallb_forall. split.
  - intros H i. destruct (coins_vout c !! i) as [o|] eqn:Ho; [|done].
    apply list_elem_of_lookup_2, list_elem_of_In, H in Ho. by rewrite Ho.
  - intros H o Ho. apply list_elem_of_In, list_elem_of_lookup in Ho as [i Ho].
    specialize (H i). rewrite Ho in H. by apply negb_false_iff.
Qed.

(** ** Lemmas: the mask *)

Section MaskByte.
Variable f : nat -> bool.

Definition byte_of : Z :=
  fold_left (fun ch i => if f i then Z.lor ch (Z.shiftl 1 (Z.of_nat i)) else ch) (seq 0 8) 0.

Lemma byte_of_spec :
  mask_bits byte_of = map f (seq 0 8) /\ is_u8 byte_of /\
  negb (byte_of =? 0) = existsb f (seq 0 8).
Proof.
  unfold byte_of, mask_bits. cbn [seq fold_left map existsb].
  destruct (f 0%nat), (f 1%nat), (f 2%nat), (f 3%nat), (f 4%nat), (f 5%nat), (f 6%nat), (f 7%nat);
    (split; [reflexivity | split; [split; [discriminate | reflexivity] | reflexivity]]).
Qed.
End MaskByte.

Section Mask.
Variable v : list CTxOut.

Lemma mask_byte_spec b :
  mask_bits (mask_byte v b) = map (fun i => avail v (2 + b * 8 + i)) (seq 0 8) /\
  is_u8 (mask_byte v b) /\ negb (mask_byte v b =? 0) = mask_byte_used v b.
Proof. apply (byte_of_spec (fun i => avail v (2 + b * 8 + i))). Qed.

Definition used_count (m : nat) : nat := length (List.filter (mask_byte_used v) (seq 0 m)).

Lemma used_count_S m :
  used_count (S m) = (used_count m + if mask_byte_used v m then 1 else 0)%nat.
Proof.
  unfold used_count. rewrite seq_S, filter_app, length_app. simpl.
  by destruct (mask_byte_used v m).
Qed.

Lemma used_count_le m : (used_count m <= m)%nat.
Proof. induction m as [|m IH]; [done|]. rewrite used_count_S. case_match; lia. Qed.

(** The size and the number of non-zero bytes of a mask. *)
Definition mask_shape (m k : nat) : Prop :=
  (forall b, (m <= b)%nat -> mask_byte_used v b = false) /\
  (forall b, m = S b -> mask_byte_used v b = true) /\ k = used_count m.

Lemma mask_byte_unused b : (length v <= 2 + b * 8)%nat -> mask_byte_used v b = false.
Proof.
  intros Hb. apply not_true_is_false. unfold mask_byte_used. rewrite existsb_exists.
  intros (i & _ & Hi). rewrite avail_ge in Hi by lia. done.
Qed.

Lemma used_count_skip m d :
  (forall b, (m <= b < m + d)%nat -> mask_byte_used v b = false) ->
  used_count (m + d) = used_count m.
Proof.
  induction d as [|d IH]; intros H; [by rewrite Nat.add_0_r|].
  rewrite Nat.add_succ_r, used_count_S, H by lia. rewrite IH; [lia|]. intros; apply H; lia.
Qed.

Lemma mask_size_loop_shape fuel b m k :
  (length v <= 2 + (b + fuel) * 8)%nat -> (m <= b)%nat ->
  (forall b', (m <= b' < b)%nat -> mask_byte_used v b' = false) ->
  (forall b', m = S b' -> mask_byte_used v b' = true) -> k = used_count m ->
  mask_shape (mask_size_loop fuel v b m k).1 (mask_size_loop fuel v b m k).2.
Proof.
  revert b m k. induction fuel as [|fuel IH]; intros b m k Hf Hm Hz Hu ->; simpl.
  { split_and!; [|done..]. intros b' Hb'. destruct (decide (b' < b)%nat); [apply Hz; lia|].
    apply mask_byte_unused. lia. }
  destruct (Nat.ltb_spec (S (S (b * 8))) (length v)).
  - destruct (mask_byte_used v b) eqn:Hb.
    + apply IH; [lia.. | intros b' [= ->]; done | ].
      rewrite used_count_S, Hb. replace b with (m + (b - m))%nat by lia.
      rewrite used_count_skip; [lia|]. intros; apply Hz; lia.
    + apply IH; [lia | lia | | done | done]. intros b' Hb'.
      destruct (decide (b' = b)) as [->|]; [done | apply Hz; lia].
  - split_and!; [|done..]. simpl. intros b' Hb'.
    destruct (decide (b' < b)%nat); [apply Hz; lia|]. apply mask_byte_unused. lia.
Qed.

Lemma mask_shape_size m k : vout_clean v -> mask_shape m k -> (length v <= 2 + m * 8)%nat.
Proof.
  intros [_ Hl] (Hz & _ & _). destruct (decide (length v <= 2 + m * 8)%nat) as [|Hgt]; [done|].
  exfalso. destruct v as [|o l _] using rev_ind; [simpl in *; lia|].
  rewrite length_app in Hgt. simpl in Hgt.
  assert (Ha : avail (l ++ [o]) (length l) = true).
  { unfold avail. rewrite lookup_app_r, Nat.sub_diag by lia. simpl.
    by rewrite Hl by apply last_snoc. }
  set (b := ((length l - 2) / 8)%nat). pose proof (Nat.div_mod (length l - 2) 8 ltac:(lia)) as Hdm.
  fold b in Hdm. pose proof (Nat.mod_upper_bound (length l - 2) 8 ltac:(lia)) as Hr.
  assert (Hb : mask_byte_used (l ++ [o]) b = true).
  { unfold mask_byte_used. apply existsb_exists. exists ((length l - 2) mod 8)%nat.
    split; [apply in_seq; lia|].
    by replace (2 + b * 8 + (length l - 2) mod 8)%nat with (length l) by lia. }
  rewrite Hz in Hb by lia. done.
Qed.

Lemma mask_shape_bound m k : mask_shape m k -> (m * 8 <= length v + 6)%nat /\ (k <= m)%nat.
Proof.
  intros (_ & Hu & ->). split; [|apply used_count_le]. destruct m as [|m]; [lia|].
  specialize (Hu m eq_refl). unfold mask_byte_used in Hu. apply existsb_exists in Hu as (i & Hi & Ha).
  apply in_seq in Hi. destruct (decide (length v <= 2 + m * 8 + i)%nat).
  - by rewrite avail_ge in Ha by lia.
  - lia.
Qed.

(** A mask without bytes belongs to an object with two outputs at most. *)
Lemma mask_shape_none m i :
  vout_clean v -> mask_shape m 0 -> avail v 0 = false -> avail v 1 = false -> avail v i = false.
Proof.
  intros Hwf Hsh Hf Hs. pose proof (mask_shape_size m 0 Hwf Hsh) as Hsize.
  destruct i as [|[|i]]; [done..|]. destruct m as [|m]; [apply avail_ge; simpl in *; lia|].
  destruct Hsh as (_ & Hu & Hc). rewrite used_count_S, (Hu m) in Hc by done. lia.
Qed.

Lemma concat_mask_bits m :
  concat (map (fun b => mask_bits (mask_byte v b)) (seq 0 m)) = map (avail v) (seq 2 (m * 8)).
Proof.
  induction m as [|m IH]; [done|].
  rewrite seq_S, map_app, concat_app, IH. cbn [map concat Nat.add]. rewrite app_nil_r.
  replace (S m * 8)%nat with (m * 8 + 8)%nat by lia. rewrite seq_app, map_app. f_equal.
  rewrite (proj1 (mask_byte_spec m)).
  rewrite <- (map_map (fun i => 2 + m * 8 + i)%nat (avail v)). f_equal.
  simpl. repeat (f_equal; try lia).
Qed.

(** The number of non-zero bytes tells the reader where the mask ends. *)
Lemma read_mask_bytes bs vA rest :
  (forall b, list.last bs = Some b -> b <> 0) ->
  read_mask (bs ++ rest) (Z.of_nat (length (List.filter (fun z => negb (z =? 0)) bs))) vA =
  Some (vA ++ concat (map mask_bits bs), rest).
Proof.
  revert vA. induction bs as [|b bs IH]; intros vA Hl.
  { rewrite app_nil_r. by destruct rest. }
  assert (Hpos : (0 < length (List.filter (fun z => negb (z =? 0)%Z) (b :: bs)))%nat).
  { destruct (list.last (b :: bs)) as [z|] eqn:Hz; [|by apply last_None in Hz].
    specialize (Hl z eq_refl). apply last_Some in Hz as [l' ->].
    rewrite filter_app, length_app. simpl. destruct (Z.eqb_spec z 0); simpl; lia. }
  cbn [read_mask app]. destruct (Z.gtb_spec (Z.of_nat (length (List.filter (fun z => negb (z =? 0)) (b :: bs)))) 0);
    [|lia]. simpl negb at 1. cbv iota.
  assert (Hl' : forall z, list.last bs = Some z -> z <> 0).
  { intros z Hz. apply Hl. destruct bs; [done|]. done. }
  cbn [map concat]. rewrite app_assoc, <- IH by done. f_equal.
  simpl List.filter. destruct (negb (b =? 0)); simpl length; lia.
Qed.

Lemma read_mask_coins m k vA rest : mask_shape m k ->
  read_mask (concat (map (fun b => ser_writedata8 (mask_byte v b)) (seq 0 m)) ++ rest)
    (Z.of_nat k) vA = Some (vA ++ map (avail v) (seq 2 (m * 8)), rest).
Proof.
  intros (_ & Hu & ->).
  assert (Hser : concat (map (fun b => ser_writedata8 (mask_byte v b)) (seq 0 m))
    = map (mask_byte v) (seq 0 m)).
  { generalize (seq 0 m). intros l. induction l as [|b l IH]; [done|]. simpl map. simpl concat.
    rewrite IH. unfold ser_writedata8. destruct (mask_byte_spec b) as (_ & Hb & _).
    rewrite u8_id by done. simpl. by rewrite Z.mod_small. }
  rewrite Hser. rewrite <- concat_mask_bits.
  replace (used_count m)
    with (length (List.filter (fun z => negb (z =? 0)) (map (mask_byte v) (seq 0 m)))).
  - rewrite <- (map_map (mask_byte v) mask_bits). apply read_mask_bytes.
    intros b Hb. destruct m as [|m]; [done|]. rewrite seq_S, map_app in Hb.
    cbn [map Nat.add] in Hb. rewrite last_snoc in Hb. apply (inj Some) in Hb as <-. intros Hz. specialize (Hu m eq_refl).
    rewrite <- (proj2 (proj2 (mask_byte_spec m))) in Hu. by rewrite Hz in Hu.
  - unfold used_count. generalize (seq 0 m). intros l. induction l as [|b l IH]; [done|].
    simpl. rewrite (proj2 (proj2 (mask_byte_spec b))).
    destruct (mask_byte_used v b); simpl; lia.
Qed.
End Mask.

(** ** Lemmas: the database format *)

Section RoundTrip.
Context {point : Type} (parse : bytes -> option point) (serialize : point -> bytes).
Context `{!Secp256k1Encoding parse serialize}.

Lemma read_txouts_ser v rest :
  Forall (fun o => (CTxOut_IsNull o = true /\ o = CTxOut_SetNull) \/
    (0 <= nValue o <= 2 ^ 60 /\ Z.of_nat (length (scriptPubKey o)) <= MAX_SCRIPT_SIZE)) v ->
  forall k,
  read_txouts parse serialize (map (fun o => negb (CTxOut_IsNull o)) v ++ repeat false k)
    (concat (map (fun o => if CTxOut_IsNull o then [] else Serialize_txout parse o) v) ++ rest)
  = Some (v ++ repeat CTxOut_SetNull k, rest).
Proof.
  intros Hv k. induction Hv as [|o v Ho Hv IH]; cbn [map concat app].
  - induction k as [|k IHk]; [done|]. cbn [repeat read_txouts].
    rewrite (reader_bind_some _ _ rest CTxOut_SetNull rest) by done.
    by erewrite reader_bind_some by exact IHk.
  - cbn [read_txouts]. destruct (CTxOut_IsNull o) eqn:Hn; cbn [negb].
    + destruct Ho as [[_ ->]|[Ho _]]; [|unfold CTxOut_IsNull in Hn; lia].
      erewrite reader_bind_some by done. by erewrite reader_bind_some by exact IH.
    + destruct Ho as [[? _]|[Hv1 Hl]]; [congruence|]. rewrite <- app_assoc.
      erewrite reader_bind_some
        by (apply (Unserialize_txout_Serialize parse serialize); [done | unfold MAX_SCRIPT_SIZE in *; lia]).
      destruct (Z.leb_spec (Z.of_nat (length (scriptPubKey o))) MAX_SCRIPT_SIZE); [|lia].
      erewrite reader_bind_some by exact IH. by destruct o.
Qed.

Lemma map_avail_seq v : map (avail v) (seq 0 (length v)) = map (fun o => negb (CTxOut_IsNull o)) v.
Proof.
  induction v as [|o v IH]; [done|]. cbn [length seq map]. f_equal.
  rewrite <- seq_shift, map_map. exact IH.
Qed.

Lemma map_avail_ge v s k : (length v <= s)%nat -> map (avail v) (seq s k) = repeat false k.
Proof.
  revert s. induction k as [|k IH]; intros s Hs; [done|]. cbn [seq map repeat].
  rewrite avail_ge by lia. f_equal. apply IH. lia.
Qed.

Lemma land_low8 x y : 0 <= y < 8 -> Z.land x y = Z.land (x mod 8) y.
Proof.
  intros Hy. change 8 with (2 ^ 3). rewrite <- (Z.land_ones x 3), <- Z.land_assoc by lia.
  f_equal. rewrite Z.land_comm, Z.land_ones by lia. symmetry. by apply Z.mod_small.
Qed.

(** The header code determines the flags and the number of non-zero mask bytes. *)
Lemma header_code q (cb f s : bool) :
  0 <= q -> 8 * q + 7 < 2 ^ 32 ->
  let nCode := u32 (8 * q + b2z cb + 2 * b2z f + 4 * b2z s) in
  is_u32 nCode /\ negb (Z.land nCode 1 =? 0) = cb /\ negb (Z.land nCode 2 =? 0) = f /\
  negb (Z.land nCode 4 =? 0) = s /\ negb (Z.land nCode 6 =? 0) = f || s /\ nCode / 8 = q.
Proof.
  intros Hq Hb nCode. split; [apply u32_range|].
  set (t := b2z cb + 2 * b2z f + 4 * b2z s).
  assert (Ht : 0 <= t < 8) by (subst t; destruct cb, f, s; simpl; lia).
  assert (Hn : nCode = t + q * 8) by (subst nCode; rewrite u32_id; unfold is_u32; lia).
  clearbody nCode. subst nCode.
  rewrite !(land_low8 (t + q * 8)) by lia.
  rewrite Z.mod_add, Z.div_add, (Z.mod_small t), (Z.div_small t) by lia.
  split_and!; try lia; subst t; by destruct cb, f, s.
Qed.

Lemma CCoins_Unserialize_Serialize c rest :
  CCoins_storable c -> IsPruned c = false ->
  exists bs, CCoins_Serialize parse c = Some bs /\
    CCoins_Unserialize parse serialize (bs ++ rest) = Some (c, rest).
Proof.
  intros (Hwf & Hver & Hh & Hlen & Hout) Hp. set (v := coins_vout c) in *.
  destruct (CalcMaskSize c) as [m k] eqn:Hm.
  assert (Hsh : mask_shape v m k).
  { pose proof (mask_size_loop_shape v (S (length v)) 0 0 0) as H.
    unfold CalcMaskSize in Hm. fold v in Hm. rewrite Hm in H. apply H; try lia; done. }
  pose proof (mask_shape_size v m k Hwf Hsh) as Hsize.
  pose proof (mask_shape_bound v m k Hsh) as [Hmb Hkm].
  set (f := avail v 0). set (s := avail v 1).
  assert (Hk : f || s = false -> k <> 0%nat).
  { intros Hfs ->. apply not_true_iff_false in Hp. apply Hp, IsPruned_avail. intros i. fold v.
    apply orb_false_elim in Hfs as [Hf Hs]. by apply (mask_shape_none v m). }
  unfold CCoins_Serialize. rewrite Hm. fold v f s.
  destruct (negb (f || s || negb (Nat.eqb k 0))) eqn:Hass.
  { exfalso. apply negb_true_iff, orb_false_elim in Hass as [Hfs Hk0].
    apply (Hk Hfs). by apply Nat.eqb_eq, negb_false_iff. }
  eexists. split; [done|]. rewrite <- !app_assoc. unfold CCoins_Unserialize.
  erewrite reader_bind_some by (apply ReadVarInt_Write_conv; [lia|]; intros; apply i32_id; unfold is_i32; lia).
  set (q := Z.of_nat k - (if f || s then 0 else 1)).
  assert (Hq : 0 <= q) by (subst q; destruct (f || s); [lia | specialize (Hk eq_refl); lia]).
  destruct (header_code q (fCoinBase c) f s Hq ltac:(subst q; destruct (f || s); lia))
    as (Hn & Hcb & Hf & Hs & Hfs & Hdiv).
  set (nCode := u32 _) in *.
  erewrite reader_bind_some by (apply ReadVarInt_Write_conv;
    [unfold is_u32 in Hn; lia | intros; apply u32_id; unfold is_u32 in *; lia]).
  rewrite Hcb, Hf, Hs, Hfs, Hdiv.
  replace (u32 (q + (if f || s then 0 else 1))) with (Z.of_nat k)
    by (rewrite u32_id; subst q; unfold is_u32; destruct (f || s); lia).
  erewrite reader_bind_some by (by apply read_mask_coins).
  replace ([f; s] ++ map (avail v) (seq 2 (m * 8)))
    with (map (avail v) (seq 0 (length v)) ++ map (avail v) (seq (length v) (2 + m * 8 - length v))).
  2: { rewrite <- map_app, <- seq_app.
       by replace (length v + (2 + m * 8 - length v))%nat with (2 + m * 8)%nat by lia. }
  rewrite map_avail_seq, map_avail_ge by lia.
  erewrite reader_bind_some.
  2: { apply read_txouts_ser. apply Forall_forall. intros o Ho.
       destruct (CTxOut_IsNull o) eqn:Hnull; [left; split; [done|]|right].
       - apply (proj1 Hwf); [|done]. by apply list_elem_of_In.
       - rewrite Forall_forall in Hout. destruct (Hout o Ho) as [|]; [congruence | done]. }
  erewrite reader_bind_some by (apply ReadVarInt_Write_conv; [lia|]; intros; apply i32_id; unfold is_i32; lia).
  unfold mret, reader_ret, Cleanup. cbn [coins_vout fCoinBase coins_nHeight coins_nVersion].
  rewrite cleanup_vout_nulls by (by apply Forall_repeat).
  rewrite cleanup_vout_id by apply Hwf. by destruct c.
Qed.
End RoundTrip.

(** ** Lemmas: spending *)

Lemma IsAvailable_avail c nPos : IsAvailable c nPos = avail (coins_vout c) (Z.to_nat nPos).
Proof. done. Qed.

Lemma avail_insert v i j :
  avail (<[i := CTxOut_SetNull]> v) j = if (i =? j)%nat then false else avail v j.
Proof.
  unfold avail. destruct (Nat.eqb_spec i j) as [<-|Hne].
  - destruct (decide (i < length v)%nat).
    + by rewrite list_lookup_insert_eq by done.
    + by rewrite lookup_ge_None_2 by (rewrite length_insert; lia).
  - by rewrite list_lookup_insert_ne.
Qed.

Lemma Spend_spec c nPos c' : CCoins_wf c -> Spend c nPos = Some c' ->
  IsAvailable c nPos = true /\ CCoins_wf c' /\
  (forall i, avail (coins_vout c') i =
     if (Z.to_nat nPos =? i)%nat then false else avail (coins_vout c) i) /\
  (forall i o, avail (coins_vout c') i = true -> coins_vout c !! i = Some o ->
     coins_vout c' !! i = Some o) /\
  fCoinBase c' = fCoinBase c /\ coins_nHeight c' = coins_nHeight c /\
  coins_nVersion c' = coins_nVersion c.
Proof.
  intros [Hn _]. unfold Spend. destruct (IsAvailable c nPos) eqn:Ha; [|done]. simpl.
  intros [= <-]. split; [done|]. unfold CCoins_wf. cbn [coins_vout Cleanup fCoinBase coins_nHeight coins_nVersion].
  split_and!; try done.
  - apply cleanup_vout_clean. intros o Ho Hnull.
    apply list_elem_of_lookup in Ho as [i Hi]. destruct (decide (Z.to_nat nPos = i)) as [<-|Hne].
    + apply list_lookup_insert_Some in Hi as [(_ & <- & _)|(? & _)]; done.
    + rewrite list_lookup_insert_ne in Hi by done. apply Hn; [|done].
      by eapply list_elem_of_lookup_2.
  - intros i. by rewrite avail_cleanup, avail_insert.
  - intros i o Hav Hi. rewrite avail_cleanup, avail_insert in Hav.
    destruct (Nat.eqb_spec (Z.to_nat nPos) i) as [|Hne]; [done|].
    destruct (cleanup_vout_split (<[Z.to_nat nPos:=CTxOut_SetNull]> (coins_vout c))) as (k & Hsp & Hk).
    set (c' := cleanup_vout _) in *. assert (Hi' : (c' ++ k) !! i = Some o)
      by (rewrite <- Hsp; by rewrite list_lookup_insert_ne).
    apply lookup_app_Some in Hi' as [|[_ Hi']]; [done|].
    rewrite Forall_lookup in Hk. specialize (Hk _ _ Hi'). unfold avail in Hav.
    rewrite Hi, Hk in Hav. done.
Qed.

Lemma FromTx_avail tx h i : avail (coins_vout (FromTx tx h)) i = true <->
  exists o, vout tx !! i = Some o /\ CTxOut_IsNull o = false /\ IsUnspendable (scriptPubKey o) = false.
Proof.
  unfold FromTx, ClearUnspendable. cbn [coins_vout Cleanup]. rewrite avail_cleanup. unfold avail.
  rewrite list_lookup_fmap. destruct (vout tx !! i) as [o|]; simpl.
  - destruct (IsUnspendable (scriptPubKey o)) eqn:Hu; simpl.
    + split; [done|]. intros (? & [= <-] & _ & Hu'). congruence.
    + rewrite negb_true_iff. split; [eauto|]. by intros (? & [= <-] & ? & _).
  - split; [done|]. by intros (? & ? & _).
Qed.

Lemma FromTx_wf tx h : Forall (fun o => 0 <= nValue o) (vout tx) -> CCoins_wf (FromTx tx h).
Proof.
  intros Hv. unfold CCoins_wf, FromTx, ClearUnspendable. cbn [coins_vout Cleanup].
  apply cleanup_vout_clean. intros o Ho Hn. apply list_elem_of_In, in_map_iff in Ho as (o' & <- & Ho').
  destruct (IsUnspendable (scriptPubKey o')); [done|]. rewrite Forall_forall in Hv.
  apply list_elem_of_In, list_elem_of_In, Hv in Ho'. unfold CTxOut_IsNull in Hn. lia.
Qed.

(** ** Properties *)

(** The database format of a transaction's coins (version, header code,
    spentness mask, compressed outputs, height) reads back exactly the coins it
    was written from, for every coins object that is not fully spent; a fully
    spent object trips the assertion and is never written. *)
Theorem CCoins_roundtrip {point : Type} (parse : bytes -> option point)
    (serialize : point -> bytes) (Henc : Secp256k1Encoding parse serialize) c rest :
  CCoins_storable c ->
  if IsPruned c then CCoins_Serialize parse c = None
  else exists bs, CCoins_Serialize parse c = Some bs /\
    CCoins_Unserialize parse serialize (bs ++ rest) = Some (c, rest).
Proof.
  intros Hc. destruct (IsPruned c) eqn:Hp; [|by apply CCoins_Unserialize_Serialize].
  assert (Hv : coins_vout c = []).
  { destruct (coins_vout c) as [|o l _] eqn:Hv using rev_ind; [done|]. exfalso.
    unfold IsPruned in Hp. rewrite Hv, forallb_app in Hp. simpl in Hp.
    apply andb_prop in Hp as [_ Hp]. rewrite andb_true_r in Hp.
    destruct Hc as [[_ Hl] _]. rewrite Hv in Hl. rewrite (Hl o) in Hp by apply last_snoc. done. }
  unfold CCoins_Serialize, CalcMaskSize. by rewrite Hv.
Qed.

(** Twelve outputs of which the second and the last are unspent. *)
Definition coins_example : CCoins :=
  mkCCoins true
    ([CTxOut_SetNull; mkCTxOut (600 * COIN) [0x51]] ++ repeat CTxOut_SetNull 9
       ++ [mkCTxOut 234925952 ([OP_DUP; OP_HASH160; 20] ++ repeat 7 20 ++ [OP_EQUALVERIFY; OP_CHECKSIG])])
    203998 4.

Lemma CCoins_roundtrip_witness :
  exists bs, CCoins_Serialize toy_parse coins_example = Some bs /\
    CCoins_Unserialize toy_parse toy_serialize (bs ++ [9]) = Some (coins_example, [9]).
Proof.
  apply (CCoins_roundtrip toy_parse toy_serialize toy_encoding coins_example [9]).
  split; [|split_and!; try done].
  - split.
    + intros o Ho. apply list_elem_of_In in Ho. simpl in Ho.
      repeat destruct Ho as [<- | Ho]; try done.
    + by intros o [= <-].
  - repeat (constructor; [first [by left | by right]|]). constructor.
Defined.

(** Spending succeeds exactly on an available output, makes that output
    unavailable, keeps every other output and the metadata, and keeps the
    object clean (spent outputs null, none at the end); the object created
    from a transaction has exactly its spendable outputs available. *)
Theorem coins_spend_correct tx nHeight c nPos :
  Forall (fun o => 0 <= nValue o) (vout tx) -> CCoins_wf c ->
  CCoins_wf (FromTx tx nHeight) /\
  (forall i, IsAvailable (FromTx tx nHeight) (Z.of_nat i) = true <->
     exists o, vout tx !! i = Some o /\ IsUnspendable (scriptPubKey o) = false) /\
  (Spend c nPos = None <-> IsAvailable c nPos = false) /\
  (forall c', Spend c nPos = Some c' -> CCoins_wf c' /\
     (forall i, IsAvailable c' (Z.of_nat i) =
        negb (Z.to_nat nPos =? i)%nat && IsAvailable c (Z.of_nat i)) /\
     (forall i o, IsAvailable c' (Z.of_nat i) = true -> coins_vout c !! i = Some o ->
        coins_vout c' !! i = Some o) /\
     fCoinBase c' = fCoinBase c /\ coins_nHeight c' = coins_nHeight c).
Proof.
  intros Htx Hc. split; [by apply FromTx_wf|]. split; [|split].
  - intros i. rewrite IsAvailable_avail, Nat2Z.id, FromTx_avail.
    split; intros (o & Ho & H); exists o; [destruct H; auto|]. split_and!; auto.
    rewrite Forall_lookup in Htx. specialize (Htx _ _ Ho). unfold CTxOut_IsNull. lia.
  - unfold Spend. by destruct (IsAvailable c nPos).
  - intros c' Hs. destruct (Spend_spec c nPos c' Hc Hs) as (_ & Hwf & Hav & Hkeep & Hcb & Hh & _).
    split_and!; try done.
    + intros i. rewrite !IsAvailable_avail, Nat2Z.id, Hav. by destruct (_ =? i)%nat.
    + intros i o. rewrite IsAvailable_avail, Nat2Z.id. apply Hkeep.
Qed.

Lemma coins_spend_correct_witness :
  exists c', Spend coins_example 11 = Some c' /\ length (coins_vout c') = 2%nat /\
    IsAvailable c' 1 = true /\ IsAvailable c' 11 = false.
Proof.
  destruct (coins_spend_correct tx_sapling 0 coins_example 11) as (_ & _ & _ & H).
  - repeat constructor. discriminate.
  - split.
    + intros o Ho. apply list_elem_of_In in Ho. simpl in Ho.
      repeat destruct Ho as [<- | Ho]; try done.
    + by intros o [= <-].
  - destruct (Spend coins_example 11) as [c'|] eqn:Hs; [|vm_compute in Hs; discriminate].
    destruct (H c' eq_refl) as (_ & Ha & _). exists c'. split; [done|].
    split; [vm_compute in Hs; injection Hs as <-; reflexivity|].
    split; [exact (Ha 1%nat) | exact (Ha 11%nat)].
Defined.
