(* ===== verification/CoinsView.v ===== *)
(** * Views of the UTXO set (src/src/coins.{h,cpp}, src/src/txdb.cpp)

    [CCoinsView] as an interface ([CoinsView], with its contract
    [CoinsViewReads] and [CoinsViewLaws] against an abstract state), the LevelDB-backed view and the
    caching view as two instances of it.  A cache works over any view that
    obeys the contract, so caches stack.  The getters of a cache fill it, hence
    every operation returns the new state of the view it was called on. *)
From S2P Require Import Prelude Serialize Transaction Coins.

(** ** Data *)

Inductive ShieldedType := SPROUT | SAPLING.

#[global] Instance ShieldedType_eq_dec : EqDecision ShieldedType.
Proof. solve_decision. Defined.

(** The flags of a cache entry are the two bits [DIRTY] and [FRESH]. *)
Record CCoinsCacheEntry := mkCoinsEntry { e_coins : CCoins; e_DIRTY : bool; e_FRESH : bool }.

Record CNullifiersCacheEntry := mkNullifierEntry { nf_entered : bool; nf_DIRTY : bool }.

Section Data.
(** The note commitment trees; [CAnchorsSproutCacheEntry] and
    [CAnchorsSaplingCacheEntry] have the same members. *)
Context {Tree : Type}.

Record CAnchorsCacheEntry := mkAnchorEntry { an_entered : bool; an_tree : Tree; an_DIRTY : bool }.

(** The members of a cache that exist once per shielded pool. *)
Record pool := mkPool {
  hashAnchor : Z;
  cacheAnchors : gmap Z CAnchorsCacheEntry;
  cacheNullifiers : gmap Z CNullifiersCacheEntry
}.

(** The eight arguments of [BatchWrite]. *)
Record batch := mkBatch {
  cacheCoins : gmap Z CCoinsCacheEntry;
  hashBlock : Z;
  sprout : pool;
  sapling : pool
}.
End Data.
Arguments CAnchorsCacheEntry : clear implicits.
Arguments pool : clear implicits.
Arguments batch : clear implicits.

Definition get_pool {Tree} (t : ShieldedType) (b : batch Tree) : pool Tree :=
  match t with SPROUT => sprout b | SAPLING => sapling b end.

Definition set_pool {Tree} (t : ShieldedType) (p : pool Tree) (b : batch Tree) : batch Tree :=
  match t with
  | SPROUT => mkBatch (cacheCoins b) (hashBlock b) p (sapling b)
  | SAPLING => mkBatch (cacheCoins b) (hashBlock b) (sprout b) p
  end.

Definition set_coins {Tree} (m : gmap Z CCoinsCacheEntry) (b : batch Tree) : batch Tree :=
  mkBatch m (hashBlock b) (sprout b) (sapling b).

Definition set_hashBlock {Tree} (h : Z) (b : batch Tree) : batch Tree :=
  mkBatch (cacheCoins b) h (sprout b) (sapling b).

Definition empty_pool {Tree} (h : Z) : pool Tree := mkPool h ∅ ∅.

(** ** What the views use of the commitment trees *)

Class MerkleTree (Tree : Type) := {
  tree_root : ShieldedType -> Tree -> Z;
  tree_empty : Tree;
  tree_append : ShieldedType -> Tree -> Z -> option Tree;
  tree_usage : Tree -> Z
}.

(** ** The interface *)

(** The virtual methods of [CCoinsView].  [None] from a lookup is the result
    [false]; [None] from [BatchWrite] is a failed assertion. *)
Class CoinsView (Tree V : Type) := {
  GetCoins : V -> Z -> option CCoins * V;
  HaveCoins : V -> Z -> bool * V;
  GetAnchorAt : ShieldedType -> V -> Z -> option Tree * V;
  GetNullifier : ShieldedType -> V -> Z -> bool * V;
  GetBestBlock : V -> Z * V;
  GetBestAnchor : ShieldedType -> V -> Z * V;
  BatchWrite : V -> batch Tree -> option V
}.

(** ** The abstract state *)

(** A fully spent coins object stands for no coins. *)
Definition live (c : CCoins) : option CCoins := if IsPruned c then None else Some c.

Record utxo_state (Tree : Type) := mkState {
  st_coins : Z -> option CCoins;
  st_anchor : ShieldedType -> Z -> option Tree;
  st_null : ShieldedType -> Z -> bool;
  st_best : Z;
  st_bestAnchor : ShieldedType -> Z
}.
Arguments mkState {Tree}.
Arguments st_coins {Tree}.
Arguments st_anchor {Tree}.
Arguments st_null {Tree}.
Arguments st_best {Tree}.
Arguments st_bestAnchor {Tree}.

(** States are compared by what lookups return. *)
#[global] Instance utxo_equiv {Tree} : Equiv (utxo_state Tree) := fun a b =>
  (forall k, st_coins a k = st_coins b k) /\ (forall t k, st_anchor a t k = st_anchor b t k) /\
  (forall t k, st_null a t k = st_null b t k) /\ st_best a = st_best b /\
  (forall t, st_bestAnchor a t = st_bestAnchor b t).

#[global] Instance utxo_equivalence {Tree} : Equivalence (≡@{utxo_state Tree}).
Proof.
  split.
  - intros a. by split_and!.
  - intros a b (? & ? & ? & ? & ?). by split_and!.
  - intros a b c (? & ? & ? & ? & ?) (? & ? & ? & ? & ?). split_and!; congruence.
Qed.

(** A batch laid over a state. *)
Definition overlay {Tree} (b : batch Tree) (s : utxo_state Tree) : utxo_state Tree :=
  mkState
    (fun k => match cacheCoins b !! k with Some e => live (e_coins e) | None => st_coins s k end)
    (fun t k => match cacheAnchors (get_pool t b) !! k with
                | Some e => if an_entered e then Some (an_tree e) else None
                | None => st_anchor s t k
                end)
    (fun t k => match cacheNullifiers (get_pool t b) !! k with
                | Some e => nf_entered e
                | None => st_null s t k
                end)
    (if hashBlock b =? 0 then st_best s else hashBlock b)
    (fun t => if hashAnchor (get_pool t b) =? 0 then st_bestAnchor s t
              else hashAnchor (get_pool t b)).

#[global] Instance overlay_proper {Tree} (b : batch Tree) : Proper ((≡) ==> (≡)) (overlay b).
Proof.
  intros s s' (Hc & Ha & Hn & Hb & Hba). split_and!; simpl; intros; by repeat case_match.
Qed.

(** ** The contract *)

Section Contract.
Context {Tree : Type} `{!MerkleTree Tree}.

(** The history gives every root one tree. *)
Variable tree_of : ShieldedType -> Z -> Tree.

(** What a cache knows of its entries relative to the view below: [holds] says
    that the view below has the entry itself. *)
Definition coins_entry_ok (s : utxo_state Tree) (holds : Z -> Prop) (k : Z) (e : CCoinsCacheEntry)
    : Prop :=
  CCoins_wf (e_coins e) /\
  (if e_FRESH e then st_coins s k = None else holds k) /\
  (e_DIRTY e = false -> live (e_coins e) = st_coins s k).

Definition anchor_entry_ok (s : utxo_state Tree) (t : ShieldedType) (k : Z)
    (e : CAnchorsCacheEntry Tree) : Prop :=
  an_tree e = tree_of t k /\
  (if an_entered e then True else k <> tree_root t tree_empty) /\
  (an_DIRTY e = false -> an_entered e = true /\ st_anchor s t k = Some (an_tree e)).

Definition nullifier_entry_ok (s : utxo_state Tree) (t : ShieldedType) (k : Z)
    (e : CNullifiersCacheEntry) : Prop :=
  nf_DIRTY e = false -> nf_entered e = st_null s t k.

Definition batch_ok (s : utxo_state Tree) (holds : Z -> Prop) (b : batch Tree) : Prop :=
  (forall k e, cacheCoins b !! k = Some e -> coins_entry_ok s holds k e) /\
  (forall t k e, cacheAnchors (get_pool t b) !! k = Some e -> anchor_entry_ok s t k e) /\
  (forall t k e, cacheNullifiers (get_pool t b) !! k = Some e -> nullifier_entry_ok s t k e).

(** Writing up the best block and anchors needs them known. *)
Definition batch_hashes (b : batch Tree) : Prop :=
  hashBlock b <> 0 /\ forall t, hashAnchor (get_pool t b) <> 0.

(** A state a read may leave behind: the same view, with at least the same entries. *)
Definition same_view {V : Type} (inv : V -> Prop) (holds : V -> Z -> Prop)
    (abs : V -> utxo_state Tree) (v v' : V) : Prop :=
  inv v' /\ abs v' ≡ abs v /\ forall j, holds v j -> holds v' j.

(** What a cache above relies on to read; it asks GetCoins and never HaveCoins. *)
Class CoinsViewReads (V : Type) `{!CoinsView Tree V} := {
  view_inv : V -> Prop;
  holds : V -> Z -> Prop;
  abs : V -> utxo_state Tree;
  (** a read returns what the abstract state has and does not change it *)
  GetCoins_law v k : view_inv v ->
    same_view view_inv holds abs v (GetCoins v k).2 /\
    (forall c, (GetCoins v k).1 = Some c -> CCoins_wf c /\ holds (GetCoins v k).2 k) /\
    (GetCoins v k).1 ≫= live = st_coins (abs v) k;
  GetAnchorAt_law t v k : view_inv v ->
    same_view view_inv holds abs v (GetAnchorAt t v k).2 /\
    (GetAnchorAt t v k).1 = st_anchor (abs v) t k;
  anchor_tree_of t v k tr : view_inv v -> st_anchor (abs v) t k = Some tr -> tr = tree_of t k;
  GetNullifier_law t v k : view_inv v ->
    same_view view_inv holds abs v (GetNullifier t v k).2 /\
    (GetNullifier t v k).1 = st_null (abs v) t k;
  GetBestBlock_law v : view_inv v ->
    same_view view_inv holds abs v (GetBestBlock v).2 /\ (GetBestBlock v).1 = st_best (abs v);
  GetBestAnchor_law t v : view_inv v ->
    same_view view_inv holds abs v (GetBestAnchor t v).2 /\
    (GetBestAnchor t v).1 = st_bestAnchor (abs v) t
}.

(** What the rest promises. *)
Class CoinsViewLaws (V : Type) `{!CoinsView Tree V} := {
  laws_reads :: CoinsViewReads V;
  HaveCoins_law v k : view_inv v ->
    same_view view_inv holds abs v (HaveCoins v k).2 /\
    (HaveCoins v k).1 = bool_decide (is_Some (st_coins (abs v) k));
  (** a batch is written completely and no assertion fails *)
  BatchWrite_law v b : view_inv v -> batch_ok (abs v) (holds v) b -> batch_hashes b ->
    exists v', BatchWrite v b = Some v' /\ view_inv v' /\ abs v' ≡ overlay b (abs v)
}.
End Contract.
Arguments view_inv {Tree tree_of V _ _}.
Arguments holds {Tree tree_of V _ _}.
Arguments abs {Tree tree_of V _ _}.
Arguments GetCoins_law {Tree tree_of V _ _}.
Arguments HaveCoins_law {Tree _ tree_of V _ _}.
Arguments GetAnchorAt_law {Tree tree_of V _ _}.
Arguments anchor_tree_of {Tree tree_of V _ _}.
Arguments GetNullifier_law {Tree tree_of V _ _}.
Arguments GetBestBlock_law {Tree tree_of V _ _}.
Arguments GetBestAnchor_law {Tree tree_of V _ _}.
Arguments BatchWrite_law {Tree _ tree_of V _ _}.

(** ** Loops over a map that update another one *)

(** One iteration per entry of the child map: the action of the entry on the
    entry of the same key in the parent map; [None] is a failed assertion.
    Keys are distinct, so the order of iteration does not matter. *)
Section Merge.
Context {A B S : Type} (step : option A -> B -> S -> option (option A * S)).

Fixpoint merge_loop (l : list (Z * B)) (m : gmap Z A) (s : S) : option (gmap Z A * S) :=
  match l with
  | [] => Some (m, s)
  | (k, b) :: l =>
      match step (m !! k) b s with
      | Some (a, s) => merge_loop l (partial_alter (fun _ => a) k m) s
      | None => None
      end
  end.

Definition merge_map (child : gmap Z B) (m : gmap Z A) (s : S) : option (gmap Z A * S) :=
  merge_loop (map_to_list child) m s.

(** The result when every step succeeds: [f] gives the new parent entry, and
    [I] is an invariant of the map and the state. *)
Lemma merge_loop_spec (f : option A -> B -> option A) (I : gmap Z A -> S -> Prop) l m s :
  NoDup l.*1 -> I m s ->
  (forall k b m' s', (k, b) ∈ l -> m' !! k = m !! k -> I m' s' ->
     exists s'', step (m !! k) b s' = Some (f (m !! k) b, s'') /\
       I (partial_alter (fun _ => f (m !! k) b) k m') s'') ->
  exists m' s', merge_loop l m s = Some (m', s') /\ I m' s' /\
    (forall k b, (k, b) ∈ l -> m' !! k = f (m !! k) b) /\
    (forall k, k ∉ l.*1 -> m' !! k = m !! k).
Proof.
  revert m s. induction l as [|[k b] l IH]; intros m s Hnd HI Hstep.
  { exists m, s. split_and!; try done. by intros k b ?%elem_of_nil. }
  cbn [merge_loop]. destruct (Hstep k b m s) as (s1 & -> & HI1); [by left | done..|].
  apply list.NoDup_cons in Hnd as [Hk Hnd].
  destruct (IH (partial_alter (fun _ => f (m !! k) b) k m) s1) as (m' & s' & Hl & HI' & Hin & Hout);
    [done..| |].
  { intros k' b' m' s' Hin Hm' HIm'.
    assert (k' <> k) by (intros ->; apply Hk; by apply (list_elem_of_fmap_2 fst) in Hin).
    rewrite lookup_partial_alter_ne in Hm' |- * by done. apply Hstep; [by right | done..]. }
  exists m', s'. split_and!; [done..| |].
  - intros k' b' [[= -> ->]|Hin']%elem_of_cons.
    + rewrite Hout by done. by rewrite lookup_partial_alter_eq.
    + rewrite (Hin _ _ Hin'). rewrite lookup_partial_alter_ne; [done|].
      intros ->. apply Hk. by apply (list_elem_of_fmap_2 fst) in Hin'.
  - intros k' Hk'. apply not_elem_of_cons in Hk' as [Hne Hk']. simpl in Hne.
    rewrite Hout by done. by rewrite lookup_partial_alter_ne.
Qed.

Lemma merge_map_spec (f : option A -> B -> option A) (I : gmap Z A -> S -> Prop) child m s :
  I m s ->
  (forall k b m' s', child !! k = Some b -> m' !! k = m !! k -> I m' s' ->
     exists s'', step (m !! k) b s' = Some (f (m !! k) b, s'') /\
       I (partial_alter (fun _ => f (m !! k) b) k m') s'') ->
  exists m' s', merge_map child m s = Some (m', s') /\ I m' s' /\
    forall k, m' !! k = match child !! k with Some b => f (m !! k) b | None => m !! k end.
Proof.
  intros HI Hstep. unfold merge_map.
  destruct (merge_loop_spec f I (map_to_list child) m s) as (m' & s' & -> & HI' & Hin & Hout).
  - apply NoDup_fst_map_to_list.
  - done.
  - intros k b m' s' Hkb. apply elem_of_map_to_list in Hkb. by apply Hstep.
  - exists m', s'. split_and!; try done. intros k. destruct (child !! k) as [b|] eqn:Hb.
    + apply Hin. by apply elem_of_map_to_list.
    + apply Hout. intros ([k' b] & -> & Hkb)%list_elem_of_fmap.
      apply elem_of_map_to_list in Hkb. simpl in Hb. congruence.
Qed.
End Merge.

(** ** The database view (src/src/txdb.cpp)

    The records [DB_COINS], [DB_SPROUT_ANCHOR], [DB_NULLIFIER], ... of the
    chainstate database as maps of the values written; a batch is applied
    atomically. *)

Section DB.
Context {Tree : Type} `{!MerkleTree Tree}.

Record dbpool := mkDbPool {
  db_anchors : gmap Z Tree; db_nullifiers : gmap Z bool; db_bestAnchor : option Z
}.

Record CCoinsViewDB := mkDB {
  db_coins : gmap Z CCoins; db_bestBlock : option Z; db_sprout : dbpool; db_sapling : dbpool
}.

Definition db_pool (t : ShieldedType) (v : CCoinsViewDB) : dbpool :=
  match t with SPROUT => db_sprout v | SAPLING => db_sapling v end.

Definition DB_GetAnchorAt (t : ShieldedType) (v : CCoinsViewDB) (rt : Z) : option Tree :=
  if rt =? tree_root t tree_empty then Some tree_empty else db_anchors (db_pool t v) !! rt.

Definition DB_GetNullifier (t : ShieldedType) (v : CCoinsViewDB) (nf : Z) : bool :=
  bool_decide (is_Some (db_nullifiers (db_pool t v) !! nf)).

Definition DB_GetCoins (v : CCoinsViewDB) (txid : Z) : option CCoins := db_coins v !! txid.

Definition DB_HaveCoins (v : CCoinsViewDB) (txid : Z) : bool :=
  bool_decide (is_Some (db_coins v !! txid)).

Definition DB_GetBestBlock (v : CCoinsViewDB) : Z :=
  match db_bestBlock v with Some h => h | None => 0 end.

Definition DB_GetBestAnchor (t : ShieldedType) (v : CCoinsViewDB) : Z :=
  match db_bestAnchor (db_pool t v) with Some h => h | None => tree_root t tree_empty end.

(** The database operation of one entry of each map. *)
Definition DB_BatchWriteNullifier (old : option bool) (e : CNullifiersCacheEntry) : option bool :=
  if nf_DIRTY e then if negb (nf_entered e) then None else Some true else old.

Definition DB_BatchWriteAnchor (t : ShieldedType) (rt : Z) (old : option Tree)
    (e : CAnchorsCacheEntry Tree) : option Tree :=
  if an_DIRTY e then
    if negb (an_entered e) then None
    else if negb (rt =? tree_root t tree_empty) then Some (an_tree e) else old
  else old.

Definition DB_BatchWriteCoins (old : option CCoins) (e : CCoinsCacheEntry) : option CCoins :=
  if e_DIRTY e then if IsPruned (e_coins e) then None else Some (e_coins e) else old.

(** Applying a batch: every key of the child map once. *)
Definition db_apply {A B} (f : Z -> option A -> B -> option A) (child : gmap Z B) (m : gmap Z A)
    : gmap Z A :=
  fold_left (fun m '(k, b) => partial_alter (fun old => f k old b) k m) (map_to_list child) m.

Definition DB_write_pool (t : ShieldedType) (p : pool Tree) (d : dbpool) : dbpool :=
  mkDbPool (db_apply (DB_BatchWriteAnchor t) (cacheAnchors p) (db_anchors d))
    (db_apply (fun _ => DB_BatchWriteNullifier) (cacheNullifiers p) (db_nullifiers d))
    (if negb (hashAnchor p =? 0) then Some (hashAnchor p) else db_bestAnchor d).

Definition DB_BatchWrite (v : CCoinsViewDB) (b : batch Tree) : CCoinsViewDB :=
  mkDB (db_apply (fun _ => DB_BatchWriteCoins) (cacheCoins b) (db_coins v))
    (if negb (hashBlock b =? 0) then Some (hashBlock b) else db_bestBlock v)
    (DB_write_pool SPROUT (sprout b) (db_sprout v))
    (DB_write_pool SAPLING (sapling b) (db_sapling v)).

#[global] Instance DB_CoinsView : CoinsView Tree CCoinsViewDB := {
  GetCoins v k := (DB_GetCoins v k, v);
  HaveCoins v k := (DB_HaveCoins v k, v);
  GetAnchorAt t v k := (DB_GetAnchorAt t v k, v);
  GetNullifier t v k := (DB_GetNullifier t v k, v);
  GetBestBlock v := (DB_GetBestBlock v, v);
  GetBestAnchor t v := (DB_GetBestAnchor t v, v);
  BatchWrite v b := Some (DB_BatchWrite v b)
}.

(** ** The database view obeys the contract *)

Lemma db_apply_lookup {A B} (f : Z -> option A -> B -> option A) child m k :
  db_apply f child m !! k =
  match child !! k with Some b => f k (m !! k) b | None => m !! k end.
Proof.
  unfold db_apply.
  assert (H : forall l (m : gmap Z A), NoDup l.*1 ->
    (forall b, (k, b) ∈ l -> fold_left (fun m '(k, b) => partial_alter (fun old => f k old b) k m) l m !! k
       = f k (m !! k) b) /\
    (k ∉ l.*1 -> fold_left (fun m '(k, b) => partial_alter (fun old => f k old b) k m) l m !! k = m !! k)).
  { clear m. induction l as [|[k' b'] l IH]; intros m Hnd; simpl.
    { split; [by intros b ?%elem_of_nil | done]. }
    apply list.NoDup_cons in Hnd as [Hk' Hnd].
    destruct (IH (partial_alter (fun old => f k' old b') k' m) Hnd) as [Hin Hout]. split.
    - intros b [[= <- <-]|Hb]%elem_of_cons.
      + rewrite Hout by done. by rewrite lookup_partial_alter_eq.
      + rewrite (Hin _ Hb). rewrite lookup_partial_alter_ne; [done|].
        intros ->. apply Hk'. by apply (list_elem_of_fmap_2 fst) in Hb.
    - intros [Hne Hl]%not_elem_of_cons. rewrite Hout by done. by rewrite lookup_partial_alter_ne. }
  destruct (H (map_to_list child) m (NoDup_fst_map_to_list _)) as [Hin Hout].
  destruct (child !! k) as [b|] eqn:Hb.
  - apply Hin. by apply elem_of_map_to_list.
  - apply Hout. intros ([k' b] & -> & Hkb)%list_elem_of_fmap.
    apply elem_of_map_to_list in Hkb. simpl in Hb. congruence.
Qed.

Variable tree_of : ShieldedType -> Z -> Tree.

Definition db_abs (v : CCoinsViewDB) : utxo_state Tree :=
  mkState (fun k => DB_GetCoins v k) (fun t k => DB_GetAnchorAt t v k)
    (fun t k => DB_GetNullifier t v k) (DB_GetBestBlock v) (fun t => DB_GetBestAnchor t v).

(** No fully spent coins are stored, and the trees are those of their roots. *)
Definition db_inv (v : CCoinsViewDB) : Prop :=
  (forall k c, db_coins v !! k = Some c -> CCoins_wf c /\ IsPruned c = false) /\
  (forall t k tr, DB_GetAnchorAt t v k = Some tr -> tr = tree_of t k).

Lemma db_pool_BatchWrite t v b :
  db_pool t (DB_BatchWrite v b) = DB_write_pool t (get_pool t b) (db_pool t v).
Proof. by destruct t. Qed.

Lemma DB_write_anchor t v b k :
  (forall e, cacheAnchors (get_pool t b) !! k = Some e -> anchor_entry_ok tree_of (db_abs v) t k e) ->
  (forall tr, DB_GetAnchorAt t v k = Some tr -> tr = tree_of t k) ->
  DB_GetAnchorAt t (DB_BatchWrite v b) k = st_anchor (overlay b (db_abs v)) t k.
Proof.
  intros Ha Ht. unfold DB_GetAnchorAt at 1. rewrite db_pool_BatchWrite.
  simpl. rewrite db_apply_lookup. unfold DB_BatchWriteAnchor.
  destruct (cacheAnchors (get_pool t b) !! k) as [e|]; [|done].
  destruct (Ha e eq_refl) as (Htr & Hen & Hcl). unfold DB_GetAnchorAt in *. simpl in *.
  destruct (Z.eqb_spec k (tree_root t tree_empty)) as [->|Hne].
  - destruct (an_entered e); [|done]. rewrite Htr. f_equal. by apply Ht.
  - destruct (an_DIRTY e); [by destruct (an_entered e)|].
    destruct (Hcl eq_refl) as [-> ?]. unfold DB_GetAnchorAt in *.
    by destruct (Z.eqb_spec k (tree_root t tree_empty)).
Qed.

Lemma DB_write_nullifier t v b k :
  (forall e, cacheNullifiers (get_pool t b) !! k = Some e -> nullifier_entry_ok (db_abs v) t k e) ->
  DB_GetNullifier t (DB_BatchWrite v b) k = st_null (overlay b (db_abs v)) t k.
Proof.
  intros Hn. unfold DB_GetNullifier at 1. rewrite db_pool_BatchWrite.
  simpl. rewrite db_apply_lookup. unfold DB_BatchWriteNullifier.
  destruct (cacheNullifiers (get_pool t b) !! k) as [e|]; [|done].
  specialize (Hn e eq_refl). unfold nullifier_entry_ok in Hn.
  destruct (nf_DIRTY e); [by destruct (nf_entered e)|]. by rewrite (Hn eq_refl).
Qed.

Lemma DB_write_coins v b k :
  (forall e, cacheCoins b !! k = Some e -> coins_entry_ok (db_abs v) (fun _ => True) k e) ->
  DB_GetCoins (DB_BatchWrite v b) k = st_coins (overlay b (db_abs v)) k.
Proof.
  intros Hc. unfold DB_GetCoins at 1. simpl. rewrite db_apply_lookup. unfold DB_BatchWriteCoins.
  destruct (cacheCoins b !! k) as [e|]; [|done]. destruct (Hc e eq_refl) as (_ & _ & Hcl).
  unfold live in *. destruct (e_DIRTY e); [done|]. by rewrite (Hcl eq_refl).
Qed.

Lemma DB_BatchWrite_correct v b :
  db_inv v -> batch_ok tree_of (db_abs v) (fun _ => True) b -> batch_hashes b ->
  db_inv (DB_BatchWrite v b) /\ db_abs (DB_BatchWrite v b) ≡ overlay b (db_abs v).
Proof.
  intros [Hic Hia] (Hc & Ha & Hn) [Hb Hba].
  assert (Hanch : forall t k, DB_GetAnchorAt t (DB_BatchWrite v b) k = st_anchor (overlay b (db_abs v)) t k)
    by (intros; apply DB_write_anchor; [apply Ha | apply Hia]).
  split; [split|].
  - intros k c Hk. change (DB_GetCoins (DB_BatchWrite v b) k = Some c) in Hk.
    rewrite (DB_write_coins v b k) in Hk by (apply Hc). simpl in Hk.
    destruct (cacheCoins b !! k) as [e|] eqn:He; [|by apply (Hic k)].
    unfold live in Hk. destruct (IsPruned (e_coins e)) eqn:Hp; [done|]. injection Hk as <-.
    split; [|done]. by apply (Hc k e).
  - intros t k tr. rewrite Hanch. simpl.
    destruct (cacheAnchors (get_pool t b) !! k) as [e|] eqn:He; [|apply Hia].
    destruct (Ha t k e He) as (-> & _). destruct (an_entered e); [|done]. by intros [= <-].
  - split_and!.
    + intros k. apply DB_write_coins, Hc.
    + intros t k. apply Hanch.
    + intros t k. apply DB_write_nullifier, Hn.
    + simpl. unfold DB_GetBestBlock. simpl. by destruct (hashBlock b =? 0).
    + intros t. simpl. unfold DB_GetBestAnchor. rewrite db_pool_BatchWrite. simpl.
      by destruct (hashAnchor (get_pool t b) =? 0).
Qed.

#[global] Instance DB_Reads : CoinsViewReads tree_of CCoinsViewDB.
Proof.
  refine {| view_inv := db_inv; holds := fun _ _ => True; abs := db_abs |};
    try (intros; simpl; split; [by split_and!|done]).
  - intros v k [Hc Ha]. simpl. split; [by split_and!|]. split.
    + intros c Hk. split; [by apply (Hc k) | done].
    + unfold DB_GetCoins. destruct (db_coins v !! k) as [c|] eqn:Hk; [|done]. simpl.
      unfold live. by rewrite (proj2 (Hc k c Hk)).
  - intros t v k tr [_ Ha]. apply Ha.
Defined.

#[global] Instance DB_Laws : CoinsViewLaws tree_of CCoinsViewDB.
Proof.
  refine {| laws_reads := DB_Reads |}; [intros; simpl; split; [by split_and!|done]|].
  intros v b Hv Hb Hh. destruct (DB_BatchWrite_correct v b Hv Hb Hh) as [Hi Habs].
  exists (DB_BatchWrite v b). by split_and!.
Defined.
End DB.
Arguments CCoinsViewDB : clear implicits.
Arguments dbpool : clear implicits.
