(* ===== verification/CoinsCache.v ===== *)
(** * The caching view (classes CCoinsViewCache and CCoinsModifier of
      src/src/coins.{h,cpp})

    A cache over any view: lookups that fill it, modification of one entry
    through a modifier, anchors and nullifiers, [BatchWrite] from a cache above
    and [Flush] to the view below, and the queries transaction checking makes
    of it. *)
From S2P Require Import Prelude Serialize Transaction Coins CoinsView.

(** [CCoins::DynamicMemoryUsage], which depends on the allocator. *)
Class CoinsMemory := { coins_usage : CCoins -> Z }.

Record CCoinsViewCache (Tree V : Type) := mkCache {
  data : batch Tree; cachedCoinsUsage : Z; hasModifier : bool; base : V
}.
Arguments mkCache {Tree V}.
Arguments data {Tree V}.
Arguments cachedCoinsUsage {Tree V}.
Arguments hasModifier {Tree V}.
Arguments base {Tree V}.

Section Cache.
Context {Tree V : Type} `{!MerkleTree Tree} `{!CoinsView Tree V} `{!CoinsMemory}.
Abbreviation cache := (CCoinsViewCache Tree V).

Definition set_base (b : V) (c : cache) : cache :=
  mkCache (data c) (cachedCoinsUsage c) (hasModifier c) b.

Definition set_data (d : batch Tree) (usage : Z) (c : cache) : cache :=
  mkCache d usage (hasModifier c) (base c).

Definition new_cache (baseIn : V) : cache :=
  mkCache (mkBatch ∅ 0 (empty_pool 0) (empty_pool 0)) 0 false baseIn.

(** ** Lookups *)

Definition FetchCoins (c : cache) (txid : Z) : option CCoinsCacheEntry * cache :=
  match cacheCoins (data c) !! txid with
  | Some it => (Some it, c)
  | None =>
      match GetCoins (base c) txid with
      | (None, b) => (None, set_base b c)
      | (Some tmp, b) =>
          let ret := mkCoinsEntry tmp false (IsPruned tmp) in
          (Some ret, set_data (set_coins (<[txid := ret]> (cacheCoins (data c))) (data c))
             (u64 (cachedCoinsUsage c + coins_usage tmp)) (set_base b c))
      end
  end.

Definition Cache_GetCoins (c : cache) (txid : Z) : option CCoins * cache :=
  let '(it, c) := FetchCoins c txid in (option_map e_coins it, c).

Definition AccessCoins (c : cache) (txid : Z) : option CCoins * cache :=
  let '(it, c) := FetchCoins c txid in (option_map e_coins it, c).

Definition Cache_HaveCoins (c : cache) (txid : Z) : bool * cache :=
  let '(it, c) := FetchCoins c txid in
  (match it with Some e => negb (is_nil (coins_vout (e_coins e))) | None => false end, c).

Definition set_anchors (t : ShieldedType) (m : gmap Z (CAnchorsCacheEntry Tree)) (d : batch Tree)
    : batch Tree :=
  set_pool t (mkPool (hashAnchor (get_pool t d)) m (cacheNullifiers (get_pool t d))) d.

Definition set_nullifiers (t : ShieldedType) (m : gmap Z CNullifiersCacheEntry) (d : batch Tree)
    : batch Tree :=
  set_pool t (mkPool (hashAnchor (get_pool t d)) (cacheAnchors (get_pool t d)) m) d.

Definition set_hashAnchor (t : ShieldedType) (h : Z) (d : batch Tree) : batch Tree :=
  set_pool t (mkPool h (cacheAnchors (get_pool t d)) (cacheNullifiers (get_pool t d))) d.

(** [GetSproutAnchorAt] and [GetSaplingAnchorAt] *)
Definition Cache_GetAnchorAt (t : ShieldedType) (c : cache) (rt : Z) : option Tree * cache :=
  match cacheAnchors (get_pool t (data c)) !! rt with
  | Some e => (if an_entered e then Some (an_tree e) else None, c)
  | None =>
      match GetAnchorAt t (base c) rt with
      | (None, b) => (None, set_base b c)
      | (Some tree, b) =>
          (Some tree, set_data
             (set_anchors t (<[rt := mkAnchorEntry true tree false]>
                (cacheAnchors (get_pool t (data c)))) (data c))
             (u64 (cachedCoinsUsage c + tree_usage tree)) (set_base b c))
      end
  end.

Definition Cache_GetNullifier (t : ShieldedType) (c : cache) (nullifier : Z) : bool * cache :=
  match cacheNullifiers (get_pool t (data c)) !! nullifier with
  | Some e => (nf_entered e, c)
  | None =>
      let '(tmp, b) := GetNullifier t (base c) nullifier in
      (tmp, set_data
         (set_nullifiers t (<[nullifier := mkNullifierEntry tmp false]>
            (cacheNullifiers (get_pool t (data c)))) (data c))
         (cachedCoinsUsage c) (set_base b c))
  end.

Definition Cache_GetBestBlock (c : cache) : Z * cache :=
  if hashBlock (data c) =? 0 then
    let '(h, b) := GetBestBlock (base c) in
    (h, set_data (set_hashBlock h (data c)) (cachedCoinsUsage c) (set_base b c))
  else (hashBlock (data c), c).

Definition Cache_GetBestAnchor (t : ShieldedType) (c : cache) : Z * cache :=
  if hashAnchor (get_pool t (data c)) =? 0 then
    let '(h, b) := GetBestAnchor t (base c) in
    (h, set_data (set_hashAnchor t h (data c)) (cachedCoinsUsage c) (set_base b c))
  else (hashAnchor (get_pool t (data c)), c).

(** ** Modifications *)

Definition SetBestBlock (hashBlockIn : Z) (c : cache) : cache :=
  set_data (set_hashBlock hashBlockIn (data c)) (cachedCoinsUsage c) c.

Definition PushAnchor (t : ShieldedType) (tree : Tree) (c : cache) : cache :=
  let newrt := tree_root t tree in
  let '(currentRoot, c) := Cache_GetBestAnchor t c in
  if negb (currentRoot =? newrt) then
    let anchors := cacheAnchors (get_pool t (data c)) in
    let usage := match anchors !! newrt with
                 | None => u64 (cachedCoinsUsage c + tree_usage tree)
                 | Some _ => cachedCoinsUsage c
                 end in
    set_data (set_hashAnchor t newrt
      (set_anchors t (<[newrt := mkAnchorEntry true tree true]> anchors) (data c))) usage c
  else c.

(** [None] is the failed assertion of [BringBestAnchorIntoCache]. *)
Definition PopAnchor (t : ShieldedType) (newrt : Z) (c : cache) : option cache :=
  let '(currentRoot, c) := Cache_GetBestAnchor t c in
  if negb (currentRoot =? newrt) then
    match Cache_GetAnchorAt t c currentRoot with
    | (None, _) => None
    | (Some _, c) =>
        let anchors := cacheAnchors (get_pool t (data c)) in
        let tree := match anchors !! currentRoot with Some e => an_tree e | None => tree_empty end in
        Some (set_data (set_hashAnchor t newrt
          (set_anchors t (<[currentRoot := mkAnchorEntry false tree true]> anchors) (data c)))
          (cachedCoinsUsage c) c)
    end
  else Some c.

Definition SetNullifier (t : ShieldedType) (spent : bool) (c : cache) (nullifier : Z) : cache :=
  set_data (set_nullifiers t (<[nullifier := mkNullifierEntry spent true]>
    (cacheNullifiers (get_pool t (data c)))) (data c)) (cachedCoinsUsage c) c.

Definition SetNullifiers (tx : CMutableTransaction) (spent : bool) (c : cache) : cache :=
  let c := fold_left (fun c joinsplit => fold_left (SetNullifier SPROUT spent) (nullifiers joinsplit) c)
    (vjoinsplit tx) c in
  fold_left (fun c spend => SetNullifier SAPLING spent c (sd_nullifier spend)) (vShieldedSpend tx) c.

(** A [CCoinsModifier] is the key of the entry and its memory usage before the
    modification.  [None] is the failed assertion on [hasModifier]. *)
Definition ModifyCoins (c : cache) (txid : Z) : option (Z * cache) :=
  if hasModifier c then None
  else
    let '(entry, cachedCoinUsage, b) :=
      match cacheCoins (data c) !! txid with
      | Some e => (e, coins_usage (e_coins e), base c)
      | None =>
          match GetCoins (base c) txid with
          | (None, b) => (mkCoinsEntry CCoins_Clear false true, 0, b)
          | (Some coins, b) => (mkCoinsEntry coins false (IsPruned coins), 0, b)
          end
      end in
    let entry := mkCoinsEntry (e_coins entry) true (e_FRESH entry) in
    Some (cachedCoinUsage,
      mkCache (set_coins (<[txid := entry]> (cacheCoins (data c))) (data c))
        (cachedCoinsUsage c) true b).

(** The assignment through [operator->] and [operator*]. *)
Definition modifier_update (txid : Z) (f : CCoins -> CCoins) (c : cache) : cache :=
  set_data (set_coins (alter (fun e => mkCoinsEntry (f (e_coins e)) (e_DIRTY e) (e_FRESH e))
    txid (cacheCoins (data c))) (data c)) (cachedCoinsUsage c) c.

(** [~CCoinsModifier] *)
Definition modifier_destroy (txid cachedCoinUsage : Z) (c : cache) : option cache :=
  match hasModifier c, cacheCoins (data c) !! txid with
  | true, Some e =>
      let coins := Cleanup (e_coins e) in
      let usage := u64 (cachedCoinsUsage c - cachedCoinUsage) in
      Some (if e_FRESH e && IsPruned coins then
        mkCache (set_coins (delete txid (cacheCoins (data c))) (data c)) usage false (base c)
      else
        mkCache (set_coins (<[txid := mkCoinsEntry coins (e_DIRTY e) (e_FRESH e)]>
          (cacheCoins (data c))) (data c)) (u64 (usage + coins_usage coins)) false (base c))
  | _, _ => None
  end.

(** The life of one modifier: creation, one modification, destruction. *)
Definition modify_coins (c : cache) (txid : Z) (f : CCoins -> CCoins) : option cache :=
  match ModifyCoins c txid with
  | None => None
  | Some (usage, c) => modifier_destroy txid usage (modifier_update txid f c)
  end.

(** ** Writing a batch and flushing *)

(** The loop body of [BatchWrite] for one entry of the child; [None] is the
    failed assertion that the entry is [FRESH]. *)
Definition BatchWrite_coin (itUs : option CCoinsCacheEntry) (it : CCoinsCacheEntry) (usage : Z)
    : option (option CCoinsCacheEntry * Z) :=
  if e_DIRTY it then
    match itUs with
    | None =>
        if negb (IsPruned (e_coins it)) then
          if e_FRESH it
          then Some (Some (mkCoinsEntry (e_coins it) true true), u64 (usage + coins_usage (e_coins it)))
          else None
        else Some (None, usage)
    | Some us =>
        if e_FRESH us && IsPruned (e_coins it)
        then Some (None, u64 (usage - coins_usage (e_coins us)))
        else Some (Some (mkCoinsEntry (e_coins it) true (e_FRESH us)),
          u64 (u64 (usage - coins_usage (e_coins us)) + coins_usage (e_coins it)))
    end
  else Some (itUs, usage).

Definition BatchWriteAnchor (parent : option (CAnchorsCacheEntry Tree)) (child : CAnchorsCacheEntry Tree)
    (usage : Z) : option (option (CAnchorsCacheEntry Tree) * Z) :=
  Some (if an_DIRTY child then
    match parent with
    | None => (Some (mkAnchorEntry (an_entered child) (an_tree child) true),
               u64 (usage + tree_usage (an_tree child)))
    | Some p =>
        if negb (Bool.eqb (an_entered p) (an_entered child))
        then (Some (mkAnchorEntry (an_entered child) (an_tree p) true), usage)
        else (Some p, usage)
    end
  else (parent, usage)).

Definition BatchWriteNullifier (parent : option CNullifiersCacheEntry) (child : CNullifiersCacheEntry)
    (usage : Z) : option (option CNullifiersCacheEntry * Z) :=
  Some (if nf_DIRTY child then
    match parent with
    | None => (Some (mkNullifierEntry (nf_entered child) true), usage)
    | Some p =>
        if negb (Bool.eqb (nf_entered p) (nf_entered child))
        then (Some (mkNullifierEntry (nf_entered child) true), usage)
        else (Some p, usage)
    end
  else (parent, usage)).

Definition Cache_BatchWrite (c : cache) (b : batch Tree) : option cache :=
  if hasModifier c then None
  else
    '(coins, usage) ← merge_map BatchWrite_coin (cacheCoins b) (cacheCoins (data c)) (cachedCoinsUsage c);
    '(sproutAnchors, usage) ← merge_map BatchWriteAnchor (cacheAnchors (sprout b))
       (cacheAnchors (sprout (data c))) usage;
    '(saplingAnchors, usage) ← merge_map BatchWriteAnchor (cacheAnchors (sapling b))
       (cacheAnchors (sapling (data c))) usage;
    '(sproutNullifiers, usage) ← merge_map BatchWriteNullifier (cacheNullifiers (sprout b))
       (cacheNullifiers (sprout (data c))) usage;
    '(saplingNullifiers, usage) ← merge_map BatchWriteNullifier (cacheNullifiers (sapling b))
       (cacheNullifiers (sapling (data c))) usage;
    Some (mkCache
      (mkBatch coins (hashBlock b)
        (mkPool (hashAnchor (sprout b)) sproutAnchors sproutNullifiers)
        (mkPool (hashAnchor (sapling b)) saplingAnchors saplingNullifiers))
      usage (hasModifier c) (base c)).

#[global] Instance Cache_CoinsView : CoinsView Tree cache := {
  GetCoins := Cache_GetCoins;
  HaveCoins := Cache_HaveCoins;
  GetAnchorAt := Cache_GetAnchorAt;
  GetNullifier := Cache_GetNullifier;
  GetBestBlock := Cache_GetBestBlock;
  GetBestAnchor := Cache_GetBestAnchor;
  BatchWrite := Cache_BatchWrite
}.

(** [cacheCoins.clear(); cacheSproutAnchors.clear(); ...] *)
Definition clear_maps (d : batch Tree) : batch Tree :=
  mkBatch ∅ (hashBlock d) (empty_pool (hashAnchor (sprout d))) (empty_pool (hashAnchor (sapling d))).

Definition Flush (c : cache) : option cache :=
  b ← BatchWrite (base c) (data c);
  Some (mkCache (clear_maps (data c)) 0 (hasModifier c) b).

Definition GetCacheSize (c : cache) : Z := u32 (Z.of_nat (size (cacheCoins (data c)))).
End Cache.

(** ** Lemmas: sums over maps *)

Definition map_sum {A} (f : A -> Z) (m : gmap Z A) : Z := map_fold (fun _ a acc => f a + acc) 0 m.

Definition opt_sum {A} (f : A -> Z) (o : option A) : Z := match o with Some a => f a | None => 0 end.

Lemma map_sum_delete {A} (f : A -> Z) m k :
  map_sum f m = opt_sum f (m !! k) + map_sum f (delete k m).
Proof.
  unfold map_sum. destruct (m !! k) as [a|] eqn:Hk; simpl.
  - rewrite (map_fold_delete_L (fun (_ : Z) (a : A) (acc : Z) => f a + acc) 0 k a m); [done| |done].
    intros; lia.
  - by rewrite delete_id.
Qed.

Lemma map_sum_alter {A} (f : A -> Z) m k o :
  map_sum f (partial_alter (fun _ => o) k m) = map_sum f m - opt_sum f (m !! k) + opt_sum f o.
Proof.
  assert (Hd : delete k (partial_alter (fun _ => o) k m) = delete k m).
  { apply map_eq. intros j. destruct (decide (k = j)) as [<-|].
    - by rewrite !lookup_delete_eq.
    - by rewrite !lookup_delete_ne, lookup_partial_alter_ne. }
  rewrite (map_sum_delete f m k), (map_sum_delete f (partial_alter _ k m) k).
  rewrite lookup_partial_alter_eq, Hd. lia.
Qed.

Lemma map_sum_insert {A} (f : A -> Z) m k a :
  map_sum f (<[k := a]> m) = map_sum f m - opt_sum f (m !! k) + f a.
Proof. apply (map_sum_alter f m k (Some a)). Qed.

Lemma u64_add_l a b : u64 (u64 a + b) = u64 (a + b).
Proof. unfold u64. apply Zplus_mod_idemp_l. Qed.

Lemma u64_sub_l a b : u64 (u64 a - b) = u64 (a - b).
Proof. unfold u64. apply Zminus_mod_idemp_l. Qed.

(** A merge whose steps keep the counter at the sum of the usage. *)
Lemma merge_map_usage {A B} (step : option A -> B -> Z -> option (option A * Z))
    (f : option A -> B -> option A) (use : A -> Z) (R : Z) (child : gmap Z B) (m : gmap Z A) :
  (forall k b, child !! k = Some b -> forall x, step (m !! k) b (u64 x) =
     Some (f (m !! k) b, u64 (x - opt_sum use (m !! k) + opt_sum use (f (m !! k) b)))) ->
  exists m', merge_map step child m (u64 (map_sum use m + R)) = Some (m', u64 (map_sum use m' + R)) /\
    forall k, m' !! k = match child !! k with Some b => f (m !! k) b | None => m !! k end.
Proof.
  intros Hstep.
  destruct (merge_map_spec step f (fun m s => s = u64 (map_sum use m + R)) child m
    (u64 (map_sum use m + R))) as (m' & s' & Hm & -> & Hl); [done| |by exists m'].
  intros k b m' s' Hk Hm' ->. eexists. split; [by apply Hstep|].
  rewrite map_sum_alter, Hm'. f_equal. lia.
Qed.

#[export] Hint Rewrite u64_add_l u64_sub_l @map_sum_alter @map_sum_insert : width.

(** ** Lemmas: the members of a batch *)

Section Members.
Context {Tree : Type}.
Implicit Types (d : batch Tree) (t : ShieldedType).

Lemma get_set_pool t t' p d :
  get_pool t (set_pool t' p d) = if decide (t = t') then p else get_pool t d.
Proof. by destruct t, t'. Qed.

Lemma cacheCoins_set_pool t p d : cacheCoins (set_pool t p d) = cacheCoins d.
Proof. by destruct t. Qed.

Lemma hashBlock_set_pool t p d : hashBlock (set_pool t p d) = hashBlock d.
Proof. by destruct t. Qed.

Lemma get_pool_set_coins t m d : get_pool t (set_coins m d) = get_pool t d.
Proof. by destruct t. Qed.

Lemma get_pool_set_hashBlock t h d : get_pool t (set_hashBlock h d) = get_pool t d.
Proof. by destruct t. Qed.
End Members.

#[export] Hint Rewrite @get_set_pool @cacheCoins_set_pool @hashBlock_set_pool @get_pool_set_coins
  @get_pool_set_hashBlock : members.

(** ** The invariant of a cache *)

Section Invariant.
Context {Tree V : Type} `{!MerkleTree Tree} `{!CoinsView Tree V} `{!CoinsMemory}.
Context (tree_of : ShieldedType -> Z -> Tree) `{!CoinsViewReads tree_of V}.
Abbreviation cache := (CCoinsViewCache Tree V).

Definition anchors_usage (p : pool Tree) : Z := map_sum (fun e => tree_usage (an_tree e)) (cacheAnchors p).

Definition total_usage (d : batch Tree) : Z :=
  map_sum (fun e => coins_usage (e_coins e)) (cacheCoins d)
  + anchors_usage (sprout d) + anchors_usage (sapling d).

Definition cache_abs (c : cache) : utxo_state Tree := overlay (data c) (abs (base c)).

Definition cache_holds (c : cache) (k : Z) : Prop := is_Some (cacheCoins (data c) !! k).

(** Every entry is right about the view below, and the memory counter is the
    sum of the usage of the entries. *)
Definition cache_inv (c : cache) : Prop :=
  hasModifier c = false /\ view_inv (base c) /\
  batch_ok tree_of (abs (base c)) (holds (base c)) (data c) /\
  cachedCoinsUsage c = u64 (total_usage (data c)).

Lemma batch_ok_same_view v v' d :
  same_view view_inv holds abs v v' ->
  batch_ok tree_of (abs v) (holds v) d -> batch_ok tree_of (abs v') (holds v') d.
Proof.
  intros (_ & (Hc & Ha & Hn & _ & _) & Hh) (Bc & Ba & Bn). split_and!.
  - intros k e He. destruct (Bc k e He) as (Hw & Hf & Hd). split_and!; [done| |].
    + rewrite Hc. destruct (e_FRESH e); auto.
    + rewrite Hc. auto.
  - intros t k e He. destruct (Ba t k e He) as (Ht & Hen & Hd). split_and!; [done..|].
    rewrite Ha. auto.
  - intros t k e He Hd. rewrite Hn. by apply (Bn t k e He).
Qed.

(** A cache whose view below was read. *)
Lemma cache_base_read c b : cache_inv c -> same_view view_inv holds abs (base c) b ->
  same_view cache_inv cache_holds cache_abs c (set_base b c).
Proof.
  intros (Hm & Hv & Hb & Hu) Hs. pose proof Hs as (Hv' & Habs & _). split_and!; try done.
  - split_and!; [done | done | | done]. by eapply batch_ok_same_view.
  - unfold cache_abs. simpl. by rewrite Habs.
Qed.

Lemma same_view_refl c : cache_inv c -> same_view cache_inv cache_holds cache_abs c c.
Proof. intros Hi. by split. Qed.

Lemma same_view_trans c c' c'' :
  same_view cache_inv cache_holds cache_abs c c' -> same_view cache_inv cache_holds cache_abs c' c'' ->
  same_view cache_inv cache_holds cache_abs c c''.
Proof.
  intros (_ & H1 & H2) (? & H1' & H2'). split_and!; [done | by rewrite H1' | auto].
Qed.

(** Filling a cache with an entry that agrees with the view below. *)
Lemma fill_coins c k e :
  cache_inv c -> cacheCoins (data c) !! k = None ->
  coins_entry_ok (abs (base c)) (holds (base c)) k e ->
  live (e_coins e) = st_coins (abs (base c)) k ->
  same_view cache_inv cache_holds cache_abs c
    (set_data (set_coins (<[k := e]> (cacheCoins (data c))) (data c))
       (u64 (cachedCoinsUsage c + coins_usage (e_coins e))) c).
Proof.
  intros (Hm & Hv & (Bc & Ba & Bn) & Hu) Hk He Hl. split_and!.
  - split_and!; [done | done | |].
    + split_and!; simpl; intros *; autorewrite with members; eauto.
      rewrite lookup_insert_Some. intros [[<- <-]|[_ ?]]; eauto.
    + simpl. rewrite Hu, u64_add_l. unfold total_usage. simpl. rewrite map_sum_insert, Hk.
      simpl. f_equal. lia.
  - unfold cache_abs. split_and!; simpl; intros; autorewrite with members; try done.
    destruct (decide (k = k0)) as [<-|]; [|by rewrite lookup_insert_ne].
    by rewrite lookup_insert_eq, Hk.
  - intros j. unfold cache_holds. simpl. rewrite lookup_insert_is_Some'. auto.
Qed.

Lemma FetchCoins_law c k : cache_inv c ->
  same_view cache_inv cache_holds cache_abs c (FetchCoins c k).2 /\
  (FetchCoins c k).1 = cacheCoins (data (FetchCoins c k).2) !! k /\
  option_map e_coins (FetchCoins c k).1 ≫= live = st_coins (cache_abs c) k.
Proof.
  intros Hi. unfold FetchCoins. destruct (cacheCoins (data c) !! k) as [e|] eqn:Hk.
  { split_and!; [by apply same_view_refl | done |]. unfold cache_abs. simpl. by rewrite Hk. }
  destruct (GetCoins_law (base c) k) as (Hs & Hwf & Hl); [apply Hi|].
  destruct (GetCoins (base c) k) as [[tmp|] b]; simpl in Hs, Hwf, Hl.
  - destruct (Hwf tmp eq_refl) as [Hw Hh].
    pose proof (cache_base_read c b Hi Hs) as Hb.
    destruct Hs as (_ & (Hc & _) & _).
    assert (Hl' : live tmp = st_coins (abs b) k) by (by rewrite Hc).
    split_and!.
    + eapply same_view_trans; [exact Hb|]. simpl.
      apply (fill_coins (set_base b c) k (mkCoinsEntry tmp false (IsPruned tmp)));
        [apply Hb | done | | done].
      split_and!; simpl; [done | | done]. unfold live in Hl'. destruct (IsPruned tmp); done.
    + simpl. by rewrite lookup_insert_eq.
    + unfold cache_abs. simpl. by rewrite Hk.
  - split_and!; [by apply cache_base_read | by simpl |]. unfold cache_abs. simpl. by rewrite Hk.
Qed.

Lemma pruned_wf co : CCoins_wf co -> IsPruned co = is_nil (coins_vout co).
Proof.
  intros [_ Hl]. unfold IsPruned. destruct (coins_vout co) as [|o l _] using rev_ind; [done|].
  rewrite forallb_app. simpl. rewrite (Hl o) by apply last_snoc. rewrite andb_false_r.
  by destruct l.
Qed.

Lemma Cache_GetCoins_law c k : cache_inv c ->
  same_view cache_inv cache_holds cache_abs c (Cache_GetCoins c k).2 /\
  (forall co, (Cache_GetCoins c k).1 = Some co -> CCoins_wf co /\ cache_holds (Cache_GetCoins c k).2 k) /\
  (Cache_GetCoins c k).1 ≫= live = st_coins (cache_abs c) k.
Proof.
  intros Hi. destruct (FetchCoins_law c k Hi) as (Hs & He & Hl). unfold Cache_GetCoins.
  destruct (FetchCoins c k) as [it c']; simpl in *. split_and!; [done..| |done].
  intros co Hco. destruct it as [e|]; [|done]. injection Hco as <-. split.
  - destruct Hs as ((_ & _ & (Bc & _) & _) & _). by destruct (Bc k e).
  - by exists e.
Qed.

Lemma Cache_HaveCoins_law c k : cache_inv c ->
  same_view cache_inv cache_holds cache_abs c (Cache_HaveCoins c k).2 /\
  (Cache_HaveCoins c k).1 = bool_decide (is_Some (st_coins (cache_abs c) k)).
Proof.
  intros Hi. destruct (FetchCoins_law c k Hi) as (Hs & He & Hl). unfold Cache_HaveCoins.
  destruct (FetchCoins c k) as [it c']; simpl in *. split; [done|]. rewrite <- Hl.
  destruct it as [e|]; simpl; [|done]. unfold live.
  assert (Hw : CCoins_wf (e_coins e)) by (destruct Hs as ((_ & _ & (Bc & _) & _) & _); by destruct (Bc k e)).
  rewrite (pruned_wf _ Hw). by destruct (is_nil (coins_vout (e_coins e))).
Qed.

Lemma fill_anchor t c k tree :
  cache_inv c -> cacheAnchors (get_pool t (data c)) !! k = None ->
  st_anchor (abs (base c)) t k = Some tree ->
  same_view cache_inv cache_holds cache_abs c
    (set_data (set_anchors t (<[k := mkAnchorEntry true tree false]> (cacheAnchors (get_pool t (data c))))
       (data c)) (u64 (cachedCoinsUsage c + tree_usage tree)) c).
Proof.
  intros (Hm & Hv & (Bc & Ba & Bn) & Hu) Hk Hst. pose proof (anchor_tree_of _ _ _ _ Hv Hst) as Htr.
  split_and!.
  - split_and!; [done | done | |].
    + split_and!; simpl; unfold set_anchors; intros *; autorewrite with members; eauto.
      * case_decide as Ht; [subst|eauto]. simpl. rewrite lookup_insert_Some.
        intros [[<- <-]|[_ ?]]; [|eauto]. by split_and!.
      * case_decide as Ht; [subst|eauto]. simpl. eauto.
    + simpl. rewrite Hu, u64_add_l. unfold total_usage, set_anchors, anchors_usage.
      destruct t; simpl in *; rewrite map_sum_insert, Hk; simpl; f_equal; lia.
  - unfold cache_abs, set_anchors. split_and!; simpl; intros; autorewrite with members; try done;
      try (case_decide as Ht; [subst|done]; done).
    case_decide as Ht; [subst|done]. simpl.
    destruct (decide (k = k0)) as [<-|]; [|by rewrite lookup_insert_ne].
    by rewrite lookup_insert_eq, Hk.
  - intros j. unfold cache_holds, set_anchors. simpl. by autorewrite with members.
Qed.

Lemma fill_nullifier t c k :
  cache_inv c -> cacheNullifiers (get_pool t (data c)) !! k = None ->
  same_view cache_inv cache_holds cache_abs c
    (set_data (set_nullifiers t (<[k := mkNullifierEntry (st_null (abs (base c)) t k) false]>
       (cacheNullifiers (get_pool t (data c)))) (data c)) (cachedCoinsUsage c) c).
Proof.
  intros (Hm & Hv & (Bc & Ba & Bn) & Hu) Hk. split_and!.
  - split_and!; [done | done | |].
    + split_and!; simpl; unfold set_nullifiers; intros *; autorewrite with members; eauto.
      * case_decide as Ht; [subst|eauto]. simpl. eauto.
      * case_decide as Ht; [subst|eauto]. simpl. rewrite lookup_insert_Some.
        intros [[<- <-]|[_ ?]]; [|eauto]. by intros _.
    + simpl. rewrite Hu. unfold total_usage, set_nullifiers, anchors_usage. by destruct t.
  - unfold cache_abs, set_nullifiers. split_and!; simpl; intros; autorewrite with members; try done;
      try (case_decide as Ht; [subst|done]; done).
    case_decide as Ht; [subst|done]. simpl.
    destruct (decide (k = k0)) as [<-|]; [|by rewrite lookup_insert_ne].
    by rewrite lookup_insert_eq, Hk.
  - intros j. unfold cache_holds, set_nullifiers. simpl. by autorewrite with members.
Qed.

Lemma Cache_GetAnchorAt_law t c k : cache_inv c ->
  same_view cache_inv cache_holds cache_abs c (Cache_GetAnchorAt t c k).2 /\
  (Cache_GetAnchorAt t c k).1 = st_anchor (cache_abs c) t k.
Proof.
  intros Hi. unfold Cache_GetAnchorAt, cache_abs at 2. simpl.
  destruct (cacheAnchors (get_pool t (data c)) !! k) as [e|] eqn:Hk;
    [split; [by apply same_view_refl | done]|].
  destruct (GetAnchorAt_law t (base c) k) as (Hs & Hr); [apply Hi|].
  destruct (GetAnchorAt t (base c) k) as [[tree|] b]; simpl in *.
  - split; [|done]. pose proof (cache_base_read c b Hi Hs) as Hb.
    eapply same_view_trans; [exact Hb|].
    apply (fill_anchor t (set_base b c)); [apply Hb | done|].
    destruct Hs as (_ & (_ & Ha & _) & _). simpl. by rewrite Ha.
  - split; [by apply cache_base_read | done].
Qed.

Lemma Cache_GetNullifier_law t c k : cache_inv c ->
  same_view cache_inv cache_holds cache_abs c (Cache_GetNullifier t c k).2 /\
  (Cache_GetNullifier t c k).1 = st_null (cache_abs c) t k.
Proof.
  intros Hi. unfold Cache_GetNullifier, cache_abs at 2. simpl.
  destruct (cacheNullifiers (get_pool t (data c)) !! k) as [e|] eqn:Hk;
    [split; [by apply same_view_refl | done]|].
  destruct (GetNullifier_law t (base c) k) as (Hs & Hr); [apply Hi|].
  destruct (GetNullifier t (base c) k) as [tmp b]; simpl in *. split; [|done].
  pose proof (cache_base_read c b Hi Hs) as Hb. eapply same_view_trans; [exact Hb|].
  destruct Hs as (_ & (_ & _ & Hn & _) & _). rewrite Hr, <- Hn.
  apply (fill_nullifier t (set_base b c)); [apply Hb | done].
Qed.

(** Remembering the hash of the view below. *)
Lemma fill_hashBlock c : cache_inv c -> hashBlock (data c) = 0 ->
  same_view cache_inv cache_holds cache_abs c
    (set_data (set_hashBlock (st_best (abs (base c))) (data c)) (cachedCoinsUsage c) c).
Proof.
  intros (Hm & Hv & (Bc & Ba & Bn) & Hu) H0. split_and!.
  - split_and!; try done; simpl; intros *; autorewrite with members; eauto.
  - unfold cache_abs. split_and!; simpl; intros; autorewrite with members; try done.
    rewrite H0. simpl. by case_bool.
  - done.
Qed.

Lemma fill_hashAnchor t c : cache_inv c -> hashAnchor (get_pool t (data c)) = 0 ->
  same_view cache_inv cache_holds cache_abs c
    (set_data (set_hashAnchor t (st_bestAnchor (abs (base c)) t) (data c)) (cachedCoinsUsage c) c).
Proof.
  intros (Hm & Hv & (Bc & Ba & Bn) & Hu) H0. unfold set_hashAnchor. split_and!.
  - split_and!; try done.
    + split_and!; simpl; intros *; autorewrite with members; eauto;
        (case_decide as Ht; [subst|]; simpl; eauto).
    + simpl. rewrite Hu. unfold total_usage, anchors_usage. by destruct t.
  - unfold cache_abs. split_and!; simpl; intros; autorewrite with members; try done;
      (case_decide as Ht; [subst|done]; simpl; try done).
    rewrite H0. simpl. by case_bool.
  - intros j. unfold cache_holds. simpl. by autorewrite with members.
Qed.

Lemma Cache_GetBestBlock_law c : cache_inv c ->
  same_view cache_inv cache_holds cache_abs c (Cache_GetBestBlock c).2 /\
  (Cache_GetBestBlock c).1 = st_best (cache_abs c).
Proof.
  intros Hi. unfold Cache_GetBestBlock, cache_abs at 2. simpl.
  destruct (Z.eqb_spec (hashBlock (data c)) 0) as [H0|];
    [|split; [by apply same_view_refl | done]].
  destruct (GetBestBlock_law (base c)) as (Hs & Hr); [apply Hi|].
  destruct (GetBestBlock (base c)) as [h b]; simpl in *. split; [|done].
  pose proof (cache_base_read c b Hi Hs) as Hb. eapply same_view_trans; [exact Hb|].
  destruct Hs as (_ & (_ & _ & _ & Hbest & _) & _). rewrite Hr, <- Hbest.
  apply (fill_hashBlock (set_base b c)); [apply Hb | done].
Qed.

Lemma Cache_GetBestAnchor_law t c : cache_inv c ->
  same_view cache_inv cache_holds cache_abs c (Cache_GetBestAnchor t c).2 /\
  (Cache_GetBestAnchor t c).1 = st_bestAnchor (cache_abs c) t.
Proof.
  intros Hi. unfold Cache_GetBestAnchor, cache_abs at 2. simpl.
  destruct (Z.eqb_spec (hashAnchor (get_pool t (data c))) 0) as [H0|];
    [|split; [by apply same_view_refl | done]].
  destruct (GetBestAnchor_law t (base c)) as (Hs & Hr); [apply Hi|].
  destruct (GetBestAnchor t (base c)) as [h b]; simpl in *. split; [|done].
  pose proof (cache_base_read c b Hi Hs) as Hb. eapply same_view_trans; [exact Hb|].
  destruct Hs as (_ & (_ & _ & _ & _ & Hbest) & _). rewrite Hr, <- Hbest.
  apply (fill_hashAnchor t (set_base b c)); [apply Hb | done].
Qed.

(** *** Writing a batch *)

(** The entries the three loops leave behind. *)
Definition merge_coin (us : option CCoinsCacheEntry) (it : CCoinsCacheEntry) : option CCoinsCacheEntry :=
  if e_DIRTY it then
    match us with
    | None => if IsPruned (e_coins it) then None else Some (mkCoinsEntry (e_coins it) true true)
    | Some us => if e_FRESH us && IsPruned (e_coins it) then None
                 else Some (mkCoinsEntry (e_coins it) true (e_FRESH us))
    end
  else us.

Definition merge_anchor (p : option (CAnchorsCacheEntry Tree)) (ch : CAnchorsCacheEntry Tree) :=
  if an_DIRTY ch then
    match p with
    | None => Some (mkAnchorEntry (an_entered ch) (an_tree ch) true)
    | Some p => if negb (Bool.eqb (an_entered p) (an_entered ch))
                then Some (mkAnchorEntry (an_entered ch) (an_tree p) true) else Some p
    end
  else p.

Definition merge_nullifier (p : option CNullifiersCacheEntry) (ch : CNullifiersCacheEntry) :=
  if nf_DIRTY ch then
    match p with
    | None => Some (mkNullifierEntry (nf_entered ch) true)
    | Some p => if negb (Bool.eqb (nf_entered p) (nf_entered ch))
                then Some (mkNullifierEntry (nf_entered ch) true) else Some p
    end
  else p.

Abbreviation use_coin := (fun e => coins_usage (e_coins e)).
Abbreviation use_tree := (fun e => tree_usage (an_tree e)).

(** The entry of the child is right about the cache, the entry of the cache
    about the view below: then the assertion holds, the merged entry is right
    about the view below and shows the coins of the child. *)
Lemma BatchWrite_coin_ok c k e us :
  cache_inv c -> us = cacheCoins (data c) !! k ->
  coins_entry_ok (cache_abs c) (cache_holds c) k e ->
  (forall x, BatchWrite_coin us e (u64 x) =
     Some (merge_coin us e, u64 (x - opt_sum use_coin us + opt_sum use_coin (merge_coin us e)))) /\
  (forall e', merge_coin us e = Some e' -> coins_entry_ok (abs (base c)) (holds (base c)) k e') /\
  match merge_coin us e with Some e' => live (e_coins e') | None => st_coins (abs (base c)) k end
    = live (e_coins e).
Proof.
  intros (_ & _ & (Bc & _) & _) -> (Hw & Hf & Hd). unfold cache_holds, cache_abs in Hf, Hd. simpl in Hf, Hd.
  unfold BatchWrite_coin, merge_coin. destruct (e_DIRTY e) eqn:HD.
  - destruct (cacheCoins (data c) !! k) as [us|] eqn:Hk.
    + destruct (Bc k us Hk) as (Hwu & Hfu & _).
      destruct (e_FRESH us) eqn:HF; simpl.
      * unfold live. destruct (IsPruned (e_coins e)) eqn:Hp; simpl.
        -- split_and!; [|done|done]. intros x. rewrite u64_sub_l. do 3 f_equal. lia.
        -- split_and!.
           ++ intros x. rewrite u64_sub_l, u64_add_l. done.
           ++ intros e' [= <-]. by split_and!.
           ++ simpl. by rewrite Hp.
      * split_and!.
        -- intros x. rewrite u64_sub_l, u64_add_l. done.
        -- intros e' [= <-]. by split_and!.
        -- done.
    + assert (HF : e_FRESH e = true /\ st_coins (abs (base c)) k = None).
      { destruct (e_FRESH e); [done|]. by destruct Hf. }
      destruct HF as [-> Hnone]. unfold live. destruct (IsPruned (e_coins e)) eqn:Hp; simpl.
      * split_and!; [|done|done]. intros x. do 3 f_equal. lia.
      * split_and!.
        -- intros x. rewrite u64_add_l. do 3 f_equal. lia.
        -- intros e' [= <-]. by split_and!.
        -- by rewrite Hp.
  - split_and!.
    + intros x. do 3 f_equal. lia.
    + intros e' He'. by apply Bc.
    + by rewrite (Hd eq_refl).
Qed.

Lemma BatchWriteAnchor_ok t c k e us :
  cache_inv c -> us = cacheAnchors (get_pool t (data c)) !! k ->
  anchor_entry_ok tree_of (cache_abs c) t k e ->
  (forall x, BatchWriteAnchor us e (u64 x) =
     Some (merge_anchor us e, u64 (x - opt_sum use_tree us + opt_sum use_tree (merge_anchor us e)))) /\
  (forall e', merge_anchor us e = Some e' -> anchor_entry_ok tree_of (abs (base c)) t k e') /\
  match merge_anchor us e with
  | Some e' => if an_entered e' then Some (an_tree e') else None
  | None => st_anchor (abs (base c)) t k
  end = if an_entered e then Some (an_tree e) else None.
Proof.
  intros (_ & _ & (_ & Ba & _) & _) -> (Ht & Hen & Hd). unfold cache_abs in Hd. simpl in Hd.
  unfold BatchWriteAnchor, merge_anchor. destruct (an_DIRTY e) eqn:HD.
  - destruct (cacheAnchors (get_pool t (data c)) !! k) as [us|] eqn:Hk.
    + destruct (Ba t k us Hk) as (Htu & Henu & Hdu).
      assert (Htt : an_tree us = an_tree e) by congruence.
      destruct (an_entered us) eqn:Eu, (an_entered e) eqn:Ee; simpl; rewrite ?Eu, ?Htt;
        (split_and!; [intros x; do 3 f_equal; lia | | done]); intros e' [= <-];
        first [by apply Ba | by split_and!].
    + split_and!.
      * intros x. simpl. rewrite u64_add_l. do 3 f_equal. lia.
      * intros e' [= <-]. by split_and!.
      * done.
  - split_and!.
    + intros x. do 3 f_equal. lia.
    + intros e' He'. by apply Ba.
    + destruct (Hd eq_refl) as [-> Hst]. by rewrite Hst.
Qed.

Lemma BatchWriteNullifier_ok t c k e us :
  cache_inv c -> us = cacheNullifiers (get_pool t (data c)) !! k ->
  nullifier_entry_ok (cache_abs c) t k e ->
  (forall x, BatchWriteNullifier us e x = Some (merge_nullifier us e, x)) /\
  (forall e', merge_nullifier us e = Some e' -> nullifier_entry_ok (abs (base c)) t k e') /\
  match merge_nullifier us e with Some e' => nf_entered e' | None => st_null (abs (base c)) t k end
    = nf_entered e.
Proof.
  intros (_ & _ & (_ & _ & Bn) & _) -> Hd. unfold nullifier_entry_ok, cache_abs in Hd. simpl in Hd.
  unfold BatchWriteNullifier, merge_nullifier. destruct (nf_DIRTY e) eqn:HD.
  - destruct (cacheNullifiers (get_pool t (data c)) !! k) as [us|] eqn:Hk.
    + pose proof (Bn t k us Hk) as Hnu.
      destruct (nf_entered us) eqn:Eu, (nf_entered e) eqn:Ee; simpl; rewrite ?Eu;
        (split_and!; [done | intros e' [= <-]; first [by apply Bn | done] | done]).
    + split_and!; [done | by intros e' [= <-] | done].
  - split_and!; [done | intros e' He'; by apply Bn | by rewrite (Hd eq_refl)].
Qed.

(** The members of the cache after the loops. *)
Lemma Cache_BatchWrite_data c b :
  cache_inv c -> batch_ok tree_of (cache_abs c) (cache_holds c) b ->
  exists d, Cache_BatchWrite c b = Some (mkCache d (u64 (total_usage d)) false (base c)) /\
    hashBlock d = hashBlock b /\ (forall t, hashAnchor (get_pool t d) = hashAnchor (get_pool t b)) /\
    (forall k, cacheCoins d !! k = match cacheCoins b !! k with
       | Some e => merge_coin (cacheCoins (data c) !! k) e
       | None => cacheCoins (data c) !! k end) /\
    (forall t k, cacheAnchors (get_pool t d) !! k = match cacheAnchors (get_pool t b) !! k with
       | Some e => merge_anchor (cacheAnchors (get_pool t (data c)) !! k) e
       | None => cacheAnchors (get_pool t (data c)) !! k end) /\
    (forall t k, cacheNullifiers (get_pool t d) !! k = match cacheNullifiers (get_pool t b) !! k with
       | Some e => merge_nullifier (cacheNullifiers (get_pool t (data c)) !! k) e
       | None => cacheNullifiers (get_pool t (data c)) !! k end).
Proof.
  intros Hi (Bc & Ba & Bn). pose proof Hi as (Hm & _ & _ & Hu).
  assert (Hc : forall k e, cacheCoins b !! k = Some e -> _) by
    (intros k e He; exact (proj1 (BatchWrite_coin_ok c k e _ Hi eq_refl (Bc k e He)))).
  assert (Ha : forall t k e, cacheAnchors (get_pool t b) !! k = Some e -> _) by
    (intros t k e He; exact (proj1 (BatchWriteAnchor_ok t c k e _ Hi eq_refl (Ba t k e He)))).
  assert (Hn : forall t k e, cacheNullifiers (get_pool t b) !! k = Some e -> _) by
    (intros t k e He; exact (proj1 (BatchWriteNullifier_ok t c k e _ Hi eq_refl (Bn t k e He)))).
  assert (Hnull : forall t u, exists m,
    merge_map BatchWriteNullifier (cacheNullifiers (get_pool t b)) (cacheNullifiers (get_pool t (data c))) u
      = Some (m, u) /\ forall k, m !! k = match cacheNullifiers (get_pool t b) !! k with
       | Some e => merge_nullifier (cacheNullifiers (get_pool t (data c)) !! k) e
       | None => cacheNullifiers (get_pool t (data c)) !! k end).
  { intros t u. destruct (merge_map_spec BatchWriteNullifier merge_nullifier (fun _ s => s = u)
      (cacheNullifiers (get_pool t b)) (cacheNullifiers (get_pool t (data c))) u)
      as (m & ? & ? & -> & Hl); [done | | by exists m].
    intros k e m' s' He _ ->. exists u. split; [by apply Hn | done]. }
  unfold Cache_BatchWrite. rewrite Hm, Hu. unfold total_usage at 1, anchors_usage at 1 2.
  rewrite <- Z.add_assoc.
  destruct (merge_map_usage BatchWrite_coin merge_coin use_coin
    (map_sum use_tree (cacheAnchors (sprout (data c))) + map_sum use_tree (cacheAnchors (sapling (data c))))
    (cacheCoins b) (cacheCoins (data c)) Hc) as (coins & -> & Hcoins).
  cbn [mbind option_bind]. rewrite Z.add_comm, <- Z.add_assoc.
  destruct (merge_map_usage BatchWriteAnchor merge_anchor use_tree
    (map_sum use_tree (cacheAnchors (sapling (data c))) + map_sum use_coin coins)
    (cacheAnchors (sprout b)) (cacheAnchors (sprout (data c))) (Ha SPROUT)) as (spm & -> & Hsp).
  cbn [mbind option_bind]. rewrite Z.add_comm, <- Z.add_assoc.
  destruct (merge_map_usage BatchWriteAnchor merge_anchor use_tree
    (map_sum use_coin coins + map_sum use_tree spm)
    (cacheAnchors (sapling b)) (cacheAnchors (sapling (data c))) (Ha SAPLING)) as (sam & -> & Hsa).
  cbn [mbind option_bind]. destruct (Hnull SPROUT (u64 (map_sum use_tree sam +
    (map_sum use_coin coins + map_sum use_tree spm)))) as (spn & Hspn & Hspl). simpl get_pool in Hspn.
  rewrite Hspn. cbn [mbind option_bind].
  destruct (Hnull SAPLING (u64 (map_sum use_tree sam +
    (map_sum use_coin coins + map_sum use_tree spm)))) as (san & Hsan & Hsal). simpl get_pool in Hsan.
  rewrite Hsan. cbn [mbind option_bind].
  match goal with |- context [Some (mkCache ?d ?u _ _)] =>
    exists d; replace u with (u64 (total_usage d)) by (unfold total_usage, anchors_usage; simpl; f_equal; lia)
  end.
  split_and!.
  - done.
  - done.
  - by intros [].
  - done.
  - intros []; simpl; auto.
  - intros []; simpl; auto.
Qed.

Lemma Cache_BatchWrite_law c b :
  cache_inv c -> batch_ok tree_of (cache_abs c) (cache_holds c) b -> batch_hashes b ->
  exists c', Cache_BatchWrite c b = Some c' /\ cache_inv c' /\ cache_abs c' ≡ overlay b (cache_abs c).
Proof.
  intros Hi Hb [Hhb Hha].
  destruct (Cache_BatchWrite_data c b Hi Hb) as (d & -> & Hblk & Hanc & Hcoins & Hanch & Hnull).
  pose proof Hi as (Hm & Hv & (Cc & Ca & Cn) & Hu). destruct Hb as (Bc & Ba & Bn).
  eexists. split; [done|]. split.
  - split_and!; [done | done | split_and! | done].
    + intros k e. simpl. rewrite Hcoins. destruct (cacheCoins b !! k) as [eb|] eqn:Hb; [|apply Cc].
      by apply (BatchWrite_coin_ok c k eb _ Hi eq_refl (Bc k eb Hb)).
    + intros t k e. simpl. rewrite Hanch.
      destruct (cacheAnchors (get_pool t b) !! k) as [eb|] eqn:Hb; [|apply Ca].
      by apply (BatchWriteAnchor_ok t c k eb _ Hi eq_refl (Ba t k eb Hb)).
    + intros t k e. simpl. rewrite Hnull.
      destruct (cacheNullifiers (get_pool t b) !! k) as [eb|] eqn:Hb; [|apply Cn].
      by apply (BatchWriteNullifier_ok t c k eb _ Hi eq_refl (Bn t k eb Hb)).
  - unfold cache_abs. split_and!; simpl.
    + intros k. rewrite Hcoins. destruct (cacheCoins b !! k) as [eb|] eqn:Hb; [|done].
      by apply (BatchWrite_coin_ok c k eb _ Hi eq_refl (Bc k eb Hb)).
    + intros t k. rewrite Hanch. destruct (cacheAnchors (get_pool t b) !! k) as [eb|] eqn:Hb; [|done].
      by apply (BatchWriteAnchor_ok t c k eb _ Hi eq_refl (Ba t k eb Hb)).
    + intros t k. rewrite Hnull. destruct (cacheNullifiers (get_pool t b) !! k) as [eb|] eqn:Hb; [|done].
      by apply (BatchWriteNullifier_ok t c k eb _ Hi eq_refl (Bn t k eb Hb)).
    + rewrite Hblk. by destruct (Z.eqb_spec (hashBlock b) 0).
    + intros t. rewrite Hanc. destruct (Z.eqb_spec (hashAnchor (get_pool t b)) 0) as [H0|]; [|done].
      by destruct (Hha t).
Qed.

#[global] Instance Cache_Reads : CoinsViewReads tree_of cache.
Proof.
  refine {| view_inv := cache_inv; holds := cache_holds; abs := cache_abs |}.
  - apply Cache_GetCoins_law.
  - apply Cache_GetAnchorAt_law.
  - intros t c k tr (_ & Hv & (_ & Ba & _) & _). unfold cache_abs. simpl.
    destruct (cacheAnchors (get_pool t (data c)) !! k) as [e|] eqn:He; [|by apply anchor_tree_of].
    destruct (Ba t k e He) as (-> & _). destruct (an_entered e); [|done]. by intros [= <-].
  - apply Cache_GetNullifier_law.
  - apply Cache_GetBestBlock_law.
  - apply Cache_GetBestAnchor_law.
Defined.

#[global] Instance Cache_Laws : CoinsViewLaws tree_of cache.
Proof. refine {| laws_reads := Cache_Reads |}; [apply Cache_HaveCoins_law|apply Cache_BatchWrite_law]. Defined.

(** *** Modifications, against the abstract state *)

Definition st_set_coins (k : Z) (o : option CCoins) (s : utxo_state Tree) : utxo_state Tree :=
  mkState (fun j => if decide (j = k) then o else st_coins s j) (st_anchor s) (st_null s)
    (st_best s) (st_bestAnchor s).

Definition st_set_anchor (t : ShieldedType) (k : Z) (o : option Tree) (best : Z)
    (s : utxo_state Tree) : utxo_state Tree :=
  mkState (st_coins s)
    (fun t' j => if decide (t' = t /\ j = k) then o else st_anchor s t' j) (st_null s) (st_best s)
    (fun t' => if decide (t' = t) then best else st_bestAnchor s t').

Definition st_set_null (t : ShieldedType) (k : Z) (b : bool) (s : utxo_state Tree) : utxo_state Tree :=
  mkState (st_coins s) (st_anchor s)
    (fun t' j => if decide (t' = t /\ j = k) then b else st_null s t' j) (st_best s) (st_bestAnchor s).

Definition st_set_best (h : Z) (s : utxo_state Tree) : utxo_state Tree :=
  mkState (st_coins s) (st_anchor s) (st_null s) h (st_bestAnchor s).

#[local] Instance st_set_coins_proper k o : Proper ((≡) ==> (≡)) (st_set_coins k o).
Proof. intros a b (? & ? & ? & ? & ?). split_and!; simpl; intros; try case_decide; auto. Qed.

#[local] Instance st_set_anchor_proper t k o h : Proper ((≡) ==> (≡)) (st_set_anchor t k o h).
Proof. intros a b (? & ? & ? & ? & ?). split_and!; simpl; intros; try case_decide; auto. Qed.

#[local] Instance st_set_null_proper t k b : Proper ((≡) ==> (≡)) (st_set_null t k b).
Proof. intros a a' (? & ? & ? & ? & ?). split_and!; simpl; intros; try case_decide; auto. Qed.

(** What a modification may leave: null outputs in their canonical form. *)
Definition nulls_canonical (co : CCoins) : Prop :=
  forall o, o ∈ coins_vout co -> CTxOut_IsNull o = true -> o = CTxOut_SetNull.

Lemma Cleanup_wf co : nulls_canonical co -> CCoins_wf (Cleanup co).
Proof. intros Hco. by apply cleanup_vout_clean. Qed.

(** The entry a modifier refers to. *)
Lemma ModifyCoins_entry c k : cache_inv c ->
  exists co fresh b usage,
    ModifyCoins c k = Some (usage,
      mkCache (set_coins (<[k := mkCoinsEntry co true fresh]> (cacheCoins (data c))) (data c))
        (cachedCoinsUsage c) true b) /\
    CCoins_wf co /\ live co = st_coins (cache_abs c) k /\
    same_view view_inv holds abs (base c) b /\
    (if fresh : bool then st_coins (abs b) k = None else holds b k) /\
    usage = opt_sum use_coin (cacheCoins (data c) !! k).
Proof.
  intros (Hm & Hv & (Bc & _) & _). unfold ModifyCoins, cache_abs. rewrite Hm. simpl.
  destruct (cacheCoins (data c) !! k) as [e|] eqn:Hk.
  { destruct (Bc k e Hk) as (Hw & Hf & _).
    exists (e_coins e), (e_FRESH e), (base c), (coins_usage (e_coins e)).
    by split_and!. }
  destruct (GetCoins_law (base c) k Hv) as (Hs & Hwf & Hl).
  destruct (GetCoins (base c) k) as [[co|] b]; simpl in *.
  - destruct (Hwf co eq_refl) as [Hw Hh]. exists co, (IsPruned co), b, 0.
    split_and!; try done. destruct Hs as (_ & (Hc & _) & _). rewrite Hc, <- Hl. unfold live.
    by destruct (IsPruned co).
  - exists CCoins_Clear, true, b, 0. destruct Hs as (Hs1 & Hs2 & Hs3). split_and!; try done.
    + split; [by intros o ?%elem_of_nil | done].
    + destruct Hs2 as [Hc _]. by rewrite Hc.
Qed.

Lemma modify_coins_law c k f : cache_inv c ->
  (forall co, CCoins_wf co -> nulls_canonical (f co)) ->
  exists co c', CCoins_wf co /\ live co = st_coins (cache_abs c) k /\
    modify_coins c k f = Some c' /\ cache_inv c' /\
    cache_abs c' ≡ st_set_coins k (live (Cleanup (f co))) (cache_abs c).
Proof.
  intros Hi Hf. destruct (ModifyCoins_entry c k Hi) as (co & fresh & b & usage & HM & Hw & Hl & Hs & Hfr & ->).
  pose proof Hi as (Hm & Hv & Hb & Hu). pose proof Hs as (Hvb & (Hsc & Hsa & Hsn & Hsb & Hsba) & _).
  apply (batch_ok_same_view _ _ _ Hs) in Hb as (Bc & Ba & Bn).
  unfold modify_coins. rewrite HM. unfold modifier_update, modifier_destroy. simpl.
  rewrite lookup_alter_eq, lookup_insert_eq, alter_insert_eq. cbn [fmap option_fmap option_map e_coins e_FRESH e_DIRTY].
  specialize (Hf co Hw). pose proof (Cleanup_wf _ Hf) as Hw'. set (co' := Cleanup (f co)) in *.
  assert (Habs : forall d, (forall j, j <> k -> cacheCoins d !! j = cacheCoins (data c) !! j) ->
    sprout d = sprout (data c) -> sapling d = sapling (data c) -> hashBlock d = hashBlock (data c) ->
    match cacheCoins d !! k with Some e => live (e_coins e) | None => st_coins (abs b) k end = live co' ->
    overlay d (abs b) ≡ st_set_coins k (live co') (cache_abs c)).
  { intros d Hd H1 H2 H3 Hkd. unfold cache_abs. split_and!; simpl.
    - intros j. case_decide; [by subst|]. rewrite Hd by done. by rewrite Hsc.
    - intros [] j; simpl; rewrite ?H1, ?H2, Hsa; done.
    - intros [] j; simpl; rewrite ?H1, ?H2, Hsn; done.
    - by rewrite H3, Hsb.
    - intros []; simpl; rewrite ?H1, ?H2, Hsba; done. }
  exists co. eexists. split_and!; [done | done | reflexivity | |].
  - destruct (fresh && IsPruned co') eqn:Hfp.
    + split_and!; [done | done | split_and! |]; simpl.
      * intros j e. rewrite delete_insert_eq, lookup_delete_Some. intros [_ Hj]. by apply Bc.
      * intros [] j e; simpl; [apply (Ba SPROUT) | apply (Ba SAPLING)].
      * intros [] j e; simpl; [apply (Bn SPROUT) | apply (Bn SAPLING)].
      * rewrite Hu, u64_sub_l. unfold total_usage. simpl. rewrite delete_insert_eq.
        rewrite (map_sum_delete use_coin (cacheCoins (data c)) k). f_equal. lia.
    + split_and!; [done | done | split_and! |]; simpl.
      * intros j e. rewrite insert_insert_eq, lookup_insert_Some. intros [[<- <-]|[_ Hj]]; [|by apply Bc].
        split_and!; simpl; [done | by destruct fresh | done].
      * intros [] j e; simpl; [apply (Ba SPROUT) | apply (Ba SAPLING)].
      * intros [] j e; simpl; [apply (Bn SPROUT) | apply (Bn SAPLING)].
      * rewrite Hu, u64_sub_l, u64_add_l. unfold total_usage. simpl. rewrite insert_insert_eq, map_sum_insert.
        f_equal. cbn [e_coins]. lia.
  - unfold cache_abs at 1. destruct (fresh && IsPruned co') eqn:Hfp; simpl.
    + apply andb_prop in Hfp as [-> Hp]. apply Habs; simpl; try done.
      * intros j Hj. by rewrite delete_insert_eq, lookup_delete_ne.
      * rewrite lookup_delete_eq, Hfr. unfold live. by rewrite Hp.
    + apply Habs; simpl; try done.
      * intros j Hj. by rewrite !lookup_insert_ne.
      * by rewrite lookup_insert_eq.
Qed.

Lemma SetBestBlock_law h c : h <> 0 -> cache_inv c ->
  cache_inv (SetBestBlock h c) /\ cache_abs (SetBestBlock h c) ≡ st_set_best h (cache_abs c).
Proof.
  intros Hh (Hm & Hv & (Bc & Ba & Bn) & Hu). split.
  - split_and!; try done; simpl; intros *; autorewrite with members; eauto.
  - unfold cache_abs. split_and!; simpl; intros; autorewrite with members; try done.
    by destruct (Z.eqb_spec h 0).
Qed.

Lemma SetNullifier_law t spent c k : cache_inv c ->
  cache_inv (SetNullifier t spent c k) /\
  cache_abs (SetNullifier t spent c k) ≡ st_set_null t k spent (cache_abs c).
Proof.
  intros (Hm & Hv & (Bc & Ba & Bn) & Hu). unfold SetNullifier, set_nullifiers. split.
  - split_and!; [done | done | |].
    + split_and!; simpl; intros *; autorewrite with members; eauto.
      * case_decide as Ht; [subst|eauto]. simpl. eauto.
      * case_decide as Ht; [subst|eauto]. simpl. rewrite lookup_insert_Some.
        intros [[<- <-]|[_ ?]]; [done | eauto].
    + simpl. rewrite Hu. unfold total_usage, anchors_usage. by destruct t.
  - unfold cache_abs. split_and!; simpl; intros; autorewrite with members; try done;
      try (case_decide as Ht; [subst|done]; done).
    case_decide as Ht; [subst|by rewrite decide_False by (by intros [??])]. simpl.
    destruct (decide (k = k0)) as [<-|Hne].
    + by rewrite lookup_insert_eq, decide_True.
    + rewrite lookup_insert_ne by done. by rewrite decide_False by (by intros [??]).
Qed.

(** Entering or removing an anchor and moving the best anchor. *)
Lemma set_anchor_law t k (entered : bool) tree h usage c :
  cache_inv c -> tree = tree_of t k -> h <> 0 ->
  (entered = false -> k <> tree_root t tree_empty) ->
  usage = u64 (total_usage (data c) - opt_sum use_tree (cacheAnchors (get_pool t (data c)) !! k)
               + tree_usage tree) ->
  let c' := set_data (set_hashAnchor t h
    (set_anchors t (<[k := mkAnchorEntry entered tree true]> (cacheAnchors (get_pool t (data c))))
      (data c))) usage c in
  cache_inv c' /\
  cache_abs c' ≡ st_set_anchor t k (if entered then Some tree else None) h (cache_abs c).
Proof.
  intros (Hm & Hv & (Bc & Ba & Bn) & Hu) -> Hh Hen -> c'. subst c'. unfold set_hashAnchor, set_anchors. split.
  - split_and!; [done | done | |].
    + split_and!; simpl; intros *; autorewrite with members; eauto.
      * case_decide as Ht; [subst; rewrite decide_True by done|eauto]. simpl. rewrite lookup_insert_Some.
        intros [[<- <-]|[_ ?]]; [|eauto]. split_and!; simpl; [done | | done].
        destruct entered; [done | by apply Hen].
      * case_decide as Ht; [subst; rewrite decide_True by done|eauto]. simpl. eauto.
    + simpl. unfold total_usage, anchors_usage.
      destruct t; simpl; rewrite map_sum_insert; cbn [an_tree]; f_equal; lia.
  - unfold cache_abs. split_and!; simpl; intros; autorewrite with members; try done;
      (case_decide as Ht; [subst; rewrite !(decide_True (P:=t = t)) by done|]); simpl; try done.
    + destruct (decide (k = k0)) as [<-|Hne].
      * by rewrite lookup_insert_eq, decide_True.
      * rewrite lookup_insert_ne by done. by rewrite decide_False by (by intros [??]).
    + by rewrite decide_False by (by intros [??]).
    + by destruct (Z.eqb_spec h 0).
Qed.

Lemma PushAnchor_law t tree c : cache_inv c ->
  tree = tree_of t (tree_root t tree) -> tree_root t tree <> 0 ->
  cache_inv (PushAnchor t tree c) /\
  cache_abs (PushAnchor t tree c) ≡
    if st_bestAnchor (cache_abs c) t =? tree_root t tree then cache_abs c
    else st_set_anchor t (tree_root t tree) (Some tree) (tree_root t tree) (cache_abs c).
Proof.
  intros Hi Ht Hr. unfold PushAnchor. destruct (Cache_GetBestAnchor_law t c Hi) as (Hs & Hb).
  destruct (Cache_GetBestAnchor t c) as [cur c1]; cbn [fst snd] in *. subst cur.
  destruct Hs as (Hi1 & Habs & _).
  destruct (Z.eqb_spec (st_bestAnchor (cache_abs c) t) (tree_root t tree)) as [|Hne]; cbn [negb]; [by split|].
  edestruct (set_anchor_law t (tree_root t tree) true tree (tree_root t tree)) as [Hi2 Habs2];
    [exact Hi1 | exact Ht | exact Hr | done | | split; [exact Hi2|]].
  - destruct Hi1 as (_ & _ & (_ & Ba & _) & ->).
    destruct (cacheAnchors (get_pool t (data c1)) !! tree_root t tree) as [e|] eqn:He; simpl.
    + destruct (Ba t _ e He) as (-> & _). rewrite <- Ht. f_equal. lia.
    + rewrite u64_add_l. f_equal. lia.
  - by rewrite Habs2, Habs.
Qed.

Lemma PopAnchor_law t newrt c : cache_inv c -> newrt <> 0 ->
  let cur := st_bestAnchor (cache_abs c) t in
  (cur <> newrt -> is_Some (st_anchor (cache_abs c) t cur) /\ cur <> tree_root t tree_empty) ->
  exists c', PopAnchor t newrt c = Some c' /\ cache_inv c' /\
    cache_abs c' ≡ if cur =? newrt then cache_abs c
                   else st_set_anchor t cur None newrt (cache_abs c).
Proof.
  intros Hi Hr cur Hcur. unfold PopAnchor. destruct (Cache_GetBestAnchor_law t c Hi) as (Hs & Hb).
  destruct (Cache_GetBestAnchor t c) as [cur' c1]; cbn [fst snd] in *. subst cur'. fold cur.
  destruct Hs as (Hi1 & Habs & _).
  destruct (Z.eqb_spec cur newrt) as [|Hne]; cbn [negb]; [by exists c1|].
  destruct (Hcur Hne) as [[tr Htr] Hemp].
  destruct (Cache_GetAnchorAt_law t c1 cur Hi1) as ((Hi2 & Habs2 & _) & Hr2).
  assert (Hst1 : st_anchor (cache_abs c1) t cur = Some tr).
  { destruct Habs as (_ & H2 & _). by rewrite H2. }
  rewrite Hst1 in Hr2. unfold Cache_GetAnchorAt in *.
  set (r := match cacheAnchors (get_pool t (data c1)) !! cur with Some _ => _ | None => _ end) in *.
  assert (Hent : exists e, cacheAnchors (get_pool t (data r.2)) !! cur = Some e).
  { subst r. destruct (cacheAnchors (get_pool t (data c1)) !! cur) as [e|] eqn:He; [by exists e|].
    destruct (GetAnchorAt t (base c1) cur) as [[tree|] b]; [|done]. simpl.
    unfold set_anchors. rewrite get_set_pool, decide_True by done. simpl. rewrite lookup_insert_eq. eauto. }
  destruct r as [[r1|] c2]; [|done]. simpl in *. destruct Hent as [e He].
  destruct (proj1 (proj2 (proj1 (proj2 (proj2 Hi2)))) t cur e He) as (Htree & _).
  edestruct (set_anchor_law t cur false (an_tree e) newrt) as [Hi3 Habs3];
    [exact Hi2 | exact Htree | exact Hr | by intros _ | | eexists; split; [by rewrite He | split; [exact Hi3|]]].
  - destruct Hi2 as (_ & _ & _ & ->). rewrite He. simpl. f_equal. lia.
  - by rewrite Habs3, Habs2, Habs.
Qed.
Lemma new_cache_inv (b : V) : view_inv b ->
  cache_inv (new_cache b) /\ cache_abs (new_cache b) ≡ abs b.
Proof.
  intros Hb. unfold new_cache. split.
  - split_and!; [done | done | | done]. split_and!; simpl; intros *;
      try (destruct t; simpl); by rewrite lookup_empty.
  - unfold cache_abs. simpl.
    split_and!; simpl; intros *; try (destruct t; simpl); by rewrite ?lookup_empty.
Qed.

End Invariant.

Section Flushing.
Context {Tree V : Type} `{!MerkleTree Tree} `{!CoinsView Tree V} `{!CoinsMemory}.
Context (tree_of : ShieldedType -> Z -> Tree) `{!CoinsViewLaws tree_of V}.
Abbreviation cache_inv := (cache_inv tree_of).
Abbreviation cache_abs := (cache_abs tree_of).

Lemma Flush_law (c : CCoinsViewCache Tree V) : cache_inv c -> batch_hashes (data c) ->
  exists c', Flush c = Some c' /\ cache_inv c' /\ view_inv (base c') /\
    abs (base c') ≡ cache_abs c /\ cache_abs c' ≡ cache_abs c /\ cacheCoins (data c') = ∅.
Proof.
  intros (Hm & Hv & Hb & Hu) Hh. unfold Flush.
  destruct (BatchWrite_law (base c) (data c) Hv Hb Hh) as (b & -> & Hvb & Habs).
  cbn [mbind option_bind]. eexists. split; [done|]. simpl.
  assert (Hp : forall t, get_pool t (clear_maps (data c)) = empty_pool (hashAnchor (get_pool t (data c))))
    by (by intros []).
  split_and!; try done.
  - split_and!; [done | done | | done]. split_and!; simpl; intros *; rewrite ?Hp; simpl; by rewrite lookup_empty.
  - unfold CoinsCache.cache_abs at 1. simpl. rewrite Habs. unfold CoinsCache.cache_abs.
    split_and!; simpl; intros *; rewrite ?Hp; simpl; rewrite ?lookup_empty; try done.
    + by destruct (hashBlock (data c) =? 0).
    + by destruct (hashAnchor (get_pool t (data c)) =? 0).
Qed.
End Flushing.

(** ** A small instance, for the witnesses *)

(** Trees that are their own root. *)
#[local] Instance toy_tree : MerkleTree Z :=
  {| tree_root _ z := z; tree_empty := 1; tree_append _ z x := Some (z + x); tree_usage _ := 8 |}.

#[local] Instance toy_memory : CoinsMemory :=
  {| coins_usage c := 40 * Z.of_nat (length (coins_vout c)) |}.

Definition toy_tree_of (_ : ShieldedType) (k : Z) : Z := k.

Definition toy_db : CCoinsViewDB Z :=
  mkDB {[ 77 := mkCCoins false [mkCTxOut COIN [0x51]] 3 1 ]} (Some 9)
    (mkDbPool ∅ ∅ None) (mkDbPool ∅ ∅ None).

Lemma toy_db_inv : view_inv (tree_of := toy_tree_of) toy_db.
Proof.
  split.
  - intros k c. simpl. intros [_ <-]%lookup_singleton_Some. split; [|done].
    split; [intros o ->%list_elem_of_singleton; done | by intros o [= <-]].
  - intros t k tr. unfold DB_GetAnchorAt. destruct (Z.eqb_spec k (tree_root t tree_empty)).
    + intros [= <-]. by subst.
    + destruct t; simpl; by rewrite lookup_empty.
Qed.

Section Reachable.
Context {Tree V : Type} `{!MerkleTree Tree} `{!CoinsView Tree V} `{!CoinsMemory}.
Context (tree_of : ShieldedType -> Z -> Tree) `{!CoinsViewLaws tree_of V}.
Abbreviation cache := (CCoinsViewCache Tree V).

(** The operations clients perform on a cache, with the conditions they have
    to meet: an anchor popped is one that was pushed, roots and block hashes
    are not null, and a modification leaves spent outputs null. *)
Inductive cache_step : cache -> cache -> Prop :=
| step_GetCoins c k : cache_step c (Cache_GetCoins c k).2
| step_HaveCoins c k : cache_step c (Cache_HaveCoins c k).2
| step_GetAnchorAt t c k : cache_step c (Cache_GetAnchorAt t c k).2
| step_GetNullifier t c k : cache_step c (Cache_GetNullifier t c k).2
| step_GetBestBlock c : cache_step c (Cache_GetBestBlock c).2
| step_GetBestAnchor t c : cache_step c (Cache_GetBestAnchor t c).2
| step_SetBestBlock h c : h <> 0 -> cache_step c (SetBestBlock h c)
| step_SetNullifier t spent c k : cache_step c (SetNullifier t spent c k)
| step_PushAnchor t tree c :
    tree = tree_of t (tree_root t tree) -> tree_root t tree <> 0 -> cache_step c (PushAnchor t tree c)
| step_PopAnchor t newrt c c' :
    newrt <> 0 ->
    is_Some (st_anchor (cache_abs tree_of c) t (st_bestAnchor (cache_abs tree_of c) t)) ->
    st_bestAnchor (cache_abs tree_of c) t <> tree_root t tree_empty ->
    PopAnchor t newrt c = Some c' -> cache_step c c'
| step_modify c k f c' :
    (forall co, CCoins_wf co -> nulls_canonical (f co)) ->
    modify_coins c k f = Some c' -> cache_step c c'
| step_BatchWrite c b c' :
    batch_ok tree_of (cache_abs tree_of c) (cache_holds c) b -> batch_hashes b ->
    Cache_BatchWrite c b = Some c' -> cache_step c c'
| step_Flush c c' : batch_hashes (data c) -> Flush c = Some c' -> cache_step c c'.

Lemma cache_step_inv c c' : cache_step c c' -> cache_inv tree_of c -> cache_inv tree_of c'.
Proof.
  intros Hstep Hi. destruct Hstep as
    [c k|c k|t c k|t c k|c|t c|h c Hh|t spent c k|t tree c Ht Hr|t rt c c' Hr Ha He Hp|c k f c' Hf Hp
    |c b c' Hb Hh Hp|c c' Hh Hp].
  - by apply (Cache_GetCoins_law tree_of).
  - by apply (Cache_HaveCoins_law tree_of).
  - by apply (Cache_GetAnchorAt_law tree_of).
  - by apply (Cache_GetNullifier_law tree_of).
  - by apply (Cache_GetBestBlock_law tree_of).
  - by apply (Cache_GetBestAnchor_law tree_of).
  - by apply (SetBestBlock_law tree_of).
  - by apply (SetNullifier_law tree_of).
  - by apply (PushAnchor_law tree_of).
  - destruct (PopAnchor_law tree_of t rt c Hi Hr) as (c'' & Hc & ? & _); [done|]. congruence.
  - destruct (modify_coins_law tree_of c k f Hi Hf) as (co & c'' & _ & _ & Hc & ? & _). congruence.
  - destruct (Cache_BatchWrite_law tree_of c b Hi Hb Hh) as (c'' & Hc & ? & _). congruence.
  - destruct (Flush_law tree_of c Hi Hh) as (c'' & Hc & ? & _). congruence.
Qed.
End Reachable.

(** ** Properties *)

(** Every lookup of a cache returns what its abstract state (its entries
    laid over the view below) holds, leaves that state as it was although it
    fills the cache, and keeps the invariant.  Proved against the contract of
    the view below, so it holds for a stack of caches of any height. *)
Theorem cache_lookups_transparent {Tree V : Type} `{!MerkleTree Tree} `{!CoinsView Tree V}
    `{!CoinsMemory} (tree_of : ShieldedType -> Z -> Tree) `{!CoinsViewReads tree_of V}
    (c : CCoinsViewCache Tree V) (t : ShieldedType) (k : Z) :
  cache_inv tree_of c ->
  let s := cache_abs tree_of c in
  let same := same_view (cache_inv tree_of) cache_holds (cache_abs tree_of) c in
  same (GetCoins c k).2 /\ (GetCoins c k).1 ≫= live = st_coins s k /\
  same (HaveCoins c k).2 /\ (HaveCoins c k).1 = bool_decide (is_Some (st_coins s k)) /\
  same (GetAnchorAt t c k).2 /\ (GetAnchorAt t c k).1 = st_anchor s t k /\
  same (GetNullifier t c k).2 /\ (GetNullifier t c k).1 = st_null s t k /\
  same (GetBestBlock c).2 /\ (GetBestBlock c).1 = st_best s /\
  same (GetBestAnchor t c).2 /\ (GetBestAnchor t c).1 = st_bestAnchor s t.
Proof.
  intros Hi s same.
  destruct (Cache_GetCoins_law tree_of c k Hi) as (? & _ & ?), (Cache_HaveCoins_law tree_of c k Hi),
    (Cache_GetAnchorAt_law tree_of t c k Hi), (Cache_GetNullifier_law tree_of t c k Hi),
    (Cache_GetBestBlock_law tree_of c Hi), (Cache_GetBestAnchor_law tree_of t c Hi).
  repeat (split; [assumption|]). assumption.
Qed.

Lemma cache_lookups_transparent_witness :
  (GetCoins (new_cache (new_cache toy_db)) 77).1 ≫= live =
    Some (mkCCoins false [mkCTxOut COIN [0x51]] 3 1).
Proof.
  assert (Hi : cache_inv toy_tree_of (new_cache (new_cache toy_db))).
  { apply new_cache_inv, new_cache_inv, toy_db_inv. }
  rewrite (proj1 (proj2 (cache_lookups_transparent toy_tree_of _ SPROUT 77 Hi))). reflexivity.
Defined.

(** C6: flushing a cache whose best block and anchors are known succeeds (the
    assertion that a new entry is FRESH never fails), makes the view below show
    exactly what the cache showed, and leaves an empty cache that shows the
    same. *)
Theorem cache_flush_correct {Tree V : Type} `{!MerkleTree Tree} `{!CoinsView Tree V}
    `{!CoinsMemory} (tree_of : ShieldedType -> Z -> Tree) `{!CoinsViewLaws tree_of V}
    (c : CCoinsViewCache Tree V) :
  cache_inv tree_of c -> batch_hashes (data c) ->
  exists c', Flush c = Some c' /\ cache_inv tree_of c' /\
    abs (base c') ≡ cache_abs tree_of c /\ cache_abs tree_of c' ≡ cache_abs tree_of c /\
    cacheCoins (data c') = ∅.
Proof.
  intros Hi Hh. destruct (Flush_law tree_of c Hi Hh) as (c' & ? & ? & _ & ? & ? & ?).
  exists c'. by repeat (split; [assumption|]).
Qed.

(** The outer of two caches over the database after a block. *)
Definition toy_stack : option (CCoinsViewCache Z (CCoinsViewCache Z (CCoinsViewDB Z))) :=
  modify_coins (SetBestBlock 10 (PushAnchor SAPLING 5 (PushAnchor SPROUT 4 (new_cache (new_cache toy_db)))))
    77 (fun co => default co (Spend co 0)).

Lemma Spend_nulls_canonical co n : CCoins_wf co -> nulls_canonical (default co (Spend co n)).
Proof.
  intros Hw. destruct (Spend co n) as [co'|] eqn:Hs; simpl; [|exact (proj1 Hw)].
  by destruct (Spend_spec co n co' Hw Hs) as (_ & [H _] & _).
Qed.

Lemma toy_stack_inv : exists c, toy_stack = Some c /\ cache_inv toy_tree_of c.
Proof.
  destruct (modify_coins_law toy_tree_of
    (SetBestBlock 10 (PushAnchor SAPLING 5 (PushAnchor SPROUT 4 (new_cache (new_cache toy_db)))))
    77 (fun co => default co (Spend co 0))) as (co & c & _ & _ & Hc & Hi & _).
  - apply SetBestBlock_law; [done|]. apply PushAnchor_law; [|done|done].
    apply PushAnchor_law; [|done|done]. apply new_cache_inv, new_cache_inv, toy_db_inv.
  - intros co Hw. by apply Spend_nulls_canonical.
  - by exists c.
Qed.

Lemma cache_flush_correct_witness :
  exists c c', toy_stack = Some c /\ Flush c = Some c' /\
    (GetCoins (base c') 77).1 ≫= live = None /\ (GetBestBlock (base c')).1 = 10.
Proof.
  destruct toy_stack_inv as (c & Hc & Hi).
  destruct (cache_flush_correct (CoinsViewLaws0 := Cache_Laws toy_tree_of) toy_tree_of c Hi) as (c' & Hf & Hi' & Habs & _).
  { vm_compute in Hc. injection Hc as <-. split; [|intros []]; vm_compute; congruence. }
  exists c, c'. split; [exact Hc|]. split; [exact Hf|].
  destruct Habs as (Hco & _ & _ & Hb & _).
  destruct (GetCoins_law (base c') 77 (proj1 (proj2 Hi'))) as (_ & _ & Hg).
  destruct (GetBestBlock_law (base c') (proj1 (proj2 Hi'))) as (_ & Hbb).
  rewrite Hg, Hbb, Hco, Hb. vm_compute in Hc. injection Hc as <-. split; reflexivity.
Defined.

(** C37: after any sequence of operations on a new cache (lookups, block and
    anchor updates, nullifiers, modifications of coins, batches from a cache
    above, flushes), the memory counter is the sum of the usage of the cached
    coins and trees modulo 2^64, no modifier is left active, an entry marked
    FRESH has no coins in the view below, and a clean entry has the coins of
    the view below. *)
Theorem cache_reachable_invariant {Tree V : Type} `{!MerkleTree Tree} `{!CoinsView Tree V}
    `{!CoinsMemory} (tree_of : ShieldedType -> Z -> Tree) `{!CoinsViewLaws tree_of V}
    (b : V) (c : CCoinsViewCache Tree V) :
  view_inv b -> rtc (cache_step tree_of) (new_cache b) c ->
  cachedCoinsUsage c = u64 (total_usage (data c)) /\ hasModifier c = false /\
  forall k e, cacheCoins (data c) !! k = Some e ->
    CCoins_wf (e_coins e) /\
    (e_FRESH e = true -> st_coins (abs (base c)) k = None) /\
    (e_DIRTY e = false -> live (e_coins e) = st_coins (abs (base c)) k).
Proof.
  intros Hb Hr. assert (Hi : cache_inv tree_of c).
  { assert (H0 : cache_inv tree_of (new_cache b)) by (by apply new_cache_inv).
    induction Hr as [|x y z Hxy _ IH]; [done|]. by apply IH, (cache_step_inv tree_of x y). }
  destruct Hi as (Hm & _ & (Bc & _) & Hu). split_and!; [done..|].
  intros k e He. destruct (Bc k e He) as (Hw & Hf & Hd). split_and!; [done| |done].
  intros HF. by rewrite HF in Hf.
Qed.

Lemma cache_reachable_invariant_witness :
  exists c, rtc (cache_step toy_tree_of) (new_cache toy_db) c /\
    cachedCoinsUsage c = 48 /\ cachedCoinsUsage c = u64 (total_usage (data c)).
Proof.
  set (c1 := (Cache_GetCoins (new_cache toy_db) 77).2).
  set (c2 := PushAnchor SPROUT 4 c1).
  assert (Hr : rtc (cache_step toy_tree_of) (new_cache toy_db) c2).
  { eapply rtc_l; [apply step_GetCoins|]. apply rtc_once. by apply step_PushAnchor. }
  exists c2. split; [exact Hr|]. split; [vm_compute; reflexivity|].
  exact (proj1 (cache_reachable_invariant (CoinsViewLaws0 := DB_Laws toy_tree_of) toy_tree_of toy_db c2 toy_db_inv Hr)).
Defined.

(** A modifier changes the coins of its transaction and nothing else: the
    modification is applied to the coins the cache showed (an empty object
    where it showed none), the result is cleaned up, and whether the entry is
    erased because it is FRESH and fully spent cannot be observed. *)
Theorem cache_modify_correct {Tree V : Type} `{!MerkleTree Tree} `{!CoinsView Tree V}
    `{!CoinsMemory} (tree_of : ShieldedType -> Z -> Tree) `{!CoinsViewReads tree_of V}
    (c : CCoinsViewCache Tree V) (txid : Z) (f : CCoins -> CCoins) :
  cache_inv tree_of c -> (forall co, CCoins_wf co -> nulls_canonical (f co)) ->
  exists co c', live co = st_coins (cache_abs tree_of c) txid /\
    modify_coins c txid f = Some c' /\ cache_inv tree_of c' /\
    cache_abs tree_of c' ≡ st_set_coins txid (live (Cleanup (f co))) (cache_abs tree_of c).
Proof.
  intros Hi Hf. destruct (modify_coins_law tree_of c txid f Hi Hf) as (co & c' & _ & ? & ? & ? & ?).
  exists co, c'. by repeat (split; [assumption|]).
Qed.

Lemma cache_modify_correct_witness :
  exists c', modify_coins (new_cache toy_db) 77 (fun co => default co (Spend co 0)) = Some c' /\
    st_coins (cache_abs toy_tree_of c') 77 = None.
Proof.
  destruct (cache_modify_correct toy_tree_of (new_cache toy_db) 77 (fun co => default co (Spend co 0)))
    as (co & c' & Hl & Hm & _ & Habs).
  - apply new_cache_inv, toy_db_inv.
  - intros co Hw. by apply Spend_nulls_canonical.
  - exists c'. split; [exact Hm|]. destruct Habs as [Habs _]. rewrite Habs. simpl.
    assert (Hs : st_coins (cache_abs toy_tree_of (new_cache toy_db)) 77
      = Some (mkCCoins false [mkCTxOut COIN [0x51]] 3 1)) by reflexivity.
    rewrite Hs in Hl. unfold live in Hl. destruct (IsPruned co); [discriminate|].
    injection Hl as ->. reflexivity.
Defined.

(** Connecting a block and disconnecting it again restores the anchors:
    pushing a tree with a new root makes that root the best anchor with that
    tree, and popping back to the previous root removes it; the assertion that
    the popped tree can be found never fails. *)
Theorem push_pop_anchor {Tree V : Type} `{!MerkleTree Tree} `{!CoinsView Tree V}
    `{!CoinsMemory} (tree_of : ShieldedType -> Z -> Tree) `{!CoinsViewReads tree_of V}
    (c : CCoinsViewCache Tree V) (t : ShieldedType) (tree : Tree) :
  cache_inv tree_of c -> tree = tree_of t (tree_root t tree) ->
  tree_root t tree <> 0 -> tree_root t tree <> tree_root t tree_empty ->
  st_bestAnchor (cache_abs tree_of c) t <> 0 ->
  st_anchor (cache_abs tree_of c) t (tree_root t tree) = None ->
  st_bestAnchor (cache_abs tree_of c) t <> tree_root t tree ->
  let c1 := PushAnchor t tree c in
  (GetBestAnchor t c1).1 = tree_root t tree /\ (GetAnchorAt t c1 (tree_root t tree)).1 = Some tree /\
  exists c2, PopAnchor t (st_bestAnchor (cache_abs tree_of c) t) c1 = Some c2 /\
    cache_inv tree_of c2 /\ cache_abs tree_of c2 ≡ cache_abs tree_of c.
Proof.
  intros Hi Ht Hr0 Hre Hb0 Hnew Hne c1. set (rt := tree_root t tree) in *.
  set (old := st_bestAnchor (cache_abs tree_of c) t) in *.
  destruct (PushAnchor_law tree_of t tree c Hi Ht Hr0) as [Hi1 Habs1]. fold rt old c1 in Hi1, Habs1.
  destruct (Z.eqb_spec old rt) as [|_]; [done|].
  pose proof Habs1 as (Hc & Ha & Hn & Hb & Hba).
  assert (Hbest : st_bestAnchor (cache_abs tree_of c1) t = rt)
    by (rewrite Hba; simpl; by rewrite decide_True).
  assert (Hanch : st_anchor (cache_abs tree_of c1) t rt = Some tree)
    by (rewrite Ha; simpl; by rewrite decide_True).
  destruct (Cache_GetBestAnchor_law tree_of t c1 Hi1) as [_ HB].
  destruct (Cache_GetAnchorAt_law tree_of t c1 rt Hi1) as [_ HA].
  split; [exact (eq_trans HB Hbest)|]. split; [exact (eq_trans HA Hanch)|].
  destruct (PopAnchor_law tree_of t old c1 Hi1 Hb0) as (c2 & Hp & Hi2 & Habs2).
  { rewrite Hbest, Hanch. done. }
  exists c2. split; [done|]. split; [done|]. rewrite Habs2, Hbest.
  destruct (Z.eqb_spec rt old) as [|_]; [done|]. split_and!; cbn [st_set_anchor st_coins st_anchor st_null st_best st_bestAnchor].
  - apply Hc.
  - intros t' k. case_decide as Htk; [destruct Htk as [E1 E2]; by rewrite E1, E2, Hnew|].
    rewrite Ha. cbn [st_set_anchor st_anchor]. by rewrite decide_False.
  - apply Hn.
  - apply Hb.
  - intros t'. case_decide as Htk; [by rewrite Htk|]. rewrite Hba.
    cbn [st_set_anchor st_bestAnchor]. by rewrite decide_False.
Qed.

Lemma push_pop_anchor_witness :
  exists c2, PopAnchor SPROUT 1 (PushAnchor SPROUT 4 (new_cache toy_db)) = Some c2 /\
    cache_abs toy_tree_of c2 ≡ cache_abs toy_tree_of (new_cache toy_db).
Proof.
  destruct (push_pop_anchor toy_tree_of (new_cache toy_db) SPROUT 4) as (_ & _ & c2 & H1 & _ & H2);
    [apply new_cache_inv, toy_db_inv | vm_compute; congruence.. |].
  exists c2. split; [exact H1 | exact H2].
Defined.
