(* ===== verification/UpdateCoins.v ===== *)
(** * Connecting and disconnecting transactions (src/src/main.cpp, src/src/undo.h,
      src/src/importcoin.cpp)

    The effect of a block's transactions on the coins view, the undo data that
    is recorded, and its application when the block is disconnected.  The
    address, spent and timestamp indexes and the disk are left out. *)
From S2P Require Import Prelude Serialize Transaction Compressor Coins CoinsView CoinsCache.

(** ** Undo data *)

Record CTxInUndo := mkTxInUndo {
  u_txout : CTxOut; u_fCoinBase : bool; u_nHeight : Z; u_nVersion : Z
}.

Abbreviation CTxUndo := (list CTxInUndo).

Section UndoFormat.
Context {point : Type} (parse : bytes -> option point) (serialize : point -> bytes).

Definition TxInUndo_Serialize (u : CTxInUndo) : bytes :=
  WriteVarInt (u32 (u_nHeight u * 2 + b2z (u_fCoinBase u))) ++
  (if u_nHeight u >? 0 then WriteVarInt (u_nVersion u) else []) ++
  Serialize_txout parse (u_txout u).

(** Read into a default-constructed object. *)
Definition TxInUndo_Unserialize : reader CTxInUndo :=
  nCode ← ReadVarInt u32;
  let nHeight := nCode / 2 in
  let fCoinBase := negb (Z.land nCode 1 =? 0) in
  nVersion ← (if nHeight >? 0 then ReadVarInt i32 else mret 0);
  txout ← Unserialize_txout parse serialize CTxOut_SetNull;
  mret (mkTxInUndo txout fCoinBase nHeight nVersion).
End UndoFormat.

Section Update.
Context {Tree V : Type} `{!MerkleTree Tree} `{!CoinsView Tree V} `{!CoinsMemory}.
Abbreviation cache := (CCoinsViewCache Tree V).

(** The life of a modifier whose user inspects the coins, may fail an
    assertion ([None]), and computes a result besides the new coins. *)
Definition with_modifier {R : Type} (c : cache) (txid : Z) (f : CCoins -> option (R * CCoins))
    : option (R * cache) :=
  '(usage, c) ← ModifyCoins c txid;
  e ← cacheCoins (data c) !! txid;
  '(r, co) ← f (e_coins e);
  c ← modifier_destroy txid usage (modifier_update txid (fun _ => co) c);
  Some (r, c).

(** ** Connecting *)

(** The body of the loop over the inputs in [UpdateCoins]. *)
Definition spend_coins (nPos : Z) (coins : CCoins) : option (CTxInUndo * CCoins) :=
  if negb (IsAvailable coins nPos) then None
  else
    match coins_vout coins !! Z.to_nat nPos with
    | None => None
    | Some txout =>
        let coins' := match Spend coins nPos with Some c => c | None => coins end in
        Some (if (length (coins_vout coins') =? 0)%nat
              then mkTxInUndo txout (fCoinBase coins') (u32 (coins_nHeight coins')) (coins_nVersion coins')
              else mkTxInUndo txout false 0 0, coins')
    end.

Fixpoint spend_inputs (c : cache) (l : list CTxIn) (vprevout : CTxUndo) : option (CTxUndo * cache) :=
  match l with
  | [] => Some (vprevout, c)
  | txin :: l =>
      '(undo, c) ← with_modifier c (hash (prevout txin)) (spend_coins (n (prevout txin)));
      spend_inputs c l (vprevout ++ [undo])
  end.

Definition OP_0 : Z := 0x00.

(** [tx.vin[0].prevout.hash], for transactions with inputs *)
Definition import_burn_txid (tx : CMutableTransaction) : Z :=
  match vin tx with i :: _ => hash (prevout i) | [] => 0 end.

Definition AddImportTombstone (importTx : CMutableTransaction) (inputs : cache) (nHeight : Z)
    : option cache :=
  modify_coins inputs (import_burn_txid importTx) (fun co =>
    mkCCoins (fCoinBase co) (coins_vout co ++ [mkCTxOut 0 [OP_0]]) nHeight 4).

Definition RemoveImportTombstone (importTx : CMutableTransaction) (inputs : cache) : option cache :=
  modify_coins inputs (import_burn_txid importTx) (fun _ => CCoins_Clear).

Definition ExistsImportTombstone (importTx : CMutableTransaction) (inputs : cache) : bool * cache :=
  Cache_HaveCoins inputs (import_burn_txid importTx).

(** [txid] is [tx.GetHash()]. *)
Definition UpdateCoins (txid : Z) (tx : CMutableTransaction) (inputs : cache) (nHeight : Z)
    : option (CTxUndo * cache) :=
  '(txundo, inputs) ← (if negb (IsMint tx) then spend_inputs inputs (vin tx) [] else Some ([], inputs));
  inputs ← modify_coins (SetNullifiers tx true inputs) txid (fun _ => FromTx tx nHeight);
  inputs ← (if IsCoinImport tx then AddImportTombstone tx inputs nHeight else Some inputs);
  Some (txundo, inputs).

(** The loop over the transactions in [ConnectBlock], as far as the coins are
    concerned; the undo data of the coinbase is a dummy. *)
Fixpoint connect_txs (l : list (Z * CMutableTransaction)) (nHeight : Z) (c : cache)
    : option (list CTxUndo * cache) :=
  match l with
  | [] => Some ([], c)
  | (txid, tx) :: l =>
      '(undo, c) ← UpdateCoins txid tx c nHeight;
      '(undos, c) ← connect_txs l nHeight c;
      Some (undo :: undos, c)
  end.

(** ** Disconnecting *)

(** [vout.resize(k)] to a larger size *)
Definition vout_resize (k : nat) (v : list CTxOut) : list CTxOut :=
  v ++ repeat CTxOut_SetNull (k - length v).

(** The new coins and whether the undo was clean. *)
Definition apply_undo (undo : CTxInUndo) (nPos : Z) (coins : CCoins) : bool * CCoins :=
  let '(fClean, coins) :=
    if negb (u_nHeight undo =? 0)
    then (IsPruned coins, mkCCoins (u_fCoinBase undo) [] (i32 (u_nHeight undo)) (u_nVersion undo))
    else (negb (IsPruned coins), coins) in
  let fClean := fClean && negb (IsAvailable coins nPos) in
  let v := if Z.of_nat (length (coins_vout coins)) <? u32 (nPos + 1)
           then vout_resize (Z.to_nat (nPos + 1)) (coins_vout coins) else coins_vout coins in
  (fClean, mkCCoins (fCoinBase coins) (<[Z.to_nat nPos := u_txout undo]> v)
     (coins_nHeight coins) (coins_nVersion coins)).

Definition ApplyTxInUndo (undo : CTxInUndo) (view : cache) (out : COutPoint) : option (bool * cache) :=
  with_modifier view (hash out) (fun co => Some (apply_undo undo (n out) co)).

(** The check that the outputs of the transaction are the ones in the view,
    and their removal. *)
Definition remove_outputs (tx : CMutableTransaction) (nHeight : Z) (outs : CCoins)
    : option (bool * CCoins) :=
  let outs := ClearUnspendable outs in
  let outsBlock := FromTx tx nHeight in
  let outs := if coins_nVersion outsBlock <? 0
              then mkCCoins (fCoinBase outs) (coins_vout outs) (coins_nHeight outs) (coins_nVersion outsBlock)
              else outs in
  Some (CCoins_eqb outs outsBlock, CCoins_Clear).

(** [for (unsigned int j = tx.vin.size(); j-- > 0;)]: the inputs from the last
    to the first, [rl] being the inputs with their undo data reversed. *)
Fixpoint restore_inputs (c : cache) (rl : list (CTxIn * CTxInUndo)) : option (bool * cache) :=
  match rl with
  | [] => Some (true, c)
  | (txin, undo) :: rl =>
      '(clean, c) ← ApplyTxInUndo undo c (prevout txin);
      '(cleans, c) ← restore_inputs c rl;
      Some (clean && cleans, c)
  end.

(** One iteration of the loop of [DisconnectBlock]; [None] is a failed
    assertion or the error return on inconsistent undo data. *)
Definition disconnect_tx (txid : Z) (tx : CMutableTransaction) (txundo : CTxUndo) (nHeight : Z) (c : cache)
    : option (bool * cache) :=
  '(clean, c) ← with_modifier c txid (remove_outputs tx nHeight);
  let c := SetNullifiers tx false c in
  if negb (IsMint tx) then
    if negb (length txundo =? length (vin tx))%nat then None
    else
      '(cleans, c) ← restore_inputs c (rev (combine (vin tx) txundo));
      Some (clean && cleans, c)
  else if IsCoinImport tx then
    c ← RemoveImportTombstone tx c;
    Some (clean, c)
  else Some (clean, c).

(** The transactions in reverse order. *)
Fixpoint disconnect_txs (rl : list (Z * CMutableTransaction * CTxUndo)) (nHeight : Z) (c : cache)
    : option (bool * cache) :=
  match rl with
  | [] => Some (true, c)
  | (txid, tx, undo) :: rl =>
      '(clean, c) ← disconnect_tx txid tx undo nHeight c;
      '(cleans, c) ← disconnect_txs rl nHeight c;
      Some (clean && cleans, c)
  end.
End Update.

(** ** Lemmas: clean vectors of outputs *)

(** The unspent output at a position. *)
Definition out_at (v : list CTxOut) (i : nat) : option CTxOut :=
  match v !! i with
  | Some o => if CTxOut_IsNull o then None else Some o
  | None => None
  end.

Lemma out_at_avail v i : avail v i = true <-> is_Some (out_at v i).
Proof.
  unfold avail, out_at. destruct (v !! i) as [o|]; [destruct (CTxOut_IsNull o)|]; simpl;
    split; intros Ho; try done; by destruct Ho.
Qed.

Lemma out_at_app_nulls v k i :
  Forall (fun o => CTxOut_IsNull o = true) k -> out_at (v ++ k) i = out_at v i.
Proof.
  intros Hk. unfold out_at. destruct (decide (i < length v)%nat).
  - by rewrite lookup_app_l.
  - rewrite lookup_app_r, (lookup_ge_None_2 v) by lia.
    destruct (k !! (i - length v)%nat) as [o|] eqn:Ho; [|done].
    rewrite Forall_lookup in Hk. by rewrite (Hk _ _ Ho).
Qed.

Lemma out_at_cleanup v i : out_at (cleanup_vout v) i = out_at v i.
Proof.
  destruct (cleanup_vout_split v) as (k & Hv & Hk). rewrite Hv at 2.
  by rewrite out_at_app_nulls.
Qed.

Lemma out_at_resize k v i : out_at (vout_resize k v) i = out_at v i.
Proof. apply out_at_app_nulls. by apply Forall_repeat. Qed.

Lemma out_at_insert v i o j : (i < length v)%nat ->
  out_at (<[i := o]> v) j =
  if decide (i = j) then (if CTxOut_IsNull o then None else Some o) else out_at v j.
Proof.
  intros Hi. unfold out_at. destruct (decide (i = j)) as [<-|].
  - by rewrite list_lookup_insert_eq.
  - by rewrite list_lookup_insert_ne.
Qed.

Lemma clean_length v w : vout_clean v -> (forall i, out_at v i = out_at w i) ->
  (length v <= length w)%nat.
Proof.
  intros [_ Hl] H. destruct v as [|o v _] using rev_ind; [simpl; lia|].
  rewrite length_app. simpl. destruct (decide (length v < length w)%nat); [lia|]. exfalso.
  specialize (H (length v)). unfold out_at in H.
  rewrite lookup_app_r, Nat.sub_diag, (lookup_ge_None_2 w) in H by lia. simpl in H.
  rewrite (Hl o) in H by apply last_snoc. done.
Qed.

(** Clean vectors with the same unspent outputs are equal. *)
Lemma clean_ext v w : vout_clean v -> vout_clean w -> (forall i, out_at v i = out_at w i) -> v = w.
Proof.
  intros Hv Hw H. assert (Hlen : length v = length w).
  { pose proof (clean_length v w Hv H). pose proof (clean_length w v Hw (fun i => eq_sym (H i))). lia. }
  apply list_eq. intros i. specialize (H i). unfold out_at in H.
  destruct (decide (i < length v)%nat) as [Hi|]; [|by rewrite !lookup_ge_None_2 by lia].
  destruct (lookup_lt_is_Some_2 v i Hi) as [o Ho].
  destruct (lookup_lt_is_Some_2 w i ltac:(lia)) as [o' Ho']. rewrite Ho, Ho' in *.
  destruct (CTxOut_IsNull o) eqn:Hn, (CTxOut_IsNull o') eqn:Hn'; try done.
  f_equal. rewrite (proj1 Hv o), (proj1 Hw o') by (try done; by eapply list_elem_of_lookup_2). done.
Qed.

(** ** Lemmas: spending and undoing one output *)

(** Heights the undo data can tell from "not the last output". *)
Definition height_ok (co : CCoins) : Prop := 0 < coins_nHeight co < 2 ^ 31.

Lemma live_Some co co' : live co = Some co' -> co = co' /\ IsPruned co = false.
Proof. unfold live. destruct (IsPruned co); [done|]. by intros [= <-]. Qed.

Lemma live_avail co i : avail (coins_vout co) i = true -> live co = Some co.
Proof.
  intros Ha. unfold live. destruct (IsPruned co) eqn:Hp; [|done].
  rewrite IsPruned_avail in Hp. by rewrite Hp in Ha.
Qed.

Lemma spend_coins_spec nPos co u co' : CCoins_wf co -> spend_coins nPos co = Some (u, co') ->
  exists o, coins_vout co !! Z.to_nat nPos = Some o /\ CTxOut_IsNull o = false /\ u_txout u = o /\
    Spend co nPos = Some co' /\ live co = Some co /\
    (if is_nil (coins_vout co')
     then u = mkTxInUndo o (fCoinBase co) (u32 (coins_nHeight co)) (coins_nVersion co)
     else u = mkTxInUndo o false 0 0).
Proof.
  intros Hw. unfold spend_coins. destruct (IsAvailable co nPos) eqn:Ha; [|done]. cbn [negb].
  pose proof Ha as Hav. rewrite IsAvailable_avail in Hav. apply live_avail in Hav.
  destruct (coins_vout co !! Z.to_nat nPos) as [o|] eqn:Ho; [|done].
  destruct (Spend co nPos) as [co1|] eqn:Hs; [|unfold Spend in Hs; by rewrite Ha in Hs].
  intros Heq. injection Heq as <- <-. exists o.
  destruct (Spend_spec co nPos co1 Hw Hs) as (_ & _ & _ & _ & Hcb & Hh & Hv).
  unfold IsAvailable in Ha. rewrite Ho in Ha. apply negb_true_iff in Ha.
  rewrite Hcb, Hh, Hv. destruct (coins_vout co1); by split_and!.
Qed.

Lemma Spend_out_at co nPos co' i : CCoins_wf co -> Spend co nPos = Some co' ->
  out_at (coins_vout co') i = if decide (Z.to_nat nPos = i) then None else out_at (coins_vout co) i.
Proof.
  intros Hw. unfold Spend. destruct (IsAvailable co nPos) eqn:Ha; [|done]. simpl.
  intros Heq. injection Heq as <-. simpl. rewrite out_at_cleanup, out_at_insert; [done|].
  unfold IsAvailable in Ha. destruct (coins_vout co !! Z.to_nat nPos) eqn:Ho; [|done].
  by apply lookup_lt_Some in Ho.
Qed.

Lemma CCoins_ext co co' : fCoinBase co = fCoinBase co' -> coins_nHeight co = coins_nHeight co' ->
  coins_nVersion co = coins_nVersion co' -> coins_vout co = coins_vout co' -> co = co'.
Proof. destruct co, co'; simpl; by intros -> -> -> ->. Qed.

(** The undo data of a spent output restores the coins, from any object that
    shows the same coins as the one left by spending. *)
Lemma apply_undo_spend nPos co u co' raw :
  CCoins_wf co -> height_ok co -> 0 <= nPos < 2 ^ 32 - 1 ->
  spend_coins nPos co = Some (u, co') -> CCoins_wf raw -> live raw = live co' ->
  exists co'', apply_undo u nPos raw = (true, co'') /\ nulls_canonical co'' /\ Cleanup co'' = co.
Proof.
  intros Hw Hh Hn Hs Hwr Hraw.
  destruct (spend_coins_spec nPos co u co' Hw Hs) as (o & Ho & Hnull & Hut & Hsp & Hlive & Hu).
  destruct (Spend_spec co nPos co' Hw Hsp) as (_ & Hw' & _ & _ & Hcb & Hhh & Hv).
  pose proof (fun i => Spend_out_at co nPos co' i Hw Hsp) as Hout.
  assert (Hon : out_at (coins_vout co) (Z.to_nat nPos) = Some o) by (unfold out_at; by rewrite Ho, Hnull).
  (* the vector with the output put back, from one with the other outputs *)
  assert (Hback : forall v, (forall i, out_at v i = out_at (coins_vout co') i) ->
    nulls_canonical (mkCCoins false v 0 0) -> forall w,
    w = <[Z.to_nat nPos := o]> (if Z.of_nat (length v) <? u32 (nPos + 1)
      then vout_resize (Z.to_nat (nPos + 1)) v else v) ->
    (forall o', o' ∈ w -> CTxOut_IsNull o' = true -> o' = CTxOut_SetNull) /\
    cleanup_vout w = coins_vout co).
  { intros v Hvo Hvc w Hweq. rewrite u32_id in Hweq by (unfold is_u32; lia).
    set (v2 := if _ <? _ then _ else _) in Hweq.
    assert (Hv2 : (forall i, out_at v2 i = out_at v i) /\ (Z.to_nat nPos < length v2)%nat /\
      forall o', o' ∈ v2 -> CTxOut_IsNull o' = true -> o' = CTxOut_SetNull).
    { subst v2. destruct (Z.ltb_spec (Z.of_nat (length v)) (nPos + 1)); split_and!; try done; try lia.
      - intros i. apply out_at_resize.
      - unfold vout_resize. rewrite length_app, repeat_length. lia.
      - intros o' [Ho'|Ho']%elem_of_app; [by apply Hvc|]. intros _.
        apply list_elem_of_In, repeat_spec in Ho'. done. }
    destruct Hv2 as (Hv2o & Hv2l & Hv2c). subst w.
    assert (Hc : forall o', o' ∈ <[Z.to_nat nPos := o]> v2 -> CTxOut_IsNull o' = true -> o' = CTxOut_SetNull).
    { intros o' [i Hi]%list_elem_of_lookup Hn'. apply list_lookup_insert_Some in Hi as [(_ & <- & _)|[_ Hi]];
        [congruence|]. apply Hv2c; [|done]. by eapply list_elem_of_lookup_2. }
    split; [done|]. apply clean_ext; [by apply cleanup_vout_clean | done|].
    intros i. rewrite out_at_cleanup, out_at_insert, Hv2o, Hvo, Hout, Hnull by done.
    destruct (decide (Z.to_nat nPos = i)) as [<-|]; [by rewrite Hon | done]. }
  unfold apply_undo. destruct (is_nil (coins_vout co')) eqn:Hnil.
  - subst u. cbn [u_nHeight u_fCoinBase u_nVersion u_txout]. unfold height_ok in Hh.
    rewrite u32_id, i32_id by (unfold is_u32, is_i32; lia).
    destruct (Z.eqb_spec (coins_nHeight co) 0); [lia|]. cbn [negb].
    assert (Hp : IsPruned raw = true).
    { unfold live in Hraw. rewrite (pruned_wf co' Hw'), Hnil in Hraw. by destruct (IsPruned raw). }
    rewrite Hp. cbn [coins_vout]. eexists. split; [done|].
    destruct (coins_vout co') as [|] eqn:Hv'; [|done].
    destruct (Hback [] (fun i => eq_refl) ltac:(intros ? []%elem_of_nil) _ eq_refl) as [Hc Hcl].
    split; [exact Hc|]. apply CCoins_ext; simpl; done.
  - subst u. cbn [u_nHeight u_fCoinBase u_nVersion u_txout]. change (negb (0 =? 0)) with false. cbv iota.
    assert (Hr : raw = co' /\ IsPruned co' = false).
    { unfold live in Hraw. rewrite (pruned_wf co' Hw'), Hnil in *. destruct (IsPruned raw); [done|].
      by injection Hraw as ->. }
    destruct Hr as [-> Hp]. rewrite Hp. cbn [negb].
    assert (Ha : IsAvailable co' nPos = false).
    { rewrite IsAvailable_avail. apply not_true_is_false. rewrite out_at_avail, Hout.
      rewrite decide_True by done. by intros []. }
    rewrite Ha. eexists. split; [done|].
    destruct (Hback (coins_vout co') (fun i => eq_refl) (proj1 Hw') _ eq_refl) as [Hc Hcl].
    split; [exact Hc|]. apply CCoins_ext; simpl; done.
Qed.

(** ** Lemmas: the cache *)

Lemma decide_or {A} (P Q R : Prop) `{Decision P, Decision Q, Decision R} (a b : A) :
  (R <-> P \/ Q) -> (if decide P then a else if decide Q then a else b) = if decide R then a else b.
Proof. intros. repeat case_decide; try done; tauto. Qed.

Section UpdateLaws.
Context {Tree V : Type} `{!MerkleTree Tree} `{!CoinsView Tree V} `{!CoinsMemory}.
Context (tree_of : ShieldedType -> Z -> Tree) `{!CoinsViewReads tree_of V}.
Abbreviation cache := (CCoinsViewCache Tree V).
Abbreviation inv := (cache_inv tree_of).
Abbreviation st := (cache_abs tree_of).

Lemma with_modifier_law {R : Type} (c : cache) k (f : CCoins -> option (R * CCoins)) : inv c ->
  exists co, CCoins_wf co /\ live co = st_coins (st c) k /\
    match f co with
    | None => with_modifier c k f = None
    | Some (r, co') => nulls_canonical co' ->
        exists c', with_modifier c k f = Some (r, c') /\ inv c' /\
          st c' ≡ st_set_coins k (live (Cleanup co')) (st c)
    end.
Proof.
  intros Hi. destruct (ModifyCoins_entry tree_of c k Hi) as (co & fresh & b & usage & HM & Hw & Hl & _).
  exists co. split; [done|]. split; [done|]. unfold with_modifier. rewrite HM. cbn [mbind option_bind].
  simpl. rewrite lookup_insert_eq. simpl. destruct (f co) as [[r co']|]; [|done].
  intros Hc. destruct (modify_coins_law tree_of c k (fun _ => co') Hi (fun _ _ => Hc))
    as (_ & c' & _ & _ & Hm & Hi' & Habs).
  unfold modify_coins in Hm. rewrite HM in Hm. simpl. rewrite Hm. by exists c'.
Qed.

Lemma SetNullifiers_law tx spent c : inv c ->
  inv (SetNullifiers tx spent c) /\
  (forall k, st_coins (st (SetNullifiers tx spent c)) k = st_coins (st c) k) /\
  (forall t k, st_anchor (st (SetNullifiers tx spent c)) t k = st_anchor (st c) t k) /\
  st_best (st (SetNullifiers tx spent c)) = st_best (st c) /\
  (forall t, st_bestAnchor (st (SetNullifiers tx spent c)) t = st_bestAnchor (st c) t) /\
  (forall t k, st_null (st (SetNullifiers tx spent c)) t k =
     if decide (k ∈ match t with SPROUT => concat (map nullifiers (vjoinsplit tx))
                               | SAPLING => map sd_nullifier (vShieldedSpend tx) end)
     then spent else st_null (st c) t k).
Proof.
  intros Hi.
  assert (Hfold : forall t l c, inv c -> let c' := fold_left (SetNullifier t spent) l c in
    inv c' /\ (forall k, st_coins (st c') k = st_coins (st c) k) /\
    (forall t k, st_anchor (st c') t k = st_anchor (st c) t k) /\ st_best (st c') = st_best (st c) /\
    (forall t, st_bestAnchor (st c') t = st_bestAnchor (st c) t) /\
    (forall t' k, st_null (st c') t' k = if decide (t' = t /\ k ∈ l) then spent else st_null (st c) t' k)).
  { clear c Hi. intros t l. induction l as [|x l IH]; intros c Hi c'; simpl in c'; subst c'.
    { split_and!; try done. intros t' k. rewrite decide_False; [done|]. by intros [_ []%elem_of_nil]. }
    destruct (SetNullifier_law tree_of t spent c x Hi) as [Hi1 (H1 & H2 & H3 & H4 & H5)].
    destruct (IH _ Hi1) as (Hi2 & G1 & G2 & G4 & G5 & G3). split_and!; try done; intros.
    - by rewrite G1, H1.
    - by rewrite G2, H2.
    - by rewrite G4, H4.
    - by rewrite G5, H5.
    - rewrite G3, H3. cbn [st_set_null st_null]. apply decide_or.
      rewrite elem_of_cons. tauto. }
  unfold SetNullifiers.
  assert (Hj : fold_left (fun c joinsplit => fold_left (SetNullifier SPROUT spent) (nullifiers joinsplit) c)
    (vjoinsplit tx) c = fold_left (SetNullifier SPROUT spent) (concat (map nullifiers (vjoinsplit tx))) c).
  { generalize (vjoinsplit tx) c. intros l. induction l as [|d l IH]; intros c'; [done|]. simpl.
    by rewrite fold_left_app, IH. }
  rewrite Hj. clear Hj. set (c1 := fold_left (SetNullifier SPROUT spent) _ c).
  assert (Hs : fold_left (fun c spend => SetNullifier SAPLING spent c (sd_nullifier spend))
    (vShieldedSpend tx) c1 = fold_left (SetNullifier SAPLING spent) (map sd_nullifier (vShieldedSpend tx)) c1).
  { generalize (vShieldedSpend tx) c1. intros l. induction l as [|d l IH]; intros c'; [done|]. simpl. by rewrite IH. }
  rewrite Hs. clear Hs.
  destruct (Hfold SPROUT (concat (map nullifiers (vjoinsplit tx))) c Hi) as (Hi1 & H1 & H2 & H4 & H5 & H3).
  fold c1 in Hi1, H1, H2, H4, H5, H3.
  destruct (Hfold SAPLING (map sd_nullifier (vShieldedSpend tx)) c1 Hi1) as (Hi2 & G1 & G2 & G4 & G5 & G3).
  split_and!; try done; intros.
  - by rewrite G1, H1.
  - by rewrite G2, H2.
  - by rewrite G4, H4.
  - by rewrite G5, H5.
  - rewrite G3, H3. destruct t.
    + rewrite decide_False by (by intros [? _]). apply decide_ext. tauto.
    + rewrite (decide_False (P := SAPLING = SPROUT /\ _)) by (by intros [? _]). apply decide_ext. tauto.
Qed.

(** States that differ in the coins only. *)
Definition same_rest (s s' : utxo_state Tree) : Prop :=
  (forall t k, st_anchor s t k = st_anchor s' t k) /\ (forall t k, st_null s t k = st_null s' t k) /\
  st_best s = st_best s' /\ (forall t, st_bestAnchor s t = st_bestAnchor s' t).

Lemma same_rest_trans s s' s'' : same_rest s s' -> same_rest s' s'' -> same_rest s s''.
Proof. intros (? & ? & ? & ?) (? & ? & ? & ?). split_and!; congruence. Qed.

Lemma same_rest_refl s : same_rest s s.
Proof. by split_and!. Qed.

(** States with the same coins and nullifiers, and states with the same anchors and best block. *)
Definition same_coins (s s' : utxo_state Tree) : Prop :=
  (forall k, st_coins s k = st_coins s' k) /\ (forall t k, st_null s t k = st_null s' t k).

Definition same_tips (s s' : utxo_state Tree) : Prop :=
  (forall t k, st_anchor s t k = st_anchor s' t k) /\ st_best s = st_best s' /\
  (forall t, st_bestAnchor s t = st_bestAnchor s' t).

Lemma same_tips_trans s s' s'' : same_tips s s' -> same_tips s' s'' -> same_tips s s''.
Proof. intros (? & ? & ?) (? & ? & ?). split_and!; congruence. Qed.

Lemma same_tips_sym s s' : same_tips s s' -> same_tips s' s.
Proof. intros (? & ? & ?). by split_and!. Qed.

Lemma same_rest_tips s s' : same_rest s s' -> same_tips s s'.
Proof. intros (? & _ & ? & ?). by split_and!. Qed.

Lemma same_both s s' : same_coins s s' -> same_tips s s' -> s ≡ s'.
Proof. intros (? & ?) (? & ? & ?). by split_and!. Qed.

Lemma equiv_coins (s s' : utxo_state Tree) : s ≡ s' -> same_coins s s'.
Proof. intros (? & _ & ? & _). by split. Qed.

Lemma equiv_tips (s s' : utxo_state Tree) : s ≡ s' -> same_tips s s'.
Proof. intros (_ & ? & _ & ? & ?). by split_and!. Qed.

Lemma set_coins_rest k o (s s' : utxo_state Tree) : s' ≡ st_set_coins k o s -> same_rest s' s.
Proof. intros (_ & ? & ? & ? & ?). by split_and!. Qed.

Lemma set_coins_at k o (s s' : utxo_state Tree) j : s' ≡ st_set_coins k o s ->
  st_coins s' j = if decide (j = k) then o else st_coins s j.
Proof. by intros (Hc & _). Qed.

Definition heights_ok (s : utxo_state Tree) : Prop :=
  forall k co, st_coins s k = Some co -> height_ok co.

Lemma Cleanup_id co : CCoins_wf co -> Cleanup co = co.
Proof. intros [_ Hl]. unfold Cleanup. rewrite cleanup_vout_id by done. by destruct co. Qed.

(** Spending one input changes one coins object. *)
Lemma spend_one_law c k nPos u c1 : inv c ->
  with_modifier c k (spend_coins nPos) = Some (u, c1) ->
  exists co co', CCoins_wf co /\ st_coins (st c) k = Some co /\ spend_coins nPos co = Some (u, co') /\
    CCoins_wf co' /\ inv c1 /\ st c1 ≡ st_set_coins k (live co') (st c).
Proof.
  intros Hi Hm. destruct (with_modifier_law c k (spend_coins nPos) Hi) as (co & Hw & Hl & Hf).
  destruct (spend_coins nPos co) as [[r co']|] eqn:Hs; [|congruence].
  destruct (spend_coins_spec nPos co r co' Hw Hs) as (o & _ & _ & _ & Hsp & Hlive & _).
  destruct (Spend_spec co nPos co' Hw Hsp) as (_ & Hw' & _).
  destruct (Hf (proj1 Hw')) as (c' & Hm' & Hi' & Habs). rewrite Hm in Hm'. injection Hm' as <- <-.
  exists co, co'. rewrite Cleanup_id in Habs by done. rewrite <- Hl, Hlive. by split_and!.
Qed.

Lemma restore_inputs_app c l k :
  restore_inputs c (l ++ k) =
  match restore_inputs c l with
  | Some (b, c') => match restore_inputs c' k with Some (b', c'') => Some (b && b', c'') | None => None end
  | None => None
  end.
Proof.
  revert c. induction l as [|[i u] l IH]; intros c; simpl.
  { by destruct (restore_inputs c k) as [[b c']|]. }
  destruct (ApplyTxInUndo u c (prevout i)) as [[b1 c1]|]; simpl; [|done].
  rewrite IH. destruct (restore_inputs c1 l) as [[b2 c2]|]; simpl; [|done].
  destruct (restore_inputs c2 k) as [[b3 c3]|]; simpl; [|done]. by rewrite andb_assoc.
Qed.

Definition input_positions (l : list CTxIn) : Prop :=
  Forall (fun i => 0 <= n (prevout i) < 2 ^ 32 - 1) l.

(** The undo data collected while spending restores every coins object. *)
Lemma spend_inputs_undo l c vp vp' c' : inv c -> heights_ok (st c) -> input_positions l ->
  spend_inputs c l vp = Some (vp', c') ->
  exists us, vp' = vp ++ us /\ length us = length l /\ inv c' /\ same_rest (st c') (st c) /\
    heights_ok (st c') /\ (forall k, st_coins (st c) k = None -> st_coins (st c') k = None) /\
    forall d, inv d -> (forall k, st_coins (st d) k = st_coins (st c') k) ->
      exists d', restore_inputs d (rev (combine l us)) = Some (true, d') /\ inv d' /\
        same_rest (st d') (st d) /\ forall k, st_coins (st d') k = st_coins (st c) k.
Proof.
  revert c vp. induction l as [|i l IH]; intros c vp Hi Hh Hpos Hs.
  { injection Hs as <- <-. exists []. rewrite app_nil_r. split_and!; try done.
    intros d Hd Hc. exists d. by split_and!. }
  apply Forall_cons_1 in Hpos as [Hp Hpos]. cbn [spend_inputs] in Hs.
  destruct (with_modifier c (hash (prevout i)) (spend_coins (n (prevout i)))) as [[u c1]|] eqn:Hm; [|done].
  simpl in Hs. set (k0 := hash (prevout i)) in *. set (p := n (prevout i)) in *.
  destruct (spend_one_law c k0 p u c1 Hi Hm) as (co & co' & Hw & Hst & Hsp & Hw' & Hi1 & Habs1).
  destruct (spend_coins_spec p co u co' Hw Hsp) as (o & _ & _ & _ & Hspend & Hlive & _).
  destruct (Spend_spec co p co' Hw Hspend) as (_ & _ & _ & _ & _ & Hhgt & _).
  pose proof (set_coins_at k0 (live co') (st c) (st c1)) as Hat1.
  assert (Hh1 : heights_ok (st c1)).
  { intros k x. rewrite (Hat1 k Habs1). case_decide; [|apply Hh].
    intros [-> _]%live_Some. unfold height_ok. rewrite Hhgt. by apply (Hh k0). }
  destruct (IH c1 (vp ++ [u]) Hi1 Hh1 Hpos Hs) as (us & -> & Hlen & Hi' & Hr & Hh' & Hnone & Hundo).
  exists (u :: us). rewrite <- app_assoc. split_and!; [done | simpl; by rewrite Hlen | done | | done | |].
  - eapply same_rest_trans; [exact Hr|]. by eapply set_coins_rest.
  - intros k Hk. apply Hnone. rewrite (Hat1 k Habs1). case_decide; [congruence | done].
  - intros d Hd Hc. destruct (Hundo d Hd Hc) as (d1 & Hd1 & Hid1 & Hrd1 & Hcd1).
    cbn [combine rev]. rewrite restore_inputs_app, Hd1. cbn [restore_inputs].
    unfold ApplyTxInUndo. fold k0 p.
    destruct (with_modifier_law d1 k0 (fun co => Some (apply_undo u p co)) Hid1) as (raw & Hwr & Hlr & Hf).
    assert (Hrawlive : live raw = live co').
    { rewrite Hlr, Hcd1, (Hat1 k0 Habs1). by rewrite decide_True. }
    destruct (apply_undo_spend p co u co' raw Hw (Hh k0 co Hst) Hp Hsp Hwr Hrawlive)
      as (co'' & Happ & Hcan & Hcl).
    cbv beta in Hf. rewrite Happ in Hf. destruct (Hf Hcan) as (d2 & Hm2 & Hi2 & Habs2).
    rewrite Hm2. cbn [mbind option_bind andb]. exists d2. split_and!; [done | done | |].
    + eapply same_rest_trans; [by eapply set_coins_rest | done].
    + intros k. rewrite (set_coins_at _ _ _ _ k Habs2), Hcl, Hcd1, (Hat1 k Habs1).
      case_decide as Hk; [subst k; by rewrite Hst | done].
Qed.

(** *** A transaction *)

Lemma ClearUnspendable_FromTx tx h : Forall (fun o => 0 <= nValue o) (vout tx) ->
  ClearUnspendable (FromTx tx h) = FromTx tx h.
Proof.
  intros Hv. pose proof (FromTx_wf tx h Hv) as Hw. unfold ClearUnspendable.
  replace (map _ (coins_vout (FromTx tx h))) with (coins_vout (FromTx tx h)).
  - rewrite Cleanup_id; by destruct (FromTx tx h).
  - symmetry. rewrite <- (map_id (coins_vout (FromTx tx h))) at 2. apply map_ext_in.
    intros o Ho. destruct (IsUnspendable (scriptPubKey o)) eqn:Hu; [|done].
    apply list_elem_of_In in Ho. unfold FromTx, ClearUnspendable in Ho. simpl in Ho.
    destruct (cleanup_vout_split (map (fun o => if IsUnspendable (scriptPubKey o) then CTxOut_SetNull else o)
      (vout tx))) as (k & Hk & _).
    assert (Hin : o ∈ map (fun o => if IsUnspendable (scriptPubKey o) then CTxOut_SetNull else o) (vout tx)).
    { rewrite Hk. apply elem_of_app. by left. }
    apply list_elem_of_In, in_map_iff in Hin as (o' & Ho' & _).
    destruct (IsUnspendable (scriptPubKey o')) eqn:Hu'; [done | congruence].
Qed.

(** The outputs a transaction added are found unchanged. *)
Lemma remove_outputs_clean tx h raw : Forall (fun o => 0 <= nValue o) (vout tx) ->
  CCoins_wf raw -> live raw = live (FromTx tx h) ->
  remove_outputs tx h raw = Some (true, CCoins_Clear).
Proof.
  intros Hv Hwr Hl. unfold remove_outputs. f_equal. f_equal. unfold live in Hl.
  destruct (IsPruned (FromTx tx h)) eqn:Hp.
  - destruct (IsPruned raw) eqn:Hpr; [|done]. rewrite pruned_wf in Hpr by done.
    destruct (coins_vout raw) eqn:Hvr; [|done].
    assert (Hc : IsPruned (ClearUnspendable raw) = true).
    { unfold ClearUnspendable, IsPruned. simpl. by rewrite Hvr. }
    unfold CCoins_eqb. rewrite Hp, andb_true_r. destruct (_ <? 0); [|by rewrite Hc].
    unfold IsPruned in *. simpl in *. by rewrite Hc.
  - destruct (IsPruned raw); [done|]. injection Hl as ->. rewrite ClearUnspendable_FromTx by done.
    unfold CCoins_eqb. destruct (_ <? 0); cbn [fCoinBase coins_nHeight coins_nVersion coins_vout];
      (case_match; [done|]); rewrite eqb_reflx, !Z.eqb_refl; by rewrite bool_decide_eq_true_2.
Qed.

(** What the checks of a block guarantee of a transaction when it is connected. *)
Definition tx_connectable (txid : Z) (tx : CMutableTransaction) (s : utxo_state Tree) : Prop :=
  st_coins s txid = None /\ Forall (fun o => 0 <= nValue o) (vout tx) /\
  (IsMint tx = false -> input_positions (vin tx)) /\
  (forall k, k ∈ concat (map nullifiers (vjoinsplit tx)) -> st_null s SPROUT k = false) /\
  (forall k, k ∈ map sd_nullifier (vShieldedSpend tx) -> st_null s SAPLING k = false) /\
  (IsCoinImport tx = true ->
     st_coins s (import_burn_txid tx) = None /\ import_burn_txid tx <> txid).

(** The state after the outputs, nullifiers and the tombstone of a transaction
    were added to the state [s1] its inputs were spent in. *)
Definition tx_added (txid : Z) (tx : CMutableTransaction) (h : Z) (s1 s2 : utxo_state Tree) : Prop :=
  (forall k, st_coins s2 k =
     if decide (k = txid) then live (FromTx tx h)
     else if decide (IsCoinImport tx = true /\ k = import_burn_txid tx)
          then Some (mkCCoins (fCoinBase (default CCoins_Clear (st_coins s2 k))) [mkCTxOut 0 [OP_0]] h 4)
          else st_coins s1 k) /\
  (forall t k, st_anchor s2 t k = st_anchor s1 t k) /\ st_best s2 = st_best s1 /\
  (forall t, st_bestAnchor s2 t = st_bestAnchor s1 t) /\
  (forall t k, st_null s2 t k =
     if decide (k ∈ match t with SPROUT => concat (map nullifiers (vjoinsplit tx))
                               | SAPLING => map sd_nullifier (vShieldedSpend tx) end)
     then true else st_null s1 t k).

(** Adding to a cache that already has the inputs spent. *)
Lemma add_outputs_law txid tx h c1 c' : inv c1 ->
  Forall (fun o => 0 <= nValue o) (vout tx) ->
  (IsCoinImport tx = true -> st_coins (st c1) (import_burn_txid tx) = None /\ import_burn_txid tx <> txid) ->
  (inputs ← modify_coins (SetNullifiers tx true c1) txid (fun _ => FromTx tx h);
   if IsCoinImport tx then AddImportTombstone tx inputs h else Some inputs) = Some c' ->
  inv c' /\ tx_added txid tx h (st c1) (st c').
Proof.
  intros Hi Hv Himp Hrun. destruct (SetNullifiers_law tx true c1 Hi) as (Hi2 & N1 & N2 & N4 & N5 & N3).
  pose proof (FromTx_wf tx h Hv) as Hw.
  destruct (modify_coins_law tree_of (SetNullifiers tx true c1) txid (fun _ => FromTx tx h) Hi2
    (fun _ _ => proj1 Hw)) as (_ & c3 & _ & _ & Hm & Hi3 & Habs3).
  rewrite Hm in Hrun. cbn [mbind option_bind] in Hrun. rewrite Cleanup_id in Habs3 by done.
  pose proof (fun k => set_coins_at _ _ _ _ k Habs3) as C3.
  pose proof (set_coins_rest _ _ _ _ Habs3) as (R1 & R2 & R3 & R4).
  destruct (IsCoinImport tx) eqn:Himport.
  - destruct (Himp eq_refl) as [Hb Hne]. unfold AddImportTombstone in Hrun.
    destruct (modify_coins_law tree_of c3 (import_burn_txid tx) (fun co =>
      mkCCoins (fCoinBase co) (coins_vout co ++ [mkCTxOut 0 [OP_0]]) h 4) Hi3)
      as (co & c4 & Hwc & Hlc & Hm4 & Hi4 & Habs4).
    { intros co Hwc o Ho Hn. simpl in Ho. apply elem_of_app in Ho as [Ho|Ho%list_elem_of_singleton];
        [by apply (proj1 Hwc) | by subst]. }
    rewrite Hm4 in Hrun. injection Hrun as <-. split; [done|].
    assert (Hco : coins_vout co = []).
    { rewrite C3, decide_False, N1, Hb in Hlc by done. unfold live in Hlc.
      destruct (IsPruned co) eqn:Hp; [|done]. rewrite pruned_wf in Hp by done. by destruct (coins_vout co). }
    pose proof (fun k => set_coins_at _ _ _ _ k Habs4) as C4.
    pose proof (set_coins_rest _ _ _ _ Habs4) as (Q1 & Q2 & Q3 & Q4). split_and!.
    + intros k. rewrite C4. destruct (decide (k = import_burn_txid tx)) as [->|Hk].
      * rewrite decide_False, decide_True by done. rewrite Hco. done.
      * rewrite C3. case_decide; [done|]. rewrite decide_False by (by intros [_ ?]). apply N1.
    + intros t k. by rewrite Q1, R1, N2.
    + by rewrite Q3, R3, N4.
    + intros t. by rewrite Q4, R4, N5.
    + intros t k. by rewrite Q2, R2, N3.
  - injection Hrun as <-. split; [done|]. split_and!.
    + intros k. rewrite C3. case_decide; [done|].
      rewrite decide_False by (intros [? _]; congruence). apply N1.
    + intros t k. by rewrite R1, N2.
    + by rewrite R3, N4.
    + intros t. by rewrite R4, N5.
    + intros t k. by rewrite R2, N3.
Qed.

Lemma disconnect_connect_tx txid tx h c undo c' : inv c -> heights_ok (st c) -> 0 < h < 2 ^ 31 ->
  tx_connectable txid tx (st c) -> UpdateCoins txid tx c h = Some (undo, c') ->
  inv c' /\ heights_ok (st c') /\ same_tips (st c') (st c) /\
  forall d, inv d -> same_coins (st d) (st c') ->
    exists d', disconnect_tx txid tx undo h d = Some (true, d') /\ inv d' /\ same_coins (st d') (st c) /\ same_tips (st d') (st d).
Proof.
  intros Hi Hh Hht (Hnew & Hv & Hpos & Hnsp & Hnsa & Himp). unfold UpdateCoins.
  destruct (if negb (IsMint tx) then _ else _) as [[vp c1]|] eqn:Hsp; [|done]. cbn [mbind option_bind].
  assert (Hsp' : exists us, vp = us /\ inv c1 /\ same_rest (st c1) (st c) /\ heights_ok (st c1) /\
    (forall k, st_coins (st c) k = None -> st_coins (st c1) k = None) /\
    (IsMint tx = true -> c1 = c) /\
    (IsMint tx = false -> length us = length (vin tx) /\
      forall d, inv d -> (forall k, st_coins (st d) k = st_coins (st c1) k) ->
      exists d', restore_inputs d (rev (combine (vin tx) us)) = Some (true, d') /\ inv d' /\
        same_rest (st d') (st d) /\ forall k, st_coins (st d') k = st_coins (st c) k)).
  { destruct (IsMint tx); cbn [negb] in Hsp.
    - injection Hsp as <- <-. exists []. split_and!; try done; apply same_rest_refl.
    - destruct (spend_inputs_undo (vin tx) c [] vp c1 Hi Hh (Hpos eq_refl) Hsp)
        as (us & -> & Hlen & Hi1 & Hr1 & Hh1 & Hn1 & Hu). exists us. by split_and!. }
  destruct Hsp' as (us & -> & Hi1 & (R1 & R2 & R3 & R4) & Hh1 & Hn1 & Hmint & Hspend).
  intros Hrun. destruct (modify_coins (SetNullifiers tx true c1) txid _) as [c2|] eqn:Hm; [|done].
  cbn [mbind option_bind] in Hrun.
  destruct (if IsCoinImport tx then AddImportTombstone tx c2 h else Some c2) as [c3|] eqn:Hm3; [|done].
  cbn [mbind option_bind] in Hrun. injection Hrun as <- <-.
  destruct (add_outputs_law txid tx h c1 c3 Hi1 Hv) as [Hi3 (A1 & A2 & A4 & A5 & A3)].
  { intros Himport. destruct (Himp Himport) as [Hb Hne]. split; [by apply Hn1 | done]. }
  { rewrite Hm. exact Hm3. }
  split; [done|]. split.
  { intros k co. rewrite A1. destruct (decide (k = txid)); [intros [<- _]%live_Some; done|].
    destruct (decide (IsCoinImport tx = true /\ _)); [by intros [= <-] | apply Hh1]. }
  split; [split_and!; [intros t k; by rewrite A2, R1|by rewrite A4, R3|intros t; by rewrite A5, R4]|].
  intros d Hd (D1 & D3). unfold disconnect_tx.
  destruct (with_modifier_law d txid (remove_outputs tx h) Hd) as (raw & Hwr & Hlr & Hf).
  rewrite D1, A1, decide_True in Hlr by done. rewrite (remove_outputs_clean tx h raw Hv Hwr Hlr) in Hf.
  destruct Hf as (d1 & Hm1 & Hid1 & Habs1); [by intros o ?%elem_of_nil|].
  rewrite Hm1. cbn [mbind option_bind].
  pose proof (fun k => set_coins_at _ _ _ _ k Habs1) as C1.
  pose proof (set_coins_rest _ _ _ _ Habs1) as (Q1 & Q2 & Q3 & Q4).
  destruct (SetNullifiers_law tx false d1 Hid1) as (Hid2 & N1 & N2 & N4 & N5 & N3).
  assert (Htips : same_tips (st (SetNullifiers tx false d1)) (st d)).
  { split_and!; [intros t k; by rewrite N2, Q1|by rewrite N4, Q3|intros t; by rewrite N5, Q4]. }
  assert (Hnulls : forall t k, st_null (st (SetNullifiers tx false d1)) t k = st_null (st c) t k).
  { intros t k. rewrite N3. destruct (decide (k ∈ _)) as [Hk|Hk].
    - destruct t; symmetry; [by apply Hnsp | by apply Hnsa].
    - rewrite Q2, D3, A3, decide_False by done. apply R2. }
  assert (Hcoins : forall k, st_coins (st (SetNullifiers tx false d1)) k =
    if decide (k = txid) then None
    else if decide (IsCoinImport tx = true /\ k = import_burn_txid tx) then st_coins (st d1) k
    else st_coins (st c1) k).
  { intros k. rewrite N1. destruct (decide (k = txid)) as [->|Hk]; [by rewrite C1, decide_True|].
    destruct (decide (IsCoinImport tx = true /\ _)); [done|]. by rewrite C1, decide_False, D1, A1, decide_False, decide_False. }
  destruct (IsMint tx) eqn:Hmt; cbn [negb].
  - rewrite (Hmint eq_refl) in *. destruct (IsCoinImport tx) eqn:Himport.
    + destruct (Himp eq_refl) as [Hb Hne]. unfold RemoveImportTombstone.
      destruct (modify_coins_law tree_of (SetNullifiers tx false d1) (import_burn_txid tx)
        (fun _ => CCoins_Clear) Hid2) as (_ & d3 & _ & _ & Hm4 & Hid3 & Habs3);
        [by intros _ _ o ?%elem_of_nil|].
      rewrite Hm4. cbn [mbind option_bind]. exists d3. split; [done|]. split; [done|].
      pose proof (fun k => set_coins_at _ _ _ _ k Habs3) as C3.
      pose proof (set_coins_rest _ _ _ _ Habs3) as S3.
      split; [|by eapply same_tips_trans; [exact (same_rest_tips _ _ S3)|exact Htips]].
      split; [|intros t k; rewrite (proj1 (proj2 S3)); apply Hnulls]. intros k. rewrite C3.
      destruct (decide (k = import_burn_txid tx)) as [Hk|Hk]; [by rewrite Hk, Hb|]. rewrite Hcoins.
      destruct (decide (k = txid)) as [Hk2|Hk2]; [by rewrite Hk2, Hnew|]. by rewrite decide_False by (by intros [_ ?]).
    + eexists. split; [done|]. split; [done|]. split; [|exact Htips]. split; [|exact Hnulls].
      intros k. rewrite Hcoins. destruct (decide (k = txid)) as [Hk2|Hk2]; [by rewrite Hk2, Hnew|].
      by rewrite decide_False by (by intros [? _]).
  - destruct (Hspend eq_refl) as [Hlen Hu]. rewrite Hlen, Nat.eqb_refl. cbn [negb].
    destruct (Hu (SetNullifiers tx false d1) Hid2) as (d3 & Hr3 & Hid3 & S3 & C3).
    { intros k. rewrite Hcoins. destruct (decide (k = txid)) as [Hk2|Hk2]; [by rewrite Hk2, Hn1|].
      rewrite decide_False; [done|]. intros [Himport _]. unfold IsMint in Hmt. by rewrite Himport in Hmt. }
    rewrite Hr3. cbn [mbind option_bind andb]. exists d3. split; [done|]. split; [done|].
    split.
    + split; [exact C3|]. intros t k. rewrite (proj1 (proj2 S3)). apply Hnulls.
    + eapply same_tips_trans; [exact (same_rest_tips _ _ S3)|exact Htips].
Qed.

(** *** A block *)

Fixpoint block_connectable (l : list (Z * CMutableTransaction)) (h : Z) (c : cache) : Prop :=
  match l with
  | [] => True
  | (txid, tx) :: l =>
      tx_connectable txid tx (st c) /\
      forall undo c', UpdateCoins txid tx c h = Some (undo, c') -> block_connectable l h c'
  end.

Lemma disconnect_txs_app l k h c :
  disconnect_txs (l ++ k) h c =
  match disconnect_txs l h c with
  | Some (b, c') => match disconnect_txs k h c' with Some (b', c'') => Some (b && b', c'') | None => None end
  | None => None
  end.
Proof.
  revert c. induction l as [|[[txid tx] u] l IH]; intros c; simpl.
  { by destruct (disconnect_txs k h c) as [[b c']|]. }
  destruct (disconnect_tx txid tx u h c) as [[b1 c1]|]; simpl; [|done].
  rewrite IH. destruct (disconnect_txs l h c1) as [[b2 c2]|]; simpl; [|done].
  destruct (disconnect_txs k h c2) as [[b3 c3]|]; simpl; [|done]. by rewrite andb_assoc.
Qed.

Lemma disconnect_connect_txs l h c undos c' : inv c -> heights_ok (st c) -> 0 < h < 2 ^ 31 ->
  block_connectable l h c -> connect_txs l h c = Some (undos, c') ->
  inv c' /\ heights_ok (st c') /\ same_tips (st c') (st c) /\
  forall d, inv d -> same_coins (st d) (st c') ->
    exists d', disconnect_txs (rev (combine l undos)) h d = Some (true, d') /\ inv d' /\
      same_coins (st d') (st c) /\ same_tips (st d') (st d).
Proof.
  revert c undos. induction l as [|[txid tx] l IH]; intros c undos Hi Hh Hht Hb Hc.
  { injection Hc as <- <-. split; [done|]. split; [done|]. split; [by split_and!|]. intros d Hd Hs. exists d. split; [done|]. split; [done|]. split; [done|]. by split_and!. }
  cbn [connect_txs] in Hc. destruct Hb as [Htx Hb].
  destruct (UpdateCoins txid tx c h) as [[u c1]|] eqn:Hu; [|done]. cbn [mbind option_bind] in Hc.
  destruct (connect_txs l h c1) as [[us c2]|] eqn:Hl; [|done]. cbn [mbind option_bind] in Hc.
  injection Hc as <- <-.
  destruct (disconnect_connect_tx txid tx h c u c1 Hi Hh Hht Htx Hu) as (Hi1 & Hh1 & Ht1 & Hd1).
  destruct (IH c1 us Hi1 Hh1 Hht (Hb u c1 eq_refl) Hl) as (Hi2 & Hh2 & Ht2 & Hd2).
  split; [done|]. split; [done|]. split; [by eapply same_tips_trans|].
  intros d Hd Hs. destruct (Hd2 d Hd Hs) as (d1 & Hdis & Hid1 & Hs1 & Hr1).
  destruct (Hd1 d1 Hid1 Hs1) as (d2 & Hdis2 & Hid2 & Hs2 & Hr2).
  cbn [combine rev]. rewrite disconnect_txs_app, Hdis. cbn [disconnect_txs]. rewrite Hdis2.
  cbn [mbind option_bind andb]. exists d2. split; [done|]. split; [done|]. split; [done|]. by eapply same_tips_trans.
Qed.
End UpdateLaws.

(** ** Properties *)

(** Disconnecting a block undoes connecting it.  When the transactions of a
    block were connected (each with a fresh txid, non-negative outputs, unspent
    nullifiers and, for an import, no tombstone yet), disconnecting them in
    reverse order with the recorded undo data succeeds and is clean, on any
    view that shows the state after the block (the cache itself, or a new cache
    after a flush), and restores exactly the coins, anchors and nullifiers from
    before. *)
Theorem disconnect_undoes_connect {Tree V : Type} `{!MerkleTree Tree} `{!CoinsView Tree V}
    `{!CoinsMemory} (tree_of : ShieldedType -> Z -> Tree) `{!CoinsViewReads tree_of V}
    (l : list (Z * CMutableTransaction)) (h : Z) (c : CCoinsViewCache Tree V) undos c' :
  cache_inv tree_of c -> heights_ok (cache_abs tree_of c) -> 0 < h < 2 ^ 31 ->
  block_connectable tree_of l h c -> connect_txs l h c = Some (undos, c') ->
  forall d, cache_inv tree_of d -> cache_abs tree_of d ≡ cache_abs tree_of c' ->
    exists d', disconnect_txs (rev (combine l undos)) h d = Some (true, d') /\
      cache_inv tree_of d' /\ cache_abs tree_of d' ≡ cache_abs tree_of c.
Proof.
  intros Hi Hh Hht Hb Hc d Hd Hs.
  destruct (disconnect_connect_txs tree_of l h c undos c' Hi Hh Hht Hb Hc) as (_ & _ & Ht & Hdis).
  destruct (Hdis d Hd (equiv_coins _ _ Hs)) as (d' & Hd' & Hi' & Hcoins & Htips). exists d'. split_and!; [done|done|].
  apply same_both; [done|]. eapply same_tips_trans; [exact Htips|]. eapply same_tips_trans; [by apply equiv_tips|done].
Qed.

(** Spends the only output of transaction 77 of the example database. *)
Definition tx_spend77 : CMutableTransaction :=
  mkCMutableTransaction false 1 0 [mkCTxIn (mkCOutPoint 77 0) [] (2 ^ 32 - 1)]
    [mkCTxOut 5 [0x51]; mkCTxOut 6 [OP_RETURN]] 0 0 0 [] [] [] 0 zero_sig zero_sig.

#[local] Existing Instance toy_tree.
#[local] Existing Instance toy_memory.

(** A block of a coinbase and that transaction. *)
Definition tx_coinbase8 : CMutableTransaction :=
  mkCMutableTransaction false 1 0 [mkCTxIn (mkCOutPoint 0 (2 ^ 32 - 1)) [0x58; 0] (2 ^ 32 - 1)]
    [mkCTxOut (3 * COIN) [0x51]] 0 0 0 [] [] [] 0 zero_sig zero_sig.
Definition toy_txs : list (Z * CMutableTransaction) := [(98, tx_coinbase8); (99, tx_spend77)].

Lemma toy_txs_connectable :
  heights_ok (cache_abs toy_tree_of (new_cache toy_db)) /\
  block_connectable toy_tree_of toy_txs 8 (new_cache toy_db).
Proof.
  destruct (new_cache_inv toy_tree_of toy_db toy_db_inv) as [_ (Hc & _ & Hn & _)]. split.
  - intros k co. rewrite Hc. simpl. unfold DB_GetCoins. simpl.
    intros [_ <-]%lookup_singleton_Some. split; vm_compute; reflexivity.
  - split; [split_and!; try done; repeat constructor; discriminate|]. intros undo c' E. vm_compute in E. injection E as <- <-.
    split; [|by intros]. split_and!; try done; repeat constructor; discriminate.
Qed.

Lemma disconnect_undoes_connect_witness :
  exists undos c' d', connect_txs toy_txs 8 (new_cache toy_db) = Some (undos, c') /\
    undos = [[]; [mkTxInUndo (mkCTxOut COIN [0x51]) false 3 1]] /\
    disconnect_txs (rev (combine toy_txs undos)) 8 c' = Some (true, d') /\
    cache_abs toy_tree_of d' ≡ cache_abs toy_tree_of (new_cache toy_db).
Proof.
  assert (Hi : cache_inv toy_tree_of (new_cache toy_db)) by (apply new_cache_inv, toy_db_inv).
  destruct toy_txs_connectable as [Hh Hb]. assert (Hht : 0 < 8 < 2 ^ 31) by lia.
  destruct (connect_txs toy_txs 8 (new_cache toy_db)) as [[undos c']|] eqn:Hc;
    [|vm_compute in Hc; discriminate].
  destruct (disconnect_connect_txs toy_tree_of _ _ _ _ _ Hi Hh Hht Hb Hc) as (Hi' & _ & _).
  destruct (disconnect_undoes_connect toy_tree_of _ _ _ _ _ Hi Hh Hht Hb Hc c' Hi')
    as (d' & Hd & _ & Habs); [reflexivity|].
  exists undos, c', d'. split; [reflexivity|].
  split; [vm_compute in Hc; injection Hc as <- _; reflexivity|]. split; [exact Hd | exact Habs].
Defined.

(** The undo record of an input survives the undo file: height, coinbase
    flag and version when the output was the last one of its transaction, and
    the output itself, with an over-long script replaced by [OP_RETURN]. *)
Theorem TxInUndo_roundtrip {point : Type} (parse : bytes -> option point)
    (serialize : point -> bytes) (Henc : Secp256k1Encoding parse serialize) u rest :
  0 <= u_nHeight u < 2 ^ 31 -> 0 <= u_nVersion u < 2 ^ 31 ->
  (u_nHeight u = 0 -> u_nVersion u = 0) ->
  0 <= nValue (u_txout u) <= 2 ^ 60 -> Z.of_nat (length (scriptPubKey (u_txout u))) <= MAX_SCRIPT_SIZE ->
  TxInUndo_Unserialize parse serialize (TxInUndo_Serialize parse u ++ rest) = Some (u, rest).
Proof.
  intros Hh Hv H0 Hval Hlen. unfold TxInUndo_Unserialize, TxInUndo_Serialize. rewrite <- !app_assoc.
  set (cb := b2z (u_fCoinBase u)). assert (Hcb : 0 <= cb <= 1) by (subst cb; destruct (u_fCoinBase u); simpl; lia).
  rewrite u32_id by (unfold is_u32; lia).
  erewrite reader_bind_some by (apply ReadVarInt_Write_conv; [lia|]; intros; apply u32_id; unfold is_u32; lia).
  replace (u_nHeight u * 2 + cb) with (cb + u_nHeight u * 2) by lia.
  rewrite Z.div_add, (Z.div_small cb) by lia. rewrite Z.add_0_l.
  pose proof (Z.land_ones (cb + u_nHeight u * 2) 1 ltac:(lia)) as Ho. change (Z.ones 1) with 1 in Ho.
  rewrite Ho. change (2 ^ 1) with 2. rewrite Z.mod_add, (Z.mod_small cb) by lia.
  assert (Hread : forall k, ((if u_nHeight u >? 0 then ReadVarInt i32 else mret 0) ≫= k)
    ((if u_nHeight u >? 0 then WriteVarInt (u_nVersion u) else []) ++ Serialize_txout parse (u_txout u) ++ rest)
    = (k : Z -> reader CTxInUndo) (u_nVersion u) (Serialize_txout parse (u_txout u) ++ rest)).
  { intros k. rewrite Z.gtb_ltb. destruct (Z.ltb_spec 0 (u_nHeight u)).
    - by erewrite reader_bind_some by (apply ReadVarInt_Write_conv; [lia|]; intros; apply i32_id; unfold is_i32; lia).
    - rewrite H0 by lia. done. }
  rewrite Hread. erewrite reader_bind_some by (apply (Unserialize_txout_Serialize parse serialize);
    [done | unfold MAX_SCRIPT_SIZE in *; lia]).
  destruct (Z.leb_spec (Z.of_nat (length (scriptPubKey (u_txout u)))) MAX_SCRIPT_SIZE); [|lia].
  unfold mret, reader_ret. subst cb. destruct u as [[val scr] cb h v]. cbn. by destruct cb.
Qed.

Lemma TxInUndo_roundtrip_witness :
  TxInUndo_Unserialize toy_parse toy_serialize
    (TxInUndo_Serialize toy_parse (mkTxInUndo (mkCTxOut COIN [0x51]) true 7 4) ++ [3])
  = Some (mkTxInUndo (mkCTxOut COIN [0x51]) true 7 4, [3]).
Proof.
  apply (TxInUndo_roundtrip toy_parse toy_serialize toy_encoding); simpl; unfold COIN, MAX_SCRIPT_SIZE; lia.
Defined.
