(* ===== verification/Interest.v ===== *)
(** * Interest (src/src/squishy_interest.cpp)

    The active-user reward paid on an unspent output, with the unsigned 64-bit
    arithmetic of the source written out. *)
From S2P Require Import Prelude Serialize Transaction.

(** ** Interest *)

Definition LOCKTIME_THRESHOLD : Z := 500000000.
Definition SQUISHY_MAXMEMPOOLTIME : Z := 3600.
Definition SQUISHY_ENDOFERA : Z := 7777777.
Definition nS7HardforkHeight : Z := 3484958.
Definition SQUISHY_INTEREST : Z := 5000000.
Definition minutes_per_year : Z := 365 * 24 * 60.

(** Minutes between two 32-bit times, [(tiptime - nLockTime) / 60] as int32_t. *)
Definition elapsed_minutes (nLockTime tiptime : Z) : Z := i32 (u32 (tiptime - nLockTime) / 60).

Definition _squishy_interestnew (txheight nValue nLockTime tiptime : Z) : Z :=
  let minutes := elapsed_minutes nLockTime tiptime in
  if (nLockTime >=? LOCKTIME_THRESHOLD) && (tiptime >? nLockTime)
     && (minutes >=? SQUISHY_MAXMEMPOOLTIME / 60)
  then
    let minutes := if minutes >? 365 * 24 * 60 then 365 * 24 * 60 else minutes in
    let minutes := if (txheight >=? 1000000) && (minutes >? 31 * 24 * 60)
                   then 31 * 24 * 60 else minutes in
    let minutes := i32 (minutes - (SQUISHY_MAXMEMPOOLTIME / 60 - 1)) in
    let res := u64 (nValue / 10512000 * u64 minutes) in
    if txheight >=? nS7HardforkHeight then res / 500 else res
  else 0.

Definition squishy_interestnew (txheight nValue nLockTime tiptime : Z) : Z :=
  if (txheight <? SQUISHY_ENDOFERA) && (nLockTime >=? LOCKTIME_THRESHOLD)
     && negb (tiptime =? 0) && (nLockTime <? tiptime) && (nValue >=? 10 * COIN)
  then _squishy_interestnew txheight nValue nLockTime tiptime
  else 0.

(** The height and value pairs paid with the old formula. *)
Definition interest_exceptions : list (Z * Z) :=
  [(116607, 2502721100000); (126891, 2879650000000); (129510, 3000000000000);
   (141549, 3500000000000); (154473, 3983399350000); (154736, 3983406748175);
   (155013, 3983414006565); (155492, 3983427592291); (155613, 9997409999999797);
   (157927, 9997410667451072); (155613, 2590000000000); (155949, 4000000000000)].

Definition interest_exception (txheight nValue : Z) : bool :=
  (txheight <=? 155949)
  && existsb (fun '(h, v) => (txheight =? h) && (nValue =? v)) interest_exceptions.

Section InterestEra.
(** The values the nested branches share: [minutes] after the caps and
    [denominator] computed from it. *)
Variables (txheight nValue nLockTime tiptime minutes denominator : Z).

(** Outputs above 25000 coins. *)
Definition interest_large : Z :=
  if negb (interest_exception txheight nValue) then
    let numerator := nValue / 20 in
    if txheight <? 250000 then numerator / denominator
    else if txheight <? 1000000
    then u64 (numerator * u64 minutes) / minutes_per_year
    else _squishy_interestnew txheight nValue nLockTime tiptime
  else if txheight <? 1000000 then
    let numerator := u64 (nValue * SQUISHY_INTEREST) in
    (numerator / denominator) / COIN
  else _squishy_interestnew txheight nValue nLockTime tiptime.

(** Outputs of at most 25000 coins; [1491350400] is the activation time. *)
Definition interest_small : Z :=
  let numerator := u64 (nValue * SQUISHY_INTEREST) in
  if (txheight <? 250000) || (tiptime <? 1491350400) then
    if (txheight <? 250000) || (u64 (numerator * u64 minutes) <? 365 * 24 * 60)
    then (numerator / denominator) / COIN
    else (u64 (numerator * u64 minutes) / minutes_per_year) / COIN
  else if txheight <? 1000000 then
    let numerator := nValue / 20 in
    u64 (numerator * u64 minutes) / minutes_per_year
  else _squishy_interestnew txheight nValue nLockTime tiptime.
End InterestEra.

Definition squishy_interest (isKMD : bool) (txheight nValue nLockTime tiptime : Z) : Z :=
  if negb isKMD then 0
  else if txheight >=? SQUISHY_ENDOFERA then 0
  else if (nLockTime >=? LOCKTIME_THRESHOLD) && negb (tiptime =? 0)
          && (nLockTime <? tiptime) && (nValue >=? 10 * COIN)
  then
    let minutes := elapsed_minutes nLockTime tiptime in
    if minutes >=? 60 then
      let minutes := if minutes >? 365 * 24 * 60 then 365 * 24 * 60 else minutes in
      let minutes := if txheight >=? 250000 then i32 (minutes - 59) else minutes in
      let denominator := minutes_per_year / u64 minutes in
      let denominator := if denominator =? 0 then 1 else denominator in
      if nValue >? 25000 * COIN
      then interest_large txheight nValue nLockTime tiptime minutes denominator
      else interest_small txheight nValue nLockTime tiptime minutes denominator
    else 0
  else 0.

(** ** Interest of a transaction output *)

(** What the interest code reads of the node: transaction lookup (the
    transaction and the hash of its block), the block index (height and time of
    a block) and the active chain's block times by height. *)
Record chain_index := mkChainIndex {
  GetTransaction : Z -> option (CMutableTransaction * Z);
  squishy_getblockindex : Z -> option (Z * Z);
  chainActive : list Z
}.

Definition chainActive_at (ci : chain_index) (h : Z) : option Z :=
  if (h <? 0) || (h >=? Z.of_nat (length (chainActive ci))) then None
  else chainActive ci !! Z.to_nat h.

Definition chainActive_Tip (ci : chain_index) : option Z := list.last (chainActive ci).

(** The outputs through pointers and the returned lock time. *)
Record interest_args := mkInterestArgs {
  ia_txheighttime : Z; ia_txheight : Z; ia_tiptime : Z; ia_value : Z; ia_locktime : Z
}.

(** [tiptime] is the value the caller passes in [*tiptimep]. *)
Definition squishy_interest_args (ci : chain_index) (tiptime hash n : Z) : interest_args :=
  let tiptime := 0 in
  match GetTransaction ci hash with
  | None => mkInterestArgs 0 0 tiptime 0 0
  | Some (tx, hashBlock) =>
    if u64 n <? Z.of_nat (length (vout tx)) then
      match squishy_getblockindex ci hashBlock, vout tx !! Z.to_nat n with
      | Some (nHeight, nTime), Some o =>
        let tiptime := if tiptime =? 0 then
                         match chainActive_Tip ci with Some t => t | None => tiptime end
                       else tiptime in
        mkInterestArgs nTime nHeight tiptime (u64 (nValue o)) (nLockTime tx)
      | _, _ => mkInterestArgs 0 0 tiptime 0 0
      end
    else mkInterestArgs 0 0 tiptime 0 0
  end.

(** Returns the interest, [*txheightp] and [*locktimep]. *)
Definition squishy_accrued_interest (isKMD : bool) (ci : chain_index)
    (hash n checkheight checkvalue tipheight : Z) : Z * Z * Z :=
  let tiptime := match chainActive_at ci tipheight with Some t => t | None => 0 end in
  let a := squishy_interest_args ci tiptime hash n in
  let interest :=
    if negb (ia_locktime a =? 0) then
      if ((checkvalue =? 0) || (ia_value a =? checkvalue))
         && ((checkheight =? 0) || (ia_txheight a =? checkheight))
      then squishy_interest isKMD (ia_txheight a) (ia_value a) (ia_locktime a) (ia_tiptime a)
      else 0
    else 0 in
  (interest, ia_txheight a, ia_locktime a).

(** ** Facts about the interest formulas *)

Section InterestFacts.
Variables (txheight nValue nLockTime tiptime : Z).
Hypothesis Hvalue : is_u64 nValue.
Hypothesis Hlock : is_u32 nLockTime.
Hypothesis Htip : is_u32 tiptime.

Lemma elapsed_minutes_eq :
  nLockTime <= tiptime -> elapsed_minutes nLockTime tiptime = (tiptime - nLockTime) / 60.
Proof using Hlock Htip.
  intros Hle. unfold elapsed_minutes, is_u32 in *.
  rewrite u32_id by (unfold is_u32; lia). apply i32_id. unfold is_i32. zlia.
Qed.

(** The minutes a spend is paid for: at most a year (31 days from height
    1000000), less the first 59. *)
Definition rewarded_minutes : Z :=
  Z.min (if txheight >=? 1000000 then 31 * 24 * 60 else minutes_per_year)
        ((tiptime - nLockTime) / 60) - 59.

Definition interestnew_ideal : Z :=
  let r := nValue / 10512000 * rewarded_minutes in
  if txheight >=? nS7HardforkHeight then r / 500 else r.

Lemma interestnew_eq :
  LOCKTIME_THRESHOLD <= nLockTime -> nLockTime + 3600 <= tiptime ->
  _squishy_interestnew txheight nValue nLockTime tiptime = interestnew_ideal.
Proof using Hvalue Hlock Htip.
  intros H1 H2. unfold _squishy_interestnew, interestnew_ideal, rewarded_minutes.
  rewrite elapsed_minutes_eq by lia.
  assert (60 <= (tiptime - nLockTime) / 60) by zlia.
  unfold SQUISHY_MAXMEMPOOLTIME, minutes_per_year. change (3600 / 60) with 60.
  rewrite !Z.geb_leb, !Z.gtb_ltb.
  rewrite !(proj2 (Z.leb_le _ _)), (proj2 (Z.ltb_lt _ _)) by lia. cbn [andb].
  set (m := (tiptime - nLockTime) / 60) in *.
  assert (Hm : forall c, 60 <= c <= 525600 ->
    u64 (nValue / 10512000 * u64 (i32 (c - (60 - 1)))) = nValue / 10512000 * (c - 59)).
  { intros c Hc. unfold is_u64 in Hvalue.
    rewrite (i32_id (c - (60 - 1))) by (unfold is_i32; lia).
    rewrite (u64_id (c - (60 - 1))) by (unfold is_u64; lia).
    assert (0 <= nValue / 10512000 <= 2 ^ 64 / 10512000) by zlia.
    rewrite u64_id; [f_equal; lia|]. unfold is_u64. change (2 ^ 64 / 10512000) with 1754827252065 in *. nia. }
  replace (if 1000000 <=? txheight then 31 * 24 * 60 else 365 * 24 * 60)
    with (Z.min 525600 (if 1000000 <=? txheight then 31 * 24 * 60 else 525600))
    by (destruct (1000000 <=? txheight); reflexivity).
  rewrite Hm; [|repeat (case_bool; cbn [andb]); lia].
  replace (if (1000000 <=? txheight) && _ then _ else _)
    with (Z.min (Z.min 525600 (if 1000000 <=? txheight then 31 * 24 * 60 else 525600)) m);
    [done|].
  repeat (case_bool; cbn [andb]); lia.
Qed.

Lemma interestnew_zero :
  nLockTime < LOCKTIME_THRESHOLD \/ tiptime < nLockTime + 3600 ->
  _squishy_interestnew txheight nValue nLockTime tiptime = 0.
Proof using Hlock Htip.
  intros H. unfold _squishy_interestnew. change (SQUISHY_MAXMEMPOOLTIME / 60) with 60.
  destruct (Z.le_gt_cases tiptime nLockTime).
  { rewrite (Z.gtb_ltb tiptime), (proj2 (Z.ltb_ge _ _)), andb_false_r by lia. done. }
  rewrite elapsed_minutes_eq by lia. rewrite !Z.geb_leb.
  destruct H; [rewrite (proj2 (Z.leb_gt _ nLockTime)) by lia; done|].
  rewrite (proj2 (Z.leb_gt 60 _)) by zlia. by rewrite andb_false_r.
Qed.

Lemma rewarded_minutes_range :
  nLockTime + 3600 <= tiptime -> 1 <= rewarded_minutes <= 525541.
Proof using Type.
  intros H. unfold rewarded_minutes, minutes_per_year.
  assert (60 <= (tiptime - nLockTime) / 60) by zlia. destruct (_ >=? _); lia.
Qed.

Lemma interestnew_bound :
  0 <= _squishy_interestnew txheight nValue nLockTime tiptime <= nValue / 20.
Proof using Hvalue Hlock Htip.
  unfold is_u64 in *.
  destruct (decide (LOCKTIME_THRESHOLD <= nLockTime /\ nLockTime + 3600 <= tiptime)) as [[]|].
  - rewrite interestnew_eq by done. unfold interestnew_ideal.
    pose proof (rewarded_minutes_range ltac:(done)).
    assert (0 <= nValue / 10512000 * rewarded_minutes <= nValue / 20) as Hr.
    { split; [apply Z.mul_nonneg_nonneg; zlia|].
      apply Z.div_le_lower_bound; [lia|].
      pose proof (Z.mul_div_le nValue 10512000). nia. }
    destruct (_ >=? _); [|done].
    split; [apply Z.div_pos; lia|]. apply Z.div_le_upper_bound; lia.
  - rewrite interestnew_zero by lia. split; zlia.
Qed.
End InterestFacts.

(** The old formulas never pay more than 5% either: products that wrap only
    become smaller. *)
Lemma u64_le z : 0 <= z -> 0 <= u64 z <= z.
Proof. intros. unfold u64. split; [zlia|]. apply Z.mod_le; lia. Qed.

Lemma div_le_self a b : 0 <= a -> 1 <= b -> 0 <= a / b <= a.
Proof. intros. split; [apply Z.div_pos; lia|]. apply Z.div_le_upper_bound; nia. Qed.

Section OldFormulas.
Variables (nValue minutes denominator : Z).
Hypothesis Hvalue : is_u64 nValue.
Hypothesis Hminutes : 1 <= minutes <= 525600.
Hypothesis Hden : 1 <= denominator.

Lemma pro_rata_bound :
  0 <= u64 (nValue / 20 * u64 minutes) / minutes_per_year <= nValue / 20.
Proof using Hvalue Hminutes.
  unfold is_u64, minutes_per_year in *. rewrite (u64_id minutes) by (unfold is_u64; lia).
  assert (0 <= nValue / 20) by zlia.
  pose proof (u64_le (nValue / 20 * minutes) ltac:(nia)).
  split; [apply Z.div_pos; lia|]. apply Z.div_le_upper_bound; nia.
Qed.

Lemma annual_bound :
  0 <= u64 (nValue * SQUISHY_INTEREST) / denominator / COIN <= nValue / 20.
Proof using Hvalue Hden.
  unfold is_u64, SQUISHY_INTEREST, COIN in *.
  pose proof (u64_le (nValue * 5000000) ltac:(lia)).
  pose proof (div_le_self (u64 (nValue * 5000000)) denominator ltac:(lia) Hden).
  split; [apply Z.div_pos; lia|].
  apply Z.div_le_lower_bound; [lia|].
  pose proof (Z.mul_div_le (u64 (nValue * 5000000) / denominator) 100000000). lia.
Qed.

Lemma pre_activation_bound :
  0 <= u64 (u64 (nValue * SQUISHY_INTEREST) * u64 minutes) / minutes_per_year / COIN <= nValue / 20.
Proof using Hvalue Hminutes.
  unfold is_u64, SQUISHY_INTEREST, COIN, minutes_per_year in *.
  rewrite (u64_id minutes) by (unfold is_u64; lia).
  pose proof (u64_le (nValue * 5000000) ltac:(lia)).
  pose proof (u64_le (u64 (nValue * 5000000) * minutes) ltac:(nia)).
  set (w := u64 (u64 (nValue * 5000000) * minutes)) in *.
  split; [repeat apply Z.div_pos; lia|].
  rewrite Z.div_div by lia. apply Z.div_le_lower_bound; [lia|].
  pose proof (Z.mul_div_le w (365 * 24 * 60 * 100000000)). nia.
Qed.
End OldFormulas.

(** The values the branches of [squishy_interest] work with. *)
Definition era_minutes (txheight nLockTime tiptime : Z) : Z :=
  let m := Z.min minutes_per_year ((tiptime - nLockTime) / 60) in
  if txheight >=? 250000 then m - 59 else m.

Definition interest_due (txheight nValue nLockTime tiptime : Z) : Prop :=
  txheight < SQUISHY_ENDOFERA /\ LOCKTIME_THRESHOLD <= nLockTime /\
  nLockTime + 3600 <= tiptime /\ 10 * COIN <= nValue.

Section Branches.
Variables (txheight nValue nLockTime tiptime : Z).
Hypothesis Hvalue : is_u64 nValue.
Hypothesis Hlock : is_u32 nLockTime.
Hypothesis Htip : is_u32 tiptime.

Lemma era_minutes_range :
  nLockTime + 3600 <= tiptime -> 1 <= era_minutes txheight nLockTime tiptime <= 525600.
Proof using Type.
  intros H. unfold era_minutes, minutes_per_year.
  assert (60 <= (tiptime - nLockTime) / 60) by zlia. destruct (_ >=? _); lia.
Qed.

(** The computation when interest is due; the divisor is never 0. *)
Lemma squishy_interest_due :
  interest_due txheight nValue nLockTime tiptime ->
  let m := era_minutes txheight nLockTime tiptime in
  squishy_interest true txheight nValue nLockTime tiptime =
    (if nValue >? 25000 * COIN then interest_large else interest_small)
      txheight nValue nLockTime tiptime m (minutes_per_year / m) /\
  1 <= minutes_per_year / m.
Proof using Hvalue Hlock Htip.
  intros (Hh & HL & HT & HV). pose proof (era_minutes_range HT) as Hm.
  assert (Hd : 1 <= minutes_per_year / era_minutes txheight nLockTime tiptime).
  { apply Z.div_le_lower_bound; [lia|]. unfold minutes_per_year. lia. }
  split; [|done]. unfold squishy_interest. cbn [negb].
  rewrite (elapsed_minutes_eq nLockTime tiptime) by (done || lia).
  assert (60 <= (tiptime - nLockTime) / 60) by zlia.
  unfold COIN, LOCKTIME_THRESHOLD, SQUISHY_ENDOFERA in *.
  rewrite !Z.geb_leb, !Z.gtb_ltb.
  rewrite (proj2 (Z.leb_gt 7777777 txheight)), (proj2 (Z.leb_le 500000000 _)),
    (proj2 (Z.eqb_neq tiptime 0)), (proj2 (Z.ltb_lt nLockTime tiptime)),
    (proj2 (Z.leb_le (10 * _) _)), (proj2 (Z.leb_le 60 _)) by lia.
  cbn [andb negb].
  replace (if 250000 <=? txheight then _ else _) with (era_minutes txheight nLockTime tiptime).
  2:{ unfold era_minutes, minutes_per_year. rewrite Z.geb_leb.
      repeat case_bool; try rewrite i32_id; unfold is_i32; try lia. }
  rewrite (u64_id (era_minutes _ _ _)) by (unfold is_u64; lia).
  rewrite (proj2 (Z.eqb_neq (minutes_per_year / _) 0)) by lia.
  by destruct (_ <? _).
Qed.

Lemma squishy_interest_not_due isKMD :
  isKMD = false \/ ~ interest_due txheight nValue nLockTime tiptime ->
  squishy_interest isKMD txheight nValue nLockTime tiptime = 0.
Proof using Hvalue Hlock Htip.
  intros [-> | H]; [done|]. unfold squishy_interest. destruct isKMD; [|done]. cbn [negb].
  unfold interest_due in H. rewrite !Z.geb_leb.
  destruct (Z.leb_spec SQUISHY_ENDOFERA txheight); [done|].
  destruct (Z.leb_spec LOCKTIME_THRESHOLD nLockTime); [|done]. cbn [andb].
  destruct (Z.eqb_spec tiptime 0); [done|]. cbn [andb negb].
  destruct (Z.ltb_spec nLockTime tiptime); [|done]. cbn [andb].
  destruct (Z.leb_spec (10 * COIN) nValue); [|done]. cbn [andb].
  rewrite (elapsed_minutes_eq nLockTime tiptime) by (done || lia).
  rewrite (proj2 (Z.leb_gt 60 _)); [done|]. zlia.
Qed.
End Branches.

(** Interest is due or it is not. *)
Lemma interest_due_cases (isKMD : bool) txheight nValue nLockTime tiptime :
  isKMD = true /\ interest_due txheight nValue nLockTime tiptime \/
  (isKMD = false \/ ~ interest_due txheight nValue nLockTime tiptime).
Proof. unfold interest_due; destruct isKMD; intuition lia. Qed.

Lemma interest_bound_all (isKMD : bool) (txheight nValue nLockTime tiptime : Z) :
  is_u64 nValue -> is_u32 nLockTime -> is_u32 tiptime ->
  0 <= squishy_interest isKMD txheight nValue nLockTime tiptime <= nValue / 20.
Proof.
  intros Hvalue Hlock Htip.
  destruct (interest_due_cases isKMD txheight nValue nLockTime tiptime) as [[-> Hdue] | Hno].
  - destruct (squishy_interest_due _ _ _ _ Hvalue Hlock Htip Hdue) as [-> Hd].
    pose proof (era_minutes_range txheight nLockTime tiptime) as Hm.
    specialize (Hm ltac:(apply Hdue)).
    set (m := era_minutes _ _ _) in *. set (d := minutes_per_year / m) in *.
    pose proof (interestnew_bound txheight nValue nLockTime tiptime Hvalue Hlock Htip).
    pose proof (pro_rata_bound nValue m Hvalue Hm).
    pose proof (annual_bound nValue d Hvalue Hd).
    pose proof (pre_activation_bound nValue m Hvalue Hm).
    assert (0 <= nValue / 20) by (unfold is_u64 in *; zlia).
    pose proof (div_le_self (nValue / 20) d ltac:(done) Hd).
    unfold interest_large, interest_small.
    destruct (_ >? _); repeat case_match; done.
  - rewrite squishy_interest_not_due by done. split; [done|unfold is_u64 in *; zlia].
Qed.

(** Interest never exceeds a twentieth (5%) of the output's value, for all
    machine inputs and every era's formula, the ones whose unsigned products
    wrap included; and it is paid only on the main chain, before the end of
    the era, for outputs of at least 10 coins whose lock time is a time at
    least an hour before the tip. *)
Theorem interest_at_most_five_percent (isKMD : bool) (txheight nValue nLockTime tiptime : Z)
    (Hvalue : is_u64 nValue) (Hlock : is_u32 nLockTime) (Htip : is_u32 tiptime) :
  let interest := squishy_interest isKMD txheight nValue nLockTime tiptime in
  0 <= interest <= nValue / 20 /\
  (interest <> 0 -> isKMD = true /\ interest_due txheight nValue nLockTime tiptime).
Proof.
  intros interest. split; [by apply interest_bound_all|].
  destruct (interest_due_cases isKMD txheight nValue nLockTime tiptime) as [Hdue | Hno]; [done|].
  subst interest. by rewrite squishy_interest_not_due.
Qed.

Lemma interest_at_most_five_percent_witness :
  squishy_interest true 2000000 (1000 * COIN) 1600000000 1602678400 = 424054472 /\
  0 <= squishy_interest true 2000000 (1000 * COIN) 1600000000 1602678400 <= 1000 * COIN / 20.
Proof.
  split; [vm_compute; reflexivity|].
  refine (proj1 (interest_at_most_five_percent true 2000000 (1000 * COIN) 1600000000 1602678400 _ _ _));
    unfold is_u64, is_u32, COIN; lia.
Defined.

(** From height 1000000 and the activation time on, the interest is exactly
    the floor of the value by 10512000 (5% a year, by the minute) for each
    rewarded minute, at most 31 days of them less the first 59, and the 500th
    part of that from the season 7 height; before it, it falls short of the
    exact pro rata amount by less than one unit per rewarded minute; and a
    later tip never pays less. *)
Theorem interest_by_the_minute (txheight nValue nLockTime tiptime : Z)
    (Hvalue : is_u64 nValue) (Hlock : is_u32 nLockTime) (Htip : is_u32 tiptime)
    (Hh : 1000000 <= txheight) (Hact : 1491350400 <= tiptime)
    (Hdue : interest_due txheight nValue nLockTime tiptime) :
  let interest := squishy_interest true txheight nValue nLockTime in
  let m := Z.min 44640 ((tiptime - nLockTime) / 60) - 59 in
  interest tiptime =
    (if txheight >=? nS7HardforkHeight then nValue / 10512000 * m / 500
     else nValue / 10512000 * m) /\
  (txheight < nS7HardforkHeight ->
   interest tiptime * 10512000 <= nValue * m < (interest tiptime + m) * 10512000) /\
  (forall later, is_u32 later -> tiptime <= later -> interest tiptime <= interest later).
Proof.
  intros interest m.
  assert (Hm : 1 <= m).
  { assert (60 <= (tiptime - nLockTime) / 60) by (destruct Hdue as (?&?&?&?); zlia). lia. }
  assert (Heq : forall t, is_u32 t -> tiptime <= t ->
    interest t = interestnew_ideal txheight nValue nLockTime t).
  { intros t Ht Hle. destruct Hdue as (? & ? & ? & ?).
    assert (Hd : interest_due txheight nValue nLockTime t) by (unfold interest_due; lia).
    subst interest. cbv beta.
    destruct (squishy_interest_due _ _ _ _ Hvalue Hlock Ht Hd) as [-> _].
    rewrite <- (interestnew_eq txheight nValue nLockTime t) by (done || lia).
    unfold interest_large, interest_small.
    destruct (_ >? _); rewrite !(proj2 (Z.ltb_ge txheight _)) by lia; cbn [orb];
      [by destruct (negb _)|].
    by rewrite (proj2 (Z.ltb_ge t _)) by lia. }
  rewrite (Heq tiptime) by (done || lia).
  assert (Hr : forall t, rewarded_minutes txheight nLockTime t =
                         Z.min 44640 ((t - nLockTime) / 60) - 59).
  { intros t. unfold rewarded_minutes. by rewrite Z.geb_leb, (proj2 (Z.leb_le _ _)) by lia. }
  assert (Hq : 0 <= nValue / 10512000) by (unfold is_u64 in *; zlia).
  unfold interestnew_ideal. rewrite Hr. fold m. split; [done|split].
  - intros Hlt. rewrite Z.geb_leb, (proj2 (Z.leb_gt _ _)) by lia.
    pose proof (Z.div_mod nValue 10512000 ltac:(lia)).
    pose proof (Z.mod_pos_bound nValue 10512000 ltac:(lia)). nia.
  - intros later Hl Hle. rewrite Heq by done. unfold interestnew_ideal. rewrite Hr.
    assert (m <= Z.min 44640 ((later - nLockTime) / 60) - 59).
    { assert ((tiptime - nLockTime) / 60 <= (later - nLockTime) / 60)
        by (apply Z.div_le_mono; lia). lia. }
    destruct (_ >=? _); [apply Z.div_le_mono; [lia|]|]; nia.
Qed.

Lemma interest_by_the_minute_witness :
  squishy_interest true 4000000 (1000 * COIN) 1600000000 1602678400 = 9512 * 44581 / 500 /\
  squishy_interest true 2000000 (1000 * COIN) 1600000000 1602678400 * 10512000
    <= 1000 * COIN * 44581.
Proof.
  split.
  - destruct (interest_by_the_minute 4000000 (1000 * COIN) 1600000000 1602678400) as (He & _ & _);
      [unfold is_u64, COIN; lia|unfold is_u32; lia..|lia|lia| |exact He].
    unfold interest_due, COIN, SQUISHY_ENDOFERA, LOCKTIME_THRESHOLD; lia.
  - destruct (interest_by_the_minute 2000000 (1000 * COIN) 1600000000 1602678400) as (_ & Hr & _);
      [unfold is_u64, COIN; lia|unfold is_u32; lia..|lia|lia| |].
    { unfold interest_due, COIN, SQUISHY_ENDOFERA, LOCKTIME_THRESHOLD; lia. }
    apply Hr. unfold nS7HardforkHeight. lia.
Defined.

(** Between height 250000 and the activation time the product
    [nValue * 5000000 * minutes] wraps around 2^64, so that whatever the value
    (10 to 25000 coins) and the time held, at most 350966 units (0.0035 coins)
    are paid, unless the wrapped product happens to be below 525600. *)
Theorem interest_overflow_before_activation (txheight nValue nLockTime tiptime : Z)
    (Hvalue : nValue <= 25000 * COIN) (Hlock : is_u32 nLockTime) (Htip : 0 <= tiptime < 1491350400)
    (Hh : 250000 <= txheight) (Hdue : interest_due txheight nValue nLockTime tiptime) :
  squishy_interest true txheight nValue nLockTime tiptime <= 350966 \/
  u64 (nValue * SQUISHY_INTEREST * era_minutes txheight nLockTime tiptime) < 525600.
Proof.
  assert (HV : is_u64 nValue)
    by (destruct Hdue as (_ & _ & _ & ?); unfold is_u64, COIN in *; lia).
  assert (HT : is_u32 tiptime) by (unfold is_u32; lia).
  destruct (squishy_interest_due _ _ _ _ HV Hlock HT Hdue) as [-> _].
  rewrite Z.gtb_ltb, (proj2 (Z.ltb_ge _ _)) by lia.
  pose proof (era_minutes_range txheight nLockTime tiptime ltac:(apply Hdue)).
  set (m := era_minutes _ _ _) in *. unfold interest_small.
  rewrite (u64_id m), (proj2 (Z.ltb_ge txheight _)), (proj2 (Z.ltb_lt tiptime _))
    by (unfold is_u64; lia). cbn [orb].
  rewrite (u64_id (nValue * _)) by (unfold is_u64, COIN, SQUISHY_INTEREST in *; lia).
  destruct (Z.ltb_spec (u64 (nValue * SQUISHY_INTEREST * m)) (365 * 24 * 60)); [by right|left].
  pose proof (u64_range (nValue * SQUISHY_INTEREST * m)) as Hr. unfold is_u64 in Hr.
  unfold minutes_per_year, COIN. rewrite Z.div_div by lia.
  apply Z.lt_succ_r, Z.div_lt_upper_bound; lia.
Qed.

Lemma interest_overflow_before_activation_witness :
  squishy_interest true 250001 (1000 * COIN) 1460000000 1490000000 <= 350966.
Proof.
  destruct (interest_overflow_before_activation 250001 (1000 * COIN) 1460000000 1490000000)
    as [H | H]; [unfold COIN; lia|unfold is_u32; lia|lia|lia| |exact H|].
  - unfold interest_due, COIN, SQUISHY_ENDOFERA, LOCKTIME_THRESHOLD; lia.
  - vm_compute in H. discriminate H.
Defined.

(** The interest of an output that is found is evaluated at the time of the
    chain's tip, whatever the height [tipheight] the caller asks for and the
    time of the block there: [squishy_interest_args] clears the time it is
    given and reads the tip's. *)
Theorem accrued_interest_at_tip isKMD ci hash (n : nat) tipheight tx hb o h time t
    (Htx : GetTransaction ci hash = Some (tx, hb)) (Ho : vout tx !! n = Some o)
    (Hsize : Z.of_nat (length (vout tx)) < 2 ^ 31)
    (Hb : squishy_getblockindex ci hb = Some (h, time)) (Ht : chainActive_Tip ci = Some t)
    (Hl : nLockTime tx <> 0) :
  squishy_accrued_interest isKMD ci hash (Z.of_nat n) 0 0 tipheight =
    (squishy_interest isKMD h (u64 (nValue o)) (nLockTime tx) t, h, nLockTime tx).
Proof.
  pose proof (lookup_lt_Some _ _ _ Ho) as Hn.
  unfold squishy_accrued_interest, squishy_interest_args.
  rewrite Htx, Hb, Ht, Nat2Z.id, Ho, (u64_id (Z.of_nat n)) by (unfold is_u64; lia).
  rewrite (proj2 (Z.ltb_lt _ _)) by lia. cbn.
  by rewrite (proj2 (Z.eqb_neq _ _)) by done.
Qed.

Lemma accrued_interest_at_tip_witness :
  let tx := {| fOverwintered := false; nVersion := 1; nVersionGroupId := 0; vin := [];
               vout := [{| nValue := 1000 * COIN; scriptPubKey := [0x51] |}];
               nLockTime := 1600000000; nExpiryHeight := 0; valueBalance := 0;
               vShieldedSpend := []; vShieldedOutput := []; vjoinsplit := [];
               joinSplitPubKey := 0; joinSplitSig := replicate 64 0;
               bindingSig := replicate 64 0 |} in
  let ci := {| GetTransaction _ := Some (tx, 7); squishy_getblockindex _ := Some (2000000, 0);
               chainActive := [1600000000; 1602678400] |} in
  squishy_accrued_interest true ci 1 0 0 0 0 = (424054472, 2000000, 1600000000).
Proof.
  intros tx ci.
  pose proof (accrued_interest_at_tip true ci 1 0 0 tx 7
             {| nValue := 1000 * COIN; scriptPubKey := [0x51] |} 2000000 0 1602678400
             eq_refl eq_refl eq_refl eq_refl eq_refl ltac:(discriminate)) as H.
  change (Z.of_nat 0) with 0 in H. rewrite H. vm_compute. reflexivity.
Defined.
