(* ===== verification/Subsidy.v ===== *)
(** * Block subsidy (src/src/main.cpp, src/src/squishy_utils.cpp)

    The subsidy of the main chain and of the asset chains, whose reward eras
    are configured by arrays: halving, linear decay between eras, and
    exponential decay computed by a loop with a one-entry static cache.
    [None] stands for undefined behaviour of the source: a shift by 64 or more
    and a signed product or difference outside 64 bits. *)
From S2P Require Import Prelude Serialize Transaction Interest.

(** The ASSETCHAINS_* globals. *)
Record assetchain := mkAssetchain {
  ENDSUBSIDY : list Z; REWARD : list Z; HALVING : list Z; DECAY : list Z;
  LASTERA : Z; SUPPLY : Z; MAGIC : Z; STAKED : Z
}.

(** The static locals of [squishy_ac_block_subsidy]. *)
Record subsidy_cache := mkSubsidyCache {
  cached_subsidy : Z; cached_numhalvings : Z; cached_era : Z
}.
Definition subsidy_cache_init : subsidy_cache := mkSubsidyCache 0 0 0.

Definition ASSETCHAINS_MAX_ERAS : Z := 7.
Definition SATOSHIDEN : Z := 100000000.

Definition era (arr : list Z) (i : Z) : Z := nth (Z.to_nat i) arr 0.

(** The result of a signed 64-bit operation, when it is defined. *)
Definition signed64 (z : Z) : option Z :=
  if (- 2 ^ 63 <=? z) && (z <? 2 ^ 63) then Some z else None.

Section AssetChain.
Variable ac : assetchain.

(** [for (curEra = 0; curEra <= LASTERA; curEra++)], [k] iterations left. *)
Fixpoint find_era (k : nat) (nHeight curEra : Z) : Z :=
  match k with
  | O => curEra
  | S k =>
    if (era (ENDSUBSIDY ac) curEra >? u64 nHeight) || (era (ENDSUBSIDY ac) curEra =? 0)
    then curEra else find_era k nHeight (curEra + 1)
  end.

(** [for (i = 0; i < numhalvings && subsidy != 0; i++)] *)
Fixpoint decay_loop (i : nat) (decay subsidy : Z) : Z :=
  match i with
  | O => subsidy
  | S i => if subsidy =? 0 then subsidy
           else decay_loop i decay (i64 (u64 (u64 subsidy * decay) / 100000000))
  end.

Definition decayed (curEra numhalvings : Z) : Z :=
  decay_loop (Z.to_nat numhalvings) (era (DECAY ac) curEra) (i64 (era (REWARD ac) curEra)).

(** DECAY 100000000 with an end height: linear towards the next era's reward. *)
Definition linear_subsidy (nHeight curEra nStart subsidy : Z) : option Z :=
  let diff := i64 (u64 (subsidy - era (REWARD ac) (curEra + 1))) in
  '(sign, subsidyDifference) ←
    (if curEra =? LASTERA ac then Some (1, subsidy)
     else if diff <? 0 then d ← signed64 (diff * -1); Some (-1, d)
     else Some (1, diff));
  let endH := era (ENDSUBSIDY ac) curEra in
  let denominator := i64 (u64 (endH - nStart)) in
  let numerator := i64 (u64 (denominator -
    (u64 (endH - nHeight) + u64 (nHeight - nStart) mod era (HALVING ac) curEra))) in
  product ← signed64 (subsidyDifference * numerator);
  if denominator =? 0 then None else
  signed64 (subsidy - sign * (product ÷ denominator)).

(** The reward of era [curEra] at [nHeight]. *)
Definition era_subsidy (c : subsidy_cache) (nHeight curEra : Z) : option (Z * subsidy_cache) :=
  let nStart := if curEra =? 0 then 0 else i64 (era (ENDSUBSIDY ac) (curEra - 1)) in
  let subsidy := i64 (era (REWARD ac) curEra) in
  let numhalvings := i32 (u64 (nHeight - nStart) / era (HALVING ac) curEra) in
  if (negb (subsidy =? 0)
      || (negb (curEra =? LASTERA ac) && negb (era (REWARD ac) (curEra + 1) =? 0)))
     && negb (era (HALVING ac) curEra =? 0) && (numhalvings >? 0)
  then
    if era (DECAY ac) curEra =? 0 then
      if numhalvings <? 64 then Some (Z.shiftr subsidy numhalvings, c) else None
    else if (era (DECAY ac) curEra =? 100000000) && negb (era (ENDSUBSIDY ac) curEra =? 0)
    then s ← linear_subsidy nHeight curEra nStart subsidy; Some (s, c)
    else if (cached_subsidy c >? 0) && (cached_era c =? curEra)
            && (cached_numhalvings c =? numhalvings)
    then Some (i64 (cached_subsidy c), c)
    else
      let s := decayed curEra numhalvings in
      Some (s, mkSubsidyCache (u64 s) numhalvings curEra)
  else Some (subsidy, c).

Definition supply_extra (staked2 : bool) (nHeight subsidy : Z) : Z :=
  let magicExtra := if negb (STAKED ac =? 0) then MAGIC ac else Z.land (MAGIC ac) 0xffffff in
  if SUPPLY ac >? 10000000000 then
    if u64 nHeight <=? SUPPLY ac / 1000000000 then
      let subsidy := i64 (u64 (subsidy + 1000000000 * COIN)) in
      if nHeight =? 1
      then i64 (u64 (subsidy + u64 (SUPPLY ac mod 1000000000 * COIN + magicExtra)))
      else subsidy
    else subsidy
  else if nHeight =? 1 then
    let premine := u64 (SUPPLY ac * SATOSHIDEN + magicExtra) in
    if LASTERA ac =? 0 then i64 premine else i64 (u64 (subsidy + premine))
  else if staked2 then 0
  else subsidy.

(** [staked2]: [is_STAKED(chainName.symbol()) == 2]. *)
Definition squishy_ac_block_subsidy (staked2 : bool) (c : subsidy_cache) (nHeight : Z)
    : option (Z * subsidy_cache) :=
  '(subsidy, c) ←
    (if (era (ENDSUBSIDY ac) 0 =? 0) && (era (REWARD ac) 0 =? 0) then Some (10000, c)
     else
       let curEra := if negb (era (ENDSUBSIDY ac) 0 =? 0)
                     then find_era (S (Z.to_nat (LASTERA ac))) nHeight 0 else 0 in
       if curEra <=? LASTERA ac then era_subsidy c nHeight curEra else Some (0, c));
  Some (u64 (supply_extra staked2 nHeight subsidy), c).

Definition GetBlockSubsidy (isKMD staked2 : bool) (c : subsidy_cache) (nHeight : Z)
    : option (Z * subsidy_cache) :=
  if isKMD then
    Some (if nHeight =? 1 then 100000000 * COIN
          else if nHeight <? SQUISHY_ENDOFERA then 3 * COIN
          else if nHeight <? 2 * SQUISHY_ENDOFERA then 2 * COIN
          else COIN, c)
  else
    '(s, c) ← squishy_ac_block_subsidy staked2 c nHeight;
    Some (i64 s, c).
End AssetChain.

(** ** The cache *)

Section CacheFacts.
Variable ac : assetchain.

Lemma decay_loop_i64 i decay s : is_i64 s -> is_i64 (decay_loop i decay s).
Proof.
  revert s. induction i as [|i IH]; intros s Hs; cbn [decay_loop]; [done|].
  case_match; [done|]. auto with width.
Qed.

(** A filled cache holds what the loop would compute. *)
Definition cache_valid (c : subsidy_cache) : Prop :=
  cached_subsidy c > 0 ->
  i64 (cached_subsidy c) = decayed ac (cached_era c) (cached_numhalvings c).

Definition with_init (r : option (Z * subsidy_cache)) (r0 : option (Z * subsidy_cache)) : Prop :=
  fst <$> r = fst <$> r0 /\ forall s c, r = Some (s, c) -> cache_valid c.

Lemma era_subsidy_valid c h e :
  cache_valid c -> with_init (era_subsidy ac c h e) (era_subsidy ac subsidy_cache_init h e).
Proof.
  intros Hc. unfold era_subsidy. cbv zeta.
  set (nStart := if e =? 0 then 0 else _). set (nh := i32 (_ / _)).
  assert (Hself : forall s, with_init (Some (s, c)) (Some (s, subsidy_cache_init)))
    by (split; [done|by intros ?? [= <- <-]]).
  destruct (_ && _ && (nh >? 0)); [|done].
  destruct (era (DECAY ac) e =? 0); [by destruct (nh <? 64)|].
  destruct (_ && negb _).
  { destruct (linear_subsidy _ _ _ _ _); cbn [mbind option_bind]; done. }
  change (cached_subsidy subsidy_cache_init >? 0) with false. cbn [andb].
  rewrite Z.gtb_ltb.
  destruct (Z.ltb_spec 0 (cached_subsidy c)) as [Hpos|]; cbn [andb].
  - specialize (Hc ltac:(lia)) as Hv.
    destruct (Z.eqb_spec (cached_era c) e) as [<-|]; cbn [andb];
      [destruct (Z.eqb_spec (cached_numhalvings c) nh) as [<-|]; cbn [andb]|].
    + split; [cbn; by rewrite Hv|by intros ?? [= <- <-]].
    + split; [done|]. intros s c' [= <- <-] _. cbn.
      rewrite i64_u64. apply i64_id, decay_loop_i64; auto with width.
    + split; [done|]. intros s c' [= <- <-] _. cbn.
      rewrite i64_u64. apply i64_id, decay_loop_i64; auto with width.
  - split; [done|]. intros s c' [= <- <-] _. cbn.
    rewrite i64_u64. apply i64_id, decay_loop_i64; auto with width.
Qed.

Lemma with_init_bind r r0 (f : Z -> Z) :
  with_init r r0 ->
  with_init ('(s, c) ← r; Some (f s, c)) ('(s, c) ← r0; Some (f s, c)).
Proof.
  intros [Hf Hv]. destruct r as [[s c]|], r0 as [[s0 c0]|]; simplify_eq/=; split; try done.
  intros ?? [= <- <-]. by eapply Hv.
Qed.

Lemma GetBlockSubsidy_valid isKMD staked2 c h :
  cache_valid c ->
  with_init (GetBlockSubsidy ac isKMD staked2 c h)
            (GetBlockSubsidy ac isKMD staked2 subsidy_cache_init h).
Proof.
  intros Hc. unfold GetBlockSubsidy, squishy_ac_block_subsidy.
  destruct isKMD; [split; [done|by intros ?? [= <- <-]]|].
  apply with_init_bind, with_init_bind.
  case_match; [split; [done|by intros ?? [= <- <-]]|].
  case_match; [by apply era_subsidy_valid|split; [done|by intros ?? [= <- <-]]].
Qed.

(** The cache after the node has asked for the subsidies of [heights]. *)
Definition after_calls (isKMD staked2 : bool) (heights : list Z) : subsidy_cache :=
  fold_left (fun c h => match GetBlockSubsidy ac isKMD staked2 c h with
                        | Some (_, c') => c' | None => c end) heights subsidy_cache_init.

Lemma after_calls_valid isKMD staked2 heights : cache_valid (after_calls isKMD staked2 heights).
Proof.
  unfold after_calls. assert (Hi : cache_valid subsidy_cache_init) by (intros H; cbn in H; lia).
  revert Hi. generalize subsidy_cache_init as c. induction heights as [|h hs IH]; intros c Hc; [done|].
  cbn. apply IH. destruct (GetBlockSubsidy _ _ _ c h) as [[s c']|] eqn:E; [|done].
  by eapply (GetBlockSubsidy_valid isKMD staked2 c h Hc).
Qed.
End CacheFacts.

(** The static one-entry cache of the decay loop is invisible: after any
    sequence of calls at any heights, the subsidy of a block is the one a node
    that has just started computes, defined or not. *)
Theorem subsidy_cache_transparent ac isKMD staked2 heights h :
  fst <$> GetBlockSubsidy ac isKMD staked2 (after_calls ac isKMD staked2 heights) h =
  fst <$> GetBlockSubsidy ac isKMD staked2 subsidy_cache_init h.
Proof. apply GetBlockSubsidy_valid, after_calls_valid. Qed.

(** ** Linear decay *)

Lemma signed64_Some z : - 2 ^ 63 <= z < 2 ^ 63 -> signed64 z = Some z.
Proof.
  intros. unfold signed64. by rewrite (proj2 (Z.leb_le _ _)), (proj2 (Z.ltb_lt _ _)) by lia.
Qed.

Lemma steps_numerator h start e p :
  0 <= start <= h -> h < e < 2 ^ 62 -> 1 <= p < 2 ^ 64 ->
  i64 (u64 ((e - start) - (u64 (e - h) + u64 (h - start) mod p))) = p * ((h - start) / p).
Proof.
  intros. rewrite (u64_id (e - h)), (u64_id (h - start)) by (unfold is_u64; lia).
  pose proof (Z.div_mod (h - start) p ltac:(lia)).
  pose proof (Z.mod_pos_bound (h - start) p ltac:(lia)).
  pose proof (Z.mod_le (h - start) p ltac:(lia) ltac:(lia)).
  rewrite i64_u64, i64_id by (unfold is_i64; lia). lia.
Qed.

(** The weighted mean of two values stays between them. *)
Lemma share_bound d n e : 0 <= d -> 0 <= n <= e -> 0 < e -> 0 <= d * n / e <= d.
Proof. intros. split; [apply Z.div_pos; nia|]. apply Z.div_le_upper_bound; nia. Qed.

(** In a linear era the subsidy is defined and moves in steps of HALVING
    blocks from the era's reward towards the next era's (or 0 in the last
    era), rounding the change down, and always lies between the two. *)
Theorem linear_era_interpolates ac nHeight curEra nStart
    (r := era (REWARD ac) curEra)
    (r' := if curEra =? LASTERA ac then 0 else era (REWARD ac) (curEra + 1))
    (e := era (ENDSUBSIDY ac) curEra) (p := era (HALVING ac) curEra)
    (Hh : 0 <= nStart <= nHeight) (He : nHeight < e < 2 ^ 31) (Hp : 1 <= p < 2 ^ 64)
    (Hr : 0 <= r) (Hr' : 0 <= r') (Hfit : Z.max r r' * e < 2 ^ 63) :
  let n := p * ((nHeight - nStart) / p) in
  let s := if r' <=? r then r - (r - r') * n / (e - nStart)
           else r + (r' - r) * n / (e - nStart) in
  linear_subsidy ac nHeight curEra nStart r = Some s /\
  Z.min r r' <= s <= Z.max r r'.
Proof.
  intros n s.
  assert (Hn : 0 <= n <= nHeight - nStart).
  { subst n. pose proof (Z.mul_div_le (nHeight - nStart) p ltac:(lia)).
    pose proof (Z.div_pos (nHeight - nStart) p ltac:(lia) ltac:(lia)). nia. }
  assert (HM : forall x, 0 <= x <= Z.max r r' -> x * n < 2 ^ 63 /\ x < 2 ^ 63).
  { intros x Hx. assert (x * n <= Z.max r r' * e) by (apply Z.mul_le_mono_nonneg; lia).
    assert (x * 1 <= Z.max r r' * e) by (apply Z.mul_le_mono_nonneg; lia). lia. }
  pose proof (HM r ltac:(lia)). pose proof (HM r' ltac:(lia)).
  split; cycle 1.
  { subst s. destruct (Z.leb_spec r' r).
    - pose proof (share_bound (r - r') n (e - nStart)). lia.
    - pose proof (share_bound (r' - r) n (e - nStart)). lia. }
  assert (Hsign : (if curEra =? LASTERA ac then Some (1, r)
     else if i64 (u64 (r - era (REWARD ac) (curEra + 1))) <? 0
     then d ← signed64 (i64 (u64 (r - era (REWARD ac) (curEra + 1))) * -1); Some (-1, d)
     else Some (1, i64 (u64 (r - era (REWARD ac) (curEra + 1))))) =
     Some (if r' <=? r then (1, r - r') else (-1, r' - r))).
  { subst r'. destruct (curEra =? LASTERA ac).
    { rewrite (proj2 (Z.leb_le _ _)) by lia. do 2 f_equal. lia. }
    rewrite i64_u64, i64_id by (unfold is_i64; lia).
    destruct (Z.ltb_spec (r - era (REWARD ac) (curEra + 1)) 0).
    - rewrite signed64_Some, (proj2 (Z.leb_gt _ _)) by lia. cbn. do 2 f_equal. lia.
    - by rewrite (proj2 (Z.leb_le _ _)) by lia. }
  unfold linear_subsidy. fold e p. cbv zeta. rewrite Hsign. cbn [mbind option_bind].
  rewrite (i64_u64 (e - nStart)), (i64_id (e - nStart)) by (unfold is_i64; lia).
  rewrite steps_numerator by lia. fold n.
  assert (Hz : (e - nStart =? 0) = false) by lia.
  subst s. destruct (Z.leb_spec r' r).
  - pose proof (share_bound (r - r') n (e - nStart)). pose proof (HM (r - r') ltac:(lia)).
    rewrite signed64_Some by nia. cbn [mbind option_bind].
    rewrite Hz, Z.quot_div_nonneg by nia. rewrite signed64_Some by lia. f_equal. lia.
  - pose proof (share_bound (r' - r) n (e - nStart)). pose proof (HM (r' - r) ltac:(lia)).
    rewrite signed64_Some by nia. cbn [mbind option_bind].
    rewrite Hz, Z.quot_div_nonneg by nia. rewrite signed64_Some by lia. f_equal. lia.
Qed.

(** The chain of the source's example: -ac_eras=3 -ac_reward=0,384,24
    -ac_end=1440,260640,0 -ac_halving=1,1440,2103840. *)
Definition example_chain : assetchain :=
  {| ENDSUBSIDY := [1440; 260640; 0]; REWARD := [0; 38400000000; 2400000000];
     HALVING := [1; 1440; 2103840]; DECAY := [100000000; 97750000; 0];
     LASTERA := 2; SUPPLY := 10; MAGIC := 1; STAKED := 0 |}.

Lemma linear_era_interpolates_witness :
  linear_subsidy example_chain 720 0 0 0 = Some 19200000000 /\
  0 <= 19200000000 <= 38400000000.
Proof.
  apply (linear_era_interpolates example_chain 720 0 0);
    repeat split; vm_compute; reflexivity || discriminate.
Defined.
