(* ===== verification/Script.v ===== *)
(** * Scripts (src/src/script/script.{h,cpp}, src/src/script/script_ext.cpp)

    The opcode values, script numbers, the construction of scripts by pushes,
    the instruction decoder [GetOp2] and the predicates and counters built on
    it.  A program counter is the list of bytes it has before it, so [pc >= end()]
    is the empty list; every failing read leaves it where the source does. *)
From S2P Require Import Prelude Serialize Transaction Compressor Interest.

(** ** Opcodes *)

Definition OP_0 : Z := 0x00.
Definition OP_FALSE : Z := OP_0.
Definition OP_PUSHDATA1 : Z := 0x4c.
Definition OP_PUSHDATA2 : Z := 0x4d.
Definition OP_PUSHDATA4 : Z := 0x4e.
Definition OP_1NEGATE : Z := 0x4f.
Definition OP_RESERVED : Z := 0x50.
Definition OP_1 : Z := 0x51.
Definition OP_TRUE : Z := OP_1.
Definition OP_2 : Z := 0x52.
Definition OP_3 : Z := 0x53.
Definition OP_4 : Z := 0x54.
Definition OP_5 : Z := 0x55.
Definition OP_6 : Z := 0x56.
Definition OP_7 : Z := 0x57.
Definition OP_8 : Z := 0x58.
Definition OP_9 : Z := 0x59.
Definition OP_10 : Z := 0x5a.
Definition OP_11 : Z := 0x5b.
Definition OP_12 : Z := 0x5c.
Definition OP_13 : Z := 0x5d.
Definition OP_14 : Z := 0x5e.
Definition OP_15 : Z := 0x5f.
Definition OP_16 : Z := 0x60.
Definition OP_NOP : Z := 0x61.
Definition OP_VER : Z := 0x62.
Definition OP_IF : Z := 0x63.
Definition OP_NOTIF : Z := 0x64.
Definition OP_VERIF : Z := 0x65.
Definition OP_VERNOTIF : Z := 0x66.
Definition OP_ELSE : Z := 0x67.
Definition OP_ENDIF : Z := 0x68.
Definition OP_VERIFY : Z := 0x69.
Definition OP_TOALTSTACK : Z := 0x6b.
Definition OP_FROMALTSTACK : Z := 0x6c.
Definition OP_2DROP : Z := 0x6d.
Definition OP_2DUP : Z := 0x6e.
Definition OP_3DUP : Z := 0x6f.
Definition OP_2OVER : Z := 0x70.
Definition OP_2ROT : Z := 0x71.
Definition OP_2SWAP : Z := 0x72.
Definition OP_IFDUP : Z := 0x73.
Definition OP_DEPTH : Z := 0x74.
Definition OP_DROP : Z := 0x75.
Definition OP_NIP : Z := 0x77.
Definition OP_OVER : Z := 0x78.
Definition OP_PICK : Z := 0x79.
Definition OP_ROLL : Z := 0x7a.
Definition OP_ROT : Z := 0x7b.
Definition OP_SWAP : Z := 0x7c.
Definition OP_TUCK : Z := 0x7d.
Definition OP_CAT : Z := 0x7e.
Definition OP_SUBSTR : Z := 0x7f.
Definition OP_LEFT : Z := 0x80.
Definition OP_RIGHT : Z := 0x81.
Definition OP_SIZE : Z := 0x82.
Definition OP_INVERT : Z := 0x83.
Definition OP_AND : Z := 0x84.
Definition OP_OR : Z := 0x85.
Definition OP_XOR : Z := 0x86.
Definition OP_RESERVED1 : Z := 0x89.
Definition OP_RESERVED2 : Z := 0x8a.
Definition OP_1ADD : Z := 0x8b.
Definition OP_1SUB : Z := 0x8c.
Definition OP_2MUL : Z := 0x8d.
Definition OP_2DIV : Z := 0x8e.
Definition OP_NEGATE : Z := 0x8f.
Definition OP_ABS : Z := 0x90.
Definition OP_NOT : Z := 0x91.
Definition OP_0NOTEQUAL : Z := 0x92.
Definition OP_ADD : Z := 0x93.
Definition OP_SUB : Z := 0x94.
Definition OP_MUL : Z := 0x95.
Definition OP_DIV : Z := 0x96.
Definition OP_MOD : Z := 0x97.
Definition OP_LSHIFT : Z := 0x98.
Definition OP_RSHIFT : Z := 0x99.
Definition OP_BOOLAND : Z := 0x9a.
Definition OP_BOOLOR : Z := 0x9b.
Definition OP_NUMEQUAL : Z := 0x9c.
Definition OP_NUMEQUALVERIFY : Z := 0x9d.
Definition OP_NUMNOTEQUAL : Z := 0x9e.
Definition OP_LESSTHAN : Z := 0x9f.
Definition OP_GREATERTHAN : Z := 0xa0.
Definition OP_LESSTHANOREQUAL : Z := 0xa1.
Definition OP_GREATERTHANOREQUAL : Z := 0xa2.
Definition OP_MIN : Z := 0xa3.
Definition OP_MAX : Z := 0xa4.
Definition OP_WITHIN : Z := 0xa5.
Definition OP_RIPEMD160 : Z := 0xa6.
Definition OP_SHA1 : Z := 0xa7.
Definition OP_SHA256 : Z := 0xa8.
Definition OP_HASH256 : Z := 0xaa.
Definition OP_CODESEPARATOR : Z := 0xab.
Definition OP_CHECKSIGVERIFY : Z := 0xad.
Definition OP_CHECKMULTISIG : Z := 0xae.
Definition OP_CHECKMULTISIGVERIFY : Z := 0xaf.
Definition OP_CHECKCRYPTOCONDITION : Z := 0xcc.
Definition OP_CHECKCRYPTOCONDITIONVERIFY : Z := 0xcd.
Definition OP_NOP1 : Z := 0xb0.
Definition OP_NOP2 : Z := 0xb1.
Definition OP_CHECKLOCKTIMEVERIFY : Z := OP_NOP2.
Definition OP_NOP3 : Z := 0xb2.
Definition OP_NOP4 : Z := 0xb3.
Definition OP_NOP5 : Z := 0xb4.
Definition OP_NOP6 : Z := 0xb5.
Definition OP_NOP7 : Z := 0xb6.
Definition OP_NOP8 : Z := 0xb7.
Definition OP_NOP9 : Z := 0xb8.
Definition OP_NOP10 : Z := 0xb9.
Definition OP_SMALLDATA : Z := 0xf9.
Definition OP_CRYPTOCONDITION : Z := 0xfc.
Definition OP_INVALIDOPCODE : Z := 0xff.

Definition MAX_SCRIPT_ELEMENT_SIZE : Z := 520.
Definition MAX_SCRIPT_CRYPTOCONDITION_FULFILLMENT_SIZE : Z := 2048.
Definition EVAL_IMPORTCOIN : Z := 0xe2.
Definition OPRETTYPE_TIMELOCK : Z := 1.

Definition zlen {A} (l : list A) : Z := Z.of_nat (length l).

(** [v.back()]; the source never reads it of an empty vector. *)
Definition back (l : bytes) : Z := List.last l 0.

(** ** Script numbers *)

(** [result |= static_cast<int64_t>(vch[i]) << 8*i] *)
Fixpoint set_vch_loop (i result : Z) (vch : bytes) : Z :=
  match vch with
  | [] => result
  | b :: vch => set_vch_loop (i + 1) (Z.lor result (i64 (Z.shiftl b (8 * i)))) vch
  end.

Definition set_vch (vch : bytes) : Z :=
  match vch with
  | [] => 0
  | _ =>
    let result := set_vch_loop 0 0 vch in
    if negb (Z.land (back vch) 0x80 =? 0)
    then i64 (- i64 (Z.land (u64 result) (Z.lnot (Z.shiftl 0x80 (8 * (zlen vch - 1))))))
    else result
  end.

(** The constructor from bytes; [None] is a thrown [scriptnum_error]. *)
Definition CScriptNum (vch : bytes) (fRequireMinimal : bool) (nMaxNumSize : Z) : option Z :=
  if zlen vch >? nMaxNumSize then None
  else if fRequireMinimal && (zlen vch >? 0) && (Z.land (back vch) 0x7f =? 0)
          && ((zlen vch <=? 1) || (Z.land (nth (length vch - 2) vch 0) 0x80 =? 0))
  then None
  else Some (set_vch vch).

Definition nDefaultMaxNumSize : Z := 4.

(** [while (absvalue) ...]; eight rounds empty a 64-bit word. *)
Fixpoint abs_loop (fuel : nat) (absvalue : Z) : bytes :=
  match fuel with
  | O => []
  | S fuel => if absvalue =? 0 then []
              else Z.land absvalue 0xff :: abs_loop fuel (Z.shiftr absvalue 8)
  end.

Definition CScriptNum_serialize (value : Z) : bytes :=
  if value =? 0 then []
  else
    let neg := value <? 0 in
    let result := abs_loop 8 (u64 (if neg then - value else value)) in
    if negb (Z.land (back result) 0x80 =? 0) then result ++ [if neg then 0x80 else 0]
    else if neg then removelast result ++ [Z.lor (back result) 0x80]
    else result.

Definition getint (m_value : Z) : Z :=
  if m_value >? 2 ^ 31 - 1 then 2 ^ 31 - 1
  else if m_value <? - 2 ^ 31 then - 2 ^ 31
  else m_value.

(** ** Building scripts *)

Definition push_opcode (opcode : Z) (script : bytes) : bytes := script ++ [u8 opcode].

Definition push_data (b : bytes) (script : bytes) : bytes :=
  script ++
  (if zlen b <? OP_PUSHDATA1 then [u8 (zlen b)]
   else if zlen b <=? 0xff then [OP_PUSHDATA1; u8 (zlen b)]
   else if zlen b <=? 0xffff then OP_PUSHDATA2 :: ser_writedata16 (zlen b)
   else OP_PUSHDATA4 :: ser_writedata32 (zlen b)) ++ b.

Definition push_int64 (n : Z) (script : bytes) : bytes :=
  if (n =? -1) || ((n >=? 1) && (n <=? 16)) then script ++ [u8 (n + (OP_1 - 1))]
  else if n =? 0 then script ++ [OP_0]
  else push_data (CScriptNum_serialize n) script.

(** ** Decoding *)

Record op_read := mkOpRead { op_ok : bool; op_code : Z; op_data : bytes; op_rest : bytes }.

Definition op_fail (rest : bytes) : op_read := mkOpRead false OP_INVALIDOPCODE [] rest.

(** The data of a push of [nSize] bytes. *)
Definition read_push (opcode nSize : Z) (pc : bytes) : op_read :=
  if zlen pc <? nSize then op_fail pc
  else mkOpRead true opcode (take (Z.to_nat nSize) pc) (drop (Z.to_nat nSize) pc).

Definition GetOp2 (pc : bytes) : op_read :=
  match pc with
  | [] => op_fail []
  | opcode :: pc =>
    if opcode <=? OP_PUSHDATA4 then
      if opcode <? OP_PUSHDATA1 then read_push opcode opcode pc
      else if opcode =? OP_PUSHDATA1 then
        if zlen pc <? 1 then op_fail pc else read_push opcode (at_ pc 0) (drop 1 pc)
      else if opcode =? OP_PUSHDATA2 then
        if zlen pc <? 2 then op_fail pc
        else read_push opcode (le_value (take 2 pc)) (drop 2 pc)
      else
        if zlen pc <? 4 then op_fail pc
        else read_push opcode (le_value (take 4 pc)) (drop 4 pc)
    else mkOpRead true opcode [] pc
  end.

(** [None] is a failed assertion. *)
Definition DecodeOP_N (opcode : Z) : option Z :=
  if opcode =? OP_0 then Some 0
  else if (opcode >=? OP_1) && (opcode <=? OP_16) then Some (opcode - (OP_1 - 1)) else None.

Definition EncodeOP_N (n : Z) : option Z :=
  if (n >=? 0) && (n <=? 16) then Some (if n =? 0 then OP_0 else OP_1 + n - 1) else None.

(** ** Signature operations *)

(** The loops below decode at least one byte a round: the length of the
    script is fuel enough (see [GetOp2_progress]). *)
Fixpoint sigop_loop (fuel : nat) (fAccurate : bool) (n lastOpcode : Z) (pc : bytes) : Z :=
  match fuel, pc with
  | S fuel, _ :: _ =>
    let r := GetOp2 pc in
    if negb (op_ok r) then n
    else
      let opcode := op_code r in
      let n :=
        if (opcode =? OP_CHECKSIG) || (opcode =? OP_CHECKSIGVERIFY) then u32 (n + 1)
        else if (opcode =? OP_CHECKMULTISIG) || (opcode =? OP_CHECKMULTISIGVERIFY) then
          if fAccurate && (lastOpcode >=? OP_1) && (lastOpcode <=? OP_16)
          then u32 (n + default 0 (DecodeOP_N lastOpcode))
          else u32 (n + 20)
        else n in
      sigop_loop fuel fAccurate n opcode (op_rest r)
  | _, _ => n
  end.

Definition GetSigOpCount (fAccurate : bool) (script : bytes) : Z :=
  sigop_loop (length script) fAccurate 0 OP_INVALIDOPCODE script.

Definition IsPayToPublicKeyHash (s : bytes) : bool :=
  (zlen s =? 25) && (at_ s 0 =? OP_DUP) && (at_ s 1 =? OP_HASH160) && (at_ s 2 =? 0x14)
  && (at_ s 23 =? OP_EQUALVERIFY) && (at_ s 24 =? OP_CHECKSIG).

Definition IsPayToPublicKey (s : bytes) : bool :=
  (zlen s =? 35) && (at_ s 0 =? 33) && (at_ s 34 =? OP_CHECKSIG).

Definition IsPayToScriptHash (s : bytes) : bool :=
  (zlen s =? 23) && (at_ s 0 =? OP_HASH160) && (at_ s 1 =? 0x14) && (at_ s 22 =? OP_EQUAL).

(** The data of the last instruction of a push-only script. *)
Fixpoint last_push (fuel : nat) (data pc : bytes) : option bytes :=
  match fuel, pc with
  | S fuel, _ :: _ =>
    let r := GetOp2 pc in
    if negb (op_ok r) then None
    else if op_code r >? OP_16 then None
    else last_push fuel (op_data r) (op_rest r)
  | _, _ => Some data
  end.

Definition GetSigOpCount_P2SH (scriptSig script : bytes) : Z :=
  if negb (IsPayToScriptHash script) then GetSigOpCount true script
  else match last_push (length scriptSig) [] scriptSig with
       | None => 0
       | Some data => GetSigOpCount true data
       end.

Fixpoint push_only_loop (fuel : nat) (pc : bytes) : bool :=
  match fuel, pc with
  | S fuel, _ :: _ =>
    let r := GetOp2 pc in
    if negb (op_ok r) then false
    else if op_code r >? OP_16 then false
    else push_only_loop fuel (op_rest r)
  | _, _ => true
  end.

Definition IsPushOnly (script : bytes) : bool := push_only_loop (length script) script.

(** ** Templates and data carriers *)

Section RedeemScript.
(** [ToByteVector(CScriptID(script))]: the 160-bit hash of a script. *)
Variable Hash160 : bytes -> bytes.

Definition p2sh_of (redeemScript : bytes) : bytes :=
  push_opcode OP_EQUAL (push_data (Hash160 redeemScript) (push_opcode OP_HASH160 [])).

(** The bytes shared by the two hash-lock templates up to the hash. *)
Definition htlc_head (r : bytes) : bool :=
  (at_ r 0 =? OP_RETURN) && (at_ r 3 =? OP_IF) && (at_ r 9 =? OP_NOP2)
  && (at_ r 10 =? OP_DROP) && (at_ r 45 =? OP_CHECKSIG) && (at_ r 46 =? OP_ELSE)
  && (at_ r 47 =? OP_SIZE) && (at_ r 48 =? 0x01) && (at_ r 49 =? 0x20)
  && (at_ r 50 =? OP_EQUALVERIFY).

Definition IsRedeemScriptReveal (script redeemScript : bytes) : bool :=
  let r := redeemScript in
  let revealed := bool_decide (p2sh_of (drop 3 r) = script) in
  if (zlen r =? 110) && htlc_head r && (at_ r 51 =? OP_HASH160)
     && (at_ r 73 =? OP_EQUALVERIFY) && (at_ r 108 =? OP_CHECKSIG) && (at_ r 109 =? OP_ENDIF)
  then revealed
  else if (zlen r =? 122) && htlc_head r
     && ((at_ r 51 =? OP_SHA256) || (at_ r 51 =? OP_HASH256))
     && (at_ r 85 =? OP_EQUALVERIFY) && (at_ r 120 =? OP_CHECKSIG) && (at_ r 121 =? OP_ENDIF)
  then revealed
  else if (zlen r =? 101) && (at_ r 0 =? OP_RETURN) && (at_ r 1 =? 0x4c) && (at_ r 2 =? 0x62)
     && (at_ r 20 =? OP_DROP) && (at_ r 21 =? OP_IF) && (at_ r 22 =? 0x04)
     && (at_ r 27 =? OP_NOP2) && (at_ r 28 =? OP_DROP) && (at_ r 63 =? OP_CHECKSIG)
     && (at_ r 64 =? OP_ELSE) && (at_ r 99 =? OP_CHECKSIG) && (at_ r 100 =? OP_ENDIF)
  then revealed
  else false.
End RedeemScript.

(** The value a push instruction stands for in a data carrier. *)
Definition pushed_value (opcode : Z) (data : bytes) : option bytes :=
  if opcode =? OP_0 then Some [0]
  else if (opcode >=? OP_1) && (opcode <=? OP_16) then Some [u8 (opcode - OP_1 + 1)]
  else if (opcode >? 0) && (opcode <=? OP_PUSHDATA4) && (zlen data >? 0) then Some data
  else None.

(** Returns the verdict and [vSolutions], filled as far as the loop got. *)
Fixpoint balanced_loop (fuel : nat) (netPushes : Z) (vSolutions : list bytes) (pc : bytes)
    : bool * list bytes :=
  match fuel, pc with
  | S fuel, _ :: _ =>
    let r := GetOp2 pc in
    if negb (op_ok r) then (false, vSolutions)
    else if op_code r =? OP_DROP then
      if netPushes - 1 <? 0 then (false, vSolutions)
      else balanced_loop fuel (netPushes - 1) vSolutions (op_rest r)
    else
      match pushed_value (op_code r) (op_data r) with
      | Some data => balanced_loop fuel (netPushes + 1) (vSolutions ++ [data]) (op_rest r)
      | None => (false, vSolutions)
      end
  | _, _ => (netPushes =? 0, vSolutions)
  end.

Definition GetBalancedData (pc : bytes) : bool * list bytes := balanced_loop (length pc) 0 [] pc.

(** A failing [GetOp] is ignored: the loop goes on from where it stopped. *)
Fixpoint pushed_loop (fuel : nat) (vData : list bytes) (pc : bytes) : bool * list bytes :=
  match fuel, pc with
  | S fuel, _ :: _ =>
    let r := GetOp2 pc in
    if op_ok r then
      match pushed_value (op_code r) (op_data r) with
      | Some data => pushed_loop fuel (vData ++ [data]) (op_rest r)
      | None => (false, vData)
      end
    else pushed_loop fuel vData (op_rest r)
  | _, _ => (negb (zlen vData =? 0), vData)
  end.

Definition GetPushedData (pc : bytes) : bool * list bytes := pushed_loop (length pc) [] pc.

Definition GetOpretData (script : bytes) : bool * list bytes :=
  let r := GetOp2 script in
  if op_ok r && (op_code r =? OP_RETURN) then GetPushedData (op_rest r) else (false, []).

(** The result, and on success the sub-script up to the condition and the
    parameters after it. *)
Definition IsPayToCryptoCondition_params (script : bytes) : option (bytes * list bytes) :=
  let r1 := GetOp2 script in
  if op_ok r1 && (op_code r1 >? OP_0) && (op_code r1 <? OP_PUSHDATA1) then
    let r2 := GetOp2 (op_rest r1) in
    if op_ok r2 && (op_code r2 =? OP_CHECKCRYPTOCONDITION) then
      match GetBalancedData (op_rest r2) with
      | (true, vParams) =>
        Some (take (length script - length (op_rest r2)) script, vParams)
      | (false, _) => None
      end
    else None
  else None.

Definition IsPayToCryptoCondition (script : bytes) : bool :=
  match IsPayToCryptoCondition_params script with Some _ => true | None => false end.

(** [None] is a read past the end of an empty push. *)
Definition script_IsCoinImport (script : bytes) : option bool :=
  let r := GetOp2 script in
  if op_ok r && (op_code r >? OP_0) && (op_code r <=? OP_PUSHDATA4) then
    match op_data r with b :: _ => Some (b =? EVAL_IMPORTCOIN) | [] => None end
  else Some false.

Definition IsWitnessProgram (s : bytes) : option (Z * bytes) :=
  if (zlen s <? 4) || (zlen s >? 42) then None
  else if negb (at_ s 0 =? OP_0) && ((at_ s 0 <? OP_1) || (at_ s 0 >? OP_16)) then None
  else if at_ s 1 + 2 =? zlen s
  then version ← DecodeOP_N (at_ s 0); Some (version, drop 2 s)
  else None.

(** [None]: not a time lock.  [Some None]: the opcode would be read past the
    end of the script.  [Some (Some t)]: locked until [t]. *)
Definition IsCheckLockTimeVerify (s : bytes) : option (option Z) :=
  let r := GetOp2 s in
  if op_ok r && (zlen (op_data r) <? 6) then
    match s !! (length (op_data r) + 1)%nat with
    | None => Some None
    | Some b =>
      if b =? OP_CHECKLOCKTIMEVERIFY
      then Some (Some (fold_right (fun b t => Z.lor (i64 (Z.shiftl t 8)) b) 0 (op_data r)))
      else None
    end
  else None.

(** ** Extended scripts (CScriptExt) *)

Definition AddPayToPubKeyHash (key script : bytes) : bytes :=
  push_opcode OP_CHECKSIG (push_opcode OP_EQUALVERIFY
    (push_data key (push_opcode OP_HASH160 (push_opcode OP_DUP script)))).

Definition OpReturnScript (data : bytes) (opretType : Z) : bytes :=
  if zlen data <? MAX_SCRIPT_ELEMENT_SIZE
  then push_data (opretType :: data) (push_opcode OP_RETURN [])
  else [].

Definition PayToScriptHash (scriptID : bytes) : bytes :=
  push_opcode OP_EQUAL (push_data scriptID (push_opcode OP_HASH160 [])).

Definition AddCheckLockTimeVerify (unlocktime : Z) (script : bytes) : bytes :=
  if unlocktime >? 0
  then push_opcode OP_DROP (push_opcode OP_CHECKLOCKTIMEVERIFY
         (push_data (CScriptNum_serialize unlocktime) script))
  else script.

Definition TimeLockSpend (key : bytes) (unlocktime : Z) : bytes :=
  AddPayToPubKeyHash key (AddCheckLockTimeVerify unlocktime []).

(** ** Facts: decoding *)

Lemma zlen_nil {A} : zlen (@nil A) = 0.
Proof. done. Qed.

Lemma zlen_cons {A} (a : A) l : zlen (a :: l) = 1 + zlen l.
Proof. unfold zlen. simpl length. lia. Qed.

Lemma zlen_app {A} (l k : list A) : zlen (l ++ k) = zlen l + zlen k.
Proof. unfold zlen. rewrite length_app. lia. Qed.

Lemma zlen_nonneg {A} (l : list A) : 0 <= zlen l.
Proof. unfold zlen. lia. Qed.

#[export] Hint Rewrite @zlen_nil @zlen_cons @zlen_app : zlen.

Lemma read_push_rest opcode k pc : (length (op_rest (read_push opcode k pc)) <= length pc)%nat.
Proof. unfold read_push. case_match; cbn [op_rest op_fail]; [done|]. rewrite length_drop. lia. Qed.

(** Every instruction, also a malformed one, takes at least one byte. *)
Lemma GetOp2_progress b pc : (length (op_rest (GetOp2 (b :: pc))) <= length pc)%nat.
Proof.
  unfold GetOp2. repeat case_match; cbn [op_rest op_fail]; try done;
    (etrans; [apply read_push_rest|]); rewrite ?length_drop; lia.
Qed.

Lemma read_push_data opcode b rest :
  read_push opcode (zlen b) (b ++ rest) = mkOpRead true opcode b rest.
Proof.
  unfold read_push. rewrite zlen_app, (proj2 (Z.ltb_ge _ _)) by (pose proof (zlen_nonneg rest); lia).
  unfold zlen. rewrite Nat2Z.id, take_app_length, drop_app_length. done.
Qed.

(** The opcode that pushes [b]. *)
Definition push_code (b : bytes) : Z :=
  if zlen b <? OP_PUSHDATA1 then zlen b
  else if zlen b <=? 0xff then OP_PUSHDATA1
  else if zlen b <=? 0xffff then OP_PUSHDATA2 else OP_PUSHDATA4.

Lemma GetOp2_push_data b rest :
  zlen b < 2 ^ 32 ->
  GetOp2 (push_data b [] ++ rest) = mkOpRead true (push_code b) b rest.
Proof.
  intros Hb. pose proof (zlen_nonneg b) as H0.
  unfold push_data, push_code. cbn [app].
  destruct (Z.ltb_spec (zlen b) OP_PUSHDATA1) as [H1|H1].
  { rewrite <- app_assoc. cbn [app]. unfold GetOp2.
    rewrite u8_id by (unfold is_u8, OP_PUSHDATA1 in *; lia).
    rewrite (proj2 (Z.leb_le _ _)), (proj2 (Z.ltb_lt _ _))
      by (unfold OP_PUSHDATA4, OP_PUSHDATA1 in *; lia).
    apply read_push_data. }
  destruct (Z.leb_spec (zlen b) 0xff) as [H2|H2].
  { rewrite <- app_assoc. cbn [app]. unfold GetOp2.
    change (OP_PUSHDATA1 <=? OP_PUSHDATA4) with true. rewrite Z.ltb_irrefl, Z.eqb_refl.
    rewrite zlen_cons, (proj2 (Z.ltb_ge _ 1)) by (pose proof (zlen_nonneg (b ++ rest)); lia).
    cbn [at_ nth drop]. rewrite u8_id by (unfold is_u8; lia). apply read_push_data. }
  destruct (Z.leb_spec (zlen b) 0xffff) as [H3|H3].
  { cbn [app]. unfold GetOp2.
    change (OP_PUSHDATA2 <=? OP_PUSHDATA4) with true. change (OP_PUSHDATA2 <? OP_PUSHDATA1) with false.
    change (OP_PUSHDATA2 =? OP_PUSHDATA1) with false. rewrite Z.eqb_refl.
    unfold ser_writedata16. rewrite <- app_assoc.
    rewrite zlen_app, (proj2 (Z.ltb_ge _ 2))
      by (unfold zlen at 1; rewrite length_le_bytes; pose proof (zlen_nonneg (b ++ rest)); lia).
    rewrite (take_app_length' _ _ 2), (drop_app_length' _ _ 2) by (symmetry; apply length_le_bytes).
    rewrite le_value_le_bytes, Z.mod_small by (unfold u16; zlia).
    unfold u16. rewrite Z.mod_small by lia. apply read_push_data. }
  cbn [app]. unfold GetOp2.
  change (OP_PUSHDATA4 <=? OP_PUSHDATA4) with true. change (OP_PUSHDATA4 <? OP_PUSHDATA1) with false.
  change (OP_PUSHDATA4 =? OP_PUSHDATA1) with false. change (OP_PUSHDATA4 =? OP_PUSHDATA2) with false.
  unfold ser_writedata32. rewrite <- app_assoc.
  rewrite zlen_app, (proj2 (Z.ltb_ge _ 4))
    by (unfold zlen at 1; rewrite length_le_bytes; pose proof (zlen_nonneg (b ++ rest)); lia).
  rewrite (take_app_length' _ _ 4), (drop_app_length' _ _ 4) by (symmetry; apply length_le_bytes).
  rewrite le_value_le_bytes, Z.mod_small by (unfold u32; zlia).
  rewrite u32_id by (unfold is_u32; lia). apply read_push_data.
Qed.

(** ** Facts: script numbers *)

Lemma land_low a k : 0 <= k -> Z.land a (2 ^ k - 1) = a mod 2 ^ k.
Proof. intros. rewrite <- Z.land_ones by done. f_equal. rewrite Z.ones_equiv. lia. Qed.

(** A decidable fact about bytes is checked on all of them. *)
Lemma byte_cases (P : Z -> bool) b :
  forallb P (map Z.of_nat (seq 0 256)) = true -> is_u8 b -> P b = true.
Proof.
  intros HP Hb. rewrite forallb_forall in HP. apply HP. unfold is_u8 in Hb.
  rewrite <- (Z2Nat.id b) by lia. apply in_map, in_seq. lia.
Qed.

Lemma byte_sign b : is_u8 b -> negb (Z.land b 0x80 =? 0) = (128 <=? b).
Proof.
  intros Hb. apply eqb_prop.
  apply (byte_cases (fun b => Bool.eqb (negb (Z.land b 0x80 =? 0)) (128 <=? b))); [|done].
  vm_compute. reflexivity.
Qed.

Lemma byte_magnitude b : is_u8 b -> Z.land b 0x7f = b mod 128.
Proof. intros. change 0x7f with (2 ^ 7 - 1). by rewrite land_low by lia. Qed.

(** The bytes of a positive number, without leading zeros. *)
Lemma abs_loop_le_value fuel l :
  is_bytes l -> back l <> 0 -> (length l <= fuel)%nat -> abs_loop fuel (le_value l) = l.
Proof.
  intros Hl. revert fuel. induction Hl as [|b l Hb Hl IH]; intros fuel Hn Hf; [done|].
  destruct fuel as [|fuel]; [cbn in Hf; lia|]. cbn [abs_loop le_value length] in *.
  unfold is_u8 in Hb. pose proof (le_value_range l Hl).
  assert (Hz : b + 256 * le_value l <> 0).
  { destruct l as [|c l]; [unfold back in Hn; cbn in Hn; cbn; lia|].
    intros Hz. assert (Hv : le_value (c :: l) = 0) by lia.
    specialize (IH (length (c :: l)) Hn ltac:(lia)). rewrite Hv in IH. done. }
  rewrite (proj2 (Z.eqb_neq _ _)) by done. f_equal.
  - change 0xff with (2 ^ 8 - 1). rewrite land_low by lia. zlia.
  - rewrite Z.shiftr_div_pow2 by lia. replace ((b + 256 * le_value l) / 2 ^ 8) with (le_value l) by zlia.
    destruct l as [|c l]; [by destruct fuel|]. apply IH; [done|lia].
Qed.

Lemma abs_loop_spec fuel a : 0 < a < 256 ^ Z.of_nat fuel ->
  let l := abs_loop fuel a in is_bytes l /\ back l <> 0 /\ le_value l = a.
Proof.
  revert a. induction fuel as [|fuel IH]; intros a Ha; [cbn in Ha; lia|].
  cbn [abs_loop]. rewrite (proj2 (Z.eqb_neq _ _)) by lia.
  rewrite Nat2Z.inj_succ, Z.pow_succ_r in Ha by lia.
  change 0xff with (2 ^ 8 - 1). rewrite land_low, Z.shiftr_div_pow2 by lia.
  destruct (Z.eq_dec (a / 2 ^ 8) 0) as [Hz|Hz].
  - rewrite Hz. assert (Hm : a mod 2 ^ 8 = a) by zlia. rewrite Hm.
    assert (abs_loop fuel 0 = []) as -> by (by destruct fuel).
    split_and!; [constructor; [unfold is_u8; zlia|done]|cbn; lia|cbn; lia].
  - destruct (IH (a / 2 ^ 8)) as (Hb & Hk & Hv); [zlia|].
    split_and!; [constructor; [unfold is_u8; zlia|done]| |cbn [le_value]; rewrite Hv; zlia].
    unfold back in *. destruct (abs_loop fuel (a / 2 ^ 8)); [cbn in Hk; lia|done].
Qed.

Lemma set_vch_loop_value vch i acc :
  is_bytes vch -> 0 <= i -> i + zlen vch <= 7 -> 0 <= acc < 2 ^ (8 * i) ->
  set_vch_loop i acc vch = acc + 2 ^ (8 * i) * le_value vch.
Proof.
  intros Hv. revert i acc. induction Hv as [|b l Hb Hl IH]; intros i acc Hi Hlen Hacc;
    cbn [set_vch_loop le_value]; [lia|].
  rewrite zlen_cons in Hlen. pose proof (zlen_nonneg l). unfold is_u8 in Hb.
  assert (Hp : 2 ^ (8 * (i + 1)) = 256 * 2 ^ (8 * i))
    by (replace (8 * (i + 1)) with (8 + 8 * i) by lia; rewrite Z.pow_add_r by lia; lia).
  assert (2 ^ (8 * i) <= 2 ^ 48) by (apply Z.pow_le_mono_r; lia).
  rewrite Z.shiftl_mul_pow2, i64_id by (lia || (unfold is_i64; nia)).
  rewrite Z.lor_comm, (lor_low _ _ (8 * i)) by (lia || by apply Z_mod_mult).
  rewrite IH by nia. rewrite Hp. nia.
Qed.

Lemma le_value_snoc l b : le_value (l ++ [b]) = le_value l + 256 ^ zlen l * b.
Proof.
  induction l as [|c l IH]; [cbn [app le_value]; change (256 ^ zlen []) with 1; lia|].
  cbn [app le_value]. rewrite IH, zlen_cons, Z.pow_add_r by (pose proof (zlen_nonneg l); lia). lia.
Qed.

Lemma back_snoc l b : back (l ++ [b]) = b.
Proof. apply last_last. Qed.

Lemma clear_sign_bit m j : 0 <= j -> 0 <= m < 2 ^ j ->
  Z.land (m + 2 ^ j) (Z.lnot (2 ^ j)) = m.
Proof.
  intros Hj Hm. rewrite <- Z.ldiff_land.
  rewrite <- Z.sub_nocarry_ldiff; [lia|].
  apply Z.bits_inj'. intros i Hi. rewrite Z.ldiff_spec, Z.pow2_bits_eqb, Z.bits_0 by lia.
  destruct (Z.eqb_spec j i) as [<-|]; [|done]. cbn [andb]. apply negb_false_iff.
  apply Z.testbit_true; [done|]. rewrite Z.add_comm.
  replace ((2 ^ j + m) / 2 ^ j) with 1; [done|].
  replace (2 ^ j + m) with (m + 1 * 2 ^ j) by lia. rewrite Z.div_add by lia.
  rewrite Z.div_small; lia.
Qed.

(** Sign and magnitude: the top bit of the last byte is the sign. *)
Lemma set_vch_value l b : is_bytes (l ++ [b]) -> zlen l <= 6 ->
  set_vch (l ++ [b]) =
    (if 128 <=? b then - (le_value l + 256 ^ zlen l * (b - 128)) else le_value l + 256 ^ zlen l * b).
Proof.
  intros Hl Hlen. pose proof (proj1 (is_bytes_app _ _) Hl) as [Hl1 Hb].
  apply Forall_inv in Hb. unfold is_u8 in Hb.
  pose proof (le_value_range l Hl1) as Hr. change (Z.of_nat (length l)) with (zlen l) in Hr.
  pose proof (zlen_nonneg l).
  assert (Hset : set_vch_loop 0 0 (l ++ [b]) = le_value l + 256 ^ zlen l * b).
  { rewrite set_vch_loop_value by (autorewrite with zlen; done || lia).
    rewrite le_value_snoc. change (2 ^ (8 * 0)) with 1. lia. }
  assert (Hpow : 256 ^ zlen l = 2 ^ (8 * zlen l)) by (rewrite Z.pow_mul_r by lia; done).
  assert (Hsmall : 2 ^ (8 * zlen l) <= 2 ^ 48) by (apply Z.pow_le_mono_r; lia).
  unfold set_vch. destruct (l ++ [b]) as [|x t] eqn:E; [by destruct l|]. rewrite <- E in *.
  rewrite Hset, back_snoc, byte_sign by done. destruct (Z.leb_spec 128 b); [|done].
  rewrite u64_id by (unfold is_u64; nia).
  replace (8 * (zlen (l ++ [b]) - 1)) with (8 * zlen l) by (autorewrite with zlen; lia).
  assert (Hj : 2 ^ (8 * zlen l + 7) = 128 * 2 ^ (8 * zlen l)) by (rewrite Z.pow_add_r by lia; lia).
  replace (Z.shiftl 0x80 (8 * zlen l)) with (2 ^ (8 * zlen l + 7))
    by (rewrite Z.shiftl_mul_pow2 by lia; lia).
  replace (le_value l + 256 ^ zlen l * b)
    with (le_value l + 256 ^ zlen l * (b - 128) + 2 ^ (8 * zlen l + 7)) by nia.
  rewrite clear_sign_bit by nia.
  rewrite !i64_id; [done|unfold is_i64; nia|rewrite i64_id; unfold is_i64; nia].
Qed.

(** The digits of a non-zero number and how [serialize] adds the sign. *)
Lemma serialize_digits v : v <> 0 -> - 2 ^ 63 < v < 2 ^ 63 ->
  exists f c, is_bytes (f ++ [c]) /\ c <> 0 /\ Z.abs v = le_value f + 256 ^ zlen f * c /\
    CScriptNum_serialize v =
      (if 128 <=? c then (f ++ [c]) ++ [if v <? 0 then 128 else 0]
       else f ++ [if v <? 0 then c + 128 else c]).
Proof.
  intros Hv Hr. unfold CScriptNum_serialize. rewrite (proj2 (Z.eqb_neq _ _)) by done.
  assert (Ha : (if v <? 0 then - v else v) = Z.abs v) by (case_bool; lia). rewrite Ha.
  rewrite u64_id by (unfold is_u64; lia).
  destruct (abs_loop_spec 8 (Z.abs v) ltac:(cbn; lia)) as (Hb & Hk & Hl).
  destruct (exists_last (l := abs_loop 8 (Z.abs v))) as (f & c & E).
  { intros E. rewrite E in Hk. done. }
  rewrite E in *. exists f, c. rewrite back_snoc in *.
  assert (Hc : is_u8 c) by (apply is_bytes_app in Hb as [_ Hb]; by apply Forall_inv in Hb).
  split_and!; [done..|by rewrite <- le_value_snoc|].
  rewrite byte_sign by done. destruct (Z.leb_spec 128 c); [by case_bool|].
  rewrite removelast_last. case_bool; [|done].
  rewrite lor_128; [done|]. unfold is_u8 in Hc. lia.
Qed.

Lemma pow256_bound (f : bytes) c k : 0 <= zlen f -> 1 <= k -> 1 <= c ->
  256 ^ zlen f * c < 2 ^ (8 * k - 1) -> zlen f + (if 128 <=? c then 2 else 1) <= k.
Proof.
  intros Hf Hk Hc H.
  assert (Hp : 256 ^ zlen f = 2 ^ (8 * zlen f)) by (rewrite Z.pow_mul_r by lia; done).
  assert (H0 : forall j, 0 <= j -> 2 ^ j <= 256 ^ zlen f * c -> j < 8 * k - 1).
  { intros j Hj Hle. apply (Z.pow_lt_mono_r_iff 2); lia. }
  destruct (Z.leb_spec 128 c).
  - specialize (H0 (8 * zlen f + 7) ltac:(lia)). rewrite Z.pow_add_r in H0 by lia.
    specialize (H0 ltac:(nia)). lia.
  - specialize (H0 (8 * zlen f) ltac:(lia) ltac:(nia)). lia.
Qed.

(** The minimality test of the constructor. *)
Definition minimal (vch : bytes) : bool :=
  negb ((zlen vch >? 0) && (Z.land (back vch) 0x7f =? 0)
        && ((zlen vch <=? 1) || (Z.land (nth (length vch - 2) vch 0) 0x80 =? 0))).

Lemma CScriptNum_minimal vch k :
  CScriptNum vch true k = if (zlen vch <=? k) && minimal vch then Some (set_vch vch) else None.
Proof.
  unfold CScriptNum, minimal. rewrite Z.gtb_ltb, Z.ltb_antisym. cbn [andb].
  destruct (zlen vch <=? k); [|done]. cbn [negb andb]. by destruct (_ && _ && _).
Qed.

Lemma nth_snoc2 f c d : nth (length ((f ++ [c]) ++ [d]) - 2) ((f ++ [c]) ++ [d]) 0 = c.
Proof.
  rewrite !length_app. cbn [length]. replace (length f + 1 + 1 - 2)%nat with (length f) by lia.
  rewrite app_nth1, app_nth2, Nat.sub_diag by (rewrite ?length_app; cbn; lia). done.
Qed.

Lemma minimal_snoc f b : is_bytes (f ++ [b]) ->
  minimal (f ++ [b]) = negb (b mod 128 =? 0) || (0 <? zlen f) && (128 <=? back f).
Proof.
  intros Hb. apply is_bytes_app in Hb as [Hf Hb]. apply Forall_inv in Hb.
  unfold minimal. rewrite back_snoc, byte_magnitude by done.
  autorewrite with zlen. pose proof (zlen_nonneg f).
  rewrite Z.gtb_ltb, (proj2 (Z.ltb_lt 0 _)) by lia. cbn [andb].
  destruct (b mod 128 =? 0); [|done]. cbn [andb negb orb].
  destruct (Z.leb_spec (zlen f + (1 + 0)) 1), (Z.ltb_spec 0 (zlen f)); try lia; try done.
  destruct (exists_last (l := f)) as (g & c & ->); [by intros ->|].
  rewrite nth_snoc2, back_snoc. cbn [orb andb].
  rewrite <- byte_sign; [done|]. apply is_bytes_app in Hf as [_ Hc]. by apply Forall_inv in Hc.
Qed.

Lemma serialize_minimal v k : 1 <= k <= 7 -> Z.abs v < 2 ^ (8 * k - 1) ->
  CScriptNum (CScriptNum_serialize v) true k = Some v.
Proof.
  intros Hk Hv. destruct (Z.eq_dec v 0) as [->|Hz].
  { change (CScriptNum_serialize 0) with ([] : bytes). rewrite CScriptNum_minimal.
    change (zlen ([] : bytes)) with 0. by rewrite (proj2 (Z.leb_le 0 k)) by lia. }
  assert (2 ^ (8 * k - 1) <= 2 ^ 55) by (apply Z.pow_le_mono_r; lia).
  destruct (serialize_digits v Hz ltac:(lia)) as (f & c & Hb & Hc & Ha & ->).
  pose proof (zlen_nonneg f). pose proof (proj1 (is_bytes_app _ _) Hb) as [Hf Hc8].
  apply Forall_inv in Hc8. pose proof (le_value_range f Hf). change (Z.of_nat (length f)) with (zlen f) in *.
  unfold is_u8 in Hc8.
  assert (Hlen : zlen f + (if 128 <=? c then 2 else 1) <= k)
    by (apply pow256_bound; [lia..|nia]).
  rewrite CScriptNum_minimal. revert Hlen. destruct (Z.leb_spec 128 c); intros Hlen.
  - assert (Hsb : is_bytes ((f ++ [c]) ++ [if v <? 0 then 128 else 0]))
      by (apply is_bytes_app; split; [done|constructor; [case_bool; unfold is_u8; lia|done]]).
    rewrite minimal_snoc, back_snoc by done. autorewrite with zlen.
    rewrite (proj2 (Z.leb_le _ k)), (proj2 (Z.ltb_lt 0 _)), (proj2 (Z.leb_le 128 c)) by lia.
    rewrite orb_true_r. cbn [andb].
    rewrite set_vch_value by (done || autorewrite with zlen; lia). rewrite le_value_snoc.
    autorewrite with zlen. destruct (Z.ltb_spec v 0); [change (128 <=? 128) with true
      | change (128 <=? 0) with false]; cbn [andb]; f_equal; lia.
  - assert (Hsb : is_bytes (f ++ [if v <? 0 then c + 128 else c]))
      by (apply is_bytes_app; split; [done|constructor; [case_bool; unfold is_u8; lia|done]]).
    rewrite minimal_snoc by done. autorewrite with zlen.
    rewrite (proj2 (Z.leb_le _ k)) by lia.
    rewrite (proj2 (Z.eqb_neq _ 0)) by (case_bool; zlia). cbn [andb orb negb].
    rewrite set_vch_value by (done || lia).
    destruct (Z.ltb_spec v 0); case_bool; try lia; f_equal; lia.
Qed.

Lemma serialize_of_digits (neg : bool) l :
  is_bytes l -> back l <> 0 -> zlen l <= 7 ->
  CScriptNum_serialize (if neg then - le_value l else le_value l) =
    (if 128 <=? back l then l ++ [if neg then 128 else 0]
     else if neg then removelast l ++ [back l + 128] else l).
Proof.
  intros Hl Hbk Hl8. set (m := le_value l).
  assert (Hm0 : 0 < m < 2 ^ 64).
  { pose proof (le_value_range l Hl) as Hr. change (Z.of_nat (length l)) with (zlen l) in Hr. fold m in Hr.
    assert (256 ^ zlen l <= 256 ^ 7) by (apply Z.pow_le_mono_r; lia).
    destruct (Z.eq_dec m 0) as [Hz|]; [|lia]. exfalso.
    assert (Ha : abs_loop (length l) (le_value l) = l) by (by apply abs_loop_le_value).
    fold m in Ha. rewrite Hz in Ha. destruct l; done. }
  unfold CScriptNum_serialize. rewrite (proj2 (Z.eqb_neq _ 0)) by (destruct neg; lia).
  assert (((if neg then - m else m) <? 0) = neg) as -> by (destruct neg; case_bool; lia).
  replace (if neg then - (if neg then - m else m) else if neg then - m else m) with m
    by (destruct neg; lia).
  rewrite u64_id by (unfold is_u64; lia). subst m. rewrite abs_loop_le_value by (done || unfold zlen in *; lia).
  assert (Hbk8 : is_u8 (back l)).
  { destruct (exists_last (l := l)) as (l' & c & ->); [by intros ->|].
    rewrite back_snoc. apply is_bytes_app in Hl as [_ Hl]. by apply Forall_inv in Hl. }
  rewrite byte_sign by done. destruct (Z.leb_spec 128 (back l)); [done|].
  unfold is_u8 in Hbk8. by rewrite lor_128 by lia.
Qed.

Lemma minimal_serialize vch k v : is_bytes vch -> k <= 7 ->
  CScriptNum vch true k = Some v -> vch = CScriptNum_serialize v.
Proof.
  intros Hb Hk. rewrite CScriptNum_minimal. case_match eqn:Hm; [|done]. intros [= <-].
  apply andb_prop in Hm as [Hlen Hmin]. apply Z.leb_le in Hlen.
  destruct vch as [|x t] eqn:E; [done|]. rewrite <- E in *.
  destruct (exists_last (l := vch)) as (f & b & E2); [by rewrite E|].
  clear E x t. subst vch. rewrite zlen_app in Hlen. change (zlen [b]) with 1 in Hlen.
  rewrite minimal_snoc in Hmin by done. rewrite set_vch_value by (done || lia).
  pose proof (proj1 (is_bytes_app _ _) Hb) as [Hf Hb8]. apply Forall_inv in Hb8.
  unfold is_u8 in Hb8. destruct (Z.eqb_spec (b mod 128) 0) as [Hz|Hz]; cbn [negb orb] in Hmin.
  - apply andb_prop in Hmin as [Hf0 Hbk]. apply Z.ltb_lt in Hf0. apply Z.leb_le in Hbk.
    pose proof (serialize_of_digits (128 <=? b) f Hf ltac:(lia) ltac:(lia)) as Hs.
    rewrite (proj2 (Z.leb_le 128 (back f))) in Hs by lia.
    assert (Hb2 : b = 0 \/ b = 128) by zlia. destruct Hb2 as [-> | ->]; cbn [Z.leb] in *.
    + change (128 <=? 0) with false in *. rewrite <- Hs. f_equal. lia.
    + change (128 <=? 128) with true in *. rewrite <- Hs. f_equal. lia.
  - assert (Hl : is_bytes (f ++ [b mod 128]))
      by (apply is_bytes_app; split; [done|constructor; [unfold is_u8; zlia|done]]).
    pose proof (serialize_of_digits (128 <=? b) (f ++ [b mod 128]) Hl) as Hs.
    rewrite back_snoc, zlen_app, removelast_last, le_value_snoc in Hs. change (zlen [_]) with 1 in Hs.
    specialize (Hs Hz ltac:(lia)). rewrite (proj2 (Z.leb_gt 128 (b mod 128))) in Hs by zlia.
    destruct (Z.leb_spec 128 b).
    + replace (b mod 128) with (b - 128) in Hs by zlia. rewrite Hs. do 2 f_equal. lia.
    + replace (b mod 128) with b in Hs by zlia. rewrite Hs. done.
Qed.

(** Script numbers of up to [k] bytes (4 for arithmetic, 5 for lock times):
    serialization gives a minimal encoding that decodes to the number whenever
    the number is below 2^(8k-1) in absolute value, and under the minimality
    rule it is the only encoding accepted, so no number has two. *)
Theorem CScriptNum_canonical k (Hk : 1 <= k <= 7) :
  (forall v, Z.abs v < 2 ^ (8 * k - 1) -> CScriptNum (CScriptNum_serialize v) true k = Some v) /\
  (forall vch v, is_bytes vch -> CScriptNum vch true k = Some v -> vch = CScriptNum_serialize v).
Proof.
  split; [intros; by apply serialize_minimal|]. intros. eapply minimal_serialize; [done| |done]. lia.
Qed.

Lemma CScriptNum_canonical_witness :
  CScriptNum (CScriptNum_serialize (-255)) true 4 = Some (-255) /\
  [0xff; 0x80] = CScriptNum_serialize (-255).
Proof.
  destruct (CScriptNum_canonical 4 ltac:(lia)) as [H1 H2]. split; [apply H1; lia|].
  apply H2; [repeat constructor; lia|reflexivity].
Defined.

(** ** Data carriers *)

(** The script that pushes the items of a list. *)
Definition pushes (items : list bytes) : bytes := concat (map (fun b => push_data b []) items).

Lemma push_data_app b s : push_data b s = s ++ push_data b [].
Proof. unfold push_data. done. Qed.

Lemma push_data_cons b : exists c t, push_data b [] = c :: t.
Proof. unfold push_data. repeat case_match; cbn; eauto. Qed.

Lemma push_data_length b : (0 < length (push_data b []))%nat.
Proof. destruct (push_data_cons b) as (? & ? & ->). cbn. lia. Qed.

Lemma push_code_range b : 0 < zlen b -> 0 < push_code b <= OP_PUSHDATA4.
Proof.
  intros. unfold push_code. repeat case_bool; unfold OP_PUSHDATA1, OP_PUSHDATA2, OP_PUSHDATA4 in *; lia.
Qed.

Lemma pushed_value_push b : 0 < zlen b -> pushed_value (push_code b) b = Some b.
Proof.
  intros Hb. pose proof (push_code_range b Hb). unfold pushed_value.
  unfold OP_0, OP_1, OP_16, OP_PUSHDATA4 in *.
  rewrite (proj2 (Z.eqb_neq _ 0)), (Z.geb_leb _ 81), (proj2 (Z.leb_gt 81 _)) by lia. cbn [andb].
  by rewrite !Z.gtb_ltb, !(proj2 (Z.ltb_lt 0 _)), (proj2 (Z.leb_le _ _)) by lia.
Qed.

Lemma pushed_loop_pushes items fuel acc :
  Forall (fun b => 0 < zlen b < 2 ^ 32) items -> (length (pushes items) <= fuel)%nat ->
  pushed_loop fuel acc (pushes items) = (negb (zlen (acc ++ items) =? 0), acc ++ items).
Proof.
  intros Hi. revert fuel acc. induction Hi as [|b items Hb Hi IH]; intros fuel acc Hf.
  { rewrite app_nil_r. by destruct fuel. }
  unfold pushes in *. cbn [map concat] in *. rewrite length_app in Hf.
  pose proof (push_data_length b). destruct fuel as [|fuel]; [lia|]. cbn [pushed_loop].
  destruct (push_data_cons b) as (c & t & E). rewrite E at 1. cbn [app].
  rewrite GetOp2_push_data by lia. cbn [op_ok op_code op_data op_rest].
  rewrite pushed_value_push by lia. rewrite IH by lia. by rewrite <- app_assoc.
Qed.

(** A data carrier script, [OP_RETURN] followed by pushes of non-empty
    items below 4 GB made with [operator<<], is read back by [GetOpretData] as
    exactly that list of items. *)
Theorem GetOpretData_roundtrip items :
  items <> [] -> Forall (fun b => 0 < zlen b < 2 ^ 32) items ->
  GetOpretData (fold_left (fun s b => push_data b s) items (push_opcode OP_RETURN [])) =
    (true, items).
Proof.
  intros Hn Hi.
  assert (Hf : forall s, fold_left (fun s b => push_data b s) items s = s ++ pushes items).
  { unfold pushes. clear. induction items as [|b items IH]; intros s; cbn; [by rewrite app_nil_r|].
    by rewrite IH, push_data_app, app_assoc. }
  rewrite Hf. unfold GetOpretData.
  change (push_opcode OP_RETURN [] ++ pushes items) with (OP_RETURN :: pushes items).
  change (GetOp2 (OP_RETURN :: pushes items)) with (mkOpRead true OP_RETURN [] (pushes items)).
  cbn [op_ok op_code op_rest andb]. rewrite Z.eqb_refl. unfold GetPushedData.
  rewrite pushed_loop_pushes by done. cbn [app]. f_equal.
  destruct items; [done|]. rewrite zlen_cons. pose proof (zlen_nonneg items).
  by rewrite (proj2 (Z.eqb_neq _ _)) by lia.
Qed.

Lemma GetOpretData_roundtrip_witness :
  GetOpretData [0x6a; 2; 7; 8; 1; 0] = (true, [[7; 8]; [0]]).
Proof.
  apply (GetOpretData_roundtrip [[7; 8]; [0]]); [discriminate|].
  repeat constructor; vm_compute; reflexivity.
Defined.

(** ** Time locks *)

Lemma lor_fold_value l : is_bytes l -> zlen l <= 7 ->
  fold_right (fun b t => Z.lor (i64 (Z.shiftl t 8)) b) 0 l = le_value l.
Proof.
  induction 1 as [|b l Hb Hl IH]; [done|]. rewrite zlen_cons. intros Hlen.
  cbn [fold_right le_value]. rewrite IH by lia. unfold is_u8 in Hb.
  pose proof (le_value_range l Hl) as Hr. change (Z.of_nat (length l)) with (zlen l) in Hr.
  assert (256 ^ zlen l <= 256 ^ 6) by (apply Z.pow_le_mono_r; lia).
  rewrite Z.shiftl_mul_pow2, i64_id by (lia || (unfold is_i64; lia)).
  rewrite (lor_low _ _ 8) by (lia || by apply Z_mod_mult). lia.
Qed.

Lemma serialize_positive t : 0 < t < 2 ^ 39 ->
  let l := CScriptNum_serialize t in
  is_bytes l /\ 0 < zlen l <= 5 /\ le_value l = t.
Proof.
  intros Ht l. pose proof (serialize_minimal t 5 ltac:(lia) ltac:(lia)) as Hm.
  destruct (serialize_digits t ltac:(lia) ltac:(lia)) as (f & c & Hb & Hc & Ha & Hs).
  fold l in Hs, Hm. rewrite (proj2 (Z.ltb_ge t 0)) in Hs by lia.
  rewrite CScriptNum_minimal in Hm.
  assert (Hg : zlen l <= 5) by (destruct (Z.leb_spec (zlen l) 5); [lia|done]).
  pose proof (zlen_nonneg f). rewrite Hs in *. destruct (Z.leb_spec 128 c).
  - split_and!; [apply is_bytes_app; split; [done|constructor; [unfold is_u8; lia|constructor]]
                |autorewrite with zlen; lia|lia|].
    rewrite !le_value_snoc. lia.
  - split_and!; [done|autorewrite with zlen; lia|lia|]. rewrite le_value_snoc. lia.
Qed.

(** The lock time of a time-locked payment script, of any positive value
    below 2^39, is recovered by [IsCheckLockTimeVerify]. *)
Theorem TimeLockSpend_roundtrip key t :
  0 < t < 2 ^ 39 -> IsCheckLockTimeVerify (TimeLockSpend key t) = Some (Some t).
Proof.
  intros Ht. destruct (serialize_positive t Ht) as (Hb & Hl & Hv).
  unfold TimeLockSpend, AddCheckLockTimeVerify, AddPayToPubKeyHash.
  rewrite Z.gtb_ltb, (proj2 (Z.ltb_lt 0 t)) by lia.
  set (num := CScriptNum_serialize t) in *. rewrite (push_data_app key).
  unfold push_opcode. rewrite <- !app_assoc.
  unfold IsCheckLockTimeVerify. rewrite GetOp2_push_data by lia. cbn [op_ok op_data andb].
  rewrite (proj2 (Z.ltb_lt (zlen num) 6)) by lia.
  assert (Hp : length (push_data num []) = (length num + 1)%nat).
  { unfold push_data. rewrite (proj2 (Z.ltb_lt (zlen num) OP_PUSHDATA1)) by (unfold OP_PUSHDATA1; lia).
    cbn [app length]. lia. }
  rewrite lookup_app_r, Hp, Nat.sub_diag by lia. cbn [app].
  change ((u8 OP_CHECKLOCKTIMEVERIFY :: ?l) !! 0%nat) with (Some (u8 OP_CHECKLOCKTIMEVERIFY)).
  change (u8 OP_CHECKLOCKTIMEVERIFY =? OP_CHECKLOCKTIMEVERIFY) with true.
  rewrite lor_fold_value by (done || lia). by rewrite Hv.
Qed.

Lemma TimeLockSpend_roundtrip_witness :
  IsCheckLockTimeVerify (TimeLockSpend (repeat 7 20) 1600000000) = Some (Some 1600000000).
Proof. apply TimeLockSpend_roundtrip. lia. Defined.
