(* ===== verification/Interpreter.v ===== *)
(** * The script interpreter (src/src/script/interpreter.{h,cpp},
      src/src/script/script_error.h)

    Signature and key encodings, the stack machine [EvalScript] and
    [VerifyScript].  A stack is the list of its elements, the top first, so
    [stacktop(-1)] is the head; [vfExec] likewise has its back first.  A [return
    set_error(...)] is [inl] of the error; an exception thrown inside the loop
    is caught by [EvalScript] and becomes [SCRIPT_ERR_UNKNOWN_ERROR].

    Signature checking, lock times and crypto-conditions are the interface
    [BaseSignatureChecker]; the hash functions and the curve order test are
    parameters. *)
From S2P Require Import Prelude Serialize Transaction Compressor Interest Script.

(** ** Errors and flags *)

Inductive ScriptError :=
| SCRIPT_ERR_OK
| SCRIPT_ERR_UNKNOWN_ERROR
| SCRIPT_ERR_EVAL_FALSE
| SCRIPT_ERR_OP_RETURN
| SCRIPT_ERR_SCRIPT_SIZE
| SCRIPT_ERR_PUSH_SIZE
| SCRIPT_ERR_OP_COUNT
| SCRIPT_ERR_STACK_SIZE
| SCRIPT_ERR_SIG_COUNT
| SCRIPT_ERR_PUBKEY_COUNT
| SCRIPT_ERR_VERIFY
| SCRIPT_ERR_EQUALVERIFY
| SCRIPT_ERR_CHECKMULTISIGVERIFY
| SCRIPT_ERR_CHECKSIGVERIFY
| SCRIPT_ERR_NUMEQUALVERIFY
| SCRIPT_ERR_BAD_OPCODE
| SCRIPT_ERR_DISABLED_OPCODE
| SCRIPT_ERR_INVALID_STACK_OPERATION
| SCRIPT_ERR_INVALID_ALTSTACK_OPERATION
| SCRIPT_ERR_UNBALANCED_CONDITIONAL
| SCRIPT_ERR_NEGATIVE_LOCKTIME
| SCRIPT_ERR_UNSATISFIED_LOCKTIME
| SCRIPT_ERR_SIG_HASHTYPE
| SCRIPT_ERR_SIG_DER
| SCRIPT_ERR_MINIMALDATA
| SCRIPT_ERR_SIG_PUSHONLY
| SCRIPT_ERR_SIG_HIGH_S
| SCRIPT_ERR_SIG_NULLDUMMY
| SCRIPT_ERR_PUBKEYTYPE
| SCRIPT_ERR_CLEANSTACK
| SCRIPT_ERR_DISCOURAGE_UPGRADABLE_NOPS
| SCRIPT_ERR_ERROR_COUNT
| SCRIPT_ERR_CRYPTOCONDITION_VERIFY
| SCRIPT_ERR_CRYPTOCONDITION_INVALID_FULFILLMENT.

#[global] Instance ScriptError_eq_dec : EqDecision ScriptError.
Proof. solve_decision. Defined.

Definition SCRIPT_VERIFY_P2SH : Z := 2 ^ 0.
Definition SCRIPT_VERIFY_STRICTENC : Z := 2 ^ 1.
Definition SCRIPT_VERIFY_LOW_S : Z := 2 ^ 3.
Definition SCRIPT_VERIFY_NULLDUMMY : Z := 2 ^ 4.
Definition SCRIPT_VERIFY_SIGPUSHONLY : Z := 2 ^ 5.
Definition SCRIPT_VERIFY_MINIMALDATA : Z := 2 ^ 6.
Definition SCRIPT_VERIFY_DISCOURAGE_UPGRADABLE_NOPS : Z := 2 ^ 7.
Definition SCRIPT_VERIFY_CLEANSTACK : Z := 2 ^ 8.
Definition SCRIPT_VERIFY_CHECKLOCKTIMEVERIFY : Z := 2 ^ 9.

Definition has_flag (flags f : Z) : bool := negb (Z.land flags f =? 0).

Definition SIGHASH_ALL : Z := 1.
Definition SIGHASH_NONE : Z := 2.
Definition SIGHASH_SINGLE : Z := 3.
Definition SIGHASH_ANYONECANPAY : Z := 0x80.

(** The error monad of the loop. *)
Abbreviation exec := (sum ScriptError).
#[global] Instance exec_ret : MRet exec := fun A a => inr a.
#[global] Instance exec_bind : MBind exec := fun A B f m =>
  match m with inl e => inl e | inr a => f a end.

Definition thrown {A} : exec A := inl SCRIPT_ERR_UNKNOWN_ERROR.

Definition of_throw {A} (o : option A) : exec A :=
  match o with Some a => inr a | None => thrown end.

(** ** Values and encodings *)

Abbreviation valtype := (list Z).

Fixpoint CastToBool (vch : valtype) : bool :=
  match vch with
  | [] => false
  | b :: vch =>
    if negb (b =? 0) then
      match vch with [] => negb (b =? 0x80) | _ => true end
    else CastToBool vch
  end.

Definition IsCompressedOrUncompressedPubKey (k : valtype) : bool :=
  if zlen k <? 33 then false
  else if at_ k 0 =? 0x04 then zlen k =? 65
  else if (at_ k 0 =? 0x02) || (at_ k 0 =? 0x03) then zlen k =? 33
  else false.

Definition bit7 (b : Z) : bool := negb (Z.land b 0x80 =? 0).

Definition IsValidSignatureEncoding (sig : valtype) : bool :=
  if zlen sig <? 9 then false
  else if zlen sig >? 73 then false
  else if negb (at_ sig 0 =? 0x30) then false
  else if negb (at_ sig 1 =? zlen sig - 3) then false
  else
    let lenR := at_ sig 3 in
    if 5 + lenR >=? zlen sig then false
    else
      let lenS := at_ sig (Z.to_nat (5 + lenR)) in
      if negb (lenR + lenS + 7 =? zlen sig) then false
      else if negb (at_ sig 2 =? 0x02) then false
      else if lenR =? 0 then false
      else if bit7 (at_ sig 4) then false
      else if (lenR >? 1) && (at_ sig 4 =? 0x00) && negb (bit7 (at_ sig 5)) then false
      else if negb (at_ sig (Z.to_nat (lenR + 4)) =? 0x02) then false
      else if lenS =? 0 then false
      else if bit7 (at_ sig (Z.to_nat (lenR + 6))) then false
      else negb ((lenS >? 1) && (at_ sig (Z.to_nat (lenR + 6)) =? 0x00)
                 && negb (bit7 (at_ sig (Z.to_nat (lenR + 7))))).

Definition IsDefinedHashtypeSignature (vchSig : valtype) : bool :=
  if zlen vchSig =? 0 then false
  else
    let nHashType := Z.land (back vchSig) (u8 (Z.lnot SIGHASH_ANYONECANPAY)) in
    negb ((nHashType <? SIGHASH_ALL) || (nHashType >? SIGHASH_SINGLE)).

Definition CheckMinimalPush (data : valtype) (opcode : Z) : bool :=
  if zlen data =? 0 then opcode =? OP_0
  else if (zlen data =? 1) && (at_ data 0 >=? 1) && (at_ data 0 <=? 16)
  then opcode =? OP_1 + (at_ data 0 - 1)
  else if (zlen data =? 1) && (at_ data 0 =? 0x81) then opcode =? OP_1NEGATE
  else if zlen data <=? 75 then opcode =? zlen data
  else if zlen data <=? 255 then opcode =? OP_PUSHDATA1
  else if zlen data <=? 65535 then opcode =? OP_PUSHDATA2
  else true.

Section Encodings.
(** [CPubKey::CheckLowS] of libsecp256k1. *)
Variable CheckLowS : bytes -> bool.

(** The result and [*serror] afterwards: a high S leaves it as it was. *)
Definition IsLowDERSignature (vchSig : valtype) (serror : ScriptError) : bool * ScriptError :=
  if negb (IsValidSignatureEncoding vchSig) then (false, SCRIPT_ERR_SIG_DER)
  else (CheckLowS (removelast vchSig), serror).

Definition CheckSignatureEncoding (vchSig : valtype) (flags : Z) (serror : ScriptError)
    : bool * ScriptError :=
  if zlen vchSig =? 0 then (true, serror)
  else if negb (IsValidSignatureEncoding vchSig) then (false, SCRIPT_ERR_SIG_DER)
  else if has_flag flags SCRIPT_VERIFY_LOW_S && negb (IsLowDERSignature vchSig serror).1
  then (false, (IsLowDERSignature vchSig serror).2)
  else if has_flag flags SCRIPT_VERIFY_STRICTENC && negb (IsDefinedHashtypeSignature vchSig)
  then (false, SCRIPT_ERR_SIG_HASHTYPE)
  else (true, serror).

Definition CheckPubKeyEncoding (k : valtype) (flags : Z) (serror : ScriptError)
    : bool * ScriptError :=
  if has_flag flags SCRIPT_VERIFY_STRICTENC && negb (IsCompressedOrUncompressedPubKey k)
  then (false, SCRIPT_ERR_PUBKEYTYPE) else (true, serror).

(** The two checks in the order of CHECKSIG; inside the loop [*serror] is
    [SCRIPT_ERR_UNKNOWN_ERROR]. *)
Definition check_encodings (vchSig vchPubKey : valtype) (flags : Z) : exec unit :=
  let r := CheckSignatureEncoding vchSig flags SCRIPT_ERR_UNKNOWN_ERROR in
  if negb r.1 then inl r.2
  else
    let r := CheckPubKeyEncoding vchPubKey flags SCRIPT_ERR_UNKNOWN_ERROR in
    if negb r.1 then inl r.2 else inr tt.
End Encodings.

(** ** The machine *)

(** The virtual methods of [BaseSignatureChecker]: signature, key, script code
    and branch id; condition, fulfillment, script code and branch id. *)
Record BaseSignatureChecker := mkChecker {
  CheckSig : valtype -> valtype -> bytes -> Z -> bool;
  CheckLockTime : Z -> bool;
  CheckCryptoCondition : valtype -> valtype -> bytes -> Z -> Z
}.

Record hashers := mkHashers {
  h_RIPEMD160 : bytes -> bytes; h_SHA1 : bytes -> bytes; h_SHA256 : bytes -> bytes;
  h_Hash160 : bytes -> bytes; h_Hash256 : bytes -> bytes
}.

Record exec_state := mkExec {
  x_stack : list valtype; x_altstack : list valtype; x_vfExec : list bool; x_nOpCount : Z
}.

Definition set_stack (s : exec_state) (stk : list valtype) : exec_state :=
  mkExec stk (x_altstack s) (x_vfExec s) (x_nOpCount s).

Definition set_vfExec (s : exec_state) (v : list bool) : exec_state :=
  mkExec (x_stack s) (x_altstack s) v (x_nOpCount s).

Definition vchTrue : valtype := [1].
Definition vchFalse : valtype := [].
Definition vch_bool (b : bool) : valtype := if b then vchTrue else vchFalse.

Definition bad_stack {A} : exec A := inl SCRIPT_ERR_INVALID_STACK_OPERATION.

(** What the VERIFY form of an opcode does with the boolean just pushed. *)
Definition verify_top (is_verify ok : bool) (e : ScriptError) (v : valtype) (stk : list valtype)
    : exec (list valtype) :=
  if is_verify then if ok then inr stk else inl e else inr (v :: stk).

Definition is_disabled (opcode : Z) : bool :=
  existsb (Z.eqb opcode)
    [OP_CAT; OP_SUBSTR; OP_LEFT; OP_RIGHT; OP_INVERT; OP_AND; OP_OR; OP_XOR; OP_2MUL; OP_2DIV;
     OP_MUL; OP_DIV; OP_MOD; OP_LSHIFT; OP_RSHIFT; OP_CODESEPARATOR].

(** Stack manipulation: [OP_2DROP] to [OP_TUCK] and [OP_SIZE]. *)
Definition op_stack (fRequireMinimal : bool) (opcode : Z) (stk : list valtype)
    : exec (list valtype) :=
  if opcode =? OP_2DROP then
    match stk with _ :: _ :: s => inr s | _ => bad_stack end
  else if opcode =? OP_2DUP then
    match stk with x2 :: x1 :: s => inr (x2 :: x1 :: x2 :: x1 :: s) | _ => bad_stack end
  else if opcode =? OP_3DUP then
    match stk with
    | x3 :: x2 :: x1 :: s => inr (x3 :: x2 :: x1 :: x3 :: x2 :: x1 :: s) | _ => bad_stack end
  else if opcode =? OP_2OVER then
    match stk with
    | x4 :: x3 :: x2 :: x1 :: s => inr (x2 :: x1 :: x4 :: x3 :: x2 :: x1 :: s)
    | _ => bad_stack end
  else if opcode =? OP_2ROT then
    match stk with
    | x6 :: x5 :: x4 :: x3 :: x2 :: x1 :: s => inr (x2 :: x1 :: x6 :: x5 :: x4 :: x3 :: s)
    | _ => bad_stack end
  else if opcode =? OP_2SWAP then
    match stk with
    | x4 :: x3 :: x2 :: x1 :: s => inr (x2 :: x1 :: x4 :: x3 :: s) | _ => bad_stack end
  else if opcode =? OP_IFDUP then
    match stk with
    | x :: s => inr (if CastToBool x then x :: x :: s else x :: s) | _ => bad_stack end
  else if opcode =? OP_DEPTH then inr (CScriptNum_serialize (zlen stk) :: stk)
  else if opcode =? OP_DROP then match stk with _ :: s => inr s | _ => bad_stack end
  else if opcode =? OP_DUP then match stk with x :: s => inr (x :: x :: s) | _ => bad_stack end
  else if opcode =? OP_NIP then match stk with x2 :: _ :: s => inr (x2 :: s) | _ => bad_stack end
  else if opcode =? OP_OVER then
    match stk with x2 :: x1 :: s => inr (x1 :: x2 :: x1 :: s) | _ => bad_stack end
  else if (opcode =? OP_PICK) || (opcode =? OP_ROLL) then
    match stk with
    | x :: ((_ :: _) as s) =>
      num ← of_throw (CScriptNum x fRequireMinimal nDefaultMaxNumSize);
      let n := getint num in
      if (n <? 0) || (n >=? i32 (zlen s)) then bad_stack
      else
        let vch := nth (Z.to_nat n) s [] in
        inr (vch :: if opcode =? OP_ROLL then delete (Z.to_nat n) s else s)
    | _ => bad_stack
    end
  else if opcode =? OP_ROT then
    match stk with x3 :: x2 :: x1 :: s => inr (x1 :: x3 :: x2 :: s) | _ => bad_stack end
  else if opcode =? OP_SWAP then
    match stk with x2 :: x1 :: s => inr (x1 :: x2 :: s) | _ => bad_stack end
  else if opcode =? OP_TUCK then
    match stk with x2 :: x1 :: s => inr (x2 :: x1 :: x2 :: s) | _ => bad_stack end
  else if opcode =? OP_SIZE then
    match stk with x :: s => inr (CScriptNum_serialize (zlen x) :: x :: s) | _ => bad_stack end
  else inl SCRIPT_ERR_BAD_OPCODE.

Definition is_stack_op (opcode : Z) : bool :=
  (OP_2DROP <=? opcode) && (opcode <=? OP_TUCK) || (opcode =? OP_SIZE).

Definition op_equal (opcode : Z) (stk : list valtype) : exec (list valtype) :=
  match stk with
  | x2 :: x1 :: s =>
    let fEqual := bool_decide (x1 = x2) in
    verify_top (opcode =? OP_EQUALVERIFY) fEqual SCRIPT_ERR_EQUALVERIFY (vch_bool fEqual) s
  | _ => bad_stack
  end.

Definition of_bool (b : bool) : Z := if b then 1 else 0.

Definition is_unary (opcode : Z) : bool :=
  existsb (Z.eqb opcode) [OP_1ADD; OP_1SUB; OP_NEGATE; OP_ABS; OP_NOT; OP_0NOTEQUAL].

Definition op_unary (fRequireMinimal : bool) (opcode : Z) (stk : list valtype)
    : exec (list valtype) :=
  match stk with
  | x :: s =>
    bn ← of_throw (CScriptNum x fRequireMinimal nDefaultMaxNumSize);
    let r :=
      if opcode =? OP_1ADD then bn + 1
      else if opcode =? OP_1SUB then bn - 1
      else if opcode =? OP_NEGATE then - bn
      else if opcode =? OP_ABS then if bn <? 0 then - bn else bn
      else if opcode =? OP_NOT then of_bool (bn =? 0)
      else of_bool (negb (bn =? 0)) in
    inr (CScriptNum_serialize r :: s)
  | _ => bad_stack
  end.

Definition is_binary (opcode : Z) : bool :=
  existsb (Z.eqb opcode)
    [OP_ADD; OP_SUB; OP_BOOLAND; OP_BOOLOR; OP_NUMEQUAL; OP_NUMEQUALVERIFY; OP_NUMNOTEQUAL;
     OP_LESSTHAN; OP_GREATERTHAN; OP_LESSTHANOREQUAL; OP_GREATERTHANOREQUAL; OP_MIN; OP_MAX].

Definition op_binary (fRequireMinimal : bool) (opcode : Z) (stk : list valtype)
    : exec (list valtype) :=
  match stk with
  | x2 :: x1 :: s =>
    bn1 ← of_throw (CScriptNum x1 fRequireMinimal nDefaultMaxNumSize);
    bn2 ← of_throw (CScriptNum x2 fRequireMinimal nDefaultMaxNumSize);
    let r :=
      if opcode =? OP_ADD then bn1 + bn2
      else if opcode =? OP_SUB then bn1 - bn2
      else if opcode =? OP_BOOLAND then of_bool (negb (bn1 =? 0) && negb (bn2 =? 0))
      else if opcode =? OP_BOOLOR then of_bool (negb (bn1 =? 0) || negb (bn2 =? 0))
      else if opcode =? OP_NUMEQUAL then of_bool (bn1 =? bn2)
      else if opcode =? OP_NUMEQUALVERIFY then of_bool (bn1 =? bn2)
      else if opcode =? OP_NUMNOTEQUAL then of_bool (negb (bn1 =? bn2))
      else if opcode =? OP_LESSTHAN then of_bool (bn1 <? bn2)
      else if opcode =? OP_GREATERTHAN then of_bool (bn1 >? bn2)
      else if opcode =? OP_LESSTHANOREQUAL then of_bool (bn1 <=? bn2)
      else if opcode =? OP_GREATERTHANOREQUAL then of_bool (bn1 >=? bn2)
      else if opcode =? OP_MIN then if bn1 <? bn2 then bn1 else bn2
      else if bn1 >? bn2 then bn1 else bn2 in
    let v := CScriptNum_serialize r in
    verify_top (opcode =? OP_NUMEQUALVERIFY) (CastToBool v) SCRIPT_ERR_NUMEQUALVERIFY v s
  | _ => bad_stack
  end.

Definition op_within (fRequireMinimal : bool) (stk : list valtype) : exec (list valtype) :=
  match stk with
  | x3 :: x2 :: x1 :: s =>
    bn1 ← of_throw (CScriptNum x1 fRequireMinimal nDefaultMaxNumSize);
    bn2 ← of_throw (CScriptNum x2 fRequireMinimal nDefaultMaxNumSize);
    bn3 ← of_throw (CScriptNum x3 fRequireMinimal nDefaultMaxNumSize);
    inr (vch_bool ((bn2 <=? bn1) && (bn1 <? bn3)) :: s)
  | _ => bad_stack
  end.

Definition is_hash (opcode : Z) : bool := (OP_RIPEMD160 <=? opcode) && (opcode <=? OP_HASH256).

Definition op_hash (H : hashers) (opcode : Z) (stk : list valtype) : exec (list valtype) :=
  match stk with
  | x :: s =>
    let h := if opcode =? OP_RIPEMD160 then h_RIPEMD160 H
             else if opcode =? OP_SHA1 then h_SHA1 H
             else if opcode =? OP_SHA256 then h_SHA256 H
             else if opcode =? OP_HASH160 then h_Hash160 H
             else h_Hash256 H in
    inr (h x :: s)
  | _ => bad_stack
  end.

Section Eval.
Variable CheckLowS : bytes -> bool.
Variable H : hashers.
Variable IsCryptoConditionsEnabled : bool.
Variable checker : BaseSignatureChecker.
Variables (flags consensusBranchId : Z).

Definition fRequireMinimal : bool := has_flag flags SCRIPT_VERIFY_MINIMALDATA.

Definition op_checksig (script : bytes) (opcode : Z) (stk : list valtype) : exec (list valtype) :=
  match stk with
  | vchPubKey :: vchSig :: s =>
    _ ← check_encodings CheckLowS vchSig vchPubKey flags;
    let fSuccess := CheckSig checker vchSig vchPubKey script consensusBranchId in
    verify_top (opcode =? OP_CHECKSIGVERIFY) fSuccess SCRIPT_ERR_CHECKSIGVERIFY
      (vch_bool fSuccess) s
  | _ => bad_stack
  end.

(** [while (fSuccess && nSigsCount > 0)]: the signatures and keys not yet
    consumed, in the order the loop takes them. *)
Fixpoint multisig_loop (script : bytes) (sigs keys : list valtype) : exec bool :=
  match sigs, keys with
  | [], _ => inr true
  | _ :: _, [] => thrown
  | vchSig :: sigs', vchPubKey :: keys' =>
    _ ← check_encodings CheckLowS vchSig vchPubKey flags;
    let fOk := CheckSig checker vchSig vchPubKey script consensusBranchId in
    let sigs := if fOk then sigs' else sigs in
    if (length keys' <? length sigs)%nat then inr false else multisig_loop script sigs keys'
  end.

(** The stack and the operation count afterwards. *)
Definition op_checkmultisig (script : bytes) (opcode : Z) (stk : list valtype) (nOpCount : Z)
    : exec (list valtype * Z) :=
  match stk with
  | [] => bad_stack
  | top :: s =>
    num ← of_throw (CScriptNum top fRequireMinimal nDefaultMaxNumSize);
    let nKeysCount := getint num in
    if (nKeysCount <? 0) || (nKeysCount >? 20) then inl SCRIPT_ERR_PUBKEY_COUNT
    else
      let nOpCount := nOpCount + nKeysCount in
      if nOpCount >? 201 then inl SCRIPT_ERR_OP_COUNT
      else
        let keys := take (Z.to_nat nKeysCount) s in
        match drop (Z.to_nat nKeysCount) s with
        | [] => bad_stack
        | top2 :: s =>
          num2 ← of_throw (CScriptNum top2 fRequireMinimal nDefaultMaxNumSize);
          let nSigsCount := getint num2 in
          if (nSigsCount <? 0) || (nSigsCount >? nKeysCount) then inl SCRIPT_ERR_SIG_COUNT
          else
            let sigs := take (Z.to_nat nSigsCount) s in
            match drop (Z.to_nat nSigsCount) s with
            | [] => bad_stack
            | dummy :: s =>
              fSuccess ← multisig_loop script sigs keys;
              if has_flag flags SCRIPT_VERIFY_NULLDUMMY && negb (zlen dummy =? 0)
              then inl SCRIPT_ERR_SIG_NULLDUMMY
              else
                s ← verify_top (opcode =? OP_CHECKMULTISIGVERIFY) fSuccess
                      SCRIPT_ERR_CHECKMULTISIGVERIFY (vch_bool fSuccess) s;
                inr (s, nOpCount)
            end
        end
  end.

Definition op_cryptocondition (script : bytes) (opcode : Z) (stk : list valtype)
    : exec (list valtype) :=
  if negb IsCryptoConditionsEnabled then inl SCRIPT_ERR_BAD_OPCODE
  else
    match stk with
    | cond :: ffill :: s =>
      let fResult := CheckCryptoCondition checker cond ffill script consensusBranchId in
      if fResult =? -1 then inl SCRIPT_ERR_CRYPTOCONDITION_INVALID_FULFILLMENT
      else verify_top (opcode =? OP_CHECKCRYPTOCONDITIONVERIFY) (fResult =? 1)
             SCRIPT_ERR_CRYPTOCONDITION_VERIFY (vch_bool (fResult =? 1)) s
    | _ => bad_stack
    end.

Definition op_cltv (stk : list valtype) : exec (list valtype) :=
  if negb (has_flag flags SCRIPT_VERIFY_CHECKLOCKTIMEVERIFY) then
    if has_flag flags SCRIPT_VERIFY_DISCOURAGE_UPGRADABLE_NOPS
    then inl SCRIPT_ERR_DISCOURAGE_UPGRADABLE_NOPS else inr stk
  else
    match stk with
    | x :: _ =>
      nLockTime ← of_throw (CScriptNum x fRequireMinimal 5);
      if nLockTime <? 0 then inl SCRIPT_ERR_NEGATIVE_LOCKTIME
      else if negb (CheckLockTime checker nLockTime) then inl SCRIPT_ERR_UNSATISFIED_LOCKTIME
      else inr stk
    | _ => bad_stack
    end.

(** OP_IF, OP_NOTIF, OP_ELSE and OP_ENDIF, which also run in skipped branches. *)
Definition op_if (fExec : bool) (opcode : Z) (s : exec_state) : exec exec_state :=
  if fExec then
    match x_stack s with
    | [] => inl SCRIPT_ERR_UNBALANCED_CONDITIONAL
    | vch :: stk =>
      let fValue := if opcode =? OP_NOTIF then negb (CastToBool vch) else CastToBool vch in
      inr (set_vfExec (set_stack s stk) (fValue :: x_vfExec s))
    end
  else inr (set_vfExec s (false :: x_vfExec s)).

Definition op_else (s : exec_state) : exec exec_state :=
  match x_vfExec s with
  | [] => inl SCRIPT_ERR_UNBALANCED_CONDITIONAL
  | b :: v => inr (set_vfExec s (negb b :: v))
  end.

Definition op_endif (s : exec_state) : exec exec_state :=
  match x_vfExec s with
  | [] => inl SCRIPT_ERR_UNBALANCED_CONDITIONAL
  | _ :: v => inr (set_vfExec s v)
  end.

Definition op_verify (stk : list valtype) : exec (list valtype) :=
  match stk with
  | [] => bad_stack
  | x :: stk => if CastToBool x then inr stk else inl SCRIPT_ERR_VERIFY
  end.

Definition op_toaltstack (s : exec_state) : exec exec_state :=
  match x_stack s with
  | [] => bad_stack
  | x :: stk => inr (mkExec stk (x :: x_altstack s) (x_vfExec s) (x_nOpCount s))
  end.

Definition op_fromaltstack (s : exec_state) : exec exec_state :=
  match x_altstack s with
  | [] => inl SCRIPT_ERR_INVALID_ALTSTACK_OPERATION
  | x :: alt => inr (mkExec (x :: x_stack s) alt (x_vfExec s) (x_nOpCount s))
  end.

Definition is_push_number (opcode : Z) : bool :=
  (opcode =? OP_1NEGATE) || ((OP_1 <=? opcode) && (opcode <=? OP_16)).

Definition is_upgradable_nop (opcode : Z) : bool :=
  (opcode =? OP_NOP1) || ((OP_NOP3 <=? opcode) && (opcode <=? OP_NOP10)).

(** [switch (opcode)] *)
Definition exec_op (script : bytes) (fExec : bool) (opcode : Z) (s : exec_state)
    : exec exec_state :=
  let on_stack (f : list valtype -> exec (list valtype)) : exec exec_state :=
    stk ← f (x_stack s); inr (set_stack s stk) in
  if is_push_number opcode then
    inr (set_stack s (CScriptNum_serialize (opcode - (OP_1 - 1)) :: x_stack s))
  else if opcode =? OP_NOP then inr s
  else if opcode =? OP_CHECKLOCKTIMEVERIFY then on_stack op_cltv
  else if is_upgradable_nop opcode then
    if has_flag flags SCRIPT_VERIFY_DISCOURAGE_UPGRADABLE_NOPS
    then inl SCRIPT_ERR_DISCOURAGE_UPGRADABLE_NOPS else inr s
  else if (opcode =? OP_IF) || (opcode =? OP_NOTIF) then op_if fExec opcode s
  else if opcode =? OP_ELSE then op_else s
  else if opcode =? OP_ENDIF then op_endif s
  else if opcode =? OP_VERIFY then on_stack op_verify
  else if opcode =? OP_RETURN then inl SCRIPT_ERR_OP_RETURN
  else if opcode =? OP_TOALTSTACK then op_toaltstack s
  else if opcode =? OP_FROMALTSTACK then op_fromaltstack s
  else if is_stack_op opcode then on_stack (op_stack fRequireMinimal opcode)
  else if (opcode =? OP_EQUAL) || (opcode =? OP_EQUALVERIFY) then on_stack (op_equal opcode)
  else if is_unary opcode then on_stack (op_unary fRequireMinimal opcode)
  else if is_binary opcode then on_stack (op_binary fRequireMinimal opcode)
  else if opcode =? OP_WITHIN then on_stack (op_within fRequireMinimal)
  else if is_hash opcode then on_stack (op_hash H opcode)
  else if (opcode =? OP_CHECKSIG) || (opcode =? OP_CHECKSIGVERIFY)
  then on_stack (op_checksig script opcode)
  else if (opcode =? OP_CHECKMULTISIG) || (opcode =? OP_CHECKMULTISIGVERIFY) then
    r ← op_checkmultisig script opcode (x_stack s) (x_nOpCount s);
    inr (mkExec r.1 (x_altstack s) (x_vfExec s) r.2)
  else if (opcode =? OP_CHECKCRYPTOCONDITION) || (opcode =? OP_CHECKCRYPTOCONDITIONVERIFY)
  then on_stack (op_cryptocondition script opcode)
  else inl SCRIPT_ERR_BAD_OPCODE.

(** One round of the loop: the remaining bytes and the state after it. *)
Definition eval_step (script pc : bytes) (s : exec_state) : exec (bytes * exec_state) :=
  let fExec := forallb id (x_vfExec s) in
  let r := GetOp2 pc in
  let opcode := op_code r in
  if negb (op_ok r) then inl SCRIPT_ERR_BAD_OPCODE
  else if zlen (op_data r) >? MAX_SCRIPT_ELEMENT_SIZE then inl SCRIPT_ERR_PUSH_SIZE
  else
    let nOpCount := if opcode >? OP_16 then x_nOpCount s + 1 else x_nOpCount s in
    if (opcode >? OP_16) && (nOpCount >? 201) then inl SCRIPT_ERR_OP_COUNT
    else if is_disabled opcode then inl SCRIPT_ERR_DISABLED_OPCODE
    else
      let s := mkExec (x_stack s) (x_altstack s) (x_vfExec s) nOpCount in
      s ← (if fExec && (0 <=? opcode) && (opcode <=? OP_PUSHDATA4) then
             if fRequireMinimal && negb (CheckMinimalPush (op_data r) opcode)
             then inl SCRIPT_ERR_MINIMALDATA
             else inr (set_stack s (op_data r :: x_stack s))
           else if fExec || ((OP_IF <=? opcode) && (opcode <=? OP_ENDIF))
           then exec_op script fExec opcode s
           else inr s);
      if zlen (x_stack s) + zlen (x_altstack s) >? 1000 then inl SCRIPT_ERR_STACK_SIZE
      else inr (op_rest r, s).

(** [while (pc < pend)]; every round takes a byte, see [eval_loop_fuel]. *)
Fixpoint eval_loop (fuel : nat) (script pc : bytes) (s : exec_state) : exec exec_state :=
  match pc with
  | [] => inr s
  | _ =>
    match fuel with
    | O => thrown
    | S fuel => r ← eval_step script pc s; eval_loop fuel script r.1 r.2
    end
  end.

Definition EvalScript (stack : list valtype) (script : bytes) : exec (list valtype) :=
  if zlen script >? MAX_SCRIPT_SIZE then inl SCRIPT_ERR_SCRIPT_SIZE
  else
    s ← eval_loop (length script) script script (mkExec stack [] [] 0);
    if negb (is_nil (x_vfExec s)) then inl SCRIPT_ERR_UNBALANCED_CONDITIONAL
    else inr (x_stack s).

Definition EvalCryptoConditionSig (stack : list valtype) (scriptSig : bytes)
    : exec (list valtype) :=
  let r := GetOp2 scriptSig in
  if negb (op_ok r) then inl SCRIPT_ERR_BAD_OPCODE
  else if (op_code r =? 0) || (op_code r >? OP_PUSHDATA4) then bad_stack
  else if negb (is_nil (op_rest r)) then bad_stack
  else if zlen (op_data r) >? MAX_SCRIPT_CRYPTOCONDITION_FULFILLMENT_SIZE
  then inl SCRIPT_ERR_PUSH_SIZE
  else inr (op_data r :: stack).

(** The top of the final stack must be there and true. *)
Definition check_true (stack : list valtype) : exec unit :=
  match stack with
  | [] => inl SCRIPT_ERR_EVAL_FALSE
  | x :: _ => if CastToBool x then inr tt else inl SCRIPT_ERR_EVAL_FALSE
  end.

(** The script behind a pay-to-script-hash output, on the stack [stackCopy]
    that [scriptSig] left.  [None] is the failed assertion [!stack.empty()]. *)
Definition verify_p2sh (scriptSig : bytes) (stackCopy : list valtype)
    : option (exec (list valtype)) :=
  if negb (IsPushOnly scriptSig) then Some (inl SCRIPT_ERR_SIG_PUSHONLY)
  else match stackCopy with
       | [] => None
       | pubKeySerialized :: stack =>
         Some (stack ← EvalScript stack pubKeySerialized;
               _ ← check_true stack;
               inr stack)
       end.

Definition verify_cleanstack (stack : list valtype) : option (exec unit) :=
  if has_flag flags SCRIPT_VERIFY_CLEANSTACK then
    if negb (has_flag flags SCRIPT_VERIFY_P2SH) then None
    else if negb (zlen stack =? 1) then Some (inl SCRIPT_ERR_CLEANSTACK)
    else Some (inr tt)
  else Some (inr tt).

(** [inr tt] is [true] with [SCRIPT_ERR_OK], [inl e] is [false] with [e];
    [None] is a failed assertion. *)
Definition VerifyScript (scriptSig scriptPubKey : bytes) : option (exec unit) :=
  if has_flag flags SCRIPT_VERIFY_SIGPUSHONLY && negb (IsPushOnly scriptSig)
  then Some (inl SCRIPT_ERR_SIG_PUSHONLY)
  else
    match (stackCopy ← (if IsCryptoConditionsEnabled && IsPayToCryptoCondition scriptPubKey
                        then EvalCryptoConditionSig [] scriptSig
                        else EvalScript [] scriptSig);
           stack ← EvalScript stackCopy scriptPubKey;
           _ ← check_true stack;
           inr (stackCopy, stack)) with
    | inl e => Some (inl e)
    | inr (stackCopy, stack) =>
      if has_flag flags SCRIPT_VERIFY_P2SH && IsPayToScriptHash scriptPubKey then
        match verify_p2sh scriptSig stackCopy with
        | None => None
        | Some (inl e) => Some (inl e)
        | Some (inr stack) => verify_cleanstack stack
        end
      else verify_cleanstack stack
    end.
End Eval.

(** ** The loop *)

Section LoopFacts.
Context (CheckLowS : bytes -> bool) (H : hashers) (cc : bool) (checker : BaseSignatureChecker).
Context (flags branch : Z).
Abbreviation step := (eval_step CheckLowS H cc checker flags branch).
Abbreviation loop := (eval_loop CheckLowS H cc checker flags branch).

Lemma exec_bind_inr {A B} (m : exec A) (f : A -> exec B) b :
  m ≫= f = inr b <-> exists a, m = inr a /\ f a = inr b.
Proof. destruct m as [e|a]; cbn; [split; [done|by intros (? & ? & ?)]|]. split; [eauto|]. by intros (? & [= ->] & ?). Qed.

Lemma eval_step_progress script b pc s r :
  step script (b :: pc) s = inr r -> (length r.1 <= length pc)%nat.
Proof.
  unfold eval_step. pose proof (GetOp2_progress b pc) as Hp.
  set (o := GetOp2 (b :: pc)) in *. cbv zeta.
  destruct (negb (op_ok o)); [done|]. destruct (_ >? MAX_SCRIPT_ELEMENT_SIZE); [done|].
  destruct (_ && _); [done|]. destruct (is_disabled _); [done|].
  intros (s' & _ & Hs)%exec_bind_inr. destruct (_ >? 1000); [done|].
  injection Hs as <-. done.
Qed.

(** Fuel for the bytes left is enough: more changes nothing. *)
Lemma eval_loop_fuel script pc s f f' :
  (length pc <= f)%nat -> (length pc <= f')%nat -> loop f script pc s = loop f' script pc s.
Proof.
  revert f' pc s. induction f as [|f IH]; intros f' pc s Hf Hf'.
  { destruct pc; [by destruct f'|cbn in Hf; lia]. }
  destruct pc as [|b pc]; [by destruct f'|]. destruct f' as [|f']; [cbn in Hf'; lia|].
  cbn [eval_loop]. destruct (step script (b :: pc) s) as [e|r] eqn:E; [done|].
  apply eval_step_progress in E. cbn in *. apply IH; lia.
Qed.

(** The loop started with as much fuel as bytes. *)
Definition run (script pc : bytes) (s : exec_state) : exec exec_state :=
  loop (length pc) script pc s.

Lemma run_nil script s : run script [] s = inr s.
Proof. done. Qed.

Lemma run_cons script b pc s :
  run script (b :: pc) s = r ← step script (b :: pc) s; run script r.1 r.2.
Proof.
  unfold run. cbn [length eval_loop].
  destruct (step script (b :: pc) s) as [e|r] eqn:E; [done|].
  apply eval_step_progress in E. cbn. by apply eval_loop_fuel.
Qed.

(** Invariants of the step are invariants of the loop. *)
Lemma run_invariant (I : exec_state -> Prop) script :
  (forall pc s r, I s -> step script pc s = inr r -> I r.2) ->
  forall pc s s', I s -> run script pc s = inr s' -> I s'.
Proof.
  intros Hstep pc. remember (length pc) as n eqn:Hn. revert pc Hn.
  induction n as [n IH] using lt_wf_ind. intros pc -> s s' HI.
  destruct pc as [|b pc]; [by intros [= <-]|]. rewrite run_cons.
  intros (r & Hr & Hrun)%exec_bind_inr. pose proof (eval_step_progress _ _ _ _ _ Hr).
  eapply (IH (length r.1)); [cbn; lia|done| |done]. by eapply Hstep.
Qed.
End LoopFacts.

Lemma EvalScript_run CheckLowS H cc checker flags branch stack script :
  EvalScript CheckLowS H cc checker flags branch stack script =
    if zlen script >? MAX_SCRIPT_SIZE then inl SCRIPT_ERR_SCRIPT_SIZE
    else s ← run CheckLowS H cc checker flags branch script script (mkExec stack [] [] 0);
         if negb (is_nil (x_vfExec s)) then inl SCRIPT_ERR_UNBALANCED_CONDITIONAL
         else inr (x_stack s).
Proof. done. Qed.

(** ** Resource limits *)

Definition small (l : list valtype) : Prop := Forall (fun v => zlen v <= MAX_SCRIPT_ELEMENT_SIZE) l.

(** The digests of the hash functions fit on the stack (they have 20 or 32
    bytes). *)
Definition hashers_small (H : hashers) : Prop :=
  forall x, Forall (fun h => zlen (h x) <= 32)
    [h_RIPEMD160 H; h_SHA1 H; h_SHA256 H; h_Hash160 H; h_Hash256 H].

Lemma abs_loop_length fuel a : (length (abs_loop fuel a) <= fuel)%nat.
Proof.
  revert a. induction fuel as [|fuel IH]; intros a; cbn [abs_loop length]; [lia|].
  case_bool; cbn [length]; [lia|]. specialize (IH (Z.shiftr a 8)). lia.
Qed.

Lemma length_removelast_snoc (l : bytes) c : (length (removelast l ++ [c]) <= S (length l))%nat.
Proof.
  rewrite length_app. cbn [length].
  destruct l as [|x l]; [cbn; lia|]. rewrite removelast_firstn_len, length_firstn. lia.
Qed.

Lemma serialize_small v : zlen (CScriptNum_serialize v) <= 9.
Proof.
  unfold CScriptNum_serialize, zlen. case_bool; [cbn; lia|]. cbv zeta.
  match goal with |- context [abs_loop 8 ?a] => pose proof (abs_loop_length 8 a) as Ha;
    set (l := abs_loop 8 a) in * end.
  destruct (negb _); [rewrite length_app; cbn [length]; lia|].
  destruct (_ <? 0); [|lia].
  pose proof (length_removelast_snoc l (Z.lor (back l) 128)). lia.
Qed.

(** Take apart a computation in [exec] that succeeded. *)
Ltac exec_cases :=
  repeat match goal with
  | H : inl _ = inr _ |- _ => discriminate H
  | H : bad_stack = inr _ |- _ => discriminate H
  | H : thrown = inr _ |- _ => discriminate H
  | H : inr ?a = inr _ |- _ => first [injection H as <- | injection H as ->]
  | H : _ ≫= _ = inr _ |- _ => apply exec_bind_inr in H as (? & _ & H)
  | H : (if ?b then _ else _) = inr _ |- _ => destruct b
  | H : match ?l with [] => _ | _ :: _ => _ end = inr _ |- _ => destruct l
  end.

Lemma nth_small n l : small l -> zlen (nth n l []) <= MAX_SCRIPT_ELEMENT_SIZE.
Proof.
  intros Hl. destruct (nth_in_or_default n l []) as [Hin | ->]; [|done].
  unfold small in Hl. rewrite List.Forall_forall in Hl. by apply Hl.
Qed.

Lemma vch_bool_small b : zlen (vch_bool b) <= MAX_SCRIPT_ELEMENT_SIZE.
Proof. by destruct b. Qed.

(** Goals [small (x :: ...)] from the smallness of the parts. *)
Ltac solve_small :=
  unfold small in *; rewrite ?list.Forall_cons in *; destruct_and?;
  repeat (case_match; rewrite ?list.Forall_cons in *; destruct_and?);
  repeat split; try done; try apply vch_bool_small;
  try (apply Forall_delete; rewrite ?list.Forall_cons; by repeat split);
  try (apply nth_small; unfold small; rewrite ?list.Forall_cons; by repeat split);
  try (etrans; [apply serialize_small|done]).

Lemma verify_top_small v ok e x stk stk' :
  verify_top v ok e x stk = inr stk' ->
  zlen x <= MAX_SCRIPT_ELEMENT_SIZE -> small stk -> small stk'.
Proof. unfold verify_top. intros Hv ? ?. exec_cases; solve_small. Qed.

Lemma op_stack_small m opcode stk stk' :
  op_stack m opcode stk = inr stk' -> small stk -> small stk'.
Proof.
  unfold op_stack. intros Ho Hs. exec_cases; solve_small.
Qed.

Lemma op_pure_small m H opcode stk stk' : hashers_small H ->
  op_stack m opcode stk = inr stk' \/ op_equal opcode stk = inr stk' \/
  op_unary m opcode stk = inr stk' \/ op_binary m opcode stk = inr stk' \/
  op_within m stk = inr stk' \/ op_hash H opcode stk = inr stk' \/ op_verify stk = inr stk' ->
  small stk -> small stk'.
Proof.
  intros HH [Ho|[Ho|[Ho|[Ho|[Ho|[Ho|Ho]]]]]] Hs.
  - by eapply op_stack_small.
  - unfold op_equal in Ho. exec_cases.
    eapply verify_top_small; [done|apply vch_bool_small|]; solve_small.
  - unfold op_unary in Ho. exec_cases. solve_small.
  - unfold op_binary in Ho. cbv zeta in Ho. exec_cases.
    eapply verify_top_small; [done|etrans; [apply serialize_small|done]|]; solve_small.
  - unfold op_within in Ho. exec_cases. solve_small.
  - unfold op_hash in Ho. exec_cases. unfold small in *. rewrite !list.Forall_cons in *.
    destruct Hs as [_ Hs]. split; [|done]. specialize (HH l). rewrite !list.Forall_cons in HH.
    destruct HH as (? & ? & ? & ? & ? & _). unfold MAX_SCRIPT_ELEMENT_SIZE.
    repeat (destruct (opcode =? _)); lia.
  - unfold op_verify in Ho. exec_cases. solve_small.
Qed.

Section Limits.
Context (CheckLowS : bytes -> bool) (H : hashers) (cc : bool) (checker : BaseSignatureChecker).
Context (flags branch : Z).
Hypothesis HH : hashers_small H.

Lemma op_check_small script opcode stk stk' :
  op_checksig CheckLowS checker flags branch script opcode stk = inr stk' \/
  op_cryptocondition cc checker branch script opcode stk = inr stk' \/
  op_cltv checker flags stk = inr stk' ->
  small stk -> small stk'.
Proof using Type.
  intros [Ho|[Ho|Ho]] Hs.
  - unfold op_checksig in Ho. exec_cases.
    eapply verify_top_small; [done|apply vch_bool_small|]; solve_small.
  - unfold op_cryptocondition in Ho. exec_cases.
    eapply verify_top_small; [done|apply vch_bool_small|]; solve_small.
  - unfold op_cltv in Ho. exec_cases; done.
Qed.

Lemma op_checkmultisig_limits script opcode stk k r :
  op_checkmultisig CheckLowS checker flags branch script opcode stk k = inr r ->
  small stk -> small r.1 /\ r.2 <= 201.
Proof using Type.
  unfold op_checkmultisig. intros Ho Hs.
  destruct stk as [|top s]; [done|]. apply exec_bind_inr in Ho as (num & _ & Ho).
  destruct (_ || _); [done|]. rewrite Z.gtb_ltb in Ho.
  destruct (Z.ltb_spec 201 (k + getint num)); [done|].
  assert (Hs1 : small (drop (Z.to_nat (getint num)) s))
    by (apply Forall_drop; by apply Forall_inv_tail in Hs).
  destruct (drop (Z.to_nat (getint num)) s) as [|top2 s2]; [done|].
  apply exec_bind_inr in Ho as (num2 & _ & Ho). destruct (_ || _); [done|].
  assert (Hs2 : small (drop (Z.to_nat (getint num2)) s2))
    by (apply Forall_drop; by apply Forall_inv_tail in Hs1).
  destruct (drop (Z.to_nat (getint num2)) s2) as [|dummy s3]; [done|].
  apply exec_bind_inr in Ho as (ok & _ & Ho). destruct (_ && _); [done|].
  apply exec_bind_inr in Ho as (s4 & Hv & Ho). injection Ho as <-. split; [|done].
  eapply verify_top_small; [done|apply vch_bool_small|]. by apply Forall_inv_tail in Hs2.
Qed.

(** What holds between two rounds. *)
Definition within_limits (s : exec_state) : Prop :=
  small (x_stack s) /\ small (x_altstack s) /\ x_nOpCount s <= 201.

Lemma exec_op_limits script fExec opcode s s' :
  exec_op CheckLowS H cc checker flags branch script fExec opcode s = inr s' ->
  within_limits s -> within_limits s'.
Proof using HH.
  destruct s as [stk alt vf k]. intros He (Hs & Ha & Hn). cbn [x_stack x_altstack x_nOpCount] in *.
  assert (Hon : forall f, (forall stk', f stk = inr stk' -> small stk') ->
    (stk ← f stk; inr (set_stack (mkExec stk alt vf k) stk)) = inr s' -> within_limits s').
  { intros f Hf (stk' & Hstk & [= <-])%exec_bind_inr. split_and!; cbn; eauto. }
  assert (Hsame : within_limits (mkExec stk alt vf k)) by done.
  unfold exec_op in He. cbv zeta in He. cbn [x_stack x_altstack x_vfExec x_nOpCount] in He.
  destruct (is_push_number _).
  { injection He as <-. split_and!; cbn; [|done..]. constructor; [|done].
    etrans; [apply serialize_small|done]. }
  destruct (_ =? OP_NOP); [by injection He as <-|].
  destruct (_ =? OP_CHECKLOCKTIMEVERIFY); [eapply Hon, He; intros; eapply (op_check_small script opcode); eauto|].
  destruct (is_upgradable_nop _); [by exec_cases|].
  destruct (_ || _).
  { unfold op_if in He. cbn [x_stack x_vfExec] in He. exec_cases; split_and!; cbn; solve_small. }
  destruct (_ =? OP_ELSE); [unfold op_else in He; cbn in He; by exec_cases|].
  destruct (_ =? OP_ENDIF); [unfold op_endif in He; cbn in He; by exec_cases|].
  destruct (_ =? OP_VERIFY); [eapply Hon, He; intros; eapply (op_pure_small (fRequireMinimal flags) H opcode); eauto 10|].
  destruct (_ =? OP_RETURN); [done|].
  destruct (_ =? OP_TOALTSTACK).
  { unfold op_toaltstack in He. cbn in He. exec_cases. split_and!; cbn; solve_small. }
  destruct (_ =? OP_FROMALTSTACK).
  { unfold op_fromaltstack in He. cbn in He. exec_cases. split_and!; cbn; solve_small. }
  destruct (is_stack_op _); [eapply Hon, He; intros; eapply (op_pure_small (fRequireMinimal flags) H opcode); eauto 10|].
  destruct (_ || _); [eapply Hon, He; intros; eapply (op_pure_small (fRequireMinimal flags) H opcode); eauto 10|].
  destruct (is_unary _); [eapply Hon, He; intros; eapply (op_pure_small (fRequireMinimal flags) H opcode); eauto 10|].
  destruct (is_binary _); [eapply Hon, He; intros; eapply (op_pure_small (fRequireMinimal flags) H opcode); eauto 10|].
  destruct (_ =? OP_WITHIN); [eapply Hon, He; intros; eapply (op_pure_small (fRequireMinimal flags) H opcode); eauto 10|].
  destruct (is_hash _); [eapply Hon, He; intros; eapply (op_pure_small (fRequireMinimal flags) H opcode); eauto 10|].
  destruct (_ || _); [eapply Hon, He; intros; eapply (op_check_small script opcode); eauto|].
  destruct (_ || _).
  { apply exec_bind_inr in He as (r & Hr & [= <-]).
    apply op_checkmultisig_limits in Hr as [? ?]; [|done]. by split_and!. }
  destruct (_ || _); [eapply Hon, He; intros; eapply (op_check_small script opcode); eauto|done].
Qed.

Lemma eval_step_limits script pc s r :
  within_limits s -> eval_step CheckLowS H cc checker flags branch script pc s = inr r ->
  within_limits r.2 /\ zlen (x_stack r.2) + zlen (x_altstack r.2) <= 1000.
Proof using HH.
  intros (Hs & Ha & Hn). unfold eval_step. cbv zeta. set (o := GetOp2 pc).
  destruct (negb (op_ok o)); [done|]. rewrite !Z.gtb_ltb.
  destruct (Z.ltb_spec MAX_SCRIPT_ELEMENT_SIZE (zlen (op_data o))) as [|Hd]; [done|].
  set (k := if OP_16 <? op_code o then x_nOpCount s + 1 else x_nOpCount s).
  destruct (_ && (201 <? k)) eqn:Hk; [done|]. destruct (is_disabled _); [done|].
  assert (Hk' : k <= 201).
  { subst k. destruct (OP_16 <? op_code o); [|done]. cbn in Hk. lia. }
  clear Hk. intros (s' & Hop & Hr)%exec_bind_inr.
  assert (Hs' : within_limits s').
  { destruct (_ && _ && _).
    - destruct (_ && _); [done|]. injection Hop as <-. split_and!; cbn; [|done..]. by constructor.
    - destruct (_ || _); [|by injection Hop as <-]. eapply exec_op_limits; [exact Hop|done]. }
  rewrite Z.gtb_ltb in Hr. destruct (Z.ltb_spec 1000 (zlen (x_stack s') + zlen (x_altstack s'))); [done|].
  by injection Hr as <-.
Qed.
End Limits.

(** Resource limits of [EvalScript]: started with at most 1000 elements of
    at most 520 bytes each, a script that does not fail has at most 10000
    bytes and leaves a stack within the same limits; and the script size, the
    sizes of pushed elements, the stack depth and the operation count are
    checked in every round, so this holds of every intermediate state (whose
    operation count is at most 201). *)
Theorem EvalScript_limits CheckLowS H cc checker flags branch stack script stack'
    (HH : hashers_small H) (Hsmall : small stack) (Hdepth : zlen stack <= 1000)
    (Heval : EvalScript CheckLowS H cc checker flags branch stack script = inr stack') :
  zlen script <= MAX_SCRIPT_SIZE /\ small stack' /\ zlen stack' <= 1000 /\
  (forall s, rtc (fun a b => eval_step CheckLowS H cc checker flags branch script a.1 a.2 = inr b)
                 (script, mkExec stack [] [] 0) s ->
     within_limits s.2 /\ zlen (x_stack s.2) + zlen (x_altstack s.2) <= 1000).
Proof.
  set (I := fun s => within_limits s /\ zlen (x_stack s) + zlen (x_altstack s) <= 1000).
  assert (HI : I (mkExec stack [] [] 0)) by (split; [split_and!; [done|constructor|done]|cbn; change (zlen ([] : list valtype)) with 0; lia]).
  assert (Hstep : forall pc s r, I s ->
    eval_step CheckLowS H cc checker flags branch script pc s = inr r -> I r.2).
  { intros pc s r [Hl _] Hr. by eapply eval_step_limits. }
  rewrite EvalScript_run, Z.gtb_ltb in Heval.
  destruct (Z.ltb_spec MAX_SCRIPT_SIZE (zlen script)); [done|]. split; [done|].
  apply exec_bind_inr in Heval as (s & Hrun & Hs). destruct (negb _); [done|].
  injection Hs as <-.
  destruct (run_invariant _ _ _ _ _ _ I script Hstep _ _ _ HI Hrun) as [(? & ? & ?) Hd].
  pose proof (zlen_nonneg (x_altstack s)). split_and!; [done|lia|].
  intros s2 Hr. change (I s2.2). change (mkExec stack [] [] 0) with (script, mkExec stack [] [] 0).2 in HI.
  clear -Hr HI Hstep. induction Hr; [done|]. apply IHHr. by eapply Hstep.
Qed.

(** Hash functions to run the model with. *)
Definition toy_hash (x : bytes) : bytes := take 20 (rev x ++ repeat 0 20).
Definition toy_hashers : hashers := mkHashers toy_hash toy_hash toy_hash toy_hash toy_hash.

Lemma toy_hash_length x : zlen (toy_hash x) = 20.
Proof. unfold toy_hash, zlen. rewrite length_take, length_app, repeat_length. lia. Qed.

Lemma toy_hashers_small : hashers_small toy_hashers.
Proof. intros x. repeat constructor; cbn; rewrite toy_hash_length; lia. Qed.

(** A checker that accepts a signature equal to the key. *)
Definition toy_checker : BaseSignatureChecker :=
  mkChecker (fun sig key _ _ => bool_decide (sig = key)) (fun _ => true) (fun _ _ _ _ => 1).

Lemma EvalScript_limits_witness :
  EvalScript (fun _ => true) toy_hashers false toy_checker 0 0 [] [0x51; 0x76; 0x93] = inr [[2]] /\
  zlen [[2]] <= 1000.
Proof.
  split; [reflexivity|].
  apply (EvalScript_limits (fun _ => true) toy_hashers false toy_checker 0 0 []
           [0x51; 0x76; 0x93] [[2]] toy_hashers_small); [constructor|vm_compute; discriminate|reflexivity].
Defined.

(** ** Standard payments *)

Section Run.
Context (CheckLowS : bytes -> bool) (H : hashers) (cc : bool) (checker : BaseSignatureChecker).
Context (flags branch : Z).
Abbreviation Run := (run CheckLowS H cc checker flags branch).
Abbreviation Op := (exec_op CheckLowS H cc checker flags branch).

Lemma run_push script b pc s :
  2 <= zlen b <= 75 -> x_vfExec s = [] -> zlen (x_stack s) + zlen (x_altstack s) < 1000 ->
  Run script (push_data b [] ++ pc) s = Run script pc (set_stack s (b :: x_stack s)).
Proof.
  intros Hb Hv Hd. destruct (push_data_cons b) as (c & t & E).
  rewrite E at 1. cbn [app]. rewrite run_cons.
  change (c :: t ++ pc) with ((c :: t) ++ pc). rewrite <- E. unfold eval_step.
  rewrite GetOp2_push_data by lia. cbn [op_ok op_code op_data op_rest]. rewrite Hv.
  assert (Hc : push_code b = zlen b).
  { unfold push_code. by rewrite (proj2 (Z.ltb_lt _ _)) by (unfold OP_PUSHDATA1; lia). }
  rewrite Hc. unfold MAX_SCRIPT_ELEMENT_SIZE, OP_16, OP_PUSHDATA4.
  rewrite !Z.gtb_ltb, (proj2 (Z.ltb_ge 520 _)), (proj2 (Z.ltb_ge 96 _)) by lia. cbn [negb andb].
  assert (is_disabled (zlen b) = false) as ->.
  { unfold is_disabled. apply not_true_is_false. rewrite existsb_exists. intros (x & Hin & He).
    apply Z.eqb_eq in He. subst x. cbn in Hin. unfold OP_CAT, OP_SUBSTR, OP_LEFT, OP_RIGHT,
      OP_INVERT, OP_AND, OP_OR, OP_XOR, OP_2MUL, OP_2DIV, OP_MUL, OP_DIV, OP_MOD, OP_LSHIFT,
      OP_RSHIFT, OP_CODESEPARATOR in Hin. lia. }
  cbn [forallb andb]. rewrite (proj2 (Z.leb_le 0 _)), (proj2 (Z.leb_le (zlen b) 78)) by lia.
  assert (CheckMinimalPush b (zlen b) = true) as ->.
  { unfold CheckMinimalPush. rewrite !(proj2 (Z.eqb_neq (zlen b) _)), (proj2 (Z.leb_le (zlen b) 75)) by lia.
    apply Z.eqb_refl. }
  rewrite andb_false_r. destruct s as [stk alt vf k]. cbn in *. subst vf.
  rewrite zlen_cons, Z.gtb_ltb, (proj2 (Z.ltb_ge 1000 _)) by lia. done.
Qed.

Definition bump (s : exec_state) : exec_state :=
  mkExec (x_stack s) (x_altstack s) (x_vfExec s) (x_nOpCount s + 1).

Lemma run_op script b pc s :
  OP_16 < b -> is_disabled b = false -> x_vfExec s = [] -> x_nOpCount s < 201 ->
  Run script (b :: pc) s =
    s' ← Op script true b (bump s);
    if zlen (x_stack s') + zlen (x_altstack s') >? 1000 then inl SCRIPT_ERR_STACK_SIZE
    else Run script pc s'.
Proof.
  intros Hb Hd Hv Hn. rewrite run_cons. unfold eval_step.
  assert (GetOp2 (b :: pc) = mkOpRead true b [] pc) as ->.
  { unfold GetOp2. by rewrite (proj2 (Z.leb_gt b _)) by (unfold OP_16, OP_PUSHDATA4 in *; lia). }
  cbn [op_ok op_code op_data op_rest negb]. rewrite Hd, Hv.
  change (zlen ([] : bytes) >? MAX_SCRIPT_ELEMENT_SIZE) with false.
  rewrite (Z.gtb_ltb b), (proj2 (Z.ltb_lt OP_16 b)), (Z.gtb_ltb _ 201), (proj2 (Z.ltb_ge 201 _)) by lia.
  cbn [andb forallb orb].
  rewrite (proj2 (Z.leb_gt b OP_PUSHDATA4)) by (unfold OP_16, OP_PUSHDATA4 in *; lia).
  rewrite andb_false_r. unfold bump. rewrite Hv.
  destruct (Op _ _ _ _) as [e|s']; [done|]. cbn. by destruct (_ >? 1000).
Qed.

(** An opcode that succeeds and keeps the stack within its limit. *)
Lemma run_op_ok script b pc stk k stk' :
  OP_16 < b -> is_disabled b = false -> k < 201 ->
  Op script true b (mkExec stk [] [] (k + 1)) = inr (mkExec stk' [] [] (k + 1)) ->
  zlen stk' <= 1000 ->
  Run script (b :: pc) (mkExec stk [] [] k) = Run script pc (mkExec stk' [] [] (k + 1)).
Proof.
  intros Hb Hd Hk Hop Hz. rewrite run_op by done. unfold bump. cbn [x_stack x_altstack x_vfExec x_nOpCount].
  rewrite Hop. cbn [mbind exec_bind x_stack x_altstack].
  change (zlen ([] : list valtype)) with 0. by rewrite Z.gtb_ltb, (proj2 (Z.ltb_ge 1000 _)) by lia.
Qed.

Lemma run_op_err script b pc stk k e :
  OP_16 < b -> is_disabled b = false -> k < 201 ->
  Op script true b (mkExec stk [] [] (k + 1)) = inl e ->
  Run script (b :: pc) (mkExec stk [] [] k) = inl e.
Proof. intros Hb Hd Hk Hop. rewrite run_op by done. unfold bump. cbn [x_stack x_altstack x_vfExec x_nOpCount]. by rewrite Hop. Qed.
End Run.

Lemma push_only_pushes items fuel :
  Forall (fun b => zlen b <= 75) items -> push_only_loop fuel (pushes items) = true.
Proof.
  intros Hi. revert fuel. induction Hi as [|b items Hb Hi IH]; intros fuel; [by destruct fuel|].
  destruct fuel as [|fuel]; [done|]. unfold pushes in *. cbn [map concat push_only_loop].
  destruct (push_data_cons b) as (c & t & E). rewrite E at 1. cbn [app].
  rewrite GetOp2_push_data by lia. cbn [op_ok op_code op_rest negb].
  assert (push_code b = zlen b) as ->.
  { unfold push_code. by rewrite (proj2 (Z.ltb_lt _ _)) by (unfold OP_PUSHDATA1; lia). }
  by rewrite Z.gtb_ltb, (proj2 (Z.ltb_ge OP_16 _)) by (unfold OP_16; lia).
Qed.

Section Payments.
Context (CheckLowS : bytes -> bool) (H : hashers) (cc : bool) (checker : BaseSignatureChecker).
Context (flags branch : Z).
Abbreviation Eval := (EvalScript CheckLowS H cc checker flags branch).
Abbreviation Verify := (VerifyScript CheckLowS H cc checker flags branch).

(** CLEANSTACK is only ever used together with P2SH. *)
Definition flags_consistent : Prop :=
  has_flag flags SCRIPT_VERIFY_CLEANSTACK = true -> has_flag flags SCRIPT_VERIFY_P2SH = true.

Lemma push_data_zlen b : zlen b <= 75 -> zlen (push_data b []) = zlen b + 1.
Proof using Type.
  intros. unfold push_data. rewrite (proj2 (Z.ltb_lt _ _)) by (unfold OP_PUSHDATA1; lia).
  autorewrite with zlen. lia.
Qed.

Lemma p2pkh_script h : AddPayToPubKeyHash h [] =
  OP_DUP :: OP_HASH160 :: push_data h [] ++ [OP_EQUALVERIFY; OP_CHECKSIG].
Proof using Type.
  unfold AddPayToPubKeyHash. rewrite push_data_app. unfold push_opcode.
  rewrite <- !app_assoc. done.
Qed.

Lemma p2pkh_run script h sig pk : zlen h = 20 ->
  run CheckLowS H cc checker flags branch script
      (OP_DUP :: OP_HASH160 :: push_data h [] ++ [OP_EQUALVERIFY; OP_CHECKSIG])
      (mkExec [pk; sig] [] [] 0) =
    if bool_decide (h_Hash160 H pk = h) then
      _ ← check_encodings CheckLowS sig pk flags;
      inr (mkExec [vch_bool (CheckSig checker sig pk script branch)] [] [] 4)
    else inl SCRIPT_ERR_EQUALVERIFY.
Proof using Type.
  intros Hh.
  rewrite (run_op_ok _ _ _ _ _ _ _ OP_DUP _ _ _ [pk; pk; sig]) by done.
  rewrite (run_op_ok _ _ _ _ _ _ _ OP_HASH160 _ _ _ [h_Hash160 H pk; pk; sig]) by done.
  rewrite run_push by (done || lia). unfold set_stack. cbn [x_stack x_altstack x_vfExec x_nOpCount].
  assert (He : exec_op CheckLowS H cc checker flags branch script true OP_EQUALVERIFY
      (mkExec [h; h_Hash160 H pk; pk; sig] [] [] (0 + 1 + 1 + 1)) =
      if bool_decide (h_Hash160 H pk = h) then inr (mkExec [pk; sig] [] [] (0 + 1 + 1 + 1))
      else inl SCRIPT_ERR_EQUALVERIFY).
  { change (exec_op _ _ _ _ _ _ _ _ _ _) with
      (stk ← verify_top true (bool_decide (h_Hash160 H pk = h)) SCRIPT_ERR_EQUALVERIFY
             (vch_bool (bool_decide (h_Hash160 H pk = h))) [pk; sig];
       inr (set_stack (mkExec [h; h_Hash160 H pk; pk; sig] [] [] (0 + 1 + 1 + 1)) stk)).
    by destruct (bool_decide _). }
  destruct (bool_decide (h_Hash160 H pk = h)); [|by apply run_op_err].
  rewrite (run_op_ok _ _ _ _ _ _ _ OP_EQUALVERIFY _ _ _ [pk; sig]) by done.
  rewrite run_op by done.
  change (exec_op _ _ _ _ _ _ _ _ _ _) with
    (stk ← (_ ← check_encodings CheckLowS sig pk flags;
            inr [vch_bool (CheckSig checker sig pk script branch)]);
     inr (mkExec stk [] [] 4) : exec exec_state).
  by destruct (check_encodings CheckLowS sig pk flags) as [e|[]].
Qed.

Lemma p2pkh_zlen h : zlen h = 20 -> zlen (AddPayToPubKeyHash h []) = 25.
Proof using Type.
  intros. rewrite p2pkh_script. autorewrite with zlen. rewrite push_data_zlen by lia. lia.
Qed.

Lemma p2pkh_eval h sig pk : zlen h = 20 ->
  Eval [pk; sig] (AddPayToPubKeyHash h []) =
    if bool_decide (h_Hash160 H pk = h) then
      _ ← check_encodings CheckLowS sig pk flags;
      inr [vch_bool (CheckSig checker sig pk (AddPayToPubKeyHash h []) branch)]
    else inl SCRIPT_ERR_EQUALVERIFY.
Proof using Type.
  intros Hh. rewrite EvalScript_run, p2pkh_zlen by done. change (25 >? MAX_SCRIPT_SIZE) with false.
  rewrite (p2pkh_script h) at 2. rewrite p2pkh_run by done.
  destruct (bool_decide _); [|done]. by destruct (check_encodings _ _ _ _).
Qed.

Lemma two_pushes_eval a b : 2 <= zlen a <= 75 -> 2 <= zlen b <= 75 ->
  Eval [] (push_data b (push_data a [])) = inr [b; a].
Proof using Type.
  intros Ha Hb. rewrite EvalScript_run, (push_data_app b).
  autorewrite with zlen. rewrite !push_data_zlen by lia. unfold MAX_SCRIPT_SIZE.
  rewrite Z.gtb_ltb, (proj2 (Z.ltb_ge 10000 _)) by lia.
  rewrite run_push by done. rewrite <- (app_nil_r (push_data b [])) at 2.
  rewrite run_push by done. done.
Qed.
End Payments.

(** Pay-to-public-key-hash, for all flags: the two pushes of a signature and
    a key unlock the output exactly when the key hashes to the output's hash,
    both encodings pass the checks the flags ask for, and the checker accepts
    the signature for the whole output script; otherwise the verdict is
    EQUALVERIFY, the encoding's error or EVAL_FALSE respectively. *)
Theorem VerifyScript_p2pkh CheckLowS H cc checker flags branch h sig pk
    (Hflags : flags_consistent flags) (Hh : zlen h = 20)
    (Hsig : 2 <= zlen sig <= 75) (Hpk : 2 <= zlen pk <= 75) :
  let spk := AddPayToPubKeyHash h [] in
  VerifyScript CheckLowS H cc checker flags branch (push_data pk (push_data sig [])) spk =
    Some (if bool_decide (h_Hash160 H pk = h) then
            _ ← check_encodings CheckLowS sig pk flags;
            if CheckSig checker sig pk spk branch then inr tt else inl SCRIPT_ERR_EVAL_FALSE
          else inl SCRIPT_ERR_EQUALVERIFY).
Proof.
  intros spk. unfold VerifyScript.
  assert (IsPushOnly (push_data pk (push_data sig [])) = true) as ->.
  { unfold IsPushOnly. replace (push_data pk (push_data sig [])) with (pushes [sig; pk]).
    - apply push_only_pushes. repeat constructor; lia.
    - rewrite (push_data_app pk). unfold pushes. cbn [map concat]. by rewrite app_nil_r. }
  rewrite andb_false_r.
  assert (IsPayToCryptoCondition spk = false) as -> by (subst spk; by rewrite p2pkh_script).
  rewrite andb_false_r, two_pushes_eval by done. cbn [mbind exec_bind].
  pose proof (p2pkh_eval CheckLowS H cc checker flags branch h sig pk Hh) as He.
  fold spk in He. rewrite He. clear He.
  assert (IsPayToScriptHash spk = false) as ->.
  { unfold IsPayToScriptHash. subst spk. by rewrite p2pkh_zlen. }
  rewrite andb_false_r.
  destruct (bool_decide _); [|done].
  destruct (check_encodings _ _ _ _) as [e|u]; [done|]. cbn [mbind exec_bind].
  destruct (CheckSig checker sig pk spk branch); [|done]. cbn [check_true vch_bool].
  change (CastToBool vchTrue) with true. cbn [mbind exec_bind]. unfold verify_cleanstack.
  destruct (has_flag flags SCRIPT_VERIFY_CLEANSTACK) eqn:E; [|done].
  by rewrite (Hflags E).
Qed.

Lemma VerifyScript_p2pkh_witness :
  let key := repeat 2 33 in
  VerifyScript (fun _ => true) toy_hashers false toy_checker 0 0
    (push_data key (push_data [9; 9] [])) (AddPayToPubKeyHash (toy_hash key) []) =
    Some (inl SCRIPT_ERR_SIG_DER).
Proof.
  intros key. rewrite (VerifyScript_p2pkh (fun _ => true) toy_hashers false toy_checker 0 0);
    [|discriminate|apply toy_hash_length|vm_compute; split; discriminate..].
  reflexivity.
Defined.

(** ** Pay to script hash *)

Section P2SH.
Context (CheckLowS : bytes -> bool) (H : hashers) (cc : bool) (checker : BaseSignatureChecker).
Context (flags branch : Z).
Abbreviation Eval := (EvalScript CheckLowS H cc checker flags branch).

Lemma p2sh_script h : PayToScriptHash h = OP_HASH160 :: push_data h [] ++ [OP_EQUAL].
Proof using Type. unfold PayToScriptHash. by rewrite push_data_app. Qed.

Lemma p2sh_zlen h : zlen h = 20 -> zlen (PayToScriptHash h) = 23.
Proof using Type.
  intros. rewrite p2sh_script. autorewrite with zlen. rewrite push_data_zlen by lia. lia.
Qed.

(** The output script compares the hash of the top element. *)
Lemma p2sh_eval h stk : zlen h = 20 -> zlen stk <= 1000 ->
  Eval stk (PayToScriptHash h) =
    match stk with
    | [] => bad_stack
    | x :: rest => if zlen stk =? 1000 then inl SCRIPT_ERR_STACK_SIZE
                   else inr (vch_bool (bool_decide (h_Hash160 H x = h)) :: rest)
    end.
Proof using Type.
  intros Hh Hz. rewrite EvalScript_run, p2sh_zlen by done. change (23 >? MAX_SCRIPT_SIZE) with false.
  rewrite (p2sh_script h) at 2. generalize (PayToScriptHash h) as script. intros script.
  destruct stk as [|x rest]; [by rewrite (run_op_err _ _ _ _ _ _ _ _ _ _ _ SCRIPT_ERR_INVALID_STACK_OPERATION)|].
  rewrite (run_op_ok _ _ _ _ _ _ _ OP_HASH160 _ _ _ (h_Hash160 H x :: rest))
    by (done || by rewrite zlen_cons in *).
  destruct (Z.eqb_spec (zlen (x :: rest)) 1000) as [Hfull|Hfull].
  - destruct (push_data_cons h) as (c & t & E). rewrite E at 1. cbn [app]. rewrite run_cons.
    change (c :: t ++ [OP_EQUAL]) with ((c :: t) ++ [OP_EQUAL]). rewrite <- E. unfold eval_step.
    rewrite GetOp2_push_data by lia. cbn [op_ok op_code op_data op_rest negb].
    assert (push_code h = 20) as -> by (unfold push_code; by rewrite Hh).
    rewrite Hh. cbn [x_stack x_altstack x_vfExec x_nOpCount forallb].
    change (is_disabled 20) with false. change (20 >? OP_16) with false.
    assert (CheckMinimalPush h 20 = true) as ->
      by (unfold CheckMinimalPush; by rewrite Hh).
    change (20 >? MAX_SCRIPT_ELEMENT_SIZE) with false.
    change (0 <=? 20) with true. change (20 <=? OP_PUSHDATA4) with true.
    change (negb true) with false. rewrite (andb_false_r (fRequireMinimal flags)).
    cbn [andb mbind exec_bind].
    unfold set_stack. cbn [x_stack x_altstack]. rewrite !zlen_cons in *.
    by rewrite Z.gtb_ltb, (proj2 (Z.ltb_lt 1000 _)) by (change (zlen ([] : list valtype)) with 0; lia).
  - rewrite !zlen_cons in *.
    rewrite run_push by (done || lia || (cbn [x_stack x_altstack]; rewrite zlen_cons;
      change (zlen ([] : list valtype)) with 0; lia)).
    unfold set_stack. cbn [x_stack x_altstack x_vfExec x_nOpCount].
    rewrite (run_op_ok _ _ _ _ _ _ _ OP_EQUAL _ _ _ (vch_bool (bool_decide (h_Hash160 H x = h)) :: rest))
      by (done || (rewrite zlen_cons; lia)).
    done.
Qed.
End P2SH.

Lemma EvalScript_depth CheckLowS H cc checker flags branch stack script stack' :
  EvalScript CheckLowS H cc checker flags branch stack script = inr stack' ->
  zlen stack <= 1000 -> zlen stack' <= 1000.
Proof.
  rewrite EvalScript_run. intros He Hz. destruct (_ >? MAX_SCRIPT_SIZE); [done|].
  apply exec_bind_inr in He as (s & Hrun & Hs). destruct (negb _); [done|]. injection Hs as <-.
  eapply (run_invariant _ _ _ _ _ _ (fun s => zlen (x_stack s) <= 1000)) in Hrun; [done| |done].
  intros pc s1 r _ Hstep. unfold eval_step in Hstep. cbv zeta in Hstep.
  destruct (negb _); [done|]. destruct (_ >? MAX_SCRIPT_ELEMENT_SIZE); [done|].
  destruct (_ && _); [done|]. destruct (is_disabled _); [done|].
  apply exec_bind_inr in Hstep as (s2 & _ & Hstep). rewrite Z.gtb_ltb in Hstep.
  destruct (Z.ltb_spec 1000 (zlen (x_stack s2) + zlen (x_altstack s2))); [done|].
  injection Hstep as <-. cbn. pose proof (zlen_nonneg (x_altstack s2)). lia.
Qed.

Lemma p2sh_is_p2sh h : zlen h = 20 -> IsPayToScriptHash (PayToScriptHash h) = true.
Proof.
  intros Hh. unfold IsPayToScriptHash. rewrite p2sh_zlen, p2sh_script by done.
  assert (push_data h [] = 20 :: h) as -> by (unfold push_data; by rewrite Hh).
  unfold at_. cbn [app nth]. rewrite app_nth2 by (unfold zlen in Hh; lia).
  by replace (20 - length h)%nat with 0%nat by (unfold zlen in Hh; lia).
Qed.

(** What a pay-to-script-hash spend comes to, in the order of the checks. *)
Definition p2sh_outcome CheckLowS H cc checker flags branch (h scriptSig : bytes) : option (exec unit) :=
  let Eval := EvalScript CheckLowS H cc checker flags branch in
  if has_flag flags SCRIPT_VERIFY_SIGPUSHONLY && negb (IsPushOnly scriptSig)
    then Some (inl SCRIPT_ERR_SIG_PUSHONLY)
    else match Eval [] scriptSig with
         | inl e => Some (inl e)
         | inr [] => Some bad_stack
         | inr (redeem :: rest) =>
           if zlen rest =? 999 then Some (inl SCRIPT_ERR_STACK_SIZE)
           else if negb (bool_decide (h_Hash160 H redeem = h)) then Some (inl SCRIPT_ERR_EVAL_FALSE)
           else if negb (IsPushOnly scriptSig) then Some (inl SCRIPT_ERR_SIG_PUSHONLY)
           else match Eval rest redeem with
                | inl e => Some (inl e)
                | inr stack =>
                  match check_true stack with
                  | inl e => Some (inl e)
                  | inr _ => if has_flag flags SCRIPT_VERIFY_CLEANSTACK && negb (zlen stack =? 1)
                             then Some (inl SCRIPT_ERR_CLEANSTACK) else Some (inr tt)
                  end
                end
         end.

Lemma VerifyScript_p2sh_outcome CheckLowS H cc checker flags branch h scriptSig :
  has_flag flags SCRIPT_VERIFY_P2SH = true -> zlen h = 20 ->
  VerifyScript CheckLowS H cc checker flags branch scriptSig (PayToScriptHash h)
  = p2sh_outcome CheckLowS H cc checker flags branch h scriptSig.
Proof.
  intros Hp2sh Hh. unfold p2sh_outcome, VerifyScript. destruct (_ && _); [done|].
  assert (IsPayToCryptoCondition (PayToScriptHash h) = false) as -> by (by rewrite p2sh_script).
  rewrite andb_false_r.
  destruct (EvalScript _ _ _ _ _ _ [] scriptSig) as [e|stk] eqn:E; [done|]. cbn [mbind exec_bind].
  apply EvalScript_depth in E; [|done]. rewrite p2sh_eval by done.
  rewrite p2sh_is_p2sh, Hp2sh by done. cbn [andb].
  destruct stk as [|redeem rest]; [done|]. rewrite zlen_cons in *.
  destruct (Z.eqb_spec (zlen rest) 999) as [Hf|Hf].
  { by rewrite (proj2 (Z.eqb_eq _ _)) by lia. }
  rewrite (proj2 (Z.eqb_neq _ _)) by lia. cbn [mbind exec_bind].
  destruct (bool_decide _); [|done]. cbn [check_true vch_bool negb].
  change (CastToBool vchTrue) with true. cbn [mbind exec_bind].
  unfold verify_p2sh. destruct (IsPushOnly scriptSig); [|done]. cbn [negb].
  destruct (EvalScript _ _ _ _ _ _ rest redeem) as [e|stack]; [done|]. cbn [mbind exec_bind].
  destruct (check_true stack); [done|]. cbn [mbind exec_bind]. unfold verify_cleanstack.
  rewrite Hp2sh. by destruct (has_flag flags SCRIPT_VERIFY_CLEANSTACK), (_ =? 1).
Qed.

(** C35: Pay-to-script-hash under the P2SH flag: the assertion that the copied
    stack is not empty never fails; and the output is unlocked exactly when
    scriptSig only pushes, its last push hashes to the output's hash, that
    push run as a script on the other pushes ends with a true top element,
    and, with CLEANSTACK, with nothing else on the stack. *)
Theorem VerifyScript_p2sh CheckLowS H cc checker flags branch h scriptSig
    (Hp2sh : has_flag flags SCRIPT_VERIFY_P2SH = true) (Hh : zlen h = 20) :
  let Eval := EvalScript CheckLowS H cc checker flags branch in
  let result := VerifyScript CheckLowS H cc checker flags branch scriptSig (PayToScriptHash h) in
  result <> None /\
  (result = Some (inr tt) <->
   IsPushOnly scriptSig = true /\
   exists redeem rest stack,
     Eval [] scriptSig = inr (redeem :: rest) /\ zlen rest < 999 /\
     h_Hash160 H redeem = h /\ Eval rest redeem = inr stack /\ check_true stack = inr tt /\
     (has_flag flags SCRIPT_VERIFY_CLEANSTACK = true -> zlen stack = 1)).
Proof.
  intros Eval result. subst result. rewrite VerifyScript_p2sh_outcome by done. unfold p2sh_outcome. fold Eval.
  destruct (IsPushOnly scriptSig); cbn [negb]; cycle 1.
  { rewrite andb_true_r. split; [by repeat case_match|]. split; [by repeat case_match|by intros [? _]]. }
  rewrite andb_false_r. split; [by repeat case_match|]. split.
  - intros Hr. split; [done|]. destruct (Eval [] scriptSig) as [e|[|redeem rest]] eqn:E; [done..|].
    apply EvalScript_depth in E as Hd; [|done]. rewrite zlen_cons in Hd.
    destruct (Z.eqb_spec (zlen rest) 999); [done|].
    destruct (bool_decide_reflect (h_Hash160 H redeem = h)); [|done]. cbn [negb] in Hr.
    destruct (Eval rest redeem) as [?|stack] eqn:E2; [done|].
    destruct (check_true stack) as [?|[]] eqn:E3; [done|].
    exists redeem, rest, stack. split_and!; try done; [lia|]. intros Hc. rewrite Hc in Hr.
    by destruct (Z.eqb_spec (zlen stack) 1).
  - intros (_ & redeem & rest & stack & -> & Hd & Heq & -> & Hc & Hcl).
    rewrite (proj2 (Z.eqb_neq _ _)), bool_decide_eq_true_2, Hc by (done || lia). cbn [negb].
    destruct (has_flag flags SCRIPT_VERIFY_CLEANSTACK); [|done].
    by rewrite Hcl.
Qed.

Lemma VerifyScript_p2sh_witness :
  VerifyScript (fun _ => true) toy_hashers false toy_checker 1 0
    [1; 0x51] (PayToScriptHash (toy_hash [0x51])) = Some (inr tt).
Proof.
  apply (VerifyScript_p2sh (fun _ => true) toy_hashers false toy_checker 1 0);
    [reflexivity|apply toy_hash_length|].
  split; [reflexivity|]. exists [0x51], [], [[1]]. split_and!; reflexivity || discriminate.
Defined.

(** ** Multiple signatures *)

Section Multisig.
Context (CheckLowS : bytes -> bool) (checker : BaseSignatureChecker) (flags branch : Z) (script : bytes).
Abbreviation loop := (multisig_loop CheckLowS checker flags branch script).

(** Distinct keys, in the order of the signatures, that verify them. *)
Definition signed_by (sigs keys : list valtype) : Prop :=
  exists ks, ks `sublist_of` keys /\
    Forall2 (fun sig key => CheckSig checker sig key script branch = true) sigs ks.

Definition encodings_ok (sigs keys : list valtype) : Prop :=
  Forall (fun sig => Forall (fun key => check_encodings CheckLowS sig key flags = inr tt) keys) sigs.

Lemma signed_by_nil keys : signed_by [] keys.
Proof using Type. exists []. split; [apply sublist_nil_l|constructor]. Qed.

Lemma signed_by_cons_ok sig sigs key keys :
  CheckSig checker sig key script branch = true ->
  signed_by (sig :: sigs) (key :: keys) <-> signed_by sigs keys.
Proof using Type.
  intros Hok. split.
  - intros (ks & Hsub & Hf). inversion Hf as [|? k ? ks' Hk Hf']; subst. exists ks'. split; [|done].
    inversion Hsub; subst; [done|]. etrans; [|done]. by apply sublist_cons.
  - intros (ks & Hsub & Hf). exists (key :: ks). split; [by apply sublist_skip|by constructor].
Qed.

Lemma signed_by_cons_no sig sigs key keys :
  CheckSig checker sig key script branch = false ->
  signed_by (sig :: sigs) (key :: keys) <-> signed_by (sig :: sigs) keys.
Proof using Type.
  intros Hno. split.
  - intros (ks & Hsub & Hf). exists ks. split; [|done].
    inversion Hf as [|? k ? ks' Hk Hf']; subst. inversion Hsub; subst; [congruence|done].
  - intros (ks & Hsub & Hf). exists ks. split; [by apply sublist_cons|done].
Qed.

Lemma multisig_loop_spec sigs keys :
  encodings_ok sigs keys -> (length sigs <= length keys)%nat ->
  exists b, loop sigs keys = inr b /\ (b = true <-> signed_by sigs keys).
Proof using Type.
  revert sigs. induction keys as [|key keys IH]; intros sigs He Hlen.
  { destruct sigs; [|cbn in Hlen; lia]. exists true. split; [done|]. split; [|done].
    intros _. apply signed_by_nil. }
  destruct sigs as [|sig sigs].
  { exists true. split; [done|]. split; [|done]. intros _. apply signed_by_nil. }
  cbn [multisig_loop].
  assert (Hsk : check_encodings CheckLowS sig key flags = inr tt).
  { apply Forall_inv in He. by apply Forall_inv in He. }
  assert (Hrest : encodings_ok (sig :: sigs) keys).
  { eapply Forall_impl; [|exact He]. intros x Hx. by apply Forall_inv_tail in Hx. }
  rewrite Hsk. cbn [mbind exec_bind].
  destruct (CheckSig checker sig key script branch) eqn:Hok; cbv zeta.
  - rewrite (proj2 (Nat.ltb_ge _ _)) by (cbn in Hlen; lia).
    destruct (IH sigs) as (b & Hb & Hiff); [by apply Forall_inv_tail in Hrest|cbn in Hlen; lia|].
    exists b. split; [done|]. by rewrite signed_by_cons_ok.
  - destruct (Nat.ltb_spec (length keys) (length (sig :: sigs))) as [Hlt|Hge].
    + exists false. split; [done|]. split; [done|]. rewrite signed_by_cons_no by done.
      intros (ks & Hsub & Hf). apply sublist_length in Hsub. apply Forall2_length in Hf. lia.
    + destruct (IH (sig :: sigs) Hrest Hge) as (b & Hb & Hiff).
      exists b. split; [done|]. by rewrite signed_by_cons_no.
Qed.
End Multisig.

(** OP_CHECKMULTISIG with [m] signatures and [n] keys, [m <= n <= 20]: when
    all encodings are acceptable it consumes its arguments and the dummy and
    pushes true exactly when there are distinct keys, in the order of the
    signatures, that verify them; the single greedy pass misses no such
    assignment. It is counted as [n] operations. *)
Theorem checkmultisig_complete CheckLowS checker flags branch script keys sigs s k
    (Henc : encodings_ok CheckLowS flags sigs keys)
    (Hm : (length sigs <= length keys)%nat) (Hn : (length keys <= 20)%nat)
    (Hk : 0 <= k /\ k + zlen keys <= 201) :
  exists b,
    op_checkmultisig CheckLowS checker flags branch script OP_CHECKMULTISIG
      (CScriptNum_serialize (zlen keys) :: keys ++
       CScriptNum_serialize (zlen sigs) :: sigs ++ [] :: s) k
      = inr (vch_bool b :: s, k + zlen keys) /\
    (b = true <-> signed_by checker branch script sigs keys).
Proof.
  destruct (multisig_loop_spec CheckLowS checker flags branch script sigs keys Henc Hm) as (b & Hb & Hiff).
  exists b. split; [|done]. unfold op_checkmultisig.
  assert (Hnum : forall l : list valtype, (length l <= 20)%nat ->
    CScriptNum (CScriptNum_serialize (zlen l)) (fRequireMinimal flags) nDefaultMaxNumSize
      = Some (zlen l) /\ getint (zlen l) = zlen l).
  { intros l Hl. split.
    - pose proof (serialize_minimal (zlen l) 4 ltac:(lia) ltac:(unfold zlen; lia)) as Hs.
      unfold nDefaultMaxNumSize. destruct (fRequireMinimal flags); [done|].
      rewrite CScriptNum_minimal in Hs. unfold CScriptNum.
      destruct (zlen _ <=? 4) eqn:E4; [|done]. rewrite Z.gtb_ltb, Z.ltb_antisym, E4.
      cbn [andb negb] in *. by destruct (minimal _).
    - unfold getint, zlen. rewrite Z.gtb_ltb, !(proj2 (Z.ltb_ge _ _)) by lia. done. }
  destruct (Hnum keys Hn) as [-> Hgk]. cbn [of_throw mbind exec_bind]. rewrite Hgk.
  pose proof (zlen_nonneg keys). pose proof (zlen_nonneg sigs).
  rewrite !Z.gtb_ltb, (proj2 (Z.ltb_ge (zlen keys) 0)), (proj2 (Z.ltb_ge 20 _)), (proj2 (Z.ltb_ge 201 _))
    by (unfold zlen in *; lia). cbn [orb].
  replace (Z.to_nat (zlen keys)) with (length keys) by (unfold zlen; lia).
  rewrite take_app_length, drop_app_length.
  destruct (Hnum sigs ltac:(lia)) as [-> Hgs]. cbn [of_throw mbind exec_bind]. rewrite Hgs.
  rewrite !Z.gtb_ltb, (proj2 (Z.ltb_ge (zlen sigs) 0)), (proj2 (Z.ltb_ge (zlen keys) _))
    by (unfold zlen in *; lia). cbn [orb].
  replace (Z.to_nat (zlen sigs)) with (length sigs) by (unfold zlen; lia).
  rewrite take_app_length, drop_app_length, Hb. cbn [mbind exec_bind].
  rewrite andb_false_r. done.
Qed.

Lemma checkmultisig_complete_witness :
  exists b,
    op_checkmultisig (fun _ => true) toy_checker 0 0 [] OP_CHECKMULTISIG
      ([2] :: [[7]; []] ++ [1] :: [[]] ++ [] :: [[5]]) 3 = inr (vch_bool b :: [[5]], 3 + 2) /\
    (b = true <-> signed_by toy_checker 0 [] [[]] [[7]; []]).
Proof.
  apply (checkmultisig_complete (fun _ => true) toy_checker 0 0 [] [[7]; []] [[]] [[5]] 3);
    [repeat constructor|cbn; lia|cbn; lia|vm_compute; split; discriminate].
Defined.
