(* ===== verification/SigHash.v ===== *)
(** * Signature hashes and the transaction checker
      (src/src/script/interpreter.{h,cpp}, IsFinalTx of src/src/main.cpp)

    The bytes a transparent signature commits to, in the Sprout format
    ([CTransactionSignatureSerializer]) and in the Overwinter and Sapling
    formats, [SignatureHash] with its optional cache, and the methods of
    [TransactionSignatureChecker] that make an instance of the checker
    interface of the interpreter.  The hash functions (double SHA-256 and
    personalised BLAKE2b), the ECDSA verification and the crypto-conditions
    library are parameters. *)
From Stdlib Require Ascii String.
From S2P Require Import Prelude Serialize Transaction Compressor Interest Script Interpreter.
Import String.StringSyntax.
#[local] Open Scope string_scope.
#[local] Open Scope Z_scope.

Definition NOT_AN_INPUT : Z := 2 ^ 32 - 1.

Inductive SigVersion := SIGVERSION_SPROUT | SIGVERSION_OVERWINTER | SIGVERSION_SAPLING.

Definition SignatureHashVersion (tx : CMutableTransaction) : SigVersion :=
  if fOverwintered tx then
    if nVersionGroupId tx =? SAPLING_VERSION_GROUP_ID then SIGVERSION_SAPLING
    else SIGVERSION_OVERWINTER
  else SIGVERSION_SPROUT.

(** ** The Sprout serializer *)

Section Sprout.
Variables (A : abi) (txTo : CMutableTransaction) (scriptCode : bytes) (nIn nHashType : Z).

Definition fAnyoneCanPay : bool := negb (Z.land nHashType SIGHASH_ANYONECANPAY =? 0).
Definition fHashSingle : bool := Z.land nHashType 0x1f =? SIGHASH_SINGLE.
Definition fHashNone : bool := Z.land nHashType 0x1f =? SIGHASH_NONE.

Definition SerializeScriptCode : bytes :=
  WriteCompactSize (zlen scriptCode) ++ scriptCode.

(** [None] is a read of [txTo.vin] out of range. *)
Definition SerializeInput (nInput : Z) : option bytes :=
  let nInput := if fAnyoneCanPay then nIn else nInput in
  i ← vin txTo !! Z.to_nat nInput;
  Some (ser c_COutPoint (prevout i) ++
        (if negb (nInput =? nIn) then Serialize_blob [] else SerializeScriptCode) ++
        (if negb (nInput =? nIn) && (fHashSingle || fHashNone)
         then ser c_i32 0 else ser c_u32 (nSequence i))).

Definition SerializeOutput (nOutput : Z) : option bytes :=
  if fHashSingle && negb (nOutput =? nIn) then Some (ser c_CTxOut CTxOut_SetNull)
  else o ← vout txTo !! Z.to_nat nOutput; Some (ser c_CTxOut o).

(** [for (i = first; i < first + count; i++)] *)
Fixpoint concat_range (f : Z -> option bytes) (first : Z) (count : nat) : option bytes :=
  match count with
  | O => Some []
  | S count => b ← f first; bs ← concat_range f (first + 1) count; Some (b ++ bs)
  end.

Definition sig_Serialize : option bytes :=
  let nInputs := if fAnyoneCanPay then 1 else zlen (vin txTo) in
  inputs ← concat_range SerializeInput 0 (Z.to_nat nInputs);
  let nOutputs := if fHashNone then 0
                  else if fHashSingle then u32 (nIn + 1) else zlen (vout txTo) in
  outputs ← concat_range SerializeOutput 0 (Z.to_nat nOutputs);
  Some (ser c_i32 (nVersion txTo) ++
        WriteCompactSize nInputs ++ inputs ++
        WriteCompactSize nOutputs ++ outputs ++
        ser c_u32 (nLockTime txTo) ++
        (if nVersion txTo >=? 2 then
           ser (c_vector (sizeof_JS A) (c_JSDescription false)) (vjoinsplit txTo) ++
           (if negb (is_nil (vjoinsplit txTo))
            then ser c_uint256 (joinSplitPubKey txTo) ++ ser (c_chars 64) zero_sig else [])
         else [])).
End Sprout.

(** ** The Overwinter and Sapling digests *)

Section Digests.
(** [CBLAKE2bWriter]: the hash of bytes under a 16-byte personalization;
    [CHashWriter]: double SHA-256. *)
Variable BLAKE2b : bytes -> bytes -> Z.
Variable Hash : bytes -> Z.
Variable A : abi.

Definition ascii_bytes (l : list Ascii.ascii) : bytes := map (fun c => Z.of_N (Ascii.N_of_ascii c)) l.
Definition personal (s : String.string) : bytes := ascii_bytes (String.list_ascii_of_string s).

Definition ZCASH_PREVOUTS_HASH_PERSONALIZATION : bytes := personal "ZcashPrevoutHash".
Definition ZCASH_SEQUENCE_HASH_PERSONALIZATION : bytes := personal "ZcashSequencHash".
Definition ZCASH_OUTPUTS_HASH_PERSONALIZATION : bytes := personal "ZcashOutputsHash".
Definition ZCASH_JOINSPLITS_HASH_PERSONALIZATION : bytes := personal "ZcashJSplitsHash".
Definition ZCASH_SHIELDED_SPENDS_HASH_PERSONALIZATION : bytes := personal "ZcashSSpendsHash".
Definition ZCASH_SHIELDED_OUTPUTS_HASH_PERSONALIZATION : bytes := personal "ZcashSOutputHash".

Definition GetPrevoutHash (tx : CMutableTransaction) : Z :=
  BLAKE2b ZCASH_PREVOUTS_HASH_PERSONALIZATION
    (concat (map (fun i => ser c_COutPoint (prevout i)) (vin tx))).

Definition GetSequenceHash (tx : CMutableTransaction) : Z :=
  BLAKE2b ZCASH_SEQUENCE_HASH_PERSONALIZATION
    (concat (map (fun i => ser c_u32 (nSequence i)) (vin tx))).

Definition GetOutputsHash (tx : CMutableTransaction) : Z :=
  BLAKE2b ZCASH_OUTPUTS_HASH_PERSONALIZATION (concat (map (ser c_CTxOut) (vout tx))).

Definition GetJoinSplitsHash (tx : CMutableTransaction) : Z :=
  BLAKE2b ZCASH_JOINSPLITS_HASH_PERSONALIZATION
    (concat (map (ser (c_JSDescription (useGroth (fOverwintered tx) (nVersion tx)))) (vjoinsplit tx)) ++
     ser c_uint256 (joinSplitPubKey tx)).

Definition GetShieldedSpendsHash (tx : CMutableTransaction) : Z :=
  BLAKE2b ZCASH_SHIELDED_SPENDS_HASH_PERSONALIZATION
    (concat (map (fun d => ser c_uint256 (sd_cv d) ++ ser c_uint256 (sd_anchor d) ++
                           ser c_uint256 (sd_nullifier d) ++ ser c_uint256 (sd_rk d) ++
                           ser (c_chars GROTH_PROOF_SIZE) (sd_zkproof d)) (vShieldedSpend tx))).

Definition GetShieldedOutputsHash (tx : CMutableTransaction) : Z :=
  BLAKE2b ZCASH_SHIELDED_OUTPUTS_HASH_PERSONALIZATION
    (concat (map (ser c_OutputDescription) (vShieldedOutput tx))).

Record PrecomputedTransactionData := mkPrecomputed {
  hashPrevouts : Z; hashSequence : Z; hashOutputs : Z;
  hashJoinSplits : Z; hashShieldedSpends : Z; hashShieldedOutputs : Z
}.

Definition Precomputed (tx : CMutableTransaction) : PrecomputedTransactionData :=
  mkPrecomputed (GetPrevoutHash tx) (GetSequenceHash tx) (GetOutputsHash tx)
    (GetJoinSplitsHash tx) (GetShieldedSpendsHash tx) (GetShieldedOutputsHash tx).

(** The bytes hashed for an overwintered transaction. *)
Definition overwinter_message (sapling : bool) (scriptCode : bytes) (tx : CMutableTransaction)
    (nIn nHashType amount : Z) (cache : option PrecomputedTransactionData) : option bytes :=
  let cached (get : PrecomputedTransactionData -> Z) (compute : CMutableTransaction -> Z) : Z :=
    match cache with Some c => get c | None => compute tx end in
  let anyone := fAnyoneCanPay nHashType in
  let single := fHashSingle nHashType in
  let none := fHashNone nHashType in
  let hp := if negb anyone then cached hashPrevouts GetPrevoutHash else 0 in
  let hs := if negb anyone && negb single && negb none
            then cached hashSequence GetSequenceHash else 0 in
  let ho := if negb single && negb none then cached hashOutputs GetOutputsHash
            else if single then
              match vout tx !! Z.to_nat nIn with
              | Some o => BLAKE2b ZCASH_OUTPUTS_HASH_PERSONALIZATION (ser c_CTxOut o)
              | None => 0
              end
            else 0 in
  let hj := if negb (is_nil (vjoinsplit tx)) then cached hashJoinSplits GetJoinSplitsHash else 0 in
  let hss := if negb (is_nil (vShieldedSpend tx))
             then cached hashShieldedSpends GetShieldedSpendsHash else 0 in
  let hso := if negb (is_nil (vShieldedOutput tx))
             then cached hashShieldedOutputs GetShieldedOutputsHash else 0 in
  input ← (if nIn =? NOT_AN_INPUT then Some []
           else i ← vin tx !! Z.to_nat nIn;
                Some (ser c_COutPoint (prevout i) ++ Serialize_blob scriptCode ++
                      ser c_i64 amount ++ ser c_u32 (nSequence i)));
  Some (ser c_u32 (GetHeader tx) ++ ser c_u32 (nVersionGroupId tx) ++
        ser c_uint256 hp ++ ser c_uint256 hs ++ ser c_uint256 ho ++ ser c_uint256 hj ++
        (if sapling then ser c_uint256 hss ++ ser c_uint256 hso else []) ++
        ser c_u32 (nLockTime tx) ++ ser c_u32 (nExpiryHeight tx) ++
        (if sapling then ser c_i64 (valueBalance tx) else []) ++
        ser c_i32 nHashType ++ input).

(** [None] is a thrown [logic_error] or an input index that is out of range. *)
Definition SignatureHash (scriptCode : bytes) (tx : CMutableTransaction) (nIn nHashType amount : Z)
    (consensusBranchId : Z) (cache : option PrecomputedTransactionData) : option Z :=
  if (nIn >=? zlen (vin tx)) && negb (nIn =? NOT_AN_INPUT) then None
  else
    match SignatureHashVersion tx with
    | SIGVERSION_SPROUT =>
      if fHashSingle nHashType && (nIn >=? zlen (vout tx)) then None
      else
        msg ← sig_Serialize A tx scriptCode nIn nHashType;
        Some (Hash (msg ++ ser c_i32 nHashType))
    | v =>
      let sapling := match v with SIGVERSION_SAPLING => true | _ => false end in
      msg ← overwinter_message sapling scriptCode tx nIn nHashType amount cache;
      Some (BLAKE2b (personal "ZcashSigHash" ++ le_bytes 4 (u32 consensusBranchId)) msg)
    end.

(** ** The checker *)

Section Checker.
(** [CPubKey::Verify]; the crypto-conditions library on condition,
    fulfillment without its last byte and the hash. *)
Variable Verify : bytes -> Z -> bytes -> bool.
Variables (txTo : CMutableTransaction) (nIn amount : Z) (txdata : option PrecomputedTransactionData).

Definition tx_CheckSig (vchSigIn vchPubKey : valtype) (scriptCode : bytes) (branch : Z) : bool :=
  let pubkey := CPubKey_Set vchPubKey in
  if negb (CPubKey_IsValid pubkey) then false
  else match vchSigIn with
       | [] => false
       | _ =>
         match SignatureHash scriptCode txTo nIn (back vchSigIn) amount branch txdata with
         | None => false
         | Some sighash => Verify pubkey sighash (removelast vchSigIn)
         end
       end.

(** The argument is a script number. *)
Definition tx_CheckLockTime (nLockTime' : Z) : bool :=
  if negb (((nLockTime txTo <? LOCKTIME_THRESHOLD) && (nLockTime' <? LOCKTIME_THRESHOLD))
           || ((nLockTime txTo >=? LOCKTIME_THRESHOLD) && (nLockTime' >=? LOCKTIME_THRESHOLD)))
  then false
  else if nLockTime' >? nLockTime txTo then false
  else match vin txTo !! Z.to_nat nIn with
       | Some i => negb (CTxIn_IsFinal i)
       | None => false
       end.
End Checker.
End Digests.

(** ** Final transactions (src/src/main.cpp) *)

Definition nDecemberHardforkHeight : Z := 1670000.
Definition nStakedDecemberHardforkTimestamp : Z := 1576840000.

(** [height] is the height of the active chain. *)
Definition squishy_hardfork_active (isKMD : bool) (height time : Z) : bool :=
  (isKMD && (height >? nDecemberHardforkHeight))
  || (negb isKMD && (time >? nStakedDecemberHardforkTimestamp)).

Definition input_final (hardfork : bool) (locktime nBlockHeight nBlockTime : Z) (i : CTxIn) : bool :=
  if negb hardfork && (nSequence i =? 0xfffffffe)
     && (((locktime >=? LOCKTIME_THRESHOLD) && (locktime >? nBlockTime))
         || ((locktime <? LOCKTIME_THRESHOLD) && (locktime >? nBlockHeight)))
  then true
  else if hardfork && (nSequence i =? 0xfffffffe)
     && (((locktime >=? LOCKTIME_THRESHOLD) && (locktime <=? nBlockTime))
         || ((locktime <? LOCKTIME_THRESHOLD) && (locktime <=? nBlockHeight)))
  then true
  else CTxIn_IsFinal i.

Definition IsFinalTx (isKMD : bool) (chainHeight : Z) (tx : CMutableTransaction)
    (nBlockHeight nBlockTime : Z) : bool :=
  if nLockTime tx =? 0 then true
  else if nLockTime tx <? (if nLockTime tx <? LOCKTIME_THRESHOLD then nBlockHeight else nBlockTime)
  then true
  else forallb (input_final (squishy_hardfork_active isKMD chainHeight (u32 nBlockTime))
                  (nLockTime tx) nBlockHeight nBlockTime) (vin tx).

Definition IsExpiredTx (tx : CMutableTransaction) (nBlockHeight : Z) : bool :=
  if (nExpiryHeight tx =? 0) || IsCoinBase tx then false
  else u32 nBlockHeight >? nExpiryHeight tx.

(** ** The Sprout message as a modified transaction *)

Section Reference.
Variables (tx : CMutableTransaction) (scriptCode : bytes) (nIn nHashType : Z).

Definition sighash_input (k : nat) (i : CTxIn) : CTxIn :=
  if Z.of_nat k =? nIn then mkCTxIn (prevout i) scriptCode (nSequence i)
  else mkCTxIn (prevout i) []
         (if fHashSingle nHashType || fHashNone nHashType then 0 else nSequence i).

Definition sighash_vin : list CTxIn :=
  if fAnyoneCanPay nHashType then
    match vin tx !! Z.to_nat nIn with
    | Some i => [mkCTxIn (prevout i) scriptCode (nSequence i)] | None => [] end
  else imap sighash_input (vin tx).

Definition sighash_vout : list CTxOut :=
  if fHashNone nHashType then []
  else if fHashSingle nHashType then
    match vout tx !! Z.to_nat nIn with
    | Some o => replicate (Z.to_nat nIn) CTxOut_SetNull ++ [o] | None => [] end
  else vout tx.

(** The copy of the transaction that is signed: the signed input carries the
    script code, the other inputs' scripts are blanked (and their sequence
    numbers zeroed for SINGLE and NONE) or left out (ANYONECANPAY), the outputs
    are all, none, or those up to the input's own with the others nulled, and
    the JoinSplit signature is blank. *)
Definition sighash_tx : CMutableTransaction :=
  mkCMutableTransaction (fOverwintered tx) (nVersion tx) (nVersionGroupId tx)
    sighash_vin sighash_vout (nLockTime tx) (nExpiryHeight tx) (valueBalance tx)
    (vShieldedSpend tx) (vShieldedOutput tx) (vjoinsplit tx) (joinSplitPubKey tx)
    zero_sig (bindingSig tx).
End Reference.

Lemma concat_range_imap {T} (f : Z -> option bytes) (g : nat -> T -> bytes) (l : list T) k :
  (forall j x, l !! j = Some x -> f (k + Z.of_nat j) = Some (g j x)) ->
  concat_range f k (length l) = Some (concat (imap g l)).
Proof.
  revert g k. induction l as [|x l IH]; intros g k Hf; [done|].
  cbn [length concat_range]. pose proof (Hf 0%nat x eq_refl) as H0. rewrite Z.add_0_r in H0.
  rewrite H0. cbn [mbind option_bind]. rewrite (IH (fun j => g (S j))).
  - done.
  - intros j y Hj. rewrite <- (Hf (S j) y Hj). f_equal. lia.
Qed.

Lemma concat_imap_map {T U} (g : nat -> T -> U) (s : U -> bytes) (l : list T) :
  concat (imap (fun j x => s (g j x)) l) = concat (map s (imap g l)).
Proof.
  f_equal. revert g. induction l as [|x l IH]; intros g; [done|]. cbn. f_equal. apply (IH (fun j => g (S j))).
Qed.

Lemma concat_range_map {T} (f : Z -> option bytes) (s : T -> bytes) (l : list T) k :
  (forall j x, l !! j = Some x -> f (k + Z.of_nat j) = Some (s x)) ->
  concat_range f k (length l) = Some (concat (map s l)).
Proof.
  intros Hf. rewrite (concat_range_imap f (fun _ => s)) by done.
  f_equal. f_equal. clear Hf. induction l as [|x l IH]; [done|]. cbn. by f_equal.
Qed.

Section SproutFacts.
Variables (tx : CMutableTransaction) (scriptCode : bytes) (nIn nHashType : Z).
Hypothesis Hin : 0 <= nIn < zlen (vin tx).
Hypothesis Hsingle : fHashSingle nHashType = true -> nIn < zlen (vout tx).
Hypothesis Hu32 : nIn < 2 ^ 32 - 1.

Lemma ser_CTxIn i : ser c_CTxIn i =
  ser c_COutPoint (prevout i) ++ Serialize_blob (scriptSig i) ++ ser c_u32 (nSequence i).
Proof using Type. done. Qed.

Lemma inputs_ref :
  let nInputs := if fAnyoneCanPay nHashType then 1 else zlen (vin tx) in
  concat_range (SerializeInput tx scriptCode nIn nHashType) 0 (Z.to_nat nInputs) =
    Some (Serialize_elems (ser c_CTxIn) (sighash_vin tx scriptCode nIn nHashType)) /\
  nInputs = zlen (sighash_vin tx scriptCode nIn nHashType).
Proof using Hin.
  unfold sighash_vin. destruct (fAnyoneCanPay nHashType) eqn:Ha.
  - destruct (lookup_lt_is_Some_2 (vin tx) (Z.to_nat nIn)) as [i Hi]; [unfold zlen in Hin; lia|].
    rewrite Hi. split; [|done]. change (Z.to_nat 1) with 1%nat. cbn [concat_range].
    unfold SerializeInput. rewrite Ha, Hi, Z.eqb_refl. cbn [mbind option_bind negb andb].
    unfold Serialize_elems. cbn [map concat]. by rewrite ser_CTxIn.
  - split; [|unfold zlen; by rewrite length_imap].
    unfold zlen. rewrite Nat2Z.id. unfold Serialize_elems. rewrite <- concat_imap_map.
    apply concat_range_imap. intros j x Hj. rewrite Z.add_0_l. unfold SerializeInput.
    rewrite Ha, Nat2Z.id, Hj. cbn [mbind option_bind]. f_equal. unfold sighash_input.
    destruct (Z.eqb_spec (Z.of_nat j) nIn); cbn [negb andb].
    + by rewrite ser_CTxIn.
    + rewrite ser_CTxIn. cbn [prevout scriptSig nSequence]. by destruct (_ || _).
Qed.

Lemma outputs_ref :
  let nOutputs := if fHashNone nHashType then 0
                  else if fHashSingle nHashType then u32 (nIn + 1) else zlen (vout tx) in
  concat_range (SerializeOutput tx nIn nHashType) 0 (Z.to_nat nOutputs) =
    Some (Serialize_elems (ser c_CTxOut) (sighash_vout tx nIn nHashType)) /\
  nOutputs = zlen (sighash_vout tx nIn nHashType).
Proof using Hin Hsingle Hu32.
  unfold sighash_vout. destruct (fHashNone nHashType) eqn:Hn; [done|].
  destruct (fHashSingle nHashType) eqn:Hs.
  - destruct (lookup_lt_is_Some_2 (vout tx) (Z.to_nat nIn)) as [o Ho];
      [specialize (Hsingle eq_refl); unfold zlen in *; lia|].
    rewrite Ho, u32_id by (unfold is_u32; lia).
    assert (Hlen : length (replicate (Z.to_nat nIn) CTxOut_SetNull ++ [o]) = Z.to_nat (nIn + 1))
      by (rewrite length_app, length_replicate; cbn; lia).
    split; [|unfold zlen; lia]. rewrite <- Hlen. unfold Serialize_elems.
    apply concat_range_map. intros j x Hj. rewrite Z.add_0_l. unfold SerializeOutput.
    rewrite Hs, Nat2Z.id. cbn [andb]. apply lookup_app_Some in Hj as [Hj|[Hge Hj]].
    + apply lookup_replicate in Hj as [-> Hlt].
      by rewrite (proj2 (Z.eqb_neq _ _)) by lia.
    + rewrite length_replicate in Hge, Hj. apply list_lookup_singleton_Some in Hj as [Hj ->].
      assert (j = Z.to_nat nIn) as -> by lia. rewrite Ho, (proj2 (Z.eqb_eq _ _)) by lia. done.
  - split; [|done]. unfold zlen. rewrite Nat2Z.id. apply concat_range_map.
    intros j x Hj. rewrite Z.add_0_l. unfold SerializeOutput. rewrite Hs, Nat2Z.id, Hj. done.
Qed.

Lemma sig_Serialize_ref A :
  fOverwintered tx = false -> forallb (fun d => proof_matches false (js_proof d)) (vjoinsplit tx) = true ->
  sig_Serialize A tx scriptCode nIn nHashType =
    SerializeTransaction A (sighash_tx tx scriptCode nIn nHashType) /\
  is_Some (SerializeTransaction A (sighash_tx tx scriptCode nIn nHashType)).
Proof using Hin Hsingle Hu32.
  intros Ho Hp. unfold sig_Serialize, SerializeTransaction.
  destruct inputs_ref as [Hi Hni]. destruct outputs_ref as [Hout Hno].
  cbv zeta in Hi, Hni, Hout, Hno |- *. rewrite Hi, Hout. cbn [mbind option_bind].
  unfold sighash_tx. cbn [fOverwintered nVersion nVersionGroupId vin vout nLockTime nExpiryHeight
    valueBalance vShieldedSpend vShieldedOutput vjoinsplit joinSplitPubKey joinSplitSig bindingSig].
  rewrite Ho. unfold isOverwinterV3, isSaplingV4, useGroth. cbn [andb orb negb].
  rewrite Hp. rewrite andb_false_r. split; [|eauto].
  rewrite Hni, Hno. unfold GetHeader. cbn [fOverwintered nVersion]. cbn [app]. f_equal.
  assert (Hver : ser c_u32 (u32 (nVersion tx)) = ser c_i32 (nVersion tx)).
  { cbn. unfold ser_writedata32. by rewrite (u32_id (u32 _)) by apply u32_range. }
  rewrite Hver. unfold c_vector. cbn [ser]. unfold Serialize_vector. rewrite <- !app_assoc.
  rewrite app_nil_r. done.
Qed.
End SproutFacts.

(** What the Sprout signature hash is asked for: an input of the transaction,
    and for SINGLE an output of the same index. *)
Definition signable (tx : CMutableTransaction) (nIn nHashType : Z) : Prop :=
  fOverwintered tx = false /\ 0 <= nIn < zlen (vin tx) /\ nIn < 2 ^ 32 - 1 /\
  (fHashSingle nHashType = true -> nIn < zlen (vout tx)) /\
  forallb (fun d => proof_matches false (js_proof d)) (vjoinsplit tx) = true.

(** C34: The in-place serializer of Sprout signature hashes equals its
    specification: for every hash type the hash is that of the ordinary
    serialization of the modified copy [sighash_tx] of the transaction followed
    by the hash type. *)
Theorem sprout_sighash_reference BLAKE2b Hash A scriptCode tx nIn nHashType amount branch cache
    (Hs : signable tx nIn nHashType) :
  exists bs, SerializeTransaction A (sighash_tx tx scriptCode nIn nHashType) = Some bs /\
    SignatureHash BLAKE2b Hash A scriptCode tx nIn nHashType amount branch cache =
      Some (Hash (bs ++ ser c_i32 nHashType)).
Proof.
  destruct Hs as (Ho & Hin & Hu & Hsg & Hp).
  destruct (sig_Serialize_ref tx scriptCode nIn nHashType Hin Hsg Hu A Ho Hp) as [He [bs Hbs]].
  exists bs. split; [done|]. unfold SignatureHash, SignatureHashVersion. rewrite Ho, He, Hbs.
  rewrite Z.geb_leb, (proj2 (Z.leb_gt _ _)) by lia. cbn [andb].
  destruct (fHashSingle nHashType) eqn:E; [|done].
  rewrite Z.geb_leb, (proj2 (Z.leb_gt _ _)) by (by apply Hsg). done.
Qed.

(** A transaction with an input and an output, as signed below. *)
Definition tx_sprout (script : bytes) : CMutableTransaction :=
  {| fOverwintered := false; nVersion := 1; nVersionGroupId := 0;
     vin := [mkCTxIn (mkCOutPoint 5 0) script (2 ^ 32 - 2); mkCTxIn (mkCOutPoint 6 1) script 7];
     vout := [mkCTxOut COIN [0x51]]; nLockTime := 9; nExpiryHeight := 0; valueBalance := 0;
     vShieldedSpend := []; vShieldedOutput := []; vjoinsplit := []; joinSplitPubKey := 0;
     joinSplitSig := zero_sig; bindingSig := zero_sig |}.

Lemma sprout_sighash_reference_witness :
  exists bs, SerializeTransaction abi_x86_64 (sighash_tx (tx_sprout [1; 2]) [0x51] 0 3) = Some bs /\
    SignatureHash (fun _ _ => 0) le_value abi_x86_64 [0x51] (tx_sprout [1; 2]) 0 3 0 0 None =
      Some (le_value (bs ++ ser c_i32 3)).
Proof.
  apply (sprout_sighash_reference (fun _ _ => 0) le_value abi_x86_64 [0x51] (tx_sprout [1; 2]) 0 3 0 0 None).
  repeat split; vm_compute; reflexivity || discriminate.
Defined.

(** What a Sprout signature commits to: when two signing requests hash the
    same bytes, their hash types are equal and so are their signed copies, that
    is everything the hash type covers, the script code, the index of the signed
    input and every output it binds included. *)
Theorem sprout_sighash_commits A scriptCode scriptCode' tx tx' nIn nIn' ht ht' msg
    (Hs : signable tx nIn ht) (Hs' : signable tx' nIn' ht')
    (Hv : tx_valid A (sighash_tx tx scriptCode nIn ht))
    (Hv' : tx_valid A (sighash_tx tx' scriptCode' nIn' ht'))
    (Ht : is_i32 ht) (Ht' : is_i32 ht')
    (Hm : sig_Serialize A tx scriptCode nIn ht ≫= (fun m => Some (m ++ ser c_i32 ht)) = Some msg)
    (Hm' : sig_Serialize A tx' scriptCode' nIn' ht' ≫= (fun m => Some (m ++ ser c_i32 ht')) = Some msg) :
  ht = ht' /\
  tx_carried (sighash_tx tx scriptCode nIn ht) = tx_carried (sighash_tx tx' scriptCode' nIn' ht').
Proof.
  destruct Hs as (Ho & Hin & Hu & Hsg & Hp), Hs' as (Ho' & Hin' & Hu' & Hsg' & Hp').
  destruct (sig_Serialize_ref tx scriptCode nIn ht Hin Hsg Hu A Ho Hp) as [He [bs Hbs]].
  destruct (sig_Serialize_ref tx' scriptCode' nIn' ht' Hin' Hsg' Hu' A Ho' Hp') as [He' [bs' Hbs']].
  rewrite He, Hbs in Hm. rewrite He', Hbs' in Hm'. cbn [mbind option_bind] in Hm, Hm'.
  apply (inj Some) in Hm, Hm'.
  pose proof (SerializeTransaction_carried A _ _ (ser c_i32 ht) Hv Hbs) as Hr.
  pose proof (SerializeTransaction_carried A _ _ (ser c_i32 ht') Hv' Hbs') as Hr'.
  rewrite Hm in Hr. rewrite Hm' in Hr'. rewrite Hr in Hr'. apply (inj Some) in Hr'.
  assert (Hht : ser c_i32 ht = ser c_i32 ht') by congruence.
  pose proof (unser_ser c_i32 ht [] Ht) as Hu1. pose proof (unser_ser c_i32 ht' [] Ht') as Hu2.
  rewrite Hht in Hu1. split; congruence.
Qed.

Lemma sprout_sighash_commits_witness :
  let tx1 := tx_sprout [1; 2] in
  let tx2 := tx_sprout [3] in
  tx_carried (sighash_tx tx1 [0x51] 0 1) = tx_carried (sighash_tx tx2 [0x51] 0 1).
Proof.
  intros tx1 tx2.
  assert (Hval : forall s, tx_valid abi_x86_64 (sighash_tx (tx_sprout s) [0x51] 0 1)).
  { intros s. unfold tx_valid. cbn -[valid c_vector c_uint256 c_chars Z.pow].
    repeat match goal with
    | |- _ /\ _ => split
    | |- valid (c_vector _ _) _ => split_and!
    | |- valid (c_chars _) _ => by apply valid_chars_repeat
    | |- Forall _ _ => constructor
    end; try done. all: by apply (valid_chars_repeat 64). }
  eapply (sprout_sighash_commits abi_x86_64 [0x51] [0x51] tx1 tx2 0 0 1 1);
    [repeat split; vm_compute; reflexivity || discriminate
    |repeat split; vm_compute; reflexivity || discriminate
    |apply Hval|apply Hval|unfold is_i32; lia|unfold is_i32; lia|vm_compute; reflexivity|vm_compute; reflexivity].
Defined.

(** The precomputed digests never change a signature hash: with the cache
    built from the same transaction it is what it is without a cache, for every
    input, hash type, amount and branch, failures included. *)
Theorem SignatureHash_cache BLAKE2b Hash A scriptCode tx nIn nHashType amount branch :
  SignatureHash BLAKE2b Hash A scriptCode tx nIn nHashType amount branch
      (Some (Precomputed BLAKE2b tx)) =
  SignatureHash BLAKE2b Hash A scriptCode tx nIn nHashType amount branch None.
Proof. reflexivity. Qed.

(** ** Lock times *)

(** The height or time a block must have reached. *)
Definition reached (locktime nBlockHeight nBlockTime : Z) : Prop :=
  if locktime <? LOCKTIME_THRESHOLD then locktime <= nBlockHeight else locktime <= nBlockTime.

Lemma input_final_hardfork locktime h t i :
  input_final true locktime h t i = true -> CTxIn_IsFinal i = false -> reached locktime h t.
Proof.
  unfold input_final, reached. cbn [negb andb]. intros Hf Hn.
  destruct (nSequence i =? _); [|cbn in Hf; congruence]. cbn [andb] in Hf.
  rewrite Z.geb_leb, (Z.leb_antisym locktime LOCKTIME_THRESHOLD) in Hf.
  destruct (locktime <? LOCKTIME_THRESHOLD); cbn [negb andb orb] in Hf;
    (destruct (Z.leb_spec locktime h) || idtac); destruct (Z.leb_spec locktime t);
    done || (cbn in Hf; congruence) || idtac.
Qed.

(** After the December 2019 hardfork, OP_CHECKLOCKTIMEVERIFY is enforced: an
    input whose script demands the lock time [t] and passes the checker can be
    in a block ([IsFinalTx]) only when the block's height (or time) has reached
    [t]. *)
Theorem cltv_enforced isKMD chainHeight tx nIn t nBlockHeight nBlockTime
    (Hfork : squishy_hardfork_active isKMD chainHeight (u32 nBlockTime) = true)
    (Ht : 0 < t) (Hcheck : tx_CheckLockTime tx nIn t = true)
    (Hfinal : IsFinalTx isKMD chainHeight tx nBlockHeight nBlockTime = true) :
  reached t nBlockHeight nBlockTime.
Proof.
  unfold tx_CheckLockTime in Hcheck.
  destruct (negb (_ || _)) eqn:Hkind; [done|]. apply negb_false_iff in Hkind.
  rewrite Z.gtb_ltb in Hcheck. destruct (Z.ltb_spec (nLockTime tx) t) as [|Hle]; [done|].
  destruct (vin tx !! Z.to_nat nIn) as [i|] eqn:Hi; [|done]. apply negb_true_iff in Hcheck.
  assert (Hr : reached (nLockTime tx) nBlockHeight nBlockTime).
  { unfold IsFinalTx in Hfinal. rewrite Hfork in Hfinal.
    destruct (Z.eqb_spec (nLockTime tx) 0); [lia|].
    destruct (Z.ltb_spec (nLockTime tx)
      (if nLockTime tx <? LOCKTIME_THRESHOLD then nBlockHeight else nBlockTime)) as [Hlt|_].
    - unfold reached. destruct (nLockTime tx <? LOCKTIME_THRESHOLD); lia.
    - rewrite forallb_forall in Hfinal. eapply input_final_hardfork; [|exact Hcheck].
      apply Hfinal, list_elem_of_In. by eapply list_elem_of_lookup_2. }
  unfold reached in *. rewrite !Z.geb_leb, !(Z.leb_antisym _ LOCKTIME_THRESHOLD) in Hkind.
  destruct (Z.ltb_spec (nLockTime tx) LOCKTIME_THRESHOLD), (Z.ltb_spec t LOCKTIME_THRESHOLD);
    cbn in Hkind; done || lia.
Qed.

Lemma cltv_enforced_witness :
  reached 9 10 1600000000 /\ tx_CheckLockTime (tx_sprout []) 0 9 = true.
Proof.
  split; [|reflexivity].
  apply (cltv_enforced true 2000000 (tx_sprout []) 0 9 10 1600000000); reflexivity.
Defined.

(** Before that hardfork lock times do not bind: a transaction whose inputs
    all have sequence number 0xfffffffe, which OP_CHECKLOCKTIMEVERIFY accepts as
    not final, is final in every block whose height (or time) is still below
    its lock time. *)
Theorem locktime_ignored_before_hardfork isKMD chainHeight tx nBlockHeight nBlockTime
    (Hfork : squishy_hardfork_active isKMD chainHeight (u32 nBlockTime) = false)
    (Hseq : Forall (fun i => nSequence i = 0xfffffffe) (vin tx))
    (Hlate : ~ reached (nLockTime tx) nBlockHeight nBlockTime) :
  IsFinalTx isKMD chainHeight tx nBlockHeight nBlockTime = true.
Proof.
  unfold IsFinalTx. rewrite Hfork. destruct (nLockTime tx =? 0); [done|].
  destruct (_ <? _); [done|]. apply forallb_forall. intros i Hi.
  rewrite List.Forall_forall in Hseq. unfold input_final. rewrite (Hseq i Hi), Z.eqb_refl.
  cbn [negb andb]. unfold reached in Hlate. rewrite Z.geb_leb, (Z.leb_antisym _ LOCKTIME_THRESHOLD).
  rewrite !Z.gtb_ltb. destruct (_ <? LOCKTIME_THRESHOLD); cbn [negb andb orb];
    by rewrite (proj2 (Z.ltb_lt _ _)) by lia.
Qed.

Lemma locktime_ignored_before_hardfork_witness :
  let i := mkCTxIn (mkCOutPoint 5 0) [] 0xfffffffe in
  let tx := mkCMutableTransaction false 1 0 [i] [] 500000 0 0 [] [] [] 0 zero_sig zero_sig in
  IsFinalTx true 1000 tx 1000 1500000000 = true /\ tx_CheckLockTime tx 0 500000 = true.
Proof.
  intros i tx. split; [|reflexivity].
  apply locktime_ignored_before_hardfork; [reflexivity|by repeat constructor|].
  unfold reached. cbn. lia.
Defined.
