(* ===== verification/Seasons.v ===== *)
(** * The notary seasons (src/src/squishy_hardfork.cpp, squishy_notary.cpp)

    The tables of season ends by height and by time, and the season of a
    height or a time: shared by the transaction checks and the notaries. *)
From S2P Require Import Prelude.
#[local] Open Scope Z_scope.

(** Ends of the seasons on the main chain, and on the other chains. *)
Definition KMD_SEASON_HEIGHTS : list Z := [814000; 1444000; 1670000; 1922000; 2437300; 2963330; 3484958; 8113400].
Definition KMD_SEASON_TIMESTAMPS : list Z :=
  [1525132800; 1563148800; 1576840000; 1592146800; 1623682800; 1656077853; 1688132253; 1951328000].

(** [for (int32_t i = 1; i < NUM_KMD_SEASONS; i++)] from season [i] on. *)
Fixpoint season_loop (x prev i : Z) (l : list Z) : Z :=
  match l with
  | [] => 0
  | y :: l => if (x <=? y) && (x >? prev) then i + 1 else season_loop x y (i + 1) l
  end.

Definition season_of (table : list Z) (x : Z) : Z :=
  match table with
  | [] => 0
  | y :: l => if x <=? y then 1 else season_loop x y 1 l
  end.

Definition getkmdseason (height : Z) : Z := season_of KMD_SEASON_HEIGHTS height.
Definition getacseason (timestamp : Z) : Z := season_of KMD_SEASON_TIMESTAMPS timestamp.
