(* ===== verification/CheckTx.v ===== *)
(** * Context-free transaction checks (CheckTransactionWithoutProofVerification
      of src/src/main.cpp)

    The consensus checks on a transaction alone: version, sizes, amounts,
    JoinSplit values, chain-specific privacy and proof-of-work rules, duplicate
    inputs and nullifiers, coinbase shape.  A rejection carries the ban score
    and the reason string of [CValidationState]. *)
From Stdlib Require Ascii String.
From S2P Require Import Prelude Serialize Transaction Compressor Interest Script SigHash Seasons.
Import String.StringSyntax.
#[local] Open Scope string_scope.
#[local] Open Scope Z_scope.

(** ** Verdicts *)

(** [state.DoS(nDoS, ..., reason)], the same with [corruptionIn], [state.Invalid(..., reason)],
    an error return that rejects nothing, or an exception. *)
Inductive reject :=
| DoS (nDoS : Z) (reason : String.string)
| Corrupted (nDoS : Z) (reason : String.string)
| Invalid (reason : String.string)
| Failed
| Thrown.

Abbreviation verdict := (sum reject).
#[global] Instance verdict_ret : MRet verdict := fun A a => inr a.
#[global] Instance verdict_bind : MBind verdict := fun A B f m =>
  match m with inl e => inl e | inr a => f a end.

(** [if (b) return state...;] before the rest [k]. *)
Definition reject_if {A} (b : bool) (r : reject) (k : verdict A) : verdict A :=
  if b then inl r else k.

(** ** Constants and chain configuration *)

Definition SPROUT_MIN_TX_VERSION : Z := 1.
Definition OVERWINTER_MIN_TX_VERSION : Z := 3.
Definition TX_EXPIRY_HEIGHT_THRESHOLD : Z := 500000000.
Definition MAX_TX_SIZE_AFTER_SAPLING : Z := 200000.
Definition IGUANA_MAXSCRIPTSIZE : Z := 10001.
Definition SQUISHY_SAPLING_DEADLINE : Z := 1550188800.

(** The globals the checks read. *)
Record chain_rules := mkRules {
  MAX_MONEY : Z; ASSETCHAINS_PUBLIC : Z; ASSETCHAINS_PRIVATE : Z; ASSETCHAINS_TXPOW : Z;
  sapling_deadline_chain : bool;   (** [chainName.isKMD() || chainName.isSymbol("ZEX")] *)
  tip_time : option Z              (** [chainActive.Tip()->nTime] *)
}.

Definition squishy_acpublic (R : chain_rules) (tiptime : Z) : Z :=
  let acpublic := ASSETCHAINS_PUBLIC R in
  if acpublic =? 0 then
    let tiptime := if tiptime =? 0 then default tiptime (tip_time R) else tiptime in
    if sapling_deadline_chain R && (tiptime >=? SQUISHY_SAPLING_DEADLINE) then 1 else acpublic
  else acpublic.

Section Check.
Variable A : abi.
Variable R : chain_rules.
(** The hash of a script, and whether a script pays to the burn address or an
    elected notary of the season ([Getscriptaddress], [squishy_isnotaryvout]). *)
Variable Hash160 : bytes -> bytes.
Variable squishy_isnotaryvout : bytes -> Z -> bool.

(** ** The checks in their order *)

Definition check_version (tx : CMutableTransaction) : verdict unit :=
  if negb (fOverwintered tx) && (nVersion tx <? SPROUT_MIN_TX_VERSION)
  then inl (DoS 100 "bad-txns-version-too-low")
  else if fOverwintered tx then
    reject_if (nVersion tx <? OVERWINTER_MIN_TX_VERSION) (DoS 100 "bad-tx-overwinter-version-too-low")
    (reject_if (negb (nVersionGroupId tx =? OVERWINTER_VERSION_GROUP_ID)
                && negb (nVersionGroupId tx =? SAPLING_VERSION_GROUP_ID))
       (DoS 100 "bad-tx-version-group-id")
    (reject_if (nExpiryHeight tx >=? TX_EXPIRY_HEIGHT_THRESHOLD)
       (DoS 100 "bad-tx-expiry-height-too-high") (inr tt)))
  else inr tt.

Definition check_shape (tx : CMutableTransaction) : verdict unit :=
  reject_if (is_nil (vin tx) && is_nil (vjoinsplit tx) && is_nil (vShieldedSpend tx))
    (DoS 10 "bad-txns-vin-empty")
  (reject_if (is_nil (vout tx) && is_nil (vjoinsplit tx) && is_nil (vShieldedOutput tx))
    (DoS 10 "bad-txns-vout-empty")
  (match SerializeTransaction A tx with
   | None => inl Thrown
   | Some bs => reject_if (zlen bs >? MAX_TX_SIZE_AFTER_SAPLING) (DoS 100 "bad-txns-oversize") (inr tt)
   end)).

(** The loop over the outputs: [nValueOut] and [invalid_private_taddr]. *)
Fixpoint check_outputs (iscoinbase : bool) (tiptime : Z) (outs : list CTxOut)
    (nValueOut : Z) (invalid_private_taddr : bool) : verdict (Z * bool) :=
  match outs with
  | [] => inr (nValueOut, invalid_private_taddr)
  | txout :: outs =>
    reject_if (nValue txout <? 0) (DoS 100 "bad-txns-vout-negative")
    (reject_if (nValue txout >? MAX_MONEY R) (DoS 100 "bad-txns-vout-toolarge")
    (let invalid_private_taddr :=
       if negb (ASSETCHAINS_PRIVATE R =? 0) && negb iscoinbase && (nValue txout >? 0)
          && negb (squishy_isnotaryvout (scriptPubKey txout) tiptime)
       then true else invalid_private_taddr in
     reject_if (zlen (scriptPubKey txout) >? IGUANA_MAXSCRIPTSIZE) (DoS 100 "bad-txns-opret-too-big")
    (let nValueOut := i64 (nValueOut + nValue txout) in
     reject_if (negb (MoneyRange (MAX_MONEY R) nValueOut)) (DoS 100 "bad-txns-txouttotal-toolarge")
    (check_outputs iscoinbase tiptime outs nValueOut invalid_private_taddr))))
  end.

(** The exemption of hash-locked payments on a private chain. *)
Definition htlc_exempt (tx : CMutableTransaction) (tiptime : Z) : bool :=
  (getacseason tiptime >? 5) && is_nil (vin tx) &&
  match vout tx with
  | [o0; o1] => IsPayToScriptHash (scriptPubKey o0)
                && IsRedeemScriptReveal Hash160 (scriptPubKey o0) (scriptPubKey o1)
  | _ => false
  end.

(** [nValueOut] and [invalid_private_taddr] after the value balance. *)
Definition check_balance (tx : CMutableTransaction) (tiptime nValueOut : Z)
    (invalid_private_taddr : bool) : verdict (Z * bool) :=
  let acpublic := squishy_acpublic R tiptime in
  reject_if (is_nil (vShieldedSpend tx) && is_nil (vShieldedOutput tx) && negb (valueBalance tx =? 0))
    (DoS 100 "bad-txns-valuebalance-nonzero")
  (reject_if (negb (acpublic =? 0)
              && (negb (is_nil (vShieldedSpend tx)) || negb (is_nil (vShieldedOutput tx))))
    (DoS 100 "bad-txns-acpublic-chain")
  (let sapling_to_taddr := negb (ASSETCHAINS_PRIVATE R =? 0) && invalid_private_taddr
                           && negb (is_nil (vShieldedSpend tx)) in
   reject_if (sapling_to_taddr && negb (htlc_exempt tx tiptime)) (DoS 100 "bad-txns-acprivate-chain")
  (let invalid_private_taddr := if sapling_to_taddr then false else invalid_private_taddr in
   reject_if ((valueBalance tx >? MAX_MONEY R) || (valueBalance tx <? - MAX_MONEY R))
    (DoS 100 "bad-txns-valuebalance-toolarge")
  (if valueBalance tx <=? 0 then
     let nValueOut := i64 (nValueOut + - valueBalance tx) in
     reject_if (negb (MoneyRange (MAX_MONEY R) nValueOut)) (DoS 100 "bad-txns-txouttotal-toolarge")
       (inr (nValueOut, invalid_private_taddr))
   else inr (nValueOut, invalid_private_taddr))))).

Record js_counts := mkCounts { z_z : Z; z_t : Z; t_z : Z }.

Fixpoint check_joinsplits (tiptime : Z) (l : list JSDescription) (nValueOut : Z) (c : js_counts)
    : verdict (Z * js_counts) :=
  match l with
  | [] => inr (nValueOut, c)
  | joinsplit :: l =>
    let old := vpub_old joinsplit in
    let new := vpub_new joinsplit in
    reject_if (negb (squishy_acpublic R tiptime =? 0)) (DoS 100 "bad-txns-acpublic-chain")
    (reject_if (tiptime >=? SQUISHY_SAPLING_DEADLINE) (DoS 100 "bad-txns-sprout-expired")
    (reject_if (old <? 0) (DoS 100 "bad-txns-vpub_old-negative")
    (reject_if (new <? 0) (DoS 100 "bad-txns-vpub_new-negative")
    (reject_if (old >? MAX_MONEY R) (DoS 100 "bad-txns-vpub_old-toolarge")
    (reject_if (new >? MAX_MONEY R) (DoS 100 "bad-txns-vpub_new-toolarge")
    (reject_if (negb (new =? 0) && negb (old =? 0)) (DoS 100 "bad-txns-vpubs-both-nonzero")
    (let nValueOut := i64 (nValueOut + old) in
     reject_if (negb (MoneyRange (MAX_MONEY R) nValueOut)) (DoS 100 "bad-txns-txouttotal-toolarge")
    (let c :=
       if (new =? 0) && (old =? 0) then mkCounts (z_z c + 1) (z_t c) (t_z c)
       else if (new =? 0) && negb (old =? 0) then mkCounts (z_z c) (z_t c) (t_z c + 1)
       else if negb (new =? 0) && (old =? 0) then mkCounts (z_z c) (z_t c + 1) (t_z c)
       else c in
     check_joinsplits tiptime l nValueOut c))))))))
  end.

Definition check_privacy (tx : CMutableTransaction) (invalid_private_taddr : bool) (c : js_counts)
    : verdict unit :=
  reject_if (negb (ASSETCHAINS_PRIVATE R =? 0) && invalid_private_taddr
             && ((z_t c =? 0) || negb (z_z c =? 0) || negb (t_z c =? 0) || negb (is_nil (vin tx))))
    (DoS 100 "bad-txns-acprivacy-chain") (inr tt).

Definition genesistxid : Z := 0x4a5e1e4baab89f3a32518a88c31bc87f618f76673e2cc77ab2127b7afdeda33b.

(** [txid] is [tx.GetHash()]; its bytes 0 and 31 must be 0. *)
Definition check_txpow (tx : CMutableTransaction) (txid : Z) : verdict unit :=
  let iscoinbase := IsCoinBase tx in
  let p := ASSETCHAINS_TXPOW R in
  reject_if (negb (p =? 0)
             && ((negb (Z.land p 2 =? 0) && iscoinbase) || (negb (Z.land p 1 =? 0) && negb iscoinbase))
             && (negb (txid mod 256 =? 0) || negb (txid / 2 ^ 248 =? 0))
             && negb (txid =? genesistxid))
    (DoS 100 "bad-txns-actxpow-chain") (inr tt).

Fixpoint check_value_in (l : list JSDescription) (nValueIn : Z) : verdict Z :=
  match l with
  | [] => inr nValueIn
  | it :: l =>
    let nValueIn := i64 (nValueIn + vpub_new it) in
    reject_if (negb (MoneyRange (MAX_MONEY R) (vpub_new it)) || negb (MoneyRange (MAX_MONEY R) nValueIn))
      (DoS 100 "bad-txns-txintotal-toolarge")
    (check_value_in l nValueIn)
  end.

Definition check_shielded_in (tx : CMutableTransaction) : verdict unit :=
  nValueIn ← check_value_in (vjoinsplit tx) 0;
  if valueBalance tx >=? 0 then
    reject_if (negb (MoneyRange (MAX_MONEY R) (i64 (nValueIn + valueBalance tx))))
      (DoS 100 "bad-txns-txintotal-toolarge") (inr tt)
  else inr tt.

(** A loop that inserts into a set and fails on an element it has. *)
Fixpoint check_duplicates {T} `{EqDecision T} (r : reject) (seen l : list T) : verdict unit :=
  match l with
  | [] => inr tt
  | x :: l => reject_if (bool_decide (x ∈ seen)) r (check_duplicates r (x :: seen) l)
  end.

#[local] Instance COutPoint_eq : EqDecision COutPoint.
Proof. solve_decision. Defined.

Definition check_all_duplicates (tx : CMutableTransaction) : verdict unit :=
  _ ← check_duplicates (DoS 100 "bad-txns-inputs-duplicate") [] (map prevout (vin tx));
  _ ← check_duplicates (DoS 100 "bad-joinsplits-nullifiers-duplicate") []
        (concat (map nullifiers (vjoinsplit tx)));
  check_duplicates (DoS 100 "bad-spend-description-nullifiers-duplicate") []
    (map sd_nullifier (vShieldedSpend tx)).

Definition check_mint (tx : CMutableTransaction) : verdict unit :=
  if IsMint tx then
    reject_if (zlen (vjoinsplit tx) >? 0) (DoS 100 "bad-cb-has-joinsplits")
    (reject_if (zlen (vShieldedSpend tx) >? 0) (DoS 100 "bad-cb-has-spend-description")
    (reject_if (zlen (vShieldedOutput tx) >? 0) (DoS 100 "bad-cb-has-output-description")
    (match vin tx with
     | i :: _ => reject_if ((zlen (scriptSig i) <? 2) || (zlen (scriptSig i) >? 100))
                   (DoS 100 "bad-cb-length") (inr tt)
     | [] => inl Thrown
     end)))
  else reject_if (existsb (fun i => COutPoint_IsNull (prevout i)) (vin tx))
         (DoS 10 "bad-txns-prevout-null") (inr tt).

Definition CheckTransactionWithoutProofVerification (tiptime : Z) (tx : CMutableTransaction)
    (txid : Z) : verdict unit :=
  _ ← check_version tx;
  _ ← check_shape tx;
  '(nValueOut, invalid_private_taddr) ← check_outputs (IsCoinBase tx) tiptime (vout tx) 0 false;
  '(nValueOut, invalid_private_taddr) ← check_balance tx tiptime nValueOut invalid_private_taddr;
  '(nValueOut, c) ← check_joinsplits tiptime (vjoinsplit tx) nValueOut (mkCounts 0 0 0);
  _ ← check_privacy tx invalid_private_taddr c;
  _ ← check_txpow tx txid;
  _ ← check_shielded_in tx;
  _ ← check_all_duplicates tx;
  check_mint tx.
End Check.

(** ** What acceptance implies *)

Lemma reject_if_inr {A} b r (k : verdict A) a : reject_if b r k = inr a <-> b = false /\ k = inr a.
Proof. unfold reject_if. destruct b; [split; [done|by intros []]|]. split; [done|by intros []]. Qed.

Lemma verdict_bind_inr {A B} (m : verdict A) (f : A -> verdict B) b :
  m ≫= f = inr b <-> exists a, m = inr a /\ f a = inr b.
Proof. destruct m as [e|a]; cbn; [split; [done|by intros (? & ? & ?)]|]. split; [eauto|]. by intros (? & [= ->] & ?). Qed.

(** Decompose an accepted chain of checks. *)
Ltac accepted :=
  repeat match goal with
  | H : reject_if _ _ _ = inr _ |- _ => apply reject_if_inr in H as [? H]
  | H : _ ≫= _ = inr _ |- _ => apply verdict_bind_inr in H as (? & ? & H)
  end.

Section Sound.
Variables (A : abi) (R : chain_rules) (Hash160 : bytes -> bytes) (notary : bytes -> Z -> bool).
Abbreviation MAX := (MAX_MONEY R).

Lemma MoneyRange_iff v : MoneyRange MAX v = true <-> 0 <= v <= MAX.
Proof using Type. unfold MoneyRange. rewrite andb_true_iff, Z.geb_leb, !Z.leb_le. lia. Qed.

Lemma add_checked_ok sum v : 0 <= v <= MAX -> MoneyRange MAX (i64 (sum + v)) = true ->
  add_checked MAX sum v = Some (i64 (sum + v)).
Proof using Type. intros Hv Hs. unfold add_checked. by rewrite (proj2 (MoneyRange_iff v) Hv), Hs. Qed.

Lemma check_outputs_sum cb t outs acc p r :
  check_outputs R notary cb t outs acc p = inr r ->
  sum_checked MAX acc (map nValue outs) = Some r.1 /\ Forall (fun o => 0 <= nValue o <= MAX) outs.
Proof using Type.
  revert acc p. induction outs as [|o outs IH]; intros acc p Hc.
  { injection Hc as <-. by split. }
  cbn [check_outputs] in Hc. cbv zeta in Hc. accepted.
  rewrite Z.gtb_ltb in *. bool_to_prop. apply IH in Hc as [Hc Hf].
  split; [|by constructor; [lia|]]. cbn [map sum_checked]. by rewrite add_checked_ok by (done || lia).
Qed.

Lemma check_joinsplits_sum t l acc c r :
  check_joinsplits R t l acc c = inr r ->
  sum_checked MAX acc (map vpub_old l) = Some r.1 /\
  Forall (fun d => 0 <= vpub_old d <= MAX /\ 0 <= vpub_new d <= MAX) l.
Proof using Type.
  revert acc c. induction l as [|d l IH]; intros acc c Hc.
  { injection Hc as <-. by split. }
  cbn [check_joinsplits] in Hc. cbv zeta in Hc. accepted. apply IH in Hc as [Hc Hf].
  rewrite !Z.gtb_ltb in *. apply negb_false_iff in H6.
  repeat match goal with H : (_ <? _) = false |- _ => apply Z.ltb_ge in H end.
  split; [|by constructor; [lia|]]. cbn [map sum_checked]. by rewrite add_checked_ok by (done || lia).
Qed.

Lemma check_balance_sum tx t acc p r : 0 <= MAX < 2 ^ 62 ->
  check_balance R Hash160 tx t acc p = inr r ->
  (if valueBalance tx <=? 0 then add_checked MAX acc (i64 (- valueBalance tx)) else Some acc) = Some r.1 /\
  - MAX <= valueBalance tx <= MAX.
Proof using Type.
  intros HM Hc. unfold check_balance in Hc. cbv zeta in Hc. accepted.
  rewrite Z.gtb_ltb in *.
  assert (Hb : - MAX <= valueBalance tx <= MAX).
  { repeat match goal with H : _ || _ = false |- _ => apply orb_false_elim in H as [? ?] end. lia. }
  split; [|done]. destruct (Z.leb_spec (valueBalance tx) 0); accepted.
  - injection Hc as <-. rewrite (i64_id (- valueBalance tx)) by (unfold is_i64; lia).
    rewrite add_checked_ok; [done|lia|]. by apply negb_false_iff.
  - by injection Hc as <-.
Qed.

Lemma check_value_in_sum l acc v :
  check_value_in R l acc = inr v -> sum_checked MAX acc (map vpub_new l) = Some v.
Proof using Type.
  revert acc. induction l as [|d l IH]; intros acc Hc; [by injection Hc as <-|].
  cbn [check_value_in] in Hc. cbv zeta in Hc. accepted. cbn [map sum_checked]. unfold add_checked.
  cbv zeta. rewrite H. by apply IH.
Qed.

Lemma check_duplicates_NoDup {T} `{EqDecision T} r (l seen : list T) :
  check_duplicates r seen l = inr tt -> base.NoDup seen -> base.NoDup l /\ forall x, x ∈ l -> x ∉ seen.
Proof using Type.
  revert seen. induction l as [|x l IH]; intros seen Hc Hs; [split; [constructor|set_solver]|].
  cbn [check_duplicates] in Hc. accepted. apply bool_decide_eq_false in H.
  apply IH in Hc as [Hl Hd]; [|by constructor]. split.
  - constructor; [|done]. intros Hx. apply (Hd x Hx). by left.
  - intros y [->|Hy]%elem_of_cons; [done|]. intros Hys. apply (Hd y Hy). by right.
Qed.
End Sound.

Lemma CheckTransaction_inv A R Hash160 notary tiptime tx txid :
  CheckTransactionWithoutProofVerification A R Hash160 notary tiptime tx txid = inr tt ->
  exists r1 r2 r3,
    check_version tx = inr tt /\ check_shape A tx = inr tt /\
    check_outputs R notary (IsCoinBase tx) tiptime (vout tx) 0 false = inr r1 /\
    check_balance R Hash160 tx tiptime r1.1 r1.2 = inr r2 /\
    check_joinsplits R tiptime (vjoinsplit tx) r2.1 (mkCounts 0 0 0) = inr r3 /\
    check_privacy R tx r2.2 r3.2 = inr tt /\ check_txpow R tx txid = inr tt /\
    check_shielded_in R tx = inr tt /\ check_all_duplicates tx = inr tt /\ check_mint tx = inr tt.
Proof.
  unfold CheckTransactionWithoutProofVerification.
  intros ([] & Hv & Hc)%verdict_bind_inr. apply verdict_bind_inr in Hc as ([] & Hs & Hc).
  apply verdict_bind_inr in Hc as ([v1 p1] & Ho & Hc). apply verdict_bind_inr in Hc as ([v2 p2] & Hb & Hc).
  apply verdict_bind_inr in Hc as ([v3 c3] & Hj & Hc). apply verdict_bind_inr in Hc as ([] & Hp & Hc).
  apply verdict_bind_inr in Hc as ([] & Ht & Hc). apply verdict_bind_inr in Hc as ([] & Hi & Hc).
  apply verdict_bind_inr in Hc as ([] & Hd & Hm).
  exists (v1, p1), (v2, p2), (v3, c3). by split_and!.
Qed.

(** The amounts of an accepted transaction are in their types and not negative. *)
Lemma accepted_amounts A R Hash160 notary tiptime tx txid :
  0 <= MAX_MONEY R < 2 ^ 62 ->
  CheckTransactionWithoutProofVerification A R Hash160 notary tiptime tx txid = inr tt ->
  Forall (fun o => 0 <= nValue o) (vout tx) /\ tx_amounts_i64 tx.
Proof.
  intros HM Hc. apply CheckTransaction_inv in Hc as (r1 & r2 & r3 & _ & _ & Ho & Hb & Hj & _).
  apply check_outputs_sum in Ho as [_ Hof]. apply check_balance_sum in Hb as [_ Hbr]; [|done].
  apply check_joinsplits_sum in Hj as [_ Hjf]. split; [eapply Forall_impl; [|exact Hof]; by intros ? []|].
  split_and!; [eapply Forall_impl; [|exact Hof]|eapply Forall_impl; [|exact Hjf]|..];
    unfold is_i64; intros; lia.
Qed.

(** The sums an accepted transaction has. *)
Lemma accepted_sums A R Hash160 notary tiptime tx txid :
  0 <= MAX_MONEY R < 2 ^ 62 ->
  CheckTransactionWithoutProofVerification A R Hash160 notary tiptime tx txid = inr tt ->
  GetValueOut (MAX_MONEY R) tx = Some (sum_Z (amounts_out tx)) /\
  GetShieldedValueIn (MAX_MONEY R) tx = Some (sum_Z (amounts_in tx)).
Proof.
  intros HM Hc. destruct (accepted_amounts _ _ _ _ _ _ _ HM Hc) as [_ Hi64].
  apply CheckTransaction_inv in Hc as (r1 & r2 & r3 & _ & _ & Ho & Hb & Hj & _ & _ & Hi & _).
  apply check_outputs_sum in Ho as [Ho Hof]. apply check_balance_sum in Hb as [Hb Hbr]; [|done].
  apply check_joinsplits_sum in Hj as [Hj Hjf].
  destruct (amounts_i64 tx Hi64) as [Hio Hii].
  assert (HO : GetValueOut (MAX_MONEY R) tx = Some r3.1) by (unfold GetValueOut; by rewrite Ho, Hb).
  split.
  - rewrite HO. rewrite GetValueOut_sum_checked in HO by done.
    apply sum_checked_iff in HO as (_ & -> & _); [f_equal; lia|done || lia..].
  - rewrite GetShieldedValueIn_sum_checked. unfold check_shielded_in in Hi.
    apply verdict_bind_inr in Hi as (v & Hv & Hi). apply check_value_in_sum in Hv.
    assert (Hin : Forall is_i64 (map vpub_new (vjoinsplit tx))).
    { apply Forall_map. eapply Forall_impl; [|exact Hjf]. unfold is_i64. intros; lia. }
    apply sum_checked_iff in Hv as (Hnn & -> & Hle); [|done || lia..].
    apply sum_checked_iff; [done || lia..|]. unfold amounts_in in *. rewrite Z.add_0_l in *.
    pose proof (sum_Z_nonneg _ Hnn). rewrite sum_Z_app, Z.geb_leb in *.
    destruct (Z.leb_spec 0 (valueBalance tx)).
    + apply reject_if_inr in Hi as [Hr _]. apply negb_false_iff, MoneyRange_iff in Hr.
      rewrite i64_id in Hr by (unfold is_i64; lia).
      split_and!; [by constructor|done|unfold sum_Z at 1; cbn; lia].
    + split_and!; [done|done|unfold sum_Z at 1; cbn; lia].
Qed.

(** A minting transaction that is accepted has no shielded parts. *)
Lemma accepted_mint A R Hash160 notary tiptime tx txid :
  CheckTransactionWithoutProofVerification A R Hash160 notary tiptime tx txid = inr tt -> IsMint tx = true ->
  vjoinsplit tx = [] /\ vShieldedSpend tx = [] /\ vShieldedOutput tx = [].
Proof.
  intros Hc Hmint. apply CheckTransaction_inv in Hc as (r1 & r2 & r3 & _ & _ & _ & _ & _ & _ & _ & _ & _ & Hm).
  unfold check_mint in Hm. rewrite Hmint in Hm.
  assert (Hz : forall T (l : list T), (zlen l >? 0) = false -> l = []).
  { intros T [|x l] Hl; [done|]. rewrite zlen_cons, Z.gtb_ltb in Hl. apply Z.ltb_ge in Hl.
    pose proof (zlen_nonneg l). lia. }
  apply reject_if_inr in Hm as [Hz1 Hm]. apply reject_if_inr in Hm as [Hz2 Hm].
  apply reject_if_inr in Hm as [Hz3 Hm]. auto.
Qed.

(** C10: A transaction that passes the context-free checks is well formed: the
    sums of its amounts are computed without an exception and are exact, no
    input and no nullifier occurs twice, its serialization fits the size limit,
    it spends something, a minting transaction has no shielded parts, and any
    other names only real outputs. *)
Theorem CheckTransaction_sound A R Hash160 notary tiptime tx txid
    (HM : 0 <= MAX_MONEY R < 2 ^ 62)
    (Hc : CheckTransactionWithoutProofVerification A R Hash160 notary tiptime tx txid = inr tt) :
  (GetValueOut (MAX_MONEY R) tx = Some (sum_Z (amounts_out tx)) /\
   GetShieldedValueIn (MAX_MONEY R) tx = Some (sum_Z (amounts_in tx))) /\
  base.NoDup (map prevout (vin tx)) /\
  base.NoDup (concat (map nullifiers (vjoinsplit tx))) /\
  base.NoDup (map sd_nullifier (vShieldedSpend tx)) /\
  (exists bs, SerializeTransaction A tx = Some bs /\ zlen bs <= MAX_TX_SIZE_AFTER_SAPLING) /\
  ~ (vin tx = [] /\ vjoinsplit tx = [] /\ vShieldedSpend tx = []) /\
  (if IsMint tx then vjoinsplit tx = [] /\ vShieldedSpend tx = [] /\ vShieldedOutput tx = []
   else Forall (fun i => COutPoint_IsNull (prevout i) = false) (vin tx)).
Proof.
  split; [by eapply accepted_sums|]. pose proof (accepted_mint _ _ _ _ _ _ _ Hc) as Hmint.
  apply CheckTransaction_inv in Hc as (r1 & r2 & r3 & _ & Hs & _ & _ & _ & _ & _ & _ & Hd & Hm).
  unfold check_all_duplicates in Hd. apply verdict_bind_inr in Hd as ([] & Hd1 & Hd).
  apply verdict_bind_inr in Hd as ([] & Hd2 & Hd3).
  apply check_duplicates_NoDup in Hd1 as [? _]; [|constructor].
  apply check_duplicates_NoDup in Hd2 as [? _]; [|constructor].
  apply check_duplicates_NoDup in Hd3 as [? _]; [|constructor].
  unfold check_shape in Hs. apply reject_if_inr in Hs as [Hvin Hs]. apply reject_if_inr in Hs as [_ Hs].
  split_and!; [done..| | |].
  - destruct (SerializeTransaction A tx) as [bs|]; [|done]. exists bs. split; [done|].
    apply reject_if_inr in Hs as [Hz _]. rewrite Z.gtb_ltb in Hz. by apply Z.ltb_ge in Hz.
  - intros (E1 & E2 & E3). by rewrite E1, E2, E3 in Hvin.
  - unfold check_mint in Hm. destruct (IsMint tx).
    + by apply Hmint.
    + apply reject_if_inr in Hm as [He _]. apply List.Forall_forall. intros i Hi.
      apply not_true_is_false. intros Hn. apply not_true_iff_false in He. apply He.
      apply existsb_exists. eauto.
Qed.

(** The rules of a public chain with 200 million coins. *)
Definition rules_main : chain_rules := mkRules (200000000 * COIN) 0 0 0 true None.

Lemma CheckTransaction_sound_witness :
  GetValueOut (MAX_MONEY rules_main) (tx_sprout [1]) = Some (sum_Z (amounts_out (tx_sprout [1]))) /\
  base.NoDup (map prevout (vin (tx_sprout [1]))).
Proof.
  destruct (CheckTransaction_sound abi_x86_64 rules_main id (fun _ _ => false) 1600000000
    (tx_sprout [1]) 0) as ([H1 _] & H2 & _); [vm_compute; split; [discriminate|reflexivity]
    |vm_compute; reflexivity|]. by split.
Defined.
