(* ===== verification/TxInputs.v ===== *)
(** * Checking a transaction against the coins view (the queries of
      src/src/coins.cpp and Consensus::CheckTxInputs of src/src/main.cpp)

    Availability of inputs, JoinSplit and Sapling requirements, the value
    flowing in with interest, coinbase maturity and time locks, and the fee.
    The queries read through the cache, which fills it, so each returns the
    cache afterwards. *)
From Stdlib Require Ascii String.
From S2P Require Import Prelude Serialize Transaction Compressor Coins CoinsView CoinsCache.
From S2P Require Import Interest Script SigHash CheckTx.
Import String.StringSyntax.
#[local] Open Scope string_scope.
#[local] Open Scope Z_scope.

Section Queries.
Context {Tree V : Type} `{!MerkleTree Tree} `{!CoinsView Tree V} `{!CoinsMemory}.
Abbreviation cache := (CCoinsViewCache Tree V).

(** A computation that reads the cache and may stop: [inl Thrown] is a failed
    assertion or an exception. *)
Definition check (A : Type) : Type := cache -> verdict A * cache.

#[global] Instance check_ret : MRet check := fun A a c => (inr a, c).
#[global] Instance check_bind : MBind check := fun A B f m c =>
  match m c with
  | (inl e, c') => (inl e, c')
  | (inr a, c') => f a c'
  end.

Definition stop {A} (r : reject) : check A := fun c => (inl r, c).

Definition stop_if (b : bool) (r : reject) : check unit := if b then stop r else mret tt.

Definition of_option {A} (o : option A) : check A :=
  match o with Some a => mret a | None => stop Thrown end.

Definition c_AccessCoins (txid : Z) : check (option CCoins) :=
  fun c => let '(r, c') := AccessCoins c txid in (inr r, c').
Definition c_GetNullifier (t : ShieldedType) (nf : Z) : check bool :=
  fun c => let '(r, c') := Cache_GetNullifier t c nf in (inr r, c').
Definition c_GetAnchorAt (t : ShieldedType) (rt : Z) : check (option Tree) :=
  fun c => let '(r, c') := Cache_GetAnchorAt t c rt in (inr r, c').

(** ** Queries of coins.cpp *)

Definition GetOutputFor (input : CTxIn) : check CTxOut :=
  coins ← c_AccessCoins (hash (prevout input));
  match coins with
  | Some coins =>
    if IsAvailable coins (n (prevout input))
    then of_option (coins_vout coins !! Z.to_nat (n (prevout input)))
    else stop Thrown
  | None => stop Thrown
  end.

Definition GetSpendFor (input : CTxIn) : check bytes :=
  coins ← c_AccessCoins (hash (prevout input));
  coins ← of_option coins;
  o ← of_option (coins_vout coins !! Z.to_nat (n (prevout input)));
  mret (scriptPubKey o).

Fixpoint have_inputs_loop (l : list CTxIn) : check bool :=
  match l with
  | [] => mret true
  | i :: l =>
    coins ← c_AccessCoins (hash (prevout i));
    match coins with
    | Some coins => if IsAvailable coins (n (prevout i)) then have_inputs_loop l else mret false
    | None => mret false
    end
  end.

Definition HaveInputs (tx : CMutableTransaction) : check bool :=
  if negb (IsMint tx) then have_inputs_loop (vin tx) else mret true.

(** Whether one of the nullifiers is set; the loop returns at the first. *)
Fixpoint any_nullifier (t : ShieldedType) (l : list Z) : check bool :=
  match l with
  | [] => mret false
  | nf :: l => b ← c_GetNullifier t nf; if (b : bool) then mret true else any_nullifier t l
  end.

Fixpoint append_all (tree : Tree) (l : list Z) : option Tree :=
  match l with
  | [] => Some tree
  | cm :: l => tree ← tree_append SPROUT tree cm; append_all tree l
  end.

(** [intermediates] holds the trees of earlier JoinSplits by root; [insert]
    keeps an entry that is there. *)
Fixpoint js_requirements (intermediates : gmap Z Tree) (l : list JSDescription) : check bool :=
  match l with
  | [] => mret true
  | js :: l =>
    spent ← any_nullifier SPROUT (nullifiers js);
    if (spent : bool) then mret false
    else
      tree ← (match intermediates !! js_anchor js with
              | Some tree => mret (Some tree)
              | None => c_GetAnchorAt SPROUT (js_anchor js)
              end);
      match tree with
      | None => mret false
      | Some tree =>
        tree ← of_option (append_all tree (commitments js));
        let rt := tree_root SPROUT tree in
        js_requirements
          (match intermediates !! rt with
           | Some _ => intermediates | None => <[rt := tree]> intermediates end) l
      end
  end.

Fixpoint spend_requirements (l : list SpendDescription) : check bool :=
  match l with
  | [] => mret true
  | d :: l =>
    spent ← c_GetNullifier SAPLING (sd_nullifier d);
    if (spent : bool) then mret false
    else
      tree ← c_GetAnchorAt SAPLING (sd_anchor d);
      match tree with None => mret false | Some _ => spend_requirements l end
  end.

Definition HaveJoinSplitRequirements (tx : CMutableTransaction) : check bool :=
  ok ← js_requirements ∅ (vjoinsplit tx);
  if (ok : bool) then spend_requirements (vShieldedSpend tx) else mret false.

(** ** Value in *)

Section Values.
Variables (R : chain_rules) (isKMD : bool) (ci : chain_index).

(** Interest as [CheckTxInputs] and [GetValueIn] ask for it. *)
Definition input_interest (p : COutPoint) (value tipheight : Z) : Z :=
  i64 (squishy_accrued_interest isKMD ci (hash p) (i32 (n p)) 0 (u64 value) tipheight).1.1.

(** [GetCoinImportValue] of importcoin.cpp. *)
Variable GetCoinImportValue : CMutableTransaction -> Z.

(** [nResult] and [interestp]. *)
Fixpoint value_in_loop (nHeight : Z) (l : list CTxIn) (nResult interestp : Z) : check (Z * Z) :=
  match l with
  | [] => mret (nResult, interestp)
  | i :: l =>
    o ← GetOutputFor i;
    let value := nValue o in
    let nResult := i64 (nResult + value) in
    if isKMD && (nHeight >=? 60000) && (value >=? 10 * COIN) then
      let interest := input_interest (prevout i) value nHeight in
      value_in_loop nHeight l (i64 (nResult + interest)) (i64 (interestp + interest))
    else value_in_loop nHeight l nResult interestp
  end.

Definition GetValueIn (nHeight : Z) (tx : CMutableTransaction) : check (Z * Z) :=
  if IsCoinImport tx then mret (GetCoinImportValue tx, 0)
  else if IsCoinBase tx then mret (0, 0)
  else
    r ← value_in_loop nHeight (vin tx) 0 0;
    sh ← of_option (GetShieldedValueIn (MAX_MONEY R) tx);
    mret (i64 (r.1 + sh), r.2).

(** ** Consensus::CheckTxInputs *)

Variables (ASSETCHAINS_TIMELOCKGTE ASSETCHAINS_TIMEUNLOCKFROM ASSETCHAINS_TIMEUNLOCKTO : Z).
(** [squishy_block_prg]: a pseudo-random number of a height. *)
Variable squishy_block_prg : Z -> Z.
Variable CoinbaseMaturity : Z.
(** [fCoinbaseEnforcedProtectionEnabled && consensusParams.fCoinbaseMustBeProtected] *)
Variable coinbase_protected : bool.

Definition squishy_block_unlocktime (nHeight : Z) : Z :=
  i64 (if ASSETCHAINS_TIMEUNLOCKFROM =? ASSETCHAINS_TIMEUNLOCKTO then ASSETCHAINS_TIMEUNLOCKTO
       else u64 (squishy_block_prg nHeight
                   mod u64 (ASSETCHAINS_TIMEUNLOCKTO - ASSETCHAINS_TIMEUNLOCKFROM)
                 + ASSETCHAINS_TIMEUNLOCKFROM)).

(** The depth is compared with an unsigned maturity: a negative one passes. *)
Definition check_coinbase (tx : CMutableTransaction) (coins : CCoins) (nSpendHeight : Z)
    : check unit :=
  if fCoinBase coins then
    _ ← stop_if ((u64 (TotalTxValue coins) >=? ASSETCHAINS_TIMELOCKGTE)
                 && (u64 nSpendHeight <? u64 (squishy_block_unlocktime (u32 (coins_nHeight coins)))))
          (DoS 10 "bad-txns-premature-spend-of-coinbase");
    _ ← stop_if (u32 (nSpendHeight - coins_nHeight coins) <? CoinbaseMaturity)
          (Invalid "bad-txns-premature-spend-of-coinbase");
    stop_if (coinbase_protected && negb (is_nil (vout tx)))
      (DoS 100 "bad-txns-coinbase-spend-has-transparent-outputs")
  else mret tt.

Fixpoint inputs_loop (tx : CMutableTransaction) (nSpendHeight : Z) (l : list CTxIn) (nValueIn : Z)
    : check Z :=
  match l with
  | [] => mret nValueIn
  | i :: l =>
    let prevout := prevout i in
    coins ← c_AccessCoins (hash prevout);
    coins ← of_option coins;
    _ ← check_coinbase tx coins nSpendHeight;
    o ← of_option (coins_vout coins !! Z.to_nat (n prevout));
    let nValueIn := i64 (nValueIn + nValue o) in
    let nValueIn :=
      if isKMD && (nSpendHeight >? 60000) && (nValue o >=? 10 * COIN)
      then i64 (nValueIn + input_interest prevout (nValue o) (nSpendHeight - 1)) else nValueIn in
    _ ← stop_if (negb (MoneyRange (MAX_MONEY R) (nValue o)) || negb (MoneyRange (MAX_MONEY R) nValueIn))
          (DoS 100 "bad-txns-inputvalues-outofrange");
    inputs_loop tx nSpendHeight l nValueIn
  end.

Definition CheckTxInputs (tx : CMutableTransaction) (nSpendHeight : Z) : check unit :=
  have ← HaveInputs tx;
  _ ← stop_if (negb have) (Invalid "");
  req ← HaveJoinSplitRequirements tx;
  _ ← stop_if (negb req) (Invalid "");
  nValueIn ← inputs_loop tx nSpendHeight (vin tx) 0;
  sh ← of_option (GetShieldedValueIn (MAX_MONEY R) tx);
  let nValueIn := i64 (nValueIn + sh) in
  _ ← stop_if (negb (MoneyRange (MAX_MONEY R) nValueIn)) (DoS 100 "bad-txns-inputvalues-outofrange");
  nValueOut ← of_option (GetValueOut (MAX_MONEY R) tx);
  _ ← stop_if (nValueIn <? nValueOut) (DoS 100 "bad-txns-in-belowout");
  let nTxFee := i64 (nValueIn - nValueOut) in
  _ ← stop_if (nTxFee <? 0) (DoS 100 "bad-txns-fee-negative");
  let nFees := i64 (0 + nTxFee) in
  stop_if (negb (MoneyRange (MAX_MONEY R) nFees)) (DoS 100 "bad-txns-fee-outofrange").
End Values.
End Queries.

(** ** What acceptance implies *)

(** The interest of an output is at most 5% of the value it is checked against. *)
Definition chain_index_ok (ci : chain_index) : Prop :=
  (forall h tx hb, GetTransaction ci h = Some (tx, hb) -> is_u32 (nLockTime tx)) /\
  Forall is_u32 (chainActive ci).

Lemma accrued_interest_bound isKMD ci hash n v tipheight :
  chain_index_ok ci -> 0 < v -> is_u64 v ->
  0 <= (squishy_accrued_interest isKMD ci hash n 0 v tipheight).1.1 <= v / 20.
Proof.
  intros [Hlock Htimes] Hv0 Hv. unfold squishy_accrued_interest. cbn [fst].
  assert (H0 : 0 <= 0 <= v / 20) by (split; [lia|apply Z.div_pos; lia]).
  set (a := squishy_interest_args _ _ _ _).
  assert (Ha : is_u32 (ia_locktime a) /\ is_u32 (ia_tiptime a)).
  { assert (Hz : is_u32 0) by (unfold is_u32; lia).
    assert (Ht : is_u32 (match chainActive_Tip ci with Some t => t | None => 0 end)).
    { unfold chainActive_Tip. destruct (list.last (chainActive ci)) as [t|] eqn:E; [|done].
      apply last_Some_elem_of, list_elem_of_In in E. rewrite List.Forall_forall in Htimes. by apply Htimes. }
    subst a. unfold squishy_interest_args. destruct (GetTransaction ci hash) as [[tx hb]|] eqn:E; [|done].
    destruct (_ <? _); [|done]. destruct (squishy_getblockindex ci hb) as [[h t]|]; [|done].
    destruct (vout tx !! _); [|done]. cbn. split; [by eapply Hlock|done]. }
  destruct (negb _); [|done]. rewrite (proj2 (Z.eqb_neq v 0)) by lia. cbn [orb].
  destruct (Z.eqb_spec (ia_value a) v) as [E|]; [|done]. cbn [andb]. rewrite E.
  destruct (_ || _); [|done].
  apply (interest_bound_all isKMD (ia_txheight a) v (ia_locktime a) (ia_tiptime a)); [done|apply Ha..].
Qed.

Section Sound.
Context {Tree V : Type} `{!MerkleTree Tree} `{!CoinsView Tree V} `{!CoinsMemory}.
Context (tree_of : ShieldedType -> Z -> Tree) `{!CoinsViewReads tree_of V}.
Abbreviation cache := (CCoinsViewCache Tree V).
Abbreviation check := (@check Tree V).
Variable s : utxo_state Tree.

(** The cache is sound and shows the state [s]. *)
Definition shows (c : cache) : Prop := cache_inv tree_of c /\ cache_abs tree_of c ≡ s.

(** A query keeps what the cache shows, and its results satisfy [Q]. *)
Definition query {A} (m : check A) (Q : A -> Prop) : Prop :=
  forall c, shows c -> shows (m c).2 /\ forall a, (m c).1 = inr a -> Q a.

Lemma query_ret {A} (a : A) (Q : A -> Prop) : Q a -> query (mret a) Q.
Proof using Type. intros Ha c Hc. split; [done|]. by intros ? [= <-]. Qed.

Lemma query_stop {A} r (Q : A -> Prop) : query (stop r) Q.
Proof using Type. intros c Hc. split; [done|]. by intros ? [=]. Qed.

Lemma query_bind {A B} (m : check A) (f : A -> check B) P Q :
  query m P -> (forall a, P a -> query (f a) Q) -> query (m ≫= f) Q.
Proof using Type.
  intros Hm Hf c Hc. destruct (Hm c Hc) as [Hs HP]. unfold mbind, check_bind.
  destruct (m c) as [[e|a] c']; cbn [fst snd] in *; [split; [done|by intros ? [=]]|].
  apply (Hf a (HP a eq_refl)). done.
Qed.

Lemma query_weaken {A} (m : check A) (P Q : A -> Prop) :
  query m P -> (forall a, P a -> Q a) -> query m Q.
Proof using Type. intros Hm Hw c Hc. destruct (Hm c Hc). split; [done|]. eauto. Qed.

Lemma query_stop_if b r (Q : unit -> Prop) : (b = false -> Q tt) -> query (stop_if b r) Q.
Proof using Type. intros HQ. destruct b; [apply query_stop|by apply query_ret, HQ]. Qed.

Lemma query_stop_if_bind {A} b r (f : unit -> check A) (Q : A -> Prop) :
  (b = false -> query (f tt) Q) -> query (stop_if b r ≫= f) Q.
Proof using Type.
  intros HQ. apply (query_bind _ _ (fun _ => b = false)); [by apply query_stop_if|].
  by intros [].
Qed.

Lemma query_of_option {A} (o : option A) (Q : A -> Prop) :
  (forall a, o = Some a -> Q a) -> query (of_option o) Q.
Proof using Type. intros HQ. destruct o; [by apply query_ret, HQ|apply query_stop]. Qed.

Lemma shows_same c c' :
  shows c -> same_view (cache_inv tree_of) cache_holds (cache_abs tree_of) c c' -> shows c'.
Proof using Type. intros [_ Hs] (Hi & He & _). split; [done|]. by rewrite He. Qed.

Lemma query_access k :
  query (c_AccessCoins k) (fun r => r ≫= live = st_coins s k).
Proof using Type.
  intros c Hc. destruct (Cache_GetCoins_law tree_of c k (proj1 Hc)) as (Hs & _ & Hl).
  unfold c_AccessCoins. change (AccessCoins c k) with (Cache_GetCoins c k).
  destruct (Cache_GetCoins c k) as [r c']; cbn [fst snd] in *. split; [by eapply shows_same|].
  intros a [= <-]. rewrite Hl. destruct Hc as [_ (Hst & _)]. apply Hst.
Qed.

Lemma query_nullifier t nf : query (c_GetNullifier t nf) (fun b => b = st_null s t nf).
Proof using Type.
  intros c Hc. destruct (Cache_GetNullifier_law tree_of t c nf (proj1 Hc)) as (Hs & Hl).
  unfold c_GetNullifier. destruct (Cache_GetNullifier t c nf) as [r c']; cbn [fst snd] in *.
  split; [by eapply shows_same|]. intros a [= <-]. rewrite Hl.
  destruct Hc as [_ (_ & _ & Hn & _)]. apply Hn.
Qed.

Lemma query_anchor t rt : query (c_GetAnchorAt t rt) (fun r => r = st_anchor s t rt).
Proof using Type.
  intros c Hc. destruct (Cache_GetAnchorAt_law tree_of t c rt (proj1 Hc)) as (Hs & Hl).
  unfold c_GetAnchorAt. destruct (Cache_GetAnchorAt t c rt) as [r c']; cbn [fst snd] in *.
  split; [by eapply shows_same|]. intros a [= <-]. rewrite Hl.
  destruct Hc as [_ (_ & Ha & _)]. apply Ha.
Qed.

Lemma query_any_nullifier t l :
  query (any_nullifier t l) (fun b => b = false -> Forall (fun nf => st_null s t nf = false) l).
Proof using Type.
  induction l as [|nf l IH]; [by apply query_ret|].
  eapply query_bind; [apply query_nullifier|]. intros b Hb. cbn beta in Hb.
  destruct b; [by apply query_ret|]. eapply query_weaken; [apply IH|].
  intros b' HF Hb'. constructor; auto.
Qed.

Lemma query_spends l :
  query (spend_requirements l) (fun b => b = true ->
    Forall (fun d => st_null s SAPLING (sd_nullifier d) = false /\
                     is_Some (st_anchor s SAPLING (sd_anchor d))) l).
Proof using Type.
  induction l as [|d l IH]; [by apply query_ret|].
  eapply query_bind; [apply query_nullifier|]. intros b Hb. cbn beta in Hb.
  destruct b; [by apply query_ret|].
  eapply query_bind; [apply query_anchor|]. intros [tr|] Htr; cbn beta in Htr; [|by apply query_ret].
  eapply query_weaken; [apply IH|].
  intros b' HF Hb'. constructor; [split; [done|by rewrite <- Htr; eauto]|auto].
Qed.

(** [a] is an anchor of the view, or the root after one of the JoinSplits [pre]. *)
Definition js_anchored (pre : list JSDescription) (a : Z) : Prop :=
  is_Some (st_anchor s SPROUT a) \/
  exists js tr tr', js ∈ pre /\ append_all tr (commitments js) = Some tr' /\ tree_root SPROUT tr' = a.

Definition js_met (pre l : list JSDescription) : Prop :=
  forall i js, l !! i = Some js ->
    Forall (fun nf => st_null s SPROUT nf = false) (nullifiers js) /\
    js_anchored (pre ++ take i l) (js_anchor js).

Lemma js_met_cons pre js l :
  Forall (fun nf => st_null s SPROUT nf = false) (nullifiers js) ->
  js_anchored pre (js_anchor js) -> js_met (pre ++ [js]) l -> js_met pre (js :: l).
Proof using Type.
  intros Hn Ha Hl [|i] js' Hi.
  - injection Hi as <-. cbn [take]. by rewrite app_nil_r.
  - destruct (Hl i js' Hi) as [H1 H2]. split; [done|]. by rewrite <- app_assoc in H2.
Qed.

Lemma query_joinsplits l : forall im pre,
  (forall r tr', im !! r = Some tr' -> exists js tr,
     js ∈ pre /\ append_all tr (commitments js) = Some tr' /\ tree_root SPROUT tr' = r) ->
  query (js_requirements im l) (fun b => b = true -> js_met pre l).
Proof using Type.
  induction l as [|js l IH]; intros im pre Him; [by apply query_ret|].
  eapply query_bind; [apply query_any_nullifier|]. intros spent Hs. cbn beta in Hs.
  destruct spent; [by apply query_ret|]. specialize (Hs eq_refl).
  eapply (query_bind _ _ (fun r => forall tr, r = Some tr -> js_anchored pre (js_anchor js))).
  { destruct (im !! js_anchor js) as [tr'|] eqn:E.
    - apply query_ret. intros _ _. right. destruct (Him _ _ E) as (js' & tr & ?). eauto.
    - eapply query_weaken; [apply query_anchor|]. intros r Hr tr ->. left. rewrite <- Hr. eauto. }
  intros [tr|] Htr; [|by apply query_ret]. specialize (Htr tr eq_refl).
  eapply query_bind; [by apply (query_of_option _ (fun a => append_all tr (commitments js) = Some a))|].
  intros tr' Happ. eapply query_weaken; [apply (IH _ (pre ++ [js]))|].
  - assert (Hold : forall r t', im !! r = Some t' -> exists js0 t0, js0 ∈ pre ++ [js] /\
      append_all t0 (commitments js0) = Some t' /\ tree_root SPROUT t' = r).
    { intros r t' E. destruct (Him r t' E) as (js0 & t0 & Hin & ?). exists js0, t0.
      split; [apply elem_of_app; by left|done]. }
    intros r t'. destruct (im !! tree_root SPROUT tr') eqn:E; [apply Hold|].
    intros [[<- <-] | [_ Hr]]%lookup_insert_Some; [|by apply Hold].
    exists js, tr. split; [apply elem_of_app; right; by apply list_elem_of_singleton|done].
  - intros b HF Hb. by apply js_met_cons; [| |apply HF].
Qed.

Lemma query_requirements tx :
  query (HaveJoinSplitRequirements tx) (fun b => b = true ->
    js_met [] (vjoinsplit tx) /\
    Forall (fun d => st_null s SAPLING (sd_nullifier d) = false /\
                     is_Some (st_anchor s SAPLING (sd_anchor d))) (vShieldedSpend tx)).
Proof using Type.
  eapply query_bind; [by apply (query_joinsplits _ ∅ [])|]. intros b Hb. cbn beta in Hb.
  destruct b; [|by apply query_ret]. eapply query_weaken; [apply query_spends|]. auto.
Qed.

(** The output [i] spends is in the state and unspent. *)
Definition input_available (i : CTxIn) : Prop :=
  exists co, st_coins s (hash (prevout i)) = Some co /\ IsAvailable co (n (prevout i)) = true.

Lemma available_live co nPos : IsAvailable co nPos = true -> live co = Some co.
Proof using Type.
  unfold IsAvailable, live, IsPruned. destruct (coins_vout co !! _) as [o|] eqn:E; [|done].
  intros Ho. destruct (forallb _ _) eqn:Hf; [|done]. rewrite forallb_forall in Hf.
  apply list_elem_of_lookup_2, list_elem_of_In, Hf in E. by rewrite E in Ho.
Qed.

Lemma query_have_inputs l :
  query (have_inputs_loop l) (fun b => b = true -> Forall input_available l).
Proof using Type.
  induction l as [|i l IH]; [by apply query_ret|].
  eapply query_bind; [apply query_access|]. intros [co|] Hco; [|by apply query_ret].
  cbn [mbind option_bind] in Hco. destruct (IsAvailable co _) eqn:Ha; [|by apply query_ret].
  eapply query_weaken; [apply IH|]. intros b HF Hb. constructor; [|auto].
  exists co. by rewrite <- Hco, (available_live _ _ Ha).
Qed.

Section Inputs.
Variables (R : chain_rules) (isKMD : bool) (ci : chain_index).
Variables (gte from to : Z) (prg : Z -> Z) (maturity : Z) (protected : bool).
Variables (tx : CMutableTransaction) (nSpendHeight : Z).
Hypothesis HMAX : 0 <= MAX_MONEY R < 2 ^ 61.
Hypothesis Hci : chain_index_ok ci.

(** The interest credited for an output. *)
Definition credit (p : COutPoint) (v : Z) : Z :=
  if isKMD && (nSpendHeight >? 60000) && (v >=? 10 * COIN) then input_interest isKMD ci p v (nSpendHeight - 1) else 0.

(** An input, with the output it spends and the interest credited for it. *)
Definition input_value (i : CTxIn) (ox : CTxOut * Z) : Prop :=
  (exists co, st_coins s (hash (prevout i)) = Some co /\
     IsAvailable co (n (prevout i)) = true /\
     coins_vout co !! Z.to_nat (n (prevout i)) = Some ox.1 /\
     (fCoinBase co = true -> maturity <= u32 (nSpendHeight - coins_nHeight co) /\
                             (protected = true -> vout tx = []))) /\
  0 <= nValue ox.1 <= MAX_MONEY R /\ ox.2 = credit (prevout i) (nValue ox.1) /\ 0 <= ox.2 <= nValue ox.1 / 20.

Definition in_total (l : list (CTxOut * Z)) : Z := sum_Z (map (fun ox => nValue ox.1 + ox.2) l).

Lemma input_interest_bound p v h :
  10 * COIN <= v <= MAX_MONEY R -> 0 <= input_interest isKMD ci p v h <= v / 20.
Proof using HMAX Hci.
  intros Hv. unfold input_interest. assert (Hu : is_u64 v) by (unfold is_u64, COIN in *; lia).
  rewrite u64_id by done.
  pose proof (accrued_interest_bound isKMD ci (hash p) (i32 (n p)) v h Hci ltac:(unfold COIN in *; lia) Hu) as Hb.
  rewrite i64_id; [done|]. unfold is_i64. split; [lia|].
  apply Z.le_lt_trans with (v / 20); [lia|]. apply Z.div_lt_upper_bound; lia.
Qed.

Lemma credit_bound p v : 0 <= v <= MAX_MONEY R -> 0 <= credit p v <= v / 20.
Proof using HMAX Hci.
  intros Hv. assert (0 <= v / 20) by (apply Z.div_pos; lia). unfold credit.
  destruct (isKMD && _); cbn [andb]; [|lia]. destruct (v >=? 10 * COIN) eqn:E; [|lia].
  apply Z.geb_le in E. apply input_interest_bound. lia.
Qed.

(** One step adds the output's value and its interest without wrap-around. *)
Lemma value_step p v acc :
  0 <= acc <= MAX_MONEY R -> 0 <= v <= MAX_MONEY R ->
  (if isKMD && (nSpendHeight >? 60000) && (v >=? 10 * COIN)
   then i64 (i64 (acc + v) + input_interest isKMD ci p v (nSpendHeight - 1)) else i64 (acc + v))
  = acc + v + credit p v.
Proof using HMAX Hci.
  intros Ha Hv. rewrite (i64_id (acc + v)) by (unfold is_i64; lia). pose proof (credit_bound p v Hv) as Hb. unfold credit in *.
  destruct (isKMD && _); cbn [andb] in *; [|lia]. destruct (v >=? 10 * COIN); [|lia].
  apply i64_id. unfold is_i64. assert (v / 20 <= v) by (apply Z.div_le_upper_bound; lia). lia.
Qed.

Lemma query_coinbase co :
  query (check_coinbase gte from to prg maturity protected tx co nSpendHeight)
    (fun _ => fCoinBase co = true -> maturity <= u32 (nSpendHeight - coins_nHeight co) /\
                                     (protected = true -> vout tx = [])).
Proof using Type.
  unfold check_coinbase. destruct (fCoinBase co); [|by apply query_ret].
  apply query_stop_if_bind. intros _. apply query_stop_if_bind. intros Hm. apply query_stop_if. intros Hp _. apply Z.ltb_ge in Hm. split; [lia|].
  intros Ht. rewrite Ht in Hp. cbn [andb] in Hp. by destruct (vout tx).
Qed.

Lemma query_inputs l : forall acc,
  0 <= acc <= MAX_MONEY R -> Forall input_available l ->
  query (inputs_loop R isKMD ci gte from to prg maturity protected tx nSpendHeight l acc)
    (fun v => 0 <= v <= MAX_MONEY R /\
       exists oxs, Forall2 input_value l oxs /\ v = acc + in_total oxs).
Proof using HMAX Hci.
  induction l as [|i l IH]; intros acc Hacc Hl.
  { apply query_ret. split; [done|]. exists []. split; [constructor|]. unfold in_total. cbn. lia. }
  apply list.Forall_cons in Hl as [(co & Hco & Hav) Hl].
  eapply query_bind; [apply query_access|]. intros r Hr. cbn beta in Hr. rewrite Hco in Hr.
  eapply query_bind; [apply query_of_option; intros a Ha; exact Ha|]. intros co' ->.
  cbn [mbind option_bind] in Hr.
  assert (co' = co) as ->. { unfold live in Hr. by destruct (IsPruned co'); [|injection Hr]. }
  eapply query_bind; [apply query_coinbase|]. intros [] Hcb.
  eapply query_bind; [apply query_of_option; intros a Ha; exact Ha|]. intros o Ho. cbn beta in Ho.
  apply query_stop_if_bind. intros Hb.
  apply orb_false_iff in Hb as [Hb1 Hb2]. apply negb_false_iff, MoneyRange_spec in Hb1.
  apply negb_false_iff, MoneyRange_spec in Hb2.
  pose proof (credit_bound (prevout i) _ Hb1) as Hx. set (x := credit (prevout i) (nValue o)) in *.
  pose proof (value_step (prevout i) (nValue o) acc Hacc Hb1) as Hval. fold x in Hval. rewrite Hval in *. eapply query_weaken; [by apply IH|].
  intros v (Hv & oxs & HF & ->). split; [done|]. exists ((o, x) :: oxs). split.
  - constructor; [|done]. split; [|done]. exists co. done.
  - unfold in_total. cbn [map sum_Z foldr fst snd]. unfold sum_Z. cbn. lia.
Qed.
End Inputs.
End Sound.

(** The fee is the exact difference: none of the sums wraps around. *)
Lemma fee_conserved MAX tx total sh out :
  0 <= MAX < 2 ^ 61 -> tx_amounts_i64 tx -> 0 <= total <= MAX ->
  GetShieldedValueIn MAX tx = Some sh -> GetValueOut MAX tx = Some out ->
  MoneyRange MAX (i64 (total + sh)) = true -> out <= i64 (total + sh) ->
  MoneyRange MAX (i64 (0 + i64 (i64 (total + sh) - out))) = true ->
  exists fee, 0 <= fee <= MAX /\ sum_Z (amounts_out tx) + fee = total + sum_Z (amounts_in tx).
Proof.
  intros HM Hi64 Ht Hsh Hout Hr1 Hle Hr2. destruct (amounts_i64 tx Hi64) as [Hio Hii].
  rewrite GetShieldedValueIn_sum_checked in Hsh. rewrite GetValueOut_sum_checked in Hout by done.
  assert (Hn : forall l, Forall (fun v => 0 <= v) l -> 0 <= sum_Z l).
  { intros l Hl. induction Hl; unfold sum_Z in *; cbn; lia. }
  apply sum_checked_iff in Hsh as (Hp1 & -> & Hb1); [|lia..|done].
  apply sum_checked_iff in Hout as (Hp2 & -> & Hb2); [|lia..|done].
  apply Hn in Hp1, Hp2. rewrite !Z.add_0_l in *.
  rewrite (i64_id (total + _)) in * by (unfold is_i64; lia).
  rewrite (i64_id (_ - _)) in Hr2 by (unfold is_i64; lia).
  rewrite i64_id in Hr2 by (unfold is_i64; lia). apply MoneyRange_spec in Hr2.
  eexists. split; [exact Hr2|]. lia.
Qed.

Section InputsSound.
Context {Tree V : Type} `{!MerkleTree Tree} `{!CoinsView Tree V} `{!CoinsMemory}.
Context (tree_of : ShieldedType -> Z -> Tree) `{!CoinsViewReads tree_of V}.
Context (s : utxo_state Tree) (R : chain_rules) (isKMD : bool) (ci : chain_index) (gte from to : Z) (prg : Z -> Z)
  (maturity : Z) (protected : bool) (tx : CMutableTransaction) (nSpendHeight : Z).

(** What a transaction that CheckTxInputs accepts in the state [s] satisfies. *)
Definition inputs_sound (oxs : list (CTxOut * Z)) (fee : Z) : Prop :=
  js_met s [] (vjoinsplit tx) /\
  Forall (fun d => st_null s SAPLING (sd_nullifier d) = false /\ is_Some (st_anchor s SAPLING (sd_anchor d))) (vShieldedSpend tx) /\
  Forall2 (input_value s R isKMD ci maturity protected tx nSpendHeight) (vin tx) oxs /\ in_total oxs <= MAX_MONEY R /\
  0 <= fee <= MAX_MONEY R /\ sum_Z (amounts_out tx) + fee = in_total oxs + sum_Z (amounts_in tx).

Lemma query_CheckTxInputs : 0 <= MAX_MONEY R < 2 ^ 61 -> chain_index_ok ci -> tx_amounts_i64 tx -> IsMint tx = false ->
  query tree_of s (CheckTxInputs R isKMD ci gte from to prg maturity protected tx nSpendHeight)
    (fun _ => exists oxs fee, inputs_sound oxs fee).
Proof.
  intros HM Hci Hi64 Hmint.
  eapply query_bind; [unfold HaveInputs; rewrite Hmint; apply query_have_inputs|].
  intros have Hh. cbn beta in Hh. apply query_stop_if_bind. intros ->%negb_false_iff. specialize (Hh eq_refl).
  eapply query_bind; [apply query_requirements|]. intros req Hr. cbn beta in Hr.
  apply query_stop_if_bind. intros ->%negb_false_iff. destruct (Hr eq_refl) as [Hjs Hsp].
  eapply query_bind; [apply query_inputs; [done..|lia|done]|]. intros v (Hv & oxs & HF & Hvt). cbn beta in Hvt.
  eapply query_bind; [apply query_of_option; intros a Ha; exact Ha|]. intros sh Hsh. cbn beta in Hsh.
  apply query_stop_if_bind. intros Hin%negb_false_iff.
  eapply query_bind; [apply query_of_option; intros a Ha; exact Ha|]. intros out Hout. cbn beta in Hout.
  apply query_stop_if_bind. intros Hlt%Z.ltb_ge. apply query_stop_if_bind. intros _.
  apply query_stop_if. intros Hfee%negb_false_iff.
  rewrite Z.add_0_l in Hvt. subst v.
  destruct (fee_conserved (MAX_MONEY R) tx (in_total oxs) sh out) as (fee & ? & ?); [done..|].
  exists oxs, fee. unfold inputs_sound. split_and!; try done; lia.
Qed.
End InputsSound.

(** C9: a transaction (neither coinbase nor import) that CheckTxInputs accepts
    spends only what the coins view has: every input refers to an output that
    is there and unspent, a coinbase among them is mature (its depth as an unsigned 32-bit
    value reaches the maturity: so does its depth, unless it is recorded above the spending
    height) and, where the chain protects coinbases, spent to shielded outputs only; no Sprout or Sapling nullifier of it is spent, each
    Sprout anchor is known or the root after an earlier JoinSplit of the
    transaction, each Sapling anchor is known. Value is conserved exactly: what
    flows out plus a fee in range is the value of the outputs spent plus
    interest of at most 5% of each plus the shielded value coming in, with no
    wrap-around anywhere. The lookups leave the state the cache shows as it
    was. *)
Theorem CheckTxInputs_sound {Tree V : Type} `{!MerkleTree Tree} `{!CoinsView Tree V}
    `{!CoinsMemory} (tree_of : ShieldedType -> Z -> Tree) `{!CoinsViewReads tree_of V}
    (R : chain_rules) (isKMD : bool) (ci : chain_index) (gte from to : Z) (prg : Z -> Z)
    (maturity : Z) (protected : bool) (tx : CMutableTransaction) (nSpendHeight : Z)
    (c : CCoinsViewCache Tree V) :
  0 <= MAX_MONEY R < 2 ^ 61 -> chain_index_ok ci -> tx_amounts_i64 tx ->
  cache_inv tree_of c -> IsMint tx = false ->
  let s := cache_abs tree_of c in
  let '(r, c') := CheckTxInputs R isKMD ci gte from to prg maturity protected tx nSpendHeight c in
  cache_inv tree_of c' /\ cache_abs tree_of c' ≡ s /\
  (r = inr tt ->
     js_met s [] (vjoinsplit tx) /\
     Forall (fun d => st_null s SAPLING (sd_nullifier d) = false /\
                      is_Some (st_anchor s SAPLING (sd_anchor d))) (vShieldedSpend tx) /\
     exists oxs fee,
       Forall2 (input_value s R isKMD ci maturity protected tx nSpendHeight) (vin tx) oxs /\
       0 <= fee <= MAX_MONEY R /\
       sum_Z (amounts_out tx) + fee = in_total oxs + sum_Z (amounts_in tx)).
Proof.
  intros HM Hci Hi64 Hinv Hmint s.
  pose proof (query_CheckTxInputs tree_of s R isKMD ci gte from to prg maturity protected tx nSpendHeight HM Hci Hi64 Hmint c
    (conj Hinv (reflexivity _))) as Hq.
  destruct (CheckTxInputs _ _ _ _ _ _ _ _ _ _ _) as [r c']. destruct Hq as [[H1 H2] H3].
  split_and!; [done..|]. intros ->. destruct (H3 tt eq_refl) as (oxs & fee & Hj & Hs & HF & _ & Hf & He).
  split_and!; [done..|]. by exists oxs, fee.
Qed.

#[local] Existing Instance toy_tree.
#[local] Existing Instance toy_memory.

(** Spends the one output of [toy_db] and pays a fee. *)
Definition toy_spend : CMutableTransaction :=
  {| fOverwintered := false; nVersion := 1; nVersionGroupId := 0;
     vin := [mkCTxIn (mkCOutPoint 77 0) [] 7];
     vout := [mkCTxOut (COIN - 1000) [0x51]]; nLockTime := 9; nExpiryHeight := 0; valueBalance := 0;
     vShieldedSpend := []; vShieldedOutput := []; vjoinsplit := []; joinSplitPubKey := 0;
     joinSplitSig := zero_sig; bindingSig := zero_sig |}.

Definition toy_chain : chain_index := mkChainIndex (fun _ => None) (fun _ => None) [].

Lemma CheckTxInputs_sound_witness :
  let s := cache_abs toy_tree_of (new_cache toy_db) in
  let r := CheckTxInputs rules_main true toy_chain 0 0 0 id 100 true toy_spend 70000 (new_cache toy_db) in
  r.1 = inr tt /\ cache_abs toy_tree_of r.2 ≡ s /\
  exists oxs fee, Forall2 (input_value s rules_main true toy_chain 100 true toy_spend 70000) (vin toy_spend) oxs /\
    COIN - 1000 + fee = in_total oxs.
Proof.
  cbv zeta.
  assert (E : (CheckTxInputs rules_main true toy_chain 0 0 0 id 100 true toy_spend 70000
                 (new_cache toy_db)).1 = inr tt) by (vm_compute; reflexivity).
  pose proof (CheckTxInputs_sound toy_tree_of rules_main true toy_chain 0 0 0 id 100 true toy_spend 70000
    (new_cache toy_db)) as H. cbv zeta in H. destruct (CheckTxInputs _ _ _ _ _ _ _ _ _ _ _) as [r c'].
  destruct H as (_ & H1 & H2);
    [vm_compute; split; [discriminate|reflexivity] | split; [discriminate|constructor]
    | | apply new_cache_inv, toy_db_inv | reflexivity | ].
  { assert (Hz : is_i64 0) by (unfold is_i64; lia).
    split; [|split; [constructor|split; [exact Hz|cbn; lia]]].
    constructor; [|constructor]. unfold is_i64, COIN. cbn. lia. }
  split; [done|]. split; [done|].
  destruct (H2 E) as (_ & _ & oxs & fee & HF & _ & Ht). exists oxs, fee. split; [done|].
  unfold sum_Z in Ht. cbn in Ht. lia.
Defined.
