(* ===== verification/IncrementalMerkle.v ===== *)
(** * The note commitment trees (src/src/zcash/IncrementalMerkleTree.hpp and
      IncrementalMerkleTree.cpp, src/src/zcash/util.cpp)

    [IncrementalMerkleTree] keeps the right frontier of an append-only Merkle
    tree, [IncrementalWitness] the authentication path of one leaf while later
    leaves are appended.  Both are compared with the Merkle root of the list of
    leaves.  A hash is the integer its 32 bytes denote. *)
From S2P Require Import Prelude Serialize.
#[local] Open Scope Z_scope.

(** What the template asks of its [Hash] argument. *)
Class MerkleHash := {
  combine : Z -> Z -> nat -> Z;
  uncommitted : Z
}.

Record IncrementalMerkleTree := mkTree {
  left : option Z;
  right : option Z;
  parents : list (option Z)
}.

Record IncrementalWitness := mkWitness {
  w_tree : IncrementalMerkleTree;
  filled : list Z;
  cursor : option IncrementalMerkleTree;
  cursor_depth : nat
}.

Record MerklePath := mkPath {
  authentication_path : list (list bool);
  index : list bool
}.

Definition new_tree : IncrementalMerkleTree := mkTree None None [].

(** ** Bits and bytes (util.cpp) *)

Definition convertBytesVectorToVector (l : bytes) : list bool :=
  concat (map (fun c => map (fun j => Z.odd (Z.shiftr c (7 - j))) [0; 1; 2; 3; 4; 5; 6; 7]) l).

Fixpoint vector_to_int_loop (size i : nat) (v : list bool) (result : Z) : Z :=
  match v with
  | [] => result
  | b :: v =>
    vector_to_int_loop size (S i) v
      (if b then Z.lor result (u64 (Z.shiftl 1 (Z.of_nat (size - 1 - i)))) else result)
  end.

(** [None]: [std::length_error]. *)
Definition convertVectorToInt (v : list bool) : option Z :=
  if (64 <? length v)%nat then None else Some (vector_to_int_loop (length v) 0 v 0).

Section Trees.
Context `{!MerkleHash}.
Variable Depth : nat.

Fixpoint empty_roots (d : nat) : Z :=
  match d with
  | O => uncommitted
  | S d => combine (empty_roots d) (empty_roots d) d
  end.

(** [std::array::at] throws above [Depth]. *)
Definition empty_root (depth : nat) : option Z :=
  if (depth <=? Depth)%nat then Some (empty_roots depth) else None.

(** [PathFiller::next]: the hash and the remaining queue. *)
Definition next (queue : list Z) (depth : nat) : option (Z * list Z) :=
  match queue with
  | h :: queue => Some (h, queue)
  | [] => h ← empty_root depth; Some (h, [])
  end.

Definition is_some {A} (o : option A) : bool := match o with Some _ => true | None => false end.

(** False where [wfcheck] throws. *)
Definition wfcheck (t : IncrementalMerkleTree) : bool :=
  negb (Depth <=? length (parents t))%nat
  && negb (match list.last (parents t) with Some None => true | _ => false end)
  && negb (negb (is_some (left t)) && is_some (right t))
  && negb (negb (is_some (left t)) && (0 <? length (parents t))%nat).

Definition last (t : IncrementalMerkleTree) : option Z :=
  match right t with Some r => Some r | None => left t end.

(** [1 << (i+1)] is an [int]. *)
Fixpoint size_loop (i : nat) (ps : list (option Z)) (ret : Z) : Z :=
  match ps with
  | [] => ret
  | p :: ps =>
    size_loop (S i) ps (if is_some p then u64 (ret + i32 (Z.shiftl 1 (Z.of_nat (i + 1)))) else ret)
  end.

Definition size (t : IncrementalMerkleTree) : Z :=
  let ret := 0 in
  let ret := if is_some (left t) then ret + 1 else ret in
  let ret := if is_some (right t) then ret + 1 else ret in
  size_loop 0 (parents t) ret.

(** [depth - 1] is a [size_t]. *)
Definition is_complete (t : IncrementalMerkleTree) (depth : nat) : bool :=
  if negb (is_some (left t)) || negb (is_some (right t)) then false
  else if negb (Z.of_nat (length (parents t)) =? u64 (Z.of_nat depth - 1)) then false
  else forallb is_some (parents t).

(** The carry loop of [append]: [fuel] counts [i] up to [Depth]. *)
Fixpoint append_loop (fuel i : nat) (combined : Z) (ps : list (option Z)) : list (option Z) :=
  match fuel with
  | O => ps
  | S fuel =>
    match ps with
    | Some p :: ps => None :: append_loop fuel (S i) (combine p combined (i + 1)) ps
    | None :: ps => Some combined :: ps
    | [] => [Some combined]
    end
  end.

(** [None]: "tree is full". *)
Definition append (t : IncrementalMerkleTree) (obj : Z) : option IncrementalMerkleTree :=
  if is_complete t Depth then None
  else
    match left t, right t with
    | None, _ => Some (mkTree (Some obj) (right t) (parents t))
    | Some _, None => Some (mkTree (left t) (Some obj) (parents t))
    | Some l, Some r =>
      Some (mkTree (Some obj) None (append_loop Depth 0 (combine l r 0) (parents t)))
    end.

(** The frontier levels where a subtree is still missing. *)
Fixpoint next_depth_loop (d skip : nat) (ps : list (option Z)) : nat :=
  match ps with
  | [] => d + skip
  | Some _ :: ps => next_depth_loop (S d) skip ps
  | None :: ps => match skip with O => d | S skip => next_depth_loop (S d) skip ps end
  end.

Definition next_depth (t : IncrementalMerkleTree) (skip : nat) : nat :=
  let after_right skip :=
    match right t, skip with
    | None, O => O
    | None, S skip => next_depth_loop 1 skip (parents t)
    | Some _, _ => next_depth_loop 1 skip (parents t)
    end in
  match left t, skip with
  | None, O => O
  | None, S skip => after_right skip
  | Some _, _ => after_right skip
  end.

Fixpoint root_parents (d : nat) (ps : list (option Z)) (root : Z) (filler : list Z)
    : option (nat * Z * list Z) :=
  match ps with
  | [] => Some (d, root, filler)
  | Some p :: ps => root_parents (S d) ps (combine p root d) filler
  | None :: ps =>
    '(h, filler) ← next filler d;
    root_parents (S d) ps (combine root h d) filler
  end.

(** [while (d < depth)], [fuel] iterations. *)
Fixpoint root_ancestors (fuel d : nat) (root : Z) (filler : list Z) : option Z :=
  match fuel with
  | O => Some root
  | S fuel =>
    '(h, filler) ← next filler d;
    root_ancestors fuel (S d) (combine root h d) filler
  end.

Definition next_or (o : option Z) (filler : list Z) : option (Z * list Z) :=
  match o with Some h => Some (h, filler) | None => next filler 0 end.

Definition root_at (t : IncrementalMerkleTree) (depth : nat) (filler : list Z) : option Z :=
  '(combine_left, filler) ← next_or (left t) filler;
  '(combine_right, filler) ← next_or (right t) filler;
  '(d, root, filler) ← root_parents 1 (parents t) (combine combine_left combine_right 0) filler;
  root_ancestors (depth - d) d root filler.

Definition root (t : IncrementalMerkleTree) : option Z := root_at t Depth [].

(** The pairs pushed to [path] and [index], from the leaf up. *)
Fixpoint path_parents (d : nat) (ps : list (option Z)) (filler : list Z)
    : option (list (Z * bool) * nat * list Z) :=
  match ps with
  | [] => Some ([], d, filler)
  | Some p :: ps =>
    '(l, d', filler) ← path_parents (S d) ps filler;
    Some ((p, true) :: l, d', filler)
  | None :: ps =>
    '(h, filler) ← next filler d;
    '(l, d', filler) ← path_parents (S d) ps filler;
    Some ((h, false) :: l, d', filler)
  end.

Fixpoint path_ancestors (fuel d : nat) (filler : list Z) : option (list (Z * bool)) :=
  match fuel with
  | O => Some []
  | S fuel =>
    '(h, filler) ← next filler d;
    l ← path_ancestors fuel (S d) filler;
    Some ((h, false) :: l)
  end.

Definition path_hashes (t : IncrementalMerkleTree) (filler : list Z) : option (list (Z * bool)) :=
  match left t with
  | None => None
  | Some l =>
    '(e, filler) ← (match right t with
                    | Some _ => Some ((l, true), filler)
                    | None => '(h, filler) ← next filler 0; Some ((h, false), filler)
                    end);
    '(ps, d, filler) ← path_parents 1 (parents t) filler;
    up ← path_ancestors (Depth - d) d filler;
    Some (e :: ps ++ up)
  end.

Definition path (t : IncrementalMerkleTree) (filler : list Z) : option MerklePath :=
  l ← path_hashes t filler;
  Some (mkPath (rev (map (fun e => convertBytesVectorToVector (le_bytes 32 e.1)) l))
               (rev (map snd l))).

(** ** Witnesses *)

Definition witness (t : IncrementalMerkleTree) : IncrementalWitness := mkWitness t [] None 0.

Definition partial_path (w : IncrementalWitness) : option (list Z) :=
  match cursor w with
  | Some c => r ← root_at c (cursor_depth w) []; Some (filled w ++ [r])
  | None => Some (filled w)
  end.

Definition w_path (w : IncrementalWitness) : option MerklePath :=
  uncles ← partial_path w; path (w_tree w) uncles.

Definition w_element (w : IncrementalWitness) : option Z := last (w_tree w).

Definition w_position (w : IncrementalWitness) : Z := u64 (size (w_tree w) - 1).

Definition w_root (w : IncrementalWitness) : option Z :=
  uncles ← partial_path w; root_at (w_tree w) Depth uncles.

Definition w_append (w : IncrementalWitness) (obj : Z) : option IncrementalWitness :=
  match cursor w with
  | Some c =>
    c ← append c obj;
    if is_complete c (cursor_depth w) then
      r ← root_at c (cursor_depth w) [];
      Some (mkWitness (w_tree w) (filled w ++ [r]) None (cursor_depth w))
    else Some (mkWitness (w_tree w) (filled w) (Some c) (cursor_depth w))
  | None =>
    let cd := next_depth (w_tree w) (length (filled w)) in
    if (Depth <=? cd)%nat then None
    else if (cd =? 0)%nat then Some (mkWitness (w_tree w) (filled w ++ [obj]) None cd)
    else c ← append new_tree obj; Some (mkWitness (w_tree w) (filled w) (Some c) cd)
  end.

(** ** Serialization *)

(** [SerializationOp] of a tree: the fields, then [wfcheck], on writing too.
    [sizeofT] is the size of a [boost::optional<Hash>]. *)
Definition tree_fields (sizeofT : Z) : codec (option Z * (option Z * list (option Z))) :=
  c_pair (c_opt c_uint256) (c_pair (c_opt c_uint256) (c_vector sizeofT (c_opt c_uint256))).

Definition Tree_Serialize (sizeofT : Z) (t : IncrementalMerkleTree) : option bytes :=
  if wfcheck t then Some (ser (tree_fields sizeofT) (left t, (right t, parents t))) else None.

Definition Tree_Unserialize (sizeofT : Z) : reader IncrementalMerkleTree :=
  f ← unser (tree_fields sizeofT);
  let t := mkTree f.1 f.2.1 f.2.2 in
  if wfcheck t then mret t else reader_fail.

Definition Witness_Serialize (sizeofT : Z) (w : IncrementalWitness) : option bytes :=
  bt ← Tree_Serialize sizeofT (w_tree w);
  bc ← (match cursor w with
        | None => Some [0]
        | Some c => b ← Tree_Serialize sizeofT c; Some (1 :: b)
        end);
  Some (bt ++ ser (c_vector 32 c_uint256) (filled w) ++ bc).

Definition Witness_Unserialize (sizeofT : Z) : reader IncrementalWitness :=
  t ← Tree_Unserialize sizeofT;
  fl ← unser (c_vector 32 c_uint256);
  c ← Unserialize_opt (Tree_Unserialize sizeofT);
  mret (mkWitness t fl c (next_depth t (length fl))).

(** Appending a list of leaves. *)
Fixpoint append_list (t : IncrementalMerkleTree) (l : list Z) : option IncrementalMerkleTree :=
  match l with [] => Some t | x :: l => t ← append t x; append_list t l end.

Fixpoint w_append_list (w : IncrementalWitness) (l : list Z) : option IncrementalWitness :=
  match l with [] => Some w | x :: l => w ← w_append w x; w_append_list w l end.
End Trees.

(** ** The reference: the root of a list of leaves *)

Section Spec.
Context `{!MerkleHash}.
Variable Depth : nat.
#[local] Open Scope nat_scope.

(** The root of height [d] over the leaves, the rest [uncommitted]. *)
Fixpoint merkle_root (d : nat) (l : list Z) : Z :=
  match d with
  | O => match l with [] => uncommitted | x :: _ => x end
  | S d => combine (merkle_root d (take (2 ^ d) l)) (merkle_root d (drop (2 ^ d) l)) d
  end.

(** What an authentication path from height [d] computes for a node. *)
Fixpoint authenticate (d : nat) (node : Z) (l : list (Z * bool)) : Z :=
  match l with
  | [] => node
  | (h, true) :: l => authenticate (S d) (combine h node d) l
  | (h, false) :: l => authenticate (S d) (combine node h d) l
  end.

(** The collapsed left subtrees hold the leaves [l]; the first has height [h]. *)
Fixpoint parents_rep (h : nat) (ps : list (option Z)) (l : list Z) : Prop :=
  match ps with
  | [] => l = []
  | None :: ps => parents_rep (S h) ps l
  | Some r :: ps => exists l0 b,
      l = l0 ++ b /\ length b = 2 ^ h /\ r = merkle_root h b /\ parents_rep (S h) ps l0
  end.

(** The tree holds the leaves [l], in the canonical form. *)
Definition tree_rep (t : IncrementalMerkleTree) (l : list Z) : Prop :=
  list.last (parents t) <> Some None /\ length (parents t) < Depth /\
  match left t, right t with
  | None, None => l = [] /\ parents t = []
  | None, Some _ => False
  | Some a, None => exists l0, l = l0 ++ [a] /\ parents_rep 1 (parents t) l0
  | Some a, Some b => exists l0, l = l0 ++ [a; b] /\ parents_rep 1 (parents t) l0
  end.

(** The heights of the missing subtrees right of the frontier, up to [depth]. *)
Fixpoint missing_parents (d : nat) (ps : list (option Z)) : list nat :=
  match ps with
  | [] => []
  | Some _ :: ps => missing_parents (S d) ps
  | None :: ps => d :: missing_parents (S d) ps
  end.

Definition missing_of (o : option Z) : list nat := match o with Some _ => [] | None => [0] end.

Definition missing (t : IncrementalMerkleTree) (depth : nat) : list nat :=
  missing_of (left t) ++ missing_of (right t) ++ missing_parents 1 (parents t) ++
  seq (1 + length (parents t)) (depth - (1 + length (parents t))).

(** The fillers are the roots of the missing subtrees over the leaves [m]. *)
Fixpoint fills (ds : list nat) (q : list Z) (m : list Z) {struct q} : Prop :=
  match q, ds with
  | [], _ => m = []
  | f :: q, d :: ds => m <> [] /\ f = merkle_root d (take (2 ^ d) m) /\ fills ds q (drop (2 ^ d) m)
  | _ :: _, [] => False
  end.

Lemma merkle_root_nil d : merkle_root d [] = empty_roots d.
Proof using Type. induction d as [|d IH]; [done|]. cbn. by rewrite take_nil, drop_nil, IH. Qed.

Lemma pow2_S d : 2 ^ S d = 2 ^ d + 2 ^ d.
Proof using Type. rewrite Nat.pow_succ_r'. lia. Qed.

Lemma pow2_pos d : 0 < 2 ^ d.
Proof using Type. induction d; rewrite ?pow2_S; cbn; lia. Qed.

(** Joining a left block with what follows it. *)
Lemma merkle_root_app d b m :
  length b <= 2 ^ d -> length b = 2 ^ d \/ m = [] ->
  combine (merkle_root d b) (merkle_root d (take (2 ^ d) m)) d =
  merkle_root (S d) (b ++ take (2 ^ d) m).
Proof using Type.
  intros Hb Hm. cbn. destruct Hm as [Hl | ->].
  - by rewrite take_app_length', drop_app_length' by done.
  - rewrite take_nil, app_nil_r. by rewrite take_ge, drop_ge by done.
Qed.

Lemma next_fills ds d q m : d <= Depth -> fills (d :: ds) q m ->
  exists q', next Depth q d = Some (merkle_root d (take (2 ^ d) m), q') /\
    fills ds q' (drop (2 ^ d) m).
Proof using Type.
  intros Hd Hq. destruct q as [|f q]; cbn in Hq.
  - subst m. exists []. unfold next, empty_root. rewrite (proj2 (Nat.leb_le _ _) Hd).
    rewrite take_nil, drop_nil, merkle_root_nil. split; reflexivity.
  - destruct Hq as (_ & -> & Hq). eauto.
Qed.

(** The block grows by one level. *)
Lemma block_step d (b m : list Z) :
  length b <= 2 ^ d -> length b = 2 ^ d \/ m = [] ->
  length (b ++ take (2 ^ d) m) <= 2 ^ S d /\
  (length (b ++ take (2 ^ d) m) = 2 ^ S d \/ drop (2 ^ d) m = []).
Proof using Type.
  intros Hb Hm. rewrite pow2_S, length_app, length_take. split; [lia|].
  destruct (Nat.le_gt_cases (2 ^ d) (length m)); [|right; apply drop_ge; lia].
  destruct Hm as [? | ->]; [lia|]. rewrite drop_nil. by right.
Qed.

Lemma root_parents_rep ps : forall h l0 b q m rest,
  parents_rep h ps l0 -> h + length ps <= Depth ->
  length b <= 2 ^ h -> length b = 2 ^ h \/ m = [] ->
  fills (missing_parents h ps ++ rest) q m ->
  exists b' q' m',
    root_parents Depth h ps (merkle_root h b) q =
      Some (h + length ps, merkle_root (h + length ps) b', q') /\
    b' ++ m' = l0 ++ b ++ m /\
    length b' <= 2 ^ (h + length ps) /\ (length b' = 2 ^ (h + length ps) \/ m' = []) /\
    fills rest q' m'.
Proof using Type.
  induction ps as [|[r|] ps IH]; intros h l0 b q m rest Hp Hd Hb Hm Hq; cbn [length] in *.
  - cbn in Hp. subst l0. rewrite Nat.add_0_r. exists b, q, m. done.
  - destruct Hp as (l1 & b0 & -> & Hb0 & -> & Hp). cbn [root_parents]. rewrite <- Nat.add_succ_comm.
    assert (Hc : combine (merkle_root h b0) (merkle_root h b) h = merkle_root (S h) (b0 ++ b)).
    { cbn. by rewrite take_app_length', drop_app_length' by done. }
    rewrite Hc. destruct (IH (S h) l1 (b0 ++ b) q m rest) as (b' & q' & m' & H1 & H2 & H3);
      [done | lia | rewrite length_app, pow2_S; lia | rewrite length_app, pow2_S; destruct Hm; [left; lia|by right] | done |].
    exists b', q', m'. split; [done|]. by rewrite H2, <- !app_assoc.
  - cbn [missing_parents app] in Hq. apply next_fills in Hq as (q1 & Hn & Hq1); [|lia].
    cbn [root_parents]. rewrite Hn. cbn [mbind option_bind]. rewrite merkle_root_app by done.
    destruct (block_step h b m Hb Hm) as [Hb' Hm']. rewrite <- Nat.add_succ_comm.
    destruct (IH (S h) l0 (b ++ take (2 ^ h) m) q1 (drop (2 ^ h) m) rest) as (b' & q' & m' & H1 & H2 & H3);
      [done | lia | done | done | done |].
    exists b', q', m'. split; [done|]. by rewrite H2, <- app_assoc, take_drop.
Qed.

Lemma root_ancestors_rep n : forall h b q m,
  h + n <= Depth -> length b <= 2 ^ h -> length b = 2 ^ h \/ m = [] -> fills (seq h n) q m ->
  root_ancestors Depth n h (merkle_root h b) q = Some (merkle_root (h + n) (b ++ m)).
Proof using Type.
  induction n as [|n IH]; intros h b q m Hd Hb Hm Hq.
  - assert (m = []) as -> by (by destruct q). by rewrite app_nil_r, Nat.add_0_r.
  - cbn [seq] in Hq. apply next_fills in Hq as (q1 & Hn & Hq1); [|lia].
    cbn [root_ancestors]. rewrite Hn. cbn [mbind option_bind]. rewrite merkle_root_app by done.
    destruct (block_step h b m Hb Hm) as [Hb' Hm']. rewrite <- Nat.add_succ_comm.
    rewrite (IH (S h) _ _ (drop (2 ^ h) m)); [|lia|done..]. by rewrite <- app_assoc, take_drop.
Qed.

(** The two leaves at the frontier. *)
Lemma root_leaves a o q m rest :
  fills (missing_of o ++ rest) q m ->
  exists h q' m', next_or Depth o q = Some (h, q') /\ fills rest q' m' /\
    combine a h 0 = merkle_root 1 ([a] ++ match o with Some x => [x] | None => take 1 m end) /\
    m' = match o with Some _ => m | None => drop 1 m end.
Proof using Type.
  destruct o as [x|]; cbn [missing_of app next_or]; intros Hq.
  - exists x, q, m. done.
  - apply next_fills in Hq as (q' & Hn & Hq'); [|lia].
    exists (merkle_root 0 (take 1 m)), q', (drop 1 m). split; [done|]. split; [done|]. split; [|done].
    by destruct m.
Qed.

(** The root with fillers is the root over all the leaves. *)
Lemma root_at_rep t l depth q m :
  tree_rep t l -> length (parents t) < depth <= Depth -> l <> [] ->
  fills (missing t depth) q m ->
  root_at Depth t depth q = Some (merkle_root depth (l ++ m)).
Proof using Type.
  intros (_ & _ & Ht) Hd Hl Hq. unfold root_at, missing in *.
  destruct (left t) as [a|]; [|destruct (right t); [done|]; by destruct Ht].
  cbn [next_or mbind option_bind missing_of app] in *.
  assert (exists l0, l = l0 ++ [a] ++ match right t with Some x => [x] | None => [] end /\
    parents_rep 1 (parents t) l0) as (l0 & -> & Hp).
  { destruct (right t); destruct Ht as (l0 & -> & ?); eauto. }
  apply (root_leaves a) in Hq as (h & q1 & m1 & Hn & Hq1 & Hc & Hm1). rewrite Hn. cbn [mbind option_bind].
  rewrite Hc.
  assert (Hall : (l0 ++ [a] ++ match right t with Some x => [x] | None => [] end) ++ m =
    l0 ++ ([a] ++ match right t with Some x => [x] | None => take 1 m end) ++ m1).
  { rewrite Hm1. destruct (right t); cbn [app]; rewrite <- ?app_assoc; cbn [app]; [done|].
    by destruct m as [|x m]; [|cbn; rewrite drop_0]. }
  set (b := [a] ++ match right t with Some x => [x] | None => take 1 m end) in *.
  assert (Hb : length b <= 2 ^ 1 /\ (length b = 2 ^ 1 \/ m1 = [])).
  { subst b m1. cbn [Nat.pow Nat.mul Nat.add]. destruct (right t); [cbn; lia|].
    destruct m; cbn; lia || auto. }
  destruct (root_parents_rep (parents t) 1 l0 b q1 m1 (seq (1 + length (parents t)) (depth - (1 + length (parents t)))))
    as (b' & q' & m' & -> & H2 & H3 & H4 & H5); [done|lia|apply Hb..|done|].
  cbn [mbind option_bind]. rewrite root_ancestors_rep with (m := m'); [|lia|done..].
  rewrite H2, Hall. do 2 f_equal. lia.
Qed.

(** ** Appending *)

Lemma parents_rep_length ps : forall h l, parents_rep h ps l ->
  length l + 2 ^ h <= 2 ^ (h + length ps) /\
  (length l + 2 ^ h = 2 ^ (h + length ps) <-> forallb is_some ps = true).
Proof using Type.
  induction ps as [|[r|] ps IH]; intros h l Hp; cbn [length forallb is_some andb] in *.
  - cbn in Hp. subst l. rewrite Nat.add_0_r. cbn. split; [lia|done].
  - destruct Hp as (l0 & b & -> & Hb & _ & Hp). destruct (IH _ _ Hp) as [H1 H2].
    rewrite <- Nat.add_succ_comm, <- H2. rewrite length_app. rewrite pow2_S in *. split; [lia|split; lia].
  - destruct (IH _ _ Hp) as [H1 H2]. rewrite <- Nat.add_succ_comm. pose proof (pow2_pos h).
    rewrite pow2_S in *. split; [lia|]. split; [lia|done].
Qed.

Lemma pow2_le a b : a <= b -> 2 ^ a <= 2 ^ b.
Proof using Type. apply Nat.pow_le_mono_r. lia. Qed.

Lemma pow2_lt a b : a < b -> 2 ^ a < 2 ^ b.
Proof using Type. apply Nat.pow_lt_mono_r. lia. Qed.

Lemma is_complete_rep t l depth :
  tree_rep t l -> 1 <= depth <= 64 -> length (parents t) < depth ->
  (is_complete t depth = true <-> length l = 2 ^ depth) /\ length l <= 2 ^ depth.
Proof using Type.
  intros (_ & _ & Ht) Hd Hlen. unfold is_complete.
  replace (u64 (Z.of_nat depth - 1)) with (Z.of_nat (depth - 1)) by (rewrite u64_id; unfold is_u64; lia).
  pose proof (pow2_le (1 + length (parents t)) depth ltac:(lia)) as Hle.
  pose proof (pow2_lt 0 depth ltac:(lia)) as H1d. cbn [Nat.pow] in H1d.
  assert (Hb : forall l0, parents_rep 1 (parents t) l0 -> length l0 + 2 <= 2 ^ depth /\
    (length l0 + 2 = 2 ^ depth <-> length (parents t) = depth - 1 /\ forallb is_some (parents t) = true)).
  { intros l0 Hp. destruct (parents_rep_length _ _ _ Hp) as [H1 H2].
    change (2 ^ 1) with 2 in *. rewrite <- H2. split; [lia|]. split.
    - intros E. destruct (decide (length (parents t) = depth - 1)) as [El|]; [|].
      + split; [done|]. rewrite El in *. replace (1 + (depth - 1)) with depth in * by lia. lia.
      + pose proof (pow2_lt (1 + length (parents t)) depth ltac:(lia)). lia.
    - intros [El E]. rewrite E, El. f_equal. lia. }
  destruct (left t) as [a|]; destruct (right t) as [b|]; cbn [is_some negb orb].
  - destruct Ht as (l0 & -> & Hp). destruct (Hb _ Hp) as [H1 H2]. rewrite length_app. cbn [length].
    split; [|lia]. rewrite H2.
    destruct (Z.eqb_spec (Z.of_nat (length (parents t))) (Z.of_nat (depth - 1))) as [E|E]; cbn [negb].
    + split; [intros ->; split; [lia|done]|by intros []].
    + split; [done|intros [? _]; lia].
  - destruct Ht as (l0 & -> & Hp). destruct (Hb _ Hp) as [H1 _]. rewrite length_app. cbn [length].
    split; [|lia]. split; [done|lia].
  - done.
  - destruct Ht as [-> _]. cbn [length]. split; [|lia]. split; [done|lia].
Qed.

Lemma append_loop_rep ps : forall fuel i l0 b,
  parents_rep (S i) ps l0 -> length b = 2 ^ S i -> length ps < fuel -> list.last ps <> Some None ->
  parents_rep (S i) (append_loop fuel i (merkle_root (S i) b) ps) (l0 ++ b) /\
  (exists x, list.last (append_loop fuel i (merkle_root (S i) b) ps) = Some (Some x)) /\
  length (append_loop fuel i (merkle_root (S i) b) ps) =
    if forallb is_some ps then S (length ps) else length ps.
Proof using Type.
  induction ps as [|[p|] ps IH]; intros fuel i l0 b Hp Hb Hf Hl; (destruct fuel as [|fuel]; [cbn in *; lia|]).
  - cbn in Hp. subst l0. cbn [append_loop]. split; [exists [], b; done|]. split; [by eexists|done].
  - destruct Hp as (l1 & b0 & -> & Hb0 & -> & Hp). cbn [append_loop]. rewrite Nat.add_1_r.
    assert (Hc : combine (merkle_root (S i) b0) (merkle_root (S i) b) (S i) = merkle_root (S (S i)) (b0 ++ b)).
    { cbn [merkle_root]. by rewrite (take_app_length' b0), (drop_app_length' b0) by done. }
    rewrite Hc. destruct (IH fuel (S i) l1 (b0 ++ b)) as (H1 & [x H2] & H3);
      [done | rewrite length_app, (pow2_S (S i)); lia | cbn in Hf; lia | by destruct ps|].
    split; [cbn [parents_rep]; by rewrite <- app_assoc|]. split; [exists x|].
    + by rewrite last_cons, H2.
    + cbn [length forallb is_some andb]. rewrite H3. by destruct (forallb _ _).
  - cbn [append_loop]. split; [exists l0, b; done|]. split; [|done].
    rewrite last_cons. destruct (list.last ps) as [[x|]|] eqn:E; [by eexists| |by eexists].
    by rewrite last_cons, E in Hl.
Qed.

Lemma append_rep t l x :
  1 <= Depth <= 64 -> tree_rep t l ->
  (length l < 2 ^ Depth -> exists t', append Depth t x = Some t' /\ tree_rep t' (l ++ [x])) /\
  (length l = 2 ^ Depth -> append Depth t x = None).
Proof using Type.
  intros HD Ht. pose proof Ht as (Hlast & Hlen & Hrep).
  destruct (is_complete_rep t l Depth Ht HD Hlen) as [Hc _]. unfold append.
  split; [intros Hl|intros Hl; by rewrite (proj2 Hc Hl)].
  destruct (is_complete t Depth) eqn:E; [rewrite (proj1 Hc eq_refl) in Hl; lia|].
  destruct (left t) as [a|] eqn:El; destruct (right t) as [b|] eqn:Er; [| | done |].
  - destruct Hrep as (l0 & -> & Hp). eexists. split; [done|].
    change (combine a b 0) with (merkle_root 1 [a; b]).
    destruct (append_loop_rep (parents t) Depth 0 l0 [a; b]) as (H1 & [y H2] & H3); [done..|].
    split; [cbn [parents]; by rewrite H2|]. split; [|cbn [left right parents]; eauto].
    cbn [parents]. rewrite H3. destruct (forallb is_some (parents t)) eqn:Ef; [|done].
    destruct (decide (length (parents t) = Depth - 1)) as [En|]; [|lia].
    exfalso. unfold is_complete in E. rewrite El, Er, Ef in E. cbn [is_some negb orb] in E.
    rewrite En, u64_id in E by (unfold is_u64; lia). rewrite (proj2 (Z.eqb_eq _ _)) in E by lia. done.
  - destruct Hrep as (l0 & -> & Hp). eexists. split; [done|]. split; [done|]. split; [done|].
    cbn [left right parents]. exists l0. by rewrite <- app_assoc.
  - destruct Hrep as [-> Hp]. eexists. split; [done|]. cbn [app]. split; [done|]. split; [done|].
    cbn [left right parents]. rewrite Hp. by exists [].
Qed.

Lemma size_loop_rep ps : forall i l0 ret,
  parents_rep (S i) ps l0 -> (0 <= ret -> ret + Z.of_nat (length l0) < 2 ^ 31 ->
  size_loop i ps ret = ret + Z.of_nat (length l0))%Z.
Proof using Type.
  induction ps as [|[p|] ps IH]; intros i l0 ret Hp H0 Hb; cbn [size_loop is_some].
  - cbn in Hp. subst l0. cbn. lia.
  - destruct Hp as (l1 & b & -> & Hlb & _ & Hp). rewrite length_app, Hlb in *.
    replace (i + 1) with (S i) by lia.
    assert (Hs : Z.shiftl 1 (Z.of_nat (S i)) = Z.of_nat (2 ^ S i))
      by (rewrite Z.shiftl_1_l, Nat2Z.inj_pow; done).
    rewrite Hs, i32_id, u64_id by (unfold is_i32, is_u64; lia).
    rewrite (IH (S i) l1) by (done || lia). lia.
  - by apply IH.
Qed.

Lemma size_rep t l :
  tree_rep t l -> (Z.of_nat (length l) < 2 ^ 31)%Z -> size t = Z.of_nat (length l).
Proof using Type.
  intros (_ & _ & Ht) Hl. unfold size.
  destruct (left t) as [a|]; destruct (right t) as [b|]; cbn [is_some].
  - destruct Ht as (l0 & -> & Hp). rewrite length_app in *. cbn [length] in *.
    rewrite (size_loop_rep _ _ l0) by (done || lia). lia.
  - destruct Ht as (l0 & -> & Hp). rewrite length_app in *. cbn [length] in *.
    rewrite (size_loop_rep _ _ l0) by (done || lia). lia.
  - done.
  - by destruct Ht as [-> ->].
Qed.

Lemma wfcheck_rep t l : tree_rep t l -> wfcheck Depth t = true.
Proof using Type.
  intros (H1 & H2 & Ht). unfold wfcheck. rewrite (proj2 (Nat.leb_gt _ _) H2). cbn [negb andb].
  destruct (left t), (right t); cbn [is_some negb andb];
    try (destruct (list.last (parents t)) as [[]|]; done). by destruct Ht as [_ ->].
Qed.

Lemma last_rep t l : tree_rep t l -> last t = list.last l.
Proof using Type.
  intros (_ & _ & Ht). unfold last. destruct (left t), (right t).
  - destruct Ht as (l0 & -> & _). by rewrite last_app.
  - destruct Ht as (l0 & -> & _). by rewrite last_snoc.
  - done.
  - by destruct Ht as [-> _].
Qed.

Lemma new_tree_rep : 1 <= Depth -> tree_rep new_tree [].
Proof using Type. intros HD. split; [done|]. split; [cbn; lia|done]. Qed.

Lemma append_list_rep m : forall t l,
  1 <= Depth <= 64 -> tree_rep t l -> length (l ++ m) <= 2 ^ Depth ->
  exists t', append_list Depth t m = Some t' /\ tree_rep t' (l ++ m).
Proof using Type.
  induction m as [|x m IH]; intros t l HD Ht Hl.
  - rewrite app_nil_r. by exists t.
  - rewrite length_app in Hl. cbn [length] in Hl.
    destruct (append_rep t l x HD Ht) as [Ha _]. destruct Ha as (t1 & H1 & Ht1); [lia|].
    destruct (IH t1 (l ++ [x]) HD Ht1) as (t' & H2 & Ht'); [rewrite !length_app; cbn; lia|].
    exists t'. rewrite <- app_assoc in Ht'. split; [|done]. cbn [append_list]. by rewrite H1.
Qed.

(** The root of a tree, empty or not. *)
Lemma root_rep t l : 1 <= Depth -> tree_rep t l -> root Depth t = Some (merkle_root Depth l).
Proof using Type.
  intros HD Ht. destruct (decide (l = [])) as [->|Hl].
  - destruct Ht as (_ & _ & Ht). unfold root, root_at.
    destruct (left t), (right t); [destruct Ht as ([|] & ? & _); done..|done|].
    destruct Ht as [_ ->].
    assert (Hn : next Depth [] 0 = Some (empty_roots 0, [])).
    { unfold next, empty_root. by rewrite (proj2 (Nat.leb_le 0 Depth)) by lia. }
    cbn [next_or]. rewrite Hn. cbn [mbind option_bind root_parents]. rewrite Hn. cbn [mbind option_bind].
    change (combine (empty_roots 0) (empty_roots 0) 0) with (merkle_root 1 []).
    rewrite root_ancestors_rep with (m := []); [|lia|cbn; lia|by right|done]. do 2 f_equal. lia.
  - unfold root. rewrite (root_at_rep t l Depth [] []) by (done || apply Ht || (split; [apply Ht|lia])).
    by rewrite app_nil_r.
Qed.

(** ** Authentication paths *)

Lemma path_root_parents ps : forall d cur q,
  match path_parents Depth d ps q with
  | Some (l, d', q') =>
      root_parents Depth d ps cur q = Some (d', authenticate d cur l, q') /\
      d' = d + length ps /\ map snd l = map is_some ps
  | None => root_parents Depth d ps cur q = None
  end.
Proof using Type.
  induction ps as [|[p|] ps IH]; intros d cur q; cbn [path_parents root_parents].
  - cbn. rewrite Nat.add_0_r. done.
  - specialize (IH (S d) (combine p cur d) q).
    destruct (path_parents Depth (S d) ps q) as [[[l d'] q']|]; cbn [mbind option_bind]; [|done].
    destruct IH as (-> & -> & E). cbn. rewrite E. split_and!; [done|lia|done].
  - destruct (next Depth q d) as [[h q1]|]; cbn [mbind option_bind]; [|done].
    specialize (IH (S d) (combine cur h d) q1).
    destruct (path_parents Depth (S d) ps q1) as [[[l d'] q']|]; cbn [mbind option_bind]; [|done].
    destruct IH as (-> & -> & E). cbn. rewrite E. split_and!; [done|lia|done].
Qed.

Lemma path_root_ancestors n : forall d cur q,
  match path_ancestors Depth n d q with
  | Some l => root_ancestors Depth n d cur q = Some (authenticate d cur l) /\ map snd l = repeat false n
  | None => root_ancestors Depth n d cur q = None
  end.
Proof using Type.
  induction n as [|n IH]; intros d cur q; cbn [path_ancestors root_ancestors]; [done|].
  destruct (next Depth q d) as [[h q1]|]; cbn [mbind option_bind]; [|done].
  specialize (IH (S d) (combine cur h d) q1).
  destruct (path_ancestors Depth n (S d) q1); cbn [mbind option_bind]; [|done].
  destruct IH as [-> E]. cbn. by rewrite E.
Qed.

Lemma authenticate_app l k : forall d x,
  authenticate d x (l ++ k) = authenticate (d + length l) (authenticate d x l) k.
Proof using Type.
  induction l as [|[h []] l IH]; intros d x; cbn [app authenticate length]; [by rewrite Nat.add_0_r|..];
    by rewrite IH, Nat.add_succ_comm.
Qed.

(** The position an index, from the leaf up, denotes. *)
Fixpoint index_position (l : list bool) : nat :=
  match l with [] => 0 | b :: l => Nat.b2n b + 2 * index_position l end.

(** A path exists exactly where the root does, and leads the last leaf to it. *)
Lemma path_hashes_root t l q r :
  tree_rep t l -> l <> [] -> root_at Depth t Depth q = Some r ->
  exists es x, path_hashes Depth t q = Some es /\ list.last l = Some x /\
    authenticate 0 x es = r /\ length es = Depth /\
    map snd es = is_some (right t) :: map is_some (parents t) ++
      repeat false (Depth - (1 + length (parents t))).
Proof using Type.
  intros Ht Hl Hr. pose proof (last_rep t l Ht) as Hlast. destruct Ht as (_ & Hlen & Ht).
  unfold root_at, path_hashes, last in *.
  destruct (left t) as [a|]; [|destruct (right t); [done|]; by destruct Ht].
  assert (Hcur : exists e q1 x, (match right t with
        | Some _ => Some ((a, true), q)
        | None => '(h, q) ← next Depth q 0; Some ((h, false), q)
        end) = Some (e, q1) /\ list.last l = Some x /\ e.2 = is_some (right t) /\
      ('(d, root, q2) ← root_parents Depth 1 (parents t) (authenticate 0 x [e]) q1;
        root_ancestors Depth (Depth - d) d root q2) = Some r).
  { cbn [next_or mbind option_bind] in Hr. destruct (right t) as [b|]; cbn [next_or mbind option_bind] in *.
    - exists (a, true), q, b. done.
    - destruct (next Depth q 0) as [[h q1]|]; cbn [mbind option_bind] in *; [|done].
      exists (h, false), q1, a. done. }
  destruct Hcur as (e & q1 & x & -> & Hx & He & Hr'). cbn [mbind option_bind].
  pose proof (path_root_parents (parents t) 1 (authenticate 0 x [e]) q1) as Hpp.
  destruct (path_parents Depth 1 (parents t) q1) as [[[ps d] q2]|]; [|by rewrite Hpp in Hr'].
  destruct Hpp as (Hpp & -> & Eps). rewrite Hpp in Hr'. cbn [mbind option_bind] in *.
  pose proof (path_root_ancestors (Depth - (1 + length (parents t))) (1 + length (parents t))
    (authenticate 1 (authenticate 0 x [e]) ps) q2) as Hpa.
  destruct (path_ancestors _ _ _ q2) as [up|]; [|by rewrite Hpa in Hr'].
  destruct Hpa as [Hpa Eup]. rewrite Hpa in Hr'. injection Hr' as <-.
  cbn [mbind option_bind]. eexists _, x. split; [done|]. split; [done|].
  assert (Hlps : length ps = length (parents t)) by (apply (f_equal length) in Eps; by rewrite !length_map in Eps).
  split_and!.
  - change (e :: ps ++ up) with ([e] ++ ps ++ up).
    rewrite !authenticate_app. cbn [length Nat.add]. by rewrite Hlps.
  - cbn [length]. apply (f_equal length) in Eup. rewrite length_map, repeat_length in Eup.
    rewrite length_app. lia.
  - cbn [map]. by rewrite map_app, Eps, Eup, He.
Qed.

Lemma index_position_app l k : index_position (l ++ k) = index_position l + 2 ^ length l * index_position k.
Proof using Type. induction l as [|b l IH]; cbn [app index_position length]; [cbn [Nat.pow]; lia|]. rewrite IH, Nat.pow_succ_r'. nia. Qed.

Lemma index_position_false n : index_position (repeat false n) = 0.
Proof using Type. induction n; cbn in *; lia. Qed.

Lemma parents_position ps : forall h l0, parents_rep h ps l0 ->
  2 ^ h * index_position (map is_some ps) = length l0.
Proof using Type.
  induction ps as [|[p|] ps IH]; intros h l0 Hp; cbn [map is_some index_position Nat.b2n].
  - cbn in Hp. subst l0. cbn. lia.
  - destruct Hp as (l1 & b & -> & Hb & _ & Hp). rewrite length_app, Hb, <- (IH _ _ Hp), pow2_S. lia.
  - rewrite <- (IH _ _ Hp), pow2_S. lia.
Qed.

Lemma position_rep t l n :
  tree_rep t l -> l <> [] ->
  index_position (is_some (right t) :: map is_some (parents t) ++ repeat false n) = length l - 1.
Proof using Type.
  intros (_ & _ & Ht) Hl. cbn [index_position]. rewrite index_position_app, index_position_false.
  destruct (left t); [|destruct (right t); [done|by destruct Ht]].
  destruct (right t); destruct Ht as (l0 & -> & Hp); apply parents_position in Hp;
    rewrite length_app; cbn [is_some Nat.b2n length]; cbn [Nat.pow] in Hp; lia.
Qed.

(** ** Witnesses *)

(** The filled subtrees hold a prefix of [m], all but [rest]. *)
Fixpoint filled_rep (ds : list nat) (fl : list Z) (m rest : list Z) {struct fl} : Prop :=
  match fl, ds with
  | [], _ => m = rest
  | f :: fl, d :: ds =>
      2 ^ d <= length m /\ f = merkle_root d (take (2 ^ d) m) /\ filled_rep ds fl (drop (2 ^ d) m) rest
  | _ :: _, [] => False
  end.

(** The witness of the last leaf of [l], after the leaves [m] were appended. *)
Definition witness_rep (w : IncrementalWitness) (l m : list Z) : Prop :=
  tree_rep (w_tree w) l /\ l <> [] /\
  exists rest, filled_rep (missing (w_tree w) Depth) (filled w) m rest /\
    match cursor w with
    | None => rest = []
    | Some c =>
        tree_rep c rest /\ rest <> [] /\ length rest < 2 ^ cursor_depth w /\ 1 <= cursor_depth w <= Depth /\
        missing (w_tree w) Depth !! length (filled w) = Some (cursor_depth w)
    end.

Lemma filled_fills ds fl : forall m rest d,
  filled_rep ds fl m rest -> ds !! length fl = Some d -> rest <> [] -> length rest <= 2 ^ d ->
  fills ds (fl ++ [merkle_root d rest]) m.
Proof using Type.
  revert ds. induction fl as [|f fl IH]; intros ds m rest d Hf Hd Hr Hlen.
  - cbn in Hf. subst m. destruct ds as [|d' ds]; [done|]. injection Hd as ->.
    cbn. split; [done|]. by rewrite take_ge, drop_ge by done.
  - destruct ds as [|d' ds]; [done|]. destruct Hf as (H1 & -> & Hf). cbn [app fills].
    split; [|split; [done|by eapply IH]]. intros ->. pose proof (pow2_pos d'). cbn in H1. lia.
Qed.

Lemma filled_fills_done ds fl : forall m, filled_rep ds fl m [] -> fills ds fl m.
Proof using Type.
  revert ds. induction fl as [|f fl IH]; intros ds m Hf; [done|].
  destruct ds as [|d' ds]; [done|]. destruct Hf as (H1 & -> & Hf). cbn [fills].
  split; [|split; [done|by apply IH]]. intros ->. pose proof (pow2_pos d'). cbn in H1. lia.
Qed.

Lemma filled_rep_app ds fl x : forall m rest,
  filled_rep ds fl m rest -> filled_rep ds fl (m ++ x) (rest ++ x).
Proof using Type.
  revert ds. induction fl as [|f fl IH]; intros ds m rest Hf; [cbn in *; by subst|].
  destruct ds as [|d ds]; [done|]. destruct Hf as (H1 & -> & Hf). cbn [filled_rep].
  rewrite length_app, take_app_le, drop_app_le by done. split; [lia|]. split; [done|]. by apply IH.
Qed.

Lemma filled_rep_snoc ds fl d : forall m rest,
  filled_rep ds fl m rest -> ds !! length fl = Some d -> length rest = 2 ^ d ->
  filled_rep ds (fl ++ [merkle_root d rest]) m [].
Proof using Type.
  revert ds. induction fl as [|f fl IH]; intros ds m rest Hf Hd Hl.
  - cbn in Hf. subst m. destruct ds as [|d' ds]; [done|]. injection Hd as ->.
    cbn. rewrite take_ge, drop_ge by lia. split; [lia|done].
  - destruct ds as [|d' ds]; [done|]. destruct Hf as (H1 & -> & Hf). cbn [app filled_rep].
    split; [done|]. split; [done|]. by eapply IH.
Qed.

Definition sum_pow (ds : list nat) : nat := foldr (fun d a => 2 ^ d + a) 0 ds.

Lemma sum_pow_app ds ds' : sum_pow (ds ++ ds') = sum_pow ds + sum_pow ds'.
Proof using Type. unfold sum_pow. induction ds; cbn [app foldr] in *; lia. Qed.

Lemma sum_pow_seq n : forall h, sum_pow (seq h n) + 2 ^ h = 2 ^ (h + n).
Proof using Type.
  induction n as [|n IH]; intros h; cbn [seq sum_pow foldr]; [rewrite Nat.add_0_r; lia|].
  rewrite <- Nat.add_succ_comm, <- IH, pow2_S. unfold sum_pow. lia.
Qed.

Lemma sum_pow_parents ps : forall h l0, parents_rep h ps l0 ->
  length l0 + sum_pow (missing_parents h ps) + 2 ^ h = 2 ^ (h + length ps).
Proof using Type.
  induction ps as [|[p|] ps IH]; intros h l0 Hp; cbn [missing_parents length].
  - cbn in Hp. subst l0. rewrite (Nat.add_0_r h). unfold sum_pow. cbn [foldr length]. lia.
  - destruct Hp as (l1 & b & -> & Hb & _ & Hp). apply IH in Hp.
    rewrite <- Nat.add_succ_comm, <- Hp, length_app, pow2_S. lia.
  - apply IH in Hp. rewrite <- Nat.add_succ_comm, <- Hp, pow2_S. cbn [sum_pow foldr]. unfold sum_pow. lia.
Qed.

(** The leaves and the missing subtrees make up the whole tree. *)
Lemma missing_total t l depth :
  tree_rep t l -> l <> [] -> length (parents t) < depth ->
  length l + sum_pow (missing t depth) = 2 ^ depth.
Proof using Type.
  intros (_ & _ & Ht) Hl Hd. unfold missing. rewrite !sum_pow_app.
  pose proof (sum_pow_seq (depth - (1 + length (parents t))) (1 + length (parents t))) as Hs.
  replace (1 + length (parents t) + (depth - (1 + length (parents t)))) with depth in Hs by lia.
  destruct (left t); [|destruct (right t); [done|by destruct Ht]].
  destruct (right t); destruct Ht as (l0 & -> & Hp); apply sum_pow_parents in Hp;
    rewrite length_app; unfold sum_pow in *; cbn [missing_of foldr Nat.pow length] in *; lia.
Qed.

Lemma filled_total ds fl : forall m, filled_rep ds fl m [] ->
  length m = sum_pow (take (length fl) ds) /\ length fl <= length ds.
Proof using Type.
  revert ds. induction fl as [|f fl IH]; intros ds m Hf; [cbn in Hf; subst; split; [done|cbn; lia]|].
  destruct ds as [|d ds]; [done|]. destruct Hf as (H1 & _ & Hf). apply IH in Hf as [Hm Hl].
  rewrite length_drop in Hm. cbn [length take sum_pow foldr] in *. unfold sum_pow in *. lia.
Qed.

Lemma next_depth_loop_missing ps : forall d k n,
  match (missing_parents d ps ++ seq (d + length ps) n) !! k with
  | Some x => next_depth_loop d k ps = x /\ d <= x < d + length ps + n
  | None => d + length ps + n <= next_depth_loop d k ps
  end.
Proof using Type.
  induction ps as [|[p|] ps IH]; intros d k n; cbn [missing_parents app next_depth_loop length].
  - rewrite Nat.add_0_r. destruct (seq d n !! k) as [x|] eqn:E.
    + apply lookup_seq in E. lia.
    + apply lookup_ge_None in E. rewrite length_seq in E. lia.
  - specialize (IH (S d) k n). rewrite Nat.add_succ_comm in IH. destruct (_ !! k); lia.
  - destruct k as [|k]; cbn; [lia|].
    specialize (IH (S d) k n). rewrite Nat.add_succ_comm in IH. destruct (_ !! k); lia.
Qed.

Lemma next_depth_missing t l k :
  tree_rep t l -> l <> [] ->
  match missing t Depth !! k with
  | Some x => next_depth t k = x /\ x < Depth
  | None => Depth <= next_depth t k
  end.
Proof using Type.
  intros (_ & Hlen & Ht) Hl. unfold missing, next_depth.
  destruct (left t); [|destruct (right t); [done|by destruct Ht]]. cbn [missing_of app].
  assert (HD : 1 + length (parents t) + (Depth - (1 + length (parents t))) = Depth) by lia.
  destruct (right t); [|destruct k as [|k]]; cbn [missing_of app lookup list_lookup]; [|split; [done|lia]|].
  - pose proof (next_depth_loop_missing (parents t) 1 k (Depth - (1 + length (parents t)))) as Hk.
    rewrite HD in Hk. destruct (_ !! k); lia.
  - pose proof (next_depth_loop_missing (parents t) 1 k (Depth - (1 + length (parents t)))) as Hk.
    rewrite HD in Hk. destruct (_ !! k); lia.
Qed.

(** A tree of at most [2 ^ d] leaves fits below height [d]. *)
Lemma parents_last_length ps : forall h l0, parents_rep h ps l0 -> list.last ps <> Some None ->
  ps = [] \/ 2 ^ (h + length ps) <= 2 * length l0.
Proof using Type.
  induction ps as [|p ps IH]; intros h l0 Hp Hl; [by left|right]. cbn [length]. rewrite <- Nat.add_succ_comm.
  assert (Hl' : list.last ps <> Some None). { intros E. rewrite last_cons, E in Hl. done. }
  destruct p as [p|].
  - destruct Hp as (l1 & b & -> & Hb & _ & Hp). rewrite length_app.
    destruct (IH _ _ Hp Hl') as [-> | H1]; [|lia]. cbn [length]. rewrite Nat.add_0_r, pow2_S. lia.
  - destruct (IH _ _ Hp Hl') as [-> | H1]; [done|lia].
Qed.

Lemma rep_height t l d : tree_rep t l -> 1 <= d -> length l <= 2 ^ d -> length (parents t) < d.
Proof using Type.
  intros (Hlast & _ & Ht) Hd Hl.
  destruct (decide (parents t = [])) as [->|Hn]; [cbn; lia|].
  assert (exists l0, parents_rep 1 (parents t) l0 /\ length l0 < length l) as (l0 & Hp & Hlt).
  { destruct (left t), (right t); [destruct Ht as (l0 & -> & Hp).. |done|by destruct Ht];
      exists l0; rewrite length_app; cbn [length]; split; done || lia. }
  destruct (parents_last_length _ _ _ Hp Hlast) as [? | H1]; [done|].
  destruct (Nat.le_gt_cases d (length (parents t))) as [Hge|]; [|done].
  pose proof (pow2_le (S d) (1 + length (parents t)) ltac:(lia)) as H2. rewrite (pow2_S d) in H2. lia.
Qed.

Lemma partial_path_rep w l m : witness_rep w l m ->
  exists q, partial_path Depth w = Some q /\ fills (missing (w_tree w) Depth) q m.
Proof using Type.
  intros (_ & _ & rest & Hf & Hc). unfold partial_path. destruct (cursor w) as [c|].
  - destruct Hc as (Hc & Hr & Hlt & Hcd & Hk).
    rewrite (root_at_rep c rest (cursor_depth w) [] []); [|done| |done|done].
    + rewrite app_nil_r. cbn [mbind option_bind]. eexists. split; [done|]. eapply filled_fills; eauto. lia.
    + split; [|lia]. eapply rep_height; [done|lia..].
  - subst rest. eexists. split; [done|]. by apply filled_fills_done.
Qed.

(** Once the leaves fill the tree every missing subtree is filled. *)
Lemma filled_lookup t l fl m :
  tree_rep t l -> l <> [] -> filled_rep (missing t Depth) fl m [] ->
  (is_Some (missing t Depth !! length fl) <-> length l + length m < 2 ^ Depth).
Proof using Type.
  intros Ht Hl Hf. destruct (filled_total _ _ _ Hf) as [Hm Hlen].
  pose proof (missing_total t l Depth Ht Hl (proj1 (proj2 Ht))) as Htot. rewrite lookup_lt_is_Some.
  rewrite <- (take_drop (length fl) (missing t Depth)), sum_pow_app, <- Hm in Htot.
  assert (Hd : length fl < length (missing t Depth) <-> 0 < sum_pow (drop (length fl) (missing t Depth))).
  { pose proof (length_drop (missing t Depth) (length fl)) as Hld.
    destruct (drop (length fl) (missing t Depth)) as [|d ds]; cbn [length] in Hld.
    - cbn. lia.
    - pose proof (pow2_pos d). unfold sum_pow. cbn [foldr]. lia. }
  lia.
Qed.

Lemma w_append_rep w l m x :
  1 <= Depth <= 64 -> witness_rep w l m ->
  (length l + length m < 2 ^ Depth ->
     exists w', w_append Depth w x = Some w' /\ witness_rep w' l (m ++ [x]) /\ w_tree w' = w_tree w) /\
  (length l + length m = 2 ^ Depth -> cursor w = None -> w_append Depth w x = None).
Proof using Type.
  intros HD (Ht & Hl & rest & Hf & Hc). unfold w_append.
  destruct (cursor w) as [c|].
  - split; [intros _|done]. destruct Hc as (Hc & Hr & Hlt & Hcd & Hk).
    pose proof (pow2_le (cursor_depth w) Depth ltac:(lia)) as Hle.
    destruct (append_rep c rest x HD Hc) as [Ha _]. destruct Ha as (c' & -> & Hc'); [lia|].
    cbn [mbind option_bind]. apply (filled_rep_app _ _ [x]) in Hf.
    assert (Hlen : length (rest ++ [x]) = length rest + 1) by (rewrite length_app; done).
    assert (Hne : rest ++ [x] <> []) by (by destruct rest).
    assert (Hh : length (parents c') < cursor_depth w) by (eapply rep_height; [done|lia..]).
    destruct (is_complete_rep c' _ (cursor_depth w) Hc' ltac:(lia) Hh) as [Hcomp _].
    destruct (is_complete c' (cursor_depth w)) eqn:E.
    + rewrite (root_at_rep c' (rest ++ [x]) (cursor_depth w) [] []) by (done || lia).
      cbn [mbind option_bind]. eexists. split; [done|]. split; [|done]. split; [done|]. split; [done|].
      exists []. split; [|done]. cbn [filled w_tree]. rewrite app_nil_r.
      apply filled_rep_snoc; [done..|]. by apply Hcomp.
    + eexists. split; [done|]. split; [|done]. split; [done|]. split; [done|]. exists (rest ++ [x]). split; [done|].
      cbn [cursor cursor_depth filled w_tree]. split_and!; [done..| |lia|lia|done].
      rewrite Hlen in Hcomp |- *. destruct (decide (length rest + 1 = 2 ^ cursor_depth w)) as [e|]; [|lia].
      apply Hcomp in e. done.
  - subst rest. pose proof (filled_lookup _ _ _ _ Ht Hl Hf) as Hlk.
    pose proof (next_depth_missing (w_tree w) l (length (filled w)) Ht Hl) as Hnd.
    split; [intros Hlt|intros Heq _].
    + destruct (proj2 Hlk Hlt) as [d Hd]. rewrite Hd in Hnd. destruct Hnd as [-> Hd'].
      rewrite (proj2 (Nat.leb_gt _ _) Hd'). apply (filled_rep_app _ _ [x]) in Hf. cbn [app] in Hf.
      destruct (Nat.eqb_spec d 0) as [->|Hd0].
      * eexists. split; [done|]. split; [|done]. split; [done|]. split; [done|]. exists []. split; [|done].
        change x with (merkle_root 0 [x]). by apply filled_rep_snoc.
      * destruct (append_rep new_tree [] x HD (new_tree_rep ltac:(lia))) as [Ha _].
        destruct Ha as (c & -> & Hc); [cbn; pose proof (pow2_pos Depth); lia|]. cbn [mbind option_bind].
        eexists. split; [done|]. split; [|done]. split; [done|]. split; [done|]. exists [x]. split; [done|].
        cbn [cursor cursor_depth filled w_tree]. split_and!; [done..| |lia|lia|done].
        pose proof (pow2_lt 0 d ltac:(lia)) as H1. exact H1.
    + destruct (missing (w_tree w) Depth !! length (filled w)) as [d|] eqn:E.
      * assert (length l + length m < 2 ^ Depth) by (apply Hlk; eauto). lia.
      * by rewrite (proj2 (Nat.leb_le _ _) Hnd).
Qed.

Lemma w_append_list_rep k : forall w l m,
  1 <= Depth <= 64 -> witness_rep w l m -> length (l ++ m ++ k) <= 2 ^ Depth ->
  exists w', w_append_list Depth w k = Some w' /\ witness_rep w' l (m ++ k) /\ w_tree w' = w_tree w.
Proof using Type.
  induction k as [|x k IH]; intros w l m HD Hw Hlen.
  - rewrite app_nil_r. by exists w.
  - rewrite !length_app in Hlen. cbn [length] in Hlen.
    destruct (w_append_rep w l m x HD Hw) as [Ha _]. destruct Ha as (w1 & H1 & Hw1 & E1); [lia|].
    destruct (IH w1 l (m ++ [x]) HD Hw1) as (w' & H2 & Hw' & E2); [rewrite !length_app; cbn; lia|].
    rewrite <- app_assoc in Hw'. exists w'. split; [|split; [done|congruence]].
    cbn [w_append_list]. by rewrite H1.
Qed.
End Spec.

(** ** Properties *)

Section Properties.
Context `{!MerkleHash}.

Lemma append_list_app Depth l k : forall t,
  append_list Depth t (l ++ k) = (t ← append_list Depth t l; append_list Depth t k).
Proof using Type.
  induction l as [|x l IH]; intros t; cbn [app append_list]; [done|].
  destruct (append Depth t x); cbn [mbind option_bind]; [apply IH|done].
Qed.

Lemma witness_start Depth t l :
  tree_rep Depth t l -> l <> [] -> witness_rep Depth (witness t) l [].
Proof using Type. intros Ht Hl. split; [done|]. split; [done|]. exists []. done. Qed.

(** Hashes fit their 32 bytes and the vectors their length limit. *)
Definition tree_valid (sizeofT : Z) (t : IncrementalMerkleTree) : Prop :=
  valid (tree_fields sizeofT) (left t, (right t, parents t)).

Lemma Tree_reload Depth sizeofT t rest :
  tree_valid sizeofT t -> wfcheck Depth t = true ->
  exists bs, Tree_Serialize Depth sizeofT t = Some bs /\
    Tree_Unserialize Depth sizeofT (bs ++ rest) = Some (t, rest).
Proof using Type.
  intros Hv Hw. unfold Tree_Serialize, Tree_Unserialize. rewrite Hw. eexists. split; [done|].
  rewrite bind_unser by done. cbv zeta. cbn [fst snd].
  destruct t as [l r ps]. cbn [left right parents] in *. by rewrite Hw.
Qed.
End Properties.

(** C32: the frontier kept by IncrementalMerkleTree represents the list of
    appended leaves: up to 2^Depth appends succeed, the next one throws "tree
    is full", and after appending [l] the root is the Merkle root of [l] padded
    with uncommitted leaves to the full height (no lookup of an empty root is
    out of range), the tree passes wfcheck, [last] is the last leaf and [size]
    the number of leaves as long as it is below 2^31. *)
Theorem incremental_tree_correct `{!MerkleHash} (Depth : nat) (l : list Z) :
  (1 <= Depth <= 64)%nat ->
  ((length l <= 2 ^ Depth)%nat ->
     exists t, append_list Depth new_tree l = Some t /\
       root Depth t = Some (merkle_root Depth l) /\ wfcheck Depth t = true /\
       last t = list.last l /\ (Z.of_nat (length l) < 2 ^ 31 -> size t = Z.of_nat (length l))) /\
  ((2 ^ Depth < length l)%nat -> append_list Depth new_tree l = None).
Proof.
  intros HD. assert (Hnew : tree_rep Depth new_tree []) by (apply new_tree_rep; lia). split; intros Hl.
  - destruct (append_list_rep Depth l new_tree [] HD Hnew Hl) as (t & Ht & Hrep).
    exists t. split; [done|]. split; [by apply root_rep; [lia|]|]. split; [by eapply wfcheck_rep|].
    split; [by eapply last_rep|]. by eapply size_rep.
  - rewrite <- (take_drop (2 ^ Depth) l), append_list_app.
    destruct (append_list_rep Depth (take (2 ^ Depth) l) new_tree [] HD Hnew) as (t & -> & Hrep).
    { cbn [app]. rewrite length_take. lia. }
    cbn [mbind option_bind app] in *.
    destruct (drop (2 ^ Depth) l) as [|x k] eqn:E; [apply (f_equal length) in E; rewrite length_drop in E; cbn in E; lia|].
    cbn [append_list]. rewrite (proj2 (append_rep Depth t _ x HD Hrep)) by (rewrite length_take; lia). done.
Qed.

(** A witness taken of the last of the leaves [l] and kept up to date with
    the later leaves [m] shows the root of the whole tree, and its
    authentication path has one entry per level, is at the position of the
    leaf, and leads from the leaf to that root. *)
Theorem witness_path_correct `{!MerkleHash} (Depth : nat) (l m : list Z) :
  (1 <= Depth <= 64)%nat -> l <> [] -> (length (l ++ m) <= 2 ^ Depth)%nat ->
  exists t w es x,
    append_list Depth new_tree l = Some t /\ w_append_list Depth (witness t) m = Some w /\
    w_root Depth w = Some (merkle_root Depth (l ++ m)) /\
    w_element w = Some x /\ list.last l = Some x /\
    w_path Depth w = Some (mkPath (rev (map (fun e => convertBytesVectorToVector (le_bytes 32 e.1)) es))
                                  (rev (map snd es))) /\
    length es = Depth /\ index_position (map snd es) = (length l - 1)%nat /\
    authenticate 0 x es = merkle_root Depth (l ++ m).
Proof.
  intros HD Hl Hlen. pose proof Hlen as Hlen'. rewrite length_app in Hlen'.
  destruct (append_list_rep Depth l new_tree [] HD) as (t & Ht & Hrep); [apply new_tree_rep; lia|cbn; lia|].
  destruct (w_append_list_rep Depth m (witness t) l [] HD (witness_start _ _ _ Hrep Hl) Hlen) as (w & Hw & Hwr & Et).
  cbn [app] in Hwr. destruct (partial_path_rep Depth w l m Hwr) as (q & Hq & Hfill).
  cbn [witness w_tree] in Et. rewrite Et in Hfill. cbn [app] in Hrep.
  assert (Hr : root_at Depth t Depth q = Some (merkle_root Depth (l ++ m))).
  { apply root_at_rep; [done| |done|done]. split; [apply Hrep|lia]. }
  destruct (path_hashes_root Depth t l q _ Hrep Hl Hr) as (es & x & Hes & Hx & Hauth & Hn & Hidx).
  exists t, w, es, x. unfold w_root, w_element, w_path, path. rewrite Hq, Et. cbn [mbind option_bind].
  rewrite Hr, Hes, (last_rep _ _ _ Hrep). split_and!; try done.
  rewrite Hidx. by apply (position_rep Depth).
Qed.

(** A witness written to the wallet and read back is again a witness of the
    same leaf: it shows the same root and path, and stays one under further
    appends. *)
Theorem witness_reload `{!MerkleHash} (Depth : nat) (sizeofT : Z) (w : IncrementalWitness) (l m rest : list Z) :
  witness_rep Depth w l m -> tree_valid sizeofT (w_tree w) ->
  valid (c_vector 32 c_uint256) (filled w) -> (forall c, cursor w = Some c -> tree_valid sizeofT c) ->
  exists bs w', Witness_Serialize Depth sizeofT w = Some bs /\
    Witness_Unserialize Depth sizeofT (bs ++ rest) = Some (w', rest) /\
    witness_rep Depth w' l m /\ w_root Depth w' = w_root Depth w /\ w_path Depth w' = w_path Depth w.
Proof.
  intros Hw Hvt Hvf Hvc. pose proof Hw as (Ht & Hl & mrest & Hf & Hc).
  assert (Hcd : forall c, cursor w = Some c -> next_depth (w_tree w) (length (filled w)) = cursor_depth w).
  { intros c Ec. rewrite Ec in Hc. destruct Hc as (_ & _ & _ & _ & Hk).
    pose proof (next_depth_missing Depth _ l (length (filled w)) Ht Hl) as Hnd. rewrite Hk in Hnd. apply Hnd. }
  assert (Hbc : exists bc, (match cursor w with
      | None => Some [0] | Some c => b ← Tree_Serialize Depth sizeofT c; Some (1 :: b) end) = Some bc /\
      Unserialize_opt (Tree_Unserialize Depth sizeofT) (bc ++ rest) = Some (cursor w, rest)).
  { destruct (cursor w) as [c|]; [|by exists [0]].
    destruct (Tree_reload Depth sizeofT c rest) as (b & -> & Hb); [by apply Hvc|by eapply wfcheck_rep, Hc|].
    exists (1 :: b). split; [done|]. unfold Unserialize_opt.
    rewrite (reader_bind_some _ _ _ 1 (b ++ rest)) by (apply (readdata8_cons 1); unfold is_u8; lia). cbn [Z.eqb Pos.eqb].
    by rewrite (reader_bind_some _ _ _ _ _ Hb). }
  destruct Hbc as (bc & Hbc & Hrc).
  destruct (Tree_reload Depth sizeofT (w_tree w) (ser (c_vector 32 c_uint256) (filled w) ++ bc ++ rest))
    as (bt & Hbt & Hrt); [done|by eapply wfcheck_rep|].
  exists (bt ++ ser (c_vector 32 c_uint256) (filled w) ++ bc),
    (mkWitness (w_tree w) (filled w) (cursor w) (next_depth (w_tree w) (length (filled w)))).
  unfold Witness_Serialize, Witness_Unserialize. rewrite Hbt. cbn [mbind option_bind]. rewrite Hbc.
  rewrite <- !app_assoc, (reader_bind_some _ _ _ _ _ Hrt), bind_unser by done.
  rewrite (reader_bind_some _ _ _ _ _ Hrc). split; [done|]. split; [done|].
  assert (Hpp : partial_path Depth (mkWitness (w_tree w) (filled w) (cursor w)
      (next_depth (w_tree w) (length (filled w)))) = partial_path Depth w).
  { unfold partial_path. cbn [cursor filled cursor_depth]. destruct (cursor w) as [c|]; [|done].
    by rewrite (Hcd c eq_refl). }
  unfold w_root, w_path. rewrite Hpp. split; [|done]. split; [done|]. split; [done|]. exists mrest.
  cbn [w_tree filled cursor cursor_depth]. split; [done|]. destruct (cursor w) as [c|]; [|done].
  by rewrite (Hcd c eq_refl).
Qed.

(** A small combining function, for the witnesses. *)
#[local] Instance toy_merkle_hash : MerkleHash :=
  {| combine a b d := (3 * a + 5 * b + Z.of_nat d + 1) mod 2 ^ 256; uncommitted := 1 |}.

Lemma incremental_tree_correct_witness :
  exists t, append_list 4 new_tree [7; 8; 9] = Some t /\
    root 4 t = Some (merkle_root 4 [7; 8; 9]) /\ size t = 3.
Proof.
  destruct (proj1 (@incremental_tree_correct toy_merkle_hash 4 [7; 8; 9] ltac:(lia)) ltac:(cbn; lia))
    as (t & H1 & H2 & _ & _ & H3). exists t. split; [done|]. split; [done|]. apply H3. cbn. lia.
Defined.

Lemma witness_path_correct_witness :
  exists t w, append_list 4 new_tree [7; 8; 9] = Some t /\
    w_append_list 4 (witness t) [10; 11; 12; 13; 14] = Some w /\
    w_root 4 w = Some (merkle_root 4 [7; 8; 9; 10; 11; 12; 13; 14]).
Proof.
  destruct (@witness_path_correct toy_merkle_hash 4 [7; 8; 9] [10; 11; 12; 13; 14])
    as (t & w & es & x & H1 & H2 & H3 & _); [lia|done|cbn; lia|]. by exists t, w.
Defined.

(** The tree of three leaves, and its witness after two more. *)
Definition toy_w : IncrementalWitness :=
  mkWitness (mkTree (Some 9) None [Some 62]) [10] (Some (mkTree (Some 11) None [])) 2.

Lemma toy_w_rep : @witness_rep toy_merkle_hash 4 toy_w [7; 8; 9] [10; 11].
Proof.
  split; [|split; [done|]].
  - split; [done|]. split; [cbn; lia|]. exists [7; 8]. split; [done|]. exists [], [7; 8]. done.
  - exists [11]. split; [cbn; split; [lia|done]|]. split_and!; [|done|cbn; lia..|done].
    split; [done|]. split; [cbn; lia|]. by exists [].
Qed.

Lemma witness_reload_witness :
  exists bs w', Witness_Serialize 4 33 toy_w = Some bs /\
    Witness_Unserialize 4 33 (bs ++ [1; 2]) = Some (w', [1; 2]) /\
    w_root 4 w' = w_root 4 toy_w.
Proof.
  assert (Hh : forall z, 0 <= z < 100 -> valid c_uint256 z) by (intros z Hz; cbn; lia).
  destruct (@witness_reload toy_merkle_hash 4 33 toy_w [7; 8; 9] [10; 11] [1; 2])
    as (bs & w' & H1 & H2 & _ & H3 & _); [exact toy_w_rep| | | |by exists bs, w'].
  - split; [intros a [= <-]; apply Hh; lia|]. split; [done|]. split; [lia|]. split; [|cbn; unfold MAX_SIZE; lia].
    constructor; [intros a [= <-]; apply Hh; lia|constructor].
  - split; [lia|]. split; [constructor; [apply Hh; lia|constructor]|cbn; unfold MAX_SIZE; lia].
  - intros c [= <-]. split; [intros a [= <-]; apply Hh; lia|]. split; [done|].
    split; [lia|]. split; [constructor|cbn; unfold MAX_SIZE; lia].
Defined.

(** With [1 << (i+1)] computed in [int], a tree of 2^31 + 1 leaves, which a
    Sapling tree of depth 32 can hold, reports a wrong size. *)
Lemma size_wraps :
  size (mkTree (Some 1) None (repeat None 30 ++ [Some 2])) = 2 ^ 64 - 2 ^ 31 + 1.
Proof. reflexivity. Qed.
