(* ===== verification/HashStream.v ===== *)
(** * Buffered hashing (the [Write], [Finalize] and [Reset] methods of
      src/src/crypto/sha256.cpp, sha512.cpp, sha1.cpp and ripemd160.cpp)

    The four hashers share one structure: a compression function over blocks,
    a buffer for the bytes of an incomplete block, a count of the bytes written
    and padding with the length at the end.  It is modelled once, over the
    class [BlockHash] of what differs, and compared with hashing the padded
    message as a whole. *)
From S2P Require Import Prelude Serialize.
#[local] Open Scope Z_scope.

Class BlockHash := {
  bh_state : Type;
  bh_block : nat;                        (** bytes per block: 64 or 128 *)
  bh_sizedesc : nat;                     (** bytes of the length field: 8 or 16 *)
  bh_Initialize : bh_state;
  bh_Transform : bh_state -> bytes -> bh_state;
  bh_size : Z -> bytes;                  (** [sizedesc] for a count of bits *)
  bh_output : bh_state -> bytes
}.

(** What the four hashers have in common: room for the padding byte and the
    length in one block, and a block size that divides 2^64. *)
Class BlockHashOk (H : BlockHash) := {
  bh_fits : (bh_sizedesc < bh_block)%nat;
  bh_divides : (Z.of_nat bh_block | 2 ^ 64);
  bh_size_length z : length (bh_size z) = bh_sizedesc
}.

Section Stream.
Context `{!BlockHash}.

(** [s], [buf] (bytes past the pending ones are stale) and [bytes]. *)
Record hasher := mkHasher { h_s : bh_state; h_buf : bytes; h_bytes : Z }.

(** [memcpy(buf + off, data, n)] *)
Definition blit (buf : bytes) (off : nat) (data : bytes) : bytes :=
  take off buf ++ data ++ drop (off + length data) buf.

(** [while (end >= data + 64)], or one call of the multi-block transform. *)
Fixpoint full_blocks (fuel : nat) (s : bh_state) (data : bytes) (n : Z) : bh_state * bytes * Z :=
  match fuel with
  | O => (s, data, n)
  | S fuel =>
    if (bh_block <=? length data)%nat then
      full_blocks fuel (bh_Transform s (take bh_block data)) (drop bh_block data)
        (u64 (n + Z.of_nat bh_block))
    else (s, data, n)
  end.

(** The full blocks taken directly from the source, and what remains. *)
Definition write_rest (h : hasher) (data : bytes) (bufsize : nat) : hasher :=
  let '(s, data, n) := full_blocks (length data) (h_s h) data (h_bytes h) in
  if (0 <? length data)%nat
  then mkHasher s (blit (h_buf h) bufsize data) (u64 (n + Z.of_nat (length data)))
  else mkHasher s (h_buf h) n.

Definition Write (h : hasher) (data : bytes) : hasher :=
  let bufsize := Z.to_nat (h_bytes h mod Z.of_nat bh_block) in
  let '(h, data, bufsize) :=
    if negb (bufsize =? 0)%nat && (bh_block <=? bufsize + length data)%nat then
      let buf := blit (h_buf h) bufsize (take (bh_block - bufsize) data) in
      (mkHasher (bh_Transform (h_s h) buf) buf (u64 (h_bytes h + Z.of_nat (bh_block - bufsize))),
       drop (bh_block - bufsize) data, 0%nat)
    else (h, data, bufsize) in
  write_rest h data bufsize.

(** [pad] is 0x80 and zeros; 119 and 239 are two blocks less the length field
    and one. *)
Definition finalize_writes (h : hasher) : hasher :=
  let sizedesc := bh_size (u64 (Z.shiftl (h_bytes h) 3)) in
  let B := Z.of_nat bh_block in
  let npad := 1 + (2 * B - 1 - Z.of_nat bh_sizedesc - h_bytes h mod B) mod B in
  let h := Write h (take (Z.to_nat npad) (0x80 :: repeat 0 (bh_block - 1))) in
  Write h sizedesc.

Definition Finalize (h : hasher) : bytes := bh_output (h_s (finalize_writes h)).

(** The constructor leaves [buf] as it finds it; [Reset] too. *)
Definition hasher_init (buf : bytes) : hasher := mkHasher bh_Initialize buf 0.
Definition Reset (h : hasher) : hasher := mkHasher bh_Initialize (h_buf h) 0.

(** ** The reference: the padded message, block by block *)

Fixpoint digest_blocks (n : nat) (s : bh_state) (l : bytes) : bh_state :=
  match n with
  | O => s
  | S n => digest_blocks n (bh_Transform s (take bh_block l)) (drop bh_block l)
  end.

Definition padding (len : nat) : bytes :=
  0x80 :: repeat 0 (Z.to_nat ((- Z.of_nat (len + 1 + bh_sizedesc)) mod Z.of_nat bh_block)).

Definition padded (msg : bytes) : bytes :=
  msg ++ padding (length msg) ++ bh_size (8 * Z.of_nat (length msg)).

(** The digest of a message. *)
Definition digest (msg : bytes) : bytes :=
  bh_output (digest_blocks (length (padded msg) / bh_block) bh_Initialize (padded msg)).
End Stream.

Section StreamProofs.
Context `{Hok : !BlockHashOk H}.
Abbreviation B := bh_block.

(** The hasher has consumed [msg]. *)
Definition stream_rep (h : hasher) (msg : bytes) : Prop :=
  length (h_buf h) = B /\ h_bytes h = u64 (Z.of_nat (length msg)) /\
  exists n rest, length rest = (length msg mod B)%nat /\ length msg = (n * B + length rest)%nat /\
    drop (n * B) msg = rest /\ take (length rest) (h_buf h) = rest /\
    h_s h = digest_blocks n bh_Initialize msg.

Lemma block_pos : (0 < B)%nat.
Proof using Hok. pose proof bh_fits. lia. Qed.

Lemma length_blit buf off data :
  (off + length data <= length buf)%nat -> length (blit buf off data) = length buf.
Proof using Type. intros. unfold blit. rewrite !length_app, length_take, length_drop. lia. Qed.

Lemma digest_blocks_app n : forall s l k, (n * B <= length l)%nat ->
  digest_blocks n s (l ++ k) = digest_blocks n s l.
Proof using Type.
  induction n as [|n IH]; intros s l k Hl; [done|]. cbn [digest_blocks].
  rewrite take_app_le, drop_app_le by lia. apply IH. rewrite length_drop. lia.
Qed.

Lemma digest_blocks_add n m : forall s l,
  digest_blocks (n + m) s l = digest_blocks m (digest_blocks n s l) (drop (n * B) l).
Proof using Type.
  induction n as [|n IH]; intros s l; [done|]. cbn [digest_blocks Nat.add]. by rewrite IH, drop_drop.
Qed.

Lemma full_blocks_spec fuel : forall s data n, (length data <= fuel)%nat ->
  full_blocks fuel s data (u64 n) =
    (digest_blocks (length data / B) s data, drop (length data / B * B) data,
     u64 (n + Z.of_nat (length data / B * B))).
Proof using Hok.
  pose proof block_pos as HB.
  induction fuel as [|fuel IH]; intros s data n Hf.
  { assert (data = []) as -> by (apply nil_length_inv; lia). cbn [full_blocks length].
    rewrite Nat.Div0.div_0_l. cbn. by rewrite Z.add_0_r. }
  cbn [full_blocks]. destruct (Nat.leb_spec B (length data)) as [Hle|Hlt].
  - assert (Hu : u64 (u64 n + Z.of_nat B) = u64 (n + Z.of_nat B)).
    { unfold u64. by rewrite Zplus_mod_idemp_l. }
    rewrite Hu, IH by (rewrite length_drop; lia). rewrite length_drop.
    assert (Hq : (length data / B = S ((length data - B) / B))%nat).
    { replace (length data) with ((length data - B) + 1 * B)%nat at 1 by lia.
      rewrite Nat.div_add by lia. lia. }
    rewrite Hq. cbn [digest_blocks]. rewrite drop_drop. f_equal. f_equal. lia.
  - rewrite Nat.div_small by done. cbn. by rewrite Z.add_0_r.
Qed.

Lemma bytes_mod msg : Z.to_nat (u64 (Z.of_nat (length (A:=Z) msg)) mod Z.of_nat B) = (length msg mod B)%nat.
Proof using Hok.
  pose proof block_pos as HB. pose proof bh_divides as Hd. unfold u64.
  rewrite Z.mod_mod_divide by done. by rewrite <- Nat2Z.inj_mod, Nat2Z.id.
Qed.

(** The number of blocks and the pending bytes are determined by the message. *)
Lemma stream_rep_blocks h msg :
  stream_rep h msg <->
  length (h_buf h) = B /\ h_bytes h = u64 (Z.of_nat (length msg)) /\
  take (length msg mod B) (h_buf h) = drop (length msg / B * B) msg /\
  h_s h = digest_blocks (length msg / B) bh_Initialize msg.
Proof using Hok.
  pose proof block_pos as HB. pose proof (Nat.div_mod_eq (length msg) B) as Hdm.
  pose proof (Nat.mod_upper_bound (length msg) B ltac:(lia)) as Hr. split.
  - intros (H1 & H2 & n & rest & H3 & H4 & H5 & H6 & H7). split; [done|]. split; [done|].
    assert (length msg / B = n)%nat as -> by (rewrite H3 in H4; nia). by rewrite <- H3, H6.
  - intros (H1 & H2 & H3 & H4). split; [done|]. split; [done|].
    exists (length msg / B)%nat, (drop (length msg / B * B) msg). rewrite length_drop.
    replace (length msg - length msg / B * B)%nat with (length msg mod B)%nat by lia.
    split_and!; [done|lia|done|done|done].
Qed.

Lemma div_add_blocks a d : (a mod B = 0)%nat -> ((a + d) / B = a / B + d / B)%nat /\ ((a + d) mod B = d mod B)%nat.
Proof using Hok.
  pose proof block_pos as HB. intros Ha. pose proof (Nat.div_mod_eq a B) as Hdm.
  replace (a + d)%nat with (d + a / B * B)%nat by lia.
  rewrite Nat.div_add, Nat.Div0.mod_add by lia. lia.
Qed.

Lemma write_rest_rep h msg data :
  stream_rep h msg -> (length msg mod B = 0 \/ length msg mod B + length data < B)%nat ->
  stream_rep (write_rest h data (length msg mod B)) (msg ++ data).
Proof using Hok.
  intros Hrep Hcase. pose proof block_pos as HB. apply stream_rep_blocks in Hrep as (H1 & H2 & H3 & H4).
  pose proof (Nat.div_mod_eq (length msg) B) as Hdm. pose proof (Nat.div_mod_eq (length data) B) as Hdd.
  pose proof (Nat.mod_upper_bound (length data) B ltac:(lia)) as Hrd.
  pose proof (Nat.mod_upper_bound (length msg) B ltac:(lia)) as Hrm.
  unfold write_rest. rewrite H2, full_blocks_spec by done.
  assert (Hdiv : (length (msg ++ data) / B = length msg / B + length data / B)%nat /\
    (length (msg ++ data) mod B = length msg mod B + length data mod B)%nat).
  { rewrite length_app. destruct Hcase as [Hz|Hlt].
    - destruct (div_add_blocks (length msg) (length data) Hz) as [-> ->]. lia.
    - rewrite (Nat.div_small (length data)), (Nat.mod_small (length data)) by lia.
      rewrite Hdm at 1 3. rewrite <- !Nat.add_assoc, (Nat.mul_comm B), (Nat.add_comm (_ * B)).
      rewrite Nat.div_add, Nat.Div0.mod_add, Nat.div_small, Nat.mod_small by lia. lia. }
  destruct Hdiv as [Hq Hm].
  assert (Hs : digest_blocks (length data / B) (h_s h) data =
    digest_blocks (length (msg ++ data) / B) bh_Initialize (msg ++ data)).
  { rewrite Hq, digest_blocks_add, digest_blocks_app, H4 by lia. destruct Hcase as [Hz|Hlt].
    - f_equal. rewrite drop_app_ge by lia. replace (length msg / B * B - length msg)%nat with 0%nat by lia. done.
    - by rewrite (Nat.div_small (length data)) by lia. }
  assert (Hd : drop (length (msg ++ data) / B * B) (msg ++ data) =
    take (length msg mod B) (h_buf h) ++ drop (length data / B * B) data).
  { rewrite Hq, H3. destruct Hcase as [Hz|Hlt].
    - rewrite drop_app_ge, (drop_ge msg) by lia. cbn [app]. f_equal. lia.
    - rewrite (Nat.div_small (length data)), Nat.add_0_r, drop_app_le by lia. done. }
  assert (Hlt : length (take (length msg mod B) (h_buf h)) = (length msg mod B)%nat) by (rewrite length_take; lia).
  set (tl := drop (length data / B * B) data) in *.
  assert (Htl : length tl = (length data mod B)%nat) by (subst tl; rewrite length_drop; lia).
  assert (Hn : u64 (u64 (Z.of_nat (length msg) + Z.of_nat (length data / B * B)) + Z.of_nat (length tl)) =
    u64 (Z.of_nat (length (msg ++ data)))).
  { unfold u64. rewrite Zplus_mod_idemp_l, Htl, length_app. f_equal. lia. }
  apply stream_rep_blocks. rewrite Hm, Hd, <- Htl.
  destruct (Nat.ltb_spec 0 (length tl)) as [Hpos|Hzero]; cbn [h_s h_buf h_bytes].
  - split; [rewrite length_blit; [done|lia]|]. split; [done|]. split; [|done].
    unfold blit. rewrite app_assoc, take_app_length'; [done|]. rewrite length_app. lia.
  - assert (tl = []) as Enil by (apply nil_length_inv; lia). rewrite Enil in *. cbn [length] in *.
    split; [done|]. split; [|split; [|done]].
    + rewrite <- Hn, Z.add_0_r. symmetry. apply u64_id, u64_range.
    + by rewrite app_nil_r, Nat.add_0_r.
Qed.

Lemma Write_rep h msg data : stream_rep h msg -> stream_rep (Write h data) (msg ++ data).
Proof using Hok.
  intros Hrep. pose proof block_pos as HB. pose proof Hrep as Hrep0.
  apply stream_rep_blocks in Hrep0 as (H1 & H2 & H3 & H4).
  pose proof (Nat.div_mod_eq (length msg) B) as Hdm. pose proof (Nat.mod_upper_bound (length msg) B ltac:(lia)) as Hrm.
  unfold Write. rewrite H2, bytes_mod. set (r := (length msg mod B)%nat) in *.
  destruct (Nat.eqb_spec r 0) as [Hz|Hz]; cbn [negb andb]; [by apply write_rest_rep; [|left]|].
  destruct (Nat.leb_spec B (r + length data)) as [Hle|Hlt]; [|by apply write_rest_rep; [|right]].
  set (d1 := take (B - r) data). assert (Hd1 : length d1 = (B - r)%nat) by (subst d1; rewrite length_take; lia).
  assert (Hbuf : blit (h_buf h) r d1 = drop (length msg / B * B) msg ++ d1).
  { unfold blit. rewrite H3, (drop_ge (h_buf h)) by lia. by rewrite app_nil_r. }
  assert (Hmsg1 : length (msg ++ d1) = ((length msg / B + 1) * B)%nat) by (rewrite length_app; lia).
  assert (Hdr : length (drop (length msg / B * B) msg) = r) by (rewrite length_drop; lia).
  rewrite <- (take_drop (B - r) data) at 2. fold d1. rewrite app_assoc, Hbuf.
  assert (Hmod : (length (msg ++ d1) mod B = 0)%nat) by (rewrite Hmsg1; apply Nat.Div0.mod_mul).
  refine (eq_rect _ (fun k => stream_rep (write_rest _ _ k) _)
    (write_rest_rep _ (msg ++ d1) _ _ (or_introl Hmod)) _ Hmod). apply stream_rep_blocks. cbn [h_s h_buf h_bytes].
  split; [rewrite length_app; lia|]. split; [unfold u64; rewrite Zplus_mod_idemp_l, length_app; f_equal; lia|].
  rewrite Hmod, Hmsg1, Nat.div_mul by lia. rewrite (drop_ge (msg ++ d1)) by lia. split; [done|].
  rewrite digest_blocks_add, digest_blocks_app, <- H4 by lia. cbn [digest_blocks].
  rewrite drop_app_le by lia. rewrite take_ge by (rewrite length_app; lia). done.
Qed.

Lemma writes_rep writes : forall h msg, stream_rep h msg ->
  stream_rep (fold_left Write writes h) (msg ++ concat writes).
Proof using Hok.
  induction writes as [|d ds IH]; intros h msg Hrep; cbn [fold_left concat]; [by rewrite app_nil_r|].
  rewrite app_assoc. by apply IH, Write_rep.
Qed.

Lemma init_rep buf : length buf = B -> stream_rep (hasher_init buf) [].
Proof using Hok.
  intros Hb. apply stream_rep_blocks. cbn [hasher_init h_s h_buf h_bytes length].
  rewrite Nat.Div0.div_0_l, Nat.Div0.mod_0_l. done.
Qed.

(** The padding written by [Finalize] is the padding of the message. *)
Lemma pad_bytes msg :
  take (Z.to_nat (1 + (2 * Z.of_nat B - 1 - Z.of_nat bh_sizedesc - Z.of_nat (length (A:=Z) msg) mod Z.of_nat B)
                        mod Z.of_nat B)) (0x80 :: repeat 0 (B - 1)) = padding (length msg).
Proof using Hok.
  pose proof block_pos as HB. unfold padding.
  assert (E : (2 * Z.of_nat B - 1 - Z.of_nat bh_sizedesc - Z.of_nat (length msg) mod Z.of_nat B) mod Z.of_nat B =
    (- Z.of_nat (length msg + 1 + bh_sizedesc)) mod Z.of_nat B).
  { rewrite Zminus_mod_idemp_r.
    replace (2 * Z.of_nat B - 1 - Z.of_nat bh_sizedesc - Z.of_nat (length msg)) with
      (- Z.of_nat (length msg + 1 + bh_sizedesc) + 2 * Z.of_nat B) by lia.
    by rewrite Z.mod_add by lia. }
  rewrite E. set (k := _ mod _). assert (Hk : 0 <= k < Z.of_nat B) by (apply Z.mod_pos_bound; lia).
  rewrite Z2Nat.inj_add by lia. change (Z.to_nat 1) with 1%nat. cbn [Nat.add take]. f_equal.
  replace (B - 1)%nat with (Z.to_nat k + (B - 1 - Z.to_nat k))%nat by lia.
  rewrite repeat_app, take_app_length'; [done|by rewrite repeat_length].
Qed.

Lemma padded_length msg : (length (padded msg) mod B = 0)%nat.
Proof using Hok.
  pose proof block_pos as HB. unfold padded, padding. rewrite !length_app, bh_size_length. cbn [length].
  rewrite repeat_length. apply Nat2Z.inj. rewrite Nat2Z.inj_mod.
  set (a := Z.of_nat (length msg + 1 + bh_sizedesc)).
  assert (Hk : 0 <= (- a) mod Z.of_nat B < Z.of_nat B) by (apply Z.mod_pos_bound; lia).
  match goal with |- Z.of_nat ?x mod _ = _ => replace (Z.of_nat x) with (a + (- a) mod Z.of_nat B) by lia end.
  rewrite Zplus_mod_idemp_r, Z.add_opp_diag_r. done.
Qed.

Lemma finalize_writes_buf h msg : stream_rep h msg -> length (h_buf (finalize_writes h)) = B.
Proof using Hok. intros Hrep. do 2 (eapply Write_rep in Hrep). apply Hrep. Qed.

Lemma Finalize_rep h msg :
  stream_rep h msg -> 8 * Z.of_nat (length msg) < 2 ^ 64 -> Finalize h = digest msg.
Proof using Hok.
  intros Hrep Hlen. pose proof block_pos as HB. unfold Finalize, finalize_writes, digest. f_equal.
  assert (Hn : h_bytes h = Z.of_nat (length msg)).
  { destruct Hrep as (_ & -> & _). apply u64_id. unfold is_u64. lia. }
  rewrite Hn, pad_bytes, Z.shiftl_mul_pow2, u64_id by (unfold is_u64; lia).
  replace (Z.of_nat (length msg) * 2 ^ 3) with (8 * Z.of_nat (length msg)) by lia.
  apply (Write_rep _ _ (padding (length msg))) in Hrep.
  apply (Write_rep _ _ (bh_size (8 * Z.of_nat (length msg)))) in Hrep. rewrite <- app_assoc in Hrep.
  apply stream_rep_blocks in Hrep as (_ & _ & _ & Hs). exact Hs.
Qed.
End StreamProofs.

(** However a message is cut into Write calls, Finalize returns the digest
    of the whole message: the buffering of an incomplete block, the direct
    processing of full blocks, the byte counter, the padding and the length
    field agree with hashing the padded message, a whole number of blocks, block by
    block.  Stale bytes in
    the buffer have no effect, and a hasher that was Reset behaves like a new
    one. *)
Theorem hash_streaming `{Hok : !BlockHashOk H} (buf : bytes) (before writes : list bytes) :
  length buf = bh_block -> 8 * Z.of_nat (length (concat writes)) < 2 ^ 64 ->
  let h := fold_left Write before (hasher_init buf) in
  Finalize (fold_left Write writes (hasher_init buf)) = digest (concat writes) /\
  Finalize (fold_left Write writes (Reset h)) = digest (concat writes) /\
  (length (padded (concat writes)) mod bh_block = 0)%nat.
Proof.
  intros Hbuf Hlen h. split; [|split; [|apply padded_length]]; apply Finalize_rep; try done; apply (writes_rep writes _ []), init_rep; [done|].
  apply (writes_rep before _ []), init_rep. done.
Qed.
