(* ===== verification/Sha2.v ===== *)
(** * SHA-256 and SHA-512 (src/src/crypto/sha256.cpp and sha512.cpp)

    The unrolled rounds of the source are tables of [line]s, one per call of
    [Round], run over the eight working variables and the sixteen schedule
    words.  They are compared with the compression function of FIPS 180-4, and
    the specialised double hash [TransformD64] with hashing twice. *)
From S2P Require Import Prelude Serialize HashStream.
#[local] Open Scope Z_scope.

(** ** Rounds *)

(** The two files differ in the word size and the rotation amounts. *)
Record sha2 := mkSha2 {
  word_bits : Z;
  word_bytes : nat;
  big0 : Z * Z * Z; big1 : Z * Z * Z;      (** the rotations of [Sigma0], [Sigma1] *)
  small0 : Z * Z * Z; small1 : Z * Z * Z   (** two rotations and a shift: [sigma0], [sigma1] *)
}.

Definition sha256 : sha2 := mkSha2 32 4 (2, 13, 22) (6, 11, 25) (7, 18, 3) (17, 19, 10).
Definition sha512 : sha2 := mkSha2 64 8 (28, 34, 39) (14, 18, 41) (1, 8, 7) (19, 61, 6).

(** The working variables by the names of the source. *)
Module Reg.
Definition a := 0%nat.
Definition b := 1%nat.
Definition c := 2%nat.
Definition d := 3%nat.
Definition e := 4%nat.
Definition f := 5%nat.
Definition g := 6%nat.
Definition h := 7%nat.
End Reg.

(** A summand of a schedule word: a word, [sigma0] or [sigma1] of one, a
    constant, or a word read from the chunk at an offset. *)
Inductive term := Wd (i : nat) | S0 (i : nat) | S1 (i : nat) | Cst (z : Z) | In (off : nat).

(** Where the sum goes: [w = ...], [w += ...], or nowhere. *)
Inductive store := Assign (i : nat) | Add (i : nat) | Keep.

(** [Round(args..., k + (store terms))] *)
Inductive line := Round (args : list nat) (k : Z) (st : store) (terms : list term).

Section Sha2.
Variable P : sha2.
Definition wrap (z : Z) : Z := z mod 2 ^ word_bits P.

(** [(x >> n | x << (bits - n))] *)
Definition rotr (n x : Z) : Z := Z.lor (Z.shiftr x n) (wrap (Z.shiftl x (word_bits P - n))).

Definition Ch (x y z : Z) : Z := Z.lxor z (Z.land x (Z.lxor y z)).
Definition Maj (x y z : Z) : Z := Z.lor (Z.land x y) (Z.land z (Z.lor x y)).
Definition Sigma (r : Z * Z * Z) (x : Z) : Z :=
  Z.lxor (Z.lxor (rotr r.1.1 x) (rotr r.1.2 x)) (rotr r.2 x).
Definition sigma (r : Z * Z * Z) (x : Z) : Z :=
  Z.lxor (Z.lxor (rotr r.1.1 x) (rotr r.1.2 x)) (Z.shiftr x r.2).

(** [ReadBE32(chunk + off)] *)
Definition read_be (chunk : bytes) (off : nat) : Z :=
  le_value (rev (take (word_bytes P) (drop off chunk))).
Definition write_be (z : Z) : bytes := rev (le_bytes (word_bytes P) z).

Definition eval_term (chunk : bytes) (w : list Z) (t : term) : Z :=
  match t with
  | Wd i => nth i w 0
  | S0 i => sigma (small0 P) (nth i w 0)
  | S1 i => sigma (small1 P) (nth i w 0)
  | Cst z => z
  | In off => read_be chunk off
  end.

Definition eval_terms (chunk : bytes) (w : list Z) (ts : list term) : Z :=
  foldr (fun t acc => eval_term chunk w t + acc) 0 ts.

(** The value of the expression and the words after it. *)
Definition eval_store (chunk : bytes) (w : list Z) (st : store) (ts : list term) : Z * list Z :=
  let v := eval_terms chunk w ts in
  match st with
  | Assign i => (wrap v, <[i := wrap v]> w)
  | Add i => let v := wrap (nth i w 0 + v) in (v, <[i := v]> w)
  | Keep => (wrap v, w)
  end.

(** [Round]: [d += t1; h = t1 + t2], with [k] the constant and the word. *)
Definition round (args : list nat) (k : Z) (s : list Z) : list Z :=
  let r i := nth (nth i args 0%nat) s 0 in
  let t1 := wrap (r 7%nat + Sigma (big1 P) (r 4%nat) + Ch (r 4%nat) (r 5%nat) (r 6%nat) + k) in
  let t2 := wrap (Sigma (big0 P) (r 0%nat) + Maj (r 0%nat) (r 1%nat) (r 2%nat)) in
  <[nth 7 args 0%nat := wrap (t1 + t2)]> (<[nth 3 args 0%nat := wrap (r 3%nat + t1)]> s).

Fixpoint run_lines (chunk : bytes) (ls : list line) (s w : list Z) : list Z * list Z :=
  match ls with
  | [] => (s, w)
  | Round args k st ts :: ls =>
    let '(v, w) := eval_store chunk w st ts in
    run_lines chunk ls (round args (wrap (k + v)) s) w
  end.

(** [s[i] += x] for the eight words. *)
Definition add_state (s t : list Z) : list Z := zip_with (fun x y => wrap (x + y)) s t.
End Sha2.

(** ** The rounds of the source *)

Section Rounds.
Import Reg.

Definition sha256_rounds : list line := [
  Round [a;b;c;d;e;f;g;h] 0x428a2f98 (Assign 0) [In 0];
  Round [h;a;b;c;d;e;f;g] 0x71374491 (Assign 1) [In 4];
  Round [g;h;a;b;c;d;e;f] 0xb5c0fbcf (Assign 2) [In 8];
  Round [f;g;h;a;b;c;d;e] 0xe9b5dba5 (Assign 3) [In 12];
  Round [e;f;g;h;a;b;c;d] 0x3956c25b (Assign 4) [In 16];
  Round [d;e;f;g;h;a;b;c] 0x59f111f1 (Assign 5) [In 20];
  Round [c;d;e;f;g;h;a;b] 0x923f82a4 (Assign 6) [In 24];
  Round [b;c;d;e;f;g;h;a] 0xab1c5ed5 (Assign 7) [In 28];
  Round [a;b;c;d;e;f;g;h] 0xd807aa98 (Assign 8) [In 32];
  Round [h;a;b;c;d;e;f;g] 0x12835b01 (Assign 9) [In 36];
  Round [g;h;a;b;c;d;e;f] 0x243185be (Assign 10) [In 40];
  Round [f;g;h;a;b;c;d;e] 0x550c7dc3 (Assign 11) [In 44];
  Round [e;f;g;h;a;b;c;d] 0x72be5d74 (Assign 12) [In 48];
  Round [d;e;f;g;h;a;b;c] 0x80deb1fe (Assign 13) [In 52];
  Round [c;d;e;f;g;h;a;b] 0x9bdc06a7 (Assign 14) [In 56];
  Round [b;c;d;e;f;g;h;a] 0xc19bf174 (Assign 15) [In 60];
  Round [a;b;c;d;e;f;g;h] 0xe49b69c1 (Add 0) [S1 14; Wd 9; S0 1];
  Round [h;a;b;c;d;e;f;g] 0xefbe4786 (Add 1) [S1 15; Wd 10; S0 2];
  Round [g;h;a;b;c;d;e;f] 0x0fc19dc6 (Add 2) [S1 0; Wd 11; S0 3];
  Round [f;g;h;a;b;c;d;e] 0x240ca1cc (Add 3) [S1 1; Wd 12; S0 4];
  Round [e;f;g;h;a;b;c;d] 0x2de92c6f (Add 4) [S1 2; Wd 13; S0 5];
  Round [d;e;f;g;h;a;b;c] 0x4a7484aa (Add 5) [S1 3; Wd 14; S0 6];
  Round [c;d;e;f;g;h;a;b] 0x5cb0a9dc (Add 6) [S1 4; Wd 15; S0 7];
  Round [b;c;d;e;f;g;h;a] 0x76f988da (Add 7) [S1 5; Wd 0; S0 8];
  Round [a;b;c;d;e;f;g;h] 0x983e5152 (Add 8) [S1 6; Wd 1; S0 9];
  Round [h;a;b;c;d;e;f;g] 0xa831c66d (Add 9) [S1 7; Wd 2; S0 10];
  Round [g;h;a;b;c;d;e;f] 0xb00327c8 (Add 10) [S1 8; Wd 3; S0 11];
  Round [f;g;h;a;b;c;d;e] 0xbf597fc7 (Add 11) [S1 9; Wd 4; S0 12];
  Round [e;f;g;h;a;b;c;d] 0xc6e00bf3 (Add 12) [S1 10; Wd 5; S0 13];
  Round [d;e;f;g;h;a;b;c] 0xd5a79147 (Add 13) [S1 11; Wd 6; S0 14];
  Round [c;d;e;f;g;h;a;b] 0x06ca6351 (Add 14) [S1 12; Wd 7; S0 15];
  Round [b;c;d;e;f;g;h;a] 0x14292967 (Add 15) [S1 13; Wd 8; S0 0];
  Round [a;b;c;d;e;f;g;h] 0x27b70a85 (Add 0) [S1 14; Wd 9; S0 1];
  Round [h;a;b;c;d;e;f;g] 0x2e1b2138 (Add 1) [S1 15; Wd 10; S0 2];
  Round [g;h;a;b;c;d;e;f] 0x4d2c6dfc (Add 2) [S1 0; Wd 11; S0 3];
  Round [f;g;h;a;b;c;d;e] 0x53380d13 (Add 3) [S1 1; Wd 12; S0 4];
  Round [e;f;g;h;a;b;c;d] 0x650a7354 (Add 4) [S1 2; Wd 13; S0 5];
  Round [d;e;f;g;h;a;b;c] 0x766a0abb (Add 5) [S1 3; Wd 14; S0 6];
  Round [c;d;e;f;g;h;a;b] 0x81c2c92e (Add 6) [S1 4; Wd 15; S0 7];
  Round [b;c;d;e;f;g;h;a] 0x92722c85 (Add 7) [S1 5; Wd 0; S0 8];
  Round [a;b;c;d;e;f;g;h] 0xa2bfe8a1 (Add 8) [S1 6; Wd 1; S0 9];
  Round [h;a;b;c;d;e;f;g] 0xa81a664b (Add 9) [S1 7; Wd 2; S0 10];
  Round [g;h;a;b;c;d;e;f] 0xc24b8b70 (Add 10) [S1 8; Wd 3; S0 11];
  Round [f;g;h;a;b;c;d;e] 0xc76c51a3 (Add 11) [S1 9; Wd 4; S0 12];
  Round [e;f;g;h;a;b;c;d] 0xd192e819 (Add 12) [S1 10; Wd 5; S0 13];
  Round [d;e;f;g;h;a;b;c] 0xd6990624 (Add 13) [S1 11; Wd 6; S0 14];
  Round [c;d;e;f;g;h;a;b] 0xf40e3585 (Add 14) [S1 12; Wd 7; S0 15];
  Round [b;c;d;e;f;g;h;a] 0x106aa070 (Add 15) [S1 13; Wd 8; S0 0];
  Round [a;b;c;d;e;f;g;h] 0x19a4c116 (Add 0) [S1 14; Wd 9; S0 1];
  Round [h;a;b;c;d;e;f;g] 0x1e376c08 (Add 1) [S1 15; Wd 10; S0 2];
  Round [g;h;a;b;c;d;e;f] 0x2748774c (Add 2) [S1 0; Wd 11; S0 3];
  Round [f;g;h;a;b;c;d;e] 0x34b0bcb5 (Add 3) [S1 1; Wd 12; S0 4];
  Round [e;f;g;h;a;b;c;d] 0x391c0cb3 (Add 4) [S1 2; Wd 13; S0 5];
  Round [d;e;f;g;h;a;b;c] 0x4ed8aa4a (Add 5) [S1 3; Wd 14; S0 6];
  Round [c;d;e;f;g;h;a;b] 0x5b9cca4f (Add 6) [S1 4; Wd 15; S0 7];
  Round [b;c;d;e;f;g;h;a] 0x682e6ff3 (Add 7) [S1 5; Wd 0; S0 8];
  Round [a;b;c;d;e;f;g;h] 0x748f82ee (Add 8) [S1 6; Wd 1; S0 9];
  Round [h;a;b;c;d;e;f;g] 0x78a5636f (Add 9) [S1 7; Wd 2; S0 10];
  Round [g;h;a;b;c;d;e;f] 0x84c87814 (Add 10) [S1 8; Wd 3; S0 11];
  Round [f;g;h;a;b;c;d;e] 0x8cc70208 (Add 11) [S1 9; Wd 4; S0 12];
  Round [e;f;g;h;a;b;c;d] 0x90befffa (Add 12) [S1 10; Wd 5; S0 13];
  Round [d;e;f;g;h;a;b;c] 0xa4506ceb (Add 13) [S1 11; Wd 6; S0 14];
  Round [c;d;e;f;g;h;a;b] 0xbef9a3f7 (Keep) [Wd 14; S1 12; Wd 7; S0 15];
  Round [b;c;d;e;f;g;h;a] 0xc67178f2 (Keep) [Wd 15; S1 13; Wd 8; S0 0]].

Definition d64_rounds1 : list line := [
  Round [a;b;c;d;e;f;g;h] 0x428a2f98 (Assign 0) [In 0];
  Round [h;a;b;c;d;e;f;g] 0x71374491 (Assign 1) [In 4];
  Round [g;h;a;b;c;d;e;f] 0xb5c0fbcf (Assign 2) [In 8];
  Round [f;g;h;a;b;c;d;e] 0xe9b5dba5 (Assign 3) [In 12];
  Round [e;f;g;h;a;b;c;d] 0x3956c25b (Assign 4) [In 16];
  Round [d;e;f;g;h;a;b;c] 0x59f111f1 (Assign 5) [In 20];
  Round [c;d;e;f;g;h;a;b] 0x923f82a4 (Assign 6) [In 24];
  Round [b;c;d;e;f;g;h;a] 0xab1c5ed5 (Assign 7) [In 28];
  Round [a;b;c;d;e;f;g;h] 0xd807aa98 (Assign 8) [In 32];
  Round [h;a;b;c;d;e;f;g] 0x12835b01 (Assign 9) [In 36];
  Round [g;h;a;b;c;d;e;f] 0x243185be (Assign 10) [In 40];
  Round [f;g;h;a;b;c;d;e] 0x550c7dc3 (Assign 11) [In 44];
  Round [e;f;g;h;a;b;c;d] 0x72be5d74 (Assign 12) [In 48];
  Round [d;e;f;g;h;a;b;c] 0x80deb1fe (Assign 13) [In 52];
  Round [c;d;e;f;g;h;a;b] 0x9bdc06a7 (Assign 14) [In 56];
  Round [b;c;d;e;f;g;h;a] 0xc19bf174 (Assign 15) [In 60];
  Round [a;b;c;d;e;f;g;h] 0xe49b69c1 (Add 0) [S1 14; Wd 9; S0 1];
  Round [h;a;b;c;d;e;f;g] 0xefbe4786 (Add 1) [S1 15; Wd 10; S0 2];
  Round [g;h;a;b;c;d;e;f] 0x0fc19dc6 (Add 2) [S1 0; Wd 11; S0 3];
  Round [f;g;h;a;b;c;d;e] 0x240ca1cc (Add 3) [S1 1; Wd 12; S0 4];
  Round [e;f;g;h;a;b;c;d] 0x2de92c6f (Add 4) [S1 2; Wd 13; S0 5];
  Round [d;e;f;g;h;a;b;c] 0x4a7484aa (Add 5) [S1 3; Wd 14; S0 6];
  Round [c;d;e;f;g;h;a;b] 0x5cb0a9dc (Add 6) [S1 4; Wd 15; S0 7];
  Round [b;c;d;e;f;g;h;a] 0x76f988da (Add 7) [S1 5; Wd 0; S0 8];
  Round [a;b;c;d;e;f;g;h] 0x983e5152 (Add 8) [S1 6; Wd 1; S0 9];
  Round [h;a;b;c;d;e;f;g] 0xa831c66d (Add 9) [S1 7; Wd 2; S0 10];
  Round [g;h;a;b;c;d;e;f] 0xb00327c8 (Add 10) [S1 8; Wd 3; S0 11];
  Round [f;g;h;a;b;c;d;e] 0xbf597fc7 (Add 11) [S1 9; Wd 4; S0 12];
  Round [e;f;g;h;a;b;c;d] 0xc6e00bf3 (Add 12) [S1 10; Wd 5; S0 13];
  Round [d;e;f;g;h;a;b;c] 0xd5a79147 (Add 13) [S1 11; Wd 6; S0 14];
  Round [c;d;e;f;g;h;a;b] 0x06ca6351 (Add 14) [S1 12; Wd 7; S0 15];
  Round [b;c;d;e;f;g;h;a] 0x14292967 (Add 15) [S1 13; Wd 8; S0 0];
  Round [a;b;c;d;e;f;g;h] 0x27b70a85 (Add 0) [S1 14; Wd 9; S0 1];
  Round [h;a;b;c;d;e;f;g] 0x2e1b2138 (Add 1) [S1 15; Wd 10; S0 2];
  Round [g;h;a;b;c;d;e;f] 0x4d2c6dfc (Add 2) [S1 0; Wd 11; S0 3];
  Round [f;g;h;a;b;c;d;e] 0x53380d13 (Add 3) [S1 1; Wd 12; S0 4];
  Round [e;f;g;h;a;b;c;d] 0x650a7354 (Add 4) [S1 2; Wd 13; S0 5];
  Round [d;e;f;g;h;a;b;c] 0x766a0abb (Add 5) [S1 3; Wd 14; S0 6];
  Round [c;d;e;f;g;h;a;b] 0x81c2c92e (Add 6) [S1 4; Wd 15; S0 7];
  Round [b;c;d;e;f;g;h;a] 0x92722c85 (Add 7) [S1 5; Wd 0; S0 8];
  Round [a;b;c;d;e;f;g;h] 0xa2bfe8a1 (Add 8) [S1 6; Wd 1; S0 9];
  Round [h;a;b;c;d;e;f;g] 0xa81a664b (Add 9) [S1 7; Wd 2; S0 10];
  Round [g;h;a;b;c;d;e;f] 0xc24b8b70 (Add 10) [S1 8; Wd 3; S0 11];
  Round [f;g;h;a;b;c;d;e] 0xc76c51a3 (Add 11) [S1 9; Wd 4; S0 12];
  Round [e;f;g;h;a;b;c;d] 0xd192e819 (Add 12) [S1 10; Wd 5; S0 13];
  Round [d;e;f;g;h;a;b;c] 0xd6990624 (Add 13) [S1 11; Wd 6; S0 14];
  Round [c;d;e;f;g;h;a;b] 0xf40e3585 (Add 14) [S1 12; Wd 7; S0 15];
  Round [b;c;d;e;f;g;h;a] 0x106aa070 (Add 15) [S1 13; Wd 8; S0 0];
  Round [a;b;c;d;e;f;g;h] 0x19a4c116 (Add 0) [S1 14; Wd 9; S0 1];
  Round [h;a;b;c;d;e;f;g] 0x1e376c08 (Add 1) [S1 15; Wd 10; S0 2];
  Round [g;h;a;b;c;d;e;f] 0x2748774c (Add 2) [S1 0; Wd 11; S0 3];
  Round [f;g;h;a;b;c;d;e] 0x34b0bcb5 (Add 3) [S1 1; Wd 12; S0 4];
  Round [e;f;g;h;a;b;c;d] 0x391c0cb3 (Add 4) [S1 2; Wd 13; S0 5];
  Round [d;e;f;g;h;a;b;c] 0x4ed8aa4a (Add 5) [S1 3; Wd 14; S0 6];
  Round [c;d;e;f;g;h;a;b] 0x5b9cca4f (Add 6) [S1 4; Wd 15; S0 7];
  Round [b;c;d;e;f;g;h;a] 0x682e6ff3 (Add 7) [S1 5; Wd 0; S0 8];
  Round [a;b;c;d;e;f;g;h] 0x748f82ee (Add 8) [S1 6; Wd 1; S0 9];
  Round [h;a;b;c;d;e;f;g] 0x78a5636f (Add 9) [S1 7; Wd 2; S0 10];
  Round [g;h;a;b;c;d;e;f] 0x84c87814 (Add 10) [S1 8; Wd 3; S0 11];
  Round [f;g;h;a;b;c;d;e] 0x8cc70208 (Add 11) [S1 9; Wd 4; S0 12];
  Round [e;f;g;h;a;b;c;d] 0x90befffa (Add 12) [S1 10; Wd 5; S0 13];
  Round [d;e;f;g;h;a;b;c] 0xa4506ceb (Add 13) [S1 11; Wd 6; S0 14];
  Round [c;d;e;f;g;h;a;b] 0xbef9a3f7 (Keep) [Wd 14; S1 12; Wd 7; S0 15];
  Round [b;c;d;e;f;g;h;a] 0xc67178f2 (Keep) [Wd 15; S1 13; Wd 8; S0 0]].

Definition d64_rounds2 : list line := [
  Round [a;b;c;d;e;f;g;h] 0xc28a2f98 (Keep) [];
  Round [h;a;b;c;d;e;f;g] 0x71374491 (Keep) [];
  Round [g;h;a;b;c;d;e;f] 0xb5c0fbcf (Keep) [];
  Round [f;g;h;a;b;c;d;e] 0xe9b5dba5 (Keep) [];
  Round [e;f;g;h;a;b;c;d] 0x3956c25b (Keep) [];
  Round [d;e;f;g;h;a;b;c] 0x59f111f1 (Keep) [];
  Round [c;d;e;f;g;h;a;b] 0x923f82a4 (Keep) [];
  Round [b;c;d;e;f;g;h;a] 0xab1c5ed5 (Keep) [];
  Round [a;b;c;d;e;f;g;h] 0xd807aa98 (Keep) [];
  Round [h;a;b;c;d;e;f;g] 0x12835b01 (Keep) [];
  Round [g;h;a;b;c;d;e;f] 0x243185be (Keep) [];
  Round [f;g;h;a;b;c;d;e] 0x550c7dc3 (Keep) [];
  Round [e;f;g;h;a;b;c;d] 0x72be5d74 (Keep) [];
  Round [d;e;f;g;h;a;b;c] 0x80deb1fe (Keep) [];
  Round [c;d;e;f;g;h;a;b] 0x9bdc06a7 (Keep) [];
  Round [b;c;d;e;f;g;h;a] 0xc19bf374 (Keep) [];
  Round [a;b;c;d;e;f;g;h] 0x649b69c1 (Keep) [];
  Round [h;a;b;c;d;e;f;g] 0xf0fe4786 (Keep) [];
  Round [g;h;a;b;c;d;e;f] 0x0fe1edc6 (Keep) [];
  Round [f;g;h;a;b;c;d;e] 0x240cf254 (Keep) [];
  Round [e;f;g;h;a;b;c;d] 0x4fe9346f (Keep) [];
  Round [d;e;f;g;h;a;b;c] 0x6cc984be (Keep) [];
  Round [c;d;e;f;g;h;a;b] 0x61b9411e (Keep) [];
  Round [b;c;d;e;f;g;h;a] 0x16f988fa (Keep) [];
  Round [a;b;c;d;e;f;g;h] 0xf2c65152 (Keep) [];
  Round [h;a;b;c;d;e;f;g] 0xa88e5a6d (Keep) [];
  Round [g;h;a;b;c;d;e;f] 0xb019fc65 (Keep) [];
  Round [f;g;h;a;b;c;d;e] 0xb9d99ec7 (Keep) [];
  Round [e;f;g;h;a;b;c;d] 0x9a1231c3 (Keep) [];
  Round [d;e;f;g;h;a;b;c] 0xe70eeaa0 (Keep) [];
  Round [c;d;e;f;g;h;a;b] 0xfdb1232b (Keep) [];
  Round [b;c;d;e;f;g;h;a] 0xc7353eb0 (Keep) [];
  Round [a;b;c;d;e;f;g;h] 0x3069bad5 (Keep) [];
  Round [h;a;b;c;d;e;f;g] 0xcb976d5f (Keep) [];
  Round [g;h;a;b;c;d;e;f] 0x5a0f118f (Keep) [];
  Round [f;g;h;a;b;c;d;e] 0xdc1eeefd (Keep) [];
  Round [e;f;g;h;a;b;c;d] 0x0a35b689 (Keep) [];
  Round [d;e;f;g;h;a;b;c] 0xde0b7a04 (Keep) [];
  Round [c;d;e;f;g;h;a;b] 0x58f4ca9d (Keep) [];
  Round [b;c;d;e;f;g;h;a] 0xe15d5b16 (Keep) [];
  Round [a;b;c;d;e;f;g;h] 0x007f3e86 (Keep) [];
  Round [h;a;b;c;d;e;f;g] 0x37088980 (Keep) [];
  Round [g;h;a;b;c;d;e;f] 0xa507ea32 (Keep) [];
  Round [f;g;h;a;b;c;d;e] 0x6fab9537 (Keep) [];
  Round [e;f;g;h;a;b;c;d] 0x17406110 (Keep) [];
  Round [d;e;f;g;h;a;b;c] 0x0d8cd6f1 (Keep) [];
  Round [c;d;e;f;g;h;a;b] 0xcdaa3b6d (Keep) [];
  Round [b;c;d;e;f;g;h;a] 0xc0bbbe37 (Keep) [];
  Round [a;b;c;d;e;f;g;h] 0x83613bda (Keep) [];
  Round [h;a;b;c;d;e;f;g] 0xdb48a363 (Keep) [];
  Round [g;h;a;b;c;d;e;f] 0x0b02e931 (Keep) [];
  Round [f;g;h;a;b;c;d;e] 0x6fd15ca7 (Keep) [];
  Round [e;f;g;h;a;b;c;d] 0x521afaca (Keep) [];
  Round [d;e;f;g;h;a;b;c] 0x31338431 (Keep) [];
  Round [c;d;e;f;g;h;a;b] 0x6ed41a95 (Keep) [];
  Round [b;c;d;e;f;g;h;a] 0x6d437890 (Keep) [];
  Round [a;b;c;d;e;f;g;h] 0xc39c91f2 (Keep) [];
  Round [h;a;b;c;d;e;f;g] 0x9eccabbd (Keep) [];
  Round [g;h;a;b;c;d;e;f] 0xb5c9a0e6 (Keep) [];
  Round [f;g;h;a;b;c;d;e] 0x532fb63c (Keep) [];
  Round [e;f;g;h;a;b;c;d] 0xd2c741c6 (Keep) [];
  Round [d;e;f;g;h;a;b;c] 0x07237ea3 (Keep) [];
  Round [c;d;e;f;g;h;a;b] 0xa4954b68 (Keep) [];
  Round [b;c;d;e;f;g;h;a] 0x4c191d76 (Keep) []].

Definition d64_rounds3 : list line := [
  Round [a;b;c;d;e;f;g;h] 0x428a2f98 (Keep) [Wd 0];
  Round [h;a;b;c;d;e;f;g] 0x71374491 (Keep) [Wd 1];
  Round [g;h;a;b;c;d;e;f] 0xb5c0fbcf (Keep) [Wd 2];
  Round [f;g;h;a;b;c;d;e] 0xe9b5dba5 (Keep) [Wd 3];
  Round [e;f;g;h;a;b;c;d] 0x3956c25b (Keep) [Wd 4];
  Round [d;e;f;g;h;a;b;c] 0x59f111f1 (Keep) [Wd 5];
  Round [c;d;e;f;g;h;a;b] 0x923f82a4 (Keep) [Wd 6];
  Round [b;c;d;e;f;g;h;a] 0xab1c5ed5 (Keep) [Wd 7];
  Round [a;b;c;d;e;f;g;h] 0x5807aa98 (Keep) [];
  Round [h;a;b;c;d;e;f;g] 0x12835b01 (Keep) [];
  Round [g;h;a;b;c;d;e;f] 0x243185be (Keep) [];
  Round [f;g;h;a;b;c;d;e] 0x550c7dc3 (Keep) [];
  Round [e;f;g;h;a;b;c;d] 0x72be5d74 (Keep) [];
  Round [d;e;f;g;h;a;b;c] 0x80deb1fe (Keep) [];
  Round [c;d;e;f;g;h;a;b] 0x9bdc06a7 (Keep) [];
  Round [b;c;d;e;f;g;h;a] 0xc19bf274 (Keep) [];
  Round [a;b;c;d;e;f;g;h] 0xe49b69c1 (Add 0) [S0 1];
  Round [h;a;b;c;d;e;f;g] 0xefbe4786 (Add 1) [Cst 0xa00000; S0 2];
  Round [g;h;a;b;c;d;e;f] 0x0fc19dc6 (Add 2) [S1 0; S0 3];
  Round [f;g;h;a;b;c;d;e] 0x240ca1cc (Add 3) [S1 1; S0 4];
  Round [e;f;g;h;a;b;c;d] 0x2de92c6f (Add 4) [S1 2; S0 5];
  Round [d;e;f;g;h;a;b;c] 0x4a7484aa (Add 5) [S1 3; S0 6];
  Round [c;d;e;f;g;h;a;b] 0x5cb0a9dc (Add 6) [S1 4; Cst 0x100; S0 7];
  Round [b;c;d;e;f;g;h;a] 0x76f988da (Add 7) [S1 5; Wd 0; Cst 0x11002000];
  Round [a;b;c;d;e;f;g;h] 0x983e5152 (Assign 8) [Cst 0x80000000; S1 6; Wd 1];
  Round [h;a;b;c;d;e;f;g] 0xa831c66d (Assign 9) [S1 7; Wd 2];
  Round [g;h;a;b;c;d;e;f] 0xb00327c8 (Assign 10) [S1 8; Wd 3];
  Round [f;g;h;a;b;c;d;e] 0xbf597fc7 (Assign 11) [S1 9; Wd 4];
  Round [e;f;g;h;a;b;c;d] 0xc6e00bf3 (Assign 12) [S1 10; Wd 5];
  Round [d;e;f;g;h;a;b;c] 0xd5a79147 (Assign 13) [S1 11; Wd 6];
  Round [c;d;e;f;g;h;a;b] 0x06ca6351 (Assign 14) [S1 12; Wd 7; Cst 0x400022];
  Round [b;c;d;e;f;g;h;a] 0x14292967 (Assign 15) [Cst 0x100; S1 13; Wd 8; S0 0];
  Round [a;b;c;d;e;f;g;h] 0x27b70a85 (Add 0) [S1 14; Wd 9; S0 1];
  Round [h;a;b;c;d;e;f;g] 0x2e1b2138 (Add 1) [S1 15; Wd 10; S0 2];
  Round [g;h;a;b;c;d;e;f] 0x4d2c6dfc (Add 2) [S1 0; Wd 11; S0 3];
  Round [f;g;h;a;b;c;d;e] 0x53380d13 (Add 3) [S1 1; Wd 12; S0 4];
  Round [e;f;g;h;a;b;c;d] 0x650a7354 (Add 4) [S1 2; Wd 13; S0 5];
  Round [d;e;f;g;h;a;b;c] 0x766a0abb (Add 5) [S1 3; Wd 14; S0 6];
  Round [c;d;e;f;g;h;a;b] 0x81c2c92e (Add 6) [S1 4; Wd 15; S0 7];
  Round [b;c;d;e;f;g;h;a] 0x92722c85 (Add 7) [S1 5; Wd 0; S0 8];
  Round [a;b;c;d;e;f;g;h] 0xa2bfe8a1 (Add 8) [S1 6; Wd 1; S0 9];
  Round [h;a;b;c;d;e;f;g] 0xa81a664b (Add 9) [S1 7; Wd 2; S0 10];
  Round [g;h;a;b;c;d;e;f] 0xc24b8b70 (Add 10) [S1 8; Wd 3; S0 11];
  Round [f;g;h;a;b;c;d;e] 0xc76c51a3 (Add 11) [S1 9; Wd 4; S0 12];
  Round [e;f;g;h;a;b;c;d] 0xd192e819 (Add 12) [S1 10; Wd 5; S0 13];
  Round [d;e;f;g;h;a;b;c] 0xd6990624 (Add 13) [S1 11; Wd 6; S0 14];
  Round [c;d;e;f;g;h;a;b] 0xf40e3585 (Add 14) [S1 12; Wd 7; S0 15];
  Round [b;c;d;e;f;g;h;a] 0x106aa070 (Add 15) [S1 13; Wd 8; S0 0];
  Round [a;b;c;d;e;f;g;h] 0x19a4c116 (Add 0) [S1 14; Wd 9; S0 1];
  Round [h;a;b;c;d;e;f;g] 0x1e376c08 (Add 1) [S1 15; Wd 10; S0 2];
  Round [g;h;a;b;c;d;e;f] 0x2748774c (Add 2) [S1 0; Wd 11; S0 3];
  Round [f;g;h;a;b;c;d;e] 0x34b0bcb5 (Add 3) [S1 1; Wd 12; S0 4];
  Round [e;f;g;h;a;b;c;d] 0x391c0cb3 (Add 4) [S1 2; Wd 13; S0 5];
  Round [d;e;f;g;h;a;b;c] 0x4ed8aa4a (Add 5) [S1 3; Wd 14; S0 6];
  Round [c;d;e;f;g;h;a;b] 0x5b9cca4f (Add 6) [S1 4; Wd 15; S0 7];
  Round [b;c;d;e;f;g;h;a] 0x682e6ff3 (Add 7) [S1 5; Wd 0; S0 8];
  Round [a;b;c;d;e;f;g;h] 0x748f82ee (Add 8) [S1 6; Wd 1; S0 9];
  Round [h;a;b;c;d;e;f;g] 0x78a5636f (Add 9) [S1 7; Wd 2; S0 10];
  Round [g;h;a;b;c;d;e;f] 0x84c87814 (Add 10) [S1 8; Wd 3; S0 11];
  Round [f;g;h;a;b;c;d;e] 0x8cc70208 (Add 11) [S1 9; Wd 4; S0 12];
  Round [e;f;g;h;a;b;c;d] 0x90befffa (Add 12) [S1 10; Wd 5; S0 13];
  Round [d;e;f;g;h;a;b;c] 0xa4506ceb (Add 13) [S1 11; Wd 6; S0 14];
  Round [c;d;e;f;g;h;a;b] 0xbef9a3f7 (Keep) [Wd 14; S1 12; Wd 7; S0 15];
  Round [b;c;d;e;f;g;h;a] 0xc67178f2 (Keep) [Wd 15; S1 13; Wd 8; S0 0]].

Definition sha512_rounds : list line := [
  Round [a;b;c;d;e;f;g;h] 0x428a2f98d728ae22 (Assign 0) [In 0];
  Round [h;a;b;c;d;e;f;g] 0x7137449123ef65cd (Assign 1) [In 8];
  Round [g;h;a;b;c;d;e;f] 0xb5c0fbcfec4d3b2f (Assign 2) [In 16];
  Round [f;g;h;a;b;c;d;e] 0xe9b5dba58189dbbc (Assign 3) [In 24];
  Round [e;f;g;h;a;b;c;d] 0x3956c25bf348b538 (Assign 4) [In 32];
  Round [d;e;f;g;h;a;b;c] 0x59f111f1b605d019 (Assign 5) [In 40];
  Round [c;d;e;f;g;h;a;b] 0x923f82a4af194f9b (Assign 6) [In 48];
  Round [b;c;d;e;f;g;h;a] 0xab1c5ed5da6d8118 (Assign 7) [In 56];
  Round [a;b;c;d;e;f;g;h] 0xd807aa98a3030242 (Assign 8) [In 64];
  Round [h;a;b;c;d;e;f;g] 0x12835b0145706fbe (Assign 9) [In 72];
  Round [g;h;a;b;c;d;e;f] 0x243185be4ee4b28c (Assign 10) [In 80];
  Round [f;g;h;a;b;c;d;e] 0x550c7dc3d5ffb4e2 (Assign 11) [In 88];
  Round [e;f;g;h;a;b;c;d] 0x72be5d74f27b896f (Assign 12) [In 96];
  Round [d;e;f;g;h;a;b;c] 0x80deb1fe3b1696b1 (Assign 13) [In 104];
  Round [c;d;e;f;g;h;a;b] 0x9bdc06a725c71235 (Assign 14) [In 112];
  Round [b;c;d;e;f;g;h;a] 0xc19bf174cf692694 (Assign 15) [In 120];
  Round [a;b;c;d;e;f;g;h] 0xe49b69c19ef14ad2 (Add 0) [S1 14; Wd 9; S0 1];
  Round [h;a;b;c;d;e;f;g] 0xefbe4786384f25e3 (Add 1) [S1 15; Wd 10; S0 2];
  Round [g;h;a;b;c;d;e;f] 0x0fc19dc68b8cd5b5 (Add 2) [S1 0; Wd 11; S0 3];
  Round [f;g;h;a;b;c;d;e] 0x240ca1cc77ac9c65 (Add 3) [S1 1; Wd 12; S0 4];
  Round [e;f;g;h;a;b;c;d] 0x2de92c6f592b0275 (Add 4) [S1 2; Wd 13; S0 5];
  Round [d;e;f;g;h;a;b;c] 0x4a7484aa6ea6e483 (Add 5) [S1 3; Wd 14; S0 6];
  Round [c;d;e;f;g;h;a;b] 0x5cb0a9dcbd41fbd4 (Add 6) [S1 4; Wd 15; S0 7];
  Round [b;c;d;e;f;g;h;a] 0x76f988da831153b5 (Add 7) [S1 5; Wd 0; S0 8];
  Round [a;b;c;d;e;f;g;h] 0x983e5152ee66dfab (Add 8) [S1 6; Wd 1; S0 9];
  Round [h;a;b;c;d;e;f;g] 0xa831c66d2db43210 (Add 9) [S1 7; Wd 2; S0 10];
  Round [g;h;a;b;c;d;e;f] 0xb00327c898fb213f (Add 10) [S1 8; Wd 3; S0 11];
  Round [f;g;h;a;b;c;d;e] 0xbf597fc7beef0ee4 (Add 11) [S1 9; Wd 4; S0 12];
  Round [e;f;g;h;a;b;c;d] 0xc6e00bf33da88fc2 (Add 12) [S1 10; Wd 5; S0 13];
  Round [d;e;f;g;h;a;b;c] 0xd5a79147930aa725 (Add 13) [S1 11; Wd 6; S0 14];
  Round [c;d;e;f;g;h;a;b] 0x06ca6351e003826f (Add 14) [S1 12; Wd 7; S0 15];
  Round [b;c;d;e;f;g;h;a] 0x142929670a0e6e70 (Add 15) [S1 13; Wd 8; S0 0];
  Round [a;b;c;d;e;f;g;h] 0x27b70a8546d22ffc (Add 0) [S1 14; Wd 9; S0 1];
  Round [h;a;b;c;d;e;f;g] 0x2e1b21385c26c926 (Add 1) [S1 15; Wd 10; S0 2];
  Round [g;h;a;b;c;d;e;f] 0x4d2c6dfc5ac42aed (Add 2) [S1 0; Wd 11; S0 3];
  Round [f;g;h;a;b;c;d;e] 0x53380d139d95b3df (Add 3) [S1 1; Wd 12; S0 4];
  Round [e;f;g;h;a;b;c;d] 0x650a73548baf63de (Add 4) [S1 2; Wd 13; S0 5];
  Round [d;e;f;g;h;a;b;c] 0x766a0abb3c77b2a8 (Add 5) [S1 3; Wd 14; S0 6];
  Round [c;d;e;f;g;h;a;b] 0x81c2c92e47edaee6 (Add 6) [S1 4; Wd 15; S0 7];
  Round [b;c;d;e;f;g;h;a] 0x92722c851482353b (Add 7) [S1 5; Wd 0; S0 8];
  Round [a;b;c;d;e;f;g;h] 0xa2bfe8a14cf10364 (Add 8) [S1 6; Wd 1; S0 9];
  Round [h;a;b;c;d;e;f;g] 0xa81a664bbc423001 (Add 9) [S1 7; Wd 2; S0 10];
  Round [g;h;a;b;c;d;e;f] 0xc24b8b70d0f89791 (Add 10) [S1 8; Wd 3; S0 11];
  Round [f;g;h;a;b;c;d;e] 0xc76c51a30654be30 (Add 11) [S1 9; Wd 4; S0 12];
  Round [e;f;g;h;a;b;c;d] 0xd192e819d6ef5218 (Add 12) [S1 10; Wd 5; S0 13];
  Round [d;e;f;g;h;a;b;c] 0xd69906245565a910 (Add 13) [S1 11; Wd 6; S0 14];
  Round [c;d;e;f;g;h;a;b] 0xf40e35855771202a (Add 14) [S1 12; Wd 7; S0 15];
  Round [b;c;d;e;f;g;h;a] 0x106aa07032bbd1b8 (Add 15) [S1 13; Wd 8; S0 0];
  Round [a;b;c;d;e;f;g;h] 0x19a4c116b8d2d0c8 (Add 0) [S1 14; Wd 9; S0 1];
  Round [h;a;b;c;d;e;f;g] 0x1e376c085141ab53 (Add 1) [S1 15; Wd 10; S0 2];
  Round [g;h;a;b;c;d;e;f] 0x2748774cdf8eeb99 (Add 2) [S1 0; Wd 11; S0 3];
  Round [f;g;h;a;b;c;d;e] 0x34b0bcb5e19b48a8 (Add 3) [S1 1; Wd 12; S0 4];
  Round [e;f;g;h;a;b;c;d] 0x391c0cb3c5c95a63 (Add 4) [S1 2; Wd 13; S0 5];
  Round [d;e;f;g;h;a;b;c] 0x4ed8aa4ae3418acb (Add 5) [S1 3; Wd 14; S0 6];
  Round [c;d;e;f;g;h;a;b] 0x5b9cca4f7763e373 (Add 6) [S1 4; Wd 15; S0 7];
  Round [b;c;d;e;f;g;h;a] 0x682e6ff3d6b2b8a3 (Add 7) [S1 5; Wd 0; S0 8];
  Round [a;b;c;d;e;f;g;h] 0x748f82ee5defb2fc (Add 8) [S1 6; Wd 1; S0 9];
  Round [h;a;b;c;d;e;f;g] 0x78a5636f43172f60 (Add 9) [S1 7; Wd 2; S0 10];
  Round [g;h;a;b;c;d;e;f] 0x84c87814a1f0ab72 (Add 10) [S1 8; Wd 3; S0 11];
  Round [f;g;h;a;b;c;d;e] 0x8cc702081a6439ec (Add 11) [S1 9; Wd 4; S0 12];
  Round [e;f;g;h;a;b;c;d] 0x90befffa23631e28 (Add 12) [S1 10; Wd 5; S0 13];
  Round [d;e;f;g;h;a;b;c] 0xa4506cebde82bde9 (Add 13) [S1 11; Wd 6; S0 14];
  Round [c;d;e;f;g;h;a;b] 0xbef9a3f7b2c67915 (Add 14) [S1 12; Wd 7; S0 15];
  Round [b;c;d;e;f;g;h;a] 0xc67178f2e372532b (Add 15) [S1 13; Wd 8; S0 0];
  Round [a;b;c;d;e;f;g;h] 0xca273eceea26619c (Add 0) [S1 14; Wd 9; S0 1];
  Round [h;a;b;c;d;e;f;g] 0xd186b8c721c0c207 (Add 1) [S1 15; Wd 10; S0 2];
  Round [g;h;a;b;c;d;e;f] 0xeada7dd6cde0eb1e (Add 2) [S1 0; Wd 11; S0 3];
  Round [f;g;h;a;b;c;d;e] 0xf57d4f7fee6ed178 (Add 3) [S1 1; Wd 12; S0 4];
  Round [e;f;g;h;a;b;c;d] 0x06f067aa72176fba (Add 4) [S1 2; Wd 13; S0 5];
  Round [d;e;f;g;h;a;b;c] 0x0a637dc5a2c898a6 (Add 5) [S1 3; Wd 14; S0 6];
  Round [c;d;e;f;g;h;a;b] 0x113f9804bef90dae (Add 6) [S1 4; Wd 15; S0 7];
  Round [b;c;d;e;f;g;h;a] 0x1b710b35131c471b (Add 7) [S1 5; Wd 0; S0 8];
  Round [a;b;c;d;e;f;g;h] 0x28db77f523047d84 (Add 8) [S1 6; Wd 1; S0 9];
  Round [h;a;b;c;d;e;f;g] 0x32caab7b40c72493 (Add 9) [S1 7; Wd 2; S0 10];
  Round [g;h;a;b;c;d;e;f] 0x3c9ebe0a15c9bebc (Add 10) [S1 8; Wd 3; S0 11];
  Round [f;g;h;a;b;c;d;e] 0x431d67c49c100d4c (Add 11) [S1 9; Wd 4; S0 12];
  Round [e;f;g;h;a;b;c;d] 0x4cc5d4becb3e42b6 (Add 12) [S1 10; Wd 5; S0 13];
  Round [d;e;f;g;h;a;b;c] 0x597f299cfc657e2a (Add 13) [S1 11; Wd 6; S0 14];
  Round [c;d;e;f;g;h;a;b] 0x5fcb6fab3ad6faec (Keep) [Wd 14; S1 12; Wd 7; S0 15];
  Round [b;c;d;e;f;g;h;a] 0x6c44198c4a475817 (Keep) [Wd 15; S1 13; Wd 8; S0 0]].
End Rounds.

(** ** The compression functions *)

Definition sha256_Initialize : list Z :=
  [0x6a09e667; 0xbb67ae85; 0x3c6ef372; 0xa54ff53a; 0x510e527f; 0x9b05688c; 0x1f83d9ab; 0x5be0cd19].

(** One block: the schedule words are declared without a value. *)
Definition sha256_Transform (s : list Z) (chunk : bytes) : list Z :=
  add_state sha256 s (run_lines sha256 chunk sha256_rounds s (repeat 0 16)).1.

Definition sha512_Initialize : list Z :=
  [0x6a09e667f3bcc908; 0xbb67ae8584caa73b; 0x3c6ef372fe94f82b; 0xa54ff53a5f1d36f1;
   0x510e527fade682d1; 0x9b05688c2b3e6c1f; 0x1f83d9abfb41bd6b; 0x5be0cd19137e2179].

Definition sha512_Transform (s : list Z) (chunk : bytes) : list Z :=
  add_state sha512 s (run_lines sha512 chunk sha512_rounds s (repeat 0 16)).1.

(** [TransformD64]: the double hash of 64 bytes. *)
Definition TransformD64 (input : bytes) : bytes :=
  let '(s, _) := run_lines sha256 input d64_rounds1 sha256_Initialize (repeat 0 16) in
  let t := add_state sha256 s sha256_Initialize in
  let '(s, _) := run_lines sha256 input d64_rounds2 t (repeat 0 16) in
  let w := add_state sha256 t s ++ repeat 0 8 in
  let '(s, _) := run_lines sha256 input d64_rounds3 sha256_Initialize w in
  concat (map (write_be sha256) (add_state sha256 s sha256_Initialize)).

Definition pad_block1 : bytes := 0x80 :: repeat 0 61 ++ [2; 0].

(** [TransformD64Wrapper] over any one-block transform. *)
Definition TransformD64Wrapper (tr : list Z -> bytes -> list Z) (input : bytes) : bytes :=
  let s := tr sha256_Initialize input in
  let s := tr s pad_block1 in
  let buffer2 := concat (map (write_be sha256) s) ++ 0x80 :: repeat 0 29 ++ [1; 0] in
  let s := tr sha256_Initialize buffer2 in
  concat (map (write_be sha256) s).

(** ** The hashers *)

#[global] Instance CSHA256 : BlockHash := {|
  bh_state := list Z; bh_block := 64; bh_sizedesc := 8;
  bh_Initialize := sha256_Initialize; bh_Transform := sha256_Transform;
  bh_size z := rev (le_bytes 8 z);
  bh_output s := concat (map (write_be sha256) s) |}.

Definition CSHA512 : BlockHash := {|
  bh_state := list Z; bh_block := 128; bh_sizedesc := 16;
  bh_Initialize := sha512_Initialize; bh_Transform := sha512_Transform;
  bh_size z := repeat 0 8 ++ rev (le_bytes 8 z);
  bh_output s := concat (map (write_be sha512) s) |}.

(** ** FIPS 180-4 *)

Section Fips.
Variable P : sha2.
Abbreviation wrap := (wrap P).

Definition fips_Ch (x y z : Z) : Z := Z.lxor (Z.land x y) (Z.land (Z.lnot x) z).
Definition fips_Maj (x y z : Z) : Z := Z.lxor (Z.lxor (Z.land x y) (Z.land x z)) (Z.land y z).

(** The words that follow a window of sixteen. *)
Fixpoint fips_schedule (n : nat) (win : list Z) : list Z :=
  match n with
  | O => []
  | S n =>
    let W t := nth t win 0 in
    let x := wrap (sigma P (small1 P) (W 14%nat) + W 9%nat + sigma P (small0 P) (W 1%nat) + W 0%nat) in
    x :: fips_schedule n (drop 1 win ++ [x])
  end.

Definition fips_step (s : list Z) (kw : Z * Z) : list Z :=
  match s with
  | [a; b; c; d; e; f; g; h] =>
    let T1 := wrap (h + Sigma P (big1 P) e + fips_Ch e f g + kw.1 + kw.2) in
    let T2 := wrap (Sigma P (big0 P) a + fips_Maj a b c) in
    [wrap (T1 + T2); a; b; c; wrap (d + T1); e; f; g]
  | _ => s
  end.

Definition fips_words (block : bytes) : list Z :=
  map (fun i => wrap (read_be P block (i * word_bytes P))) (seq 0 16).

Definition fips_compress (K : list Z) (s : list Z) (block : bytes) : list Z :=
  let m := fips_words block in
  add_state P s (fold_left fips_step (zip K (m ++ fips_schedule (length K - 16) m)) s).

(** *** The unrolled code in general form *)

(** The register of parameter [j] in a line whose number is [q] modulo 8. *)
Definition rot_args (q : nat) : list nat := map (fun j => (j + (8 - q)) mod 8)%nat (seq 0 8).
Definition regs_of (q : nat) (st : list Z) : list Z := map (fun i => nth ((i + q) mod 8)%nat st 0) (seq 0 8).

(** The schedule array when word [q] is the next one to be replaced. *)
Definition win_of (q : nat) (win : list Z) : list Z :=
  map (fun i => nth ((i + (16 - q)) mod 16)%nat win 0) (seq 0 16).

Definition line_load (i : nat) (k : Z) : line :=
  Round (rot_args (i mod 8)) k (Assign i) [In (i * word_bytes P)].
Definition line_extend (q : nat) (i : nat) (k : Z) : line :=
  Round (rot_args (i mod 8)) k (Add q)
    [S1 ((q + 14) mod 16)%nat; Wd ((q + 9) mod 16)%nat; S0 ((q + 1) mod 16)%nat].

Definition line_args (l : line) : list nat := match l with Round args _ _ _ => args end.

(** The words given to the rounds. *)
Fixpoint round_words (chunk : bytes) (ls : list line) (w : list Z) : list Z :=
  match ls with
  | [] => []
  | Round _ k st ts :: ls =>
    let '(v, w) := eval_store P chunk w st ts in
    wrap (k + v) :: round_words chunk ls w
  end.

Fixpoint run_rounds (args : list (list nat)) (ks : list Z) (s : list Z) : list Z :=
  match args, ks with
  | a :: args, k :: ks => run_rounds args ks (round P a k s)
  | _, _ => s
  end.

Lemma run_lines_rounds chunk ls : forall s w,
  (run_lines P chunk ls s w).1 = run_rounds (map line_args ls) (round_words chunk ls w) s.
Proof using Type.
  induction ls as [|[args k st ts] ls IH]; intros s w; [done|].
  cbn [run_lines round_words map run_rounds line_args]. destruct (eval_store P chunk w st ts) as [v w']. apply IH.
Qed.

(** One step in terms of the state: the registers move instead of the names. *)
Definition code_step (st : list Z) (k : Z) : list Z :=
  match st with
  | [a; b; c; d; e; f; g; h] =>
    let T1 := wrap (h + Sigma P (big1 P) e + Ch e f g + k) in
    let T2 := wrap (Sigma P (big0 P) a + Maj a b c) in
    [wrap (T1 + T2); a; b; c; wrap (d + T1); e; f; g]
  | _ => st
  end.

Lemma round_rot q st k : (q < 8)%nat -> length st = 8%nat ->
  round P (rot_args q) k (regs_of q st) = regs_of (S q mod 8) (code_step st k).
Proof using Type.
  intros Hq Hst. do 8 (destruct st as [|? st]; [done|]). destruct st; [|done].
  do 8 (destruct q as [|q]; [reflexivity|]). lia.
Qed.

Lemma code_step_length st k : length st = 8%nat -> length (code_step st k) = 8%nat.
Proof using Type. intros Hst. do 8 (destruct st as [|? st]; [done|]). by destruct st. Qed.

Lemma succ_mod8 q : (S q mod 8 = S (q mod 8) mod 8)%nat.
Proof using Type. change (S q) with (1 + q)%nat. by rewrite <- Nat.Div0.add_mod_idemp_r. Qed.

Lemma run_rounds_rot ks : forall q st, length st = 8%nat ->
  run_rounds (map (fun i => rot_args (i mod 8)) (seq q (length ks))) ks (regs_of (q mod 8) st) =
  regs_of ((q + length ks) mod 8) (fold_left code_step ks st).
Proof using Type.
  induction ks as [|k ks IH]; intros q st Hst; cbn [length seq map run_rounds fold_left].
  - by rewrite Nat.add_0_r.
  - rewrite round_rot by (done || apply Nat.mod_upper_bound; lia).
    rewrite <- succ_mod8, IH by (by apply code_step_length). do 2 f_equal. lia.
Qed.

Lemma Ch_fips x y z : Ch x y z = fips_Ch x y z.
Proof using Type.
  apply Z.bits_inj'. intros n Hn. unfold Ch, fips_Ch.
  rewrite !Z.lxor_spec, !Z.land_spec, Z.lxor_spec, Z.lnot_spec by done.
  by destruct (Z.testbit x n), (Z.testbit y n), (Z.testbit z n).
Qed.

Lemma Maj_fips x y z : Maj x y z = fips_Maj x y z.
Proof using Type.
  apply Z.bits_inj'. intros n Hn. unfold Maj, fips_Maj.
  rewrite !Z.lxor_spec, !Z.lor_spec, !Z.land_spec, Z.lor_spec.
  by destruct (Z.testbit x n), (Z.testbit y n), (Z.testbit z n).
Qed.

Lemma wrap_add_r x y : wrap (x + wrap y) = wrap (x + y).
Proof using Type. unfold Sha2.wrap. apply Zplus_mod_idemp_r. Qed.

Lemma code_step_fips st k w : code_step st (wrap (k + w)) = fips_step st (k, w).
Proof using Type.
  unfold code_step, fips_step. do 8 (destruct st as [|? st]; [done|]). destruct st; [|done].
  cbn [fst snd]. by rewrite !wrap_add_r, !Z.add_assoc, Ch_fips, Maj_fips.
Qed.

Lemma code_steps_fips K W st :
  fold_left code_step (zip_with (fun k w => wrap (k + w)) K W) st = fold_left fips_step (zip K W) st.
Proof using Type.
  revert W st. induction K as [|k K IH]; intros [|w W] st; [done..|].
  cbn [zip_with fold_left]. by rewrite code_step_fips, IH.
Qed.

(** *** The schedule *)

Lemma extend_step chunk q win k : (q < 16)%nat -> length win = 16%nat ->
  let x := nth 0 (fips_schedule 1 win) 0 in
  forall i, match line_extend q i k with
  | Round _ k' st ts => k' = k /\ eval_store P chunk (win_of q win) st ts =
      (x, win_of (S q mod 16) (drop 1 win ++ [x]))
  end.
Proof using Type.
  intros Hq Hw x i. split; [done|]. subst x.
  do 16 (destruct win as [|? win]; [done|]). destruct win; [|done]. cbn [fips_schedule nth].
  unfold eval_store, eval_terms. cbn [foldr eval_term].
  do 16 (destruct q as [|q]; [cbn; rewrite Z.add_0_r;
    match goal with |- (wrap ?a, _) = (wrap ?b, _) => replace a with b by lia end; reflexivity|]). lia.
Qed.

Fixpoint words_after (chunk : bytes) (ls : list line) (w : list Z) : list Z :=
  match ls with
  | [] => w
  | Round _ k st ts :: ls => words_after chunk ls (eval_store P chunk w st ts).2
  end.

Lemma round_words_app chunk l1 l2 : forall w,
  round_words chunk (l1 ++ l2) w = round_words chunk l1 w ++ round_words chunk l2 (words_after chunk l1 w).
Proof using Type.
  induction l1 as [|[args k st ts] l1 IH]; intros w; [done|].
  cbn [app round_words words_after]. destruct (eval_store P chunk w st ts) as [v w'] eqn:E. cbn [snd].
  by rewrite IH.
Qed.

Lemma words_after_length chunk ls : forall w, length (words_after chunk ls w) = length w.
Proof using Type.
  induction ls as [|[args k st ts] ls IH]; intros w; [done|]. cbn [words_after]. rewrite IH.
  destruct st; cbn [eval_store snd]; by rewrite ?length_insert.
Qed.

Lemma round_words_extend chunk K : forall i win, length win = 16%nat ->
  round_words chunk (zip_with (fun i k => line_extend (i mod 16) i k) (seq i (length K)) K) (win_of (i mod 16) win) =
  zip_with (fun k w => wrap (k + w)) K (fips_schedule (length K) win).
Proof using Type.
  induction K as [|k K IH]; intros i win Hw; [done|]. cbn [length seq zip_with round_words].
  pose proof (extend_step chunk (i mod 16) win k ltac:(apply Nat.mod_upper_bound; lia) Hw i) as Hs.
  cbv zeta in Hs. destruct (line_extend (i mod 16) i k) as [args k' st ts]. destruct Hs as [-> Hs].
  rewrite Hs. cbn [fips_schedule nth zip_with]. f_equal.
  assert (Hm : (S (i mod 16) mod 16 = S i mod 16)%nat).
  { change (S (i mod 16)) with (1 + i mod 16)%nat. by rewrite Nat.Div0.add_mod_idemp_r. }
  rewrite Hm. apply IH. rewrite length_app, length_drop, Hw. done.
Qed.

(** The first sixteen lines load the block. *)
Lemma round_words_load chunk ks w :
  length ks = 16%nat -> length w = 16%nat ->
  round_words chunk (zip_with line_load (seq 0 16) ks) w = zip_with (fun k x => wrap (k + x)) ks (fips_words chunk) /\
  words_after chunk (zip_with line_load (seq 0 16) ks) w = fips_words chunk.
Proof using Type.
  intros Hk Hw. do 16 (destruct w as [|? w]; [done|]). destruct w; [|done].
  do 16 (destruct ks as [|? ks]; [done|]). destruct ks; [|done].
  unfold fips_words. cbn [seq zip_with map].
  assert (E : forall i, wrap (read_be P chunk i + 0) = wrap (read_be P chunk i)) by (intros; f_equal; lia).
  split; cbn; rewrite !E; reflexivity.
Qed.

(** The last two sums are not stored, which no round can tell. *)
Lemma round_words_keep chunk w i k k' : length w = 16%nat ->
  round_words chunk [Round (rot_args (i mod 8)) k Keep [Wd 14; S1 12; Wd 7; S0 15];
                     Round (rot_args (S i mod 8)) k' Keep [Wd 15; S1 13; Wd 8; S0 0]] w =
  round_words chunk [line_extend 14 i k; line_extend 15 (S i) k'] w.
Proof using Type. intros Hw. do 16 (destruct w as [|? w]; [done|]). by destruct w. Qed.

Lemma rounds_but_two chunk ls gen n i k k' w :
  ls = take n gen ++ [Round (rot_args (i mod 8)) k Keep [Wd 14; S1 12; Wd 7; S0 15];
                      Round (rot_args (S i mod 8)) k' Keep [Wd 15; S1 13; Wd 8; S0 0]] ->
  drop n gen = [line_extend 14 i k; line_extend 15 (S i) k'] ->
  length w = 16%nat -> round_words chunk ls w = round_words chunk gen w.
Proof using Type.
  intros -> Hd Hw. rewrite <- (take_drop n gen) at 2. rewrite Hd, !round_words_app. f_equal.
  apply round_words_keep. by rewrite words_after_length.
Qed.

(** The rounds in general form, for a table of constants. *)
Definition gen_lines (K : list Z) : list line :=
  zip_with line_load (seq 0 16) (take 16 K) ++
  zip_with (fun i k => line_extend (i mod 16) i k) (seq 16 (length (drop 16 K))) (drop 16 K).

Lemma length_fips_schedule n : forall win, length (fips_schedule n win) = n.
Proof using Type. induction n; intros; cbn; auto. Qed.

Lemma round_words_gen chunk K w : (16 <= length K)%nat -> length w = 16%nat ->
  round_words chunk (gen_lines K) w =
  zip_with (fun k x => wrap (k + x)) K (fips_words chunk ++ fips_schedule (length K - 16) (fips_words chunk)).
Proof using Type.
  intros HK Hw. do 16 (destruct K as [|? K]; [cbn in HK; lia|]). clear HK. unfold gen_lines.
  cbn [take drop length Nat.sub]. rewrite take_0, drop_0, Nat.sub_0_r, round_words_app.
  pose proof (round_words_load chunk [z; z0; z1; z2; z3; z4; z5; z6; z7; z8; z9; z10; z11; z12; z13; z14] w eq_refl Hw) as [H1 H2].
  rewrite H1, H2. set (ks16 := [z; z0; z1; z2; z3; z4; z5; z6; z7; z8; z9; z10; z11; z12; z13; z14]).
  change (z :: z0 :: z1 :: z2 :: z3 :: z4 :: z5 :: z6 :: z7 :: z8 :: z9 :: z10 :: z11 :: z12 :: z13 :: z14 :: K)
    with (ks16 ++ K).
  rewrite zip_with_app by done. f_equal.
  pose proof (round_words_extend chunk K 16 (fips_words chunk) eq_refl) as H3. exact H3.
Qed.

(** The whole compression, given that the table is in general form. *)
Lemma gen_lines_compress K lines s chunk w :
  length K = 64%nat \/ length K = 80%nat -> length s = 8%nat -> length w = 16%nat ->
  map line_args lines = map (fun i => rot_args (i mod 8)) (seq 0 (length K)) ->
  (forall w', length w' = 16%nat -> round_words chunk lines w' = round_words chunk (gen_lines K) w') ->
  add_state P s (run_lines P chunk lines s w).1 = fips_compress K s chunk.
Proof using Type.
  intros HK Hs Hw Hargs Hwords. unfold fips_compress. f_equal.
  rewrite run_lines_rounds, Hargs, Hwords, round_words_gen by (done || lia).
  set (W := fips_words chunk ++ _).
  assert (HW : length W = length K).
  { subst W. rewrite length_app, length_fips_schedule. unfold fips_words. rewrite length_map, length_seq. lia. }
  set (ks := zip_with _ K W).
  assert (Hks : length ks = length K) by (subst ks; rewrite length_zip_with; lia).
  assert (H0 : regs_of 0 s = s) by (do 8 (destruct s as [|? s]; [done|]); by destruct s).
  pose proof (run_rounds_rot ks 0 s Hs) as Hr. rewrite Hks in Hr.
  change (0 mod 8)%nat with 0%nat in Hr. rewrite H0 in Hr. rewrite Hr.
  replace ((0 + length K) mod 8)%nat with 0%nat by (destruct HK as [-> | ->]; reflexivity).
  subst ks. rewrite code_steps_fips.
  assert (Hl : forall l st, length st = 8%nat -> length (fold_left fips_step l st) = 8%nat).
  { induction l as [|x l IH]; intros st Hst; [done|]. cbn [fold_left]. apply IH.
    do 8 (destruct st as [|? st]; [done|]). by destruct st. }
  specialize (Hl (zip K W) s Hs). set (r := fold_left fips_step _ s) in *.
  do 8 (destruct r as [|? r]; [done|]). by destruct r.
Qed.
End Fips.

(** The constants of the standard: the first bits of the fractional parts of
    the cube roots (round constants) and square roots (initial state) of the
    first primes. *)
Definition primes : list Z :=
  filter (fun n => forallb (fun d => negb (n mod d =? 0)) (map Z.of_nat (seq 2 (Z.to_nat n - 2))))
    (map Z.of_nat (seq 2 408)).

Fixpoint cbrt_loop (fuel : nat) (x r bit : Z) : Z :=
  match fuel with
  | O => r
  | S fuel =>
    let r' := r + bit in
    cbrt_loop fuel x (if r' * r' * r' <=? x then r' else r) (bit / 2)
  end.
Definition cbrt (x : Z) : Z := cbrt_loop 80 x 0 (2 ^ 79).

Definition fips_K (bits : Z) (n : nat) : list Z :=
  map (fun p => cbrt (p * 2 ^ (3 * bits)) mod 2 ^ bits) (take n primes).
Definition fips_init (bits : Z) : list Z :=
  map (fun p => Z.sqrt (p * 2 ^ (2 * bits)) mod 2 ^ bits) (take 8 primes).

Definition K256 : list Z := Eval vm_compute in fips_K 32 64.
Definition K512 : list Z := Eval vm_compute in fips_K 64 80.

Lemma sha256_rounds_gen chunk w : length w = 16%nat ->
  round_words sha256 chunk sha256_rounds w = round_words sha256 chunk (gen_lines sha256 K256) w.
Proof.
  apply (rounds_but_two sha256 chunk _ _ 62 62 0xbef9a3f7 0xc67178f2); vm_compute; reflexivity.
Qed.

Lemma sha512_rounds_gen chunk w : length w = 16%nat ->
  round_words sha512 chunk sha512_rounds w = round_words sha512 chunk (gen_lines sha512 K512) w.
Proof.
  apply (rounds_but_two sha512 chunk _ _ 78 78 0x5fcb6fab3ad6faec 0x6c44198c4a475817); vm_compute; reflexivity.
Qed.

Lemma sha256_Transform_fips s chunk : length s = 8%nat ->
  sha256_Transform s chunk = fips_compress sha256 K256 s chunk.
Proof.
  intros Hs. apply gen_lines_compress; [by left|done|done|vm_compute; reflexivity|apply sha256_rounds_gen].
Qed.

Lemma sha512_Transform_fips s chunk : length s = 8%nat ->
  sha512_Transform s chunk = fips_compress sha512 K512 s chunk.
Proof.
  intros Hs. apply gen_lines_compress; [by right|done|done|vm_compute; reflexivity|apply sha512_rounds_gen].
Qed.

(** ** The specialised double hash *)

Lemma round_words_step P chunk args args' k st ts st' ts' L1 L2 wA wB v wA' wB' :
  eval_store P chunk wA st ts = (v, wA') -> eval_store P chunk wB st' ts' = (v, wB') ->
  round_words P chunk L1 wA' = round_words P chunk L2 wB' ->
  round_words P chunk (Round args k st ts :: L1) wA = round_words P chunk (Round args' k st' ts' :: L2) wB.
Proof. intros E1 E2 E. cbn [round_words]. by rewrite E1, E2, E. Qed.

Definition reads_chunk (l : line) : bool :=
  match l with Round _ _ _ ts => existsb (fun t => match t with In _ => true | _ => false end) ts end.

Lemma round_words_chunk P c c' ls : forall w, forallb (fun l => negb (reads_chunk l)) ls = true ->
  round_words P c ls w = round_words P c' ls w.
Proof.
  induction ls as [|[args k st ts] ls IH]; intros w Hl; [done|]. apply andb_prop in Hl as [Hl1 Hl].
  cbn [round_words].
  assert (E : eval_store P c w st ts = eval_store P c' w st ts).
  { unfold eval_store. assert (Et : eval_terms P c w ts = eval_terms P c' w ts); [|by rewrite Et].
    clear -Hl1. cbn [reads_chunk] in Hl1. induction ts as [|t ts IH]; [done|].
    cbn [existsb] in Hl1. apply negb_true_iff, orb_false_iff in Hl1 as [Ht Hts].
    cbn [eval_terms foldr]. f_equal; [by destruct t|]. apply IH. by apply negb_true_iff. }
  rewrite E. destruct (eval_store P c' w st ts). f_equal. by apply IH.
Qed.

(** The sums of the padding words that the third transform has folded. *)
Create HintDb d64.
Lemma s0_0 : sigma sha256 (small0 sha256) 0 = 0. Proof. reflexivity. Qed.
Lemma s1_0 : sigma sha256 (small1 sha256) 0 = 0. Proof. reflexivity. Qed.
Lemma s0_80 : sigma sha256 (small0 sha256) 0x80000000 = 0x11002000. Proof. reflexivity. Qed.
Lemma s0_100 : sigma sha256 (small0 sha256) 0x100 = 0x400022. Proof. reflexivity. Qed.
Lemma s1_100 : sigma sha256 (small1 sha256) 0x100 = 0xa00000. Proof. reflexivity. Qed.
#[local] Hint Rewrite s0_0 s1_0 s0_80 s0_100 s1_100 : d64.

Ltac d64_step :=
  eapply round_words_step;
  [ cbn [eval_store eval_terms foldr eval_term nth insert list_insert]; reflexivity
  | cbn [eval_store eval_terms foldr eval_term nth insert list_insert];
    match goal with |- (?x, _) = (?v, _) => cut (x = v); [let E := fresh in intros E; try rewrite E; reflexivity|] end;
    autorewrite with d64; f_equal; lia
  | match goal with |- context [wrap sha256 ?e] => generalize (wrap sha256 e); intros ? end ].

Lemma d64_third_words c c' w0 w1 w2 w3 w4 w5 w6 w7 :
  round_words sha256 c (drop 16 d64_rounds3) ([w0; w1; w2; w3; w4; w5; w6; w7] ++ repeat 0 8) =
  round_words sha256 c' (drop 16 sha256_rounds)
    [w0; w1; w2; w3; w4; w5; w6; w7; 0x80000000; 0; 0; 0; 0; 0; 0; 0x100].
Proof.
  rewrite (round_words_chunk sha256 c' c (drop 16 sha256_rounds)) by (vm_compute; reflexivity).
  cbn [app repeat]. unfold d64_rounds3, sha256_rounds. cbn [drop].
  do 16 d64_step. reflexivity.
Qed.

(** ** The hashers satisfy the streaming laws *)

#[global] Instance CSHA256_ok : BlockHashOk CSHA256.
Proof.
  split; [cbn; lia|exists (2 ^ 58); reflexivity|]. intros z. cbn [bh_size bh_sizedesc CSHA256].
  by rewrite length_rev, length_le_bytes.
Qed.

#[global] Instance CSHA512_ok : BlockHashOk CSHA512.
Proof.
  split; [cbn; lia|exists (2 ^ 57); reflexivity|]. intros z. cbn [bh_size bh_sizedesc CSHA512].
  by rewrite length_app, length_rev, length_le_bytes.
Qed.

Abbreviation SHA256 := (@digest CSHA256).

Lemma add_state_length P s t : length (add_state P s t) = Nat.min (length s) (length t).
Proof. apply length_zip_with. Qed.

Lemma run_lines_length P c ls : forall s w, length s = 8%nat -> length (run_lines P c ls s w).1 = 8%nat.
Proof.
  induction ls as [|[args k st ts] ls IH]; intros s w Hs; [done|]. cbn [run_lines].
  destruct (eval_store P c w st ts). apply IH. unfold round. by rewrite !length_insert.
Qed.

Lemma sha256_Transform_length s c : length s = 8%nat -> length (sha256_Transform s c) = 8%nat.
Proof. intros Hs. unfold sha256_Transform. rewrite add_state_length, run_lines_length by done. lia. Qed.

Lemma sha512_Transform_length s c : length s = 8%nat -> length (sha512_Transform s c) = 8%nat.
Proof. intros Hs. unfold sha512_Transform. rewrite add_state_length, run_lines_length by done. lia. Qed.

Lemma add_state_comm P s t : add_state P s t = add_state P t s.
Proof.
  unfold add_state. revert t. induction s as [|x s IH]; intros [|y t]; [done..|]. cbn. by rewrite IH, Z.add_comm.
Qed.

Lemma d64_first input :
  add_state sha256 (run_lines sha256 input d64_rounds1 sha256_Initialize (repeat 0 16)).1 sha256_Initialize =
  sha256_Transform sha256_Initialize input.
Proof.
  rewrite add_state_comm. replace d64_rounds1 with sha256_rounds by (vm_compute; reflexivity).
  unfold sha256_Transform. reflexivity.
Qed.

Lemma d64_second input t :
  add_state sha256 t (run_lines sha256 input d64_rounds2 t (repeat 0 16)).1 = sha256_Transform t pad_block1.
Proof.
  unfold sha256_Transform. rewrite !run_lines_rounds.
  assert (Ea : map line_args d64_rounds2 = map line_args sha256_rounds) by (vm_compute; reflexivity).
  assert (Ek : round_words sha256 input d64_rounds2 (repeat 0 16) =
    round_words sha256 pad_block1 sha256_rounds (repeat 0 16)) by (vm_compute; reflexivity).
  rewrite Ea, Ek. reflexivity.
Qed.

Lemma length_write_be P z : length (write_be P z) = word_bytes P.
Proof. unfold write_be. by rewrite length_rev, length_le_bytes. Qed.

Lemma read_be_concat P l rest : forall i x, l !! i = Some x ->
  take (word_bytes P) (drop (i * word_bytes P) (concat (map (write_be P) l) ++ rest)) = write_be P x.
Proof.
  induction l as [|y l IH]; intros [|i] x Hi; [done..| |]; cbn [map concat].
  - injection Hi as ->. cbn [Nat.mul]. rewrite drop_0, <- app_assoc, take_app_length'; [done|].
    by rewrite length_write_be.
  - rewrite <- app_assoc, drop_app_ge by (rewrite length_write_be; lia).
    rewrite length_write_be. replace (S i * word_bytes P - word_bytes P)%nat with (i * word_bytes P)%nat by lia.
    by apply IH.
Qed.

Lemma length_write_words P l : length (concat (map (write_be P) l)) = (length l * word_bytes P)%nat.
Proof. induction l as [|x l IH]; [done|]. cbn [map concat length]. rewrite length_app, length_write_be, IH. lia. Qed.

Lemma digest_blocks_length (H : BlockHash) (f : bh_state -> nat) k :
  (forall s c, f s = k -> f (bh_Transform s c) = k) ->
  forall n s l, f s = k -> f (digest_blocks n s l) = k.
Proof. intros HT. induction n as [|n IH]; intros s l Hs; [done|]. cbn. by apply IH, HT. Qed.

Lemma SHA256_length m : length (SHA256 m) = 32%nat.
Proof.
  unfold digest. cbn [bh_output CSHA256]. rewrite length_write_words.
  rewrite (digest_blocks_length CSHA256 length 8 sha256_Transform_length) by done. done.
Qed.

Lemma SHA512_length m : length (@digest CSHA512 m) = 64%nat.
Proof.
  unfold digest. cbn [bh_output CSHA512]. rewrite length_write_words.
  rewrite (digest_blocks_length CSHA512 length 8 sha512_Transform_length) by done. done.
Qed.

(** The words of a block that starts with eight written words. *)
Lemma fips_words_state s tail : length s = 8%nat -> Forall (fun z => wrap sha256 z = z) s ->
  fips_words sha256 (concat (map (write_be sha256) s) ++ tail) =
  s ++ map (fun i => wrap sha256 (read_be sha256 tail (i * 4))) (seq 0 8).
Proof.
  intros Hs Hw. unfold fips_words. change (seq 0 16) with (seq 0 8 ++ map (fun i => 8 + i)%nat (seq 0 8)).
  rewrite map_app, map_map. f_equal.
  - assert (Hr : forall i x, s !! i = Some x ->
      wrap sha256 (read_be sha256 (concat (map (write_be sha256) s) ++ tail) (i * 4)) = x).
    { intros i x Hi. unfold read_be. change (i * 4)%nat with (i * word_bytes sha256)%nat.
      rewrite (read_be_concat sha256 s tail i x Hi). unfold write_be. rewrite rev_involutive.
      assert (Hx : wrap sha256 x = x) by exact (Forall_lookup_1 _ _ _ _ Hw Hi).
      rewrite le_value_le_bytes. change (256 ^ Z.of_nat (word_bytes sha256)) with (2 ^ word_bits sha256).
      fold (wrap sha256 x). by rewrite !Hx. }
    do 8 (destruct s as [|? s]; [done|]). destruct s; [|done]. cbn [seq map].
    repeat (rewrite Hr with (i := 0%nat) (x := z) by done). repeat f_equal; by apply Hr.
  - apply map_ext. intros i. unfold read_be. do 3 f_equal. rewrite drop_app_ge.
    + do 2 f_equal. assert (Hc : length (concat (map (write_be sha256) s)) = 32%nat).
      { do 8 (destruct s as [|? s]; [done|]). destruct s; [|done]. cbn [map concat]. rewrite !length_app, !length_write_be. done. }
      rewrite Hc. change (word_bytes sha256) with 4%nat. lia.
    + do 8 (destruct s as [|? s]; [done|]). destruct s; [|done]. cbn [map concat].
      rewrite !length_app, !length_write_be. change (word_bytes sha256) with 4%nat. cbn [length]. lia.
Qed.

Lemma add_state_wrapped s t : Forall (fun z => wrap sha256 z = z) (add_state sha256 s t).
Proof.
  unfold add_state. revert t. induction s as [|x s IH]; intros [|y t]; cbn [zip_with]; constructor; [|apply IH].
  apply Z.mod_mod. cbn. lia.
Qed.

Definition tail_block2 : bytes := 0x80 :: repeat 0 29 ++ [1; 0].

Definition K256_16 : list Z := Eval vm_compute in take 16 K256.

(** The first sixteen rounds have the padding words added to their constants. *)
Lemma d64_third_load c w0 w1 w2 w3 w4 w5 w6 w7 :
  Forall (fun z => wrap sha256 z = z) [w0; w1; w2; w3; w4; w5; w6; w7] ->
  let w := [w0; w1; w2; w3; w4; w5; w6; w7] ++ repeat 0 8 in
  round_words sha256 c (take 16 d64_rounds3) w =
    zip_with (fun k x => wrap sha256 (k + x)) K256_16
      ([w0; w1; w2; w3; w4; w5; w6; w7] ++ [0x80000000; 0; 0; 0; 0; 0; 0; 0x100]) /\
  words_after sha256 c (take 16 d64_rounds3) w = w.
Proof.
  intros Hw w. subst w. repeat (apply list.Forall_cons in Hw as [? Hw]). split; [|reflexivity].
  unfold d64_rounds3, K256_16.
  cbn [take round_words eval_store eval_terms foldr eval_term nth app repeat zip_with]. rewrite !Z.add_0_r.
  repeat match goal with H : wrap sha256 ?x = ?x |- _ => rewrite H; clear H end.
  repeat apply (f_equal2 cons); reflexivity.
Qed.

Lemma d64_third_rounds c t : length t = 8%nat -> Forall (fun z => wrap sha256 z = z) t ->
  round_words sha256 c d64_rounds3 (t ++ repeat 0 8) =
  round_words sha256 (concat (map (write_be sha256) t) ++ tail_block2) sha256_rounds (repeat 0 16).
Proof.
  intros Ht Hw.
  assert (Hf : fips_words sha256 (concat (map (write_be sha256) t) ++ tail_block2) =
    t ++ [0x80000000; 0; 0; 0; 0; 0; 0; 0x100]).
  { rewrite fips_words_state by done. apply (f_equal2 app); [reflexivity|]. vm_compute. reflexivity. }
  revert Hf. generalize (concat (map (write_be sha256) t) ++ tail_block2). intros block Hf.
  assert (E2 : sha256_rounds = zip_with (line_load sha256) (seq 0 16) K256_16 ++ drop 16 sha256_rounds)
    by (vm_compute; reflexivity).
  rewrite E2, round_words_app. clear E2.
  destruct (round_words_load sha256 block K256_16 (repeat 0 16) eq_refl eq_refl) as [H1 H2]. rewrite H1, H2, Hf.
  rewrite <- (take_drop 16 d64_rounds3), round_words_app.
  do 8 (destruct t as [|? t]; [discriminate Ht|]). destruct t; [|discriminate Ht].
  destruct (d64_third_load c z z0 z1 z2 z3 z4 z5 z6 Hw) as [H3 H4]. cbv zeta in H3, H4. rewrite H3, H4.
  apply (f_equal2 app); [reflexivity|]. apply d64_third_words.
Qed.

Lemma d64_third input t : length t = 8%nat -> Forall (fun z => wrap sha256 z = z) t ->
  add_state sha256 (run_lines sha256 input d64_rounds3 sha256_Initialize (t ++ repeat 0 8)).1 sha256_Initialize =
  sha256_Transform sha256_Initialize (concat (map (write_be sha256) t) ++ tail_block2).
Proof.
  intros Ht Hw. rewrite add_state_comm. unfold sha256_Transform. rewrite !run_lines_rounds.
  assert (Ea : map line_args d64_rounds3 = map line_args sha256_rounds) by (vm_compute; reflexivity).
  rewrite Ea, (d64_third_rounds input t Ht Hw). reflexivity.
Qed.

(** A message of one block, and one of eight words. *)
Lemma SHA256_64 input : length input = 64%nat ->
  SHA256 input = concat (map (write_be sha256) (sha256_Transform (sha256_Transform sha256_Initialize input) pad_block1)).
Proof.
  intros Hl.
  assert (Hp : padded input = input ++ pad_block1).
  { unfold padded, padding. rewrite Hl. apply (f_equal2 app); [reflexivity|]. vm_compute. reflexivity. }
  unfold digest. rewrite Hp, length_app, Hl. change ((64 + length pad_block1) / bh_block)%nat with 2%nat.
  cbn [digest_blocks bh_block CSHA256 bh_Transform bh_Initialize bh_output].
  rewrite (take_app_length' input pad_block1), (drop_app_length' input pad_block1) by done. reflexivity.
Qed.

Lemma SHA256_state s : length s = 8%nat ->
  SHA256 (concat (map (write_be sha256) s)) =
  concat (map (write_be sha256) (sha256_Transform sha256_Initialize (concat (map (write_be sha256) s) ++ tail_block2))).
Proof.
  intros Hs. set (m := concat _).
  assert (Hm : length m = 32%nat).
  { subst m. do 8 (destruct s as [|? s]; [discriminate Hs|]). destruct s; [|discriminate Hs].
    cbn [map concat]. rewrite !length_app, !length_write_be. reflexivity. }
  assert (Hp : padded m = m ++ tail_block2).
  { unfold padded, padding. rewrite Hm. apply (f_equal2 app); [reflexivity|]. vm_compute. reflexivity. }
  unfold digest. rewrite Hp, length_app, Hm. change ((32 + length tail_block2) / bh_block)%nat with 1%nat.
  cbn [digest_blocks bh_block CSHA256 bh_Transform bh_Initialize bh_output].
  rewrite (take_ge (m ++ tail_block2)) by (rewrite length_app, Hm; cbn; lia). reflexivity.
Qed.

Lemma TransformD64Wrapper_SHA256 input : length input = 64%nat ->
  TransformD64Wrapper sha256_Transform input = SHA256 (SHA256 input).
Proof.
  intros Hl. rewrite (SHA256_64 input Hl), SHA256_state; [reflexivity|].
  do 2 apply sha256_Transform_length. reflexivity.
Qed.

Lemma TransformD64_SHA256 input : length input = 64%nat -> TransformD64 input = SHA256 (SHA256 input).
Proof.
  intros Hl. unfold TransformD64.
  pose proof (d64_first input) as H1.
  destruct (run_lines sha256 input d64_rounds1 _ _) as [s1 x1]. cbn [fst] in H1. rewrite H1.
  pose proof (d64_second input (sha256_Transform sha256_Initialize input)) as H2.
  destruct (run_lines sha256 input d64_rounds2 _ _) as [s2 x2]. cbn [fst] in H2. rewrite H2.
  set (t := sha256_Transform (sha256_Transform sha256_Initialize input) pad_block1).
  assert (Ht : length t = 8%nat) by (do 2 apply sha256_Transform_length; reflexivity).
  pose proof (d64_third input t Ht (add_state_wrapped _ _)) as H3.
  destruct (run_lines sha256 input d64_rounds3 _ _) as [s3 x3]. cbn [fst] in H3. rewrite H3.
  rewrite (SHA256_64 input Hl). symmetry. apply SHA256_state, Ht.
Qed.

(** C36: the SHA-2 code computes FIPS 180-4.  The unrolled rounds of SHA-256 and
    SHA-512, with rotated variable names, a rolling schedule of sixteen words
    and other formulas for Ch and Maj, equal the standard's compression function
    on every state and block; the round constants and initial states are the
    standard's, computed from roots of primes. *)
Theorem sha2_is_fips (s : list Z) (chunk : bytes) :
  length s = 8%nat ->
  sha256_Transform s chunk = fips_compress sha256 (fips_K 32 64) s chunk /\
  sha512_Transform s chunk = fips_compress sha512 (fips_K 64 80) s chunk /\
  sha256_Initialize = fips_init 32 /\ sha512_Initialize = fips_init 64.
Proof.
  intros Hs. replace (fips_K 32 64) with K256 by (vm_compute; reflexivity).
  replace (fips_K 64 80) with K512 by (vm_compute; reflexivity).
  split_and!; [by apply sha256_Transform_fips|by apply sha512_Transform_fips|vm_compute; reflexivity..].
Qed.

Lemma sha2_is_fips_witness :
  sha256_Transform sha256_Initialize (padded [97; 98; 99]) =
    fips_compress sha256 (fips_K 32 64) sha256_Initialize (padded [97; 98; 99]) /\
  SHA256 [97; 98; 99] =
    [0xba; 0x78; 0x16; 0xbf; 0x8f; 0x01; 0xcf; 0xea; 0x41; 0x41; 0x40; 0xde; 0x5d; 0xae; 0x22; 0x23;
     0xb0; 0x03; 0x61; 0xa3; 0x96; 0x17; 0x7a; 0x9c; 0xb4; 0x10; 0xff; 0x61; 0xf2; 0x00; 0x15; 0xad].
Proof.
  split; [|vm_compute; reflexivity].
  exact (proj1 (sha2_is_fips sha256_Initialize (padded [97; 98; 99]) eq_refl)).
Defined.

(** The specialised double hash of a 64-byte block (three transforms with
    the padding folded into round constants and a shortened schedule) and the
    wrapper used with the vectorised transforms both return the SHA-256 of the
    SHA-256 of the block. *)
Theorem TransformD64_double_sha (input : bytes) :
  length input = 64%nat ->
  TransformD64 input = SHA256 (SHA256 input) /\
  TransformD64Wrapper sha256_Transform input = SHA256 (SHA256 input).
Proof. intros Hl. split; [by apply TransformD64_SHA256|by apply TransformD64Wrapper_SHA256]. Qed.

Lemma TransformD64_double_sha_witness : TransformD64 (repeat 7 64) = SHA256 (SHA256 (repeat 7 64)).
Proof. exact (proj1 (TransformD64_double_sha (repeat 7 64) eq_refl)). Defined.

Lemma hash_streaming_witness :
  Finalize (fold_left Write [[97]; []; [98; 99]] (@hasher_init CSHA256 (repeat 0xcd 64))) = SHA256 [97; 98; 99].
Proof.
  exact (proj1 (hash_streaming (repeat 0xcd 64) [] [[97]; []; [98; 99]] eq_refl ltac:(cbn; lia))).
Defined.
