(* ===== verification/Hashes.v ===== *)
(** * SHA-1, RIPEMD-160 and the hashes built from them
      (src/src/crypto/sha1.cpp, ripemd160.cpp, hmac_sha256.cpp, hmac_sha512.cpp,
      src/src/hash.h, src/src/hash.cpp)

    The compression functions of SHA-1 and RIPEMD-160 as tables of rounds, the
    double hashes [CHash256] and [CHash160], HMAC, and MurmurHash3. *)
From S2P Require Import Prelude Serialize HashStream Sha2.
#[local] Open Scope Z_scope.

(** [(x << i) | (x >> (32 - i))] *)
Definition rol (x i : Z) : Z := Z.lor (u32 (Z.shiftl x i)) (Z.shiftr x (32 - i)).
Definition not32 (x : Z) : Z := u32 (Z.lnot x).

Definition ReadLE32 (chunk : bytes) (off : nat) : Z := le_value (take 4 (drop off chunk)).
Definition ReadBE32 (chunk : bytes) (off : nat) : Z := le_value (rev (take 4 (drop off chunk))).

(** ** SHA-1 *)

Inductive f_sha1 := F1 | F2 | F3.
Definition sha1_f (f : f_sha1) (b c d : Z) : Z :=
  match f with
  | F1 => Z.lxor d (Z.land b (Z.lxor c d))
  | F2 => Z.lxor (Z.lxor b c) d
  | F3 => Z.lor (Z.land b c) (Z.land d (Z.lor b c))
  end.

Definition k1 : Z := 0x5A827999.
Definition k2 : Z := 0x6ED9EBA1.
Definition k3 : Z := 0x8F1BBCDC.
Definition k4 : Z := 0xCA62C1D6.

(** [w = ReadBE32(chunk + off)], or [left] of four words, stored or not. *)
Inductive word1 := Load (i off : nat) | Mix (i : option nat) (ws : list nat).

(** [Round(args..., f(b, c, d), k, word)] *)
Inductive line1 := R1 (args : list nat) (f : f_sha1) (k : Z) (w : word1).

Definition eval_word1 (chunk : bytes) (w : list Z) (e : word1) : Z * list Z :=
  match e with
  | Load i off => let v := ReadBE32 chunk off in (v, <[i := v]> w)
  | Mix o ws =>
    let v := rol (fold_left Z.lxor (map (fun i => nth i w 0) (tail ws)) (nth (hd 0%nat ws) w 0)) 1 in
    (v, match o with Some i => <[i := v]> w | None => w end)
  end.

(** [e += ((a << 5) | (a >> 27)) + f + k + w; b = (b << 30) | (b >> 2)] *)
Definition sha1_round (args : list nat) (f : f_sha1) (k w : Z) (s : list Z) : list Z :=
  let r i := nth (nth i args 0%nat) s 0 in
  let e := u32 (r 4%nat + (rol (r 0%nat) 5 + sha1_f f (r 1%nat) (r 2%nat) (r 3%nat) + k + w)) in
  <[nth 1 args 0%nat := rol (r 1%nat) 30]> (<[nth 4 args 0%nat := e]> s).

Fixpoint sha1_run (chunk : bytes) (ls : list line1) (s w : list Z) : list Z :=
  match ls with
  | [] => s
  | R1 args f k e :: ls =>
    let '(v, w) := eval_word1 chunk w e in sha1_run chunk ls (sha1_round args f k v s) w
  end.

(** ** RIPEMD-160 *)

Definition ripemd_f (i : Z) (x y z : Z) : Z :=
  if i =? 1 then Z.lxor (Z.lxor x y) z
  else if i =? 2 then Z.lor (Z.land x y) (Z.land (not32 x) z)
  else if i =? 3 then Z.lxor (Z.lor x (not32 y)) z
  else if i =? 4 then Z.lor (Z.land x z) (Z.land y (not32 z))
  else Z.lxor x (Z.lor y (not32 z)).

(** A round of the left or the right line: the function, the constant, the
    variables, the message word and the rotation. *)
Record lineR := mkLineR { lr_right : bool; lr_f : Z; lr_k : Z; lr_args : list nat; lr_w : nat; lr_r : Z }.

Definition R11 := mkLineR false 1 0.
Definition R21 := mkLineR false 2 0x5A827999.
Definition R31 := mkLineR false 3 0x6ED9EBA1.
Definition R41 := mkLineR false 4 0x8F1BBCDC.
Definition R51 := mkLineR false 5 0xA953FD4E.
Definition R12 := mkLineR true 5 0x50A28BE6.
Definition R22 := mkLineR true 4 0x5C4DD124.
Definition R32 := mkLineR true 3 0x6D703EF3.
Definition R42 := mkLineR true 2 0x7A6D76E9.
Definition R52 := mkLineR true 1 0.

(** [a = rol(a + f + x + k, r) + e; c = rol(c, 10)] *)
Definition ripemd_round (l : lineR) (x : Z) (s : list Z) : list Z :=
  let r i := nth (nth i (lr_args l) 0%nat) s 0 in
  let f := ripemd_f (lr_f l) (r 1%nat) (r 2%nat) (r 3%nat) in
  let a := u32 (rol (u32 (r 0%nat + f + x + lr_k l)) (lr_r l) + r 4%nat) in
  <[nth 2 (lr_args l) 0%nat := rol (r 2%nat) 10]> (<[nth 0 (lr_args l) 0%nat := a]> s).

Fixpoint ripemd_run (w : list Z) (ls : list lineR) (s1 s2 : list Z) : list Z * list Z :=
  match ls with
  | [] => (s1, s2)
  | l :: ls =>
    let x := nth (lr_w l) w 0 in
    if lr_right l then ripemd_run w ls s1 (ripemd_round l x s2)
    else ripemd_run w ls (ripemd_round l x s1) s2
  end.

(** ** The rounds of the source *)

Section Rounds.
Import Reg.

Definition sha1_rounds : list line1 := [
  R1 [a;b;c;d;e] F1 k1 (Load 0 0);
  R1 [e;a;b;c;d] F1 k1 (Load 1 4);
  R1 [d;e;a;b;c] F1 k1 (Load 2 8);
  R1 [c;d;e;a;b] F1 k1 (Load 3 12);
  R1 [b;c;d;e;a] F1 k1 (Load 4 16);
  R1 [a;b;c;d;e] F1 k1 (Load 5 20);
  R1 [e;a;b;c;d] F1 k1 (Load 6 24);
  R1 [d;e;a;b;c] F1 k1 (Load 7 28);
  R1 [c;d;e;a;b] F1 k1 (Load 8 32);
  R1 [b;c;d;e;a] F1 k1 (Load 9 36);
  R1 [a;b;c;d;e] F1 k1 (Load 10 40);
  R1 [e;a;b;c;d] F1 k1 (Load 11 44);
  R1 [d;e;a;b;c] F1 k1 (Load 12 48);
  R1 [c;d;e;a;b] F1 k1 (Load 13 52);
  R1 [b;c;d;e;a] F1 k1 (Load 14 56);
  R1 [a;b;c;d;e] F1 k1 (Load 15 60);
  R1 [e;a;b;c;d] F1 k1 (Mix (Some 0%nat) [0; 13; 8; 2]%nat);
  R1 [d;e;a;b;c] F1 k1 (Mix (Some 1%nat) [1; 14; 9; 3]%nat);
  R1 [c;d;e;a;b] F1 k1 (Mix (Some 2%nat) [2; 15; 10; 4]%nat);
  R1 [b;c;d;e;a] F1 k1 (Mix (Some 3%nat) [3; 0; 11; 5]%nat);
  R1 [a;b;c;d;e] F2 k2 (Mix (Some 4%nat) [4; 1; 12; 6]%nat);
  R1 [e;a;b;c;d] F2 k2 (Mix (Some 5%nat) [5; 2; 13; 7]%nat);
  R1 [d;e;a;b;c] F2 k2 (Mix (Some 6%nat) [6; 3; 14; 8]%nat);
  R1 [c;d;e;a;b] F2 k2 (Mix (Some 7%nat) [7; 4; 15; 9]%nat);
  R1 [b;c;d;e;a] F2 k2 (Mix (Some 8%nat) [8; 5; 0; 10]%nat);
  R1 [a;b;c;d;e] F2 k2 (Mix (Some 9%nat) [9; 6; 1; 11]%nat);
  R1 [e;a;b;c;d] F2 k2 (Mix (Some 10%nat) [10; 7; 2; 12]%nat);
  R1 [d;e;a;b;c] F2 k2 (Mix (Some 11%nat) [11; 8; 3; 13]%nat);
  R1 [c;d;e;a;b] F2 k2 (Mix (Some 12%nat) [12; 9; 4; 14]%nat);
  R1 [b;c;d;e;a] F2 k2 (Mix (Some 13%nat) [13; 10; 5; 15]%nat);
  R1 [a;b;c;d;e] F2 k2 (Mix (Some 14%nat) [14; 11; 6; 0]%nat);
  R1 [e;a;b;c;d] F2 k2 (Mix (Some 15%nat) [15; 12; 7; 1]%nat);
  R1 [d;e;a;b;c] F2 k2 (Mix (Some 0%nat) [0; 13; 8; 2]%nat);
  R1 [c;d;e;a;b] F2 k2 (Mix (Some 1%nat) [1; 14; 9; 3]%nat);
  R1 [b;c;d;e;a] F2 k2 (Mix (Some 2%nat) [2; 15; 10; 4]%nat);
  R1 [a;b;c;d;e] F2 k2 (Mix (Some 3%nat) [3; 0; 11; 5]%nat);
  R1 [e;a;b;c;d] F2 k2 (Mix (Some 4%nat) [4; 1; 12; 6]%nat);
  R1 [d;e;a;b;c] F2 k2 (Mix (Some 5%nat) [5; 2; 13; 7]%nat);
  R1 [c;d;e;a;b] F2 k2 (Mix (Some 6%nat) [6; 3; 14; 8]%nat);
  R1 [b;c;d;e;a] F2 k2 (Mix (Some 7%nat) [7; 4; 15; 9]%nat);
  R1 [a;b;c;d;e] F3 k3 (Mix (Some 8%nat) [8; 5; 0; 10]%nat);
  R1 [e;a;b;c;d] F3 k3 (Mix (Some 9%nat) [9; 6; 1; 11]%nat);
  R1 [d;e;a;b;c] F3 k3 (Mix (Some 10%nat) [10; 7; 2; 12]%nat);
  R1 [c;d;e;a;b] F3 k3 (Mix (Some 11%nat) [11; 8; 3; 13]%nat);
  R1 [b;c;d;e;a] F3 k3 (Mix (Some 12%nat) [12; 9; 4; 14]%nat);
  R1 [a;b;c;d;e] F3 k3 (Mix (Some 13%nat) [13; 10; 5; 15]%nat);
  R1 [e;a;b;c;d] F3 k3 (Mix (Some 14%nat) [14; 11; 6; 0]%nat);
  R1 [d;e;a;b;c] F3 k3 (Mix (Some 15%nat) [15; 12; 7; 1]%nat);
  R1 [c;d;e;a;b] F3 k3 (Mix (Some 0%nat) [0; 13; 8; 2]%nat);
  R1 [b;c;d;e;a] F3 k3 (Mix (Some 1%nat) [1; 14; 9; 3]%nat);
  R1 [a;b;c;d;e] F3 k3 (Mix (Some 2%nat) [2; 15; 10; 4]%nat);
  R1 [e;a;b;c;d] F3 k3 (Mix (Some 3%nat) [3; 0; 11; 5]%nat);
  R1 [d;e;a;b;c] F3 k3 (Mix (Some 4%nat) [4; 1; 12; 6]%nat);
  R1 [c;d;e;a;b] F3 k3 (Mix (Some 5%nat) [5; 2; 13; 7]%nat);
  R1 [b;c;d;e;a] F3 k3 (Mix (Some 6%nat) [6; 3; 14; 8]%nat);
  R1 [a;b;c;d;e] F3 k3 (Mix (Some 7%nat) [7; 4; 15; 9]%nat);
  R1 [e;a;b;c;d] F3 k3 (Mix (Some 8%nat) [8; 5; 0; 10]%nat);
  R1 [d;e;a;b;c] F3 k3 (Mix (Some 9%nat) [9; 6; 1; 11]%nat);
  R1 [c;d;e;a;b] F3 k3 (Mix (Some 10%nat) [10; 7; 2; 12]%nat);
  R1 [b;c;d;e;a] F3 k3 (Mix (Some 11%nat) [11; 8; 3; 13]%nat);
  R1 [a;b;c;d;e] F2 k4 (Mix (Some 12%nat) [12; 9; 4; 14]%nat);
  R1 [e;a;b;c;d] F2 k4 (Mix (Some 13%nat) [13; 10; 5; 15]%nat);
  R1 [d;e;a;b;c] F2 k4 (Mix (Some 14%nat) [14; 11; 6; 0]%nat);
  R1 [c;d;e;a;b] F2 k4 (Mix (Some 15%nat) [15; 12; 7; 1]%nat);
  R1 [b;c;d;e;a] F2 k4 (Mix (Some 0%nat) [0; 13; 8; 2]%nat);
  R1 [a;b;c;d;e] F2 k4 (Mix (Some 1%nat) [1; 14; 9; 3]%nat);
  R1 [e;a;b;c;d] F2 k4 (Mix (Some 2%nat) [2; 15; 10; 4]%nat);
  R1 [d;e;a;b;c] F2 k4 (Mix (Some 3%nat) [3; 0; 11; 5]%nat);
  R1 [c;d;e;a;b] F2 k4 (Mix (Some 4%nat) [4; 1; 12; 6]%nat);
  R1 [b;c;d;e;a] F2 k4 (Mix (Some 5%nat) [5; 2; 13; 7]%nat);
  R1 [a;b;c;d;e] F2 k4 (Mix (Some 6%nat) [6; 3; 14; 8]%nat);
  R1 [e;a;b;c;d] F2 k4 (Mix (Some 7%nat) [7; 4; 15; 9]%nat);
  R1 [d;e;a;b;c] F2 k4 (Mix (Some 8%nat) [8; 5; 0; 10]%nat);
  R1 [c;d;e;a;b] F2 k4 (Mix (Some 9%nat) [9; 6; 1; 11]%nat);
  R1 [b;c;d;e;a] F2 k4 (Mix (Some 10%nat) [10; 7; 2; 12]%nat);
  R1 [a;b;c;d;e] F2 k4 (Mix (Some 11%nat) [11; 8; 3; 13]%nat);
  R1 [e;a;b;c;d] F2 k4 (Mix (Some 12%nat) [12; 9; 4; 14]%nat);
  R1 [d;e;a;b;c] F2 k4 (Mix None [13; 10; 5; 15]%nat);
  R1 [c;d;e;a;b] F2 k4 (Mix None [14; 11; 6; 0]%nat);
  R1 [b;c;d;e;a] F2 k4 (Mix None [15; 12; 7; 1]%nat)].

Definition ripemd160_rounds : list lineR := [
  R11 [a;b;c;d;e] 0 11;
  R12 [a;b;c;d;e] 5 8;
  R11 [e;a;b;c;d] 1 14;
  R12 [e;a;b;c;d] 14 9;
  R11 [d;e;a;b;c] 2 15;
  R12 [d;e;a;b;c] 7 9;
  R11 [c;d;e;a;b] 3 12;
  R12 [c;d;e;a;b] 0 11;
  R11 [b;c;d;e;a] 4 5;
  R12 [b;c;d;e;a] 9 13;
  R11 [a;b;c;d;e] 5 8;
  R12 [a;b;c;d;e] 2 15;
  R11 [e;a;b;c;d] 6 7;
  R12 [e;a;b;c;d] 11 15;
  R11 [d;e;a;b;c] 7 9;
  R12 [d;e;a;b;c] 4 5;
  R11 [c;d;e;a;b] 8 11;
  R12 [c;d;e;a;b] 13 7;
  R11 [b;c;d;e;a] 9 13;
  R12 [b;c;d;e;a] 6 7;
  R11 [a;b;c;d;e] 10 14;
  R12 [a;b;c;d;e] 15 8;
  R11 [e;a;b;c;d] 11 15;
  R12 [e;a;b;c;d] 8 11;
  R11 [d;e;a;b;c] 12 6;
  R12 [d;e;a;b;c] 1 14;
  R11 [c;d;e;a;b] 13 7;
  R12 [c;d;e;a;b] 10 14;
  R11 [b;c;d;e;a] 14 9;
  R12 [b;c;d;e;a] 3 12;
  R11 [a;b;c;d;e] 15 8;
  R12 [a;b;c;d;e] 12 6;
  R21 [e;a;b;c;d] 7 7;
  R22 [e;a;b;c;d] 6 9;
  R21 [d;e;a;b;c] 4 6;
  R22 [d;e;a;b;c] 11 13;
  R21 [c;d;e;a;b] 13 8;
  R22 [c;d;e;a;b] 3 15;
  R21 [b;c;d;e;a] 1 13;
  R22 [b;c;d;e;a] 7 7;
  R21 [a;b;c;d;e] 10 11;
  R22 [a;b;c;d;e] 0 12;
  R21 [e;a;b;c;d] 6 9;
  R22 [e;a;b;c;d] 13 8;
  R21 [d;e;a;b;c] 15 7;
  R22 [d;e;a;b;c] 5 9;
  R21 [c;d;e;a;b] 3 15;
  R22 [c;d;e;a;b] 10 11;
  R21 [b;c;d;e;a] 12 7;
  R22 [b;c;d;e;a] 14 7;
  R21 [a;b;c;d;e] 0 12;
  R22 [a;b;c;d;e] 15 7;
  R21 [e;a;b;c;d] 9 15;
  R22 [e;a;b;c;d] 8 12;
  R21 [d;e;a;b;c] 5 9;
  R22 [d;e;a;b;c] 12 7;
  R21 [c;d;e;a;b] 2 11;
  R22 [c;d;e;a;b] 4 6;
  R21 [b;c;d;e;a] 14 7;
  R22 [b;c;d;e;a] 9 15;
  R21 [a;b;c;d;e] 11 13;
  R22 [a;b;c;d;e] 1 13;
  R21 [e;a;b;c;d] 8 12;
  R22 [e;a;b;c;d] 2 11;
  R31 [d;e;a;b;c] 3 11;
  R32 [d;e;a;b;c] 15 9;
  R31 [c;d;e;a;b] 10 13;
  R32 [c;d;e;a;b] 5 7;
  R31 [b;c;d;e;a] 14 6;
  R32 [b;c;d;e;a] 1 15;
  R31 [a;b;c;d;e] 4 7;
  R32 [a;b;c;d;e] 3 11;
  R31 [e;a;b;c;d] 9 14;
  R32 [e;a;b;c;d] 7 8;
  R31 [d;e;a;b;c] 15 9;
  R32 [d;e;a;b;c] 14 6;
  R31 [c;d;e;a;b] 8 13;
  R32 [c;d;e;a;b] 6 6;
  R31 [b;c;d;e;a] 1 15;
  R32 [b;c;d;e;a] 9 14;
  R31 [a;b;c;d;e] 2 14;
  R32 [a;b;c;d;e] 11 12;
  R31 [e;a;b;c;d] 7 8;
  R32 [e;a;b;c;d] 8 13;
  R31 [d;e;a;b;c] 0 13;
  R32 [d;e;a;b;c] 12 5;
  R31 [c;d;e;a;b] 6 6;
  R32 [c;d;e;a;b] 2 14;
  R31 [b;c;d;e;a] 13 5;
  R32 [b;c;d;e;a] 10 13;
  R31 [a;b;c;d;e] 11 12;
  R32 [a;b;c;d;e] 0 13;
  R31 [e;a;b;c;d] 5 7;
  R32 [e;a;b;c;d] 4 7;
  R31 [d;e;a;b;c] 12 5;
  R32 [d;e;a;b;c] 13 5;
  R41 [c;d;e;a;b] 1 11;
  R42 [c;d;e;a;b] 8 15;
  R41 [b;c;d;e;a] 9 12;
  R42 [b;c;d;e;a] 6 5;
  R41 [a;b;c;d;e] 11 14;
  R42 [a;b;c;d;e] 4 8;
  R41 [e;a;b;c;d] 10 15;
  R42 [e;a;b;c;d] 1 11;
  R41 [d;e;a;b;c] 0 14;
  R42 [d;e;a;b;c] 3 14;
  R41 [c;d;e;a;b] 8 15;
  R42 [c;d;e;a;b] 11 14;
  R41 [b;c;d;e;a] 12 9;
  R42 [b;c;d;e;a] 15 6;
  R41 [a;b;c;d;e] 4 8;
  R42 [a;b;c;d;e] 0 14;
  R41 [e;a;b;c;d] 13 9;
  R42 [e;a;b;c;d] 5 6;
  R41 [d;e;a;b;c] 3 14;
  R42 [d;e;a;b;c] 12 9;
  R41 [c;d;e;a;b] 7 5;
  R42 [c;d;e;a;b] 2 12;
  R41 [b;c;d;e;a] 15 6;
  R42 [b;c;d;e;a] 13 9;
  R41 [a;b;c;d;e] 14 8;
  R42 [a;b;c;d;e] 9 12;
  R41 [e;a;b;c;d] 5 6;
  R42 [e;a;b;c;d] 7 5;
  R41 [d;e;a;b;c] 6 5;
  R42 [d;e;a;b;c] 10 15;
  R41 [c;d;e;a;b] 2 12;
  R42 [c;d;e;a;b] 14 8;
  R51 [b;c;d;e;a] 4 9;
  R52 [b;c;d;e;a] 12 8;
  R51 [a;b;c;d;e] 0 15;
  R52 [a;b;c;d;e] 15 5;
  R51 [e;a;b;c;d] 5 5;
  R52 [e;a;b;c;d] 10 12;
  R51 [d;e;a;b;c] 9 11;
  R52 [d;e;a;b;c] 4 9;
  R51 [c;d;e;a;b] 7 6;
  R52 [c;d;e;a;b] 1 12;
  R51 [b;c;d;e;a] 12 8;
  R52 [b;c;d;e;a] 5 5;
  R51 [a;b;c;d;e] 2 13;
  R52 [a;b;c;d;e] 8 14;
  R51 [e;a;b;c;d] 10 12;
  R52 [e;a;b;c;d] 7 6;
  R51 [d;e;a;b;c] 14 5;
  R52 [d;e;a;b;c] 6 8;
  R51 [c;d;e;a;b] 1 12;
  R52 [c;d;e;a;b] 2 13;
  R51 [b;c;d;e;a] 3 13;
  R52 [b;c;d;e;a] 13 6;
  R51 [a;b;c;d;e] 8 14;
  R52 [a;b;c;d;e] 14 5;
  R51 [e;a;b;c;d] 11 11;
  R52 [e;a;b;c;d] 0 15;
  R51 [d;e;a;b;c] 6 8;
  R52 [d;e;a;b;c] 3 13;
  R51 [c;d;e;a;b] 15 5;
  R52 [c;d;e;a;b] 9 11;
  R51 [b;c;d;e;a] 13 6;
  R52 [b;c;d;e;a] 11 11].
End Rounds.

Definition sha1_Initialize : list Z := [0x67452301; 0xEFCDAB89; 0x98BADCFE; 0x10325476; 0xC3D2E1F0].

Definition sha1_Transform (s : list Z) (chunk : bytes) : list Z :=
  zip_with (fun x y => u32 (x + y)) s (sha1_run chunk sha1_rounds s (repeat 0 16)).

Definition ripemd160_Initialize : list Z := [0x67452301; 0xEFCDAB89; 0x98BADCFE; 0x10325476; 0xC3D2E1F0].

Definition ripemd160_Transform (s : list Z) (chunk : bytes) : list Z :=
  let w := map (fun i => ReadLE32 chunk (i * 4)) (seq 0 16) in
  let '(s1, s2) := ripemd_run w ripemd160_rounds s s in
  let v (l : list Z) i := nth i l 0 in
  [u32 (v s 1%nat + v s1 2%nat + v s2 3%nat);
   u32 (v s 2%nat + v s1 3%nat + v s2 4%nat);
   u32 (v s 3%nat + v s1 4%nat + v s2 0%nat);
   u32 (v s 4%nat + v s1 0%nat + v s2 1%nat);
   u32 (v s 0%nat + v s1 1%nat + v s2 2%nat)].

Definition CSHA1 : BlockHash := {|
  bh_state := list Z; bh_block := 64; bh_sizedesc := 8;
  bh_Initialize := sha1_Initialize; bh_Transform := sha1_Transform;
  bh_size z := rev (le_bytes 8 z);
  bh_output s := concat (map (fun x => rev (le_bytes 4 x)) s) |}.

Definition CRIPEMD160 : BlockHash := {|
  bh_state := list Z; bh_block := 64; bh_sizedesc := 8;
  bh_Initialize := ripemd160_Initialize; bh_Transform := ripemd160_Transform;
  bh_size z := le_bytes 8 z;
  bh_output s := concat (map (le_bytes 4) s) |}.

#[global] Instance CSHA1_ok : BlockHashOk CSHA1.
Proof.
  split; [cbn; lia|exists (2 ^ 58); reflexivity|]. intros z. cbn [bh_size bh_sizedesc CSHA1].
  by rewrite length_rev, length_le_bytes.
Qed.

#[global] Instance CRIPEMD160_ok : BlockHashOk CRIPEMD160.
Proof.
  split; [cbn; lia|exists (2 ^ 58); reflexivity|]. intros z. apply length_le_bytes.
Qed.

Abbreviation SHA1 := (@digest CSHA1).
Abbreviation RIPEMD160 := (@digest CRIPEMD160).
Abbreviation SHA512 := (@digest CSHA512).

(** ** Double hashes (hash.h) *)

(** The bytes a double hasher gives to its first hash, and the buffer its
    second hash starts with. *)
Definition CHash256_Finalize (h : @hasher CSHA256) : bytes :=
  let h := finalize_writes h in
  Finalize (Write (Reset h) (bh_output (h_s h))).

Definition CHash160_Finalize (h : @hasher CSHA256) (buf : bytes) : bytes :=
  Finalize (H := CRIPEMD160) (Write (hasher_init buf) (Finalize h)).

(** [Hash] of one to three ranges; [buf0] is the uninitialised buffer. *)
Definition Hash (buf0 : bytes) (parts : list bytes) : Z :=
  le_value (CHash256_Finalize (fold_left Write parts (hasher_init buf0))).

Definition Hash160 (buf0 buf1 : bytes) (vch : bytes) : bytes :=
  CHash160_Finalize (Write (hasher_init buf0) vch) buf1.

(** ** HMAC *)

Section Hmac.
Context `{H : !BlockHash}.

Record hmac := mkHmac { outer : hasher; inner : hasher }.

(** The key as one block. *)
Definition hmac_rkey (bufk : bytes) (key : bytes) : bytes :=
  if (length key <=? bh_block)%nat then key ++ repeat 0 (bh_block - length key)
  else let d := Finalize (Write (hasher_init bufk) key) in d ++ repeat 0 (bh_block - length d).

Definition hmac_init (bufk bufo bufi : bytes) (key : bytes) : hmac :=
  let rkey := map (fun b => Z.lxor b 0x5c) (hmac_rkey bufk key) in
  let outer := Write (hasher_init bufo) rkey in
  let rkey := map (fun b => Z.lxor b (Z.lxor 0x5c 0x36)) rkey in
  mkHmac outer (Write (hasher_init bufi) rkey).

Definition hmac_Write (h : hmac) (data : bytes) : hmac := mkHmac (outer h) (Write (inner h) data).

Definition hmac_Finalize (h : hmac) : bytes := Finalize (Write (outer h) (Finalize (inner h))).

(** RFC 2104. *)
Definition hmac_spec (key msg : bytes) : bytes :=
  let k0 := if (length key <=? bh_block)%nat then key else digest key in
  let k0 := k0 ++ repeat 0 (bh_block - length k0) in
  digest (map (fun b => Z.lxor b 0x5c) k0 ++ digest (map (fun b => Z.lxor b 0x36) k0 ++ msg)).
End Hmac.

(** ** MurmurHash3 (hash.cpp) *)

Definition ROTL32 (x r : Z) : Z := Z.lor (u32 (Z.shiftl x r)) (Z.shiftr x (32 - r)).

Definition murmur_c1 : Z := 0xcc9e2d51.
Definition murmur_c2 : Z := 0x1b873593.

Definition murmur_mix (k1 : Z) : Z := u32 (ROTL32 (u32 (k1 * murmur_c1)) 15 * murmur_c2).

Fixpoint murmur_body (nblocks : nat) (data : bytes) (h1 : Z) : Z :=
  match nblocks with
  | O => h1
  | S n =>
    let h1 := Z.lxor h1 (murmur_mix (ReadLE32 data 0)) in
    murmur_body n (drop 4 data) (u32 (ROTL32 h1 13 * 5 + 0xe6546b64))
  end.

(** The [switch] falls through from the third byte down. *)
Definition murmur_tail (tail : bytes) (size h1 : Z) : Z :=
  let r := Z.land size 3 in
  let k1 := 0 in
  let k1 := if r =? 3 then Z.lxor k1 (Z.shiftl (nth 2 tail 0) 16) else k1 in
  let k1 := if (r =? 3) || (r =? 2) then Z.lxor k1 (Z.shiftl (nth 1 tail 0) 8) else k1 in
  if r =? 0 then h1 else Z.lxor h1 (murmur_mix (Z.lxor k1 (nth 0 tail 0))).

Definition MurmurHash3 (nHashSeed : Z) (data : bytes) : Z :=
  let h1 := nHashSeed in
  let h1 :=
    if (0 <? length data)%nat then
      let nblocks := (length data / 4)%nat in
      murmur_tail (drop (nblocks * 4) data) (Z.of_nat (length data)) (murmur_body nblocks data h1)
    else h1 in
  let h1 := Z.lxor h1 (u32 (Z.of_nat (length data))) in
  let h1 := Z.lxor h1 (Z.shiftr h1 16) in
  let h1 := u32 (h1 * 0x85ebca6b) in
  let h1 := Z.lxor h1 (Z.shiftr h1 13) in
  let h1 := u32 (h1 * 0xc2b2ae35) in
  Z.lxor h1 (Z.shiftr h1 16).

(** [buf] stands for the three uninitialised buffers. *)
Definition BIP32Hash (buf chainCode : bytes) (nChild header : Z) (data : bytes) : bytes :=
  let num := map (fun s => Z.land (Z.shiftr nChild s) 0xFF) [24; 16; 8; 0] in
  let h := hmac_init (H := CSHA512) buf buf buf chainCode in
  hmac_Finalize (hmac_Write (hmac_Write (hmac_Write h [header]) data) num).

(** ** Properties *)

(** The published tables of RIPEMD-160: the word order of each line is given by
    the permutations rho and pi, the same rotations belong to the same words. *)
Definition rho (i : nat) : nat := nth i [7; 4; 13; 1; 10; 6; 15; 3; 12; 0; 9; 5; 2; 14; 11; 8]%nat 0%nat.
Definition ripemd_order (first : nat -> nat) (n : nat) : nat :=
  Nat.iter (n / 16) rho (first (n mod 16)%nat).

Lemma ripemd_word_order :
  map lr_w (List.filter (fun l => negb (lr_right l)) ripemd160_rounds) = map (ripemd_order (fun i => i)) (seq 0 80) /\
  map lr_w (List.filter lr_right ripemd160_rounds) = map (ripemd_order (fun i => (9 * i + 5) mod 16)%nat) (seq 0 80).
Proof. vm_compute. split; reflexivity. Qed.

Lemma CHash256_rep h msg : stream_rep h msg -> 8 * Z.of_nat (length msg) < 2 ^ 64 ->
  CHash256_Finalize h = SHA256 (SHA256 msg).
Proof.
  intros Hrep Hlen. unfold CHash256_Finalize. fold (Finalize h). rewrite (Finalize_rep h msg Hrep Hlen).
  apply (Finalize_rep (H := CSHA256) _ (SHA256 msg)); [|rewrite SHA256_length; lia].
  apply (Write_rep (H := CSHA256) (Reset (finalize_writes h)) [] (SHA256 msg)), init_rep.
  by apply (finalize_writes_buf h msg).
Qed.

Lemma CHash160_rep h msg buf : stream_rep h msg -> length buf = 64%nat -> 8 * Z.of_nat (length msg) < 2 ^ 64 ->
  CHash160_Finalize h buf = RIPEMD160 (SHA256 msg).
Proof.
  intros Hrep Hb Hlen. unfold CHash160_Finalize. rewrite (Finalize_rep h msg Hrep Hlen).
  apply (Finalize_rep (H := CRIPEMD160) _ (SHA256 msg)); [|rewrite SHA256_length; lia].
  by apply (Write_rep (H := CRIPEMD160) _ [] (SHA256 msg)), init_rep.
Qed.

Section HmacProofs.
Context `{Hok : !BlockHashOk H}.
Hypothesis Hout : forall m, (length (digest m) <= bh_block)%nat.
Hypothesis Hsmall : Z.of_nat bh_block <= 1024.

Lemma hmac_writes writes h : fold_left hmac_Write writes h = mkHmac (outer h) (fold_left Write writes (inner h)).
Proof using Type. revert h. induction writes as [|d ds IH]; intros h; [by destruct h|]. cbn. by rewrite IH. Qed.

Lemma hmac_rkey_spec bufk key : length bufk = bh_block -> 8 * Z.of_nat (length key) < 2 ^ 64 ->
  let k0 := if (length key <=? bh_block)%nat then key else digest key in
  hmac_rkey bufk key = k0 ++ repeat 0 (bh_block - length k0) /\ length (hmac_rkey bufk key) = bh_block.
Proof using Hok Hout.
  intros Hb Hl k0. unfold hmac_rkey.
  assert (E : hmac_rkey bufk key = k0 ++ repeat 0 (bh_block - length k0)).
  { unfold hmac_rkey. subst k0. destruct (length key <=? bh_block)%nat; [done|].
    rewrite (Finalize_rep _ key); [done| |done]. by apply (Write_rep _ [] key), init_rep. }
  split; [exact E|]. fold (hmac_rkey bufk key). rewrite E, length_app, repeat_length.
  assert (length k0 <= bh_block)%nat; [|lia].
  subst k0. destruct (Nat.leb_spec (length key) bh_block); [done|apply Hout].
Qed.

Lemma hmac_rep bufk bufo bufi key writes :
  length bufk = bh_block -> length bufo = bh_block -> length bufi = bh_block ->
  8 * Z.of_nat (length key) < 2 ^ 64 -> Z.of_nat (length (concat writes)) < 2 ^ 60 ->
  hmac_Finalize (fold_left hmac_Write writes (hmac_init bufk bufo bufi key)) = hmac_spec key (concat writes).
Proof using Hok Hout Hsmall.
  intros Hk Ho Hi Hkey Hlen. destruct (hmac_rkey_spec bufk key Hk Hkey) as [E1 E2]. cbv zeta in E1.
  rewrite hmac_writes. unfold hmac_Finalize, hmac_init, hmac_spec. cbn [outer inner]. rewrite <- E1.
  set (rk := hmac_rkey bufk key) in *.
  assert (Ex : map (fun b => Z.lxor b (Z.lxor 0x5c 0x36)) (map (fun b => Z.lxor b 0x5c) rk) = map (fun b => Z.lxor b 0x36) rk).
  { rewrite map_map. apply map_ext. intros b. rewrite Z.lxor_assoc. f_equal. }
  rewrite Ex. set (mi := map (fun b => Z.lxor b 0x36) rk). set (mo := map (fun b => Z.lxor b 0x5c) rk).
  assert (Hmi : length mi = bh_block) by (subst mi; by rewrite length_map).
  assert (Hmo : length mo = bh_block) by (subst mo; by rewrite length_map).
  assert (Hinner : Finalize (fold_left Write writes (Write (hasher_init bufi) mi)) = digest (mi ++ concat writes)).
  { apply Finalize_rep; [|rewrite length_app; lia]. apply writes_rep. by apply (Write_rep _ [] mi), init_rep. }
  rewrite Hinner. apply Finalize_rep; [|rewrite length_app; specialize (Hout (mi ++ concat writes)); lia].
  apply Write_rep. by apply (Write_rep _ [] mo), init_rep.
Qed.
End HmacProofs.

(** The hashes the protocol is built on, however their input is cut into
    writes and whatever their buffers held: CHash256 is SHA-256 twice, CHash160
    is RIPEMD-160 of SHA-256, and HMAC with SHA-256 or SHA-512 is the
    construction of RFC 2104, long keys included. *)
Theorem derived_hashes_correct (buf64 buf128 key : bytes) (writes : list bytes) :
  length buf64 = 64%nat -> length buf128 = 128%nat ->
  8 * Z.of_nat (length key) < 2 ^ 64 -> Z.of_nat (length (concat writes)) < 2 ^ 60 ->
  let h := fold_left Write writes (@hasher_init CSHA256 buf64) in
  let msg := concat writes in
  CHash256_Finalize h = SHA256 (SHA256 msg) /\
  CHash160_Finalize h buf64 = RIPEMD160 (SHA256 msg) /\
  hmac_Finalize (fold_left hmac_Write writes (@hmac_init CSHA256 buf64 buf64 buf64 key)) = @hmac_spec CSHA256 key msg /\
  hmac_Finalize (fold_left hmac_Write writes (@hmac_init CSHA512 buf128 buf128 buf128 key)) = @hmac_spec CSHA512 key msg.
Proof.
  intros H64 H128 Hk Hm h msg.
  assert (Hrep : stream_rep h msg) by (apply (writes_rep (H := CSHA256) writes _ []), init_rep, H64).
  assert (Hl : 8 * Z.of_nat (length msg) < 2 ^ 64) by (subst msg; lia).
  split; [by apply CHash256_rep|]. split; [by apply CHash160_rep|]. split.
  - apply (hmac_rep (H := CSHA256)); try done. intros m. rewrite SHA256_length. cbn. lia.
  - apply (hmac_rep (H := CSHA512)); try done. intros m. rewrite SHA512_length. cbn. lia.
Qed.

(** The vectors of the repository's tests for MurmurHash3, and the published
    ones for the others. *)
Lemma hash_vectors :
  MurmurHash3 0xFBA4C795 [] = 0x6a396f08 /\ MurmurHash3 0 [0; 0x11; 0x22] = 0x8eb51c3d /\
  MurmurHash3 0 [0; 0x11; 0x22; 0x33; 0x44; 0x55; 0x66] = 0xb074502c /\
  SHA1 [97; 98; 99] = [169; 153; 62; 54; 71; 6; 129; 106; 186; 62; 37; 113; 120; 80; 194; 108; 156; 208; 216; 157] /\
  RIPEMD160 [97; 98; 99] = [142; 178; 8; 247; 224; 93; 152; 122; 155; 4; 74; 142; 152; 198; 176; 135; 241; 90; 11; 252].
Proof. vm_compute. repeat split; reflexivity. Qed.

Lemma derived_hashes_correct_witness :
  Hash160 (repeat 1 64) (repeat 1 64) [1; 2; 3] = RIPEMD160 (SHA256 [1; 2; 3]).
Proof.
  exact (proj1 (proj2 (derived_hashes_correct (repeat 1 64) (repeat 2 128) [] [[1; 2; 3]]
    eq_refl eq_refl ltac:(cbn; lia) ltac:(cbn; lia)))).
Defined.
