(* ===== verification/BlockMerkle.v ===== *)
(** * Merkle trees of blocks (src/src/consensus/merkle.cpp,
      src/src/primitives/block.cpp, src/src/merkleblock.cpp, merkleblock.h)

    Three ways to compute the Merkle root of a block, branches, and partial
    trees, all compared with one reference: replace neighbours by their hash,
    the last one paired with itself, until one is left.  Vector sizes and
    indices are naturals: they are bounded by the size of a block. *)
From S2P Require Import Prelude Serialize HashStream Sha2 Hashes.
#[local] Open Scope Z_scope.

Section Merkle.
(** [Hash(BEGIN(a), END(a), BEGIN(b), END(b))]: the hash of two hashes. *)
Variable hash2 : Z -> Z -> Z.

(** ** ComputeMerkleRoot *)

(** [hashes[pos] == hashes[pos + 1]] for an even [pos]. *)
Fixpoint twin_pair (l : list Z) : bool :=
  match l with
  | a :: b :: l => (a =? b) || twin_pair l
  | _ => false
  end.

(** [SHA256D64] in place, one block after the other. *)
Fixpoint hash_pairs (l : list Z) : list Z :=
  match l with
  | a :: b :: l => hash2 a b :: hash_pairs l
  | _ => []
  end.

Definition duplicate_last (l : list Z) : list Z :=
  if Nat.odd (length l) then l ++ [List.last l 0] else l.

(** The root and [mutation]; at most [fuel] rounds. *)
Fixpoint compute_loop (fuel : nat) (hashes : list Z) (mutation : bool) : list Z * bool :=
  match fuel with
  | O => (hashes, mutation)
  | S fuel =>
    if (1 <? length hashes)%nat
    then compute_loop fuel (hash_pairs (duplicate_last hashes)) (mutation || twin_pair hashes)
    else (hashes, mutation)
  end.

Definition ComputeMerkleRoot (hashes : list Z) : Z * bool :=
  let '(l, mutation) := compute_loop (length hashes) hashes false in
  (match l with [] => 0 | h :: _ => h end, mutation).

(** ** BuildMerkleTree *)

(** [for (int i = 0; i < nSize; i += 2)] *)
Fixpoint build_level (fuel i nSize j : nat) (tree : list Z) (mutated : bool) : list Z * bool :=
  match fuel with
  | O => (tree, mutated)
  | S fuel =>
    if (i <? nSize)%nat then
      let i2 := Nat.min (i + 1) (nSize - 1) in
      let a := nth (j + i) tree 0 in
      let b := nth (j + i2) tree 0 in
      let mutated := mutated || ((i2 =? i + 1)%nat && (i2 + 1 =? nSize)%nat && (a =? b)) in
      build_level fuel (i + 2) nSize j (tree ++ [hash2 a b]) mutated
    else (tree, mutated)
  end.

Fixpoint build_loop (fuel nSize j : nat) (tree : list Z) (mutated : bool) : list Z * bool :=
  match fuel with
  | O => (tree, mutated)
  | S fuel =>
    if (1 <? nSize)%nat then
      let '(tree, mutated) := build_level nSize 0 nSize j tree mutated in
      build_loop fuel ((nSize + 1) / 2) (j + nSize) tree mutated
    else (tree, mutated)
  end.

(** The root, [fMutated] and [vMerkleTree]. *)
Definition BuildMerkleTree (leaves : list Z) : Z * bool * list Z :=
  let '(tree, mutated) := build_loop (length leaves) (length leaves) 0 leaves false in
  (match tree with [] => 0 | _ => List.last tree 0 end, mutated, tree).

(** ** Branches *)

Fixpoint branch_loop (fuel : nat) (nIndex : Z) (nSize j : nat) (tree : list Z) : list Z :=
  match fuel with
  | O => []
  | S fuel =>
    if (1 <? nSize)%nat then
      let i := Z.min (Z.lxor nIndex 1) (Z.of_nat nSize - 1) in
      nth (j + Z.to_nat i) tree 0 :: branch_loop fuel (Z.shiftr nIndex 1) ((nSize + 1) / 2) (j + nSize) tree
    else []
  end.

Definition GetMerkleBranch (nIndex : Z) (nLeaves : nat) (tree : list Z) : list Z :=
  branch_loop nLeaves nIndex nLeaves 0 tree.

Fixpoint check_branch_loop (hash : Z) (branch : list Z) (nIndex : Z) : Z :=
  match branch with
  | [] => hash
  | it :: branch =>
    check_branch_loop (if Z.odd nIndex then hash2 it hash else hash2 hash it) branch (Z.shiftr nIndex 1)
  end.

Definition CheckMerkleBranch (hash : Z) (branch : list Z) (nIndex : Z) : Z :=
  if nIndex =? -1 then 0 else check_branch_loop hash branch nIndex.

(** ** Partial trees *)

Record CPartialMerkleTree := mkPmt {
  nTransactions : Z;
  vBits : list bool;
  vHash : list Z;
  fBad : bool
}.

(** [1 << height] is an [int]; the sum is unsigned. *)
Definition CalcTreeWidth (n : Z) (height : nat) : Z :=
  Z.shiftr (u32 (n + i32 (Z.shiftl 1 (Z.of_nat height)) - 1)) (Z.of_nat height).

Fixpoint CalcHash (n : Z) (height : nat) (pos : Z) (vTxid : list Z) : Z :=
  match height with
  | O => nth (Z.to_nat pos) vTxid 0
  | S height =>
    let left := CalcHash n height (u32 (pos * 2)) vTxid in
    let right :=
      if u32 (pos * 2 + 1) <? CalcTreeWidth n height
      then CalcHash n height (u32 (pos * 2 + 1)) vTxid else left in
    hash2 left right
  end.

(** [p] from [pos << height] below [(pos+1) << height] and [nTransactions]. *)
Definition parent_of_match (n : Z) (height : nat) (pos : Z) (vMatch : list bool) : bool :=
  let lo := u32 (Z.shiftl pos (Z.of_nat height)) in
  let hi := Z.min (u32 (Z.shiftl (pos + 1) (Z.of_nat height))) n in
  existsb (fun p => nth p vMatch false) (seq (Z.to_nat lo) (Z.to_nat (hi - lo))).

Fixpoint TraverseAndBuild (n : Z) (height : nat) (pos : Z) (vTxid : list Z) (vMatch : list bool)
    (out : list bool * list Z) : list bool * list Z :=
  let fParentOfMatch := parent_of_match n height pos vMatch in
  let out := (out.1 ++ [fParentOfMatch], out.2) in
  match height with
  | O => (out.1, out.2 ++ [CalcHash n 0 pos vTxid])
  | S h =>
    if negb fParentOfMatch then (out.1, out.2 ++ [CalcHash n (S h) pos vTxid])
    else
      let out := TraverseAndBuild n h (u32 (pos * 2)) vTxid vMatch out in
      if u32 (pos * 2 + 1) <? CalcTreeWidth n h
      then TraverseAndBuild n h (u32 (pos * 2 + 1)) vTxid vMatch out else out
  end.

(** [while (CalcTreeWidth(nHeight) > 1) nHeight++]: at most 32 rounds. *)
Fixpoint tree_height (fuel : nat) (n : Z) (nHeight : nat) : nat :=
  match fuel with
  | O => nHeight
  | S fuel => if CalcTreeWidth n nHeight >? 1 then tree_height fuel n (S nHeight) else nHeight
  end.

Definition new_pmt (vTxid : list Z) (vMatch : list bool) : CPartialMerkleTree :=
  let n := Z.of_nat (length vTxid) in
  let '(bits, hashes) := TraverseAndBuild n (tree_height 32 n 0) 0 vTxid vMatch ([], []) in
  mkPmt n bits hashes false.

(** [nBitsUsed], [nHashUsed], [vMatch] and [fBad]. *)
Record extract_state := mkExtract { nBitsUsed : nat; nHashUsed : nat; xMatch : list Z; xBad : bool }.

Definition set_bad (s : extract_state) : extract_state := mkExtract (nBitsUsed s) (nHashUsed s) (xMatch s) true.

Fixpoint TraverseAndExtract (pt : CPartialMerkleTree) (height : nat) (pos : Z) (s : extract_state)
    : Z * extract_state :=
  match vBits pt !! nBitsUsed s with
  | None => (0, set_bad s)
  | Some fParentOfMatch =>
    let s := mkExtract (S (nBitsUsed s)) (nHashUsed s) (xMatch s) (xBad s) in
    let stored :=
      match vHash pt !! nHashUsed s with
      | None => (0, set_bad s)
      | Some hash =>
        (hash, mkExtract (nBitsUsed s) (S (nHashUsed s))
                 (if (height =? 0)%nat && fParentOfMatch then xMatch s ++ [hash] else xMatch s) (xBad s))
      end in
    match height with
    | O => stored
    | S h =>
      if negb fParentOfMatch then stored
      else
        let '(hleft, s) := TraverseAndExtract pt h (u32 (pos * 2)) s in
        if u32 (pos * 2 + 1) <? CalcTreeWidth (nTransactions pt) h then
          let '(hright, s) := TraverseAndExtract pt h (u32 (pos * 2 + 1)) s in
          (hash2 hleft hright, if hright =? hleft then set_bad s else s)
        else (hash2 hleft hleft, s)
    end
  end.

Definition MAX_BLOCK_SIZE (saplinght height : Z) : Z :=
  if (height <=? 0) || ((saplinght >? 0) && (height >=? saplinght)) then 4096 * 1024 else 2000000.

(** The activation height of Sapling. *)
Variable saplinght : Z.

(** The root (0 for a failure) and the matches. *)
Definition ExtractMatches (pt : CPartialMerkleTree) : Z * list Z :=
  if nTransactions pt =? 0 then (0, [])
  else if nTransactions pt >? MAX_BLOCK_SIZE saplinght 10000000 / 60 then (0, [])
  else if Z.of_nat (length (vHash pt)) >? nTransactions pt then (0, [])
  else if (length (vBits pt) <? length (vHash pt))%nat then (0, [])
  else
    let '(root, s) := TraverseAndExtract pt (tree_height 32 (nTransactions pt) 0) 0
                        (mkExtract 0 0 [] (fBad pt)) in
    if xBad s then (0, xMatch s)
    else if negb ((nBitsUsed s + 7) / 8 =? (length (vBits pt) + 7) / 8)%nat then (0, xMatch s)
    else if negb (nHashUsed s =? length (vHash pt))%nat then (0, xMatch s)
    else (root, xMatch s).

(** ** Serialization of partial trees *)

(** [vBytes[p / 8] |= vBits[p] << (p % 8)] for each [p] from [p] on. *)
Fixpoint pack_loop (bits : list bool) (p : nat) (v : bytes) : bytes :=
  match bits with
  | [] => v
  | b :: bits =>
    pack_loop bits (S p) (alter (fun x => u8 (Z.lor x (Z.shiftl (Z.b2z b) (Z.of_nat (p mod 8))))) (p / 8)%nat v)
  end.

Definition pack_bits (bits : list bool) : bytes := pack_loop bits 0 (replicate ((length bits + 7) / 8) 0).

Definition unpack_bits (v : bytes) : list bool :=
  (fun p => negb (Z.land (nth (p / 8) v 0) (Z.shiftl 1 (Z.of_nat (p mod 8))) =? 0)) <$> seq 0 (length v * 8).

Definition ser_pmt (pt : CPartialMerkleTree) : bytes :=
  ser c_u32 (nTransactions pt) ++ ser (c_vector 32 c_uint256) (vHash pt) ++ ser c_bytes (pack_bits (vBits pt)).

Definition unser_pmt : reader CPartialMerkleTree :=
  n ← unser c_u32; hashes ← unser (c_vector 32 c_uint256); v ← unser c_bytes;
  mret (mkPmt n (unpack_bits v) hashes false).

(** ** The reference: rows of the tree *)

Fixpoint level_up (l : list Z) : list Z :=
  match l with
  | a :: b :: l => hash2 a b :: level_up l
  | [a] => [hash2 a a]
  | [] => []
  end.

Definition row (l : list Z) (h : nat) : list Z := Nat.iter h level_up l.

Lemma pair_ind (P : list Z -> Prop) :
  P [] -> (forall a, P [a]) -> (forall a b l, P l -> P (a :: b :: l)) -> forall l, P l.
Proof.
  intros H0 H1 H2. fix IH 1. intros [|a [|b l]]; [exact H0 | apply H1 | apply H2, IH].
Qed.

Lemma hash_pairs_duplicate l : hash_pairs (duplicate_last l) = level_up l.
Proof.
  induction l as [| a | a b l IH] using pair_ind; [done | done |].
  assert (duplicate_last (a :: b :: l) = a :: b :: duplicate_last l) as ->.
  { unfold duplicate_last, Nat.odd. cbn [length Nat.even].
    destruct (Nat.even (length l)) eqn:E; [done|]. by destruct l. }
  cbn. by rewrite IH.
Qed.

Lemma length_level_up l : length (level_up l) = ((length l + 1) / 2)%nat.
Proof.
  induction l as [| a | a b l IH] using pair_ind; [done | done |].
  cbn [length level_up]. rewrite IH. replace (S (S (length l)) + 1)%nat with (length l + 1 + 1 * 2)%nat by lia.
  rewrite Nat.div_add; lia.
Qed.

Lemma nth_level_up l k :
  (k < length (level_up l))%nat ->
  nth k (level_up l) 0 = hash2 (nth (2 * k) l 0) (nth (Nat.min (2 * k + 1) (length l - 1)) l 0).
Proof.
  revert k. induction l as [| a | a b l IH] using pair_ind; intros k; cbn [length level_up]; [lia | |].
  - intros Hk. by replace k with 0%nat by lia.
  - destruct k as [|k]; [done|]. intros Hk. cbn [nth]. rewrite IH; [|lia].
    rewrite length_level_up in Hk.
    assert (length l <> 0)%nat by (intros E; rewrite E in Hk; cbn in Hk; lia).
    replace (2 * S k)%nat with (S (S (2 * k))) by lia.
    replace (Nat.min (S (S (2 * k)) + 1) (S (S (length l)) - 1))%nat
      with (S (S (Nat.min (2 * k + 1) (length l - 1)))) by lia. done.
Qed.

Lemma row_S l h : row l (S h) = level_up (row l h).
Proof. done. Qed.

Lemma row_add l h k : row l (h + k) = row (row l h) k.
Proof. induction k as [|k IH]; [by rewrite Nat.add_0_r | by rewrite Nat.add_succ_r, !row_S, IH]. Qed.

Lemma length_row l h : Z.of_nat (length (row l h)) = (Z.of_nat (length l) + 2 ^ Z.of_nat h - 1) / 2 ^ Z.of_nat h.
Proof.
  induction h as [|h IH]; [change (row l 0) with l; change (2 ^ Z.of_nat 0) with 1; rewrite Z.div_1_r; lia|].
  rewrite row_S, length_level_up, Nat2Z.inj_div, Nat2Z.inj_add, IH.
  assert (0 < 2 ^ Z.of_nat h) by (apply Z.pow_pos_nonneg; lia).
  change (Z.of_nat 1) with 1. change (Z.of_nat 2) with 2. rewrite <- (Z.div_add _ 1 (2 ^ Z.of_nat h)) by lia. rewrite Z.div_div by lia.
  rewrite Nat2Z.inj_succ, Z.pow_succ_r by lia. f_equal; lia.
Qed.

Lemma CalcTreeWidth_row l h :
  Z.of_nat (length l) <= 2 ^ 30 -> (h <= 30)%nat ->
  CalcTreeWidth (Z.of_nat (length l)) h = Z.of_nat (length (row l h)).
Proof.
  intros Hn Hh. unfold CalcTreeWidth. rewrite length_row, Z.shiftr_div_pow2 by lia.
  rewrite Z.shiftl_1_l. pose proof (Z.pow_le_mono_r 2 (Z.of_nat h) 30 ltac:(lia) ltac:(lia)).
  assert (0 < 2 ^ Z.of_nat h) by (apply Z.pow_pos_nonneg; lia).
  change (2 ^ 30) with 1073741824 in *.
  rewrite i32_id by (unfold is_i32; lia). rewrite u32_id by (unfold is_u32; lia). reflexivity.
Qed.

(** ** The height of the tree *)

Definition tree_rows (l : list Z) (H : nat) : Prop :=
  (forall h, (h < H)%nat -> (1 < length (row l h))%nat) /\ (length (row l H) <= 1)%nat.

Lemma row_shrinks l h : (length (row l (S h)) <= length (row l h))%nat.
Proof.
  rewrite row_S, length_level_up. pose proof (Nat.div_mod (length (row l h) + 1) 2 ltac:(lia)). lia.
Qed.

Lemma long_row_height l h : (1 < length (row l h))%nat -> 2 ^ Z.of_nat h < Z.of_nat (length l).
Proof.
  intros Hl. pose proof (length_row l h) as E.
  assert (0 < 2 ^ Z.of_nat h) by (apply Z.pow_pos_nonneg; lia).
  pose proof (Z.mul_div_le (Z.of_nat (length l) + 2 ^ Z.of_nat h - 1) (2 ^ Z.of_nat h) ltac:(lia)). nia.
Qed.

Lemma tree_height_rows l : Z.of_nat (length l) <= 2 ^ 30 -> tree_rows l (tree_height 32 (Z.of_nat (length l)) 0).
Proof.
  intros Hn.
  assert (forall fuel h, (fuel + h = 32)%nat -> (forall h', (h' < h)%nat -> (1 < length (row l h'))%nat) ->
    tree_rows l (tree_height fuel (Z.of_nat (length l)) h)) as Hgen; [|by apply (Hgen 32%nat 0%nat); [|lia]].
  induction fuel as [|fuel IH]; intros h Hf Hall.
  - pose proof (long_row_height l 31 (Hall 31%nat ltac:(lia))). exfalso.
    change (2 ^ Z.of_nat 31) with 2147483648 in *. lia.
  - assert (h <= 30)%nat as Hh.
    { destruct (decide (h <= 30)%nat); [done|]. pose proof (long_row_height l 30 (Hall 30%nat ltac:(lia))).
      change (2 ^ Z.of_nat 30) with (2 ^ 30) in *. lia. }
    cbn [tree_height]. rewrite CalcTreeWidth_row by done. destruct (Z.gtb_spec (Z.of_nat (length (row l h))) 1).
    + apply IH; [lia|]. intros h' Hh'. destruct (decide (h' = h)) as [->|]; [lia|]. apply Hall. lia.
    + split; [done|lia].
Qed.

Lemma tree_rows_height l H : Z.of_nat (length l) <= 2 ^ 30 -> tree_rows l H -> (H <= 30)%nat /\ (H <= length l)%nat.
Proof.
  intros Hn [Hrows _]. destruct H as [|H]; [lia|].
  pose proof (long_row_height l H (Hrows H ltac:(lia))) as E. split.
  - destruct (decide (H < 30)%nat); [lia|].
    pose proof (Z.pow_le_mono_r 2 30 (Z.of_nat H) ltac:(lia) ltac:(lia)). lia.
  - pose proof (Z.pow_gt_lin_r 2 (Z.of_nat H) ltac:(lia) ltac:(lia)). lia.
Qed.

(** ** The three computations agree with the rows *)

Lemma row_level_up l h : row (level_up l) h = row l (S h).
Proof. symmetry. apply (row_add l 1 h). Qed.

Lemma twin_rows_shift l hs :
  existsb (fun h => twin_pair (row (level_up l) h)) hs = existsb (fun h => twin_pair (row l h)) (List.map S hs).
Proof. induction hs as [|h hs IH]; [done|]. cbn [existsb List.map]. by rewrite IH, row_level_up. Qed.

Lemma compute_loop_rows l H m fuel :
  tree_rows l H -> (H <= fuel)%nat ->
  compute_loop fuel l m = (row l H, m || existsb (fun h => twin_pair (row l h)) (seq 0 H)).
Proof.
  revert l m fuel. induction H as [|H IH]; intros l m fuel [Hlong Hshort] Hf.
  - change (row l 0) with l in *. cbn [seq existsb]. rewrite orb_false_r.
    destruct fuel; cbn [compute_loop]; [done|]. by rewrite (proj2 (Nat.ltb_ge _ _) Hshort).
  - destruct fuel as [|fuel]; [lia|]. cbn [compute_loop].
    pose proof (Hlong 0%nat ltac:(lia)) as H0. change (row l 0) with l in H0.
    rewrite (proj2 (Nat.ltb_lt _ _) H0), hash_pairs_duplicate. rewrite (IH (level_up l)); [|split|lia].
    + rewrite row_level_up. f_equal.
      cbn [seq existsb]. change (row l 0) with l. rewrite <- seq_shift, <- orb_assoc. do 2 f_equal.
      apply twin_rows_shift.
    + intros h Hh. rewrite row_level_up. apply Hlong. lia.
    + by rewrite row_level_up.
Qed.

(** A pair of equal hashes at the end of a row. *)
Definition last_twin (L : list Z) : bool :=
  Nat.even (length L) && (1 <? length L)%nat && (nth (length L - 2) L 0 =? nth (length L - 1) L 0).

Lemma last_twin_pair L : last_twin L = true -> twin_pair L = true.
Proof.
  induction L as [| a | a b l IH] using pair_ind; [done | done |]. unfold last_twin in *.
  cbn [length Nat.even twin_pair]. destruct l as [|c l]; [cbn; by rewrite orb_false_r|].
  destruct l as [|d l]; [done|]. intros E. apply orb_true_iff. right. apply IH.
  cbn [length] in *. bool_to_prop. apply andb_true_intro. split; [apply andb_true_intro; split; [done|]|].
  - apply Nat.ltb_lt. lia.
  - replace (S (S (length l)) - 2)%nat with (length l) by lia.
    replace (S (S (length l)) - 1)%nat with (S (length l)) by lia.
    replace (S (S (S (S (length l)))) - 2)%nat with (S (S (length l))) in H0 by lia.
    replace (S (S (S (S (length l)))) - 1)%nat with (S (S (S (length l)))) in H0 by lia.
    cbn [nth] in H0 |- *. by apply Z.eqb_eq.
Qed.

Lemma nth_middle_app (pre L post : list Z) i :
  (i < length L)%nat -> nth (length pre + i) (pre ++ L ++ post) 0 = nth i L 0.
Proof.
  intros Hi. rewrite app_nth2, app_nth1 by lia. f_equal. lia.
Qed.

Lemma take_S_level_up L k :
  (k < length (level_up L))%nat -> take (S k) (level_up L) = take k (level_up L) ++ [nth k (level_up L) 0].
Proof.
  intros Hk. apply take_S_r. destruct (nth_lookup_or_length (level_up L) k 0); [done|lia].
Qed.

Lemma build_level_row pre L k fuel m :
  (length L <= 2 * k + fuel)%nat -> (k <= length (level_up L))%nat -> (L <> []) ->
  build_level fuel (2 * k) (length L) (length pre) (pre ++ L ++ take k (level_up L)) m =
  (pre ++ L ++ level_up L, m || (last_twin L && (2 * k <? length L)%nat)).
Proof.
  intros Hf Hk HL. revert k m Hf Hk. induction fuel as [|fuel IH]; intros k m Hf Hk.
  all: pose proof (length_level_up L) as Hlen; pose proof (Nat.div_mod (length L + 1) 2 ltac:(lia)) as Hdm.
  all: pose proof (Nat.mod_upper_bound (length L + 1) 2 ltac:(lia)) as Hub.
  all: assert (length L <> 0)%nat as Hne by (by destruct L).
  - cbn [build_level]. rewrite (proj2 (Nat.ltb_ge _ _)), andb_false_r, orb_false_r, take_ge by lia. done.
  - cbn [build_level]. destruct (Nat.ltb_spec (2 * k) (length L)) as [Hi|Hi].
    2: { rewrite andb_false_r, orb_false_r, take_ge by lia. done. }
    rewrite !nth_middle_app by lia. rewrite <- nth_level_up by lia.
    replace ((pre ++ L ++ take k (level_up L)) ++ [nth k (level_up L) 0])
      with (pre ++ L ++ take (S k) (level_up L)) by (rewrite take_S_level_up by lia; by rewrite <- !app_assoc).
    replace (2 * k + 2)%nat with (2 * S k)%nat by lia. rewrite IH by lia. rewrite <- orb_assoc. do 2 f_equal.
    unfold last_twin. destruct (Nat.ltb_spec (2 * S k) (length L)) as [Hn|Hn].
    + rewrite (proj2 (Nat.eqb_neq (Nat.min (2 * k + 1) (length L - 1) + 1) (length L))) by lia.
      by rewrite andb_false_r.
    + rewrite !andb_false_r, !andb_true_r, orb_false_r.
      destruct (decide (length L = 2 * k + 2)%nat) as [E|E].
      * rewrite E. replace (Nat.min (2 * k + 1) (2 * k + 2 - 1)) with (2 * k + 1)%nat by lia.
        replace (2 * k + 2 - 2)%nat with (2 * k)%nat by lia. replace (2 * k + 2 - 1)%nat with (2 * k + 1)%nat by lia.
        rewrite Nat.eqb_refl. replace (2 * k + 1 + 1)%nat with (2 * k + 2)%nat by lia. rewrite Nat.eqb_refl.
        rewrite (proj2 (Nat.ltb_lt 1 _)) by lia. replace (2 * k + 2)%nat with (2 * (k + 1))%nat by lia.
        by rewrite Nat.even_even.
      * assert (length L = 2 * k + 1)%nat as -> by lia.
        replace (Nat.min (2 * k + 1) (2 * k + 1 - 1)) with (2 * k)%nat by lia.
        rewrite (proj2 (Nat.eqb_neq (2 * k) _)) by lia. by rewrite Nat.even_odd.
Qed.

Lemma last_rows_shift l hs :
  existsb (fun h => last_twin (row (level_up l) h)) hs = existsb (fun h => last_twin (row l h)) (List.map S hs).
Proof. induction hs as [|h hs IH]; [done|]. cbn [existsb List.map]. by rewrite IH, row_level_up. Qed.

Lemma rows_shift l n :
  concat (row l <$> seq 0 (S n)) = l ++ concat (row (level_up l) <$> seq 0 n).
Proof.
  cbn [seq fmap list_fmap concat]. f_equal. rewrite <- seq_shift. f_equal.
  induction (seq 0 n) as [|h hs IH]; [done|]. cbn [List.map fmap list_fmap]. by rewrite IH, row_level_up.
Qed.

Lemma row_length_le l h : (length (row l h) <= length l)%nat.
Proof. induction h as [|h IH]; [done|]. pose proof (row_shrinks l h). lia. Qed.

Lemma build_loop_rows l H pre m fuel :
  tree_rows l H -> (H <= fuel)%nat ->
  exists m', build_loop fuel (length l) (length pre) (pre ++ l) m =
    (pre ++ concat (row l <$> seq 0 (S H)), m') /\
    m' = m || existsb (fun h => last_twin (row l h)) (seq 0 H).
Proof.
  revert l pre m fuel. induction H as [|H IH]; intros l pre m fuel [Hlong Hshort] Hf.
  - change (row l 0) with l in *. exists m. cbn [seq existsb fmap list_fmap concat]. rewrite orb_false_r, app_nil_r.
    split; [|done]. destruct fuel; cbn [build_loop]; [done|]. by rewrite (proj2 (Nat.ltb_ge _ _) Hshort).
  - destruct fuel as [|fuel]; [lia|]. cbn [build_loop].
    pose proof (Hlong 0%nat ltac:(lia)) as H0. change (row l 0) with l in H0.
    rewrite (proj2 (Nat.ltb_lt _ _) H0).
    pose proof (build_level_row pre l 0 (length l) m ltac:(lia) ltac:(lia) ltac:(by intros ->; cbn in H0; lia)) as E.
    rewrite take_0, app_nil_r, Nat.mul_0_r in E. rewrite E, (proj2 (Nat.ltb_lt 0 _)), andb_true_r by lia.
    rewrite <- length_level_up, <- length_app, app_assoc.
    destruct (IH (level_up l) (pre ++ l) (m || last_twin l) fuel) as (m' & -> & ->); [split|lia|].
    + intros h Hh. rewrite row_level_up. apply Hlong. lia.
    + by rewrite row_level_up.
    + eexists. split; [|reflexivity]. rewrite (rows_shift l). cbn [seq existsb]. change (row l 0) with l.
      f_equal; [by rewrite <- app_assoc|]. by rewrite <- orb_assoc, last_rows_shift, <- seq_shift.
Qed.

Lemma CalcHash_row l h pos :
  Z.of_nat (length l) <= 2 ^ 30 -> (h <= 30)%nat -> (pos < length (row l h))%nat ->
  CalcHash (Z.of_nat (length l)) h (Z.of_nat pos) l = nth pos (row l h) 0.
Proof.
  intros Hn. revert pos. induction h as [|h IH]; intros pos Hh Hpos; [cbn [CalcHash]; by rewrite Nat2Z.id|].
  pose proof (row_length_le l h) as Hle. cbn [CalcHash]. rewrite row_S in *.
  rewrite length_level_up in Hpos. pose proof (Nat.div_mod (length (row l h) + 1) 2 ltac:(lia)).
  change (2 ^ 30) with 1073741824 in *.
  rewrite !u32_id by (unfold is_u32; lia). rewrite CalcTreeWidth_row by lia.
  replace (Z.of_nat pos * 2) with (Z.of_nat (2 * pos)) by lia.
  rewrite nth_level_up by (rewrite length_level_up; lia). rewrite IH by lia.
  destruct (Z.ltb_spec (Z.of_nat (2 * pos) + 1) (Z.of_nat (length (row l h)))).
  - replace (Z.of_nat (2 * pos) + 1) with (Z.of_nat (2 * pos + 1)) by lia. rewrite IH by lia.
    do 2 f_equal. lia.
  - do 2 f_equal. lia.
Qed.

(** ** The root *)

Definition merkle_root (l : list Z) (H : nat) : Z := nth 0 (row l H) 0.

Lemma row_nonempty l h : l <> [] -> (0 < length (row l h))%nat.
Proof.
  intros Hl. induction h as [|h IH]; [by destruct l; [|cbn; lia]|].
  rewrite row_S, length_level_up. apply Nat.div_str_pos. lia.
Qed.

Lemma top_row l H : l <> [] -> tree_rows l H -> row l H = [merkle_root l H].
Proof.
  intros Hl [_ Hshort]. pose proof (row_nonempty l H Hl). unfold merkle_root.
  destruct (row l H) as [|r [|]]; cbn [length] in *; [lia|done|lia].
Qed.

Lemma ComputeMerkleRoot_rows l H :
  l <> [] -> tree_rows l H -> Z.of_nat (length l) <= 2 ^ 30 ->
  ComputeMerkleRoot l = (merkle_root l H, existsb (fun h => twin_pair (row l h)) (seq 0 H)).
Proof.
  intros Hl HH Hn. unfold ComputeMerkleRoot.
  rewrite (compute_loop_rows l H) by (try done; eapply tree_rows_height; eauto). by rewrite (top_row l H).
Qed.

Lemma BuildMerkleTree_rows l H :
  l <> [] -> tree_rows l H -> Z.of_nat (length l) <= 2 ^ 30 ->
  BuildMerkleTree l = (merkle_root l H, existsb (fun h => last_twin (row l h)) (seq 0 H),
                       concat (row l <$> seq 0 (S H))).
Proof.
  intros Hl HH Hn. unfold BuildMerkleTree.
  destruct (build_loop_rows l H [] false (length l)) as (m & E & ->); [done|eapply tree_rows_height; eauto|].
  cbn [app length] in E. rewrite E.
  assert (concat (row l <$> seq 0 (S H)) = concat (row l <$> seq 0 H) ++ [merkle_root l H]) as ->.
  { rewrite seq_S, fmap_app, concat_app. cbn [fmap list_fmap concat]. by rewrite Nat.add_0_l, top_row. }
  rewrite List.last_last. by destruct (concat (row l <$> seq 0 H)).
Qed.

Lemma last_twin_rows l hs :
  existsb (fun h => last_twin (row l h)) hs = true -> existsb (fun h => twin_pair (row l h)) hs = true.
Proof.
  rewrite !existsb_exists. intros (h & Hin & E). exists h. split; [done|]. by apply last_twin_pair.
Qed.

(** The three computations of a block's Merkle root agree: [ComputeMerkleRoot]
    hashing in place, [BuildMerkleTree] storing every level, and
    [CPartialMerkleTree::CalcHash] recursing from the top return the root of
    the rows obtained by hashing neighbours, the last one with itself, until
    one is left; the stored tree is those rows one after the other; and a
    mutation that [BuildMerkleTree] reports is one [ComputeMerkleRoot]
    reports. *)
Theorem merkle_roots_agree (l : list Z) :
  l <> [] -> Z.of_nat (length l) <= 2 ^ 30 ->
  let H := tree_height 32 (Z.of_nat (length l)) 0 in
  tree_rows l H /\
  (ComputeMerkleRoot l).1 = merkle_root l H /\
  (BuildMerkleTree l).1.1 = merkle_root l H /\
  CalcHash (Z.of_nat (length l)) H 0 l = merkle_root l H /\
  (BuildMerkleTree l).2 = concat (row l <$> seq 0 (S H)) /\
  ((BuildMerkleTree l).1.2 = true -> (ComputeMerkleRoot l).2 = true).
Proof.
  intros Hl Hn H. pose proof (tree_height_rows l Hn) as HH. fold H in HH.
  rewrite (ComputeMerkleRoot_rows l H), (BuildMerkleTree_rows l H) by done. cbn [fst snd].
  repeat split; [apply HH | apply HH | | apply last_twin_rows].
  destruct (tree_rows_height l H Hn HH). pose proof (row_nonempty l H Hl).
  apply (CalcHash_row l H 0); lia.
Qed.

(** ** Branches *)

Lemma lxor_1 i : Z.lxor (Z.of_nat i) 1 = if Nat.odd i then Z.of_nat i - 1 else Z.of_nat i + 1.
Proof.
  assert (forall q, Z.lxor (2 * Z.of_nat q + 1) 1 = 2 * Z.of_nat q /\
    Z.lxor (2 * Z.of_nat q) 1 = 2 * Z.of_nat q + 1) as Hq by (by intros [|q]).
  pose proof (Nat.div2_odd i) as E. destruct (Hq (Nat.div2 i)) as [H1 H2].
  destruct (Nat.odd i); cbn [Nat.b2n] in E.
  - replace (Z.of_nat i) with (2 * Z.of_nat (Nat.div2 i) + 1) by lia. rewrite H1. lia.
  - replace (Z.of_nat i) with (2 * Z.of_nat (Nat.div2 i)) by lia. by rewrite H2.
Qed.

Lemma Z_odd_of_nat i : Z.odd (Z.of_nat i) = Nat.odd i.
Proof.
  destruct (Nat.odd i) eqn:E.
  - apply Z.odd_spec. apply Nat.odd_spec in E as [k ->]. exists (Z.of_nat k). lia.
  - rewrite <- Z.negb_even. apply negb_false_iff, Z.even_spec.
    rewrite <- Nat.negb_even in E. apply negb_false_iff, Nat.even_spec in E as [k ->]. exists (Z.of_nat k). lia.
Qed.

Lemma nth_parent l i :
  (i < length l)%nat ->
  let j := Z.to_nat (Z.min (Z.lxor (Z.of_nat i) 1) (Z.of_nat (length l) - 1)) in
  (j < length l)%nat /\
  nth (i / 2) (level_up l) 0 =
    (if Nat.odd i then hash2 (nth j l 0) (nth i l 0) else hash2 (nth i l 0) (nth j l 0)).
Proof.
  intros Hi j. subst j. pose proof (Nat.div2_odd i) as E. rewrite Nat.div2_div in E.
  rewrite lxor_1, nth_level_up.
  2: { rewrite length_level_up. apply Nat.div_le_lower_bound; [lia|]. destruct (Nat.odd i); cbn [Nat.b2n] in E; lia. }
  destruct (Nat.odd i); cbn [Nat.b2n] in E; (split; [lia|]); f_equal; f_equal; lia.
Qed.

Lemma branch_loop_root l H pre i fuel :
  tree_rows l H -> (H <= fuel)%nat -> (i < length l)%nat ->
  check_branch_loop (nth i l 0)
    (branch_loop fuel (Z.of_nat i) (length l) (length pre) (pre ++ concat (row l <$> seq 0 (S H)))) (Z.of_nat i)
  = merkle_root l H.
Proof.
  revert l pre i fuel. induction H as [|H IH]; intros l pre i fuel [Hlong Hshort] Hf Hi.
  - unfold merkle_root. change (row l 0) with l in *. destruct fuel; cbn [branch_loop].
    2: rewrite (proj2 (Nat.ltb_ge _ _) Hshort). all: cbn; f_equal; lia.
  - destruct fuel as [|fuel]; [lia|]. cbn [branch_loop].
    pose proof (Hlong 0%nat ltac:(lia)) as H0. change (row l 0) with l in H0.
    rewrite (proj2 (Nat.ltb_lt _ _) H0). cbn [check_branch_loop].
    destruct (nth_parent l i Hi) as [Hj Hpar]. rewrite (rows_shift l), nth_middle_app by done.
    rewrite Z_odd_of_nat, <- Hpar, Z.shiftr_div_pow2 by lia. change (2 ^ 1) with (Z.of_nat 2).
    rewrite <- Nat2Z.inj_div, <- length_level_up, <- length_app, app_assoc. rewrite IH; [|split|lia|].
    + unfold merkle_root. by rewrite row_level_up.
    + intros h Hh. rewrite row_level_up. apply Hlong. lia.
    + by rewrite row_level_up.
    + rewrite length_level_up. apply Nat.Div0.div_lt_upper_bound.
      pose proof (Nat.div_mod (length l + 1) 2 ltac:(lia)). pose proof (Nat.mod_upper_bound (length l + 1) 2 ltac:(lia)). lia.
Qed.

(** The branch [GetMerkleBranch] extracts from the tree [BuildMerkleTree]
    stored, for any transaction of the block, leads [CheckMerkleBranch] from
    the transaction's hash back to the block's Merkle root. *)
Theorem merkle_branch_roundtrip (l : list Z) (i : nat) :
  (i < length l)%nat -> Z.of_nat (length l) <= 2 ^ 30 ->
  CheckMerkleBranch (nth i l 0) (GetMerkleBranch (Z.of_nat i) (length l) (BuildMerkleTree l).2) (Z.of_nat i)
  = (ComputeMerkleRoot l).1.
Proof.
  intros Hi Hn. pose proof (tree_height_rows l Hn) as HH. set (H := tree_height 32 _ 0) in HH.
  assert (l <> []) as Hl by (by intros ->; cbn in Hi; lia).
  rewrite (ComputeMerkleRoot_rows l H), (BuildMerkleTree_rows l H) by done. cbn [fst snd].
  unfold CheckMerkleBranch, GetMerkleBranch. rewrite (proj2 (Z.eqb_neq _ _)) by lia.
  apply (branch_loop_root l H [] i (length l)); [done|eapply tree_rows_height; eauto|done].
Qed.

(** ** What the root commits to *)

(** The pairs hashed to get the next row. *)
Fixpoint pairs (l : list Z) : list (Z * Z) :=
  match l with
  | a :: b :: l => (a, b) :: pairs l
  | [a] => [(a, a)]
  | [] => []
  end.

(** All the pairs hashed in the [H] rows above [l]. *)
Definition tree_pairs (l : list Z) (H : nat) : list (Z * Z) := concat (map (fun h => pairs (row l h)) (seq 0 H)).

(** Two different pairs, of [ps] and of [qs], have the same hash. *)
Definition collision (ps qs : list (Z * Z)) : Prop := Exists (fun p => Exists (fun q => p <> q /\ hash2 p.1 p.2 = hash2 q.1 q.2) qs) ps.

(** One of the hashes [l] is the hash of one of the pairs. *)
Definition leaf_is_node (l : list Z) (ps : list (Z * Z)) : Prop := Exists (fun p => hash2 p.1 p.2 ∈ l) ps.

(** The two trees break the hash: by a collision, or by a leaf that hides a pair. *)
Definition hash_broken (l l' : list Z) : Prop :=
  let ps := tree_pairs l (tree_height 32 (Z.of_nat (length l)) 0) in
  let qs := tree_pairs l' (tree_height 32 (Z.of_nat (length l')) 0) in
  collision ps qs \/ leaf_is_node l qs \/ leaf_is_node l' ps.

#[global] Instance collision_dec ps qs : Decision (collision ps qs).
Proof. unfold collision. apply _. Defined.
#[global] Instance leaf_is_node_dec l ps : Decision (leaf_is_node l ps).
Proof. unfold leaf_is_node. apply _. Defined.
#[global] Instance hash_broken_dec l l' : Decision (hash_broken l l').
Proof. unfold hash_broken. apply _. Defined.

Lemma no_collision ps qs p q : ~ collision ps qs -> p ∈ ps -> q ∈ qs -> hash2 p.1 p.2 = hash2 q.1 q.2 -> p = q.
Proof.
  intros Hn Hp Hq E. destruct (decide (p = q)) as [|Hne]; [done|]. destruct Hn. apply list.Exists_exists. exists p. split; [done|].
  apply list.Exists_exists. by exists q.
Qed.

Lemma collision_sym ps qs : collision ps qs -> collision qs ps.
Proof.
  intros (p & Hp & (q & Hq & Hne & E)%list.Exists_exists)%list.Exists_exists. apply list.Exists_exists. exists q. split; [done|].
  apply list.Exists_exists. by exists p.
Qed.

Lemma in_tree_pairs l H h p : (h < H)%nat -> p ∈ pairs (row l h) -> p ∈ tree_pairs l H.
Proof.
  intros Hh Hp. unfold tree_pairs. apply list_elem_of_In, in_concat. exists (pairs (row l h)). split; [|by apply list_elem_of_In].
  apply (in_map (fun h => pairs (row l h))), in_seq. lia.
Qed.

Lemma level_up_pairs L : level_up L = (fun p => hash2 p.1 p.2) <$> pairs L.
Proof. induction L as [| a | a b l IH] using pair_ind; [done | done |]. cbn. by rewrite IH. Qed.

Lemma nth_pairs L k :
  (k < length (level_up L))%nat ->
  (nth (2 * k) L 0, nth (Nat.min (2 * k + 1) (length L - 1)) L 0) ∈ pairs L.
Proof.
  revert k. induction L as [| a | a b l IH] using pair_ind; intros k; cbn [length level_up pairs]; [lia | |].
  - intros Hk. replace k with 0%nat by lia. by apply list_elem_of_singleton.
  - destruct k as [|k]; [intros; apply list_elem_of_here|]. intros Hk. apply list_elem_of_further.
    rewrite length_level_up in Hk.
    assert (length l <> 0)%nat by (intros E; rewrite E in Hk; cbn in Hk; lia).
    replace (2 * S k)%nat with (S (S (2 * k))) by lia.
    replace (Nat.min (S (S (2 * k)) + 1) (S (S (length l)) - 1))%nat
      with (S (S (Nat.min (2 * k + 1) (length l - 1)))) by lia.
    apply IH. rewrite length_level_up. lia.
Qed.

Lemma last_twin_tail a b l : last_twin (a :: b :: l) = false -> last_twin l = false.
Proof.
  destruct l as [|c l]; [done|]. destruct l as [|d l]; [done|]. unfold last_twin. cbn [length].
  replace (S (S (length l)) - 2)%nat with (length l) by lia.
  replace (S (S (length l)) - 1)%nat with (S (length l)) by lia.
  replace (S (S (S (S (length l)))) - 2)%nat with (S (S (length l))) by lia.
  replace (S (S (S (S (length l)))) - 1)%nat with (S (S (S (length l)))) by lia. done.
Qed.

Lemma pairs_inj L L' : pairs L = pairs L' -> last_twin L = false -> last_twin L' = false -> L = L'.
Proof.
  assert (forall a b, last_twin [a; b] = false -> a <> b) as Htwin.
  { intros a b E ->. unfold last_twin in E. cbn in E. by rewrite Z.eqb_refl in E. }
  revert L'. induction L as [| a | a b l IH] using pair_ind; intros [|a' [|b' l']] E H1 H2; try done.
  - cbn in E. by simplify_eq.
  - cbn in E. destruct l' as [|x [|]]; simplify_eq. by destruct (Htwin _ _ H2).
  - cbn in E. destruct l as [|x [|]]; simplify_eq. by destruct (Htwin _ _ H1).
  - cbn in E. simplify_eq. rewrite (IH l'); eauto using last_twin_tail.
Qed.

Lemma map_pairs_inj ps qs : ~ collision ps qs -> (fun p => hash2 p.1 p.2) <$> ps = (fun p => hash2 p.1 p.2) <$> qs -> ps = qs.
Proof.
  revert qs. induction ps as [|p ps IH]; intros [|q qs] Hn E; try done. cbn in E. injection E as E1 E2. f_equal.
  - eapply no_collision; [exact Hn|apply list_elem_of_here|apply list_elem_of_here|done].
  - apply IH; [|done]. intros (x & Hx & (y & Hy & Hxy)%list.Exists_exists)%list.Exists_exists. apply Hn, list.Exists_exists. exists x.
    split; [by apply list_elem_of_further|]. apply list.Exists_exists. exists y. split; [by apply list_elem_of_further|done].
Qed.

(** [ps] and [qs] hold the pairs hashed above the rows [l] and [l']. *)
Lemma rows_inj ps qs l l' H :
  ~ collision ps qs -> (forall h p, (h < H)%nat -> p ∈ pairs (row l h) -> p ∈ ps) -> (forall h q, (h < H)%nat -> q ∈ pairs (row l' h) -> q ∈ qs) ->
  (forall h, (h < H)%nat -> last_twin (row l h) = false) -> (forall h, (h < H)%nat -> last_twin (row l' h) = false) ->
  row l H = row l' H -> l = l'.
Proof.
  intros Hn Hp Hq H1 H2. induction H as [|H IH]; [done|]. intros E.
  apply IH; [intros; eapply Hp; [|done]; lia | intros; eapply Hq; [|done]; lia | intros; apply H1; lia | intros; apply H2; lia |].
  apply pairs_inj; [|apply H1; lia|apply H2; lia]. rewrite !row_S, !level_up_pairs in E. apply map_pairs_inj; [|done].
  intros (x & Hx & (y & Hy & Hxy)%list.Exists_exists)%list.Exists_exists. apply Hn, list.Exists_exists. exists x. split; [by apply (Hp H); [lia|]|].
  apply list.Exists_exists. exists y. split; [by apply (Hq H); [lia|]|done].
Qed.

Lemma row_hashes l h x : x ∈ row l (S h) -> exists p, p ∈ pairs (row l h) /\ x = hash2 p.1 p.2.
Proof. rewrite row_S, level_up_pairs, list_elem_of_fmap. intros (p & -> & ?). eauto. Qed.

Lemma existsb_rows f (l : list Z) H h :
  existsb (fun h => f (row l h)) (seq 0 H) = false -> (h < H)%nat -> f (row l h) = false.
Proof.
  intros E Hh. destruct (f (row l h)) eqn:Ef; [|done]. rewrite <- E. symmetry.
  apply existsb_exists. exists h. split; [apply in_seq; lia|done].
Qed.

Lemma shifted_rows_inj l l' d H :
  ~ collision (tree_pairs l H) (tree_pairs l' (d + H)) -> ~ leaf_is_node l (tree_pairs l' (d + H)) ->
  (forall h, (h < H)%nat -> last_twin (row l h) = false) -> (forall h, (h < d + H)%nat -> last_twin (row l' h) = false) ->
  l <> [] -> row l H = row l' (d + H) -> l = l'.
Proof.
  intros Hn Hleaf H1 H2 Hl E. rewrite row_add in E.
  assert (l = row l' d) as El.
  { apply (rows_inj (tree_pairs l H) (tree_pairs l' (d + H)) _ _ H Hn); [intros; by eapply in_tree_pairs| |done| |done].
    - intros h q Hh Hq. rewrite <- row_add in Hq. eapply (in_tree_pairs _ _ (d + h)); [lia|done].
    - intros h Hh. rewrite <- row_add. apply H2. lia. }
  destruct d as [|d]; [done|]. destruct l as [|x l]; [done|]. destruct Hleaf.
  destruct (row_hashes l' d x) as (p & Hp & ->); [rewrite <- El; apply list_elem_of_here|].
  apply list.Exists_exists. exists p. split; [by apply (in_tree_pairs _ _ d); [lia|]|apply list_elem_of_here].
Qed.

(** Rows without a twin at their end that lead to the same root. *)
Lemma rows_binding (l l' : list Z) :
  l <> [] -> l' <> [] -> Z.of_nat (length l) <= 2 ^ 30 -> Z.of_nat (length l') <= 2 ^ 30 ->
  let H := tree_height 32 (Z.of_nat (length l)) 0 in
  let H' := tree_height 32 (Z.of_nat (length l')) 0 in
  existsb (fun h => last_twin (row l h)) (seq 0 H) = false -> existsb (fun h => last_twin (row l' h)) (seq 0 H') = false ->
  merkle_root l H = merkle_root l' H' -> l = l' \/ hash_broken l l'.
Proof.
  intros Hl Hl' Hn Hn'. unfold hash_broken. pose proof (tree_height_rows l Hn) as HH. pose proof (tree_height_rows l' Hn') as HH'. cbv zeta.
  generalize dependent (tree_height 32 (Z.of_nat (length l)) 0). intros H HH.
  generalize dependent (tree_height 32 (Z.of_nat (length l')) 0). intros H' HH' M M' E.
  assert (row l H = row l' H') as Erow by (by rewrite !top_row, E).
  pose proof (fun h => existsb_rows last_twin l H h M) as M1. pose proof (fun h => existsb_rows last_twin l' H' h M') as M2.
  destruct (decide (collision (tree_pairs l H) (tree_pairs l' H'))) as [|Hc]; [auto|].
  destruct (decide (leaf_is_node l (tree_pairs l' H'))) as [|Hf]; [auto|]. destruct (decide (leaf_is_node l' (tree_pairs l H))) as [|Hf']; [auto|]. left.
  destruct (Nat.le_ge_cases H H') as [Hle|Hle].
  - apply (shifted_rows_inj l l' (H' - H) H); replace (H' - H + H)%nat with H' by lia; auto.
  - symmetry. apply (shifted_rows_inj l' l (H - H') H'); replace (H - H' + H')%nat with H by lia; auto.
    intros Hc'. by apply Hc, collision_sym.
Qed.

(** The same for the root and the flag of [ComputeMerkleRoot]. *)
Lemma ComputeMerkleRoot_inj (l l' : list Z) r :
  l <> [] -> l' <> [] -> Z.of_nat (length l) <= 2 ^ 30 -> Z.of_nat (length l') <= 2 ^ 30 ->
  ComputeMerkleRoot l = (r, false) -> ComputeMerkleRoot l' = (r, false) -> l = l' \/ hash_broken l l'.
Proof.
  intros Hl Hl' Hn Hn'.
  rewrite (ComputeMerkleRoot_rows l _ Hl (tree_height_rows l Hn) Hn), (ComputeMerkleRoot_rows l' _ Hl' (tree_height_rows l' Hn') Hn').
  intros [E M]%pair_equal_spec [E' M']%pair_equal_spec. apply rows_binding; try done.
  - apply not_true_is_false. intros T%last_twin_rows. by rewrite T in M.
  - apply not_true_is_false. intros T%last_twin_rows. by rewrite T in M'.
  - by rewrite E, E'.
Qed.

(** C33: two lists of transaction hashes with the same Merkle root, neither
    reported as mutated, are the same list, or the two trees exhibit a break of the hash:
    two different pairs, one hashed in each tree, with the same hash, or a transaction
    hash of one that is the hash of a pair hashed in the other.  The mutation check of
    [BuildMerkleTree] closes CVE-2012-2459; nothing is assumed of the hash. *)
Theorem merkle_root_binding (l l' : list Z) :
  l <> [] -> l' <> [] -> Z.of_nat (length l) <= 2 ^ 30 -> Z.of_nat (length l') <= 2 ^ 30 ->
  (BuildMerkleTree l).1.2 = false -> (BuildMerkleTree l').1.2 = false ->
  (BuildMerkleTree l).1.1 = (BuildMerkleTree l').1.1 ->
  l = l' \/ hash_broken l l'.
Proof.
  intros Hl Hl' Hn Hn'.
  rewrite (BuildMerkleTree_rows l _ Hl (tree_height_rows l Hn) Hn), (BuildMerkleTree_rows l' _ Hl' (tree_height_rows l' Hn') Hn').
  cbn [fst snd]. by apply rows_binding.
Qed.

(** ** Partial trees *)

(** The leaves under node [pos] of row [h]. *)
Definition span {A} (h pos : nat) (x : list A) : list A := take (2 ^ h) (drop (pos * 2 ^ h) x).

Definition selected (ls : list Z) (ms : list bool) : list Z :=
  omap (fun p : Z * bool => if p.2 then Some p.1 else None) (zip ls ms).

Lemma span_split {A} h pos (x : list A) : span (S h) pos x = span h (2 * pos) x ++ span h (2 * pos + 1) x.
Proof.
  unfold span. cbn [Nat.pow]. replace (2 * 2 ^ h)%nat with (2 ^ h + 2 ^ h)%nat by lia.
  replace ((2 * pos + 1) * 2 ^ h)%nat with (2 * pos * 2 ^ h + 2 ^ h)%nat by lia.
  rewrite <- drop_drop. replace (pos * (2 ^ h + 2 ^ h))%nat with (2 * pos * 2 ^ h)%nat by lia.
  generalize (drop (2 * pos * 2 ^ h) x). intros y. by rewrite take_take_drop.
Qed.

Lemma row_covers l h pos :
  (pos < length (row l h))%nat <-> (pos * 2 ^ h < length l)%nat.
Proof.
  pose proof (length_row l h) as E. assert (0 < 2 ^ Z.of_nat h) by (apply Z.pow_pos_nonneg; lia).
  pose proof (Z.div_mod (Z.of_nat (length l) + 2 ^ Z.of_nat h - 1) (2 ^ Z.of_nat h) ltac:(lia)) as Hdm.
  pose proof (Z.mod_pos_bound (Z.of_nat (length l) + 2 ^ Z.of_nat h - 1) (2 ^ Z.of_nat h) ltac:(lia)) as Hmod.
  rewrite <- E in Hdm. assert (Z.of_nat (2 ^ h) = 2 ^ Z.of_nat h) as E2 by (by rewrite Nat2Z.inj_pow).
  rewrite !Nat2Z.inj_lt, Nat2Z.inj_mul, E2. nia.
Qed.

Lemma span_outside {A} l h pos (x : list A) :
  length x = length l -> ~ (pos < length (row l h))%nat -> span h pos x = [].
Proof.
  intros Hx Hpos. unfold span. rewrite drop_ge; [by rewrite take_nil|].
  rewrite row_covers in Hpos. lia.
Qed.

Lemma selected_app ls1 ms1 ls2 ms2 :
  length ls1 = length ms1 -> selected (ls1 ++ ls2) (ms1 ++ ms2) = selected ls1 ms1 ++ selected ls2 ms2.
Proof. intros E. unfold selected. rewrite zip_with_app by done. apply omap_app. Qed.

Lemma selected_none ls ms : existsb id ms = false -> selected ls ms = [].
Proof.
  revert ls. induction ms as [|b ms IH]; intros [|x ls]; try done. cbn. intros E. bool_to_prop.
  destruct b; [done|]. by apply IH.
Qed.

Lemma length_span {A B} h pos (x : list A) (y : list B) : length x = length y -> length (span h pos x) = length (span h pos y).
Proof. intros E. unfold span. rewrite !length_take, !length_drop. lia. Qed.

Lemma existsb_seq (m : list bool) lo k :
  existsb (fun p => nth p m false) (seq lo k) = existsb id (take k (drop lo m)).
Proof.
  revert lo. induction k as [|k IH]; intros lo; [done|]. cbn [seq existsb]. rewrite IH.
  rewrite (nth_lookup m lo false). destruct (m !! lo) as [b|] eqn:E.
  - by rewrite (drop_S _ _ _ E).
  - apply lookup_ge_None in E. rewrite !drop_ge by lia. by rewrite !take_nil.
Qed.

Lemma parent_of_match_span l m h pos :
  Z.of_nat (length l) <= 2 ^ 30 -> (h <= 30)%nat -> length m = length l -> (pos < length (row l h))%nat ->
  parent_of_match (Z.of_nat (length l)) h (Z.of_nat pos) m = existsb id (span h pos m).
Proof.
  intros Hn Hh Hm Hpos. pose proof (proj1 (row_covers l h pos) Hpos) as Hc.
  unfold parent_of_match, span. rewrite !Z.shiftl_mul_pow2 by lia.
  replace (2 ^ Z.of_nat h) with (Z.of_nat (2 ^ h)) by (by rewrite Nat2Z.inj_pow).
  assert (2 ^ h <= 2 ^ 30)%nat by (apply Nat.pow_le_mono_r; lia).
  assert (Z.of_nat (2 ^ h) <= 2 ^ 30) by (change (2 ^ 30) with (Z.of_nat 2 ^ Z.of_nat 30); rewrite <- Nat2Z.inj_pow; by apply Nat2Z.inj_le).
  assert (Z.of_nat pos * Z.of_nat (2 ^ h) < Z.of_nat (length l)) by lia.
  change (2 ^ 30) with 1073741824 in *. set (w := (2 ^ h)%nat) in *. clearbody w.
  rewrite !u32_id by (unfold is_u32; lia). rewrite existsb_seq.
  replace (Z.to_nat (Z.of_nat pos * Z.of_nat w)) with (pos * w)%nat by lia.
  destruct (decide ((pos + 1) * w <= length l)%nat).
  - do 2 f_equal. lia.
  - rewrite (take_ge (drop (pos * w) m) w) by (rewrite length_drop; lia).
    rewrite take_ge by (rewrite length_drop; lia). done.
Qed.

Lemma TraverseAndBuild_app n h pos l m out :
  TraverseAndBuild n h pos l m out =
  (out.1 ++ (TraverseAndBuild n h pos l m ([], [])).1, out.2 ++ (TraverseAndBuild n h pos l m ([], [])).2).
Proof.
  revert pos out. induction h as [|h IH]; intros pos out; [done|]. cbn [TraverseAndBuild fst snd app].
  destruct (negb (parent_of_match n (S h) pos m)); [done|].
  destruct (u32 (pos * 2 + 1) <? CalcTreeWidth n h).
  - rewrite (IH (u32 (pos * 2 + 1))), (IH (u32 (pos * 2 + 1)) (TraverseAndBuild _ _ _ _ _ ([_], []))).
    rewrite (IH (u32 (pos * 2))), (IH (u32 (pos * 2)) ([_], [])). cbn [fst snd]. by rewrite <- !app_assoc.
  - rewrite (IH (u32 (pos * 2))), (IH (u32 (pos * 2)) ([_], [])). cbn [fst snd]. by rewrite <- !app_assoc.
Qed.

Lemma twin_pair_nth L k :
  twin_pair L = false -> (2 * k + 1 < length L)%nat -> nth (2 * k + 1) L 0 <> nth (2 * k) L 0.
Proof.
  revert k. induction L as [| a | a b l IH] using pair_ind; intros k; cbn [length twin_pair]; [lia | lia |].
  intros E Hk. bool_to_prop. destruct k as [|k]; [cbn; congruence|].
  replace (2 * S k + 1)%nat with (S (S (2 * k + 1))) by lia. replace (2 * S k)%nat with (S (S (2 * k))) by lia.
  apply IH; [done|lia].
Qed.

(** What [TraverseAndBuild] appends for node [pos] of row [h]. *)
Definition built (l : list Z) (m : list bool) (h pos : nat) : list bool * list Z :=
  TraverseAndBuild (Z.of_nat (length l)) h (Z.of_nat pos) l m ([], []).

(** The children of node [pos] of row [S h], as both traversals compute them. *)
Lemma child_positions l h pos :
  Z.of_nat (length l) <= 2 ^ 30 -> (h < 30)%nat -> (pos < length (row l (S h)))%nat ->
  u32 (Z.of_nat pos * 2) = Z.of_nat (2 * pos) /\ u32 (Z.of_nat pos * 2 + 1) = Z.of_nat (2 * pos + 1) /\
  (2 * pos < length (row l h))%nat /\
  (u32 (Z.of_nat pos * 2 + 1) <? CalcTreeWidth (Z.of_nat (length l)) h) = (2 * pos + 1 <? length (row l h))%nat.
Proof.
  intros Hn Hh Hpos. pose proof (row_length_le l h). rewrite row_S, length_level_up in Hpos.
  pose proof (Nat.div_mod (length (row l h) + 1) 2 ltac:(lia)). change (2 ^ 30) with 1073741824 in *.
  rewrite !u32_id by (unfold is_u32; lia). rewrite CalcTreeWidth_row by lia.
  repeat split; [lia|lia|lia|]. destruct (Nat.ltb_spec (2 * pos + 1) (length (row l h))).
  - apply Z.ltb_lt. lia.
  - apply Z.ltb_ge. lia.
Qed.

Lemma built_S l m h pos :
  Z.of_nat (length l) <= 2 ^ 30 -> (h < 30)%nat -> length m = length l -> (pos < length (row l (S h)))%nat ->
  built l m (S h) pos =
    if existsb id (span (S h) pos m) then
      let right := if (2 * pos + 1 <? length (row l h))%nat then built l m h (2 * pos + 1) else ([], []) in
      (true :: (built l m h (2 * pos)).1 ++ right.1, (built l m h (2 * pos)).2 ++ right.2)
    else ([false], [nth pos (row l (S h)) 0]).
Proof.
  intros Hn Hh Hm Hpos. unfold built. cbn [TraverseAndBuild fst snd app].
  rewrite parent_of_match_span by (done || lia). rewrite CalcHash_row by (done || lia).
  destruct (child_positions l h pos Hn Hh Hpos) as (E1 & E2 & _ & ->).
  destruct (existsb id (span (S h) pos m)); cbn [negb]; [|done].
  rewrite E1, E2, (TraverseAndBuild_app _ h (Z.of_nat (2 * pos)) _ _ ([true], [])). cbn [fst snd app].
  destruct (2 * pos + 1 <? length (row l h))%nat; cbn [fst snd]; [|by rewrite !app_nil_r].
  by rewrite (TraverseAndBuild_app _ h (Z.of_nat (2 * pos + 1)) _ _ (_, _)).
Qed.

Lemma built_0 l m pos :
  Z.of_nat (length l) <= 2 ^ 30 -> length m = length l -> (pos < length l)%nat ->
  built l m 0 pos = ([nth pos m false], [nth pos l 0]).
Proof.
  intros Hn Hm Hpos. unfold built. cbn [TraverseAndBuild fst snd app CalcHash].
  rewrite parent_of_match_span by (done || lia). unfold span. cbn [Nat.pow]. rewrite Nat.mul_1_r, Nat2Z.id.
  destruct (lookup_lt_is_Some_2 m pos ltac:(lia)) as [b E].
  rewrite (drop_S _ _ _ E), (nth_lookup_Some _ _ _ _ E). cbn. by rewrite orb_false_r.
Qed.

Lemma built_lengths l m h pos :
  Z.of_nat (length l) <= 2 ^ 30 -> (h <= 30)%nat -> length m = length l -> (pos < length (row l h))%nat ->
  (length (built l m h pos).2 <= length (span h pos l))%nat /\
  (length (built l m h pos).2 <= length (built l m h pos).1)%nat.
Proof.
  intros Hn. revert pos. induction h as [|h IH]; intros pos Hh Hm Hpos.
  - change (row l 0) with l in Hpos. rewrite built_0 by done. cbn [fst snd length]. unfold span.
    rewrite length_take, length_drop. cbn [Nat.pow]. lia.
  - rewrite built_S by (done || lia). pose proof (proj1 (row_covers _ _ _) Hpos) as Hc.
    destruct (child_positions l h pos Hn ltac:(lia) Hpos) as (_ & _ & Hl & _).
    destruct (existsb id _).
    2: { cbn [fst snd length]. unfold span. rewrite length_take, length_drop. pose proof (Nat.pow_nonzero 2 (S h) ltac:(lia)). lia. }
    destruct (IH (2 * pos)%nat ltac:(lia) Hm Hl). rewrite span_split. cbn [fst snd length]. rewrite !length_app.
    destruct (Nat.ltb_spec (2 * pos + 1) (length (row l h))) as [Hr|Hr]; cbn [fst snd length]; [|lia].
    destruct (IH (2 * pos + 1)%nat ltac:(lia) Hm Hr). lia.
Qed.

(** The state after reading the part of the tree built for a node. *)
Definition after (s : extract_state) (b : list bool * list Z) (found : list Z) : extract_state :=
  mkExtract (nBitsUsed s + length b.1) (nHashUsed s + length b.2) (xMatch s ++ found) (xBad s).

(** [b] is what the tree holds from the state's positions on. *)
Definition holds_at (pt : CPartialMerkleTree) (s : extract_state) (b : list bool * list Z) : Prop :=
  b.1 `prefix_of` drop (nBitsUsed s) (vBits pt) /\ b.2 `prefix_of` drop (nHashUsed s) (vHash pt).

Lemma prefix_drop_app {A} (x y : list A) n k :
  x ++ y `prefix_of` drop n k -> x `prefix_of` drop n k /\ y `prefix_of` drop (n + length x) k.
Proof.
  intros [z E]. rewrite <- app_assoc in E. split; [by exists (y ++ z)|]. exists z.
  by rewrite <- drop_drop, E, drop_app_length.
Qed.

Lemma prefix_drop_cons {A} (x : A) y n k :
  x :: y `prefix_of` drop n k -> k !! n = Some x /\ y `prefix_of` drop (S n) k.
Proof.
  intros H. destruct (prefix_drop_app [x] y n k H) as [[z E] H2]. split.
  - by rewrite <- (Nat.add_0_r n), <- lookup_drop, E.
  - by replace (S n) with (n + length [x])%nat by (cbn; lia).
Qed.

Lemma selected_split l m h pos :
  length m = length l ->
  selected (span (S h) pos l) (span (S h) pos m) =
  selected (span h (2 * pos) l) (span h (2 * pos) m) ++ selected (span h (2 * pos + 1) l) (span h (2 * pos + 1) m).
Proof. intros Hm. rewrite !span_split. apply selected_app. by apply length_span. Qed.

Lemma selected_leaf l m pos :
  length m = length l -> (pos < length l)%nat ->
  selected (span 0 pos l) (span 0 pos m) = if nth pos m false then [nth pos l 0] else [].
Proof.
  intros Hm Hpos. unfold span. cbn [Nat.pow]. rewrite Nat.mul_1_r.
  destruct (lookup_lt_is_Some_2 m pos ltac:(lia)) as [b Eb]. destruct (lookup_lt_is_Some_2 l pos Hpos) as [x Ex].
  rewrite (drop_S _ _ _ Eb), (drop_S _ _ _ Ex), (nth_lookup_Some _ _ _ _ Eb), (nth_lookup_Some _ _ _ _ Ex).
  by destruct b.
Qed.

Lemma extract_built l m pt :
  Z.of_nat (length l) <= 2 ^ 30 -> length m = length l -> nTransactions pt = Z.of_nat (length l) ->
  forall h pos s, (h <= 30)%nat -> (pos < length (row l h))%nat ->
  (forall k, (k < h)%nat -> twin_pair (row l k) = false) ->
  holds_at pt s (built l m h pos) ->
  TraverseAndExtract pt h (Z.of_nat pos) s =
    (nth pos (row l h) 0, after s (built l m h pos) (selected (span h pos l) (span h pos m))).
Proof.
  intros Hn Hm Ht. induction h as [|h IH]; intros pos s Hh Hpos Htwin [Hb Hv].
  - change (row l 0) with l in *. rewrite selected_leaf by done. rewrite built_0 in Hb, Hv |- * by done.
    apply prefix_drop_cons in Hb as [Hb _], Hv as [Hv _]. cbn [TraverseAndExtract]. rewrite Hb.
    cbn [nBitsUsed nHashUsed xMatch xBad]. rewrite Hv. unfold after. cbn [fst snd length].
    rewrite !Nat.add_1_r. destruct (nth pos m false); [done|by rewrite app_nil_r].
  - rewrite built_S in Hb, Hv |- * by (done || lia).
    destruct (child_positions l h pos Hn ltac:(lia) Hpos) as (E1 & E2 & Hl & E3).
    destruct (existsb id (span (S h) pos m)) eqn:Ematch; cbn [fst snd] in Hb, Hv.
    + apply prefix_drop_cons in Hb as [Hbit Hb]. apply prefix_drop_app in Hb as [Hb1 Hb2], Hv as [Hv1 Hv2].
      cbn [TraverseAndExtract]. rewrite Hbit. cbn [negb nBitsUsed nHashUsed xMatch xBad].
      rewrite E1, (IH (2 * pos)%nat) by (auto || lia || by split). rewrite Ht, E3, selected_split by done.
      rewrite row_S, nth_level_up by done.
      destruct (Nat.ltb_spec (2 * pos + 1) (length (row l h))) as [Hr|Hr].
      * rewrite E2, (IH (2 * pos + 1)%nat) by (auto || lia || by split).
        rewrite (proj2 (Z.eqb_neq _ _)) by (apply twin_pair_nth; [apply Htwin; lia|done]).
        replace (Nat.min (2 * pos + 1) (length (row l h) - 1)) with (2 * pos + 1)%nat by lia.
        unfold after. cbn [fst snd length nBitsUsed nHashUsed xMatch xBad]. f_equal.
        rewrite !length_app, <- app_assoc. f_equal; lia.
      * replace (Nat.min (2 * pos + 1) (length (row l h) - 1)) with (2 * pos)%nat by lia.
        rewrite (span_outside l h (2 * pos + 1) l), (span_outside l h (2 * pos + 1) m) by (done || lia).
        unfold after. cbn [fst snd length nBitsUsed nHashUsed xMatch xBad]. f_equal.
        change (selected [] []) with (@nil Z). rewrite !app_nil_r. f_equal; lia.
    + apply prefix_drop_cons in Hb as [Hb _], Hv as [Hv _]. cbn [TraverseAndExtract]. rewrite Hb.
      cbn [negb nBitsUsed nHashUsed xMatch xBad]. rewrite Hv, selected_none by done.
      unfold after. cbn [fst snd length Nat.eqb andb]. by rewrite !Nat.add_1_r, app_nil_r.
Qed.

Lemma span_all {A} l H (x : list A) : length x = length l -> tree_rows l H -> span H 0 x = x.
Proof.
  intros Hx [_ Hshort]. unfold span. rewrite Nat.mul_0_l, drop_0. apply take_ge.
  destruct (decide (2 ^ H < length l)%nat) as [E|]; [|lia]. exfalso.
  pose proof (proj2 (row_covers l H 1) ltac:(lia)). lia.
Qed.

(** *** Across the wire *)

Definition bit_at (v : bytes) (p : nat) : bool := Z.testbit (nth (p / 8) v 0) (Z.of_nat (p mod 8)).

Lemma bit_position p q : (p / 8)%nat = (q / 8)%nat -> (p mod 8)%nat = (q mod 8)%nat -> p = q.
Proof. pose proof (Nat.div_mod p 8). pose proof (Nat.div_mod q 8). lia. Qed.

Lemma b2z_bits b k : Z.testbit (Z.b2z b) k = if decide (k = 0) then b else false.
Proof. destruct b; [|by rewrite Z.bits_0; destruct (decide _)]. by destruct k. Qed.

Lemma land_bit x k : 0 <= k -> negb (Z.land x (Z.shiftl 1 k) =? 0) = Z.testbit x k.
Proof.
  intros Hk. rewrite Z.shiftl_1_l. destruct (Z.testbit x k) eqn:E.
  - apply negb_true_iff, Z.eqb_neq. intros E0. apply (f_equal (fun z => Z.testbit z k)) in E0.
    by rewrite Z.land_spec, E, Z.pow2_bits_true, Z.bits_0 in E0 by done.
  - apply negb_false_iff, Z.eqb_eq. apply Z.bits_inj'. intros n Hn. rewrite Z.land_spec, Z.pow2_bits_eqb, Z.bits_0 by done.
    destruct (Z.eqb_spec k n) as [->|]; [by rewrite E|apply andb_false_r].
Qed.

Lemma pack_loop_bits bits p v q :
  is_bytes v -> (forall r, (p <= r)%nat -> bit_at v r = false) -> (p + length bits <= length v * 8)%nat ->
  length (pack_loop bits p v) = length v /\ is_bytes (pack_loop bits p v) /\
  bit_at (pack_loop bits p v) q = if (q <? p)%nat then bit_at v q else nth (q - p) bits false.
Proof.
  revert p v. induction bits as [|b bits IH]; intros p v Hv Hz Hlen; cbn [pack_loop].
  { repeat split; [done|]. destruct (Nat.ltb_spec q p); [done|]. rewrite Hz by done. by destruct (q - p)%nat. }
  cbn [length] in Hlen. pose proof (Nat.mod_upper_bound p 8 ltac:(lia)) as Hp8.
  pose proof (Nat.div_mod p 8 ltac:(lia)) as Hdm.
  destruct (lookup_lt_is_Some_2 v (p / 8) ltac:(lia)) as [x Ex].
  set (y := u8 (Z.lor x (Z.shiftl (Z.b2z b) (Z.of_nat (p mod 8))))).
  assert (forall r, bit_at (alter (fun x => u8 (Z.lor x (Z.shiftl (Z.b2z b) (Z.of_nat (p mod 8))))) (p / 8)%nat v) r =
    if decide (r = p) then b else bit_at v r) as Hbit.
  { intros r. pose proof (Nat.mod_upper_bound r 8 ltac:(lia)) as Hr8. unfold bit_at. rewrite !nth_lookup, list_lookup_alter.
    destruct (decide (p / 8 = r / 8)%nat) as [E|E]; [|by rewrite decide_False by (by intros ->)].
    rewrite <- E, Ex. cbn [fmap option_fmap option_map default id]. unfold u8. rewrite Z.mod_pow2_bits_low, Z.lor_spec by lia.
    specialize (Hz r). unfold bit_at in Hz. rewrite nth_lookup, <- E, Ex in Hz. cbn [default id] in Hz.
    destruct (decide (r = p)) as [->|Hr].
    - rewrite Hz, Z.shiftl_spec, Z.sub_diag by lia. by destruct b.
    - rewrite Z.shiftl_spec, (b2z_bits b) by lia.
      destruct (decide (Z.of_nat (r mod 8) - Z.of_nat (p mod 8) = 0)) as [E0|]; [|by rewrite orb_false_r].
      destruct Hr. apply bit_position; [done|lia]. }
  destruct (IH (S p) (alter (fun x => u8 (Z.lor x (Z.shiftl (Z.b2z b) (Z.of_nat (p mod 8))))) (p / 8)%nat v)) as (L & B & E).
  - apply Forall_alter; [done|]. intros z _ _. apply u8_range.
  - intros r Hr. rewrite Hbit, decide_False by lia. apply Hz. lia.
  - rewrite length_alter. lia.
  - rewrite L, length_alter, E, Hbit. repeat split; [done|].
    destruct (Nat.ltb_spec q (S p)), (Nat.ltb_spec q p); try lia.
    + by rewrite decide_False by lia.
    + rewrite decide_True by lia. by replace (q - p)%nat with 0%nat by lia.
    + replace (q - p)%nat with (S (q - S p)) by lia. done.
Qed.

Lemma unpack_pack bits :
  unpack_bits (pack_bits bits) = bits ++ replicate ((length bits + 7) / 8 * 8 - length bits) false.
Proof.
  set (n := ((length bits + 7) / 8)%nat). unfold pack_bits. fold n.
  pose proof (Nat.div_mod (length bits + 7) 8 ltac:(lia)) as Hdm.
  pose proof (Nat.mod_upper_bound (length bits + 7) 8 ltac:(lia)). fold n in Hdm.
  assert (forall q, length (pack_loop bits 0 (replicate n 0)) = n /\ is_bytes (pack_loop bits 0 (replicate n 0)) /\
    bit_at (pack_loop bits 0 (replicate n 0)) q = nth q bits false) as Hq.
  { intros q. destruct (pack_loop_bits bits 0 (replicate n 0) q) as (L & B & E).
    - by apply Forall_replicate.
    - intros r _. unfold bit_at. rewrite nth_lookup. destruct (replicate n 0 !! _) eqn:E; [|apply Z.bits_0].
      apply lookup_replicate in E as [-> _]. apply Z.bits_0.
    - rewrite length_replicate. lia.
    - rewrite length_replicate in L. rewrite Nat.sub_0_r in E. done. }
  destruct (Hq 0%nat) as (L & _ & _). unfold unpack_bits. rewrite L. apply list_eq. intros p.
  rewrite list_lookup_fmap. destruct (decide (p < n * 8)%nat) as [Hp|Hp].
  - rewrite lookup_seq_lt by done. cbn [fmap option_fmap option_map]. rewrite Nat.add_0_l.
    destruct (Hq p) as (_ & _ & E). unfold bit_at in E. rewrite land_bit, E by lia.
    destruct (decide (p < length bits)%nat) as [Hl|Hl].
    + rewrite lookup_app_l by done. destruct (lookup_lt_is_Some_2 bits p Hl) as [b Eb].
      by rewrite (nth_lookup_Some _ _ _ _ Eb), Eb.
    + rewrite lookup_app_r, nth_overflow by lia. symmetry. apply lookup_replicate. split; [done|lia].
  - rewrite lookup_seq_ge by lia. symmetry. apply lookup_ge_None. rewrite length_app, length_replicate. lia.
Qed.

Lemma row_valid l h :
  Forall (valid c_uint256) l -> (forall a b, valid c_uint256 (hash2 a b)) -> Forall (valid c_uint256) (row l h).
Proof.
  intros Hl Hh. destruct h as [|h]; [done|]. rewrite row_S, level_up_pairs. apply Forall_fmap, List.Forall_forall.
  intros p _. apply Hh.
Qed.

Lemma nth_valid l k : Forall (valid c_uint256) l -> (k < length l)%nat -> valid c_uint256 (nth k l 0).
Proof.
  intros Hl Hk. destruct (lookup_lt_is_Some_2 l k Hk) as [x E]. rewrite (nth_lookup_Some _ _ _ _ E).
  by apply (Forall_lookup_1 _ _ _ _ Hl E).
Qed.

Lemma built_valid l m h pos :
  Forall (valid c_uint256) l -> (forall a b, valid c_uint256 (hash2 a b)) ->
  Z.of_nat (length l) <= 2 ^ 30 -> (h <= 30)%nat -> length m = length l -> (pos < length (row l h))%nat ->
  Forall (valid c_uint256) (built l m h pos).2 /\ (length (built l m h pos).1 < 2 ^ S h)%nat.
Proof.
  intros Hl Hhash Hn. revert pos. induction h as [|h IH]; intros pos Hh Hm Hpos.
  - change (row l 0) with l in Hpos. rewrite built_0 by done. cbn [fst snd length]. split; [|cbn; lia].
    apply list.Forall_singleton. by apply nth_valid.
  - rewrite built_S by (done || lia). destruct (child_positions l h pos Hn ltac:(lia) Hpos) as (_ & _ & Hleft & _).
    rewrite (Nat.pow_succ_r' 2 (S h)). pose proof (Nat.pow_nonzero 2 (S h) ltac:(lia)). destruct (existsb id _).
    2: { cbn [fst snd length]. split; [|lia]. apply list.Forall_singleton, nth_valid; [by apply row_valid|done]. }
    destruct (IH (2 * pos)%nat ltac:(lia) Hm Hleft). cbn [fst snd length]. rewrite length_app, Forall_app.
    destruct (Nat.ltb_spec (2 * pos + 1) (length (row l h))) as [Hr|Hr]; cbn [fst snd length]; [|split; [done|lia]].
    destruct (IH (2 * pos + 1)%nat ltac:(lia) Hm Hr). split; [done|lia].
Qed.

Lemma max_transactions : MAX_BLOCK_SIZE saplinght 10000000 / 60 <= 69905.
Proof. unfold MAX_BLOCK_SIZE. by destruct (_ || _). Qed.

(** Extraction of a tree whose bits are padded to whole bytes. *)
Lemma extract_padded l m H k :
  l <> [] -> length m = length l -> Z.of_nat (length l) <= MAX_BLOCK_SIZE saplinght 10000000 / 60 ->
  H = tree_height 32 (Z.of_nat (length l)) 0 -> (ComputeMerkleRoot l).2 = false ->
  k = ((length (built l m H 0).1 + 7) / 8 * 8 - length (built l m H 0).1)%nat ->
  ExtractMatches (mkPmt (Z.of_nat (length l)) ((built l m H 0).1 ++ replicate k false) (built l m H 0).2 false)
  = ((ComputeMerkleRoot l).1, selected l m).
Proof.
  intros Hl Hm Hmax HHdef. pose proof max_transactions as Hmt. assert (Z.of_nat (length l) <= 2 ^ 30) as Hn by lia.
  pose proof (tree_height_rows l Hn) as HH. rewrite <- HHdef in HH. rewrite (ComputeMerkleRoot_rows l H) by done.
  cbn [fst snd]. intros Hmut Hk. destruct (tree_rows_height l H Hn HH) as [HH30 _].
  pose proof (row_nonempty l H Hl) as Hpos. pose proof (built_lengths l m H 0 Hn HH30 Hm Hpos) as [L1 L2].
  rewrite (span_all l H) in L1 by done.
  assert (length l <> 0)%nat by (by destruct l). destruct (built l m H 0) as [bits hashes] eqn:Eb.
  unfold ExtractMatches. cbn [nTransactions vBits vHash fBad fst snd] in *. rewrite <- HHdef.
  rewrite (proj2 (Z.eqb_neq _ _)) by lia. rewrite !Z.gtb_ltb, !(proj2 (Z.ltb_ge _ _)) by lia.
  rewrite (proj2 (Nat.ltb_ge _ _)) by (rewrite length_app; lia).
  change (TraverseAndExtract ?pt H 0) with (TraverseAndExtract pt H (Z.of_nat 0)).
  rewrite (extract_built l m); try done.
  - rewrite Eb, !(span_all l H) by done. unfold after. cbn [xBad nBitsUsed nHashUsed xMatch fst snd Nat.add app].
    pose proof (Nat.div_mod (length bits + 7) 8 ltac:(lia)). pose proof (Nat.mod_upper_bound (length bits + 7) 8 ltac:(lia)).
    rewrite length_app, length_replicate.
    replace (length bits + k + 7)%nat with (7 + (length bits + 7) / 8 * 8)%nat by lia.
    rewrite Nat.div_add by lia. cbn [Nat.add Nat.div Nat.divmod fst]. by rewrite !Nat.eqb_refl.
  - intros j Hj. by apply (existsb_rows twin_pair l H j).
  - rewrite Eb. split; [|done]. by exists (replicate k false).
Qed.

Lemma height_bound l H : tree_rows l H -> Z.of_nat (length l) <= 69905 -> (2 ^ S H <= 2 ^ 18)%nat.
Proof.
  intros [Hlong _] Hn. apply Nat.pow_le_mono_r; [lia|]. destruct H as [|H]; [lia|].
  pose proof (long_row_height l H (Hlong H ltac:(lia))). destruct (decide (H <= 16)%nat); [lia|].
  pose proof (Z.pow_le_mono_r 2 17 (Z.of_nat H) ltac:(lia) ltac:(lia)). lia.
Qed.

Lemma pack_size bits : (length bits < 2 ^ 18)%nat -> valid c_bytes (pack_bits bits).
Proof.
  intros Hb. cbn [valid c_bytes]. unfold pack_bits, MAX_SIZE.
  assert (forall bits p v, length (pack_loop bits p v) = length v) as ->.
  { induction bits0 as [|b bits0 IH]; intros p v; [done|]. cbn [pack_loop]. by rewrite IH, length_alter. }
  rewrite length_replicate. pose proof (Nat.div_mod (length bits + 7) 8 ltac:(lia)).
  apply Nat2Z.inj_lt in Hb. rewrite Nat2Z.inj_pow in Hb. lia.
Qed.

(** A partial Merkle tree survives the wire and extraction: for a block that
    [ComputeMerkleRoot] does not report as mutated and any choice of its
    transactions, the serialized tree built for them is read back, and
    [ExtractMatches] of it succeeds with the block's Merkle root and exactly
    the chosen transactions in order. *)
Theorem partial_tree_roundtrip (l : list Z) (m : list bool) (rest : bytes) :
  l <> [] -> length m = length l -> Z.of_nat (length l) <= MAX_BLOCK_SIZE saplinght 10000000 / 60 ->
  Forall (valid c_uint256) l -> (forall a b, valid c_uint256 (hash2 a b)) ->
  (ComputeMerkleRoot l).2 = false ->
  exists pt, unser_pmt (ser_pmt (new_pmt l m) ++ rest) = Some (pt, rest) /\
    ExtractMatches pt = ((ComputeMerkleRoot l).1, selected l m).
Proof.
  intros Hl Hm Hmax Hval Hhash Hmut. pose proof max_transactions as Hmt. assert (Z.of_nat (length l) <= 2 ^ 30) as Hn by lia.
  pose proof (tree_height_rows l Hn) as HH. set (H := tree_height 32 (Z.of_nat (length l)) 0) in HH.
  destruct (tree_rows_height l H Hn HH) as [HH30 _]. pose proof (row_nonempty l H Hl) as Hpos.
  pose proof (built_lengths l m H 0 Hn HH30 Hm Hpos) as [L1 _]. rewrite (span_all l H) in L1 by done.
  destruct (built_valid l m H 0 Hval Hhash Hn HH30 Hm Hpos) as [Hv Lb].
  eexists. split; [|by apply (extract_padded l m H)].
  assert (new_pmt l m = mkPmt (Z.of_nat (length l)) (built l m H 0).1 (built l m H 0).2 false) as ->.
  { unfold new_pmt. fold H. unfold built. change (Z.of_nat 0) with 0. by destruct (TraverseAndBuild _ _ _ _ _ _). }
  unfold ser_pmt, unser_pmt. cbn [nTransactions vHash vBits]. rewrite <- !app_assoc.
  rewrite bind_unser by (cbn; unfold is_u32; lia). rewrite bind_unser.
  2: { cbn [valid c_vector]. unfold MAX_SIZE. repeat split; [lia|done|lia]. }
  rewrite bind_unser by (apply pack_size; eapply Nat.lt_le_trans; [exact Lb|]; apply (height_bound l); [done|lia]).
  unfold mret, reader_ret. by rewrite unpack_pack.
Qed.

(** ** Extraction from an untrusted tree *)

Lemma extract_bad pt h pos s : xBad s = true -> xBad (TraverseAndExtract pt h pos s).2 = true.
Proof.
  revert pos s. induction h as [|h IH]; intros pos s Hs; cbn [TraverseAndExtract].
  all: destruct (vBits pt !! nBitsUsed s) as [b|]; [|done]; cbn [nBitsUsed nHashUsed xMatch xBad].
  - by destruct (vHash pt !! nHashUsed s).
  - destruct b; cbn [negb]; [|by destruct (vHash pt !! nHashUsed s)].
    match goal with |- context [TraverseAndExtract pt h (u32 (pos * 2)) ?x] =>
      pose proof (IH (u32 (pos * 2)) x Hs) as H1; destruct (TraverseAndExtract pt h (u32 (pos * 2)) x) as [hl s1] end.
    destruct (_ <? _); [|done].
    pose proof (IH (u32 (pos * 2 + 1)) s1 H1) as H2.
    destruct (TraverseAndExtract pt h (u32 (pos * 2 + 1)) s1) as [hr s2]. by destruct (hr =? hl).
Qed.

(** The pairs that an extraction hashes. *)
Fixpoint extract_pairs (pt : CPartialMerkleTree) (height : nat) (pos : Z) (s : extract_state) : list (Z * Z) :=
  match height, vBits pt !! nBitsUsed s with
  | S h, Some true =>
    let s := mkExtract (S (nBitsUsed s)) (nHashUsed s) (xMatch s) (xBad s) in
    let '(hleft, s1) := TraverseAndExtract pt h (u32 (pos * 2)) s in
    extract_pairs pt h (u32 (pos * 2)) s ++
      (if u32 (pos * 2 + 1) <? CalcTreeWidth (nTransactions pt) h
       then extract_pairs pt h (u32 (pos * 2 + 1)) s1 ++ [(hleft, (TraverseAndExtract pt h (u32 (pos * 2 + 1)) s1).1)]
       else [(hleft, hleft)])
  | _, _ => []
  end.

(** A node above the leaves: a stored hash, or the hash of its children. *)
Lemma extract_node pt g pos s :
  let x := TraverseAndExtract pt (S g) pos s in
  xBad x.2 = false ->
  xMatch x.2 = xMatch s \/
  exists s0 hl s1, xMatch s0 = xMatch s /\ TraverseAndExtract pt g (u32 (pos * 2)) s0 = (hl, s1) /\ xBad s1 = false /\
    (forall p, p ∈ extract_pairs pt g (u32 (pos * 2)) s0 -> p ∈ extract_pairs pt (S g) pos s) /\
    (x = (hash2 hl hl, s1) /\ (hl, hl) ∈ extract_pairs pt (S g) pos s \/
     exists hr s2, TraverseAndExtract pt g (u32 (pos * 2 + 1)) s1 = (hr, s2) /\ hr <> hl /\ x = (hash2 hl hr, s2) /\ (hl, hr) ∈ extract_pairs pt (S g) pos s /\
       (forall p, p ∈ extract_pairs pt g (u32 (pos * 2 + 1)) s1 -> p ∈ extract_pairs pt (S g) pos s)).
Proof.
  cbn [TraverseAndExtract extract_pairs]. destruct (vBits pt !! nBitsUsed s) as [b|]; [|by left]. destruct b; cbn [negb].
  2: { intros _. left. cbn [nHashUsed]. by destruct (vHash pt !! nHashUsed s). }
  set (s0 := mkExtract (S (nBitsUsed s)) _ _ _). destruct (TraverseAndExtract pt g (u32 (pos * 2)) s0) as [hl s1] eqn:E1.
  destruct (_ <? _).
  - pose proof (extract_bad pt g (u32 (pos * 2 + 1)) s1) as Hmono. destruct (TraverseAndExtract pt g (u32 (pos * 2 + 1)) s1) as [hr s2] eqn:E2. cbn [fst snd] in *.
    destruct (Z.eqb_spec hr hl) as [|Hne]; [done|]. intros Hbad. right. exists s0, hl, s1. split_and!; [done|done| | |].
    + destruct (xBad s1); [by rewrite Hmono in Hbad|done].
    + intros p Hp. apply elem_of_app. by left.
    + right. exists hr, s2. rewrite !elem_of_app, list_elem_of_singleton. split_and!; auto. intros p Hp. rewrite !elem_of_app. auto.
  - intros Hbad. right. exists s0, hl, s1. split_and!; [done|done|done| |].
    + intros p Hp. apply elem_of_app. by left.
    + left. split; [done|]. apply elem_of_app. right. by apply list_elem_of_singleton.
Qed.

Section Extract.
Context (l : list Z) (pt : CPartialMerkleTree) (H : nat) (qs : list (Z * Z)).
Context (Hn : Z.of_nat (length l) <= 2 ^ 30) (HH : (H <= 30)%nat) (Hc : ~ collision (tree_pairs l H) qs).

(** A pair with the hash of a node above the leaves holds its children. *)
Lemma node_children h pos a b : (h < H)%nat -> (pos < length (row l (S h)))%nat -> (a, b) ∈ qs -> hash2 a b = nth pos (row l (S h)) 0 ->
  a = nth (2 * pos) (row l h) 0 /\ b = nth (Nat.min (2 * pos + 1) (length (row l h) - 1)) (row l h) 0.
Proof using Hc.
  intros Hh Hpos Hin E. rewrite row_S in Hpos, E. rewrite nth_level_up in E by done.
  pose proof (no_collision _ _ _ _ Hc (in_tree_pairs l H h _ Hh (nth_pairs _ _ Hpos)) Hin (eq_sym E)) as Hp. by apply pair_equal_spec in Hp as [-> ->].
Qed.

(** Extraction from a node [k] rows lower than claimed. *)
Lemma extract_sound k : forall h pos s, (k + h <= H)%nat -> (pos < length (row l (k + h)))%nat ->
  (forall p, p ∈ extract_pairs pt h (Z.of_nat pos) s -> p ∈ qs) ->
  xBad (TraverseAndExtract pt h (Z.of_nat pos) s).2 = false -> (TraverseAndExtract pt h (Z.of_nat pos) s).1 = nth pos (row l (k + h)) 0 ->
  exists found, xMatch (TraverseAndExtract pt h (Z.of_nat pos) s).2 = xMatch s ++ found /\ found `sublist_of` span h pos (row l k).
Proof using Hn HH Hc.
  induction h as [|h IH]; intros pos s Hh Hpos Hq Hbad.
  - revert Hbad. cbn [TraverseAndExtract]. rewrite Nat.add_0_r in *. destruct (vBits pt !! nBitsUsed s) as [b|]; [|done]. cbn [nHashUsed xMatch].
    destruct (vHash pt !! nHashUsed s) as [x|]; [|done]. cbn [fst snd xMatch xBad]. intros _ ->.
    destruct b; cbn [andb]; [|exists []; split; [by rewrite app_nil_r|apply sublist_nil_l]]. eexists. split; [done|].
    unfold span. cbn [Nat.pow]. rewrite Nat.mul_1_r. destruct (lookup_lt_is_Some_2 _ pos Hpos) as [y Ey].
    by rewrite (drop_S _ _ _ Ey), (nth_lookup_Some _ _ _ _ Ey).
  - intros Hroot. destruct (extract_node pt h (Z.of_nat pos) s Hbad) as [E|(s0 & hl & s1 & E0 & E1 & Hb1 & Hq1 & Hx)].
    { exists []. split; [by rewrite app_nil_r|apply sublist_nil_l]. }
    rewrite Nat.add_succ_r in Hpos, Hroot. destruct (child_positions l (k + h) pos Hn ltac:(lia) Hpos) as (P1 & P2 & Hl & _). rewrite span_split.
    pose proof (IH (2 * pos)%nat s0 ltac:(lia) Hl) as IHl. rewrite <- P1, E1, E0 in IHl. specialize (IHl (fun p Hp => Hq p (Hq1 p Hp)) Hb1).
    destruct Hx as [(Ex & Hin)|(hr & s2 & E2 & Hne & Ex & Hin & Hq2)]; rewrite Ex in *; cbn [fst snd] in *.
    + destruct (node_children (k + h) pos hl hl ltac:(lia) Hpos (Hq _ Hin) Hroot) as [Ha _]. destruct (IHl Ha) as (f1 & Ef & Hf).
      exists f1. split; [done|]. by apply sublist_inserts_r.
    + destruct (node_children (k + h) pos hl hr ltac:(lia) Hpos (Hq _ Hin) Hroot) as [Ha Hb]. destruct (IHl Ha) as (f1 & Ef1 & Hf1).
      assert (Hr : (2 * pos + 1 < length (row l (k + h)))%nat).
      { destruct (decide (2 * pos + 1 < length (row l (k + h)))%nat) as [|Hlast]; [done|]. destruct Hne. rewrite Ha, Hb. f_equal. lia. }
      rewrite Nat.min_l in Hb by lia. pose proof (IH (2 * pos + 1)%nat s1 ltac:(lia) Hr) as IHr. rewrite <- P2, E2 in IHr.
      destruct (IHr (fun p Hp => Hq p (Hq2 p Hp)) Hbad Hb) as (f2 & Ef2 & Hf2). exists (f1 ++ f2). cbn [snd] in Ef2. rewrite Ef2, Ef1, <- app_assoc.
      split; [done|]. by apply sublist_app.
Qed.

(** A tree claimed to be higher than it is yields no match. *)
Lemma extract_deep d (Hleaf : ~ leaf_is_node l qs) : forall h pos s, (h <= H)%nat -> (pos < length (row l h))%nat ->
  (forall p, p ∈ extract_pairs pt (S d + h) (Z.of_nat pos) s -> p ∈ qs) ->
  xBad (TraverseAndExtract pt (S d + h) (Z.of_nat pos) s).2 = false -> (TraverseAndExtract pt (S d + h) (Z.of_nat pos) s).1 = nth pos (row l h) 0 ->
  xMatch (TraverseAndExtract pt (S d + h) (Z.of_nat pos) s).2 = xMatch s.
Proof using Hn HH Hc.
  induction h as [|h IH]; intros pos s Hh Hpos Hq Hbad Hroot.
  - destruct (extract_node pt (d + 0) (Z.of_nat pos) s Hbad) as [E|(s0 & hl & s1 & E0 & E1 & Hb1 & Hq1 & Hx)]; [done|].
    assert (Hx' : exists a b, (a, b) ∈ qs /\ hash2 a b = nth pos l 0).
    { destruct Hx as [(Ex & Hin)|(hr & s2 & E2 & Hne & Ex & Hin & Hq2)]; cbn [Nat.add] in *; rewrite Ex in Hroot; cbn [fst] in Hroot; eauto. }
    destruct Hx' as (a & b & Hin & E). destruct Hleaf. apply list.Exists_exists. exists (a, b). split; [done|]. cbn [fst snd]. rewrite E.
    destruct (lookup_lt_is_Some_2 l pos Hpos) as [y Ey]. rewrite (nth_lookup_Some _ _ _ _ Ey). by apply list_elem_of_lookup_2 in Ey.
  - rewrite Nat.add_succ_r in *. destruct (extract_node pt (S d + h) (Z.of_nat pos) s Hbad) as [E|(s0 & hl & s1 & E0 & E1 & Hb1 & Hq1 & Hx)]; [done|].
    destruct (child_positions l h pos Hn ltac:(lia) Hpos) as (P1 & P2 & Hl & _).
    pose proof (IH (2 * pos)%nat s0 ltac:(lia) Hl) as IHl. rewrite <- P1, E1, E0 in IHl. specialize (IHl (fun p Hp => Hq p (Hq1 p Hp)) Hb1).
    destruct Hx as [(Ex & Hin)|(hr & s2 & E2 & Hne & Ex & Hin & Hq2)]; rewrite Ex in *; cbn [fst snd] in *.
    + destruct (node_children h pos hl hl ltac:(lia) Hpos (Hq _ Hin) Hroot) as [Ha _]. by apply IHl.
    + destruct (node_children h pos hl hr ltac:(lia) Hpos (Hq _ Hin) Hroot) as [Ha Hb].
      assert (Hr : (2 * pos + 1 < length (row l h))%nat).
      { destruct (decide (2 * pos + 1 < length (row l h))%nat) as [|Hlast]; [done|]. destruct Hne. rewrite Ha, Hb. f_equal. lia. }
      rewrite Nat.min_l in Hb by lia. pose proof (IH (2 * pos + 1)%nat s1 ltac:(lia) Hr) as IHr. rewrite <- P2, E2 in IHr.
      rewrite <- (IHl Ha). exact (IHr (fun p Hp => Hq p (Hq2 p Hp)) Hbad Hb).
Qed.
End Extract.

(** C39: extraction from a partial tree that anyone may have sent, claiming any number of
    transactions: when it returns the Merkle root of a block, the matches it reports are, in
    their order, nodes of the block's tree in the row as far below the root as the claimed
    number makes the leaves; these are the transactions of the block when the claimed number
    gives the height of its tree, as its own number does, and inner nodes when it gives a
    lower one.  Otherwise the pairs hashed by the extraction break the hash, with a
    collision with a pair of the block's tree or the hash of a transaction. *)
Theorem ExtractMatches_sound (l : list Z) (pt : CPartialMerkleTree) :
  l <> [] -> Z.of_nat (length l) <= 2 ^ 30 ->
  (ComputeMerkleRoot l).1 <> 0 -> (ExtractMatches pt).1 = (ComputeMerkleRoot l).1 ->
  let H := tree_height 32 (Z.of_nat (length l)) 0 in
  let claimed := tree_height 32 (nTransactions pt) 0 in
  let qs := extract_pairs pt claimed 0 (mkExtract 0 0 [] (fBad pt)) in
  (ExtractMatches pt).2 `sublist_of` row l (H - claimed) \/ collision (tree_pairs l H) qs \/ leaf_is_node l qs.
Proof.
  intros Hl Hn Hnz Hr. cbv zeta. revert Hnz Hr. pose proof (tree_height_rows l Hn) as HH. unfold ExtractMatches.
  set (H := tree_height 32 (Z.of_nat (length l)) 0) in *. rewrite (ComputeMerkleRoot_rows l H) by done. cbn [fst].
  intros Hnz. destruct (tree_rows_height l H Hn HH) as [HH30 _]. set (claimed := tree_height 32 (nTransactions pt) 0) in *.
  set (s0 := mkExtract 0 0 [] (fBad pt)). set (qs := extract_pairs pt claimed 0 s0).
  repeat (case_match; [cbn [fst snd]; intros; congruence|]).
  destruct (TraverseAndExtract pt claimed 0 s0) as [root s] eqn:Et.
  repeat (case_match; [cbn [fst snd]; intros; congruence|]). cbn [fst snd]. intros Hroot.
  destruct (decide (collision (tree_pairs l H) qs)) as [|Hc]; [auto|]. destruct (decide (leaf_is_node l qs)) as [|Hf]; [auto|]. left.
  destruct (decide (claimed <= H)%nat) as [Hle|Hle].
  - pose proof (extract_sound l pt H qs Hn HH30 Hc (H - claimed) claimed 0 s0 ltac:(lia)) as Hs. change (Z.of_nat 0) with 0 in Hs. rewrite Et in Hs.
    replace (H - claimed + claimed)%nat with H in Hs by lia. destruct (Hs (row_nonempty l H Hl)) as (found & Ef & Hsub); [done|done|done|]. cbn [snd xMatch app] in Ef. rewrite Ef.
    etrans; [exact Hsub|]. unfold span. rewrite Nat.mul_0_l. apply sublist_take.
  - pose proof (extract_deep l pt H qs Hn HH30 Hc (claimed - H - 1) Hf H 0 s0 ltac:(lia)) as Hs. change (Z.of_nat 0) with 0 in Hs.
    replace (S (claimed - H - 1) + H)%nat with claimed in Hs by lia. rewrite Et in Hs. cbn [snd fst] in Hs.
    rewrite (Hs (row_nonempty l H Hl)); [apply sublist_nil_l|done|done|done].
Qed.
End Merkle.

(** ** The hash of the blocks *)

(** The double SHA-256 of two 256-bit values. *)
Definition Hash_pair (a b : Z) : Z := le_value (SHA256 (SHA256 (le_bytes 32 a ++ le_bytes 32 b))).

(** [Hash(BEGIN(a), END(a), BEGIN(b), END(b))] of block.cpp and merkleblock.cpp
    and the block transform of [SHA256D64] of merkle.cpp are that function. *)
Lemma Hash_pair_computed buf a b :
  length buf = 64%nat ->
  Hash buf [le_bytes 32 a; le_bytes 32 b] = Hash_pair a b /\
  le_value (TransformD64 (le_bytes 32 a ++ le_bytes 32 b)) = Hash_pair a b.
Proof.
  intros Hb. unfold Hash, Hash_pair. split; apply (f_equal le_value).
  - apply CHash256_rep; [|rewrite length_app, !length_le_bytes; cbn; lia].
    by apply (writes_rep (H := CSHA256) [le_bytes 32 a; le_bytes 32 b] _ []), init_rep.
  - apply TransformD64_SHA256. by rewrite length_app, !length_le_bytes.
Qed.

(** The two transaction lists of the comment in block.cpp: the same root, the
    second list reported. *)
Example cve_2012_2459 :
  let l := [1; 2; 3; 4; 5; 6] in let l' := [1; 2; 3; 4; 5; 6; 5; 6] in
  ComputeMerkleRoot Hash_pair l = ((ComputeMerkleRoot Hash_pair l').1, false) /\
  (ComputeMerkleRoot Hash_pair l').2 = true /\ (BuildMerkleTree Hash_pair l').1.2 = true.
Proof. vm_compute. done. Qed.

Lemma merkle_roots_agree_witness :
  (BuildMerkleTree Hash_pair [1; 2; 3; 4; 5]).1.1 = merkle_root Hash_pair [1; 2; 3; 4; 5] 3.
Proof. exact (proj1 (proj2 (proj2 (merkle_roots_agree Hash_pair [1; 2; 3; 4; 5] ltac:(done) ltac:(done))))). Defined.

Lemma merkle_branch_roundtrip_witness :
  CheckMerkleBranch Hash_pair 5 (GetMerkleBranch 4 5 (BuildMerkleTree Hash_pair [1; 2; 3; 4; 5]).2) 4
  = (ComputeMerkleRoot Hash_pair [1; 2; 3; 4; 5]).1.
Proof. exact (merkle_branch_roundtrip Hash_pair [1; 2; 3; 4; 5] 4 ltac:(cbn; lia) ltac:(done)). Defined.

(** With a weak hash two lists lead to the same root, and the trees show the collision;
    with the program's, three given hashes and three others break nothing. *)
Lemma merkle_root_binding_witness :
  hash_broken (fun a b => a + 2 * b) [11; 12; 13] [13; 11; 13] /\ ~ hash_broken Hash_pair [1; 2; 3] [4; 5; 6].
Proof.
  split.
  - destruct (merkle_root_binding (fun a b => a + 2 * b) [11; 12; 13] [13; 11; 13]) as [E|Hb]; [done|done|done|done|reflexivity|reflexivity|reflexivity|discriminate E|exact Hb].
  - apply (bool_decide_unpack (~ hash_broken Hash_pair [1; 2; 3] [4; 5; 6])). vm_compute. exact I.
Defined.

Lemma ExtractMatches_sound_witness (l := [1; 2; 3]) (pt := new_pmt Hash_pair l [false; true; true]) :
  (ExtractMatches Hash_pair 1 pt).2 `sublist_of` l.
Proof.
  destruct (ExtractMatches_sound Hash_pair 1 l pt) as [Hs|[Hc|Hf]]; [done|done|vm_compute; discriminate|vm_compute; reflexivity|exact Hs| |].
  - exfalso. revert Hc. apply (bool_decide_unpack (~ collision Hash_pair _ _)). vm_compute. exact I.
  - exfalso. revert Hf. apply (bool_decide_unpack (~ leaf_is_node Hash_pair _ _)). vm_compute. exact I.
Defined.

(** Four transactions, claimed to be two: the matches are the inner nodes. *)
Lemma claimed_count_reports_nodes :
  let l := [1; 2; 3; 4] in let nodes := [Hash_pair 1 2; Hash_pair 3 4] in
  ExtractMatches Hash_pair 1 (mkPmt 2 [true; true; true] nodes false) = ((ComputeMerkleRoot Hash_pair l).1, nodes).
Proof. vm_compute. reflexivity. Qed.

Lemma small_uint256 x : 0 <= x < 1000 -> valid c_uint256 x.
Proof. intros Hx. split; [lia|]. apply (Z.lt_trans _ 1000); [lia|done]. Qed.

Lemma partial_tree_roundtrip_witness :
  exists pt, unser_pmt (ser_pmt (new_pmt (fun a b => (a + 2 * b) mod 2 ^ 256) [11; 12; 13] [false; true; true]) ++ [7]) = Some (pt, [7]) /\
    ExtractMatches (fun a b => (a + 2 * b) mod 2 ^ 256) 1 pt = (113, [12; 13]).
Proof.
  apply (partial_tree_roundtrip (fun a b => (a + 2 * b) mod 2 ^ 256) 1 [11; 12; 13] [false; true; true] [7]).
  - discriminate.
  - reflexivity.
  - vm_compute. discriminate.
  - repeat (apply list.Forall_cons_2; [by apply small_uint256|]). apply list.Forall_nil_2.
  - intros a b. apply Z.mod_pos_bound. reflexivity.
  - vm_compute. reflexivity.
Defined.
