(* ===== verification/BlockIndex.v ===== *)
(** * Block index entries and chains (src/src/chain.h, src/src/chain.cpp,
      and LastCommonAncestor and FindForkInGlobalIndex of src/src/main.cpp)

    [CBlockIndex] objects live in a store from addresses to records; a pointer
    is an address, [NULL] is [None].  A function that would dereference a
    dangling pointer or fail an assertion returns the outer [None]; the theorems
    show that on a well-formed store this does not happen.  Heights are [int]s
    that never overflow: a chain is far shorter than [2^31]. *)
From S2P Require Import Prelude Arith256.
From stdpp Require Import sorting.
#[local] Open Scope Z_scope.

(** ** CBlockIndex *)

Record CBlockIndex := mkIndex {
  phashBlock : Z;
  pprev : option Z;
  pskip : option Z;
  nHeight : Z;
  nFile : Z;
  nDataPos : Z;
  nUndoPos : Z;
  nChainWork : base_uint;
  nTx : Z;
  nChainTx : Z;
  nStatus : Z;
  nSproutValue : option Z;
  nChainSproutValue : option Z;
  nSaplingValue : Z;
  nChainSaplingValue : option Z;
  bi_nVersion : Z;
  bi_hashMerkleRoot : Z;
  bi_hashFinalSaplingRoot : Z;
  bi_nTime : Z;
  bi_nBits : Z;
  bi_nNonce : Z;
  bi_nSolution : bytes;
  nSequenceId : Z
}.

Abbreviation store := (gmap Z CBlockIndex).

Definition BLOCK_VALID_TREE : Z := 2.
Definition BLOCK_VALID_TRANSACTIONS : Z := 3.
Definition BLOCK_VALID_SCRIPTS : Z := 5.
Definition BLOCK_VALID_MASK : Z := Z.lor 1 (Z.lor 2 (Z.lor 3 (Z.lor 4 5))).
Definition BLOCK_HAVE_DATA : Z := 8.
Definition BLOCK_HAVE_UNDO : Z := 16.
Definition BLOCK_FAILED_VALID : Z := 32.
Definition BLOCK_FAILED_CHILD : Z := 64.
Definition BLOCK_FAILED_MASK : Z := Z.lor 32 64.

(** The statements [pindex->field = value]. *)
Definition set_pskip (v : option Z) (b : CBlockIndex) : CBlockIndex :=
  mkIndex (phashBlock b) (pprev b) v (nHeight b) (nFile b) (nDataPos b) (nUndoPos b) (nChainWork b) (nTx b)
    (nChainTx b) (nStatus b) (nSproutValue b) (nChainSproutValue b) (nSaplingValue b) (nChainSaplingValue b)
    (bi_nVersion b) (bi_hashMerkleRoot b) (bi_hashFinalSaplingRoot b) (bi_nTime b) (bi_nBits b) (bi_nNonce b)
    (bi_nSolution b) (nSequenceId b).
Definition set_nStatus (v : Z) (b : CBlockIndex) : CBlockIndex :=
  mkIndex (phashBlock b) (pprev b) (pskip b) (nHeight b) (nFile b) (nDataPos b) (nUndoPos b) (nChainWork b) (nTx b)
    (nChainTx b) v (nSproutValue b) (nChainSproutValue b) (nSaplingValue b) (nChainSaplingValue b)
    (bi_nVersion b) (bi_hashMerkleRoot b) (bi_hashFinalSaplingRoot b) (bi_nTime b) (bi_nBits b) (bi_nNonce b)
    (bi_nSolution b) (nSequenceId b).
Definition set_nSolution (v : bytes) (b : CBlockIndex) : CBlockIndex :=
  mkIndex (phashBlock b) (pprev b) (pskip b) (nHeight b) (nFile b) (nDataPos b) (nUndoPos b) (nChainWork b) (nTx b)
    (nChainTx b) (nStatus b) (nSproutValue b) (nChainSproutValue b) (nSaplingValue b) (nChainSaplingValue b)
    (bi_nVersion b) (bi_hashMerkleRoot b) (bi_hashFinalSaplingRoot b) (bi_nTime b) (bi_nBits b) (bi_nNonce b)
    v (nSequenceId b).

Definition HasSolution (b : CBlockIndex) : bool := negb (length (bi_nSolution b) =? 0)%nat.
Definition TrimSolution (b : CBlockIndex) : CBlockIndex := if HasSolution b then set_nSolution [] b else b.

Definition GetBlockPos (b : CBlockIndex) : Z * Z :=
  if negb (Z.land (nStatus b) BLOCK_HAVE_DATA =? 0) then (nFile b, nDataPos b) else (-1, 0).
Definition GetUndoPos (b : CBlockIndex) : Z * Z :=
  if negb (Z.land (nStatus b) BLOCK_HAVE_UNDO =? 0) then (nFile b, nUndoPos b) else (-1, 0).

Definition IsValid (nUpTo : Z) (b : CBlockIndex) : bool :=
  if negb (Z.land (nStatus b) BLOCK_FAILED_MASK =? 0) then false
  else Z.land (nStatus b) BLOCK_VALID_MASK >=? nUpTo.

(** The entry and whether the validity changed. *)
Definition RaiseValidity (nUpTo : Z) (b : CBlockIndex) : CBlockIndex * bool :=
  if negb (Z.land (nStatus b) BLOCK_FAILED_MASK =? 0) then (b, false)
  else if Z.land (nStatus b) BLOCK_VALID_MASK <? nUpTo
  then (set_nStatus (Z.lor (Z.land (nStatus b) (Z.lnot BLOCK_VALID_MASK)) nUpTo) b, true)
  else (b, false).

(** *** Skip pointers *)

Definition InvertLowestOne (n : Z) : Z := Z.land n (n - 1).

Definition GetSkipHeight (height : Z) : Z :=
  if height <? 2 then 0
  else if negb (Z.land height 1 =? 0)
  then InvertLowestOne (InvertLowestOne (height - 1)) + 1
  else InvertLowestOne height.

Section Store.
Context (objs : store).

Fixpoint ancestor_loop (fuel : nat) (height : Z) (pindexWalk : option Z) (heightWalk : Z) : option (option Z) :=
  match fuel with
  | O => None
  | S fuel =>
    match (if heightWalk >? height then pindexWalk else None) with
    | None => Some pindexWalk
    | Some w =>
      b ← objs !! w;
      let heightSkip := GetSkipHeight heightWalk in
      let heightSkipPrev := GetSkipHeight (heightWalk - 1) in
      if match pskip b with None => false | Some _ => true end &&
         ((heightSkip =? height) ||
          ((heightSkip >? height) && negb ((heightSkipPrev <? heightSkip - 2) && (heightSkipPrev >=? height))))
      then ancestor_loop fuel height (pskip b) heightSkip
      else q ← pprev b; ancestor_loop fuel height (Some q) (heightWalk - 1)
    end
  end.

Definition GetAncestor (p : Z) (height : Z) : option (option Z) :=
  b ← objs !! p;
  if (height >? nHeight b) || (height <? 0) then Some None
  else ancestor_loop (S (Z.to_nat (nHeight b))) height (Some p) (nHeight b).

(** The times of the last 11 blocks, the block's own last. *)
Fixpoint last_times (n : nat) (p : option Z) (acc : list Z) : option (list Z) :=
  match n, p with
  | S n, Some p => b ← objs !! p; last_times n (pprev b) (bi_nTime b :: acc)
  | _, _ => Some acc
  end.

(** [std::sort], then the middle element. *)
Definition GetMedianTimePast (p : Z) : option Z :=
  times ← last_times 11 (Some p) [];
  merge_sort Z.le times !! (length times / 2)%nat.

(** ** CChain *)

Definition chain_at (vChain : list (option Z)) (h : Z) : option Z :=
  if (h <? 0) || (h >=? Z.of_nat (length vChain)) then None
  else match vChain !! Z.to_nat h with Some r => r | None => None end.

Definition Genesis (vChain : list (option Z)) : option Z := chain_at vChain 0.
Definition Height (vChain : list (option Z)) : Z := Z.of_nat (length vChain) - 1.
Definition Tip (vChain : list (option Z)) : option Z := chain_at vChain (Height vChain).

Definition Contains (vChain : list (option Z)) (p : Z) : option bool :=
  b ← objs !! p; Some (bool_decide (chain_at vChain (nHeight b) = Some p)).

Definition Next (vChain : list (option Z)) (p : Z) : option (option Z) :=
  b ← objs !! p; c ← Contains vChain p;
  Some (if c : bool then chain_at vChain (nHeight b + 1) else None).

Fixpoint set_tip_loop (fuel : nat) (pindex : option Z) (vChain : list (option Z)) : option (list (option Z)) :=
  match pindex with
  | None => Some vChain
  | Some p =>
    match fuel with
    | O => None
    | S fuel =>
      b ← objs !! p;
      c ← Contains vChain p;
      if c : bool then Some vChain
      else set_tip_loop fuel (pprev b) (<[Z.to_nat (nHeight b) := Some p]> vChain)
    end
  end.

Definition SetTip (pindex : option Z) (vChain : list (option Z)) : option (list (option Z)) :=
  match pindex with
  | None => Some []
  | Some p =>
    b ← objs !! p;
    let n := S (Z.to_nat (nHeight b)) in
    set_tip_loop n (Some p) (take n vChain ++ replicate (n - length vChain) None)
  end.

Fixpoint locator_loop (fuel : nat) (vChain : list (option Z)) (pindex : option Z) (nStep : Z) (vHave : list Z)
    : option (list Z) :=
  match pindex with
  | None => Some vHave
  | Some p =>
    match fuel with
    | O => None
    | S fuel =>
      b ← objs !! p;
      let vHave := vHave ++ [phashBlock b] in
      if nHeight b =? 0 then Some vHave
      else
        let h := Z.max (nHeight b - nStep) 0 in
        c ← Contains vChain p;
        next ← (if c : bool then Some (chain_at vChain h) else GetAncestor p h);
        locator_loop fuel vChain next (if (10 <? length vHave)%nat then i32 (nStep * 2) else nStep) vHave
    end
  end.

Definition GetLocator (vChain : list (option Z)) (pindex : option Z) : option (list Z) :=
  let start := match pindex with None => Tip vChain | Some _ => pindex end in
  match start with
  | None => Some []
  | Some p => b ← objs !! p; locator_loop (S (Z.to_nat (nHeight b))) vChain start 1 []
  end.

Fixpoint fork_loop (fuel : nat) (vChain : list (option Z)) (pindex : option Z) : option (option Z) :=
  match pindex with
  | None => Some None
  | Some p =>
    match fuel with
    | O => None
    | S fuel =>
      c ← Contains vChain p;
      if c : bool then Some (Some p) else b ← objs !! p; fork_loop fuel vChain (pprev b)
    end
  end.

Definition FindFork (vChain : list (option Z)) (pindex : option Z) : option (option Z) :=
  match pindex with
  | None => Some None
  | Some p =>
    b ← objs !! p;
    start ← (if nHeight b >? Height vChain then GetAncestor p (Height vChain) else Some (Some p));
    fork_loop (S (Z.to_nat (nHeight b))) vChain start
  end.

(** ** Functions of main.cpp on the index *)

Fixpoint common_loop (fuel : nat) (pa pb : option Z) : option (option Z) :=
  match pa, pb with
  | Some a, Some b =>
    if a =? b then Some pa
    else match fuel with
         | O => None
         | S fuel => ba ← objs !! a; bb ← objs !! b; common_loop fuel (pprev ba) (pprev bb)
         end
  | None, None => Some None
  | _, _ => None
  end.

Definition LastCommonAncestor (pa pb : Z) : option (option Z) :=
  ba ← objs !! pa; bb ← objs !! pb;
  a ← (if nHeight ba >? nHeight bb then GetAncestor pa (nHeight bb) else Some (Some pa));
  b ← (if nHeight ba >? nHeight bb then Some (Some pb)
       else if nHeight bb >? nHeight ba then GetAncestor pb (nHeight ba) else Some (Some pb));
  common_loop (S (Z.to_nat (nHeight ba))) a b.

Fixpoint FindForkInGlobalIndex (mapBlockIndex : gmap Z (option Z)) (vChain : list (option Z)) (vHave : list Z)
    : option (option Z) :=
  match vHave with
  | [] => Some (Genesis vChain)
  | hash :: vHave =>
    match mapBlockIndex !! hash with
    | Some (Some p) =>
      c ← Contains vChain p;
      if c : bool then Some (Some p)
      else
        a ← GetAncestor p (Height vChain);
        if bool_decide (a = Tip vChain) then Some (Tip vChain)
        else FindForkInGlobalIndex mapBlockIndex vChain vHave
    | _ => FindForkInGlobalIndex mapBlockIndex vChain vHave
    end
  end.
End Store.

(** [BuildSkip] of the entry at [p]. *)
Definition BuildSkip (objs : store) (p : Z) : option store :=
  b ← objs !! p;
  match pprev b with
  | None => Some objs
  | Some q => a ← GetAncestor objs q (GetSkipHeight (nHeight b)); Some (<[p := set_pskip a b]> objs)
  end.

(** ** Well-formed stores *)

(** The reference: [n] steps along [pprev]. *)
Fixpoint back (objs : store) (n : nat) (p : Z) : option Z :=
  match n with
  | O => Some p
  | S n => b ← objs !! p; q ← pprev b; back objs n q
  end.

(** An entry is one above its predecessor, and its skip pointer, if set, is the
    ancestor at the skip height. *)
Definition entry_ok (objs : store) (p : Z) (b : CBlockIndex) : Prop :=
  0 <= nHeight b /\
  match pprev b with
  | None => nHeight b = 0
  | Some q => exists c, objs !! q = Some c /\ nHeight b = nHeight c + 1
  end /\
  (forall s, pskip b = Some s -> back objs (Z.to_nat (nHeight b - GetSkipHeight (nHeight b))) p = Some s).

Definition wf_store (objs : store) : Prop := forall p b, objs !! p = Some b -> entry_ok objs p b.

Lemma InvertLowestOne_bound n : 0 < n -> 0 <= InvertLowestOne n < n.
Proof.
  intros Hn. unfold InvertLowestOne.
  assert (0 <= Z.land n (n - 1) <= n - 1); [|lia]. apply Z.ldiff_le; [lia|].
  apply Z.bits_inj'. intros k _. rewrite Z.ldiff_spec, Z.land_spec, Z.bits_0.
  destruct (Z.testbit n k), (Z.testbit (n - 1) k); done.
Qed.

Lemma GetSkipHeight_bound h : 0 < h -> 0 <= GetSkipHeight h < h.
Proof.
  intros Hh. unfold GetSkipHeight. destruct (Z.ltb_spec h 2); [lia|].
  destruct (negb (Z.land h 1 =? 0)) eqn:E; [|apply InvertLowestOne_bound; lia].
  assert (h <> 2) by (by intros ->).
  pose proof (InvertLowestOne_bound (h - 1) ltac:(lia)) as H1.
  destruct (decide (InvertLowestOne (h - 1) = 0)) as [->|]; [change (InvertLowestOne 0) with 0; lia|].
  pose proof (InvertLowestOne_bound (InvertLowestOne (h - 1)) ltac:(lia)). lia.
Qed.

Section Ancestors.
Context (objs : store).

Lemma back_add n m p : back objs (n + m) p = back objs n p ≫= back objs m.
Proof.
  revert p. induction n as [|n IH]; intros p; [done|]. cbn [back Nat.add].
  destruct (objs !! p) as [b|]; [|done]. cbn. destruct (pprev b); [cbn; apply IH|done].
Qed.

Context (Hwf : wf_store objs).

(** Walking back from an entry of height [h]: [n <= h] steps lead to an entry
    of height [h - n], more lead nowhere. *)
Lemma back_height n p b :
  objs !! p = Some b ->
  if (Z.of_nat n <=? nHeight b) then exists q c, back objs n p = Some q /\ objs !! q = Some c /\ nHeight c = nHeight b - Z.of_nat n
  else back objs n p = None.
Proof.
  revert p b. induction n as [|n IH]; intros p b Hp.
  - destruct (Hwf p b Hp) as [Hh _]. rewrite (proj2 (Z.leb_le _ _)) by lia. exists p, b. repeat split; [done|lia].
  - destruct (Hwf p b Hp) as (Hh & Hprev & _). cbn [back]. rewrite Hp. cbn [mbind option_bind].
    destruct (pprev b) as [q|]; [|rewrite (proj2 (Z.leb_gt _ _)) by lia; done].
    destruct Hprev as (c & Hq & Hc). cbn [mbind option_bind]. specialize (IH q c Hq).
    destruct (Z.leb_spec (Z.of_nat n) (nHeight c)).
    + rewrite (proj2 (Z.leb_le _ _)) by lia. destruct IH as (r & d & E & Hr & Hd). exists r, d. repeat split; [done|done|lia].
    + by rewrite (proj2 (Z.leb_gt _ _)) by lia.
Qed.

Lemma back_entry n p b q :
  objs !! p = Some b -> back objs n p = Some q ->
  exists c, objs !! q = Some c /\ nHeight c = nHeight b - Z.of_nat n.
Proof.
  intros Hp Hq. pose proof (back_height n p b Hp) as H. destruct (Z.leb_spec (Z.of_nat n) (nHeight b)).
  - destruct H as (q' & c & E & Hc). simplify_eq. eauto.
  - congruence.
Qed.

Lemma back_exists n p b :
  objs !! p = Some b -> Z.of_nat n <= nHeight b ->
  exists q c, back objs n p = Some q /\ objs !! q = Some c /\ nHeight c = nHeight b - Z.of_nat n.
Proof. intros Hp Hn. pose proof (back_height n p b Hp) as H. by rewrite (proj2 (Z.leb_le _ _) Hn) in H. Qed.

Lemma back_S_r n p q c : back objs n p = Some q -> objs !! q = Some c -> back objs (S n) p = pprev c.
Proof.
  intros Hq Hc. replace (S n) with (n + 1)%nat by lia. rewrite back_add, Hq. cbn. rewrite Hc. cbn. by destruct (pprev c).
Qed.

Lemma ancestor_loop_correct fuel height w b :
  objs !! w = Some b -> 0 <= height <= nHeight b -> (Z.to_nat (nHeight b) < fuel)%nat ->
  ancestor_loop objs fuel height (Some w) (nHeight b) = Some (back objs (Z.to_nat (nHeight b - height)) w).
Proof.
  revert w b. induction fuel as [|fuel IH]; intros w b Hw Hh Hf; [lia|]. cbn [ancestor_loop].
  destruct (Z.gtb_spec (nHeight b) height) as [Hgt|Hle].
  2: { by replace (Z.to_nat (nHeight b - height)) with 0%nat by lia. }
  rewrite Hw. cbn [mbind option_bind]. destruct (Hwf w b Hw) as (_ & Hprev & Hskip).
  pose proof (GetSkipHeight_bound (nHeight b) ltac:(lia)) as Hsk.
  destruct (_ && _) eqn:Econd.
  - apply andb_prop in Econd as [Es Econd]. destruct (pskip b) as [s|]; [|done].
    assert (height <= GetSkipHeight (nHeight b)) as Hge.
    { apply orb_prop in Econd as [E|E]; [bool_to_prop; lia|]. apply andb_prop in E as [E _]. apply Z.gtb_lt in E. lia. }
    pose proof (Hskip s eq_refl) as Eback. destruct (back_entry _ w b s Hw Eback) as (c & Hs & Hc).
    replace (GetSkipHeight (nHeight b)) with (nHeight c) by lia. rewrite (IH s c) by (done || lia).
    replace (Z.to_nat (nHeight b - height))
      with (Z.to_nat (nHeight b - GetSkipHeight (nHeight b)) + Z.to_nat (nHeight c - height))%nat by lia.
    by rewrite back_add, Eback.
  - clear Econd. destruct (pprev b) as [q|] eqn:Ep; [|lia]. destruct Hprev as (c & Hq & Hc). cbn [mbind option_bind].
    replace (nHeight b - 1) with (nHeight c) by lia. rewrite (IH q c) by (done || lia).
    replace (Z.to_nat (nHeight b - height)) with (S (Z.to_nat (nHeight c - height))) by lia.
    cbn [back]. rewrite Hw. cbn. by rewrite Ep.
Qed.

Lemma GetAncestor_back p b height :
  objs !! p = Some b ->
  GetAncestor objs p height =
    Some (if (0 <=? height) && (height <=? nHeight b) then back objs (Z.to_nat (nHeight b - height)) p else None).
Proof.
  intros Hp. unfold GetAncestor. rewrite Hp. cbn [mbind option_bind]. rewrite Z.gtb_ltb.
  destruct (Z.ltb_spec (nHeight b) height), (Z.ltb_spec height 0); cbn [orb].
  all: destruct (Z.leb_spec 0 height), (Z.leb_spec height (nHeight b)); cbn [andb]; try lia; try done.
  apply ancestor_loop_correct; [done|lia|lia].
Qed.

(** ** Chains *)

(** The chain from the genesis block to [p], a block of height [h]. *)
Definition path (p : Z) (h : nat) : list (option Z) := (fun i => back objs (h - i) p) <$> seq 0 (S h).

Definition chain_ok (v : list (option Z)) : Prop :=
  v = [] \/ exists p b, objs !! p = Some b /\ v = path p (Z.to_nat (nHeight b)).

Lemma length_path p h : length (path p h) = S h.
Proof. unfold path. by rewrite length_fmap, length_seq. Qed.

Lemma path_lookup p h i : (i <= h)%nat -> path p h !! i = Some (back objs (h - i) p).
Proof. intros Hi. unfold path. rewrite list_lookup_fmap, lookup_seq_lt by lia. done. Qed.

Lemma path_lookup_inv p h i r : path p h !! i = Some r -> (i <= h)%nat /\ r = back objs (h - i) p.
Proof.
  intros E. assert (i < length (path p h))%nat as Hi by (by apply lookup_lt_is_Some; eauto).
  rewrite length_path in Hi. rewrite path_lookup in E by lia. split; [lia|by simplify_eq].
Qed.

Lemma chain_at_path p h k :
  chain_at (path p h) k = if (0 <=? k) && (k <=? Z.of_nat h) then back objs (h - Z.to_nat k) p else None.
Proof.
  unfold chain_at. rewrite length_path, Z.geb_leb.
  destruct (Z.ltb_spec k 0), (Z.leb_spec (Z.of_nat (S h)) k); cbn [orb].
  all: destruct (Z.leb_spec 0 k), (Z.leb_spec k (Z.of_nat h)); cbn [andb]; try lia; try done.
  by rewrite path_lookup by lia.
Qed.

(** Every entry of a list that is closed below an index leads to the ones below it. *)
Definition closed_below (v : list (option Z)) (k : nat) : Prop :=
  forall i x j, (j <= i <= k)%nat -> v !! i = Some (Some x) -> v !! j = Some (back objs (i - j) x).

Lemma path_closed p b k :
  objs !! p = Some b -> closed_below (path p (Z.to_nat (nHeight b))) k.
Proof.
  intros Hp i x j Hij Hx. apply path_lookup_inv in Hx as [Hi Hx]. rewrite path_lookup by lia. f_equal.
  replace (Z.to_nat (nHeight b) - j)%nat with (Z.to_nat (nHeight b) - i + (i - j))%nat by lia.
  by rewrite back_add, <- Hx.
Qed.

Lemma Contains_eq v q c : objs !! q = Some c -> Contains objs v q = Some (bool_decide (chain_at v (nHeight c) = Some q)).
Proof. intros Hq. unfold Contains. by rewrite Hq. Qed.

Lemma chain_at_lookup v k : (k < length v)%nat -> chain_at v (Z.of_nat k) = v !!! k.
Proof.
  intros Hk. unfold chain_at. rewrite Z.geb_leb, (proj2 (Z.ltb_ge _ _)), (proj2 (Z.leb_gt _ _)) by lia. cbn [orb].
  rewrite Nat2Z.id. destruct (lookup_lt_is_Some_2 v k Hk) as [r E]. rewrite E. symmetry. by apply list_lookup_total_correct.
Qed.

Lemma set_tip_loop_path p b v k q fuel :
  objs !! p = Some b -> let h := Z.to_nat (nHeight b) in
  (k <= h)%nat -> back objs (h - k) p = Some q -> length v = S h -> closed_below v k ->
  (forall i, (k < i <= h)%nat -> v !! i = Some (back objs (h - i) p)) -> (k < fuel)%nat ->
  set_tip_loop objs fuel (Some q) v = Some (path p h).
Proof.
  intros Hp h. revert v q fuel. induction k as [k IH] using lt_wf_ind. intros v q fuel Hk Hq Hlen Hclosed Habove Hf.
  destruct (back_entry _ p b q Hp Hq) as (c & Hc & Hch). destruct (Hwf p b Hp) as [Hb0 _].
  assert (nHeight c = Z.of_nat k) as Hck by lia. destruct fuel as [|fuel]; [lia|]. cbn [set_tip_loop].
  rewrite (Contains_eq v q c Hc), Hc. cbn [mbind option_bind]. rewrite Hck, chain_at_lookup, Nat2Z.id by lia.
  destruct (lookup_lt_is_Some_2 v k ltac:(lia)) as [r Er]. rewrite (list_lookup_total_correct _ _ _ Er).
  destruct (bool_decide_reflect (r = Some q)) as [->|Hne].
  - f_equal. apply list_eq_same_length with (n := S h); [by rewrite length_path|done|]. intros i x y Hi Hx Hy.
    apply path_lookup_inv in Hy as [_ ->]. destruct (decide (k < i)%nat); [by rewrite Habove in Hx by lia; simplify_eq|].
    rewrite (Hclosed k q i) in Hx by (done || lia). simplify_eq.
    replace (h - i)%nat with (h - k + (k - i))%nat by lia. by rewrite back_add, Hq.
  - assert (forall i, (k <= i <= h)%nat -> <[k := Some q]> v !! i = Some (back objs (h - i) p)) as Habove'.
    { intros i Hi. destruct (decide (i = k)) as [->|]; [rewrite list_lookup_insert_eq by lia; by rewrite Hq|].
      rewrite list_lookup_insert_ne by done. apply Habove. lia. }
    destruct (Hwf q c Hc) as (_ & Hprev & _). destruct (pprev c) as [q'|] eqn:Ep.
    + destruct Hprev as (c' & Hq' & Hc'). destruct k as [|k]; [destruct (Hwf q' c' Hq'); lia|].
      apply (IH k); [lia|lia| |by rewrite length_insert| |intros; apply Habove'; lia|lia].
      * replace (h - k)%nat with (S (h - S k)) by lia. by rewrite (back_S_r _ p q c).
      * intros i x j Hij. rewrite !list_lookup_insert_ne by lia. apply Hclosed. lia.
    + assert (k = 0%nat) as -> by lia. assert (forall f w, set_tip_loop objs f None w = Some w) as -> by (by intros []).
      f_equal. apply list_eq_same_length with (n := S h); [by rewrite length_path|by rewrite length_insert|].
      intros i x y Hi Hx Hy. apply path_lookup_inv in Hy as [_ ->]. rewrite Habove' in Hx by lia. by simplify_eq.
Qed.

(** [SetTip] on a chain makes it the chain of the new tip. *)
Lemma SetTip_path v p b :
  chain_ok v -> objs !! p = Some b -> SetTip objs (Some p) v = Some (path p (Z.to_nat (nHeight b))).
Proof.
  intros Hv Hp. unfold SetTip. rewrite Hp. cbn [mbind option_bind]. set (h := Z.to_nat (nHeight b)).
  apply (set_tip_loop_path p b _ h p); [done|lia|by rewrite Nat.sub_diag| | |lia|lia].
  - rewrite length_app, length_take, length_replicate. lia.
  - destruct Hv as [->|(p0 & b0 & Hp0 & ->)].
    + intros i x j Hij. rewrite take_nil. cbn [app length]. intros [E _]%lookup_replicate. done.
    + set (v := path p0 _). intros i x j Hij. destruct (decide (i < length v)%nat).
      * rewrite !lookup_app_l, !lookup_take_lt by (rewrite ?length_take; lia).
        apply (path_closed p0 b0 i); [done|lia].
      * rewrite lookup_app_r by (rewrite length_take; lia). intros [E _]%lookup_replicate. done.
Qed.

(** ** Forks *)

Definition in_chain (v : list (option Z)) (p : Z) : Prop := Contains objs v p = Some true.

Lemma Contains_total v p b : objs !! p = Some b -> Contains objs v p = Some true \/ Contains objs v p = Some false.
Proof. intros Hp. rewrite (Contains_eq v p b Hp). by destruct (bool_decide _); auto. Qed.

(** [r] is the first of [p], its predecessor, ... that [v] contains. *)
Definition first_in_chain (v : list (option Z)) (p : Z) (r : option Z) : Prop :=
  match r with
  | Some f => exists n, back objs n p = Some f /\ in_chain v f /\ forall m x, (m < n)%nat -> back objs m p = Some x -> ~ in_chain v x
  | None => forall m x, back objs m p = Some x -> ~ in_chain v x
  end.

Lemma back_S_l n p b : objs !! p = Some b -> back objs (S n) p = match pprev b with Some q => back objs n q | None => None end.
Proof. intros Hp. cbn [back]. rewrite Hp. cbn. by destruct (pprev b). Qed.

Lemma first_in_chain_step v p b q r :
  objs !! p = Some b -> pprev b = Some q -> ~ in_chain v p -> first_in_chain v q r -> first_in_chain v p r.
Proof.
  intros Hp Eq Hno. destruct r as [f|]; cbn.
  - intros (n & En & Hin & Hmin). exists (S n). rewrite (back_S_l _ _ _ Hp), Eq. repeat split; [done|done|].
    intros [|m] x Hm Hx; [by cbn in Hx; simplify_eq|]. rewrite (back_S_l _ _ _ Hp), Eq in Hx. apply (Hmin m); [lia|done].
  - intros Hmin [|m] x Hx; [by cbn in Hx; simplify_eq|]. rewrite (back_S_l _ _ _ Hp), Eq in Hx. by apply (Hmin m).
Qed.

Lemma fork_loop_first v fuel p b :
  objs !! p = Some b -> (Z.to_nat (nHeight b) < fuel)%nat ->
  exists r, fork_loop objs fuel v (Some p) = Some r /\ first_in_chain v p r.
Proof.
  revert p b. induction fuel as [|fuel IH]; intros p b Hp Hf; [lia|]. cbn [fork_loop].
  destruct (Contains_total v p b Hp) as [E|E]; rewrite E; cbn [mbind option_bind].
  - eexists. split; [done|]. exists 0%nat. repeat split; [done|]. lia.
  - rewrite Hp. cbn [mbind option_bind]. destruct (Hwf p b Hp) as (_ & Hprev & _).
    assert (~ in_chain v p) as Hno by (unfold in_chain; by rewrite E). destruct (pprev b) as [q|] eqn:Eq.
    + destruct Hprev as (c & Hq & Hc). destruct (Hwf q c Hq) as [Hc0 _].
      destruct (IH q c Hq ltac:(lia)) as (r & Er & Hr). exists r. split; [done|]. by apply (first_in_chain_step v p b q).
    + exists None. split; [by destruct fuel|]. intros [|m] x Hx; [by cbn in Hx; simplify_eq|].
      by rewrite (back_S_l _ _ _ Hp), Eq in Hx.
Qed.

Lemma above_chain v p b : objs !! p = Some b -> Height v < nHeight b -> ~ in_chain v p.
Proof.
  intros Hp Hh. unfold in_chain. rewrite (Contains_eq v p b Hp). unfold chain_at, Height in *.
  rewrite Z.geb_leb, (proj2 (Z.leb_le _ (nHeight b))), orb_true_r by lia. done.
Qed.

Lemma FindFork_first v p b :
  objs !! p = Some b -> exists r, FindFork objs v (Some p) = Some r /\ first_in_chain v p r.
Proof.
  intros Hp. unfold FindFork. rewrite Hp. cbn [mbind option_bind]. rewrite Z.gtb_ltb.
  destruct (Z.ltb_spec (Height v) (nHeight b)) as [Hlt|]; [|apply (fork_loop_first v _ p b); [done|lia]].
  rewrite (GetAncestor_back p b) by done. cbn [mbind option_bind].
  destruct (Z.leb_spec 0 (Height v)) as [Hv0|Hv0]; [|].
  - rewrite (proj2 (Z.leb_le _ _)) by lia. cbn [andb]. set (d := Z.to_nat (nHeight b - Height v)).
    destruct (back_exists d p b Hp ltac:(lia)) as (q & c & Eq & Hq & Hc). rewrite Eq.
    destruct (fork_loop_first v (S (Z.to_nat (nHeight b))) q c Hq ltac:(lia)) as (r & Er & Hr).
    exists r. split; [done|].
    assert (forall m x, (m < d)%nat -> back objs m p = Some x -> ~ in_chain v x) as Habove.
    { intros m x Hm Hx. destruct (back_entry m p b x Hp Hx) as (e & He & Heh). apply (above_chain v x e He). lia. }
    destruct r as [f|]; cbn in *.
    + destruct Hr as (n & En & Hin & Hmin). exists (d + n)%nat. rewrite back_add, Eq. repeat split; [done|done|].
      intros m x Hm Hx. destruct (decide (m < d)%nat); [by eapply Habove|].
      replace m with (d + (m - d))%nat in Hx by lia. rewrite back_add, Eq in Hx. apply (Hmin (m - d)%nat); [lia|done].
    + intros m x Hx. destruct (decide (m < d)%nat); [by eapply Habove|].
      replace m with (d + (m - d))%nat in Hx by lia. rewrite back_add, Eq in Hx. by apply (Hr (m - d)%nat).
  - cbn [andb]. exists None. split; [done|]. intros m x Hx.
    destruct (back_entry m p b x Hp Hx) as (e & He & Heh). apply (above_chain v x e He).
    pose proof (Hwf x e He) as [? _]. lia.
Qed.

(** ** The last common ancestor *)

Definition ancestor (x p : Z) : Prop := exists n, back objs n p = Some x.

(** [r] is a common ancestor of [a] and [b] that every other one is an ancestor of. *)
Definition last_common (a b : Z) (r : option Z) : Prop :=
  match r with
  | Some f => ancestor f a /\ ancestor f b /\ forall x, ancestor x a -> ancestor x b -> ancestor x f
  | None => forall x, ~ (ancestor x a /\ ancestor x b)
  end.

Lemma ancestor_height x p b c :
  objs !! p = Some b -> objs !! x = Some c -> ancestor x p -> back objs (Z.to_nat (nHeight b - nHeight c)) p = Some x /\ nHeight c <= nHeight b.
Proof.
  intros Hp Hx [n Hn]. destruct (back_entry n p b x Hp Hn) as (c' & Hc & Hh). simplify_eq.
  split; [by replace (Z.to_nat (nHeight b - nHeight c)) with n by lia|lia].
Qed.

(** An ancestor no higher than [q], itself an ancestor of [p], is one of [q]. *)
Lemma ancestor_below p b q c x d :
  objs !! p = Some b -> objs !! q = Some c -> objs !! x = Some d ->
  ancestor q p -> ancestor x p -> nHeight d <= nHeight c -> ancestor x q.
Proof.
  intros Hp Hq Hx Aq Ax Hh. destruct (ancestor_height q p b c Hp Hq Aq) as [Eq Hqh].
  destruct (ancestor_height x p b d Hp Hx Ax) as [Ex Hxh]. exists (Z.to_nat (nHeight c - nHeight d)).
  replace (Z.to_nat (nHeight b - nHeight d))
    with (Z.to_nat (nHeight b - nHeight c) + Z.to_nat (nHeight c - nHeight d))%nat in Ex by lia.
  by rewrite back_add, Eq in Ex.
Qed.

Lemma ancestor_trans x y z : ancestor x y -> ancestor y z -> ancestor x z.
Proof. intros [n Hn] [m Hm]. exists (m + n)%nat. by rewrite back_add, Hm. Qed.

Lemma ancestor_entry x p b : objs !! p = Some b -> ancestor x p -> exists c, objs !! x = Some c /\ nHeight c <= nHeight b.
Proof. intros Hp [n Hn]. destruct (back_entry n p b x Hp Hn) as (c & Hc & ?). exists c. split; [done|lia]. Qed.

Lemma ancestor_prev p b q : objs !! p = Some b -> pprev b = Some q -> ancestor q p.
Proof. intros Hp Hq. exists 1%nat. rewrite (back_S_l _ _ _ Hp), Hq. done. Qed.

Lemma ancestor_cases x p b :
  objs !! p = Some b -> ancestor x p -> x = p \/ exists q, pprev b = Some q /\ ancestor x q.
Proof.
  intros Hp [[|n] Hn]; [cbn in Hn; simplify_eq; by left|]. right. rewrite (back_S_l _ _ _ Hp) in Hn.
  destruct (pprev b) as [q|]; [|done]. exists q. split; [done|]. by exists n.
Qed.

Lemma common_loop_last fuel a b ba bb :
  objs !! a = Some ba -> objs !! b = Some bb -> nHeight ba = nHeight bb -> (Z.to_nat (nHeight ba) < fuel)%nat ->
  exists r, common_loop objs fuel (Some a) (Some b) = Some r /\ last_common a b r.
Proof.
  revert a b ba bb. induction fuel as [|fuel IH]; intros a b ba bb Ha Hb Hh Hf; [lia|]. cbn [common_loop].
  destruct (Z.eqb_spec a b) as [->|Hne].
  { exists (Some b). split; [done|]. repeat split; [by exists 0%nat|by exists 0%nat|done]. }
  rewrite Ha, Hb. cbn [mbind option_bind]. destruct (Hwf a ba Ha) as (Ha0 & Hpa & _), (Hwf b bb Hb) as (_ & Hpb & _).
  assert (forall x, ancestor x a -> ancestor x b -> exists qa qb, pprev ba = Some qa /\ pprev bb = Some qb /\ ancestor x qa /\ ancestor x qb) as Hup.
  { intros x Aa Ab. destruct (ancestor_cases x a ba Ha Aa) as [->|(qa & Eqa & Aqa)].
    - destruct (ancestor_height a b bb ba Hb Ha Ab) as [E _]. replace (Z.to_nat (nHeight bb - nHeight ba)) with 0%nat in E by lia.
      cbn in E. congruence.
    - destruct (ancestor_cases x b bb Hb Ab) as [->|(qb & Eqb & Aqb)]; [|eauto 8].
      destruct (ancestor_height b a ba bb Ha Hb Aa) as [E _]. replace (Z.to_nat (nHeight ba - nHeight bb)) with 0%nat in E by lia.
      cbn in E. congruence. }
  destruct (pprev ba) as [qa|] eqn:Eqa.
  - destruct Hpa as (ca & Hqa & Hca). destruct (Hwf qa ca Hqa) as [? _]. destruct (pprev bb) as [qb|] eqn:Eqb; [|lia].
    destruct Hpb as (cb & Hqb & Hcb). destruct (IH qa qb ca cb Hqa Hqb ltac:(lia) ltac:(lia)) as (r & Er & Hr).
    exists r. split; [done|]. destruct r as [f|]; cbn in *.
    + destruct Hr as (A1 & A2 & A3). repeat split.
      * eapply ancestor_trans; [exact A1|by apply (ancestor_prev a ba)].
      * eapply ancestor_trans; [exact A2|by apply (ancestor_prev b bb)].
      * intros x Aa Ab. destruct (Hup x Aa Ab) as (? & ? & ? & ? & ? & ?). simplify_eq. auto.
    + intros x [Aa Ab]. destruct (Hup x Aa Ab) as (? & ? & ? & ? & ? & ?). simplify_eq. by apply (Hr x).
  - destruct (pprev bb) as [qb|] eqn:Eqb; [destruct Hpb as (cb & Hqb & Hcb), (Hwf qb cb Hqb); lia|].
    exists None. split; [by destruct fuel|]. intros x [Aa Ab]. destruct (Hup x Aa Ab) as (? & ? & ? & _). done.
Qed.

Lemma last_common_lift a a' b r aa :
  objs !! a = Some aa -> (forall c, objs !! a' = Some c -> forall d, objs !! b = Some d -> nHeight d <= nHeight c) ->
  ancestor a' a -> last_common a' b r -> (exists d, objs !! b = Some d) -> last_common a b r.
Proof.
  intros Ha Hh Aa Hr [d Hb]. destruct (ancestor_entry a' a aa Ha Aa) as (c & Hc & _). specialize (Hh c Hc d Hb).
  assert (forall x, ancestor x a -> ancestor x b -> ancestor x a') as Hdown.
  { intros x A1 A2. destruct (ancestor_entry x b d Hb A2) as (e & He & Heh).
    eapply (ancestor_below a aa a' c x e); try done. lia. }
  destruct r as [f|]; cbn in *.
  - destruct Hr as (A1 & A2 & A3). repeat split; [by apply (ancestor_trans _ a')|done|]. intros x X1 X2. apply A3; auto.
  - intros x [X1 X2]. apply (Hr x). auto.
Qed.

Lemma last_common_sym a b r : last_common a b r -> last_common b a r.
Proof. destruct r; cbn; [intros (?&?&H); repeat split; [done|done|]; intros; by apply H|]. intros H x [? ?]. by apply (H x). Qed.

Lemma LastCommonAncestor_last a b ba bb :
  objs !! a = Some ba -> objs !! b = Some bb ->
  exists r, LastCommonAncestor objs a b = Some r /\ last_common a b r.
Proof.
  intros Ha Hb. unfold LastCommonAncestor. rewrite Ha, Hb. cbn [mbind option_bind]. rewrite !Z.gtb_ltb.
  destruct (Hwf a ba Ha) as [Ha0 _], (Hwf b bb Hb) as [Hb0 _].
  destruct (Z.ltb_spec (nHeight bb) (nHeight ba)) as [Hlt|Hge].
  - rewrite (GetAncestor_back a ba), (proj2 (Z.leb_le 0 _)), (proj2 (Z.leb_le _ _)) by (done || lia). cbn [andb mbind option_bind].
    destruct (back_exists (Z.to_nat (nHeight ba - nHeight bb)) a ba Ha ltac:(lia)) as (q & c & Eq & Hq & Hc). rewrite Eq.
    destruct (common_loop_last (S (Z.to_nat (nHeight ba))) q b c bb Hq Hb ltac:(lia) ltac:(lia)) as (r & -> & Hr).
    exists r. split; [done|]. apply (last_common_lift a q b r ba); [done| |by eexists|done|eauto].
    intros ? ? ? ?. simplify_eq. lia.
  - cbn [mbind option_bind]. destruct (Z.ltb_spec (nHeight ba) (nHeight bb)) as [Hlt|Hge2].
    + rewrite (GetAncestor_back b bb), (proj2 (Z.leb_le 0 _)), (proj2 (Z.leb_le _ _)) by (done || lia). cbn [andb mbind option_bind].
      destruct (back_exists (Z.to_nat (nHeight bb - nHeight ba)) b bb Hb ltac:(lia)) as (q & c & Eq & Hq & Hc). rewrite Eq.
      destruct (common_loop_last (S (Z.to_nat (nHeight ba))) a q ba c Ha Hq ltac:(lia) ltac:(lia)) as (r & -> & Hr).
      exists r. split; [done|]. apply last_common_sym, (last_common_lift b q a r bb); [done| |by eexists|by apply last_common_sym|eauto].
      intros ? ? ? ?. simplify_eq. lia.
    + apply (common_loop_last _ a b ba bb); [done|done|lia|lia].
Qed.

(** ** Locators *)

(** The heights a locator lists, [n] blocks being listed already. *)
Fixpoint locator_heights (fuel : nat) (h step : Z) (n : nat) : list Z :=
  match fuel with
  | O => []
  | S fuel =>
    h :: if h =? 0 then [] else locator_heights fuel (Z.max (h - step) 0) (if (9 <? n)%nat then step * 2 else step) (S n)
  end.

Definition hash_at (p : Z) (b : CBlockIndex) (h : Z) : option Z :=
  q ← back objs (Z.to_nat (nHeight b - h)) p; c ← objs !! q; Some (phashBlock c).

Lemma chain_at_ancestor v q c h :
  chain_ok v -> objs !! q = Some c -> in_chain v q -> 0 <= h <= nHeight c -> chain_at v h = back objs (Z.to_nat (nHeight c - h)) q.
Proof.
  intros [->|(p & b & Hp & ->)] Hq Hin Hh; unfold in_chain in Hin; rewrite (Contains_eq _ q c Hq) in Hin;
    apply (inj Some), bool_decide_eq_true_1 in Hin.
  - unfold chain_at in Hin. cbn [length] in Hin. by rewrite Z.geb_leb, (proj2 (Z.leb_le _ (nHeight c))), orb_true_r in Hin by lia.
  - rewrite chain_at_path in Hin |- *. destruct (Z.leb_spec 0 (nHeight c)); [|lia].
    destruct (Z.leb_spec (nHeight c) (Z.of_nat (Z.to_nat (nHeight b)))); [|done]. cbn [andb] in Hin.
    rewrite (proj2 (Z.leb_le 0 h)), (proj2 (Z.leb_le h _)) by lia. cbn [andb].
    replace (Z.to_nat (nHeight b) - Z.to_nat h)%nat
      with (Z.to_nat (nHeight b) - Z.to_nat (nHeight c) + Z.to_nat (nHeight c - h))%nat by lia.
    by rewrite back_add, Hin.
Qed.

Lemma pow2_split s : 0 <= s -> 2 ^ (s + 1) = 2 * 2 ^ s.
Proof. intros. rewrite Z.pow_add_r by lia. lia. Qed.

(** The steps: [step] is [2^s], one for the first ten blocks, and the height
    left is covered by [k] doublings. *)
Definition steps_ok (h step : Z) (n k : nat) : Prop :=
  exists s, 0 <= s /\ step = 2 ^ s /\ h <= 2 ^ s * (2 ^ Z.of_nat k - 1) /\ s + Z.of_nat k <= 30 /\ ((n <= 9)%nat -> s = 0).

Lemma steps_ok_next h step n k :
  steps_ok h step n k -> 0 < h ->
  i32 (step * 2) = step * 2 /\
  exists k', steps_ok (Z.max (h - step) 0) (if (9 <? n)%nat then step * 2 else step) (S n) k' /\
    (k' <= k)%nat /\ (9 < n -> k' < k)%nat.
Proof.
  intros (s & Hs & -> & Hh & Hk & Hn) Hpos. assert (0 < 2 ^ s) by (apply Z.pow_pos_nonneg; lia).
  destruct k as [|k]; [cbn in Hh; lia|]. rewrite Nat2Z.inj_succ in *.
  assert (2 ^ Z.succ (Z.of_nat k) = 2 * 2 ^ Z.of_nat k) as E by (apply Z.pow_succ_r; lia).
  assert (2 ^ s <= 2 ^ 29) as H29 by (apply Z.pow_le_mono_r; lia).
  assert (0 < 2 ^ Z.of_nat k) by (apply Z.pow_pos_nonneg; lia). rewrite E in Hh. split.
  { apply i32_id. unfold is_i32. change (2 ^ 29) with 536870912 in H29. lia. }
  destruct (Nat.ltb_spec 9 n) as [Hn9|Hn9].
  - exists k. split; [|lia]. exists (s + 1). rewrite pow2_split by done. repeat split; [lia|lia|nia|lia|lia].
  - exists (S k). split; [|lia]. exists s. rewrite Hn in * by done. cbn [Z.pow] in *.
    rewrite Nat2Z.inj_succ, E. change (2 ^ 0) with 1 in *. repeat split; lia.
Qed.

Lemma locator_loop_heights v p b :
  chain_ok v -> objs !! p = Some b ->
  forall fuel q c step k have, objs !! q = Some c -> back objs (Z.to_nat (nHeight b - nHeight c)) p = Some q ->
  nHeight c <= nHeight b -> (Z.to_nat (nHeight c) < fuel)%nat -> steps_ok (nHeight c) step (length have) k ->
  locator_loop objs fuel v (Some q) step have =
    l ← mapM (hash_at p b) (locator_heights fuel (nHeight c) step (length have)); Some (have ++ l).
Proof.
  intros Hv Hp. induction fuel as [|fuel IH]; intros q c step k have Hq Eq Hle Hf Hst; [lia|].
  cbn [locator_loop locator_heights mapM].
  assert (hash_at p b (nHeight c) = Some (phashBlock c)) as -> by (unfold hash_at; rewrite Eq; cbn; by rewrite Hq).
  rewrite Hq. cbn [mbind option_bind].
  destruct (Z.eqb_spec (nHeight c) 0) as [E0|E0]; [done|]. destruct (Hwf q c Hq) as [Hc0 _].
  destruct (steps_ok_next _ _ _ _ Hst ltac:(lia)) as (Ei & k' & Hst' & _).
  set (h := Z.max (nHeight c - step) 0) in *. assert (0 <= h < nHeight c) as Hh.
  { destruct Hst as (s & Hs & -> & _). pose proof (Z.pow_pos_nonneg 2 s). lia. }
  destruct (back_exists (Z.to_nat (nHeight c - h)) q c Hq ltac:(lia)) as (r & d & Er & Hr & Hd).
  assert ((e ← Contains objs v q; if e : bool then Some (chain_at v h) else GetAncestor objs q h) = Some (Some r)) as Enext.
  { destruct (Contains_total v q c Hq) as [E|E]; rewrite E; cbn [mbind option_bind].
    - by rewrite (chain_at_ancestor v q c), Er by (done || lia).
    - rewrite (GetAncestor_back q c) by done. by rewrite (proj2 (Z.leb_le 0 h)), (proj2 (Z.leb_le h _)), Er by lia. }
  destruct (Contains objs v q) as [e|]; [|done]. cbn [mbind option_bind] in Enext |- *. rewrite Enext. cbn [mbind option_bind].
  replace (10 <? length (have ++ [phashBlock c]))%nat with (9 <? length have)%nat
    by (rewrite length_app; cbn [length]; destruct (Nat.ltb_spec 9 (length have)), (Nat.ltb_spec 10 (length have + 1)); lia).
  rewrite Ei. replace (S (length have)) with (length (have ++ [phashBlock c])) in Hst' |- * by (rewrite length_app; cbn; lia).
  replace h with (nHeight d) in Hst' |- * by lia. rewrite (IH r d _ k') by (done || lia ||
    (replace (Z.to_nat (nHeight b - nHeight d)) with (Z.to_nat (nHeight b - nHeight c) + Z.to_nat (nHeight c - h))%nat by lia;
     rewrite back_add, Eq; exact Er)).
  destruct (mapM _ _) as [l|]; [|done]. cbn [mbind option_bind mret option_ret]. by rewrite <- app_assoc.
Qed.

(** The heights start at the block's, decrease to the genesis block and are few. *)
Lemma locator_heights_props fuel h step n k :
  steps_ok h step n k -> 0 <= h -> (Z.to_nat h < fuel)%nat ->
  let l := locator_heights fuel h step n in
  hd 0 l = h /\ last l = Some 0 /\ StronglySorted Z.gt l /\ Forall (fun x => 0 <= x <= h) l /\
  (length l <= k + 1 + (10 - n))%nat.
Proof.
  revert h step n k. induction fuel as [|fuel IH]; intros h step n k Hst Hh Hf l; [lia|]. subst l. cbn [locator_heights].
  destruct (Z.eqb_spec h 0) as [->|Hne].
  { repeat split; [repeat constructor|repeat constructor; lia|cbn [length]; lia]. }
  destruct (steps_ok_next _ _ _ _ Hst ltac:(lia)) as (_ & k' & Hst' & Hk' & Hk9).
  assert (0 <= Z.max (h - step) 0 < h) as Hlt.
  { destruct Hst as (s & Hs & -> & _). pose proof (Z.pow_pos_nonneg 2 s). lia. }
  destruct (IH _ _ _ k' Hst' ltac:(lia) ltac:(lia)) as (E1 & E2 & E3 & E4 & E5).
  destruct (locator_heights fuel _ _ _) as [|x l] eqn:El; [done|]. cbn [hd] in E1. repeat split.
  - rewrite <- E2. by destruct l.
  - constructor; [done|]. eapply Forall_impl; [exact E4|]. cbn. lia.
  - constructor; [lia|]. eapply Forall_impl; [exact E4|]. cbn. lia.
  - cbn [length] in *. lia.
Qed.

Lemma last_common_unique a b r r' aa :
  objs !! a = Some aa -> last_common a b r -> last_common a b r' -> r = r'.
Proof.
  intros Ha Hr Hr'. destruct r as [f|], r' as [f'|]; [| | |done].
  - destruct Hr as (A1 & A2 & A3), Hr' as (B1 & B2 & B3). f_equal.
    destruct (ancestor_entry f a aa Ha A1) as (c & Hc & _), (ancestor_entry f' a aa Ha B1) as (c' & Hc' & _).
    destruct (ancestor_height f f' c' c Hc' Hc (B3 _ A1 A2)) as [E L].
    destruct (ancestor_height f' f c c' Hc Hc' (A3 _ B1 B2)) as [_ L'].
    replace (Z.to_nat (nHeight c' - nHeight c)) with 0%nat in E by lia. cbn in E. congruence.
  - destruct Hr as (A1 & A2 & _). destruct (Hr' f). auto.
  - destruct Hr' as (A1 & A2 & _). destruct (Hr f'). auto.
Qed.

Lemma Tip_path t b : objs !! t = Some b -> Tip (path t (Z.to_nat (nHeight b))) = Some t.
Proof.
  intros Ht. destruct (Hwf t b Ht) as [H0 _]. unfold Tip, Height. rewrite chain_at_path, length_path.
  rewrite (proj2 (Z.leb_le 0 _)), (proj2 (Z.leb_le _ _)) by lia. cbn [andb].
  by replace (Z.to_nat (nHeight b) - Z.to_nat (Z.of_nat (S (Z.to_nat (nHeight b))) - 1))%nat with 0%nat by lia.
Qed.

Lemma in_chain_ancestor t b x :
  objs !! t = Some b -> in_chain (path t (Z.to_nat (nHeight b))) x <-> ancestor x t.
Proof.
  intros Ht. destruct (Hwf t b Ht) as [H0 _]. unfold in_chain. split.
  - intros Hin. destruct (objs !! x) as [c|] eqn:Hx; [|unfold Contains in Hin; by rewrite Hx in Hin].
    rewrite (Contains_eq _ x c Hx), chain_at_path in Hin. apply (inj Some), bool_decide_eq_true_1 in Hin.
    destruct (_ && _); [|done]. by eexists.
  - intros Ax. destruct (ancestor_entry x t b Ht Ax) as (c & Hx & _). destruct (ancestor_height x t b c Ht Hx Ax) as [E L].
    destruct (Hwf x c Hx) as [Hc0 _]. rewrite (Contains_eq _ x c Hx), chain_at_path. f_equal. apply bool_decide_eq_true_2.
    rewrite (proj2 (Z.leb_le 0 _)), (proj2 (Z.leb_le _ _)) by lia. cbn [andb].
    by replace (Z.to_nat (nHeight b) - Z.to_nat (nHeight c))%nat with (Z.to_nat (nHeight b - nHeight c)) by lia.
Qed.

Lemma first_in_chain_last_common t b p a r :
  objs !! t = Some b -> objs !! p = Some a -> first_in_chain (path t (Z.to_nat (nHeight b))) p r -> last_common p t r.
Proof.
  intros Ht Hp. destruct r as [f|]; cbn.
  - intros (n & En & Hin & Hmin). rewrite (in_chain_ancestor t b f Ht) in Hin. repeat split; [by eexists|done|].
    intros x [m Em] Ax. destruct (decide (m < n)%nat) as [Hm|Hm].
    + destruct (Hmin m x Hm Em). by apply in_chain_ancestor.
    + exists (m - n)%nat. replace m with (n + (m - n))%nat in Em by lia. by rewrite back_add, En in Em.
  - intros Hmin x [[m Em] Ax]. apply (Hmin m x Em). by apply in_chain_ancestor.
Qed.

(** The oldest block below [p]. *)
Lemma genesis_common p a t b x :
  objs !! p = Some a -> objs !! t = Some b -> ancestor x p -> ancestor x t ->
  exists g, back objs (Z.to_nat (nHeight a)) p = Some g /\ ancestor g t.
Proof.
  intros Hp Ht Ap At. destruct (ancestor_entry x p a Hp Ap) as (c & Hx & _). destruct (Hwf x c Hx) as [Hc0 _].
  destruct (back_exists (Z.to_nat (nHeight c)) x c Hx ltac:(lia)) as (g & d & Eg & Hg & Hd).
  destruct (ancestor_height x p a c Hp Hx Ap) as [E L]. exists g. split.
  - replace (Z.to_nat (nHeight a)) with (Z.to_nat (nHeight a - nHeight c) + Z.to_nat (nHeight c))%nat by lia.
    by rewrite back_add, E.
  - apply (ancestor_trans g x t); [by eexists|done].
Qed.

Lemma FindForkInGlobalIndex_locator map t b p a hs vHave :
  (forall x c, objs !! x = Some c -> map !! phashBlock c = Some (Some x)) ->
  objs !! t = Some b -> objs !! p = Some a ->
  mapM (hash_at p a) hs = Some vHave -> last hs = Some 0 ->
  (exists g, back objs (Z.to_nat (nHeight a)) p = Some g /\ ancestor g t) ->
  exists f, FindForkInGlobalIndex objs map (path t (Z.to_nat (nHeight b))) vHave = Some (Some f) /\ ancestor f p /\ ancestor f t.
Proof.
  intros Hmap Ht Hp Hm Hlast Hg. revert vHave Hm. induction hs as [|h hs IH]; intros vHave Hm; [done|].
  cbn [mapM] in Hm. destruct (hash_at p a h) as [hash|] eqn:Eh; [|done]. cbn [mbind option_bind] in Hm.
  destruct (mapM (hash_at p a) hs) as [rest|] eqn:Er; [|done]. cbn [mbind option_bind] in Hm. unfold mret, option_ret in Hm. simplify_eq.
  unfold hash_at in Eh. destruct (back objs (Z.to_nat (nHeight a - h)) p) as [q|] eqn:Eq; [|done]. cbn [mbind option_bind] in Eh.
  destruct (objs !! q) as [c|] eqn:Hq; [|done]. cbn in Eh. simplify_eq. cbn [FindForkInGlobalIndex].
  rewrite (Hmap q c Hq). assert (ancestor q p) as Aq by (by eexists).
  pose proof (in_chain_ancestor t b q Ht) as Hin. unfold in_chain in Hin.
  destruct (Contains_total (path t (Z.to_nat (nHeight b))) q c Hq) as [E|E]; rewrite E in Hin |- *; cbn [mbind option_bind].
  { exists q. repeat split; [done|]. by apply Hin. }
  rewrite (GetAncestor_back q c) by done. cbn [mbind option_bind]. rewrite (Tip_path t b Ht).
  case_bool_decide as Et.
  - exists t. repeat split; [|by exists 0%nat]. apply (ancestor_trans t q p); [|done].
    destruct (_ && _); [|done]. by eexists.
  - destruct hs as [|h' hs]; [|by apply IH]. cbn in Hlast. simplify_eq. exfalso.
    destruct Hg as (g & Eg & Ag). replace (nHeight a - 0) with (nHeight a) in Eq by lia. simplify_eq.
    by apply Hin in Ag.
Qed.
End Ancestors.

(** ** Theorems *)

(** [GetAncestor] always returns: for every entry of a well-formed block index
    and every height, the skip-list walk ends within [nHeight] steps, never
    follows a dangling pointer nor trips its assertion, and returns the block
    that walking [pprev] one by one reaches, [NULL] outside [0..nHeight]. *)
Theorem GetAncestor_terminates (objs : store) (p : Z) (b : CBlockIndex) (height : Z) :
  wf_store objs -> objs !! p = Some b ->
  (0 <= height <= nHeight b -> exists q c, GetAncestor objs p height = Some (Some q) /\
     back objs (Z.to_nat (nHeight b - height)) p = Some q /\ objs !! q = Some c /\ nHeight c = height) /\
  (~ (0 <= height <= nHeight b) -> GetAncestor objs p height = Some None).
Proof.
  intros Hwf Hp. rewrite (GetAncestor_back objs Hwf p b height Hp). split; intros Hh.
  - rewrite (proj2 (Z.leb_le 0 _)), (proj2 (Z.leb_le _ _)) by lia. cbn [andb].
    destruct (back_exists objs Hwf (Z.to_nat (nHeight b - height)) p b Hp ltac:(lia)) as (q & c & E & Hq & Hc).
    exists q, c. rewrite E. repeat split; [done|lia].
  - destruct (Z.leb_spec 0 height), (Z.leb_spec height (nHeight b)); try done. lia.
Qed.

(** [SetTip] turns any chain of the index into the chain of the new tip: the
    entry at every height is the tip's ancestor of that height. *)
Theorem SetTip_correct (objs : store) (v : list (option Z)) (p : Z) (b : CBlockIndex) :
  wf_store objs -> chain_ok objs v -> objs !! p = Some b ->
  exists v', SetTip objs (Some p) v = Some v' /\ chain_ok objs v' /\
    Tip v' = Some p /\ Height v' = nHeight b /\
    (forall h, GetAncestor objs p h = Some (chain_at v' h)).
Proof.
  intros Hwf Hv Hp. destruct (Hwf p b Hp) as [Hb0 _]. exists (path objs p (Z.to_nat (nHeight b))).
  split; [by apply SetTip_path|]. split; [right; eauto|]. split; [by apply Tip_path|].
  split; [unfold Height; rewrite length_path; lia|]. intros h. rewrite (GetAncestor_back objs Hwf p b) by done.
  rewrite chain_at_path, Z2Nat.id by lia. destruct (Z.leb_spec 0 h), (Z.leb_spec h (nHeight b)); cbn [andb]; try done.
  do 2 f_equal. lia.
Qed.

(** [FindFork] of the active chain and [LastCommonAncestor] with its tip, the
    one by height comparisons against the chain and the other by walking both
    branches, return the same block: the common ancestor of the block and the
    tip that all their common ancestors lead up to, or [NULL] without one. *)
Theorem FindFork_is_LastCommonAncestor (objs : store) (v : list (option Z)) (t p : Z) (b a : CBlockIndex) :
  wf_store objs -> chain_ok objs v -> Tip v = Some t -> objs !! t = Some b -> objs !! p = Some a ->
  exists r, FindFork objs v (Some p) = Some r /\ LastCommonAncestor objs p t = Some r /\ last_common objs p t r.
Proof.
  intros Hwf Hv Htip Ht Hp. destruct Hv as [->|(t' & b' & Ht' & ->)]; [done|].
  rewrite (Tip_path objs Hwf t' b' Ht') in Htip.
  assert (t' = t) as -> by congruence. assert (b' = b) as -> by congruence.
  destruct (FindFork_first objs Hwf (path objs t (Z.to_nat (nHeight b))) p a Hp) as (r & -> & Hr).
  destruct (LastCommonAncestor_last objs Hwf p t a b Hp Ht) as (r' & -> & Hr').
  pose proof (first_in_chain_last_common objs Hwf t b p a r Ht Hp Hr) as Hl.
  rewrite (last_common_unique objs Hwf p t r' r a) by done. eauto.
Qed.

(** A locator made for a block by a peer, with at most 41 hashes however long
    the chain, lets [FindForkInGlobalIndex] find a block of our chain that the
    peer's block descends from, whenever the two chains share any block. *)
Theorem locator_finds_fork (objs : store) (map : gmap Z (option Z)) (v w : list (option Z)) (t p : Z) (b a : CBlockIndex) :
  wf_store objs -> (forall x c, objs !! x = Some c -> map !! phashBlock c = Some (Some x)) ->
  chain_ok objs v -> chain_ok objs w -> Tip w = Some t -> objs !! t = Some b -> objs !! p = Some a ->
  nHeight a < 2 ^ 30 -> (exists x, ancestor objs x p /\ ancestor objs x t) ->
  exists vHave f, GetLocator objs v (Some p) = Some vHave /\ (length vHave <= 41)%nat /\
    FindForkInGlobalIndex objs map w vHave = Some (Some f) /\ ancestor objs f p /\ ancestor objs f t.
Proof.
  intros Hwf Hmap Hv Hw Htip Ht Hp Hh (x & Ap & At). destruct (Hwf p a Hp) as [Ha0 _].
  destruct Hw as [->|(t' & b' & Ht' & ->)]; [done|]. rewrite (Tip_path objs Hwf t' b' Ht') in Htip.
  assert (t' = t) as -> by congruence. assert (b' = b) as -> by congruence.
  assert (steps_ok (nHeight a) 1 0 30) as Hst.
  { exists 0. change (2 ^ 0 * (2 ^ Z.of_nat 30 - 1)) with (2 ^ 30 - 1). repeat split; lia. }
  set (hs := locator_heights (S (Z.to_nat (nHeight a))) (nHeight a) 1 0).
  destruct (locator_heights_props (S (Z.to_nat (nHeight a))) _ _ _ _ Hst Ha0 ltac:(lia)) as (_ & Hlast & _ & Hall & Hlen).
  fold hs in Hlast, Hall, Hlen.
  destruct (mapM (hash_at objs p a) hs) as [vHave|] eqn:Em.
  2: { exfalso. apply mapM_None_1, Exists_exists in Em as (h & Hin & E). rewrite List.Forall_forall in Hall.
       specialize (Hall h ltac:(by apply list_elem_of_In)). unfold hash_at in E.
       destruct (back_exists objs Hwf (Z.to_nat (nHeight a - h)) p a Hp ltac:(lia)) as (q & c & E1 & E2 & _).
       rewrite E1 in E. cbn in E. by rewrite E2 in E. }
  destruct (FindForkInGlobalIndex_locator objs Hwf map t b p a hs vHave) as (f & Ef & A1 & A2); try done.
  { by apply (genesis_common objs Hwf p a t b x). }
  exists vHave, f. repeat split; try done.
  - unfold GetLocator. rewrite Hp. cbn [mbind option_bind].
    rewrite (locator_loop_heights objs Hwf v p a Hv Hp _ p a 1 30 []); try done; try lia.
    + cbn [length]. fold hs. by rewrite Em.
    + by rewrite Z.sub_diag.
  - rewrite <- (length_mapM _ _ _ Em). lia.
Qed.
