(* ===== verification/BlockTree.v ===== *)
(** * The block tree (AddToBlockIndex, ReceivedBlockTransactions,
      FindMostWorkChain and PruneBlockIndexCandidates of src/src/main.cpp,
      GetBlockProof of src/src/pow.cpp, CBlockHeader of
      src/src/primitives/block.h)

    The globals of main.cpp that hold the tree of block index entries are the
    fields of one state.  [std::set] ordered by [CBlockIndexWorkComparator] is a
    finite set whose last element is the greatest by the comparator, the
    multimap [mapBlocksUnlinked] an association list in insertion order. *)
From S2P Require Import Prelude Serialize Arith256 Transaction HashStream Sha2 Hashes BlockIndex.
#[local] Open Scope Z_scope.

(** ** Headers *)

Record CBlockHeader := mkHeader {
  h_nVersion : Z;
  hashPrevBlock : Z;
  hashMerkleRoot : Z;
  hashFinalSaplingRoot : Z;
  h_nTime : Z;
  h_nBits : Z;
  h_nNonce : Z;
  h_nSolution : bytes
}.

Definition header_of (t : Z * (Z * (Z * (Z * (Z * (Z * (Z * bytes))))))) : CBlockHeader :=
  let '(v, (p, (m, (f, (t, (b, (n, s))))))) := t in mkHeader v p m f t b n s.
Definition header_fields (h : CBlockHeader) : Z * (Z * (Z * (Z * (Z * (Z * (Z * bytes)))))) :=
  (h_nVersion h, (hashPrevBlock h, (hashMerkleRoot h, (hashFinalSaplingRoot h,
    (h_nTime h, (h_nBits h, (h_nNonce h, h_nSolution h))))))).

Lemma header_of_fields h : header_of (header_fields h) = h.
Proof. by destruct h. Qed.

Definition c_header : codec CBlockHeader :=
  c_iso header_of header_fields header_of_fields
    (c_pair c_i32 (c_pair c_uint256 (c_pair c_uint256 (c_pair c_uint256
      (c_pair c_u32 (c_pair c_u32 (c_pair c_uint256 c_bytes))))))).

(** [SerializeHash(header)]; [buf] is the hasher's uninitialised buffer. *)
Definition GetSHA256DHash (buf : bytes) (h : CBlockHeader) : Z := Hash buf [ser c_header h].

(** ** Proof of work of a block *)

Definition GetBlockProof (nBits : Z) : option base_uint :=
  let '(bnTarget, fNegative, fOverflow) := SetCompact nBits in
  if fNegative || fOverflow || EqualTo bnTarget 0 then Some (bu_of_u64 0)
  else q ← bu_div (bu_not bnTarget) (bu_add bnTarget (bu_of_u64 1)); Some (bu_add q (bu_of_u64 1)).

(** ** The state *)

Record tree := mkTree {
  objs : store;
  mapBlockIndex : gmap Z (option Z);
  pindexBestHeader : option Z;
  setBlockIndexCandidates : gset Z;
  mapBlocksUnlinked : list (Z * Z);
  nBlockSequenceId : Z;
  pindexBestInvalid : option Z;
  chainActive : list (option Z);
  setDirtyBlockIndex : gset Z
}.

Definition set_objs (o : store) (s : tree) : tree :=
  mkTree o (mapBlockIndex s) (pindexBestHeader s) (setBlockIndexCandidates s) (mapBlocksUnlinked s)
    (nBlockSequenceId s) (pindexBestInvalid s) (chainActive s) (setDirtyBlockIndex s).

(** [CBlockIndexWorkComparator] *)
Definition work_less (pa : Z) (a : CBlockIndex) (pb : Z) (b : CBlockIndex) : bool :=
  if CompareTo (nChainWork a) (nChainWork b) >? 0 then false
  else if CompareTo (nChainWork a) (nChainWork b) <? 0 then true
  else if nSequenceId a <? nSequenceId b then false
  else if nSequenceId a >? nSequenceId b then true
  else if pa <? pb then false
  else pa >? pb.

Definition work_comp (o : store) (pa pb : Z) : bool :=
  match o !! pa, o !! pb with
  | Some a, Some b => work_less pa a pb b
  | _, _ => false
  end.

(** ** AddToBlockIndex *)

(** [CBlockIndex(block)], with [phashBlock] set. *)
Definition new_index (hash : Z) (h : CBlockHeader) : CBlockIndex :=
  mkIndex hash None None 0 0 0 0 (bu_of_u64 0) 0 0 0 None None 0 None
    (h_nVersion h) (hashMerkleRoot h) (hashFinalSaplingRoot h) (h_nTime h) (h_nBits h) (h_nNonce h) (h_nSolution h) 0.

Definition set_prev (q : Z) (height : Z) (b : CBlockIndex) : CBlockIndex :=
  mkIndex (phashBlock b) (Some q) (pskip b) height (nFile b) (nDataPos b) (nUndoPos b) (nChainWork b) (nTx b)
    (nChainTx b) (nStatus b) (nSproutValue b) (nChainSproutValue b) (nSaplingValue b) (nChainSaplingValue b)
    (bi_nVersion b) (bi_hashMerkleRoot b) (bi_hashFinalSaplingRoot b) (bi_nTime b) (bi_nBits b) (bi_nNonce b)
    (bi_nSolution b) (nSequenceId b).

Definition set_work (w : base_uint) (b : CBlockIndex) : CBlockIndex :=
  mkIndex (phashBlock b) (pprev b) (pskip b) (nHeight b) (nFile b) (nDataPos b) (nUndoPos b) w (nTx b)
    (nChainTx b) (nStatus b) (nSproutValue b) (nChainSproutValue b) (nSaplingValue b) (nChainSaplingValue b)
    (bi_nVersion b) (bi_hashMerkleRoot b) (bi_hashFinalSaplingRoot b) (bi_nTime b) (bi_nBits b) (bi_nNonce b)
    (bi_nSolution b) (nSequenceId b).

(** The new entry: linked to [prev], its skip pointer built, its work summed.
    [BuildSkip] looks only at the predecessor, so it runs on the store without
    the new object. *)
Definition linked_index (o : store) (prev : option Z) (hash : Z) (h : CBlockHeader) : option CBlockIndex :=
  let b := new_index hash h in
  b ← match prev with
      | None => Some b
      | Some q =>
        c ← o !! q;
        let b := set_prev q (nHeight c + 1) b in
        a ← GetAncestor o q (GetSkipHeight (nHeight b));
        Some (set_pskip a b)
      end;
  before ← match pprev b with None => Some (bu_of_u64 0) | Some q => c ← o !! q; Some (nChainWork c) end;
  proof ← GetBlockProof (bi_nBits b);
  Some (RaiseValidity BLOCK_VALID_TREE (set_work (bu_add before proof) b)).1.

(** [p] is the address [new] returns. *)
Definition AddToBlockIndex (p hash : Z) (h : CBlockHeader) (s : tree) : option (tree * option Z) :=
  match mapBlockIndex s !! hash, mapBlockIndex s !! hashPrevBlock h with
  | Some (Some q), _ => Some (s, Some q)
  | Some None, Some None => Some (s, None)
  | _, miPrev =>
    b ← linked_index (objs s) (match miPrev with Some r => r | None => None end) hash h;
    let o := <[p := b]> (objs s) in
    best ← match pindexBestHeader s with
           | None => Some (Some p)
           | Some r =>
             c ← o !! r;
             Some (if CompareTo (nChainWork c) (nChainWork b) <? 0 then Some p else Some r)
           end;
    Some (mkTree o (<[hash := Some p]> (mapBlockIndex s)) best (setBlockIndexCandidates s)
            (mapBlocksUnlinked s) (nBlockSequenceId s) (pindexBestInvalid s) (chainActive s)
            ({[p]} ∪ setDirtyBlockIndex s), Some p)
  end.

(** ** ReceivedBlockTransactions *)

(** The change of the two shielded pools over a block. *)
Definition sprout_delta (acc : Z) (js : JSDescription) : Z := i64 (i64 (acc + vpub_old js) - vpub_new js).
Definition pool_deltas (vtx : list CMutableTransaction) : Z * Z :=
  fold_left (fun acc tx => (fold_left sprout_delta (vjoinsplit tx) acc.1, i64 (acc.2 + - valueBalance tx)))
    vtx (0, 0).

(** The fields set on receipt, before the block is linked. *)
Definition receive_index (n : Z) (deltas : Z * Z) (pos : Z * Z) (b : CBlockIndex) : CBlockIndex :=
  let b := mkIndex (phashBlock b) (pprev b) (pskip b) (nHeight b) pos.1 pos.2 0 (nChainWork b) n
    0 (Z.lor (nStatus b) BLOCK_HAVE_DATA) (Some deltas.1) None deltas.2 None
    (bi_nVersion b) (bi_hashMerkleRoot b) (bi_hashFinalSaplingRoot b) (bi_nTime b) (bi_nBits b) (bi_nNonce b)
    (bi_nSolution b) (nSequenceId b) in
  (RaiseValidity BLOCK_VALID_TRANSACTIONS b).1.

Definition opt_add (x : option Z) (y : option Z) : option Z :=
  match x, y with Some x, Some y => Some (i64 (x + y)) | _, _ => None end.

(** The sums along the chain, and the sequence number. *)
Definition link_index (prev : option CBlockIndex) (seq : Z) (b : CBlockIndex) : CBlockIndex :=
  mkIndex (phashBlock b) (pprev b) (pskip b) (nHeight b) (nFile b) (nDataPos b) (nUndoPos b) (nChainWork b) (nTx b)
    (u32 (match prev with Some c => nChainTx c | None => 0 end + nTx b)) (nStatus b) (nSproutValue b)
    (match prev with Some c => opt_add (nChainSproutValue c) (nSproutValue b) | None => nSproutValue b end)
    (nSaplingValue b)
    (match prev with Some c => opt_add (nChainSaplingValue c) (Some (nSaplingValue b)) | None => Some (nSaplingValue b) end)
    (bi_nVersion b) (bi_hashMerkleRoot b) (bi_hashFinalSaplingRoot b) (bi_nTime b) (bi_nBits b) (bi_nNonce b)
    (bi_nSolution b) seq.

Definition lookup_prev (o : store) (b : CBlockIndex) : option (option CBlockIndex) :=
  match pprev b with None => Some None | Some q => c ← o !! q; Some (Some c) end.

(** [equal_range(p)]: the entries waiting for [p], and the others. *)
Definition waiting (p : Z) (l : list (Z * Z)) : list Z := snd <$> filter (fun e => e.1 = p) l.
Definition others (p : Z) (l : list (Z * Z)) : list (Z * Z) := filter (fun e => e.1 <> p) l.

(** One round of the queue: [p] is linked. *)
Definition link_step (p : Z) (s : tree) : option (tree * list Z) :=
  b ← objs s !! p;
  prev ← lookup_prev (objs s) b;
  let o := <[p := link_index prev (nBlockSequenceId s) b]> (objs s) in
  let candidate := match Tip (chainActive s) with None => true | Some t => negb (work_comp o p t) end in
  Some (mkTree o (mapBlockIndex s) (pindexBestHeader s)
          (if candidate then {[p]} ∪ setBlockIndexCandidates s else setBlockIndexCandidates s)
          (others p (mapBlocksUnlinked s)) (u32 (nBlockSequenceId s + 1)) (pindexBestInvalid s) (chainActive s)
          (setDirtyBlockIndex s),
        waiting p (mapBlocksUnlinked s)).

Fixpoint link_loop (fuel : nat) (queue : list Z) (s : tree) : option tree :=
  match queue with
  | [] => Some s
  | p :: queue =>
    match fuel with
    | O => None
    | S fuel => r ← link_step p s; link_loop fuel (queue ++ r.2) r.1
    end
  end.

Definition ReceivedBlockTransactions (vtx : list CMutableTransaction) (p : Z) (pos : Z * Z) (s : tree) : option tree :=
  b ← objs s !! p;
  let b := receive_index (Z.of_nat (length vtx)) (pool_deltas vtx) pos b in
  let s := mkTree (<[p := b]> (objs s)) (mapBlockIndex s) (pindexBestHeader s) (setBlockIndexCandidates s)
             (mapBlocksUnlinked s) (nBlockSequenceId s) (pindexBestInvalid s) (chainActive s)
             ({[p]} ∪ setDirtyBlockIndex s) in
  prev ← lookup_prev (objs s) b;
  match prev with
  | Some c =>
    if nChainTx c =? 0 then
      Some (if IsValid BLOCK_VALID_TREE c
            then mkTree (objs s) (mapBlockIndex s) (pindexBestHeader s) (setBlockIndexCandidates s)
                   (mapBlocksUnlinked s ++ match pprev b with Some q => [(q, p)] | None => [] end)
                   (nBlockSequenceId s) (pindexBestInvalid s) (chainActive s) (setDirtyBlockIndex s)
            else s)
    else link_loop (S (length (mapBlocksUnlinked s))) [p] s
  | None => link_loop (S (length (mapBlocksUnlinked s))) [p] s
  end.

(** ** FindMostWorkChain *)

(** [*setBlockIndexCandidates.rbegin()] *)
Definition best_candidate (o : store) (c : gset Z) : option Z :=
  fold_right (fun p acc => match acc with
                           | None => Some p
                           | Some q => if work_comp o q p then Some p else Some q
                           end) None (elements c).

(** The first block from [pindexTest] down to the active chain that is failed or
    has no data: [None] is a failed assertion. *)
Fixpoint unusable_block (fuel : nat) (s : tree) (pindexTest : option Z) : option (option Z) :=
  match pindexTest with
  | None => Some None
  | Some p =>
    match fuel with
    | O => None
    | S fuel =>
      b ← objs s !! p;
      c ← Contains (objs s) (chainActive s) p;
      if c : bool then Some None
      else if negb (negb (nChainTx b =? 0) || (nHeight b =? 0)) then None
      else if negb (Z.land (nStatus b) BLOCK_FAILED_MASK =? 0) || (Z.land (nStatus b) BLOCK_HAVE_DATA =? 0)
      then Some (Some p)
      else unusable_block fuel s (pprev b)
    end
  end.

(** [while (pindexTest != pindexFailed)], then the last [erase]. *)
Fixpoint remove_chain (fuel : nat) (fFailedChain : bool) (pindexTest pindexFailed : Z) (s : tree) : option tree :=
  match fuel with
  | O => None
  | S fuel =>
    if pindexTest =? pindexFailed
    then Some (mkTree (objs s) (mapBlockIndex s) (pindexBestHeader s) (setBlockIndexCandidates s ∖ {[pindexTest]})
                 (mapBlocksUnlinked s) (nBlockSequenceId s) (pindexBestInvalid s) (chainActive s) (setDirtyBlockIndex s))
    else
      b ← objs s !! pindexFailed;
      q ← pprev b;
      remove_chain fuel fFailedChain pindexTest q
        (mkTree (if fFailedChain then <[pindexFailed := set_nStatus (Z.lor (nStatus b) BLOCK_FAILED_CHILD) b]> (objs s) else objs s)
           (mapBlockIndex s) (pindexBestHeader s) (setBlockIndexCandidates s ∖ {[pindexFailed]})
           (if fFailedChain then mapBlocksUnlinked s else mapBlocksUnlinked s ++ [(q, pindexFailed)])
           (nBlockSequenceId s) (pindexBestInvalid s) (chainActive s) (setDirtyBlockIndex s))
  end.

(** [pindexBestInvalid] after a failed chain. *)
Definition note_invalid (s : tree) (pindexNew : Z) : option tree :=
  n ← objs s !! pindexNew;
  worse ← match pindexBestInvalid s with
          | None => Some true
          | Some i => c ← objs s !! i; Some (CompareTo (nChainWork n) (nChainWork c) >? 0)
          end;
  Some (if worse : bool
        then mkTree (objs s) (mapBlockIndex s) (pindexBestHeader s) (setBlockIndexCandidates s) (mapBlocksUnlinked s)
               (nBlockSequenceId s) (Some pindexNew) (chainActive s) (setDirtyBlockIndex s)
        else s).

Fixpoint most_work_loop (fuel : nat) (s : tree) : option (tree * option Z) :=
  match fuel with
  | O => None
  | S fuel =>
    match best_candidate (objs s) (setBlockIndexCandidates s) with
    | None => Some (s, None)
    | Some pindexNew =>
      n ← objs s !! pindexNew;
      let steps := S (Z.to_nat (nHeight n)) in
      bad ← unusable_block steps s (Some pindexNew);
      match bad with
      | None => Some (s, Some pindexNew)
      | Some pindexTest =>
        t ← objs s !! pindexTest;
        let fFailedChain := negb (Z.land (nStatus t) BLOCK_FAILED_MASK =? 0) in
        s ← (if fFailedChain then note_invalid s pindexNew else Some s);
        s ← remove_chain steps fFailedChain pindexTest pindexNew s;
        most_work_loop fuel s
      end
    end
  end.

Definition FindMostWorkChain (s : tree) : option (tree * option Z) :=
  most_work_loop (S (size (setBlockIndexCandidates s))) s.

(** Everything worse than the tip goes. *)
Definition PruneBlockIndexCandidates (s : tree) : option tree :=
  t ← Tip (chainActive s);
  let rest := filter (fun p => work_comp (objs s) p t = false) (setBlockIndexCandidates s) in
  if decide (rest = ∅) then None
  else Some (mkTree (objs s) (mapBlockIndex s) (pindexBestHeader s) rest (mapBlocksUnlinked s)
               (nBlockSequenceId s) (pindexBestInvalid s) (chainActive s) (setDirtyBlockIndex s)).

(** ** Work *)

Lemma EqualTo_zero l : bu_wf l -> EqualTo l 0 = (bu_val l =? 0).
Proof.
  intros [Hl Hf]. destruct l as [|p0 [|p1 hi]]; [done|done|]. clear Hl. cbn [EqualTo].
  rewrite !list.Forall_cons in Hf. destruct Hf as (H0 & H1 & Hhi). unfold is_u32 in H0, H1.
  change (Z.shiftr 0 32) with 0. change (Z.land 0 0xffffffff) with 0.
  assert (forallb (fun x => x =? 0) hi = (bu_val hi =? 0) /\ 0 <= bu_val hi) as [-> Hge].
  { induction Hhi as [|x hi Hx Hhi IH]; [done|]. destruct (IH) as [E Hge]. unfold is_u32 in Hx. cbn [forallb bu_val].
    rewrite E. split; [|lia]. destruct (Z.eqb_spec x 0), (Z.eqb_spec (bu_val hi) 0); cbn [andb]; symmetry;
      first [apply Z.eqb_eq; lia | apply Z.eqb_neq; lia]. }
  cbn [bu_val]. destruct (Z.eqb_spec (bu_val hi) 0), (Z.eqb_spec p1 0), (Z.eqb_spec p0 0); cbn [andb]; symmetry;
    first [apply Z.eqb_eq; lia | apply Z.eqb_neq; lia].
Qed.

Lemma compact_value_not_ones c : is_u32 c -> compact_value c <> 2 ^ 256 - 1.
Proof.
  intros Hc. unfold compact_value. pose proof (Z.mod_pos_bound c (2 ^ 23) ltac:(lia)).
  destruct (Z.leb_spec (c / 2 ^ 24) 3) as [Hs|Hs].
  - intros E. assert (0 <= c / 2 ^ 24) by (apply Z.div_pos; unfold is_u32 in Hc; lia).
    assert (0 < 256 ^ (3 - c / 2 ^ 24)) by (apply Z.pow_pos_nonneg; lia).
    pose proof (Z.div_le_upper_bound (c mod 2 ^ 23) (256 ^ (3 - c / 2 ^ 24)) (2 ^ 23) ltac:(lia) ltac:(nia)). lia.
  - replace (c / 2 ^ 24 - 3) with (Z.succ (c / 2 ^ 24 - 4)) by lia. rewrite Z.pow_succ_r by lia. intros E.
    apply (f_equal (fun z => z mod 2)) in E. change ((2 ^ 256 - 1) mod 2) with 1 in E.
    replace (c mod 2 ^ 23 * (256 * 256 ^ (c / 2 ^ 24 - 4))) with (c mod 2 ^ 23 * 128 * 256 ^ (c / 2 ^ 24 - 4) * 2) in E by ring.
    by rewrite Z.mod_mul in E.
Qed.

(** [GetBlockProof] is the expected number of hashes for the block's target:
    with target [t], [2^256 / (t + 1)] exactly, computed without a 257-bit
    number and without dividing by zero; and zero for a negative, overflowing
    or zero target. *)
Theorem GetBlockProof_exact (nBits : Z) :
  is_u32 nBits ->
  exists w, GetBlockProof nBits = Some w /\ bu_wf w /\
    bu_val w = if (Z.testbit nBits 23 && negb (compact_value nBits =? 0)) || (2 ^ 256 <=? compact_value nBits) || (compact_value nBits =? 0)
               then 0 else 2 ^ 256 / (compact_value nBits + 1).
Proof.
  intros Hb. pose proof (SetCompact_spec nBits Hb) as H. unfold GetBlockProof.
  pose proof (compact_value_nonneg nBits ltac:(unfold is_u32 in Hb; lia)) as Hge.
  destruct (SetCompact nBits) as [[t neg] ovf]. destruct H as (Hwf & Hv & -> & Hneg).
  assert (neg = Z.testbit nBits 23 && negb (compact_value nBits =? 0)) as ->.
  { apply eq_true_iff_eq. rewrite Hneg, andb_true_iff, negb_true_iff, Z.eqb_neq. done. }
  rewrite (EqualTo_zero t Hwf). destruct (bu_val_of_u64 0 ltac:(unfold is_u64; lia)) as [V0 W0].
  destruct (_ && _); [cbn [orb]; eauto|]. destruct (Z.leb_spec (2 ^ 256) (compact_value nBits)) as [|Hlt]; [cbn [orb]; eauto|].
  rewrite Z.mod_small in Hv by lia. rewrite Hv. cbn [orb].
  destruct (Z.eqb_spec (compact_value nBits) 0) as [|Hnz]; [eauto|].
  pose proof (compact_value_not_ones nBits Hb) as Hones. set (v := compact_value nBits) in *. clearbody v.
  destruct (bu_val_of_u64 1 ltac:(unfold is_u64; lia)) as [V1 W1].
  destruct (bu_not_val t (proj2 Hwf)) as (Vn & Wn & Ln). rewrite (proj1 Hwf) in Vn, Ln.
  change (limb_mod WIDTH) with (2 ^ 256) in Vn. destruct (bu_add_val t (bu_of_u64 1) Hwf W1) as [Va Wa].
  rewrite V1, Hv, Z.mod_small in Va by lia.
  pose proof (bu_div_val (bu_not t) (bu_add t (bu_of_u64 1)) (conj Ln Wn) Wa) as Hd.
  destruct (bu_div _ _) as [q|]; [|lia]. destruct Hd as (_ & Vq & Wq). cbn [mbind option_bind].
  destruct (bu_add_val q (bu_of_u64 1) Wq W1) as [Vr Wr]. eexists. split; [done|]. split; [done|].
  rewrite Vr, V1, Vq, Va, Vn, Hv. replace (2 ^ 256) with (2 ^ 256 - 1 - v + 1 * (v + 1)) at 3 by lia.
  rewrite Z.div_add by lia. apply Z.mod_small.
  assert (0 <= (2 ^ 256 - 1 - v) / (v + 1)) by (apply Z.div_pos; lia).
  pose proof (Z.div_le_upper_bound (2 ^ 256 - 1 - v) (v + 1) (2 ^ 255) ltac:(lia) ltac:(lia)). lia.
Qed.

Lemma GetBlockProof_exact_witness :
  exists w, GetBlockProof 0x1d00ffff = Some w /\ bu_wf w /\ bu_val w = 4295032833.
Proof. exact (GetBlockProof_exact 0x1d00ffff ltac:(unfold is_u32; lia)). Defined.

(** ** The order of the candidates *)

(** What the comparator compares: work, then earlier receipt, then address. *)
Lemma work_less_spec pa a pb b :
  bu_wf (nChainWork a) -> bu_wf (nChainWork b) ->
  work_less pa a pb b = true <->
  bu_val (nChainWork a) < bu_val (nChainWork b) \/
  bu_val (nChainWork a) = bu_val (nChainWork b) /\
    (nSequenceId b < nSequenceId a \/ nSequenceId a = nSequenceId b /\ pb < pa).
Proof.
  intros Ha Hb. unfold work_less. rewrite (CompareTo_spec _ _ Ha Hb), !Z.gtb_ltb.
  destruct (Z.compare_spec (bu_val (nChainWork a)) (bu_val (nChainWork b))); cbn [Z.ltb Z.compare].
  - destruct (Z.ltb_spec (nSequenceId a) (nSequenceId b)); [split; [done|lia]|].
    destruct (Z.ltb_spec (nSequenceId b) (nSequenceId a)); [split; [lia|done]|].
    destruct (Z.ltb_spec pa pb); [split; [done|lia]|]. rewrite Z.ltb_lt. lia.
  - split; [lia|done].
  - split; [done|lia].
Qed.

Definition works_ok (o : store) : Prop := forall p b, o !! p = Some b -> bu_wf (nChainWork b).

Section Order.
Context (o : store) (Hw : works_ok o).

Lemma work_comp_trans p q r : work_comp o p q = true -> work_comp o q r = true -> work_comp o p r = true.
Proof.
  unfold work_comp. destruct (o !! p) as [a|] eqn:Ep; [|done]. destruct (o !! q) as [b|] eqn:Eq; [|done].
  destruct (o !! r) as [c|] eqn:Er; [|done]. pose proof (Hw _ _ Ep). pose proof (Hw _ _ Eq). pose proof (Hw _ _ Er).
  rewrite !work_less_spec by done. lia.
Qed.

Lemma work_comp_irrefl p : work_comp o p p = false.
Proof.
  unfold work_comp. destruct (o !! p) as [a|] eqn:Ep; [|done]. pose proof (Hw _ _ Ep).
  destruct (work_less p a p a) eqn:E; [|done]. rewrite work_less_spec in E by done. lia.
Qed.

Lemma work_comp_total p q a b :
  o !! p = Some a -> o !! q = Some b -> work_comp o p q = false -> work_comp o q p = false -> p = q.
Proof.
  intros Hp Hq. unfold work_comp. rewrite Hp, Hq. intros E1 E2. pose proof (Hw _ _ Hp). pose proof (Hw _ _ Hq).
  apply not_true_iff_false in E1, E2. rewrite work_less_spec in E1, E2 by done. lia.
Qed.

(** The greatest candidate. *)
Lemma best_candidate_max c :
  (forall p, p ∈ c -> is_Some (o !! p)) ->
  match best_candidate o c with
  | None => c = ∅
  | Some p => p ∈ c /\ forall q, q ∈ c -> work_comp o p q = false
  end.
Proof.
  intros Hc. unfold best_candidate. assert (Forall (fun p => is_Some (o !! p)) (elements c)) as Hall.
  { apply List.Forall_forall. intros p Hp. apply Hc. apply elem_of_elements. by apply list_elem_of_In. }
  assert (match fold_right (fun p acc => match acc with None => Some p | Some q => if work_comp o q p then Some p else Some q end) None (elements c) with
          | None => elements c = []
          | Some p => p ∈ elements c /\ forall q, q ∈ elements c -> work_comp o p q = false
          end) as H.
  { induction Hall as [|p l Hp Hall IH]; [done|]. cbn [fold_right].
    destruct (fold_right _ _ l) as [q|].
    - destruct IH as [Hq Hmax]. destruct (work_comp o q p) eqn:E.
      + split; [apply list_elem_of_here|]. intros r [->|Hr]%elem_of_cons; [apply work_comp_irrefl|].
        destruct (work_comp o p r) eqn:E2; [|done]. specialize (Hmax r Hr).
        by rewrite (work_comp_trans q p r E E2) in Hmax.
      + split; [by apply list_elem_of_further|]. intros r [->|Hr]%elem_of_cons; [done|by apply Hmax].
    - subst l. split; [apply list_elem_of_here|]. intros r Hr. apply list_elem_of_singleton in Hr as ->. apply work_comp_irrefl. }
  destruct (fold_right _ _ _) as [p|].
  - destruct H as [Hp Hmax]. split; [by apply elem_of_elements|]. intros q Hq. apply Hmax. by apply elem_of_elements.
  - apply leibniz_equiv, elements_empty_inv. by rewrite H.
Qed.
End Order.

(** ** Updates of entries that keep their links *)

Definition same_links (b b' : CBlockIndex) : Prop := pprev b' = pprev b /\ pskip b' = pskip b /\ nHeight b' = nHeight b.

Lemma back_update o p b b' n x :
  o !! p = Some b -> same_links b b' -> back (<[p := b']> o) n x = back o n x.
Proof.
  intros Hp (E & _ & _). revert x. induction n as [|n IH]; intros x; [done|]. cbn [back].
  destruct (decide (x = p)) as [->|Hx].
  - rewrite lookup_insert_eq, Hp. cbn [mbind option_bind]. rewrite E. destruct (pprev b); [cbn; apply IH|done].
  - rewrite lookup_insert_ne by done. destruct (o !! x) as [c|]; [|done]. cbn [mbind option_bind].
    destruct (pprev c); [cbn; apply IH|done].
Qed.

Lemma wf_update o p b b' : wf_store o -> o !! p = Some b -> same_links b b' -> wf_store (<[p := b']> o).
Proof.
  intros Hwf Hp Hs x c Hx.
  assert (exists c0, o !! x = Some c0 /\ same_links c0 c) as (c0 & Hc0 & L1 & L2 & L3).
  { destruct (decide (x = p)) as [->|]; [rewrite lookup_insert_eq in Hx; simplify_eq; eauto|].
    rewrite lookup_insert_ne in Hx by done. exists c. done. }
  destruct (Hwf x c0 Hc0) as (H1 & H2 & H3). unfold entry_ok. rewrite L1, L2, L3. split; [done|]. split.
  - destruct (pprev c0) as [q|]; [|done]. destruct H2 as (d & Hd & Hh). destruct (decide (q = p)) as [->|].
    + exists b'. rewrite lookup_insert_eq. split; [done|]. simplify_eq. destruct Hs as (_ & _ & ->). done.
    + exists d. by rewrite lookup_insert_ne.
  - intros s Hsk. rewrite (back_update o p b b') by done. by apply H3.
Qed.

(** A new entry on top of an old one. *)
Lemma back_fresh o p b n x c : wf_store o -> o !! p = None -> o !! x = Some c -> back (<[p := b]> o) n x = back o n x.
Proof.
  intros Hwf Hp. revert x c. induction n as [|n IH]; intros x c Hx; [done|]. cbn [back].
  rewrite lookup_insert_ne by congruence. rewrite Hx. cbn [mbind option_bind].
  destruct (Hwf x c Hx) as (_ & Hprev & _). destruct (pprev c) as [q|]; [|done]. destruct Hprev as (d & Hd & _).
  cbn [mbind option_bind]. by apply (IH q d).
Qed.

Lemma wf_fresh o p b :
  wf_store o -> o !! p = None -> entry_ok (<[p := b]> o) p b -> wf_store (<[p := b]> o).
Proof.
  intros Hwf Hp Hb x c Hx. destruct (decide (x = p)) as [->|]; [rewrite lookup_insert_eq in Hx; by simplify_eq|].
  rewrite lookup_insert_ne in Hx by done. destruct (Hwf x c Hx) as (H1 & H2 & H3). split; [done|]. split.
  - destruct (pprev c) as [q|]; [|done]. destruct H2 as (d & Hd & Hh). exists d. rewrite lookup_insert_ne by congruence. done.
  - intros s Hs. rewrite (back_fresh o p b _ x c) by done. by apply H3.
Qed.

(** ** The invariant *)

(** The work of an entry is its predecessor's plus its own proof. *)
Definition work_sum (o : store) (b : CBlockIndex) : Prop :=
  exists before proof, GetBlockProof (bi_nBits b) = Some proof /\
    match pprev b with None => before = bu_of_u64 0 | Some q => exists c, o !! q = Some c /\ before = nChainWork c end /\
    nChainWork b = bu_add before proof.

(** The links, the index by hash, the work and the best header. *)
Record core_ok (s : tree) : Prop := {
  ok_wf : wf_store (objs s);
  ok_works : works_ok (objs s);
  ok_sum : forall p b, objs s !! p = Some b -> work_sum (objs s) b;
  ok_index : forall p b, objs s !! p = Some b -> mapBlockIndex s !! phashBlock b = Some (Some p);
  ok_ptr : forall h p, mapBlockIndex s !! h = Some (Some p) -> is_Some (objs s !! p);
  ok_best : match pindexBestHeader s with
            | None => objs s = ∅
            | Some r => exists c, objs s !! r = Some c /\
                forall p b, objs s !! p = Some b -> bu_val (nChainWork b) <= bu_val (nChainWork c)
            end;
  ok_chain : chain_ok (objs s) (chainActive s);
  ok_status : forall p b, objs s !! p = Some b -> nStatus b = 2 \/ nStatus b = 11
}.

(** [x] has its transactions and waits to be linked: its predecessor, if any, is linked. *)
Definition ready (o : store) (x : Z) : Prop :=
  exists b, o !! x = Some b /\ nTx b <> 0 /\ nChainTx b = 0 /\
    match pprev b with None => True | Some q => exists c, o !! q = Some c /\ nChainTx c <> 0 end.

(** The transaction counts, [mapBlocksUnlinked] and the candidates, while the
    blocks of [queue] are being linked.  [M] bounds the transactions of a block. *)
Record link_ok (M : Z) (s : tree) (queue : list Z) : Prop := {
  ok_count : forall p b, objs s !! p = Some b ->
    0 <= nTx b <= M /\ 0 <= nChainTx b <= M * (nHeight b + 1) /\ M * (nHeight b + 1) < 2 ^ 32;
  ok_linked : forall p b, objs s !! p = Some b -> nChainTx b <> 0 ->
    nTx b <> 0 /\ match pprev b with None => True | Some q => exists c, objs s !! q = Some c /\ nChainTx c <> 0 end;
  ok_waiting : forall p b, objs s !! p = Some b -> nTx b <> 0 -> nChainTx b = 0 ->
    p ∈ queue \/ exists q c, pprev b = Some q /\ objs s !! q = Some c /\ nChainTx c = 0 /\ (q, p) ∈ mapBlocksUnlinked s;
  ok_unlinked : forall q p, (q, p) ∈ mapBlocksUnlinked s ->
    exists b, objs s !! p = Some b /\ pprev b = Some q /\ nTx b <> 0 /\ nChainTx b = 0;
  ok_nodup : NoDup (queue ++ (snd <$> mapBlocksUnlinked s));
  ok_queue : forall x, x ∈ queue -> ready (objs s) x;
  ok_tip : forall t, Tip (chainActive s) = Some t -> exists b, objs s !! t = Some b /\ nChainTx b <> 0;
  ok_candidate : forall x, x ∈ setBlockIndexCandidates s -> exists b, objs s !! x = Some b /\ nChainTx b <> 0;
  ok_candidates : forall x b, objs s !! x = Some b -> nChainTx b <> 0 ->
    match Tip (chainActive s) with None => True | Some t => work_comp (objs s) x t = false end ->
    x ∈ setBlockIndexCandidates s
}.

(** *** New entries *)

Lemma linked_index_ok o prev p hash h :
  wf_store o -> works_ok o -> is_u32 (h_nBits h) -> o !! p = None ->
  (forall q, prev = Some q -> is_Some (o !! q)) ->
  exists b, linked_index o prev hash h = Some b /\ entry_ok (<[p := b]> o) p b /\ phashBlock b = hash /\ pprev b = prev /\
    nTx b = 0 /\ nChainTx b = 0 /\ nStatus b = 2 /\ bu_wf (nChainWork b) /\ work_sum (<[p := b]> o) b.
Proof.
  intros Hwf Hw Hb Hp Hprev. destruct (GetBlockProof_exact (h_nBits h) Hb) as (pr & Epr & Wpr & _). unfold linked_index.
  destruct (bu_val_of_u64 0 ltac:(unfold is_u64; lia)) as [_ W0].
  destruct prev as [q|].
  - destruct (Hprev q eq_refl) as [c Hq]. rewrite Hq. cbn [mbind option_bind nHeight set_prev].
    destruct (Hwf q c Hq) as (Hc0 & _ & _). pose proof (GetSkipHeight_bound (nHeight c + 1) ltac:(lia)) as Hsk.
    rewrite (GetAncestor_back o Hwf q c _ Hq), (proj2 (Z.leb_le 0 _)), (proj2 (Z.leb_le _ (nHeight c))) by lia.
    cbn [andb mbind option_bind pprev set_pskip set_prev]. rewrite Hq. cbn [mbind option_bind].
    change (bi_nBits _) with (h_nBits h). rewrite Epr. cbn [mbind option_bind].
    set (a := back o _ q). set (b0 := set_work _ _). exists (set_nStatus 2 b0).
    destruct (bu_add_val (nChainWork c) pr (Hw _ _ Hq) Wpr) as [_ Ww]. split; [done|]. split; [|split_and!; try done].
    + split; [cbn; lia|]. split; cbn [pprev pskip nHeight set_nStatus set_work set_pskip set_prev b0].
      * exists c. rewrite lookup_insert_ne by congruence. done.
      * intros s Es. replace (Z.to_nat (nHeight c + 1 - GetSkipHeight (nHeight c + 1)))
          with (S (Z.to_nat (nHeight c - GetSkipHeight (nHeight c + 1)))) by lia.
        cbn [back]. rewrite lookup_insert_eq. cbn [mbind option_bind pprev set_nStatus set_work set_pskip set_prev b0].
        by rewrite (back_fresh o p _ _ q c).
    + exists (nChainWork c), pr. split_and!; [exact Epr| |done]. exists c. rewrite lookup_insert_ne by congruence. done.
  - cbn [mbind option_bind pprev new_index bi_nBits]. rewrite Epr. cbn [mbind option_bind].
    eexists. split; [reflexivity|]. split; [|repeat split].
    + split; [done|]. split; [done|]. intros s Es. done.
    + destruct (bu_add_val _ pr W0 Wpr) as [_ [L _]]. exact L.
    + destruct (bu_add_val _ pr W0 Wpr) as [_ [_ F]]. exact F.
    + exists (bu_of_u64 0), pr. split; [exact Epr|]. split; [done|done].
Qed.

Lemma path_ext o o' p h : (forall n, back o' n p = back o n p) -> path o' p h = path o p h.
Proof. intros E. unfold path. apply list_fmap_ext. intros i x _. apply E. Qed.

Lemma chain_ok_fresh o p b v : wf_store o -> o !! p = None -> chain_ok o v -> chain_ok (<[p := b]> o) v.
Proof.
  intros Hwf Hp [->|(t & c & Ht & ->)]; [by left|]. right. exists t, c. split; [rewrite lookup_insert_ne by congruence; done|].
  symmetry. apply path_ext. intros n. by apply (back_fresh o p b n t c).
Qed.

Lemma chain_ok_update o p b b' v : o !! p = Some b -> same_links b b' -> chain_ok o v -> chain_ok (<[p := b']> o) v.
Proof.
  intros Hp Hs [->|(t & c & Ht & ->)]; [by left|]. right. destruct (decide (t = p)) as [->|].
  - simplify_eq. exists p, b'. rewrite lookup_insert_eq. split; [done|]. destruct Hs as (L1 & L2 & L3). rewrite L3.
    symmetry. apply path_ext. intros n. by apply (back_update o p b b').
  - exists t, c. rewrite lookup_insert_ne by done. split; [done|]. symmetry. apply path_ext. intros k. by apply (back_update o p b b').
Qed.

Lemma work_comp_fresh o p b x y :
  o !! p = None -> is_Some (o !! x) -> is_Some (o !! y) -> work_comp (<[p := b]> o) x y = work_comp o x y.
Proof. intros Hp [c Hx] [d Hy]. unfold work_comp. rewrite !lookup_insert_ne by congruence. done. Qed.

Lemma work_sum_fresh o p b c : o !! p = None -> work_sum o c -> work_sum (<[p := b]> o) c.
Proof.
  intros Hp (before & pr & H1 & H2 & H3). exists before, pr. split_and!; [done| |done].
  destruct (pprev c) as [q|]; [|done]. destruct H2 as (d & Hd & ->). exists d. rewrite lookup_insert_ne by congruence. done.
Qed.

(** The parts of the state [AddToBlockIndex] touches when it adds [b] at [p]. *)
Definition added (p hash : Z) (b : CBlockIndex) (best : option Z) (s : tree) : tree :=
  mkTree (<[p := b]> (objs s)) (<[hash := Some p]> (mapBlockIndex s)) best (setBlockIndexCandidates s)
    (mapBlocksUnlinked s) (nBlockSequenceId s) (pindexBestInvalid s) (chainActive s) ({[p]} ∪ setDirtyBlockIndex s).

Lemma added_core s p hash b :
  core_ok s -> objs s !! p = None -> (forall q, mapBlockIndex s !! hash <> Some (Some q)) ->
  entry_ok (<[p := b]> (objs s)) p b -> phashBlock b = hash -> nStatus b = 2 -> bu_wf (nChainWork b) ->
  work_sum (<[p := b]> (objs s)) b ->
  exists best,
    match pindexBestHeader s with
    | None => Some (Some p)
    | Some r => c ← <[p := b]> (objs s) !! r; Some (if CompareTo (nChainWork c) (nChainWork b) <? 0 then Some p else Some r)
    end = Some best /\ core_ok (added p hash b best s).
Proof.
  intros [H1 H2 H3 H4 H5 H6 H7 H8] Hp Hhash Hb Ehash Hst Hw Hsum.
  assert (forall x c, <[p := b]> (objs s) !! x = Some c -> x = p /\ c = b \/ x <> p /\ objs s !! x = Some c) as Hcase.
  { intros x c Hx. destruct (decide (x = p)) as [->|]; [rewrite lookup_insert_eq in Hx; simplify_eq; by left|].
    rewrite lookup_insert_ne in Hx by done. by right. }
  assert (exists best, match pindexBestHeader s with
    | None => Some (Some p)
    | Some r => c ← <[p := b]> (objs s) !! r; Some (if CompareTo (nChainWork c) (nChainWork b) <? 0 then Some p else Some r)
    end = Some best /\ match best with None => False | Some r => exists c, <[p := b]> (objs s) !! r = Some c /\
      forall x d, <[p := b]> (objs s) !! x = Some d -> bu_val (nChainWork d) <= bu_val (nChainWork c) end) as (best & Ebest & Hbest).
  { destruct (pindexBestHeader s) as [r|].
    - destruct H6 as (c & Hr & Hmax). rewrite lookup_insert_ne by congruence. rewrite Hr. cbn [mbind option_bind].
      rewrite CompareTo_spec by eauto. destruct (Z.compare_spec (bu_val (nChainWork c)) (bu_val (nChainWork b))) as [E|E|E]; cbn [Z.ltb Z.compare].
      1, 3: eexists; split; [done|]; exists c; rewrite lookup_insert_ne by congruence; split; [done|];
        intros x d [[-> ->]|[_ Hx]]%Hcase; [lia|by apply (Hmax x)].
      eexists. split; [done|]. exists b. rewrite lookup_insert_eq. split; [done|].
      intros x d [[-> ->]|[_ Hx]]%Hcase; [lia|]. specialize (Hmax x d Hx). lia.
    - eexists. split; [done|]. exists b. rewrite lookup_insert_eq. split; [done|].
      intros x d [[-> ->]|[_ Hx]]%Hcase; [lia|]. by rewrite H6 in Hx. }
  exists best. split; [done|]. constructor; cbn [objs mapBlockIndex pindexBestHeader chainActive added].
  - by apply wf_fresh.
  - intros x c [[-> ->]|[_ Hx]]%Hcase; eauto.
  - intros x c [[-> ->]|[_ Hx]]%Hcase; [done|]. apply work_sum_fresh; eauto.
  - intros x c [[-> ->]|[Hne Hx]]%Hcase; [rewrite Ehash; apply lookup_insert_eq|].
    rewrite lookup_insert_ne; [eauto|]. intros ->. by apply (Hhash x), H4.
  - intros h x Hx. destruct (decide (h = hash)) as [->|].
    + rewrite lookup_insert_eq in Hx. simplify_eq. rewrite lookup_insert_eq. eauto.
    + rewrite lookup_insert_ne in Hx by done. destruct (H5 h x Hx) as [c Hc]. rewrite lookup_insert_ne by congruence. eauto.
  - by destruct best.
  - by apply chain_ok_fresh.
  - intros x c [[-> ->]|[_ Hx]]%Hcase; [by left|eauto].
Qed.

Lemma added_link M s p hash b best :
  link_ok M s [] -> objs s !! p = None -> nTx b = 0 -> nChainTx b = 0 -> 0 <= M -> 0 <= nHeight b -> M * (nHeight b + 1) < 2 ^ 32 ->
  (forall q, pprev b = Some q -> is_Some (objs s !! q)) ->
  link_ok M (added p hash b best s) [].
Proof.
  intros [L1 L2 L3 L4 L5 L6 L7 L8 L9] Hp Htx Hctx HM Hh0 Hh Hprev.
  assert (forall x c, <[p := b]> (objs s) !! x = Some c -> x = p /\ c = b \/ x <> p /\ objs s !! x = Some c) as Hcase.
  { intros x c Hx. destruct (decide (x = p)) as [->|]; [rewrite lookup_insert_eq in Hx; simplify_eq; by left|].
    rewrite lookup_insert_ne in Hx by done. by right. }
  assert (forall x c, objs s !! x = Some c -> <[p := b]> (objs s) !! x = Some c) as Hold.
  { intros x c Hx. rewrite lookup_insert_ne by congruence. done. }
  constructor; cbn [objs mapBlocksUnlinked setBlockIndexCandidates chainActive added]; try done.
  - intros x c [[-> ->]|[_ Hx]]%Hcase; [rewrite Htx, Hctx; nia|eauto].
  - intros x c [[-> ->]|[_ Hx]]%Hcase Hc; [done|]. destruct (L2 x c Hx Hc) as [A B]. split; [done|].
    destruct (pprev c) as [q|]; [|done]. destruct B as (d & Hd & ?). eauto.
  - intros x c [[-> ->]|[_ Hx]]%Hcase Hc Hc0; [done|]. destruct (L3 x c Hx Hc Hc0) as [?|(q & d & E1 & E2 & E3 & E4)]; [by left|].
    right. exists q, d. eauto.
  - intros q x Hin. destruct (L4 q x Hin) as (c & Hx & ?). eauto.
  - intros x Hx. by apply elem_of_nil in Hx.
  - intros t Ht. destruct (L7 t Ht) as (c & Hx & ?). eauto.
  - intros x Hin. destruct (L8 x Hin) as (c & Hx & ?). eauto.
  - intros x c [[-> ->]|[_ Hx]]%Hcase Hc Htip; [done|]. apply (L9 x c Hx Hc). destruct (Tip (chainActive s)) as [t|]; [|done].
    destruct (L7 t eq_refl) as (d & Hd & _). rewrite (work_comp_fresh _ p b) in Htip by (eauto || done). done.
Qed.

(** *** Receiving and linking transactions *)

Definition keeps (b b' : CBlockIndex) : Prop :=
  same_links b b' /\ phashBlock b' = phashBlock b /\ nChainWork b' = nChainWork b /\ bi_nBits b' = bi_nBits b.

Lemma core_update s s' p b b' :
  core_ok s -> objs s !! p = Some b -> keeps b b' -> nStatus b' = 2 \/ nStatus b' = 11 ->
  objs s' = <[p := b']> (objs s) -> mapBlockIndex s' = mapBlockIndex s -> pindexBestHeader s' = pindexBestHeader s ->
  chainActive s' = chainActive s -> core_ok s'.
Proof.
  intros [H1 H2 H3 H4 H5 H6 H7 H8] Hp (Hs & Eh & Ew & Eb) Hst E1 E2 E3 E4.
  assert (forall x c, <[p := b']> (objs s) !! x = Some c -> x = p /\ c = b' \/ x <> p /\ objs s !! x = Some c) as Hcase.
  { intros x c Hx. destruct (decide (x = p)) as [->|]; [rewrite lookup_insert_eq in Hx; simplify_eq; by left|].
    rewrite lookup_insert_ne in Hx by done. by right. }
  assert (forall q d, objs s !! q = Some d -> exists d', <[p := b']> (objs s) !! q = Some d' /\ nChainWork d' = nChainWork d) as Hwork.
  { intros q d Hq. destruct (decide (q = p)) as [->|]; [exists b'; rewrite lookup_insert_eq; by simplify_eq|].
    exists d. by rewrite lookup_insert_ne. }
  constructor; rewrite ?E1, ?E2, ?E3, ?E4.
  - by apply (wf_update _ p b b').
  - intros x c [[-> ->]|[_ Hx]]%Hcase; [rewrite Ew|]; eauto.
  - assert (forall c, work_sum (objs s) c -> work_sum (<[p := b']> (objs s)) c) as Hup.
    { intros c (before & pr & A1 & A2 & A3). exists before, pr. split_and!; [done| |done].
      destruct (pprev c) as [q|]; [|done]. destruct A2 as (d & Hd & ->). destruct (Hwork q d Hd) as (d' & ? & ?). eauto. }
    intros x c [[-> ->]|[_ Hx]]%Hcase; [|eauto]. destruct (Hup b (H3 p b Hp)) as (before & pr & A1 & A2 & A3).
    exists before, pr. rewrite Eb, Ew, (proj1 Hs). done.
  - intros x c [[-> ->]|[_ Hx]]%Hcase; [rewrite Eh|]; eauto.
  - intros h x Hx. destruct (H5 h x Hx) as [c Hc]. destruct (Hwork x c Hc) as (d & ? & _). eauto.
  - destruct (pindexBestHeader s) as [r|]; [|by rewrite H6 in Hp]. destruct H6 as (c & Hr & Hmax).
    destruct (Hwork r c Hr) as (c' & Hc' & Ec'). exists c'. split; [done|]. rewrite Ec'.
    intros x d [[-> ->]|[_ Hx]]%Hcase; [rewrite Ew|]; eauto.
  - by apply (chain_ok_update _ p b b').
  - intros x c [[-> ->]|[_ Hx]]%Hcase; eauto.
Qed.

Lemma in_waiting x p l : x ∈ waiting p l <-> (p, x) ∈ l.
Proof.
  unfold waiting. rewrite list_elem_of_fmap. split.
  - intros ([q y] & -> & H). apply list_elem_of_filter in H as [E H]. cbn in *. by subst.
  - intros H. exists (p, x). split; [done|]. apply list_elem_of_filter. done.
Qed.

Lemma in_others q x p l : (q, x) ∈ others p l <-> q <> p /\ (q, x) ∈ l.
Proof. unfold others. by rewrite list_elem_of_filter. Qed.

Lemma waiting_others p l : snd <$> l ≡ₚ waiting p l ++ (snd <$> others p l).
Proof.
  unfold waiting, others. induction l as [|[q x] l IH]; [done|]. cbn [fmap list_fmap]. rewrite !filter_cons. cbn [fst snd].
  destruct (decide (q = p)) as [E|E].
  - rewrite decide_False by (intros ?; done). cbn [fmap list_fmap app snd]. by rewrite IH.
  - rewrite decide_True by done. cbn [fmap list_fmap snd]. rewrite IH. apply Permutation_middle.
Qed.

(** The order against the tip looks at the work, the sequence number and the address. *)
Lemma work_comp_other o p b' x t : x <> p -> t <> p -> work_comp (<[p := b']> o) x t = work_comp o x t.
Proof. intros. unfold work_comp. by rewrite !lookup_insert_ne. Qed.

Lemma link_step_ok M s p queue :
  core_ok s -> link_ok M s (p :: queue) ->
  exists s' w, link_step p s = Some (s', w) /\ core_ok s' /\ link_ok M s' (queue ++ w) /\ chainActive s' = chainActive s /\
    (length w + length (mapBlocksUnlinked s') = length (mapBlocksUnlinked s))%nat /\
    (exists b, objs s' !! p = Some b /\ nChainTx b <> 0) /\
    (forall x b, objs s !! x = Some b -> nChainTx b <> 0 -> objs s' !! x = Some b).
Proof.
  intros Hcore [L1 L2 L3 L4 L5 L6 L7 L8 L9]. destruct (L6 p (list_elem_of_here _ _)) as (b & Hp & Htx & Hctx & Hready).
  pose proof (ok_wf s Hcore p b Hp) as (Hb0 & Hprevb & _). destruct (L1 p b Hp) as (B1 & B2 & B3).
  assert (exists prev, lookup_prev (objs s) b = Some prev /\ 0 <= match prev with Some c => nChainTx c | None => 0 end <= M * nHeight b /\
    match pprev b with None => True | Some q => exists c, prev = Some c /\ objs s !! q = Some c /\ nChainTx c <> 0 /\ q <> p end)
    as (prev & Eprev & Hsum & Hpp).
  { unfold lookup_prev. destruct (pprev b) as [q|].
    - destruct Hready as (c & Hq & Hc), Hprevb as (c' & Hc' & Hh). simplify_eq. rewrite Hq. exists (Some c).
      split; [done|]. destruct (L1 q c Hq) as (_ & C2 & _). rewrite Hh. split; [lia|]. exists c. split_and!; try done.
      intros ->. simplify_eq.
    - exists None. split; [done|]. split; [nia|done]. }
  unfold link_step. rewrite Hp. cbn [mbind option_bind]. rewrite Eprev. cbn [mbind option_bind].
  set (b' := link_index prev (nBlockSequenceId s) b).
  assert (nChainTx b' = match prev with Some c => nChainTx c | None => 0 end + nTx b) as Ectx by (apply u32_id; unfold is_u32; nia).
  assert (nChainTx b' <> 0) as Hnz by lia.
  assert (forall x c, <[p := b']> (objs s) !! x = Some c -> x = p /\ c = b' \/ x <> p /\ objs s !! x = Some c) as Hcase.
  { intros x c Hx. destruct (decide (x = p)) as [->|]; [rewrite lookup_insert_eq in Hx; simplify_eq; by left|].
    rewrite lookup_insert_ne in Hx by done. by right. }
  assert (forall x c, objs s !! x = Some c -> nChainTx c <> 0 -> <[p := b']> (objs s) !! x = Some c) as Hkeep.
  { intros x c Hx Hc. rewrite lookup_insert_ne; [done|]. intros ->. simplify_eq. }
  cbn [app] in L5. apply list.NoDup_cons in L5 as [Hfresh Hnd]. rewrite elem_of_app in Hfresh.
  assert (forall q, (q, p) ∉ mapBlocksUnlinked s) as Hnotin.
  { intros q Hin. apply Hfresh. right. apply list_elem_of_fmap. by exists (q, p). }
  eexists _, _. split; [done|]. cbn [objs mapBlocksUnlinked chainActive]. split_and!; [| |done| | |exact Hkeep].
  - apply (core_update s _ p b b'); try done. exact (ok_status s Hcore p b Hp).
  - constructor; cbn [objs mapBlocksUnlinked setBlockIndexCandidates chainActive].
    + intros x c [[-> ->]|[_ Hx]]%Hcase; [|eauto]. rewrite Ectx. cbn. nia.
    + intros x c [[-> ->]|[Hne Hx]]%Hcase Hc.
      * split; [done|]. change (pprev b') with (pprev b). destruct (pprev b) as [q|]; [|done].
        destruct Hpp as (c & -> & Hq & Hqc & Hqp). exists c. by rewrite lookup_insert_ne.
      * destruct (L2 x c Hx Hc) as [A B]. split; [done|]. destruct (pprev c) as [q|]; [|done]. destruct B as (d & Hd & ?). eauto.
    + intros x c [[-> ->]|[Hne Hx]]%Hcase Hc Hc0; [done|]. destruct (L3 x c Hx Hc Hc0) as [Hin|(q & d & E1 & E2 & E3 & E4)].
      * apply elem_of_cons in Hin as [?|Hin]; [done|]. left. apply elem_of_app. by left.
      * destruct (decide (q = p)) as [->|Hq]; [left; apply elem_of_app; right; by apply in_waiting|].
        right. exists q, d. rewrite lookup_insert_ne by done. split_and!; try done. by apply in_others.
    + intros q x [Hq Hin]%in_others. destruct (L4 q x Hin) as (c & Hx & ?). exists c. rewrite lookup_insert_ne; [done|].
      intros ->. by apply (Hnotin q).
    + rewrite <- app_assoc. rewrite <- (waiting_others p). done.
    + intros x [Hin|Hin]%elem_of_app.
      * destruct (L6 x (list_elem_of_further _ _ _ Hin)) as (c & Hx & X1 & X2 & X3). exists c.
        rewrite lookup_insert_ne by (intros ->; by apply Hfresh; left). split_and!; try done.
        destruct (pprev c) as [q|]; [|done]. destruct X3 as (d & Hd & ?). eauto.
      * apply in_waiting in Hin. destruct (L4 p x Hin) as (c & Hx & X1 & X2 & X3). exists c.
        rewrite lookup_insert_ne by (intros E; subst x; by apply (Hnotin p)). rewrite X1. split_and!; try done.
        exists b'. by rewrite lookup_insert_eq.
    + intros t Ht. destruct (L7 t Ht) as (c & Hx & ?). eauto.
    + intros x. assert (x ∈ setBlockIndexCandidates s -> exists c, <[p := b']> (objs s) !! x = Some c /\ nChainTx c <> 0) as Hold.
      { intros Hin. destruct (L8 x Hin) as (c & Hx & ?). eauto. }
      destruct (match Tip (chainActive s) with None => true | Some t => negb (work_comp _ p t) end); [|exact Hold].
      intros [->%elem_of_singleton|Hin]%elem_of_union; [exists b'; by rewrite lookup_insert_eq|auto].
    + intros x c [[-> ->]|[Hne Hx]]%Hcase Hc Htip.
      * destruct (Tip (chainActive s)) as [t|]; [rewrite Htip; cbn [negb]|]; apply elem_of_union; left; by apply elem_of_singleton.
      * assert (x ∈ setBlockIndexCandidates s) as Hin; [|destruct (match Tip (chainActive s) with None => true | Some _ => _ end); [apply elem_of_union; by right|done]].
        apply (L9 x c Hx Hc). destruct (Tip (chainActive s)) as [t|]; [|done]. destruct (L7 t eq_refl) as (d & Hd & Hdc).
        rewrite work_comp_other in Htip; [done|done|]. intros ->. simplify_eq.
  - rewrite <- (length_fmap snd (mapBlocksUnlinked s)), (waiting_others p), length_app, length_fmap. done.
  - exists b'. by rewrite lookup_insert_eq.
Qed.

Lemma link_loop_ok M fuel queue s :
  core_ok s -> link_ok M s queue -> (length queue + length (mapBlocksUnlinked s) <= fuel)%nat ->
  exists s', link_loop fuel queue s = Some s' /\ core_ok s' /\ link_ok M s' [] /\
    (forall x b, objs s !! x = Some b -> nChainTx b <> 0 -> objs s' !! x = Some b).
Proof.
  revert queue s. induction fuel as [|fuel IH]; intros [|p queue] s Hcore Hl Hf; cbn [length] in Hf.
  - exists s. done.
  - lia.
  - exists s. done.
  - cbn [link_loop]. destruct (link_step_ok M s p queue Hcore Hl) as (s' & w & E & Hcore' & Hl' & _ & Hlen & _ & Hkeep).
    rewrite E. cbn [mbind option_bind fst snd].
    destruct (IH (queue ++ w) s' Hcore' Hl') as (s2 & -> & ? & ? & Hkeep2); [rewrite length_app; lia|]. eauto 8.
Qed.

Lemma link_ok_queued M s s' p b b' queue extra :
  core_ok s -> link_ok M s [] -> objs s !! p = Some b -> nTx b = 0 -> keeps b b' ->
  0 < nTx b' <= M -> nChainTx b' = 0 -> nSequenceId b' = nSequenceId b ->
  objs s' = <[p := b']> (objs s) -> chainActive s' = chainActive s ->
  setBlockIndexCandidates s' = setBlockIndexCandidates s -> mapBlocksUnlinked s' = mapBlocksUnlinked s ++ extra ->
  (queue = [p] /\ extra = [] /\ match pprev b with None => True | Some q => exists c, objs s !! q = Some c /\ nChainTx c <> 0 end) \/
  (exists q c, queue = [] /\ extra = [(q, p)] /\ pprev b = Some q /\ objs s !! q = Some c /\ nChainTx c = 0) ->
  link_ok M s' queue.
Proof.
  intros Hcore [L1 L2 L3 L4 L5 L6 L7 L8 L9] Hp Htx (Hs & _ & _ & _) Htx' Hctx' _ E1 E2 E3 E4 Hcases.
  pose proof (ok_wf s Hcore p b Hp) as (Hb0 & Hprevb & _). destruct (L1 p b Hp) as (_ & _ & B3). destruct Hs as (S1 & _ & S3).
  assert (nChainTx b = 0) as Hctx by (destruct (decide (nChainTx b = 0)); [done|by destruct (L2 p b Hp)]).
  assert (forall x c, <[p := b']> (objs s) !! x = Some c -> x = p /\ c = b' \/ x <> p /\ objs s !! x = Some c) as Hcase.
  { intros x c Hx. destruct (decide (x = p)) as [->|]; [rewrite lookup_insert_eq in Hx; simplify_eq; by left|].
    rewrite lookup_insert_ne in Hx by done. by right. }
  assert (forall x c, objs s !! x = Some c -> nTx c <> 0 -> <[p := b']> (objs s) !! x = Some c) as Hkeep.
  { intros x c Hx Hc. rewrite lookup_insert_ne; [done|]. intros ->. simplify_eq. }
  assert (forall q c, objs s !! q = Some c -> nChainTx c = 0 -> exists c', <[p := b']> (objs s) !! q = Some c' /\ nChainTx c' = 0) as Hzero.
  { intros q c Hq Hc. destruct (decide (q = p)) as [->|]; [exists b'; rewrite lookup_insert_eq; eauto|].
    exists c. by rewrite lookup_insert_ne. }
  assert (forall q c, objs s !! q = Some c -> nChainTx c <> 0 -> <[p := b']> (objs s) !! q = Some c) as Hkeepc.
  { intros q c Hq Hc. apply Hkeep; [done|]. by apply (L2 q c). }
  assert (forall q, (q, p) ∉ mapBlocksUnlinked s) as Hnotin.
  { intros q Hin. destruct (L4 q p Hin) as (c & Hc & _ & ? & _). simplify_eq. }
  constructor; rewrite ?E1, ?E2, ?E3, ?E4.
  - intros x c [[-> ->]|[_ Hx]]%Hcase; [rewrite S3; split; [lia|]; nia|eauto].
  - intros x c [[-> ->]|[Hne Hx]]%Hcase Hc; [done|]. destruct (L2 x c Hx Hc) as [A B]. split; [done|].
    destruct (pprev c) as [q|]; [|done]. destruct B as (d & Hd & ?). eauto.
  - intros x c [[-> ->]|[Hne Hx]]%Hcase Hc Hc0.
    + rewrite S1. destruct Hcases as [(-> & _)|(q & c & -> & -> & Eq & Hq & Hqc)]; [left; apply list_elem_of_here|].
      right. destruct (Hzero q c Hq Hqc) as (c' & ? & ?). exists q, c'. split_and!; try done.
      apply elem_of_app. right. by apply list_elem_of_singleton.
    + destruct (L3 x c Hx Hc Hc0) as [Hin|(q & d & X1 & X2 & X3 & X4)]; [by apply elem_of_nil in Hin|].
      right. destruct (Hzero q d X2 X3) as (d' & ? & ?). exists q, d'. split_and!; try done. apply elem_of_app. by left.
  - intros q x [Hin|Hin]%elem_of_app.
    + destruct (L4 q x Hin) as (c & Hx & X1 & X2 & X3). exists c. eauto.
    + destruct Hcases as [(_ & -> & _)|(q' & c & _ & -> & Eq & Hq & Hqc)]; [by apply elem_of_nil in Hin|].
      apply list_elem_of_singleton in Hin as [= -> ->]. exists b'. rewrite lookup_insert_eq, S1. split_and!; try done. lia.
  - cbn [app] in L5. assert (p ∉ snd <$> mapBlocksUnlinked s) as Hp2.
    { intros ([q y] & E & Hin)%list_elem_of_fmap. cbn in E. subst y. by apply (Hnotin q). }
    rewrite fmap_app. destruct Hcases as [(-> & -> & _)|(q & c & -> & -> & _)]; cbn [fmap list_fmap app snd].
    + rewrite app_nil_r. apply list.NoDup_cons; done.
    + apply list.NoDup_app. split_and!; [done| |apply NoDup_singleton]. intros x Hx ->%list_elem_of_singleton. done.
  - intros x Hx. destruct Hcases as [(-> & _ & Hr)|(q & c & -> & _)]; [|by apply elem_of_nil in Hx].
    apply list_elem_of_singleton in Hx as ->. exists b'. rewrite lookup_insert_eq, S1. split_and!; try done; [lia|].
    destruct (pprev b) as [q|]; [|done]. destruct Hr as (c & Hc & ?). eauto.
  - intros t Ht. destruct (L7 t Ht) as (c & Hx & ?). eauto.
  - intros x Hin. destruct (L8 x Hin) as (c & Hx & ?). eauto.
  - intros x c [[-> ->]|[Hne Hx]]%Hcase Hc Htip; [done|]. apply (L9 x c Hx Hc). destruct (Tip (chainActive s)) as [t|]; [|done].
    destruct (L7 t eq_refl) as (d & Hd & Hdc). rewrite work_comp_other in Htip; [done|done|]. intros ->. simplify_eq.
Qed.

Lemma receive_index_fields n deltas pos b :
  nStatus b = 2 \/ nStatus b = 11 ->
  let b' := receive_index n deltas pos b in
  keeps b b' /\ nTx b' = n /\ nChainTx b' = 0 /\ nSequenceId b' = nSequenceId b /\ nStatus b' = 11.
Proof.
  intros Hst b'. subst b'. unfold receive_index, RaiseValidity. cbn [nStatus].
  destruct Hst as [-> | ->]; cbn; repeat split.
Qed.

Lemma ReceivedBlockTransactions_ok M vtx p pos s b :
  core_ok s -> link_ok M s [] -> objs s !! p = Some b -> nTx b = 0 -> vtx <> [] -> Z.of_nat (length vtx) <= M ->
  exists s', ReceivedBlockTransactions vtx p pos s = Some s' /\ core_ok s' /\ link_ok M s' [].
Proof.
  intros Hcore Hl Hp Htx Hvtx HM. assert (length vtx <> 0)%nat by (by destruct vtx).
  destruct (receive_index_fields (Z.of_nat (length vtx)) (pool_deltas vtx) pos b (ok_status s Hcore p b Hp)) as (Hk & F1 & F2 & F3 & F4).
  unfold ReceivedBlockTransactions. rewrite Hp. cbn [mbind option_bind].
  set (b' := receive_index _ _ _ b) in *.
  set (s1 := mkTree (<[p := b']> (objs s)) (mapBlockIndex s) (pindexBestHeader s) (setBlockIndexCandidates s)
               (mapBlocksUnlinked s) (nBlockSequenceId s) (pindexBestInvalid s) (chainActive s) ({[p]} ∪ setDirtyBlockIndex s)).
  assert (core_ok s1) as Hcore1 by (apply (core_update s s1 p b b'); auto).
  pose proof (ok_wf s Hcore p b Hp) as (_ & Hprevb & _). pose proof (proj1 (proj1 Hk)) as Eprev.
  assert (forall q c, pprev b = Some q -> objs s !! q = Some c -> q <> p) as Hqp.
  { intros q c Eq Hq ->. rewrite Eq in Hprevb. destruct Hprevb as (c' & ? & ?). simplify_eq. lia. }
  change (objs s1) with (<[p := b']> (objs s)). unfold lookup_prev. rewrite Eprev.
  assert (forall E : match pprev b with None => True | Some q => exists c, objs s !! q = Some c /\ nChainTx c <> 0 end,
    exists s', link_loop (S (length (mapBlocksUnlinked s1))) [p] s1 = Some s' /\ core_ok s' /\ link_ok M s' []) as Hloop.
  { intros E. destruct (link_loop_ok M (S (length (mapBlocksUnlinked s1))) [p] s1) as (s' & ? & ? & ? & _); [done| |cbn; lia|eauto].
    eapply (link_ok_queued M s s1 p b b' [p] []); try done; [lia|by rewrite app_nil_r|by left; split_and!]. }
  destruct (pprev b) as [q|] eqn:Eq.
  - destruct Hprevb as (c & Hq & _). rewrite lookup_insert_ne by (intros E; by apply (Hqp q c)). rewrite Hq. cbn [mbind option_bind].
    destruct (Z.eqb_spec (nChainTx c) 0) as [Hc|Hc]; [|apply Hloop; eauto].
    assert (IsValid BLOCK_VALID_TREE c = true) as -> by (destruct (ok_status s Hcore q c Hq) as [E|E]; unfold IsValid; by rewrite E).
    eexists. split; [done|]. split.
    + apply (core_update s _ p b b'); auto.
    + apply (link_ok_queued M s _ p b b' [] [(q, p)]); try done; [lia|]. right. exists q, c. done.
  - cbn [mbind option_bind]. by apply Hloop.
Qed.

Lemma AddToBlockIndex_ok M p hash h s :
  core_ok s -> link_ok M s [] -> objs s !! p = None -> is_u32 (h_nBits h) -> 0 <= M < 2 ^ 32 ->
  (forall q c, mapBlockIndex s !! hashPrevBlock h = Some (Some q) -> objs s !! q = Some c -> M * (nHeight c + 2) < 2 ^ 32) ->
  exists s' r, AddToBlockIndex p hash h s = Some (s', r) /\ core_ok s' /\ link_ok M s' [].
Proof.
  intros Hcore Hl Hp Hb HM Hheight. unfold AddToBlockIndex.
  assert (forall miPrev, mapBlockIndex s !! hashPrevBlock h = miPrev -> (forall q, mapBlockIndex s !! hash <> Some (Some q)) ->
    exists s' r, (b ← linked_index (objs s) (match miPrev with Some r => r | None => None end) hash h;
      best ← match pindexBestHeader s with
             | None => Some (Some p)
             | Some r => c ← <[p := b]> (objs s) !! r; Some (if CompareTo (nChainWork c) (nChainWork b) <? 0 then Some p else Some r)
             end;
      Some (added p hash b best s, Some p)) = Some (s', r) /\ core_ok s' /\ link_ok M s' []) as Hnew.
  { intros miPrev Emi Hhash. assert (forall q, match miPrev with Some r => r | None => None end = Some q -> is_Some (objs s !! q)) as Hprev.
    { intros q E. destruct miPrev as [r|]; [|done]. subst r. by apply (ok_ptr s Hcore (hashPrevBlock h)). }
    destruct (linked_index_ok (objs s) (match miPrev with Some r => r | None => None end) p hash h) as (b & -> & B1 & B2 & B3 & B4 & B5 & B6 & B7 & B8);
      [apply Hcore|apply Hcore|done|done|done|]. cbn [mbind option_bind].
    destruct (added_core s p hash b) as (best & -> & Hc); try done. cbn [mbind option_bind].
    eexists _, _. split; [done|]. split; [done|]. pose proof B1 as (H0 & Hh & _).
    apply added_link; try done; [lia| |intros q E; apply Hprev; congruence].
    rewrite B3 in Hh. destruct miPrev as [[q|]|]; [|rewrite Hh; lia|rewrite Hh; lia]. destruct Hh as (c & Hc' & ->).
    assert (q <> p) by (intros ->; destruct (Hprev p eq_refl); simplify_eq). rewrite lookup_insert_ne in Hc' by done.
    specialize (Hheight q c Emi Hc'). by replace (nHeight c + 1 + 1) with (nHeight c + 2) by lia. }
  destruct (mapBlockIndex s !! hash) as [[q|]|] eqn:Ehash; [by eexists _, _| |].
  - specialize (Hnew _ eq_refl ltac:(done)). destruct (mapBlockIndex s !! hashPrevBlock h) as [[q|]|]; [exact Hnew|by eexists _, _|exact Hnew].
  - specialize (Hnew _ eq_refl ltac:(done)). exact Hnew.
Qed.

(** ** Reachable trees *)

Definition empty_tree : tree := mkTree ∅ ∅ None ∅ [] 1 None [] ∅.

Definition set_chain (v : list (option Z)) (s : tree) : tree :=
  mkTree (objs s) (mapBlockIndex s) (pindexBestHeader s) (setBlockIndexCandidates s) (mapBlocksUnlinked s)
    (nBlockSequenceId s) (pindexBestInvalid s) v (setDirtyBlockIndex s).

(** A header arrives; the transactions of a block arrive for the first time; a
    better tip is connected.  [M] bounds the number of transactions of a
    block, and [nChainTx] must not wrap. *)
Inductive tree_step (M : Z) : tree -> tree -> Prop :=
| step_header p hash h s s' r :
    objs s !! p = None -> is_u32 (h_nBits h) ->
    (forall q c, mapBlockIndex s !! hashPrevBlock h = Some (Some q) -> objs s !! q = Some c -> M * (nHeight c + 2) < 2 ^ 32) ->
    AddToBlockIndex p hash h s = Some (s', r) -> tree_step M s s'
| step_receive vtx p pos b s s' :
    objs s !! p = Some b -> nTx b = 0 -> vtx <> [] -> Z.of_nat (length vtx) <= M ->
    ReceivedBlockTransactions vtx p pos s = Some s' -> tree_step M s s'
| step_tip p b v s s' :
    objs s !! p = Some b -> nChainTx b <> 0 ->
    (forall t, Tip (chainActive s) = Some t -> work_comp (objs s) t p = true) ->
    SetTip (objs s) (Some p) (chainActive s) = Some v ->
    PruneBlockIndexCandidates (set_chain v s) = Some s' -> tree_step M s s'.

Lemma step_tip_ok M p b v s s' :
  core_ok s -> link_ok M s [] -> objs s !! p = Some b -> nChainTx b <> 0 ->
  (forall t, Tip (chainActive s) = Some t -> work_comp (objs s) t p = true) ->
  SetTip (objs s) (Some p) (chainActive s) = Some v ->
  PruneBlockIndexCandidates (set_chain v s) = Some s' ->
  core_ok s' /\ link_ok M s' [].
Proof.
  intros Hcore [L1 L2 L3 L4 L5 L6 L7 L8 L9] Hp Hc Hbetter Hv Hs'. destruct Hcore as [H1 H2 H3 H4 H5 H6 H7 H8].
  rewrite (SetTip_path (objs s) H1 (chainActive s) p b H7 Hp) in Hv. simplify_eq.
  unfold PruneBlockIndexCandidates in Hs'. cbn [chainActive set_chain objs] in Hs'. rewrite (Tip_path (objs s) H1 p b Hp) in Hs'.
  cbn [mbind option_bind] in Hs'. destruct (decide _) as [|_]; [done|]. simplify_eq. split.
  - constructor; cbn; try done. right. eauto.
  - constructor; cbn [objs mapBlocksUnlinked setBlockIndexCandidates chainActive set_chain]; try done;
      rewrite ?(Tip_path (objs s) H1 p b Hp).
    + intros t [= <-]. eauto.
    + intros x [_ Hx]%elem_of_filter. by apply L8.
    + intros x c Hx Hxc Hcmp. apply elem_of_filter. split; [done|]. apply (L9 x c Hx Hxc).
      destruct (Tip (chainActive s)) as [t|]; [|done]. specialize (Hbetter t eq_refl).
      destruct (work_comp (objs s) x t) eqn:E; [|done]. by rewrite (work_comp_trans (objs s) H2 x t p E Hbetter) in Hcmp.
Qed.

Lemma tree_reachable_ok M s :
  0 <= M < 2 ^ 32 -> rtc (tree_step M) empty_tree s -> core_ok s /\ link_ok M s [].
Proof.
  intros HM Hr. revert s Hr. apply (rtc_ind_r (R := tree_step M) (fun s => core_ok s /\ link_ok M s []) empty_tree).
  - split.
    + constructor; cbn; try (intros ? ? Hx; by rewrite lookup_empty in Hx). all: try done. by left.
    + constructor; cbn; try (intros ? ? Hx; rewrite lookup_empty in Hx; done).
      * intros q p Hin. by apply elem_of_nil in Hin.
      * apply NoDup_nil_2.
      * intros x Hin. by apply elem_of_nil in Hin.
      * done.
      * intros x Hin. by apply elem_of_empty in Hin.
  - intros s1 s2 _ Hstep [Hcore Hl]. destruct Hstep as [p hash h s1 s2 r Hp Hb Hh E|vtx p pos b s1 s2 Hp Htx Hv HM2 E|p b v s1 s2 Hp Hc Hbetter Hv E].
    + destruct (AddToBlockIndex_ok M p hash h s1) as (s' & r' & E' & ? & ?); try done. by simplify_eq.
    + destruct (ReceivedBlockTransactions_ok M vtx p pos s1 b) as (s' & E' & ? & ?); try done. by simplify_eq.
    + by apply (step_tip_ok M p b v s1 s2).
Qed.

(** With its transactions and those of all its predecessors. *)
Lemma linked_iff_available M s p b :
  core_ok s -> link_ok M s [] -> objs s !! p = Some b ->
  nChainTx b <> 0 <-> (forall x c, ancestor (objs s) x p -> objs s !! x = Some c -> nTx c <> 0).
Proof.
  intros Hcore Hl. remember (Z.to_nat (nHeight b)) as n eqn:En. revert p b En. induction n as [n IH] using lt_wf_ind.
  intros p b -> Hp. destruct (ok_wf s Hcore p b Hp) as (Hb0 & Hprev & _). split.
  - intros Hc x c Ax Hx. destruct (ok_linked M s [] Hl p b Hp Hc) as [Htx Hq].
    destruct (ancestor_cases (objs s) x p b Hp Ax) as [->|(q & Eq & Aq)]; [by simplify_eq|].
    rewrite Eq in Hprev, Hq. destruct Hprev as (d & Hd & Hh), Hq as (d' & Hd' & Hdc). assert (d' = d) as -> by congruence.
    pose proof (ok_wf s Hcore q d Hd) as [? _].
    by apply (proj1 (IH (Z.to_nat (nHeight d)) ltac:(lia) q d eq_refl Hd) Hdc x).
  - intros Hall Hc. assert (nTx b <> 0) as Htx by (apply (Hall p b); [by exists 0%nat|done]).
    destruct (ok_waiting M s [] Hl p b Hp Htx Hc) as [Hin|(q & d & Eq & Hd & Hdc & _)]; [by apply elem_of_nil in Hin|].
    rewrite Eq in Hprev. destruct Hprev as (d' & Hd' & Hh). assert (d' = d) as -> by congruence. pose proof (ok_wf s Hcore q d Hd) as [? _].
    apply (proj2 (IH (Z.to_nat (nHeight d)) ltac:(lia) q d eq_refl Hd)); [|done].
    intros x c Ax. apply Hall. apply (ancestor_trans _ x q p); [done|]. by apply (ancestor_prev _ p b).
Qed.

(** C7: every reachable block tree is well formed: heights and skip pointers are
    right, every entry is found by its hash, its work is its predecessor's plus
    its proof, the best header has the most work; an entry's [nChainTx] is
    non-zero exactly when its transactions and those of all its predecessors
    were received; blocks waiting for a predecessor are in
    [mapBlocksUnlinked]; and every linked block no worse than the tip is a
    candidate. *)
Theorem block_tree_invariant (M : Z) (s : tree) :
  0 <= M < 2 ^ 32 -> rtc (tree_step M) empty_tree s ->
  core_ok s /\ link_ok M s [] /\
  (forall p b, objs s !! p = Some b ->
     nChainTx b <> 0 <-> (forall x c, ancestor (objs s) x p -> objs s !! x = Some c -> nTx c <> 0)).
Proof.
  intros HM Hr. destruct (tree_reachable_ok M s HM Hr) as [Hcore Hl]. split_and!; [done|done|].
  intros p b Hp. by apply (linked_iff_available M).
Qed.

(** C38: in a reachable tree [AddToBlockIndex] of any header and
    [ReceivedBlockTransactions] of any block of the index always return: no
    dangling pointer, no failed assertion, and the queue of blocks to link
    empties. *)
Theorem block_tree_progress (M : Z) (s : tree) :
  0 <= M < 2 ^ 32 -> rtc (tree_step M) empty_tree s ->
  (forall p hash h, objs s !! p = None -> is_u32 (h_nBits h) ->
     (forall q c, mapBlockIndex s !! hashPrevBlock h = Some (Some q) -> objs s !! q = Some c -> M * (nHeight c + 2) < 2 ^ 32) ->
     exists s' r, AddToBlockIndex p hash h s = Some (s', r)) /\
  (forall vtx p pos b, objs s !! p = Some b -> nTx b = 0 -> vtx <> [] -> Z.of_nat (length vtx) <= M ->
     exists s', ReceivedBlockTransactions vtx p pos s = Some s').
Proof.
  intros HM Hr. destruct (tree_reachable_ok M s HM Hr) as [Hcore Hl]. split.
  - intros p hash h Hp Hb Hh. destruct (AddToBlockIndex_ok M p hash h s) as (s' & r & ? & _); eauto.
  - intros vtx p pos b Hp Htx Hv HM2. destruct (ReceivedBlockTransactions_ok M vtx p pos s b) as (s' & ? & _); eauto.
Qed.

(** ** FindMostWorkChain *)

Definition bad_block (b : CBlockIndex) : bool :=
  negb (Z.land (nStatus b) BLOCK_FAILED_MASK =? 0) || (Z.land (nStatus b) BLOCK_HAVE_DATA =? 0).

(** A failed block, or one without data, lies between [p] and the active chain. *)
Definition unusable (o : store) (v : list (option Z)) (p : Z) : Prop :=
  exists n x c, back o n p = Some x /\ o !! x = Some c /\ bad_block c = true /\
    forall m y, (m <= n)%nat -> back o m p = Some y -> ~ in_chain o v y.

(** The stores [FindMostWorkChain] passes through: only states change, failures
    stay and are marked only on unusable blocks. *)
Definition marked (v : list (option Z)) (o0 o : store) : Prop :=
  (forall p, is_Some (o !! p) <-> is_Some (o0 !! p)) /\
  forall p b0 b, o0 !! p = Some b0 -> o !! p = Some b ->
    b = set_nStatus (nStatus b) b0 /\ (bad_block b0 = true -> bad_block b = true) /\
    (bad_block b = true -> bad_block b0 = true \/ unusable o0 v p).

Section Marked.
Context (v : list (option Z)) (o0 o : store) (Hm : marked v o0 o).

Lemma marked_entry p b : o !! p = Some b -> exists b0, o0 !! p = Some b0 /\ b = set_nStatus (nStatus b) b0 /\
  (bad_block b0 = true -> bad_block b = true) /\ (bad_block b = true -> bad_block b0 = true \/ unusable o0 v p).
Proof.
  intros Hp. destruct Hm as [Hdom Hall]. destruct (proj1 (Hdom p) (ex_intro _ b Hp)) as [b0 Hb0]. exists b0. split; [done|].
  by apply Hall.
Qed.

Lemma marked_entry0 p b0 : o0 !! p = Some b0 -> exists b, o !! p = Some b /\ b = set_nStatus (nStatus b) b0 /\
  (bad_block b0 = true -> bad_block b = true) /\ (bad_block b = true -> bad_block b0 = true \/ unusable o0 v p).
Proof.
  intros Hp. destruct Hm as [Hdom Hall]. destruct (proj2 (Hdom p) (ex_intro _ b0 Hp)) as [b Hb]. exists b. split; [done|].
  by apply Hall.
Qed.

Lemma marked_back n p : back o n p = back o0 n p.
Proof.
  revert p. induction n as [|n IH]; intros p; [done|]. cbn [back]. destruct (o !! p) as [b|] eqn:Hp.
  - destruct (marked_entry p b Hp) as (b0 & -> & -> & _). cbn [mbind option_bind pprev set_nStatus].
    destruct (pprev b0); [cbn; apply IH|done].
  - destruct (o0 !! p) as [b0|] eqn:Hp0; [|done]. destruct (marked_entry0 p b0 Hp0) as (b & ? & _). congruence.
Qed.

Lemma marked_in_chain p : in_chain o v p <-> in_chain o0 v p.
Proof.
  unfold in_chain, Contains. destruct (o !! p) as [b|] eqn:Hp.
  - by destruct (marked_entry p b Hp) as (b0 & -> & -> & _).
  - destruct (o0 !! p) as [b0|] eqn:Hp0; [|done]. destruct (marked_entry0 p b0 Hp0) as (b & ? & _). congruence.
Qed.

Lemma marked_comp p q : work_comp o p q = work_comp o0 p q.
Proof.
  unfold work_comp. destruct (o !! p) as [b|] eqn:Hp.
  - destruct (marked_entry p b Hp) as (b0 & -> & -> & _). destruct (o !! q) as [c|] eqn:Hq.
    + by destruct (marked_entry q c Hq) as (c0 & -> & -> & _).
    + destruct (o0 !! q) as [c0|] eqn:Hq0; [|done]. destruct (marked_entry0 q c0 Hq0) as (c & ? & _). congruence.
  - destruct (o0 !! p) as [b0|] eqn:Hp0; [|done]. destruct (marked_entry0 p b0 Hp0) as (b & ? & _). congruence.
Qed.

Lemma marked_unusable p : unusable o v p <-> unusable o0 v p.
Proof.
  split.
  - intros (n & x & c & Hx & Hc & Hbad & Hno). rewrite marked_back in Hx.
    assert (forall m y, (m <= n)%nat -> back o0 m p = Some y -> ~ in_chain o0 v y) as Hno0.
    { intros m y Hmn Hy. rewrite <- marked_in_chain. apply (Hno m); [done|]. by rewrite marked_back. }
    destruct (marked_entry x c Hc) as (c0 & Hc0 & _ & _ & Hb). destruct (Hb Hbad) as [Hb0|(k & z & d & Hz & Hd & Hdb & Hno2)].
    + exists n, x, c0. done.
    + exists (n + k)%nat, z, d. rewrite back_add, Hx. split_and!; try done. intros m y Hmk Hy.
      destruct (decide (m <= n)%nat); [by apply (Hno0 m)|]. replace m with (n + (m - n))%nat in Hy by lia.
      rewrite back_add, Hx in Hy. apply (Hno2 (m - n)%nat); [lia|done].
  - intros (n & x & c0 & Hx & Hc0 & Hbad & Hno). destruct (marked_entry0 x c0 Hc0) as (c & Hc & _ & Hb & _).
    exists n, x, c. rewrite marked_back. split_and!; [done|done|auto|]. intros m y Hmn Hy. rewrite marked_back in Hy.
    rewrite marked_in_chain. by apply (Hno m).
Qed.
End Marked.

Lemma marked_refl v o : marked v o o.
Proof. split; [done|]. intros p b0 b H1 H2. assert (b = b0) as -> by congruence. split_and!; [by destruct b0|done|by left]. Qed.

Lemma marked_mark v o0 o p b :
  marked v o0 o -> o !! p = Some b -> unusable o0 v p ->
  marked v o0 (<[p := set_nStatus (Z.lor (nStatus b) BLOCK_FAILED_CHILD) b]> o).
Proof.
  intros Hm Hp Hun. split.
  - intros x. destruct (decide (x = p)) as [->|]; [rewrite lookup_insert_eq|rewrite lookup_insert_ne by done; apply Hm].
    destruct (marked_entry v o0 o Hm p b Hp) as (b0 & -> & _). split; eauto.
  - intros x b0 b' Hx Hx'. destruct (decide (x = p)) as [->|].
    + rewrite lookup_insert_eq in Hx'. destruct (marked_entry v o0 o Hm p b Hp) as (b1 & Hb1 & Eb & _).
      assert (b1 = b0) as -> by congruence. apply (inj Some) in Hx' as <-. split_and!; [|intros _|by right].
      * rewrite Eb at 2. done.
      * unfold bad_block. cbn [nStatus set_nStatus]. apply orb_true_iff. left. apply negb_true_iff, Z.eqb_neq. intros E.
        apply (f_equal (fun z => Z.testbit z 6)) in E. rewrite Z.land_spec, Z.lor_spec in E.
        change (Z.testbit BLOCK_FAILED_CHILD 6) with true in E. change (Z.testbit BLOCK_FAILED_MASK 6) with true in E.
        by rewrite orb_true_r in E.
    + rewrite lookup_insert_ne in Hx' by done. by apply (proj2 Hm).
Qed.

(** The facts [FindMostWorkChain] relies on. *)
Record candidates_ok (s : tree) : Prop := {
  c_wf : wf_store (objs s);
  c_works : works_ok (objs s);
  c_linked : forall p b q, objs s !! p = Some b -> nChainTx b <> 0 -> pprev b = Some q -> exists c, objs s !! q = Some c /\ nChainTx c <> 0;
  c_candidate : forall x, x ∈ setBlockIndexCandidates s -> exists b, objs s !! x = Some b /\ nChainTx b <> 0;
  c_invalid : forall i, pindexBestInvalid s = Some i -> is_Some (objs s !! i)
}.

Lemma candidates_ok_marked v s s' :
  candidates_ok s -> marked v (objs s) (objs s') -> setBlockIndexCandidates s' ⊆ setBlockIndexCandidates s ->
  (forall i, pindexBestInvalid s' = Some i -> is_Some (objs s !! i)) -> candidates_ok s'.
Proof.
  intros [C1 C2 C3 C4 C5] Hm Hsub Hinv. constructor.
  - intros p b Hp. destruct (marked_entry v _ _ Hm p b Hp) as (b0 & Hb0 & -> & _).
    destruct (C1 p b0 Hb0) as (A1 & A2 & A3). split; [done|]. split.
    + cbn [pprev nHeight set_nStatus]. destruct (pprev b0) as [q|]; [|done]. destruct A2 as (c0 & Hc0 & Hh).
      destruct (marked_entry0 v _ _ Hm q c0 Hc0) as (c & Hc & Ec & _). exists c. split; [done|]. rewrite Ec. exact Hh.
    + intros x Hx. rewrite (marked_back v _ _ Hm). by apply A3.
  - intros p b Hp. destruct (marked_entry v _ _ Hm p b Hp) as (b0 & Hb0 & -> & _). by apply (C2 p b0).
  - intros p b q Hp Hc Hq. destruct (marked_entry v _ _ Hm p b Hp) as (b0 & Hb0 & Eb & _). rewrite Eb in Hc, Hq.
    destruct (C3 p b0 q Hb0 Hc Hq) as (c0 & Hc0 & Hcc). destruct (marked_entry0 v _ _ Hm q c0 Hc0) as (c & Hc' & Ec & _).
    exists c. split; [done|]. by rewrite Ec.
  - intros x Hx. destruct (C4 x (Hsub x Hx)) as (b0 & Hb0 & Hc). destruct (marked_entry0 v _ _ Hm x b0 Hb0) as (b & Hb & Eb & _).
    exists b. split; [done|]. by rewrite Eb.
  - intros i Hi. apply (proj1 Hm). by apply Hinv.
Qed.

Lemma unusable_block_spec s fuel p b :
  candidates_ok s -> objs s !! p = Some b -> nChainTx b <> 0 -> (Z.to_nat (nHeight b) < fuel)%nat ->
  match unusable_block fuel s (Some p) with
  | None => False
  | Some None => ~ unusable (objs s) (chainActive s) p
  | Some (Some x) => exists n c, back (objs s) n p = Some x /\ objs s !! x = Some c /\ bad_block c = true /\
      forall m y, (m <= n)%nat -> back (objs s) m p = Some y -> ~ in_chain (objs s) (chainActive s) y
  end.
Proof.
  intros Hok. revert p b. induction fuel as [|fuel IH]; intros p b Hp Hc Hf; [lia|]. cbn [unusable_block].
  rewrite Hp. cbn [mbind option_bind]. destruct (c_wf s Hok p b Hp) as (Hb0 & Hprev & _).
  destruct (Contains_total (objs s) (chainActive s) p b Hp) as [E|E]; rewrite E; cbn [mbind option_bind].
  { intros (n & x & c & _ & _ & _ & Hno). by apply (Hno 0%nat p ltac:(lia) eq_refl). }
  assert (~ in_chain (objs s) (chainActive s) p) as Hnot by (unfold in_chain; by rewrite E).
  rewrite (proj2 (Z.eqb_neq _ _) Hc). cbn [negb orb].
  change (negb (Z.land (nStatus b) BLOCK_FAILED_MASK =? 0) || (Z.land (nStatus b) BLOCK_HAVE_DATA =? 0)) with (bad_block b).
  destruct (bad_block b) eqn:Hbad.
  { exists 0%nat, b. split_and!; try done. intros m y Hm Hy. assert (m = 0%nat) as -> by lia. cbn in Hy. by simplify_eq. }
  assert (forall x n c, back (objs s) n p = Some x -> objs s !! x = Some c -> bad_block c = true ->
    exists q k, pprev b = Some q /\ n = S k /\ back (objs s) k q = Some x) as Hdown.
  { intros x [|k] c Hx Hcx Hcb; [cbn in Hx; congruence|]. rewrite (back_S_l _ _ _ _ Hp) in Hx.
    destruct (pprev b) as [q|]; [|done]. eauto. }
  assert (forall q n, pprev b = Some q -> (forall m y, (m <= n)%nat -> back (objs s) m q = Some y -> ~ in_chain (objs s) (chainActive s) y) ->
    forall m y, (m <= S n)%nat -> back (objs s) m p = Some y -> ~ in_chain (objs s) (chainActive s) y) as Hup.
  { intros q n Eq Hno [|m] y Hm Hy; [cbn in Hy; by simplify_eq|]. rewrite (back_S_l _ _ _ _ Hp), Eq in Hy. apply (Hno m); [lia|done]. }
  destruct (pprev b) as [q|] eqn:Eq.
  - destruct Hprev as (c & Hq & Hh). destruct (c_linked s Hok p b q Hp Hc Eq) as (c' & Hc' & Hcc).
    assert (c' = c) as -> by congruence. destruct (c_wf s Hok q c Hq) as [? _].
    specialize (IH q c Hq Hcc ltac:(lia)). destruct (unusable_block fuel s (Some q)) as [[x|]|]; [| |done].
    + destruct IH as (n & d & Hx & Hd & Hdb & Hno). exists (S n), d. rewrite (back_S_l _ _ _ _ Hp), Eq.
      split_and!; try done. by apply (Hup q).
    + intros (n & x & d & Hx & Hd & Hdb & Hno). apply IH. destruct (Hdown x n d Hx Hd Hdb) as (q' & k & E' & -> & Hk).
      assert (q' = q) as -> by congruence. exists k, x, d. split_and!; try done. intros m y Hm Hy. apply (Hno (S m)); [lia|].
      by rewrite (back_S_l _ _ _ _ Hp), Eq.
  - assert (unusable_block fuel s None = Some None) as -> by (by destruct fuel).
    intros (n & x & d & Hx & Hd & Hdb & _). destruct (Hdown x n d Hx Hd Hdb) as (q' & k & E' & _). done.
Qed.

Lemma remove_chain_ok v o0 f x n : forall p s fuel,
  marked v o0 (objs s) -> back o0 n p = Some x ->
  (forall m y, (m <= n)%nat -> back o0 m p = Some y -> unusable o0 v y) ->
  (forall m y, (m < n)%nat -> back o0 m p = Some y -> y <> x) -> (n < fuel)%nat ->
  exists s', remove_chain fuel f x p s = Some s' /\ marked v o0 (objs s') /\ chainActive s' = chainActive s /\
    pindexBestInvalid s' = pindexBestInvalid s /\ setBlockIndexCandidates s' ⊆ setBlockIndexCandidates s ∖ {[p]} /\
    forall y, y ∈ setBlockIndexCandidates s -> y ∉ setBlockIndexCandidates s' -> unusable o0 v y.
Proof.
  induction n as [|n IH]; intros p s fuel Hm Hx Hun Hne Hf; (destruct fuel as [|fuel]; [lia|]); cbn [remove_chain].
  - cbn in Hx. simplify_eq. rewrite Z.eqb_refl. eexists. split; [done|]. cbn. split_and!; try done.
    intros y Hy Hny. destruct (decide (y = x)) as [->|Hyx]; [by apply (Hun 0%nat)|].
    destruct Hny. apply elem_of_difference. by rewrite elem_of_singleton.
  - rewrite (proj2 (Z.eqb_neq _ _)) by (intros E; by apply (Hne 0%nat p ltac:(lia) eq_refl)).
    cbn [back] in Hx. destruct (o0 !! p) as [b0|] eqn:Hp0; [|done]. cbn [mbind option_bind] in Hx.
    destruct (pprev b0) as [q|] eqn:Eq; [|done]. cbn [mbind option_bind] in Hx.
    destruct (marked_entry0 v _ _ Hm p b0 Hp0) as (b & Hp & Eb & _). rewrite Hp. cbn [mbind option_bind].
    assert (pprev b = Some q) as -> by (by rewrite Eb). cbn [mbind option_bind].
    match goal with |- context [remove_chain fuel f x q ?st] => set (s1 := st) end.
    destruct (IH q s1 fuel) as (s' & -> & M' & E1 & E2 & Hsub & Hrem); [|done| | |lia|].
    + unfold s1. cbn [objs]. destruct f; [|done]. apply marked_mark; [done|done|]. by apply (Hun 0%nat); [lia|].
    + intros m y Hmn Hy. apply (Hun (S m)); [lia|]. cbn [back]. rewrite Hp0. cbn. by rewrite Eq.
    + intros m y Hmn Hy. apply (Hne (S m)); [lia|]. cbn [back]. rewrite Hp0. cbn. by rewrite Eq.
    + exists s'. split_and!; try done.
      * intros y Hy. by apply Hsub, elem_of_difference in Hy as [Hy _].
      * intros y Hy Hny. destruct (decide (y = p)) as [->|]; [by apply (Hun 0%nat); [lia|]|].
        apply Hrem; [|done]. apply elem_of_difference. by rewrite elem_of_singleton.
Qed.

Lemma note_invalid_ok s p n :
  objs s !! p = Some n -> (forall i, pindexBestInvalid s = Some i -> is_Some (objs s !! i)) ->
  exists s', note_invalid s p = Some s' /\ objs s' = objs s /\ chainActive s' = chainActive s /\
    setBlockIndexCandidates s' = setBlockIndexCandidates s /\ (forall i, pindexBestInvalid s' = Some i -> is_Some (objs s !! i)).
Proof.
  intros Hp Hinv. unfold note_invalid. rewrite Hp. cbn [mbind option_bind]. destruct (pindexBestInvalid s) as [i|] eqn:Ei.
  - destruct (Hinv i eq_refl) as [c Hc]. rewrite Hc. cbn [mbind option_bind].
    destruct (CompareTo _ _ >? 0); eexists; (split; [done|]); split_and!; try done; [by intros ? [= <-]; eauto|by rewrite Ei].
  - cbn [mbind option_bind]. eexists. split; [done|]. split_and!; try done. intros ? [= <-]. eauto.
Qed.

(** One rejected candidate. *)
Lemma reject_ok s0 s p b x c n :
  candidates_ok s0 -> candidates_ok s -> marked (chainActive s0) (objs s0) (objs s) -> chainActive s = chainActive s0 ->
  setBlockIndexCandidates s ⊆ setBlockIndexCandidates s0 ->
  objs s !! p = Some b -> p ∈ setBlockIndexCandidates s ->
  back (objs s) n p = Some x -> objs s !! x = Some c -> bad_block c = true ->
  (forall m y, (m <= n)%nat -> back (objs s) m p = Some y -> ~ in_chain (objs s) (chainActive s) y) ->
  let f := negb (Z.land (nStatus c) BLOCK_FAILED_MASK =? 0) in
  exists s', (s1 ← (if f then note_invalid s p else Some s); remove_chain (S (Z.to_nat (nHeight b))) f x p s1) = Some s' /\
    candidates_ok s' /\ marked (chainActive s0) (objs s0) (objs s') /\ chainActive s' = chainActive s0 /\
    setBlockIndexCandidates s' ⊆ setBlockIndexCandidates s ∖ {[p]} /\
    forall y, y ∈ setBlockIndexCandidates s -> y ∉ setBlockIndexCandidates s' -> unusable (objs s0) (chainActive s0) y.
Proof.
  intros Hok0 Hok Hm Hchain Hcand Hp Hin Hx Hc Hbad Hno f. rewrite Hchain in Hno.
  destruct (back_entry (objs s) (c_wf s Hok) n p b x Hp Hx) as (c' & Hc' & Hh).
  assert (c' = c) as -> by congruence. destruct (c_wf s Hok x c Hc) as [Hc0 _].
  assert (exists s1, (if f then note_invalid s p else Some s) = Some s1 /\ objs s1 = objs s /\ chainActive s1 = chainActive s /\
    setBlockIndexCandidates s1 = setBlockIndexCandidates s /\ (forall i, pindexBestInvalid s1 = Some i -> is_Some (objs s !! i)))
    as (s1 & -> & E1 & E2 & E3 & Hinv).
  { pose proof (c_invalid s Hok). destruct f; [by apply (note_invalid_ok s p b)|by exists s]. }
  cbn [mbind option_bind].
  destruct (remove_chain_ok (chainActive s0) (objs s0) f x n p s1 (S (Z.to_nat (nHeight b)))) as (s' & -> & M' & A1 & A2 & Hsub & Hrem).
  - by rewrite E1.
  - by rewrite <- (marked_back _ _ _ Hm).
  - intros m y Hmn Hy. rewrite <- (marked_back _ _ _ Hm) in Hy. apply (marked_unusable _ _ _ Hm).
    exists (n - m)%nat, x, c. split_and!; try done.
    + replace n with (m + (n - m))%nat in Hx by lia. by rewrite back_add, Hy in Hx.
    + intros k z Hk Hz. apply (Hno (m + k)%nat); [lia|]. by rewrite back_add, Hy.
  - intros m y Hmn Hy ->. rewrite <- (marked_back _ _ _ Hm) in Hy.
    destruct (back_entry (objs s) (c_wf s Hok) m p b x Hp Hy) as (d & Hd & Hdh). assert (d = c) as -> by congruence. lia.
  - lia.
  - exists s'. rewrite E3 in Hsub, Hrem. split_and!; [done| |done|by rewrite A1, E2|done|done].
    apply (candidates_ok_marked (chainActive s0) s0); [done|done| |].
    + intros y Hy. apply Hcand. by apply Hsub, elem_of_difference in Hy as [Hy _].
    + intros i Hi. apply (proj1 Hm). apply Hinv. by rewrite <- A2.
Qed.

Lemma most_work_loop_ok s0 fuel : forall s,
  candidates_ok s0 -> candidates_ok s -> marked (chainActive s0) (objs s0) (objs s) -> chainActive s = chainActive s0 ->
  setBlockIndexCandidates s ⊆ setBlockIndexCandidates s0 ->
  (forall y, y ∈ setBlockIndexCandidates s0 -> y ∉ setBlockIndexCandidates s -> unusable (objs s0) (chainActive s0) y) ->
  (size (setBlockIndexCandidates s) < fuel)%nat ->
  exists s' r, most_work_loop fuel s = Some (s', r) /\ marked (chainActive s0) (objs s0) (objs s') /\
    setBlockIndexCandidates s' ⊆ setBlockIndexCandidates s0 /\
    (forall y, y ∈ setBlockIndexCandidates s0 -> y ∉ setBlockIndexCandidates s' -> unusable (objs s0) (chainActive s0) y) /\
    match r with
    | None => forall q, q ∈ setBlockIndexCandidates s0 -> unusable (objs s0) (chainActive s0) q
    | Some p => p ∈ setBlockIndexCandidates s0 /\ ~ unusable (objs s0) (chainActive s0) p /\
        forall q, q ∈ setBlockIndexCandidates s0 -> ~ unusable (objs s0) (chainActive s0) q -> work_comp (objs s0) p q = false
    end.
Proof.
  induction fuel as [|fuel IH]; intros s Hok0 Hok Hm Hchain Hsub Hrem Hf; [lia|]. cbn [most_work_loop].
  pose proof (best_candidate_max (objs s) (c_works s Hok) (setBlockIndexCandidates s)) as Hbest.
  destruct (best_candidate _ _) as [p|].
  2: { exists s, None. split_and!; try done. intros q Hq. apply Hrem; [done|]. rewrite Hbest; [by apply not_elem_of_empty|].
       intros x Hx. destruct (c_candidate s Hok x Hx) as (c & Hc & _). eauto. }
  destruct Hbest as [Hin Hmax]; [intros x Hx; destruct (c_candidate s Hok x Hx) as (c & Hc & _); eauto|].
  destruct (c_candidate s Hok p Hin) as (b & Hp & Hc). rewrite Hp. cbn [mbind option_bind].
  pose proof (unusable_block_spec s (S (Z.to_nat (nHeight b))) p b Hok Hp Hc ltac:(lia)) as Hspec.
  destruct (unusable_block _ s (Some p)) as [[x|]|]; [| |done]; cbn [mbind option_bind].
  - destruct Hspec as (n & c & Hx & Hcx & Hbad & Hno). rewrite Hcx. cbn [mbind option_bind].
    destruct (reject_ok s0 s p b x c n) as (s' & E & Hok' & Hm' & Hchain' & Hsub' & Hrem'); try done.
    destruct (if negb _ then note_invalid s p else Some s) as [s1|]; [|done]. cbn [mbind option_bind] in E |- *.
    rewrite E. cbn [mbind option_bind]. apply IH; try done.
    + intros y Hy. apply Hsub. by apply Hsub', elem_of_difference in Hy as [Hy _].
    + intros y Hy Hny. destruct (decide (y ∈ setBlockIndexCandidates s)); [by apply Hrem'|by apply Hrem].
    + apply subseteq_size in Hsub'. rewrite size_difference in Hsub' by (intros y ->%elem_of_singleton; done).
      rewrite size_singleton in Hsub'. assert (size (setBlockIndexCandidates s) <> 0%nat); [|lia].
      intros E0%size_empty_inv. rewrite E0 in Hin. by apply not_elem_of_empty in Hin.
  - rewrite Hchain, (marked_unusable _ _ _ Hm) in Hspec. exists s, (Some p). split_and!; try done; [by apply Hsub|].
    intros q Hq Hqu. rewrite <- (marked_comp _ _ _ Hm). apply Hmax.
    destruct (decide (q ∈ setBlockIndexCandidates s)); [done|]. destruct Hqu. by apply Hrem.
Qed.

(** C15: [FindMostWorkChain] always returns, the best of the candidates that can be
    connected: no failed block and no block without data lies between it and
    the active chain, and no other such candidate has more work, the same
    work and an earlier arrival, or both equal and a lower address; without
    such a candidate it returns [NULL].  Only candidates that cannot be
    connected leave the set, and only such blocks are marked as failed. *)
Theorem FindMostWorkChain_correct (s : tree) :
  candidates_ok s ->
  exists s' r, FindMostWorkChain s = Some (s', r) /\ marked (chainActive s) (objs s) (objs s') /\
    setBlockIndexCandidates s' ⊆ setBlockIndexCandidates s /\
    (forall y, y ∈ setBlockIndexCandidates s -> y ∉ setBlockIndexCandidates s' -> unusable (objs s) (chainActive s) y) /\
    match r with
    | None => forall q, q ∈ setBlockIndexCandidates s -> unusable (objs s) (chainActive s) q
    | Some p => p ∈ setBlockIndexCandidates s /\ ~ unusable (objs s) (chainActive s) p /\
        forall q, q ∈ setBlockIndexCandidates s -> ~ unusable (objs s) (chainActive s) q -> work_comp (objs s) p q = false
    end.
Proof.
  intros Hok. apply most_work_loop_ok; try done; [apply marked_refl|lia].
Qed.

(** ** An example *)

Lemma candidates_ok_reachable M s :
  core_ok s -> link_ok M s [] -> pindexBestInvalid s = None -> candidates_ok s.
Proof.
  intros Hcore Hl Hinv. constructor; [apply Hcore|apply Hcore| |apply Hl|by rewrite Hinv].
  intros p b q Hp Hc Hq. destruct (ok_linked M s [] Hl p b Hp Hc) as [_ H]. by rewrite Hq in H.
Qed.

Definition demo_header (prev time : Z) : CBlockHeader := mkHeader 4 prev 11 22 time 0x207fffff 0 [].
Definition demo_tx : CMutableTransaction := mkCMutableTransaction false 1 0 [] [] 0 0 0 [] [] [] 0 [] [].
Definition demo_add (p hash : Z) (h : CBlockHeader) (s : tree) : tree :=
  match AddToBlockIndex p hash h s with Some (s, _) => s | None => empty_tree end.
Definition demo_receive (p : Z) (s : tree) : tree :=
  match ReceivedBlockTransactions [demo_tx] p (0, 8) s with Some s => s | None => empty_tree end.

(** A genesis block at 1, two children at 2 and 3; the transactions of 2 come first. *)
Definition demo1 : tree := demo_add 1 100 (demo_header 0 1) empty_tree.
Definition demo2 : tree := demo_add 2 101 (demo_header 100 2) demo1.
Definition demo3 : tree := demo_add 3 102 (demo_header 100 3) demo2.
Definition demo4 : tree := demo_receive 2 demo3.
Definition demo5 : tree := demo_receive 1 demo4.

Lemma demo_height s h : (forall p c, objs s !! p = Some c -> nHeight c <= 1) ->
  forall q c, mapBlockIndex s !! hashPrevBlock h = Some (Some q) -> objs s !! q = Some c -> 10 * (nHeight c + 2) < 2 ^ 32.
Proof. intros H q c _ Hc. specialize (H q c Hc). lia. Qed.

Lemma demo_heights s : forallb (fun e => nHeight e.2 <=? 1) (map_to_list (objs s)) = true ->
  forall p c, objs s !! p = Some c -> nHeight c <= 1.
Proof.
  intros H p c Hc. rewrite forallb_forall in H. apply Z.leb_le. apply (H (p, c)). by apply list_elem_of_In, elem_of_map_to_list.
Qed.

Lemma demo_reachable : rtc (tree_step 10) empty_tree demo5.
Proof.
  apply rtc_l with demo1; [apply (step_header 10 1 100 (demo_header 0 1) _ _ (Some 1))|].
  1: vm_compute; reflexivity. 1: done. 1: by intros q c. 1: vm_compute; reflexivity.
  apply rtc_l with demo2; [apply (step_header 10 2 101 (demo_header 100 2) _ _ (Some 2))|].
  1: vm_compute; reflexivity. 1: done. 1: by apply demo_height, demo_heights; vm_compute. 1: vm_compute; reflexivity.
  apply rtc_l with demo3; [apply (step_header 10 3 102 (demo_header 100 3) _ _ (Some 3))|].
  1: vm_compute; reflexivity. 1: done. 1: by apply demo_height, demo_heights; vm_compute. 1: vm_compute; reflexivity.
  apply rtc_l with demo4; [|apply rtc_once].
  - destruct (objs demo3 !! 2) as [b|] eqn:E; [|by vm_compute in E].
    apply (step_receive 10 [demo_tx] 2 (0, 8) b); [done| |done|done|vm_compute; reflexivity].
    vm_compute in E. by simplify_eq.
  - destruct (objs demo4 !! 1) as [b|] eqn:E; [|by vm_compute in E].
    apply (step_receive 10 [demo_tx] 1 (0, 8) b); [done| |done|done|vm_compute; reflexivity].
    vm_compute in E. by simplify_eq.
Qed.

Lemma demo_ok : core_ok demo5 /\ link_ok 10 demo5 [].
Proof. apply tree_reachable_ok; [lia|apply demo_reachable]. Qed.

Lemma block_tree_invariant_witness : core_ok demo5 /\ link_ok 10 demo5 [].
Proof. destruct (block_tree_invariant 10 demo5 ltac:(lia) demo_reachable) as (H1 & H2 & _). exact (conj H1 H2). Defined.

Lemma block_tree_progress_witness : exists s' r, AddToBlockIndex 4 103 (demo_header 102 4) demo5 = Some (s', r).
Proof.
  apply (proj1 (block_tree_progress 10 demo5 ltac:(lia) demo_reachable)); [vm_compute; reflexivity|done|].
  apply demo_height, demo_heights. vm_compute. reflexivity.
Defined.

Lemma FindMostWorkChain_correct_witness : exists s' r, FindMostWorkChain demo5 = Some (s', r).
Proof.
  destruct (FindMostWorkChain_correct demo5) as (s' & r & E & _); [|exact (ex_intro _ s' (ex_intro _ r E))].
  apply (candidates_ok_reachable 10); [apply demo_ok|apply demo_ok|vm_compute; reflexivity].
Defined.

Lemma demo_wf : wf_store (objs demo5).
Proof. apply ok_wf, demo_ok. Qed.

Lemma demo_entry p : 1 <= p <= 3 -> exists b, objs demo5 !! p = Some b /\ nHeight b = if p =? 1 then 0 else 1.
Proof.
  intros Hp. assert (p = 1 \/ p = 2 \/ p = 3) as [-> | [-> | ->]] by lia; eexists; (split; [vm_compute; reflexivity|reflexivity]).
Qed.

Lemma GetAncestor_terminates_witness : GetAncestor (objs demo5) 2 7 = Some None.
Proof.
  destruct (demo_entry 2 ltac:(lia)) as (b & Hb & Hh).
  apply (proj2 (GetAncestor_terminates (objs demo5) 2 b 7 demo_wf Hb)). rewrite Hh. cbn. lia.
Defined.

Lemma SetTip_correct_witness : exists v, SetTip (objs demo5) (Some 3) [] = Some v /\ Tip v = Some 3.
Proof.
  destruct (demo_entry 3 ltac:(lia)) as (b & Hb & _).
  destruct (SetTip_correct (objs demo5) [] 3 b demo_wf (or_introl eq_refl) Hb) as (v & H1 & _ & H2 & _).
  exists v. exact (conj H1 H2).
Defined.

Lemma demo_chain : exists b, objs demo5 !! 3 = Some b /\ chain_ok (objs demo5) [Some 1; Some 3].
Proof.
  destruct (demo_entry 3 ltac:(lia)) as (b & Hb & Hh). exists b. split; [done|]. right. exists 3, b. split; [done|].
  rewrite Hh. vm_compute. reflexivity.
Qed.

Lemma FindFork_is_LastCommonAncestor_witness :
  exists r, FindFork (objs demo5) [Some 1; Some 3] (Some 2) = Some r /\ LastCommonAncestor (objs demo5) 2 3 = Some r.
Proof.
  destruct demo_chain as (b & Hb & Hv), (demo_entry 2 ltac:(lia)) as (a & Ha & _).
  destruct (FindFork_is_LastCommonAncestor (objs demo5) [Some 1; Some 3] 3 2 b a demo_wf Hv eq_refl Hb Ha) as (r & H1 & H2 & _).
  exists r. exact (conj H1 H2).
Defined.

Lemma locator_finds_fork_witness :
  exists vHave f, GetLocator (objs demo5) [] (Some 2) = Some vHave /\
    FindForkInGlobalIndex (objs demo5) (mapBlockIndex demo5) [Some 1; Some 3] vHave = Some (Some f).
Proof.
  destruct demo_chain as (b & Hb & Hv), (demo_entry 2 ltac:(lia)) as (a & Ha & Hh).
  destruct (locator_finds_fork (objs demo5) (mapBlockIndex demo5) [] [Some 1; Some 3] 3 2 b a demo_wf) as (w & f & H1 & _ & H2 & _).
  - intros x c Hx. by apply (ok_index demo5 (proj1 demo_ok)).
  - left. reflexivity.
  - exact Hv.
  - reflexivity.
  - exact Hb.
  - exact Ha.
  - rewrite Hh. reflexivity.
  - exists 1. split; exists 1%nat; vm_compute; reflexivity.
  - exists w, f. exact (conj H1 H2).
Defined.
