(* ===== verification/Standard.v ===== *)
(** * Standard output scripts (src/src/script/standard.cpp, standard.h)

    The templates of standard outputs: [Solver], [IsStandard],
    [ExtractDestination(s)], the scripts for a destination and for a multisig
    redeemer, and the parameter block of crypto-condition outputs.  The hash of
    a key or a script and the decoding of a crypto-condition are parameters. *)
From S2P Require Import Prelude Serialize Transaction Compressor Script.
#[local] Open Scope Z_scope.

Inductive txnouttype :=
| TX_NONSTANDARD
| TX_PUBKEY
| TX_PUBKEYHASH
| TX_SCRIPTHASH
| TX_MULTISIG
| TX_CRYPTOCONDITION
| TX_NULL_DATA.

#[export] Instance txnouttype_eq_dec : EqDecision txnouttype.
Proof. solve_decision. Defined.

(** [boost::variant<CNoDestination, CPubKey, CKeyID, CScriptID>] *)
Inductive CTxDestination :=
| CNoDestination
| DestPubKey (key : bytes)
| CKeyID (id : bytes)
| CScriptID (id : bytes).

Definition PUBLIC_KEY_SIZE : Z := 65.
Definition COMPRESSED_PUBLIC_KEY_SIZE : Z := 33.

Definition ValidSize (vch : bytes) : bool :=
  match vch with [] => false | h :: _ => GetLen h =? zlen vch end.

(** ** Parameters of a crypto-condition output *)

(** [version] is [None] where the constructor leaves it uninitialised. *)
Record COptCCParams := mkCCParams {
  cc_version : option Z; cc_evalCode : Z; cc_m : Z; cc_n : Z; vKeys : list bytes; vData : list bytes
}.

Definition CC_VERSION : Z := 1.

(** The loop over the pushes: the values so far and whether all were pushes. *)
Fixpoint cc_params_loop (fuel : nat) (data : list bytes) (pc : bytes) : bool * list bytes :=
  match fuel, pc with
  | S fuel, _ :: _ =>
    let r := GetOp2 pc in
    if op_ok r then
      match pushed_value (op_code r) (op_data r) with
      | Some param => cc_params_loop fuel (data ++ [param]) (op_rest r)
      | None => (false, data)
      end
    else cc_params_loop fuel data (op_rest r)
  | _, _ => (true, data)
  end.

(** The loop over the keys: those pushed and whether the last was valid. *)
Fixpoint load_keys (keys : list bytes) (data : list bytes) : list bytes * bool :=
  match data with
  | [] => (keys, true)
  | d :: data =>
    let k := CPubKey_Set d in
    if CPubKey_IsValid k then load_keys (keys ++ [k]) data else (keys ++ [k], false)
  end.

Definition COptCCParams_parse (vch : bytes) : COptCCParams :=
  let unset := mkCCParams None 0 0 0 [] [] in
  if zlen vch >? 1 then
    match cc_params_loop (length vch) [] vch with
    | (true, param :: data) =>
      match param with
      | [version; evalCode; m; n] =>
        if negb (version =? CC_VERSION) || negb (m =? 1) || negb ((n =? 1) || (n =? 2))
           || (zlen (param :: data) <=? n)
        then mkCCParams (Some 0) evalCode m n [] []
        else
          let '(keys, ok) := load_keys [] (take (Z.to_nat n) data) in
          if ok then mkCCParams (Some version) evalCode m n keys (drop (Z.to_nat n) data)
          else mkCCParams (Some 0) evalCode m n keys []
      | _ => mkCCParams (Some 0) 0 0 0 [] []
      end
    | _ => unset
    end
  else unset.

Definition COptCCParams_AsVector (p : COptCCParams) : bytes :=
  let head := [default 0 (cc_version p); cc_evalCode p; cc_n p; cc_m p] in
  fold_left (fun s d => push_data d s) (head :: vKeys p ++ vData p) [].

(** ** Matching *)

Definition slice (script : bytes) (from to : nat) : bytes := take (to - from) (drop from script).

Definition MatchPayToPubkey (script : bytes) : option bytes :=
  if (zlen script =? PUBLIC_KEY_SIZE + 2) && (at_ script 0 =? PUBLIC_KEY_SIZE) && (back script =? OP_CHECKSIG)
  then let pubkey := slice script 1 66 in if ValidSize pubkey then Some pubkey else None
  else if (zlen script =? COMPRESSED_PUBLIC_KEY_SIZE + 2) && (at_ script 0 =? COMPRESSED_PUBLIC_KEY_SIZE)
          && (back script =? OP_CHECKSIG)
  then let pubkey := slice script 1 34 in if ValidSize pubkey then Some pubkey else None
  else None.

Definition MatchPayToPubkeyHash (script : bytes) : option bytes :=
  if (zlen script =? 25) && (at_ script 0 =? OP_DUP) && (at_ script 1 =? OP_HASH160) && (at_ script 2 =? 20)
     && (at_ script 23 =? OP_EQUALVERIFY) && (at_ script 24 =? OP_CHECKSIG)
  then Some (slice script 3 23) else None.

Definition IsSmallInteger (opcode : Z) : bool := (opcode >=? OP_1) && (opcode <=? OP_16).

(** [while (script.GetOp(it, opcode, data) && CPubKey::ValidSize(data))]: the
    keys, and the instruction that ended the loop. *)
Fixpoint multisig_keys (fuel : nat) (pubkeys : list bytes) (pc : bytes) : list bytes * op_read :=
  let r := GetOp2 pc in
  match fuel with
  | O => (pubkeys, r)
  | S fuel =>
    if op_ok r && ValidSize (op_data r) then multisig_keys fuel (pubkeys ++ [op_data r]) (op_rest r)
    else (pubkeys, r)
  end.

(** [required] and [pubkeys]; the assertions of [DecodeOP_N] cannot fail, the
    opcodes were tested before. *)
Definition MatchMultisig (script : bytes) : option (Z * list bytes) :=
  if (zlen script <? 1) || negb (back script =? OP_CHECKMULTISIG) then None
  else
    let r := GetOp2 script in
    if negb (op_ok r) || negb (IsSmallInteger (op_code r)) then None
    else
      required ← DecodeOP_N (op_code r);
      let '(pubkeys, r) := multisig_keys (length script) [] (op_rest r) in
      if negb (IsSmallInteger (op_code r)) then None
      else
        keys ← DecodeOP_N (op_code r);
        if negb (zlen pubkeys =? keys) || (keys <? required) then None
        else if zlen (op_rest r) =? 1 then Some (required, pubkeys) else None.

(** [Solver]: the verdict, the type where one was written, and [vSolutionsRet]. *)
Record solved := mkSolved { solver_ok : bool; typeRet : option txnouttype; vSolutionsRet : list bytes }.

Section Standard.
Variable Hash160 : bytes -> bytes.
(** [IsCryptoConditionsEnabled()], [squishy_is_vSolutionsFixActive()], and
    whether the condition of a crypto-condition script is a supported one. *)
Variables (IsCryptoConditionsEnabled vSolutionsFixActive : bool) (supported_condition : bytes -> bool).

Definition MayAcceptCryptoCondition (script : bytes) : bool :=
  let r := GetOp2 script in
  if negb (op_ok r) then false
  else if negb ((op_code r >? OP_0) && (op_code r <? OP_PUSHDATA1)) then false
  else supported_condition (op_data r).

Definition solve_templates (scriptPubKey : bytes) : solved :=
  match MatchPayToPubkey scriptPubKey with
  | Some data => mkSolved true (Some TX_PUBKEY) [data]
  | None =>
    match MatchPayToPubkeyHash scriptPubKey with
    | Some data => mkSolved true (Some TX_PUBKEYHASH) [data]
    | None =>
      match MatchMultisig scriptPubKey with
      | Some (required, keys) => mkSolved true (Some TX_MULTISIG) ([u8 required] :: keys ++ [[u8 (zlen keys)]])
      | None => mkSolved false (Some TX_NONSTANDARD) []
      end
    end
  end.

(** The keys of the parameter block that are added before the hardfork. *)
Definition cc_solution_keys (vParams : list bytes) : list bytes :=
  match vParams with
  | [] => []
  | p :: _ =>
    let cp := COptCCParams_parse p in
    (* an uninitialised version comes with no keys *)
    match cc_version cp with Some v => if v =? 0 then [] else vKeys cp | None => [] end
  end.

Definition Solver (scriptPubKey : bytes) : solved :=
  if IsPayToScriptHash scriptPubKey then mkSolved true (Some TX_SCRIPTHASH) [slice scriptPubKey 2 22]
  else if (zlen scriptPubKey >=? 1) && (at_ scriptPubKey 0 =? OP_RETURN) && IsPushOnly (drop 1 scriptPubKey)
  then mkSolved true (Some TX_NULL_DATA) []
  else if IsCryptoConditionsEnabled then
    match IsPayToCryptoCondition_params scriptPubKey with
    | Some (ccSubScript, vParams) =>
      if MayAcceptCryptoCondition scriptPubKey
      then mkSolved true (Some TX_CRYPTOCONDITION)
             (Hash160 ccSubScript :: if vSolutionsFixActive then [] else cc_solution_keys vParams)
      else mkSolved false None []
    | None => solve_templates scriptPubKey
    end
  else solve_templates scriptPubKey.

Definition ScriptSigArgsExpected (t : txnouttype) (vSolutions : list bytes) : Z :=
  match t with
  | TX_NONSTANDARD | TX_NULL_DATA => -1
  | TX_PUBKEY => 1
  | TX_PUBKEYHASH => 2
  | TX_MULTISIG => match vSolutions with (m :: _) :: _ => m + 1 | _ => -1 end
  | TX_SCRIPTHASH => 1
  | TX_CRYPTOCONDITION => 1
  end.

(** [s[0]] *)
Definition byte0 (s : option bytes) : option Z := match s with Some (b :: _) => Some b | _ => None end.

(** [None]: a solution is read that does not exist. *)
Definition IsStandard (scriptPubKey : bytes) : option bool :=
  let r := Solver scriptPubKey in
  if negb (solver_ok r) then Some false
  else
    t ← typeRet r;
    if bool_decide (t = TX_MULTISIG) then
      m ← byte0 (head (vSolutionsRet r));
      n ← byte0 (list.last (vSolutionsRet r));
      if (n <? 1) || (n >? 9) then Some false
      else if (m <? 1) || (m >? n) then Some false else Some true
    else Some (negb (bool_decide (t = TX_NONSTANDARD))).

(** The script after a leading time lock. *)
Definition after_cltv (scriptPubKey : bytes) : bytes :=
  let scriptStart := at_ scriptPubKey 0 + 3 in
  if zlen scriptPubKey >? scriptStart then drop (Z.to_nat scriptStart) scriptPubKey else [].

(** The verdict and [addressRet]; [None]: [IsCheckLockTimeVerify] reads past
    the end of the script. *)
Definition ExtractDestination (_scriptPubKey : bytes) (addressRet : CTxDestination) (returnPubKey : bool)
    : option (bool * CTxDestination) :=
  scriptPubKey ← match IsCheckLockTimeVerify _scriptPubKey with
                 | None => Some _scriptPubKey
                 | Some (Some _) => Some (after_cltv _scriptPubKey)
                 | Some None => None
                 end;
  let r := Solver scriptPubKey in
  if negb (solver_ok r) then Some (false, addressRet)
  else
    t ← typeRet r;
    match t with
    | TX_PUBKEY =>
      s ← head (vSolutionsRet r);
      let pubKey := CPubKey_Set s in
      if negb (CPubKey_IsValid pubKey) then Some (false, addressRet)
      else if returnPubKey then Some (true, DestPubKey pubKey) else Some (true, CKeyID (Hash160 pubKey))
    | TX_PUBKEYHASH => s ← head (vSolutionsRet r); Some (true, CKeyID s)
    | TX_SCRIPTHASH => s ← head (vSolutionsRet r); Some (true, CScriptID s)
    | TX_CRYPTOCONDITION =>
      if IsCryptoConditionsEnabled then
        match vSolutionsRet r with
        | _ :: s :: _ =>
          if negb vSolutionsFixActive
          then let pk := CPubKey_Set s in Some (CPubKey_IsValid pk, DestPubKey pk)
          else s ← head (vSolutionsRet r); Some (true, CKeyID s)
        | _ => s ← head (vSolutionsRet r); Some (true, CKeyID s)
        end
      else Some (false, addressRet)
    | _ => Some (false, addressRet)
    end.

Record destinations := mkDestinations { d_ok : bool; d_type : txnouttype; d_addresses : list CTxDestination; d_required : Z }.

(** [vSolutions[1 .. size-2]] of a multisig script. *)
Definition multisig_addresses (vSolutions : list bytes) : list CTxDestination :=
  omap (fun s => let pubKey := CPubKey_Set s in
                 if CPubKey_IsValid pubKey then Some (CKeyID (Hash160 pubKey)) else None)
    (take (length vSolutions - 2) (drop 1 vSolutions)).

(** One time lock is stripped per round. *)
Fixpoint extract_destinations (fuel : nat) (scriptPubKey : bytes) (nRequiredRet : Z) : option destinations :=
  match IsCheckLockTimeVerify scriptPubKey with
  | Some None => None
  | Some (Some _) =>
    match fuel with O => None | S fuel => extract_destinations fuel (after_cltv scriptPubKey) nRequiredRet end
  | None =>
    let r := Solver scriptPubKey in
    let t := default TX_NONSTANDARD (typeRet r) in
    if negb (solver_ok r) then Some (mkDestinations false t [] nRequiredRet)
    else if bool_decide (t = TX_NULL_DATA) then Some (mkDestinations false t [] nRequiredRet)
    else if bool_decide (t = TX_MULTISIG) then
      required ← byte0 (head (vSolutionsRet r));
      let addresses := multisig_addresses (vSolutionsRet r) in
      Some (mkDestinations (negb (length addresses =? 0)%nat) t addresses required)
    else
      match ExtractDestination scriptPubKey CNoDestination false with
      | None => None
      | Some (true, address) => Some (mkDestinations true t [address] 1)
      | Some (false, _) => Some (mkDestinations false t [] 1)
      end
  end.

Definition ExtractDestinations (scriptPubKey : bytes) (nRequiredRet : Z) : option destinations :=
  extract_destinations (length scriptPubKey) scriptPubKey nRequiredRet.

End Standard.

(** ** Scripts for destinations *)

Definition GetScriptForDestination (dest : CTxDestination) : bytes :=
  match dest with
  | CNoDestination => []
  | DestPubKey key => push_opcode OP_CHECKSIG (push_data key [])
  | CKeyID keyID => AddPayToPubKeyHash keyID []
  | CScriptID scriptID => PayToScriptHash scriptID
  end.

(** [None] is the assertion of [EncodeOP_N]. *)
Definition GetScriptForMultisig (nRequired : Z) (keys : list bytes) : option bytes :=
  match EncodeOP_N nRequired, EncodeOP_N (zlen keys) with
  | Some m, Some n =>
    Some (push_opcode OP_CHECKMULTISIG
            (push_opcode n (fold_left (fun script key => push_data key script) keys (push_opcode m []))))
  | _, _ => None
  end.

Definition IsValidDestination (dest : CTxDestination) : bool :=
  match dest with CNoDestination => false | _ => true end.

(** ** Facts: the solutions of each type *)

(** What [vSolutionsRet] holds for each type of output. *)
Definition solutions_ok (t : txnouttype) (l : list bytes) : Prop :=
  match t with
  | TX_NONSTANDARD => False
  | TX_PUBKEY => exists k, l = [k] /\ ValidSize k = true
  | TX_PUBKEYHASH | TX_SCRIPTHASH => exists h, l = [h] /\ zlen h = 20
  | TX_MULTISIG => exists m n keys, l = [m] :: keys ++ [[n]] /\ 1 <= m <= n /\ n <= 16 /\
      zlen keys = n /\ Forall (fun k => ValidSize k = true) keys
  | TX_CRYPTOCONDITION => exists h keys, l = h :: keys /\ zlen h = 20 /\ Forall (fun k => CPubKey_IsValid k = true) keys
  | TX_NULL_DATA => l = []
  end.

(** A destination whose payload has the size of its type. *)
Definition dest_ok (d : CTxDestination) : Prop :=
  match d with
  | CNoDestination => True
  | DestPubKey key => ValidSize key = true
  | CKeyID h | CScriptID h => zlen h = 20
  end.

Lemma slice_length s a b : (a <= b)%nat -> Z.of_nat b <= zlen s -> zlen (slice s a b) = Z.of_nat (b - a).
Proof. unfold slice, zlen. intros. rewrite length_take, length_drop. lia. Qed.

Lemma ValidSize_Set k : ValidSize k = true -> CPubKey_Set k = k.
Proof. destruct k as [|h k]; [done|]. unfold ValidSize, CPubKey_Set, zlen. by intros ->. Qed.

Lemma CPubKey_Set_valid k : CPubKey_IsValid (CPubKey_Set k) = true -> ValidSize (CPubKey_Set k) = true.
Proof.
  destruct k as [|h k]; [done|]. unfold CPubKey_Set. destruct (GetLen h =? Z.of_nat (length (h :: k))) eqn:E; [|done].
  intros _. unfold ValidSize. done.
Qed.

Lemma DecodeOP_N_small c : IsSmallInteger c = true -> DecodeOP_N c = Some (c - 80) /\ 1 <= c - 80 <= 16.
Proof.
  unfold IsSmallInteger, DecodeOP_N, OP_1, OP_16, OP_0. intros H. bool_to_prop.
  rewrite Z.geb_leb in *. bool_to_prop. rewrite (proj2 (Z.eqb_neq c 0)) by lia.
  rewrite (proj2 (Z.leb_le 81 c)), (proj2 (Z.leb_le c 96)) by lia. split; [done|lia].
Qed.

Lemma multisig_keys_valid fuel pks pc r :
  multisig_keys fuel pks pc = r -> Forall (fun k => ValidSize k = true) pks ->
  Forall (fun k => ValidSize k = true) r.1.
Proof.
  intros <-. revert pks pc. induction fuel as [|fuel IH]; intros pks pc H; [done|]. cbn.
  destruct (op_ok (GetOp2 pc) && ValidSize (op_data (GetOp2 pc))) eqn:E; [|done].
  bool_to_prop. apply IH. apply Forall_app. split; [done|]. by constructor.
Qed.

Lemma MatchMultisig_ok s m keys : MatchMultisig s = Some (m, keys) ->
  1 <= m <= zlen keys /\ zlen keys <= 16 /\ Forall (fun k => ValidSize k = true) keys.
Proof.
  unfold MatchMultisig. destruct (_ || _); [done|].
  destruct (negb _ || _) eqn:E1; [done|]. bool_to_prop.
  destruct (DecodeOP_N_small _ ltac:(eassumption)) as [-> Hm]. cbn [mbind option_bind].
  destruct (multisig_keys _ _ _) as [pks r] eqn:E. destruct (negb (IsSmallInteger (op_code r))) eqn:E2; [done|]. bool_to_prop.
  destruct (DecodeOP_N_small _ ltac:(eassumption)) as [-> Hn]. cbn [mbind option_bind].
  destruct (_ || _) eqn:E3; [done|]. bool_to_prop. destruct (_ =? 1); [|done]. intros [= <- <-].
  pose proof (multisig_keys_valid _ _ _ _ E (Forall_nil_2 _)) as Hk. cbn [fst] in Hk. split_and!; (lia || done).
Qed.

Lemma load_keys_valid keys data :
  (load_keys keys data).2 = true -> Forall (fun k => CPubKey_IsValid k = true) keys ->
  Forall (fun k => CPubKey_IsValid k = true) (load_keys keys data).1.
Proof.
  revert keys. induction data as [|d data IH]; intros keys; cbn; [done|].
  destruct (CPubKey_IsValid (CPubKey_Set d)) eqn:E; [|done]. intros H Hk. apply IH; [done|].
  apply Forall_app. split; [done|]. by constructor.
Qed.

Lemma cc_solution_keys_valid vParams : Forall (fun k => CPubKey_IsValid k = true) (cc_solution_keys vParams).
Proof.
  destruct vParams as [|p ps]; [constructor|]. unfold cc_solution_keys, COptCCParams_parse.
  destruct (zlen p >? 1); [|constructor].
  destruct (cc_params_loop _ _ _) as [[] [|param data]]; try by constructor.
  destruct param as [|v [|e [|m [|n [|]]]]]; try by constructor.
  destruct (_ || _); [constructor|].
  destruct (load_keys [] _) as [keys ok] eqn:E. destruct ok; [|constructor]. cbn.
  destruct (v =? 0); [constructor|].
  pose proof (load_keys_valid [] (take (Z.to_nat n) data)) as H. rewrite E in H. by apply H.
Qed.

Section Typed.
Context (Hash160 : bytes -> bytes) (HHash : forall s, zlen (Hash160 s) = 20).
Variables (ccEnabled fix_active : bool) (supported : bytes -> bool).

Lemma solve_templates_typed s r : solve_templates s = r ->
  (solver_ok r = true /\ exists t, typeRet r = Some t /\ solutions_ok t (vSolutionsRet r)) \/
  (solver_ok r = false /\ typeRet r = Some TX_NONSTANDARD /\ vSolutionsRet r = []).
Proof.
  intros <-. unfold solve_templates.
  destruct (MatchPayToPubkey s) as [k|] eqn:E1.
  { left. split; [done|]. eexists. split; [done|]. exists k. split; [done|].
    unfold MatchPayToPubkey in E1. repeat case_match; congruence. }
  destruct (MatchPayToPubkeyHash s) as [h|] eqn:E2.
  { left. split; [done|]. eexists. split; [done|]. exists h. split; [done|].
    unfold MatchPayToPubkeyHash in E2. destruct (_ && _) eqn:E; [|done]. bool_to_prop.
    injection E2 as <-. rewrite slice_length by lia. done. }
  destruct (MatchMultisig s) as [[m keys]|] eqn:E3.
  { left. split; [done|]. eexists. split; [done|].
    destruct (MatchMultisig_ok _ _ _ E3) as (Hm & Hn & Hk).
    exists m, (zlen keys), keys. rewrite !u8_id by (unfold is_u8; lia). done. }
  right. done.
Qed.

Lemma Solver_solutions s r : Solver Hash160 ccEnabled fix_active supported s = r ->
  (solver_ok r = true /\ exists t, typeRet r = Some t /\ solutions_ok t (vSolutionsRet r)) \/
  (solver_ok r = false /\ typeRet r <> Some TX_NULL_DATA /\ vSolutionsRet r = []).
Proof.
  intros <-. unfold Solver.
  destruct (IsPayToScriptHash s) eqn:E1.
  { left. split; [done|]. eexists. split; [done|]. eexists. split; [done|].
    unfold IsPayToScriptHash in E1. bool_to_prop. rewrite slice_length by lia. done. }
  destruct (_ && _).
  { left. split; [done|]. eexists. done. }
  assert (HT : forall r, solve_templates s = r -> (solver_ok r = true /\ exists t, typeRet r = Some t /\ solutions_ok t (vSolutionsRet r)) \/
    (solver_ok r = false /\ typeRet r <> Some TX_NULL_DATA /\ vSolutionsRet r = [])).
  { intros r Hr. destruct (solve_templates_typed s r Hr) as [?|(?&->&?)]; [by left|by right]. }
  destruct ccEnabled; [|by apply HT].
  destruct (IsPayToCryptoCondition_params s) as [[cs ps]|]; [|by apply HT].
  destruct (MayAcceptCryptoCondition supported s); [|by right].
  left. split; [done|]. eexists. split; [done|]. eexists _, _. split; [done|]. split; [apply HHash|].
  destruct fix_active; [constructor|apply cc_solution_keys_valid].
Qed.

Lemma IsStandard_total s : IsStandard Hash160 ccEnabled fix_active supported s <> None.
Proof.
  unfold IsStandard. destruct (Solver_solutions s _ eq_refl) as [(Hok & t & Ht & Hs)|(Hok & _)]; rewrite Hok; cbn [negb]; [|done].
  rewrite Ht. cbn [mbind option_bind]. destruct (bool_decide_reflect (t = TX_MULTISIG)) as [->|]; [|done].
  destruct Hs as (m & n & keys & -> & _). rewrite app_comm_cons, last_snoc. cbn [app list.head byte0 mbind option_bind].
  destruct (_ || _); [done|]. by destruct (_ || _).
Qed.

Lemma ExtractDestination_typed s a b :
  match ExtractDestination Hash160 ccEnabled fix_active supported s a b with
  | None => IsCheckLockTimeVerify s = Some None
  | Some (ok, d) => ok = true -> dest_ok d /\ d <> CNoDestination
  end.
Proof.
  unfold ExtractDestination. destruct (IsCheckLockTimeVerify s) as [[z|]|] eqn:Ecl; [| done |]; cbn [mbind option_bind].
  1: set (s' := after_cltv s). 2: set (s' := s).
  all: destruct (Solver_solutions s' _ eq_refl) as [(Hok & t & Ht & Hs)|(Hok & _)]; rewrite Hok; cbn [negb]; [|done].
  all: rewrite Ht; cbn [mbind option_bind]; destruct t; try done.
  all: try (destruct Hs as (k & -> & Hk); cbn [head mbind option_bind]; try by intros _).
  1,3: rewrite (ValidSize_Set _ Hk); destruct (negb (CPubKey_IsValid k)); [done|];
    destruct b; intros _; split; try done; apply HHash.
  all: destruct Hs as (h & keys & -> & Hh & Hk); destruct ccEnabled; [|done]; cbn [head mbind option_bind].
  all: destruct keys as [|k keys]; [done|]; destruct (negb fix_active); [|done].
  all: intros Hv; split; [by apply CPubKey_Set_valid|done].
Qed.
End Typed.

(** ** Facts: scripts built for destinations *)

Ltac list_elements l := repeat (destruct l as [|? l]; try discriminate).

Lemma after_cltv_lock t s : 0 < t < 2 ^ 39 -> 0 < zlen s ->
  after_cltv (AddCheckLockTimeVerify t [] ++ s) = s /\
  exists v, IsCheckLockTimeVerify (AddCheckLockTimeVerify t [] ++ s) = Some (Some v).
Proof.
  intros Ht Hs. destruct (serialize_positive t Ht) as (Hb & Hl & Hv).
  unfold AddCheckLockTimeVerify. rewrite Z.gtb_ltb, (proj2 (Z.ltb_lt 0 t)) by lia.
  set (num := CScriptNum_serialize t) in *.
  assert (Hp : push_data num [] = zlen num :: num).
  { unfold push_data. rewrite (proj2 (Z.ltb_lt (zlen num) OP_PUSHDATA1)) by (unfold OP_PUSHDATA1; lia).
    rewrite u8_id by (unfold is_u8; lia). done. }
  unfold push_opcode. rewrite <- !app_assoc. split.
  - unfold after_cltv. rewrite Hp. cbn [app at_ nth].
    autorewrite with zlen. rewrite Z.gtb_ltb, (proj2 (Z.ltb_lt _ _)) by lia.
    replace (Z.to_nat (zlen num + 3)) with (S (length num + 2)) by (unfold zlen; lia). cbn [drop].
    rewrite drop_app_add. done.
  - unfold IsCheckLockTimeVerify. rewrite GetOp2_push_data by lia. cbn [op_ok op_data andb].
    rewrite (proj2 (Z.ltb_lt (zlen num) 6)) by lia. rewrite Hp.
    rewrite lookup_app_r by (cbn [length]; lia). replace (_ - _)%nat with 0%nat by (cbn [length]; lia).
    cbn [app]. eexists. reflexivity.
Qed.

Lemma head_ok k : ValidSize k = true -> zlen k = 33 \/ zlen k = 65.
Proof.
  destruct k as [|h k]; [done|]. unfold ValidSize, GetLen. intros H. apply Z.eqb_eq in H.
  pose proof (zlen_nonneg k). rewrite zlen_cons in *. repeat case_match; lia.
Qed.

Section Roundtrip.
Context (Hash160 : bytes -> bytes) (ccEnabled fix_active : bool) (supported : bytes -> bool).

Lemma pubkey_script k : ValidSize k = true ->
  GetScriptForDestination (DestPubKey k) = (zlen k :: k) ++ [OP_CHECKSIG].
Proof.
  intros Hk. cbn [GetScriptForDestination]. unfold push_opcode, push_data. f_equal. cbn [app].
  destruct (head_ok k Hk) as [-> | ->]; done.
Qed.

Lemma Solver_pubkey k : ValidSize k = true ->
  Solver Hash160 ccEnabled fix_active supported (GetScriptForDestination (DestPubKey k)) = mkSolved true (Some TX_PUBKEY) [k] /\
  IsCheckLockTimeVerify (GetScriptForDestination (DestPubKey k)) = None.
Proof.
  intros Hk. pose proof (head_ok k Hk) as Hl.
  assert (Hop : GetOp2 (GetScriptForDestination (DestPubKey k)) = mkOpRead true (push_code k) k [OP_CHECKSIG]).
  { cbn [GetScriptForDestination]. unfold push_opcode. apply GetOp2_push_data. lia. }
  split; [|unfold IsCheckLockTimeVerify; rewrite Hop; cbn [op_ok op_data andb]; by rewrite (proj2 (Z.ltb_ge _ _)) by lia].
  assert (Hcc : IsPayToCryptoCondition_params (GetScriptForDestination (DestPubKey k)) = None).
  { unfold IsPayToCryptoCondition_params. rewrite Hop. cbn [op_ok op_code op_rest andb]. by destruct (_ && _). }
  unfold Solver. rewrite Hcc. rewrite (pubkey_script k Hk).
  assert (Hz : zlen ((zlen k :: k) ++ [OP_CHECKSIG]) = zlen k + 2) by (autorewrite with zlen; lia).
  assert (H0 : at_ ((zlen k :: k) ++ [OP_CHECKSIG]) 0 = zlen k) by done.
  unfold IsPayToScriptHash. rewrite Hz, H0. rewrite (proj2 (Z.eqb_neq (zlen k + 2) 23)), (proj2 (Z.eqb_neq (zlen k) OP_RETURN)) by (unfold OP_RETURN; lia).
  rewrite andb_false_r. cbn [andb].
  assert (Hm : solve_templates ((zlen k :: k) ++ [OP_CHECKSIG]) = mkSolved true (Some TX_PUBKEY) [k]).
  { unfold solve_templates, MatchPayToPubkey, PUBLIC_KEY_SIZE, COMPRESSED_PUBLIC_KEY_SIZE. rewrite Hz, H0, back_snoc, Z.eqb_refl.
    assert (Hs : slice ((zlen k :: k) ++ [OP_CHECKSIG]) 1 (S (length k)) = k).
    { unfold slice. cbn [app drop]. apply take_app_length'. lia. }
    unfold zlen in Hl. destruct Hl as [Hl | Hl].
    - replace (S (length k)) with 34%nat in Hs by lia. rewrite Hs, Hk. unfold zlen. by rewrite Hl.
    - replace (S (length k)) with 66%nat in Hs by lia. rewrite Hs, Hk. unfold zlen. by rewrite Hl. }
  rewrite Hm. by destruct ccEnabled.
Qed.

Lemma Solver_hash d h : zlen h = 20 -> d = CKeyID h \/ d = CScriptID h ->
  Solver Hash160 ccEnabled fix_active supported (GetScriptForDestination d) =
    mkSolved true (Some (match d with CKeyID _ => TX_PUBKEYHASH | _ => TX_SCRIPTHASH end)) [h] /\
  IsCheckLockTimeVerify (GetScriptForDestination d) = None.
Proof.
  unfold zlen. intros Hl Hd. assert (Hlen : length h = 20%nat) by lia. clear Hl. list_elements h.
  destruct Hd as [-> | ->]; (split; [|vm_compute; reflexivity]); destruct ccEnabled; vm_compute; reflexivity.
Qed.

Lemma ExtractDestination_script d a : dest_ok d -> d <> CNoDestination ->
  let s := GetScriptForDestination d in
  0 < zlen s /\
  IsCheckLockTimeVerify s = None /\ ExtractDestination Hash160 ccEnabled fix_active supported s a true = Some (true, d).
Proof.
  intros Hd Hn s. assert (Hpos : 0 < zlen s).
  { assert (H : forall c l, 0 < zlen (push_opcode c l)).
    { intros c l. unfold push_opcode. pose proof (zlen_nonneg l). autorewrite with zlen. lia. }
    subst s. destruct d; [done|..]; apply H. }
  split; [done|]. subst s. destruct d as [|k|h|h]; [done|..]; cbn [dest_ok] in Hd.
  - destruct (Solver_pubkey k Hd) as [H1 H2]. split; [done|]. unfold ExtractDestination. rewrite H2. cbn [mbind option_bind]. rewrite H1.
    cbn [mbind option_bind solver_ok negb typeRet vSolutionsRet list.head]. rewrite (ValidSize_Set _ Hd).
    by destruct k.
  - destruct (Solver_hash (CKeyID h) h Hd ltac:(by left)) as [H1 H2]. split; [done|]. unfold ExtractDestination. rewrite H2. cbn [mbind option_bind]. by rewrite H1.
  - destruct (Solver_hash (CScriptID h) h Hd ltac:(by right)) as [H1 H2]. split; [done|]. unfold ExtractDestination. rewrite H2. cbn [mbind option_bind]. by rewrite H1.
Qed.

(** ** Facts: multisig scripts *)

Lemma fold_push_data keys s : fold_left (fun s k => push_data k s) keys s = s ++ pushes keys.
Proof.
  revert s. induction keys as [|k keys IH]; intros s; cbn; [by rewrite app_nil_r|].
  rewrite IH, (push_data_app k s), <- app_assoc. done.
Qed.

Lemma multisig_keys_pushes keys fuel acc c : Forall (fun k => ValidSize k = true) keys -> (length keys < fuel)%nat ->
  IsSmallInteger c = true ->
  multisig_keys fuel acc (pushes keys ++ [c; OP_CHECKMULTISIG]) = (acc ++ keys, mkOpRead true c [] [OP_CHECKMULTISIG]).
Proof.
  intros Hk. revert fuel acc. induction Hk as [|k keys Hk _ IH]; intros fuel acc Hf Hc; (destruct fuel as [|fuel]; [cbn in Hf; lia|]).
  - assert (Hop : GetOp2 [c; OP_CHECKMULTISIG] = mkOpRead true c [] [OP_CHECKMULTISIG]).
    { unfold GetOp2. unfold IsSmallInteger, OP_1, OP_16 in Hc. rewrite Z.geb_leb in Hc. bool_to_prop.
      by rewrite (proj2 (Z.leb_gt c OP_PUSHDATA4)) by (unfold OP_PUSHDATA4; lia). }
    cbn -[GetOp2]. rewrite Hop. cbn. by rewrite app_nil_r.
  - pose proof (head_ok k Hk). unfold pushes. cbn [map concat multisig_keys]. rewrite <- app_assoc.
    rewrite GetOp2_push_data by lia. cbn [op_ok op_data op_rest andb]. rewrite Hk.
    change (concat _) with (pushes keys). rewrite IH by (done || (cbn in Hf; lia)). by rewrite <- app_assoc.
Qed.

Lemma EncodeOP_N_small n : 1 <= n <= 16 -> EncodeOP_N n = Some (80 + n) /\ IsSmallInteger (80 + n) = true /\ u8 (80 + n) = 80 + n.
Proof.
  intros Hn. unfold EncodeOP_N, IsSmallInteger, OP_1, OP_16. rewrite !Z.geb_leb.
  rewrite (proj2 (Z.leb_le 0 n)), (proj2 (Z.leb_le n 16)), (proj2 (Z.eqb_neq n 0)), (proj2 (Z.leb_le 81 _)), (proj2 (Z.leb_le _ 96)) by lia.
  split_and!; [cbn [andb]; f_equal; lia|done|]. apply u8_id. unfold is_u8. lia.
Qed.

Lemma GetScriptForMultisig_bytes m keys : 1 <= m <= zlen keys -> zlen keys <= 16 ->
  GetScriptForMultisig m keys = Some ((80 + m) :: pushes keys ++ [80 + zlen keys; OP_CHECKMULTISIG]).
Proof.
  intros Hm Hn. unfold GetScriptForMultisig.
  destruct (EncodeOP_N_small m ltac:(lia)) as (-> & _ & E1), (EncodeOP_N_small (zlen keys) ltac:(lia)) as (-> & _ & E2).
  f_equal. rewrite fold_push_data. unfold push_opcode. rewrite E1, E2. cbn [app]. by rewrite <- app_assoc.
Qed.
End Roundtrip.

Lemma multisig_addresses_keys Hash160 m n keys : Forall (fun k => ValidSize k = true) keys ->
  multisig_addresses Hash160 (m :: keys ++ [n]) = (fun k => CKeyID (Hash160 k)) <$> keys.
Proof.
  intros Hk. unfold multisig_addresses.
  assert (Ht : take (length (m :: keys ++ [n]) - 2) (drop 1 (m :: keys ++ [n])) = keys).
  { cbn [length drop]. rewrite length_app. cbn [length].
    apply take_app_length'. lia. }
  rewrite Ht. clear Ht.
  induction Hk as [|k ks Hk _ IH]; [done|]. cbn. rewrite (ValidSize_Set _ Hk).
  replace (CPubKey_IsValid k) with true by (by destruct k). cbn. by rewrite IH.
Qed.

Section MultisigRoundtrip.
Context (Hash160 : bytes -> bytes) (ccEnabled fix_active : bool) (supported : bytes -> bool).

Lemma Solver_multisig m keys s : 1 <= m <= zlen keys -> zlen keys <= 16 ->
  Forall (fun k => ValidSize k = true) keys -> GetScriptForMultisig m keys = Some s ->
  Solver Hash160 ccEnabled fix_active supported s = mkSolved true (Some TX_MULTISIG) ([m] :: keys ++ [[zlen keys]]) /\
  IsCheckLockTimeVerify s = None.
Proof.
  intros Hm Hn Hk Hs. rewrite GetScriptForMultisig_bytes in Hs by done. injection Hs as <-.
  set (n := zlen keys) in *. set (tl := [80 + n; OP_CHECKMULTISIG]).
  destruct (EncodeOP_N_small m ltac:(lia)) as (_ & Hsm & _), (EncodeOP_N_small n ltac:(lia)) as (_ & Hsn & _).
  assert (Hop : GetOp2 ((80 + m) :: pushes keys ++ tl) = mkOpRead true (80 + m) [] (pushes keys ++ tl)).
  { unfold GetOp2. by rewrite (proj2 (Z.leb_gt (80 + m) OP_PUSHDATA4)) by (unfold OP_PUSHDATA4; lia). }
  assert (Hhead : exists k x, pushes keys ++ tl = k :: x /\ (k = 33 \/ k = 65)).
  { destruct Hk as [|k ks Hk _]; [exfalso; subst n; rewrite zlen_nil in Hm; lia|]. pose proof (head_ok k Hk) as Hl.
    unfold pushes. cbn [map concat]. unfold push_data. cbn [app].
    rewrite (proj2 (Z.ltb_lt (zlen k) OP_PUSHDATA1)), u8_id by (unfold OP_PUSHDATA1, is_u8; lia). cbn [app].
    eexists _, _. split; [reflexivity|done]. }
  destruct Hhead as (k0 & x & Hx & Hk0). split.
  2: { unfold IsCheckLockTimeVerify. rewrite Hop, Hx. cbn [op_ok op_data andb]. cbn -[Z.eqb].
       rewrite (proj2 (Z.eqb_neq k0 _)) by (unfold OP_CHECKLOCKTIMEVERIFY, OP_NOP2; lia). done. }
  unfold Solver, IsPayToScriptHash, IsPayToCryptoCondition_params. rewrite Hop.
  change (at_ (80 + m :: pushes keys ++ tl) 0) with (80 + m).
  rewrite (proj2 (Z.eqb_neq (80 + m) OP_HASH160)), (proj2 (Z.eqb_neq (80 + m) OP_RETURN)) by (unfold OP_HASH160, OP_RETURN; lia).
  rewrite !andb_false_r. cbn [op_ok op_code andb].
  rewrite (proj2 (Z.ltb_ge (80 + m) OP_PUSHDATA1)), !andb_false_r by (unfold OP_PUSHDATA1; lia).
  assert (Hf : forall A (a : A), (if ccEnabled then a else a) = a) by (by destruct ccEnabled). rewrite Hf. clear Hf.
  unfold solve_templates, MatchPayToPubkey, MatchPayToPubkeyHash.
  change (at_ (80 + m :: pushes keys ++ tl) 0) with (80 + m).
  rewrite (proj2 (Z.eqb_neq (80 + m) PUBLIC_KEY_SIZE)), (proj2 (Z.eqb_neq (80 + m) COMPRESSED_PUBLIC_KEY_SIZE)),
    (proj2 (Z.eqb_neq (80 + m) OP_DUP)) by (unfold PUBLIC_KEY_SIZE, COMPRESSED_PUBLIC_KEY_SIZE, OP_DUP; lia).
  rewrite !andb_false_r. cbn [andb].
  unfold MatchMultisig. rewrite (proj2 (Z.ltb_ge (zlen _) 1)) by (pose proof (zlen_nonneg (pushes keys ++ tl)); autorewrite with zlen in *; lia).
  rewrite Hop. cbn [op_ok op_code op_rest]. rewrite Hsm.
  assert (Hb : back (80 + m :: pushes keys ++ tl) = OP_CHECKMULTISIG).
  { replace (80 + m :: pushes keys ++ tl) with ((80 + m :: pushes keys ++ [80 + n]) ++ [OP_CHECKMULTISIG]) by (subst tl; cbn; by rewrite <- app_assoc).
    apply back_snoc. }
  rewrite Hb. change (OP_CHECKMULTISIG =? OP_CHECKMULTISIG) with true. cbn [negb orb].
  destruct (DecodeOP_N_small _ Hsm) as [-> _]. cbn [mbind option_bind].
  assert (Hlen : (length keys < S (length (pushes keys ++ tl)))%nat).
  { rewrite length_app. assert (length keys <= length (pushes keys))%nat; [|lia].
    clear. induction keys as [|k ks IH]; [done|]. unfold pushes in *. cbn [map concat length]. rewrite length_app.
    pose proof (push_data_length k). lia. }
  cbn [length]. unfold tl in *. rewrite multisig_keys_pushes by done. cbn [op_code op_rest app]. rewrite Hsn. cbn [negb].
  destruct (DecodeOP_N_small _ Hsn) as [-> _]. cbn [mbind option_bind].
  replace (80 + n - 80) with n by lia. replace (80 + m - 80) with m by lia. fold n. rewrite Z.eqb_refl, (proj2 (Z.ltb_ge n m)) by lia.
  cbn [negb orb]. change (zlen [OP_CHECKMULTISIG] =? 1) with true. cbn iota. rewrite !u8_id by (unfold is_u8; lia). done.
Qed.
End MultisigRoundtrip.

(** ** Properties *)

(** C23: the solutions [Solver] returns have the shape of the type it reports: a
    rejected script yields none; a public key has a valid size, a hash 20 bytes,
    a multisig template between [1 <= m <= n <= 16] and [n] keys of valid size.
    So [IsStandard] never reads a solution that is not there, and
    [ExtractDestination] either returns a destination of the right size or none,
    except where [IsCheckLockTimeVerify] itself reads past the end. *)
Theorem Solver_typed (Hash160 : bytes -> bytes) (cc fix_active : bool) (supported : bytes -> bool) (s : bytes)
  (a : CTxDestination) (returnPubKey : bool)
  (HHash : forall s, zlen (Hash160 s) = 20) :
  let r := Solver Hash160 cc fix_active supported s in
  (if solver_ok r then exists t, typeRet r = Some t /\ solutions_ok t (vSolutionsRet r)
   else typeRet r <> Some TX_NULL_DATA /\ vSolutionsRet r = []) /\
  IsStandard Hash160 cc fix_active supported s <> None /\
  match ExtractDestination Hash160 cc fix_active supported s a returnPubKey with
  | None => IsCheckLockTimeVerify s = Some None
  | Some (ok, d) => ok = true -> dest_ok d /\ d <> CNoDestination
  end.
Proof.
  intros r. split_and!; [|by apply IsStandard_total|by apply ExtractDestination_typed].
  destruct (Solver_solutions Hash160 HHash cc fix_active supported s r eq_refl) as [(-> & H)|(-> & H)]; done.
Qed.

Lemma Solver_typed_witness :
  let r := Solver (fun _ => repeat 0 20) true true (fun _ => true) [] in
  if solver_ok r then exists t, typeRet r = Some t /\ solutions_ok t (vSolutionsRet r)
  else typeRet r <> Some TX_NULL_DATA /\ vSolutionsRet r = [].
Proof. apply (Solver_typed (fun _ => repeat 0 20) true true (fun _ => true) [] CNoDestination true). intros s. reflexivity. Defined.

(** The script built for a destination, also behind a time lock, is one
    [ExtractDestination] takes back to that destination; the script built for
    [m] of [n] keys is one [ExtractDestinations] takes back to [m] and the
    addresses of the keys, in order. *)
Theorem destination_roundtrip (Hash160 : bytes -> bytes) (cc fix_active : bool) (supported : bytes -> bool)
  (d a : CTxDestination) (t : Z) (m r : Z) (keys : list bytes)
  (Hd : dest_ok d) (Hn : d <> CNoDestination) (Ht : 0 <= t < 2 ^ 39)
  (Hm : 1 <= m <= zlen keys) (Hk : zlen keys <= 16) (Hkeys : Forall (fun k => ValidSize k = true) keys) :
  ExtractDestination Hash160 cc fix_active supported
    (AddCheckLockTimeVerify t [] ++ GetScriptForDestination d) a true = Some (true, d) /\
  exists s, GetScriptForMultisig m keys = Some s /\
    ExtractDestinations Hash160 cc fix_active supported s r =
      Some (mkDestinations true TX_MULTISIG ((fun k => CKeyID (Hash160 k)) <$> keys) m).
Proof.
  split.
  - destruct (ExtractDestination_script Hash160 cc fix_active supported d a Hd Hn) as (Hz & Hl & He).
    destruct (decide (t = 0)) as [-> | Ht0]; [done|].
    destruct (after_cltv_lock t _ ltac:(lia) Hz) as (H1 & v & H2).
    unfold ExtractDestination in *. rewrite H2. rewrite Hl in He. cbn [mbind option_bind] in *. rewrite H1. exact He.
  - eexists. split; [by apply GetScriptForMultisig_bytes|].
    destruct (Solver_multisig Hash160 cc fix_active supported m keys _ Hm Hk Hkeys (GetScriptForMultisig_bytes m keys Hm Hk)) as [Hs Hl].
    unfold ExtractDestinations. cbn [length extract_destinations]. rewrite Hl, Hs. cbn [default typeRet solver_ok negb].
    rewrite bool_decide_eq_false_2, bool_decide_eq_true_2 by done. cbn [vSolutionsRet list.head byte0 mbind option_bind].
    f_equal. rewrite multisig_addresses_keys by done. destruct keys; [unfold zlen in Hm; cbn in Hm; lia|done].
Qed.

Lemma destination_roundtrip_witness :
  let k := 2 :: repeat 7 32 in
  exists s, GetScriptForMultisig 1 [k; k] = Some s /\
    ExtractDestinations (fun _ => repeat 0 20) true true (fun _ => true) s 0 =
      Some (mkDestinations true TX_MULTISIG [CKeyID (repeat 0 20); CKeyID (repeat 0 20)] 1).
Proof.
  intros k.
  apply (destination_roundtrip (fun _ => repeat 0 20) true true (fun _ => true) (CKeyID (repeat 1 20)) CNoDestination
           1600000000 1 0 [k; k]); try done; try lia; repeat (constructor; [done|]); constructor.
Defined.

(** The parameter block of a 1-of-2 condition is written with [n] before [m]
    and read with [m] before [n]: it comes back invalid. *)
Lemma cc_params_one_of_two_lost :
  let k := 2 :: repeat 7 32 in
  cc_version (COptCCParams_parse (COptCCParams_AsVector (mkCCParams (Some 1) 9 1 2 [k; k] []))) = Some 0 /\
  COptCCParams_parse (COptCCParams_AsVector (mkCCParams (Some 1) 9 1 1 [k] [])) = mkCCParams (Some 1) 9 1 1 [k] [].
Proof. split; vm_compute; reflexivity. Qed.
