(* ===== verification/Notary.v ===== *)
(** * Notaries (src/src/squishy_notary.cpp, squishy_hardfork.h,
      notaries_staked.cpp, and the notary part of squishy_bitcoind.cpp)

    Who the notaries are at a height or a time, and who mined the last blocks.
    The decoded key tables of the source (one list of keys per season and era)
    are parameters, as is the disk: [blockload] gives the outputs of the
    coinbase of a block that can be read.  [None] is undefined behaviour: a
    null table, an index out of range or an uninitialised key. *)
From S2P Require Import Prelude Serialize Transaction Compressor Script Arith256 BlockIndex Standard Seasons.
From stdpp Require Import strings.
#[local] Open Scope Z_scope.

(** ** Seasons and eras *)

Definition SQUISHY_ELECTION_GAP : Z := 2000.
Definition SQUISHY_MAXBLOCKS : Z := 250000.
Definition SQUISHY_NOTARIES_HARDCODED : Z := 180000.
Definition NUM_KMD_NOTARIES : Z := 64.

Definition STAKED_ERA_GAP : Z := 777.
Definition STAKED_NOTARIES_TIMESTAMP : list Z := [1572523200; 1704244444; 1704244444; 1704244444].

Fixpoint era_loop (timestamp prev i : Z) (l : list Z) : Z :=
  match l with
  | [] => 0
  | y :: l => if (timestamp <=? y) && (timestamp >=? prev + STAKED_ERA_GAP) then i + 1 else era_loop timestamp y (i + 1) l
  end.

Definition STAKED_era (timestamp : Z) : Z :=
  match STAKED_NOTARIES_TIMESTAMP with
  | [] => 0
  | y :: l => if timestamp <=? y then 1 else era_loop timestamp y 1 l
  end.

Definition is_STAKED (symbol : string) : Z :=
  if String.eqb symbol "LABS" then 1
  else if String.prefix "LABS" symbol then 2
  else if String.eqb symbol "CFEK" || String.prefix "CFEK" symbol then 3
  else if String.eqb symbol "TEST" || String.prefix "TEST" symbol then 4
  else if String.eqb symbol "THIS_CHAIN_IS_BANNED" then 255 else 0.

Definition isKMD (symbol : string) : bool := String.eqb symbol "".

(** ** The tables of elected notaries *)

Record knotary_entry := mkKnotary { kn_pubkey : bytes; notaryid : Z }.

(** The hash table [Notaries] as its entries in the order they were added:
    the order of [HASH_ITER]; [HASH_FIND] meets the last added first. *)
Record knotaries_entry := mkKnotaries { ke_height : Z; numnotaries : Z; Notaries : list knotary_entry }.

(** [didinit], [Pubkeys], [hwmheight], and the seasons and eras whose keys
    have been decoded ([didinit_NOTARIES] and [kmd_pubkeys]). *)
Record notary_state := mkNotaryState {
  didinit : bool;
  Pubkeys : option (list knotaries_entry);
  hwmheight : Z;
  kmd_pubkeys : gmap Z (list bytes);
  staked_pubkeys : gmap Z (list bytes)
}.

Definition notary_start : notary_state := mkNotaryState false None 0 ∅ ∅.

Definition ht_index_from_height (height : Z) : Z :=
  let htind := Z.quot height SQUISHY_ELECTION_GAP in
  if htind >=? SQUISHY_MAXBLOCKS / SQUISHY_ELECTION_GAP then SQUISHY_MAXBLOCKS / SQUISHY_ELECTION_GAP - 1 else htind.

Definition pubkeys_at (st : notary_state) (height : Z) : option knotaries_entry :=
  table ← Pubkeys st;
  let htind := ht_index_from_height height in
  if htind <? 0 then None else table !! Z.to_nat htind.

(** [for (int32_t i=htind; i<SQUISHY_MAXBLOCKS / SQUISHY_ELECTION_GAP; i++)] *)
Fixpoint init_loop (fuel i : nat) (N : knotaries_entry) (blocked : bool) (table : list knotaries_entry)
    : option (list knotaries_entry) :=
  match fuel with
  | O => Some table
  | S fuel =>
    e ← table !! i;
    if negb (ke_height e =? 0) && blocked then Some table
    else init_loop fuel (S i) N blocked
           (<[i := mkKnotaries (Z.of_nat i * SQUISHY_ELECTION_GAP) (numnotaries N) (Notaries N)]> table)
  end.

Definition era_start (origheight : Z) : Z :=
  if origheight >? 0 then
    let height := Z.quot (origheight + SQUISHY_ELECTION_GAP / 2) SQUISHY_ELECTION_GAP in
    ht_index_from_height ((height + 1) * SQUISHY_ELECTION_GAP)
  else 0.

(** [num] is the number of the given keys. *)
Definition squishy_notarysinit (origheight : Z) (pubkeys : list bytes) (st : notary_state) : option notary_state :=
  let eras := SQUISHY_MAXBLOCKS / SQUISHY_ELECTION_GAP in
  let table := default (repeat (mkKnotaries 0 0 []) (Z.to_nat (1 + eras))) (Pubkeys st) in
  let htind := era_start origheight in
  let N := mkKnotaries 0 (zlen pubkeys) (imap (fun k pk => mkKnotary pk (u8 (Z.of_nat k))) pubkeys) in
  table ← init_loop (Z.to_nat (eras - htind)) (Z.to_nat htind) N (origheight <? hwmheight st) table;
  Some (mkNotaryState (didinit st) (Some table)
          (if origheight >? hwmheight st then origheight else hwmheight st) (kmd_pubkeys st) (staked_pubkeys st)).

(** The keys before the first pair with an empty component. *)
Fixpoint genesis_keys (l : list (string * bytes)) : list bytes :=
  match l with
  | [] => []
  | (name, key) :: l => if String.eqb name "" || is_nil key then [] else key :: genesis_keys l
  end.

(** The keys written into [pubkeys[64][33]]. *)
Definition key_map (keys : list bytes) : gmap Z bytes := list_to_map (imap (fun i k => (Z.of_nat i, k)) keys).

(** The iteration that fills the keys and their mask. *)
Fixpoint collect_keys (n : Z) (l : list knotary_entry) (mask : Z) (keys : gmap Z bytes) : option (Z * gmap Z bytes) :=
  match l with
  | [] => Some (mask, keys)
  | kp :: l =>
    if notaryid kp <? n then
      if notaryid kp <? 64
      then collect_keys n l (Z.lor mask (Z.shiftl 1 (notaryid kp))) (<[notaryid kp := kn_pubkey kp]> keys)
      else None
    else collect_keys n l mask keys
  end.

Section Notaries.
(** [chainName.symbol()]; the decoded keys of [notaries_elected] by season - 1
    and of [notaries_STAKED] by era - 1; [Params().GenesisNotaries()]. *)
Variables (symbol : string) (notaries_elected notaries_STAKED : Z -> list bytes)
  (GenesisNotaries : list (string * bytes)).
(** [mapBlockIndex] and [chainActive]. *)
Variables (objs : store) (chainActive : list (option Z)).

Definition squishy_chainactive_timestamp : option Z :=
  match Tip chainActive with
  | None => Some 0
  | Some t => b ← objs !! t; Some (u32 (bi_nTime b))
  end.

Definition squishy_chainactive (height : Z) : option (option Z) :=
  match Tip chainActive with
  | None => Some None
  | Some t => b ← objs !! t; Some (if height <=? nHeight b then chain_at chainActive height else None)
  end.

Definition squishy_heightstamp (height : Z) : option Z :=
  if height >? 0 then
    p ← squishy_chainactive height;
    match p with None => Some 0 | Some p => b ← objs !! p; Some (bi_nTime b) end
  else Some 0.

Definition squishy_init (height : Z) (st : notary_state) : option notary_state :=
  if didinit st then Some st
  else
    let keys := genesis_keys GenesisNotaries in
    st ← (if height >=? 0
          then if zlen keys <=? 64 then squishy_notarysinit 0 keys st else None
          else Some st);
    Some (mkNotaryState true (Pubkeys st) (hwmheight st) (kmd_pubkeys st) (staked_pubkeys st)).

(** The keys of a season, decoded at their first use. *)
Definition season_keys (kmd_season : Z) (st : notary_state) : list bytes * notary_state :=
  match kmd_pubkeys st !! (kmd_season - 1) with
  | Some keys => (keys, st)
  | None =>
    let keys := notaries_elected (kmd_season - 1) in
    (keys, mkNotaryState (didinit st) (Pubkeys st) (hwmheight st) (<[kmd_season - 1 := keys]> (kmd_pubkeys st)) (staked_pubkeys st))
  end.

Definition numStakedNotaries (era : Z) (st : notary_state) : Z * list bytes * notary_state :=
  if era =? 0 then (64, repeat (repeat 0 33) 64, st)
  else
    match staked_pubkeys st !! (era - 1) with
    | Some keys => (zlen keys, keys, st)
    | None =>
      let keys := notaries_STAKED (era - 1) in
      (zlen keys, keys, mkNotaryState (didinit st) (Pubkeys st) (hwmheight st) (kmd_pubkeys st)
                          (<[era - 1 := keys]> (staked_pubkeys st)))
    end.

(** The part of [squishy_notaries] that reads the table of elections. *)
Definition elected_notaries (height : Z) (st : notary_state) : option (Z * gmap Z bytes * notary_state) :=
  st ← match Pubkeys st with None => squishy_init height st | Some _ => Some st end;
  e ← pubkeys_at st height;
  let n := numnotaries e in
  r ← collect_keys n (Notaries e) 0 ∅;
  if ((n <? 64) && (r.1 =? Z.shiftl 1 n - 1)) || ((n =? 64) && (r.1 =? 0xffffffffffffffff))
  then Some (n, r.2, st) else Some (-1, r.2, st).

(** The number of notaries, their keys, and the state. *)
Definition squishy_notaries (height timestamp : Z) (st : notary_state) : option (Z * gmap Z bytes * notary_state) :=
  timestamp ← (if isKMD symbol then Some 0
               else if timestamp =? 0 then squishy_heightstamp height else Some timestamp);
  if is_STAKED symbol =? 0 then
    let kmd_season :=
      if isKMD symbol then (if height >=? SQUISHY_NOTARIES_HARDCODED then getkmdseason height else 0)
      else getacseason timestamp in
    if negb (kmd_season =? 0) then
      let '(keys, st) := season_keys kmd_season st in
      Some (NUM_KMD_NOTARIES, key_map (take (Z.to_nat NUM_KMD_NOTARIES) keys), st)
    else elected_notaries height st
  else if negb (timestamp =? 0) then
    let '(numSN, keys, st) := numStakedNotaries (STAKED_era (i32 timestamp)) st in
    Some (numSN, key_map keys, st)
  else elected_notaries height st.

(** The first of the [n] keys from [i] on that equals [pubkey33], or -1. *)
Fixpoint find_notary (fuel : nat) (i n : Z) (pubkey33 : bytes) (keys : gmap Z bytes) : option Z :=
  match fuel with
  | O => Some (-1)
  | S fuel =>
    if i <? n then
      k ← keys !! i;
      if bool_decide (pubkey33 = k) then Some i else find_notary fuel (i + 1) n pubkey33 keys
    else Some (-1)
  end.

Definition key_index (n : Z) (pubkey33 : bytes) (keys : gmap Z bytes) : option Z :=
  find_notary (Z.to_nat n) 0 n pubkey33 keys.

(** The id, the number of notaries and the state. *)
Definition squishy_electednotary (pubkey33 : bytes) (height timestamp : Z) (st : notary_state) : option (Z * Z * notary_state) :=
  r ← squishy_notaries height timestamp st;
  let '(n, keys, st) := r in
  id ← key_index n pubkey33 keys;
  Some (id, n, st).

(** The result, [*notaryidp] and the state. *)
Definition squishy_chosennotary (height : Z) (pubkey33 : bytes) (timestamp : Z) (st : notary_state)
    : option (Z * Z * notary_state) :=
  if height <? 0 then Some (-1, -1, st)
  else
    r ← (if (height >=? SQUISHY_NOTARIES_HARDCODED) || negb (isKMD symbol)
         then squishy_electednotary pubkey33 height timestamp st else Some (-1, 0, st));
    let '(id, n, st) := r in
    if (id >=? 0) && negb (n =? 0) then Some (if height mod n =? id then 1 else 0, id, st)
    else if height >=? 250000 then Some (-1, id, st)
    else
      st ← match Pubkeys st with None => squishy_init 0 st | Some _ => Some st end;
      e ← pubkeys_at st height;
      match find (fun kp => bool_decide (kn_pubkey kp = pubkey33)) (rev (Notaries e)) with
      | Some kp =>
        if numnotaries e >? 0
        then Some (if height mod numnotaries e =? notaryid kp then 1 else 0, notaryid kp, st)
        else Some (-1, id, st)
      | None => Some (-1, id, st)
      end.

(** [squishy_ratify_threshold]: the notaries whose bit is set. *)
Definition squishy_ratify_threshold (height signedmask : Z) (st : notary_state) : option Z :=
  e ← pubkeys_at st height;
  let wt := Z.of_nat (length (filter (fun i => Z.testbit signedmask (Z.of_nat i) = true) (seq 0 (Z.to_nat (numnotaries e))))) in
  Some (if (wt >? Z.shiftr (numnotaries e) 1) || ((wt >? 7) && Z.testbit signedmask 0) then 1 else 0).
End Notaries.

(** ** The notaries of the last blocks *)

Section Blocks.
Variables (symbol : string) (notaries_elected notaries_STAKED : Z -> list bytes)
  (GenesisNotaries : list (string * bytes)) (objs : store) (chainActive : list (option Z)).
(** [Solver]'s parameters, [SQUISHY_LOADINGBLOCKS], and the coinbase outputs
    of the block on disk, [None] where [squishy_blockload] fails. *)
Variables (Hash160 : bytes -> bytes) (cc fix_active : bool) (supported : bytes -> bool)
  (LOADINGBLOCKS : bool) (blockload : Z -> option (list CTxOut)).

Definition squishy_block2pubkey33 (vout0 : list CTxOut) : bytes :=
  match vout0 with
  | [] => repeat (if LOADINGBLOCKS then 0 else 0xff) 33
  | o :: _ =>
    let r := Solver Hash160 cc fix_active supported (scriptPubKey o) in
    match solver_ok r, typeRet r, vSolutionsRet r with
    | true, Some TX_PUBKEY, vch :: _ =>
      if CPubKey_IsValid (CPubKey_Set vch) then take 33 vch else repeat 0 33
    | _, _, _ => repeat 0 33
    end
  end.

(** The key the block was mined with; [Some (repeat 0 33)] also where there is
    no block or it cannot be loaded. *)
Definition squishy_index2pubkey33 (pindex : option Z) : bytes :=
  match pindex ≫= blockload with
  | Some vout0 => squishy_block2pubkey33 vout0
  | None => repeat 0 33
  end.

(** The block time and the miner of one of the last blocks: 0 and -1 where
    the caller's arrays keep their initial values. *)
Definition miner_slot (n : Z) (keys : gmap Z bytes) (pindex : option Z) : option (Z * Z) :=
  match pindex with
  | None => Some (0, -1)
  | Some p =>
    b ← objs !! p;
    match blockload p with
    | None => Some (bi_nTime b, -1)
    | Some vout0 => id ← key_index n (squishy_block2pubkey33 vout0) keys; Some (bi_nTime b, id)
    end
  end.

(** [for (i=duplicate=0; i<66; i++)] from [i] on: the block times, [mids] and
    the duplicates of [mids[0]]. *)
Fixpoint eligible_loop (fuel : nat) (i n height : Z) (keys : gmap Z bytes) (blocktimes mids : list Z) (duplicate : Z)
    : option (list Z * list Z * Z) :=
  match fuel with
  | O => Some (blocktimes, mids, duplicate)
  | S fuel =>
    pindex ← squishy_chainactive objs chainActive (height - i);
    s ← miner_slot n keys pindex;
    let mids := mids ++ [s.2] in
    let duplicate :=
      if negb (bool_decide (pindex = None)) && (nth 0 mids (-1) >=? 0) && (i >? 0) && (s.2 =? nth 0 mids (-1))
      then duplicate + 1 else duplicate in
    eligible_loop fuel (i + 1) n height keys (blocktimes ++ [s.1]) mids duplicate
  end.

Record eligible := mkEligible { el_result : bool; el_mids : list Z; el_blocktimes : list Z; el_nonzpkeys : Z }.

Definition squishy_eligiblenotary (height : Z) (st : notary_state) : option (eligible * notary_state) :=
  r ← squishy_notaries symbol notaries_elected notaries_STAKED GenesisNotaries objs chainActive height 0 st;
  let '(n, keys, st) := r in
  l ← eligible_loop 66 0 n height keys [] [] 0;
  let '(blocktimes, mids, duplicate) := l in
  let nonzpkeys := Z.of_nat (length (filter (fun m => 0 <= m) mids)) in
  Some (mkEligible ((duplicate =? 0) && ((height >? 186233) || (nonzpkeys >? 0))) mids blocktimes nonzpkeys, st).

(** [minerids]: for each of the [width] blocks up to [height] that is there,
    the notary that mined it or the number of notaries. *)
Fixpoint minerids_loop (fuel : nat) (i n height width : Z) (keys : gmap Z bytes) (minerids : list Z) : option (list Z) :=
  match fuel with
  | O => Some minerids
  | S fuel =>
    if height - i <=? 0 then minerids_loop fuel (i + 1) n height width keys minerids
    else
      pindex ← squishy_chainactive objs chainActive (height - width + i + 1);
      match pindex ≫= blockload with
      | None => minerids_loop fuel (i + 1) n height width keys minerids
      | Some vout0 =>
        id ← key_index n (squishy_block2pubkey33 vout0) keys;
        minerids_loop fuel (i + 1) n height width keys 
          (minerids ++ (if id >=? 0 then [u8 id] else if n >=? 0 then [u8 n] else []))
      end
  end.

Definition squishy_minerids (height width : Z) (st : notary_state) : option (list Z * notary_state) :=
  r ← squishy_notaries symbol notaries_elected notaries_STAKED GenesisNotaries objs chainActive height 0 st;
  let '(n, keys, st) := r in
  l ← minerids_loop (Z.to_nat width) 0 n height width keys [];
  Some (l, st).

(** The first [i] in [1..65] with [mids[i] == notaryid]. *)
Definition repeats (mids : list Z) (id : Z) : bool := existsb (Z.eqb id) (take 65 (drop 1 mids)).

(** The old rule below height 82000: the loop only has effects on the state. *)
Fixpoint old_rule_loop (fuel : nat) (i height : Z) (pubkey33 : bytes) (blocktimes : list Z) (id : Z) (st : notary_state)
    : option (bool * notary_state) :=
  match fuel with
  | O => Some (false, st)
  | S fuel =>
    t ← blocktimes !! Z.to_nat i;
    r ← squishy_chosennotary symbol notaries_elected notaries_STAKED GenesisNotaries objs chainActive (height - i) pubkey33 t st;
    let '(_, nid, st) := r in
    if (nid =? id) && (height >? 225000) then Some (true, st)
    else old_rule_loop fuel (i + 1) height pubkey33 blocktimes id st
  end.

Definition squishy_is_special (mids blocktimes : list Z) (height : Z) (pubkey33 : bytes) (blocktime : Z) (st : notary_state)
    : option (Z * notary_state) :=
  t0 ← blocktimes !! 0%nat;
  r ← squishy_chosennotary symbol notaries_elected notaries_STAKED GenesisNotaries objs chainActive height pubkey33 t0 st;
  let '(_, id, st) := r in
  if height >=? 82000 then
    if id >=? 0 then
      if repeats mids id && (height >? 792000) then Some (-1, st)
      else
        t1 ← blocktimes !! 1%nat;
        if negb (blocktime =? 0) && negb (t1 =? 0) && (blocktime <? u32 (t1 + 57)) && (height >? 807000) then Some (-2, st)
        else Some (1, st)
    else Some (0, st)
  else if (height >=? 34000) && (id >=? 0) then
    let limit := if height <? 79693 then 64 else if height <? 82000 then 8 else 66 in
    match old_rule_loop (Z.to_nat (limit - 1)) 1 height pubkey33 blocktimes id st with
    | None => None
    | Some (true, st) => Some (-1, st)
    | Some (false, st) => Some (1, st)
    end
  else Some (0, st).
End Blocks.

(** ** Facts: the table of elections *)

Definition ERAS : nat := 125.

Lemma init_loop_spec fuel i N table : (i + fuel <= length table)%nat ->
  exists table', init_loop fuel i N false table = Some table' /\ length table' = length table /\
    forall j, table' !! j = if decide (i <= j < i + fuel)%nat
                            then Some (mkKnotaries (Z.of_nat j * SQUISHY_ELECTION_GAP) (numnotaries N) (Notaries N))
                            else table !! j.
Proof.
  revert i table. induction fuel as [|fuel IH]; intros i table Hlen.
  - eexists. split; [done|]. split; [done|]. intros j. by rewrite decide_False by lia.
  - cbn [init_loop]. destruct (lookup_lt_is_Some_2 table i ltac:(lia)) as [e He]. rewrite He. cbn [mbind option_bind].
    rewrite andb_false_r.
    destruct (IH (S i) (<[i:=mkKnotaries (Z.of_nat i * SQUISHY_ELECTION_GAP) (numnotaries N) (Notaries N)]> table))
      as (t' & -> & Hl & Ht); [rewrite length_insert; lia|].
    exists t'. split; [done|]. rewrite length_insert in Hl. split; [done|]. intros j. rewrite Ht.
    destruct (decide (S i <= j < S i + fuel)%nat); [by rewrite decide_True by lia|].
    destruct (decide (j = i)) as [->|]; [rewrite decide_True, list_lookup_insert_eq by lia; done|].
    rewrite list_lookup_insert_ne by done. by rewrite decide_False by lia.
Qed.

Lemma ht_index_range h : 0 <= h -> 0 <= ht_index_from_height h < 125.
Proof.
  intros Hh. unfold ht_index_from_height, SQUISHY_MAXBLOCKS, SQUISHY_ELECTION_GAP. rewrite Z.quot_div_nonneg by lia.
  change (250000 / 2000) with 125. rewrite Z.geb_leb. pose proof (Z.div_pos h 2000 Hh ltac:(lia)).
  destruct (Z.leb_spec 125 (h / 2000)); lia.
Qed.

Lemma era_start_range o : 0 <= era_start o < 125.
Proof.
  unfold era_start. destruct (Z.gtb_spec o 0); [|lia]. apply ht_index_range.
  unfold SQUISHY_ELECTION_GAP. change (2000 / 2) with 1000. rewrite Z.quot_div_nonneg by lia.
  pose proof (Z.div_pos (o + 1000) 2000). lia.
Qed.

(** The entries that [squishy_notarysinit] builds from a list of keys. *)
Definition notary_entries (keys : list bytes) : list knotary_entry :=
  imap (fun k pk => mkKnotary pk (u8 (Z.of_nat k))) keys.

Lemma notarysinit_spec origheight keys st :
  hwmheight st <= origheight -> (forall t, Pubkeys st = Some t -> length t = 126%nat) ->
  exists t', squishy_notarysinit origheight keys st =
      Some (mkNotaryState (didinit st) (Some t') (Z.max (hwmheight st) origheight) (kmd_pubkeys st) (staked_pubkeys st)) /\
    length t' = 126%nat /\
    forall j, (j < ERAS)%nat -> era_start origheight <= Z.of_nat j ->
      t' !! j = Some (mkKnotaries (Z.of_nat j * SQUISHY_ELECTION_GAP) (zlen keys) (notary_entries keys)).
Proof.
  intros Hh Hlen. unfold squishy_notarysinit. change (SQUISHY_MAXBLOCKS / SQUISHY_ELECTION_GAP) with 125.
  rewrite (proj2 (Z.ltb_ge origheight _)) by lia. pose proof (era_start_range origheight) as He.
  set (t0 := default _ (Pubkeys st)).
  assert (Ht0 : length t0 = 126%nat) by (subst t0; destruct (Pubkeys st) eqn:E; cbn; [by apply Hlen|done]).
  match goal with |- context [init_loop ?f ?i ?N false ?t] => destruct (init_loop_spec f i N t) as (t' & -> & Hl & Ht) end; [lia|].
  cbn [mbind option_bind]. exists t'. split_and!; [|lia|].
  - do 2 f_equal. destruct (Z.gtb_spec origheight (hwmheight st)); lia.
  - intros j Hj Hs. unfold ERAS in Hj. rewrite Ht, decide_True by lia. done.
Qed.

Lemma notarysinit_keeps origheight keys st st' j t :
  squishy_notarysinit origheight keys st = Some st' -> Pubkeys st = Some t -> length t = 126%nat ->
  hwmheight st <= origheight -> Z.of_nat j < era_start origheight ->
  exists t', Pubkeys st' = Some t' /\ t' !! j = t !! j.
Proof.
  intros Hi Ht Hlen Hh Hj. unfold squishy_notarysinit in Hi. rewrite Ht in Hi. cbv zeta in Hi. cbn [default from_option id] in Hi. change (id t) with t in Hi.
  rewrite (proj2 (Z.ltb_ge origheight _)) in Hi by lia. pose proof (era_start_range origheight) as He.
  change (SQUISHY_MAXBLOCKS / SQUISHY_ELECTION_GAP) with 125 in Hi.
  match type of Hi with context [init_loop ?f ?i ?N false ?t] => destruct (init_loop_spec f i N t) as (t' & Hl' & Hl & Ht') end; [lia|].
  rewrite Hl' in Hi. injection Hi as <-. exists t'. split; [done|]. rewrite Ht', decide_False by lia. done.
Qed.

(** A sequence of elections, oldest first. *)
Definition run_elections (evs : list (Z * list bytes)) (st : notary_state) : option notary_state :=
  foldl (fun st ev => st ← st; squishy_notarysinit ev.1 ev.2 st) (Some st) evs.

(** The election in force in era [j]: the last one that starts by then. *)
Definition in_force_era (evs : list (Z * list bytes)) (j : Z) : option (Z * list bytes) :=
  list.last (filter (fun ev => era_start ev.1 <= j) evs).

(** Elections at heights that do not decrease. *)
Fixpoint in_order (h : Z) (evs : list (Z * list bytes)) : Prop :=
  match evs with [] => True | ev :: evs => h <= ev.1 /\ in_order ev.1 evs end.

Lemma in_order_snoc h evs ev : in_order h (evs ++ [ev]) <->
  in_order h evs /\ h <= ev.1 /\ Forall (fun e => e.1 <= ev.1) evs.
Proof.
  revert h. induction evs as [|e evs IH]; intros h; cbn.
  - split; intros H; [split_and!; [done|lia|constructor]|lia].
  - rewrite IH. split.
    + intros (? & ? & ? & ?). split_and!; try done; [lia|constructor; [lia|done]].
    + intros ((? & ?) & ? & [??]%list.Forall_cons). split_and!; try done; lia.
Qed.

Lemma run_elections_snoc evs ev st : run_elections (evs ++ [ev]) st = run_elections evs st ≫= squishy_notarysinit ev.1 ev.2.
Proof. unfold run_elections. by rewrite foldl_app. Qed.

Lemma in_force_era_snoc evs ev j : in_force_era (evs ++ [ev]) j = if decide (era_start ev.1 <= j) then Some ev else in_force_era evs j.
Proof.
  unfold in_force_era. rewrite filter_app, filter_cons, filter_nil.
  destruct (decide (era_start ev.1 <= j)); [by rewrite last_snoc|by rewrite app_nil_r].
Qed.

Lemma run_elections_spec evs st : Pubkeys st = None -> hwmheight st = 0 -> in_order 0 evs ->
  exists st', run_elections evs st = Some st' /\ 0 <= hwmheight st' /\
    (forall h, 0 <= h -> Forall (fun e => e.1 <= h) evs -> hwmheight st' <= h) /\
    (evs = [] -> st' = st) /\
    (forall t, Pubkeys st' = Some t -> length t = 126%nat) /\
    forall j ev, (j < ERAS)%nat -> in_force_era evs (Z.of_nat j) = Some ev ->
      exists t, Pubkeys st' = Some t /\
        t !! j = Some (mkKnotaries (Z.of_nat j * SQUISHY_ELECTION_GAP) (zlen ev.2) (notary_entries ev.2)).
Proof.
  intros Hnone Hhwm. induction evs as [|ev evs IH] using rev_ind; intros Hord.
  - exists st. split_and!; try done; try lia. intros t Ht. by rewrite Hnone in Ht.
  - apply in_order_snoc in Hord as (Hord & H0 & Hle). destruct (IH Hord) as (st1 & Hrun & Hp & Hmax & _ & Hlen & Hj).
    rewrite run_elections_snoc, Hrun. cbn [mbind option_bind].
    destruct (notarysinit_spec ev.1 ev.2 st1 (Hmax _ H0 Hle) Hlen) as (t' & Heq & Hl' & Ht').
    rewrite Heq. eexists. split; [done|]. cbn [hwmheight Pubkeys]. split_and!.
    + lia.
    + intros h Hh [Hf [Hev _]%list.Forall_cons]%Forall_app. specialize (Hmax h Hh Hf). lia.
    + intros E. by destruct evs.
    + by intros t [= <-].
    + intros j e Hjlt. rewrite in_force_era_snoc. destruct (decide _) as [Hd|Hd].
      * intros [= <-]. exists t'. split; [done|]. by apply Ht'.
      * intros He. destruct (Hj j e Hjlt He) as (t & Ht & Hentry).
        destruct (notarysinit_keeps _ _ _ _ j t Heq Ht (Hlen t Ht) (Hmax _ H0 Hle) ltac:(lia)) as (t2 & Ht2 & Hk).
        exists t2. split; [done|]. by rewrite Hk.
Qed.

(** ** Facts: collecting and searching the keys *)

Lemma lor_ones_bit k : 0 <= k -> Z.lor (2 ^ k - 1) (Z.shiftl 1 k) = 2 ^ (k + 1) - 1.
Proof.
  intros Hk. rewrite Z.shiftl_1_l.
  assert (Ho : forall n, 2 ^ n - 1 = Z.ones n) by (intros n; rewrite Z.ones_equiv; lia). rewrite !Ho.
  apply Z.bits_inj'. intros i Hi.
  rewrite Z.lor_spec, Z.pow2_bits_eqb by lia. destruct (Z.ltb_spec i k).
  - rewrite !Z.ones_spec_low by lia. done.
  - rewrite (Z.ones_spec_high k) by lia. destruct (Z.eqb_spec k i); [rewrite Z.ones_spec_low by lia; done|].
    rewrite Z.ones_spec_high by lia. done.
Qed.

Lemma collect_keys_spec keys n k m : Z.of_nat k + zlen keys <= n -> n <= 64 ->
  exists m', collect_keys n (imap (fun i pk => mkKnotary pk (u8 (Z.of_nat (k + i)))) keys) (2 ^ Z.of_nat k - 1) m =
      Some (2 ^ (Z.of_nat k + zlen keys) - 1, m') /\
    forall j, m' !! j = if decide (Z.of_nat k <= j < Z.of_nat k + zlen keys) then keys !! Z.to_nat (j - Z.of_nat k) else m !! j.
Proof.
  revert k m. induction keys as [|pk keys IH]; intros k m Hn H64.
  - exists m. rewrite zlen_nil, Z.add_0_r. split; [done|]. intros j. by rewrite decide_False by lia.
  - rewrite zlen_cons in *. pose proof (zlen_nonneg keys). cbn [imap collect_keys notaryid kn_pubkey].
    rewrite Nat.add_0_r, u8_id by (unfold is_u8; lia).
    rewrite (proj2 (Z.ltb_lt _ n)), (proj2 (Z.ltb_lt _ 64)) by lia.
    rewrite lor_ones_bit by lia. replace (Z.of_nat k + 1) with (Z.of_nat (S k)) by lia.
    destruct (IH (S k) (<[Z.of_nat k:=pk]> m) ltac:(lia) H64) as (m' & Heq & Hm).
    exists m'. split.
    + replace (Z.of_nat k + (1 + zlen keys)) with (Z.of_nat (S k) + zlen keys) by lia. rewrite <- Heq.
      f_equal. apply imap_ext. intros i x _. cbn. by rewrite Nat.add_succ_r.
    + intros j. rewrite Hm. destruct (decide (j = Z.of_nat k)) as [->|].
      * rewrite decide_False, decide_True by lia. rewrite lookup_insert_eq. by rewrite Z.sub_diag.
      * rewrite lookup_insert_ne by done.
        destruct (decide (Z.of_nat (S k) <= j < Z.of_nat (S k) + zlen keys)).
        -- rewrite decide_True by lia. replace (Z.to_nat (j - Z.of_nat k)) with (S (Z.to_nat (j - Z.of_nat (S k)))) by lia. done.
        -- rewrite decide_False by lia. done.
Qed.

Lemma key_map_lookup keys j : key_map keys !! j = if decide (0 <= j < zlen keys) then keys !! Z.to_nat j else None.
Proof.
  unfold key_map. set (f := fun (i : nat) (k : bytes) => (Z.of_nat i, k)).
  assert (Hnd : NoDup (imap f keys).*1).
  { replace ((imap f keys).*1) with (Z.of_nat <$> seq 0 (length keys)); [apply NoDup_fmap_2; [intros ???; lia|apply NoDup_seq]|].
    apply list_eq. intros i. rewrite !list_lookup_fmap, list_lookup_imap. destruct (keys !! i) as [x|] eqn:E.
    - pose proof (lookup_lt_Some _ _ _ E). rewrite lookup_seq_lt by done. done.
    - apply lookup_ge_None in E. rewrite lookup_seq_ge by done. done. }
  destruct (decide (0 <= j < zlen keys)) as [Hj|Hj].
  - destruct (lookup_lt_is_Some_2 keys (Z.to_nat j)) as [x Hx]; [unfold zlen in Hj; lia|]. rewrite Hx.
    apply elem_of_list_to_map_1; [done|]. apply list_elem_of_lookup. exists (Z.to_nat j).
    rewrite list_lookup_imap, Hx. unfold f. cbn. by rewrite Z2Nat.id by lia.
  - apply not_elem_of_list_to_map_1. intros (x & Hx & Hin)%list_elem_of_fmap.
    apply list_elem_of_lookup in Hin as (i & Hi). rewrite list_lookup_imap in Hi.
    destruct (keys !! i) eqn:E; [|done]. injection Hi as <-. cbn in Hx. subst j.
    pose proof (lookup_lt_Some _ _ _ E). unfold zlen in Hj. lia.
Qed.

Lemma collect_notary_entries keys : zlen keys <= 64 ->
  collect_keys (zlen keys) (notary_entries keys) 0 ∅ = Some (2 ^ zlen keys - 1, key_map keys).
Proof.
  intros H. destruct (collect_keys_spec keys (zlen keys) 0 ∅ ltac:(lia) H) as (m' & Heq & Hm).
  change (2 ^ Z.of_nat 0 - 1) with 0 in Heq. cbn [Nat.add] in Heq. unfold notary_entries. rewrite Heq. do 2 f_equal.
  apply map_eq. intros j. rewrite Hm, key_map_lookup. replace (j - Z.of_nat 0) with j by lia.
  replace (Z.of_nat 0 + zlen keys) with (zlen keys) by lia. change (Z.of_nat 0) with 0.
  destruct (decide _); [done|apply lookup_empty].
Qed.

(** The position of the first key equal to [pk], or -1. *)
Definition first_position (keys : list bytes) (pk : bytes) : Z :=
  match list_find (fun k => pk = k) keys with Some (i, _) => Z.of_nat i | None => -1 end.

Lemma find_notary_spec keys pk i l fuel : keys = take i keys ++ l -> (i <= length keys)%nat -> (length l <= fuel)%nat ->
  find_notary fuel (Z.of_nat i) (zlen keys) pk (key_map keys) =
    Some (match list_find (fun k => pk = k) l with Some (j, _) => Z.of_nat (i + j) | None => -1 end).
Proof.
  revert i l. induction fuel as [|fuel IH]; intros i l Hl Hi Hf.
  - destruct l; [done|cbn in Hf; lia].
  - cbn [find_notary]. destruct l as [|k l].
    + rewrite app_nil_r in Hl. assert (length keys <= i)%nat by (rewrite Hl, length_take; lia).
      rewrite (proj2 (Z.ltb_ge _ _)) by (unfold zlen; lia). done.
    + assert (Hk : keys !! i = Some k).
      { rewrite Hl. rewrite lookup_app_r by (rewrite length_take; lia). by rewrite length_take, Nat.min_l, Nat.sub_diag by lia. }
      pose proof (lookup_lt_Some _ _ _ Hk). rewrite (proj2 (Z.ltb_lt _ _)) by (unfold zlen; lia).
      rewrite key_map_lookup, decide_True, Nat2Z.id, Hk by (unfold zlen; lia). cbn [mbind option_bind].
      cbn [list_find]. destruct (decide (pk = k)) as [->|Hne].
      * rewrite bool_decide_eq_true_2 by done. by rewrite Nat.add_0_r.
      * rewrite bool_decide_eq_false_2 by done. replace (Z.of_nat i + 1) with (Z.of_nat (S i)) by lia.
        rewrite (IH (S i) l); [|by rewrite (take_S_r _ _ _ Hk), <- app_assoc|lia|cbn in Hf; lia].
        destruct (list_find _ l) as [[j x]|]; [|done]. cbn. f_equal. lia.
Qed.

Lemma key_index_spec keys pk : key_index (zlen keys) pk (key_map keys) = Some (first_position keys pk).
Proof. unfold key_index. apply (find_notary_spec keys pk 0 keys); [done|lia|unfold zlen; lia]. Qed.

Lemma first_position_range keys pk : -1 <= first_position keys pk < zlen keys.
Proof.
  unfold first_position. destruct (list_find _ keys) as [[i k]|] eqn:E; [|pose proof (zlen_nonneg keys); lia].
  apply list_find_Some in E as (E & _). apply lookup_lt_Some in E. unfold zlen. lia.
Qed.

Lemma first_position_spec keys pk i : first_position keys pk = i -> 0 <= i -> keys !! Z.to_nat i = Some pk.
Proof.
  unfold first_position. destruct (list_find _ keys) as [[j k]|] eqn:E; [|lia]. intros <- _.
  apply list_find_Some in E as (E & <- & _). by rewrite Nat2Z.id.
Qed.

(** The height an election at [o] takes effect: the next multiple of the gap that
    is at least half a gap away. *)
Definition takes_effect (o : Z) : Z := if o <=? 0 then 0 else 2000 * ((o + 1000) / 2000 + 1).

(** The election in force at a height: the last one that took effect by then. *)
Definition in_force (evs : list (Z * list bytes)) (h : Z) : option (Z * list bytes) :=
  list.last (filter (fun ev => takes_effect ev.1 <= h) evs).

Lemma takes_effect_era o h : 0 <= h < SQUISHY_NOTARIES_HARDCODED -> era_start o <= ht_index_from_height h <-> takes_effect o <= h.
Proof.
  unfold SQUISHY_NOTARIES_HARDCODED, takes_effect, era_start, ht_index_from_height, SQUISHY_MAXBLOCKS, SQUISHY_ELECTION_GAP. intros Hh.
  change (2000 / 2) with 1000. change (250000 / 2000) with 125. rewrite Z.gtb_ltb, Z.leb_antisym, !Z.geb_leb, (Z.quot_div_nonneg h) by lia.
  assert (h / 2000 < 125) by (apply Z.div_lt_upper_bound; lia). rewrite (proj2 (Z.leb_gt 125 (h / 2000))) by lia.
  destruct (Z.ltb_spec 0 o); cbn [negb]; [|pose proof (Z.div_pos h 2000); lia].
  rewrite (Z.quot_div_nonneg (o + 1000)), Z.quot_mul by lia.
  pose proof (Z.div_mod h 2000 ltac:(lia)). pose proof (Z.mod_pos_bound h 2000 ltac:(lia)).
  destruct (Z.leb_spec 125 ((o + 1000) / 2000 + 1)); lia.
Qed.

Lemma in_force_at evs h : 0 <= h < SQUISHY_NOTARIES_HARDCODED -> in_force evs h = in_force_era evs (ht_index_from_height h).
Proof.
  intros Hh. unfold in_force, in_force_era. f_equal. apply list_filter_iff. intros ev. symmetry. by apply takes_effect_era.
Qed.

(** ** Properties *)

(** C24: on the main chain below height 180000 the notaries at a height are those
    of the election in force: after any sequence of elections at heights that do
    not decrease (the one of the genesis block first), [squishy_notaries]
    returns their number and exactly their keys, no key uninitialised, and
    [squishy_electednotary] the position of a given key among them. *)
Theorem notaries_in_force (elected staked : Z -> list bytes) (genesis : list (string * bytes)) (objs : store)
  (chain : list (option Z)) (evs : list (Z * list bytes)) (ev : Z * list bytes) (h t : Z) (pk : bytes)
  (Hord : in_order 0 evs) (Hnum : Forall (fun e => zlen e.2 <= 64) evs) (Hh : 0 <= h < SQUISHY_NOTARIES_HARDCODED)
  (Hev : in_force evs h = Some ev) :
  exists st, run_elections evs notary_start = Some st /\
    squishy_notaries "" elected staked genesis objs chain h t st = Some (zlen ev.2, key_map ev.2, st) /\
    (forall i, 0 <= i < zlen ev.2 -> key_map ev.2 !! i = ev.2 !! Z.to_nat i) /\
    squishy_electednotary "" elected staked genesis objs chain pk h t st = Some (first_position ev.2 pk, zlen ev.2, st).
Proof.
  rewrite in_force_at in Hev by done. destruct (run_elections_spec evs notary_start eq_refl eq_refl Hord) as (st & Hrun & _ & _ & _ & Hlen & Htab).
  pose proof (ht_index_range h ltac:(lia)) as Hidx. rewrite <- (Z2Nat.id (ht_index_from_height h)) in Hev by lia.
  destruct (Htab (Z.to_nat (ht_index_from_height h)) ev ltac:(unfold ERAS; lia) Hev) as (tab & Ht & Hentry).
  assert (Hle : zlen ev.2 <= 64).
  { unfold in_force_era in Hev. apply last_Some_elem_of in Hev. apply list_elem_of_filter in Hev as [_ Hin].
    rewrite Forall_forall in Hnum. by apply Hnum. }
  assert (Hnot : squishy_notaries "" elected staked genesis objs chain h t st = Some (zlen ev.2, key_map ev.2, st)).
  { unfold squishy_notaries. cbn [isKMD String.eqb is_STAKED String.prefix Z.eqb mbind option_bind orb].
    change (isKMD "") with true. change (is_STAKED "" =? 0) with true. cbn iota.
    unfold SQUISHY_NOTARIES_HARDCODED in *. rewrite Z.geb_leb, (proj2 (Z.leb_gt _ _)) by lia. cbn [Z.eqb negb].
    unfold elected_notaries. rewrite Ht. cbn [mbind option_bind]. unfold pubkeys_at. rewrite Ht. cbn [mbind option_bind].
    rewrite (proj2 (Z.ltb_ge _ 0)) by lia. rewrite Hentry. cbn [mbind option_bind numnotaries Notaries].
    rewrite collect_notary_entries by done. cbn [mbind option_bind fst snd].
    destruct (Z.ltb_spec (zlen ev.2) 64).
    - rewrite Z.shiftl_1_l, Z.eqb_refl. done.
    - replace (zlen ev.2) with 64 by lia. done. }
  exists st. split_and!; [done|done| |].
  - intros i Hi. by rewrite key_map_lookup, decide_True by done.
  - unfold squishy_electednotary. rewrite Hnot. cbn [mbind option_bind]. rewrite key_index_spec. done.
Qed.

Lemma notaries_in_force_witness :
  exists st, run_elections [(0, [[2; 1]; [3; 7]]); (3000, [[2; 2]])] notary_start = Some st /\
    squishy_electednotary "" (fun _ => []) (fun _ => []) [] ∅ [] [3; 7] 5999 0 st = Some (1, 2, st) /\
    squishy_electednotary "" (fun _ => []) (fun _ => []) [] ∅ [] [2; 2] 6000 0 st = Some (0, 1, st).
Proof.
  destruct (notaries_in_force (fun _ => []) (fun _ => []) [] ∅ [] [(0, [[2; 1]; [3; 7]]); (3000, [[2; 2]])]
    (0, [[2; 1]; [3; 7]]) 5999 0 [3; 7]) as (st & H1 & _ & _ & H2); [..|].
  all: try (vm_compute; (reflexivity || (split; congruence) || (repeat split; congruence))); try (repeat constructor; vm_compute; congruence).
  destruct (notaries_in_force (fun _ => []) (fun _ => []) [] ∅ [] [(0, [[2; 1]; [3; 7]]); (3000, [[2; 2]])]
    (3000, [[2; 2]]) 6000 0 [2; 2]) as (st' & H1' & _ & _ & H2'); [..|].
  all: try (vm_compute; (reflexivity || (split; congruence) || (repeat split; congruence))); try (repeat constructor; vm_compute; congruence).
  rewrite H1 in H1'. injection H1' as <-. exists st. split; [exact H1|]. split; [exact H2|exact H2'].
Defined.
