(* ===== verification/Pow.v ===== *)
(** * The difficulty of the next block (src/src/pow.cpp)

    The moving average of [CalculateNextWorkRequired] and the adaptive rules of
    asset chains in [GetNextWorkRequired].  Arithmetic on [int] and [int64_t]
    that overflows is taken to wrap around; [None] is a division by zero, a null
    pointer or an index outside of an array. *)
From S2P Require Import Prelude Serialize Arith256 BlockIndex.
From stdpp Require Import sorting.
#[local] Open Scope Z_scope.

Definition SQUISHY_MINDIFF_NBITS : Z := 0x200f0f0f.

(** The consensus parameters of this file (src/src/consensus/params.h). *)
Record pow_params := mkPowParams {
  powLimit : bytes;
  powAlternate : bytes;
  nHF22Height : option Z;
  nHF22NotariesPriorityRotateDelta : Z;
  nPowAveragingWindow : Z;
  nPowMaxAdjustDown : Z;
  nPowMaxAdjustUp : Z;
  nPowTargetSpacing : Z;
  nMaxFutureBlockTime : Z
}.

Definition AveragingWindowTimespan (params : pow_params) : Z :=
  i64 (nPowAveragingWindow params * nPowTargetSpacing params).
Definition MinActualTimespan (params : pow_params) : Z :=
  Z.quot (i64 (AveragingWindowTimespan params * i64 (100 - nPowMaxAdjustUp params))) 100.
Definition MaxActualTimespan (params : pow_params) : Z :=
  Z.quot (i64 (AveragingWindowTimespan params * i64 (100 + nPowMaxAdjustDown params))) 100.

(** [ASSETCHAINS_ALGO == ASSETCHAINS_EQUIHASH], [ASSETCHAINS_ADAPTIVEPOW],
    [ASSETCHAINS_BLOCKTIME], [ASSETCHAINS_STAKED]. *)
Record chain_globals := mkGlobals { equihash : bool; ADAPTIVEPOW : Z; BLOCKTIME : Z; STAKED : Z }.

(** [arith_uint256(b)] of a signed integer. *)
Definition arith (b : Z) : base_uint := bu_of_u64 (u64 b).
(** Signed division. *)
Definition quot (a b : Z) : option Z := if b =? 0 then None else Some (Z.quot a b).
Definition lt256 (a b : base_uint) : bool := CompareTo a b <? 0.
Definition gt256 (a b : base_uint) : bool := CompareTo a b >? 0.

Definition K : Z := 1000000.

(** [nbits] without its two flag bits *)
Definition clear_flags (nbits : Z) : Z := Z.land nbits 0xfffffffc.

Section Pow.
Variables (G : chain_globals) (params : pow_params).
Let T := BLOCKTIME G.

Definition bnLimit : base_uint := UintToArith256 (if equihash G then powLimit params else powAlternate params).

(** ** The simple moving average *)

Definition CalculateNextWorkRequired (bnAvg : base_uint) (nLastBlockTime nFirstBlockTime : Z) : option Z :=
  let nActualTimespan := i64 (nLastBlockTime - nFirstBlockTime) in
  let W := AveragingWindowTimespan params in
  let nActualTimespan := i64 (W + Z.quot (i64 (nActualTimespan - W)) 4) in
  let nActualTimespan :=
    if ADAPTIVEPOW G <=? 0 then
      let t := if nActualTimespan <? MinActualTimespan params then MinActualTimespan params else nActualTimespan in
      if t >? MaxActualTimespan params then MaxActualTimespan params else t
    else nActualTimespan in
  bnNew ← bu_div bnAvg (arith W);
  (* [operator*=(uint32_t)] is the better match for an [int64_t] *)
  let bnNew := bu_mul32 bnNew (u32 nActualTimespan) in
  let bnNew := if gt256 bnNew bnLimit then bnLimit else bnNew in
  GetCompact bnNew false.

(** ** The adaptive rules *)

Definition RT_CST_RST_outer (nTime : Z) (bnTarget : base_uint) (ts : list Z) (ct : list base_uint) (numerator denominator : Z) (W : nat)
    : option base_uint :=
  mintarget ← bu_div bnTarget (arith 2);
  cmpval ← quot (i32 (T * numerator)) denominator;
  let cmpval := if cmpval <? 2 then 2 else cmpval in
  ts0 ← ts !! 0%nat; tsW ← ts !! W; ct0 ← ct !! 0%nat;
  if u32 (ts0 - tsW) <? u32 cmpval then
    outerK ← quot (i64 (i64 (i64 (K * u32 (nTime - ts0)) * u32 (ts0 - tsW)) * denominator)) (i32 (numerator * i32 (T * T)));
    bnTarget ← (if outerK <? K then q ← bu_div ct0 (arith K); Some (bu_mul q (arith outerK)) else Some bnTarget);
    Some (if gt256 bnTarget mintarget then mintarget else bnTarget)
  else Some bnTarget.

(** The sum of [ct[1..width-1]] onto [ct[0]]. *)
Definition sum_targets (ct : list base_uint) (width : nat) : option base_uint :=
  match take width ct with
  | [] => head ct
  | c :: l => if (length ct <? width)%nat then None else Some (fold_left bu_add l c)
  end.

Definition RT_CST_RST_target (nTime : Z) (ts : list Z) (ct : list base_uint) (width : nat) : option base_uint :=
  bnTarget ← sum_targets ct width;
  bnTarget ← bu_div bnTarget (arith (i64 (Z.of_nat width * K)));
  ts0 ← ts !! 0%nat; tsw ← ts !! width;
  innerK ← quot (i64 (i64 (K * u32 (nTime - ts0)) * u32 (ts0 - tsw))) (i32 (i32 (Z.of_nat width * T) * T));
  Some (bu_mul bnTarget (arith innerK)).

Definition RT_CST_RST_inner (nTime : Z) (bnTarget : base_uint) (ts : list Z) (ct : list base_uint) (W outeri : nat) : option base_uint :=
  let width := (outeri + W)%nat in
  let expected := i32 ((Z.of_nat width + 1) * T) in
  ts0 ← ts !! 0%nat; tsw ← ts !! width;
  if i32 (ts0 - tsw) <? expected then
    q ← bu_div bnTarget (arith 101);
    let mintarget := bu_mul q (arith 100) in
    t ← RT_CST_RST_target nTime ts ct W;
    Some (if bool_decide (t = bnTarget) then mintarget else t)
  else Some bnTarget.

Definition zawy_targetMA (easy bnSum : base_uint) (num numerator divisor : Z) : option base_uint :=
  bnSum ← bu_div bnSum (arith (i32 (i32 (i32 (T * num) * num) * divisor)));
  let bnSum := bu_mul bnSum (arith numerator) in
  Some (if gt256 bnSum easy then easy else bnSum).

Definition zawy_exponential_val360000 (num : Z) : option Z :=
  n ← quot num T;
  let A := Nat.iter (Z.to_nat n) (fun A => i64 (A * 3)) 1 in
  let modval := Z.rem num T in
  B ← (if negb (modval =? 0) then
         b1 ← quot (i32 (396000 * modval)) T;
         b2 ← quot (i32 (i32 (216000 * modval) * modval)) (i32 (T * T));
         Some (i64 (i64 (360000 + b1) + b2))
       else Some 360000);
  Some (i64 (A * B)).

Definition zawy_exponential (bnTarget : base_uint) (mult : Z) : option base_uint :=
  bnTarget ← bu_div bnTarget (arith 360000);
  v ← zawy_exponential_val360000 mult;
  Some (bu_mul bnTarget (arith v)).

Definition zawy_ctB (bnTarget : base_uint) (solvetime : Z) : option base_uint :=
  num ← quot (i64 (i64 (i64 (1000 * solvetime) * solvetime) * 1000)) (i32 (i32 (T * T) * 784));
  if num >? 1 then
    bnTarget ← bu_div bnTarget (arith 1000);
    Some (bu_mul bnTarget (arith num))
  else Some bnTarget.

Definition zawy_TSA_EMA (tipdiff : Z) (prevTarget : base_uint) : option base_uint :=
  let tipdiff := if tipdiff <? 4 then 4 else tipdiff in
  let tipdiff := Z.land tipdiff (Z.lnot 1) in
  bnTarget ← bu_div prevTarget (arith (i64 (K * T)));
  q ← bu_div bnTarget (arith 360000);
  v ← zawy_exponential_val360000 (Z.quot tipdiff 2);
  let A := bu_mul bnTarget (arith T) in
  let B := bu_mul q (arith (i64 (tipdiff * v))) in
  let C := bu_mul q (arith (i64 (T * v))) in
  r ← bu_div (bu_sub (bu_add A B) C) (arith tipdiff);
  Some (bu_mul r (arith (i64 (K * T)))).

(** The next wider trigger is tried as long as the target did not drop. *)
Fixpoint outer_triggers (nTime : Z) (origtarget : base_uint) (ts : list Z) (ct : list base_uint)
    (triggers : list (Z * Z * nat)) (bnTarget : base_uint) : option (base_uint * Z) :=
  match triggers with
  | [] => Some (bnTarget, 0)
  | (numerator, denominator, W) :: l =>
    bnTarget ← RT_CST_RST_outer nTime origtarget ts ct numerator denominator W;
    if lt256 bnTarget origtarget then Some (bnTarget, 2) else outer_triggers nTime origtarget ts ct l bnTarget
  end.

(** The trigger of one block depends on the block time; below 60 seconds there
    is none, and the comparison that follows sees the unchanged target. *)
Definition first_trigger : list (Z * Z * nat) :=
  if (T >=? 60) && (T <? 100) then [(1, 60, 1%nat)] else if T >=? 100 then [(1, 100, 1%nat)] else [].

Definition RST_triggers : list (Z * Z * nat) :=
  first_trigger ++ [(15, 100, 2%nat); (1, 2, 3%nat); (7, 3, 6%nat); (12, 7, 12%nat)].

(** [for (i=0; i<50; i++) if ( zflags[i] == 2 ) break;] *)
Fixpoint find_flag2 (fuel i : nat) (zflags : list Z) : nat :=
  match fuel, zflags with
  | S fuel, z :: zflags => if z =? 2 then i else find_flag2 fuel (S i) zflags
  | _, _ => i
  end.

(** One of the five steps: taken when the trigger is recent, and kept when it
    lowers the target; the first step compares with [origtarget], which is the
    target it starts from. *)
Definition inner_step (nTime : Z) (ts : list Z) (ct : list base_uint) (i : nat) (bnTarget : base_uint) (s : nat * nat) : option base_uint :=
  if (i <? s.1)%nat then
    bnTarget2 ← RT_CST_RST_inner nTime bnTarget ts ct s.2 i;
    Some (if lt256 bnTarget2 bnTarget then bnTarget2 else bnTarget)
  else Some bnTarget.

Fixpoint inner_steps (nTime : Z) (ts : list Z) (ct : list base_uint) (i : nat) (steps : list (nat * nat)) (bnTarget : base_uint)
    : option base_uint :=
  match steps with
  | [] => Some bnTarget
  | s :: l => bnTarget ← inner_step nTime ts ct i bnTarget s; inner_steps nTime ts ct i l bnTarget
  end.

Definition RST_steps : list (nat * nat) := [(10, 1); (20, 2); (30, 3); (40, 6); (50, 12)]%nat.

(** The target and [zawyflag]. *)
Definition rst_target (nTime : Z) (zflags ts : list Z) (ct : list base_uint) (origtarget : base_uint) : option (base_uint * Z) :=
  z0 ← zflags !! 0%nat;
  if (z0 =? 0) || (z0 =? 3) then outer_triggers nTime origtarget ts ct RST_triggers origtarget
  else
    let i := find_flag2 50 0 zflags in
    bnTarget ← inner_steps nTime ts ct i RST_steps origtarget;
    Some (bnTarget, if bool_decide (bnTarget = origtarget) then 0 else 1).

(** ** The next difficulty *)

Section Chain.
Variable objs : store.

(** The first 64 blocks back from [pindexFirst], and where the walk stopped. *)
Fixpoint last_blocks (n : nat) (pindexFirst : option Z) : option (list CBlockIndex * option Z) :=
  match n, pindexFirst with
  | S n, Some p =>
    b ← objs !! p;
    r ← last_blocks n (pprev b);
    Some (b :: r.1, r.2)
  | _, _ => Some ([], pindexFirst)
  end.

Definition pad {A} (n : nat) (d : A) (l : list A) : list A := l ++ repeat d (n - length l).

(** [for (i=0; pindexFirst != 0 && i<63; i++)]: targets of flagged blocks. *)
Fixpoint adjust_ct (zflags ts : list Z) (ct : list base_uint) : option (list base_uint) :=
  match zflags, ts, ct with
  | z :: zflags, t :: (t' :: _) as ts, c :: ct =>
    c ← (if (z =? 1) || (z =? 2) then zawy_ctB c (u32 (t - t')) else Some c);
    l ← adjust_ct zflags ts ct;
    Some (c :: l)
  | _, _, _ => Some ct
  end.

(** [for (i = 0; pindexFirst && i < params.nPowAveragingWindow; i++)]: the
    total, [mult] and where the walk stopped. *)
Fixpoint window_loop (n : nat) (i : Z) (pindexFirst : option Z) (adaptive : option Z) (zflags : list Z) (mult : Z) (bnTot : base_uint)
    : option (base_uint * Z * option Z) :=
  match n, pindexFirst with
  | S n, Some p =>
    b ← objs !! p;
    let bnTmp := (SetCompact (bi_nBits b)).1.1 in
    match adaptive with
    | None => window_loop n (i + 1) (pprev b) adaptive zflags mult (bu_add bnTot bnTmp)
    | Some nTime =>
      let diff := i32 (nTime - bi_nTime b) in
      let mult := if i <? 6 then (let diff := i32 (diff - i32 ((8 + i) * T)) in if diff >? mult then diff else mult) else mult in
      z ← zflags !! Z.to_nat i; z0 ← zflags !! 0%nat;
      bnTmp ← (if negb (z =? 0) && (z0 =? 0) then q ← bu_div bnTmp (arith 8); Some (bu_mul q (arith 7)) else Some bnTmp);
      window_loop n (i + 1) (pprev b) adaptive zflags mult (bu_add bnTot bnTmp)
    end
  | _, _ => Some (bnTot, mult, pindexFirst)
  end.

(** The arrays of the adaptive rules, [mult] and [tipdiff]. *)
Record zawy := mkZawy { zflags : list Z; z_ts : list Z; z_ct : list base_uint; z_mult : Z; z_tipdiff : Z }.

Definition no_zawy : zawy := mkZawy (repeat 0 64) (repeat 0 64) (repeat bu_zero 64) 0 0.

Definition load_zawy (last : Z) (nTime : Z) : option zawy :=
  b ← objs !! last;
  let tipdiff := i32 (nTime - bi_nTime b) in
  let mult := i32 (tipdiff - i32 (7 * T)) in
  r ← last_blocks 64 (Some last);
  let flags := pad 64 0 (map (fun b => Z.land (bi_nBits b) 3) r.1) in
  let ts := pad 64 0 (map bi_nTime r.1) in
  let ct := pad 64 bu_zero (map (fun b => (SetCompact (bi_nBits b)).1.1) r.1) in
  ct ← (match r.2 with Some _ => adjust_ct flags ts ct | None => Some ct end);
  Some (mkZawy flags ts ct mult tipdiff).

(** [nTime]: [pblock->nTime], [None] where [pblock] is null. *)
Definition adaptive_bits (height : Z) (nTime : option Z) (z : zawy) (nbits : Z) : option Z :=
  let bnTarget := (SetCompact nbits).1.1 in
  let finish (bnTarget : base_uint) (zawyflag : Z) :=
    nbits ← GetCompact bnTarget false; Some (Z.lor (clear_flags nbits) zawyflag) in
  match nTime with
  | Some t =>
    if (height >? 64) && (z_tipdiff z >? 0) then
      let easy := (SetCompact (Z.land SQUISHY_MINDIFF_NBITS (Z.lnot 3))).1.1 in
      r ← rst_target t (zflags z) (z_ts z) (z_ct z) bnTarget;
      let '(bnTarget, zawyflag) := r in
      if z_mult z >? 1 then
        bnNew ← zawy_exponential bnTarget (z_mult z);
        if lt256 bnNew bnTarget || gt256 bnNew easy then Some (Z.land SQUISHY_MINDIFF_NBITS (Z.lnot 3))
        else finish bnNew zawyflag
      else finish bnTarget zawyflag
    else finish bnTarget 0
  | None => finish bnTarget 0
  end.

Definition GetNextWorkRequired (pindexLast : option Z) (nTime : option Z) : option Z :=
  nProofOfWorkLimit ← GetCompact bnLimit false;
  match pindexLast with
  | None => Some nProofOfWorkLimit
  | Some last =>
    b ← objs !! last;
    let height := i32 (nHeight b + 1) in
    let adaptive := if ADAPTIVEPOW G >? 0 then nTime else None in
    z ← (match adaptive with
         | Some t => if height >=? 64 then load_zawy last t else Some no_zawy
         | None => Some no_zawy
         end);
    match adaptive with
    | Some _ =>
      if (height >=? 64) && (ADAPTIVEPOW G =? 2) then
        ct0 ← z_ct z !! 0%nat;
        bnTarget ← zawy_TSA_EMA (z_tipdiff z) ct0;
        nbits ← GetCompact bnTarget false;
        Some (clear_flags nbits)
      else
        r ← window_loop (Z.to_nat (nPowAveragingWindow params)) 0 (Some last) adaptive (zflags z) (z_mult z) bu_zero;
        let '(bnTot, mult, pindexFirst) := r in
        match pindexFirst with
        | None => Some nProofOfWorkLimit
        | Some first =>
          bnAvg ← bu_div bnTot (arith (nPowAveragingWindow params));
          t1 ← GetMedianTimePast objs last; t0 ← GetMedianTimePast objs first;
          nbits ← CalculateNextWorkRequired bnAvg t1 t0;
          adaptive_bits height nTime (mkZawy (zflags z) (z_ts z) (z_ct z) mult (z_tipdiff z)) nbits
        end
    | None =>
      r ← window_loop (Z.to_nat (nPowAveragingWindow params)) 0 (Some last) None (zflags z) (z_mult z) bu_zero;
      let '(bnTot, mult, pindexFirst) := r in
      match pindexFirst with
      | None => Some nProofOfWorkLimit
      | Some first =>
        bnAvg ← bu_div bnTot (arith (nPowAveragingWindow params));
        t1 ← GetMedianTimePast objs last; t0 ← GetMedianTimePast objs first;
        nbits ← CalculateNextWorkRequired bnAvg t1 t0;
        if ADAPTIVEPOW G >? 0 then adaptive_bits height nTime z nbits else Some nbits
      end
    end
  end.
End Chain.
End Pow.

(** ** Facts: 256-bit targets *)

Create HintDb targets.

Lemma arith_spec b : bu_wf (arith b) /\ bu_val (arith b) = u64 b.
Proof. destruct (bu_val_of_u64 (u64 b)) as [H1 H2]; [apply u64_range|]. done. Qed.

Lemma arith_wf b : bu_wf (arith b).
Proof. apply arith_spec. Qed.

Lemma bu_mul32_val l b : bu_wf l -> is_u32 b ->
  bu_val (bu_mul32 l b) = (b * bu_val l) mod 2 ^ 256 /\ bu_wf (bu_mul32 l b).
Proof.
  intros [Hl Hf] Hb. destruct (mul32_loop_val 0 b l Hf Hb zero_u32) as (Hv & Hf' & Hl').
  split; [unfold bu_mul32; rewrite Hv, Hl; done|]. split; [|done]. unfold bu_mul32. by rewrite Hl'.
Qed.

Lemma bu_mul_wf a b : bu_wf a -> bu_wf b -> bu_wf (bu_mul a b).
Proof. intros Ha Hb. apply (bu_mul_val a b Ha Hb). Qed.

Lemma bu_add_wf a b : bu_wf a -> bu_wf b -> bu_wf (bu_add a b).
Proof. intros Ha Hb. apply (bu_add_val a b Ha Hb). Qed.

Lemma SetCompact_wf c : is_u32 c -> bu_wf (SetCompact c).1.1.
Proof. intros Hc. pose proof (SetCompact_spec c Hc) as H. destruct (SetCompact c) as [[t n] o]. apply H. Qed.

#[export] Hint Resolve arith_wf bu_mul_wf bu_add_wf bu_zero_wf SetCompact_wf : targets.

(** A division by a constant that is not zero. *)
Lemma bu_div_arith a b : bu_wf a -> u64 b <> 0 ->
  exists q, bu_div a (arith b) = Some q /\ bu_wf q /\ bu_val q = bu_val a / u64 b.
Proof.
  intros Ha Hb. destruct (arith_spec b) as [Hw Hv]. pose proof (bu_div_val a (arith b) Ha Hw) as H.
  destruct (bu_div a (arith b)) as [q|]; rewrite Hv in H; [|done]. exists q. naive_solver.
Qed.

Lemma lt256_spec a b : bu_wf a -> bu_wf b -> lt256 a b = (bu_val a <? bu_val b).
Proof.
  intros Ha Hb. unfold lt256. rewrite (CompareTo_spec a b Ha Hb). unfold Z.ltb.
  destruct (bu_val a ?= bu_val b); done.
Qed.

Lemma gt256_spec a b : bu_wf a -> bu_wf b -> gt256 a b = (bu_val b <? bu_val a).
Proof.
  intros Ha Hb. unfold gt256. rewrite (CompareTo_spec a b Ha Hb). unfold Z.ltb. rewrite (Z.compare_antisym (bu_val b)).
  destruct (bu_val b ?= bu_val a); done.
Qed.

Lemma UintToArith256_loop_spec n l : is_bytes l -> length l = (4 * n)%nat ->
  length (UintToArith256_loop n l) = n /\ Forall is_u32 (UintToArith256_loop n l).
Proof.
  revert l. induction n as [|n IH]; intros l Hl Hlen; [done|]. cbn [UintToArith256_loop].
  destruct (IH (drop 4 l)) as [H1 H2]; [by apply is_bytes_drop|rewrite length_drop; lia|].
  split; [cbn; lia|]. constructor; [|done].
  pose proof (le_value_range (take 4 l) (is_bytes_take _ _ Hl)) as Hr. rewrite length_take in Hr.
  replace (Nat.min 4 (length l)) with 4%nat in Hr by lia. unfold is_u32. lia.
Qed.

Lemma UintToArith256_wf l : is_bytes l -> length l = 32%nat -> bu_wf (UintToArith256 l).
Proof. intros Hl Hlen. by destruct (UintToArith256_loop_spec WIDTH l Hl Hlen). Qed.

(** A compact word of a number at most [m] decodes to a target at most [m]. *)
Lemma compact_of_decodes v m : 0 <= v <= m -> m < 2 ^ 256 ->
  let '(t, neg, ovf) := SetCompact (compact_of v) in
  bu_wf t /\ neg = false /\ ovf = false /\ bu_val t <= m /\ bu_val t = compact_value (compact_of v).
Proof.
  intros Hv Hm. destruct (compact_of_shape v ltac:(lia)) as [Hu Ht].
  destruct (compact_of_round v ltac:(lia)) as (Hle & _ & _).
  pose proof (compact_value_nonneg (compact_of v) ltac:(unfold is_u32 in Hu; lia)) as Hn.
  pose proof (SetCompact_spec _ Hu) as H. destruct (SetCompact (compact_of v)) as [[t neg] ovf].
  destruct H as (Hw & Hval & Ho & Hneg). rewrite Z.mod_small in Hval by lia. split_and!; try done.
  - destruct neg; [|done]. destruct Hneg as [[Hb _] _]; [done|congruence].
  - rewrite Ho. apply Z.leb_gt. lia.
  - lia.
Qed.

(** ** Facts: the moving average *)

(** The parameters of a chain: a window and a spacing that fit their types, an
    adjustment of at most 100 percent up, and limits of 32 bytes. *)
Record params_ok (params : pow_params) : Prop := {
  ok_limit : is_bytes (powLimit params) /\ length (powLimit params) = 32%nat;
  ok_alternate : is_bytes (powAlternate params) /\ length (powAlternate params) = 32%nat;
  ok_window : 0 < nPowAveragingWindow params <= 64;
  ok_spacing : 0 < nPowTargetSpacing params < 2 ^ 20;
  ok_up : 0 <= nPowMaxAdjustUp params <= 100;
  ok_down : 0 <= nPowMaxAdjustDown params <= 1000
}.

Lemma bnLimit_wf G params : params_ok params -> bu_wf (bnLimit G params).
Proof. intros Hp. unfold bnLimit. destruct (equihash G); apply UintToArith256_wf; apply Hp. Qed.

Lemma window_timespan params : params_ok params ->
  let W := nPowAveragingWindow params * nPowTargetSpacing params in
  AveragingWindowTimespan params = W /\ 0 < W < 2 ^ 26 /\
  MinActualTimespan params = W * (100 - nPowMaxAdjustUp params) / 100 /\
  MaxActualTimespan params = W * (100 + nPowMaxAdjustDown params) / 100 /\
  0 <= MinActualTimespan params <= W /\ W <= MaxActualTimespan params < 2 ^ 32.
Proof.
  intros [_ _ Hw Hs Hu Hd] W. assert (HW : 0 < W < 2 ^ 26) by (subst W; nia).
  assert (E : AveragingWindowTimespan params = W) by (apply i64_id; unfold is_i64; subst W; lia).
  unfold MinActualTimespan, MaxActualTimespan. rewrite E.
  rewrite (i64_id (100 - _)), (i64_id (100 + _)) by (unfold is_i64; lia).
  rewrite !i64_id by (unfold is_i64; nia). rewrite !Z.quot_div_nonneg by nia.
  split_and!; try lia.
  - apply Z.div_pos; nia.
  - apply Z.div_le_upper_bound; nia.
  - apply Z.div_le_lower_bound; nia.
  - apply Z.div_lt_upper_bound; nia.
Qed.

(** The damped and clamped time span of the window. *)
Definition damped_timespan (params : pow_params) (span : Z) : Z :=
  let W := nPowAveragingWindow params * nPowTargetSpacing params in
  Z.min (MaxActualTimespan params) (Z.max (MinActualTimespan params) (W + Z.quot (span - W) 4)).

Lemma CalculateNextWorkRequired_some G params bnAvg t1 t0 : params_ok params -> bu_wf bnAvg ->
  exists m, CalculateNextWorkRequired G params bnAvg t1 t0 = Some (compact_of m) /\ 0 <= m <= bu_val (bnLimit G params).
Proof.
  intros Hp Ha. unfold CalculateNextWorkRequired. destruct (window_timespan params Hp) as (HW & Hr & _).
  set (ts := if ADAPTIVEPOW G <=? 0 then _ else _). clearbody ts.
  destruct (bu_div_arith bnAvg (AveragingWindowTimespan params) Ha) as (q & -> & Hq & _).
  { rewrite HW, u64_id by (unfold is_u64; lia). lia. }
  cbn [mbind option_bind]. destruct (bu_mul32_val q (u32 ts) Hq (u32_range _)) as [_ Hm].
  pose proof (bnLimit_wf G params Hp) as HL. rewrite gt256_spec by done.
  pose proof (bu_val_wf_range _ Hm). pose proof (bu_val_wf_range _ HL).
  destruct (Z.ltb_spec (bu_val (bnLimit G params)) (bu_val (bu_mul32 q (u32 ts)))); (eexists; split; [by apply GetCompact_spec|lia]).
Qed.

Lemma last_times_ok objs n p acc (P : Z -> Prop) : wf_store objs ->
  (forall q b, objs !! q = Some b -> P (bi_nTime b)) -> Forall P acc ->
  (match p with Some q => is_Some (objs !! q) | None => True end) ->
  exists l, last_times objs n p acc = Some l /\ Forall P l /\ (length acc <= length l)%nat.
Proof.
  intros Hwf HP. revert p acc. induction n as [|n IH]; intros p acc Ha Hp; [by eauto|].
  destruct p as [q|]; [|by eauto]. destruct Hp as [b Hb]. cbn [last_times]. rewrite Hb. cbn [mbind option_bind].
  destruct (IH (pprev b) (bi_nTime b :: acc)) as (l & Hl & HF & Hlen); [by constructor; eauto| |].
  { destruct (Hwf q b Hb) as (_ & Hpr & _). destruct (pprev b) as [r|]; [|done]. destruct Hpr as (c & Hc & _). eauto. }
  exists l. split_and!; [done|done|cbn in Hlen; lia].
Qed.

Lemma last_times_S objs n p acc :
  last_times objs (S n) (Some p) acc = b ← objs !! p; last_times objs n (pprev b) (bi_nTime b :: acc).
Proof. done. Qed.

Lemma GetMedianTimePast_ok objs p b (P : Z -> Prop) : wf_store objs -> objs !! p = Some b ->
  (forall q b, objs !! q = Some b -> P (bi_nTime b)) ->
  exists t, GetMedianTimePast objs p = Some t /\ P t.
Proof.
  intros Hwf Hb HP. unfold GetMedianTimePast. rewrite (last_times_S objs 10), Hb. cbn [mbind option_bind].
  destruct (last_times_ok objs 10 (pprev b) [bi_nTime b] P Hwf HP) as (l & -> & HF & Hlen); [constructor; [by eauto|constructor]| |].
  { destruct (Hwf p b Hb) as (_ & Hpr & _). destruct (pprev b) as [r|]; [|done]. destruct Hpr as (c & Hc & _). eauto. }
  cbn [mbind option_bind]. pose proof (merge_sort_Permutation Z.le l) as Hperm.
  destruct (lookup_lt_is_Some_2 (merge_sort Z.le l) (length l / 2)) as [t Ht].
  { rewrite Hperm. apply Nat.div_lt; cbn in Hlen; lia. }
  exists t. split; [done|]. rewrite <- Hperm in HF. by apply (proj1 (Forall_lookup _ _) HF _ _ Ht).
Qed.

(** ** Facts: the adaptive rules only lower the target *)

Section Adaptive.
Context (G : chain_globals) (params : pow_params) (HT : 0 < BLOCKTIME G <= 1600).

Definition zawy_ok (z : zawy) : Prop :=
  length (zflags z) = 64%nat /\ length (z_ts z) = 64%nat /\ length (z_ct z) = 64%nat /\ Forall bu_wf (z_ct z).

Lemma lookup_some {A} (l : list A) i n : length l = n -> (i < n)%nat -> exists x, l !! i = Some x.
Proof. intros <- Hi. by destruct (lookup_lt_is_Some_2 l i Hi) as [x Hx]; eauto. Qed.

Lemma quot_some a b : b <> 0 -> quot a b = Some (Z.quot a b).
Proof. intros Hb. unfold quot. by rewrite (proj2 (Z.eqb_neq b 0)). Qed.

Lemma i32_small z : 0 <= z < 2 ^ 31 -> i32 z = z.
Proof. intros Hz. apply i32_id. unfold is_i32. lia. Qed.

Lemma outer_spec nTime tgt ts ct num den W : bu_wf tgt -> length ts = 64%nat -> length ct = 64%nat -> Forall bu_wf ct ->
  (W < 64)%nat -> den <> 0 -> 0 < num <= 15 ->
  exists t, RT_CST_RST_outer G nTime tgt ts ct num den W = Some t /\ bu_wf t /\ bu_val t <= bu_val tgt.
Proof.
  intros Htgt Hts Hct Hcw HW Hden Hnum. unfold RT_CST_RST_outer.
  destruct (bu_div_arith tgt 2 Htgt ltac:(done)) as (h & -> & Hh & Hhv). cbn [mbind option_bind].
  rewrite quot_some by done. cbn [mbind option_bind].
  destruct (lookup_some ts 0 64 Hts ltac:(lia)) as (ts0 & ->), (lookup_some ts W 64 Hts HW) as (tsW & ->),
    (lookup_some ct 0 64 Hct ltac:(lia)) as (ct0 & Hc0). rewrite Hc0. cbn [mbind option_bind].
  destruct (_ <? _); [|by eauto with lia].
  rewrite quot_some by (rewrite (i32_small (BLOCKTIME G * BLOCKTIME G)) by nia; rewrite i32_small by nia; nia). cbn [mbind option_bind].
  match goal with |- context [if ?x <? K then _ else _] => set (oK := x); clearbody oK end.
  assert (exists t, (if oK <? K then q ← bu_div ct0 (arith K); Some (bu_mul q (arith oK)) else Some tgt) = Some t /\ bu_wf t) as (t & -> & Ht).
  { destruct (oK <? K); [|by eauto].
    destruct (bu_div_arith ct0 K (proj1 (Forall_lookup _ _) Hcw _ _ Hc0) ltac:(done)) as (q & -> & Hq & _). cbn [mbind option_bind].
    eauto with targets. }
  cbn [mbind option_bind]. rewrite gt256_spec by done. eexists. split; [reflexivity|].
  assert (bu_val h <= bu_val tgt).
  { rewrite Hhv. change (u64 2) with 2. pose proof (bu_val_wf_range _ Htgt). apply Z.div_le_upper_bound; lia. }
  destruct (Z.ltb_spec (bu_val h) (bu_val t)); (split; [done|lia]).
Qed.

Lemma fold_add_wf l c : Forall bu_wf l -> bu_wf c -> bu_wf (fold_left bu_add l c).
Proof. intros Hl. revert c. induction Hl; cbn; eauto with targets. Qed.

Lemma inner_target_spec nTime ts ct W : length ts = 64%nat -> length ct = 64%nat -> Forall bu_wf ct -> (1 <= W <= 12)%nat ->
  exists t, RT_CST_RST_target G nTime ts ct W = Some t /\ bu_wf t.
Proof.
  intros Hts Hct Hcw HW. unfold RT_CST_RST_target, sum_targets.
  destruct (take W ct) as [|c l] eqn:E.
  { apply (f_equal length) in E. rewrite length_take in E. cbn in E. lia. }
  rewrite (proj2 (Nat.ltb_ge _ _)) by lia. cbn [mbind option_bind].
  assert (Hcl : Forall bu_wf (c :: l)) by (rewrite <- E; by apply Forall_take).
  apply list.Forall_cons in Hcl as [Hc Hl].
  destruct (bu_div_arith (fold_left bu_add l c) (i64 (Z.of_nat W * K))) as (q & -> & Hq & _).
  { by apply fold_add_wf. }
  { rewrite i64_id by (unfold is_i64, K; lia). rewrite u64_id by (unfold is_u64, K; lia). unfold K. lia. }
  cbn [mbind option_bind].
  destruct (lookup_some ts 0 64 Hts ltac:(lia)) as (ts0 & ->), (lookup_some ts W 64 Hts ltac:(lia)) as (tsW & ->). cbn [mbind option_bind].
  rewrite quot_some by (rewrite (i32_small (Z.of_nat W * _)) by nia; rewrite i32_small by nia; nia).
  cbn [mbind option_bind]. eauto with targets.
Qed.

Lemma inner_spec nTime tgt ts ct W i : bu_wf tgt -> length ts = 64%nat -> length ct = 64%nat -> Forall bu_wf ct ->
  (1 <= W <= 12)%nat -> (i < 50)%nat ->
  exists t, RT_CST_RST_inner G nTime tgt ts ct W i = Some t /\ bu_wf t.
Proof.
  intros Htgt Hts Hct Hcw HW Hi. unfold RT_CST_RST_inner.
  destruct (lookup_some ts 0 64 Hts ltac:(lia)) as (ts0 & ->), (lookup_some ts (i + W) 64 Hts ltac:(lia)) as (tsW & ->). cbn [mbind option_bind].
  destruct (_ <? _); [|by eauto].
  destruct (bu_div_arith tgt 101 Htgt ltac:(done)) as (q & -> & Hq & _). cbn [mbind option_bind].
  destruct (inner_target_spec nTime ts ct W Hts Hct Hcw HW) as (t & -> & Ht). cbn [mbind option_bind].
  eexists. split; [reflexivity|]. destruct (bool_decide _); eauto with targets.
Qed.

Lemma inner_steps_spec nTime ts ct i steps tgt : length ts = 64%nat -> length ct = 64%nat -> Forall bu_wf ct ->
  Forall (fun s => (s.1 <= 50)%nat /\ (1 <= s.2 <= 12)%nat) steps -> bu_wf tgt ->
  exists t, inner_steps G nTime ts ct i steps tgt = Some t /\ bu_wf t /\ bu_val t <= bu_val tgt.
Proof.
  intros Hts Hct Hcw Hst. revert tgt. induction Hst as [|s steps [Hs1 Hs2] _ IH]; intros tgt Htgt; [by eauto with lia|].
  cbn [inner_steps]. unfold inner_step.
  assert (exists t, (if (i <? s.1)%nat then b ← RT_CST_RST_inner G nTime tgt ts ct s.2 i; Some (if lt256 b tgt then b else tgt) else Some tgt) = Some t
    /\ bu_wf t /\ bu_val t <= bu_val tgt) as (t & -> & Ht & Hle).
  { destruct (Nat.ltb_spec i s.1); [|by eauto with lia].
    destruct (inner_spec nTime tgt ts ct s.2 i) as (b & -> & Hb); [done..|lia|]. cbn [mbind option_bind].
    eexists. split; [done|]. rewrite lt256_spec by done. destruct (Z.ltb_spec (bu_val b) (bu_val tgt)); (split; [done|lia]). }
  cbn [mbind option_bind]. destruct (IH t Ht) as (t' & -> & ? & ?). exists t'. split_and!; [done|done|lia].
Qed.

Lemma outer_triggers_spec nTime orig ts ct l : length ts = 64%nat -> length ct = 64%nat -> Forall bu_wf ct -> bu_wf orig ->
  Forall (fun '(num, den, W) => den <> 0 /\ 0 < num <= 15 /\ (W < 64)%nat) l ->
  forall tgt, bu_wf tgt -> bu_val tgt <= bu_val orig ->
  exists t f, outer_triggers G nTime orig ts ct l tgt = Some (t, f) /\ bu_wf t /\ bu_val t <= bu_val orig /\ (f = 0 \/ f = 2).
Proof.
  intros Hts Hct Hcw Ho Hl. induction Hl as [|[[num den] W] l (Hd & Hn & HW) _ IH]; intros tgt Htgt Hle; cbn [outer_triggers].
  - eauto 10.
  - destruct (outer_spec nTime orig ts ct num den W) as (t & -> & Ht & Htl); try done. cbn [mbind option_bind].
    rewrite lt256_spec by done. destruct (Z.ltb_spec (bu_val t) (bu_val orig)); [eauto 10 with lia|]. by apply IH.
Qed.

Lemma rst_target_spec nTime z tgt : zawy_ok z -> bu_wf tgt ->
  exists t f, rst_target G nTime (zflags z) (z_ts z) (z_ct z) tgt = Some (t, f) /\ bu_wf t /\ bu_val t <= bu_val tgt /\ 0 <= f <= 2.
Proof.
  intros (Hf & Hts & Hct & Hcw) Htgt. unfold rst_target. destruct (lookup_some (zflags z) 0 64 Hf ltac:(lia)) as (z0 & ->). cbn [mbind option_bind].
  destruct (_ || _).
  - destruct (outer_triggers_spec nTime tgt (z_ts z) (z_ct z) (RST_triggers G) Hts Hct Hcw Htgt) with (tgt := tgt) as (t & f & -> & ? & ? & ?); try done.
    { unfold RST_triggers, first_trigger. apply Forall_app. split; [|repeat constructor; lia].
      repeat case_match; repeat constructor; lia. }
    exists t, f. split_and!; (done || lia).
  - destruct (inner_steps_spec nTime (z_ts z) (z_ct z) (find_flag2 50 0 (zflags z)) RST_steps tgt Hts Hct Hcw) as (t & -> & ? & ?); [|done|].
    { repeat constructor; cbn; lia. }
    cbn [mbind option_bind]. eexists _, _. split; [reflexivity|]. split_and!; try done; destruct (bool_decide _); lia.
Qed.
End Adaptive.

(** ** Facts: the walk over the chain *)

Section Walk.
Context (G : chain_globals) (params : pow_params) (HT : 0 < BLOCKTIME G <= 1600).
Context (objs : store) (Hwf : wf_store objs) (Hbits : forall p b, objs !! p = Some b -> is_u32 (bi_nBits b)).

Definition in_store (p : option Z) : Prop := match p with Some p => is_Some (objs !! p) | None => True end.

Lemma prev_in_store p b : objs !! p = Some b -> in_store (pprev b).
Proof.
  intros Hb. destruct (Hwf p b Hb) as (_ & Hpr & _). destruct (pprev b); [|done].
  destruct Hpr as (c & Hc & _). by exists c.
Qed.

Lemma last_blocks_spec n p : in_store p ->
  exists l r, last_blocks objs n p = Some (l, r) /\ (length l <= n)%nat /\ Forall (fun b => is_u32 (bi_nBits b)) l.
Proof.
  revert p. induction n as [|n IH]; intros p Hp; [eexists _, _; cbn; by eauto|].
  destruct p as [p|]; [|eexists _, _; cbn; split_and!; [done|cbn; lia|constructor]].
  destruct Hp as [b Hb]. cbn [last_blocks]. rewrite Hb. cbn [mbind option_bind].
  destruct (IH (pprev b) (prev_in_store _ _ Hb)) as (l & r & -> & Hl & HF). cbn [mbind option_bind fst snd].
  eexists _, _. split_and!; [done|cbn; lia|]. constructor; eauto.
Qed.

Lemma adjust_ct_spec fl ts ct : Forall bu_wf ct ->
  exists ct', adjust_ct G fl ts ct = Some ct' /\ length ct' = length ct /\ Forall bu_wf ct'.
Proof.
  intros Hct. revert fl ts. induction Hct as [|c ct Hc Hct IH]; intros fl ts.
  { destruct fl, ts as [|? [|]]; cbn; eauto. }
  destruct fl as [|z fl]; [by eauto|]. destruct ts as [|t [|t' ts]]; [by eauto..|]. cbn [adjust_ct].
  assert (exists c', (if (z =? 1) || (z =? 2) then zawy_ctB G c (u32 (t - t')) else Some c) = Some c' /\ bu_wf c') as (c' & -> & Hc').
  { destruct (_ || _); [|by eauto]. unfold zawy_ctB.
    rewrite quot_some by (rewrite (i32_small (BLOCKTIME G * BLOCKTIME G)) by nia; rewrite i32_small by nia; nia). cbn [mbind option_bind].
    destruct (_ >? 1); [|by eauto]. destruct (bu_div_arith c 1000 Hc ltac:(done)) as (q & -> & Hq & _). cbn [mbind option_bind].
    eauto with targets. }
  cbn [mbind option_bind]. destruct (IH fl (t' :: ts)) as (l & -> & Hl & HF). cbn [mbind option_bind].
  eexists. split; [done|]. split; [cbn; lia|by constructor].
Qed.

Lemma length_pad {A} n (d : A) l : (length l <= n)%nat -> length (pad n d l) = n.
Proof. intros H. unfold pad. rewrite length_app, repeat_length. lia. Qed.

Lemma load_zawy_spec last t : is_Some (objs !! last) -> exists z, load_zawy G objs last t = Some z /\ zawy_ok z.
Proof.
  intros [b Hb]. unfold load_zawy. rewrite Hb. cbn [mbind option_bind].
  destruct (last_blocks_spec 64 (Some last)) as (l & r & -> & Hl & HF); [by exists b|]. cbn [mbind option_bind fst snd].
  set (ct := pad 64 bu_zero (map (fun b => (SetCompact (bi_nBits b)).1.1) l)).
  assert (Hct : length ct = 64%nat /\ Forall bu_wf ct).
  { split; [apply length_pad; by rewrite length_map|]. unfold ct, pad. apply Forall_app. split.
    - apply List.Forall_map. eapply Forall_impl; [exact HF|]. intros x Hx. by apply SetCompact_wf.
    - apply Forall_forall. intros x Hx. apply list_elem_of_In, repeat_spec in Hx as ->. apply bu_zero_wf. }
  assert (exists ct', match r with Some _ => adjust_ct G (pad 64 0 (map (fun b => Z.land (bi_nBits b) 3) l))
      (pad 64 0 (map bi_nTime l)) ct | None => Some ct end = Some ct' /\ length ct' = 64%nat /\ Forall bu_wf ct') as (ct' & -> & Hl' & HF').
  { destruct r; [|exists ct; split_and!; [done|apply Hct|apply Hct]].
    destruct (adjust_ct_spec (pad 64 0 (map (fun b => Z.land (bi_nBits b) 3) l)) (pad 64 0 (map bi_nTime l)) ct (proj2 Hct)) as (ct' & -> & Hl' & HF').
    exists ct'. split_and!; [done|rewrite Hl'; apply Hct|done]. }
  cbn [mbind option_bind]. eexists. split; [done|]. split_and!; cbn; try done; apply length_pad; by rewrite length_map.
Qed.

Lemma window_loop_spec n i p ad zfl mult tot : in_store p -> bu_wf tot -> length zfl = 64%nat -> 0 <= i -> Z.of_nat n + i <= 64 ->
  exists tot' mult' r, window_loop G objs n i p ad zfl mult tot = Some (tot', mult', r) /\ bu_wf tot' /\ in_store r.
Proof.
  intros Hp Ht Hz Hi. revert p i mult tot Hp Ht Hi. induction n as [|n IH]; intros p i mult tot Hp Ht Hi Hn; [cbn; eauto 10|].
  destruct p as [p|]; [|cbn; eauto 10]. destruct Hp as [b Hb]. cbn [window_loop]. rewrite Hb. cbn [mbind option_bind].
  pose proof (SetCompact_wf _ (Hbits p b Hb)) as Hw. pose proof (prev_in_store _ _ Hb) as Hprev.
  destruct ad as [nTime|].
  - destruct (lookup_some zfl (Z.to_nat i) 64 Hz ltac:(lia)) as (zi & ->), (lookup_some zfl 0 64 Hz ltac:(lia)) as (z0 & ->). cbn [mbind option_bind].
    assert (exists t, (if negb (zi =? 0) && (z0 =? 0) then q ← bu_div (SetCompact (bi_nBits b)).1.1 (arith 8); Some (bu_mul q (arith 7))
      else Some (SetCompact (bi_nBits b)).1.1) = Some t /\ bu_wf t) as (t & -> & Htw).
    { destruct (_ && _); [|by eauto]. destruct (bu_div_arith _ 8 Hw ltac:(done)) as (q & -> & Hq & _). cbn [mbind option_bind]. eauto with targets. }
    cbn [mbind option_bind]. apply IH; eauto with targets; lia.
  - apply IH; eauto with targets; lia.
Qed.

Definition easy_target : Z := bu_val (SetCompact (Z.land SQUISHY_MINDIFF_NBITS (Z.lnot 3))).1.1.

Lemma adaptive_bits_spec height nTime z m L : zawy_ok z -> 0 <= m <= L -> L < 2 ^ 256 ->
  exists m' f, adaptive_bits G height nTime z (compact_of m) = Some (Z.lor (clear_flags (compact_of m')) f) /\
    0 <= m' <= Z.max L easy_target /\ 0 <= f <= 2.
Proof.
  intros Hz Hm HL. unfold adaptive_bits. pose proof (compact_of_decodes m L Hm HL) as Hd.
  destruct (SetCompact (compact_of m)) as [[t0 neg] ovf]. destruct Hd as (Ht0 & _ & _ & Hv0 & _). cbn [fst].
  set (easyT := (SetCompact (Z.land SQUISHY_MINDIFF_NBITS (Z.lnot 3))).1.1).
  assert (HE : bu_wf easyT) by (apply SetCompact_wf; vm_compute; split; congruence).
  change easy_target with (bu_val easyT). pose proof (bu_val_wf_range easyT HE) as HEr.
  assert (Hfin : forall t f, bu_wf t -> bu_val t <= Z.max L (bu_val easyT) -> 0 <= f <= 2 -> exists m' f',
    (nbits ← GetCompact t false; Some (Z.lor (clear_flags nbits) f)) = Some (Z.lor (clear_flags (compact_of m')) f') /\
    0 <= m' <= Z.max L (bu_val easyT) /\ 0 <= f' <= 2).
  { intros t f Ht Hle Hf. rewrite GetCompact_spec by done. cbn [mbind option_bind].
    exists (bu_val t), f. split; [done|]. pose proof (bu_val_wf_range t Ht). lia. }
  destruct nTime as [t|]; [|apply Hfin; (done || lia)].
  destruct (_ && _); [|apply Hfin; (done || lia)].
  destruct (rst_target_spec G HT t z t0 Hz Ht0) as (t1 & f & -> & Ht1 & Hle1 & Hf). cbn [mbind option_bind].
  destruct (Z.gtb_spec (z_mult z) 1); [|apply Hfin; (done || lia)].
  assert (exists t2, zawy_exponential G t1 (z_mult z) = Some t2 /\ bu_wf t2) as (t2 & -> & Ht2).
  { unfold zawy_exponential. destruct (bu_div_arith t1 360000 Ht1 ltac:(done)) as (q & -> & Hq & _). cbn [mbind option_bind].
    assert (Hv : exists v, zawy_exponential_val360000 G (z_mult z) = Some v).
    { unfold zawy_exponential_val360000. rewrite (quot_some (z_mult z) (BLOCKTIME G)) by lia.
      cbn [mbind option_bind]. destruct (negb _); [|by eexists]. rewrite (quot_some _ (i32 (BLOCKTIME G * BLOCKTIME G))) by (rewrite i32_small by nia; nia).
      rewrite quot_some by lia. cbn [mbind option_bind]. by eexists. }
    destruct Hv as (v & ->). cbn [mbind option_bind]. eauto with targets. }
  cbn [mbind option_bind]. rewrite lt256_spec, gt256_spec by done.
  destruct (Z.ltb_spec (bu_val t2) (bu_val t1)), (Z.ltb_spec (bu_val easyT) (bu_val t2)); cbn [orb]; try (apply Hfin; (done || lia)).
  all: exists (bu_val easyT), 0; split; [|lia]; vm_compute; reflexivity.
Qed.
End Walk.

(** ** Properties: the next difficulty *)

(** C31: without the adaptive rules the next target is the average target times the
    damped time span over the window's, rounded down to a compact word and at
    most the limit: the time span is clamped, so a block raises the target by at
    most [nPowMaxAdjustDown] percent of the average. *)
Theorem retarget_exact (G : chain_globals) (params : pow_params) (bnAvg : base_uint) (t1 t0 : Z)
  (Hp : params_ok params) (Hna : ADAPTIVEPOW G <= 0) (Ha : bu_wf bnAvg) (Ht : is_u32 t1 /\ is_u32 t0)
  (Hle : bu_val bnAvg <= bu_val (bnLimit G params))
  (Hfit : bu_val (bnLimit G params) * (100 + nPowMaxAdjustDown params) < 100 * 2 ^ 256) :
  let v := bu_val bnAvg in
  let W := nPowAveragingWindow params * nPowTargetSpacing params in
  let ts := damped_timespan params (t1 - t0) in
  let m := Z.min (bu_val (bnLimit G params)) (v / W * ts) in
  CalculateNextWorkRequired G params bnAvg t1 t0 = Some (compact_of m) /\
  W * (100 - nPowMaxAdjustUp params) / 100 <= ts <= W * (100 + nPowMaxAdjustDown params) / 100 /\
  m * 100 <= v * (100 + nPowMaxAdjustDown params) /\
  compact_value (compact_of m) <= m /\ (m - compact_value (compact_of m)) * 2 ^ 15 <= m.
Proof.
  intros v W ts m. destruct (window_timespan params Hp) as (HW & HWr & Hmin & Hmax & Hmr & HMr). fold W in HW, HWr, Hmin, Hmax, Hmr, HMr.
  destruct Ht as [Ht1 Ht0]. unfold is_u32 in Ht1, Ht0.
  assert (Hspan : 0 <= ts /\ ts = (let t := if W + Z.quot (t1 - t0 - W) 4 <? MinActualTimespan params then MinActualTimespan params
      else W + Z.quot (t1 - t0 - W) 4 in if t >? MaxActualTimespan params then MaxActualTimespan params else t)).
  { unfold ts, damped_timespan. fold W. cbv zeta. rewrite Z.gtb_ltb.
    destruct (Z.ltb_spec (W + Z.quot (t1 - t0 - W) 4) (MinActualTimespan params)); case_bool; lia. }
  assert (Htsr : MinActualTimespan params <= ts <= MaxActualTimespan params) by (unfold ts, damped_timespan; lia).
  pose proof (bu_val_wf_range _ Ha) as Hvr. fold v in Hvr, Hle.
  assert (Hq : v / W * ts * 100 <= v * (100 + nPowMaxAdjustDown params)).
  { assert (0 <= v / W) by (apply Z.div_pos; lia). pose proof (Z.mul_div_le v W ltac:(lia)).
    assert (ts * 100 <= W * (100 + nPowMaxAdjustDown params)).
    { pose proof (Z.mul_div_le (W * (100 + nPowMaxAdjustDown params)) 100 ltac:(lia)). lia. }
    destruct Hp. nia. }
  assert (Hm0 : 0 <= m) by (subst m; pose proof (bu_val_wf_range _ (bnLimit_wf G params Hp)); pose proof (Z.div_pos v W); nia).
  assert (Hm : m < 2 ^ 256) by (pose proof (bu_val_wf_range _ (bnLimit_wf G params Hp)); lia).
  split_and!; [|lia|lia|lia|apply compact_of_round; lia|apply compact_of_round; lia].
  unfold CalculateNextWorkRequired. rewrite (proj2 (Z.leb_le _ 0)) by done. rewrite HW.
  assert (Hqr : - 2 ^ 40 < Z.quot (t1 - t0 - W) 4 < 2 ^ 40) by (Z.to_euclidean_division_equations; lia).
  rewrite (i64_id (t1 - t0)), (i64_id (t1 - t0 - W)), (i64_id (W + _)) by (unfold is_i64; lia).
  cbv zeta in Hspan |- *. rewrite <- (proj2 Hspan).
  destruct (bu_div_arith bnAvg W Ha) as (q & -> & Hqw & Hqv); [rewrite u64_id by (unfold is_u64; lia); lia|].
  rewrite u64_id in Hqv by (unfold is_u64; lia). cbn [mbind option_bind]. rewrite (u32_id ts) by (unfold is_u32; lia).
  destruct (bu_mul32_val q ts Hqw ltac:(unfold is_u32; lia)) as [Hpv Hpw].
  assert (Hval : bu_val (bu_mul32 q ts) = v / W * ts).
  { rewrite Hpv, Hqv. fold v. rewrite Z.mod_small; [lia|]. pose proof (Z.div_pos v W). destruct Hp. nia. }
  pose proof (bnLimit_wf G params Hp) as HL. rewrite gt256_spec, Hval by done.
  subst m. destruct (Z.ltb_spec (bu_val (bnLimit G params)) (v / W * ts)); rewrite GetCompact_spec by done; rewrite ?Hval; do 2 f_equal; lia.
Qed.

(** C18: for a block time of 1 to 1600 seconds and [ADAPTIVEPOW] at most 1, that is
    without the TSA rule, [GetNextWorkRequired] returns a difficulty for every
    stored last block (or none): no division by zero and no index outside of the
    64 entries.  Without the adaptive rules the target the returned bits decode
    to is within the limit of the chain, so a header with these bits passes the
    range check of [CheckProofOfWork] unless the target is zero.  With
    [ADAPTIVEPOW] = 1 the bits are those of a target of at most the larger of the
    limit and the target of easy blocks, with its two lowest bits replaced by the
    flag of the rule that chose it; nothing is said of the range check then. *)
Theorem GetNextWorkRequired_total (G : chain_globals) (params : pow_params) (objs : store) (pindexLast nTime : option Z)
  (Hp : params_ok params) (HT : 0 < BLOCKTIME G <= 1600) (Halgo : ADAPTIVEPOW G <= 1)
  (Hwf : wf_store objs) (Hblocks : forall p b, objs !! p = Some b -> is_u32 (bi_nBits b) /\ is_u32 (bi_nTime b))
  (Hlast : in_store objs pindexLast) :
  exists n m f, GetNextWorkRequired G params objs pindexLast nTime = Some n /\
    (n = compact_of m \/ 0 < ADAPTIVEPOW G /\ n = Z.lor (clear_flags (compact_of m)) f) /\ 0 <= f <= 2 /\
    0 <= m <= Z.max (bu_val (bnLimit G params)) (if ADAPTIVEPOW G <=? 0 then 0 else easy_target) /\
    (ADAPTIVEPOW G <= 0 -> let '(t, neg, ovf) := SetCompact n in
      neg = false /\ ovf = false /\ gt256 t (bnLimit G params) = false).
Proof.
  assert (Hbits : forall p b, objs !! p = Some b -> is_u32 (bi_nBits b)) by (intros p b Hb; by destruct (Hblocks p b Hb)).
  pose proof (bnLimit_wf G params Hp) as HL. pose proof (bu_val_wf_range _ HL) as HLr. set (L := bu_val (bnLimit G params)) in *.
  assert (Hplain : forall m, 0 <= m <= L -> exists n m' f, Some (compact_of m) = Some n /\
    (n = compact_of m' \/ 0 < ADAPTIVEPOW G /\ n = Z.lor (clear_flags (compact_of m')) f) /\ 0 <= f <= 2 /\
    0 <= m' <= Z.max L (if ADAPTIVEPOW G <=? 0 then 0 else easy_target) /\
    (ADAPTIVEPOW G <= 0 -> let '(t, neg, ovf) := SetCompact n in neg = false /\ ovf = false /\ gt256 t (bnLimit G params) = false)).
  { intros m Hm. exists (compact_of m), m, 0. split_and!; [done|by left|lia|lia|lia|lia|]. intros _.
    pose proof (compact_of_decodes m L Hm ltac:(lia)) as Hd. destruct (SetCompact (compact_of m)) as [[t neg] ovf].
    destruct Hd as (Htw & ? & ? & Htv & _). split_and!; [done|done|]. rewrite gt256_spec by done. apply Z.ltb_ge. done. }
  unfold GetNextWorkRequired. rewrite GetCompact_spec by done. cbn [mbind option_bind]. fold L.
  destruct pindexLast as [last|]; [|apply Hplain; lia]. destruct Hlast as [b Hb]. rewrite Hb. cbn [mbind option_bind].
  set (ad := if ADAPTIVEPOW G >? 0 then nTime else None). set (height := i32 (nHeight b + 1)).
  assert (Hz : exists z, match ad with Some t => if height >=? 64 then load_zawy G objs last t else Some no_zawy | None => Some no_zawy end = Some z /\ zawy_ok z).
  { assert (Hno : zawy_ok no_zawy).
    { split_and!; try done. apply Forall_forall. intros x Hx. apply list_elem_of_In, repeat_spec in Hx as ->. apply bu_zero_wf. }
    destruct ad as [t|]; [|by eauto]. destruct (height >=? 64); [|by eauto]. apply (load_zawy_spec G HT objs Hwf Hbits). by exists b. }
  destruct Hz as (z & -> & Hz). cbn [mbind option_bind].
  destruct (ok_window _ Hp) as [Hw0 Hw1].
  destruct (window_loop_spec G objs Hwf Hbits (Z.to_nat (nPowAveragingWindow params)) 0 (Some last) ad (zflags z) (z_mult z) bu_zero)
    as (tot & mult & r & Hloop & Htot & Hr); [by exists b|apply bu_zero_wf|apply Hz|lia|lia|].
  assert (Hcalc : forall first, r = Some first -> exists t1 t0 bnAvg m, bu_div tot (arith (nPowAveragingWindow params)) = Some bnAvg /\
    GetMedianTimePast objs last = Some t1 /\ GetMedianTimePast objs first = Some t0 /\
    CalculateNextWorkRequired G params bnAvg t1 t0 = Some (compact_of m) /\ 0 <= m <= L).
  { intros first ->. destruct Hr as [c Hc].
    destruct (GetMedianTimePast_ok objs last b (fun _ => True) Hwf Hb) as (t1 & Ht1 & _); [done|].
    destruct (GetMedianTimePast_ok objs first c (fun _ => True) Hwf Hc) as (t0 & Ht0 & _); [done|].
    destruct (bu_div_arith tot (nPowAveragingWindow params) Htot) as (q & Hq & Hqw & _); [rewrite u64_id by (unfold is_u64; lia); lia|].
    destruct (CalculateNextWorkRequired_some G params q t1 t0 Hp Hqw) as (m & Hm & Hmr). eauto 12. }
  assert (Hadapt : forall z' m, zawy_ok z' -> 0 <= m <= L -> 0 < ADAPTIVEPOW G -> exists n m' f, adaptive_bits G height nTime z' (compact_of m) = Some n /\
    (n = compact_of m' \/ 0 < ADAPTIVEPOW G /\ n = Z.lor (clear_flags (compact_of m')) f) /\ 0 <= f <= 2 /\
    0 <= m' <= Z.max L (if ADAPTIVEPOW G <=? 0 then 0 else easy_target) /\
    (ADAPTIVEPOW G <= 0 -> let '(t, neg, ovf) := SetCompact n in neg = false /\ ovf = false /\ gt256 t (bnLimit G params) = false)).
  { intros z' m Hz' Hm Had. destruct (adaptive_bits_spec G HT height nTime z' m L Hz' Hm ltac:(lia)) as (m' & f & -> & Hm' & Hf).
    eexists _, m', f. split; [done|]. rewrite (proj2 (Z.leb_gt _ 0)) by lia. split_and!; try lia; by right. }
  destruct ad as [t|] eqn:Ead.
  - assert (Had : 0 < ADAPTIVEPOW G) by (unfold ad in Ead; destruct (Z.gtb_spec (ADAPTIVEPOW G) 0); [lia|done]).
    rewrite (proj2 (Z.eqb_neq (ADAPTIVEPOW G) 2)) by lia. rewrite andb_false_r. rewrite Hloop. cbn [mbind option_bind].
    destruct r as [first|]; [|apply Hplain; lia]. destruct (Hcalc first eq_refl) as (t1 & t0 & q & m & -> & -> & -> & E & Hm). cbn [mbind option_bind].
    rewrite E. cbn [mbind option_bind].
    by apply Hadapt.
  - rewrite Hloop. cbn [mbind option_bind]. destruct r as [first|]; [|apply Hplain; lia].
    destruct (Hcalc first eq_refl) as (t1 & t0 & q & m & -> & -> & -> & E & Hm). cbn [mbind option_bind].
    rewrite E. cbn [mbind option_bind].
    destruct (Z.gtb_spec (ADAPTIVEPOW G) 0); [by apply Hadapt|by apply Hplain].
Qed.

(** Two blocks and a window of one. *)
Definition demo_index (h : Z) (prev : option Z) : CBlockIndex :=
  mkIndex h prev None h 0 0 0 [] 1 1 0 None None 0 None 4 0 0 (1500000000 + 300 * h) 0x1f0f0f0f 0 [] 0.
Definition demo_chain : store := <[1 := demo_index 1 (Some 0)]> {[ 0 := demo_index 0 None ]}.
Definition demo_params : pow_params := mkPowParams (repeat 15 32) (repeat 15 32) None 20 1 32 16 60 420.

Lemma demo_chain_ok : wf_store demo_chain /\ forall p b, demo_chain !! p = Some b -> is_u32 (bi_nBits b) /\ is_u32 (bi_nTime b).
Proof.
  assert (H : forall p b, demo_chain !! p = Some b -> (p = 1 /\ b = demo_index 1 (Some 0)) \/ (p = 0 /\ b = demo_index 0 None)).
  { intros p b. unfold demo_chain. rewrite lookup_insert_Some, lookup_singleton_Some. naive_solver. }
  split; intros p b [[-> ->]|[-> ->]]%H.
  - split; [done|]. split; [by exists (demo_index 0 None)|done].
  - split; [done|]. done.
  - by vm_compute.
  - by vm_compute.
Qed.

Lemma demo_params_ok : params_ok demo_params.
Proof.
  split; try (vm_compute; intuition congruence); (split; [|done]); apply Forall_forall; intros x Hx;
    apply list_elem_of_In, repeat_spec in Hx as ->; by vm_compute.
Qed.

Lemma retarget_exact_witness :
  CalculateNextWorkRequired (mkGlobals true 0 60 0) demo_params (bu_of_u64 6000000) 1500000300 1500000000 = Some (compact_of 7900000).
Proof.
  apply (retarget_exact (mkGlobals true 0 60 0) demo_params (bu_of_u64 6000000) 1500000300 1500000000 demo_params_ok).
  - by vm_compute.
  - by apply bu_val_of_u64.
  - by vm_compute.
  - by vm_compute.
  - by vm_compute.
Defined.

Lemma GetNextWorkRequired_total_witness :
  exists n, GetNextWorkRequired (mkGlobals true 1 60 0) demo_params demo_chain (Some 1) (Some 1500001000) = Some n.
Proof.
  destruct (GetNextWorkRequired_total (mkGlobals true 1 60 0) demo_params demo_chain (Some 1) (Some 1500001000)) as (n & _ & _ & H & _).
  - exact demo_params_ok.
  - by vm_compute.
  - by vm_compute.
  - apply demo_chain_ok.
  - apply demo_chain_ok.
  - by vm_compute; eauto.
  - by exists n.
Defined.

(** ** What the adaptive rules do outside of their intended range *)

(** The exponential factor is computed in 64 bits: from 41 target spacings on it
    wraps around and is no longer a factor above one. *)
Lemma exponential_wraps :
  zawy_exponential_val360000 (mkGlobals true 1 60 0) (60 * 20) = Some (3 ^ 20 * 360000) /\
  exists v, zawy_exponential_val360000 (mkGlobals true 1 60 0) (60 * 41) = Some v /\ v < 0.
Proof. split; [by vm_compute|]. eexists. split; vm_compute; reflexivity. Qed.

(** Within a target spacing of more than 100 seconds the quadratic term already
    overflows an [int]: a longer delay gives a smaller factor. *)
Lemma exponential_not_monotone :
  exists v1 v2, zawy_exponential_val360000 (mkGlobals true 1 120 0) 99 = Some v1 /\
    zawy_exponential_val360000 (mkGlobals true 1 120 0) 110 = Some v2 /\ v2 < v1.
Proof. eexists _, _. split_and!; vm_compute; reflexivity. Qed.

(** The TSA rule returns a target above the limit after ten minutes. *)
Lemma TSA_above_limit :
  exists t, zawy_TSA_EMA (mkGlobals true 2 60 0) 600 (SetCompact 0x2000f00c).1.1 = Some t /\
    gt256 t (bnLimit (mkGlobals true 2 60 0) demo_params) = true.
Proof. eexists. split; vm_compute; reflexivity. Qed.
