(* ===== verification/CheckPow.v ===== *)
(** * The proof-of-work check of a header (CheckProofOfWork of src/src/pow.cpp)

    The easy target of notaries, their rotation over the last 65 blocks, the
    priority list after a gap, and the check itself over the notary component. *)
From S2P Require Import Prelude Serialize Arith256 Transaction Script BlockIndex BlockTree Standard Notary Pow.
From stdpp Require Import strings.
#[local] Open Scope Z_scope.

(** ** The rotation of notaries after a gap *)

(** [std::rotate] of the first occurrence of [id] to the end of the list. *)
Definition move_to_end (id : Z) (l : list Z) : list Z :=
  match list_find (fun x => x = id) l with
  | Some (i, _) => take i l ++ drop (S i) l ++ [id]
  | None => l
  end.

(** The notaries 0..63, those that mined one of the last 65 blocks (from the
    oldest to the newest of [mids[65..1]]) moved to the end. *)
Definition priority_list (mids : list Z) : list Z :=
  fold_left (fun l m => if m =? -1 then l else move_to_end m l) (rev (take 65 (drop 1 mids))) (Z.of_nat <$> seq 0 64).

Definition isSecondBlockAllowed (notaryid blocktime threshold delta : Z) (vPriorityList : list Z) : bool :=
  if (blocktime >=? threshold) && (delta >? 0) && (zlen vPriorityList =? 64) && (notaryid >=? 0) then
    let nPos := (blocktime - threshold) / delta in
    if nPos <? zlen vPriorityList then existsb (Z.eqb notaryid) (take (Z.to_nat (nPos + 1)) vPriorityList)
    else true
  else false.

(** ** The check of a header *)

Section CheckProofOfWork.
Variables (G : chain_globals) (params : pow_params).
(** The notary tables and the chain, as in the notary component. *)
Variables (symbol : string) (notaries_elected notaries_STAKED : Z -> list bytes)
  (GenesisNotaries : list (string * bytes)) (objs : store) (chainActive : list (option Z)).
Variables (Hash160 : bytes -> bytes) (cc fix_active : bool) (supported : bytes -> bool)
  (LOADINGBLOCKS : bool) (blockload : Z -> option (list CTxOut)).
(** [squishy_currentheight()] and [GetHash()] of the header. *)
Variables (currentheight : Z) (GetHash : CBlockHeader -> bytes).

(** [flag] from the rules for a notary's height. *)
Definition easy_flag (height : Z) (special special2 : Z) (flag : bool) : bool :=
  if (height >? 10000) && (height <? 80000) && (negb (special =? 0) || (special2 >? 0)) then true
  else if (height >=? 80000) && (height <? 108000) && (special2 >? 0) then true
  else if (height >=? 108000) && (special2 >? 0) then
    (height >? 1000000) || (height mod SQUISHY_ELECTION_GAP >? 64) || (height mod SQUISHY_ELECTION_GAP =? 0)
  else if height =? 790833 then true
  else if (special2 <? 0) && (height >? 792000) then false
  else flag.

(** [special2] after the hf22 rule. *)
Definition gap_special (height notaryid blocktime tiptime special2 : Z) (mids blocktimes : list Z) : option Z :=
  match nHF22Height params with
  | None => Some special2
  | Some nHeightAfterGAPSecondBlockAllowed =>
    let nMaxGAPAllowed := u32 (nMaxFutureBlockTime params + 1) in
    if isKMD symbol && (u32 height >? nHeightAfterGAPSecondBlockAllowed) then
      bt1 ← blocktimes !! 1%nat;
      if (blocktime >=? u32 (tiptime + nMaxGAPAllowed)) && (tiptime =? bt1) then
        if ((special2 =? -1) || (special2 =? 1)) &&
           isSecondBlockAllowed notaryid blocktime (u32 (tiptime + nMaxGAPAllowed)) (nHF22NotariesPriorityRotateDelta params) (priority_list mids)
        then Some 2 else Some special2
      else Some special2
    else Some special2
  end.

(** What the notary rules decide: accept at once, or whether the easy target applies. *)
Inductive notary_verdict := AcceptNow | EasyTarget (easy : bool).

Definition notary_rules (height : Z) (pubkey33 : bytes) (blocktime tiptime : Z) (st : notary_state) : option (notary_verdict * notary_state) :=
  c ← squishy_chosennotary symbol notaries_elected notaries_STAKED GenesisNotaries objs chainActive height pubkey33 tiptime st;
  let '(special, notaryid, st) := c in
  if forallb (Z.eqb 0) pubkey33 then Some (AcceptNow, st)
  else
    e ← squishy_eligiblenotary symbol notaries_elected notaries_STAKED GenesisNotaries objs chainActive
          Hash160 cc fix_active supported LOADINGBLOCKS blockload height st;
    let '(el, st) := e in
    s ← squishy_is_special symbol notaries_elected notaries_STAKED GenesisNotaries objs chainActive
          (el_mids el) (el_blocktimes el) height pubkey33 blocktime st;
    let '(special2, st) := s in
    if notaryid >=? 0 then
      let flag := easy_flag height special special2 (el_result el) in
      special2 ← gap_special height notaryid blocktime tiptime special2 (el_mids el) (el_blocktimes el);
      Some (EasyTarget ((flag || (special2 >? 0)) && negb (special2 =? -2)), st)
    else Some (EasyTarget false, st).

Definition CheckProofOfWork (blkHeader : CBlockHeader) (pubkey33 : bytes) (height : Z) (st : notary_state) : option (bool * notary_state) :=
  tiptime ← squishy_chainactive_timestamp objs chainActive;
  let height := if height =? 0 then i32 (currentheight + 1) else height in
  n ← (if (height >? 34000) && isKMD symbol
       then notary_rules height pubkey33 (h_nTime blkHeader) tiptime st else Some (EasyTarget false, st));
  match n with
  | (AcceptNow, st) => Some (true, st)
  | (EasyTarget easy, st) =>
    let '(bnTarget, fNegative, fOverflow) := SetCompact (if easy then SQUISHY_MINDIFF_NBITS else h_nBits blkHeader) in
    let bnLimit := UintToArith256 (if (height <=? 1) || equihash G then powLimit params else powAlternate params) in
    if fNegative || EqualTo bnTarget 0 || fOverflow || gt256 bnTarget bnLimit then Some (false, st)
    else
      let bnTarget := if negb (STAKED G =? 0) then (SetCompact SQUISHY_MINDIFF_NBITS).1.1 else bnTarget in
      if gt256 (UintToArith256 (GetHash blkHeader)) bnTarget then
        if LOADINGBLOCKS then Some (true, st)
        else if negb (isKMD symbol) || (height >? 792000) then Some (false, st) else Some (true, st)
      else Some (true, st)
  end.
End CheckProofOfWork.


(** ** Facts: the priority list *)

Lemma move_to_end_split id l : id ∈ l -> exists l1 l2, l = l1 ++ id :: l2 /\ id ∉ l1 /\ move_to_end id l = l1 ++ l2 ++ [id].
Proof.
  intros Hin. unfold move_to_end. destruct (list_find (fun x => x = id) l) as [[i x]|] eqn:E.
  - apply list_find_Some in E as (Hi & -> & Hfirst). exists (take i l), (drop (S i) l). split; [|split; [|done]].
    + symmetry. by apply take_drop_middle.
    + intros [j Hj]%list_elem_of_lookup. apply lookup_take_Some in Hj as [Hj Hlt]. by apply (Hfirst j id).
  - exfalso. apply list_find_None in E. by apply (proj1 (List.Forall_forall _ _) E id (proj1 (list_elem_of_In _ _) Hin)).
Qed.

Lemma move_to_end_notin id l : id ∉ l -> move_to_end id l = l.
Proof.
  intros Hn. unfold move_to_end. destruct (list_find (fun x => x = id) l) as [[i x]|] eqn:E; [|done].
  apply list_find_Some in E as (Hi & -> & _). exfalso. apply Hn. apply list_elem_of_lookup. by exists i.
Qed.

Lemma move_to_end_perm id l : move_to_end id l ≡ₚ l.
Proof.
  destruct (decide (id ∈ l)) as [Hin|Hn]; [|by rewrite move_to_end_notin].
  destruct (move_to_end_split id l Hin) as (l1 & l2 & -> & _ & ->). apply Permutation_app_head. by rewrite Permutation_app_comm.
Qed.

(** A list whose processed members come last. *)
Definition processed_last (seen l : list Z) : Prop :=
  exists A B, l = A ++ B /\ (forall x, x ∈ A -> x ∉ seen) /\ (forall x, x ∈ B -> x ∈ seen).

Lemma split_at_first {A} (x : A) l1 k1 l2 k2 : x ∉ l1 -> x ∉ k1 -> l1 ++ x :: l2 = k1 ++ x :: k2 -> l1 = k1 /\ l2 = k2.
Proof.
  intros Hl. revert k1. induction l1 as [|a l1 IH]; intros [|b k1] Hk Heq; cbn in Heq.
  - by injection Heq as ->.
  - injection Heq as -> _. set_solver.
  - injection Heq as -> _. set_solver.
  - injection Heq as -> Heq. destruct (IH ltac:(set_solver) k1 ltac:(set_solver) Heq) as [-> ->]. done.
Qed.

Lemma processed_last_move m seen l : processed_last seen l -> NoDup l -> processed_last (m :: seen) (move_to_end m l).
Proof.
  intros (A & B & -> & HA & HB) Hnd. apply NoDup_app in Hnd as (HndA & Hdis & HndB).
  destruct (decide (m ∈ A ++ B)) as [Hin|Hn].
  2: { rewrite move_to_end_notin by done. exists A, B. split; [done|]. split; [|set_solver]. set_solver. }
  destruct (move_to_end_split m (A ++ B) Hin) as (l1 & l2 & Heq & Hl1 & ->).
  destruct (decide (m ∈ A)) as [HmA|HmA].
  - destruct (list_elem_of_split_l _ _ HmA) as (A1 & A2 & -> & HA1).
    rewrite <- app_assoc in Heq. cbn [app] in Heq.
    destruct (split_at_first m A1 l1 (A2 ++ B) l2 HA1 Hl1 Heq) as [-> <-].
    exists (l1 ++ A2), (B ++ [m]). split; [by rewrite <- !app_assoc|].
    apply NoDup_app in HndA as (_ & _ & HndA). apply NoDup_cons_1_1 in HndA. split; set_solver.
  - assert (HmB : m ∈ B) by set_solver. destruct (list_elem_of_split_l _ _ HmB) as (B1 & B2 & -> & HB1).
    rewrite app_assoc in Heq. assert (HAB : m ∉ A ++ B1) by set_solver.
    destruct (split_at_first m (A ++ B1) l1 B2 l2 HAB Hl1 Heq) as [<- <-].
    exists A, (B1 ++ B2 ++ [m]). split; [by rewrite <- !app_assoc|]. split; set_solver.
Qed.

Lemma priority_fold ms l seen : NoDup l -> processed_last seen l ->
  let l' := fold_left (fun l m => if m =? -1 then l else move_to_end m l) ms l in
  l' ≡ₚ l /\ exists seen', processed_last seen' l' /\ forall x, x ∈ seen' <-> x ∈ seen \/ (x ∈ ms /\ x <> -1).
Proof.
  revert l seen. induction ms as [|m ms IH]; intros l seen Hnd Hp; cbn.
  - split; [done|]. exists seen. split; [done|]. intros x. set_solver.
  - destruct (Z.eqb_spec m (-1)) as [->|Hm].
    + destruct (IH l seen Hnd Hp) as (H1 & seen' & H2 & H3). split; [done|]. exists seen'. split; [done|]. intros x. rewrite H3, elem_of_cons.
      clear. intuition congruence.
    + assert (Hnd' : NoDup (move_to_end m l)) by (by rewrite move_to_end_perm).
      destruct (IH (move_to_end m l) (m :: seen) Hnd' (processed_last_move m seen l Hp Hnd)) as (H1 & seen' & H2 & H3).
      split; [by rewrite H1, move_to_end_perm|]. exists seen'. split; [done|]. intros x. rewrite H3, !elem_of_cons. intuition congruence.
Qed.

Definition recent_miners (mids : list Z) : list Z := take 65 (drop 1 mids).

Lemma priority_list_spec mids :
  priority_list mids ≡ₚ (Z.of_nat <$> seq 0 64) /\
  exists A B, priority_list mids = A ++ B /\ (forall x, x ∈ A -> x ∉ recent_miners mids) /\ (forall x, x ∈ B -> x ∈ recent_miners mids).
Proof.
  unfold priority_list. fold (recent_miners mids).
  assert (Hnd : NoDup (Z.of_nat <$> seq 0 64)) by (apply NoDup_fmap_2; [intros ???; lia|apply NoDup_seq]).
  destruct (priority_fold (rev (recent_miners mids)) (Z.of_nat <$> seq 0 64) [] Hnd) as (H1 & seen & (A & B & H2 & HA & HB) & H3).
  { exists (Z.of_nat <$> seq 0 64), []. split; [by rewrite app_nil_r|]. split; set_solver. }
  split; [done|]. exists A, B. split; [done|].
  assert (Hrange : forall x, x ∈ A ++ B -> 0 <= x).
  { intros x Hx. rewrite <- H2, H1 in Hx. apply list_elem_of_fmap in Hx as (i & -> & _). lia. }
  assert (Hs : forall x, x ∈ A ++ B -> x ∈ seen <-> x ∈ recent_miners mids).
  { intros x Hx. specialize (Hrange x Hx). rewrite H3.
    assert (Hr : x ∈ rev (recent_miners mids) <-> x ∈ recent_miners mids) by (rewrite !list_elem_of_In; symmetry; apply in_rev).
    rewrite Hr. split; [set_solver|intros ?; right; split; [done|lia]]. }
  split; intros x Hx.
  - intros Hr. apply (HA x Hx). apply Hs; [|done]. apply elem_of_app. by left.
  - apply Hs; [apply elem_of_app; by right|]. by apply HB.
Qed.

(** [isSecondBlockAllowed] with the priority list of [mids]. *)
Definition allowed (mids : list Z) (threshold delta id t : Z) : bool :=
  isSecondBlockAllowed id t threshold delta (priority_list mids).

Lemma priority_list_length mids : zlen (priority_list mids) = 64.
Proof.
  destruct (priority_list_spec mids) as [Hp _]. unfold zlen. rewrite Hp. rewrite length_fmap, length_seq. done.
Qed.

Lemma allowed_spec mids threshold delta id t : 0 <= id -> 0 < delta ->
  allowed mids threshold delta id t = true <->
  threshold <= t /\ (64 <= (t - threshold) / delta \/ id ∈ take (Z.to_nat ((t - threshold) / delta + 1)) (priority_list mids)).
Proof.
  intros Hid Hd. unfold allowed, isSecondBlockAllowed. rewrite priority_list_length. rewrite !Z.geb_leb, Z.gtb_ltb.
  rewrite (proj2 (Z.ltb_lt 0 delta)), (proj2 (Z.leb_le 0 id)) by lia. change (64 =? 64) with true. rewrite !andb_true_r.
  destruct (Z.leb_spec threshold t); [|split; [done|lia]].
  destruct (Z.ltb_spec ((t - threshold) / delta) 64).
  - rewrite existsb_exists. split.
    + intros (x & Hx & ->%Z.eqb_eq). split; [done|]. right. by apply list_elem_of_In.
    + intros [_ [?|Hin]]; [lia|]. exists id. split; [by apply list_elem_of_In|apply Z.eqb_refl].
  - split; [intros _; split; [done|left; done]|done].
Qed.

(** C25: after a gap every notary is eventually allowed to mine the second block: at
    the latest 63 rotation steps after the threshold, whoever mined before.  Once
    allowed a notary stays allowed, at the threshold already some notary is, and
    a notary that mined none of the last 65 blocks is never later than one that
    did. *)
Theorem second_block_liveness (mids : list Z) (threshold delta id t : Z)
  (Hid : 0 <= id < 64) (Hd : 0 < delta) (Ht : threshold + 63 * delta <= t) :
  allowed mids threshold delta id t = true /\
  (forall t1 t2, t1 <= t2 -> allowed mids threshold delta id t1 = true -> allowed mids threshold delta id t2 = true) /\
  (exists first, 0 <= first < 64 /\ allowed mids threshold delta first threshold = true) /\
  (forall busy t', 0 <= busy -> busy ∈ recent_miners mids -> id ∉ recent_miners mids ->
     allowed mids threshold delta busy t' = true -> allowed mids threshold delta id t' = true).
Proof.
  destruct (priority_list_spec mids) as (Hperm & A & B & Heq & HA & HB).
  assert (Hall : forall x, x ∈ priority_list mids <-> 0 <= x < 64).
  { intros x. rewrite Hperm, list_elem_of_fmap. split.
    - intros (i & -> & Hi%elem_of_seq). lia.
    - intros Hx. exists (Z.to_nat x). rewrite elem_of_seq. lia. }
  pose proof (priority_list_length mids) as Hlen. unfold zlen in Hlen.
  split_and!.
  - apply allowed_spec; [lia|done|]. split; [lia|].
    assert (63 <= (t - threshold) / delta) by (apply Z.div_le_lower_bound; lia).
    destruct (decide (64 <= (t - threshold) / delta)); [by left|]. right. rewrite take_ge by lia. by apply Hall.
  - intros t1 t2 Hle. rewrite !allowed_spec by lia. intros [H1 H2]. split; [lia|].
    assert (Hm : (t1 - threshold) / delta <= (t2 - threshold) / delta) by (apply Z.div_le_mono; lia).
    destruct H2 as [H2|Hin]; [left; lia|right]. pose proof (Z.div_pos (t1 - threshold) delta).
    eapply elem_of_prefix; [exact Hin|].
    replace (Z.to_nat ((t1 - threshold) / delta + 1)) with (Nat.min (Z.to_nat ((t1 - threshold) / delta + 1)) (Z.to_nat ((t2 - threshold) / delta + 1))) by lia.
    rewrite <- take_take. apply prefix_take.
  - destruct (priority_list mids) as [|x l] eqn:E; [cbn in Hlen; lia|].
    assert (Hx : 0 <= x < 64) by (apply Hall; left). exists x. split; [done|]. apply allowed_spec; [lia|done|].
    rewrite Z.sub_diag, Z.div_0_l by lia. split; [lia|]. right. rewrite E. left.
  - intros busy t' Hb Hbusy Hidle. rewrite !allowed_spec by lia. intros [H1 H2]. split; [done|].
    destruct H2 as [H2|Hin]; [by left|right].
    assert (HidA : id ∈ A).
    { assert (Hin' : id ∈ A ++ B) by (rewrite <- Heq; by apply Hall). apply elem_of_app in Hin' as [?|Hi]; [done|]. by destruct (Hidle (HB _ Hi)). }
    rewrite Heq in Hin |- *. rewrite take_app in Hin |- *. apply elem_of_app in Hin as [Hin|Hin].
    + exfalso. apply (HA busy); [|done]. eapply elem_of_prefix; [exact Hin|apply prefix_take].
    + assert (length A <= Z.to_nat ((t' - threshold) / delta + 1))%nat.
      { destruct (le_lt_dec (length A) (Z.to_nat ((t' - threshold) / delta + 1))); [done|].
        replace (_ - _)%nat with 0%nat in Hin by lia. cbn in Hin. by apply elem_of_nil in Hin. }
      apply elem_of_app. left. by rewrite take_ge.
Qed.

Lemma second_block_liveness_witness :
  allowed (7 :: 3 :: repeat (-1) 64) 1000 20 3 2260 = true /\ allowed (7 :: 3 :: repeat (-1) 64) 1000 20 3 2240 = false.
Proof. split; [|vm_compute; reflexivity]. apply (second_block_liveness (7 :: 3 :: repeat (-1) 64) 1000 20 3 2260); lia. Defined.

(** ** Facts: who is in rotation *)

Lemma find_notary_Some fuel i n pk keys id : find_notary fuel i n pk keys = Some id ->
  id = -1 \/ (i <= id < n /\ keys !! id = Some pk).
Proof.
  revert i. induction fuel as [|fuel IH]; intros i; cbn; [intros [= <-]; by left|].
  destruct (Z.ltb_spec i n); [|intros [= <-]; by left]. destruct (keys !! i) as [k|] eqn:E; [|done]. cbn.
  destruct (bool_decide_reflect (pk = k)) as [->|]; [intros [= <-]; right; split; [lia|done]|].
  intros H1. destruct (IH _ H1) as [->|[? ?]]; [by left|right; split; [lia|done]].
Qed.

Lemma key_index_Some n pk keys id : key_index n pk keys = Some id -> id = -1 \/ (0 <= id < n /\ keys !! id = Some pk).
Proof. apply find_notary_Some. Qed.

Section Rotation.
Variables (notaries_elected notaries_STAKED : Z -> list bytes)
  (GenesisNotaries : list (string * bytes)) (objs : store) (chainActive : list (option Z)).
Variables (Hash160 : bytes -> bytes) (cc fix_active : bool) (supported : bytes -> bool)
  (LOADINGBLOCKS : bool) (blockload : Z -> option (list CTxOut)).

Let notaries := squishy_notaries "" notaries_elected notaries_STAKED GenesisNotaries objs chainActive.
Let chosen := squishy_chosennotary "" notaries_elected notaries_STAKED GenesisNotaries objs chainActive.
Let miner_key := squishy_block2pubkey33 Hash160 cc fix_active supported LOADINGBLOCKS.

(** On the main chain the notaries of a height are the same once looked up. *)
Lemma notaries_again h t t' st r st1 : notaries h t st = Some (r, st1) -> notaries h t' st1 = Some (r, st1).
Proof.
  unfold notaries, squishy_notaries. change (isKMD "") with true. change (is_STAKED "" =? 0) with true.
  cbn [mbind option_bind]. cbv zeta.
  destruct (negb _).
  - unfold season_keys. match goal with |- context [kmd_pubkeys st !! ?k] => set (s := k) end.
    destruct (kmd_pubkeys st !! s) as [keys|] eqn:E.
    + intros [= <- <-]. by rewrite E.
    + intros [= <- <-]. cbn [kmd_pubkeys]. by rewrite lookup_insert_eq.
  - unfold elected_notaries. intros H.
    destruct (match Pubkeys st with Some _ => Some st | None => squishy_init GenesisNotaries h st end) as [st2|] eqn:E; [|done].
    cbn [mbind option_bind] in H. destruct (pubkeys_at st2 h) as [e|] eqn:Ee; [|done]. cbn [mbind option_bind] in H.
    destruct (collect_keys _ _ _ _) as [[m keys]|] eqn:Ec; [|done]. cbn [mbind option_bind fst snd] in H.
    assert (Hst : st2 = st1) by (destruct (_ || _); by injection H). subst st2.
    assert (Hp : match Pubkeys st1 with Some _ => Some st1 | None => squishy_init GenesisNotaries h st1 end = Some st1).
    { unfold pubkeys_at in Ee. destruct (Pubkeys st1); done. }
    rewrite Hp. cbn [mbind option_bind]. rewrite Ee. cbn [mbind option_bind]. rewrite Ec. cbn [mbind option_bind fst snd]. exact H.
Qed.

Lemma chosen_spec h pk t st r id st1 : 250000 <= h -> chosen h pk t st = Some (r, id, st1) ->
  exists n keys, notaries h t st = Some (n, keys, st1) /\ key_index n pk keys = Some id.
Proof.
  intros Hh. unfold chosen, squishy_chosennotary. rewrite (proj2 (Z.ltb_ge h 0)) by lia.
  unfold SQUISHY_NOTARIES_HARDCODED. rewrite !Z.geb_leb, (proj2 (Z.leb_le 180000 h)), (proj2 (Z.leb_le 250000 h)) by lia. cbn [orb].
  unfold squishy_electednotary. fold (notaries h t st).
  destruct (notaries h t st) as [[[n keys] st2]|]; [|done]. cbn [mbind option_bind].
  destruct (key_index n pk keys) as [i|] eqn:Ei; [|done]. cbn [mbind option_bind].
  destruct (_ && _); intros [= _ <- <-]; eauto.
Qed.

Lemma chosen_total h pk t st n keys id st1 : 250000 <= h -> notaries h t st = Some (n, keys, st1) ->
  key_index n pk keys = Some id -> exists r, chosen h pk t st = Some (r, id, st1).
Proof.
  intros Hh Hn Hi. unfold chosen, squishy_chosennotary. rewrite (proj2 (Z.ltb_ge h 0)) by lia.
  unfold SQUISHY_NOTARIES_HARDCODED. rewrite !Z.geb_leb, (proj2 (Z.leb_le 180000 h)), (proj2 (Z.leb_le 250000 h)) by lia. cbn [orb].
  unfold squishy_electednotary. fold (notaries h t st). rewrite Hn. cbn [mbind option_bind]. rewrite Hi. cbn [mbind option_bind].
  destruct (_ && _); eauto.
Qed.

Lemma eligible_loop_spec fuel i n h keys bts mids dup bts' mids' dup' :
  eligible_loop objs chainActive Hash160 cc fix_active supported LOADINGBLOCKS blockload fuel i n h keys bts mids dup = Some (bts', mids', dup') ->
  exists lb lm, bts' = bts ++ lb /\ mids' = mids ++ lm /\ length lb = fuel /\ length lm = fuel /\
    forall k, (k < fuel)%nat -> exists p s, squishy_chainactive objs chainActive (h - (i + Z.of_nat k)) = Some p /\
      miner_slot objs Hash160 cc fix_active supported LOADINGBLOCKS blockload n keys p = Some s /\ lb !! k = Some s.1 /\ lm !! k = Some s.2.
Proof.
  revert i bts mids dup. induction fuel as [|fuel IH]; intros i bts mids dup; cbn [eligible_loop].
  - intros [= <- <- <-]. exists [], []. rewrite !app_nil_r. split_and!; try done. intros k Hk. lia.
  - destruct (squishy_chainactive objs chainActive (h - i)) as [p|] eqn:Ep; [|done]. cbn [mbind option_bind].
    destruct (miner_slot _ _ _ _ _ _ _ n keys p) as [s|] eqn:Es; [|done]. cbn [mbind option_bind].
    intros H. apply IH in H as (lb & lm & -> & -> & Hlb & Hlm & Hk).
    exists (s.1 :: lb), (s.2 :: lm). rewrite <- !app_assoc. cbn [length]. split_and!; try done; try lia.
    intros [|k] Hlt.
    + exists p, s. rewrite Z.add_0_r. done.
    + destruct (Hk k ltac:(lia)) as (p' & s' & Hp' & Hs'). exists p', s'. cbn [lookup list_lookup].
      replace (i + Z.of_nat (S k)) with (i + 1 + Z.of_nat k) by lia. done.
Qed.

Lemma miner_slot_key n keys p s : miner_slot objs Hash160 cc fix_active supported LOADINGBLOCKS blockload n keys (Some p) = Some s ->
  exists b, objs !! p = Some b /\ s.1 = bi_nTime b /\
    match blockload p with Some vout0 => key_index n (miner_key vout0) keys = Some s.2 | None => s.2 = -1 end.
Proof.
  unfold miner_slot. destruct (objs !! p) as [b|]; [|done]. cbn [mbind option_bind]. destruct (blockload p) as [v|].
  - fold (miner_key v). destruct (key_index n (miner_key v) keys) as [id|]; [|done]. cbn [mbind option_bind]. intros [= <-]. eauto.
  - intros [= <-]. eauto.
Qed.

Lemma notaries_time h t t' st : notaries h t st = notaries h t' st.
Proof. unfold notaries, squishy_notaries. change (isKMD "") with true. reflexivity. Qed.

Lemma easy_flag_late height special s2 b : 1000000 < height ->
  easy_flag height special s2 b = if 0 <? s2 then true else if s2 <? 0 then false else b.
Proof.
  intros Hh. unfold easy_flag. rewrite !Z.gtb_ltb, !Z.geb_leb.
  rewrite (proj2 (Z.ltb_ge height 80000)), (proj2 (Z.ltb_ge height 108000)), (proj2 (Z.leb_le 108000 height)), (proj2 (Z.ltb_lt 1000000 height)),
    (proj2 (Z.ltb_lt 792000 height)), (proj2 (Z.eqb_neq height 790833)) by lia.
  rewrite !andb_false_r, !andb_true_r. cbn [andb orb]. done.
Qed.

(** What the notary id of the slots [lm] says about the last 65 blocks. *)
Definition slots_ok (height n : Z) (keys : gmap Z bytes) (lb lm : list Z) : Prop :=
  forall k, (k < 66)%nat -> exists p s, squishy_chainactive objs chainActive (height - (0 + Z.of_nat k)) = Some p /\
    miner_slot objs Hash160 cc fix_active supported LOADINGBLOCKS blockload n keys p = Some s /\ lb !! k = Some s.1 /\ lm !! k = Some s.2.

Definition mined_recently (height : Z) (pk : bytes) : Prop :=
  exists i p vout0, 1 <= i <= 65 /\ squishy_chainactive objs chainActive (height - i) = Some (Some p) /\
    blockload p = Some vout0 /\ miner_key vout0 = pk.

Lemma repeats_spec height n keys lb lm pk id : slots_ok height n keys lb lm -> key_index n pk keys = Some id -> 0 <= id ->
  repeats lm id = true <-> mined_recently height pk.
Proof.
  intros Hslot Hid Hpos. destruct (key_index_Some _ _ _ _ Hid) as [->|[Hr Hkey]]; [lia|]. unfold repeats. rewrite existsb_exists. split.
  - intros (x & Hx & ->%Z.eqb_eq). apply list_elem_of_In, list_elem_of_lookup in Hx as [k Hk].
    apply lookup_take_Some in Hk as [Hk Hlt]. rewrite lookup_drop in Hk.
    destruct (Hslot (1 + k)%nat ltac:(lia)) as (p & s & Hp & Hs & _ & Hm). rewrite Hm in Hk. injection Hk as Hk.
    destruct p as [p|]; [|cbn in Hs; injection Hs as <-; cbn in Hk; lia].
    destruct (miner_slot_key _ _ _ _ Hs) as (b & _ & _ & Hload). destruct (blockload p) as [vout0|] eqn:Ebl; [|lia].
    exists (Z.of_nat (1 + k)), p, vout0. split_and!; try lia; try done. rewrite Hk in Hload.
    destruct (key_index_Some _ _ _ _ Hload) as [->|[_ Hk2]]; [lia|]. congruence.
  - intros (i & p & vout0 & Hi & Hp & Hbl & Hmk). exists id. split; [|apply Z.eqb_refl].
    destruct (Hslot (Z.to_nat i) ltac:(lia)) as (p' & s & Hp' & Hs & _ & Hm). rewrite Z.add_0_l, Z2Nat.id in Hp' by lia.
    rewrite Hp in Hp'. injection Hp' as <-. destruct (miner_slot_key _ _ _ _ Hs) as (b & _ & _ & Hload). rewrite Hbl, Hmk, Hid in Hload.
    injection Hload as Hload. apply list_elem_of_In, list_elem_of_lookup. exists (Z.to_nat i - 1)%nat.
    apply lookup_take_Some. split; [|lia]. rewrite lookup_drop. replace (1 + (Z.to_nat i - 1))%nat with (Z.to_nat i) by lia. by rewrite Hm, Hload.
Qed.

Definition spaced (height blocktime : Z) : Prop :=
  forall p b, squishy_chainactive objs chainActive (height - 1) = Some (Some p) -> objs !! p = Some b ->
    blocktime = 0 \/ bi_nTime b = 0 \/ u32 (bi_nTime b + 57) <= blocktime.

Lemma spaced_spec height n keys bt p s : squishy_chainactive objs chainActive (height - 1) = Some p ->
  miner_slot objs Hash160 cc fix_active supported LOADINGBLOCKS blockload n keys p = Some s ->
  negb (bt =? 0) && negb (s.1 =? 0) && (bt <? u32 (s.1 + 57)) = false <-> spaced height bt.
Proof.
  intros Hp1 Hs1. unfold spaced. destruct p as [p|].
  - destruct (miner_slot_key _ _ _ _ Hs1) as (b & Hb & -> & _). split.
    + intros H p' b' Hp' Hb'. rewrite Hp1 in Hp'. injection Hp' as <-. rewrite Hb in Hb'. injection Hb' as <-.
      destruct (Z.eqb_spec bt 0); [by left|]. destruct (Z.eqb_spec (bi_nTime b) 0); [by right; left|]. cbn [negb andb] in H.
      right; right. by apply Z.ltb_ge.
    + intros H. destruct (H p b Hp1 Hb) as [->|[E|Hle]]; [reflexivity|rewrite E; change (negb (0 =? 0)) with false; by rewrite andb_false_r|]. rewrite (proj2 (Z.ltb_ge _ _)) by done. by rewrite andb_false_r.
  - cbn in Hs1. injection Hs1 as <-. cbn [fst]. rewrite andb_false_r. split; [|done]. intros _ p b Hp. congruence.
Qed.

Lemma find_notary_neg fuel i n pk keys id j : find_notary fuel i n pk keys = Some id -> 0 <= i ->
  i <= j < i + Z.of_nat fuel -> j < n -> keys !! j = Some pk -> 0 <= id.
Proof.
  revert i. induction fuel as [|fuel IH]; intros i H Hi Hj Hn Hk; [lia|]. cbn in H. rewrite (proj2 (Z.ltb_lt i n)) in H by lia.
  destruct (keys !! i) as [k|] eqn:E; [|done]. cbn in H. destruct (bool_decide_reflect (pk = k)) as [->|Hne]; [injection H as <-; lia|].
  destruct (decide (i = j)) as [->|]; [congruence|]. apply (IH (i + 1)); (done || lia).
Qed.

Lemma is_special_late mids bts height pk bt st n keys id t0 t1 : 1000000 < height ->
  (forall t, notaries height t st = Some (n, keys, st)) -> key_index n pk keys = Some id ->
  bts !! 0%nat = Some t0 -> bts !! 1%nat = Some t1 ->
  squishy_is_special "" notaries_elected notaries_STAKED GenesisNotaries objs chainActive mids bts height pk bt st =
    Some (if 0 <=? id then if repeats mids id then -1
                           else if negb (bt =? 0) && negb (t1 =? 0) && (bt <? u32 (t1 + 57)) then -2 else 1
          else 0, st).
Proof.
  intros Hh Hn Hid H0 H1. unfold squishy_is_special. rewrite H0. cbn [mbind option_bind]. fold chosen.
  destruct (chosen_total height pk t0 st n keys id st ltac:(lia) (Hn t0) Hid) as (r2 & ->). cbn [mbind option_bind].
  rewrite !Z.geb_leb, (proj2 (Z.leb_le 82000 height)) by lia. destruct (0 <=? id); [|done].
  rewrite !Z.gtb_ltb, (proj2 (Z.ltb_lt 792000 height)), (proj2 (Z.ltb_lt 807000 height)), !andb_true_r by lia.
  destruct (repeats mids id); [done|]. rewrite H1. cbn [mbind option_bind].
  by destruct (negb (bt =? 0) && negb (t1 =? 0) && (bt <? u32 (t1 + 57))).
Qed.

Lemma gap_special_off params height id bt tip s2 mids bts :
  match nHF22Height params with None => True | Some h => u32 height <= h end ->
  gap_special params "" height id bt tip s2 mids bts = Some s2.
Proof.
  intros Hgap. unfold gap_special. destruct (nHF22Height params) as [h|]; [|done]. rewrite Z.gtb_ltb, (proj2 (Z.ltb_ge h (u32 height))) by done.
  by rewrite andb_false_r.
Qed.

Lemma eligible_spec h st n keys r st2 : notaries h 0 st = Some (n, keys, st) ->
  squishy_eligiblenotary "" notaries_elected notaries_STAKED GenesisNotaries objs chainActive
    Hash160 cc fix_active supported LOADINGBLOCKS blockload h st = Some (r, st2) ->
  st2 = st /\ slots_ok h n keys (el_blocktimes r) (el_mids r).
Proof.
  intros Hn H. unfold squishy_eligiblenotary in H. apply bind_Some in H as ([[n' keys'] st'] & Hn' & H).
  change (notaries h 0 st = Some (n', keys', st')) in Hn'. rewrite Hn in Hn'. injection Hn' as <- <- <-.
  apply bind_Some in H as ([[bts mids] dup] & El & H).
  destruct (eligible_loop_spec _ _ _ _ _ _ _ _ _ _ _ El) as (lb & lm & -> & -> & _ & _ & Hslot).
  injection H as <- <-. split; [done|]. exact Hslot.
Qed.

(** A notary's key whose holder mined none of the last 65 blocks, at least 57
    seconds after the previous block. *)
Definition in_rotation (height : Z) (pubkey33 : bytes) (blocktime : Z) (st : notary_state) : Prop :=
  (exists n keys st1 id, notaries height 0 st = Some (n, keys, st1) /\ 0 <= id < n /\ keys !! id = Some pubkey33) /\
  ~ mined_recently height pubkey33 /\ spaced height blocktime.

(** A key of zeroes ends the test before any rule is looked at. *)
Lemma notary_rules_null params height pk bt tip st v st' : forallb (Z.eqb 0) pk = true ->
  notary_rules params "" notaries_elected notaries_STAKED GenesisNotaries objs chainActive
    Hash160 cc fix_active supported LOADINGBLOCKS blockload height pk bt tip st = Some (v, st') -> v = AcceptNow.
Proof.
  intros Hpk. unfold notary_rules. destruct (squishy_chosennotary _ _ _ _ _ _ _ _ _ _) as [[[special id] st1]|]; [|done].
  cbn [mbind option_bind]. rewrite Hpk. congruence.
Qed.

Lemma notary_rules_spec params height pk bt tip st v st' : 1000000 < height ->
  match nHF22Height params with None => True | Some h => u32 height <= h end ->
  forallb (Z.eqb 0) pk = false ->
  notary_rules params "" notaries_elected notaries_STAKED GenesisNotaries objs chainActive
    Hash160 cc fix_active supported LOADINGBLOCKS blockload height pk bt tip st = Some (v, st') ->
  exists easy : bool, v = EasyTarget easy /\ (easy = true <-> in_rotation height pk bt st).
Proof.
  intros Hh Hgap Hpk. unfold notary_rules. fold chosen.
  destruct (chosen height pk tip st) as [[[special id] st1]|] eqn:Ec; [|done]. cbn [mbind option_bind]. rewrite Hpk.
  assert (H250 : 250000 <= height) by lia.
  destruct (chosen_spec _ _ _ _ _ _ _ H250 Ec) as (n & keys & Hn & Hid). rewrite (notaries_time height tip 0) in Hn.
  assert (Hagain : forall t, notaries height t st1 = Some (n, keys, st1)) by (intros t; by apply (notaries_again height 0 t st (n, keys) st1)).
  destruct (squishy_eligiblenotary _ _ _ _ _ _ _ _ _ _ _ _ height st1) as [[el st2]|] eqn:El; [|done]. cbn [mbind option_bind].
  destruct (eligible_spec _ _ _ _ _ _ (Hagain 0) El) as [-> Hslot]. destruct el as [result mids bts nz]. cbn [el_mids el_blocktimes el_result] in *.
  destruct (Hslot 0%nat ltac:(lia)) as (p0 & s0 & _ & _ & Hb0 & _), (Hslot 1%nat ltac:(lia)) as (p1 & s1 & Hp1 & Hs1 & Hb1 & _).
  replace (0 + Z.of_nat 1) with 1 in Hp1 by lia.
  rewrite (is_special_late mids bts height pk bt st1 n keys id s0.1 s1.1 Hh Hagain Hid Hb0 Hb1). cbn [mbind option_bind].
  rewrite Z.geb_leb. destruct (Z.leb_spec 0 id) as [Hpos|Hneg].
  2: { intros [= <- <-]. exists false. split; [done|]. split; [done|]. intros [(n' & keys' & st1' & id' & Hn' & Hr & Hk) _].
       rewrite Hn in Hn'. injection Hn' as <- <- <-.
       pose proof (find_notary_neg (Z.to_nat n) 0 n pk keys id id' Hid ltac:(lia) ltac:(lia) ltac:(lia) Hk). lia. }
  rewrite (gap_special_off params) by done. cbn [mbind option_bind]. rewrite (easy_flag_late height) by done.
  pose proof (repeats_spec height n keys bts mids pk id Hslot Hid Hpos) as Hrep.
  pose proof (spaced_spec height n keys bt p1 s1 Hp1 Hs1) as Hspace.
  destruct (key_index_Some _ _ _ _ Hid) as [->|[Hr Hkey]]; [lia|].
  assert (Hex : exists n keys st1 id, notaries height 0 st = Some (n, keys, st1) /\ 0 <= id < n /\ keys !! id = Some pk) by (by eexists _, _, _, _).
  unfold in_rotation. destruct (repeats mids id).
  - intros [= <- <-]. exists false. split; [done|]. split; [done|]. intros (_ & Hnone & _). by destruct (Hnone (proj1 Hrep eq_refl)).
  - assert (Hnone : ~ mined_recently height pk) by (intros H; by apply Hrep in H).
    destruct (negb (bt =? 0) && _ && _); intros [= <- <-].
    + exists false. split; [done|]. split; [done|]. intros (_ & _ & H). by apply Hspace in H.
    + exists true. split; [done|]. split; [|done]. intros _. split_and!; [done|done|by apply Hspace].
Qed.
End Rotation.


(** ** Facts: the work a header needs *)

(** The hash is at most the target of the compact word [c], which is a positive
    number that fits 256 bits and is at most the limit. *)
Definition work_ok (params : pow_params) (equi : bool) (hash : bytes) (c : Z) : Prop :=
  Z.testbit c 23 = false /\
  0 < compact_value c <= bu_val (UintToArith256 (if equi then powLimit params else powAlternate params)) /\
  bu_val (UintToArith256 hash) <= compact_value c.

(** The tests [CheckProofOfWork] makes of a decoded target. *)
Lemma target_test (params : pow_params) (equi : bool) (hash : bytes) (c : Z) : params_ok params -> is_bytes hash -> length hash = 32%nat -> is_u32 c ->
  let bnLimit := UintToArith256 (if equi then powLimit params else powAlternate params) in
  let '(t, neg, ovf) := SetCompact c in
  (neg || EqualTo t 0 || ovf || gt256 t bnLimit = false /\ gt256 (UintToArith256 hash) t = false) <-> work_ok params equi hash c.
Proof.
  intros Hp Hhash Hlen Hc bnLimit. pose proof (SetCompact_spec c Hc) as H. destruct (SetCompact c) as [[t neg] ovf].
  destruct H as (Hwf & Hv & -> & Hneg). pose proof (compact_value_nonneg c ltac:(unfold is_u32 in Hc; lia)) as Hge.
  assert (HL : bu_wf bnLimit) by (subst bnLimit; destruct equi; apply UintToArith256_wf; apply Hp).
  pose proof (bu_val_wf_range _ HL) as HLr. unfold work_ok. fold bnLimit.
  rewrite EqualTo_zero, !gt256_spec by (done || by apply UintToArith256_wf). rewrite !orb_false_iff, Z.eqb_neq, Z.leb_gt, !Z.ltb_ge.
  destruct (Z.lt_ge_cases (compact_value c) (2 ^ 256)) as [Hlt|Hbig].
  - rewrite Z.mod_small in Hv by lia. rewrite Hv. split.
    + intros [[[[Hn H0] _] H1] H2]. split; [|lia]. destruct (Z.testbit c 23) eqn:E; [|done].
      rewrite (proj2 Hneg) in Hn by (split; [done|lia]). done.
    + intros (Hb & H1 & H2). repeat split; try lia. destruct neg; [|done]. destruct (proj1 Hneg eq_refl). congruence.
  - split; [lia|]. intros (_ & H1 & _). lia.
Qed.

(** C17: on the main chain (empty symbol, no staking), above height 1000000 and up to
    the height of the hf22 rule, while the block files are not being loaded: a
    header whose key is all zeroes is accepted with no work at all (it is to be
    tested again with its key).  For any other key, the chain asks for the easy
    work if the key is one of the notaries in force that mined none of the last
    65 blocks and the block is at least 57 seconds younger than its parent, and
    for the work of the header's own bits otherwise; whichever it is, the target
    must be positive and within the limit and the hash at most the target, and
    the verdict is exactly this comparison. *)
Theorem CheckProofOfWork_rotation (G : chain_globals) (params : pow_params)
  (notaries_elected notaries_STAKED : Z -> list bytes) (GenesisNotaries : list (string * bytes))
  (objs : store) (chainActive : list (option Z)) (Hash160 : bytes -> bytes) (cc fix_active : bool)
  (supported : bytes -> bool) (blockload : Z -> option (list CTxOut)) (currentheight : Z)
  (GetHash : CBlockHeader -> bytes) (hdr : CBlockHeader) (pk : bytes) (height : Z) (st st' : notary_state) (b : bool)
  (Hh : 1000000 < height) (Hgap : match nHF22Height params with None => True | Some h => u32 height <= h end)
  (Hstaked : STAKED G = 0) (Hp : params_ok params)
  (Hhash : is_bytes (GetHash hdr) /\ length (GetHash hdr) = 32%nat) (Hbits : is_u32 (h_nBits hdr))
  (Hres : CheckProofOfWork G params "" notaries_elected notaries_STAKED GenesisNotaries objs chainActive
            Hash160 cc fix_active supported false blockload currentheight GetHash hdr pk height st = Some (b, st')) :
  let rotation := in_rotation notaries_elected notaries_STAKED GenesisNotaries objs chainActive
    Hash160 cc fix_active supported false blockload height pk (h_nTime hdr) st in
  let null_key := forallb (Z.eqb 0) pk in
  (null_key = true -> b = true) /\
  (null_key = false ->
    (rotation -> b = true <-> work_ok params (equihash G) (GetHash hdr) SQUISHY_MINDIFF_NBITS) /\
    (~ rotation -> b = true <-> work_ok params (equihash G) (GetHash hdr) (h_nBits hdr))).
Proof.
  intros rotation null_key. unfold CheckProofOfWork in Hres. apply bind_Some in Hres as (tip & _ & Hres).
  rewrite (proj2 (Z.eqb_neq height 0)), (proj2 (Z.gtb_lt height 34000)) in Hres by lia. change (isKMD "") with true in Hres. cbn [andb negb orb] in Hres.
  apply bind_Some in Hres as ([v st1] & Hrules & Hres). split; intros Hpk.
  { apply notary_rules_null in Hrules as ->; [congruence|exact Hpk]. }
  destruct (notary_rules_spec _ _ _ _ _ _ _ _ _ _ _ _ _ _ _ _ _ _ _ Hh Hgap Hpk Hrules) as (easy & -> & Heasy). fold rotation in Heasy.
  assert (Hverdict : b = true <-> work_ok params (equihash G) (GetHash hdr) (if easy then SQUISHY_MINDIFF_NBITS else h_nBits hdr)).
  { set (c := if easy then _ else _) in *. assert (Hc : is_u32 c) by (subst c; destruct easy; [by vm_compute|done]).
    pose proof (target_test params (equihash G) (GetHash hdr) c Hp (proj1 Hhash) (proj2 Hhash) Hc) as Ht. cbv zeta in Ht.
    rewrite (proj2 (Z.leb_gt height 1)), Hstaked, (proj2 (Z.gtb_lt height 792000)) in Hres by lia. cbn [orb negb Z.eqb] in Hres.
    destruct (SetCompact c) as [[t neg] ovf]. rewrite <- Ht. clear Ht.
    destruct (_ || gt256 t _); [injection Hres as <- _; by split; [|intros [? _]]|].
    destruct (gt256 _ t); injection Hres as <- _; split; (done || by intros [_ ?]). }
  split; intros Hr.
  - by rewrite (proj2 Heasy Hr) in Hverdict.
  - destruct easy; [by destruct (Hr (proj1 Heasy eq_refl))|done].
Qed.

Definition demo_elected (i : Z) : list bytes := (fun k => [2; Z.of_nat k]) <$> seq 0 64.
Definition demo_header : CBlockHeader := mkHeader 4 0 0 0 1500001000 0x1e00ffff 0 [].
Definition demo_hash (h : CBlockHeader) : bytes := repeat 1 32.

Lemma demo_above h : 1 < h -> squishy_chainactive demo_chain [Some 0; Some 1] h = Some None.
Proof.
  intros Hlt. unfold squishy_chainactive. replace (Tip [Some 0; Some 1]) with (Some 1) by reflexivity.
  replace (demo_chain !! 1) with (Some (demo_index 1 (Some 0))) by reflexivity.
  cbn [mbind option_bind]. change (nHeight (demo_index 1 (Some 0))) with 1. by rewrite (proj2 (Z.leb_gt h 1)).
Qed.

Lemma demo_hash_ok h : is_bytes (demo_hash h) /\ length (demo_hash h) = 32%nat.
Proof. split; [|done]. apply Forall_forall. intros x ->%list_elem_of_In%repeat_spec. by vm_compute. Qed.

Lemma fst_some {A B} (x : option (A * B)) (a : A) : fst <$> x = Some a -> exists b, x = Some (a, b).
Proof. destruct x as [[a' b]|]; [|done]. cbn. intros [= ->]. by exists b. Qed.

Lemma demo_bits : is_u32 (h_nBits demo_header).
Proof. by vm_compute. Qed.

Definition demo_rotation (pk : bytes) : Prop :=
  in_rotation demo_elected demo_elected [] demo_chain [Some 0; Some 1] (fun b => b) false true (fun _ => false) false
    (fun _ => None) 1000001 pk (h_nTime demo_header) notary_start.

Lemma demo_in : demo_rotation [2; 7].
Proof.
  split; [|split].
  - eexists _, _, _, 7. split; [vm_compute; reflexivity|]. split; [lia|]. vm_compute. reflexivity.
  - intros (i & p & v & Hi & Hp & _). rewrite demo_above in Hp by lia. discriminate Hp.
  - intros p b Hp. rewrite demo_above in Hp by lia. discriminate Hp.
Qed.

Lemma demo_out : ~ demo_rotation [3; 8].
Proof.
  intros [(n & keys & st & id & Hn & Hr & Hk) _]. vm_compute in Hn. injection Hn as <- <- <-.
  assert (H : forallb (fun k => negb (bool_decide (Some [3; 8] = (key_map (demo_elected 0)) !! (Z.of_nat k)))) (seq 0 64) = true) by (vm_compute; reflexivity).
  rewrite forallb_forall in H. specialize (H (Z.to_nat id) ltac:(apply in_seq; lia)). rewrite Z2Nat.id in H by lia.
  apply negb_true_iff, bool_decide_eq_false in H. by destruct H.
Qed.

(** The same header of a notary in rotation, of another key and of no key. *)
Lemma CheckProofOfWork_rotation_witness :
  let check pk := CheckProofOfWork (mkGlobals true 0 60 0) demo_params "" demo_elected demo_elected [] demo_chain [Some 0; Some 1]
    (fun b => b) false true (fun _ => false) false (fun _ => None) 1 demo_hash demo_header pk 1000001 notary_start in
  (exists st', check [2; 7] = Some (true, st')) /\ (exists st', check [3; 8] = Some (false, st')) /\
  (exists st', check (repeat 0 33) = Some (true, st')) /\
  work_ok demo_params true (demo_hash demo_header) SQUISHY_MINDIFF_NBITS /\ ~ work_ok demo_params true (demo_hash demo_header) 0x1e00ffff.
Proof.
  intros check.
  assert (V1 : fst <$> check [2; 7] = Some true) by (vm_compute; reflexivity).
  assert (V2 : fst <$> check [3; 8] = Some false) by (vm_compute; reflexivity).
  destruct (check (repeat 0 33)) as [[b0 st0]|] eqn:H0.
  2: { exfalso. assert (V : bool_decide (is_Some (fst <$> check (repeat 0 33))) = true) by (vm_compute; reflexivity).
       rewrite H0 in V. discriminate V. }
  apply fst_some in V1 as [st1 H1], V2 as [st2 H2].
  split; [exists st1; exact H1|]. split; [exists st2; exact H2|]. split.
  { exists st0. do 2 f_equal. exact (proj1 (CheckProofOfWork_rotation (mkGlobals true 0 60 0) demo_params demo_elected demo_elected [] demo_chain [Some 0; Some 1]
      (fun b => b) false true (fun _ => false) (fun _ => None) 1 demo_hash demo_header (repeat 0 33) 1000001 notary_start st0 b0
      eq_refl I eq_refl demo_params_ok (demo_hash_ok _) demo_bits H0) eq_refl). }
  split.
  - exact (proj1 (proj1 (proj2 (CheckProofOfWork_rotation (mkGlobals true 0 60 0) demo_params demo_elected demo_elected [] demo_chain [Some 0; Some 1]
      (fun b => b) false true (fun _ => false) (fun _ => None) 1 demo_hash demo_header [2; 7] 1000001 notary_start st1 true
      eq_refl I eq_refl demo_params_ok (demo_hash_ok _) demo_bits H1) eq_refl) demo_in) eq_refl).
  - intros Hw. discriminate (proj2 (proj2 (proj2 (CheckProofOfWork_rotation (mkGlobals true 0 60 0) demo_params demo_elected demo_elected [] demo_chain [Some 0; Some 1]
      (fun b => b) false true (fun _ => false) (fun _ => None) 1 demo_hash demo_header [3; 8] 1000001 notary_start st2 false
      eq_refl I eq_refl demo_params_ok (demo_hash_ok _) demo_bits H2) eq_refl) demo_out) Hw).
Defined.
