(* ===== verification/Upgrades.v ===== *)
(** * Network upgrades (src/src/consensus/upgrades.cpp, upgrades.h, params.h)

    The activation heights of the upgrades, in the order of their indices, and
    the epoch of a height.  [None] is a failed assertion. *)
From S2P Require Import Prelude.
#[local] Open Scope Z_scope.

(** ** Data *)

(** [Consensus::UpgradeIndex] *)
Definition BASE_SPROUT : nat := 0.
Definition UPGRADE_TESTDUMMY : nat := 1.
Definition UPGRADE_OVERWINTER : nat := 2.
Definition UPGRADE_SAPLING : nat := 3.
Definition MAX_NETWORK_UPGRADES : nat := 4.

Definition NO_ACTIVATION_HEIGHT : Z := -1.

Inductive UpgradeState := UPGRADE_DISABLED | UPGRADE_PENDING | UPGRADE_ACTIVE.

#[global] Instance UpgradeState_eq_dec : EqDecision UpgradeState.
Proof. solve_decision. Defined.

(** [nBranchId] of [NetworkUpgradeInfo] *)
Definition NetworkUpgradeInfo : list Z := [0; 0x74736554; 0x5ba81b19; 0x76b809bb].
Definition NSPV_BRANCHID : Z := 0x76b809bb.

Section Upgrades.
(** [params.vUpgrades[idx].nActivationHeight] *)
Variable vUpgrades : list Z.

Definition NetworkUpgradeState (nHeight : Z) (idx : nat) : option UpgradeState :=
  if nHeight <? 0 then None
  else
    nActivationHeight ← vUpgrades !! idx;
    Some (if nActivationHeight =? NO_ACTIVATION_HEIGHT then UPGRADE_DISABLED
          else if nHeight >=? nActivationHeight then UPGRADE_ACTIVE else UPGRADE_PENDING).

Definition NetworkUpgradeActive (nHeight : Z) (idx : nat) : option bool :=
  s ← NetworkUpgradeState nHeight idx; Some (bool_decide (s = UPGRADE_ACTIVE)).

(** [for (idxInt = n - 1; idxInt >= BASE_SPROUT; idxInt--)] *)
Fixpoint epoch_loop (nHeight : Z) (n : nat) : option nat :=
  match n with
  | O => Some BASE_SPROUT
  | S idx =>
    active ← NetworkUpgradeActive nHeight idx;
    if (active : bool) then Some idx else epoch_loop nHeight idx
  end.

Definition CurrentEpoch (nHeight : Z) : option nat := epoch_loop nHeight MAX_NETWORK_UPGRADES.

Definition CurrentEpochBranchId (superlite : bool) (nHeight : Z) : option Z :=
  if superlite then Some NSPV_BRANCHID
  else e ← CurrentEpoch nHeight; NetworkUpgradeInfo !! e.

Definition IsActivationHeight (nHeight : Z) (idx : nat) : option bool :=
  if (idx <? MAX_NETWORK_UPGRADES)%nat then
    if (idx =? BASE_SPROUT)%nat then Some false
    else a ← vUpgrades !! idx; Some ((nHeight >=? 0) && (nHeight =? a))
  else None.

Definition IsActivationHeightForAnyUpgrade (nHeight : Z) : bool :=
  if nHeight <? 0 then false
  else existsb (Z.eqb nHeight) (drop (S BASE_SPROUT) vUpgrades).

(** [for (idx = i; idx < MAX_NETWORK_UPGRADES; idx++)] *)
Fixpoint next_loop (nHeight : Z) (fuel idx : nat) : option (option nat) :=
  match fuel with
  | O => Some None
  | S fuel =>
    s ← NetworkUpgradeState nHeight idx;
    if bool_decide (s = UPGRADE_PENDING) then Some (Some idx) else next_loop nHeight fuel (S idx)
  end.

(** The outer [None] is a failed assertion, the inner one [boost::none]. *)
Definition NextEpoch (nHeight : Z) : option (option nat) :=
  if nHeight <? 0 then Some None
  else next_loop nHeight (MAX_NETWORK_UPGRADES - 1) (S BASE_SPROUT).

Definition NextActivationHeight (nHeight : Z) : option (option Z) :=
  idx ← NextEpoch nHeight;
  match idx with
  | Some idx => a ← vUpgrades !! idx; Some (Some a)
  | None => Some None
  end.
End Upgrades.

(** [branchId] is an [int], compared as [uint32_t]. *)
Definition IsConsensusBranchId (branchId : Z) : bool := existsb (Z.eqb (u32 branchId)) NetworkUpgradeInfo.

(** ** Facts *)

(** A schedule: four heights, each [NO_ACTIVATION_HEIGHT] or not negative, the
    base active from the start, and the enabled ones in the order of indices. *)
Definition schedule (v : list Z) : Prop :=
  length v = MAX_NETWORK_UPGRADES /\ v !! BASE_SPROUT = Some 0 /\
  (forall i a, v !! i = Some a -> -1 <= a) /\
  (forall i j a b, (i < j)%nat -> v !! i = Some a -> v !! j = Some b -> 0 <= a -> 0 <= b -> a <= b).

(** [idx] is enabled at height [h]. *)
Definition enabled_at (v : list Z) (h : Z) (idx : nat) : Prop := exists a, v !! idx = Some a /\ 0 <= a <= h.

Section Schedule.
Variables (v : list Z) (Hv : schedule v).

Lemma upgrade_height i : (i < MAX_NETWORK_UPGRADES)%nat -> exists a, v !! i = Some a /\ -1 <= a.
Proof using Hv.
  intros Hi. destruct (lookup_lt_is_Some_2 v i) as [a Ha]; [by rewrite (proj1 Hv)|]. exists a. split; [done|]. by apply (proj1 (proj2 (proj2 Hv)) i).
Qed.

Lemma NetworkUpgradeActive_spec h i : 0 <= h -> (i < MAX_NETWORK_UPGRADES)%nat ->
  exists b : bool, NetworkUpgradeActive v h i = Some b /\ (b = true <-> enabled_at v h i).
Proof using Hv.
  intros Hh Hi. destruct (upgrade_height i Hi) as (a & Ha & Hge). unfold NetworkUpgradeActive, NetworkUpgradeState, enabled_at.
  rewrite (proj2 (Z.ltb_ge h 0)) by done. rewrite Ha. cbn [mbind option_bind]. unfold NO_ACTIVATION_HEIGHT. rewrite Z.geb_leb.
  eexists. split; [done|]. rewrite bool_decide_eq_true. destruct (Z.eqb_spec a (-1)); [|destruct (Z.leb_spec a h)].
  - split; [done|]. intros (? & [= <-] & ?). lia.
  - split; [|done]. intros _. exists a. split; [done|lia].
  - split; [done|]. intros (? & [= <-] & ?). lia.
Qed.

Lemma epoch_loop_spec h n : 0 <= h -> (n <= MAX_NETWORK_UPGRADES)%nat ->
  exists e, epoch_loop v h n = Some e /\ (e < MAX_NETWORK_UPGRADES)%nat /\ enabled_at v h e /\
    forall j, (e < j < n)%nat -> ~ enabled_at v h j.
Proof using Hv.
  intros Hh. induction n as [|n IH]; intros Hn; cbn.
  - exists BASE_SPROUT. split; [done|]. split; [by vm_compute; lia|]. split; [|intros j Hj; lia].
    exists 0. split; [apply Hv|lia].
  - destruct (NetworkUpgradeActive_spec h n Hh Hn) as ([] & -> & Hb); cbn [mbind option_bind].
    + exists n. split; [done|]. split; [done|]. split; [by apply Hb|]. intros j Hj. lia.
    + destruct (IH ltac:(lia)) as (e & He & Hlt & Hen & Hmax). exists e. split_and!; [done|done|done|].
      intros j Hj. destruct (decide (j = n)) as [->|]; [|apply Hmax; lia]. rewrite <- Hb. done.
Qed.

Lemma next_loop_spec h fuel i : 0 <= h -> (i + fuel = MAX_NETWORK_UPGRADES)%nat ->
  exists r, next_loop v h fuel i = Some r /\
    match r with
    | Some j => (i <= j < MAX_NETWORK_UPGRADES)%nat /\ (exists a, v !! j = Some a /\ h < a) /\
        forall k a, (i <= k < j)%nat -> v !! k = Some a -> a <= h
    | None => forall k a, (i <= k < MAX_NETWORK_UPGRADES)%nat -> v !! k = Some a -> a <= h
    end.
Proof using Hv.
  intros Hh. revert i. induction fuel as [|fuel IH]; intros i Hi; cbn [next_loop].
  - exists None. split; [done|]. intros k a Hk. lia.
  - destruct (upgrade_height i ltac:(lia)) as (a & Ha & Hge). unfold NetworkUpgradeState.
    rewrite (proj2 (Z.ltb_ge h 0)) by done. rewrite Ha. cbn [mbind option_bind]. unfold NO_ACTIVATION_HEIGHT. rewrite Z.geb_leb.
    assert (Hskip : a <= h -> exists r, next_loop v h fuel (S i) = Some r /\
      match r with
      | Some j => (i <= j < MAX_NETWORK_UPGRADES)%nat /\ (exists a, v !! j = Some a /\ h < a) /\
          forall k a, (i <= k < j)%nat -> v !! k = Some a -> a <= h
      | None => forall k a, (i <= k < MAX_NETWORK_UPGRADES)%nat -> v !! k = Some a -> a <= h
      end).
    { intros Hle. destruct (IH (S i) ltac:(lia)) as (r & Hr & Hs). exists r. split; [done|]. destruct r as [j|].
      - destruct Hs as (Hj & Hex & Hk). split; [lia|]. split; [done|]. intros k b Hkr Hkb.
        destruct (decide (k = i)) as [->|]; [congruence|]. apply (Hk k); [lia|done].
      - intros k b Hkr Hkb. destruct (decide (k = i)) as [->|]; [congruence|]. apply (Hs k); [lia|done]. }
    destruct (Z.eqb_spec a (-1)); [|destruct (Z.leb_spec a h)].
    + rewrite bool_decide_eq_false_2 by done. apply Hskip. lia.
    + rewrite bool_decide_eq_false_2 by done. by apply Hskip.
    + rewrite bool_decide_eq_true_2 by done. exists (Some i). split; [done|]. split; [lia|]. split; [eauto|]. intros k b Hk. lia.
Qed.
End Schedule.

Lemma IsActivationHeightForAnyUpgrade_spec v h : 0 <= h ->
  IsActivationHeightForAnyUpgrade v h = true <-> exists i, (BASE_SPROUT < i)%nat /\ v !! i = Some h.
Proof.
  intros Hh. unfold IsActivationHeightForAnyUpgrade. rewrite (proj2 (Z.ltb_ge h 0)) by done. rewrite existsb_exists. split.
  - intros (x & Hx & ->%Z.eqb_eq). apply list_elem_of_In, list_elem_of_lookup in Hx as [k Hk]. rewrite lookup_drop in Hk.
    exists (1 + k)%nat. split; [unfold BASE_SPROUT; lia|done].
  - intros (i & Hi & Hl). exists h. split; [|apply Z.eqb_refl]. apply list_elem_of_In, list_elem_of_lookup.
    exists (i - 1)%nat. rewrite lookup_drop. unfold BASE_SPROUT in *. by replace (1 + (i - 1))%nat with i by lia.
Qed.

(** ** Properties *)

(** The upgrades cut the heights into epochs.  The epoch of a height is the last
    upgrade that activated by then; it never decreases, it changes exactly where
    a block is an activation height of the schedule, and until the next
    activation height it stays the same; after the last one it never changes. *)
Theorem upgrade_epochs (v : list Z) (h : Z) (Hv : schedule v) (Hh : 0 <= h) :
  exists e nxt, CurrentEpoch v h = Some e /\ NextActivationHeight v h = Some nxt /\
    enabled_at v h e /\ (forall j, (e < j < MAX_NETWORK_UPGRADES)%nat -> ~ enabled_at v h j) /\
    (forall h', h <= h' -> match nxt with Some a => h' < a | None => True end -> CurrentEpoch v h' = Some e) /\
    match nxt with
    | Some a => h < a /\ IsActivationHeightForAnyUpgrade v a = true /\
                exists e', CurrentEpoch v a = Some e' /\ (e < e')%nat
    | None => forall h', h < h' -> IsActivationHeightForAnyUpgrade v h' = false
    end.
Proof.
  destruct (epoch_loop_spec v Hv h MAX_NETWORK_UPGRADES Hh ltac:(done)) as (e & He & Hlt & Hen & Hmax).
  destruct (next_loop_spec v Hv h 3 1 Hh eq_refl) as (r & Hr & Hs).
  assert (Hnext : NextEpoch v h = Some r) by (unfold NextEpoch; rewrite (proj2 (Z.ltb_ge h 0)) by done; exact Hr).
  pose proof Hv as (Hlen & Hbase & Hneg & Hord).
  assert (Hstay : forall h', h <= h' -> (forall k a, (1 <= k)%nat -> v !! k = Some a -> h < a -> h' < a) -> CurrentEpoch v h' = Some e).
  { intros h' Hle Hno. destruct (epoch_loop_spec v Hv h' MAX_NETWORK_UPGRADES ltac:(lia) ltac:(done)) as (e' & He' & Hlt' & (a' & Ha' & Hr') & Hmax').
    unfold CurrentEpoch. rewrite He'. f_equal.
    assert (enabled_at v h e').
    { exists a'. split; [done|]. split; [lia|]. destruct (decide (e' = 0)%nat) as [->|].
      - unfold BASE_SPROUT in Hbase. rewrite Hbase in Ha'. injection Ha' as <-. lia.
      - destruct (Z.le_gt_cases a' h); [done|]. specialize (Hno e' a' ltac:(lia) Ha' ltac:(lia)). lia. }
    destruct (decide (e < e')%nat); [by destruct (Hmax e' ltac:(lia))|].
    destruct (decide (e' < e)%nat); [|lia]. destruct Hen as (a & Ha & Hra). destruct (Hmax' e ltac:(lia)). exists a. split; [done|lia]. }
  destruct r as [j|].
  - destruct Hs as ((Hj0 & Hj) & (a & Ha & Hlta) & Hbefore). exists e, (Some a).
    split; [exact He|]. split; [unfold NextActivationHeight; rewrite Hnext; cbn [mbind option_bind]; by rewrite Ha|].
    split; [done|]. split; [done|]. split.
    + intros h' Hle Hlt'. apply Hstay; [done|]. intros k b Hk Hb Hhb.
      destruct (decide (k < j)%nat); [specialize (Hbefore k b ltac:(lia) Hb); lia|].
      destruct (decide (k = j)) as [->|]; [congruence|]. specialize (Hord j k a b ltac:(lia) Ha Hb). lia.
    + split; [done|]. split; [apply IsActivationHeightForAnyUpgrade_spec; [lia|]; exists j; split; [unfold BASE_SPROUT; lia|done]|].
      destruct (epoch_loop_spec v Hv a MAX_NETWORK_UPGRADES ltac:(lia) ltac:(done)) as (e' & He' & _ & _ & Hmax').
      exists e'. split; [done|]. assert (j <= e')%nat.
      { destruct (decide (e' < j)%nat); [|lia]. destruct (Hmax' j ltac:(lia)). exists a. split; [done|lia]. }
      assert (e < j)%nat; [|lia]. destruct (decide (e < j)%nat); [done|]. destruct Hen as (b & Hb & Hrb).
      destruct (decide (e = j)) as [->|]; [rewrite Ha in Hb; injection Hb as ->; lia|]. specialize (Hord j e a b ltac:(lia) Ha Hb). lia.
  - exists e, None. split; [exact He|]. split; [unfold NextActivationHeight; by rewrite Hnext|]. split; [done|]. split; [done|]. split.
    + intros h' Hle _. apply Hstay; [done|]. intros k b Hk Hb Hhb. apply lookup_lt_Some in Hb as Hkl.
      specialize (Hs k b ltac:(lia) Hb). lia.
    + intros h' Hlt'. apply not_true_is_false. intros (i & Hi & Hl)%IsActivationHeightForAnyUpgrade_spec; [|lia].
      apply lookup_lt_Some in Hl as Hil. unfold BASE_SPROUT in *. specialize (Hs i h' ltac:(lia) Hl). lia.
Qed.

Lemma upgrade_epochs_witness :
  CurrentEpoch [0; -1; 207500; 280000] 279999 = Some UPGRADE_OVERWINTER /\
  NextActivationHeight [0; -1; 207500; 280000] 279999 = Some (Some 280000) /\ CurrentEpoch [0; -1; 207500; 280000] 280000 = Some UPGRADE_SAPLING.
Proof.
  assert (Hs : schedule [0; -1; 207500; 280000]).
  { split; [done|]. split; [done|]. split.
    - intros [|[|[|[|i]]]] a; cbn; intros [= <-]; lia.
    - intros [|[|[|[|i]]]] [|[|[|[|j]]]] a b Hij; cbn; intros [= <-] [= <-]; lia. }
  destruct (upgrade_epochs [0; -1; 207500; 280000] 279999 Hs ltac:(lia)) as (e & nxt & He & Hn & _ & _ & _ & H).
  vm_compute in He. injection He as <-. vm_compute in Hn. injection Hn as <-. destruct H as (_ & _ & e' & He' & Hlt).
  vm_compute in He'. injection He' as <-. split; [by vm_compute|]. split; by vm_compute.
Defined.
