(* ===== verification/Checkpoints.v ===== *)
(** * Checkpoints (the notarisations of src/src/squishy_structs.cpp and
      squishy_notary.cpp, squishy_checkpoint and squishy_MoM of
      squishy_bitcoind.cpp, and src/src/checkpoints.cpp)

    The list of notarised checkpoints of a chain with the cached position of
    the last search, the queries on it, and the rule that refuses a fork below
    the last notarisation.  [None] is an access out of bounds or a null
    pointer. *)
From S2P Require Import Prelude BlockIndex.
From stdpp Require Import sorting.
#[local] Open Scope Z_scope.

(** ** Notarised checkpoints *)

Record notarized_checkpoint := mkCheckpoint {
  notarized_hash : Z; notarized_desttxid : Z; MoM : Z; MoMoM : Z;
  cp_nHeight : Z; notarized_height : Z; MoMdepth : Z; MoMoMdepth : Z; MoMoMoffset : Z;
  kmdstarti : Z; kmdendi : Z
}.

#[global] Instance checkpoint_eq_dec : EqDecision notarized_checkpoint.
Proof. solve_decision. Defined.

(** A default-constructed checkpoint. *)
Definition null_checkpoint : notarized_checkpoint := mkCheckpoint 0 0 0 0 0 0 0 0 0 0 0.

(** [NPOINTS], [NPOINTS_last_index] (mutable) and [last]. *)
Record squishy_state := mkState {
  NPOINTS : list notarized_checkpoint; NPOINTS_last_index : nat; last_cp : notarized_checkpoint
}.

Definition empty_state : squishy_state := mkState [] 0 null_checkpoint.

Definition AddCheckpoint (cp : notarized_checkpoint) (sp : squishy_state) : squishy_state :=
  mkState (NPOINTS sp ++ [cp]) (NPOINTS_last_index sp) cp.

Definition squishy_notarized_update (nHeight height hash desttxid mom depth : Z) (sp : squishy_state) : squishy_state :=
  if height >=? nHeight then sp
  else AddCheckpoint (mkCheckpoint hash desttxid mom 0 nHeight height depth 0 0 0 0) sp.

(** [for (i = ...; i < NPOINTS.size(); i++)] over the rest [l] of the list from
    position [i]: whether a checkpoint at the height or above was met, [np] as a
    position, and the cached position. *)
Fixpoint search_loop (l : list notarized_checkpoint) (i : nat) (nHeight : Z) (np : option nat) (cached : nat)
    : bool * option nat * nat :=
  match l with
  | [] => (false, np, cached)
  | p :: l => if cp_nHeight p >=? nHeight then (true, np, cached) else search_loop l (S i) nHeight (Some i) i
  end.

(** From the cached position. *)
Definition cached_search (sp : squishy_state) (nHeight : Z) : option (bool * option nat * nat) :=
  let k := NPOINTS_last_index sp in
  if (k <? length (NPOINTS sp))%nat && (0 <? k)%nat then
    p ← NPOINTS sp !! (k - 1)%nat;
    Some (if cp_nHeight p <? nHeight then search_loop (drop k (NPOINTS sp)) k nHeight (Some (k - 1)%nat) k
          else (false, Some (k - 1)%nat, k))
  else Some (false, None, k).

(** The hash, the transaction and the height, and the state with the cache moved. *)
Definition NotarizedData (sp : squishy_state) (nHeight : Z) : option (Z * Z * Z * squishy_state) :=
  if (length (NPOINTS sp) =? 0)%nat then Some (0, 0, 0, sp)
  else
    r ← cached_search sp nHeight;
    let '(found, np, cached) := r in
    let '(_, np, cached) := if (found : bool) then (found, np, cached) else search_loop (NPOINTS sp) 0 nHeight None cached in
    let sp := mkState (NPOINTS sp) cached (last_cp sp) in
    match np with
    | Some i => p ← NPOINTS sp !! i; Some (notarized_hash p, notarized_desttxid p, notarized_height p, sp)
    | None => Some (0, 0, 0, sp)
    end.

Definition PrevMoMHeight (sp : squishy_state) : Z :=
  if negb (MoM (last_cp sp) =? 0) then notarized_height (last_cp sp)
  else
    match list_find (fun p => MoM p <> 0) (rev (NPOINTS sp)) with
    | Some (_, p) => notarized_height p
    | None => 0
    end.

(** [blockheight]: the height of the index entry of a hash, if there is one. *)
Definition NotarizedHeight (blockheight : Z -> option Z) (sp : squishy_state) : Z * option (Z * Z * Z) * squishy_state :=
  let orphaned :=
    let l := last_cp sp in
    mkState (NPOINTS sp) (NPOINTS_last_index sp)
      (mkCheckpoint 0 0 (MoM l) (MoMoM l) (cp_nHeight l) 0 (MoMdepth l) (MoMoMdepth l) (MoMoMoffset l) (kmdstarti l) (kmdendi l)) in
  match blockheight (notarized_hash (last_cp sp)) with
  | Some h => if h <? 0 then (0, None, orphaned)
              else (notarized_height (last_cp sp),
                    Some (PrevMoMHeight sp, notarized_hash (last_cp sp), notarized_desttxid (last_cp sp)), sp)
  | None => (0, None, orphaned)
  end.

Definition covers (p : notarized_checkpoint) (height : Z) : bool :=
  negb (MoMdepth p =? 0) && (height >? notarized_height p - Z.land (MoMdepth p) 0xffff) && (height <=? notarized_height p).

(** From the newest to the oldest. *)
Definition CheckpointAtHeight (sp : squishy_state) (height : Z) : option notarized_checkpoint :=
  snd <$> list_find (fun p => covers p height = true) (rev (NPOINTS sp)).

(** [squishy_npptr], [squishy_MoMdata] and [squishy_MoM] on the chain's state:
    the depth, and the notarised height, the MoM and the transaction. *)
Definition squishy_MoMdata (sp : option squishy_state) (height : Z) : Z * (Z * Z * Z) :=
  match sp ≫= (fun sp => CheckpointAtHeight sp height) with
  | Some np => (Z.land (MoMdepth np) 0xffff, (notarized_height np, MoM np, notarized_desttxid np))
  | None => (0, (0, 0, 0))
  end.

Definition squishy_MoM (sp : option squishy_state) (nHeight : Z) : Z * (Z * Z * Z) :=
  let '(depth, (notarized_ht, mom, kmdtxid)) := squishy_MoMdata sp nHeight in
  (depth, if negb (depth =? 0) && (notarized_ht >? 0) && (nHeight >? notarized_ht - depth) && (nHeight <=? notarized_ht)
          then (notarized_ht, mom, kmdtxid) else (0, 0, 0)).

(** The confirmations reported, and the static [hadnotarization]. *)
Definition squishy_dpowconfs (SQUISHY_DPOWCONFS : Z) (sp : option squishy_state) (txheight numconfs : Z) (hadnotarization : bool)
    : Z * bool :=
  match sp with
  | Some sp =>
    if negb (SQUISHY_DPOWCONFS =? 0) && (txheight >? 0) && (numconfs >? 0) then
      if notarized_height (last_cp sp) >? 0
      then ((if txheight <? notarized_height (last_cp sp) then numconfs else 1), true)
      else if hadnotarization then (1, hadnotarization) else (numconfs, hadnotarization)
    else (numconfs, hadnotarization)
  | None => (numconfs, hadnotarization)
  end.

(** ** The last notarisation as a rule *)

Section Fork.
Variables (objs : store) (mapBlockIndex : gmap Z (option Z)) (chainActive : list (option Z)).

Definition squishy_blockindex (hash : Z) : option Z := default None (mapBlockIndex !! hash).

(** The verdict, the notarised height (as written) and the state. *)
Definition squishy_checkpoint (ht hash : Z) (sp : squishy_state) : option (bool * Z * squishy_state) :=
  match Tip chainActive with
  | None => Some (false, 0, sp)
  | Some tip =>
    b ← objs !! tip;
    r ← NotarizedData sp (nHeight b);
    let '(nhash, _, nht, sp) := r in
    if (nht >=? 0) && (nht <=? nHeight b) then
      match squishy_blockindex nhash with
      | Some notary =>
        e ← objs !! notary;
        if nHeight e =? nht then
          Some (if ht <? nht then false else if (ht =? nht) && negb (hash =? nhash) then false else true, nht, sp)
        else Some (true, nht, sp)
      | None => Some (true, nht, sp)
      end
    else Some (true, nht, sp)
  end.
End Fork.

(** ** Hard-coded checkpoints (checkpoints.cpp) *)

(** [mapCheckpoints], in the order of heights. *)
Definition Checkpoints_CheckBlock (mapCheckpoints : list (Z * Z)) (nHeight hash : Z) : bool :=
  match list_find (fun c => c.1 = nHeight) mapCheckpoints with
  | Some (_, c) => hash =? c.2
  | None => true
  end.

Definition GetTotalBlocksEstimate (mapCheckpoints : list (Z * Z)) : Z :=
  match list.last mapCheckpoints with Some c => c.1 | None => 0 end.

(** The entry of the newest checkpoint whose block is known; the outer [None]:
    there is none, the inner one: a null pointer is stored. *)
Definition GetLastCheckpoint (mapBlockIndex : gmap Z (option Z)) (mapCheckpoints : list (Z * Z)) : option (option Z) :=
  match list_find (fun c => is_Some (mapBlockIndex !! c.2)) (rev mapCheckpoints) with
  | Some (_, c) => mapBlockIndex !! c.2
  | None => None
  end.

(** ** Facts: the search *)

(** The number of checkpoints before the first at [h] or above. *)
Fixpoint prefix_below (h : Z) (l : list notarized_checkpoint) : nat :=
  match l with
  | [] => 0
  | p :: l => if cp_nHeight p <? h then S (prefix_below h l) else 0
  end.

Lemma prefix_below_le h l : (prefix_below h l <= length l)%nat.
Proof. induction l as [|p l IH]; cbn; [done|]. destruct (_ <? h); lia. Qed.

Lemma search_loop_spec l i h np cached :
  search_loop l i h np cached =
  let k := prefix_below h l in
  ((k <? length l)%nat, (if (k =? 0)%nat then np else Some (i + k - 1)%nat), (if (k =? 0)%nat then cached else (i + k - 1)%nat)).
Proof.
  revert i np cached. induction l as [|p l IH]; intros i np cached; [done|]. cbn [search_loop prefix_below length]. rewrite Z.geb_leb, Z.leb_antisym.
  destruct (cp_nHeight p <? h); cbn [negb]; [|done]. rewrite IH. cbv zeta. change (S ?a <? S ?b)%nat with (a <? b)%nat. cbn [Nat.eqb].
  destruct (prefix_below h l) as [|k]; cbn [Nat.eqb].
  - by replace (i + 1 - 1)%nat with i by lia.
  - by replace (S i + S k - 1)%nat with (i + S (S k) - 1)%nat by lia.
Qed.

Definition ordered (l : list notarized_checkpoint) : Prop := StronglySorted (fun p q => cp_nHeight p <= cp_nHeight q) l.

Lemma ordered_app l1 l2 : ordered (l1 ++ l2) <->
  ordered l1 /\ ordered l2 /\ forall p q, p ∈ l1 -> q ∈ l2 -> cp_nHeight p <= cp_nHeight q.
Proof. unfold ordered. rewrite StronglySorted_app. tauto. Qed.

(** The last checkpoint below a height. *)
Definition last_below (h : Z) (l : list notarized_checkpoint) : option notarized_checkpoint :=
  list.last (filter (fun p => cp_nHeight p < h) l).

Lemma filter_prefix h l : ordered l -> filter (fun p => cp_nHeight p < h) l = take (prefix_below h l) l.
Proof.
  induction l as [|p l IH]; intros Hs; [done|]. apply StronglySorted_inv in Hs as [Hs Hall]. rewrite filter_cons. cbn [prefix_below].
  destruct (Z.ltb_spec (cp_nHeight p) h).
  - rewrite decide_True by done. cbn [take]. by rewrite IH.
  - rewrite decide_False by lia. cbn [take]. clear IH Hs. induction Hall as [|q l Hq _ IH]; [done|]. rewrite filter_cons, decide_False by lia. exact IH.
Qed.

Lemma last_below_prefix h l : ordered l ->
  last_below h l = match prefix_below h l with O => None | S k => l !! k end.
Proof.
  intros Hs. unfold last_below. rewrite filter_prefix by done. pose proof (prefix_below_le h l). rewrite last_lookup, length_take_le by done.
  destruct (prefix_below h l) as [|k]; [done|]. cbn [Nat.pred]. by rewrite lookup_take_lt by lia.
Qed.

(** In order, a checkpoint below [h] has only checkpoints below [h] before it. *)
Lemma prefix_below_drop h l k p : ordered l -> l !! k = Some p -> cp_nHeight p < h ->
  prefix_below h l = (S k + prefix_below h (drop (S k) l))%nat.
Proof.
  revert k. induction l as [|q l IH]; intros [|k] Hs Hk Hlt; try done.
  - injection Hk as ->. cbn. by rewrite (proj2 (Z.ltb_lt _ _)).
  - apply StronglySorted_inv in Hs as [Hs Hall]. cbn [prefix_below drop]. cbn in Hk.
    rewrite (proj2 (Z.ltb_lt _ _)), (IH k Hs Hk Hlt); [done|]. rewrite Forall_lookup in Hall. specialize (Hall k p Hk). lia.
Qed.

Definition answer (r : option notarized_checkpoint) : Z * Z * Z :=
  match r with Some p => (notarized_hash p, notarized_desttxid p, notarized_height p) | None => (0, 0, 0) end.

(** In order, the search from the cached position finds what the search from the
    start finds. *)
Lemma NotarizedData_spec sp h : ordered (NPOINTS sp) ->
  exists cached, NotarizedData sp h = Some (answer (last_below h (NPOINTS sp)), mkState (NPOINTS sp) cached (last_cp sp)).
Proof.
  intros Hs. destruct sp as [l k lc]. cbn [NPOINTS last_cp] in *. unfold NotarizedData, cached_search. cbn [NPOINTS NPOINTS_last_index last_cp].
  rewrite (last_below_prefix h l Hs). destruct (Nat.eqb_spec (length l) 0) as [Hl|Hl].
  { destruct l; [|done]. exists k. done. }
  assert (Hlinear : forall cached, let '(_, np, cached) := search_loop l 0 h None cached in
    exists c', match np with
      | Some i => p ← l !! i; Some (notarized_hash p, notarized_desttxid p, notarized_height p, mkState l cached lc)
      | None => Some (0, 0, 0, mkState l cached lc)
      end = Some (answer (match prefix_below h l with O => None | S k => l !! k end), mkState l c' lc)).
  { intros cached. rewrite search_loop_spec. cbv zeta. pose proof (prefix_below_le h l). destruct (prefix_below h l) as [|m]; cbn [Nat.eqb].
    - by exists cached.
    - replace (0 + S m - 1)%nat with m by lia. destruct (lookup_lt_is_Some_2 l m ltac:(lia)) as [p Hp]. rewrite Hp. cbn [mbind option_bind answer]. by exists m. }
  destruct (Nat.ltb_spec k (length l)) as [Hk|]; [destruct (Nat.ltb_spec 0 k) as [Hk0|]|]; cbn [andb mbind option_bind].
  2,3: specialize (Hlinear k); destruct (search_loop l 0 h None k) as [[f np] c]; exact Hlinear.
  destruct (lookup_lt_is_Some_2 l (k - 1) ltac:(lia)) as [p Hp]. rewrite Hp. cbn [mbind option_bind].
  destruct (Z.ltb_spec (cp_nHeight p) h) as [Hlt|].
  2: { specialize (Hlinear k). destruct (search_loop l 0 h None k) as [[f np] c]. exact Hlinear. }
  rewrite search_loop_spec. cbv zeta. pose proof (prefix_below_drop h l (k - 1) p Hs Hp Hlt) as Hd. replace (S (k - 1)) with k in Hd by lia.
  pose proof (prefix_below_le h (drop k l)) as Hle. rewrite length_drop in Hle |- *.
  destruct (Nat.ltb_spec (prefix_below h (drop k l)) (length l - k)) as [Hf|].
  2: { match goal with |- context [search_loop l 0 h None ?c] => specialize (Hlinear c) end. destruct (search_loop l 0 h None _) as [[f np] c]. exact Hlinear. }
  rewrite Hd. destruct (Nat.eqb_spec (prefix_below h (drop k l)) 0) as [E|E].
  - rewrite E, Hp. cbn [mbind option_bind]. replace (k + 0)%nat with (S (k - 1)) by lia. rewrite Hp. by exists k.
  - destruct (lookup_lt_is_Some_2 l (k + prefix_below h (drop k l) - 1) ltac:(lia)) as [q Hq]. rewrite Hq. cbn [mbind option_bind].
    replace (k + prefix_below h (drop k l))%nat with (S (k + prefix_below h (drop k l) - 1)) by lia. rewrite Hq. cbn [answer]. by eexists.
Qed.

(** ** Properties *)

(** States reached from the empty one by notarisations seen at block heights that
    do not decrease and by queries. *)
Inductive cp_reachable : squishy_state -> Prop :=
| cp_empty : cp_reachable empty_state
| cp_update sp ht nht h txid mom depth : cp_reachable sp ->
    (forall p, list.last (NPOINTS sp) = Some p -> cp_nHeight p <= ht) ->
    cp_reachable (squishy_notarized_update ht nht h txid mom depth sp)
| cp_query sp h r sp' : cp_reachable sp -> NotarizedData sp h = Some (r, sp') -> cp_reachable sp'.

Lemma cp_reachable_inv sp : cp_reachable sp ->
  ordered (NPOINTS sp) /\ (forall p, p ∈ NPOINTS sp -> notarized_height p < cp_nHeight p) /\
  match list.last (NPOINTS sp) with Some p => last_cp sp = p | None => last_cp sp = null_checkpoint end.
Proof.
  induction 1 as [|sp ht nht h txid mom depth _ (IH & Hbelow & Hlast) Hle|sp h r sp' _ (IH & Hbelow & Hlast) Hq].
  - split; [constructor|]. split; [intros p []%elem_of_nil|done].
  - unfold squishy_notarized_update. rewrite Z.geb_leb. destruct (Z.leb_spec ht nht); [done|]. cbn [AddCheckpoint NPOINTS last_cp]. split_and!.
    + apply ordered_app. split; [done|]. split; [repeat constructor|]. intros p q Hp ->%list_elem_of_singleton. cbn [cp_nHeight].
      destruct (NPOINTS sp) as [|x l _] using rev_ind; [by apply elem_of_nil in Hp|]. specialize (Hle x (last_snoc _ _)).
      apply elem_of_app in Hp as [Hp| ->%list_elem_of_singleton]; [|done]. apply ordered_app in IH as (_ & _ & H').
      specialize (H' p x Hp ltac:(by left)). lia.
    + intros p [Hp| ->%list_elem_of_singleton]%elem_of_app; [by apply Hbelow|]. cbn. lia.
    + by rewrite last_snoc.
  - destruct (NotarizedData_spec sp h IH) as (cached & Hd). rewrite Hd in Hq. by injection Hq as _ <-.
Qed.

Lemma last_below_Some h l p : last_below h l = Some p -> p ∈ l /\ cp_nHeight p < h.
Proof. intros H. apply last_Some_elem_of, list_elem_of_filter in H. tauto. Qed.

(** C26: the position cached between searches never changes an answer: in every state
    the chain can reach, whatever was asked before, [NotarizedData] returns the
    data of the last checkpoint below the height, the one a search from the start
    finds, and changes nothing but the cached position. *)
Theorem NotarizedData_cache_transparent (sp : squishy_state) (h : Z) (Hsp : cp_reachable sp) :
  exists cached, NotarizedData sp h =
    Some (answer (last_below h (NPOINTS sp)), mkState (NPOINTS sp) cached (last_cp sp)).
Proof. apply NotarizedData_spec. by apply cp_reachable_inv. Qed.

(** [squishy_checkpoint] under a notarisation whose block is in the index at its height. *)
Lemma squishy_checkpoint_spec (objs : store) (mapBlockIndex : gmap Z (option Z)) (chain : list (option Z))
  (sp : squishy_state) (tip q : Z) (b e : CBlockIndex) (cp : notarized_checkpoint) (ht hash : Z)
  (Hsp : cp_reachable sp) (Htip : Tip chain = Some tip) (Hb : objs !! tip = Some b)
  (Hcp : last_below (nHeight b) (NPOINTS sp) = Some cp) (Hpos : 0 <= notarized_height cp)
  (Hq : mapBlockIndex !! notarized_hash cp = Some (Some q)) (He : objs !! q = Some e)
  (Hh : nHeight e = notarized_height cp) :
  exists v sp', squishy_checkpoint objs mapBlockIndex chain ht hash sp = Some (v, notarized_height cp, sp') /\
    cp_reachable sp' /\
    (v = true <-> notarized_height cp < ht \/ (ht = notarized_height cp /\ hash = notarized_hash cp)).
Proof.
  destruct (cp_reachable_inv sp Hsp) as (Hord & Hbelow & _). destruct (NotarizedData_spec sp (nHeight b) Hord) as (cached & Hd).
  destruct (last_below_Some _ _ _ Hcp) as [Hin Hlt]. specialize (Hbelow cp Hin).
  unfold squishy_checkpoint. rewrite Htip, Hb. cbn [mbind option_bind]. rewrite Hd, Hcp. cbn [answer mbind option_bind].
  rewrite Z.geb_leb, !(proj2 (Z.leb_le _ _)) by lia. cbn [andb]. unfold squishy_blockindex. rewrite Hq. cbn [default from_option id].
  change (id (Some q)) with (Some q). rewrite He. cbn [mbind option_bind]. rewrite Hh, Z.eqb_refl.
  eexists _, _. split; [done|]. split; [by eapply cp_query|].
  destruct (Z.ltb_spec ht (notarized_height cp)); [split; [done|lia]|].
  destruct (Z.eqb_spec ht (notarized_height cp)); cbn [andb]; [|split; [lia|done]].
  destruct (Z.eqb_spec hash (notarized_hash cp)); cbn [negb]; [split; [auto|done]|]. split; [done|]. intros [?|[_ ?]]; [lia|done].
Qed.

(** Notarised blocks are final.  Once the last notarisation below the tip names a
    block of the index at its height, [squishy_checkpoint] accepts a header exactly
    if it is above the notarised height, or is the notarised block itself. *)
Theorem notarised_final (objs : store) (mapBlockIndex : gmap Z (option Z)) (chain : list (option Z))
  (sp : squishy_state) (tip q : Z) (b e : CBlockIndex) (cp : notarized_checkpoint) (ht hash : Z)
  (Hsp : cp_reachable sp) (Htip : Tip chain = Some tip) (Hb : objs !! tip = Some b)
  (Hcp : last_below (nHeight b) (NPOINTS sp) = Some cp) (Hpos : 0 <= notarized_height cp)
  (Hq : mapBlockIndex !! notarized_hash cp = Some (Some q)) (He : objs !! q = Some e)
  (Hh : nHeight e = notarized_height cp) :
  exists v sp', squishy_checkpoint objs mapBlockIndex chain ht hash sp = Some (v, notarized_height cp, sp') /\
    cp_reachable sp' /\
    (v = true <-> notarized_height cp < ht \/ (ht = notarized_height cp /\ hash = notarized_hash cp)).
Proof. by eapply squishy_checkpoint_spec. Qed.

(** [squishy_MoM] gives the newest checkpoint that covers the height. *)
Lemma squishy_MoM_newest sp h depth nht mom txid : squishy_MoM (Some sp) h = (depth, (nht, mom, txid)) -> 0 < nht ->
  exists l1 p l2, NPOINTS sp = l1 ++ p :: l2 /\ covers p h = true /\ Forall (fun p => covers p h = false) l2 /\
    depth = Z.land (MoMdepth p) 0xffff /\ nht = notarized_height p /\ mom = MoM p /\ txid = notarized_desttxid p /\ nht - depth < h <= nht.
Proof.
  unfold squishy_MoM, squishy_MoMdata, CheckpointAtHeight. cbn [mbind option_bind].
  destruct (list_find (fun p => covers p h = true) (rev (NPOINTS sp))) as [[i p]|] eqn:E; cbn [fmap option_fmap option_map snd].
  2: { intros [= <- <- <- <-]. lia. }
  apply list_find_Some in E as (Hi & Hc & Hfirst). destruct (_ && (h <=? notarized_height p)) eqn:Ec; intros [= <- <- <- <-]; [|lia]. intros _.
  apply take_drop_middle in Hi. apply (f_equal (@rev _)) in Hi. rewrite rev_involutive, rev_app_distr in Hi. cbn [rev] in Hi. rewrite <- app_assoc in Hi.
  exists (rev (drop (S i) (rev (NPOINTS sp)))), p, (rev (take i (rev (NPOINTS sp)))). split; [symmetry; exact Hi|]. split; [done|].
  rewrite !andb_true_iff, Z.gtb_lt, Z.leb_le, Z.gtb_lt in Ec. split_and!; try done; try lia.
  apply Forall_rev, Forall_lookup. intros j x Hx. apply lookup_take_Some in Hx as [Hx Hj]. specialize (Hfirst j x Hx Hj). by apply not_true_is_false.
Qed.

(** Checkpoints that arrive out of order, as after a reorganisation: the answer
    for a height depends on what was asked before. *)
Definition at_height (ht nht : Z) : squishy_state -> squishy_state := squishy_notarized_update ht nht (100 + nht) 0 0 0.
Definition disordered : squishy_state := at_height 22 8 (at_height 20 7 (at_height 5 2 (at_height 10 4 empty_state))).

Lemma NotarizedData_depends_on_history :
  (exists s1, NotarizedData disordered 7 = Some (0, 0, 0, s1)) /\
  (exists s1 s2, NotarizedData disordered 21 = Some (107, 0, 7, s1) /\ NotarizedData s1 7 = Some (102, 0, 2, s2)).
Proof. split; [by eexists|]. by eexists _, _. Qed.

Definition in_order3 : squishy_state := at_height 30 20 (at_height 20 10 (at_height 10 5 empty_state)).

Lemma in_order3_reachable : cp_reachable in_order3.
Proof. repeat (apply cp_update; [|intros p; vm_compute; intros [= <-]; discriminate || (intros; discriminate)]); try apply cp_empty; done. Qed.

Lemma NotarizedData_cache_transparent_witness :
  exists s1 s2, NotarizedData in_order3 25 = Some (110, 0, 10, s1) /\ NPOINTS_last_index s1 = 1%nat /\
    NotarizedData s1 15 = Some (105, 0, 5, s2).
Proof.
  destruct (NotarizedData_cache_transparent in_order3 25 in_order3_reachable) as (c1 & H1).
  pose proof (cp_query _ _ _ _ in_order3_reachable H1) as Hr.
  destruct (NotarizedData_cache_transparent _ 15 Hr) as (c2 & H2).
  eexists _, _. split; [exact H1|]. split; [|exact H2]. vm_compute in H1. by injection H1.
Defined.

Definition demo_entry (h hash : Z) : CBlockIndex :=
  mkIndex hash None None h 0 0 0 [] 0 0 0 None None 0 None 4 0 0 0 0 0 [] 0.
Definition demo_objs : store := <[1 := demo_entry 26 126]> {[ 0 := demo_entry 10 110 ]}.
Definition demo_map : gmap Z (option Z) := <[126 := Some 1]> {[ 110 := Some 0 ]}.

Lemma notarised_final_witness :
  (exists s1, squishy_checkpoint demo_objs demo_map (replicate 26 None ++ [Some 1]) 10 110 in_order3 = Some (true, 10, s1)) /\
  (exists s1, squishy_checkpoint demo_objs demo_map (replicate 26 None ++ [Some 1]) 10 111 in_order3 = Some (false, 10, s1)).
Proof.
  pose proof (fun ht hash => notarised_final demo_objs demo_map (replicate 26 None ++ [Some 1]) in_order3 1 0
    (demo_entry 26 126) (demo_entry 10 110) (mkCheckpoint 110 0 0 0 20 10 0 0 0 0 0) ht hash in_order3_reachable
    eq_refl eq_refl eq_refl ltac:(vm_compute; discriminate) eq_refl eq_refl eq_refl) as H.
  split.
  - destruct (H 10 110) as (v & s1 & H1 & _ & Hv). exists s1. rewrite H1. repeat f_equal. apply Hv. right. done.
  - destruct (H 10 111) as (v & s1 & H1 & _ & Hv). exists s1. rewrite H1. repeat f_equal. apply not_true_is_false.
    intros [Hlt|[_ E]]%Hv; [by vm_compute in Hlt|by vm_compute in E].
Defined.
