(* ===== verification/BlockChecks.v ===== *)
(** * Checks of a block (src/src/main.cpp, squishy_gateway.cpp, squishy_bitcoind.cpp)

    CheckTransaction, the check of the coinbase's extra outputs, CheckBlockHeader
    and CheckBlock, and the checks against the chain a block extends:
    ContextualCheckBlockHeader, ContextualCheckTransaction and
    ContextualCheckBlock.  A verdict [Thrown] is undefined behaviour or a failed
    assertion.  The Equihash verifier, the shielded proofs and signatures, the
    rules of staked chains and the recomputed merkle OP_RETURN are parameters; the
    exchange of the memory pool with [tmpmempool] on crypto-condition chains is
    not modelled. *)
From Stdlib Require Ascii String.
From S2P Require Import Prelude Serialize Transaction Compressor Arith256 Interest Script Interpreter SigHash Seasons CheckTx BlockIndex BlockMerkle BlockTree Standard Notary Pow CheckPow Upgrades Checkpoints.
From stdpp Require Import strings.
Import String.StringSyntax.
#[local] Open Scope string_scope.
#[local] Open Scope Z_scope.

(** A block with the ids of its transactions. *)
Record CBlock := mkBlock { hdr : CBlockHeader; vtx : list (Z * CMutableTransaction) }.

(** ** Computations that read and extend the notary tables *)

Definition ncheck (A : Type) : Type := notary_state -> verdict A * notary_state.

#[global] Instance ncheck_ret : MRet ncheck := fun A a st => (inr a, st).
#[global] Instance ncheck_bind : MBind ncheck := fun A B f m st =>
  match m st with
  | (inl e, st') => (inl e, st')
  | (inr a, st') => f a st'
  end.

Definition nstop {A} (r : reject) : ncheck A := fun st => (inl r, st).
Definition nstop_if (b : bool) (r : reject) : ncheck unit := if b then nstop r else mret tt.
Definition of_verdict {A} (v : verdict A) : ncheck A := fun st => (v, st).
(** A notary function; [None] is undefined behaviour. *)
Definition of_notary {A} (f : notary_state -> option (A * notary_state)) : ncheck A := fun st =>
  match f st with Some (a, st') => (inr a, st') | None => (inl Thrown, st) end.
Definition n_of_option {A} (o : option A) : ncheck A := match o with Some a => mret a | None => nstop Thrown end.

(** ** Transactions *)

Definition banned_txids : list Z :=
  [0x78cb4e21245c26b015b888b14c4f5096e18137d2741a6de9734d62b07014dfca;
   0x00697be658e05561febdee1aafe368b821ca33fbb89b7027365e3d77b5dfede5;
   0xe909465788b32047c472d73e882d79a92b0d550f90be008f76e1edaee6d742ea;
   0xf56c6873748a327d0b92b8108f8ec8505a2843a541b1926022883678fb24f9dc;
   0xabf08be07d8f5b3a433ddcca7ef539e79a3571632efd6d0294ec0492442a0204;
   0x3b854b996cc982fba8c06e76cf507ae7eed52ab92663f4c0d7d10b3ed879c3b0;
   0xfa9e474c2cda3cb4127881a40eb3f682feaba3f3328307d518589024a6032cc4;
   0xca746fa13e0113c4c0969937ea2c66de036d20274efad4ce114f6b699f1bc0f3;
   0x43ce88438de4973f21b1388ffe66e68fda592da38c6ef939be10bb1b86387041;
   0x0aeb748de82f209cd5ff7d3a06f65543904c4c17387c9d87c65fd44b14ad8f8c;
   0xbbd3a3d9b14730991e1066bd7c626ca270acac4127131afe25f877a5a886eb25;
   0xfa9943525f2e6c32cbc243294b08187e314d83a2870830180380c3c12a9fd33c;
   0xa01671c8775328a41304e31a6693bbd35e9acbab28ab117f729eaba9cb769461;
   0x2ef49d2d27946ad7c5d5e4ab5c089696762ff04e855f8ab48e83bdf0cc68726d;
   0xc85dcffb16d5a45bd239021ad33443414d60224760f11d535ae2063e5709efee;
   0xc4ea1462c207547cd6fb6a4155ca6d042b22170d29801a465db5c09fec55b19d;
   0x305dc96d8bc23a69d3db955e03a6a87c1832673470c32fe25473a46cc473c7d1].

(** [*indallvoutsp = i-2] *)
Definition indallvouts : Z := zlen banned_txids - 2.

Definition squishy_checkvout (vout k indallvouts : Z) : bool :=
  if k <? indallvouts then vout =? 1
  else if (k =? indallvouts) || (k =? indallvouts + 1) then true
  else vout =? 0.

(** [array[k]] with its index, for an input. *)
Definition is_banned (p : COutPoint) : bool :=
  existsb (fun kb => (hash p =? kb.2) && squishy_checkvout (i32 (n p)) kb.1 indallvouts)
    (imap (fun k b => (Z.of_nat k, b)) banned_txids).

Definition GetLegacySigOpCount (tx : CMutableTransaction) : Z :=
  u32 (sum_Z (map (fun i => GetSigOpCount false (scriptSig i)) (vin tx))
       + sum_Z (map (fun o => GetSigOpCount false (scriptPubKey o)) (vout tx))).

Section Transactions.
Variables (A : abi) (R : chain_rules) (Hash160 : bytes -> bytes) (notaryvout : bytes -> Z -> bool) (symbol : string).
(** [ASSETCHAINS_STAKED], [squishy_newStakerActive(0, .)] and [DecodeStakingOpRet]. *)
Variables (ASSETCHAINS_STAKED : Z) (newStakerActive : Z -> bool) (DecodeStakingOpRet : bytes -> bool).
(** [JSDescription::Verify] with the key of the transaction. *)
Variable joinsplit_Verify : JSDescription -> CMutableTransaction -> bool.

Definition CheckTransaction (tiptime : Z) (tx : CMutableTransaction) (txid txIndex numTxs : Z) : verdict unit :=
  if isKMD symbol && existsb (fun i => is_banned (prevout i)) (vin tx) then inl Failed
  else if negb (ASSETCHAINS_STAKED =? 0) && newStakerActive tiptime && (zlen (vout tx) =? 2)
          && match vout tx with [_; o] => DecodeStakingOpRet (scriptPubKey o) | _ => false end
          && ((numTxs =? 0) || negb (txIndex =? numTxs - 1))
  then inl (DoS 100 "bad-txns-stakingtx")
  else
    _ ← CheckTransactionWithoutProofVerification A R Hash160 notaryvout tiptime tx txid;
    reject_if (negb (forallb (fun js => joinsplit_Verify js tx) (vjoinsplit tx)))
      (DoS 100 "bad-txns-joinsplit-verification-failed") (inr tt).
End Transactions.

(** ** The coinbase's extra outputs and the banned outputs (squishy_check_deposit) *)

Record chain_env := mkEnv {
  env_symbol : string;                    (** [chainName] *)
  ASSETCHAINS_COMMISSION : Z; ASSETCHAINS_FOUNDERS_REWARD : Z; ASSETCHAINS_CC : Z;
  MAX_BLOCK_SIGOPS : Z; saplinght : Z;    (** the Sapling height [MAX_BLOCK_SIZE] reads *)
  vUpgrades : list Z
}.

(** What the loop over the coinbase's outputs from the second on collects. *)
Record extra_outputs := mkExtra { overflow : bool; strangeout : Z; total : Z }.

Fixpoint extra_loop (MAX_MONEY : Z) (i : Z) (outs : list CTxOut) (strangeout total prevtotal : Z) : verdict extra_outputs :=
  match outs with
  | [] => inr (mkExtra false strangeout total)
  | o :: outs =>
    let val := nValue o in
    if (val <? 0) || (val >=? MAX_MONEY) then inr (mkExtra true strangeout total)
    else
      strange ← (if i >? 1 then
                   match scriptPubKey o with
                   | b :: _ => inr (negb (b =? 0x6a) && (val <? 5000))
                   | [] => inl Thrown
                   end
                 else inr false);
      let strangeout := if (strange : bool) then strangeout + 1 else strangeout in
      let total := u64 (total + val) in
      if (total <? u64 prevtotal) || (negb (val =? 0) && (total =? u64 prevtotal))
      then inr (mkExtra true strangeout total)
      else extra_loop MAX_MONEY (i + 1) outs strangeout total (i64 total)
  end.

Section Deposit.
Variables (E : chain_env) (MAX_MONEY : Z).
(** [GetTransaction] (the transaction), [GetBlockSubsidy], [squishy_checkcommission]. *)
Variables (GetTransaction : Z -> option CMutableTransaction) (GetBlockSubsidy : Z -> Z) (squishy_checkcommission : CBlock -> Z -> Z).
(** [squishy_electednotary(&num, key, height, 0)], and the memory after the
    buffer of a script: the 33 bytes of the key are read from the script's second
    byte on, whatever its length. *)
Variables (electednotary : Z -> bytes -> notary_state -> option (Z * notary_state)) (beyond : bytes -> bytes).

(** Whether the last transaction proves a notary: [None] is undefined behaviour. *)
Definition notary_proof (block : CBlock) : option bool :=
  let txs := vtx block in
  match list.last txs with
  | Some (_, tl) =>
    if (1 <? zlen txs) && match vout tl with o :: _ => nValue o =? 5000 | [] => false end then
      match vin tl with
      | [i] =>
        let found := match GetTransaction (hash (prevout i)) with
                     | Some tx => Some tx
                     | None => snd <$> find (fun t => t.1 =? hash (prevout i)) txs
                     end in
        match found with
        | Some tx =>
          cb ← txs !! 0%nat;
          o0 ← vout cb.2 !! 0%nat;
          o ← vout tx !! Z.to_nat (n (prevout i));
          Some (bool_decide (scriptPubKey o0 = scriptPubKey o))
        | None => Some false
        end
      | _ => Some false
      end
    else Some false
  | None => Some false
  end.

(** The result: 0, or -1 for a block that is refused. *)
Definition squishy_check_deposit (height : Z) (block : CBlock) : ncheck Z :=
  let txs := vtx block in
  let kmd := isKMD (env_symbol E) in
  notmatched ← n_of_option (if kmd then notary_proof block else Some false);
  if kmd && existsb (fun t => existsb (fun i => is_banned (prevout i)) (vin t.2)) txs then mret (-1)
  else
    sapling ← n_of_option (if kmd then Some true else NetworkUpgradeActive (vUpgrades E) height UPGRADE_SAPLING);
    let commission := negb (ASSETCHAINS_COMMISSION E =? 0) || negb (ASSETCHAINS_FOUNDERS_REWARD E =? 0) in
    if kmd || (commission && (height >? 1)) || sapling then
      cb ← n_of_option (txs !! 0%nat);
      x ← of_verdict (extra_loop MAX_MONEY 1 (drop 1 (vout cb.2)) 0 0 0);
      if kmd then
        if (overflow x || (total x >? COIN / 10)) && (height >=? 235300) then mret (-1)
        else if negb (overflow x || (total x >? COIN / 10)) && (h_nBits (hdr block) =? SQUISHY_MINDIFF_NBITS) && (total x >? 0)
                && (height >? 814000) then mret (-1)
        else if negb (strangeout x =? 0) || notmatched then
          mret (if (height >? 1000000) && negb (strangeout x =? 0) then -1 else 0)
        else if height >? 814000 then
          o0 ← n_of_option (vout cb.2 !! 0%nat);
          let key := take 33 (drop 1 (scriptPubKey o0) ++ beyond (scriptPubKey o0)) in
          id ← of_notary (electednotary height key);
          mret (if (id >=? 0) && (height >? 1000000) then -1 else 0)
        else mret 0
      else
        let checktoshis := if commission && (height >? 1) then squishy_checkcommission block height else 0 in
        if checktoshis <? 0 then mret (-1)
        else
          checktoshis ← (if (height >? 1) && (checktoshis =? 0) then
                           o0 ← n_of_option (vout cb.2 !! 0%nat);
                           mret (i64 (u64 (GetBlockSubsidy height) - nValue o0))
                         else mret checktoshis);
          mret (if (height >=? 2) && (overflow x || (total x >? u64 checktoshis) || negb (strangeout x =? 0)) then -1 else 0)
    else mret 0.
End Deposit.

(** ** CheckBlockHeader *)

Section Header.
Variables (G : chain_globals).
(** [CheckEquihashSolution] and [GetTime()]. *)
Variables (CheckEquihashSolution : CBlockHeader -> bool) (GetTime : Z).

Definition MIN_BLOCK_VERSION : Z := 4.

(** [*futureblockp] and the verdict. *)
Definition CheckBlockHeader (height : Z) (h : CBlockHeader) (fCheckPOW : bool) : bool * verdict unit :=
  if ADAPTIVEPOW G >? 0 then
    if h_nTime h >? GetTime + 4 then (false, inl Failed) else
    (false, reject_if ((height >? 0) && (h_nVersion h <? MIN_BLOCK_VERSION)) (DoS 100 "version-too-low")
            (reject_if (fCheckPOW && negb (CheckEquihashSolution h)) (DoS 100 "invalid-solution") (inr tt)))
  else if h_nTime h >? GetTime + 60 then (h_nTime h <? GetTime + 300, inl Failed)
  else
    (false, reject_if ((height >? 0) && (h_nVersion h <? MIN_BLOCK_VERSION)) (DoS 100 "version-too-low")
            (reject_if (fCheckPOW && negb (CheckEquihashSolution h)) (DoS 100 "invalid-solution") (inr tt))).
End Header.

(** ** CheckBlock *)

Section CheckBlock.
Variables (E : chain_env) (G : chain_globals) (params : pow_params) (R : chain_rules) (A : abi).
(** The notary tables and the chain. *)
Variables (notaries_elected notaries_STAKED : Z -> list bytes) (GenesisNotaries : list (string * bytes))
  (objs : store) (chainActive : list (option Z)).
Variables (Hash160 : bytes -> bytes) (cc fix_active : bool) (supported : bytes -> bool)
  (LOADINGBLOCKS : bool) (blockload : Z -> option (list CTxOut)) (currentheight : Z).
Variables (GetHash : CBlockHeader -> bytes) (hash2 : Z -> Z -> Z).
Variables (notaryvout : bytes -> Z -> bool) (newStakerActive : Z -> bool) (DecodeStakingOpRet : bytes -> bool)
  (joinsplit_Verify : JSDescription -> CMutableTransaction -> bool).
Variables (GetTransaction : Z -> option CMutableTransaction) (GetBlockSubsidy : Z -> Z)
  (squishy_checkcommission : CBlock -> Z -> Z) (beyond : bytes -> bytes).
Variables (CheckEquihashSolution : CBlockHeader -> bool) (GetTime : Z).
(** [squishy_checkPOW(0,1,...)], and [squishy_checkopret]. *)
Variables (squishy_checkPOW : CBlock -> Z -> Z) (squishy_checkopret : CBlock -> bool).
(** What an uninitialised buffer for a key holds. *)
Variable garbage : bytes.

Let chosennotary := squishy_chosennotary (env_symbol E) notaries_elected notaries_STAKED GenesisNotaries objs chainActive.
Let electednotary (height : Z) (key : bytes) : notary_state -> option (Z * notary_state) := fun st =>
  r ← squishy_electednotary (env_symbol E) notaries_elected notaries_STAKED GenesisNotaries objs chainActive key height 0 st;
  let '(id, _, st) := r in Some (id, st).
Let proof_of_work := CheckProofOfWork G params (env_symbol E) notaries_elected notaries_STAKED GenesisNotaries objs chainActive
  Hash160 cc fix_active supported LOADINGBLOCKS blockload currentheight GetHash.

Definition block_size (block : CBlock) : option Z :=
  txs ← mapM (fun t => SerializeTransaction A t.2) (vtx block);
  Some (zlen (ser c_header (hdr block)) + zlen (WriteCompactSize (zlen (vtx block))) + sum_Z (map zlen txs)).

Fixpoint check_transactions (tiptime i count : Z) (l : list (Z * CMutableTransaction)) : verdict unit :=
  match l with
  | [] => inr tt
  | (txid, tx) :: l =>
    _ ← CheckTransaction A R Hash160 notaryvout (env_symbol E) (STAKED G) newStakerActive DecodeStakingOpRet joinsplit_Verify
          tiptime tx txid i count;
    check_transactions tiptime (i + 1) count l
  end.

Definition block_sigops (l : list (Z * CMutableTransaction)) : Z := u32 (sum_Z (map (fun t => GetLegacySigOpCount t.2) l)).

(** The checks before the Merkle root: the proof of work of the key the coinbase
    pays, and the merkle OP_RETURN of notaries. *)
Definition check_work (height tiptime : Z) (block : CBlock) (fCheckPOW : bool) : ncheck unit :=
  pubkey33 ← (if fCheckPOW then
                cb ← n_of_option (vtx block !! 0%nat);
                mret (squishy_block2pubkey33 Hash160 cc fix_active supported LOADINGBLOCKS (vout cb.2))
              else mret garbage);
  _ ← (if fCheckPOW then
         ok ← of_notary (proof_of_work (hdr block) pubkey33 height);
         _ ← nstop_if (negb ok) (DoS 50 "high-hash");
         nstop_if ((STAKED G =? 0) && (squishy_checkPOW block height <? 0)) (DoS 100 "failed-slow_checkPOW")
       else mret tt);
  if (height >? nDecemberHardforkHeight) && isKMD (env_symbol E) then
    r ← of_notary (fun st => r ← chosennotary height pubkey33 tiptime st; let '(special, id, st) := r in Some (id, st));
    nstop_if (((r >? 0) || ((r =? 0) && (height >? 2437300))) && negb (squishy_checkopret block))
      (DoS 100 "failed-merkle-opret-in-easy-mined")
  else mret tt.

Definition check_structure (height : Z) (block : CBlock) (fCheckMerkleRoot : bool) : verdict unit :=
  let txs := vtx block in
  _ ← (if fCheckMerkleRoot then
         let '(root, mutated) := ComputeMerkleRoot hash2 (map fst txs) in
         reject_if (negb (hashMerkleRoot (hdr block) =? root)) (Corrupted 100 "bad-txnmrklroot")
         (reject_if mutated (Corrupted 100 "bad-txns-duplicate") (inr tt))
       else inr tt);
  match block_size block with
  | None => inl Thrown
  | Some size =>
    reject_if (is_nil txs || (zlen txs >? MAX_BLOCK_SIZE (saplinght E) height) || (size >? MAX_BLOCK_SIZE (saplinght E) height))
      (DoS 100 "bad-blk-length")
    (match txs with
     | [] => inl (DoS 100 "bad-cb-missing")
     | cb :: rest =>
       reject_if (negb (IsCoinBase cb.2)) (DoS 100 "bad-cb-missing")
       (reject_if (existsb (fun t => IsCoinBase t.2) rest) (DoS 100 "bad-cb-multiple") (inr tt))
     end)
  end.

(** [*futureblockp] and the verdict.  [prev_time] is the time of the block before,
    where the entry of the block and its parent are known. *)
Definition CheckBlock (height : Z) (prev_time : option Z) (block : CBlock) (fCheckPOW fCheckMerkleRoot : bool)
    : bool * ncheck unit :=
  let '(future, hv) := CheckBlockHeader G CheckEquihashSolution GetTime height (hdr block) fCheckPOW in
  let tiptime := default (h_nTime (hdr block)) prev_time in
  (future,
   _ ← (if future then mret tt else of_verdict hv);
   _ ← check_work height tiptime block fCheckPOW;
   _ ← of_verdict (check_structure height block fCheckMerkleRoot);
   if negb (ASSETCHAINS_CC E =? 0) && negb fCheckPOW then mret tt
   else
     _ ← of_verdict (check_transactions tiptime 0 (zlen (vtx block)) (vtx block));
     _ ← nstop_if (block_sigops (vtx block) >? MAX_BLOCK_SIGOPS E) (Corrupted 100 "bad-blk-sigops");
     if fCheckPOW then
       d ← squishy_check_deposit E (MAX_MONEY R) GetTransaction GetBlockSubsidy squishy_checkcommission electednotary beyond height block;
       nstop_if (d <? 0) Failed
     else mret tt).
End CheckBlock.

(** ** Checks against the chain a block extends *)

Section Contextual.
Variables (E : chain_env) (G : chain_globals) (params : pow_params).
Variables (objs : store) (mapBlockIndex : gmap Z (option Z)) (chainActive : list (option Z)).
Variables (GetTime : Z) (hashGenesisBlock : Z) (GetHash : CBlockHeader -> Z).
Variables (fCheckpointsEnabled : bool) (mapCheckpoints : list (Z * Z)).

Definition known_block (nHeight hash : Z) : bool :=
  match chain_at chainActive nHeight ≫= (fun p => objs !! p) with
  | Some b => phashBlock b =? hash
  | None => false
  end.

Definition check_time (pindexPrev : Z) (prev : CBlockIndex) (ht : Z) (h : CBlockHeader) : verdict unit :=
  (if (ADAPTIVEPOW G <=? 0) || (ht <? 30) then
     match GetMedianTimePast objs pindexPrev with
     | Some t => reject_if (h_nTime h <=? t) (Invalid "time-too-old") (inr tt)
     | None => inl Thrown
     end
   else reject_if (h_nTime h <=? bi_nTime prev) (Invalid "time-too-old") (inr tt)) ≫= fun _ =>
  reject_if (h_nTime h >? GetTime + nMaxFutureBlockTime params) (Invalid "time-too-new") (inr tt).

(** [inr true]: accepted at once. *)
Definition check_fork (ht hash : Z) (sp : squishy_state) : verdict bool * squishy_state :=
  if negb fCheckpointsEnabled then (inr false, sp)
  else if negb (Checkpoints_CheckBlock mapCheckpoints ht hash) then (inl (DoS 100 "checkpoint mismatch"), sp)
  else if (ht =? 1) && match Tip chainActive ≫= (fun t => objs !! t) with Some b => nHeight b >? 1 | None => false end
  then (if known_block ht hash then inr true else inl (DoS 1 ""), sp)
  else if negb (ht =? 0) then
    if match (GetLastCheckpoint mapBlockIndex mapCheckpoints ≫= id) ≫= (fun p => objs !! p) with Some c => ht <? nHeight c | None => false end
    then (inl (DoS 1 ""), sp)
    else
      match squishy_checkpoint objs mapBlockIndex chainActive ht hash sp with
      | None => (inl Thrown, sp)
      | Some (true, _, sp) => (inr false, sp)
      | Some (false, _, sp) => (if known_block ht hash then inr true else inl (DoS 1 ""), sp)
      end
  else (inr false, sp).

Definition ContextualCheckBlockHeader (h : CBlockHeader) (pindexPrev : option Z) (sp : squishy_state)
    : verdict unit * squishy_state :=
  if GetHash h =? hashGenesisBlock then (inr tt, sp)
  else
    match pindexPrev with
    | None => (inl Thrown, sp)
    | Some p =>
      match objs !! p, GetNextWorkRequired G params objs (Some p) (Some (h_nTime h)) with
      | Some prev, Some required =>
        let ht := i32 (nHeight prev + 1) in
        if (negb (isKMD (env_symbol E)) || (ht <? 235300) || (ht >? 236000)) && negb (h_nBits h =? required)
        then (inl (DoS 100 "bad-diffbits"), sp)
        else
          match check_time p prev ht h with
          | inl r => (inl r, sp)
          | inr _ =>
            let '(v, sp) := check_fork ht (GetHash h) sp in
            (accepted ← v;
             if (accepted : bool) then inr tt else reject_if (h_nVersion h <? 4) (Invalid "bad-version") (inr tt), sp)
          end
      | _, _ => (inl Thrown, sp)
      end
    end.
End Contextual.

(** *** Transactions in their block *)

Definition squishy_validate_interest (SQUISHY_REWIND : Z) (kmd : bool) (tx : CMutableTransaction) (txheight cmptime : Z) : bool :=
  if (SQUISHY_REWIND =? 0) && kmd && (nLockTime tx >=? LOCKTIME_THRESHOLD) && (txheight >? 246748) then
    let cmptime := if txheight <? 247205 then u32 (cmptime - 16000) else cmptime in
    negb (nLockTime tx <? u32 (cmptime - SQUISHY_MAXMEMPOOLTIME))
  else true.

Definition SAPLING_MIN_TX_VERSION : Z := 4.
Definition SAPLING_MAX_TX_VERSION : Z := 4.
Definition OVERWINTER_MAX_TX_VERSION : Z := 3.
Definition MAX_TX_SIZE_BEFORE_SAPLING : Z := 100000.

Section ContextualTransaction.
Variables (E : chain_env) (R : chain_rules) (A : abi) (Hash160 : bytes -> bytes).
(** [NetworkUpgradeActive] of the block's height, and the flags of the node. *)
Variables (isInitBlockDownload : bool) (ASSETCHAINS_TIMELOCKGTE : Z) (squishy_ac_block_subsidy : Z -> Z)
  (squishy_block_unlocktime : Z -> Z).
(** [SignatureHash] over an empty script, Ed25519, and the Sapling verifier with
    its context. *)
Variables (sighash : CMutableTransaction -> Z -> option Z) (ed25519_verify : CMutableTransaction -> Z -> bool).
Context {ctx : Type} (ctx_init : ctx) (check_spend : SpendDescription -> Z -> ctx -> bool * ctx)
  (check_output : OutputDescription -> ctx -> bool * ctx) (final_check : CMutableTransaction -> Z -> ctx -> bool).

Definition ContextualCheckCoinbaseTransaction (tx : CMutableTransaction) (nHeight : Z) : verdict bool :=
  match GetValueOut (MAX_MONEY R) tx with
  | None => inl Thrown
  | Some value =>
    if (u64 value >=? ASSETCHAINS_TIMELOCKGTE) || (squishy_ac_block_subsidy nHeight >=? ASSETCHAINS_TIMELOCKGTE) then
      match vout tx with
      | [o0; o1] =>
        if IsPayToScriptHash (scriptPubKey o0) && (zlen (scriptPubKey o1) >=? 7) && (at_ (scriptPubKey o1) 0 =? OP_RETURN) then
          let r := GetOp2 (drop 1 (scriptPubKey o1)) in
          match op_data r with
          | b :: opretScript =>
            if op_ok r && (b =? OPRETTYPE_TIMELOCK) && bool_decide (Hash160 opretScript = slice (scriptPubKey o0) 2 22) then
              match IsCheckLockTimeVerify opretScript with
              | Some (Some unlocktime) => inr (squishy_block_unlocktime nHeight =? unlocktime)
              | Some None => inl Thrown
              | None => inr false
              end
            else inr false
          | [] => inr false
          end
        else inr false
      | _ => inr false
      end
    else inr true
  end.

(** The rules of the epoch for the version of a transaction. *)
Definition check_epoch (tx : CMutableTransaction) (nHeight dosLevel : Z) (overwinterActive saplingActive : bool) : verdict unit :=
  let ht := default 0 (vUpgrades E !! UPGRADE_OVERWINTER) in
  let ibd := fun d => if isInitBlockDownload then 0 else d in
  _ ← reject_if (negb overwinterActive && fOverwintered tx)
        (DoS (if (ht <? 0) || (nHeight <? ht) then 0 else dosLevel) "tx-overwinter-not-active") (inr tt);
  _ ← (if saplingActive then
         reject_if ((nVersion tx >=? SAPLING_MIN_TX_VERSION) && negb (fOverwintered tx)) (DoS dosLevel "tx-overwintered-flag-not-set")
         (reject_if (fOverwintered tx && negb (nVersionGroupId tx =? SAPLING_VERSION_GROUP_ID))
            (DoS (ibd dosLevel) "bad-sapling-tx-version-group-id")
         (reject_if (fOverwintered tx && (nVersion tx <? SAPLING_MIN_TX_VERSION)) (DoS 100 "bad-tx-sapling-version-too-low")
         (reject_if (fOverwintered tx && (nVersion tx >? SAPLING_MAX_TX_VERSION)) (DoS 100 "bad-tx-sapling-version-too-high") (inr tt))))
       else if overwinterActive then
         reject_if ((nVersion tx >=? OVERWINTER_MIN_TX_VERSION) && negb (fOverwintered tx)) (DoS dosLevel "tx-overwinter-flag-not-set")
         (reject_if (fOverwintered tx && negb (nVersionGroupId tx =? OVERWINTER_VERSION_GROUP_ID))
            (DoS (ibd dosLevel) "bad-overwinter-tx-version-group-id")
         (reject_if (fOverwintered tx && (nVersion tx >? OVERWINTER_MAX_TX_VERSION)) (DoS 100 "bad-tx-overwinter-version-too-high") (inr tt)))
       else inr tt);
  _ ← (if overwinterActive then
         reject_if (negb (fOverwintered tx))
           (DoS (if negb (ASSETCHAINS_PRIVATE R =? 0) || (ht <? 0) || (nHeight <? ht) then 0 else dosLevel) "tx-overwinter-active")
         (reject_if (IsExpiredTx tx nHeight)
            (DoS (if IsExpiredTx tx (nHeight - 1) then (if dosLevel >? 10 then dosLevel else 10) else 0) "tx-overwinter-expired") (inr tt))
       else inr tt);
  if negb saplingActive then
    match SerializeTransaction A tx with
    | None => inl Thrown
    | Some bs => reject_if (zlen bs >? MAX_TX_SIZE_BEFORE_SAPLING) (DoS 100 "bad-txns-oversize") (inr tt)
    end
  else inr tt.

Fixpoint check_spends (l : list SpendDescription) (data : Z) (c : ctx) : verdict ctx :=
  match l with
  | [] => inr c
  | d :: l => let '(ok, c) := check_spend d data c in
              reject_if (negb ok) (DoS 100 "bad-txns-sapling-spend-description-invalid") (check_spends l data c)
  end.

Fixpoint check_sapling_outputs (l : list OutputDescription) (c : ctx) : verdict ctx :=
  match l with
  | [] => inr c
  | d :: l => let '(ok, c) := check_output d c in
              reject_if (negb ok) (DoS 100 "bad-txns-sapling-output-description-invalid") (check_sapling_outputs l c)
  end.

(** The proofs and signatures of the shielded parts; the data to be signed is
    null where the code does not compute it. *)
Definition check_shielded (tx : CMutableTransaction) (nHeight branchId : Z) : verdict unit :=
  let shielded := negb (is_nil (vShieldedSpend tx)) || negb (is_nil (vShieldedOutput tx)) in
  data ← (if negb (IsMint tx) && (negb (is_nil (vjoinsplit tx)) || shielded) then
            match sighash tx branchId with
            | Some d => inr d
            | None => inl (DoS 100 "error-computing-signature-hash")
            end
          else inr 0);
  _ ← reject_if (negb (IsMint tx || is_nil (vjoinsplit tx)) && negb (ed25519_verify tx data))
        (DoS (if isInitBlockDownload then 0 else 100) "bad-txns-invalid-joinsplit-signature") (inr tt);
  _ ← (if IsCoinBase tx then
         ok ← ContextualCheckCoinbaseTransaction tx nHeight;
         reject_if (negb ok) (DoS 100 "bad-txns-invalid-script-data-for-coinbase-time-lock") (inr tt)
       else inr tt);
  if shielded then
    c ← check_spends (vShieldedSpend tx) data ctx_init;
    c ← check_sapling_outputs (vShieldedOutput tx) c;
    reject_if (negb (final_check tx data c)) (DoS 100 "bad-txns-sapling-binding-signature-invalid") (inr tt)
  else inr tt.

Definition ContextualCheckTransaction (tx : CMutableTransaction) (nHeight dosLevel : Z) : verdict unit :=
  match NetworkUpgradeActive (vUpgrades E) nHeight UPGRADE_OVERWINTER, NetworkUpgradeActive (vUpgrades E) nHeight UPGRADE_SAPLING,
        CurrentEpochBranchId (vUpgrades E) false nHeight with
  | Some overwinterActive, Some saplingActive, Some branchId =>
    _ ← check_epoch tx nHeight dosLevel overwinterActive saplingActive;
    check_shielded tx nHeight branchId
  | _, _, _ => inl Thrown
  end.

(** *** The block *)

Variables (SQUISHY_REWIND : Z) (params : pow_params) (objs : store) (chainHeight : Z).
(** [squishy_block2height]. *)
Variable squishy_block2height : CBlock -> Z.

Fixpoint contextual_loop (ht txheight cmptime blocktime : Z) (l : list (Z * CMutableTransaction)) : verdict unit :=
  match l with
  | [] => inr tt
  | (_, tx) :: l =>
    _ ← reject_if (negb (squishy_validate_interest SQUISHY_REWIND (isKMD (env_symbol E)) tx txheight cmptime))
          (DoS 0 "squishy-interest-invalid") (inr tt);
    _ ← ContextualCheckTransaction tx ht 100;
    _ ← reject_if (negb (IsFinalTx (isKMD (env_symbol E)) chainHeight tx ht blocktime)) (DoS 10 "bad-txns-nonfinal") (inr tt);
    contextual_loop ht txheight cmptime blocktime l
  end.

Definition starts_with (pre l : bytes) : bool := bool_decide (take (length pre) l = pre).

Definition ContextualCheckBlock (block : CBlock) (pindexPrev : option Z) : verdict unit :=
  match (ht ← (match pindexPrev with None => Some 0 | Some p => b ← objs !! p; Some (i32 (nHeight b + 1)) end);
         _ ← NetworkUpgradeActive (vUpgrades E) ht UPGRADE_SAPLING; Some ht) with
  | None => inl Thrown
  | Some ht =>
    let txheight := if ht =? 0 then squishy_block2height block else ht in
    let late := isKMD (env_symbol E) && match nHF22Height params with Some h => u32 txheight >? h | None => false end in
    match (match pindexPrev with
           | Some p => if late then t ← GetMedianTimePast objs p; Some (u32 (t + 777)) else Some (h_nTime (hdr block))
           | None => Some (h_nTime (hdr block))
           end) with
    | None => inl Thrown
    | Some cmptime =>
      _ ← contextual_loop ht txheight cmptime (h_nTime (hdr block)) (vtx block);
      if ht >? 0 then
        match vtx block with
        | (_, cb) :: _ =>
          match vin cb with
          | i :: _ => reject_if (negb (starts_with (push_int64 ht []) (scriptSig i))) (DoS 100 "bad-cb-height") (inr tt)
          | [] => inl Thrown
          end
        | [] => inl Thrown
        end
      else inr tt
    end
  end.
End ContextualTransaction.

(** ** Facts: what acceptance implies *)

Lemma ncheck_bind_inr {A B} (m : ncheck A) (f : A -> ncheck B) st b st' :
  (m ≫= f) st = (inr b, st') <-> exists a st1, m st = (inr a, st1) /\ f a st1 = (inr b, st').
Proof.
  unfold mbind, ncheck_bind. destruct (m st) as [[e|a] st1].
  - split; [done|]. by intros (? & ? & [=] & _).
  - split; [eauto|]. by intros (? & ? & [= -> ->] & ?).
Qed.

Lemma nstop_if_inr b r st st' u : nstop_if b r st = (inr u, st') <-> b = false /\ st' = st.
Proof. unfold nstop_if, nstop. destruct b; [by split; [|intros []]|]. destruct u. split; [by intros [= <-]|by intros [_ ->]]. Qed.

Lemma of_verdict_inr {A} (v : verdict A) st a st' : of_verdict v st = (inr a, st') <-> v = inr a /\ st' = st.
Proof. unfold of_verdict. split; [by intros [= -> ->]|by intros [-> ->]]. Qed.

Lemma n_of_option_inr {A} (o : option A) st a st' : n_of_option o st = (inr a, st') <-> o = Some a /\ st' = st.
Proof. destruct o; cbn; unfold mret, ncheck_ret, nstop; split; [by intros [= -> ->]|by intros [[= ->] ->]|done|by intros []]. Qed.

Lemma of_notary_inr {A} (f : notary_state -> option (A * notary_state)) st a st' :
  of_notary f st = (inr a, st') <-> f st = Some (a, st').
Proof. unfold of_notary. destruct (f st) as [[b s]|]; split; congruence. Qed.

Lemma nret_inr {A} (a b : A) st st' : (mret a : ncheck A) st = (inr b, st') <-> a = b /\ st' = st.
Proof. unfold mret, ncheck_ret. split; [by intros [= -> ->]|by intros [-> ->]]. Qed.

(** Decompose an accepted chain of checks. *)
Ltac n_accepted :=
  repeat match goal with
  | H : (_ ≫= _) _ = (inr _, _) |- _ => apply ncheck_bind_inr in H as (? & ? & ? & H)
  | H : nstop_if _ _ _ = (inr _, _) |- _ => apply nstop_if_inr in H as [? ->]
  | H : of_verdict _ _ = (inr _, _) |- _ => apply of_verdict_inr in H as [? ->]
  | H : n_of_option _ _ = (inr _, _) |- _ => apply n_of_option_inr in H as [? ->]
  | H : of_notary _ _ = (inr _, _) |- _ => apply of_notary_inr in H
  | H : mret _ _ = (inr _, _) |- _ => apply nret_inr in H as [? ->]
  | H : reject_if _ _ _ = inr _ |- _ => apply reject_if_inr in H as [? H]
  end.

(** The coinbase's outputs from the second on add up to at most the bound. *)
Lemma extra_loop_total M i outs so t pt x : extra_loop M i outs so t pt = inr x -> overflow x = false ->
  0 < M <= 2 ^ 63 -> is_u64 t -> pt = i64 t ->
  total x = t + sum_Z (map nValue outs) /\ Forall (fun o => 0 <= nValue o < M) outs.
Proof.
  revert i so t pt. induction outs as [|o outs IH]; intros i so t pt H Ho HM Ht Hpt; cbn [extra_loop] in H.
  - injection H as <-. cbn. split; [lia|done].
  - destruct (Z.ltb_spec (nValue o) 0) as [|H0]; [by injection H as <-|]. rewrite Z.geb_leb in H.
    destruct (Z.leb_spec M (nValue o)) as [|HM']; [by injection H as <-|]. cbn [orb] in H.
    apply verdict_bind_inr in H as (strange & _ & H).
    assert (Hback : u64 pt = t) by (rewrite Hpt, u64_i64; by apply u64_id). rewrite Hback in H.
    destruct (Z.ltb_spec (u64 (t + nValue o)) t) as [|Hge]; [by injection H as <-|].
    destruct (_ && _); cbn [orb] in H; [by injection H as <-|].
    assert (Hfit : u64 (t + nValue o) = t + nValue o).
    { apply u64_id. unfold is_u64 in *. destruct (Z.lt_ge_cases (t + nValue o) (2 ^ 64)); [lia|]. exfalso.
      unfold u64 in Hge. replace (t + nValue o) with (t + nValue o - 2 ^ 64 + 1 * 2 ^ 64) in Hge by lia.
      rewrite Z.mod_add, Z.mod_small in Hge by lia. lia. }
    rewrite Hfit in H. apply IH in H; [|done|done|rewrite <- Hfit; apply u64_range|done].
    destruct H as [-> Hall]. split; [|constructor; [lia|done]]. unfold sum_Z. cbn. lia.
Qed.

Lemma check_transactions_inr A R Hash160 nv E G nsa dso jv tiptime i count l u :
  check_transactions E G R A Hash160 nv nsa dso jv tiptime i count l = inr u ->
  Forall (fun t => CheckTransactionWithoutProofVerification A R Hash160 nv tiptime t.2 t.1 = inr tt /\
    Forall (fun js => jv js t.2 = true) (vjoinsplit t.2) /\
    (isKMD (env_symbol E) = true -> Forall (fun i => is_banned (prevout i) = false) (vin t.2))) l.
Proof.
  revert i. induction l as [|[txid tx] l IH]; intros i H; [constructor|]. cbn [check_transactions] in H.
  apply verdict_bind_inr in H as ([] & Ht & H). constructor; [|by eapply IH]. unfold CheckTransaction in Ht. cbn [fst snd].
  destruct (isKMD (env_symbol E) && _) eqn:Eb; [done|]. destruct (_ && ((count =? 0) || _)); [done|].
  apply verdict_bind_inr in Ht as ([] & Hc & Ht). apply reject_if_inr in Ht as [Hj _]. apply negb_false_iff in Hj. rewrite forallb_forall in Hj.
  split; [done|]. split; [apply Forall_forall; intros js Hjs; apply Hj; by apply list_elem_of_In|].
  intros Hk. rewrite Hk in Eb. cbn [andb] in Eb. apply Forall_forall. intros x Hx. apply not_true_is_false. intros Hban.
  apply not_true_iff_false in Eb. apply Eb, existsb_exists. exists x. split; [by apply list_elem_of_In|done].
Qed.

Lemma check_structure_inr E A hash2 height block u : check_structure E A hash2 height block true = inr u ->
  ComputeMerkleRoot hash2 (map fst (vtx block)) = (hashMerkleRoot (hdr block), false) /\
  (exists size, block_size A block = Some size /\ size <= MAX_BLOCK_SIZE (saplinght E) height) /\
  zlen (vtx block) <= MAX_BLOCK_SIZE (saplinght E) height /\
  exists cb rest, vtx block = cb :: rest /\ IsCoinBase cb.2 = true /\ Forall (fun t => IsCoinBase t.2 = false) rest.
Proof.
  unfold check_structure. intros H. apply verdict_bind_inr in H as ([] & Hm & H).
  destruct (ComputeMerkleRoot hash2 (map fst (vtx block))) as [root mutated]. apply reject_if_inr in Hm as [Hroot Hm]. apply reject_if_inr in Hm as [-> _].
  apply negb_false_iff, Z.eqb_eq in Hroot. subst root. destruct (block_size A block) as [size|]; [|done].
  apply reject_if_inr in H as [Hs H]. rewrite !orb_false_iff, !Z.gtb_ltb, !Z.ltb_ge in Hs. destruct Hs as [[_ Hn] Hs].
  split; [done|]. split; [eauto|]. split; [done|]. destruct (vtx block) as [|cb rest]; [done|].
  apply reject_if_inr in H as [Hcb H]. apply reject_if_inr in H as [Hrest _]. apply negb_false_iff in Hcb.
  exists cb, rest. split_and!; [done|done|]. apply Forall_forall. intros t Ht. apply not_true_is_false. intros Hc.
  apply not_true_iff_false in Hrest. apply Hrest, existsb_exists. exists t. split; [by apply list_elem_of_In|done].
Qed.

(** On the main chain from height 235300 on. *)
Lemma check_deposit_extra E M gt gbs cm en by_ height block st st' d cb rest :
  squishy_check_deposit E M gt gbs cm en by_ height block st = (inr d, st') -> 0 <= d ->
  isKMD (env_symbol E) = true -> 235300 <= height -> vtx block = cb :: rest -> 0 < M <= 2 ^ 63 ->
  sum_Z (map nValue (drop 1 (vout cb.2))) <= COIN / 10 /\ Forall (fun o => 0 <= nValue o < M) (drop 1 (vout cb.2)).
Proof.
  intros H Hd Hk Hh Hv HM. unfold squishy_check_deposit in H. rewrite Hk, Hv in H. cbn [andb orb] in H.
  apply ncheck_bind_inr in H as (nm & s1 & Hnm & H). destruct (existsb _ (cb :: rest)) eqn:Eb; [apply nret_inr in H as [<- _]; lia|].
  apply ncheck_bind_inr in H as (sap & s2 & Hsap & H). apply ncheck_bind_inr in H as (cb' & s3 & Hcb & H).
  cbn in Hcb. apply nret_inr in Hcb as [<- ->]. apply ncheck_bind_inr in H as (x & s4 & Hx & H). apply of_verdict_inr in Hx as [Hx ->].
  rewrite (proj2 (Z.geb_le height 235300)), andb_true_r in H by lia.
  destruct (overflow x || _) eqn:Eo; [apply nret_inr in H as [<- _]; lia|]. apply orb_false_iff in Eo as [Eo Et].
  rewrite Z.gtb_ltb, Z.ltb_ge in Et. destruct (extra_loop_total _ _ _ _ _ _ _ Hx Eo HM) as [Hsum Hall]; [by vm_compute|done|]. split; [lia|done].
Qed.

(** What an accepted block with its proof of work and Merkle root checked satisfies. *)
Record block_ok (E : chain_env) (G : chain_globals) (R : chain_rules) (A : abi) (hash2 : Z -> Z -> Z) (Hash160 : bytes -> bytes)
    (notaryvout : bytes -> Z -> bool) (joinsplit_Verify : JSDescription -> CMutableTransaction -> bool)
    (height tiptime : Z) (block : CBlock) : Prop := {
  ok_merkle : ComputeMerkleRoot hash2 (map fst (vtx block)) = (hashMerkleRoot (hdr block), false);
  ok_size : exists size, block_size A block = Some size /\ size <= MAX_BLOCK_SIZE (saplinght E) height;
  ok_count : zlen (vtx block) <= MAX_BLOCK_SIZE (saplinght E) height;
  ok_coinbase : exists cb rest, vtx block = cb :: rest /\ IsCoinBase cb.2 = true /\ Forall (fun t => IsCoinBase t.2 = false) rest /\
    (isKMD (env_symbol E) = true -> 235300 <= height -> 0 < MAX_MONEY R <= 2 ^ 63 ->
       sum_Z (map nValue (drop 1 (vout cb.2))) <= COIN / 10);
  ok_transactions : Forall (fun t => CheckTransactionWithoutProofVerification A R Hash160 notaryvout tiptime t.2 t.1 = inr tt /\
    Forall (fun js => joinsplit_Verify js t.2 = true) (vjoinsplit t.2) /\
    (isKMD (env_symbol E) = true -> Forall (fun i => is_banned (prevout i) = false) (vin t.2))) (vtx block);
  ok_sigops : block_sigops (vtx block) <= MAX_BLOCK_SIGOPS E
}.

Section CheckBlockFacts.
Context (E : chain_env) (G : chain_globals) (params : pow_params) (R : chain_rules) (A : abi)
  (notaries_elected notaries_STAKED : Z -> list bytes) (GenesisNotaries : list (string * bytes))
  (objs : store) (chainActive : list (option Z))
  (Hash160 : bytes -> bytes) (cc fix_active : bool) (supported : bytes -> bool)
  (LOADINGBLOCKS : bool) (blockload : Z -> option (list CTxOut)) (currentheight : Z)
  (GetHash : CBlockHeader -> bytes) (hash2 : Z -> Z -> Z)
  (notaryvout : bytes -> Z -> bool) (newStakerActive : Z -> bool) (DecodeStakingOpRet : bytes -> bool)
  (joinsplit_Verify : JSDescription -> CMutableTransaction -> bool)
  (GetTransaction : Z -> option CMutableTransaction) (GetBlockSubsidy : Z -> Z)
  (checkcommission : CBlock -> Z -> Z) (beyond : bytes -> bytes)
  (CheckEquihashSolution : CBlockHeader -> bool) (GetTime : Z)
  (checkPOW : CBlock -> Z -> Z) (checkopret : CBlock -> bool) (garbage : bytes).
Abbreviation check := (CheckBlock E G params R A notaries_elected notaries_STAKED GenesisNotaries objs chainActive Hash160 cc fix_active supported
  LOADINGBLOCKS blockload currentheight GetHash hash2 notaryvout newStakerActive DecodeStakingOpRet joinsplit_Verify GetTransaction
  GetBlockSubsidy checkcommission beyond CheckEquihashSolution GetTime checkPOW checkopret garbage).
Abbreviation proof_of_work := (CheckProofOfWork G params (env_symbol E) notaries_elected notaries_STAKED GenesisNotaries objs chainActive
  Hash160 cc fix_active supported LOADINGBLOCKS blockload currentheight GetHash).

Lemma CheckBlock_inr height prev_time block st st' :
  (check height prev_time block true true).2 st = (inr tt, st') ->
  (exists cb pubkey33 st1, vtx block !! 0%nat = Some cb /\
     pubkey33 = squishy_block2pubkey33 Hash160 cc fix_active supported LOADINGBLOCKS (vout cb.2) /\
     proof_of_work (hdr block) pubkey33 height st = Some (true, st1)) /\
  block_ok E G R A hash2 Hash160 notaryvout joinsplit_Verify height (default (h_nTime (hdr block)) prev_time) block.
Proof.
  unfold CheckBlock. destruct (CheckBlockHeader _ _ _ _ _ _) as [future hv] eqn:Eh. cbn [snd]. intros H.
  apply ncheck_bind_inr in H as ([] & s1 & Hhdr & H). assert (s1 = st) as ->.
  { destruct future; [by apply nret_inr in Hhdr as [_ ->]|by apply of_verdict_inr in Hhdr as [_ ->]]. }
  apply ncheck_bind_inr in H as ([] & s2 & Hwork & H). apply ncheck_bind_inr in H as ([] & s3 & Hstruct & H).
  apply of_verdict_inr in Hstruct as [Hstruct ->]. destruct (check_structure_inr _ _ _ _ _ _ Hstruct) as (Hm & Hsize & Hcount & cb & rest & Hv & Hcb & Hrest).
  cbn [negb] in H. rewrite andb_false_r in H. apply ncheck_bind_inr in H as ([] & s4 & Htx & H). apply of_verdict_inr in Htx as [Htx ->].
  apply check_transactions_inr in Htx. apply ncheck_bind_inr in H as ([] & s5 & Hsig & H). apply nstop_if_inr in Hsig as [Hsig ->].
  rewrite Z.gtb_ltb, Z.ltb_ge in Hsig. apply ncheck_bind_inr in H as (d & s6 & Hdep & H). apply nstop_if_inr in H as [Hd ->]. apply Z.ltb_ge in Hd.
  split.
  - unfold check_work in Hwork. apply ncheck_bind_inr in Hwork as (pk & s7 & Hpk & Hwork).
    apply ncheck_bind_inr in Hpk as (cb' & s8 & Hcb' & Hpk). apply n_of_option_inr in Hcb' as [Hcb' ->]. apply nret_inr in Hpk as [Hpk ->].
    apply ncheck_bind_inr in Hwork as ([] & s9 & Hpow & _). apply ncheck_bind_inr in Hpow as (ok & s10 & Hpow & Hok).
    apply of_notary_inr in Hpow. apply ncheck_bind_inr in Hok as ([] & s11 & Hok & _). apply nstop_if_inr in Hok as [Hok _]. apply negb_false_iff in Hok. subst ok.
    by exists cb', pk, s10.
  - split; try done. exists cb, rest. split_and!; [done|done|done|]. intros Hk Hh HM.
    by eapply (check_deposit_extra _ _ _ _ _ _ _ _ _ _ _ _ _ _ Hdep Hd Hk Hh Hv HM).
Qed.
End CheckBlockFacts.

Lemma accepted_same_ids (E E' : chain_env) G R A hash2 h160 nv jv height height' t t' b b' :
  block_ok E G R A hash2 h160 nv jv height t b -> block_ok E' G R A hash2 h160 nv jv height' t' b' ->
  hashMerkleRoot (hdr b) = hashMerkleRoot (hdr b') ->
  map fst (vtx b) = map fst (vtx b') \/ hash_broken hash2 (map fst (vtx b)) (map fst (vtx b')).
Proof.
  intros H H' Hr. pose proof (ok_merkle _ _ _ _ _ _ _ _ _ _ _ H) as M. pose proof (ok_merkle _ _ _ _ _ _ _ _ _ _ _ H') as M'.
  destruct (ok_coinbase _ _ _ _ _ _ _ _ _ _ _ H) as (cb & rest & Hv & _), (ok_coinbase _ _ _ _ _ _ _ _ _ _ _ H') as (cb' & rest' & Hv' & _).
  pose proof (ok_count _ _ _ _ _ _ _ _ _ _ _ H) as Hc. pose proof (ok_count _ _ _ _ _ _ _ _ _ _ _ H') as Hc'.
  assert (Hmax : forall s h, MAX_BLOCK_SIZE s h <= 4096 * 1024) by (intros s h; unfold MAX_BLOCK_SIZE; destruct (_ || _); lia).
  pose proof (Hmax (saplinght E) height). pose proof (Hmax (saplinght E') height'). unfold zlen in Hc, Hc'.
  eapply (ComputeMerkleRoot_inj hash2); [| | | |exact M|by rewrite Hr].
  - by rewrite Hv.
  - by rewrite Hv'.
  - rewrite length_map. lia.
  - rewrite length_map. lia.
Qed.

(** *** Heights in coinbases *)

Lemma push_int64_read n r : 0 < n < 2 ^ 31 ->
  exists op d, GetOp2 (push_int64 n [] ++ r) = mkOpRead true op d r /\
    (n <= 16 /\ op = n + 80 /\ d = [] \/ 16 < n /\ op <= OP_PUSHDATA4 /\ d = CScriptNum_serialize n).
Proof.
  intros Hn. unfold push_int64. rewrite (proj2 (Z.eqb_neq n (-1))), (proj2 (Z.eqb_neq n 0)) by lia. cbn [orb].
  rewrite Z.geb_leb, (proj2 (Z.leb_le 1 n)) by lia. cbn [andb]. destruct (Z.leb_spec n 16).
  - exists (n + 80), []. split; [|by left]. assert (exists k, n = Z.of_nat k /\ (0 < k <= 16)%nat) as (k & -> & Hk) by (exists (Z.to_nat n); lia).
    do 17 (destruct k as [|k]; [try lia; reflexivity|]). lia.
  - exists (push_code (CScriptNum_serialize n)), (CScriptNum_serialize n). pose proof (serialize_small n).
    split; [apply GetOp2_push_data; lia|]. right. split_and!; [lia| |done].
    unfold push_code. repeat case_bool; unfold OP_PUSHDATA1, OP_PUSHDATA2, OP_PUSHDATA4 in *; lia.
Qed.

(** The scripts that start with a height are prefix free. *)
Lemma push_int64_prefix n m (r r' : bytes) : 0 < n < 2 ^ 31 -> 0 < m < 2 ^ 31 ->
  app (push_int64 n []) r = app (push_int64 m []) r' -> n = m.
Proof.
  intros Hn Hm E. destruct (push_int64_read n r Hn) as (op & d & H1 & Hc1), (push_int64_read m r' Hm) as (op' & d' & H2 & Hc2).
  rewrite E, H2 in H1. injection H1 as <- <- _. unfold OP_PUSHDATA4 in *.
  destruct Hc1 as [(H3 & H4 & H5)|(H3 & H4 & H5)], Hc2 as [(H6 & H7 & H8)|(H6 & H7 & H8)]; try lia.
  rewrite H5 in H8. assert (Hlt : forall k, 0 < k < 2 ^ 31 -> Z.abs k < 2 ^ (8 * 5 - 1)) by (intros k Hk; apply (Z.lt_trans _ (2 ^ 31)); [rewrite Z.abs_eq; lia|reflexivity]).
  pose proof (serialize_minimal n 5 ltac:(lia) (Hlt n Hn)) as S1. pose proof (serialize_minimal m 5 ltac:(lia) (Hlt m Hm)) as S2.
  rewrite H8 in S1. congruence.
Qed.

(** ** Properties *)

Lemma accepted_inr (x : verdict unit * notary_state) :
  match x.1 with inr _ => true | inl _ => false end = true -> exists s, x = (inr tt, s).
Proof. destruct x as [[e|[]] s]; [done|]. by exists s. Qed.

Section CheckBlockSound.
Context (E : chain_env) (G : chain_globals) (params : pow_params) (R : chain_rules) (A : abi)
  (notaries_elected notaries_STAKED : Z -> list bytes) (GenesisNotaries : list (string * bytes))
  (objs : store) (chainActive : list (option Z))
  (Hash160 : bytes -> bytes) (cc fix_active : bool) (supported : bytes -> bool)
  (LOADINGBLOCKS : bool) (blockload : Z -> option (list CTxOut)) (currentheight : Z)
  (GetHash : CBlockHeader -> bytes) (hash2 : Z -> Z -> Z)
  (notaryvout : bytes -> Z -> bool) (newStakerActive : Z -> bool) (DecodeStakingOpRet : bytes -> bool)
  (joinsplit_Verify : JSDescription -> CMutableTransaction -> bool)
  (GetTransaction : Z -> option CMutableTransaction) (GetBlockSubsidy : Z -> Z)
  (checkcommission : CBlock -> Z -> Z) (beyond : bytes -> bytes)
  (CheckEquihashSolution : CBlockHeader -> bool) (GetTime : Z)
  (checkPOW : CBlock -> Z -> Z) (checkopret : CBlock -> bool) (garbage : bytes).

(** The block passes CheckBlock with its proof of work and Merkle root checked. *)
Definition block_accepted (height : Z) (prev_time : option Z) (block : CBlock) (st : notary_state) : bool :=
  match ((CheckBlock E G params R A notaries_elected notaries_STAKED GenesisNotaries objs chainActive Hash160 cc fix_active supported
            LOADINGBLOCKS blockload currentheight GetHash hash2 notaryvout newStakerActive DecodeStakingOpRet joinsplit_Verify GetTransaction
            GetBlockSubsidy checkcommission beyond CheckEquihashSolution GetTime checkPOW checkopret garbage
            height prev_time block true true).2 st).1 with
  | inr _ => true
  | inl _ => false
  end.

(** C11: a block that CheckBlock accepts, with its proof of work and Merkle root
    checked, has work that is valid for the key its coinbase pays and is well formed: its
    Merkle root, size, signature operations, one coinbase, in front, transactions that pass
    their own checks, and on the main chain from height 235300 on, if MAX_MONEY is positive
    and at most 2^63, extra outputs of the coinbase of at most a tenth of a coin in all.
    Any accepted block with that Merkle root has the same transaction ids, or the two Merkle
    trees break the hash: two different pairs hashed in them have the same hash, or a
    transaction id of one is the hash of a pair hashed in the other. *)
Theorem CheckBlock_sound (height height' : Z) (prev_time prev_time' : option Z) (b b' : CBlock) (st st' : notary_state)
  (Hb : block_accepted height prev_time b st = true) :
  (exists cb st1, vtx b !! 0%nat = Some cb /\
     CheckProofOfWork G params (env_symbol E) notaries_elected notaries_STAKED GenesisNotaries objs chainActive
       Hash160 cc fix_active supported LOADINGBLOCKS blockload currentheight GetHash (hdr b)
       (squishy_block2pubkey33 Hash160 cc fix_active supported LOADINGBLOCKS (vout cb.2)) height st = Some (true, st1)) /\
  block_ok E G R A hash2 Hash160 notaryvout joinsplit_Verify height (default (h_nTime (hdr b)) prev_time) b /\
  (block_accepted height' prev_time' b' st' = true -> hashMerkleRoot (hdr b) = hashMerkleRoot (hdr b') ->
   map fst (vtx b) = map fst (vtx b') \/ hash_broken hash2 (map fst (vtx b)) (map fst (vtx b'))).
Proof.
  assert (Hacc : forall h p x s, block_accepted h p x s = true -> _) by (intros h p x s H; exact (accepted_inr _ H)).
  destruct (Hacc _ _ _ _ Hb) as (s1 & H). apply CheckBlock_inr in H as [(cb & pk & s2 & Hcb & -> & Hpow) Hok].
  split; [by exists cb, s2|]. split; [done|]. intros Hb' Hr. destruct (Hacc _ _ _ _ Hb') as (s3 & H').
  apply CheckBlock_inr in H' as [_ Hok'].
  by eapply accepted_same_ids.
Qed.
End CheckBlockSound.

(** A block of the main chain at height 5: its coinbase pays a key. *)
Definition demo_env : chain_env := mkEnv "" 0 0 0 20000 0 [0; -1; -1; -1].
Definition demo_globals : chain_globals := mkGlobals true 0 60 0.
Definition demo_coinbase (h : Z) : CMutableTransaction :=
  {| fOverwintered := false; nVersion := 1; nVersionGroupId := 0;
     vin := [mkCTxIn (mkCOutPoint 0 (2 ^ 32 - 1)) (push_int64 h [] ++ [0; 0]) (2 ^ 32 - 1)];
     vout := [mkCTxOut (3 * COIN) (33 :: 2 :: repeat 7 32 ++ [0xac])]; nLockTime := 0; nExpiryHeight := 0; valueBalance := 0;
     vShieldedSpend := []; vShieldedOutput := []; vjoinsplit := []; joinSplitPubKey := 0;
     joinSplitSig := zero_sig; bindingSig := zero_sig |}.
Definition demo_block : CBlock := mkBlock (mkHeader 4 0 (-7) 0 1500001000 0x200f0f0f 0 []) [(-7, demo_coinbase 5)].
Definition demo_pairing (a b : Z) : Z := Z.abs a + Z.abs b.
Definition demo_keys (i : Z) : list bytes := (fun k => 2 :: Z.of_nat k :: repeat 0 31) <$> seq 0 64.

Definition demo_accepted (b : CBlock) : bool :=
  block_accepted demo_env demo_globals demo_params rules_main abi_x86_64 demo_keys demo_keys [] demo_chain [Some 0; Some 1]
    (fun b => take 20 b) false true (fun _ => false) false (fun _ => None) 1 (fun _ => repeat 1 32) demo_pairing
    (fun _ _ => false) (fun _ => false) (fun _ => false) (fun _ _ => true) (fun _ => None) (fun _ => 3 * COIN) (fun _ _ => 0) (fun b => b)
    (fun _ => true) 1500001000 (fun _ _ => 0) (fun _ => true) [] 5 (Some 1500000000) b notary_start.

Lemma demo_block_accepted : demo_accepted demo_block = true.
Proof. vm_compute. reflexivity. Qed.

Lemma CheckBlock_sound_witness :
  zlen (vtx demo_block) <= MAX_BLOCK_SIZE 0 5 /\
  forall b, demo_accepted b = true -> hashMerkleRoot (hdr b) = -7 ->
    [-7] = map fst (vtx b) \/ hash_broken demo_pairing [-7] (map fst (vtx b)).
Proof.
  pose proof (fun b => CheckBlock_sound demo_env demo_globals demo_params rules_main abi_x86_64 demo_keys demo_keys [] demo_chain [Some 0; Some 1]
    (fun b => take 20 b) false true (fun _ => false) false (fun _ => None) 1 (fun _ => repeat 1 32) demo_pairing
    (fun _ _ => false) (fun _ => false) (fun _ => false) (fun _ _ => true) (fun _ => None) (fun _ => 3 * COIN) (fun _ _ => 0) (fun b => b)
    (fun _ => true) 1500001000 (fun _ _ => 0) (fun _ => true) [] 5 5 (Some 1500000000) (Some 1500000000) demo_block b notary_start notary_start
    demo_block_accepted) as H.
  split; [exact (ok_count _ _ _ _ _ _ _ _ _ _ _ (proj1 (proj2 (H demo_block))))|].
  intros b Hb Hr. exact (proj2 (proj2 (H b)) Hb (eq_sym Hr)).
Defined.

Lemma accepted_verdict {A} (v : verdict A) : match v with inr _ => true | inl _ => false end = true -> exists a, v = inr a.
Proof. destruct v as [e|a]; [done|]. by exists a. Qed.

Section Heights.
Context (E : chain_env) (R : chain_rules) (A : abi) (Hash160 : bytes -> bytes)
  (isInitBlockDownload : bool) (ASSETCHAINS_TIMELOCKGTE : Z) (squishy_ac_block_subsidy squishy_block_unlocktime : Z -> Z)
  (sighash : CMutableTransaction -> Z -> option Z) (ed25519_verify : CMutableTransaction -> Z -> bool)
  {ctx : Type} (ctx_init : ctx) (check_spend : SpendDescription -> Z -> ctx -> bool * ctx)
  (check_output : OutputDescription -> ctx -> bool * ctx) (final_check : CMutableTransaction -> Z -> ctx -> bool)
  (SQUISHY_REWIND : Z) (params : pow_params) (objs : store) (chainHeight : Z) (squishy_block2height : CBlock -> Z).

Definition block_in_context (block : CBlock) (pindexPrev : option Z) : bool :=
  match ContextualCheckBlock E R A Hash160 isInitBlockDownload ASSETCHAINS_TIMELOCKGTE squishy_ac_block_subsidy squishy_block_unlocktime
          sighash ed25519_verify ctx_init check_spend check_output final_check SQUISHY_REWIND params objs chainHeight squishy_block2height
          block pindexPrev with
  | inr _ => true
  | inl _ => false
  end.

Lemma in_context_height b p e cb rest i ins : block_in_context b (Some p) = true -> objs !! p = Some e -> 0 <= nHeight e < 2 ^ 31 - 1 ->
  vtx b = cb :: rest -> vin cb.2 = i :: ins -> exists r, scriptSig i = app (push_int64 (nHeight e + 1) []) r.
Proof.
  intros H He Hh Hv Hi. apply accepted_verdict in H as (u & H). unfold ContextualCheckBlock in H. rewrite He in H. cbn [mbind option_bind] in H.
  rewrite (i32_id (nHeight e + 1)) in H by (unfold is_i32; lia).
  destruct (NetworkUpgradeActive _ _ _); [|done]. cbn [mbind option_bind] in H. cbv zeta in H.
  destruct (if _ && _ then _ else _) as [cmptime|] in H; [|done]. apply verdict_bind_inr in H as (v & _ & H).
  rewrite (proj2 (Z.gtb_lt _ _)), Hv in H by lia. destruct cb as [id cb]. cbn [snd] in Hi. rewrite Hi in H.
  apply reject_if_inr in H as [H _]. apply negb_false_iff in H. unfold starts_with in H. apply bool_decide_eq_true in H.
  exists (drop (length (push_int64 (nHeight e + 1) [])) (scriptSig i)). rewrite <- H at 1. by rewrite take_drop.
Qed.
Lemma in_context_coinbase b p e : block_in_context b (Some p) = true -> objs !! p = Some e -> 0 <= nHeight e < 2 ^ 31 - 1 ->
  exists cb rest i ins, vtx b = cb :: rest /\ vin cb.2 = i :: ins.
Proof.
  intros H He Hh. apply accepted_verdict in H as (u & H). unfold ContextualCheckBlock in H. rewrite He in H. cbn [mbind option_bind] in H.
  rewrite (i32_id (nHeight e + 1)) in H by (unfold is_i32; lia).
  destruct (NetworkUpgradeActive _ _ _); [|done]. cbn [mbind option_bind] in H. cbv zeta in H.
  destruct (if _ && _ then _ else _) as [cmptime|] in H; [|done]. apply verdict_bind_inr in H as (v & _ & H).
  rewrite (proj2 (Z.gtb_lt _ _)) in H by lia. destruct (vtx b) as [|[id cb] rest]; [done|]. destruct (vin cb) as [|i ins] eqn:Ev; [done|].
  by exists (id, cb), rest, i, ins.
Qed.

(** Blocks accepted at different heights have different coinbases: the script of a
    coinbase starts with the height of its block. *)
Theorem coinbase_heights_differ (b b' : CBlock) (p p' : Z) (e e' : CBlockIndex)
  (Hb : block_in_context b (Some p) = true) (Hb' : block_in_context b' (Some p') = true)
  (He : objs !! p = Some e) (He' : objs !! p' = Some e')
  (Hh : 0 <= nHeight e < 2 ^ 31 - 1) (Hh' : 0 <= nHeight e' < 2 ^ 31 - 1) (Hne : nHeight e <> nHeight e') :
  snd <$> head (vtx b) <> snd <$> head (vtx b').
Proof.
  destruct (in_context_coinbase _ _ _ Hb He Hh) as (cb & rest & i & ins & Hv & Hi).
  destruct (in_context_coinbase _ _ _ Hb' He' Hh') as (cb' & rest' & i' & ins' & Hv' & Hi').
  destruct (in_context_height _ _ _ _ _ _ _ Hb He Hh Hv Hi) as (r & Hr), (in_context_height _ _ _ _ _ _ _ Hb' He' Hh' Hv' Hi') as (r' & Hr').
  rewrite Hv, Hv'. cbn [head fmap option_fmap option_map]. intros E'. injection E' as E'. rewrite E', Hi' in Hi. injection Hi as <- _.
  apply Hne. enough (nHeight e + 1 = nHeight e' + 1) by lia. eapply push_int64_prefix; [lia|lia|]. by rewrite <- Hr, Hr'.
Qed.
End Heights.

Definition demo_in_context : CBlock -> option Z -> bool :=
  block_in_context demo_env rules_main abi_x86_64 (fun b => take 20 b) false (2 ^ 63) (fun _ => 0) (fun _ => 0)
    (fun _ _ => None) (fun _ _ => true) tt (fun _ _ c => (true, c)) (fun _ c => (true, c)) (fun _ _ _ => true) 0 demo_params demo_chain 1 (fun _ => 0).
Definition demo_block_at (h : Z) : CBlock := mkBlock (hdr demo_block) [(-7, demo_coinbase h)].

Lemma coinbase_heights_differ_witness :
  demo_in_context (demo_block_at 1) (Some 0) = true /\
  forall b, demo_in_context b (Some 1) = true -> snd <$> head (vtx b) <> Some (demo_coinbase 1).
Proof.
  assert (H1 : demo_in_context (demo_block_at 1) (Some 0) = true) by (vm_compute; reflexivity). split; [exact H1|]. intros b Hb E.
  apply (coinbase_heights_differ demo_env rules_main abi_x86_64 (fun b => take 20 b) false (2 ^ 63) (fun _ => 0) (fun _ => 0)
    (fun _ _ => None) (fun _ _ => true) tt (fun _ _ c => (true, c)) (fun _ c => (true, c)) (fun _ _ _ => true) 0 demo_params demo_chain 1 (fun _ => 0)
    b (demo_block_at 1) 1 0 (demo_index 1 (Some 0)) (demo_index 0 None) Hb H1 eq_refl eq_refl);
    [vm_compute; split; [discriminate|reflexivity]..|vm_compute; discriminate|exact E].
Defined.

(** *** Headers below a notarisation *)

Section HeaderFinal.
Context (E : chain_env) (G : chain_globals) (params : pow_params) (objs : store) (mapBlockIndex : gmap Z (option Z))
  (chainActive : list (option Z)) (GetTime hashGenesisBlock : Z) (GetHash : CBlockHeader -> Z) (mapCheckpoints : list (Z * Z)).

Lemma check_fork_inr ht hash sp sp' tip q b e cp a : cp_reachable sp -> Tip chainActive = Some tip -> objs !! tip = Some b ->
  last_below (nHeight b) (NPOINTS sp) = Some cp -> 0 <= notarized_height cp ->
  mapBlockIndex !! notarized_hash cp = Some (Some q) -> objs !! q = Some e -> nHeight e = notarized_height cp -> 0 < ht ->
  check_fork objs mapBlockIndex chainActive true mapCheckpoints ht hash sp = (inr a, sp') ->
  cp_reachable sp' /\
  (known_block objs chainActive ht hash = true \/ notarized_height cp < ht \/ (ht = notarized_height cp /\ hash = notarized_hash cp)).
Proof.
  intros Hsp Htip Hb Hcp Hpos Hq He Hh Hht. unfold check_fork. destruct (Checkpoints_CheckBlock _ _ _); cbn [negb]; [|done].
  destruct (_ && _); [destruct (known_block _ _ _ _); [|done]; intros [= _ <-]; by split; [|left]|].
  rewrite (proj2 (Z.eqb_neq ht 0)) by lia. cbn [negb]. destruct (match _ with Some c => _ | None => _ end); [done|].
  destruct (squishy_checkpoint_spec objs mapBlockIndex chainActive sp tip q b e cp ht hash Hsp Htip Hb Hcp Hpos Hq He Hh) as (v & sp1 & -> & Hr & Hv).
  destruct v; [intros [= _ <-]; split; [done|]; right; by apply Hv|]. destruct (known_block _ _ _ _); [|done]. intros [= _ <-]. by split; [|left].
Qed.

(** C14: once the last notarisation below the tip names a block of the index, a header
    that ContextualCheckBlockHeader accepts is above the notarised height, or it is
    the notarised block, or it is already in the active chain: no fork below a
    notarisation is accepted. *)
Theorem accepted_header_final (h : CBlockHeader) (p tip q : Z) (prev b e : CBlockIndex) (cp : notarized_checkpoint)
  (sp sp' : squishy_state) (Hsp : cp_reachable sp) (Hprev : objs !! p = Some prev) (Hheight : 0 <= nHeight prev < 2 ^ 31 - 1)
  (Htip : Tip chainActive = Some tip) (Hb : objs !! tip = Some b)
  (Hcp : last_below (nHeight b) (NPOINTS sp) = Some cp) (Hpos : 0 <= notarized_height cp)
  (Hq : mapBlockIndex !! notarized_hash cp = Some (Some q)) (He : objs !! q = Some e) (Hh : nHeight e = notarized_height cp)
  (Hgen : GetHash h <> hashGenesisBlock)
  (Hacc : ContextualCheckBlockHeader E G params objs mapBlockIndex chainActive GetTime hashGenesisBlock GetHash true mapCheckpoints
            h (Some p) sp = (inr tt, sp')) :
  cp_reachable sp' /\
  (known_block objs chainActive (nHeight prev + 1) (GetHash h) = true \/
   notarized_height cp < nHeight prev + 1 \/ (nHeight prev + 1 = notarized_height cp /\ GetHash h = notarized_hash cp)).
Proof.
  unfold ContextualCheckBlockHeader in Hacc. rewrite (proj2 (Z.eqb_neq _ _)), Hprev in Hacc by done.
  destruct (GetNextWorkRequired _ _ _ _ _) as [required|]; [|done]. rewrite (i32_id (nHeight prev + 1)) in Hacc by (unfold is_i32; lia).
  destruct (_ && _) in Hacc; [done|]. destruct (check_time _ _ _ _ _ _ _ _) in Hacc; [done|].
  destruct (check_fork _ _ _ _ _ _ _ _) as [v sp1] eqn:Ef. apply pair_equal_spec in Hacc as [Hv ->].
  apply verdict_bind_inr in Hv as (a & -> & _). by eapply check_fork_inr; [..|exact Ef]; eauto; lia.
Qed.
End HeaderFinal.

(** A header at the notarised height 10, on a chain whose tip is at height 26. *)
Definition notarised_objs : store := <[2 := demo_entry 9 109]> demo_objs.
Definition header_check (hash : Z) (sp : squishy_state) : verdict unit * squishy_state :=
  ContextualCheckBlockHeader demo_env demo_globals demo_params notarised_objs demo_map (replicate 26 None ++ [Some 1]) 1500001000 0 (fun _ => hash)
    true [] (hdr demo_block) (Some 2) sp.

Lemma accepted_header_final_witness :
  (exists sp, header_check 110 in_order3 = (inr tt, sp) /\ cp_reachable sp) /\ forall sp, header_check 111 in_order3 <> (inr tt, sp).
Proof.
  pose proof (fun hash sp => accepted_header_final demo_env demo_globals demo_params notarised_objs demo_map (replicate 26 None ++ [Some 1])
    1500001000 0 (fun _ => hash) [] (hdr demo_block) 2 1 0 (demo_entry 9 109) (demo_entry 26 126) (demo_entry 10 110)
    (mkCheckpoint 110 0 0 0 20 10 0 0 0 0 0) in_order3 sp in_order3_reachable
    eq_refl ltac:(vm_compute; split; [discriminate|reflexivity]) eq_refl eq_refl eq_refl ltac:(vm_compute; discriminate) eq_refl eq_refl eq_refl) as H.
  split.
  - assert (Hacc : fst (header_check 110 in_order3) = inr tt) by (vm_compute; reflexivity).
    exists (snd (header_check 110 in_order3)). assert (E : header_check 110 in_order3 = (inr tt, snd (header_check 110 in_order3))).
    { rewrite <- Hacc. apply surjective_pairing. }
    split; [exact E|]. refine (proj1 (H 110 _ _ E)). discriminate.
  - intros sp E. destruct (H 111 sp ltac:(discriminate) E) as [_ [Hk|[Hlt|[_ Eh]]]]; [by vm_compute in Hk|by vm_compute in Hlt|by vm_compute in Eh].
Defined.

(** ** What modelling showed *)

(** Without the proof of work the key is read from an uninitialised buffer: above
    [nDecemberHardforkHeight] the verdict depends on what it holds. *)
Definition stale_check (height : Z) (garbage : bytes) : bool :=
  match ((CheckBlock demo_env demo_globals demo_params rules_main abi_x86_64 demo_keys demo_keys [] demo_chain [Some 0; Some 1]
    (fun b => take 20 b) false true (fun _ => false) false (fun _ => None) 1 (fun _ => repeat 1 32) demo_pairing
    (fun _ _ => false) (fun _ => false) (fun _ => false) (fun _ _ => true) (fun _ => None) (fun _ => 3 * COIN) (fun _ _ => 0) (fun b => b)
    (fun _ => true) 1500001000 (fun _ _ => 0) (fun _ => false) garbage height (Some 1500000000) demo_block false true).2 notary_start).1 with
  | inr _ => true
  | inl _ => false
  end.

Lemma CheckBlock_reads_garbage :
  exists g g', length g = 33%nat /\ length g' = 33%nat /\ stale_check (nDecemberHardforkHeight + 1) g <> stale_check (nDecemberHardforkHeight + 1) g'.
Proof.
  exists (2 :: 5 :: repeat 0 31), (3 :: 5 :: repeat 0 31). split; [done|]. split; [done|]. vm_compute. discriminate.
Qed.

(** An empty script of a coinbase output after the second is read at its first byte. *)
Lemma deposit_reads_empty_script :
  (check_structure demo_env abi_x86_64 demo_pairing 5
     (mkBlock (hdr demo_block) [(-7, demo_coinbase 5)]) true = inr tt) /\
  extra_loop (MAX_MONEY rules_main) 1 [mkCTxOut 0 [OP_RETURN]; mkCTxOut 0 []] 0 0 0 = inl Thrown.
Proof. split; vm_compute; reflexivity. Qed.
