(* ===== verification/Ledger.v ===== *)
(** * The ledger: what connecting transactions means

    The abstract specification of the coins view: which outpoint has which unspent
    output and which nullifiers were revealed, with the effect of a transaction on
    it.  UpdateCoins (src/src/main.cpp), with its caches, coins objects and undo
    data, is shown to implement that effect. *)
From S2P Require Import Prelude Serialize Transaction Compressor Coins CoinsView CoinsCache UpdateCoins.
#[local] Open Scope Z_scope.

Record ledger := mkLedger {
  unspent : COutPoint -> option CTxOut;
  revealed : ShieldedType -> Z -> bool
}.

(** Ledgers are compared on the outpoints a transaction can name. *)
#[global] Instance ledger_equiv : Equiv ledger := fun L L' =>
  (forall p, 0 <= n p -> unspent L p = unspent L' p) /\ forall t k, revealed L t k = revealed L' t k.

#[global] Instance ledger_equivalence : Equivalence (≡@{ledger}).
Proof.
  split.
  - intros L. by split.
  - intros L L' [H1 H2]. split; [intros p Hp; by rewrite H1|intros t k; by rewrite H2].
  - intros L1 L2 L3 [H1 H2] [H3 H4]. split; [intros p Hp; by rewrite H1, H3|intros t k; by rewrite H2, H4].
Qed.

(** The ledger a state shows. *)
Definition ledger_of {Tree} (s : utxo_state Tree) : ledger :=
  mkLedger (fun p => co ← st_coins s (hash p); out_at (coins_vout co) (Z.to_nat (n p))) (st_null s).

#[global] Instance ledger_of_proper {Tree} : Proper ((≡) ==> (≡)) (@ledger_of Tree).
Proof. intros s s' (Hc & _ & Hn & _). split; intros; simpl; [by rewrite Hc|apply Hn]. Qed.

Definition nullifiers_of (t : ShieldedType) (tx : CMutableTransaction) : list Z :=
  match t with
  | SPROUT => concat (map nullifiers (vjoinsplit tx))
  | SAPLING => map sd_nullifier (vShieldedSpend tx)
  end.

(** The outpoints a transaction consumes. *)
Definition consumed (tx : CMutableTransaction) : list COutPoint := if IsMint tx then [] else map prevout (vin tx).

(** An output that can ever be spent. *)
Definition spendable (o : CTxOut) : option CTxOut := if IsUnspendable (scriptPubKey o) then None else Some o.

(** The inputs go, the spendable outputs come, the nullifiers are revealed. *)
Definition apply_tx (txid : Z) (tx : CMutableTransaction) (L : ledger) : ledger :=
  mkLedger
    (fun p => if decide (hash p = txid) then vout tx !! Z.to_nat (n p) ≫= spendable
              else if decide (p ∈ consumed tx) then None else unspent L p)
    (fun t k => if decide (k ∈ nullifiers_of t tx) then true else revealed L t k).

#[global] Instance apply_tx_proper txid tx : Proper ((≡) ==> (≡)) (apply_tx txid tx).
Proof. intros L L' [H1 H2]. split; intros; simpl; repeat case_decide; auto. Qed.

(** ** The outputs of a transaction *)

Lemma out_at_FromTx tx h i : Forall (fun o => 0 <= nValue o) (vout tx) ->
  out_at (coins_vout (FromTx tx h)) i = vout tx !! i ≫= spendable.
Proof.
  intros Hv. unfold FromTx, ClearUnspendable, Cleanup. cbn [coins_vout]. rewrite out_at_cleanup. unfold out_at.
  rewrite list_lookup_fmap. destruct (vout tx !! i) as [o|] eqn:Ho; [|done]. cbn [fmap option_fmap option_map mbind option_bind].
  unfold spendable. destruct (IsUnspendable (scriptPubKey o)); [done|].
  rewrite Forall_lookup in Hv. specialize (Hv i o Ho). unfold CTxOut_IsNull. by rewrite (proj2 (Z.eqb_neq _ _)) by lia.
Qed.

Lemma out_at_live co i : (co' ← live co; out_at (coins_vout co') i) = out_at (coins_vout co) i.
Proof.
  unfold live. destruct (IsPruned co) eqn:Hp; [|done]. cbn. symmetry. unfold out_at. unfold IsPruned in Hp.
  rewrite forallb_forall in Hp. destruct (coins_vout co !! i) as [o|] eqn:Ho; [|done].
  apply list_elem_of_lookup_2, list_elem_of_In, Hp in Ho. by rewrite Ho.
Qed.

Section Effect.
Context {Tree V : Type} `{!MerkleTree Tree} `{!CoinsView Tree V} `{!CoinsMemory}.
Context (tree_of : ShieldedType -> Z -> Tree) `{!CoinsViewReads tree_of V}.
Abbreviation cache := (CCoinsViewCache Tree V).
Abbreviation inv := (cache_inv tree_of).
Abbreviation st := (cache_abs tree_of).

Lemma outpoint_eq (p q : COutPoint) : 0 <= n p -> 0 <= n q -> hash p = hash q -> Z.to_nat (n p) = Z.to_nat (n q) -> p = q.
Proof. destruct p, q. cbn. intros ? ? -> ?. f_equal. lia. Qed.

Lemma spend_one_ledger (c c1 : cache) k nPos u : inv c -> 0 <= nPos ->
  with_modifier c k (spend_coins nPos) = Some (u, c1) ->
  inv c1 /\ same_rest (st c1) (st c) /\ is_Some (unspent (ledger_of (st c)) (mkCOutPoint k nPos)) /\
  forall p, 0 <= n p -> unspent (ledger_of (st c1)) p =
    if decide (p = mkCOutPoint k nPos) then None else unspent (ledger_of (st c)) p.
Proof.
  intros Hi Hn Hm. destruct (spend_one_law tree_of c k nPos u c1 Hi Hm) as (co & co' & Hw & Hst & Hs & Hw' & Hi1 & Habs).
  destruct (spend_coins_spec nPos co u co' Hw Hs) as (o & Ho & Hnull & _ & Hsp & _).
  split_and!; [done|by eapply set_coins_rest| |].
  - unfold ledger_of. cbn [unspent hash n]. rewrite Hst. cbn [mbind option_bind]. unfold out_at. rewrite Ho, Hnull. by eexists.
  - intros p Hp. unfold ledger_of. cbn [unspent]. rewrite (set_coins_at _ _ _ _ (hash p) Habs). destruct (decide (hash p = k)) as [<-|Hk].
    + rewrite out_at_live, (Spend_out_at co nPos co' _ Hw Hsp), Hst. cbn [mbind option_bind].
      destruct (decide (Z.to_nat nPos = Z.to_nat (n p))) as [E|E]; [rewrite decide_True; [done|]|rewrite decide_False; [done|]].
      * by apply outpoint_eq.
      * intros E'%(f_equal n). cbn in E'. apply E. by rewrite E'.
    + rewrite decide_False; [done|]. intros ->. by apply Hk.
Qed.

(** Spending inputs takes unspent outputs, each once. *)
Lemma spend_inputs_ledger l (c c' : cache) vp vp' : inv c -> input_positions l -> spend_inputs c l vp = Some (vp', c') ->
  inv c' /\ same_rest (st c') (st c) /\ base.NoDup (map prevout l) /\
  Forall (fun i => is_Some (unspent (ledger_of (st c)) (prevout i))) l /\
  forall p, 0 <= n p -> unspent (ledger_of (st c')) p =
    if decide (p ∈ map prevout l) then None else unspent (ledger_of (st c)) p.
Proof.
  revert c vp. induction l as [|i l IH]; intros c vp Hi Hpos Hs.
  { injection Hs as <- <-. split_and!; try done; constructor. }
  apply Forall_cons_1 in Hpos as [Hp Hpos]. cbn [spend_inputs] in Hs.
  destruct (with_modifier c _ _) as [[u c1]|] eqn:Hm; [|done]. cbn [mbind option_bind] in Hs.
  destruct (spend_one_ledger c c1 _ _ u Hi (proj1 Hp) Hm) as (Hi1 & Hr1 & Hav & Hu1).
  replace (mkCOutPoint _ _) with (prevout i) in * by (by destruct (prevout i)).
  destruct (IH c1 _ Hi1 Hpos Hs) as (Hi' & Hr' & Hnd & Hall & Hu').
  assert (Hge : forall j, j ∈ l -> 0 <= n (prevout j)).
  { intros j Hj. rewrite list.Forall_forall in Hpos. exact (proj1 (Hpos j Hj)). }
  assert (Hni : forall j, j ∈ l -> prevout j <> prevout i).
  { intros j Hj E. rewrite list.Forall_forall in Hall. specialize (Hall j Hj). rewrite Hu1, decide_True in Hall by (auto; lia).
    by destruct Hall. }
  split_and!; [done|by eapply same_rest_trans| | |].
  - cbn [map]. constructor; [|done]. intros (j & E & Hj)%list_elem_of_fmap. by apply (Hni j Hj).
  - constructor; [done|]. rewrite list.Forall_forall. intros j Hj. rewrite list.Forall_forall in Hall. specialize (Hall j Hj).
    rewrite Hu1, decide_False in Hall by auto. done.
  - intros p Hp0. rewrite Hu', Hu1 by done. cbn [map]. destruct (decide (p ∈ map prevout l)) as [Hin|Hin].
    + by rewrite decide_True by (by apply elem_of_cons; right).
    + destruct (decide (p = prevout i)) as [->|Hne]; [by rewrite decide_True by (by apply elem_of_cons; left)|].
      by rewrite decide_False by (by intros [?|?]%elem_of_cons).
Qed.

(** UpdateCoins implements the effect of a transaction on the ledger. *)
Lemma UpdateCoins_ledger txid tx h (c c' : cache) undo : inv c -> Forall (fun o => 0 <= nValue o) (vout tx) ->
  (IsMint tx = false -> input_positions (vin tx)) -> IsCoinImport tx = false ->
  UpdateCoins txid tx c h = Some (undo, c') ->
  inv c' /\ ledger_of (st c') ≡ apply_tx txid tx (ledger_of (st c)) /\ base.NoDup (consumed tx) /\
  (forall t k, st_anchor (st c') t k = st_anchor (st c) t k) /\ st_best (st c') = st_best (st c) /\
  (forall t, st_bestAnchor (st c') t = st_bestAnchor (st c) t) /\
  (forall k, k <> txid -> st_coins (st c) k = None -> st_coins (st c') k = None).
Proof.
  intros Hi Hv Hpos Himp. unfold UpdateCoins.
  destruct (if negb (IsMint tx) then _ else _) as [[vp c1]|] eqn:Hsp; [|done]. cbn [mbind option_bind].
  intros Hrun. destruct (modify_coins _ txid _) as [c2|] eqn:Hm; [|done]. cbn [mbind option_bind] in Hrun. rewrite Himp in Hrun.
  injection Hrun as <- <-.
  assert (H1 : inv c1 /\ same_rest (st c1) (st c) /\ base.NoDup (consumed tx) /\
    (forall k, st_coins (st c) k = None -> st_coins (st c1) k = None) /\
    forall p, 0 <= n p -> unspent (ledger_of (st c1)) p =
      if decide (p ∈ consumed tx) then None else unspent (ledger_of (st c)) p).
  { unfold consumed. destruct (IsMint tx); cbn [negb] in Hsp.
    - injection Hsp as <- <-. split_and!; try done; constructor.
    - destruct (spend_inputs_ledger _ _ _ _ _ Hi (Hpos eq_refl) Hsp) as (? & ? & ? & Hall & ?). split_and!; try done.
      clear -Hi Hsp Hv. revert c vp Hi Hsp. generalize (@nil CTxInUndo). induction (vin tx) as [|i l IH]; intros us c vp Hi Hsp k Hk.
      { by injection Hsp as <- <-. }
      cbn [spend_inputs] in Hsp. destruct (with_modifier c _ _) as [[u ca]|] eqn:Hm; [|done]. cbn [mbind option_bind] in Hsp.
      destruct (spend_one_law tree_of c _ _ _ _ Hi Hm) as (co & co' & _ & Hst & _ & _ & Hia & Habs).
      eapply IH; [exact Hia|exact Hsp|]. rewrite (set_coins_at _ _ _ _ k Habs). case_decide; [congruence|done]. }
  destruct H1 as (Hi1 & (R1 & R2 & R3 & R4) & Hnd & Hnone & Hu1).
  destruct (add_outputs_law tree_of txid tx h c1 c2 Hi1 Hv) as [Hi2 (A1 & A2 & A3 & A4 & A5)]; [by rewrite Himp|by rewrite Hm, Himp|].
  split_and!; [done| |done|..].
  - split; [intros p Hp|intros t k]; unfold ledger_of, apply_tx; cbn [unspent revealed].
    + rewrite A1. destruct (decide (hash p = txid)); [by rewrite out_at_live, out_at_FromTx|].
      rewrite decide_False by (by intros [? _]; congruence). by apply Hu1.
    + rewrite A5, R2. by destruct t.
  - intros t k. by rewrite A2, R1.
  - by rewrite A3, R3.
  - intros t. by rewrite A4, R4.
  - intros k Hk Hn. rewrite A1, decide_False by done. rewrite decide_False by (by intros [? _]; congruence). by apply Hnone.
Qed.
End Effect.
