(* ===== verification/ConnectTxs.v ===== *)
(** * Connecting the transactions of a block (src/src/main.cpp)

    GetP2SHSigOpCount, GetSpendHeight, CScriptCheck, ContextualCheckInputs and the
    loop of ConnectBlock over the transactions: the checks of each against the
    coins view, its effect on the view, the fees and the note commitment trees.
    The address and spent indexes are left out. *)
From Stdlib Require Ascii String.
From S2P Require Import Prelude Serialize Transaction Compressor Coins CoinsView CoinsCache UpdateCoins Ledger Interest Script Interpreter SigHash CheckTx BlockIndex TxInputs Notary BlockChecks.
From stdpp Require Import strings.
Import String.StringSyntax.
#[local] Open Scope string_scope.
#[local] Open Scope Z_scope.

(** The parts of the node that connecting transactions asks. *)
Record connect_env := mkConnectEnv {
  ce_chain : chain_env;
  ce_rules : chain_rules;
  ce_index : chain_index;                          (** what interest is computed from *)
  ce_TIMELOCKGTE : Z; ce_UNLOCKFROM : Z; ce_UNLOCKTO : Z; ce_block_prg : Z -> Z;
  ce_CoinbaseMaturity : Z; ce_coinbase_protected : bool;
  ce_CheckLowS : bytes -> bool; ce_hashers : hashers; ce_CryptoConditions : bool;
  (** [ServerTransactionSignatureChecker] of a transaction, an input and an amount. *)
  ce_checker : CMutableTransaction -> Z -> Z -> BaseSignatureChecker;
  ce_GetCoinImportValue : CMutableTransaction -> Z;
  ce_VerifyCoinImport : CMutableTransaction -> bool;
  ce_ScriptCheckThreads : bool                     (** [nScriptCheckThreads != 0] *)
}.

Definition isKMD_env (C : connect_env) : bool := isKMD (env_symbol (ce_chain C)).

(** ** Script checks *)

Record CScriptCheck := mkScriptCheck { sc_tx : CMutableTransaction; sc_nIn : nat; sc_scriptPubKey : bytes; sc_amount : Z }.

Definition STANDARD_NOT_MANDATORY_VERIFY_FLAGS : Z :=
  Z.lor SCRIPT_VERIFY_STRICTENC (Z.lor SCRIPT_VERIFY_MINIMALDATA (Z.lor SCRIPT_VERIFY_NULLDUMMY
    (Z.lor SCRIPT_VERIFY_DISCOURAGE_UPGRADABLE_NOPS (Z.lor SCRIPT_VERIFY_CLEANSTACK
      (Z.lor SCRIPT_VERIFY_CHECKLOCKTIMEVERIFY SCRIPT_VERIFY_LOW_S))))).

Section Checks.
Context {Tree V : Type} `{!MerkleTree Tree} `{!CoinsView Tree V} `{!CoinsMemory}.
Abbreviation cache := (CCoinsViewCache Tree V).
Abbreviation check := (@check Tree V).
Variables (C : connect_env) (objs : store) (mapBlockIndex : gmap Z (option Z)).

(** [CScriptCheck::operator()]; [None] is a failed assertion. *)
Definition run_check (flags consensusBranchId : Z) (k : CScriptCheck) : option bool :=
  i ← vin (sc_tx k) !! sc_nIn k;
  r ← VerifyScript (ce_CheckLowS C) (ce_hashers C) (ce_CryptoConditions C)
        (ce_checker C (sc_tx k) (Z.of_nat (sc_nIn k)) (sc_amount k)) flags consensusBranchId (scriptSig i) (sc_scriptPubKey k);
  Some (match r with inr _ => true | inl _ => false end).

Definition c_GetBestBlock : check Z := fun c => let '(h, c') := Cache_GetBestBlock c in (inr h, c').

Definition GetSpendHeight : check Z :=
  h ← c_GetBestBlock;
  p ← of_option (mapBlockIndex !! h);
  p ← of_option p;
  b ← of_option (objs !! p);
  mret (i32 (nHeight b + 1)).

Fixpoint p2sh_loop (l : list CTxIn) (nSigOps : Z) : check Z :=
  match l with
  | [] => mret nSigOps
  | i :: l =>
    o ← GetOutputFor i;
    p2sh_loop l (if IsPayToScriptHash (scriptPubKey o) then u32 (nSigOps + GetSigOpCount_P2SH (scriptSig i) (scriptPubKey o)) else nSigOps)
  end.

Definition GetP2SHSigOpCount (tx : CMutableTransaction) : check Z :=
  if IsCoinBase tx || IsCoinImport tx then mret 0 else p2sh_loop (vin tx) 0.

(** The checks of the inputs from [nIn] on, run at once or collected. *)
Fixpoint script_loop (flags branch : Z) (tx : CMutableTransaction) (nIn : nat) (l : list CTxIn) (pvChecks : list CScriptCheck)
    : check (list CScriptCheck) :=
  match l with
  | [] => mret pvChecks
  | i :: l =>
    coins ← c_AccessCoins (hash (prevout i));
    coins ← of_option coins;
    o ← of_option (coins_vout coins !! Z.to_nat (n (prevout i)));
    let k := mkScriptCheck tx nIn (scriptPubKey o) (nValue o) in
    if ce_ScriptCheckThreads C then script_loop flags branch tx (S nIn) l (pvChecks ++ [k])%list
    else
      ok ← of_option (run_check flags branch k);
      if (ok : bool) then script_loop flags branch tx (S nIn) l pvChecks
      else
        again ← (if negb (Z.land flags STANDARD_NOT_MANDATORY_VERIFY_FLAGS =? 0)
                 then of_option (run_check (Z.land flags (Z.lnot STANDARD_NOT_MANDATORY_VERIFY_FLAGS)) branch k)
                 else mret false);
        stop (if (again : bool) then Invalid "non-mandatory-script-verify-flag" else DoS 100 "mandatory-script-verify-flag-failed")
  end.

Definition ContextualCheckInputs (tx : CMutableTransaction) (fScriptChecks : bool) (flags consensusBranchId : Z)
    : check (list CScriptCheck) :=
  checks ← (if negb (IsMint tx) then
              ht ← GetSpendHeight;
              _ ← CheckTxInputs (ce_rules C) (isKMD_env C) (ce_index C) (ce_TIMELOCKGTE C) (ce_UNLOCKFROM C) (ce_UNLOCKTO C)
                    (ce_block_prg C) (ce_CoinbaseMaturity C) (ce_coinbase_protected C) tx ht;
              if fScriptChecks then script_loop flags consensusBranchId tx 0 (vin tx) [] else mret []
            else mret []);
  if IsCoinImport tx then
    _ ← stop_if (negb (ce_VerifyCoinImport C tx)) (Invalid "invalid-coin-import"); mret checks
  else mret checks.

(** ** The loop over the transactions *)

(** What the loop accumulates. *)
Record connecting := mkConnecting {
  cn_sigops : Z; cn_fees : Z; cn_interest : Z; cn_stake : Z;    (** [nSigOps], [nFees], [sum], [stakeTxValue] *)
  cn_undo : list CTxUndo;
  cn_sprout : Tree; cn_sapling : Tree;
  cn_checks : list CScriptCheck                                 (** added to [control] *)
}.

Definition SQUISHY_VALUETOOBIG (x : Z) : bool := x >? 10000000001 * COIN.

Definition c_UpdateCoins (txid : Z) (tx : CMutableTransaction) (nHeight : Z) : check CTxUndo := fun c =>
  match UpdateCoins txid tx c nHeight with
  | Some (undo, c') => (inr undo, c')
  | None => (inl Thrown, c)
  end.

Fixpoint append_notes (t : ShieldedType) (tree : Tree) (l : list Z) : option Tree :=
  match l with
  | [] => Some tree
  | cm :: l => tree ← tree_append t tree cm; append_notes t tree l
  end.

(** The checks of a transaction that spends: inputs, JoinSplits, and the signature
    operations of pay-to-script-hash inputs. *)
Definition spending_checks (tx : CMutableTransaction) (nSigOps : Z) : check Z :=
  if IsMint tx then mret nSigOps
  else
    have ← HaveInputs tx;
    _ ← stop_if (negb have) (DoS 100 "bad-txns-inputs-missingorspent");
    req ← HaveJoinSplitRequirements tx;
    _ ← stop_if (negb req) (DoS 100 "bad-txns-joinsplit-requirements-not-met");
    k ← GetP2SHSigOpCount tx;
    let nSigOps := u32 (nSigOps + k) in
    _ ← stop_if (nSigOps >? MAX_BLOCK_SIGOPS (ce_chain C)) (DoS 100 "bad-blk-sigops");
    mret nSigOps.

(** One iteration; [tipheight] is [chainActive.Tip()->nHeight]. *)
Definition connect_tx (nHeight tipheight : Z) (fExpensiveChecks : bool) (flags branch : Z) (txid : Z) (tx : CMutableTransaction)
    (a : connecting) : check connecting :=
  let nSigOps := u32 (cn_sigops a + GetLegacySigOpCount tx) in
  _ ← stop_if (nSigOps >? MAX_BLOCK_SIGOPS (ce_chain C)) (DoS 100 "bad-blk-sigops");
  nSigOps ← spending_checks tx nSigOps;
  valueout ← of_option (GetValueOut (MAX_MONEY (ce_rules C)) tx);
  _ ← stop_if (SQUISHY_VALUETOOBIG (u64 valueout)) (DoS 100 "tx valueout is too big");
  r ← (if negb (IsCoinBase tx) then
         v ← GetValueIn (ce_rules C) (isKMD_env C) (ce_index C) (ce_GetCoinImportValue C) tipheight tx;
         checks ← ContextualCheckInputs tx fExpensiveChecks flags branch;
         mret (i64 (v.1 - valueout), v.2, checks)
       else mret (0, 0, []));
  let '(fee, interest, checks) := r in
  undo ← c_UpdateCoins txid tx nHeight;
  sprout ← of_option (append_notes SPROUT (cn_sprout a) (concat (map commitments (vjoinsplit tx))));
  sapling ← of_option (append_notes SAPLING (cn_sapling a) (map od_cm (vShieldedOutput tx)));
  mret (mkConnecting nSigOps (i64 (cn_fees a + fee)) (i64 (cn_interest a + interest))
          (if IsCoinBase tx then cn_stake a else fee) (cn_undo a ++ [undo])%list sprout sapling (cn_checks a ++ checks)%list).

Fixpoint connect_loop (nHeight tipheight : Z) (fExpensiveChecks : bool) (flags branch : Z) (l : list (Z * CMutableTransaction))
    (a : connecting) : check connecting :=
  match l with
  | [] => mret a
  | (txid, tx) :: l =>
    a ← connect_tx nHeight tipheight fExpensiveChecks flags branch txid tx a;
    connect_loop nHeight tipheight fExpensiveChecks flags branch l a
  end.
End Checks.

(** ** Facts: queries *)

Lemma i64_add_l a b : i64 (i64 a + b) = i64 (a + b).
Proof.
  unfold i64. f_equal. replace ((a + 2 ^ 63) mod 2 ^ 64 - 2 ^ 63 + b + 2 ^ 63) with ((a + 2 ^ 63) mod 2 ^ 64 + b) by lia.
  rewrite Z.add_mod_idemp_l by lia. f_equal. lia.
Qed.

Section QueryFacts.
Context {Tree V : Type} `{!MerkleTree Tree} `{!CoinsView Tree V} `{!CoinsMemory}.
Context (tree_of : ShieldedType -> Z -> Tree) `{!CoinsViewReads tree_of V}.
Abbreviation cache := (CCoinsViewCache Tree V).
Abbreviation check := (@check Tree V).
Abbreviation shows := (shows tree_of).
Abbreviation query := (query tree_of).

Lemma check_bind_inr {A B} (m : check A) (f : A -> check B) c b c' :
  (m ≫= f) c = (inr b, c') <-> exists a c1, m c = (inr a, c1) /\ f a c1 = (inr b, c').
Proof using Type.
  unfold mbind, check_bind. destruct (m c) as [[e|a] c1].
  - split; [done|]. by intros (? & ? & [=] & _).
  - split; [eauto|]. by intros (? & ? & [= -> ->] & ?).
Qed.

Lemma stop_if_inr b r (c c' : cache) u : stop_if b r c = (inr u, c') <-> b = false /\ c' = c.
Proof using Type. unfold stop_if, stop. destruct b; [by split; [|intros []]|]. destruct u. split; [by intros [= <-]|by intros [_ ->]]. Qed.

Lemma of_option_inr {A} (o : option A) (c c' : cache) a : of_option o c = (inr a, c') <-> o = Some a /\ c' = c.
Proof using Type. destruct o; cbn; unfold mret, check_ret, stop; split; [by intros [= -> ->]|by intros [[= ->] ->]|done|by intros []]. Qed.

Lemma check_ret_inr {A} (a b : A) (c c' : cache) : (mret a : check A) c = (inr b, c') <-> a = b /\ c' = c.
Proof using Type. unfold mret, check_ret. split; [by intros [= -> ->]|by intros [-> ->]]. Qed.

Lemma query_run {A} s (m : check A) Q c a c' : query s m Q -> shows s c -> m c = (inr a, c') -> shows s c' /\ Q a.
Proof using Type. intros Hq Hc E. destruct (Hq c Hc) as [H1 H2]. rewrite E in H1, H2. auto. Qed.

Variable s : utxo_state Tree.

(** The input spends this output of the state. *)
Definition spends (i : CTxIn) (o : CTxOut) : Prop :=
  exists co, st_coins s (hash (prevout i)) = Some co /\ IsAvailable co (n (prevout i)) = true /\
    coins_vout co !! Z.to_nat (n (prevout i)) = Some o.

Lemma spends_det i o o' : spends i o -> spends i o' -> o = o'.
Proof using Type. intros (co & H1 & _ & H2) (co' & H3 & _ & H4). congruence. Qed.

Lemma spends_det_list l os os' : Forall2 spends l os -> Forall2 spends l os' -> os = os'.
Proof using Type.
  intros HF. revert os'. induction HF as [|i o l os Hi _ IH]; intros os' HF'; inversion HF'; subst; [done|].
  f_equal; [by eapply spends_det|by apply IH].
Qed.

Lemma query_access_live k : query s (c_AccessCoins k) (fun r => forall co, st_coins s k = Some co -> r = Some co).
Proof using Type.
  eapply query_weaken; [apply query_access|]. intros r Hr co Hco. cbn beta in Hr. rewrite Hco in Hr.
  destruct r as [co'|]; [|done]. cbn in Hr. unfold live in Hr. by destruct (IsPruned co'); [|injection Hr as ->].
Qed.

Lemma query_output i : query s (GetOutputFor i) (spends i).
Proof using Type.
  unfold GetOutputFor. eapply query_bind; [apply query_access|]. intros [co|] Hco; [|apply query_stop].
  cbn [mbind option_bind] in Hco. destruct (IsAvailable co _) eqn:Ha; [|apply query_stop]. rewrite (available_live _ _ Ha) in Hco.
  apply query_of_option. intros o Ho. by exists co.
Qed.

Lemma query_best : query s c_GetBestBlock (fun h => h = st_best s).
Proof using Type.
  intros c Hc. destruct (Cache_GetBestBlock_law tree_of c (proj1 Hc)) as (Hs & Hl). unfold c_GetBestBlock.
  destruct (Cache_GetBestBlock c) as [h c']; cbn [fst snd] in *. split; [by eapply shows_same|].
  intros a [= <-]. rewrite Hl. destruct Hc as [_ (_ & _ & _ & Hb & _)]. apply Hb.
Qed.

Lemma query_spend_height objs mbi :
  query s (GetSpendHeight objs mbi) (fun h => exists p b, mbi !! st_best s = Some (Some p) /\ objs !! p = Some b /\ h = i32 (nHeight b + 1)).
Proof using Type.
  eapply query_bind; [apply query_best|]. intros h ->.
  eapply query_bind; [apply (query_of_option _ _ _ (fun p => mbi !! st_best s = Some p)); auto|]. intros q Hq.
  eapply query_bind; [apply (query_of_option _ _ _ (fun p => q = Some p)); auto|]. intros p ->.
  eapply query_bind; [apply (query_of_option _ _ _ (fun b => objs !! p = Some b)); auto|]. intros b Hb.
  apply query_ret. by exists p, b.
Qed.

Lemma query_p2sh l : forall k, query s (p2sh_loop l k) (fun _ => True).
Proof using Type.
  induction l as [|i l IH]; intros k; [by apply query_ret|]. eapply query_bind; [apply query_output|]. intros o _. apply IH.
Qed.

Lemma query_p2sh_count tx : query s (GetP2SHSigOpCount tx) (fun _ => True).
Proof using Type. unfold GetP2SHSigOpCount. destruct (_ || _); [by apply query_ret|apply query_p2sh]. Qed.

Definition checks_of (tx : CMutableTransaction) (nIn : nat) (os : list CTxOut) : list CScriptCheck :=
  imap (fun k o => mkScriptCheck tx (nIn + k) (scriptPubKey o) (nValue o)) os.

Lemma checks_of_cons tx k o os : checks_of tx k (o :: os) = mkScriptCheck tx k (scriptPubKey o) (nValue o) :: checks_of tx (S k) os.
Proof using Type.
  unfold checks_of. rewrite imap_cons, Nat.add_0_r. f_equal. apply imap_ext. intros i o' _. cbn. f_equal. lia.
Qed.

Lemma query_scripts C flags branch tx os l k : forall pv, Forall2 spends l os ->
  query s (script_loop C flags branch tx k l pv) (fun r =>
    if ce_ScriptCheckThreads C then r = (pv ++ checks_of tx k os)%list
    else r = pv /\ Forall (fun c => run_check C flags branch c = Some true) (checks_of tx k os)).
Proof using Type.
  intros pv HF. revert k pv. induction HF as [|i o l os Hi _ IH]; intros k pv.
  { apply query_ret. unfold checks_of. cbn. rewrite app_nil_r. by destruct (ce_ScriptCheckThreads C). }
  cbn [script_loop]. destruct Hi as (co & Hco & _ & Ho).
  eapply query_bind; [apply query_access_live|]. intros r Hr. rewrite (Hr co Hco). cbn [of_option].
  eapply query_bind; [apply (query_of_option _ _ (Some co) (fun a => a = co)); by intros a [= ->]|]. intros ? ->. rewrite Ho.
  eapply query_bind; [apply (query_of_option _ _ (Some o) (fun a => a = o)); by intros a [= ->]|]. intros ? ->. cbv zeta.
  specialize (IH (S k)). rewrite checks_of_cons. destruct (ce_ScriptCheckThreads C).
  - eapply query_weaken; [apply IH|]. intros r' ->. by rewrite <- app_assoc.
  - eapply query_bind; [apply (query_of_option _ _ _ (fun b => run_check C flags branch (mkScriptCheck tx k (scriptPubKey o) (nValue o)) = Some b)); auto|].
    intros ok Hok. destruct ok.
    + eapply query_weaken; [apply IH|]. intros r' [-> HF]. split; [done|]. by constructor.
    + eapply query_bind; [|intros again _; apply query_stop]. destruct (negb _); [|by apply (query_ret _ _ _ (fun _ => True))].
      by apply (query_of_option _ _ _ (fun _ => True)).
Qed.

(** ** Facts: values *)

Section Values.
Context (R : chain_rules) (isKMD : bool) (ci : chain_index) (GetCoinImportValue : CMutableTransaction -> Z).
Context (tx : CMutableTransaction) (nSpendHeight : Z).
Abbreviation credit := (credit isKMD ci nSpendHeight).

(** The outputs with the interest credited for them. *)
Definition credited (l : list CTxIn) (os : list CTxOut) : list (CTxOut * Z) :=
  zip_with (fun i o => (o, credit (prevout i) (nValue o))) l os.

Lemma query_value_in l os : Forall2 spends l os -> forall a b,
  query s (value_in_loop isKMD ci (nSpendHeight - 1) l (i64 a) (i64 b))
    (fun r => r.1 = i64 (a + in_total (credited l os)) /\ r.2 = i64 (b + sum_Z (map snd (credited l os)))).
Proof using Type.
  induction 1 as [|i o l os Hi _ IH]; intros a b.
  { apply query_ret. unfold in_total, sum_Z. cbn. by rewrite !Z.add_0_r. }
  cbn [value_in_loop]. eapply query_bind; [apply query_output|]. intros o' Ho'. pose proof (spends_det _ _ _ Hi Ho') as <-. cbv zeta.
  assert (Hsum : in_total (credited (i :: l) (o :: os)) = nValue o + credit (prevout i) (nValue o) + in_total (credited l os)) by done.
  assert (Hint : sum_Z (map snd (credited (i :: l) (o :: os))) = credit (prevout i) (nValue o) + sum_Z (map snd (credited l os))) by done.
  rewrite Hsum, Hint, !Z.add_assoc, (i64_add_l a (nValue o)).
  assert (Hcr : (isKMD && (nSpendHeight - 1 >=? 60000) && (nValue o >=? 10 * COIN) = true /\
                 credit (prevout i) (nValue o) = input_interest isKMD ci (prevout i) (nValue o) (nSpendHeight - 1)) \/
                (isKMD && (nSpendHeight - 1 >=? 60000) && (nValue o >=? 10 * COIN) = false /\ credit (prevout i) (nValue o) = 0)).
  { unfold TxInputs.credit. replace (nSpendHeight - 1 >=? 60000) with (nSpendHeight >? 60000); [destruct (_ && _); auto|].
    rewrite Z.gtb_ltb, Z.geb_leb. destruct (Z.ltb_spec 60000 nSpendHeight), (Z.leb_spec 60000 (nSpendHeight - 1)); lia. }
  destruct Hcr as [[-> ->]|[-> ->]].
  - rewrite !i64_add_l. apply IH.
  - rewrite !Z.add_0_r. apply IH.
Qed.

(** What [GetValueIn] gives for a transaction that CheckTxInputs would accept: with
    the tip below it, exactly what its outputs and its fee add up to. *)
Lemma query_GetValueIn maturity protected os : IsMint tx = false -> tx_amounts_i64 tx -> 0 <= MAX_MONEY R < 2 ^ 61 ->
  Forall2 spends (vin tx) os ->
  query s (GetValueIn R isKMD ci GetCoinImportValue (nSpendHeight - 1) tx) (fun v =>
    forall oxs fee, inputs_sound s R isKMD ci maturity protected tx nSpendHeight oxs fee ->
      v.1 = sum_Z (amounts_out tx) + fee /\ v.2 = sum_Z (map snd oxs) /\ map fst oxs = os).
Proof using Type.
  intros Hm Hi64 HM Hos. unfold GetValueIn. apply orb_false_iff in Hm as [-> ->].
  eapply query_bind; [apply (query_value_in _ _ Hos 0 0)|]. intros r [Hr1 Hr2]. cbn beta in *.
  eapply query_bind; [apply query_of_option; intros sh Hsh; exact Hsh|]. intros sh Hsh. apply query_ret.
  intros oxs fee (_ & _ & HF & Hmax & Hfee & Hsum). cbn [fst snd].
  assert (Hox : credited (vin tx) os = oxs /\ map fst oxs = os /\ Forall (fun ox => 0 <= ox.2 <= nValue ox.1) oxs).
  { clear -HF Hos. revert os Hos. induction HF as [|i ox l oxs Hi _ IH]; intros os Hos; inversion Hos as [|? o ? os' Ho Hos']; subst; [done|].
    destruct Hi as ((co & Hco & Hav & Hlk & _) & Hv & Hx & Hb). assert (o = ox.1) as -> by (eapply spends_det; [exact Ho|by exists co]).
    destruct (IH os' Hos') as (E1 & E2 & E3). split_and!.
    - unfold credited in *. cbn [zip_with]. rewrite E1. f_equal. destruct ox. cbn [fst snd] in *. by rewrite Hx.
    - cbn [map]. by rewrite E2.
    - constructor; [|done]. assert (nValue ox.1 / 20 <= nValue ox.1) by (apply Z.div_le_upper_bound; lia). lia. }
  destruct Hox as (Ecr & Hos' & Hpos). rewrite Ecr, Z.add_0_l in Hr1, Hr2. clear HF Hos Ecr.
  assert (Hint : 0 <= sum_Z (map snd oxs) <= in_total oxs /\ 0 <= in_total oxs).
  { clear -Hpos. induction Hpos as [|ox oxs Hb _ IH]; [done|]. unfold in_total, sum_Z in *. cbn. lia. }
  destruct (amounts_i64 tx Hi64) as [Hio Hii]. rewrite GetShieldedValueIn_sum_checked in Hsh.
  apply sum_checked_iff in Hsh as (Hp1 & -> & Hb1); [|lia..|done]. rewrite Z.add_0_l in *.
  assert (0 <= sum_Z (amounts_in tx)). { clear -Hp1. induction Hp1; unfold sum_Z in *; cbn; lia. }
  rewrite Hr1, Hr2, (i64_id (in_total oxs)), (i64_id (sum_Z (map snd oxs))), i64_id by (unfold is_i64; lia). split_and!; [lia|done|done].
Qed.
End Values.
End QueryFacts.

(** ** What the loop means for the ledger *)

Section LedgerSemantics.
Context (C : connect_env) (h : Z).
(** The scripts of the outputs a transaction spends were verified. *)
Context (verified : CMutableTransaction -> list CTxOut -> Prop).

(** A transaction spends unspent outputs, each once, reveals new nullifiers, and
    pays out with its fee exactly what it takes in, with the interest credited. *)
Definition spend_ok (L : ledger) (tx : CMutableTransaction) (oxs : list (CTxOut * Z)) (fee : Z) : Prop :=
  base.NoDup (map prevout (vin tx)) /\
  Forall2 (fun i ox => unspent L (prevout i) = Some ox.1 /\ 0 <= nValue ox.1 <= MAX_MONEY (ce_rules C) /\
             ox.2 = credit (isKMD_env C) (ce_index C) h (prevout i) (nValue ox.1) /\ 0 <= ox.2 <= nValue ox.1 / 20) (vin tx) oxs /\
  (forall t k, k ∈ nullifiers_of t tx -> revealed L t k = false) /\
  0 <= fee <= MAX_MONEY (ce_rules C) /\ sum_Z (amounts_out tx) + fee = in_total oxs + sum_Z (amounts_in tx).

(** The transactions of a block in order, with the outputs, the interest and the fee of each that spends. *)
Inductive ledger_txs : ledger -> list (Z * CMutableTransaction) -> list (list (CTxOut * Z) * Z) -> ledger -> Prop :=
| lt_nil L L' : L' ≡ L -> ledger_txs L [] [] L'
| lt_coinbase L L1 L' txid tx l accounts :
    IsCoinBase tx = true -> L1 ≡ apply_tx txid tx L -> ledger_txs L1 l accounts L' ->
    ledger_txs L ((txid, tx) :: l) accounts L'
| lt_spend L L1 L' txid tx l oxs fee accounts :
    IsCoinBase tx = false -> spend_ok L tx oxs fee -> verified tx (map fst oxs) ->
    L1 ≡ apply_tx txid tx L -> ledger_txs L1 l accounts L' ->
    ledger_txs L ((txid, tx) :: l) ((oxs, fee) :: accounts) L'.

(** The ledgers at both ends can be replaced by equal ones. *)
Lemma ledger_txs_start L L' l accounts M : (forall p, unspent L p = unspent L' p) -> (forall t k, revealed L t k = revealed L' t k) ->
  ledger_txs L l accounts M -> ledger_txs L' l accounts M.
Proof.
  intros Hu Hr HL. assert (HE : L ≡ L') by by split.
  destruct HL as [L M HM|L L1 M txid tx l acc Hcb H1 HL|L L1 M txid tx l oxs fee acc Hcb (S1 & S2 & S3 & S4) Hv H1 HL].
  - constructor. by rewrite HM.
  - eapply lt_coinbase; [done|by rewrite <- HE|done].
  - eapply lt_spend; [done| |done|by rewrite <- HE|done]. split; [done|]. split; [|split; [|done]].
    + eapply Forall2_impl; [exact S2|]. intros i ox (? & ?). by rewrite <- Hu.
    + intros t k Hk. rewrite <- Hr. by apply S3.
Qed.

Lemma ledger_txs_end L l accounts M M' : M ≡ M' -> ledger_txs L l accounts M -> ledger_txs L l accounts M'.
Proof.
  intros HM HL. induction HL.
  - constructor. by rewrite <- HM.
  - eapply lt_coinbase; eauto.
  - eapply lt_spend; eauto.
Qed.

(** Over the transactions that spend, what goes out is what comes in with the
    interest, less the fees; and no fee and no interest is negative. *)
Lemma ledger_txs_value L l accounts M : ledger_txs L l accounts M ->
  sum_Z (map (fun t => if IsCoinBase t.2 then 0 else sum_Z (amounts_out t.2) - sum_Z (amounts_in t.2)) l) =
    sum_Z (map (fun a => sum_Z (map (fun ox => nValue ox.1) a.1)) accounts) + sum_Z (map (fun a => sum_Z (map snd a.1)) accounts)
    - sum_Z (map snd accounts) /\
  0 <= sum_Z (map snd accounts) /\ 0 <= sum_Z (map (fun a => sum_Z (map snd a.1)) accounts).
Proof.
  assert (Hin : forall oxs, in_total oxs = sum_Z (map (fun ox => nValue ox.1) oxs) + sum_Z (map snd oxs)).
  { induction oxs as [|ox oxs IH]; [done|]. unfold in_total, sum_Z in *. cbn. lia. }
  induction 1 as [L M HM|L L1 M txid tx l acc Hcb H1 HL (E1 & E2 & E3)|L L1 M txid tx l oxs fee acc Hcb (S1 & S2 & S3 & S4 & S5) Hv H1 HL (E1 & E2 & E3)].
  - done.
  - cbn [map snd]. rewrite Hcb. unfold sum_Z in *. cbn [foldr]. lia.
  - assert (Hnn : 0 <= sum_Z (map snd oxs)).
    { clear -S2. induction S2 as [|i ox l oxs (_ & _ & _ & Hx) _ IH]; [done|]. unfold sum_Z in *. cbn. lia. }
    rewrite Hin in S5. cbn [map snd fst]. rewrite Hcb. unfold sum_Z in *. cbn [foldr]. lia.
Qed.
End LedgerSemantics.

Definition total_fees (accounts : list (list (CTxOut * Z) * Z)) : Z := sum_Z (map snd accounts).
Definition total_interest (accounts : list (list (CTxOut * Z) * Z)) : Z :=
  sum_Z (map (fun a => sum_Z (map snd a.1)) accounts).

(** What the types and the checks of a block guarantee of a transaction. *)
Definition tx_ok (tx : CMutableTransaction) : Prop :=
  Forall (fun o => 0 <= nValue o) (vout tx) /\ (IsMint tx = false -> input_positions (vin tx)) /\
  IsCoinImport tx = false /\ tx_amounts_i64 tx.

Section LoopFacts.
Context {Tree V : Type} `{!MerkleTree Tree} `{!CoinsView Tree V} `{!CoinsMemory}.
Context (tree_of : ShieldedType -> Z -> Tree) `{!CoinsViewReads tree_of V}.
Abbreviation cache := (CCoinsViewCache Tree V).
Abbreviation check := (@check Tree V).
Abbreviation shows := (shows tree_of).
Abbreviation query := (query tree_of).
Abbreviation inv := (cache_inv tree_of).
Abbreviation st := (cache_abs tree_of).
Context (C : connect_env) (objs : store) (mapBlockIndex : gmap Z (option Z)).
Context (best p : Z) (prev : CBlockIndex) (exp : bool) (flags branch : Z) (nHeight : Z).
Hypothesis Hbest : mapBlockIndex !! best = Some (Some p).
Hypothesis Hprev : objs !! p = Some prev.
Hypothesis Hh : 0 <= BlockIndex.nHeight prev < 2 ^ 31 - 1.
Hypothesis HM : 0 <= MAX_MONEY (ce_rules C) < 2 ^ 61.
Hypothesis Hci : chain_index_ok (ce_index C).
Let h := BlockIndex.nHeight prev + 1.
Abbreviation sound s tx := (inputs_sound s (ce_rules C) (isKMD_env C) (ce_index C) (ce_CoinbaseMaturity C) (ce_coinbase_protected C) tx h).
Abbreviation step := (connect_tx C objs mapBlockIndex nHeight (BlockIndex.nHeight prev) exp flags branch).

(** The checks of the scripts: collected, or run. *)
Definition scripts_done (tx : CMutableTransaction) (os : list CTxOut) (checks : list CScriptCheck) : Prop :=
  if exp then
    if ce_ScriptCheckThreads C then checks = checks_of tx 0 os
    else checks = [] /\ Forall (fun c => run_check C flags branch c = Some true) (checks_of tx 0 os)
  else checks = [].

Lemma query_contextual s tx os : st_best s = best -> IsMint tx = false -> tx_amounts_i64 tx -> Forall2 (spends s) (vin tx) os ->
  query s (ContextualCheckInputs C objs mapBlockIndex tx exp flags branch)
    (fun checks => exists oxs fee, sound s tx oxs fee /\ scripts_done tx os checks).
Proof.
  intros Hs Hm Hi64 Hos. unfold ContextualCheckInputs. pose proof Hm as Hm'. apply orb_false_iff in Hm' as [Himp _]. rewrite Hm, Himp. cbn [negb].
  eapply query_bind; [|intros checks Hc; apply query_ret; exact Hc].
  eapply query_bind; [apply query_spend_height|]. intros ht (q & b & Hq & Hb & ->).
  rewrite Hs, Hbest in Hq. injection Hq as <-. rewrite Hprev in Hb. injection Hb as <-. rewrite i32_id by (unfold is_i32; lia).
  eapply query_bind; [by apply query_CheckTxInputs|]. intros _ (oxs & fee & Hsound).
  unfold scripts_done. destruct exp.
  - eapply query_weaken; [by apply query_scripts|]. intros checks Hc. exists oxs, fee. split; [done|]. by destruct (ce_ScriptCheckThreads C).
  - apply query_ret. by exists oxs, fee.
Qed.

Lemma query_spending s tx k : st_best s = best -> IsMint tx = false -> 
  query s (spending_checks C tx k) (fun _ => exists os, Forall2 (spends s) (vin tx) os).
Proof.
  intros Hs Hm. unfold spending_checks. rewrite Hm. unfold HaveInputs. rewrite Hm. cbn [negb].
  eapply query_bind; [apply query_have_inputs|]. intros have Hh'. cbn beta in Hh'. apply query_stop_if_bind. intros ->%negb_false_iff. specialize (Hh' eq_refl).
  assert (Hos : exists os, Forall2 (spends s) (vin tx) os).
  { clear -Hh'. induction Hh' as [|i l (co & Hco & Hav) _ (os & IH)]; [by exists []|].
    pose proof Hav as Hl. unfold IsAvailable in Hl. destruct (coins_vout co !! Z.to_nat (n (prevout i))) as [o|] eqn:Ho; [|done].
    exists (o :: os). constructor; [|done]. by exists co. }
  eapply query_bind; [apply query_requirements|]. intros req _. apply query_stop_if_bind. intros _.
  eapply query_bind; [apply query_p2sh_count|]. intros j _. apply query_stop_if_bind. intros _. by apply query_ret.
Qed.

Lemma sound_nullifiers s tx oxs fee : sound s tx oxs fee ->
  forall t k, k ∈ nullifiers_of t tx -> st_null s t k = false.
Proof.
  intros (Hjs & Hsp & _) t k Hk. destruct t; cbn in Hk.
  - apply list_elem_of_In, in_concat in Hk as (l & Hl & Hk). apply in_map_iff in Hl as (js & <- & Hin).
    apply list_elem_of_In, list_elem_of_lookup in Hin as (i & Hi). destruct (Hjs i js Hi) as [Hn _].
    rewrite list.Forall_forall in Hn. apply Hn. by apply list_elem_of_In.
  - apply list_elem_of_fmap in Hk as (d & -> & Hd). rewrite list.Forall_forall in Hsp. by apply Hsp.
Qed.

(** A sound transaction is a legal step of the ledger. *)
Lemma sound_spend_ok s tx oxs fee : base.NoDup (map prevout (vin tx)) -> sound s tx oxs fee -> spend_ok C h (ledger_of s) tx oxs fee.
Proof.
  intros Hnd Hsound. pose proof Hsound as (_ & _ & HF & _ & Hfee & Hsum). unfold spend_ok. split_and!; try done; try lia.
  - eapply Forall2_impl; [exact HF|]. intros i ox ((co & Hco & Hav & Ho & _) & Hv & Hx & Hb). split_and!; try done; try lia.
    unfold ledger_of. cbn [unspent]. rewrite Hco. cbn [mbind option_bind]. unfold out_at. unfold IsAvailable in Hav. rewrite Ho in *.
    apply negb_true_iff in Hav. by rewrite Hav.
  - intros t k Hk. cbn. by eapply sound_nullifiers; [|exact Hk].
Qed.

Lemma sound_fee s tx oxs fee v valueout : sound s tx oxs fee -> tx_amounts_i64 tx ->
  GetValueOut (MAX_MONEY (ce_rules C)) tx = Some valueout -> v = sum_Z (amounts_out tx) + fee -> i64 (v - valueout) = fee.
Proof.
  intros (_ & _ & _ & _ & Hfee & _) Hi64 Hout ->. destruct (amounts_i64 tx Hi64) as [Ho _].
  rewrite GetValueOut_sum_checked in Hout by done. apply sum_checked_iff in Hout as (_ & -> & _); [|lia..|done].
  rewrite i64_id; [lia|]. unfold is_i64. lia.
Qed.

(** One iteration, up to the update of the coins. *)
Lemma connect_tx_step txid tx a a' c c' : tx_ok tx -> inv c -> st_best (st c) = best -> step txid tx a c = (inr a', c') ->
  exists c0 undo, shows (st c) c0 /\ UpdateCoins txid tx c0 nHeight = Some (undo, c') /\ cn_undo a' = (cn_undo a ++ [undo])%list /\
    append_notes SPROUT (cn_sprout a) (concat (map commitments (vjoinsplit tx))) = Some (cn_sprout a') /\
    append_notes SAPLING (cn_sapling a) (map od_cm (vShieldedOutput tx)) = Some (cn_sapling a') /\
    if IsCoinBase tx
    then cn_fees a' = i64 (cn_fees a) /\ cn_interest a' = i64 (cn_interest a) /\ cn_checks a' = cn_checks a
    else exists oxs fee checks, sound (st c) tx oxs fee /\ scripts_done tx (map fst oxs) checks /\
      cn_checks a' = (cn_checks a ++ checks)%list /\ cn_fees a' = i64 (cn_fees a + fee) /\
      cn_interest a' = i64 (cn_interest a + sum_Z (map snd oxs)).
Proof.
  intros (_ & _ & Himp & Hi64) Hi Hb Hrun. unfold connect_tx in Hrun. assert (Hsh : shows (st c) c) by by split.
  apply check_bind_inr in Hrun as ([] & c1 & H1 & Hrun). apply stop_if_inr in H1 as [_ ->].
  apply check_bind_inr in Hrun as (k & c1 & H1 & Hrun).
  assert (Hm : IsMint tx = IsCoinBase tx) by (unfold IsMint; by rewrite Himp).
  assert (Hk : shows (st c) c1 /\ (IsCoinBase tx = false -> exists os, Forall2 (spends (st c)) (vin tx) os)).
  { destruct (IsCoinBase tx) eqn:Ecb.
    - unfold spending_checks in H1. rewrite Hm in H1. apply check_ret_inr in H1 as [_ ->]. by split.
    - destruct (query_run tree_of _ _ _ _ _ _ (query_spending (st c) tx _ Hb Hm) Hsh H1) as [? ?]. by split. }
  destruct Hk as [Hs1 Hos]. apply check_bind_inr in Hrun as (valueout & c2 & H2 & Hrun). apply of_option_inr in H2 as [Hout ->].
  apply check_bind_inr in Hrun as ([] & c2 & H2 & Hrun). apply stop_if_inr in H2 as [_ ->].
  apply check_bind_inr in Hrun as ([[fee interest] checks] & c2 & H2 & Hrun).
  apply check_bind_inr in Hrun as (undo & c3 & H3 & Hrun). unfold c_UpdateCoins in H3.
  destruct (UpdateCoins txid tx c2 nHeight) as [[undo' c4]|] eqn:Hu; [|done]. injection H3 as <- <-.
  apply check_bind_inr in Hrun as (sprout & c3 & H3 & Hrun). apply of_option_inr in H3 as [Hsprout ->].
  apply check_bind_inr in Hrun as (sapling & c3 & H3 & Hrun). apply of_option_inr in H3 as [Hsapling ->].
  apply check_ret_inr in Hrun as [<- ->]. exists c2, undo'.
  destruct (IsCoinBase tx) eqn:Ecb; cbn [negb] in H2.
  - apply check_ret_inr in H2 as [E ->]. injection E as <- <- <-. split_and!; try done; cbn; by rewrite ?Z.add_0_r, ?app_nil_r.
  - destruct (Hos eq_refl) as (os & Hos'). apply check_bind_inr in H2 as (v & c3 & H3 & H2).
    assert (Hq := query_GetValueIn tree_of (st c) (ce_rules C) (isKMD_env C) (ce_index C) (ce_GetCoinImportValue C) tx h
      (ce_CoinbaseMaturity C) (ce_coinbase_protected C) os Hm Hi64 HM Hos'). replace (h - 1) with (BlockIndex.nHeight prev) in Hq by (unfold h; lia).
    destruct (query_run tree_of _ _ _ _ _ _ Hq Hs1 H3) as [Hs3 Hv]. apply check_bind_inr in H2 as (checks' & c5 & H5 & H2).
    apply check_ret_inr in H2 as [E <-]. injection E as <- <- <-.
    destruct (query_run tree_of _ _ _ _ _ _ (query_contextual (st c) tx os Hb Hm Hi64 Hos') Hs3 H5) as [Hs5 (oxs & fee & Hsound & Hscripts)].
    destruct (Hv oxs fee Hsound) as (Hv1 & Hv2 & <-). split_and!; try done. exists oxs, fee, checks'. cbn.
    by rewrite (sound_fee _ _ _ _ _ _ Hsound Hi64 Hout Hv1), Hv2.
Qed.

Lemma shows_ledger s c : shows s c -> ledger_of (st c) ≡ ledger_of s.
Proof. intros [_ E]. by rewrite E. Qed.

Lemma append_notes_app t l l' : forall tree : Tree,
  append_notes t tree (l ++ l')%list = tree ← append_notes t tree l; append_notes t tree l'.
Proof using Type.
  induction l as [|cm l IH]; intros tree; [done|]. cbn [app append_notes]. destruct (tree_append t tree cm); [|done]. apply IH.
Qed.

Lemma scripts_done_verified tx os checks : scripts_done tx os checks -> Forall (fun c => run_check C flags branch c = Some true) checks ->
  exp = true -> Forall (fun c => run_check C flags branch c = Some true) (checks_of tx 0 os).
Proof using Type. unfold scripts_done. intros Hs HF ->. destruct (ce_ScriptCheckThreads C); [by subst|apply Hs]. Qed.

(** The loop over the transactions carries out the ledger's steps, adds up the fees
    and the interest, and leaves the script checks that decide it. *)
Lemma connect_loop_ledger l : forall a a' c c', Forall (fun t => tx_ok t.2) l -> inv c -> st_best (st c) = best ->
  connect_loop C objs mapBlockIndex nHeight (BlockIndex.nHeight prev) exp flags branch l a c = (inr a', c') ->
  inv c' /\ st_best (st c') = best /\ (forall t k, st_anchor (st c') t k = st_anchor (st c) t k) /\
  (forall t, st_bestAnchor (st c') t = st_bestAnchor (st c) t) /\
  (forall k, k ∉ map fst l -> st_coins (st c) k = None -> st_coins (st c') k = None) /\
  append_notes SPROUT (cn_sprout a) (concat (map (fun t => concat (map commitments (vjoinsplit t.2))) l)) = Some (cn_sprout a') /\
  append_notes SAPLING (cn_sapling a) (concat (map (fun t => map od_cm (vShieldedOutput t.2)) l)) = Some (cn_sapling a') /\
  (exists more, cn_checks a' = (cn_checks a ++ more)%list) /\
  ((Forall (fun c => run_check C flags branch c = Some true) (cn_checks a')) -> exists accounts,
     ledger_txs C h (fun tx os => exp = true -> Forall (fun c => run_check C flags branch c = Some true) (checks_of tx 0 os))
       (ledger_of (st c)) l accounts (ledger_of (st c')) /\
     i64 (cn_fees a') = i64 (cn_fees a + total_fees accounts) /\ i64 (cn_interest a') = i64 (cn_interest a + total_interest accounts)).
Proof.
  induction l as [|[txid tx] l IH]; intros a a' c c' Hok Hi Hb Hrun.
  { apply check_ret_inr in Hrun as [<- ->]. split_and!; try done; [exists []; by rewrite app_nil_r|]. intros _. exists []. split; [by constructor|].
    unfold total_fees, total_interest, sum_Z. cbn. by rewrite !Z.add_0_r. }
  apply list.Forall_cons in Hok as [Htx Hok]. cbn [snd] in Htx. cbn [connect_loop] in Hrun.
  apply check_bind_inr in Hrun as (a1 & c1 & H1 & Hrun).
  destruct (connect_tx_step txid tx a a1 c c1 Htx Hi Hb H1) as (c0 & undo & [Hi0 Hs0] & Hu & _ & Hsp & Hsa & Hacc).
  pose proof Htx as (Hv & Hpos & Himp & _).
  destruct (UpdateCoins_ledger tree_of txid tx nHeight c0 c1 undo Hi0 Hv Hpos Himp Hu) as (Hi1 & HL & Hnd & Han & Hbb & Hba & Hnone).
  pose proof Hs0 as (E1 & E2 & E3 & E4 & E5).
  destruct (IH a1 a' c1 c' Hok Hi1) as (Hi' & Hb' & Han' & Hba' & Hnone' & Hsp' & Hsa' & (more & Hmore) & Hacc'); [by rewrite Hbb, E4|done|].
  assert (HL' : ledger_of (st c1) ≡ apply_tx txid tx (ledger_of (st c))) by (etrans; [exact HL|]; by rewrite Hs0).
  assert (Hm : exists checks, cn_checks a1 = (cn_checks a ++ checks)%list).
  { destruct (IsCoinBase tx); [exists []; rewrite app_nil_r; apply Hacc|]. destruct Hacc as (? & ? & checks & _ & _ & ? & _). by exists checks. }
  split_and!; try done.
  - intros t k. by rewrite Han', Han, E2.
  - intros t. by rewrite Hba', Hba, E5.
  - cbn [map fst]. intros k Hk Hn. apply not_elem_of_cons in Hk as [Hk1 Hk2]. apply Hnone', Hnone; [done|done|]. by rewrite E1.
  - cbn [map concat]. rewrite append_notes_app. cbn [snd]. rewrite Hsp. exact Hsp'.
  - cbn [map concat]. rewrite append_notes_app. cbn [snd]. rewrite Hsa. exact Hsa'.
  - destruct Hm as (checks & Hm). exists (checks ++ more)%list. by rewrite Hmore, Hm, app_assoc.
  - intros Hall. destruct (Hacc' Hall) as (accounts & Hled & Hf & Hin). rewrite Hmore in Hall. apply list.Forall_app in Hall as [Hall _].
    destruct (IsCoinBase tx) eqn:Ecb.
    + exists accounts. destruct Hacc as (F1 & F2 & _). split; [by eapply lt_coinbase|]. by rewrite Hf, Hin, F1, F2, !i64_add_l.
    + destruct Hacc as (oxs & fee & checks & Hsound & Hdone & Hch & F1 & F2). exists ((oxs, fee) :: accounts). split.
      * eapply lt_spend; [done| | |exact HL'|exact Hled].
        -- apply sound_spend_ok; [|done]. unfold consumed in Hnd. unfold IsMint in Hnd. by rewrite Himp, Ecb in Hnd.
        -- rewrite Hch in Hall. apply list.Forall_app in Hall as [_ Hall]. by apply (scripts_done_verified _ _ checks).
      * rewrite Hf, Hin, F1, F2, !i64_add_l. unfold total_fees, total_interest, sum_Z. cbn. by rewrite !Z.add_assoc.
Qed.

(** A coinbase that passed the checks of a block reveals nothing. *)
Definition mint_ok (tx : CMutableTransaction) : Prop := IsCoinBase tx = true -> vjoinsplit tx = [] /\ vShieldedSpend tx = [].

(** The undo data the loop collects restores the coins and the nullifiers, on any
    cache that shows those after the loop; the anchors and the best block are left. *)
Lemma connect_loop_undo l : forall a a' c c', Forall (fun t => tx_ok t.2 /\ mint_ok t.2) l -> inv c -> st_best (st c) = best ->
  heights_ok (st c) -> 0 < nHeight < 2 ^ 31 -> base.NoDup (map fst l) -> Forall (fun k => st_coins (st c) k = None) (map fst l) ->
  connect_loop C objs mapBlockIndex nHeight (BlockIndex.nHeight prev) exp flags branch l a c = (inr a', c') ->
  exists undos, cn_undo a' = (cn_undo a ++ undos)%list /\ length undos = length l /\ heights_ok (st c') /\
    forall d, inv d -> same_coins (st d) (st c') ->
      exists d', disconnect_txs (rev (combine l undos)) nHeight d = Some (true, d') /\ inv d' /\
        same_coins (st d') (st c) /\ same_tips (st d') (st d).
Proof.
  induction l as [|[txid tx] l IH]; intros a a' c c' Hok Hi Hb Hho Hn Hnd Hnew Hrun.
  { apply check_ret_inr in Hrun as [<- ->]. exists []. rewrite app_nil_r. split; [done|]. split; [done|]. split; [done|].
    intros d Hd Hs. exists d. split; [done|]. split; [done|]. split; [done|]. by split_and!. }
  apply list.Forall_cons in Hok as [[Htx Hmint] Hok]. cbn [snd] in Htx, Hmint. cbn [connect_loop] in Hrun. cbn [map fst] in Hnd, Hnew.
  apply NoDup_cons in Hnd as [Hnin Hnd]. apply list.Forall_cons in Hnew as [Hnew1 Hnew].
  apply check_bind_inr in Hrun as (a1 & c1 & H1 & Hrun).
  destruct (connect_tx_step txid tx a a1 c c1 Htx Hi Hb H1) as (c0 & undo & [Hi0 Hs0] & Hu & Hundo & _ & _ & Hacc).
  pose proof Htx as (Hv & Hpos & Himp & _).
  destruct (UpdateCoins_ledger tree_of txid tx nHeight c0 c1 undo Hi0 Hv Hpos Himp Hu) as (Hi1 & _ & _ & Han & Hbb & Hba & Hnone).
  pose proof Hs0 as (E1 & E2 & E3 & E4 & E5).
  assert (Hconn : tx_connectable txid tx (st c0)).
  { assert (Hnf : forall t k, k ∈ nullifiers_of t tx -> st_null (st c) t k = false).
    { destruct (IsCoinBase tx) eqn:Ecb; [|destruct Hacc as (oxs & fee & _ & Hsound & _); by eapply sound_nullifiers].
      destruct (Hmint Ecb) as [Hj Hsp]. intros [] k Hk; cbn in Hk; [rewrite Hj in Hk|rewrite Hsp in Hk]; by apply elem_of_nil in Hk. }
    split; [by rewrite E1|]. split; [done|]. split; [done|]. split; [intros k Hk; rewrite E3; by apply (Hnf SPROUT)|].
    split; [intros k Hk; rewrite E3; by apply (Hnf SAPLING)|]. by rewrite Himp. }
  assert (Hho0 : heights_ok (st c0)) by (intros k co; rewrite E1; apply Hho).
  destruct (disconnect_connect_tx tree_of txid tx nHeight c0 undo c1 Hi0 Hho0 Hn Hconn Hu) as (_ & Hho1 & _ & Hdis1).
  destruct (IH a1 a' c1 c' Hok Hi1) as (undos & Hcn & Hlen & Hho' & Hdis); [by rewrite Hbb, E4|done|done|done| |done|].
  { rewrite list.Forall_forall in Hnew |- *. intros k Hk. apply Hnone; [intros ->; by apply Hnin|]. rewrite E1. by apply Hnew. }
  exists (undo :: undos). split; [by rewrite Hcn, Hundo, <- app_assoc|]. split; [cbn; by rewrite Hlen|]. split; [done|].
  intros d Hd Hs. destruct (Hdis d Hd Hs) as (d1 & Hd1 & Hid1 & Hsc1 & Htip1).
  destruct (Hdis1 d1 Hid1 Hsc1) as (d2 & Hd2 & Hid2 & [Hsc2 Hsn2] & Htip2). exists d2.
  cbn [combine rev]. rewrite disconnect_txs_app, Hd1. cbn [disconnect_txs]. rewrite Hd2. cbn [mbind option_bind andb].
  split; [done|]. split; [done|]. split; [|by eapply same_tips_trans].
  split; [intros k; by rewrite Hsc2|intros t k; by rewrite Hsn2].
Qed.
End LoopFacts.
