(* ===== verification/ConnectBlock.v ===== *)
(** * Connecting and disconnecting a block (src/src/main.cpp)

    ConnectBlock and DisconnectBlock: the checks of the block, the loop over its
    transactions, the note commitment trees, the reward the coinbase may take, the
    undo data, and its application.  The node's parts that are asked (the disk, the
    notary payments, the commission, the staking check) are fields of a record;
    CheckBlock and ContextualCheckBlock are used through an interface.  The address,
    spent and timestamp indexes, the notarisation database and the timers are left
    out. *)
From Stdlib Require Ascii String.
From S2P Require Import Prelude Serialize Transaction Compressor Coins CoinsView CoinsCache UpdateCoins Ledger Interest Script Interpreter SigHash CheckTx BlockIndex BlockTree TxInputs Notary Upgrades Checkpoints BlockChecks ConnectTxs.
From stdpp Require Import strings.
Import String.StringSyntax.
#[local] Open Scope string_scope.
#[local] Open Scope Z_scope.

(** ** What a block connection works on *)

Definition BLOCK_VALID_CONTEXT : Z := 6.
Definition BLOCK_ACTIVATES_UPGRADE : Z := 128.
Definition BLOCK_IN_TMPFILE : Z := 256.
Definition SQUISHY_NOTARIES_HEIGHT1 : Z := 814000.
Definition SQUISHY_NOTARIES_HEIGHT2 : Z := 2588672.

Record CBlockUndo := mkBlockUndo { vtxundo : list CTxUndo; old_sprout_tree_root : Z }.

(** The entry of a block with its fields that only connecting sets. *)
Record block_entry := mkEntry {
  be_index : CBlockIndex; hashSproutAnchor : Z; hashFinalSproutRoot : Z; nCachedBranchId : option Z; nNotaryPay : Z
}.

(** The statements [pindex->field = value] on these fields. *)
Definition set_anchor (r : Z) (e : block_entry) : block_entry :=
  mkEntry (be_index e) r (hashFinalSproutRoot e) (nCachedBranchId e) (nNotaryPay e).
Definition set_final_root (r : Z) (e : block_entry) : block_entry :=
  mkEntry (be_index e) (hashSproutAnchor e) r (nCachedBranchId e) (nNotaryPay e).
Definition set_branch (r : option Z) (e : block_entry) : block_entry :=
  mkEntry (be_index e) (hashSproutAnchor e) (hashFinalSproutRoot e) r (nNotaryPay e).
Definition set_notary_pay (r : Z) (e : block_entry) : block_entry :=
  mkEntry (be_index e) (hashSproutAnchor e) (hashFinalSproutRoot e) (nCachedBranchId e) r.
Definition set_nUndoPos (v : Z) (b : CBlockIndex) : CBlockIndex :=
  mkIndex (phashBlock b) (pprev b) (pskip b) (nHeight b) (nFile b) (nDataPos b) v (nChainWork b) (nTx b)
    (nChainTx b) (nStatus b) (nSproutValue b) (nChainSproutValue b) (nSaplingValue b) (nChainSaplingValue b)
    (bi_nVersion b) (bi_hashMerkleRoot b) (bi_hashFinalSaplingRoot b) (bi_nTime b) (bi_nBits b) (bi_nNonce b)
    (bi_nSolution b) (nSequenceId b).

(** CheckBlock (whether proofs are verified, height, the time of the block before,
    block, fCheckPOW, fCheckMerkleRoot) and ContextualCheckBlock (block, the entry
    before). *)
Record block_checker := mkBlockChecker {
  bc_CheckBlock : bool -> Z -> option Z -> CBlock -> bool -> bool -> bool * ncheck unit;
  bc_ContextualCheckBlock : CBlock -> option Z -> verdict unit
}.

(** What the transactions of a checked block satisfy. *)
Definition checked_tx (tx : CMutableTransaction) : Prop :=
  Forall (fun o => 0 <= nValue o) (vout tx) /\ tx_amounts_i64 tx /\ mint_ok tx.

(** What ConnectBlock relies on: a block checked in full has its coinbase in front,
    no other, and well-formed transactions. *)
Class ChecksBlocks (K : block_checker) : Prop :=
  checked_block : forall strict height prev_time b st st',
    (bc_CheckBlock K strict height prev_time b true true).2 st = (inr tt, st') ->
    Forall (fun t => checked_tx t.2) (vtx b) /\
    exists cb rest, vtx b = cb :: rest /\ IsCoinBase cb.2 = true /\ Forall (fun t => IsCoinBase t.2 = false) rest.

Record block_env := mkBlockEnv {
  en_connect : connect_env; en_checker : block_checker;
  en_SUPERLITE : bool; en_STOPAT : Z; en_fCheckpointsEnabled : bool; en_mapCheckpoints : list (Z * Z);
  en_hashGenesisBlock : Z; en_EXTRASATOSHI : Z; en_GetHash : CBlockHeader -> Z; en_GetBlockSubsidy : Z -> Z;
  en_NOTARY_PAY : bool;                                     (** [ASSETCHAINS_NOTARY_PAY[0] != 0] *)
  en_squishy_connectblock : CBlock -> Z; en_checknotarypay : CBlock -> Z -> Z;
  en_STAKED : Z; en_checkPOW : Z -> CBlock -> Z -> Z; en_commission : CBlock -> Z -> Z;
  (** moving a block out of the temporary file gives its entry; the undo file. *)
  en_move_block : CBlock -> CBlockIndex -> option CBlockIndex;
  en_FindUndoPos : Z -> CBlockUndo -> option Z; en_UndoWriteToDisk : CBlockUndo -> bool
}.

Section Block.
Context {Tree V : Type} `{!MerkleTree Tree} `{!CoinsView Tree V} `{!CoinsMemory}.
Abbreviation cache := (CCoinsViewCache Tree V).
Abbreviation check := (@check Tree V).
Variables (N : block_env) (objs : store) (mapBlockIndex : gmap Z (option Z)).
(** [chainActive.Tip()->nHeight] *)
Variable tipheight : Z.
(** Two fields of the entry of the block before. *)
Variables (prev_nCachedBranchId : option Z) (prev_nNotaryPay : Z).
Let C := en_connect N.
Let E := ce_chain C.

(** The entry of the block, the view, and the undo file: what was written at each
    position, with the hash of the block before. *)
Record connect_state := mkConnectState { cs_entry : block_entry; cs_view : cache; cs_undo_file : gmap (Z * Z) (CBlockUndo * Z) }.

Definition bcheck (A : Type) : Type := connect_state -> verdict A * connect_state.

#[global] Instance bcheck_ret : MRet bcheck := fun A a s => (inr a, s).
#[global] Instance bcheck_bind : MBind bcheck := fun A B f m s =>
  match m s with
  | (inl e, s') => (inl e, s')
  | (inr a, s') => f a s'
  end.

(** A computation on the view. *)
Definition on_view {A} (m : check A) : bcheck A := fun s =>
  let '(r, c) := m (cs_view s) in (r, mkConnectState (cs_entry s) c (cs_undo_file s)).
Definition set_view (f : cache -> cache) : bcheck unit := fun s => (inr tt, mkConnectState (cs_entry s) (f (cs_view s)) (cs_undo_file s)).
Definition get_entry : bcheck block_entry := fun s => (inr (cs_entry s), s).
Definition set_entry (f : block_entry -> block_entry) : bcheck unit := fun s => (inr tt, mkConnectState (f (cs_entry s)) (cs_view s) (cs_undo_file s)).
Definition set_index (f : CBlockIndex -> CBlockIndex) : bcheck unit :=
  set_entry (fun e => mkEntry (f (be_index e)) (hashSproutAnchor e) (hashFinalSproutRoot e) (nCachedBranchId e) (nNotaryPay e)).
Definition write_undo (pos : Z * Z) (u : CBlockUndo) (hashBlock : Z) : bcheck unit := fun s =>
  (inr tt, mkConnectState (cs_entry s) (cs_view s) (<[pos := (u, hashBlock)]> (cs_undo_file s))).
Definition refuse_if (b : bool) (r : reject) : bcheck unit := on_view (stop_if b r).
Definition from_option {A} (o : option A) : bcheck A := on_view (of_option o).

Definition c_GetBestAnchor (t : ShieldedType) : check Z := fun c => let '(h, c') := Cache_GetBestAnchor t c in (inr h, c').

(** [GetSproutAnchorAt] with its consistency check, and the Sapling tree. *)
Definition best_trees : check (Z * Tree * Tree) :=
  root ← c_GetBestAnchor SPROUT;
  tree ← c_GetAnchorAt SPROUT root;
  sprout ← of_option tree;
  _ ← stop_if (negb (tree_root SPROUT sprout =? root)) Thrown;
  sroot ← c_GetBestAnchor SAPLING;
  tree ← c_GetAnchorAt SAPLING sroot;
  sapling ← of_option tree;
  mret (root, sprout, sapling).

Fixpoint check_BIP30 (l : list (Z * CMutableTransaction)) : check unit :=
  match l with
  | [] => mret tt
  | (txid, _) :: l =>
    coins ← c_AccessCoins txid;
    _ ← stop_if (match coins with Some co => negb (IsPruned co) | None => false end) (DoS 100 "bad-txns-BIP30");
    check_BIP30 l
  end.

(** Whether the scripts are checked: not for the ancestors of a checkpoint. *)
Definition expensive_checks (p : Z) (nHeight : Z) : option bool :=
  if en_fCheckpointsEnabled N then
    match GetLastCheckpoint mapBlockIndex (en_mapCheckpoints N) ≫= id with
    | Some q => a ← GetAncestor objs q nHeight; Some (negb (bool_decide (a = Some p)))
    | None => Some true
    end
  else Some true.

(** The notaries' pay is part of the reward. *)
Definition notary_pay (b : CBlock) (nHeight blockReward : Z) : bcheck (Z * Z) :=
  if en_NOTARY_PAY N && (nHeight >? 10) then
    let r := en_squishy_connectblock N b in
    _ ← refuse_if (r =? -1) (DoS 100 "bad-notarization-position");
    if r =? 1 then
      cb ← from_option (vtx b !! 0%nat);
      _ ← refuse_if (zlen (vout cb.2) =? 1) (DoS 100 "bad-cb-amount");
      let pay := en_checknotarypay N b nHeight in
      _ ← refuse_if (negb (pay >? 0)) (DoS 100 "bad-cb-amount");
      mret (i64 (blockReward + pay), pay)
    else mret (blockReward, 0)
  else mret (blockReward, 0).

(** The most the coinbase may pay. *)
Definition block_reward (cb : CMutableTransaction) (b : CBlock) (nHeight blockReward nFees sum : Z) : option Z :=
  let r := i64 (blockReward + i64 (nFees + sum)) in
  let r := if isKMD_env C && (nHeight >=? SQUISHY_NOTARIES_HEIGHT2) then i64 (r - sum) else r in
  if negb (ASSETCHAINS_COMMISSION E =? 0) || negb (ASSETCHAINS_FOUNDERS_REWARD E =? 0) then
    let checktoshis := u64 (en_commission N b nHeight) in
    if checktoshis =? 0 then Some r
    else
      match vout cb with
      | _ :: o :: _ => Some (if u64 (nValue o) =? checktoshis then i64 (u64 r + checktoshis) else r)
      | _ => if nHeight >? 1 then None else Some r
      end
  else Some r.

Definition check_reward (cb : CMutableTransaction) (nHeight blockReward : Z) : bcheck unit :=
  paid ← from_option (GetValueOut (MAX_MONEY (ce_rules C)) cb);
  _ ← refuse_if (negb (isKMD_env C) && (nHeight =? 1) && negb (paid =? blockReward)) (DoS 100 "bad-cb-amount");
  if paid >? i64 (blockReward + en_EXTRASATOSHI N) then
    o ← from_option (if negb (isKMD_env C) || (nHeight >=? SQUISHY_NOTARIES_HEIGHT1) then Some None else Some <$> vout cb !! 0%nat);
    refuse_if (match o with None => true | Some o => nValue o >? blockReward end) (DoS 100 "bad-cb-amount")
  else mret tt.

(** [control.Wait()]: the script checks that were collected. *)
Fixpoint run_checks (flags branch : Z) (l : list CScriptCheck) : option bool :=
  match l with
  | [] => Some true
  | k :: l => ok ← run_check C flags branch k; rest ← run_checks flags branch l; Some (ok && rest)
  end.

Definition hash_of (p : option Z) : option Z :=
  match p with None => Some 0 | Some p => b ← objs !! p; Some (phashBlock b) end.

(** The undo data and the validity of the entry. *)
Definition write_block (u : CBlockUndo) : bcheck unit :=
  e ← get_entry;
  let pindex := be_index e in
  let no_undo := (GetUndoPos pindex).1 =? -1 in
  if no_undo || negb (IsValid BLOCK_VALID_SCRIPTS pindex) then
    _ ← (if no_undo then
           pos ← (match en_FindUndoPos N (nFile pindex) u with Some pos => mret pos | None => on_view (stop Failed) end);
           q ← from_option (pprev pindex);
           prev ← from_option (objs !! q);
           _ ← refuse_if (negb (en_UndoWriteToDisk N u)) Failed;
           _ ← write_undo (nFile pindex, pos) u (phashBlock prev);
           set_index (fun b => set_nUndoPos pos (set_nStatus (Z.lor (nStatus b) BLOCK_HAVE_UNDO) b))
         else mret tt);
    _ ← (if IsActivationHeightForAnyUpgrade (vUpgrades E) (nHeight pindex) then
           branch ← from_option (CurrentEpochBranchId (vUpgrades E) (en_SUPERLITE N) (nHeight pindex));
           _ ← set_index (fun b => set_nStatus (Z.lor (nStatus b) BLOCK_ACTIVATES_UPGRADE) b);
           set_entry (set_branch (Some branch))
         else match pprev pindex with Some _ => set_entry (set_branch prev_nCachedBranchId) | None => mret tt end);
    set_index (fun b => (RaiseValidity BLOCK_VALID_SCRIPTS b).1)
  else mret tt.

(** *** The block *)

Definition verify_flags : Z := Z.lor SCRIPT_VERIFY_P2SH SCRIPT_VERIFY_CHECKLOCKTIMEVERIFY.

(** The transactions: the loop with its trees, the staking check, and the anchors. *)
Definition connect_transactions (b : CBlock) (fJustCheck fCheckPOW exp : bool) (blockReward notarypaycheque : Z)
    : bcheck (connecting * CBlockUndo) :=
  e ← get_entry;
  let ht := nHeight (be_index e) in
  t ← on_view best_trees;
  let '(root, sprout, sapling) := t in
  branch ← from_option (CurrentEpochBranchId (vUpgrades E) (en_SUPERLITE N) ht);
  a ← on_view (connect_loop C objs mapBlockIndex ht tipheight exp verify_flags branch (vtx b)
                 (mkConnecting 0 0 0 0 [] sprout sapling []));
  _ ← refuse_if (negb (en_STAKED N =? 0) && fCheckPOW
                 && (en_checkPOW N (i64 (u64 (blockReward + cn_stake a - notarypaycheque))) b ht <? 0)) (DoS 100 "failed-slow_checkPOW");
  _ ← set_view (fun c => PushAnchor SAPLING (cn_sapling a) (PushAnchor SPROUT (cn_sprout a) c));
  _ ← (if fJustCheck then mret tt else set_entry (set_final_root (tree_root SPROUT (cn_sprout a))));
  active ← from_option (NetworkUpgradeActive (vUpgrades E) ht UPGRADE_SAPLING);
  _ ← refuse_if (active && negb (hashFinalSaplingRoot (hdr b) =? tree_root SAPLING (cn_sapling a))) (DoS 100 "bad-sapling-root-in-block");
  mret (a, mkBlockUndo (tail (cn_undo a)) root).

(** After the checks of the block itself. *)
Definition connect_checked (p : Z) (b : CBlock) (fJustCheck fCheckPOW exp : bool) : bcheck unit :=
  e ← get_entry;
  let pindex := be_index e in
  let ht := nHeight pindex in
  _ ← (if fCheckPOW && negb (Z.land (nStatus pindex) BLOCK_VALID_CONTEXT =? BLOCK_VALID_CONTEXT) then
         match bc_ContextualCheckBlock (en_checker N) b (pprev pindex) with
         | inl Thrown => on_view (stop Thrown)
         | inl r => refuse_if (bi_nTime pindex >? 1547510400) r
         | inr _ => set_index (fun b => set_nStatus (Z.lor (nStatus b) BLOCK_VALID_CONTEXT) b)
         end
       else mret tt);
  r ← notary_pay b ht (en_GetBlockSubsidy N ht);
  let '(blockReward, notarypaycheque) := r in
  e ← get_entry;
  _ ← (if negb (Z.land (nStatus (be_index e)) BLOCK_IN_TMPFILE =? 0) then
         match en_move_block N b (be_index e) with
         | Some i => set_index (fun _ => i)
         | None => on_view (stop Failed)
         end
       else mret tt);
  hashPrevBlock ← from_option (hash_of (pprev pindex));
  best ← on_view c_GetBestBlock;
  _ ← refuse_if (negb (hashPrevBlock =? best)) (DoS 1 "hashPrevBlock-not-bestblock");
  if en_GetHash N (hdr b) =? en_hashGenesisBlock N then
    if fJustCheck then mret tt
    else
      _ ← set_view (SetBestBlock (phashBlock pindex));
      let root := tree_root SPROUT tree_empty in
      _ ← set_entry (set_anchor root);
      set_entry (set_final_root root)
  else
    _ ← on_view (check_BIP30 (vtx b));
    root ← on_view (c_GetBestAnchor SPROUT);
    _ ← (if fJustCheck then mret tt else set_entry (set_anchor root));
    r ← connect_transactions b fJustCheck fCheckPOW exp blockReward notarypaycheque;
    let '(a, undo) := r in
    cb ← from_option (vtx b !! 0%nat);
    blockReward ← from_option (block_reward cb.2 b ht blockReward (cn_fees a) (cn_interest a));
    _ ← check_reward cb.2 ht blockReward;
    branch ← from_option (CurrentEpochBranchId (vUpgrades E) (en_SUPERLITE N) ht);
    ok ← from_option (run_checks verify_flags branch (cn_checks a));
    _ ← refuse_if (negb ok) (DoS 100 "");
    if fJustCheck then mret tt
    else
      _ ← write_block undo;
      _ ← set_view (SetBestBlock (phashBlock pindex));
      if en_NOTARY_PAY N then set_entry (set_notary_pay (i64 (u64 (prev_nNotaryPay + notarypaycheque)))) else mret tt.

(** [p] is the entry's place in the index. *)
Definition ConnectBlock (p : Z) (b : CBlock) (fJustCheck fCheckPOW : bool) (st : notary_state) (s : connect_state)
    : verdict unit * notary_state * connect_state :=
  let pindex := be_index (cs_entry s) in
  let ht := nHeight pindex in
  let prev_time := bi_nTime <$> (pprev pindex ≫= fun q => objs !! q) in
  if en_SUPERLITE N then (inr tt, st, s)
  else if negb (en_STOPAT N =? 0) && (ht >? en_STOPAT N) then (inl Failed, st, s)
  else
    match expensive_checks p ht with
    | None => (inl Thrown, st, s)
    | Some exp =>
      let '(futureblock, checked) := bc_CheckBlock (en_checker N) exp ht prev_time b fCheckPOW (negb fJustCheck) in
      match checked st with
      | (inl r, st) => (inl r, st, s)
      | (inr _, st) =>
        if futureblock then (inl Failed, st, s)
        else let '(r, s) := connect_checked p b fJustCheck fCheckPOW exp s in (r, st, s)
      end
    end.

(** ** DisconnectBlock *)

Definition UndoReadFromDisk (file : gmap (Z * Z) (CBlockUndo * Z)) (pos : Z * Z) (hashBlock : Z) : option CBlockUndo :=
  r ← file !! pos;
  let '(u, h) := r in if h =? hashBlock then Some u else None.

(** [*pfClean] and the verdict [true]; [inl Failed] is an error return,
    [inl Thrown] a failed assertion. *)
Definition DisconnectBlock (b : CBlock) (prev : option (CBlockIndex)) : bcheck bool :=
  e ← get_entry;
  let pindex := be_index e in
  best ← on_view c_GetBestBlock;
  _ ← refuse_if (negb (phashBlock pindex =? best)) Thrown;
  _ ← refuse_if ((GetUndoPos pindex).1 =? -1) Failed;
  prev ← from_option prev;
  u ← (fun s => match UndoReadFromDisk (cs_undo_file s) (GetUndoPos pindex) (phashBlock prev) with
                | Some u => (inr u, s) | None => (inl Failed, s) end);
  _ ← refuse_if (negb (zlen (vtxundo u) + 1 =? zlen (vtx b))) Failed;
  clean ← on_view (fun c => match disconnect_txs (rev (combine (vtx b) ([] :: vtxundo u))) (nHeight pindex) c with
                            | Some (clean, c') => (inr clean, c') | None => (inl Thrown, c) end);
  _ ← on_view (fun c => match PopAnchor SPROUT (old_sprout_tree_root u) c with Some c' => (inr tt, c') | None => (inl Thrown, c) end);
  active ← from_option (NetworkUpgradeActive (vUpgrades E) (nHeight prev) UPGRADE_SAPLING);
  let root := if (active : bool) then bi_hashFinalSaplingRoot prev else tree_root SAPLING tree_empty in
  _ ← on_view (fun c => match PopAnchor SAPLING root c with Some c' => (inr tt, c') | None => (inl Thrown, c) end);
  _ ← set_view (SetBestBlock (phashBlock prev));
  mret clean.
End Block.

(** ** Facts: what acceptance implies *)

Section AcceptFacts.
Context {Tree V : Type} `{!MerkleTree Tree} `{!CoinsView Tree V} `{!CoinsMemory}.
Abbreviation cache := (CCoinsViewCache Tree V).
Abbreviation check := (@check Tree V).
Abbreviation bcheck := (@bcheck Tree V).
Abbreviation connect_state := (@connect_state Tree V).

Definition with_view (c : cache) (s : connect_state) : connect_state := mkConnectState (cs_entry s) c (cs_undo_file s).
Definition with_entry (e : block_entry) (s : connect_state) : connect_state := mkConnectState e (cs_view s) (cs_undo_file s).

Lemma bcheck_bind_inr {A B} (m : bcheck A) (f : A -> bcheck B) s b s' :
  (m ≫= f) s = (inr b, s') <-> exists a s1, m s = (inr a, s1) /\ f a s1 = (inr b, s').
Proof.
  unfold mbind, bcheck_bind. destruct (m s) as [[e|a] s1].
  - split; [done|]. by intros (? & ? & [=] & _).
  - split; [eauto|]. by intros (? & ? & [= -> ->] & ?).
Qed.

Lemma bret_inr {A} (a b : A) (s s' : connect_state) : (mret a : bcheck A) s = (inr b, s') <-> a = b /\ s' = s.
Proof. unfold mret, bcheck_ret. split; [by intros [= -> ->]|by intros [-> ->]]. Qed.

Lemma on_view_inr {A} (m : check A) (s s' : connect_state) a :
  on_view m s = (inr a, s') <-> exists c, m (cs_view s) = (inr a, c) /\ s' = with_view c s.
Proof.
  unfold on_view. destruct (m (cs_view s)) as [r c]. split; [intros [= -> <-]; by exists c|]. by intros (c' & [= -> ->] & ->).
Qed.

Lemma with_view_id (s : connect_state) : with_view (cs_view s) s = s.
Proof. by destruct s. Qed.

Lemma refuse_if_inr b r (s s' : connect_state) u : refuse_if b r s = (inr u, s') <-> b = false /\ s' = s.
Proof.
  unfold refuse_if. rewrite on_view_inr. split.
  - intros (c & [Hb ->]%stop_if_inr & ->). by rewrite with_view_id.
  - intros [-> ->]. exists (cs_view s). rewrite with_view_id. split; [by apply stop_if_inr|done].
Qed.

Lemma from_option_inr {A} (o : option A) (s s' : connect_state) a : from_option o s = (inr a, s') <-> o = Some a /\ s' = s.
Proof.
  unfold from_option. rewrite on_view_inr. split.
  - intros (c & [Ho ->]%of_option_inr & ->). by rewrite with_view_id.
  - intros [-> ->]. exists (cs_view s). rewrite with_view_id. split; [by apply of_option_inr|done].
Qed.

Lemma get_entry_inr (s s' : connect_state) e : get_entry s = (inr e, s') <-> e = cs_entry s /\ s' = s.
Proof. unfold get_entry. split; [by intros [= <- <-]|by intros [-> ->]]. Qed.

Lemma set_entry_inr f (s s' : connect_state) u : set_entry f s = (inr u, s') <-> s' = with_entry (f (cs_entry s)) s.
Proof. unfold set_entry. destruct u. split; [by intros [= <-]|by intros ->]. Qed.

Lemma set_view_inr f (s s' : connect_state) u : set_view f s = (inr u, s') <-> s' = with_view (f (cs_view s)) s.
Proof. unfold set_view. destruct u. split; [by intros [= <-]|by intros ->]. Qed.

(** The fields of the entry that connecting does not change. *)
Definition same_block (e e' : block_entry) : Prop :=
  phashBlock (be_index e') = phashBlock (be_index e) /\ pprev (be_index e') = pprev (be_index e) /\
  nHeight (be_index e') = nHeight (be_index e) /\ nFile (be_index e') = nFile (be_index e).
End AcceptFacts.

Section Stages.
Context {Tree V : Type} `{!MerkleTree Tree} `{!CoinsView Tree V} `{!CoinsMemory}.
Context (tree_of : ShieldedType -> Z -> Tree) `{!CoinsViewReads tree_of V}.
Abbreviation cache := (CCoinsViewCache Tree V).
Abbreviation bcheck := (@bcheck Tree V).
Abbreviation connect_state := (@connect_state Tree V).
Abbreviation shows := (shows tree_of).
Abbreviation query := (query tree_of).
Context (N : block_env) (objs : store) (mapBlockIndex : gmap Z (option Z)) (tipheight : Z)
  (prev_branch : option Z) (prev_pay : Z).
Abbreviation C := (en_connect N).
Abbreviation E := (ce_chain (en_connect N)).

Lemma query_best_anchor S t : query S (c_GetBestAnchor t) (fun r => r = st_bestAnchor S t).
Proof.
  intros c Hc. destruct (Cache_GetBestAnchor_law tree_of t c (proj1 Hc)) as (Hs & Hl). unfold c_GetBestAnchor.
  destruct (Cache_GetBestAnchor t c) as [r c']; cbn [fst snd] in *. split; [by eapply shows_same|].
  intros a [= <-]. rewrite Hl. destruct Hc as [_ (_ & _ & _ & _ & Hb)]. apply Hb.
Qed.

(** The trees the loop starts from. *)
Definition trees_of (S : utxo_state Tree) (root : Z) (sprout sapling : Tree) : Prop :=
  root = st_bestAnchor S SPROUT /\ st_anchor S SPROUT root = Some sprout /\ tree_root SPROUT sprout = root /\
  st_anchor S SAPLING (st_bestAnchor S SAPLING) = Some sapling.

Lemma query_best_trees S : query S best_trees (fun t => trees_of S t.1.1 t.1.2 t.2).
Proof.
  eapply query_bind; [apply query_best_anchor|]. intros root ->.
  eapply query_bind; [apply query_anchor|]. intros tr Htr.
  eapply query_bind; [apply (query_of_option _ _ _ (fun t => tr = Some t)); auto|]. intros sprout Hsp.
  apply query_stop_if_bind. intros Hr%negb_false_iff%Z.eqb_eq.
  eapply query_bind; [apply query_best_anchor|]. intros sroot ->.
  eapply query_bind; [apply query_anchor|]. intros tr' Htr'.
  eapply query_bind; [apply (query_of_option _ _ _ (fun t => tr' = Some t)); auto|]. intros sapling Hsa.
  apply query_ret. unfold trees_of. cbn. split_and!; congruence.
Qed.

Lemma query_BIP30 S l : query S (check_BIP30 l) (fun _ => Forall (fun k => st_coins S k = None) (map fst l)).
Proof.
  induction l as [|[txid tx] l IH]; [by apply query_ret; constructor|].
  eapply query_bind; [apply query_access|]. intros r Hr. apply query_stop_if_bind. intros Hp.
  eapply query_weaken; [apply IH|]. intros u HF. cbn [map fst]. constructor; [|done].
  rewrite <- Hr. destruct r as [co|]; [|done]. cbn. unfold live. apply negb_false_iff in Hp. by rewrite Hp.
Qed.

Lemma connect_transactions_inr b fCheckPOW exp reward pay s s' a undo S : shows S (cs_view s) ->
  connect_transactions N objs mapBlockIndex tipheight b false fCheckPOW exp reward pay s = (inr (a, undo), s') ->
  exists root sprout sapling branch c1 c2 active, trees_of S root sprout sapling /\ shows S c1 /\
    CurrentEpochBranchId (vUpgrades E) (en_SUPERLITE N) (nHeight (be_index (cs_entry s))) = Some branch /\
    connect_loop C objs mapBlockIndex (nHeight (be_index (cs_entry s))) tipheight exp verify_flags branch (vtx b)
      (mkConnecting 0 0 0 0 [] sprout sapling []) c1 = (inr a, c2) /\
    undo = mkBlockUndo (tail (cn_undo a)) root /\
    s' = with_entry (set_final_root (tree_root SPROUT (cn_sprout a)) (cs_entry s))
           (with_view (PushAnchor SAPLING (cn_sapling a) (PushAnchor SPROUT (cn_sprout a) c2)) s) /\
    NetworkUpgradeActive (vUpgrades E) (nHeight (be_index (cs_entry s))) UPGRADE_SAPLING = Some active /\
    (active = true -> hashFinalSaplingRoot (hdr b) = tree_root SAPLING (cn_sapling a)).
Proof.
  intros Hs Hrun. unfold connect_transactions in Hrun.
  apply bcheck_bind_inr in Hrun as (e & s1 & H1 & Hrun). apply get_entry_inr in H1 as [-> ->].
  apply bcheck_bind_inr in Hrun as ([[root sprout] sapling] & s1 & H1 & Hrun). apply on_view_inr in H1 as (c1 & H1 & ->).
  destruct (query_run tree_of _ _ _ _ _ _ (query_best_trees S) Hs H1) as [Hs1 Htrees]. cbn [fst snd] in Htrees.
  apply bcheck_bind_inr in Hrun as (branch & s1 & H2 & Hrun). apply from_option_inr in H2 as [Hbranch ->].
  apply bcheck_bind_inr in Hrun as (a' & s1 & H2 & Hrun). apply on_view_inr in H2 as (c2 & Hloop & ->).
  apply bcheck_bind_inr in Hrun as (u & s1 & H2 & Hrun). apply refuse_if_inr in H2 as [_ ->].
  apply bcheck_bind_inr in Hrun as (u' & s1 & H2 & Hrun). apply set_view_inr in H2 as ->.
  apply bcheck_bind_inr in Hrun as (u2 & s1 & H2 & Hrun). apply set_entry_inr in H2 as ->.
  apply bcheck_bind_inr in Hrun as (active & s1 & H2 & Hrun). apply from_option_inr in H2 as [Hactive ->].
  apply bcheck_bind_inr in Hrun as (u3 & s1 & H2 & Hrun). apply refuse_if_inr in H2 as [Hroot ->].
  apply bret_inr in Hrun as [E' ->]. injection E' as <- <-.
  exists root, sprout, sapling, branch, c1, c2, active. split_and!; try done; try apply Htrees; try apply Hs1.
  intros ->. cbn [andb] in Hroot. by apply negb_false_iff, Z.eqb_eq in Hroot.
Qed.

Lemma notary_pay_inr b ht reward s s' r : notary_pay N b ht reward s = (inr r, s') ->
  (s' : connect_state) = s /\ (en_NOTARY_PAY N = false -> r = (reward, 0)).
Proof.
  unfold notary_pay. destruct (en_NOTARY_PAY N); cbn [andb]; [|by intros [<- ->]%bret_inr].
  destruct (ht >? 10); [|by intros [<- ->]%bret_inr]. intros Hrun.
  apply bcheck_bind_inr in Hrun as (u & s1 & H1 & Hrun). apply refuse_if_inr in H1 as [_ ->].
  destruct (_ =? 1); [|by apply bret_inr in Hrun as [<- ->]].
  apply bcheck_bind_inr in Hrun as (cb & s1 & H1 & Hrun). apply from_option_inr in H1 as [_ ->].
  apply bcheck_bind_inr in Hrun as (u1 & s1 & H1 & Hrun). apply refuse_if_inr in H1 as [_ ->].
  apply bcheck_bind_inr in Hrun as (u2 & s1 & H1 & Hrun). apply refuse_if_inr in H1 as [_ ->].
  by apply bret_inr in Hrun as [_ ->].
Qed.

(** What the coinbase pays is within the reward. *)
Lemma check_reward_inr cb ht reward s s' u : check_reward N cb ht reward s = (inr u, s') ->
  (s' : connect_state) = s /\ exists paid, GetValueOut (MAX_MONEY (ce_rules C)) cb = Some paid /\
    (SQUISHY_NOTARIES_HEIGHT1 <= ht -> paid <= i64 (reward + en_EXTRASATOSHI N)).
Proof.
  unfold check_reward. intros Hrun. apply bcheck_bind_inr in Hrun as (paid & s1 & H1 & Hrun). apply from_option_inr in H1 as [Hpaid ->].
  apply bcheck_bind_inr in Hrun as (u1 & s1 & H1 & Hrun). apply refuse_if_inr in H1 as [_ ->].
  rewrite Z.gtb_ltb in Hrun. destruct (Z.ltb_spec (i64 (reward + en_EXTRASATOSHI N)) paid).
  - apply bcheck_bind_inr in Hrun as (o & s1 & H1 & Hrun). apply from_option_inr in H1 as [Ho ->].
    apply refuse_if_inr in Hrun as [Hr ->]. split; [done|]. exists paid. split; [done|]. intros Hh.
    rewrite Z.geb_leb, (proj2 (Z.leb_le _ _)), orb_true_r in Ho by lia. by injection Ho as <-.
  - apply bret_inr in Hrun as [_ ->]. split; [done|]. by exists paid.
Qed.

Lemma run_checks_true flags branch l : run_checks N flags branch l = Some true ->
  Forall (fun k => run_check C flags branch k = Some true) l.
Proof.
  induction l as [|k l IH]; [constructor|]. cbn [run_checks]. intros Hrun.
  apply bind_Some in Hrun as (ok & Hok & Hrun). apply bind_Some in Hrun as (rest & Hrest & Hrun).
  injection Hrun as Hb. apply andb_prop in Hb as [-> ->]. constructor; [done|by apply IH].
Qed.

(** The undo data and the status bits of the entry. *)
Lemma undo_pos_bit b : Z.testbit (nStatus b) 4 = true -> GetUndoPos b = (nFile b, nUndoPos b).
Proof.
  intros Hb. unfold GetUndoPos. destruct (Z.eqb_spec (Z.land (nStatus b) BLOCK_HAVE_UNDO) 0) as [E0|]; [|done].
  apply (f_equal (fun z => Z.testbit z 4)) in E0. rewrite Z.land_spec, Hb in E0. done.
Qed.

Lemma raise_validity_keeps b : let b' := (RaiseValidity BLOCK_VALID_SCRIPTS b).1 in
  phashBlock b' = phashBlock b /\ pprev b' = pprev b /\ nHeight b' = nHeight b /\ nFile b' = nFile b /\ nUndoPos b' = nUndoPos b /\
  Z.testbit (nStatus b') 4 = Z.testbit (nStatus b) 4.
Proof.
  unfold RaiseValidity. destruct (negb _); [done|]. destruct (_ <? _); [|done]. cbn [fst set_nStatus phashBlock pprev nHeight nFile nUndoPos nStatus].
  split_and!; try done. rewrite Z.lor_spec, Z.land_spec, Z.lnot_spec by lia. cbn. by rewrite andb_true_r, orb_false_r.
Qed.

(** A first connection writes the undo data at the position the entry then has. *)
Lemma write_block_inr undo s s' u : write_block N objs prev_branch undo s = (inr u, s') ->
  cs_view (s' : connect_state) = cs_view s /\ same_block (cs_entry s) (cs_entry s') /\
  ((GetUndoPos (be_index (cs_entry s))).1 = -1 -> exists q prev pos,
     pprev (be_index (cs_entry s)) = Some q /\ objs !! q = Some prev /\
     GetUndoPos (be_index (cs_entry s')) = (nFile (be_index (cs_entry s)), pos) /\
     cs_undo_file s' = <[(nFile (be_index (cs_entry s)), pos) := (undo, phashBlock prev)]> (cs_undo_file s)).
Proof.
  unfold write_block. intros Hrun. apply bcheck_bind_inr in Hrun as (e & s1 & H1 & Hrun). apply get_entry_inr in H1 as [-> ->]. cbv zeta in Hrun.
  set (i := be_index (cs_entry s)) in *.
  destruct (_ || _) eqn:Hw; [|apply bret_inr in Hrun as [_ ->]; split; [done|]; split; [done|]; intros Hu;
    apply orb_false_iff in Hw as [Hw _]; apply Z.eqb_neq in Hw; done].
  apply bcheck_bind_inr in Hrun as (u1 & s1 & H1 & Hrun). apply bcheck_bind_inr in Hrun as (u2 & s2 & H2 & Hrun).
  unfold set_index in Hrun. apply set_entry_inr in Hrun as ->.
  assert (S2 : cs_view s2 = cs_view s1 /\ cs_undo_file s2 = cs_undo_file s1 /\ same_block (cs_entry s1) (cs_entry s2) /\
    nUndoPos (be_index (cs_entry s2)) = nUndoPos (be_index (cs_entry s1)) /\
    Z.testbit (nStatus (be_index (cs_entry s2))) 4 = Z.testbit (nStatus (be_index (cs_entry s1))) 4).
  { destruct (IsActivationHeightForAnyUpgrade _ _).
    - apply bcheck_bind_inr in H2 as (br & s3 & H3 & H2). apply from_option_inr in H3 as [_ ->].
      apply bcheck_bind_inr in H2 as (u3 & s3 & H3 & H2). unfold set_index in H3. apply set_entry_inr in H3 as ->. apply set_entry_inr in H2 as ->.
      split_and!; try done. cbn [with_entry cs_entry set_branch set_nStatus be_index nStatus]. by rewrite Z.lor_spec, orb_false_r.
    - destruct (pprev i); [apply set_entry_inr in H2 as ->|apply bret_inr in H2 as [_ ->]]; done. }
  destruct S2 as (V2 & F2 & (B1 & B2 & B3 & B4) & P2 & T2).
  destruct (raise_validity_keeps (be_index (cs_entry s2))) as (R1 & R2 & R3 & R4 & R5 & R6).
  unfold with_entry. cbn [cs_view cs_entry cs_undo_file be_index].
  destruct ((GetUndoPos i).1 =? -1) eqn:Hno.
  - apply bcheck_bind_inr in H1 as (pos & s3 & H3 & H1).
    assert (s3 = s) as ->.
    { destruct (en_FindUndoPos N _ _); [by apply bret_inr in H3 as [_ ->]|]. unfold on_view, stop in H3. done. }
    apply bcheck_bind_inr in H1 as (q & s3 & H4 & H1). apply from_option_inr in H4 as [Hq ->].
    apply bcheck_bind_inr in H1 as (prev & s3 & H4 & H1). apply from_option_inr in H4 as [Hprev ->].
    apply bcheck_bind_inr in H1 as (u3 & s3 & H4 & H1). apply refuse_if_inr in H4 as [_ ->].
    apply bcheck_bind_inr in H1 as (u4 & s3 & H4 & H1). unfold write_undo in H4. injection H4 as _ <-.
    unfold set_index in H1. apply set_entry_inr in H1 as ->. cbn [cs_entry cs_view cs_undo_file be_index with_entry set_nUndoPos set_nStatus nFile phashBlock pprev nHeight nUndoPos nStatus] in *.
    fold i in B1, B2, B3, B4, P2, T2. split; [done|].
    split; [unfold same_block; cbn [be_index]; fold i; split_and!; congruence|]. intros _. exists q, prev, pos.
    split; [done|]. split; [done|]. split; [|done]. rewrite undo_pos_bit by (rewrite R6, T2, Z.lor_spec; apply orb_true_r).
    by rewrite R4, R5, B4, P2.
  - apply bret_inr in H1 as [_ ->]. split; [done|]. split; [unfold same_block; cbn [be_index]; split_and!; congruence|].
    intros Hu. apply Z.eqb_neq in Hno. done.
Qed.

Lemma block_reward_fixed cb b ht reward fees sum : ASSETCHAINS_COMMISSION E = 0 -> ASSETCHAINS_FOUNDERS_REWARD E = 0 ->
  block_reward N cb b ht reward fees sum =
    Some (i64 (reward + fees + if isKMD_env C && (ht >=? SQUISHY_NOTARIES_HEIGHT2) then 0 else sum)).
Proof.
  intros Hc Hf. unfold block_reward. rewrite Hc, Hf. cbn [Z.eqb negb orb]. f_equal.
  assert (Hi : i64 (reward + i64 (fees + sum)) = i64 (reward + fees + sum)) by (rewrite (Z.add_comm reward), i64_add_l; f_equal; lia).
  rewrite Hi. destruct (_ && _); [|done]. unfold Z.sub. rewrite i64_add_l. f_equal. lia.
Qed.

(** The checks before the coins are used leave the view and the undo data. *)
Lemma context_check_inr b s s' u :
  (if negb (Z.land (nStatus (be_index (cs_entry s))) BLOCK_VALID_CONTEXT =? BLOCK_VALID_CONTEXT) then
     match bc_ContextualCheckBlock (en_checker N) b (pprev (be_index (cs_entry s))) with
     | inl Thrown => on_view (stop Thrown)
     | inl r => refuse_if (bi_nTime (be_index (cs_entry s)) >? 1547510400) r
     | inr _ => set_index (fun b => set_nStatus (Z.lor (nStatus b) BLOCK_VALID_CONTEXT) b)
     end
   else mret tt) s = (inr u, s') ->
  cs_view (s' : connect_state) = cs_view s /\ cs_undo_file s' = cs_undo_file s /\ same_block (cs_entry s) (cs_entry s') /\
  GetUndoPos (be_index (cs_entry s')) = GetUndoPos (be_index (cs_entry s)) /\
  Z.land (nStatus (be_index (cs_entry s'))) BLOCK_IN_TMPFILE = Z.land (nStatus (be_index (cs_entry s))) BLOCK_IN_TMPFILE.
Proof.
  destruct (negb _); [|by intros [_ ->]%bret_inr]. destruct (bc_ContextualCheckBlock _ _ _) as [r|[]].
  - destruct r; try by intros [_ ->]%refuse_if_inr. by intros (c & Hst & _)%on_view_inr.
  - unfold set_index. intros ->%set_entry_inr. cbn [with_entry cs_view cs_entry cs_undo_file be_index]. split; [done|]. split; [done|]. split; [done|].
    unfold GetUndoPos. cbn [set_nStatus nStatus nFile nUndoPos]. rewrite !Z.land_lor_distr_l, !Z.lor_0_r. done.
Qed.

(** What an accepted block, checked to be connected, went through. *)
Record connected (p : Z) (b : CBlock) (exp : bool) (S : utxo_state Tree) (s s' : connect_state)
    (a : connecting) (root : Z) (sprout sapling : Tree) (branch : Z) (c1 c2 : cache) (cb : CMutableTransaction) (reward : Z) : Prop := {
  cd_best : hash_of objs (pprev (be_index (cs_entry s))) = Some (st_best S);
  cd_new : Forall (fun k => st_coins S k = None) (map fst (vtx b));
  cd_trees : trees_of S root sprout sapling;
  cd_shows : shows S c1;
  cd_branch : CurrentEpochBranchId (vUpgrades E) (en_SUPERLITE N) (nHeight (be_index (cs_entry s))) = Some branch;
  cd_loop : connect_loop C objs mapBlockIndex (nHeight (be_index (cs_entry s))) tipheight exp verify_flags branch (vtx b)
    (mkConnecting 0 0 0 0 [] sprout sapling []) c1 = (inr a, c2);
  cd_sapling : exists active, NetworkUpgradeActive (vUpgrades E) (nHeight (be_index (cs_entry s))) UPGRADE_SAPLING = Some active /\
    (active = true -> hashFinalSaplingRoot (hdr b) = tree_root SAPLING (cn_sapling a));
  cd_coinbase : exists txid, vtx b !! 0%nat = Some (txid, cb);
  cd_reward : en_NOTARY_PAY N = false ->
    block_reward N cb b (nHeight (be_index (cs_entry s))) (en_GetBlockSubsidy N (nHeight (be_index (cs_entry s)))) (cn_fees a) (cn_interest a) = Some reward;
  cd_paid : exists paid, GetValueOut (MAX_MONEY (ce_rules C)) cb = Some paid /\
    (SQUISHY_NOTARIES_HEIGHT1 <= nHeight (be_index (cs_entry s)) -> paid <= i64 (reward + en_EXTRASATOSHI N));
  cd_scripts : Forall (fun k => run_check C verify_flags branch k = Some true) (cn_checks a);
  cd_view : cs_view s' = SetBestBlock (phashBlock (be_index (cs_entry s)))
    (PushAnchor SAPLING (cn_sapling a) (PushAnchor SPROUT (cn_sprout a) c2));
  cd_block : same_block (cs_entry s) (cs_entry s');
  cd_undo : (GetUndoPos (be_index (cs_entry s))).1 = -1 -> exists q prev pos,
    pprev (be_index (cs_entry s)) = Some q /\ objs !! q = Some prev /\
    GetUndoPos (be_index (cs_entry s')) = (nFile (be_index (cs_entry s)), pos) /\
    cs_undo_file s' = <[(nFile (be_index (cs_entry s)), pos) := (mkBlockUndo (tail (cn_undo a)) root, phashBlock prev)]> (cs_undo_file s)
}.

Lemma connect_checked_inr p b exp s s' u S : shows S (cs_view s) ->
  Z.land (nStatus (be_index (cs_entry s))) BLOCK_IN_TMPFILE = 0 -> en_GetHash N (hdr b) <> en_hashGenesisBlock N ->
  connect_checked N objs mapBlockIndex tipheight prev_branch prev_pay p b false true exp s = (inr u, s') ->
  exists a root sprout sapling branch c1 c2 cb reward, connected p b exp S s s' a root sprout sapling branch c1 c2 cb reward.
Proof.
  intros Hs Htmp Hgen Hrun. unfold connect_checked in Hrun. cbn [andb] in Hrun.
  apply bcheck_bind_inr in Hrun as (e & s1 & H1 & Hrun). apply get_entry_inr in H1 as [-> ->]. cbv zeta in Hrun.
  apply bcheck_bind_inr in Hrun as (u1 & s1 & H1 & Hrun). apply context_check_inr in H1 as (V1 & F1 & B1 & P1 & T1).
  apply bcheck_bind_inr in Hrun as ([reward0 pay] & s2 & H2 & Hrun). apply notary_pay_inr in H2 as [-> Hpay].
  apply bcheck_bind_inr in Hrun as (e & s2 & H2 & Hrun). apply get_entry_inr in H2 as [-> ->].
  rewrite T1, Htmp in Hrun. cbn [Z.eqb negb] in Hrun.
  apply bcheck_bind_inr in Hrun as (u2 & s2 & H2 & Hrun). apply bret_inr in H2 as [_ ->].
  apply bcheck_bind_inr in Hrun as (hp & s2 & H2 & Hrun). apply from_option_inr in H2 as [Hhp ->].
  apply bcheck_bind_inr in Hrun as (best & s2 & H2 & Hrun). apply on_view_inr in H2 as (ca & H2 & ->). rewrite V1 in H2.
  destruct (query_run tree_of _ _ _ _ _ _ (query_best tree_of S) Hs H2) as [Hsa ->].
  apply bcheck_bind_inr in Hrun as (u3 & s2 & H3 & Hrun). apply refuse_if_inr in H3 as [Hbest ->]. apply negb_false_iff, Z.eqb_eq in Hbest. subst hp.
  rewrite (proj2 (Z.eqb_neq _ _) Hgen) in Hrun.
  apply bcheck_bind_inr in Hrun as (u4 & s2 & H4 & Hrun). apply on_view_inr in H4 as (cb0 & H4 & ->). cbn [with_view cs_view] in H4.
  destruct (query_run tree_of _ _ _ _ _ _ (query_BIP30 S (vtx b)) Hsa H4) as [Hsb Hnew].
  apply bcheck_bind_inr in Hrun as (root0 & s2 & H5 & Hrun). apply on_view_inr in H5 as (cc & H5 & ->). cbn [with_view cs_view] in H5.
  destruct (query_run tree_of _ _ _ _ _ _ (query_best_anchor S SPROUT) Hsb H5) as [Hsc _].
  apply bcheck_bind_inr in Hrun as (u5 & s2 & H6 & Hrun). apply set_entry_inr in H6 as ->.
  apply bcheck_bind_inr in Hrun as ([a undo] & s2 & H7 & Hrun). eapply connect_transactions_inr in H7; [|exact Hsc].
  destruct H7 as (root & sprout & sapling & branch & c1 & c2 & active & Htrees & Hs1 & Hbranch & Hloop & -> & -> & Hactive & Hroot).
  apply bcheck_bind_inr in Hrun as ([txid cb] & s2 & H8 & Hrun). apply from_option_inr in H8 as [Hcb ->].
  apply bcheck_bind_inr in Hrun as (reward & s2 & H8 & Hrun). apply from_option_inr in H8 as [Hreward ->].
  apply bcheck_bind_inr in Hrun as (u6 & s2 & H8 & Hrun). apply check_reward_inr in H8 as (-> & Hpaid).
  apply bcheck_bind_inr in Hrun as (branch' & s2 & H8 & Hrun). apply from_option_inr in H8 as [Hbranch' ->].
  apply bcheck_bind_inr in Hrun as (ok & s2 & H8 & Hrun). apply from_option_inr in H8 as [Hchecks ->].
  apply bcheck_bind_inr in Hrun as (u7 & s2 & H8 & Hrun). apply refuse_if_inr in H8 as [Hok ->]. apply negb_false_iff in Hok. subst ok.
  apply bcheck_bind_inr in Hrun as (u8 & s2 & H8 & Hrun). apply write_block_inr in H8 as (V8 & B8 & U8).
  apply bcheck_bind_inr in Hrun as (u9 & s3 & H9 & Hrun). apply set_view_inr in H9 as ->.
  destruct B1 as (B1a & B1b & B1c & B1d), B8 as (B8a & B8b & B8c & B8d).
  cbn [with_view with_entry cs_view cs_entry cs_undo_file set_anchor set_final_root be_index] in *.
  assert (Hlast : cs_view s' = SetBestBlock (phashBlock (be_index (cs_entry s))) (cs_view s2) /\ cs_undo_file s' = cs_undo_file s2 /\
    be_index (cs_entry s') = be_index (cs_entry s2)).
  { destruct (en_NOTARY_PAY N); [apply set_entry_inr in Hrun as ->|apply bret_inr in Hrun as [_ ->]]; done. }
  destruct Hlast as (L1 & L2 & L3). rewrite V8 in L1.
  rewrite B1c in Hbranch, Hloop, Hactive. rewrite Hbranch in Hbranch'. injection Hbranch' as <-.
  exists a, root, sprout, sapling, branch, c1, c2, cb, reward. split; try done.
  - by exists active.
  - by exists txid.
  - intros Hnp. injection (Hpay Hnp) as -> _. exact Hreward.
  - by apply run_checks_true.
  - unfold same_block. rewrite L3. split_and!; congruence.
  - rewrite L2, L3, <- P1. intros Hu. destruct (U8 Hu) as (q & prev & pos & E1 & E2 & E3 & E4). exists q, prev, pos.
    rewrite B1b in E1. rewrite B1d in E3, E4. by rewrite F1 in E4.
Qed.
End Stages.
