(* ===== verification/BlockEffect.v ===== *)
(** * What connecting and disconnecting a block do (src/src/main.cpp)

    The theorems of ConnectBlock: CheckBlock discharges the interface it uses; an
    accepted block is a sequence of legal steps of the ledger, it conserves value up
    to the block's reward, and DisconnectBlock with the undo data written restores
    the state. *)
From Stdlib Require Ascii String.
From S2P Require Import Prelude Serialize Transaction Compressor Coins CoinsView CoinsCache UpdateCoins Ledger Interest Script Interpreter SigHash CheckTx BlockMerkle BlockIndex BlockTree TxInputs Notary Pow CheckPow Upgrades Checkpoints BlockChecks ConnectTxs ConnectBlock.
From stdpp Require Import strings.
Import String.StringSyntax.
#[local] Open Scope string_scope.
#[local] Open Scope Z_scope.

(** ** CheckBlock discharges the interface *)

Lemma accepted_checked A R Hash160 notary tiptime tx txid : 0 <= MAX_MONEY R < 2 ^ 62 ->
  CheckTransactionWithoutProofVerification A R Hash160 notary tiptime tx txid = inr tt -> checked_tx tx.
Proof.
  intros HM Hc. destruct (accepted_amounts _ _ _ _ _ _ _ HM Hc) as [Hv Hi]. split; [done|]. split; [done|].
  intros Hcb. destruct (accepted_mint _ _ _ _ _ _ _ Hc) as (? & ? & _); [|done]. unfold IsMint. by rewrite Hcb, orb_true_r.
Qed.

Section Discharge.
Context (E : chain_env) (G : chain_globals) (params : pow_params) (R : chain_rules) (A : abi)
  (notaries_elected notaries_STAKED : Z -> list bytes) (GenesisNotaries : list (string * bytes))
  (objs : store) (chainActive : list (option Z))
  (Hash160 : bytes -> bytes) (cc fix_active : bool) (supported : bytes -> bool)
  (LOADINGBLOCKS : bool) (blockload : Z -> option (list CTxOut)) (currentheight : Z)
  (GetHash : CBlockHeader -> bytes) (hash2 : Z -> Z -> Z)
  (notaryvout : bytes -> Z -> bool) (newStakerActive : Z -> bool) (DecodeStakingOpRet : bytes -> bool)
  (joinsplit_Verify : JSDescription -> CMutableTransaction -> bool)
  (GetTransaction : Z -> option CMutableTransaction) (GetBlockSubsidy : Z -> Z)
  (checkcommission : CBlock -> Z -> Z) (beyond : bytes -> bytes)
  (CheckEquihashSolution : CBlockHeader -> bool) (GetTime : Z)
  (checkPOW : CBlock -> Z -> Z) (checkopret : CBlock -> bool) (garbage : bytes)
  (contextual : CBlock -> option Z -> verdict unit).

(** The node's CheckBlock; the disabled verifier accepts every JoinSplit proof. *)
Definition node_checker : block_checker := mkBlockChecker
  (fun strict => CheckBlock E G params R A notaries_elected notaries_STAKED GenesisNotaries objs chainActive Hash160 cc fix_active supported
     LOADINGBLOCKS blockload currentheight GetHash hash2 notaryvout newStakerActive DecodeStakingOpRet
     (fun js tx => negb strict || joinsplit_Verify js tx) GetTransaction
     GetBlockSubsidy checkcommission beyond CheckEquihashSolution GetTime checkPOW checkopret garbage) contextual.

#[global] Instance node_checks_blocks : 0 <= MAX_MONEY R < 2 ^ 62 -> ChecksBlocks node_checker.
Proof.
  intros HM strict height pt b st st' Hb. apply CheckBlock_inr in Hb as [_ Hok]. split.
  - eapply Forall_impl; [exact (ok_transactions _ _ _ _ _ _ _ _ _ _ _ Hok)|]. intros t (Ht & _). by eapply accepted_checked.
  - destruct (ok_coinbase _ _ _ _ _ _ _ _ _ _ _ Hok) as (cb & rest & H1 & H2 & H3 & _). by exists cb, rest.
Qed.
End Discharge.

(** ** The setting *)

(** The note commitments of a block, in order. *)
Definition block_notes (t : ShieldedType) (b : CBlock) : list Z :=
  match t with
  | SPROUT => concat (map (fun x => concat (map commitments (vjoinsplit x.2))) (vtx b))
  | SAPLING => concat (map (fun x => map od_cm (vShieldedOutput x.2)) (vtx b))
  end.

(** What the types of a transaction give, and no imports. *)
Definition block_typed (b : CBlock) : Prop :=
  Forall (fun t => IsCoinImport t.2 = false /\ (IsMint t.2 = false -> input_positions (vin t.2))) (vtx b).

Lemma same_coins_ledger {Tree} (s s' : utxo_state Tree) : same_coins s s' -> ledger_of s ≡ ledger_of s'.
Proof. intros [Hc Hn]. split; intros; cbn; [by rewrite Hc|apply Hn]. Qed.

Section Effect.
Context {Tree V : Type} `{!MerkleTree Tree} `{!CoinsView Tree V} `{!CoinsMemory}.
Context (tree_of : ShieldedType -> Z -> Tree) `{!CoinsViewReads tree_of V}.
Abbreviation cache := (CCoinsViewCache Tree V).
Abbreviation connect_state := (@connect_state Tree V).
Abbreviation inv := (cache_inv tree_of).
Abbreviation st := (cache_abs tree_of).

(** The tree of a kind after the notes of a block. *)
Definition final_tree (S : utxo_state Tree) (b : CBlock) (t : ShieldedType) (tree : Tree) : Prop :=
  exists old, st_anchor S t (st_bestAnchor S t) = Some old /\ append_notes t old (block_notes t b) = Some tree.

(** Roots stand for the trees: the map from roots to trees covers those after the block. *)
Definition trees_ok (S : utxo_state Tree) (b : CBlock) : Prop :=
  forall t tree, final_tree S b t tree -> tree = tree_of t (tree_root t tree) /\ tree_root t tree <> 0.

(** The tip moves to a tree of each kind; the coins and the nullifiers stay. *)
Lemma push_block (c : cache) h sprout sapling : inv c -> h <> 0 ->
  sprout = tree_of SPROUT (tree_root SPROUT sprout) -> tree_root SPROUT sprout <> 0 ->
  sapling = tree_of SAPLING (tree_root SAPLING sapling) -> tree_root SAPLING sapling <> 0 ->
  let c' := SetBestBlock h (PushAnchor SAPLING sapling (PushAnchor SPROUT sprout c)) in
  let tip t := match t with SPROUT => sprout | SAPLING => sapling end in
  inv c' /\ same_coins (st c') (st c) /\ st_best (st c') = h /\
  (forall t, st_bestAnchor (st c') t = tree_root t (tip t)) /\
  (forall t k, st_anchor (st c') t k =
     if decide (k = tree_root t (tip t) /\ st_bestAnchor (st c) t <> tree_root t (tip t)) then Some (tip t) else st_anchor (st c) t k).
Proof.
  intros Hi Hh H1 H2 H3 H4 c' tip. destruct (PushAnchor_law tree_of SPROUT sprout c Hi H1 H2) as [Hi1 A1].
  destruct (PushAnchor_law tree_of SAPLING sapling _ Hi1 H3 H4) as [Hi2 A2].
  destruct (SetBestBlock_law tree_of h _ Hh Hi2) as [Hi3 A3]. fold c' in Hi3, A3. split; [done|].
  set (c1 := PushAnchor SPROUT sprout c) in *. set (c2 := PushAnchor SAPLING sapling c1) in *.
  assert (E1 : same_coins (st c1) (st c) /\ (forall t, st_bestAnchor (st c1) t = match t with SPROUT => tree_root SPROUT sprout | SAPLING => st_bestAnchor (st c) SAPLING end) /\
    (forall t k, st_anchor (st c1) t k = if decide (t = SPROUT /\ k = tree_root SPROUT sprout /\ st_bestAnchor (st c) t <> k) then Some sprout else st_anchor (st c) t k)).
  { destruct A1 as (a1 & a2 & a3 & a4 & a5). destruct (Z.eqb_spec (st_bestAnchor (st c) SPROUT) (tree_root SPROUT sprout)) as [E|E].
    - split; [by split|]. split; [intros []; by rewrite a5|]. intros t k. rewrite a2. rewrite decide_False; [done|]. by intros (-> & -> & ?).
    - split; [by split|]. split; [intros []; by rewrite a5|]. intros t k. rewrite a2. cbn [st_set_anchor st_anchor].
      destruct (decide (t = SPROUT /\ k = tree_root SPROUT sprout)) as [[-> ->]|Hn]; [by rewrite decide_True|].
      rewrite decide_False; [done|]. intros (? & ? & _). by apply Hn. }
  destruct E1 as ([B1 B2] & B3 & B4).
  assert (E2 : same_coins (st c2) (st c1) /\ (forall t, st_bestAnchor (st c2) t = tree_root t (tip t)) /\
    (forall t k, st_anchor (st c2) t k = if decide (t = SAPLING /\ k = tree_root SAPLING sapling /\ st_bestAnchor (st c1) t <> k) then Some sapling else st_anchor (st c1) t k)).
  { destruct A2 as (a1 & a2 & a3 & a4 & a5). destruct (Z.eqb_spec (st_bestAnchor (st c1) SAPLING) (tree_root SAPLING sapling)) as [E|E].
    - split; [by split|]. split; [intros []; rewrite a5; [by rewrite B3|exact E]|]. intros t k. rewrite a2. rewrite decide_False; [done|]. by intros (-> & -> & ?).
    - split; [by split|]. split; [intros []; rewrite a5; cbn [st_set_anchor st_bestAnchor]; [by rewrite decide_False, B3|by rewrite decide_True]|]. intros t k. rewrite a2. cbn [st_set_anchor st_anchor].
      destruct (decide (t = SAPLING /\ k = tree_root SAPLING sapling)) as [[-> ->]|Hn]; [by rewrite decide_True|].
      rewrite decide_False; [done|]. intros (? & ? & _). by apply Hn. }
  destruct E2 as ([C1 C2] & C3 & C4). destruct A3 as (a1 & a2 & a3 & a4 & a5). cbn [st_set_best st_coins st_anchor st_null st_best st_bestAnchor] in *.
  split; [split; [intros k; by rewrite a1, C1, B1|intros t k; by rewrite a3, C2, B2]|]. split; [done|].
  split; [intros t; by rewrite a5, C3|]. intros t k. rewrite a2, C4, B4, B3. clear. subst tip. destruct t; cbn.
  - rewrite decide_False by (by intros [? _]). repeat case_decide; naive_solver.
  - rewrite (decide_False (P := SAPLING = SPROUT /\ _)) by (by intros [? _]). repeat case_decide; naive_solver.
Qed.

(** The tip goes back to an older tree. *)
Lemma pop_tip (d : cache) t old : inv d -> old <> 0 ->
  (st_bestAnchor (st d) t <> old ->
     is_Some (st_anchor (st d) t (st_bestAnchor (st d) t)) /\ st_bestAnchor (st d) t <> tree_root t tree_empty) ->
  exists d', PopAnchor t old d = Some d' /\ inv d' /\ same_coins (st d') (st d) /\ st_best (st d') = st_best (st d) /\
    (forall t', st_bestAnchor (st d') t' = if decide (t' = t) then old else st_bestAnchor (st d) t') /\
    (forall t' k, st_anchor (st d') t' k =
       if decide (t' = t /\ k = st_bestAnchor (st d) t /\ k <> old) then None else st_anchor (st d) t' k).
Proof.
  intros Hi Ho Hc. destruct (PopAnchor_law tree_of t old d Hi Ho Hc) as (d' & Hp & Hi' & (a1 & a2 & a3 & a4 & a5)).
  exists d'. split; [done|]. split; [done|]. destruct (Z.eqb_spec (st_bestAnchor (st d) t) old) as [Eo|Eo].
  - split; [by split|]. split; [done|]. split; [intros t'; rewrite a5; by case_decide; subst|].
    intros t' k. rewrite a2, decide_False; [done|]. intros (-> & -> & Hk). by apply Hk.
  - cbn [st_set_anchor st_coins st_anchor st_null st_best st_bestAnchor] in *. split; [by split|]. split; [done|]. split; [done|].
    intros t' k. rewrite a2. repeat case_decide; naive_solver.
Qed.

(** Both tips go back: the anchors the block brought go, the others stay. *)
Lemma pop_tips (S S' : utxo_state Tree) (tip : ShieldedType -> Tree) (d : cache) : inv d -> same_tips (st d) S' ->
  (forall t, st_bestAnchor S t <> 0) -> (forall t, st_bestAnchor S' t = tree_root t (tip t)) ->
  (forall t k, st_anchor S' t k =
     if decide (k = tree_root t (tip t) /\ st_bestAnchor S t <> tree_root t (tip t)) then Some (tip t) else st_anchor S t k) ->
  (forall t, tree_root t (tip t) <> st_bestAnchor S t ->
     st_anchor S t (tree_root t (tip t)) = None /\ tree_root t (tip t) <> tree_root t tree_empty) ->
  exists d2 d3, PopAnchor SPROUT (st_bestAnchor S SPROUT) d = Some d2 /\ PopAnchor SAPLING (st_bestAnchor S SAPLING) d2 = Some d3 /\
    inv d3 /\ same_coins (st d3) (st d) /\ (forall t, st_bestAnchor (st d3) t = st_bestAnchor S t) /\
    (forall t k, st_anchor (st d3) t k = st_anchor S t k).
Proof.
  intros Hi (T1 & T2 & T3) Hold Hba Han Hfresh.
  destruct (pop_tip d SPROUT (st_bestAnchor S SPROUT) Hi (Hold SPROUT)) as (d2 & P2 & Hi2 & [C2 C2'] & _ & B2 & A2).
  { rewrite T3, T1, Hba, Han. intros Hne. rewrite decide_True by done. split; [by eexists|by apply Hfresh]. }
  destruct (pop_tip d2 SAPLING (st_bestAnchor S SAPLING) Hi2 (Hold SAPLING)) as (d3 & P3 & Hi3 & [C3 C3'] & _ & B3 & A3).
  { rewrite B2, A2, !(decide_False (P := SAPLING = SPROUT)), (decide_False (P := SAPLING = SPROUT /\ _)) by naive_solver.
    rewrite T3, T1, Hba, Han. intros Hne. rewrite decide_True by done. split; [by eexists|by apply Hfresh]. }
  exists d2, d3. split; [done|]. split; [done|]. split; [done|].
  split; [split; [intros k; by rewrite C3, C2|intros t k; by rewrite C3', C2']|]. split.
  - intros []; rewrite B3; [rewrite decide_False, B2 by done; by rewrite decide_True|by rewrite decide_True].
  - intros t k. rewrite A3, A2, B2, !T3, T1, Hba, Han, (decide_False (P := SAPLING = SPROUT)), Hba by done.
    pose proof (Hfresh t) as Hf. clear -Hf. destruct t.
    + rewrite decide_False by naive_solver. repeat case_decide; naive_solver.
    + rewrite (decide_False (P := SAPLING = SPROUT /\ _)) by naive_solver. repeat case_decide; naive_solver.
Qed.

(** The undo data of a coinbase is not used. *)
Lemma disconnect_first txid cb rest u u' us h (d : cache) : IsCoinBase cb = true ->
  disconnect_txs (rev (combine ((txid, cb) :: rest) (u :: us))) h d = disconnect_txs (rev (combine ((txid, cb) :: rest) (u' :: us))) h d.
Proof.
  intros Hcb. cbn [combine rev]. rewrite !disconnect_txs_app. unfold disconnect_txs at 2 4. unfold disconnect_tx, IsMint.
  by rewrite Hcb, !orb_true_r.
Qed.
End Effect.

Section Theorems.
Context {Tree V : Type} `{!MerkleTree Tree} `{!CoinsView Tree V} `{!CoinsMemory}.
Context (tree_of : ShieldedType -> Z -> Tree) `{!CoinsViewReads tree_of V}.
Abbreviation cache := (CCoinsViewCache Tree V).
Abbreviation connect_state := (@connect_state Tree V).
Abbreviation inv := (cache_inv tree_of).
Abbreviation st := (cache_abs tree_of).
Context (N : block_env) (objs : store) (mapBlockIndex : gmap Z (option Z)) (tipheight : Z)
  (prev_branch : option Z) (prev_pay : Z).
Abbreviation C := (en_connect N).
Abbreviation E := (ce_chain (en_connect N)).
Abbreviation height s := (nHeight (be_index (cs_entry s))).

(** The block's entry is the next after the tip; it is not the genesis block, and not
    in the temporary file. *)
Record extends (s : connect_state) (b : CBlock) (q : Z) (prev : CBlockIndex) : Prop := {
  ex_prev : pprev (be_index (cs_entry s)) = Some q;
  ex_entry : objs !! q = Some prev;
  ex_index : mapBlockIndex !! phashBlock prev = Some (Some q);
  ex_height : height s = nHeight prev + 1;
  ex_tip : tipheight = nHeight prev;
  ex_range : 0 <= nHeight prev < 2 ^ 31 - 2;
  ex_hash : phashBlock (be_index (cs_entry s)) <> 0;
  ex_file : Z.land (nStatus (be_index (cs_entry s))) BLOCK_IN_TMPFILE = 0;
  ex_genesis : en_GetHash N (hdr b) <> en_hashGenesisBlock N
}.

(** The chain's rules are in range and the node validates blocks. *)
Record rules_ok : Prop := {
  ro_money : 0 <= MAX_MONEY (ce_rules C) < 2 ^ 61;
  ro_index : chain_index_ok (ce_index C);
  ro_superlite : en_SUPERLITE N = false
}.

Context `{!ChecksBlocks (en_checker N)}.
Hypothesis Hrules : rules_ok.

Lemma accepted_parts p b stn stn' s s' q prev : extends s b q prev -> inv (cs_view s) -> block_typed b ->
  ConnectBlock N objs mapBlockIndex tipheight prev_branch prev_pay p b false true stn s = (inr tt, stn', s') ->
  exists exp a root sprout sapling branch c1 c2 cb reward,
    expensive_checks N objs mapBlockIndex p (height s) = Some exp /\
    connected tree_of N objs mapBlockIndex tipheight p b exp (st (cs_view s)) s s' a root sprout sapling branch c1 c2 cb reward /\
    st_best (st (cs_view s)) = phashBlock prev /\ Forall (fun t => tx_ok t.2 /\ mint_ok t.2) (vtx b) /\
    exists txid rest, vtx b = (txid, cb) :: rest /\ IsCoinBase cb = true /\ Forall (fun t => IsCoinBase t.2 = false) rest.
Proof using All.
  intros Hex Hi Hty Hrun. unfold ConnectBlock in Hrun. rewrite (ro_superlite Hrules) in Hrun.
  destruct (_ && _); [done|]. destruct (expensive_checks _ _ _ _ _) as [exp|]; [|done].
  destruct (bc_CheckBlock _ _ _ _ _ _ _) as [future checked] eqn:Eb. destruct (checked stn) as [[r|[]] st1] eqn:Ec; [done|].
  destruct future; [done|]. destruct (connect_checked _ _ _ _ _ _ _ _ _ _ _ _) as [r s1] eqn:Ek. injection Hrun as -> <- <-.
  apply (connect_checked_inr tree_of) with (S := st (cs_view s)) in Ek as (a & root & sprout & sapling & branch & c1 & c2 & cb & reward & Hc);
    [|by split|apply Hex|apply Hex].
  exists exp, a, root, sprout, sapling, branch, c1, c2, cb, reward. split; [done|]. split; [done|].
  assert (Hchk : (bc_CheckBlock (en_checker N) exp (height s) (bi_nTime <$> (pprev (be_index (cs_entry s)) ≫= fun q => objs !! q)) b true true).2 stn = (inr tt, st1))
    by (cbn [negb] in Eb; by rewrite Eb).
  destruct (checked_block _ _ _ _ _ _ Hchk) as [Htxs ([txid cb'] & rest & Hv & Hcb & Hrest)]. split; [|split].
  - destruct Hc as [Hb _ _ _ _ _ _ _ _ _ _ _ _ _]. rewrite (ex_prev _ _ _ _ Hex) in Hb. cbn in Hb.
    rewrite (ex_entry _ _ _ _ Hex) in Hb. by injection Hb.
  - apply Forall_forall. intros t Ht. unfold block_typed in Hty. rewrite !Forall_forall in *.
    destruct (Htxs t Ht) as (? & ? & ?), (Hty t Ht) as [? ?]. by split_and!.
  - destruct Hc as [_ _ _ _ _ _ _ (txid' & Hcb') _ _ _ _ _ _]. rewrite Hv in Hcb'. injection Hcb' as -> ->.
    by exists txid', rest.
Qed.

(** The scripts of a transaction that spends these outputs. *)
Definition scripts_verified (exp : bool) (branch : Z) (tx : CMutableTransaction) (os : list CTxOut) : Prop :=
  exp = true -> Forall (fun k => run_check C verify_flags branch k = Some true) (checks_of tx 0 os).

(** The trees of the tip, and the coins, after a block that was connected. *)
Lemma connected_effect p b exp s s' a root sprout sapling branch c1 c2 cb reward q prev :
  extends s b q prev -> st_best (st (cs_view s)) = phashBlock prev -> Forall (fun t => tx_ok t.2) (vtx b) -> trees_ok tree_of (st (cs_view s)) b ->
  connected tree_of N objs mapBlockIndex tipheight p b exp (st (cs_view s)) s s' a root sprout sapling branch c1 c2 cb reward ->
  let S := st (cs_view s) in let S' := st (cs_view s') in
  let tip t := match t with SPROUT => cn_sprout a | SAPLING => cn_sapling a end in
  inv (cs_view s') /\ st_best S' = phashBlock (be_index (cs_entry s)) /\ same_coins S' (st c2) /\ (forall t, final_tree S b t (tip t)) /\
  (forall t, st_bestAnchor S' t = tree_root t (tip t)) /\
  (forall t k, st_anchor S' t k = if decide (k = tree_root t (tip t) /\ st_bestAnchor S t <> tree_root t (tip t)) then Some (tip t) else st_anchor S t k) /\
  exists accounts, ledger_txs C (height s) (scripts_verified exp branch) (ledger_of S) (vtx b) accounts (ledger_of S') /\
    i64 (cn_fees a) = i64 (total_fees accounts) /\ i64 (cn_interest a) = i64 (total_interest accounts).
Proof using All.
  intros Hex Hb Hok Htr [_ _ (Hroot & Hsp & Hrsp & Hsa) [Hi1 Hs1] _ Hloop _ _ _ _ Hscr Hview _ _] S S' tip.
  rewrite (ex_tip _ _ _ _ Hex) in Hloop. assert (Hh : 0 <= nHeight prev < 2 ^ 31 - 1) by (pose proof (ex_range _ _ _ _ Hex); lia).
  destruct (equiv_tips _ _ Hs1) as (T1 & T2 & T3).
  destruct (connect_loop_ledger tree_of C objs mapBlockIndex (phashBlock prev) q prev exp verify_flags branch (height s)
    (ex_index _ _ _ _ Hex) (ex_entry _ _ _ _ Hex) Hh (ro_money Hrules) (ro_index Hrules) _ _ _ _ _ Hok Hi1 ltac:(by rewrite T2) Hloop)
    as (Hi2 & Hb2 & Han2 & Hba2 & _ & Hspn & Hsan & _ & Hled). cbn [cn_sprout cn_sapling] in Hspn, Hsan.
  assert (Hfin : forall t, final_tree S b t (tip t)).
  { intros []; [exists sprout|exists sapling]; (split; [|done]); [unfold S; by rewrite <- Hroot|done]. }
  destruct (Htr _ _ (Hfin SPROUT)) as [P1 P2], (Htr _ _ (Hfin SAPLING)) as [P3 P4].
  destruct (push_block tree_of c2 (phashBlock (be_index (cs_entry s))) (cn_sprout a) (cn_sapling a) Hi2 (ex_hash _ _ _ _ Hex) P1 P2 P3 P4)
    as (Hi' & Hsc & Hb' & Hba & Han). rewrite <- Hview in Hi', Hsc, Hb', Hba, Han. fold S' in Hsc, Hb', Hba, Han.
  split; [done|]. split; [done|]. split; [done|]. split; [done|]. split; [done|]. split.
  { intros t k. rewrite Han, Hba2, T3, Han2, T1. done. }
  destruct (Hled Hscr) as (accounts & Hl & Hf & Hin). exists accounts. split; [|done].
  assert (HS : ledger_of S' ≡ ledger_of (st c2)).
  { by apply same_coins_ledger. }
  destruct (equiv_coins _ _ Hs1) as [C1 C2]. rewrite (ex_height _ _ _ _ Hex). apply (ledger_txs_end _ _ _ _ _ _ _ _ (symmetry HS)).
  refine (ledger_txs_start _ _ _ _ _ _ _ _ _ _ Hl); intros; unfold ledger_of; cbn [unspent revealed]; [by rewrite C1|apply C2].
Qed.

Lemma accepted_inv p b stn stn' s s' q prev : extends s b q prev -> inv (cs_view s) -> block_typed b -> trees_ok tree_of (st (cs_view s)) b ->
  ConnectBlock N objs mapBlockIndex tipheight prev_branch prev_pay p b false true stn s = (inr tt, stn', s') -> inv (cs_view s').
Proof using All.
  intros Hex Hi Hty Htr Hrun.
  destruct (accepted_parts _ _ _ _ _ _ _ _ Hex Hi Hty Hrun) as (exp & a & root & sprout & sapling & branch & c1 & c2 & cb & reward & _ & Hc & Hb & Hok & _).
  eapply (connected_effect _ _ _ _ _ _ _ _ _ _ _ _ _ _ _ _ Hex Hb); [|exact Htr|exact Hc]. eapply Forall_impl; [exact Hok|by intros ? []].
Qed.

(** *** Disconnecting *)

(** What undoing needs of the state before the block: heights in range, no undo data
    yet, roots that were not anchors before, and the Sapling root in the header of the
    block before. *)
Record undoable (s : connect_state) (b : CBlock) (prev : CBlockIndex) : Prop := {
  un_heights : heights_ok (st (cs_view s));
  un_txids : base.NoDup (map fst (vtx b));
  un_fresh : forall t tree, final_tree (st (cs_view s)) b t tree -> tree_root t tree <> st_bestAnchor (st (cs_view s)) t ->
    st_anchor (st (cs_view s)) t (tree_root t tree) = None /\ tree_root t tree <> tree_root t tree_empty;
  un_best : forall t, st_bestAnchor (st (cs_view s)) t <> 0;
  un_hash : phashBlock prev <> 0;
  un_sapling : exists active, NetworkUpgradeActive (vUpgrades E) (nHeight prev) UPGRADE_SAPLING = Some active /\
    st_bestAnchor (st (cs_view s)) SAPLING = if (active : bool) then bi_hashFinalSaplingRoot prev else tree_root SAPLING tree_empty;
  un_none : (GetUndoPos (be_index (cs_entry s))).1 = -1;
  un_file : nFile (be_index (cs_entry s)) <> -1
}.

(** DisconnectBlock, from the effect of its parts. *)
Lemma disconnect_run e file b prev u pos h (d d0 d1 d2 d3 : cache) active :
  Cache_GetBestBlock d = (phashBlock (be_index e), d0) -> GetUndoPos (be_index e) = pos -> pos.1 <> -1 ->
  file !! pos = Some (u, phashBlock prev) -> zlen (vtxundo u) + 1 = zlen (vtx b) -> h = nHeight (be_index e) ->
  disconnect_txs (rev (combine (vtx b) ([] :: vtxundo u))) h d0 = Some (true, d1) ->
  PopAnchor SPROUT (old_sprout_tree_root u) d1 = Some d2 ->
  NetworkUpgradeActive (vUpgrades E) (nHeight prev) UPGRADE_SAPLING = Some active ->
  PopAnchor SAPLING (if (active : bool) then bi_hashFinalSaplingRoot prev else tree_root SAPLING tree_empty) d2 = Some d3 ->
  DisconnectBlock N b (Some prev) (mkConnectState e d file) = (inr true, mkConnectState e (SetBestBlock (phashBlock prev) d3) file).
Proof using Type.
  intros H1 H2 H3 H4 H5 -> H6 H7 H8 H9. unfold DisconnectBlock.
  apply bcheck_bind_inr. exists e, (mkConnectState e d file). split; [done|]. cbv zeta.
  apply bcheck_bind_inr. exists (phashBlock (be_index e)), (mkConnectState e d0 file).
  split; [unfold on_view, c_GetBestBlock; cbn; by rewrite H1|].
  apply bcheck_bind_inr. exists tt, (mkConnectState e d0 file). rewrite refuse_if_inr, Z.eqb_refl. split; [done|].
  apply bcheck_bind_inr. exists tt, (mkConnectState e d0 file). rewrite refuse_if_inr, H2. split; [by split; [apply Z.eqb_neq|]|].
  apply bcheck_bind_inr. exists prev, (mkConnectState e d0 file). rewrite from_option_inr. split; [done|].
  apply bcheck_bind_inr. exists u, (mkConnectState e d0 file). split; [unfold UndoReadFromDisk; cbn; by rewrite H4; cbn; rewrite Z.eqb_refl|].
  apply bcheck_bind_inr. exists tt, (mkConnectState e d0 file). rewrite refuse_if_inr, H5, Z.eqb_refl. split; [done|].
  apply bcheck_bind_inr. exists true, (mkConnectState e d1 file). split; [unfold on_view; cbn; by rewrite H6|].
  apply bcheck_bind_inr. exists tt, (mkConnectState e d2 file). split; [unfold on_view; cbn; by rewrite H7|].
  apply bcheck_bind_inr. exists active, (mkConnectState e d2 file). rewrite from_option_inr. split; [done|]. cbv zeta.
  apply bcheck_bind_inr. exists tt, (mkConnectState e d3 file). split; [unfold on_view; cbn; by rewrite H9|].
  apply bcheck_bind_inr. exists tt, (mkConnectState e (SetBestBlock (phashBlock prev) d3) file). by split.
Qed.

(** The undo data that connecting wrote takes its transactions back. *)
Lemma connected_undo p b exp s s' a root sprout sapling branch c1 c2 cb reward q prev txid rest :
  extends s b q prev -> undoable s b prev -> st_best (st (cs_view s)) = phashBlock prev ->
  Forall (fun t => tx_ok t.2 /\ mint_ok t.2) (vtx b) -> vtx b = (txid, cb) :: rest -> IsCoinBase cb = true ->
  connected tree_of N objs mapBlockIndex tipheight p b exp (st (cs_view s)) s s' a root sprout sapling branch c1 c2 cb reward ->
  exists pos us, GetUndoPos (be_index (cs_entry s')) = (nFile (be_index (cs_entry s)), pos) /\
    cs_undo_file s' !! (nFile (be_index (cs_entry s)), pos) = Some (mkBlockUndo us root, phashBlock prev) /\
    zlen us + 1 = zlen (vtx b) /\
    forall d, inv d -> same_coins (st d) (st c2) ->
      exists d', disconnect_txs (rev (combine (vtx b) ([] :: us))) (height s) d = Some (true, d') /\ inv d' /\
        same_coins (st d') (st (cs_view s)) /\ same_tips (st d') (st d).
Proof using All.
  intros Hex [Hho Hnd _ _ _ _ Hnone _] Hb Hok Hv Hcb [_ Hnew _ [Hi1 Hs1] _ Hloop _ _ _ _ _ _ _ Hu].
  destruct (Hu Hnone) as (q' & prev' & pos & Hq' & Hp' & Hpos & Hundo). rewrite (ex_prev _ _ _ _ Hex) in Hq'. injection Hq' as <-.
  rewrite (ex_entry _ _ _ _ Hex) in Hp'. injection Hp' as <-. rewrite (ex_tip _ _ _ _ Hex) in Hloop.
  pose proof (ex_range _ _ _ _ Hex) as Hr. pose proof (ex_height _ _ _ _ Hex) as Hht.
  assert (Hnew1 : heights_ok (st c1) /\ Forall (fun k => st_coins (st c1) k = None) (map fst (vtx b)) /\ st_best (st c1) = phashBlock prev).
  { destruct Hs1 as (E1 & _ & _ & E4 & _). split; [intros k co; rewrite E1; apply Hho|]. split; [|by rewrite E4].
    eapply Forall_impl; [exact Hnew|]. intros k Hk. by rewrite E1. }
  destruct Hnew1 as (Hho1 & Hnew1 & Hb1).
  destruct (connect_loop_undo tree_of C objs mapBlockIndex (phashBlock prev) q prev exp verify_flags branch (height s)
    (ex_index _ _ _ _ Hex) (ex_entry _ _ _ _ Hex) ltac:(lia) (ro_money Hrules) (ro_index Hrules) _ _ _ _ _ Hok Hi1 Hb1 Hho1 ltac:(lia) Hnd Hnew1 Hloop)
    as (undos & Hcn & Hlen & _ & Hdis). cbn [cn_undo app] in Hcn.
  destruct undos as [|u0 us]; [by rewrite Hv in Hlen|]. exists pos, us. split; [done|].
  split; [rewrite Hundo, Hcn; apply lookup_insert_eq|]. split; [unfold zlen; cbn [length] in Hlen; lia|].
  intros d Hd Hs. destruct (Hdis d Hd Hs) as (d1 & Hd1 & Hid1 & Hc1 & Ht1). exists d1.
  rewrite Hv in Hd1. rewrite (disconnect_first _ _ _ _ [] _ _ _ Hcb), <- Hv in Hd1. split; [done|]. split; [done|]. split; [|done].
  destruct (equiv_coins _ _ Hs1), Hc1. split; congruence.
Qed.

(** C3: DisconnectBlock undoes ConnectBlock.  When ConnectBlock has accepted a block on
    top of the tip and written its undo data, then on any view that shows the state
    after the block (the cache itself, or another after a flush) DisconnectBlock
    succeeds, is clean, and restores exactly the coins, the nullifiers, the anchors of
    both kinds and the best block from before. *)
Theorem DisconnectBlock_undoes_ConnectBlock p b stn stn' s s' q prev (d : cache) :
  extends s b q prev -> inv (cs_view s) -> block_typed b -> trees_ok tree_of (st (cs_view s)) b -> undoable s b prev ->
  ConnectBlock N objs mapBlockIndex tipheight prev_branch prev_pay p b false true stn s = (inr tt, stn', s') ->
  inv d -> st d ≡ st (cs_view s') ->
  exists d', DisconnectBlock N b (Some prev) (mkConnectState (cs_entry s') d (cs_undo_file s')) =
               (inr true, mkConnectState (cs_entry s') d' (cs_undo_file s')) /\
    inv d' /\ st d' ≡ st (cs_view s).
Proof using All.
  intros Hex Hi Hty Htr Hun Hrun Hd Hs.
  destruct (accepted_parts _ _ _ _ _ _ _ _ Hex Hi Hty Hrun) as (exp & a & root & sprout & sapling & branch & c1 & c2 & cb & reward & _ & Hc & Hb & Hok & (txid & rest & Hv & Hcb & _)).
  assert (Hok1 : Forall (fun t => tx_ok t.2) (vtx b)) by (eapply Forall_impl; [exact Hok|by intros ? []]).
  destruct (connected_effect _ _ _ _ _ _ _ _ _ _ _ _ _ _ _ _ Hex Hb Hok1 Htr Hc) as (_ & Hbb & Hsc & Hfin & Hba & Han & _).
  destruct (connected_undo _ _ _ _ _ _ _ _ _ _ _ _ _ _ _ _ _ _ Hex Hun Hb Hok Hv Hcb Hc) as (pos & us & Hpos & Hundo & Hlen & Hdis).
  destruct Hc as [_ _ (Hroot & _) _ _ _ _ _ _ _ _ _ (B1 & _ & B3 & _) _].
  destruct Hun as [_ _ Hfresh Hold Hph (active & Hact & Hsap) _ Hfile].
  destruct (Cache_GetBestBlock d) as [best d0] eqn:Ebest.
  destruct (query_run tree_of _ c_GetBestBlock _ d best d0 (query_best tree_of (st (cs_view s'))) (conj Hd Hs)) as [[Hd0 Hs0] ->];
    [unfold c_GetBestBlock; by rewrite Ebest|]. rewrite Hbb in Ebest.
  destruct (Hdis d0 Hd0) as (d1 & Hd1 & Hid1 & Hc1 & Ht1); [destruct (equiv_coins _ _ Hs0), Hsc; split; congruence|].
  destruct (pop_tips tree_of (st (cs_view s)) (st (cs_view s')) _ d1 Hid1 (same_tips_trans _ _ _ Ht1 (equiv_tips _ _ Hs0)) Hold Hba Han)
    as (d2 & d3 & P2 & P3 & Hi3 & [D1 D2] & D3 & D4); [intros t; exact (Hfresh t _ (Hfin t))|].
  exists (SetBestBlock (phashBlock prev) d3). destruct (SetBestBlock_law tree_of _ d3 Hph Hi3) as [Hi4 (E1 & E2 & E3 & E4 & E5)].
  split; [|split; [done|]].
  - eapply (disconnect_run _ _ _ _ (mkBlockUndo us root) _ (height s) d d0 d1 d2 d3 active); try done.
    + by rewrite B1.
    + by rewrite Hroot.
    + by rewrite <- Hsap.
  - destruct Hc1. cbn [st_set_best st_coins st_anchor st_null st_best st_bestAnchor] in *.
    split_and!; intros; rewrite ?E1, ?E2, ?E3, ?E4, ?E5; congruence.
Qed.

(** *** The ledger *)

(** C1: ConnectBlock implements the ledger.  A block accepted on top of the tip is, in
    order, a sequence of legal steps of the ledger: each transaction spends unspent
    outputs, each once, reveals new nullifiers, pays out with its fee exactly what it
    takes in, and (unless the block is an ancestor of a checkpoint) has every script
    verified; the view then shows the ledger after them, the block as the best one, and
    for each kind the tree extended by the block's note commitments as the best anchor,
    which is the root the header names once Sapling is active. *)
Theorem ConnectBlock_refines_ledger p b stn stn' s s' q prev :
  extends s b q prev -> inv (cs_view s) -> block_typed b -> trees_ok tree_of (st (cs_view s)) b ->
  ConnectBlock N objs mapBlockIndex tipheight prev_branch prev_pay p b false true stn s = (inr tt, stn', s') ->
  let S := st (cs_view s) in let S' := st (cs_view s') in
  inv (cs_view s') /\ st_best S' = phashBlock (be_index (cs_entry s)) /\
  (exists exp branch accounts, expensive_checks N objs mapBlockIndex p (height s) = Some exp /\
     CurrentEpochBranchId (vUpgrades E) (en_SUPERLITE N) (height s) = Some branch /\
     ledger_txs C (height s) (scripts_verified exp branch) (ledger_of S) (vtx b) accounts (ledger_of S')) /\
  (forall t, exists tree, final_tree S b t tree /\ st_bestAnchor S' t = tree_root t tree /\
     st_anchor S' t (st_bestAnchor S' t) = Some tree) /\
  (exists active, NetworkUpgradeActive (vUpgrades E) (height s) UPGRADE_SAPLING = Some active /\
     (active = true -> st_bestAnchor S' SAPLING = hashFinalSaplingRoot (hdr b))).
Proof using All.
  intros Hex Hi Hty Htr Hrun S S'.
  destruct (accepted_parts _ _ _ _ _ _ _ _ Hex Hi Hty Hrun) as (exp & a & root & sprout & sapling & branch & c1 & c2 & cb & reward & Hexp & Hc & Hb & Hok & _).
  assert (Hok1 : Forall (fun t => tx_ok t.2) (vtx b)) by (eapply Forall_impl; [exact Hok|by intros ? []]).
  destruct (connected_effect _ _ _ _ _ _ _ _ _ _ _ _ _ _ _ _ Hex Hb Hok1 Htr Hc) as (Hi' & Hbb & _ & Hfin & Hba & Han & accounts & Hled & _).
  destruct Hc as [_ _ _ _ Hbranch _ (active & Hact & Hsap) _ _ _ _ _ _ _].
  split; [done|]. split; [done|]. split; [by exists exp, branch, accounts|]. split.
  - intros t. eexists. split; [exact (Hfin t)|]. split; [exact (Hba t)|]. unfold S' in *. rewrite Han, Hba.
    destruct (decide _) as [|Hn]; [done|]. destruct (Z.eq_dec (st_bestAnchor S t) (tree_root t match t with SPROUT => cn_sprout a | SAPLING => cn_sapling a end)) as [Eo|];
      [|by destruct Hn]. rewrite <- Eo. destruct (Hfin t) as (old & Hold & _). fold S in Hold. unfold S in *. rewrite Hold. f_equal.
    rewrite (proj1 (Htr t _ (Hfin t))), <- Eo. by apply (anchor_tree_of (V := cache) t (cs_view s)).
  - exists active. split; [done|]. intros Ha. unfold S' in *. rewrite (Hba SAPLING). by rewrite (Hsap Ha).
Qed.

(** C2: ConnectBlock conserves value.  On the main chain past the first notary height,
    without notary pay and commission, an accepted block pays out (coinbase included,
    the shielded pools counted) at most what it spends, the subsidy, the interest
    accrued on the outputs spent, and the tolerance; below the second notary height the
    interest is counted twice, once for its owner and once more for the miner.  The
    sums must fit 64 bits. *)
Theorem ConnectBlock_conserves_value p b stn stn' s s' q prev :
  extends s b q prev -> inv (cs_view s) -> block_typed b -> trees_ok tree_of (st (cs_view s)) b ->
  isKMD_env C = true -> SQUISHY_NOTARIES_HEIGHT1 <= height s -> en_NOTARY_PAY N = false ->
  ASSETCHAINS_COMMISSION E = 0 -> ASSETCHAINS_FOUNDERS_REWARD E = 0 ->
  0 <= en_GetBlockSubsidy N (height s) -> 0 <= en_EXTRASATOSHI N ->
  ConnectBlock N objs mapBlockIndex tipheight prev_branch prev_pay p b false true stn s = (inr tt, stn', s') ->
  exists exp branch accounts cb rest,
    ledger_txs C (height s) (scripts_verified exp branch) (ledger_of (st (cs_view s))) (vtx b) accounts (ledger_of (st (cs_view s'))) /\
    vtx b = cb :: rest /\
    let spent := sum_Z (map (fun a => sum_Z (map (fun ox => nValue ox.1) a.1)) accounts) in
    let subsidy := en_GetBlockSubsidy N (height s) in
    (subsidy + total_fees accounts + total_interest accounts + en_EXTRASATOSHI N < 2 ^ 63 ->
     sum_Z (amounts_out cb.2) + sum_Z (map (fun t => sum_Z (amounts_out t.2) - sum_Z (amounts_in t.2)) rest) <=
       spent + subsidy + (if height s >=? SQUISHY_NOTARIES_HEIGHT2 then 1 else 2) * total_interest accounts + en_EXTRASATOSHI N).
Proof using All.
  intros Hex Hi Hty Htr Hk Hh Hpay Hcom Hfou Hsub Hextra Hrun.
  destruct (accepted_parts _ _ _ _ _ _ _ _ Hex Hi Hty Hrun) as (exp & a & root & sprout & sapling & branch & c1 & c2 & cb & reward & _ & Hc & Hb & Hok & (txid & rest & Hv & Hcb & Hrest)).
  assert (Hok1 : Forall (fun t => tx_ok t.2) (vtx b)) by (eapply Forall_impl; [exact Hok|by intros ? []]).
  destruct (connected_effect _ _ _ _ _ _ _ _ _ _ _ _ _ _ _ _ Hex Hb Hok1 Htr Hc) as (_ & _ & _ & _ & _ & _ & accounts & Hled & Hf & Hin).
  destruct Hc as [_ _ _ _ _ _ _ _ Hrew (paid & Hpaid & Hle) _ _ _ _]. specialize (Hrew Hpay). specialize (Hle Hh).
  exists exp, branch, accounts, (txid, cb), rest. split; [done|]. split; [done|]. cbv zeta. intros Hfit.
  destruct (ledger_txs_value _ _ _ _ _ _ _ Hled) as (Hval & Hf0 & Hi0). fold (total_fees accounts) in Hval, Hf0. fold (total_interest accounts) in Hval, Hi0.
  rewrite block_reward_fixed in Hrew by done. injection Hrew as <-. rewrite Hk in Hle. cbn [andb] in Hle.
  assert (Hr : i64 (en_GetBlockSubsidy N (height s) + cn_fees a + (if height s >=? SQUISHY_NOTARIES_HEIGHT2 then 0 else cn_interest a)) =
    en_GetBlockSubsidy N (height s) + total_fees accounts + (if height s >=? SQUISHY_NOTARIES_HEIGHT2 then 0 else total_interest accounts)).
  { rewrite (Z.add_comm _ (cn_fees a)), <- Z.add_assoc, <- i64_add_l, Hf, i64_add_l.
    destruct (height s >=? SQUISHY_NOTARIES_HEIGHT2).
    - rewrite i64_id; unfold is_i64; lia.
    - rewrite Z.add_assoc, Z.add_comm, <- i64_add_l, Hin, i64_add_l, i64_id; unfold is_i64; lia. }
  rewrite Hr, i64_id in Hle by (unfold is_i64; destruct (_ >=? _); lia).
  assert (Htx : tx_ok cb) by (rewrite Hv in Hok1; by apply list.Forall_cons in Hok1 as [? _]). destruct Htx as (_ & _ & _ & Hi64).
  destruct (amounts_i64 cb Hi64) as [Ho _]. pose proof (ro_money Hrules) as HM.
  rewrite GetValueOut_sum_checked in Hpaid by done. apply sum_checked_iff in Hpaid as (_ & -> & _); [|lia..|done].
  assert (Hsum : sum_Z (map (fun t => if IsCoinBase t.2 then 0 else sum_Z (amounts_out t.2) - sum_Z (amounts_in t.2)) (vtx b)) =
                 sum_Z (map (fun t => sum_Z (amounts_out t.2) - sum_Z (amounts_in t.2)) rest)).
  { rewrite Hv. cbn [map snd]. rewrite Hcb. unfold sum_Z at 1. cbn [foldr]. rewrite Z.add_0_l. f_equal.
    clear -Hrest. induction Hrest as [|t l Ht _ IH]; [done|]. cbn [map]. by rewrite Ht, IH. }
  rewrite <- Hsum, Hval. cbn [snd]. destruct (height s >=? SQUISHY_NOTARIES_HEIGHT2); lia.
Qed.
End Theorems.

(** ** A block of a coinbase and a transaction with a JoinSplit, at height 900001 *)

Definition demo_point : CompressedPoint := mkCompressedPoint false 0.
Definition demo_js : JSDescription :=
  mkJSDescription (COIN / 4) 0 1 [21; 22] [4; 5] 0 [repeat 0 601; repeat 0 601] 0 [0; 0]
    (PHGR (mkPHGRProof demo_point demo_point demo_point demo_point demo_point demo_point demo_point demo_point)).
(** Spends the output of [toy_db], pays a key and the shielded pool, and leaves a fee. *)
Definition demo_joinsplit : CMutableTransaction :=
  mkCMutableTransaction false 2 0 [mkCTxIn (mkCOutPoint 77 0) [] (2 ^ 32 - 1)] [mkCTxOut (COIN / 2) [0x51]] 0 0 0 [] [] [demo_js] 0 zero_sig zero_sig.
Definition demo_next : CBlock :=
  mkBlock (mkHeader 4 9 197 0 1500001000 0x200f0f0f 0 []) [(98, demo_coinbase 900001); (99, demo_joinsplit)].

Definition demo_checker : block_checker :=
  node_checker demo_env demo_globals demo_params rules_main abi_x86_64 demo_keys demo_keys [] demo_chain [Some 0; Some 1]
    (fun b => take 20 b) false true (fun _ => false) false (fun _ => None) 1 (fun _ => repeat 1 32) demo_pairing
    (fun _ _ => false) (fun _ => false) (fun _ => false) (fun _ _ => true) (fun _ => None) (fun _ => 3 * COIN) (fun _ _ => 0) (fun b => b)
    (fun _ => true) 1500001000 (fun _ _ => 0) (fun _ => true) [] (fun _ _ => inr tt).

#[local] Instance demo_checker_ok : ChecksBlocks demo_checker.
Proof. apply node_checks_blocks. by vm_compute. Qed.

Definition demo_connect : connect_env :=
  mkConnectEnv demo_env rules_main toy_chain 0 0 0 (fun _ => 0) 100 true (fun _ => true) toy_hashers false
    (fun _ _ _ => mkChecker (fun _ _ _ _ => true) (fun _ => true) (fun _ _ _ _ => 1)) (fun _ => 0) (fun _ => true) true.
Definition demo_node : block_env :=
  mkBlockEnv demo_connect demo_checker false 0 true [] 1 0 (fun _ => 10) (fun _ => 3 * COIN) false (fun _ => 0) (fun _ _ => 0)
    0 (fun _ _ _ => 0) (fun _ _ => 0) (fun _ _ => None) (fun _ _ => Some 8) (fun _ => true).

Definition demo_prev : CBlockIndex := demo_entry 900000 9.
Definition demo_index_of_next : CBlockIndex := mkIndex 10 (Some 0) None 900001 0 0 0 [] 0 0 0 None None 0 None 4 0 0 0 0 0 [] 0.
Definition demo_entries : store := <[1 := demo_index_of_next]> {[ 0 := demo_prev ]}.
Definition demo_hashes : gmap Z (option Z) := <[10 := Some 1]> {[ 9 := Some 0 ]}.

#[local] Existing Instance toy_tree.
#[local] Existing Instance toy_memory.

Definition demo_state : @connect_state Z (CCoinsViewDB Z) := mkConnectState (mkEntry demo_index_of_next 0 0 None 0) (new_cache toy_db) ∅.
Definition demo_connected : verdict unit * notary_state * @connect_state Z (CCoinsViewDB Z) :=
  ConnectBlock demo_node demo_entries demo_hashes 900000 None 0 1 demo_next false true notary_start demo_state.

Lemma demo_accepts : demo_connected = (inr tt, demo_connected.1.2, demo_connected.2).
Proof. assert (H : demo_connected.1.1 = inr tt) by by vm_compute. rewrite <- H. by destruct demo_connected as [[? ?] ?]. Qed.

Lemma demo_rules : rules_ok demo_node.
Proof.
  split; [by vm_compute|split; [discriminate|constructor]|done].
Qed.

Lemma demo_extends : extends demo_node demo_entries demo_hashes 900000 demo_state demo_next 0 demo_prev.
Proof. split; try done; by vm_compute. Qed.

Lemma demo_view_inv : cache_inv toy_tree_of (cs_view demo_state).
Proof. apply new_cache_inv, toy_db_inv. Qed.

Lemma demo_typed : block_typed demo_next.
Proof. repeat constructor; try done; intros _; repeat constructor; cbn; lia. Qed.

(** The tree of the Sprout notes gets the root 10. *)
Lemma demo_final t tree : final_tree (cache_abs toy_tree_of (cs_view demo_state)) demo_next t tree ->
  tree = match t with SPROUT => 10 | SAPLING => 1 end.
Proof.
  intros (old & H1 & H2). destruct t; vm_compute in H1; injection H1 as <-; vm_compute in H2; by injection H2 as <-.
Qed.

Lemma demo_trees : trees_ok toy_tree_of (cache_abs toy_tree_of (cs_view demo_state)) demo_next.
Proof. intros t tree ->%demo_final. by destruct t. Qed.

Lemma demo_undoable : undoable toy_tree_of demo_node demo_state demo_next demo_prev.
Proof.
  split; try done.
  - intros k co. destruct (new_cache_inv toy_tree_of toy_db toy_db_inv) as [_ (Hc & _)]. cbn [cs_view demo_state]. rewrite Hc.
    simpl. unfold DB_GetCoins. simpl. intros [_ <-]%lookup_singleton_Some. by split.
  - by repeat (constructor; [set_solver|]); constructor.
  - intros t tree ->%demo_final. by destruct t.
  - by intros [].
  - by exists false.
Qed.

Lemma demo_connected_inv : cache_inv toy_tree_of (cs_view demo_connected.2).
Proof.
  exact (accepted_inv toy_tree_of demo_node demo_entries demo_hashes 900000 None 0 demo_rules 1 demo_next notary_start demo_connected.1.2
    demo_state demo_connected.2 0 demo_prev demo_extends demo_view_inv demo_typed demo_trees demo_accepts).
Qed.

Lemma ConnectBlock_refines_ledger_witness :
  let S' := cache_abs toy_tree_of (cs_view demo_connected.2) in
  st_best S' = 10 /\ st_bestAnchor S' SPROUT = 10 /\
  exists accounts, ledger_txs demo_connect 900001 (scripts_verified demo_node true 0)
    (ledger_of (cache_abs toy_tree_of (cs_view demo_state))) (vtx demo_next) accounts (ledger_of S').
Proof.
  destruct (ConnectBlock_refines_ledger toy_tree_of demo_node demo_entries demo_hashes 900000 None 0 demo_rules
    1 demo_next notary_start demo_connected.1.2 demo_state demo_connected.2 0 demo_prev demo_extends demo_view_inv demo_typed demo_trees demo_accepts)
    as (_ & H1 & (exp & branch & accounts & H2 & H3 & H4) & H5 & _).
  cbv zeta. split; [exact H1|]. split.
  - destruct (H5 SPROUT) as (tree & ->%demo_final & H6 & _). exact H6.
  - exists accounts. vm_compute in H2, H3. injection H2 as <-. injection H3 as <-. exact H4.
Defined.

Lemma DisconnectBlock_undoes_ConnectBlock_witness :
  exists d', DisconnectBlock demo_node demo_next (Some demo_prev)
      (mkConnectState (cs_entry demo_connected.2) (cs_view demo_connected.2) (cs_undo_file demo_connected.2)) =
      (inr true, mkConnectState (cs_entry demo_connected.2) d' (cs_undo_file demo_connected.2)) /\
    cache_abs toy_tree_of d' ≡ cache_abs toy_tree_of (cs_view demo_state).
Proof.
  destruct (DisconnectBlock_undoes_ConnectBlock toy_tree_of demo_node demo_entries demo_hashes 900000 None 0 demo_rules
    1 demo_next notary_start demo_connected.1.2 demo_state demo_connected.2 0 demo_prev (cs_view demo_connected.2)
    demo_extends demo_view_inv demo_typed demo_trees demo_undoable demo_accepts demo_connected_inv) as (d' & H1 & _ & H2); [reflexivity|].
  exists d'. split; [exact H1|exact H2].
Defined.

(** The spender pays 1/2 and 1/4 to the pool, the coinbase takes 3: of the 1 spent, 1/4 is unclaimed. *)
Lemma ConnectBlock_conserves_value_witness :
  exists accounts, let spent := sum_Z (map (fun a => sum_Z (map (fun ox => nValue ox.1) a.1)) accounts) in
    3 * COIN + total_fees accounts + total_interest accounts + 0 < 2 ^ 63 -> 3 * COIN + (COIN / 2 + COIN / 4) <= spent + 3 * COIN + 2 * total_interest accounts + 0.
Proof.
  destruct (ConnectBlock_conserves_value toy_tree_of demo_node demo_entries demo_hashes 900000 None 0 demo_rules
    1 demo_next notary_start demo_connected.1.2 demo_state demo_connected.2 0 demo_prev demo_extends demo_view_inv demo_typed demo_trees
    eq_refl ltac:(vm_compute; discriminate) eq_refl eq_refl eq_refl ltac:(vm_compute; discriminate) ltac:(vm_compute; discriminate) demo_accepts)
    as (exp & branch & accounts & cb & rest & _ & Hv & H).
  exists accounts. intros spent Hfit. injection Hv as <- <-. exact (H Hfit).
Defined.
