(* ===== verification/Bloom.v ===== *)
(** * Bloom filters (src/src/bloom.cpp)

    CBloomFilter and CRollingBloomFilter over MurmurHash3.  The sizes the
    constructors compute in floating point are arguments, as is the random tweak.
    [None] is the division by zero of a filter without bytes, which is undefined. *)
From S2P Require Import Prelude Serialize Transaction Script Interpreter Standard Hashes.
#[local] Open Scope Z_scope.

Definition MAX_BLOOM_FILTER_SIZE : Z := 36000.
Definition MAX_HASH_FUNCS : Z := 50.
Definition BLOOM_UPDATE_NONE : Z := 0.
Definition BLOOM_UPDATE_ALL : Z := 1.
Definition BLOOM_UPDATE_P2PUBKEY_ONLY : Z := 2.
Definition BLOOM_UPDATE_MASK : Z := 3.

(** ** The filter *)

Record CBloomFilter := mkBloom {
  bf_vData : bytes; isFull : bool; isEmpty : bool; nHashFuncs : Z; nTweak : Z; nFlags : Z
}.

(** The private constructor, with the number of bytes and of hash functions. *)
Definition new_filter (nBytes nHash tweak : Z) : CBloomFilter :=
  mkBloom (replicate (Z.to_nat nBytes) 0) false true nHash tweak BLOOM_UPDATE_NONE.

Definition bloom_Hash (f : CBloomFilter) (nHashNum : Z) (vDataToHash : bytes) : option Z :=
  let size := zlen (bf_vData f) * 8 in
  if size =? 0 then None
  else Some (MurmurHash3 (u32 (u32 (nHashNum * 0xFBA4C795) + nTweak f)) vDataToHash mod size).

(** [vData[nIndex >> 3] |= (1 << (7 & nIndex))] and its test. *)
Definition set_bit (v : bytes) (nIndex : Z) : bytes :=
  alter (fun b => Z.lor b (Z.shiftl 1 (Z.land 7 nIndex))) (Z.to_nat (Z.shiftr nIndex 3)) v.
Definition get_bit (v : bytes) (nIndex : Z) : option bool :=
  b ← v !! Z.to_nat (Z.shiftr nIndex 3);
  Some (negb (Z.land b (Z.shiftl 1 (Z.land 7 nIndex)) =? 0)).

Definition set_vData (v : bytes) (e : bool) (f : CBloomFilter) : CBloomFilter :=
  mkBloom v (isFull f) e (nHashFuncs f) (nTweak f) (nFlags f).

(** The loops over the hash functions from [i] on. *)
Fixpoint insert_loop (fuel : nat) (i : Z) (vKey : bytes) (f : CBloomFilter) : option CBloomFilter :=
  match fuel with
  | O => Some f
  | S fuel =>
    nIndex ← bloom_Hash f i vKey;
    insert_loop fuel (i + 1) vKey (set_vData (set_bit (bf_vData f) nIndex) (isEmpty f) f)
  end.

Fixpoint contains_loop (fuel : nat) (i : Z) (vKey : bytes) (f : CBloomFilter) : option bool :=
  match fuel with
  | O => Some true
  | S fuel =>
    nIndex ← bloom_Hash f i vKey;
    b ← get_bit (bf_vData f) nIndex;
    if (b : bool) then contains_loop fuel (i + 1) vKey f else Some false
  end.

Definition bloom_insert (vKey : bytes) (f : CBloomFilter) : option CBloomFilter :=
  if isFull f then Some f
  else
    f ← insert_loop (Z.to_nat (nHashFuncs f)) 0 vKey f;
    Some (set_vData (bf_vData f) false f).

Definition bloom_contains (vKey : bytes) (f : CBloomFilter) : option bool :=
  if isFull f then Some true
  else if isEmpty f then Some false
  else contains_loop (Z.to_nat (nHashFuncs f)) 0 vKey f.

Definition insert_outpoint (o : COutPoint) : CBloomFilter -> option CBloomFilter := bloom_insert (ser c_COutPoint o).
Definition insert_hash (h : Z) : CBloomFilter -> option CBloomFilter := bloom_insert (ser c_uint256 h).
Definition contains_outpoint (o : COutPoint) : CBloomFilter -> option bool := bloom_contains (ser c_COutPoint o).
Definition contains_hash (h : Z) : CBloomFilter -> option bool := bloom_contains (ser c_uint256 h).

Definition bloom_clear (f : CBloomFilter) : CBloomFilter :=
  mkBloom (replicate (length (bf_vData f)) 0) false true (nHashFuncs f) (nTweak f) (nFlags f).
Definition bloom_reset (nNewTweak : Z) (f : CBloomFilter) : CBloomFilter :=
  mkBloom (bf_vData (bloom_clear f)) false true (nHashFuncs f) nNewTweak (nFlags f).

Definition IsWithinSizeConstraints (f : CBloomFilter) : bool :=
  (zlen (bf_vData f) <=? MAX_BLOOM_FILTER_SIZE) && (nHashFuncs f <=? MAX_HASH_FUNCS).

Definition UpdateEmptyFull (f : CBloomFilter) : CBloomFilter :=
  mkBloom (bf_vData f) (forallb (fun b => b =? 0xff) (bf_vData f)) (forallb (fun b => b =? 0) (bf_vData f))
    (nHashFuncs f) (nTweak f) (nFlags f).

(** The filter on the wire; the flags for empty and full are not sent. *)
Definition c_filter_fields : codec (bytes * (Z * (Z * Z))) := c_pair c_bytes (c_pair c_u32 (c_pair c_u32 c_u8)).
Definition ser_filter (f : CBloomFilter) : bytes := ser c_filter_fields (bf_vData f, (nHashFuncs f, (nTweak f, nFlags f))).

(** *** The filter of a peer (main.cpp) *)

Record peer := mkPeer { pfilter : option CBloomFilter; fRelayTxes : bool; nMisbehavior : Z }.

(** [CBloomFilter()] *)
Definition full_filter : CBloomFilter := mkBloom [] true false 0 0 0.

Inductive filter_message := msg_filterload (vRecv : bytes) | msg_filteradd (vRecv : bytes) | msg_filterclear.

Definition Misbehaving (howmuch : Z) (p : peer) : peer := mkPeer (pfilter p) (fRelayTxes p) (nMisbehavior p + howmuch).

(** A message that cannot be read throws and changes nothing. *)
Definition ProcessFilterMessage (node_bloom : bool) (m : filter_message) (p : peer) : option peer :=
  match m with
  | msg_filterload vRecv =>
    match unser c_filter_fields vRecv with
    | None => Some p
    | Some ((v, (k, (t, g))), _) =>
      let filter := mkBloom v true false k t g in
      let p := if negb (IsWithinSizeConstraints filter) then Misbehaving 100 p
               else mkPeer (Some (UpdateEmptyFull filter)) (fRelayTxes p) (nMisbehavior p) in
      Some (mkPeer (pfilter p) true (nMisbehavior p))
    end
  | msg_filteradd vRecv =>
    match unser c_bytes vRecv with
    | None => Some p
    | Some (vData, _) =>
      if zlen vData >? MAX_SCRIPT_ELEMENT_SIZE then Some (Misbehaving 100 p)
      else
        match pfilter p with
        | Some f => f ← bloom_insert vData f; Some (mkPeer (Some f) (fRelayTxes p) (nMisbehavior p))
        | None => Some (Misbehaving 100 p)
        end
    end
  | msg_filterclear =>
    let p := if node_bloom then mkPeer (Some full_filter) (fRelayTxes p) (nMisbehavior p) else p in
    Some (mkPeer (pfilter p) true (nMisbehavior p))
  end.

Fixpoint ProcessFilterMessages (node_bloom : bool) (l : list filter_message) (p : peer) : option peer :=
  match l with
  | [] => Some p
  | m :: l => p ← ProcessFilterMessage node_bloom m p; ProcessFilterMessages node_bloom l p
  end.

(** *** Relevant transactions *)

Section Relevant.
Variable Hash160 : bytes -> bytes.
Variables (cc_enabled fix_active : bool) (supported : bytes -> bool).

(** Whether one of the pushes of a script is in the filter. *)
Fixpoint match_pushes (fuel : nat) (pc : bytes) (f : CBloomFilter) : option bool :=
  match fuel, pc with
  | S fuel, _ :: _ =>
    let r := GetOp2 pc in
    if op_ok r then
      b ← (if zlen (op_data r) =? 0 then Some false else bloom_contains (op_data r) f);
      if (b : bool) then Some true else match_pushes fuel (op_rest r) f
    else Some false
  | _, _ => Some false
  end.

Definition script_matches (script : bytes) (f : CBloomFilter) : option bool := match_pushes (length script) script f.

(** Whether an output that matched is added to the filter. *)
Definition update_flag (f : CBloomFilter) (script : bytes) : bool :=
  let mode := Z.land (nFlags f) BLOOM_UPDATE_MASK in
  if mode =? BLOOM_UPDATE_ALL then true
  else if mode =? BLOOM_UPDATE_P2PUBKEY_ONLY then
    let s := Solver Hash160 cc_enabled fix_active supported script in
    solver_ok s && match typeRet s with Some TX_PUBKEY | Some TX_MULTISIG => true | _ => false end
  else false.

(** The loop over the outputs from [i] on: what was found, and the filter. *)
Fixpoint match_outputs (txid i : Z) (outs : list CTxOut) (fFound : bool) (f : CBloomFilter) : option (bool * CBloomFilter) :=
  match outs with
  | [] => Some (fFound, f)
  | o :: outs =>
    b ← script_matches (scriptPubKey o) f;
    f' ← (if (b : bool) && update_flag f (scriptPubKey o) then insert_outpoint (mkCOutPoint txid i) f else Some f);
    match_outputs txid (i + 1) outs (fFound || b) f'
  end.

Fixpoint match_inputs (ins : list CTxIn) (f : CBloomFilter) : option bool :=
  match ins with
  | [] => Some false
  | i :: ins =>
    b ← contains_outpoint (prevout i) f;
    if (b : bool) then Some true
    else
      b ← script_matches (scriptSig i) f;
      if (b : bool) then Some true else match_inputs ins f
  end.

Definition IsRelevantAndUpdate (txid : Z) (tx : CMutableTransaction) (f : CBloomFilter) : option (bool * CBloomFilter) :=
  if isFull f then Some (true, f)
  else if isEmpty f then Some (false, f)
  else
    found ← contains_hash txid f;
    '(found, f) ← match_outputs txid 0 (vout tx) found f;
    if (found : bool) then Some (true, f)
    else b ← match_inputs (vin tx) f; Some (b, f).

(** Transactions one after the other. *)
Fixpoint relevant_all (l : list (Z * CMutableTransaction)) (f : CBloomFilter) : option (list bool * CBloomFilter) :=
  match l with
  | [] => Some ([], f)
  | (txid, tx) :: l =>
    '(b, f) ← IsRelevantAndUpdate txid tx f;
    '(bs, f) ← relevant_all l f;
    Some (b :: bs, f)
  end.
End Relevant.

(** ** The rolling filter *)

Record CRollingBloomFilter := mkRolling { nBloomSize : Z; nInsertions : Z; b1 : CBloomFilter; b2 : CBloomFilter }.

Definition rolling_reset (tweak : Z) (r : CRollingBloomFilter) : CRollingBloomFilter :=
  mkRolling (nBloomSize r) 0 (bloom_reset tweak (b1 r)) (bloom_reset tweak (b2 r)).

Definition new_rolling (nElements nBytes nHash tweak : Z) : CRollingBloomFilter :=
  rolling_reset tweak (mkRolling (u32 (nElements * 2)) 0 (new_filter nBytes nHash 0) (new_filter nBytes nHash 0)).

Definition rolling_insert (vKey : bytes) (r : CRollingBloomFilter) : option CRollingBloomFilter :=
  let f1 := if nInsertions r =? 0 then bloom_clear (b1 r) else b1 r in
  let f2 := if negb (nInsertions r =? 0) && (nInsertions r =? nBloomSize r / 2) then bloom_clear (b2 r) else b2 r in
  f1 ← bloom_insert vKey f1;
  f2 ← bloom_insert vKey f2;
  let k := u32 (nInsertions r + 1) in
  Some (mkRolling (nBloomSize r) (if k =? nBloomSize r then 0 else k) f1 f2).

Definition rolling_contains (vKey : bytes) (r : CRollingBloomFilter) : option bool :=
  if nInsertions r <? nBloomSize r / 2 then bloom_contains vKey (b2 r) else bloom_contains vKey (b1 r).

Fixpoint rolling_inserts (keys : list bytes) (r : CRollingBloomFilter) : option CRollingBloomFilter :=
  match keys with
  | [] => Some r
  | k :: keys => r ← rolling_insert k r; rolling_inserts keys r
  end.

(** ** Facts: bits *)

Lemma byte_bit k : 0 <= k < 8 -> Z.shiftl 1 k = 2 ^ k.
Proof. intros. by rewrite Z.shiftl_1_l. Qed.

Lemma land_one_bit b k : 0 <= k -> (Z.land b (2 ^ k) =? 0) = negb (Z.testbit b k).
Proof.
  intros Hk. destruct (Z.testbit b k) eqn:Hb; [apply Z.eqb_neq|apply Z.eqb_eq].
  - intros E%(f_equal (fun z => Z.testbit z k)). rewrite Z.land_spec, Hb, Z.pow2_bits_true, Z.testbit_0_l in E by done. done.
  - apply Z.bits_inj'. intros n Hn. rewrite Z.land_spec, Z.testbit_0_l. destruct (Z.eq_dec n k) as [->|Hne]; [by rewrite Hb|].
    by rewrite Z.pow2_bits_false, andb_false_r by lia.
Qed.

(** A bit of the vector, as a bit of its byte. *)
Lemma get_bit_testbit v i : get_bit v i = b ← v !! Z.to_nat (Z.shiftr i 3); Some (Z.testbit b (i mod 8)).
Proof.
  unfold get_bit. destruct (v !! _) as [b|]; [|done]. cbn [mbind option_bind].
  assert (Hl : Z.land 7 i = i mod 8) by (rewrite Z.land_comm; change 7 with (Z.ones 3); by rewrite Z.land_ones). rewrite Hl.
  pose proof (Z.mod_pos_bound i 8 ltac:(lia)). by rewrite Z.shiftl_1_l, land_one_bit, negb_involutive by lia.
Qed.

Lemma set_bit_get v i j : get_bit v j = Some true -> get_bit (set_bit v i) j = Some true.
Proof.
  rewrite !get_bit_testbit. unfold set_bit. intros (b & Hb & Ht)%bind_Some. injection Ht as Ht.
  destruct (decide (Z.to_nat (Z.shiftr i 3) = Z.to_nat (Z.shiftr j 3))) as [->|Hne].
  - rewrite list_lookup_alter, Hb, decide_True by done. cbn [mbind option_bind fmap option_fmap option_map]. by rewrite Z.lor_spec, Ht.
  - rewrite list_lookup_alter_ne by done. rewrite Hb. cbn. by rewrite Ht.
Qed.

Lemma index_in_range (v : bytes) i : 0 <= i < zlen v * 8 -> is_Some (v !! Z.to_nat (Z.shiftr i 3)).
Proof.
  intros Hi. apply lookup_lt_is_Some. rewrite Z.shiftr_div_pow2 by lia. unfold zlen in Hi.
  assert (i / 2 ^ 3 < Z.of_nat (length v)) by (apply Z.div_lt_upper_bound; lia). pose proof (Z.div_pos i (2 ^ 3)). lia.
Qed.

Lemma set_bit_set v i : 0 <= i < zlen v * 8 -> get_bit (set_bit v i) i = Some true.
Proof.
  intros Hi. destruct (index_in_range v i Hi) as [b Hb]. rewrite get_bit_testbit. unfold set_bit.
  rewrite list_lookup_alter, Hb, decide_True by done. cbn [mbind option_bind fmap option_fmap option_map]. assert (Hl : Z.land 7 i = i mod 8) by (rewrite Z.land_comm; change 7 with (Z.ones 3); by rewrite Z.land_ones).
  pose proof (Z.mod_pos_bound i 8 ltac:(lia)). rewrite Hl, Z.shiftl_1_l, Z.lor_spec, Z.pow2_bits_true by lia. by rewrite orb_true_r.
Qed.

Lemma set_bit_length v i : length (set_bit v i) = length v.
Proof. apply length_alter. Qed.

(** ** Facts: filters *)

(** Operations keep the shape and only ever add bits. *)
Definition same_shape (f f' : CBloomFilter) : Prop :=
  length (bf_vData f') = length (bf_vData f) /\ nHashFuncs f' = nHashFuncs f /\ nTweak f' = nTweak f /\
  nFlags f' = nFlags f /\ isFull f' = isFull f.

Definition grows (f f' : CBloomFilter) : Prop :=
  same_shape f f' /\ (isEmpty f' = true -> isEmpty f = true) /\
  forall i, get_bit (bf_vData f) i = Some true -> get_bit (bf_vData f') i = Some true.

#[global] Instance grows_preorder : PreOrder grows.
Proof.
  split.
  - intros f. by split_and!.
  - intros f g h ((? & ? & ? & ? & ?) & ? & ?) ((? & ? & ? & ? & ?) & ? & ?). split; [split_and!; congruence|split; auto].
Qed.

(** No division by zero: a filter without bytes is full. *)
Definition filter_safe (f : CBloomFilter) : Prop := isFull f = true \/ bf_vData f <> [].

Lemma grows_safe f f' : grows f f' -> filter_safe f -> filter_safe f'.
Proof.
  intros ((Hl & _ & _ & _ & Hf) & _) [H|H]; [left; congruence|right]. intros E. apply H. rewrite E in Hl. by destruct (bf_vData f).
Qed.

Lemma grows_nonempty f f' : grows f f' -> isEmpty f = false -> isEmpty f' = false.
Proof. intros (_ & He & _) Hf. destruct (isEmpty f'); [|done]. rewrite He in Hf; done. Qed.

Lemma Hash_shape f f' i k : same_shape f f' -> bloom_Hash f' i k = bloom_Hash f i k.
Proof. intros (Hl & _ & Ht & _). unfold bloom_Hash, zlen. by rewrite Hl, Ht. Qed.

Lemma Hash_some f i k : bf_vData f <> [] -> exists x, bloom_Hash f i k = Some x /\ 0 <= x < zlen (bf_vData f) * 8.
Proof.
  intros Hne. unfold bloom_Hash. assert (0 < zlen (bf_vData f)) by (destruct (bf_vData f) as [|b v]; [done|]; rewrite zlen_cons; pose proof (zlen_nonneg v); lia).
  rewrite (proj2 (Z.eqb_neq _ _)) by lia. eexists. split; [done|]. apply Z.mod_pos_bound. lia.
Qed.

(** The loop of [contains] checks the bits of the hash functions. *)
Lemma contains_loop_iff n i k f : contains_loop n i k f = Some true <->
  forall j, i <= j < i + Z.of_nat n -> exists x, bloom_Hash f j k = Some x /\ get_bit (bf_vData f) x = Some true.
Proof.
  revert i. induction n as [|n IH]; intros i; cbn [contains_loop]; [split; [intros _ j Hj; lia|done]|]. split.
  - intros (x & Hx & (b & Hb & Hl)%bind_Some)%bind_Some j Hj. destruct b; [|done].
    destruct (Z.eq_dec j i) as [->|]; [by exists x|]. apply (proj1 (IH (i + 1)) Hl). lia.
  - intros Hall. destruct (Hall i ltac:(lia)) as (x & -> & Hb). cbn [mbind option_bind]. rewrite Hb. cbn [mbind option_bind].
    apply IH. intros j Hj. apply Hall. lia.
Qed.

Lemma contains_loop_some n i k f : bf_vData f <> [] -> is_Some (contains_loop n i k f).
Proof.
  intros Hne. revert i. induction n as [|n IH]; intros i; [by eexists|]. cbn [contains_loop].
  destruct (Hash_some f i k Hne) as (x & -> & Hx). cbn [mbind option_bind]. rewrite get_bit_testbit.
  destruct (index_in_range _ _ Hx) as [b ->]. cbn [mbind option_bind]. destruct (Z.testbit b _); [apply IH|by eexists].
Qed.

Lemma contains_some k f : filter_safe f -> is_Some (bloom_contains k f).
Proof.
  intros Hs. unfold bloom_contains. destruct (isFull f) eqn:Hf; [by eexists|]. destruct (isEmpty f); [by eexists|].
  apply contains_loop_some. destruct Hs; congruence.
Qed.

Lemma grows_contains k f f' : grows f f' -> bloom_contains k f = Some true -> bloom_contains k f' = Some true.
Proof.
  intros (Hsh & He & Hb). pose proof Hsh as (_ & Hn & _ & _ & Hf). unfold bloom_contains. rewrite Hf, Hn.
  destruct (isFull f); [done|]. destruct (isEmpty f); [done|]. destruct (isEmpty f'); [by discriminate He|].
  rewrite !contains_loop_iff. intros Hall j Hj. destruct (Hall j Hj) as (x & Hx & Hg). exists x. rewrite (Hash_shape f f') by done. auto.
Qed.

Lemma insert_loop_spec n i k f : bf_vData f <> [] -> exists f', insert_loop n i k f = Some f' /\ grows f f' /\ isEmpty f' = isEmpty f /\
  forall j, i <= j < i + Z.of_nat n -> exists x, bloom_Hash f' j k = Some x /\ get_bit (bf_vData f') x = Some true.
Proof.
  revert i f. induction n as [|n IH]; intros i f Hne; [exists f; split_and!; try done; intros j Hj; lia|]. cbn [insert_loop].
  destruct (Hash_some f i k Hne) as (x & Hx & Hr). rewrite Hx. cbn [mbind option_bind].
  set (g := set_vData (set_bit (bf_vData f) x) (isEmpty f) f).
  assert (Hg : grows f g).
  { split; [|split; [done|]]; [|intros y Hy; by apply set_bit_get]. split_and!; try done. apply set_bit_length. }
  destruct (IH (i + 1) g) as (f' & -> & Hgr & He & Hall).
  { cbn. intros E. apply Hne. apply (f_equal length) in E. rewrite set_bit_length in E. by destruct (bf_vData f). }
  exists f'. split; [done|]. split; [by etrans|]. split; [done|]. intros j Hj. destruct (Z.eq_dec j i) as [->|]; [|apply Hall; lia].
  exists x. assert (Hsh : same_shape f f') by exact (proj1 (transitivity Hg Hgr)).
  rewrite (Hash_shape f f' i k Hsh). split; [done|]. apply Hgr. cbn. by apply set_bit_set.
Qed.

(** Inserting succeeds, keeps what was there, and the key is found. *)
Lemma insert_spec k f : filter_safe f -> exists f', bloom_insert k f = Some f' /\ grows f f' /\ bloom_contains k f' = Some true.
Proof.
  intros Hs. unfold bloom_insert. destruct (isFull f) eqn:Hf.
  { exists f. split_and!; try done. unfold bloom_contains. by rewrite Hf. }
  destruct Hs as [Hs|Hne]; [congruence|]. destruct (insert_loop_spec (Z.to_nat (nHashFuncs f)) 0 k f Hne) as (g & -> & Hg & _ & Hall).
  cbn [mbind option_bind]. eexists. split; [done|]. pose proof Hg as ((Hl & Hn & Ht & Hfl & Hfu) & _ & Hb).
  split; [by split_and!|]. unfold bloom_contains. cbn [set_vData isFull isEmpty nHashFuncs]. rewrite Hfu, Hf.
  apply contains_loop_iff. intros j Hj. rewrite Hn in Hj. destruct (Hall j Hj) as (x & Hx & Hbit). by exists x.
Qed.

(** ** The rolling filter keeps a window *)

(** A filter that is never full, and the keys it must report. *)
Definition keeps (f : CBloomFilter) (l : list bytes) : Prop :=
  isFull f = false /\ bf_vData f <> [] /\ Forall (fun k => bloom_contains k f = Some true) l.

Lemma keeps_insert f l k : keeps f l -> exists f', bloom_insert k f = Some f' /\ keeps f' (k :: l).
Proof.
  intros (Hf & Hne & Hall). destruct (insert_spec k f) as (f' & Hi & Hg & Hc); [by right|]. exists f'. split; [done|].
  pose proof (grows_safe _ _ Hg (or_intror Hne)) as Hs. pose proof Hg as ((_ & _ & _ & _ & Hfu) & _). split; [congruence|].
  split; [destruct Hs; congruence|]. constructor; [done|]. eapply list.Forall_impl; [exact Hall|]. intros x. by apply grows_contains.
Qed.

Lemma keeps_clear f l : keeps f l -> keeps (bloom_clear f) [].
Proof. intros (_ & Hne & _). split_and!; [done| |constructor]. cbn. by destruct (bf_vData f). Qed.

Lemma keeps_weaken f l l' : keeps f l -> l' ⊆ l -> keeps f l'.
Proof.
  intros (? & ? & Hall) Hs. split_and!; try done. rewrite list.Forall_forall in *. intros k Hk. by apply Hall, Hs.
Qed.

Lemma take_cons_sub {A} n m (k : A) l : (n <= S m)%nat -> take n (k :: l) ⊆ k :: take m l.
Proof.
  intros Hn. destruct n as [|n]; [by intros x Hx%elem_of_nil|]. cbn [take]. intros x [->|Hx]%elem_of_cons; [by left|]. right.
  apply list_elem_of_lookup in Hx as [i Hi]. apply lookup_take_Some in Hi as [Hi Hlt]. apply list_elem_of_lookup. exists i.
  apply lookup_take_Some. split; [done|lia].
Qed.

(** With [size] insertions in a cycle and the keys so far, the latest first: the
    first filter has those of the cycle, the second those since its last clear. *)
Definition rolling_inv (size : Z) (r : CRollingBloomFilter) (l : list bytes) : Prop :=
  nBloomSize r = 2 * size /\ 0 <= nInsertions r < 2 * size /\
  keeps (b1 r) (take (Z.to_nat (nInsertions r)) l) /\
  keeps (b2 r) (take (Z.to_nat (if nInsertions r <=? size then nInsertions r + size else nInsertions r - size)) l).

Lemma rolling_step size r l k : 0 < size < 2 ^ 31 -> rolling_inv size r l ->
  exists r', rolling_insert k r = Some r' /\ rolling_inv size r' (k :: l).
Proof.
  intros Hs (Hn & Hi & H1 & H2). unfold rolling_insert. rewrite Hn.
  replace (2 * size / 2) with size by (rewrite Z.mul_comm, Z.div_mul; lia). set (i := nInsertions r) in *.
  assert (K1 : keeps (if i =? 0 then bloom_clear (b1 r) else b1 r) (take (Z.to_nat i) l)).
  { destruct (Z.eqb_spec i 0) as [->|]; [|done]. by eapply keeps_clear. }
  set (m := if i <? size then i + size else i - size).
  assert (K2 : keeps (if negb (i =? 0) && (i =? size) then bloom_clear (b2 r) else b2 r) (take (Z.to_nat m) l)).
  { subst m. destruct (Z.eqb_spec i size) as [E|E].
    - rewrite (proj2 (Z.eqb_neq i 0)), (proj2 (Z.ltb_ge i size)) by lia. replace (i - size) with 0 by lia. by eapply keeps_clear.
    - rewrite andb_false_r. destruct (Z.leb_spec i size), (Z.ltb_spec i size); try lia; done. }
  destruct (keeps_insert _ _ k K1) as (f1 & E1 & F1), (keeps_insert _ _ k K2) as (f2 & E2 & F2). rewrite E1. cbn [mbind option_bind]. rewrite E2.
  cbn [mbind option_bind]. eexists. split; [done|]. rewrite u32_id by (unfold is_u32; lia).
  unfold rolling_inv. cbn [nBloomSize nInsertions b1 b2]. split; [done|]. subst m. destruct (Z.eqb_spec (i + 1) (2 * size)) as [E|E].
  - rewrite (proj2 (Z.leb_le 0 size)), (proj2 (Z.ltb_ge i size)) in * by lia. split; [lia|].
    split; [by apply (keeps_weaken _ _ _ F1); intros x Hx%elem_of_nil|]. apply (keeps_weaken _ _ _ F2), take_cons_sub. lia.
  - split; [lia|]. split; [apply (keeps_weaken _ _ _ F1), take_cons_sub; lia|]. apply (keeps_weaken _ _ _ F2), take_cons_sub.
    destruct (Z.ltb_spec i size), (Z.leb_spec (i + 1) size); lia.
Qed.

Lemma rolling_inserts_inv size keys r l : 0 < size < 2 ^ 31 -> rolling_inv size r l ->
  exists r', rolling_inserts keys r = Some r' /\ rolling_inv size r' (app (rev keys) l).
Proof.
  intros Hs. revert r l. induction keys as [|k keys IH]; intros r l Hr; [by exists r|]. cbn [rolling_inserts rev].
  destruct (rolling_step size r l k Hs Hr) as (r1 & -> & H1). cbn [mbind option_bind]. rewrite <- app_assoc. cbn [app]. by apply IH.
Qed.

(** C28: A rolling filter for [nElements] never misses one of the last [nElements] keys
    inserted: after any sequence of insertions, which all succeed, each of them is
    reported as contained, across the points where one of the two filters is cleared
    and the counter wraps. *)
Theorem rolling_window nElements nBytes nHash tweak keys k :
  0 < nElements < 2 ^ 31 -> 0 < nBytes -> k ∈ take (Z.to_nat nElements) (rev keys) ->
  exists r, rolling_inserts keys (new_rolling nElements nBytes nHash tweak) = Some r /\ rolling_contains k r = Some true.
Proof.
  intros Hn Hb Hk. assert (Hne : forall x : Z, replicate (Z.to_nat nBytes) x <> []).
  { intros x E%(f_equal length). rewrite length_replicate in E. cbn in E. lia. }
  assert (Hinit : rolling_inv nElements (new_rolling nElements nBytes nHash tweak) []).
  { unfold rolling_inv, new_rolling, rolling_reset. cbn [nBloomSize nInsertions b1 b2]. rewrite u32_id by (unfold is_u32; lia). rewrite !take_nil.
    split; [lia|]. split; [lia|]. assert (K : forall t, keeps (bloom_reset t (new_filter nBytes nHash 0)) []).
    { intros t. split_and!; [done| |constructor]. cbn. rewrite length_replicate. apply Hne. }
    by split. }
  destruct (rolling_inserts_inv nElements keys _ _ Hn Hinit) as (r & Hr & Hsz & Hi & (_ & _ & H1) & (_ & _ & H2)). exists r. split; [done|].
  rewrite app_nil_r in H1, H2. rewrite list.Forall_forall in H1, H2. unfold rolling_contains. rewrite Hsz.
  replace (2 * nElements / 2) with nElements by (rewrite Z.mul_comm, Z.div_mul; lia).
  apply list_elem_of_lookup in Hk as [j Hj]. apply lookup_take_Some in Hj as [Hj Hlt].
  assert (Hin : forall m, (Z.to_nat nElements <= m)%nat -> k ∈ take m (rev keys)).
  { intros m Hm. apply list_elem_of_lookup. exists j. apply lookup_take_Some. split; [done|lia]. }
  destruct (Z.ltb_spec (nInsertions r) nElements); [apply H2|apply H1]; apply Hin; [rewrite (proj2 (Z.leb_le _ _)) by lia|]; lia.
Qed.

Lemma rolling_window_witness :
  exists r, rolling_inserts [[1]; [2]; [3]; [4]; [5]] (new_rolling 2 8 5 77) = Some r /\ rolling_contains [4] r = Some true.
Proof.
  apply (rolling_window 2 8 5 77 [[1]; [2]; [3]; [4]; [5]] [4]); [lia|lia|]. cbn. right. left.
Defined.

(** ** The filter of a peer *)

Definition peer_ok (p : peer) : Prop :=
  forall f, pfilter p = Some f -> filter_safe f /\ IsWithinSizeConstraints f = true.

Lemma UpdateEmptyFull_safe f : filter_safe (UpdateEmptyFull f).
Proof. unfold filter_safe. cbn. destruct (bf_vData f); [by left|by right]. Qed.

Lemma grows_size f f' : grows f f' -> IsWithinSizeConstraints f = true -> IsWithinSizeConstraints f' = true.
Proof. intros ((Hl & Hn & _) & _). unfold IsWithinSizeConstraints, zlen. by rewrite Hl, Hn. Qed.

Lemma filter_message_ok node_bloom m p : peer_ok p -> exists p', ProcessFilterMessage node_bloom m p = Some p' /\ peer_ok p'.
Proof.
  intros Hp. destruct m as [v|v|]; cbn [ProcessFilterMessage].
  - destruct (unser c_filter_fields v) as [[[data [k [t g]]] rest]|]; [|by exists p]. eexists. split; [done|].
    destruct (IsWithinSizeConstraints _) eqn:Hs; cbn [negb pfilter Misbehaving]; [|done].
    intros f [= <-]. split; [apply UpdateEmptyFull_safe|done].
  - destruct (unser c_bytes v) as [[data rest]|]; [|by exists p]. destruct (_ >? _); [by eexists|].
    destruct (pfilter p) as [f|] eqn:Hf; [|eexists; split; [done|]; intros f' E; cbn in E; congruence].
    destruct (Hp f Hf) as [Hs Hc]. destruct (insert_spec data f Hs) as (f' & -> & Hg & _). eexists. split; [done|].
    intros ? [= <-]. split; [by eapply grows_safe|by eapply grows_size].
  - eexists. split; [done|]. destruct node_bloom; cbn [pfilter]; [|done]. intros f [= <-]. by split; [left|].
Qed.

(** ** Relevant transactions *)

Section RelevantFacts.
Context (Hash160 : bytes -> bytes) (cc fix_active : bool) (supported : bytes -> bool).
Abbreviation relevant := (IsRelevantAndUpdate Hash160 cc fix_active supported).
Abbreviation outputs := (match_outputs Hash160 cc fix_active supported).

Lemma match_pushes_some n pc f : filter_safe f -> is_Some (match_pushes n pc f).
Proof.
  intros Hs. revert pc. induction n as [|n IH]; intros [|b pc]; [by eexists..|]. cbn [match_pushes]. destruct (op_ok _); [|by eexists].
  destruct (zlen _ =? 0); cbn [mbind option_bind]; [apply IH|].
  destruct (contains_some (op_data (GetOp2 (b :: pc))) f Hs) as [[] ->]; cbn [mbind option_bind]; [by eexists|apply IH].
Qed.

Lemma match_pushes_grows n pc f f' : filter_safe f -> grows f f' -> match_pushes n pc f = Some true -> match_pushes n pc f' = Some true.
Proof.
  intros Hs Hg. pose proof (grows_safe _ _ Hg Hs) as Hs'. revert pc. induction n as [|n IH]; intros [|b pc]; [done..|]. cbn [match_pushes].
  destruct (op_ok _); [|done]. destruct (zlen _ =? 0); cbn [mbind option_bind]; [apply IH|]. set (d := op_data _).
  destruct (contains_some d f Hs) as [c Hc]. rewrite Hc. destruct (contains_some d f' Hs') as [c' Hc']. rewrite Hc'. cbn [mbind option_bind].
  destruct c; [by rewrite (grows_contains _ _ _ Hg Hc) in Hc'; injection Hc' as <-|]. destruct c'; [done|apply IH].
Qed.

Lemma outputs_some txid i outs found f : filter_safe f -> exists b f', outputs txid i outs found f = Some (b, f') /\ grows f f' /\
  (found = true -> b = true).
Proof.
  revert i found f. induction outs as [|o outs IH]; intros i found f Hs; [by exists found, f|]. cbn [match_outputs].
  destruct (match_pushes_some (length (scriptPubKey o)) (scriptPubKey o) f Hs) as [b Hb]. unfold script_matches. rewrite Hb. cbn [mbind option_bind].
  destruct (b && _).
  - unfold insert_outpoint. destruct (insert_spec (ser c_COutPoint (mkCOutPoint txid i)) f Hs) as (f1 & -> & Hg & _). cbn [mbind option_bind].
    destruct (IH (i + 1) (found || b) f1 (grows_safe _ _ Hg Hs)) as (b' & f' & -> & Hg' & Hf). exists b', f'. split; [done|]. split; [by etrans|].
    intros ->. by apply Hf.
  - cbn [mbind option_bind]. destruct (IH (i + 1) (found || b) f Hs) as (b' & f' & -> & Hg' & Hf). exists b', f'. split; [done|]. split; [done|].
    intros ->. by apply Hf.
Qed.

(** An output whose script matches is found, and with the flag for all it is inserted. *)
Lemma outputs_insert txid outs f0 j o : forall i found f b f', filter_safe f0 -> grows f0 f -> outs !! j = Some o ->
  script_matches (scriptPubKey o) f0 = Some true -> Z.land (nFlags f0) BLOOM_UPDATE_MASK = BLOOM_UPDATE_ALL ->
  outputs txid i outs found f = Some (b, f') ->
  b = true /\ contains_outpoint (mkCOutPoint txid (i + Z.of_nat j)) f' = Some true.
Proof.
  revert j. induction outs as [|o' outs IH]; intros j i found f b f' Hs0 Hg0 Hj Hm Hall; [done|]. cbn [match_outputs].
  pose proof (grows_safe _ _ Hg0 Hs0) as Hs. destruct j as [|j].
  - injection Hj as ->. unfold script_matches in *. rewrite (match_pushes_grows _ _ _ _ Hs0 Hg0 Hm). cbn [mbind option_bind andb].
    assert (Hu : update_flag Hash160 cc fix_active supported f (scriptPubKey o) = true).
    { unfold update_flag. destruct Hg0 as ((_ & _ & _ & -> & _) & _). by rewrite Hall. }
    rewrite Hu. unfold insert_outpoint. destruct (insert_spec (ser c_COutPoint (mkCOutPoint txid i)) f Hs) as (f1 & -> & Hg & Hc). cbn [mbind option_bind].
    destruct (outputs_some txid (i + 1) outs (found || true) f1 (grows_safe _ _ Hg Hs)) as (b1 & f2 & -> & Hg2 & Hb). intros [= <- <-].
    split; [apply Hb, orb_true_r|]. rewrite Z.add_0_r. by apply (grows_contains _ _ _ Hg2).
  - destruct (match_pushes_some (length (scriptPubKey o')) (scriptPubKey o') f Hs) as [c Hc]. unfold script_matches at 1. rewrite Hc. cbn [mbind option_bind].
    replace (i + Z.of_nat (S j)) with (i + 1 + Z.of_nat j) by lia.
    destruct (c && _); [|cbn [mbind option_bind]; by apply IH].
    unfold insert_outpoint. destruct (insert_spec (ser c_COutPoint (mkCOutPoint txid i)) f Hs) as (f1 & -> & Hg & _). cbn [mbind option_bind].
    apply IH; [done|by etrans|done..].
Qed.

Lemma inputs_some ins f : filter_safe f -> is_Some (match_inputs ins f).
Proof.
  intros Hs. induction ins as [|i ins IH]; [by eexists|]. cbn [match_inputs]. unfold contains_outpoint.
  destruct (contains_some (ser c_COutPoint (prevout i)) f Hs) as [[] ->]; cbn [mbind option_bind]; [by eexists|].
  destruct (match_pushes_some (length (scriptSig i)) (scriptSig i) f Hs) as [[] Hb]; unfold script_matches; rewrite Hb; cbn [mbind option_bind]; [by eexists|done].
Qed.

Lemma inputs_match ins f i : filter_safe f -> i ∈ ins -> contains_outpoint (prevout i) f = Some true -> match_inputs ins f = Some true.
Proof.
  intros Hs Hin Hc. induction ins as [|j ins IH]; [by apply elem_of_nil in Hin|]. cbn [match_inputs].
  destruct (contains_some (ser c_COutPoint (prevout j)) f Hs) as [[] Hb]; unfold contains_outpoint; rewrite Hb; cbn [mbind option_bind]; [done|].
  destruct (match_pushes_some (length (scriptSig j)) (scriptSig j) f Hs) as [[] Hm]; unfold script_matches; rewrite Hm; cbn [mbind option_bind]; [done|].
  apply elem_of_cons in Hin as [->|Hin]; [|by apply IH]. unfold contains_outpoint in Hc. congruence.
Qed.

Lemma relevant_some txid tx f : filter_safe f -> exists b f', relevant txid tx f = Some (b, f') /\ grows f f'.
Proof.
  intros Hs. unfold IsRelevantAndUpdate. destruct (isFull f); [by exists true, f|]. destruct (isEmpty f); [by exists false, f|]. unfold contains_hash.
  destruct (contains_some (ser c_uint256 txid) f Hs) as [c ->]. cbn [mbind option_bind].
  destruct (outputs_some txid 0 (vout tx) c f Hs) as (b & f' & -> & Hg & _). cbn [mbind option_bind]. destruct b; [by exists true, f'|].
  destruct (inputs_some (vin tx) f' (grows_safe _ _ Hg Hs)) as [b ->]. by exists b, f'.
Qed.

(** A transaction that spends an outpoint of the filter is relevant. *)
Lemma relevant_spend txid tx f i : filter_safe f -> i ∈ vin tx -> isEmpty f = false -> contains_outpoint (prevout i) f = Some true ->
  exists f', relevant txid tx f = Some (true, f').
Proof.
  intros Hs Hin He Hc. unfold IsRelevantAndUpdate. rewrite He. destruct (isFull f); [by exists f|]. unfold contains_hash.
  destruct (contains_some (ser c_uint256 txid) f Hs) as [c ->]. cbn [mbind option_bind].
  destruct (outputs_some txid 0 (vout tx) c f Hs) as (b & f' & -> & Hg & _). cbn [mbind option_bind]. destruct b; [by exists f'|].
  rewrite (inputs_match (vin tx) f' i (grows_safe _ _ Hg Hs) Hin); [by exists f'|]. by apply (grows_contains _ _ _ Hg).
Qed.

Lemma relevant_all_some l f : filter_safe f -> exists bs f', relevant_all Hash160 cc fix_active supported l f = Some (bs, f') /\ grows f f' /\ length bs = length l.
Proof.
  revert f. induction l as [|[txid tx] l IH]; intros f Hs; [by exists [], f|]. cbn [relevant_all].
  destruct (relevant_some txid tx f Hs) as (b & f1 & -> & Hg). cbn [mbind option_bind].
  destruct (IH f1 (grows_safe _ _ Hg Hs)) as (bs & f' & -> & Hg' & Hl). cbn [mbind option_bind]. exists (b :: bs), f'. split; [done|]. split; [by etrans|]. cbn. by rewrite Hl.
Qed.

(** C29: A filter that asks for updates follows the coins it is interested in: when an
    output of a transaction pushes something the filter contains, the transaction is
    reported, and so is every later transaction that spends this output, whatever
    transactions the filter has been shown in between. *)
Theorem filter_follows_spends f txid tx j o between txid' tx' i :
  filter_safe f -> isEmpty f = false -> Z.land (nFlags f) BLOOM_UPDATE_MASK = BLOOM_UPDATE_ALL ->
  vout tx !! j = Some o -> script_matches (scriptPubKey o) f = Some true ->
  i ∈ vin tx' -> prevout i = mkCOutPoint txid (Z.of_nat j) ->
  exists bs f', relevant_all Hash160 cc fix_active supported ((txid, tx) :: app between [(txid', tx')]) f = Some (true :: app bs [true], f') /\
    length bs = length between.
Proof.
  intros Hs He Hall Hj Hm Hin Hp. cbn [relevant_all].
  assert (H1 : exists f1, relevant txid tx f = Some (true, f1) /\ grows f f1 /\ contains_outpoint (mkCOutPoint txid (Z.of_nat j)) f1 = Some true).
  { unfold IsRelevantAndUpdate. rewrite He. destruct (isFull f) eqn:Hf.
    { exists f. split_and!; [done|done|]. unfold contains_outpoint, bloom_contains. by rewrite Hf. }
    unfold contains_hash. destruct (contains_some (ser c_uint256 txid) f Hs) as [c ->]. cbn [mbind option_bind].
    destruct (outputs_some txid 0 (vout tx) c f Hs) as (b & f1 & Ho & Hg & _). rewrite Ho. cbn [mbind option_bind].
    destruct (outputs_insert txid (vout tx) f j o 0 c f b f1 Hs (reflexivity f) Hj Hm Hall Ho) as [-> Hc]. by exists f1. }
  destruct H1 as (f1 & -> & Hg & Hc). cbn [mbind option_bind]. pose proof (grows_safe _ _ Hg Hs) as Hs1.
  assert (He1 : isEmpty f1 = false) by (by eapply grows_nonempty).
  assert (Hrest : exists bs f', relevant_all Hash160 cc fix_active supported (app between [(txid', tx')]) f1 = Some (app bs [true], f') /\ length bs = length between).
  { clear -Hs1 He1 Hc Hin Hp. revert f1 Hs1 He1 Hc. induction between as [|[t x] l IH]; intros f1 Hs1 He1 Hc; cbn [app relevant_all].
    - destruct (relevant_spend txid' tx' f1 i Hs1 Hin He1) as (f' & ->); [by rewrite Hp|]. by exists [], f'.
    - destruct (relevant_some t x f1 Hs1) as (b & f2 & -> & Hg). cbn [mbind option_bind].
      destruct (IH f2 (grows_safe _ _ Hg Hs1)) as (bs & f' & -> & Hl); [|by apply (grows_contains _ _ _ Hg)|].
      + by eapply grows_nonempty.
      + exists (b :: bs), f'. split; [done|]. cbn. by rewrite Hl. }
  destruct Hrest as (bs & f' & -> & Hl). by exists bs, f'.
Qed.
End RelevantFacts.

(** C30: No sequence of filter messages makes the node divide by zero: from a new
    connection on, every message is processed, the filter of the peer stays within the
    protocol's limits, and looking up any key and any transaction in it is defined. *)
Theorem peer_filter_safe node_bloom l relay : exists p,
  ProcessFilterMessages node_bloom l (mkPeer (Some full_filter) relay 0) = Some p /\
  forall f, pfilter p = Some f -> IsWithinSizeConstraints f = true /\ (forall k, is_Some (bloom_contains k f)) /\
    forall Hash160 cc fx supported txid tx, is_Some (IsRelevantAndUpdate Hash160 cc fx supported txid tx f).
Proof.
  assert (H : forall p, peer_ok p -> exists p', ProcessFilterMessages node_bloom l p = Some p' /\ peer_ok p').
  { induction l as [|m l' IH]; intros p Hp; [by exists p|]. cbn [ProcessFilterMessages].
    destruct (filter_message_ok node_bloom m p Hp) as (p1 & -> & H1). by apply IH. }
  destruct (H (mkPeer (Some full_filter) relay 0)) as (p & Hp & Hok); [intros f [= <-]; by split; [left|]|].
  exists p. split; [done|]. intros f Hf. destruct (Hok f Hf) as [Hs Hc]. split; [done|]. split; [intros k; by apply contains_some|].
  intros h c fx sup txid tx. destruct (relevant_some h c fx sup txid tx f Hs) as (b & f' & -> & _). by eexists.
Qed.


Definition toy_out_tx (script : bytes) : CMutableTransaction :=
  mkCMutableTransaction false 1 0 [mkCTxIn (mkCOutPoint 50 0) [] 0] [mkCTxOut 1 [0x51]; mkCTxOut 2 script] 0 0 0 [] [] [] 0 [] [].
Definition toy_spend_tx : CMutableTransaction :=
  mkCMutableTransaction false 1 0 [mkCTxIn (mkCOutPoint 99 1) [0x51] 0] [mkCTxOut 1 [0x51]] 0 0 0 [] [] [] 0 [] [].

(** A filter of eight bytes with the key [7; 8], which the second output pushes. *)
Lemma filter_follows_spends_witness :
  exists f, bloom_insert [7; 8] (mkBloom (replicate 8 0) false true 5 3 BLOOM_UPDATE_ALL) = Some f /\
  exists bs f', relevant_all id false true (fun _ => false)
    [(99, toy_out_tx [2; 7; 8; 0x87]); (60, toy_out_tx [0x51]); (61, toy_spend_tx)] f = Some (true :: bs ++ [true], f') /\ length bs = 1%nat.
Proof.
  eexists. split; [vm_compute; reflexivity|].
  eapply (filter_follows_spends id false true (fun _ => false) _ 99 _ 1 (mkCTxOut 2 [2; 7; 8; 0x87]) [(60, toy_out_tx [0x51])] 61 toy_spend_tx
    (mkCTxIn (mkCOutPoint 99 1) [0x51] 0)); try reflexivity; [by right|by left].
Defined.
