(* ===== verification/Base58.v ===== *)
(** * Base-58 text (src/src/base58.cpp)

    EncodeBase58 and DecodeBase58 with their big-number loops, the checksummed
    form, CBase58Data and the addresses.  Strings are lists of character codes. *)
From S2P Require Import Prelude Serialize Transaction Script Hashes Standard.
#[local] Open Scope Z_scope.

Definition isspace (c : Z) : bool := (c =? 32) || ((9 <=? c) && (c <=? 13)).
Definition isdigit (c : Z) : bool := (48 <=? c) && (c <=? 57).

(** The characters of a string up to the first NUL, as [c_str] shows them. *)
Fixpoint c_str (s : bytes) : bytes :=
  match s with [] => [] | c :: s => if c =? 0 then [] else c :: c_str s end.

Fixpoint skip_while (f : Z -> bool) (s : bytes) : bytes :=
  match s with [] => [] | c :: s' => if f c then skip_while f s' else s end.

(** ** The alphabet *)

(** 1-9, A-H, J-N, P-Z, a-k, m-z *)
Definition pszBase58 : bytes :=
  [49; 50; 51; 52; 53; 54; 55; 56; 57; 65; 66; 67; 68; 69; 70; 71; 72; 74; 75; 76; 77; 78; 80; 81; 82; 83; 84; 85; 86;
   87; 88; 89; 90; 97; 98; 99; 100; 101; 102; 103; 104; 105; 106; 107; 109; 110; 111; 112; 113; 114; 115; 116; 117;
   118; 119; 120; 121; 122].

(** [strchr], as an offset. *)
Fixpoint strchr (l : bytes) (c : Z) : option Z :=
  match l with [] => None | d :: l => if d =? c then Some 0 else k ← strchr l c; Some (k + 1) end.

(** ** The loops *)

(** The inner loop, from the last digit up: [v = v * m + carry] in base [B]. *)
Fixpoint mul_add (m B : Z) (l : list Z) (carry : Z) : list Z * Z :=
  match l with
  | [] => ([], carry)
  | d :: l =>
    let carry := carry + m * d in
    let '(l', c) := mul_add m B l (carry / B) in
    (carry mod B :: l', c)
  end.

Definition mul_add_vec (m B : Z) (v : list Z) (carry : Z) : list Z * Z :=
  let '(l, c) := mul_add m B (rev v) carry in (rev l, c).

(** All digits; [None] is the failed assertion that the carry is 0. *)
Fixpoint process (m B : Z) (ds : list Z) (v : list Z) : option (list Z) :=
  match ds with
  | [] => Some v
  | d :: ds => let '(v, c) := mul_add_vec m B v d in if c =? 0 then process m B ds v else None
  end.

Fixpoint leading (x : Z) (l : list Z) : nat :=
  match l with [] => O | y :: l => if y =? x then S (leading x l) else O end.
Definition strip (x : Z) (l : list Z) : list Z := drop (leading x l) l.

Definition EncodeBase58 (v : bytes) : option bytes :=
  let zeroes := leading 0 v in
  let rest := drop zeroes v in
  b58 ← process 256 58 rest (replicate (Z.to_nat (zlen rest * 138 / 100 + 1)) 0);
  Some (app (replicate zeroes 49) (map (fun d => nth (Z.to_nat d) pszBase58 0) (strip 0 b58))).

Inductive decoded := AssertionFailed | Invalid58 | Decoded58 (v : bytes).

(** The loop over the characters, up to the end or a space; what follows. *)
Fixpoint decode_loop (s : bytes) (b256 : list Z) : decoded + list Z * bytes :=
  match s with
  | [] => inr (b256, [])
  | c :: s' =>
    if isspace c then inr (b256, s)
    else
      match strchr pszBase58 c with
      | None => inl Invalid58
      | Some d => let '(b256, carry) := mul_add_vec 58 256 b256 d in if carry =? 0 then decode_loop s' b256 else inl AssertionFailed
      end
  end.

Definition DecodeBase58 (str : bytes) : decoded :=
  let psz := skip_while isspace (c_str str) in
  let zeroes := leading 49 psz in
  let psz := drop zeroes psz in
  match decode_loop psz (replicate (Z.to_nat (zlen psz * 733 / 1000 + 1)) 0) with
  | inl r => r
  | inr (b256, rest) =>
    match skip_while isspace rest with
    | [] => Decoded58 (app (replicate zeroes 0) (strip 0 b256))
    | _ => Invalid58
    end
  end.

(** The digits of a text, up to the end or a space, and what follows. *)
Fixpoint read_digits (s : bytes) : option (list Z * bytes) :=
  match s with
  | [] => Some ([], [])
  | c :: s' =>
    if isspace c then Some ([], s)
    else
      d ← strchr pszBase58 c;
      '(ds, rest) ← read_digits s';
      Some (d :: ds, rest)
  end.

(** ** With a checksum *)

Section Checked.
(** What the buffer of the hasher held. *)
Variables (buf0 : bytes).

(** The first four bytes of the double hash. *)
Definition checksum (v : bytes) : bytes := le_bytes 4 (Hash buf0 [v]).

Definition EncodeBase58Check (vchIn : bytes) : option bytes := EncodeBase58 (app vchIn (checksum vchIn)).

Definition DecodeBase58Check (str : bytes) : decoded :=
  match DecodeBase58 str with
  | Decoded58 vchRet =>
    if (length vchRet <? 4)%nat then Invalid58
    else
      let body := take (length vchRet - 4) vchRet in
      if bool_decide (checksum body = drop (length vchRet - 4) vchRet) then Decoded58 body else Invalid58
  | r => r
  end.

(** ** CBase58Data *)

Record CBase58Data := mkBase58Data { vchVersion : bytes; vchData : bytes }.

Definition SetData (vchVersionIn pdata : bytes) : CBase58Data := mkBase58Data vchVersionIn pdata.

(** [None] is the assertion of the decoder. *)
Definition CBase58Data_SetString (psz : bytes) (nVersionBytes : nat) : option (bool * CBase58Data) :=
  match DecodeBase58Check psz with
  | AssertionFailed => None
  | Invalid58 => Some (false, mkBase58Data [] [])
  | Decoded58 vchTemp =>
    if (length vchTemp <? nVersionBytes)%nat then Some (false, mkBase58Data [] [])
    else Some (true, mkBase58Data (take nVersionBytes vchTemp) (drop nVersionBytes vchTemp))
  end.

Definition CBase58Data_ToString (b : CBase58Data) : option bytes := EncodeBase58Check (app (vchVersion b) (vchData b)).

(** [std::vector]'s order. *)
Fixpoint vector_lt (a b : bytes) : bool :=
  match a, b with
  | _, [] => false
  | [], _ :: _ => true
  | x :: a, y :: b => (x <? y) || (negb (y <? x) && vector_lt a b)
  end.

Definition CBase58Data_CompareTo (a b58 : CBase58Data) : Z :=
  if vector_lt (vchVersion a) (vchVersion b58) then -1
  else if vector_lt (vchVersion b58) (vchVersion a) then 1
  else if vector_lt (vchData a) (vchData b58) then -1
  else if vector_lt (vchData b58) (vchData a) then 1
  else 0.

(** ** CBitcoinAddress *)

(** [Params().Base58Prefix] of the two types of address, and the hash of a key. *)
Variables (PUBKEY_ADDRESS SCRIPT_ADDRESS : bytes) (GetID : bytes -> bytes).

(** The visitor; the result of [Set] and the address after it. *)
Definition CBitcoinAddress_Set (addr : CBase58Data) (dest : CTxDestination) : bool * CBase58Data :=
  match dest with
  | CKeyID id => (true, SetData PUBKEY_ADDRESS id)
  | DestPubKey key => (true, SetData PUBKEY_ADDRESS (GetID key))
  | CScriptID id => (true, SetData SCRIPT_ADDRESS id)
  | CNoDestination => (false, addr)
  end.

Definition CBitcoinAddress_IsValid (a : CBase58Data) : bool :=
  let fCorrectSize := (length (vchData a) =? 20)%nat in
  let fKnownVersion := bool_decide (vchVersion a = PUBKEY_ADDRESS) || bool_decide (vchVersion a = SCRIPT_ADDRESS) in
  fCorrectSize && fKnownVersion.

Definition CBitcoinAddress_SetString (pszAddress : bytes) : option (bool * CBase58Data) := CBase58Data_SetString pszAddress 1.

Definition CBitcoinAddress_Get (a : CBase58Data) : CTxDestination :=
  if negb (CBitcoinAddress_IsValid a) then CNoDestination
  else
    let id := take 20 (vchData a) in
    if bool_decide (vchVersion a = PUBKEY_ADDRESS) then CKeyID id
    else if bool_decide (vchVersion a = SCRIPT_ADDRESS) then CScriptID id
    else CNoDestination.

(** [None] is the result false. *)
Definition CBitcoinAddress_GetIndexKey (a : CBase58Data) (ccflag : bool) : option (bytes * Z) :=
  if negb (CBitcoinAddress_IsValid a) then None
  else if bool_decide (vchVersion a = PUBKEY_ADDRESS) then Some (take 20 (vchData a), if ccflag then 3 else 1)
  else if bool_decide (vchVersion a = SCRIPT_ADDRESS) then Some (take 20 (vchData a), 2)
  else None.

Definition CBitcoinAddress_GetKeyID (a : CBase58Data) : option bytes :=
  if negb (CBitcoinAddress_IsValid a) || bool_decide (vchVersion a <> PUBKEY_ADDRESS) then None
  else Some (take 20 (vchData a)).

Definition CBitcoinAddress_IsScript (a : CBase58Data) : bool :=
  CBitcoinAddress_IsValid a && bool_decide (vchVersion a = SCRIPT_ADDRESS).
End Checked.

(** ** Positional notation *)

(** The value of digits, the lowest first. *)
Definition value (B : Z) (l : list Z) : Z := foldr (fun d a => d + B * a) 0 l.
Definition digits_ok (B : Z) (l : list Z) : Prop := Forall (fun d => 0 <= d < B) l.
(** The highest first. *)
Definition be_value (B : Z) (l : list Z) : Z := value B (rev l).

Section Positional.
Context (B : Z) (HB : 2 <= B).

Lemma value_bound l : digits_ok B l -> 0 <= value B l < B ^ zlen l.
Proof using HB.
  induction 1 as [|d l Hd _ IH]; [done|]. rewrite zlen_cons. cbn [value foldr]. fold (value B l).
  pose proof (zlen_nonneg l). rewrite Z.pow_add_r, Z.pow_1_r by lia. nia.
Qed.

Lemma value_app l l' : value B (app l l') = value B l + B ^ zlen l * value B l'.
Proof using Type.
  induction l as [|d l IH]; [change (zlen []) with 0; rewrite Z.pow_0_r; cbn [app]; change (value B []) with 0; lia|].
  cbn [app value foldr]. fold (value B (app l l')) (value B l). rewrite IH, zlen_cons.
  pose proof (zlen_nonneg l). rewrite Z.pow_add_r, Z.pow_1_r by lia. ring.
Qed.

Lemma be_value_app l l' : be_value B (app l l') = be_value B l * B ^ zlen l' + be_value B l'.
Proof using Type. unfold be_value. rewrite rev_app_distr, value_app. unfold zlen. rewrite length_rev. ring. Qed.

Lemma be_value_cons d l : be_value B (d :: l) = d * B ^ zlen l + be_value B l.
Proof using Type. change (d :: l) with (app [d] l). rewrite be_value_app. f_equal. f_equal. unfold be_value. cbn. lia. Qed.

Lemma be_value_zeros k l : be_value B (app (replicate k 0) l) = be_value B l.
Proof using Type. induction k as [|k IH]; [done|]. cbn [replicate app]. rewrite be_value_cons, IH. lia. Qed.

(** Digits are determined by their value, up to zeros in front. *)
Lemma value_inj l l' : digits_ok B l -> digits_ok B l' -> length l = length l' -> value B l = value B l' -> l = l'.
Proof using HB.
  intros Hl. revert l'. induction Hl as [|d l Hd Hl IH]; intros [|d' l'] Hl' Hlen E; try done.
  apply list.Forall_cons in Hl' as [Hd' Hl']. cbn [value foldr] in E. fold (value B l) (value B l') in E.
  destruct (Z.div_mod_unique B (value B l) (value B l') d d') as [E' ->]; [by left|by left|lia|]. f_equal. apply IH; [done|by injection Hlen|done].
Qed.

Lemma leading_zeros l : l = app (replicate (leading 0 l) 0) (strip 0 l).
Proof using Type.
  unfold strip. induction l as [|d l IH]; [done|]. cbn [leading]. destruct (Z.eqb_spec d 0) as [->|]; [|done]. cbn [replicate app drop]. by f_equal.
Qed.

Lemma strip_nonzero l : match strip 0 l with [] => True | d :: _ => d <> 0 end.
Proof using Type.
  unfold strip. induction l as [|d l IH]; [done|]. cbn [leading]. destruct (Z.eqb_spec d 0); [done|]. by cbn [drop].
Qed.

Lemma strip_ok l : digits_ok B l -> digits_ok B (strip 0 l).
Proof using Type. intros H. by apply Forall_drop. Qed.

Lemma be_value_strip l : be_value B (strip 0 l) = be_value B l.
Proof using Type. rewrite (leading_zeros l) at 2. by rewrite be_value_zeros. Qed.

Lemma be_value_bound l : digits_ok B l -> 0 <= be_value B l < B ^ zlen l.
Proof using HB.
  intros Hl. unfold be_value. assert (Hr : digits_ok B (rev l)) by by apply Forall_rev.
  pose proof (value_bound _ Hr). unfold zlen in *. by rewrite length_rev in *.
Qed.
End Positional.

(** ** The loops compute in positional notation *)

Section Loops.
Context (m B : Z) (Hm : 0 < m) (HB : 2 <= B).

Lemma mul_add_value l carry l' c : digits_ok B l -> 0 <= carry -> mul_add m B l carry = (l', c) ->
  value B l' + B ^ zlen l * c = m * value B l + carry /\ digits_ok B l' /\ length l' = length l /\ 0 <= c.
Proof using Hm HB.
  intros Hl. revert carry l' c. induction Hl as [|d l Hd Hl IH]; intros carry l' c Hc.
  { intros [= <- <-]. change (zlen []) with 0. rewrite Z.pow_0_r. unfold value; cbn [foldr]. split; [lia|]. by split; [constructor|]. }
  cbn [mul_add]. destruct (mul_add m B l ((carry + m * d) / B)) as [l1 c1] eqn:E. intros [= <- <-].
  assert (Hnn : 0 <= (carry + m * d) / B) by (apply Z.div_pos; nia). destruct (IH _ _ _ Hnn E) as (IH1 & IH2 & IH3 & IH4).
  split; [|split; [constructor; [apply Z.mod_pos_bound; lia|done]|split; [cbn; by rewrite IH3|done]]].
  cbn [value foldr]. fold (value B l1) (value B l). rewrite zlen_cons. pose proof (zlen_nonneg l). rewrite Z.pow_add_r, Z.pow_1_r by lia.
  pose proof (Z.div_mod (carry + m * d) B ltac:(lia)). nia.
Qed.

Lemma mul_add_vec_value v carry v' c : digits_ok B v -> 0 <= carry -> mul_add_vec m B v carry = (v', c) ->
  be_value B v' + B ^ zlen v * c = m * be_value B v + carry /\ digits_ok B v' /\ length v' = length v /\ 0 <= c.
Proof using Hm HB.
  intros Hv Hc. unfold mul_add_vec. destruct (mul_add m B (rev v) carry) as [l c0] eqn:E. intros [= <- <-].
  destruct (mul_add_value _ _ _ _ (Forall_rev Hv) Hc E) as (H1 & H2 & H3 & H4). unfold be_value. rewrite rev_involutive.
  unfold zlen in *. rewrite length_rev in *. split; [done|]. split; [by apply Forall_rev|]. by split.
Qed.

(** With room for the result the digits are all taken in and no assertion fails. *)
Lemma process_value ds : forall v, digits_ok m ds -> digits_ok B v -> be_value B v * m ^ zlen ds + be_value m ds < B ^ zlen v ->
  exists v', process m B ds v = Some v' /\ digits_ok B v' /\ length v' = length v /\
    be_value B v' = be_value B v * m ^ zlen ds + be_value m ds.
Proof using Hm HB.
  induction ds as [|d ds IH]; intros v Hds Hv Hfit.
  { exists v. split_and!; try done. change (zlen []) with 0. rewrite Z.pow_0_r. unfold be_value at 3, value. cbn. lia. }
  apply list.Forall_cons in Hds as [Hd Hds]. cbn [process]. destruct (mul_add_vec m B v d) as [v1 c] eqn:E.
  destruct (mul_add_vec_value v d v1 c Hv (proj1 Hd) E) as (H1 & H2 & H3 & H4).
  rewrite zlen_cons, be_value_cons in *. pose proof (zlen_nonneg ds). rewrite Z.pow_add_r, Z.pow_1_r in * by lia.
  assert (Hds0 : 0 <= be_value m ds).
  { unfold be_value. clear -Hds Hm. assert (Hr : digits_ok m (rev ds)) by by apply Forall_rev. induction Hr as [|x l Hx _ IHl]; [done|].
    cbn [value foldr]. fold (value m l). nia. }
  assert (Hp : 0 < m ^ zlen ds) by (apply Z.pow_pos_nonneg; lia). pose proof (be_value_bound B HB _ Hv) as Hb. pose proof (be_value_bound B HB _ H2) as Hb2.
  assert (Hlen : zlen v1 = zlen v) by (unfold zlen; by rewrite H3). rewrite Hlen in *.
  assert (Hc0 : c = 0).
  { assert (B ^ zlen v * c < B ^ zlen v); [|nia]. assert (m * be_value B v + d <= be_value B v * (m * m ^ zlen ds) + (d * m ^ zlen ds + be_value m ds)) by nia. nia. }
  subst c. cbn [Z.eqb]. destruct (IH v1 Hds H2) as (v' & -> & H5 & H6 & H7).
  { rewrite Hlen. assert (be_value B v1 = m * be_value B v + d) as -> by lia. nia. }
  exists v'. split; [done|]. split; [done|]. split; [congruence|]. rewrite H7. assert (be_value B v1 = m * be_value B v + d) as -> by lia. ring.
Qed.

(** Starting from zeros. *)
Lemma process_zeros ds k : digits_ok m ds -> 2 <= m -> m ^ zlen ds <= B ^ Z.of_nat k ->
  exists v, process m B ds (replicate k 0) = Some v /\ digits_ok B v /\ be_value B v = be_value m ds.
Proof using Hm HB.
  intros Hds Hm2 Hfit. assert (Hz : be_value B (replicate k 0) = 0).
  { rewrite <- (app_nil_r (replicate k 0)), be_value_zeros. done. }
  destruct (process_value ds (replicate k 0) Hds) as (v & H1 & H2 & _ & H3).
  - apply Forall_replicate. lia.
  - rewrite Hz. unfold zlen at 2. rewrite length_replicate. pose proof (be_value_bound m Hm2 _ Hds). lia.
  - exists v. split; [done|]. split; [done|]. rewrite H3, Hz. lia.
Qed.
End Loops.

(** *** There is room *)

Lemma room (m B p q : Z) : 2 <= m -> 2 <= B -> 0 < q -> 0 < p -> m ^ q <= B ^ p ->
  (forall r, 0 <= r < q -> m ^ r <= B ^ (r * p / q + 1)) ->
  forall n, 0 <= n -> m ^ n <= B ^ (n * p / q + 1).
Proof.
  intros Hm HB Hq Hp Hbase Hr n Hn. rewrite (Z.div_mod n q) by lia. set (k := n / q). set (r := n mod q).
  assert (Hk : 0 <= k) by (apply Z.div_pos; lia). pose proof (Z.mod_pos_bound n q Hq) as Hr'. fold r in Hr'.
  replace ((q * k + r) * p) with (r * p + (k * p) * q) by ring. rewrite Z.div_add by lia.
  replace (r * p / q + k * p + 1) with (k * p + (r * p / q + 1)) by ring. pose proof (Z.div_pos (r * p) q ltac:(nia) Hq).
  rewrite (Z.pow_add_r m (q * k) r), (Z.pow_add_r B (k * p)) by nia. apply Z.mul_le_mono_nonneg; [apply Z.pow_nonneg; lia| |apply Z.pow_nonneg; lia|by apply Hr].
  rewrite Z.pow_mul_r, (Z.mul_comm k p), Z.pow_mul_r by lia. apply Z.pow_le_mono_l. split; [apply Z.pow_nonneg; lia|done].
Qed.

Lemma check_room (m B p q : Z) : forallb (fun r => m ^ Z.of_nat r <=? B ^ (Z.of_nat r * p / q + 1)) (seq 0 (Z.to_nat q)) = true ->
  forall r, 0 <= r < q -> m ^ r <= B ^ (r * p / q + 1).
Proof.
  intros H r Hr. rewrite forallb_forall in H. specialize (H (Z.to_nat r)). rewrite Z2Nat.id in H by lia. apply Z.leb_le, H, in_seq. lia.
Qed.

Lemma room_encode n : 0 <= n -> 256 ^ n <= 58 ^ (n * 138 / 100 + 1).
Proof. apply room; [lia..|by vm_compute|]. apply check_room. by vm_compute. Qed.

Lemma room_decode n : 0 <= n -> 58 ^ n <= 256 ^ (n * 733 / 1000 + 1).
Proof.
  intros Hn. trans (256 ^ (n * 52 / 71 + 1)).
  - apply room; [lia..|by vm_compute| |done]. apply check_room. by vm_compute.
  - apply Z.pow_le_mono_r; [lia|]. pose proof (Z.div_le_lower_bound (n * 733) 1000 (n * 52 / 71) ltac:(lia)) as H.
    pose proof (Z.mul_div_le (n * 52) 71 ltac:(lia)). pose proof (Z.div_pos (n * 52) 71 ltac:(lia) ltac:(lia)). lia.
Qed.

(** ** Digits and characters *)

Definition alpha (d : Z) : Z := nth (Z.to_nat d) pszBase58 0.

Lemma alpha_ok d : 0 <= d < 58 ->
  strchr pszBase58 (alpha d) = Some d /\ isspace (alpha d) = false /\ alpha d <> 0 /\ (alpha d = 49 -> d = 0) /\ 0 <= alpha d < 256.
Proof.
  intros Hd. assert (H : forallb (fun i => match strchr pszBase58 (alpha (Z.of_nat i)) with Some e => e =? Z.of_nat i | None => false end
    && negb (isspace (alpha (Z.of_nat i))) && negb (alpha (Z.of_nat i) =? 0)
    && (negb (alpha (Z.of_nat i) =? 49) || (Z.of_nat i =? 0)) && (alpha (Z.of_nat i) <? 256) && (0 <=? alpha (Z.of_nat i))) (seq 0 58) = true) by by vm_compute.
  rewrite forallb_forall in H. specialize (H (Z.to_nat d) ltac:(apply in_seq; lia)). rewrite Z2Nat.id in H by lia.
  rewrite !andb_true_iff, orb_true_iff, !negb_true_iff in H. destruct H as (((((H1 & H2) & H3) & H4) & H5) & H6).
  destruct (strchr pszBase58 (alpha d)) as [e|]; [|done]. apply Z.eqb_eq in H1 as ->. split_and!; [done..|lia| |lia|lia].
  intros E. destruct H4 as [H4|H4]; lia.
Qed.

Lemma strchr_spec l c k : strchr l c = Some k -> 0 <= k < zlen l /\ nth (Z.to_nat k) l 0 = c.
Proof.
  revert k. induction l as [|d l IH]; intros k; [done|]. cbn [strchr]. rewrite zlen_cons. pose proof (zlen_nonneg l).
  destruct (Z.eqb_spec d c) as [->|]. { intros [= <-]. split; [lia|done]. }
  destruct (strchr l c) as [k'|]; [|done]. intros [= <-]. destruct (IH k' eq_refl) as [? <-]. split; [lia|].
  rewrite Z2Nat.inj_add by lia. change (Z.to_nat 1) with 1%nat. by rewrite Nat.add_1_r.
Qed.

Lemma strchr_alpha c d : strchr pszBase58 c = Some d -> 0 <= d < 58 /\ alpha d = c.
Proof. apply (strchr_spec pszBase58). Qed.

Lemma digits_of_text ds : digits_ok 58 ds -> read_digits (map alpha ds) = Some (ds, []).
Proof.
  induction 1 as [|d ds Hd _ IH]; [done|]. destruct (alpha_ok d Hd) as (E & Es & _). cbn [map read_digits]. by rewrite Es, E, IH.
Qed.

Lemma text_of_digits s ds rest : read_digits s = Some (ds, rest) ->
  digits_ok 58 ds /\ s = app (map alpha ds) rest /\ match rest with [] => True | c :: _ => isspace c = true end.
Proof.
  revert ds. induction s as [|c s IH]; intros ds; cbn [read_digits]. { intros [= <- <-]. by split; [constructor|]. }
  destruct (isspace c) eqn:Es. { intros [= <- <-]. by split; [constructor|]. }
  destruct (strchr pszBase58 c) as [d|] eqn:Ed; [|done]. destruct (strchr_alpha _ _ Ed) as [Hd Hc].
  destruct (read_digits s) as [[ds1 rest1]|]; [|done]. intros [= <- <-]. destruct (IH ds1 eq_refl) as (H1 & -> & H3).
  split; [by constructor|]. split; [|done]. cbn [map app]. by rewrite Hc.
Qed.

(** The loop is the digits, then the arithmetic; a bad character is met in the middle of it. *)
Lemma decode_loop_digits s : forall b256, digits_ok 256 b256 ->
  be_value 256 b256 * 58 ^ zlen s + 58 ^ zlen s <= 256 ^ zlen b256 ->
  match read_digits s with
  | None => decode_loop s b256 = inl Invalid58
  | Some (ds, rest) => exists v, decode_loop s b256 = inr (v, rest) /\ digits_ok 256 v /\ be_value 256 v = be_value 256 b256 * 58 ^ zlen ds + be_value 58 ds
  end.
Proof.
  induction s as [|c s IH]; intros b Hb Hfit; cbn [read_digits decode_loop].
  { exists b. split; [done|]. split; [done|]. change (zlen []) with 0. change (be_value 58 []) with 0. lia. }
  destruct (isspace c). { exists b. split; [done|]. split; [done|]. change (zlen []) with 0. change (be_value 58 []) with 0. lia. }
  destruct (strchr pszBase58 c) as [d|] eqn:Ed; [|done]. destruct (strchr_alpha _ _ Ed) as [Hd _].
  destruct (mul_add_vec 58 256 b d) as [b1 carry] eqn:E. destruct (mul_add_vec_value 58 256 ltac:(lia) ltac:(lia) b d b1 carry Hb (proj1 Hd) E) as (H1 & H2 & H3 & H4).
  rewrite zlen_cons in Hfit. pose proof (zlen_nonneg s). rewrite Z.pow_add_r, Z.pow_1_r in Hfit by lia.
  assert (Hp : 0 < 58 ^ zlen s) by (apply Z.pow_pos_nonneg; lia). pose proof (be_value_bound 256 ltac:(lia) _ Hb). pose proof (be_value_bound 256 ltac:(lia) _ H2).
  assert (Hlen : zlen b1 = zlen b) by (unfold zlen; by rewrite H3). rewrite Hlen in *.
  assert (Hfit' : (58 * be_value 256 b + d) * 58 ^ zlen s + 58 ^ zlen s <= 256 ^ zlen b) by nia.
  assert (Hc : carry = 0) by nia. subst carry. cbn [Z.eqb]. rewrite Z.mul_0_r, Z.add_0_r in H1.
  specialize (IH b1 H2). rewrite Hlen, H1 in IH. specialize (IH Hfit'). destruct (read_digits s) as [[ds rest]|]; [|done].
  destruct IH as (v & -> & Hv & Ev). exists v. split; [done|]. split; [done|]. rewrite Ev, be_value_cons, zlen_cons. pose proof (zlen_nonneg ds).
  rewrite Z.pow_add_r, Z.pow_1_r by lia. ring.
Qed.

(** *** Numerals without zeros in front *)

Definition no_zero_head (l : list Z) : Prop := match l with [] => True | d :: _ => d <> 0 end.

Lemma numeral_length B l : 2 <= B -> digits_ok B l -> no_zero_head l -> forall n, 0 <= n -> (n < zlen l <-> B ^ n <= be_value B l).
Proof.
  intros HB Hl Hz n Hn. pose proof (be_value_bound B HB l Hl) as Hb. split.
  - intros Hlt. destruct l as [|d l]; [change (zlen []) with 0 in Hlt; lia|]. rewrite zlen_cons in Hlt. rewrite be_value_cons.
    apply list.Forall_cons in Hl as [Hd Hl]. cbn in Hz. pose proof (be_value_bound B HB l Hl). assert (B ^ n <= B ^ zlen l) by (apply Z.pow_le_mono_r; lia). nia.
  - intros Hge. assert (H : B ^ n < B ^ zlen l) by lia. apply Z.pow_lt_mono_r_iff in H; [done|lia|apply zlen_nonneg].
Qed.

Lemma numeral_unique B l l' : 2 <= B -> digits_ok B l -> digits_ok B l' -> no_zero_head l -> no_zero_head l' ->
  be_value B l = be_value B l' -> l = l'.
Proof.
  intros HB Hl Hl' Hz Hz' E. assert (Hlen : length l = length l').
  { pose proof (numeral_length B l HB Hl Hz) as H. pose proof (numeral_length B l' HB Hl' Hz') as H'. rewrite E in H. unfold zlen in *.
    specialize (H' (Z.of_nat (length l))) as H1. specialize (H (Z.of_nat (length l))) as H2.
    specialize (H' (Z.of_nat (length l'))) as H3. specialize (H (Z.of_nat (length l'))) as H4. lia. }
  rewrite <- (rev_involutive l), <- (rev_involutive l'). f_equal. apply (value_inj B HB); [by apply Forall_rev..|by rewrite !length_rev|done].
Qed.

Lemma leading_app x k l : match l with [] => True | y :: _ => y <> x end -> leading x (app (replicate k x) l) = k.
Proof.
  intros Hl. induction k as [|k IH]; cbn [replicate app leading].
  - destruct l as [|y l]; [done|]. cbn. by destruct (Z.eqb_spec y x).
  - rewrite Z.eqb_refl. by f_equal.
Qed.

Lemma drop_zeros_front (x : Z) k (l : list Z) : drop k (app (replicate k x) l) = l.
Proof. apply drop_app_length'. by rewrite length_replicate. Qed.

Lemma leading_split x l : l = app (replicate (leading x l) x) (drop (leading x l) l) /\ match drop (leading x l) l with [] => True | y :: _ => y <> x end.
Proof.
  induction l as [|y l [IH1 IH2]]; [done|]. cbn [leading]. destruct (Z.eqb_spec y x) as [->|]; [|done]. cbn [replicate app drop]. split; [by f_equal|done].
Qed.

(** ** Encoding and decoding are inverse *)

Lemma skip_while_head f s : match s with [] => True | c :: _ => f c = false end -> skip_while f s = s.
Proof. destruct s as [|c s]; [done|]. cbn. by intros ->. Qed.

Lemma c_str_nonzero s : Forall (fun c => c <> 0) s -> c_str s = s.
Proof. induction 1 as [|c s Hc _ IH]; [done|]. cbn [c_str]. destruct (Z.eqb_spec c 0); [done|]. by rewrite IH. Qed.

Lemma encode_spec v : digits_ok 256 v -> exists b,
  EncodeBase58 v = Some (app (replicate (leading 0 v) 49) (map alpha (strip 0 b))) /\ digits_ok 58 b /\ be_value 58 b = be_value 256 (strip 0 v).
Proof.
  intros Hv. unfold EncodeBase58. cbn zeta. change (drop (leading 0 v) v) with (strip 0 v). pose proof (zlen_nonneg (strip 0 v)).
  destruct (process_zeros 256 58 ltac:(lia) ltac:(lia) (strip 0 v) (Z.to_nat (zlen (strip 0 v) * 138 / 100 + 1))) as (b & Eb & H1 & H2).
  - by apply strip_ok.
  - lia.
  - rewrite Z2Nat.id; [by apply room_encode|]. pose proof (Z.div_pos (zlen (strip 0 v) * 138) 100 ltac:(lia) ltac:(lia)). lia.
  - exists b. rewrite Eb. by split.
Qed.

Lemma decode_spec s : let psz := skip_while isspace (c_str s) in let body := drop (leading 49 psz) psz in
  match read_digits body with
  | None => DecodeBase58 s = Invalid58
  | Some (ds, rest) =>
    exists b, digits_ok 256 b /\ be_value 256 b = be_value 58 ds /\
      DecodeBase58 s = match skip_while isspace rest with [] => Decoded58 (app (replicate (leading 49 psz) 0) (strip 0 b)) | _ => Invalid58 end
  end.
Proof.
  intros psz body. unfold DecodeBase58. fold psz. fold body. pose proof (zlen_nonneg body) as Hn. set (k := Z.to_nat (zlen body * 733 / 1000 + 1)).
  assert (Hz : be_value 256 (replicate k 0) = 0) by (rewrite <- (app_nil_r (replicate k 0)), be_value_zeros; done).
  pose proof (decode_loop_digits body (replicate k 0)) as H. rewrite Hz in H. assert (Hk : zlen (replicate k 0) = zlen body * 733 / 1000 + 1).
  { unfold zlen at 1. rewrite length_replicate. unfold k. pose proof (Z.div_pos (zlen body * 733) 1000 ltac:(lia) ltac:(lia)). lia. }
  rewrite Hk in H. specialize (H ltac:(apply Forall_replicate; lia)). pose proof (room_decode (zlen body) Hn).
  specialize (H ltac:(lia)). destruct (read_digits body) as [[ds rest]|]; [|by rewrite H]. destruct H as (b & -> & Hb & Eb). exists b.
  split; [done|]. split; [lia|done].
Qed.

Lemma skip_leading k ds : digits_ok 58 ds -> no_zero_head ds ->
  skip_while isspace (c_str (app (replicate k 49) (map alpha ds))) = app (replicate k 49) (map alpha ds) /\
  leading 49 (app (replicate k 49) (map alpha ds)) = k.
Proof.
  intros Hds Hz. rewrite c_str_nonzero.
  2:{ apply Forall_app. split; [by apply Forall_replicate|]. apply Forall_map. eapply list.Forall_impl; [done|]. intros d Hd. by destruct (alpha_ok d Hd) as (_ & _ & ? & _). }
  split.
  - apply skip_while_head. destruct k; [|done]. destruct Hds as [|d ds Hd _]; [done|]. by destruct (alpha_ok d Hd) as (_ & ? & _).
  - apply leading_app. destruct Hds as [|d ds Hd _]; [done|]. cbn. intros E. destruct (alpha_ok d Hd) as (_ & _ & _ & H & _). by apply Hz, H.
Qed.

Lemma decode_encode v : digits_ok 256 v -> exists s, EncodeBase58 v = Some s /\ DecodeBase58 s = Decoded58 v.
Proof.
  intros Hv. destruct (encode_spec v Hv) as (b & Es & Hb & Eb). eexists. split; [exact Es|].
  pose proof (strip_ok 58 b Hb) as Hsb. destruct (skip_leading (leading 0 v) (strip 0 b) Hsb (strip_nonzero b)) as [E1 E2].
  match goal with |- DecodeBase58 ?s = _ => pose proof (decode_spec s) as H end. cbn zeta in H. rewrite E1, E2, drop_zeros_front, (digits_of_text _ Hsb) in H.
  destruct H as (c & Hc & Ec & ->). cbn [skip_while]. f_equal. rewrite (leading_zeros v) at 2. f_equal.
  apply (numeral_unique 256); [lia|by apply strip_ok..|apply strip_nonzero|apply strip_nonzero|]. by rewrite be_value_strip, Ec, be_value_strip.
Qed.

Lemma encode_decode s v : DecodeBase58 s = Decoded58 v ->
  digits_ok 256 v /\ exists text rest, skip_while isspace (c_str s) = app text rest /\ Forall (fun c => isspace c = true) rest /\ EncodeBase58 v = Some text.
Proof.
  intros E. pose proof (decode_spec s) as H. cbn zeta in H. set (psz := skip_while isspace (c_str s)) in *. destruct (leading_split 49 psz) as [E1 E2].
  set (k := leading 49 psz) in *. set (body := drop k psz) in *. destruct (read_digits body) as [[ds rest]|] eqn:Ed; [|congruence].
  destruct H as (b & Hb & Eb & H). rewrite H in E. destruct (skip_while isspace rest) eqn:Er; [|done]. injection E as <-.
  destruct (text_of_digits _ _ _ Ed) as (Hds & Ebody & _). assert (Hzd : no_zero_head ds).
  { destruct ds as [|d ds]; [done|]. intros ->. rewrite Ebody in E2. by apply E2. }
  assert (Hv : digits_ok 256 (app (replicate k 0) (strip 0 b))) by (apply Forall_app; split; [apply Forall_replicate; lia|by apply strip_ok]).
  split; [done|]. exists (app (replicate k 49) (map alpha ds)), rest. split; [rewrite E1, Ebody; by rewrite (assoc_L app)|].
  split. { clear -Er. induction rest as [|c rest IH]; [done|]. cbn [skip_while] in Er. destruct (isspace c) eqn:Ec; [|done]. constructor; [done|by apply IH]. }
  destruct (encode_spec _ Hv) as (c & -> & Hc & Ec). f_equal. unfold strip in Ec at 1. pose proof (strip_nonzero b) as Hnz.
  rewrite leading_app, drop_zeros_front, be_value_strip in * by (destruct (strip 0 b); done). f_equal. f_equal.
  apply (numeral_unique 58); [lia|by apply strip_ok|done|apply strip_nonzero|done|]. rewrite be_value_strip. congruence.
Qed.

(** ** With a checksum *)

Lemma checked_roundtrip buf0 v : is_bytes v -> exists s, EncodeBase58Check buf0 v = Some s /\ DecodeBase58Check buf0 s = Decoded58 v.
Proof.
  intros Hv. destruct (decode_encode (app v (checksum buf0 v))) as (s & Es & Ed). { apply Forall_app. split; [done|apply le_bytes_is_bytes]. }
  exists s. split; [done|]. unfold DecodeBase58Check. rewrite Ed, length_app. assert (Hc : length (checksum buf0 v) = 4%nat) by apply length_le_bytes.
  rewrite Hc. destruct (Nat.ltb_spec (length v + 4) 4); [lia|]. replace (length v + 4 - 4)%nat with (length v) by lia.
  rewrite take_app_length, drop_app_length. by rewrite bool_decide_true.
Qed.

Lemma DecodeBase58_total s : DecodeBase58 s <> AssertionFailed.
Proof.
  pose proof (decode_spec s) as H. cbn zeta in H. destruct (read_digits _) as [[ds rest]|]; [|by rewrite H].
  destruct H as (b & _ & _ & ->). by destruct (skip_while isspace rest).
Qed.

Lemma DecodeBase58Check_total buf0 s : DecodeBase58Check buf0 s <> AssertionFailed.
Proof.
  unfold DecodeBase58Check. pose proof (DecodeBase58_total s). destruct (DecodeBase58 s); [done..|]. destruct (_ <? _)%nat; [done|]. by destruct (bool_decide _).
Qed.

Lemma checked_decoded buf0 s v : DecodeBase58Check buf0 s = Decoded58 v ->
  is_bytes v /\ DecodeBase58 s = Decoded58 (app v (checksum buf0 v)).
Proof.
  unfold DecodeBase58Check. destruct (DecodeBase58 s) as [| |w] eqn:E; [done..|]. destruct (Nat.ltb_spec (length w) 4); [done|].
  case_bool_decide as Hc; [|done]. intros [= <-]. destruct (encode_decode _ _ E) as [Hw _].
  split; [by apply is_bytes_take|]. f_equal. by rewrite Hc, take_drop.
Qed.

(** A text longer than its bytes: the size of what is decoded. *)
Lemma DecodeBase58_size c s v : DecodeBase58 (c :: s) = Decoded58 v -> c <> 0 -> isspace c = false -> c <> 49 ->
  zlen v <= zlen (c :: s) * 733 / 1000 + 1.
Proof.
  intros H H0 Hs H1. destruct (encode_decode _ _ H) as [Hv (text & rest & Et & _ & Ee)].
  destruct (encode_spec v Hv) as (b & E & Hb & Eb). rewrite E in Ee. injection Ee as <-. pose proof (zlen_nonneg (c_str s)) as Hn.
  cbn [c_str] in Et. destruct (Z.eqb_spec c 0) as [|_]; [done|]. cbn [skip_while] in Et. rewrite Hs in Et.
  destruct (leading 0 v) as [|k] eqn:El. 2:{ cbn in Et. congruence. }
  cbn [replicate app] in Et. assert (Hlen : zlen (strip 0 b) <= zlen (c :: s)).
  { apply (f_equal length) in Et. rewrite length_app, length_map in Et. unfold zlen. cbn [length] in *.
    assert (length (c_str s) <= length s)%nat; [|lia]. clear. induction s as [|d s IH]; [done|]. cbn. destruct (d =? 0); cbn; lia. }
  assert (Hz : strip 0 v = v) by (unfold strip; by rewrite El). destruct (Z.le_gt_cases (zlen v) (zlen (c :: s) * 733 / 1000 + 1)) as [|Hgt]; [done|]. exfalso.
  pose proof (zlen_nonneg (c :: s)). pose proof (strip_nonzero v) as Hnz. rewrite Hz in *. set (n := zlen (c :: s) * 733 / 1000 + 1) in *.
  assert (0 <= n). { unfold n. pose proof (Z.div_pos (zlen (c :: s) * 733) 1000 ltac:(lia) ltac:(lia)). lia. }
  pose proof (proj1 (numeral_length 256 v ltac:(lia) Hv Hnz n ltac:(done)) ltac:(lia)) as Hge.
  pose proof (be_value_bound 58 ltac:(lia) _ (strip_ok 58 b Hb)) as [_ Hlt]. rewrite be_value_strip, Eb in Hlt.
  pose proof (room_decode (zlen (c :: s)) ltac:(done)) as Hroom. fold n in Hroom.
  assert (58 ^ zlen (strip 0 b) <= 58 ^ zlen (c :: s)) by (apply Z.pow_le_mono_r; lia). lia.
Qed.

(** ** Properties *)

(** Base-58 text and byte strings.  EncodeBase58 never fails its
    assertion on bytes, and DecodeBase58 of what it gives is the bytes, the
    zeros in front included; DecodeBase58 fails its assertion on no string.
    Conversely what it accepts is, between spaces and up to a NUL, the text
    EncodeBase58 gives for its result: a byte string has one text.  The same
    holds with the checksum, and what DecodeBase58Check accepts carries it. *)
Theorem base58_roundtrip buf0 :
  (forall v, is_bytes v -> exists s, EncodeBase58 v = Some s /\ DecodeBase58 s = Decoded58 v) /\
  (forall v, is_bytes v -> exists s, EncodeBase58Check buf0 v = Some s /\ DecodeBase58Check buf0 s = Decoded58 v) /\
  (forall s, DecodeBase58 s <> AssertionFailed /\ DecodeBase58Check buf0 s <> AssertionFailed) /\
  (forall s v, DecodeBase58 s = Decoded58 v ->
    exists text rest, skip_while isspace (c_str s) = app text rest /\ Forall (fun c => isspace c = true) rest /\ EncodeBase58 v = Some text) /\
  (forall s v, DecodeBase58Check buf0 s = Decoded58 v -> DecodeBase58 s = Decoded58 (app v (checksum buf0 v))).
Proof.
  split; [exact decode_encode|]. split; [intros v; apply checked_roundtrip|]. split.
  - intros s. split; [apply DecodeBase58_total|apply DecodeBase58Check_total].
  - split; intros s v H; [by apply encode_decode|by apply checked_decoded].
Qed.

(** A vector of the repository's tests: 0x00010966776006953D5567439E5E39F86A0D273BEED61967F6. *)
Lemma base58_vector :
  EncodeBase58 [0x00; 0x01; 0x09; 0x66; 0x77; 0x60; 0x06; 0x95; 0x3D; 0x55; 0x67; 0x43; 0x9E; 0x5E; 0x39; 0xF8; 0x6A; 0x0D; 0x27; 0x3B; 0xEE;
    0xD6; 0x19; 0x67; 0xF6] =
  Some [49; 54; 85; 119; 76; 76; 57; 82; 105; 115; 99; 51; 81; 102; 80; 113; 66; 85; 118; 75; 111; 102; 72; 109; 66; 81; 55; 119; 77; 116; 106; 118; 77].
Proof. by vm_compute. Qed.

Lemma base58_roundtrip_witness : exists s, EncodeBase58 [0; 0; 255; 1] = Some s /\ DecodeBase58 s = Decoded58 [0; 0; 255; 1].
Proof. apply (proj1 (base58_roundtrip (repeat 0 64))). repeat (constructor; [unfold is_u8; lia|]). constructor. Defined.

(** A leading 0 byte and its digit are lost if the count of either is. *)
Lemma base58_zeros : EncodeBase58 [0; 0; 255; 1] = Some [49; 49; 76; 81; 89] /\ DecodeBase58 [32; 49; 49; 76; 81; 89; 10; 9] = Decoded58 [0; 0; 255; 1].
Proof. split; by vm_compute. Qed.
