(* ===== verification/Bech32.v ===== *)
(** * Bech32 text (src/src/bech32.cpp) and the change of base of utilstrencodings.h

    The checksum is the syndrome of a cyclic code over GF(32): a step of
    [PolyMod] is linear over bitwise exclusive or.  Strings are lists of
    character codes. *)
From S2P Require Import Prelude Serialize Transaction Script Base58.
From stdpp Require Import pmap.
From Stdlib Require Sorting.Sorted.
#[local] Open Scope Z_scope.

(** ** bech32.cpp *)

(** qpzry9x8gf2tvdw0s3jn54khce6mua7l *)
Definition CHARSET : bytes :=
  [113; 112; 122; 114; 121; 57; 120; 56; 103; 102; 50; 116; 118; 100; 119; 48; 115; 51; 106; 110; 53; 52; 107; 104; 99;
   101; 54; 109; 117; 97; 55; 108].

Definition CHARSET_REV : list Z := [
    -1; -1; -1; -1; -1; -1; -1; -1; -1; -1; -1; -1; -1; -1; -1; -1;
    -1; -1; -1; -1; -1; -1; -1; -1; -1; -1; -1; -1; -1; -1; -1; -1;
    -1; -1; -1; -1; -1; -1; -1; -1; -1; -1; -1; -1; -1; -1; -1; -1;
    15; -1; 10; 17; 21; 20; 26; 30;  7;  5; -1; -1; -1; -1; -1; -1;
    -1; 29; -1; 24; 13; 25;  9;  8; 23; -1; 18; 22; 31; 27; 19; -1;
     1;  0;  3; 16; 11; 28; 12; 14;  6;  4;  2; -1; -1; -1; -1; -1;
    -1; 29; -1; 24; 13; 25;  9;  8; 23; -1; 18; 22; 31; 27; 19; -1;
     1;  0;  3; 16; 11; 28; 12; 14;  6;  4;  2; -1; -1; -1; -1; -1].

(** The generator times 1, a, a^2, a^3, a^4. *)
Definition xor_if (b : bool) (k c : Z) : Z := if b then Z.lxor c k else c.

Definition polymod_step (c v_i : Z) : Z :=
  let c0 := u8 (Z.shiftr c 25) in
  let c := Z.lxor (u32 (Z.shiftl (Z.land c 0x1ffffff) 5)) v_i in
  let c := xor_if (negb (Z.land c0 1 =? 0)) 0x3b6a57b2 c in
  let c := xor_if (negb (Z.land c0 2 =? 0)) 0x26508e6d c in
  let c := xor_if (negb (Z.land c0 4 =? 0)) 0x1ea119fa c in
  let c := xor_if (negb (Z.land c0 8 =? 0)) 0x3d4233dd c in
  xor_if (negb (Z.land c0 16 =? 0)) 0x2a1462b3 c.

Definition PolyMod (v : bytes) : Z := fold_left polymod_step v 1.

Definition LowerCase (c : Z) : Z := if (65 <=? c) && (c <=? 90) then u8 (c - 65 + 97) else c.

Definition ExpandHRP (hrp : bytes) : bytes :=
  app (map (fun c => Z.shiftr c 5) hrp) (0 :: map (fun c => Z.land c 0x1f) hrp).

Definition VerifyChecksum (hrp values : bytes) : bool := PolyMod (app (ExpandHRP hrp) values) =? 1.

Definition CreateChecksum (hrp values : bytes) : bytes :=
  let enc := app (ExpandHRP hrp) values in
  let enc := app enc (replicate 6 0) in
  let mod_ := Z.lxor (PolyMod enc) 1 in
  map (fun i => Z.land (Z.shiftr mod_ (5 * (5 - Z.of_nat i))) 31) (seq 0 6).

(** The loop over the characters; [None] is the early return of "". *)
Fixpoint encode_chars (combined : bytes) : option bytes :=
  match combined with
  | [] => Some []
  | c :: combined =>
    if 32 <=? c then None
    else ret ← encode_chars combined; Some (nth (Z.to_nat c) CHARSET 0 :: ret)
  end.

Definition Encode (hrp values : bytes) : bytes :=
  let checksum := CreateChecksum hrp values in
  let combined := app values checksum in
  match encode_chars combined with
  | None => []
  | Some chars => app hrp (49 :: chars)
  end.

(** The first loop of [Decode]: [lower] and [upper]; [None] is a character out of range. *)
Fixpoint scan_case (str : bytes) (lower upper : bool) : option (bool * bool) :=
  match str with
  | [] => Some (lower, upper)
  | c :: str =>
    if (c <? 33) || (126 <? c) then None
    else
      let lower := lower || ((97 <=? c) && (c <=? 122)) in
      let upper := upper || ((65 <=? c) && (c <=? 90)) in
      scan_case str lower upper
  end.

(** [str.rfind]: the last occurrence. *)
Fixpoint rfind (str : bytes) (x : Z) : option nat :=
  match str with
  | [] => None
  | c :: str =>
    match rfind str x with
    | Some k => Some (S k)
    | None => if c =? x then Some O else None
    end
  end.

Definition char_rev (c : Z) : Z := if (c <? 33) || (126 <? c) then -1 else nth (Z.to_nat c) CHARSET_REV (-1).

(** The values of the characters, read as [uint8_t]. *)
Fixpoint decode_chars (str : bytes) : option bytes :=
  match str with
  | [] => Some []
  | c :: str =>
    let rev := char_rev c in
    if rev =? -1 then None else values ← decode_chars str; Some (u8 rev :: values)
  end.

(** The pair returned; the failure is the pair of empty strings. *)
Definition Decode (str : bytes) : bytes * bytes :=
  match scan_case str false false with
  | None => ([], [])
  | Some (lower, upper) =>
    if lower && upper then ([], [])
    else
      match rfind str 49 with
      | None => ([], [])
      | Some pos =>
        if (1023 <? zlen str) || (pos =? 0)%nat || (zlen str <? Z.of_nat pos + 7) then ([], [])
        else
          match decode_chars (drop (pos + 1) str) with
          | None => ([], [])
          | Some values =>
            let hrp := map LowerCase (take pos str) in
            if VerifyChecksum hrp values then (hrp, take (length values - 6) values) else ([], [])
          end
      end
  end.

(** ** ConvertBits *)

Section ConvertBits.
Context (frombits tobits : Z) (pad : bool).

(** The inner loop, at most [fuel] groups. *)
Fixpoint emit (fuel : nat) (acc bits : Z) : list Z * Z :=
  match fuel with
  | O => ([], bits)
  | S fuel =>
    if tobits <=? bits then
      let bits := bits - tobits in
      let '(out, bits') := emit fuel acc bits in
      (Z.land (Z.shiftr acc bits) (Z.shiftl 1 tobits - 1) :: out, bits')
    else ([], bits)
  end.

Fixpoint convert_loop (input : bytes) (acc bits : Z) : list Z * Z * Z :=
  match input with
  | [] => ([], acc, bits)
  | i :: input =>
    let acc := Z.land (Z.lor (u64 (Z.shiftl acc frombits)) i) (Z.shiftl 1 (frombits + tobits - 1) - 1) in
    let bits := bits + frombits in
    let '(out1, bits) := emit (Z.to_nat bits) acc bits in
    let '(out2, acc, bits) := convert_loop input acc bits in
    (app out1 out2, acc, bits)
  end.

(** What was given to [outfn], and the result. *)
Definition ConvertBits (input : bytes) : list Z * bool :=
  let maxv := Z.shiftl 1 tobits - 1 in
  let '(out, acc, bits) := convert_loop input 0 0 in
  let last := Z.land (u64 (Z.shiftl acc (tobits - bits))) maxv in
  if pad then (app out (if bits =? 0 then [] else [last]), true)
  else if (frombits <=? bits) || negb (last =? 0) then (out, false)
  else (out, true).
End ConvertBits.

(** ** The step of the checksum is linear *)

(** Multiplication by x. *)
Definition F (c : Z) : Z := polymod_step c 0.

Definition sel (b : bool) (k : Z) : Z := if b then k else 0.

Lemma sel_xorb a b k : sel (xorb a b) k = Z.lxor (sel a k) (sel b k).
Proof. destruct a, b; cbn [xorb sel]; by rewrite ?Z.lxor_nilpotent, ?Z.lxor_0_r, ?Z.lxor_0_l. Qed.

Definition coefs (c : Z) : Z :=
  Z.lxor (sel (Z.testbit c 25) 0x3b6a57b2) (Z.lxor (sel (Z.testbit c 26) 0x26508e6d) (Z.lxor (sel (Z.testbit c 27) 0x1ea119fa)
    (Z.lxor (sel (Z.testbit c 28) 0x3d4233dd) (sel (Z.testbit c 29) 0x2a1462b3)))).

Lemma land_pow2_bit c k n : 0 <= n < 8 -> k = 2 ^ n -> negb (Z.land (u8 (Z.shiftr c 25)) k =? 0) = Z.testbit c (25 + n).
Proof.
  intros Hn ->. transitivity (Z.testbit (u8 (Z.shiftr c 25)) n).
  - set (x := u8 (Z.shiftr c 25)). destruct (Z.testbit x n) eqn:E.
    + apply negb_true_iff, Z.eqb_neq. intros H0. apply (f_equal (fun z => Z.testbit z n)) in H0.
      rewrite Z.land_spec, E, Z.pow2_bits_true, Z.bits_0 in H0 by lia. done.
    + apply negb_false_iff, Z.eqb_eq. apply Z.bits_inj'. intros m Hm. rewrite Z.land_spec, Z.bits_0.
      destruct (Z.eq_dec m n) as [->|]; [by rewrite E|]. rewrite Z.pow2_bits_false by done. apply andb_false_r.
  - unfold u8. change 256 with (2 ^ 8). rewrite Z.mod_pow2_bits_low, Z.shiftr_spec by lia. f_equal. lia.
Qed.

Lemma u32_low c : u32 (Z.shiftl (Z.land c 0x1ffffff) 5) = Z.shiftl (Z.land c 0x1ffffff) 5.
Proof.
  change 0x1ffffff with (Z.ones 25). rewrite Z.land_ones, Z.shiftl_mul_pow2 by lia. apply Z.mod_small.
  pose proof (Z.mod_pos_bound c (2 ^ 25) ltac:(lia)). lia.
Qed.

Lemma step_split c v : polymod_step c v = Z.lxor (Z.lxor (Z.shiftl (Z.land c 0x1ffffff) 5) v) (coefs c).
Proof.
  unfold polymod_step, coefs. rewrite u32_low. cbn zeta. set (w := Z.lxor _ v).
  rewrite (land_pow2_bit c 1 0), (land_pow2_bit c 2 1), (land_pow2_bit c 4 2), (land_pow2_bit c 8 3), (land_pow2_bit c 16 4) by (lia || done). cbn [Z.add Pos.add Pos.succ].
  change (25 + 0) with 25. change (25 + 1) with 26. change (25 + 2) with 27. change (25 + 3) with 28. change (25 + 4) with 29.
  destruct (Z.testbit c 25), (Z.testbit c 26), (Z.testbit c 27), (Z.testbit c 28), (Z.testbit c 29); cbn [xor_if sel];
    rewrite ?Z.lxor_0_r, ?Z.lxor_0_l, ?Z.lxor_assoc; done.
Qed.

Lemma lxor_swap a b c d : Z.lxor (Z.lxor a b) (Z.lxor c d) = Z.lxor (Z.lxor a c) (Z.lxor b d).
Proof. apply Z.bits_inj'. intros n Hn. rewrite !Z.lxor_spec. by destruct (Z.testbit a n), (Z.testbit b n), (Z.testbit c n), (Z.testbit d n). Qed.

Lemma coefs_lxor a b : coefs (Z.lxor a b) = Z.lxor (coefs a) (coefs b).
Proof.
  unfold coefs. rewrite !Z.lxor_spec, !sel_xorb. symmetry. do 4 (rewrite lxor_swap; f_equal).
Qed.

Lemma low_lxor a b : Z.shiftl (Z.land (Z.lxor a b) 0x1ffffff) 5 = Z.lxor (Z.shiftl (Z.land a 0x1ffffff) 5) (Z.shiftl (Z.land b 0x1ffffff) 5).
Proof.
  rewrite <- Z.shiftl_lxor. f_equal. apply Z.bits_inj'. intros n Hn. rewrite !Z.lxor_spec, !Z.land_spec, !Z.lxor_spec.
  by destruct (Z.testbit a n), (Z.testbit b n), (Z.testbit _ n).
Qed.

Lemma step_lxor a b v w : polymod_step (Z.lxor a b) (Z.lxor v w) = Z.lxor (polymod_step a v) (polymod_step b w).
Proof. rewrite !step_split, coefs_lxor, low_lxor. rewrite (lxor_swap _ _ v w). by rewrite lxor_swap. Qed.

Lemma F_lxor a b : F (Z.lxor a b) = Z.lxor (F a) (F b).
Proof. unfold F. rewrite <- step_lxor. by rewrite Z.lxor_0_r. Qed.

Lemma step_F c v : polymod_step c v = Z.lxor (F c) v.
Proof. unfold F. rewrite !step_split. rewrite Z.lxor_0_r, !Z.lxor_assoc. f_equal. apply Z.lxor_comm. Qed.

Definition state_ok (c : Z) : Prop := 0 <= c < 2 ^ 30.

Lemma lxor_state a b n : 0 <= n -> 0 <= a < 2 ^ n -> 0 <= b < 2 ^ n -> 0 <= Z.lxor a b < 2 ^ n.
Proof.
  intros Hn [Ha1 Ha] [Hb1 Hb]. assert (Hnn : 0 <= Z.lxor a b) by (apply Z.lxor_nonneg; lia). split; [done|].
  assert (H : Z.lxor a b = Z.lxor a b mod 2 ^ n); [|rewrite H; apply Z.mod_pos_bound; lia].
  apply Z.bits_inj'. intros m Hm. destruct (Z.lt_ge_cases m n).
  - by rewrite Z.mod_pow2_bits_low.
  - rewrite Z.mod_pow2_bits_high by lia. rewrite Z.lxor_spec, <- (Z.mod_small a (2 ^ n)), <- (Z.mod_small b (2 ^ n)), !Z.mod_pow2_bits_high by lia. done.
Qed.

Lemma sel_state b k : state_ok k -> state_ok (sel b k).
Proof. destruct b; [done|]. intros _. unfold state_ok, sel. lia. Qed.

Lemma F_state c : state_ok (F c).
Proof.
  unfold F. rewrite step_split, Z.lxor_0_r. apply lxor_state; [lia| |].
  - change 0x1ffffff with (Z.ones 25). rewrite Z.land_ones, Z.shiftl_mul_pow2 by lia. pose proof (Z.mod_pos_bound c (2 ^ 25) ltac:(lia)). lia.
  - unfold coefs. repeat (apply lxor_state; [lia|apply sel_state; unfold state_ok; lia|]). apply sel_state; unfold state_ok; lia.
Qed.

Lemma step_state c v : 0 <= v < 2 ^ 30 -> state_ok (polymod_step c v).
Proof. intros Hv. rewrite step_F. apply lxor_state; [lia|apply F_state|done]. Qed.

Definition groups_ok (l : bytes) : Prop := Forall (fun v => 0 <= v < 32) l.

Lemma fold_state l c : state_ok c -> Forall (fun v => 0 <= v < 2 ^ 30) l -> state_ok (fold_left polymod_step l c).
Proof. intros Hc Hl. revert c Hc. induction Hl as [|v l Hv _ IH]; intros c Hc; [done|]. cbn [fold_left]. by apply IH, step_state. Qed.

Lemma groups_wide l : groups_ok l -> Forall (fun v => 0 <= v < 2 ^ 30) l.
Proof. intros H. eapply list.Forall_impl; [exact H|]. cbn. lia. Qed.

(** Below 2^25 the step shifts. *)
Lemma F_small c : 0 <= c < 2 ^ 25 -> F c = 32 * c.
Proof.
  intros Hc. unfold F. rewrite step_split, Z.lxor_0_r. change 0x1ffffff with (Z.ones 25). rewrite Z.land_ones, Z.mod_small, Z.shiftl_mul_pow2 by lia.
  assert (coefs c = 0) as ->; [|rewrite Z.lxor_0_r; lia]. unfold coefs. rewrite <- (Z.mod_small c (2 ^ 25)) by lia.
  rewrite !Z.mod_pow2_bits_high by lia. done.
Qed.

(** ** The syndrome of a list of groups *)

Definition Fn (n : nat) (c : Z) : Z := Nat.iter n F c.

Lemma Fn_lxor n a b : Fn n (Z.lxor a b) = Z.lxor (Fn n a) (Fn n b).
Proof. unfold Fn. induction n as [|n IH]; [done|]. cbn [Nat.iter nat_rect]. unfold Nat.iter in IH. by rewrite IH, F_lxor. Qed.

Lemma Fn_add n m c : Fn (n + m) c = Fn n (Fn m c).
Proof. unfold Fn. by rewrite Nat.iter_add. Qed.

Lemma Fn_state n c : state_ok c -> state_ok (Fn n c).
Proof. intros Hc. destruct n as [|n]; [done|]. cbn. apply F_state. Qed.

Definition syndrome (l : bytes) : Z := fold_left polymod_step l 0.

Lemma fold_syndrome l c : fold_left polymod_step l c = Z.lxor (Fn (length l) c) (syndrome l).
Proof.
  revert c. unfold syndrome. induction l as [|v l IH] using rev_ind; intros c; [cbn; by rewrite Z.lxor_0_r|].
  rewrite !fold_left_app. cbn [fold_left]. rewrite IH, length_app, (Nat.add_comm (length l)), Fn_add. cbn [length Fn Nat.iter nat_rect].
  rewrite !step_F, F_lxor. by rewrite Z.lxor_assoc.
Qed.

Lemma syndrome_cons v l : syndrome (v :: l) = Z.lxor (Fn (length l) v) (syndrome l).
Proof. unfold syndrome at 1. cbn [fold_left]. rewrite fold_syndrome. f_equal. Qed.

Fixpoint lxor_list (l m : bytes) : bytes :=
  match l, m with a :: l, b :: m => Z.lxor a b :: lxor_list l m | _, _ => [] end.

Lemma length_lxor_list l : forall m, length l = length m -> length (lxor_list l m) = length l.
Proof. induction l as [|a l IH]; intros [|b m] H; try done. cbn. by rewrite IH by (by injection H). Qed.

Lemma syndrome_lxor l : forall m, length l = length m -> syndrome (lxor_list l m) = Z.lxor (syndrome l) (syndrome m).
Proof.
  induction l as [|a l IH]; intros [|b m] H; try done. injection H as H. cbn [lxor_list]. rewrite !syndrome_cons, IH, length_lxor_list, Fn_lxor by done.
  rewrite <- H. apply lxor_swap.
Qed.

Lemma PolyMod_app l m : PolyMod (app l m) = Z.lxor (Fn (length m) (PolyMod l)) (syndrome m).
Proof. unfold PolyMod. by rewrite fold_left_app, fold_syndrome. Qed.

(** Six groups from zero are packed. *)
Lemma syndrome_six a b c d e f : groups_ok [a; b; c; d; e; f] ->
  syndrome [a; b; c; d; e; f] = ((((a * 32 + b) * 32 + c) * 32 + d) * 32 + e) * 32 + f.
Proof.
  intros H. repeat (apply list.Forall_cons in H as [? H]). unfold syndrome. cbn [fold_left].
  assert (Hs : forall x v, 0 <= x < 2 ^ 25 -> 0 <= v < 32 -> polymod_step x v = x * 32 + v).
  { intros x v Hx Hv. rewrite step_F, F_small by done. replace (32 * x) with (Z.shiftl x 5) by (rewrite Z.shiftl_mul_pow2; lia).
    rewrite <- Z.add_nocarry_lxor; [rewrite Z.shiftl_mul_pow2; lia|]. apply Z.bits_inj'. intros n Hn. rewrite Z.land_spec, Z.bits_0.
    destruct (Z.lt_ge_cases n 5); [by rewrite Z.shiftl_spec_low|]. rewrite <- (Z.mod_small v (2 ^ 5)), Z.mod_pow2_bits_high by lia. apply andb_false_r. }
  rewrite (Hs 0 a), Z.add_0_l by lia. rewrite (Hs _ b) by lia. rewrite (Hs _ c) by lia. rewrite (Hs _ d) by lia. rewrite (Hs _ e) by lia. rewrite (Hs _ f) by lia. done.
Qed.

Definition six_groups (m : Z) : bytes := map (fun i => Z.land (Z.shiftr m (5 * (5 - Z.of_nat i))) 31) (seq 0 6).

Lemma six_groups_ok m : groups_ok (six_groups m).
Proof.
  apply Forall_map, Forall_forall. intros i _. cbn. change 31 with (Z.ones 5). rewrite Z.land_ones by lia. apply Z.mod_pos_bound. lia.
Qed.

Lemma syndrome_six_groups m : state_ok m -> syndrome (six_groups m) = m.
Proof.
  intros Hm. pose proof (six_groups_ok m) as H. unfold six_groups in *. cbn [seq map] in *. rewrite (syndrome_six _ _ _ _ _ _ H). clear H.
  change 31 with (Z.ones 5). rewrite !Z.land_ones, !Z.shiftr_div_pow2 by lia. unfold state_ok in Hm.
  change (5 * (5 - Z.of_nat 0)) with 25. change (5 * (5 - Z.of_nat 1)) with 20. change (5 * (5 - Z.of_nat 2)) with 15. change (5 * (5 - Z.of_nat 3)) with 10. change (5 * (5 - Z.of_nat 4)) with 5. change (5 * (5 - Z.of_nat 5)) with 0.
  change (2 ^ 0) with 1. change (2 ^ 5) with 32. rewrite Z.div_1_r.
  replace (2 ^ 25) with (2 ^ 20 * 32) by lia. replace (2 ^ 20) with (2 ^ 15 * 32) by lia. replace (2 ^ 15) with (2 ^ 10 * 32) by lia. replace (2 ^ 10) with (32 * 32) by lia.
  rewrite <- !Z.div_div by lia.
  assert (H5 : 0 <= m / 32 / 32 / 32 / 32 / 32 < 32) by (rewrite !Z.div_div by lia; split; [apply Z.div_pos; lia|apply Z.div_lt_upper_bound; lia]).
  rewrite (Z.mod_small (m / 32 / 32 / 32 / 32 / 32)) by done. clear H5.
  assert (Hd : forall x, x / 32 * 32 + x mod 32 = x) by (intros x; pose proof (Z.div_mod x 32 ltac:(lia)); lia). by rewrite !Hd.
Qed.

(** The checksum created is the one accepted. *)
Lemma checksum_verifies hrp values : VerifyChecksum hrp (app values (CreateChecksum hrp values)) = true.
Proof.
  unfold VerifyChecksum. apply Z.eqb_eq. rewrite app_assoc. set (enc := app (ExpandHRP hrp) values).
  assert (Hc : CreateChecksum hrp values = six_groups (Z.lxor (PolyMod (app enc (replicate 6 0))) 1)) by done.
  rewrite Hc. rewrite PolyMod_app. change (length (six_groups _)) with 6%nat.
  assert (Hz : PolyMod (app enc (replicate 6 0)) = Fn 6 (PolyMod enc)).
  { rewrite PolyMod_app, length_replicate. change (syndrome (replicate 6 0)) with 0. by rewrite Z.lxor_0_r. }
  rewrite Hz. set (s := Fn 6 (PolyMod enc)). assert (Hs : state_ok s) by (unfold s; cbn; apply F_state).
  rewrite syndrome_six_groups; [|apply lxor_state; [lia|done|lia]]. by rewrite <- Z.lxor_assoc, Z.lxor_nilpotent, Z.lxor_0_l.
Qed.

(** And the only one. *)
Lemma checksum_unique hrp values check : groups_ok check -> length check = 6%nat ->
  VerifyChecksum hrp (app values check) = true -> check = CreateChecksum hrp values.
Proof.
  intros Hg Hl Hv. pose proof (checksum_verifies hrp values) as Hc. unfold VerifyChecksum in *. apply Z.eqb_eq in Hv, Hc. rewrite app_assoc, PolyMod_app in Hv, Hc.
  assert (Hl' : length (CreateChecksum hrp values) = 6%nat) by done. rewrite Hl in Hv. rewrite Hl' in Hc. rewrite <- Hc in Hv.
  set (w := CreateChecksum hrp values) in *. assert (Hw : groups_ok w) by apply six_groups_ok. clearbody w.
  assert (E : syndrome check = syndrome w).
  { apply (f_equal (Z.lxor (Fn 6 (PolyMod (app (ExpandHRP hrp) values))))) in Hv. rewrite <- !Z.lxor_assoc, !Z.lxor_nilpotent, !Z.lxor_0_l in Hv. done. }
  destruct check as [|a [|b [|c [|d [|e [|f [|]]]]]]]; try done. destruct w as [|a' [|b' [|c' [|d' [|e' [|f' [|]]]]]]]; try done.
  rewrite !syndrome_six in E by done. unfold groups_ok in *. repeat match goal with H : Forall _ (_ :: _) |- _ => apply list.Forall_cons in H as [? H] end.
  repeat f_equal; lia.
Qed.

(** ** The distance of the code *)

Lemma F_zero c : state_ok c -> F c = 0 -> c = 0.
Proof.
  intros Hc E. unfold state_ok in Hc. set (h := c / 2 ^ 25). assert (Hh : 0 <= h < 32) by (unfold h; split; [apply Z.div_pos; lia|apply Z.div_lt_upper_bound; lia]).
  assert (Ec : coefs c = coefs (Z.shiftl h 25)).
  { unfold coefs. rewrite !Z.shiftl_spec by lia. unfold h. rewrite !Z.div_pow2_bits by lia. done. }
  assert (H0 : h = 0).
  { assert (El : coefs c mod 2 ^ 5 = 0).
    { unfold F in E. rewrite step_split, Z.lxor_0_r in E. apply Z.lxor_eq in E. rewrite <- E, Z.shiftl_mul_pow2 by lia. by rewrite Z.mod_mul by lia. }
    rewrite Ec in El. assert (Hall : forallb (fun i => (Z.of_nat i =? 0) || negb (coefs (Z.shiftl (Z.of_nat i) 25) mod 2 ^ 5 =? 0)) (seq 0 32) = true) by by vm_compute.
    rewrite forallb_forall in Hall. specialize (Hall (Z.to_nat h) ltac:(apply in_seq; lia)). rewrite Z2Nat.id, El in Hall by lia. cbn in Hall. lia. }
  assert (c < 2 ^ 25) by (unfold h in H0; apply Z.div_small_iff in H0; lia). rewrite F_small in E by lia. lia.
Qed.

Lemma Fn_zero n c : state_ok c -> Fn n c = 0 -> c = 0.
Proof. intros Hc. induction n as [|n IH]; [done|]. cbn. intros E. apply IH, F_zero; [by apply Fn_state|exact E]. Qed.

(** The high 25 bits of the multiples of x^n by one symbol, computed one from another. *)
Fixpoint orbit (k : nat) (c : Z) : list Z :=
  match k with O => [] | S k => let c := F c in Z.shiftr c 5 :: orbit k c end.

Lemma orbit_spec k : forall c, orbit k c = map (fun n => Z.shiftr (Fn n c) 5) (seq 1 k).
Proof.
  induction k as [|k IH]; intros c; [done|]. cbn [orbit seq map]. f_equal. rewrite IH, <- (seq_shift k 1), map_map. apply map_ext. intros n.
  change (S n) with (1 + n)%nat. by rewrite Nat.add_comm, Fn_add.
Qed.

Definition symbols : list Z := map Z.of_nat (seq 1 31).
Definition high (p : Z * nat) : Z := Z.shiftr (Fn (snd p) (fst p)) 5.

Lemma orbits_spec k : flat_map (orbit k) symbols = map high (list_prod symbols (seq 1 k)).
Proof.
  generalize symbols. intros l. induction l as [|a l IH]; [done|]. cbn [flat_map list_prod]. rewrite map_app, IH, map_map. f_equal. apply orbit_spec.
Qed.

(** Distinct and not 0. *)
Fixpoint all_new (l : list Z) (seen : Pmap unit) : bool :=
  match l with
  | [] => true
  | x :: l => (0 <? x) && match seen !! Z.to_pos x with Some _ => false | None => all_new l (<[Z.to_pos x:=tt]> seen) end
  end.

Lemma all_new_spec l : forall seen, all_new l seen = true ->
  base.NoDup l /\ Forall (fun x => 0 < x /\ seen !! Z.to_pos x = None) l.
Proof.
  induction l as [|x l IH]; intros seen; cbn [all_new]. { by split; constructor. }
  rewrite andb_true_iff. intros [Hx H]. destruct (seen !! Z.to_pos x) eqn:E; [done|]. destruct (IH _ H) as [H1 H2]. apply Z.ltb_lt in Hx.
  rewrite list.Forall_forall in H2. split.
  - constructor; [|done]. intros Hin. destruct (H2 _ Hin) as [_ Hn]. by rewrite lookup_insert_eq in Hn.
  - constructor; [done|]. apply list.Forall_forall. intros y Hy. destruct (H2 _ Hy) as [Hpos Hn]. split; [done|].
    destruct (decide (Z.to_pos x = Z.to_pos y)) as [Hxy|]; [by rewrite Hxy, lookup_insert_eq in Hn|by rewrite lookup_insert_ne in Hn].
Qed.

Lemma code_table : all_new (flat_map (orbit 1022) symbols) ∅ = true.
Proof. vm_cast_no_check (@eq_refl bool true). Qed.

Lemma high_inj a n b m : 0 < a < 32 -> (1 <= n <= 1022)%nat -> 0 < b < 32 -> (1 <= m <= 1022)%nat -> high (a, n) = high (b, m) -> (a, n) = (b, m).
Proof.
  intros Ha Hn Hb Hm E. destruct (all_new_spec _ _ code_table) as [H _]. rewrite orbits_spec in H.
  assert (Hin : forall x k, 0 < x < 32 -> (1 <= k <= 1022)%nat -> (x, k) ∈ list_prod symbols (seq 1 1022)).
  { intros x k Hx Hk. apply list_elem_of_In, in_prod; [|apply in_seq; lia]. apply in_map_iff. exists (Z.to_nat x). rewrite in_seq. lia. }
  pose proof (Hin a n Ha Hn) as H1. pose proof (Hin b m Hb Hm) as H2. clear -H H1 H2 E. revert H. generalize dependent (list_prod symbols (seq 1 1022)).
  intros l. induction l as [|p l IH]; intros H1 H2 H; [by apply not_elem_of_nil in H1|]. apply NoDup_cons in H as [Hp H].
  assert (Hmap : forall q, q ∈ l -> high q ∈ map high l) by (intros q Hq; apply list_elem_of_In, in_map, list_elem_of_In, Hq).
  apply elem_of_cons in H1 as [<-|H1], H2 as [<-|H2]; [done| | |by apply IH].
  - rewrite E in Hp. by destruct Hp; apply Hmap.
  - rewrite <- E in Hp. by destruct Hp; apply Hmap.
Qed.

Lemma high_pos a n : 0 < a < 32 -> (1 <= n <= 1022)%nat -> 0 < high (a, n).
Proof.
  intros Ha Hn. destruct (all_new_spec _ _ code_table) as [_ H]. rewrite orbits_spec, list.Forall_forall in H. apply H.
  apply list_elem_of_In, in_map_iff. exists (a, n). split; [done|]. apply in_prod; [|apply in_seq; lia]. apply in_map_iff. exists (Z.to_nat a). rewrite in_seq. lia.
Qed.

(** The nonzero groups with the power of x each stands for, the highest first. *)
Fixpoint support (l : bytes) : list (Z * nat) :=
  match l with [] => [] | v :: l => if v =? 0 then support l else (v, length l) :: support l end.

Lemma syndrome_support l : syndrome l = foldr (fun p acc => Z.lxor (Fn (snd p) (fst p)) acc) 0 (support l).
Proof.
  induction l as [|v l IH]; [done|]. rewrite syndrome_cons, IH. cbn [support]. destruct (Z.eqb_spec v 0) as [->|]; [|done].
  assert (Hz : Fn (length l) 0 = 0) by (clear; induction (length l) as [|n IHn]; [done|]; cbn; unfold Fn, Nat.iter in IHn; by rewrite IHn).
  by rewrite Hz, Z.lxor_0_l.
Qed.

Lemma support_ok l : groups_ok l ->
  Forall (fun p => 0 < fst p < 32 /\ (snd p < length l)%nat) (support l) /\ Sorting.Sorted.StronglySorted (fun p q => (snd q < snd p)%nat) (support l).
Proof.
  induction 1 as [|v l Hv _ [IH1 IH2]]; [by split; constructor|]. cbn [support length].
  assert (Hw : Forall (fun p => 0 < fst p < 32 /\ (snd p < S (length l))%nat) (support l)) by (eapply list.Forall_impl; [exact IH1|]; cbn; lia).
  destruct (Z.eqb_spec v 0); [by split|]. split.
  - constructor; [cbn; lia|done].
  - constructor; [done|]. eapply list.Forall_impl; [exact IH1|]. cbn. lia.
Qed.

Lemma support_nil l : support l = [] -> Forall (fun v => v = 0) l.
Proof. induction l as [|v l IH]; [constructor|]. cbn [support]. destruct (Z.eqb_spec v 0); [|done]. intros H. constructor; [done|by apply IH]. Qed.

Lemma symbol_state a : 0 < a < 32 -> state_ok a.
Proof. unfold state_ok. lia. Qed.

(** A pair of powers at distance [d] brought down to the lower one. *)
Lemma Fn_down n m a : (m < n)%nat -> Fn n a = Fn m (Fn (n - m) a).
Proof. intros H. rewrite <- Fn_add. f_equal. lia. Qed.

Lemma low_high x : 0 <= x < 32 -> Z.shiftr x 5 = 0.
Proof. intros H. rewrite Z.shiftr_div_pow2 by lia. apply Z.div_small. lia. Qed.

Lemma distance l : groups_ok l -> (length l <= 1023)%nat -> (length (support l) <= 3)%nat -> syndrome l = 0 -> support l = [].
Proof.
  intros Hl Hlen Hs. rewrite syndrome_support. destruct (support_ok l Hl) as [H Hso]. set (N := length l) in *.
  destruct (support l) as [|[a i] [|[b j] [|[c k] [|]]]]; [done| | | |cbn in Hs; lia]; intros E; exfalso; cbn [foldr fst snd] in E; rewrite Z.lxor_0_r in E;
    repeat (apply list.Forall_cons in H as [? H]); cbn [fst snd] in *; destruct_and?.
  - apply Fn_zero in E; [lia|by apply symbol_state].
  - inversion Hso as [|? ? _ Hf]; subst. apply list.Forall_cons in Hf as [Hij _]. cbn in Hij. rewrite (Fn_down i j), <- Fn_lxor in E by done.
    apply Fn_zero in E; [|apply lxor_state; [lia|apply Fn_state, symbol_state; done|by apply symbol_state]]. apply Z.lxor_eq in E.
    pose proof (high_pos a (i - j) ltac:(done) ltac:(lia)) as Hp. unfold high in Hp. cbn [fst snd] in Hp. rewrite E, low_high in Hp by lia. lia.
  - inversion Hso as [|? ? Hso2 Hf]; subst. apply list.Forall_cons in Hf as [Hij Hf]. apply list.Forall_cons in Hf as [Hik _]. cbn in Hij, Hik.
    inversion Hso2 as [|? ? _ Hf]; subst. apply list.Forall_cons in Hf as [Hjk _]. cbn in Hjk.
    rewrite (Fn_down i k), (Fn_down j k), <- !Fn_lxor in E by done.
    apply Fn_zero in E.
    2:{ apply lxor_state; [lia|apply Fn_state, symbol_state; done|]. apply lxor_state; [lia|apply Fn_state, symbol_state; done|by apply symbol_state]. }
    rewrite <- Z.lxor_assoc in E. apply Z.lxor_eq in E. apply (f_equal (fun z => Z.shiftr z 5)) in E. cbv beta in E. rewrite Z.shiftr_lxor, (low_high c) in E by lia.
    apply Z.lxor_eq in E. pose proof (high_inj a (i - k) b (j - k) ltac:(done) ltac:(lia) ltac:(done) ltac:(lia) E) as Heq. injection Heq as _ Hd. lia.
Qed.

(** Where two lists differ. *)
Fixpoint mismatches (l m : bytes) : nat :=
  match l, m with a :: l, b :: m => ((if Z.eqb a b then 0 else 1) + mismatches l m)%nat | _, _ => 0%nat end.

Lemma support_lxor l : forall m, length l = length m -> length (support (lxor_list l m)) = mismatches l m.
Proof.
  induction l as [|a l IH]; intros [|b m] H; try done. injection H as H. cbn [lxor_list support mismatches]. rewrite <- (IH m H).
  destruct (Z.eqb_spec a b) as [->|Hab]; [by rewrite Z.lxor_nilpotent|]. destruct (Z.eqb_spec (Z.lxor a b) 0) as [E|]; [|done].
  by apply Z.lxor_eq in E.
Qed.

Lemma lxor_groups l : forall m, groups_ok l -> groups_ok m -> groups_ok (lxor_list l m).
Proof.
  induction l as [|a l IH]; intros [|b m] Hl Hm; cbn [lxor_list]; try by constructor. apply list.Forall_cons in Hl as [? ?], Hm as [? ?].
  constructor; [apply (lxor_state a b 5); lia|by apply IH].
Qed.

Lemma mismatches_zero l : forall m, length l = length m -> mismatches l m = 0%nat -> l = m.
Proof. induction l as [|a l IH]; intros [|b m] H; try done. injection H as H. cbn [mismatches]. destruct (Z.eqb_spec a b) as [->|]; [|lia]. intros E. f_equal. by apply IH. Qed.

Lemma checksum_distance hrp l m : groups_ok l -> groups_ok m -> length l = length m -> (length l <= 1023)%nat ->
  VerifyChecksum hrp l = true -> VerifyChecksum hrp m = true -> l <> m -> (4 <= mismatches l m)%nat.
Proof.
  intros Hl Hm Hlen Hmax Vl Vm Hne. unfold VerifyChecksum in *. apply Z.eqb_eq in Vl, Vm. rewrite PolyMod_app in Vl, Vm. rewrite Hlen in Vl.
  assert (E : syndrome (lxor_list l m) = 0).
  { rewrite syndrome_lxor by done. apply Z.lxor_eq_0_iff. apply (f_equal (Z.lxor (Fn (length m) (PolyMod (ExpandHRP hrp))))) in Vl, Vm.
    rewrite <- Z.lxor_assoc, Z.lxor_nilpotent, Z.lxor_0_l in Vl, Vm. congruence. }
  destruct (decide (4 <= mismatches l m)%nat) as [|Hlt]; [done|]. exfalso. apply Hne, mismatches_zero; [done|]. rewrite <- support_lxor by done.
  rewrite (distance (lxor_list l m)); [done|by apply lxor_groups|by rewrite length_lxor_list|rewrite support_lxor by done; lia|done].
Qed.

(** ** Characters *)

Lemma charset_ok v : 0 <= v < 32 -> let c := nth (Z.to_nat v) CHARSET 0 in
  char_rev c = v /\ 33 <= c <= 126 /\ c <> 49 /\ ~ (65 <= c <= 90).
Proof.
  intros Hv c. assert (H : forallb (fun i => let c := nth i CHARSET 0 in (char_rev c =? Z.of_nat i) && (33 <=? c) && (c <=? 126) && negb (c =? 49) && negb ((65 <=? c) && (c <=? 90))) (seq 0 32) = true) by by vm_compute.
  rewrite forallb_forall in H. specialize (H (Z.to_nat v) ltac:(apply in_seq; lia)). fold c in H. cbv zeta in H. fold c in H.
  rewrite Z2Nat.id, !andb_true_iff, !negb_true_iff in H by lia. destruct H as ((((H1 & H2) & H3) & H4) & H5). apply Z.eqb_eq in H1. lia.
Qed.

Lemma char_rev_ok c : char_rev c <> -1 -> 0 <= char_rev c < 32 /\ nth (Z.to_nat (char_rev c)) CHARSET 0 = LowerCase c.
Proof.
  unfold char_rev. destruct ((c <? 33) || (126 <? c)) eqn:E; [done|]. rewrite orb_false_iff in E.
  assert (H : forallb (fun i => let r := nth i CHARSET_REV (-1) in (r =? -1) || ((0 <=? r) && (r <? 32) && (nth (Z.to_nat r) CHARSET 0 =? LowerCase (Z.of_nat i)))) (seq 0 128) = true) by by vm_compute.
  rewrite forallb_forall in H. specialize (H (Z.to_nat c) ltac:(apply in_seq; lia)). cbv zeta in H. intros Hne.
  rewrite Z2Nat.id, orb_true_iff, !andb_true_iff in H by lia. destruct H as [H|((H1 & H2) & H3)]; [apply Z.eqb_eq in H; lia|].
  apply Z.eqb_eq in H3. lia.
Qed.

Lemma encode_chars_ok l : groups_ok l -> encode_chars l = Some (map (fun v => nth (Z.to_nat v) CHARSET 0) l).
Proof. induction 1 as [|v l Hv _ IH]; [done|]. cbn [encode_chars map]. destruct (Z.leb_spec 32 v); [lia|]. by rewrite IH. Qed.

Lemma decode_chars_map l : groups_ok l -> decode_chars (map (fun v => nth (Z.to_nat v) CHARSET 0) l) = Some l.
Proof.
  induction 1 as [|v l Hv _ IH]; [done|]. cbn [decode_chars map]. destruct (charset_ok v Hv) as (-> & _). destruct (Z.eqb_spec v (-1)); [lia|].
  rewrite IH. cbn. unfold u8. by rewrite Z.mod_small by lia.
Qed.

Lemma decode_chars_spec s l : decode_chars s = Some l ->
  groups_ok l /\ length l = length s /\ map (fun v => nth (Z.to_nat v) CHARSET 0) l = map LowerCase s.
Proof.
  revert l. induction s as [|c s IH]; intros l; cbn [decode_chars]. { intros [= <-]. by split; [constructor|]. }
  destruct (Z.eqb_spec (char_rev c) (-1)) as [|Hc]; [done|]. destruct (char_rev_ok c Hc) as [Hr Hn]. destruct (decode_chars s) as [l1|]; [|done].
  intros [= <-]. destruct (IH l1 eq_refl) as (H1 & H2 & H3). unfold u8. rewrite Z.mod_small by lia. split; [by constructor|]. cbn [length map]. by rewrite H2, H3, Hn.
Qed.

Lemma rfind_last a b x : Forall (fun c => c <> x) b -> rfind (app a (x :: b)) x = Some (length a).
Proof.
  intros Hb. induction a as [|c a IH].
  - cbn [app rfind length]. assert (rfind b x = None) as ->; [|by rewrite Z.eqb_refl].
    induction Hb as [|c b Hc _ IH]; [done|]. cbn [rfind]. rewrite IH. by destruct (Z.eqb_spec c x).
  - cbn [app rfind length]. by rewrite IH.
Qed.

Lemma rfind_spec s x k : rfind s x = Some k -> exists a b, s = app a (x :: b) /\ length a = k.
Proof.
  revert k. induction s as [|c s IH]; intros k; [done|]. cbn [rfind]. destruct (rfind s x) as [j|].
  - intros [= <-]. destruct (IH j eq_refl) as (a & b & -> & <-). by exists (c :: a), b.
  - destruct (Z.eqb_spec c x) as [->|]; [|done]. intros [= <-]. by exists [], s.
Qed.

(** Printable characters without capitals. *)
Definition lower_text (s : bytes) : Prop := Forall (fun c => 33 <= c <= 126 /\ ~ (65 <= c <= 90)) s.

Lemma scan_lower s : lower_text s -> forall l, exists l', scan_case s l false = Some (l', false).
Proof.
  induction 1 as [|c s [Hc1 Hc2] _ IH]; intros l; [by exists l|]. cbn [scan_case].
  assert ((c <? 33) || (126 <? c) = false) as -> by lia. assert ((65 <=? c) && (c <=? 90) = false) as -> by lia. apply IH.
Qed.

Lemma scan_printable s l u r : scan_case s l u = Some r -> Forall (fun c => 33 <= c <= 126) s.
Proof.
  revert l u. induction s as [|c s IH]; intros l u; [constructor|]. cbn [scan_case]. destruct ((c <? 33) || (126 <? c)) eqn:E; [done|].
  intros H. constructor; [lia|by eapply IH].
Qed.

Lemma LowerCase_lower c : 33 <= c <= 126 -> 33 <= LowerCase c <= 126 /\ ~ (65 <= LowerCase c <= 90).
Proof. intros Hc. unfold LowerCase. destruct ((65 <=? c) && (c <=? 90)) eqn:E; [unfold u8; rewrite Z.mod_small by lia; lia|lia]. Qed.

Lemma LowerCase_id s : lower_text s -> map LowerCase s = s.
Proof.
  induction 1 as [|c s [Hc1 Hc2] _ IH]; [done|]. cbn [map]. rewrite IH. f_equal. unfold LowerCase. by assert ((65 <=? c) && (c <=? 90) = false) as -> by lia.
Qed.

Lemma text_of_groups l : groups_ok l -> let t := map (fun v => nth (Z.to_nat v) CHARSET 0) l in lower_text t /\ Forall (fun c => c <> 49) t.
Proof.
  intros Hl. split; apply Forall_map; (eapply list.Forall_impl; [exact Hl|]); intros v Hv; destruct (charset_ok v Hv) as (_ & ? & ? & ?); done.
Qed.

Lemma Encode_ok hrp values : groups_ok values ->
  Encode hrp values = app hrp (49 :: map (fun v => nth (Z.to_nat v) CHARSET 0) (app values (CreateChecksum hrp values))).
Proof. intros Hv. unfold Encode. rewrite encode_chars_ok; [done|]. apply Forall_app. split; [done|apply six_groups_ok]. Qed.

Lemma Decode_Encode hrp values : hrp <> [] -> lower_text hrp -> groups_ok values -> zlen hrp + zlen values + 7 <= 1023 ->
  Decode (Encode hrp values) = (hrp, values).
Proof.
  intros Hne Hh Hv Hlen. rewrite Encode_ok by done. set (w := app values (CreateChecksum hrp values)).
  assert (Hw : groups_ok w) by (apply Forall_app; split; [done|apply six_groups_ok]). destruct (text_of_groups w Hw) as [Ht Hn1].
  assert (Hlw : length w = (length values + 6)%nat) by (unfold w; rewrite length_app; done).
  set (t := map _ w) in *. assert (Hlt : length t = length w) by (unfold t; by rewrite length_map). unfold Decode.
  destruct (scan_lower (app hrp (49 :: t))) with (l := false) as [l' ->].
  { apply Forall_app. split; [done|]. constructor; [lia|done]. }
  rewrite andb_false_r, (rfind_last hrp t 49 Hn1). assert (Hz : zlen (app hrp (49 :: t)) = zlen hrp + 1 + zlen values + 6).
  { unfold zlen. rewrite length_app. cbn [length]. lia. }
  rewrite Hz. fold (zlen hrp). assert (Hp : 0 < zlen hrp) by (destruct hrp; [done|unfold zlen; cbn; lia]). pose proof (zlen_nonneg values). unfold zlen in Hp at 1.
  assert ((1023 <? zlen hrp + 1 + zlen values + 6) = false) as -> by lia. destruct (Nat.eqb_spec (length hrp) 0); [lia|].
  assert ((zlen hrp + 1 + zlen values + 6 <? zlen hrp + 7) = false) as -> by lia. cbn [orb].
  rewrite drop_app, drop_ge by lia. replace (length hrp + 1 - length hrp)%nat with 1%nat by lia. cbn [drop app].
  change (drop 0 t) with t.  assert (decode_chars t = Some w) as -> by by apply decode_chars_map. rewrite take_app_length, LowerCase_id by done. unfold w at 1. rewrite checksum_verifies. f_equal.
  rewrite Hlw. unfold w. rewrite take_app_length'; [done|lia].
Qed.

Lemma Decode_spec str hrp values : Decode str = (hrp, values) -> hrp <> [] ->
  groups_ok values /\ lower_text hrp /\ zlen hrp + zlen values + 7 = zlen str /\ zlen str <= 1023 /\ Encode hrp values = map LowerCase str.
Proof.
  unfold Decode. intros H Hne. destruct (scan_case str false false) as [[lo up]|] eqn:Es; [|by injection H as <- <-]. pose proof (scan_printable _ _ _ _ Es) as Hp.
  destruct (lo && up); [by injection H as <- <-|]. destruct (rfind str 49) as [pos|] eqn:Er; [|by injection H as <- <-].
  destruct (_ || _) eqn:Eb; [by injection H as <- <-|]. rewrite !orb_false_iff in Eb. destruct Eb as [[Eb1 Eb2] Eb3].
  destruct (decode_chars _) as [v|] eqn:Ed; [|by injection H as <- <-]. destruct (VerifyChecksum _ _) eqn:Ev; [|by injection H as <- <-].
  destruct (rfind_spec _ _ _ Er) as (a & b & -> & <-). clear Er Es. assert (Hd : drop (length a + 1) (app a (49 :: b)) = b).
  { rewrite drop_app, drop_ge by lia. by replace (length a + 1 - length a)%nat with 1%nat by lia. }
  rewrite Hd in Ed. rewrite take_app_length in H, Ev. destruct (decode_chars_spec _ _ Ed) as (Hg & Hl & Hm). injection H as <- <-.
  apply Forall_app in Hp as [Hpa Hpb]. assert (Hla : lower_text (map LowerCase a)).
  { apply Forall_map. eapply list.Forall_impl; [exact Hpa|]. intros c. apply LowerCase_lower. }
  assert (Hz : zlen (app a (49 :: b)) = Z.of_nat (length a) + 1 + Z.of_nat (length b)) by (unfold zlen; rewrite length_app; cbn [length]; lia).
  rewrite Hz in *. set (n := (length v - 6)%nat). assert (Hn : length v = (n + 6)%nat) by (unfold n; lia).
  assert (Hsplit : v = app (take n v) (drop n v)) by by rewrite take_drop. pose proof Hg as Hg'. rewrite Hsplit in Hg'. apply Forall_app in Hg' as [Hg1 Hg2].
  split; [done|]. split; [done|]. split. { unfold zlen. rewrite length_map, length_take. lia. }
  split; [lia|].
  rewrite Encode_ok by done. rewrite <- (checksum_unique (map LowerCase a) (take n v) (drop n v)); [|done|rewrite length_drop; lia|by rewrite take_drop].
  rewrite take_drop, Hm, map_app. done.
Qed.

(** ** The change of base keeps the number *)

Section ConvertFacts.
Context (f t : Z) (Hf : 0 < f) (Ht : 0 < t) (Hw : 2 * f + t - 1 <= 64).

Lemma pow2_ge2 k : 0 < k -> 2 <= 2 ^ k.
Proof using Type. intros. replace 2 with (2 ^ 1) at 1 by done. apply Z.pow_le_mono_r; lia. Qed.

Lemma mask_mod x k : 0 <= k -> Z.land x (Z.shiftl 1 k - 1) = x mod 2 ^ k.
Proof using Type. intros. rewrite Z.shiftl_mul_pow2, Z.mul_1_l by done. rewrite <- Z.land_ones by done. by rewrite Z.ones_equiv, Z.sub_1_r. Qed.

Lemma mod_split x a b : 0 <= a -> 0 <= b -> x mod 2 ^ (a + b) = (x / 2 ^ b) mod 2 ^ a * 2 ^ b + x mod 2 ^ b.
Proof using Type.
  intros. rewrite Z.add_comm, Z.pow_add_r, Z.rem_mul_r by (try apply Z.pow_nonzero; try apply Z.pow_pos_nonneg; lia). lia.
Qed.

Lemma emit_spec fuel : forall acc bits out bits', 0 <= bits -> (Z.to_nat bits <= fuel)%nat -> emit t fuel acc bits = (out, bits') ->
  0 <= bits' < t /\ bits = t * zlen out + bits' /\ digits_ok (2 ^ t) out /\
  acc mod 2 ^ bits = be_value (2 ^ t) out * 2 ^ bits' + acc mod 2 ^ bits'.
Proof using Hf Ht Hw.
  assert (Hnil : forall b, 0 <= b < t -> forall acc, 0 <= b < t /\ b = t * zlen (@nil Z) + b /\ digits_ok (2 ^ t) [] /\
    acc mod 2 ^ b = be_value (2 ^ t) [] * 2 ^ b + acc mod 2 ^ b).
  { intros b Hb acc. change (zlen (@nil Z)) with 0. change (be_value (2 ^ t) []) with 0. split_and!; try lia. constructor. }
  induction fuel as [|fuel IH]; intros acc bits out bits' Hb Hfuel; cbn [emit].
  { intros [= <- <-]. apply Hnil. lia. }
  destruct (Z.leb_spec t bits) as [Hle|Hlt]; [|intros [= <- <-]; apply Hnil; lia].
  destruct (emit t fuel acc (bits - t)) as [out1 b1] eqn:E. intros [= <- <-]. destruct (IH acc (bits - t) out1 b1 ltac:(lia) ltac:(lia) E) as (H1 & H2 & H3 & H4).
  rewrite mask_mod, Z.shiftr_div_pow2 by lia. rewrite zlen_cons, be_value_cons. pose proof (zlen_nonneg out1). split; [done|]. split; [lia|]. split.
  { constructor; [|done]. apply Z.mod_pos_bound, Z.pow_pos_nonneg; lia. }
  replace bits with (t + (bits - t)) at 1 by lia. rewrite mod_split, H4 by lia.
  replace (2 ^ (bits - t)) with ((2 ^ t) ^ zlen out1 * 2 ^ b1) at 2; [ring|]. rewrite <- Z.pow_mul_r, <- Z.pow_add_r by nia. f_equal. lia.
Qed.

Lemma acc_step acc i : 0 <= acc < 2 ^ (f + t - 1) -> 0 <= i < 2 ^ f ->
  Z.land (Z.lor (u64 (Z.shiftl acc f)) i) (Z.shiftl 1 (f + t - 1) - 1) = (acc * 2 ^ f + i) mod 2 ^ (f + t - 1).
Proof using Hf Ht Hw.
  intros Ha Hi. rewrite mask_mod by lia. f_equal. rewrite Z.shiftl_mul_pow2 by lia. unfold u64. rewrite Z.mod_small.
  - symmetry. rewrite <- Z.shiftl_mul_pow2 by lia. rewrite <- Z.lxor_lor, <- Z.add_nocarry_lxor; [done| |]; apply Z.bits_inj'; intros n Hn; rewrite Z.land_spec, Z.bits_0;
    (destruct (Z.lt_ge_cases n f); [by rewrite Z.shiftl_spec_low|rewrite <- (Z.mod_small i (2 ^ f)), Z.mod_pow2_bits_high by lia; apply andb_false_r]).
  - pose proof (Z.pow_pos_nonneg 2 f ltac:(lia) ltac:(lia)). split; [nia|]. apply Z.lt_le_trans with (2 ^ (f + t - 1) * 2 ^ f); [nia|].
    rewrite <- Z.pow_add_r by lia. change 18446744073709551616 with (2 ^ 64). apply Z.pow_le_mono_r; lia.
Qed.

Lemma pending_step acc i bits : 0 <= bits < t -> 0 <= i < 2 ^ f ->
  ((acc * 2 ^ f + i) mod 2 ^ (f + t - 1)) mod 2 ^ (bits + f) = acc mod 2 ^ bits * 2 ^ f + i.
Proof using Hf Ht Hw.
  intros Hb Hi. replace (f + t - 1) with ((bits + f) + (t - 1 - bits)) by lia. rewrite (Z.pow_add_r 2 (bits + f)) by lia.
  rewrite Z.mod_mod_divide by apply Z.divide_factor_l.
  rewrite mod_split by lia. rewrite Z.div_add_l, (Z.div_small i), Z.add_0_r by (try apply Z.pow_nonzero; lia).
  rewrite Z.add_comm, (Z.add_comm (acc * _)), Z.mod_add, Z.mod_small by (try apply Z.pow_nonzero; lia). lia.
Qed.

Lemma convert_loop_spec input : digits_ok (2 ^ f) input -> forall acc bits out acc' bits', 0 <= bits < t -> 0 <= acc < 2 ^ (f + t - 1) ->
  convert_loop f t input acc bits = (out, acc', bits') ->
  0 <= bits' < t /\ 0 <= acc' < 2 ^ (f + t - 1) /\ bits + f * zlen input = t * zlen out + bits' /\ digits_ok (2 ^ t) out /\
  acc mod 2 ^ bits * (2 ^ f) ^ zlen input + be_value (2 ^ f) input = be_value (2 ^ t) out * 2 ^ bits' + acc' mod 2 ^ bits'.
Proof using Hf Ht Hw.
  induction 1 as [|i input Hi Hin IH]; intros acc bits out acc' bits' Hb Ha; cbn [convert_loop].
  { intros [= <- <- <-]. change (zlen (@nil Z)) with 0. change (be_value _ []) with 0. rewrite Z.pow_0_r. split_and!; try lia. constructor. }
  rewrite acc_step by done. set (acc1 := _ mod _). assert (Ha1 : 0 <= acc1 < 2 ^ (f + t - 1)) by (apply Z.mod_pos_bound, Z.pow_pos_nonneg; lia).
  destruct (emit t (Z.to_nat (bits + f)) acc1 (bits + f)) as [out1 b1] eqn:E1. destruct (emit_spec _ acc1 (bits + f) _ _ ltac:(lia) (le_n _) E1) as (H1 & H2 & H3 & H4).
  destruct (convert_loop f t input acc1 b1) as [[out2 acc2] b2] eqn:E2. intros [= <- <- <-]. destruct (IH _ _ _ _ _ H1 Ha1 E2) as (H5 & H6 & H7 & H8 & H9).
  assert (Hz : zlen (app out1 out2) = zlen out1 + zlen out2) by (unfold zlen; rewrite length_app; lia).
  rewrite zlen_cons, Hz, be_value_cons, be_value_app. pose proof (zlen_nonneg input). pose proof (zlen_nonneg out1). pose proof (zlen_nonneg out2).
  split; [done|]. split; [done|]. split; [lia|]. split; [by apply Forall_app|].
  unfold acc1 in H4 at 1. rewrite pending_step in H4 by done. rewrite Z.mul_add_distr_r, <- Z.add_assoc, <- H9.
  replace (acc mod 2 ^ bits * (2 ^ f) ^ (1 + zlen input)) with (acc mod 2 ^ bits * 2 ^ f * (2 ^ f) ^ zlen input) by (rewrite Z.pow_add_r, Z.pow_1_r by lia; ring).
  rewrite Z.add_assoc, <- Z.mul_add_distr_r, H4. rewrite !Z.add_assoc. f_equal. rewrite Z.mul_add_distr_r. f_equal.
  rewrite <- !Z.mul_assoc. f_equal. rewrite <- !Z.pow_mul_r, <- !Z.pow_add_r by nia. f_equal. lia.
Qed.
End ConvertFacts.

Lemma last_group f t acc b : 0 < f -> 0 < t -> f + 2 * t - 1 <= 64 -> 0 <= b < t -> 0 <= acc < 2 ^ (f + t - 1) ->
  Z.land (u64 (Z.shiftl acc (t - b))) (Z.shiftl 1 t - 1) = acc mod 2 ^ b * 2 ^ (t - b).
Proof.
  intros Hf Ht Hw Hb Ha. rewrite mask_mod, Z.shiftl_mul_pow2 by lia. unfold u64. pose proof (Z.pow_pos_nonneg 2 (t - b) ltac:(lia) ltac:(lia)).
  rewrite (Z.mod_small (acc * _)).
  - replace (2 ^ t) with (2 ^ b * 2 ^ (t - b)) by (rewrite <- Z.pow_add_r by lia; f_equal; lia). rewrite Z.mul_mod_distr_r by (apply Z.pow_nonzero; lia). done.
  - split; [nia|]. apply Z.lt_le_trans with (2 ^ (f + t - 1) * 2 ^ (t - b)); [nia|].
    rewrite <- Z.pow_add_r by lia. change 18446744073709551616 with (2 ^ 64). apply Z.pow_le_mono_r; lia.
Qed.

(** With padding: as many groups as are needed, holding the number followed by zeros. *)
Lemma ConvertBits_pad f t input : 0 < f -> 0 < t -> 2 * f + t - 1 <= 64 -> f + 2 * t - 1 <= 64 -> digits_ok (2 ^ f) input ->
  exists out p, ConvertBits f t true input = (out, true) /\ 0 <= p < t /\ digits_ok (2 ^ t) out /\
    t * zlen out = f * zlen input + p /\ be_value (2 ^ t) out = be_value (2 ^ f) input * 2 ^ p.
Proof.
  intros Hf Ht Hw1 Hw2 Hin. unfold ConvertBits. destruct (convert_loop f t input 0 0) as [[out acc] b] eqn:E.
  assert (H0 : 0 <= 0 < 2 ^ (f + t - 1)) by (split; [lia|apply Z.pow_pos_nonneg; lia]).
  destruct (convert_loop_spec f t Hf Ht Hw1 input Hin 0 0 out acc b ltac:(lia) H0 E) as (H1 & H2 & H3 & H4 & H5).
  rewrite Z.mod_0_l, Z.mul_0_l, Z.add_0_l in H5 by (apply Z.pow_nonzero; lia). rewrite (last_group f t acc b) by done.
  destruct (Z.eqb_spec b 0) as [->|Hb].
  - exists (app out []), 0. rewrite app_nil_r. rewrite Z.pow_0_r, Z.mod_1_r in H5. split_and!; try done; lia.
  - exists (app out [acc mod 2 ^ b * 2 ^ (t - b)]), (t - b). split; [done|]. split; [lia|].
    pose proof (Z.mod_pos_bound acc (2 ^ b) ltac:(apply Z.pow_pos_nonneg; lia)) as Hm. pose proof (Z.pow_pos_nonneg 2 (t - b) ltac:(lia) ltac:(lia)).
    assert (Hp : 2 ^ t = 2 ^ b * 2 ^ (t - b)) by (rewrite <- Z.pow_add_r by lia; f_equal; lia). split.
    { apply Forall_app. split; [done|]. constructor; [|constructor]. rewrite Hp. nia. }
    assert (Hz : zlen (app out [acc mod 2 ^ b * 2 ^ (t - b)]) = zlen out + 1) by (unfold zlen; rewrite length_app; cbn [length]; lia).
    split; [lia|]. rewrite be_value_app. change (zlen [_]) with 1. rewrite Z.pow_1_r. unfold be_value at 2. cbn [rev app value foldr].
    rewrite H5, Hp. ring.
Qed.

(** Without padding, from a number followed by fewer zeros than a group has bits. *)
Lemma ConvertBits_unpad f t input out p : 0 < f -> 0 < t -> t <= f -> 2 * t + f - 1 <= 64 -> t + 2 * f - 1 <= 64 ->
  digits_ok (2 ^ f) input -> digits_ok (2 ^ t) out -> 0 <= p < t -> t * zlen out = f * zlen input + p ->
  be_value (2 ^ t) out = be_value (2 ^ f) input * 2 ^ p -> ConvertBits t f false out = (input, true).
Proof.
  intros Hf Ht Htf Hw1 Hw2 Hin Hout Hp Hlen Hval. unfold ConvertBits. destruct (convert_loop t f out 0 0) as [[back acc] b] eqn:E.
  assert (H0 : 0 <= 0 < 2 ^ (t + f - 1)) by (split; [lia|apply Z.pow_pos_nonneg; lia]).
  destruct (convert_loop_spec t f Ht Hf Hw1 out Hout 0 0 back acc b ltac:(lia) H0 E) as (H1 & H2 & H3 & H4 & H5).
  rewrite Z.mod_0_l, Z.mul_0_l, Z.add_0_l in H5 by (apply Z.pow_nonzero; lia). rewrite (last_group t f acc b) by done.
  destruct (Z.div_mod_unique f (zlen input) (zlen back) p b) as [En Eb]; [lia|lia|lia|]. subst b.
  pose proof (Z.mod_pos_bound acc (2 ^ p) ltac:(apply Z.pow_pos_nonneg; lia)) as Hm.
  destruct (Z.div_mod_unique (2 ^ p) (be_value (2 ^ f) input) (be_value (2 ^ f) back) 0 (acc mod 2 ^ p)) as [Ev Er]; [lia|lia|lia|].
  rewrite <- Er. assert ((t <=? p) = false) as -> by lia. rewrite Z.mul_0_l. cbn [orb negb Z.eqb]. f_equal.
  rewrite <- (rev_involutive back), <- (rev_involutive input). f_equal. apply (value_inj (2 ^ f)); [by apply pow2_ge2|by apply Forall_rev|by apply Forall_rev| |done].
  rewrite !length_rev. unfold zlen in En. lia.
Qed.

(** ** Properties *)

(** Bech32 text decodes to what was encoded.  For a nonempty
    human-readable part of printable characters without capitals and groups of
    five bits, with a text of at most 1023 characters, Decode (Encode hrp
    values) is the pair (hrp, values).  Conversely whatever Decode accepts is
    the text Encode gives for its result, up to the case of the letters, so
    that no two texts of one case stand for the same data. *)
Theorem bech32_roundtrip :
  (forall hrp values, hrp <> [] -> lower_text hrp -> groups_ok values -> zlen hrp + zlen values + 7 <= 1023 ->
    Decode (Encode hrp values) = (hrp, values)) /\
  (forall str hrp values, Decode str = (hrp, values) -> hrp <> [] ->
    groups_ok values /\ zlen str <= 1023 /\ Encode hrp values = map LowerCase str).
Proof.
  split; [exact Decode_Encode|]. intros str hrp values H Hne. by destruct (Decode_spec str hrp values H Hne) as (? & _ & _ & ? & ?).
Qed.

(** C20: the claim of the comment in PolyMod.  Under one human-readable part,
    two lists of at most 1023 five-bit values that both pass VerifyChecksum and
    differ at all differ in at least four places: up to three substituted
    characters are always detected. *)
Theorem bech32_detects_three_errors hrp values values' : groups_ok values -> groups_ok values' ->
  length values = length values' -> (length values <= 1023)%nat ->
  VerifyChecksum hrp values = true -> values <> values' -> (mismatches values values' <= 3)%nat ->
  VerifyChecksum hrp values' = false.
Proof.
  intros H H' Hlen Hmax Hv Hne Hm. destruct (VerifyChecksum hrp values') eqn:E; [|done].
  pose proof (checksum_distance hrp values values' H H' Hlen Hmax Hv E Hne). lia.
Qed.

Lemma bech32_roundtrip_witness :
  Decode (Encode [122; 115] [1; 2; 3; 31]) = ([122; 115], [1; 2; 3; 31]) /\
  Encode [122; 115] [1; 2; 3; 31] = map LowerCase (Encode [122; 115] [1; 2; 3; 31]).
Proof.
  assert (Hr : Decode (Encode [122; 115] [1; 2; 3; 31]) = ([122; 115], [1; 2; 3; 31])).
  { apply (proj1 bech32_roundtrip); [done| | |vm_compute; discriminate]; repeat constructor; lia. }
  split; [exact Hr|]. by apply (proj2 bech32_roundtrip _ _ _ Hr).
Defined.

Lemma bech32_detects_three_errors_witness : let w := app [1; 2; 3; 31] (CreateChecksum [122; 115] [1; 2; 3; 31]) in
  VerifyChecksum [122; 115] w = true /\ VerifyChecksum [122; 115] (app [1; 7; 0; 30] (drop 4 w)) = false.
Proof.
  cbv zeta. split; [by vm_compute|].
  apply (bech32_detects_three_errors [122; 115] (app [1; 2; 3; 31] (CreateChecksum [122; 115] [1; 2; 3; 31]))); vm_compute.
  - repeat constructor; discriminate.
  - repeat constructor; discriminate.
  - reflexivity.
  - lia.
  - reflexivity.
  - discriminate.
  - lia.
Defined.
