(* ===== verification/KeyIO.v ===== *)
(** * Keys and addresses as text (src/src/key_io.cpp)

    The texts of destinations, secret keys, extended keys and of the shielded
    payment addresses, viewing keys and spending keys, with the network's
    prefixes; the serialised forms of zcash/Address.hpp and zip32.h; the
    older address classes of base58.cpp.  Whether 32 bytes are a secret key is
    libsecp256k1's [secp256k1_ec_seckey_verify], a parameter. *)
From S2P Require Import Prelude Serialize Transaction Compressor Script HashStream Sha2 Hashes Standard Base58 Bech32.
#[local] Open Scope Z_scope.

(** ** Prefixes of a network (chainparams.cpp) *)

Record prefixes := mkPrefixes {
  PUBKEY_ADDRESS : bytes; SCRIPT_ADDRESS : bytes; SECRET_KEY : bytes; EXT_PUBLIC_KEY : bytes; EXT_SECRET_KEY : bytes;
  ZCPAYMENT_ADDRRESS : bytes; ZCVIEWING_KEY : bytes; ZCSPENDING_KEY : bytes;
  SAPLING_PAYMENT_ADDRESS : bytes; SAPLING_FULL_VIEWING_KEY : bytes;
  SAPLING_INCOMING_VIEWING_KEY : bytes; SAPLING_EXTENDED_SPEND_KEY : bytes
}.

(** zs, zviews, zivks, secret-extended-key-main *)
Definition main_prefixes : prefixes :=
  mkPrefixes [60] [85] [188] [0x04; 0x88; 0xb2; 0x1e] [0x04; 0x88; 0xad; 0xe4] [22; 154] [0xA8; 0xAB; 0xD3] [171; 54]
    [122; 115] [122; 118; 105; 101; 119; 115] [122; 105; 118; 107; 115]
    [115; 101; 99; 114; 101; 116; 45; 101; 120; 116; 101; 110; 100; 101; 100; 45; 107; 101; 121; 45; 109; 97; 105; 110].

(** ztestsapling, zviewtestsapling, zivktestsapling, secret-extended-key-test *)
Definition test_prefixes : prefixes :=
  mkPrefixes [0] [5] [128] [0x04; 0x35; 0x87; 0xCF] [0x04; 0x35; 0x83; 0x94] [20; 81] [0xA8; 0xAC; 0x0C] [177; 235]
    [122; 116; 101; 115; 116; 115; 97; 112; 108; 105; 110; 103]
    [122; 118; 105; 101; 119; 116; 101; 115; 116; 115; 97; 112; 108; 105; 110; 103]
    [122; 105; 118; 107; 116; 101; 115; 116; 115; 97; 112; 108; 105; 110; 103]
    [115; 101; 99; 114; 101; 116; 45; 101; 120; 116; 101; 110; 100; 101; 100; 45; 107; 101; 121; 45; 116; 101; 115; 116].

(** zregtestsapling, zviewregtestsapling, zivkregtestsapling, secret-extended-key-regtest *)
Definition regtest_prefixes : prefixes :=
  mkPrefixes [60] [85] [188] [0x04; 0x35; 0x87; 0xCF] [0x04; 0x35; 0x83; 0x94] [0x16; 0xB6] [0xA8; 0xAC; 0x0C] [0xAC; 0x08]
    [122; 114; 101; 103; 116; 101; 115; 116; 115; 97; 112; 108; 105; 110; 103]
    [122; 118; 105; 101; 119; 114; 101; 103; 116; 101; 115; 116; 115; 97; 112; 108; 105; 110; 103]
    [122; 105; 118; 107; 114; 101; 103; 116; 101; 115; 116; 115; 97; 112; 108; 105; 110; 103]
    [115; 101; 99; 114; 101; 116; 45; 101; 120; 116; 101; 110; 100; 101; 100; 45; 107; 101; 121; 45; 114; 101; 103; 116; 101; 115; 116].

(** ** Shielded addresses and keys (zcash/Address.hpp, zip32.h, uint252.h) *)

Record SproutPaymentAddress := mkSproutPaymentAddress { spa_a_pk : Z; spa_pk_enc : Z }.
Record SproutViewingKey := mkSproutViewingKey { svk_a_pk : Z; svk_sk_enc : Z }.
Record SaplingPaymentAddress := mkSaplingPaymentAddress { sap_d : bytes; pk_d : Z }.
Record SaplingExpandedSpendingKey := mkExpandedSpendingKey { ask : Z; nsk : Z; ovk : Z }.
Record SaplingExtendedSpendingKey := mkExtendedSpendingKey {
  depth : Z; parentFVKTag : Z; childIndex : Z; chaincode : Z; expsk : SaplingExpandedSpendingKey; dk : Z
}.

Definition c_SproutPaymentAddress : codec SproutPaymentAddress.
Proof.
  refine (c_iso (fun p => mkSproutPaymentAddress p.1 p.2) (fun a => (spa_a_pk a, spa_pk_enc a)) _ (c_pair c_uint256 c_uint256)). by intros [].
Defined.

Definition c_SproutViewingKey : codec SproutViewingKey.
Proof. refine (c_iso (fun p => mkSproutViewingKey p.1 p.2) (fun a => (svk_a_pk a, svk_sk_enc a)) _ (c_pair c_uint256 c_uint256)). by intros []. Defined.

Definition c_SaplingPaymentAddress : codec SaplingPaymentAddress.
Proof. refine (c_iso (fun p => mkSaplingPaymentAddress p.1 p.2) (fun a => (sap_d a, pk_d a)) _ (c_pair (c_flat 11) c_uint256)). by intros []. Defined.

Definition c_ExpandedSpendingKey : codec SaplingExpandedSpendingKey.
Proof.
  refine (c_iso (fun p => mkExpandedSpendingKey p.1 p.2.1 p.2.2) (fun a => (ask a, (nsk a, ovk a))) _ (c_pair c_uint256 (c_pair c_uint256 c_uint256))). by intros [].
Defined.

Definition c_ExtendedSpendingKey : codec SaplingExtendedSpendingKey.
Proof.
  refine (c_iso (fun p => mkExtendedSpendingKey p.1 p.2.1 p.2.2.1 p.2.2.2.1 p.2.2.2.2.1 p.2.2.2.2.2)
    (fun a => (depth a, (parentFVKTag a, (childIndex a, (chaincode a, (expsk a, dk a)))))) _
    (c_pair c_u8 (c_pair c_u32 (c_pair c_u32 (c_pair c_uint256 (c_pair c_ExpandedSpendingKey c_uint256)))))). by intros [].
Defined.

(** [uint252]: reading throws on the four bits. *)
Definition read_uint252 : reader Z := contents ← unser c_uint256; if negb (Z.land (contents mod 256) 0xF0 =? 0) then reader_fail else mret contents.

Definition SerializedSproutPaymentAddressSize : nat := 64.
Definition SerializedSproutViewingKeySize : nat := 64.
Definition SerializedSproutSpendingKeySize : nat := 32.
Definition ZIP32_XSK_SIZE : nat := 169.
Definition ConvertedSaplingPaymentAddressSize : nat := (((32 + 11) * 8 + 4) / 5)%nat.
Definition ConvertedSaplingExtendedSpendingKeySize : nat := ((ZIP32_XSK_SIZE * 8 + 4) / 5)%nat.
Definition ConvertedSaplingIncomingViewingKeySize : nat := ((32 * 8 + 4) / 5)%nat.

Inductive PaymentAddress := PA_InvalidEncoding | PA_Sprout (a : SproutPaymentAddress) | PA_Sapling (a : SaplingPaymentAddress).
Inductive ViewingKey := VK_InvalidEncoding | VK_Sprout (a : SproutViewingKey) | VK_Sapling (ivk : Z).
Inductive SpendingKey := SK_InvalidEncoding | SK_Sprout (a_sk : Z) | SK_Sapling (a : SaplingExtendedSpendingKey).

(** ** Secret keys (key.h, key.cpp) *)

Record CKey := mkCKey { fValid : bool; fCompressed : bool; vch : bytes }.

(** What the 32 bytes of an invalid key hold is not looked at. *)
Definition new_CKey : CKey := mkCKey false false [].

Record CExtPubKey := mkExtPubKey { xp_nDepth : Z; xp_vchFingerprint : bytes; xp_nChild : Z; xp_chaincode : bytes; xp_pubkey : bytes }.
Record CExtKey := mkExtKey { xk_nDepth : Z; xk_vchFingerprint : bytes; xk_nChild : Z; xk_chaincode : bytes; xk_key : CKey }.

Definition BIP32_EXTKEY_SIZE : nat := 74.

(** The four bytes of [nChild], the highest first. *)
Definition child_bytes (nChild : Z) : bytes :=
  [Z.land (Z.shiftr nChild 24) 0xFF; Z.land (Z.shiftr nChild 16) 0xFF; Z.land (Z.shiftr nChild 8) 0xFF; Z.land (Z.shiftr nChild 0) 0xFF].
Definition child_value (code : bytes) : Z :=
  let c i := nth i code 0 in
  Z.lor (Z.lor (Z.lor (u32 (Z.shiftl (c 5%nat) 24)) (Z.shiftl (c 6%nat) 16)) (Z.shiftl (c 7%nat) 8)) (c 8%nat).

Definition range (code : bytes) (a b : nat) : bytes := take (b - a) (drop a code).

(** [None]: the assertion on the size. *)
Definition CExtPubKey_Encode (k : CExtPubKey) : option bytes :=
  if (length (xp_pubkey k) =? 33)%nat
  then Some (xp_nDepth k :: app (xp_vchFingerprint k) (app (child_bytes (xp_nChild k)) (app (xp_chaincode k) (xp_pubkey k))))
  else None.

Definition CExtPubKey_Decode (code : bytes) : CExtPubKey :=
  mkExtPubKey (nth 0 code 0) (range code 1 5) (child_value code) (range code 9 41) (CPubKey_Set (range code 41 74)).

Definition CExtKey_Encode (k : CExtKey) : option bytes :=
  if fValid (xk_key k)
  then Some (xk_nDepth k :: app (xk_vchFingerprint k) (app (child_bytes (xk_nChild k)) (app (xk_chaincode k) (0 :: vch (xk_key k)))))
  else None.

(** ** key_io.cpp *)

(** What a decoder does: return, fail the assertion of DecodeBase58, or throw on reading. *)
Inductive outcome (A : Type) := Ret (a : A) | Asserted | Thrown.
Arguments Ret {A}.
Arguments Asserted {A}.
Arguments Thrown {A}.

(** [data.size() == n + prefix.size() && std::equal(prefix.begin(), prefix.end(), data.begin())] *)
Definition has_prefix (prefix : bytes) (n : nat) (data : bytes) : bool :=
  (length data =? n + length prefix)%nat && bool_decide (take (length prefix) data = prefix).

(** [ss >> ret]; the rest of the stream is dropped. *)
Definition read_all {A B} (r : reader A) (f : A -> B) (data : bytes) : outcome B :=
  match r data with Some (a, _) => Ret (f a) | None => Thrown end.

Section KeyIO.
Context (P : prefixes) (buf0 buf1 : bytes).

Definition GetID (key : bytes) : bytes := Hash160 buf0 buf1 key.

Definition EncodeDestination (dest : CTxDestination) : option bytes :=
  match dest with
  | CKeyID id => EncodeBase58Check buf0 (app (PUBKEY_ADDRESS P) id)
  | DestPubKey key => EncodeBase58Check buf0 (app (PUBKEY_ADDRESS P) (GetID key))
  | CScriptID id => EncodeBase58Check buf0 (app (SCRIPT_ADDRESS P) id)
  | CNoDestination => Some []
  end.

Definition DecodeDestination (str : bytes) : outcome CTxDestination :=
  match DecodeBase58Check buf0 str with
  | AssertionFailed => Asserted
  | Invalid58 => Ret CNoDestination
  | Decoded58 data =>
    let pubkey_prefix := PUBKEY_ADDRESS P in
    if has_prefix pubkey_prefix 20 data then Ret (CKeyID (drop (length pubkey_prefix) data))
    else
      let script_prefix := SCRIPT_ADDRESS P in
      if has_prefix script_prefix 20 data then Ret (CScriptID (drop (length script_prefix) data))
      else Ret CNoDestination
  end.

Definition IsValidDestinationString (str : bytes) : outcome bool :=
  match DecodeDestination str with Ret dest => Ret (IsValidDestination dest) | Asserted => Asserted | Thrown => Thrown end.

(** A serialised object in base 58, and in Bech32. *)
Definition EncodePaymentAddress (zaddr : PaymentAddress) : option bytes :=
  match zaddr with
  | PA_Sprout zaddr => EncodeBase58Check buf0 (app (ZCPAYMENT_ADDRRESS P) (ser c_SproutPaymentAddress zaddr))
  | PA_Sapling zaddr =>
    let seraddr := ser c_SaplingPaymentAddress zaddr in
    let data := fst (ConvertBits 8 5 true seraddr) in
    Some (Encode (SAPLING_PAYMENT_ADDRESS P) data)
  | PA_InvalidEncoding => Some []
  end.

Definition EncodeViewingKey (vk : ViewingKey) : option bytes :=
  match vk with
  | VK_Sprout vk => EncodeBase58Check buf0 (app (ZCVIEWING_KEY P) (ser c_SproutViewingKey vk))
  | VK_Sapling vk =>
    let serkey := ser c_uint256 vk in
    let data := fst (ConvertBits 8 5 true serkey) in
    Some (Encode (SAPLING_INCOMING_VIEWING_KEY P) data)
  | VK_InvalidEncoding => Some []
  end.

Definition EncodeSpendingKey (zkey : SpendingKey) : option bytes :=
  match zkey with
  | SK_Sprout zkey => EncodeBase58Check buf0 (app (ZCSPENDING_KEY P) (ser c_uint256 zkey))
  | SK_Sapling zkey =>
    let serkey := ser c_ExtendedSpendingKey zkey in
    let data := fst (ConvertBits 8 5 true serkey) in
    Some (Encode (SAPLING_EXTENDED_SPEND_KEY P) data)
  | SK_InvalidEncoding => Some []
  end.

(** The second half of the shielded decoders. *)
Definition decode_sapling {A B} (hrp : bytes) (size : nat) (r : reader A) (f : A -> B) (invalid : B) (str : bytes) : outcome B :=
  let bech := Decode str in
  if bool_decide (fst bech = hrp) && (length (snd bech) =? size)%nat then
    let '(data, ok) := ConvertBits 5 8 false (snd bech) in
    if ok then read_all r f data else Ret invalid
  else Ret invalid.

Definition DecodePaymentAddress (str : bytes) : outcome PaymentAddress :=
  match DecodeBase58Check buf0 str with
  | AssertionFailed => Asserted
  | r =>
    let data := match r with Decoded58 data => data | _ => [] end in
    let zaddr_prefix := ZCPAYMENT_ADDRRESS P in
    if (match r with Decoded58 _ => true | _ => false end) && has_prefix zaddr_prefix SerializedSproutPaymentAddressSize data
    then read_all (unser c_SproutPaymentAddress) PA_Sprout (drop (length zaddr_prefix) data)
    else decode_sapling (SAPLING_PAYMENT_ADDRESS P) ConvertedSaplingPaymentAddressSize (unser c_SaplingPaymentAddress) PA_Sapling PA_InvalidEncoding str
  end.

Definition DecodeViewingKey (str : bytes) : outcome ViewingKey :=
  match DecodeBase58Check buf0 str with
  | AssertionFailed => Asserted
  | r =>
    let data := match r with Decoded58 data => data | _ => [] end in
    let vk_prefix := ZCVIEWING_KEY P in
    if (match r with Decoded58 _ => true | _ => false end) && has_prefix vk_prefix SerializedSproutViewingKeySize data
    then read_all (unser c_SproutViewingKey) VK_Sprout (drop (length vk_prefix) data)
    else decode_sapling (SAPLING_INCOMING_VIEWING_KEY P) ConvertedSaplingIncomingViewingKeySize (unser c_uint256) VK_Sapling VK_InvalidEncoding str
  end.

Definition DecodeSpendingKey (str : bytes) : outcome SpendingKey :=
  match DecodeBase58Check buf0 str with
  | AssertionFailed => Asserted
  | r =>
    let data := match r with Decoded58 data => data | _ => [] end in
    let zkey_prefix := ZCSPENDING_KEY P in
    if (match r with Decoded58 _ => true | _ => false end) && has_prefix zkey_prefix SerializedSproutSpendingKeySize data
    then read_all read_uint252 SK_Sprout (drop (length zkey_prefix) data)
    else decode_sapling (SAPLING_EXTENDED_SPEND_KEY P) ConvertedSaplingExtendedSpendingKeySize (unser c_ExtendedSpendingKey) SK_Sapling SK_InvalidEncoding str
  end.

(** *** Secret keys *)

Context (seckey_verify : bytes -> bool).

Definition CKey_Set (key : CKey) (l : bytes) (fCompressedIn : bool) : CKey :=
  if negb (length l =? 32)%nat then mkCKey false (fCompressed key) (vch key)
  else if seckey_verify l then mkCKey true fCompressedIn l
  else mkCKey false (fCompressed key) (vch key).

(** With the prefix of the network, or another. *)
Definition DecodeCustomSecret (privkey_prefix : bytes) (str : bytes) : outcome CKey :=
  match DecodeBase58Check buf0 str with
  | AssertionFailed => Asserted
  | Invalid58 => Ret new_CKey
  | Decoded58 data =>
    let n := length privkey_prefix in
    if ((length data =? 32 + n)%nat || ((length data =? 33 + n)%nat && (nth (length data - 1) data 0 =? 1)))
       && bool_decide (take n data = privkey_prefix)
    then
      let compressed := (length data =? 33 + n)%nat in
      Ret (CKey_Set new_CKey (range data n (n + 32)) compressed)
    else Ret new_CKey
  end.

Definition DecodeSecret (str : bytes) : outcome CKey := DecodeCustomSecret (SECRET_KEY P) str.

Definition EncodeCustomSecret (secret_key : bytes) (key : CKey) : option bytes :=
  if negb (fValid key) then None
  else
    let data := app secret_key (vch key) in
    EncodeBase58Check buf0 (if fCompressed key then app data [1] else data).

Definition EncodeSecret (key : CKey) : option bytes := EncodeCustomSecret (SECRET_KEY P) key.

(** CBitcoinSecret *)
Definition CBitcoinSecret_SetKey (vchSecret : CKey) : option CBase58Data :=
  if negb (fValid vchSecret) then None
  else Some (SetData (SECRET_KEY P) (if fCompressed vchSecret then app (vch vchSecret) [1] else vch vchSecret)).

Definition CBitcoinSecret_GetKey (s : CBase58Data) : option CKey :=
  if (length (vchData s) <? 32)%nat then None
  else Some (CKey_Set new_CKey (take 32 (vchData s)) ((32 <? length (vchData s))%nat && (nth 32 (vchData s) 0 =? 1))).

Definition CBitcoinSecret_IsValid (s : CBase58Data) : bool :=
  let fExpectedFormat := (length (vchData s) =? 32)%nat || ((length (vchData s) =? 33)%nat && (nth 32 (vchData s) 0 =? 1)) in
  let fCorrectVersion := bool_decide (vchVersion s = SECRET_KEY P) in
  fExpectedFormat && fCorrectVersion.

Definition CBitcoinSecret_SetString (pszSecret : bytes) : option (bool * CBase58Data) :=
  '(ok, s) ← CBase58Data_SetString buf0 pszSecret 1;
  Some (ok && CBitcoinSecret_IsValid s, s).

(** *** Extended keys *)

Definition CExtKey_Decode (code : bytes) : CExtKey :=
  mkExtKey (nth 0 code 0) (range code 1 5) (child_value code) (range code 9 41) (CKey_Set new_CKey (range code 42 74) true).

(** Where the text is not accepted the key is left as the constructor made it. *)
Definition DecodeExtPubKey (str : bytes) : outcome (option CExtPubKey) :=
  match DecodeBase58Check buf0 str with
  | AssertionFailed => Asserted
  | Invalid58 => Ret None
  | Decoded58 data =>
    let prefix := EXT_PUBLIC_KEY P in
    if has_prefix prefix BIP32_EXTKEY_SIZE data then Ret (Some (CExtPubKey_Decode (drop (length prefix) data))) else Ret None
  end.

Definition EncodeExtPubKey (key : CExtPubKey) : option bytes :=
  code ← CExtPubKey_Encode key; EncodeBase58Check buf0 (app (EXT_PUBLIC_KEY P) code).

Definition DecodeExtKey (str : bytes) : outcome (option CExtKey) :=
  match DecodeBase58Check buf0 str with
  | AssertionFailed => Asserted
  | Invalid58 => Ret None
  | Decoded58 data =>
    let prefix := EXT_SECRET_KEY P in
    if has_prefix prefix BIP32_EXTKEY_SIZE data then Ret (Some (CExtKey_Decode (drop (length prefix) data))) else Ret None
  end.

Definition EncodeExtKey (key : CExtKey) : option bytes :=
  code ← CExtKey_Encode key; EncodeBase58Check buf0 (app (EXT_SECRET_KEY P) code).
End KeyIO.

(** ** What the networks' prefixes satisfy *)

(** A text that begins so is no base-58 text: it has a character out of the alphabet. *)
Definition not_base58 (hrp : bytes) : bool :=
  existsb (fun c => match strchr pszBase58 c with None => true | Some _ => false end) hrp && forallb (fun c => negb (isspace c)) hrp.

(** A Bech32 text of [groups] groups is too short for [n] bytes in base 58. *)
Definition too_short (hrp : bytes) (groups n : Z) : bool := (zlen hrp + groups + 7) * 733 / 1000 + 1 <? n + 4.

Definition hrp_ok (hrp : bytes) (groups : Z) : bool :=
  forallb (fun c => (33 <=? c) && (c <=? 126) && negb ((65 <=? c) && (c <=? 90))) hrp &&
  match hrp with c :: _ => negb (c =? 49) | [] => false end && (zlen hrp + groups + 7 <=? 1023).

Definition prefixes_ok (P : prefixes) : bool :=
  forallb (fun p => forallb (fun b => (0 <=? b) && (b <? 256)) p)
    [PUBKEY_ADDRESS P; SCRIPT_ADDRESS P; SECRET_KEY P; EXT_PUBLIC_KEY P; EXT_SECRET_KEY P; ZCPAYMENT_ADDRRESS P; ZCVIEWING_KEY P; ZCSPENDING_KEY P] &&
  negb (bool_decide (PUBKEY_ADDRESS P = SCRIPT_ADDRESS P)) &&
  (hrp_ok (SAPLING_PAYMENT_ADDRESS P) 69 && too_short (SAPLING_PAYMENT_ADDRESS P) 69 (64 + zlen (ZCPAYMENT_ADDRRESS P))) &&
  (hrp_ok (SAPLING_INCOMING_VIEWING_KEY P) 52 && too_short (SAPLING_INCOMING_VIEWING_KEY P) 52 (64 + zlen (ZCVIEWING_KEY P))) &&
  (hrp_ok (SAPLING_EXTENDED_SPEND_KEY P) 271 && not_base58 (SAPLING_EXTENDED_SPEND_KEY P)).

Lemma networks_ok P : P = main_prefixes \/ P = test_prefixes \/ P = regtest_prefixes -> prefixes_ok P = true.
Proof. intros [->|[->| ->]]; by vm_compute. Qed.

Lemma bytes_of_check p : forallb (fun b => (0 <=? b) && (b <? 256)) p = true -> is_bytes p.
Proof. intros H. apply list.Forall_forall. intros x Hx%list_elem_of_In. rewrite forallb_forall in H. specialize (H x Hx). unfold is_u8. lia. Qed.

Record prefix_facts (P : prefixes) : Prop := {
  pf_bytes : forall p, List.In p [PUBKEY_ADDRESS P; SCRIPT_ADDRESS P; SECRET_KEY P; EXT_PUBLIC_KEY P; EXT_SECRET_KEY P;
    ZCPAYMENT_ADDRRESS P; ZCVIEWING_KEY P; ZCSPENDING_KEY P] -> is_bytes p;
  pf_distinct : PUBKEY_ADDRESS P <> SCRIPT_ADDRESS P;
  pf_pa : hrp_ok (SAPLING_PAYMENT_ADDRESS P) 69 = true /\ too_short (SAPLING_PAYMENT_ADDRESS P) 69 (64 + zlen (ZCPAYMENT_ADDRRESS P)) = true;
  pf_vk : hrp_ok (SAPLING_INCOMING_VIEWING_KEY P) 52 = true /\ too_short (SAPLING_INCOMING_VIEWING_KEY P) 52 (64 + zlen (ZCVIEWING_KEY P)) = true;
  pf_sk : hrp_ok (SAPLING_EXTENDED_SPEND_KEY P) 271 = true /\ not_base58 (SAPLING_EXTENDED_SPEND_KEY P) = true
}.

Lemma prefixes_facts P : P = main_prefixes \/ P = test_prefixes \/ P = regtest_prefixes -> prefix_facts P.
Proof.
  intros H%networks_ok. unfold prefixes_ok in H. rewrite !andb_true_iff, negb_true_iff, bool_decide_eq_false in H.
  destruct H as ((((H1 & H2) & H3) & H4) & H5). split; try done. intros p Hp. apply bytes_of_check. rewrite forallb_forall in H1. by apply H1.
Qed.

(** ** Base-58 texts *)

Lemma has_prefix_app p l n : length l = n -> has_prefix p n (app p l) = true /\ drop (length p) (app p l) = l.
Proof.
  intros <-. unfold has_prefix. rewrite length_app, take_app_length, drop_app_length, bool_decide_true by done.
  assert (length p + length l =? length l + length p = true)%nat as -> by (apply Nat.eqb_eq; lia). done.
Qed.

Lemma has_prefix_other p q l n : length l = n -> p <> q -> has_prefix p n (app q l) = false.
Proof.
  intros <- Hne. unfold has_prefix. rewrite length_app. destruct (Nat.eqb_spec (length q + length l) (length l + length p)) as [E|]; [|done].
  rewrite take_app_length' by lia. rewrite bool_decide_false; [done|congruence].
Qed.

Lemma read_all_ser {A B} (c : codec A) (f : A -> B) a : valid c a -> read_all (unser c) f (ser c a) = Ret (f a).
Proof. intros H. unfold read_all. pose proof (unser_ser c a [] H) as E. rewrite app_nil_r in E. by rewrite E. Qed.

Lemma ser_uint256 z : length (ser c_uint256 z) = 32%nat /\ is_bytes (ser c_uint256 z).
Proof. split; [apply length_le_bytes|apply le_bytes_is_bytes]. Qed.

Lemma ser_words n z : length (le_bytes n z) = n /\ is_bytes (le_bytes n z).
Proof. split; [apply length_le_bytes|apply le_bytes_is_bytes]. Qed.

Lemma ser_app (a b : bytes) n m : length a = n /\ is_bytes a -> length b = m /\ is_bytes b -> length (app a b) = (n + m)%nat /\ is_bytes (app a b).
Proof. intros [<- Ha] [<- Hb]. rewrite length_app. split; [done|by apply is_bytes_app]. Qed.

Lemma ser_SproutPaymentAddress a : length (ser c_SproutPaymentAddress a) = 64%nat /\ is_bytes (ser c_SproutPaymentAddress a).
Proof. apply (ser_app _ _ 32 32); apply ser_uint256. Qed.

Lemma ser_SproutViewingKey a : length (ser c_SproutViewingKey a) = 64%nat /\ is_bytes (ser c_SproutViewingKey a).
Proof. apply (ser_app _ _ 32 32); apply ser_uint256. Qed.

Lemma ser_SaplingPaymentAddress a : length (sap_d a) = 11%nat -> is_bytes (sap_d a) ->
  length (ser c_SaplingPaymentAddress a) = 43%nat /\ is_bytes (ser c_SaplingPaymentAddress a).
Proof. intros. apply (ser_app _ _ 11 32); [done|apply ser_uint256]. Qed.

Lemma ser_ExpandedSpendingKey a : length (ser c_ExpandedSpendingKey a) = 96%nat /\ is_bytes (ser c_ExpandedSpendingKey a).
Proof. apply (ser_app _ _ 32 64); [apply ser_uint256|]. apply (ser_app _ _ 32 32); apply ser_uint256. Qed.

Lemma ser_ExtendedSpendingKey a : length (ser c_ExtendedSpendingKey a) = 169%nat /\ is_bytes (ser c_ExtendedSpendingKey a).
Proof.
  apply (ser_app _ _ 1 168); [apply (ser_words 1)|]. apply (ser_app _ _ 4 164); [apply (ser_words 4)|]. apply (ser_app _ _ 4 160); [apply (ser_words 4)|].
  apply (ser_app _ _ 32 128); [apply ser_uint256|]. apply (ser_app _ _ 96 32); [apply ser_ExpandedSpendingKey|apply ser_uint256].
Qed.

(** ** Bech32 texts *)

Lemma hrp_ok_spec hrp groups : hrp_ok hrp groups = true ->
  lower_text hrp /\ zlen hrp + groups + 7 <= 1023 /\ exists c rest, hrp = c :: rest /\ c <> 49 /\ c <> 0 /\ isspace c = false.
Proof.
  unfold hrp_ok. rewrite !andb_true_iff. intros ((H1 & H2) & H3). assert (Hl : lower_text hrp).
  { apply list.Forall_forall. intros x Hx%list_elem_of_In. rewrite forallb_forall in H1. specialize (H1 x Hx). lia. }
  split; [done|]. split; [lia|]. destruct hrp as [|c rest]; [done|]. exists c, rest. apply list.Forall_cons in Hl as [Hc _]. split; [done|]. unfold isspace. lia.
Qed.

Section Sapling.
Context (buf0 : bytes).

(** The text of serialised bytes, and its way back. *)
Lemma sapling_text {A B} hrp (c : codec A) (f : A -> B) (invalid : B) a groups :
  valid c a -> is_bytes (ser c a) -> hrp_ok hrp (Z.of_nat groups) = true -> groups = ((length (ser c a) * 8 + 4) / 5)%nat ->
  decode_sapling hrp groups (unser c) f invalid (Encode hrp (fst (ConvertBits 8 5 true (ser c a)))) = Ret (f a).
Proof.
  intros Hva Hb Hh Hg. destruct (hrp_ok_spec _ _ Hh) as (Hl & Hlen & (h0 & rest & Eh & _)).
  destruct (ConvertBits_pad 8 5 (ser c a) ltac:(lia) ltac:(lia) ltac:(lia) ltac:(lia) Hb) as (out & p & Eo & Hp & Ho & Hn & Hval).
  rewrite Eo. cbn [fst]. assert (Hlo : length out = groups).
  { subst groups. unfold zlen in Hn. apply Nat2Z.inj. rewrite Nat2Z.inj_div, Nat2Z.inj_add, Nat2Z.inj_mul.
    apply Z.div_unique with (4 - p); lia. }
  unfold decode_sapling. rewrite Decode_Encode; [|by rewrite Eh|done|done|unfold zlen in *; lia]. cbn [fst snd].
  rewrite bool_decide_true by done. rewrite Hlo, Nat.eqb_refl. cbn [andb].
  rewrite (ConvertBits_unpad 8 5 (ser c a) out p) by (done || lia). by apply read_all_ser.
Qed.

Lemma Encode_length hrp values groups : groups_ok values -> length values = groups -> zlen (Encode hrp values) = zlen hrp + Z.of_nat groups + 7.
Proof.
  intros Hv <-. rewrite Encode_ok by done. unfold zlen. rewrite length_app. cbn [length]. rewrite length_map, length_app.
  change (length (CreateChecksum hrp values)) with 6%nat. lia.
Qed.

Lemma bech32_not_short hrp values groups prefix n : groups_ok values -> length values = groups -> hrp_ok hrp (Z.of_nat groups) = true ->
  too_short hrp (Z.of_nat groups) (Z.of_nat n + zlen prefix) = true ->
  (match DecodeBase58Check buf0 (Encode hrp values) with Decoded58 data => has_prefix prefix n data | AssertionFailed => true | Invalid58 => false end) = false.
Proof.
  intros Hv Hg Hh Hs. destruct (hrp_ok_spec _ _ Hh) as (_ & _ & (c & rest & Eh & H1 & H0 & Hsp)). pose proof (Encode_length hrp values groups Hv Hg) as Hlen.
  pose proof (DecodeBase58Check_total buf0 (Encode hrp values)) as Ht. destruct (DecodeBase58Check buf0 (Encode hrp values)) as [| |data] eqn:E; [done..|].
  apply checked_decoded in E as [_ E]. rewrite Encode_ok in E, Hlen by done. rewrite Eh in E. cbn [app] in E.
  apply DecodeBase58_size in E; [|done..]. rewrite Eh in Hlen. cbn [app] in Hlen. rewrite Hlen in E. rewrite <- Eh in *.
  unfold has_prefix. apply andb_false_iff. left. apply Nat.eqb_neq. unfold too_short in Hs. unfold zlen in *. rewrite length_app in E.
  assert (length (checksum buf0 data) = 4%nat) by apply length_le_bytes. lia.
Qed.

Lemma read_digits_bad hrp t : not_base58 hrp = true -> read_digits (app hrp t) = None.
Proof.
  unfold not_base58. rewrite andb_true_iff. intros [Hb Hs]. induction hrp as [|c hrp IH]; [done|]. cbn [app read_digits].
  cbn [existsb forallb] in Hb, Hs. rewrite andb_true_iff, negb_true_iff in Hs. destruct Hs as [-> Hs]. destruct (strchr pszBase58 c); [|done].
  by rewrite IH.
Qed.

Lemma bech32_not_base58 hrp values groups : groups_ok values -> hrp_ok hrp groups = true -> not_base58 hrp = true ->
  DecodeBase58Check buf0 (Encode hrp values) = Invalid58.
Proof.
  intros Hv Hh Hn. destruct (hrp_ok_spec _ _ Hh) as (Hl & _ & (c & rest & Eh & H1 & H0 & Hsp)). rewrite Encode_ok by done. set (w := app values _).
  assert (Hw : groups_ok w) by (apply Forall_app; split; [done|apply six_groups_ok]). destruct (text_of_groups w Hw) as [Ht _].
  set (t := map _ w) in *. unfold DecodeBase58Check. pose proof (decode_spec (app hrp (49 :: t))) as H. cbn zeta in H.
  assert (Hc : c_str (app hrp (49 :: t)) = app hrp (49 :: t)).
  { apply c_str_nonzero. apply Forall_app. split; [|constructor; [done|]]; (eapply list.Forall_impl; [eassumption|]); cbn; lia. }
  rewrite Hc, skip_while_head in H by by rewrite Eh. assert (leading 49 (app hrp (49 :: t)) = 0%nat) as E0.
  { rewrite Eh. cbn [app leading]. by destruct (Z.eqb_spec c 49). }
  rewrite E0 in H. rewrite drop_0 in H. rewrite read_digits_bad in H by done. by rewrite H.
Qed.
End Sapling.

(** ** Round trips *)

Lemma digest_words n : forall s l, length s = 5%nat -> length (@digest_blocks CRIPEMD160 n s l) = 5%nat.
Proof.
  induction n as [|n IH]; intros s l Hs; [done|]. cbn [digest_blocks]. apply IH. cbn [bh_Transform CRIPEMD160]. unfold ripemd160_Transform.
  by destruct (ripemd_run _ _ s s).
Qed.

Lemma concat_words (l : list Z) : length (concat (map (le_bytes 4) l)) = (4 * length l)%nat /\ is_bytes (concat (map (le_bytes 4) l)).
Proof.
  induction l as [|x l [IH1 IH2]]; [by split; [|constructor]|]. cbn [map concat length]. rewrite length_app, length_le_bytes, IH1.
  split; [lia|]. apply is_bytes_app. split; [apply le_bytes_is_bytes|done].
Qed.

(** A key's hash has 20 bytes. *)
Lemma GetID_ok buf0 buf1 key : length buf0 = 64%nat -> length buf1 = 64%nat -> 8 * Z.of_nat (length key) < 2 ^ 64 ->
  length (GetID buf0 buf1 key) = 20%nat /\ is_bytes (GetID buf0 buf1 key).
Proof.
  intros H0 H1 Hk. unfold GetID, Hash160. rewrite (CHash160_rep _ key buf1); [|by apply (Write_rep (H := CSHA256) _ [] key), init_rep|done|done].
  unfold digest. cbn [bh_output CRIPEMD160]. destruct (concat_words (@digest_blocks CRIPEMD160 (length (@padded CRIPEMD160 (SHA256 key)) / 64) ripemd160_Initialize (@padded CRIPEMD160 (SHA256 key)))) as [Hl Hb].
  split; [|exact Hb]. etransitivity; [exact Hl|]. by rewrite digest_words.
Qed.

Definition dest_wf (dest : CTxDestination) : Prop :=
  match dest with
  | CNoDestination => True
  | DestPubKey key => 8 * Z.of_nat (length key) < 2 ^ 64
  | CKeyID id | CScriptID id => length id = 20%nat /\ is_bytes id
  end.

(** A key is decoded as the hash it stands for. *)
Definition dest_id buf0 buf1 (dest : CTxDestination) : CTxDestination :=
  match dest with DestPubKey key => CKeyID (GetID buf0 buf1 key) | dest => dest end.

Definition key_wf (seckey_verify : bytes -> bool) (key : CKey) : Prop :=
  fValid key = true /\ length (vch key) = 32%nat /\ is_bytes (vch key) /\ seckey_verify (vch key) = true.

Definition payment_wf (a : PaymentAddress) : Prop :=
  match a with
  | PA_InvalidEncoding => True
  | PA_Sprout a => valid c_SproutPaymentAddress a
  | PA_Sapling a => valid c_SaplingPaymentAddress a /\ is_bytes (sap_d a)
  end.

Definition viewing_wf (k : ViewingKey) : Prop :=
  match k with VK_InvalidEncoding => True | VK_Sprout k => valid c_SproutViewingKey k | VK_Sapling ivk => valid c_uint256 ivk end.

Definition spending_wf (k : SpendingKey) : Prop :=
  match k with
  | SK_InvalidEncoding => True
  | SK_Sprout k => valid c_uint256 k /\ Z.land (k mod 256) 0xF0 = 0
  | SK_Sapling k => valid c_ExtendedSpendingKey k
  end.

Lemma groups_of_bytes l : is_bytes l -> groups_ok (fst (ConvertBits 8 5 true l)) /\ length (fst (ConvertBits 8 5 true l)) = ((length l * 8 + 4) / 5)%nat.
Proof.
  intros Hl. destruct (ConvertBits_pad 8 5 l ltac:(lia) ltac:(lia) ltac:(lia) ltac:(lia) Hl) as (out & p & -> & Hp & Ho & Hn & _). split; [exact Ho|].
  cbn [fst]. unfold zlen in Hn. apply Nat2Z.inj. rewrite Nat2Z.inj_div, Nat2Z.inj_add, Nat2Z.inj_mul. apply Z.div_unique with (4 - p); lia.
Qed.

Section RoundTrips.
Context (P : prefixes) (HP : prefix_facts P) (buf0 buf1 : bytes) (H0 : length buf0 = 64%nat) (H1 : length buf1 = 64%nat).

(** Bytes after a prefix. *)
Lemma prefixed p l : List.In p [PUBKEY_ADDRESS P; SCRIPT_ADDRESS P; SECRET_KEY P; EXT_PUBLIC_KEY P; EXT_SECRET_KEY P; ZCPAYMENT_ADDRRESS P; ZCVIEWING_KEY P; ZCSPENDING_KEY P] ->
  is_bytes l -> exists s, EncodeBase58Check buf0 (app p l) = Some s /\ DecodeBase58Check buf0 s = Decoded58 (app p l).
Proof using HP. intros Hp Hl. apply checked_roundtrip, is_bytes_app. split; [by apply (pf_bytes P HP)|done]. Qed.

Lemma empty_text : DecodeBase58Check buf0 [] = Invalid58.
Proof using Type. reflexivity. Qed.

Lemma address_roundtrip dest : dest_wf dest -> exists s, EncodeDestination P buf0 buf1 dest = Some s /\ DecodeDestination P buf0 s = Ret (dest_id buf0 buf1 dest).
Proof using HP H0 H1.
  assert (Hkey : forall id, length id = 20%nat -> is_bytes id -> exists s, EncodeBase58Check buf0 (app (PUBKEY_ADDRESS P) id) = Some s /\ DecodeDestination P buf0 s = Ret (CKeyID id)).
  { intros id Hl Hb. destruct (prefixed (PUBKEY_ADDRESS P) id) as (s & Es & Ed); [cbn; tauto|done|]. exists s. split; [done|].
    unfold DecodeDestination. rewrite Ed. cbn zeta. by destruct (has_prefix_app (PUBKEY_ADDRESS P) id 20 Hl) as [-> ->]. }
  destruct dest as [|key|id|id]; cbn [dest_wf EncodeDestination dest_id].
  - intros _. exists []. split; [done|]. unfold DecodeDestination. by rewrite empty_text.
  - intros Hk. destruct (GetID_ok buf0 buf1 key H0 H1 Hk). by apply Hkey.
  - intros [Hl Hb]. by apply Hkey.
  - intros [Hl Hb]. destruct (prefixed (SCRIPT_ADDRESS P) id) as (s & Es & Ed); [cbn; tauto|done|]. exists s. split; [done|].
    unfold DecodeDestination. rewrite Ed. cbn zeta. rewrite has_prefix_other by (done || apply (pf_distinct P HP)).
    by destruct (has_prefix_app (SCRIPT_ADDRESS P) id 20 Hl) as [-> ->].
Qed.

Lemma secret_roundtrip seckey_verify key : key_wf seckey_verify key ->
  exists s, EncodeSecret P buf0 key = Some s /\ DecodeSecret P buf0 seckey_verify s = Ret key.
Proof using HP H0 H1.
  destruct key as [v c l]. intros (Hv & Hl & Hb & Hok). cbn [fValid vch] in *. subst v.
  unfold EncodeSecret, EncodeCustomSecret, DecodeSecret, DecodeCustomSecret. cbn [fValid fCompressed vch negb]. set (p := SECRET_KEY P).
  assert (Hrange : forall t, range (app p (app l t)) (length p) (length p + 32) = l).
  { intros t. unfold range. rewrite drop_app_length. replace (length p + 32 - length p)%nat with (length l) by lia. apply take_app_length. }
  assert (Hset : forall c, CKey_Set seckey_verify new_CKey l c = mkCKey true c l) by (intros c0; unfold CKey_Set; by rewrite Hl, Hok).
  destruct c.
  - rewrite <- app_assoc. destruct (prefixed p (app l [1])) as (s & Es & Ed); [unfold p; cbn; tauto| |].
    { apply is_bytes_app. split; [done|]. constructor; [unfold is_u8; lia|constructor]. }
    exists s. split; [done|]. rewrite Ed. cbn zeta. rewrite !length_app. cbn [length]. rewrite Hl. rewrite take_app_length, bool_decide_true by done.
    replace (length p + (32 + 1) - 1)%nat with (length p + 32)%nat by lia. rewrite app_nth2_plus, app_nth2 by lia. rewrite Hl. cbn [nth Nat.sub].
    destruct (Nat.eqb_spec (length p + (32 + 1)) (32 + length p)); [lia|]. destruct (Nat.eqb_spec (length p + (32 + 1)) (33 + length p)); [|lia].
    cbn [orb andb Z.eqb Pos.eqb]. by rewrite Hrange, Hset.
  - destruct (prefixed p l) as (s & Es & Ed); [unfold p; cbn; tauto|done|]. exists s. split; [done|]. rewrite Ed. cbn zeta.
    rewrite !length_app, Hl, take_app_length, bool_decide_true by done. destruct (Nat.eqb_spec (length p + 32) (32 + length p)); [|lia].
    destruct (Nat.eqb_spec (length p + 32) (33 + length p)); [lia|]. cbn [orb andb]. specialize (Hrange []). rewrite app_nil_r in Hrange. by rewrite Hrange, Hset.
Qed.

Lemma payment_roundtrip a : payment_wf a -> exists s, EncodePaymentAddress P buf0 a = Some s /\ DecodePaymentAddress P buf0 s = Ret a.
Proof using HP H0 H1.
  destruct (pf_pa P HP) as [Hh Hs]. destruct a as [|a|a]; cbn [payment_wf EncodePaymentAddress].
  - intros _. exists []. split; [done|]. unfold DecodePaymentAddress, SerializedSproutPaymentAddressSize. rewrite empty_text. cbn [andb]. unfold decode_sapling. cbn.
    rewrite bool_decide_false; [done|]. destruct (hrp_ok_spec _ _ Hh) as (_ & _ & (c & r & -> & _)). done.
  - intros Hv. destruct (ser_SproutPaymentAddress a) as [Hl Hb]. destruct (prefixed (ZCPAYMENT_ADDRRESS P) (ser c_SproutPaymentAddress a)) as (s & Es & Ed); [cbn; tauto|done|].
    exists s. split; [done|]. unfold DecodePaymentAddress, SerializedSproutPaymentAddressSize. rewrite Ed. cbn zeta. destruct (has_prefix_app (ZCPAYMENT_ADDRRESS P) _ 64 Hl) as [-> ->]. by apply read_all_ser.
  - intros [Hv Hd]. destruct (ser_SaplingPaymentAddress a (proj1 Hv) Hd) as [Hl Hb]. eexists. split; [done|]. destruct (groups_of_bytes _ Hb) as [Hg Hgl]. rewrite Hl in Hgl.
    pose proof (bech32_not_short buf0 (SAPLING_PAYMENT_ADDRESS P) _ 69 (ZCPAYMENT_ADDRRESS P) 64 Hg Hgl Hh Hs) as Hf. unfold DecodePaymentAddress, SerializedSproutPaymentAddressSize.
    destruct (DecodeBase58Check buf0 _) as [| |data]; [done| |]; cbn zeta; [|rewrite Hf]; cbn [andb];
      apply (sapling_text (SAPLING_PAYMENT_ADDRESS P) c_SaplingPaymentAddress PA_Sapling _ a 69 Hv Hb Hh); by rewrite Hl.
Qed.

Lemma viewing_roundtrip k : viewing_wf k -> exists s, EncodeViewingKey P buf0 k = Some s /\ DecodeViewingKey P buf0 s = Ret k.
Proof using HP H0 H1.
  destruct (pf_vk P HP) as [Hh Hs]. destruct k as [|a|a]; cbn [viewing_wf EncodeViewingKey].
  - intros _. exists []. split; [done|]. unfold DecodeViewingKey, SerializedSproutViewingKeySize. rewrite empty_text. cbn [andb]. unfold decode_sapling. cbn.
    rewrite bool_decide_false; [done|]. destruct (hrp_ok_spec _ _ Hh) as (_ & _ & (c & r & -> & _)). done.
  - intros Hv. destruct (ser_SproutViewingKey a) as [Hl Hb]. destruct (prefixed (ZCVIEWING_KEY P) (ser c_SproutViewingKey a)) as (s & Es & Ed); [cbn; tauto|done|].
    exists s. split; [done|]. unfold DecodeViewingKey, SerializedSproutViewingKeySize. rewrite Ed. cbn zeta. destruct (has_prefix_app (ZCVIEWING_KEY P) _ 64 Hl) as [-> ->]. by apply read_all_ser.
  - intros Hv. destruct (ser_uint256 a) as [Hl Hb]. eexists. split; [done|]. destruct (groups_of_bytes _ Hb) as [Hg Hgl]. rewrite Hl in Hgl.
    pose proof (bech32_not_short buf0 (SAPLING_INCOMING_VIEWING_KEY P) _ 52 (ZCVIEWING_KEY P) 64 Hg Hgl Hh Hs) as Hf. unfold DecodeViewingKey, SerializedSproutViewingKeySize.
    destruct (DecodeBase58Check buf0 _) as [| |data]; [done| |]; cbn zeta; [|rewrite Hf]; cbn [andb];
      apply (sapling_text (SAPLING_INCOMING_VIEWING_KEY P) c_uint256 VK_Sapling _ a 52 Hv Hb Hh); by rewrite Hl.
Qed.

Lemma spending_roundtrip k : spending_wf k -> exists s, EncodeSpendingKey P buf0 k = Some s /\ DecodeSpendingKey P buf0 s = Ret k.
Proof using HP H0 H1.
  destruct (pf_sk P HP) as [Hh Hs]. destruct k as [|a|a]; cbn [spending_wf EncodeSpendingKey].
  - intros _. exists []. split; [done|]. unfold DecodeSpendingKey, SerializedSproutSpendingKeySize. rewrite empty_text. cbn [andb]. unfold decode_sapling. cbn.
    rewrite bool_decide_false; [done|]. destruct (hrp_ok_spec _ _ Hh) as (_ & _ & (c & r & -> & _)). done.
  - intros [Hv Hz]. destruct (ser_uint256 a) as [Hl Hb]. destruct (prefixed (ZCSPENDING_KEY P) (ser c_uint256 a)) as (s & Es & Ed); [cbn; tauto|done|].
    exists s. split; [done|]. unfold DecodeSpendingKey, SerializedSproutSpendingKeySize. rewrite Ed. cbn zeta. destruct (has_prefix_app (ZCSPENDING_KEY P) _ 32 Hl) as [-> ->]. cbn [andb].
    unfold read_all, read_uint252. rewrite <- (app_nil_r (ser c_uint256 a)), bind_unser by done. by rewrite Hz.
  - intros Hv. destruct (ser_ExtendedSpendingKey a) as [Hl Hb]. eexists. split; [done|]. destruct (groups_of_bytes _ Hb) as [Hg _].
    unfold DecodeSpendingKey, SerializedSproutSpendingKeySize. rewrite (bech32_not_base58 buf0 _ _ 271 Hg Hh Hs). cbn [andb].
    apply (sapling_text (SAPLING_EXTENDED_SPEND_KEY P) c_ExtendedSpendingKey SK_Sapling _ a 271 Hv Hb Hh). by rewrite Hl.
Qed.
End RoundTrips.

(** *** Extended keys *)

Lemma child_roundtrip n a b c d' e l : is_u32 n -> child_value (a :: b :: c :: d' :: e :: app (child_bytes n) l) = n.
Proof.
  intros Hn. unfold is_u32 in Hn. unfold child_value, child_bytes. cbn [nth app]. change 0xFF with (Z.ones 8). rewrite !Z.land_ones, !Z.shiftr_div_pow2, !Z.shiftl_mul_pow2 by lia.
  change (2 ^ 0) with 1. rewrite Z.div_1_r. set (x3 := (n / 2 ^ 24) mod 2 ^ 8). set (x2 := (n / 2 ^ 16) mod 2 ^ 8). set (x1 := (n / 2 ^ 8) mod 2 ^ 8). set (x0 := n mod 2 ^ 8).
  assert (Hb : 0 <= x3 < 256 /\ 0 <= x2 < 256 /\ 0 <= x1 < 256 /\ 0 <= x0 < 256) by (split_and!; apply Z.mod_pos_bound; lia).
  unfold u32. rewrite (Z.mod_small (x3 * 2 ^ 24)) by lia. rewrite (lor_low (x3 * 2 ^ 24) (x2 * 2 ^ 16) 24) by (rewrite ?Z.mod_mul; lia).
  rewrite (lor_low (x3 * 2 ^ 24 + x2 * 2 ^ 16) (x1 * 2 ^ 8) 16); [|lia| |lia].
  2:{ replace (x3 * 2 ^ 24 + x2 * 2 ^ 16) with ((x3 * 2 ^ 8 + x2) * 2 ^ 16) by lia. apply Z.mod_mul. lia. }
  rewrite lor_low with (k := 8); [|lia| |lia].
  2:{ replace (x3 * 2 ^ 24 + x2 * 2 ^ 16 + x1 * 2 ^ 8) with ((x3 * 2 ^ 16 + x2 * 2 ^ 8 + x1) * 2 ^ 8) by lia. apply Z.mod_mul. lia. }
  subst x3 x2 x1 x0. clear Hb. rewrite (Z.mod_small (n / 2 ^ 24)) by (split; [apply Z.div_pos; lia|apply Z.div_lt_upper_bound; lia]).
  replace (2 ^ 24) with (2 ^ 8 * 2 ^ 8 * 2 ^ 8) by lia. replace (2 ^ 16) with (2 ^ 8 * 2 ^ 8) by lia. rewrite <- !Z.div_div by lia.
  pose proof (Z.div_mod n (2 ^ 8) ltac:(lia)). pose proof (Z.div_mod (n / 2 ^ 8) (2 ^ 8) ltac:(lia)). pose proof (Z.div_mod (n / 2 ^ 8 / 2 ^ 8) (2 ^ 8) ltac:(lia)). lia.
Qed.

Definition extpub_wf (k : CExtPubKey) : Prop :=
  is_u8 (xp_nDepth k) /\ length (xp_vchFingerprint k) = 4%nat /\ is_bytes (xp_vchFingerprint k) /\ is_u32 (xp_nChild k) /\
  length (xp_chaincode k) = 32%nat /\ is_bytes (xp_chaincode k) /\
  length (xp_pubkey k) = 33%nat /\ is_bytes (xp_pubkey k) /\ CPubKey_Set (xp_pubkey k) = xp_pubkey k.

Definition extkey_wf (seckey_verify : bytes -> bool) (k : CExtKey) : Prop :=
  is_u8 (xk_nDepth k) /\ length (xk_vchFingerprint k) = 4%nat /\ is_bytes (xk_vchFingerprint k) /\ is_u32 (xk_nChild k) /\
  length (xk_chaincode k) = 32%nat /\ is_bytes (xk_chaincode k) /\ key_wf seckey_verify (xk_key k) /\ fCompressed (xk_key k) = true.

(** The fields of a code of 74 bytes. *)
Lemma code_fields nd fp n cc l : length fp = 4%nat -> is_u32 n -> length cc = 32%nat -> length l = 33%nat ->
  let code := nd :: app fp (app (child_bytes n) (app cc l)) in
  length code = 74%nat /\ nth 0 code 0 = nd /\ range code 1 5 = fp /\ child_value code = n /\ range code 9 41 = cc /\ range code 41 74 = l /\
  range code 42 74 = drop 1 l.
Proof.
  intros Hf Hn Hc Hl code. split. { unfold code. cbn [length]. rewrite !length_app, Hf, Hc, Hl. done. }
  destruct fp as [|a [|b [|c [|e [|]]]]]; try done. split; [done|]. split; [done|]. split; [by apply child_roundtrip|].
  assert (H9 : drop 9 code = app cc l) by done.
  assert (H41 : drop 41 code = l) by (change 41%nat with (9 + 32)%nat; rewrite <- drop_drop, H9; by apply drop_app_length').
  unfold range. rewrite H9, H41. split; [by apply take_app_length'|]. split; [by rewrite take_ge by lia|].
  change 42%nat with (41 + 1)%nat. rewrite <- drop_drop, H41. apply take_ge. rewrite length_drop. lia.
Qed.

Lemma child_bytes_ok n : is_bytes (child_bytes n).
Proof. unfold child_bytes. change 0xFF with (Z.ones 8). repeat (constructor; [rewrite Z.land_ones by lia; apply Z.mod_pos_bound; lia|]). constructor. Qed.

Lemma extpub_roundtrip P buf0 k : prefix_facts P -> extpub_wf k ->
  exists s, EncodeExtPubKey P buf0 k = Some s /\ DecodeExtPubKey P buf0 s = Ret (Some k).
Proof.
  intros HP. destruct k as [nd fp n cc pk]. intros (H1 & H2 & H3 & H4 & H5 & H6 & H7 & H8 & H9). cbn [xp_nDepth xp_vchFingerprint xp_nChild xp_chaincode xp_pubkey] in *.
  destruct (code_fields nd fp n cc pk H2 H4 H5 H7) as (Hc & F1 & F2 & F3 & F4 & F5 & _). set (code := nd :: _) in *.
  unfold EncodeExtPubKey, CExtPubKey_Encode. cbn [xp_nDepth xp_vchFingerprint xp_nChild xp_chaincode xp_pubkey]. rewrite H7. cbn [Nat.eqb mbind option_bind]. fold code.
  destruct (prefixed P HP buf0 (EXT_PUBLIC_KEY P) code) as (s & Es & Ed); [cbn; tauto| |].
  { constructor; [done|]. apply is_bytes_app. split; [done|]. apply is_bytes_app. split; [apply child_bytes_ok|]. by apply is_bytes_app. }
  exists s. split; [done|]. unfold DecodeExtPubKey, BIP32_EXTKEY_SIZE. rewrite Ed. cbn zeta. destruct (has_prefix_app (EXT_PUBLIC_KEY P) code 74 Hc) as [-> ->].
  unfold CExtPubKey_Decode. by rewrite F1, F2, F3, F4, F5, H9.
Qed.

Lemma extkey_roundtrip P buf0 seckey_verify k : prefix_facts P -> extkey_wf seckey_verify k ->
  exists s, EncodeExtKey P buf0 k = Some s /\ DecodeExtKey P buf0 seckey_verify s = Ret (Some k).
Proof.
  intros HP. destruct k as [nd fp n cc [v c l]]. intros (H1 & H2 & H3 & H4 & H5 & H6 & (H7 & H8 & H9 & H10) & H11).
  cbn [xk_nDepth xk_vchFingerprint xk_nChild xk_chaincode xk_key fValid fCompressed vch] in *. subst v c.
  destruct (code_fields nd fp n cc (0 :: l) H2 H4 H5) as (Hc & F1 & F2 & F3 & F4 & _ & F5); [by cbn; rewrite H8|]. set (code := nd :: _) in *. cbn [drop] in F5.
  unfold EncodeExtKey, CExtKey_Encode. cbn [xk_nDepth xk_vchFingerprint xk_nChild xk_chaincode xk_key fValid vch mbind option_bind]. fold code.
  destruct (prefixed P HP buf0 (EXT_SECRET_KEY P) code) as (s & Es & Ed); [cbn; tauto| |].
  { constructor; [done|]. apply is_bytes_app. split; [done|]. apply is_bytes_app. split; [apply child_bytes_ok|]. apply is_bytes_app. split; [done|].
    constructor; [unfold is_u8; lia|done]. }
  exists s. split; [done|]. unfold DecodeExtKey, BIP32_EXTKEY_SIZE. rewrite Ed. cbn zeta. destruct (has_prefix_app (EXT_SECRET_KEY P) code 74 Hc) as [-> ->].
  unfold CExtKey_Decode, CKey_Set. rewrite F1, F2, F3, F4, F5. rewrite drop_0, H8. cbn [Nat.eqb negb]. by rewrite H10.
Qed.

(** ** The older address class *)

Lemma address_class P buf0 s : length (PUBKEY_ADDRESS P) = 1%nat -> length (SCRIPT_ADDRESS P) = 1%nat ->
  exists ok a, CBitcoinAddress_SetString buf0 s = Some (ok, a) /\
    DecodeDestination P buf0 s = Ret (CBitcoinAddress_Get (PUBKEY_ADDRESS P) (SCRIPT_ADDRESS P) a).
Proof.
  intros Hp Hs. unfold CBitcoinAddress_SetString, CBase58Data_SetString, DecodeDestination.
  pose proof (DecodeBase58Check_total buf0 s). destruct (DecodeBase58Check buf0 s) as [| |data]; [done| |].
  { eexists _, _. split; [done|]. unfold CBitcoinAddress_Get, CBitcoinAddress_IsValid. cbn [vchVersion vchData length]. done. }
  destruct data as [|v data]. { eexists _, _. split; [done|]. unfold has_prefix. rewrite Hp, Hs. done. }
  eexists _, _. split; [done|]. change (take 1 (v :: data)) with [v]. change (drop 1 (v :: data)) with data.
  unfold CBitcoinAddress_Get, CBitcoinAddress_IsValid, has_prefix. cbn [vchVersion vchData]. rewrite Hp, Hs.
  change (length (v :: data)) with (S (length data)). change (take 1 (v :: data)) with [v]. change (drop 1 (v :: data)) with data.
  destruct (Nat.eqb_spec (length data) 20) as [E|E].
  - rewrite E, (take_ge data 20) by lia. cbn [Nat.add Nat.eqb andb].
    destruct (bool_decide ([v] = PUBKEY_ADDRESS P)); [done|]. by destruct (bool_decide ([v] = SCRIPT_ADDRESS P)).
  - destruct (Nat.eqb_spec (S (length data)) (20 + 1)); [lia|]. done.
Qed.

(** ** Properties *)

(** C19: every kind of key and address is read back from its text.  On
    each of the three networks, with the network's prefixes and human-readable
    parts: EncodeDestination gives a text, without a failed assertion, that
    DecodeDestination reads as the same destination, a public key as the hash
    that stands for it; so do the secret keys, the extended public and secret
    keys, and the transparent-checksum (Sprout) and Bech32 (Sapling) payment
    addresses, viewing keys and spending keys.  In particular no Sapling text is
    taken for a Sprout one, although the base-58 decoder is tried first. *)
Theorem key_io_roundtrip P buf0 buf1 seckey_verify :
  P = main_prefixes \/ P = test_prefixes \/ P = regtest_prefixes -> length buf0 = 64%nat -> length buf1 = 64%nat ->
  (forall dest, dest_wf dest -> exists s, EncodeDestination P buf0 buf1 dest = Some s /\ DecodeDestination P buf0 s = Ret (dest_id buf0 buf1 dest)) /\
  (forall key, key_wf seckey_verify key -> exists s, EncodeSecret P buf0 key = Some s /\ DecodeSecret P buf0 seckey_verify s = Ret key) /\
  (forall k, extpub_wf k -> exists s, EncodeExtPubKey P buf0 k = Some s /\ DecodeExtPubKey P buf0 s = Ret (Some k)) /\
  (forall k, extkey_wf seckey_verify k -> exists s, EncodeExtKey P buf0 k = Some s /\ DecodeExtKey P buf0 seckey_verify s = Ret (Some k)) /\
  (forall a, payment_wf a -> exists s, EncodePaymentAddress P buf0 a = Some s /\ DecodePaymentAddress P buf0 s = Ret a) /\
  (forall k, viewing_wf k -> exists s, EncodeViewingKey P buf0 k = Some s /\ DecodeViewingKey P buf0 s = Ret k) /\
  (forall k, spending_wf k -> exists s, EncodeSpendingKey P buf0 k = Some s /\ DecodeSpendingKey P buf0 s = Ret k).
Proof.
  intros HP%prefixes_facts H0 H1. split_and!; intros x Hx.
  - by apply address_roundtrip.
  - by eapply secret_roundtrip.
  - by apply extpub_roundtrip.
  - by apply extkey_roundtrip.
  - by eapply payment_roundtrip.
  - by eapply viewing_roundtrip.
  - by eapply spending_roundtrip.
Qed.

Lemma key_io_roundtrip_witness :
  (exists s, EncodePaymentAddress main_prefixes (repeat 0 64) (PA_Sapling (mkSaplingPaymentAddress (repeat 7 11) 12345)) = Some s /\
    DecodePaymentAddress main_prefixes (repeat 0 64) s = Ret (PA_Sapling (mkSaplingPaymentAddress (repeat 7 11) 12345))) /\
  (exists s, EncodeDestination main_prefixes (repeat 0 64) (repeat 0 64) (CScriptID (repeat 9 20)) = Some s /\
    DecodeDestination main_prefixes (repeat 0 64) s = Ret (CScriptID (repeat 9 20))).
Proof.
  destruct (key_io_roundtrip main_prefixes (repeat 0 64) (repeat 0 64) (fun _ => true) (or_introl eq_refl) eq_refl eq_refl) as (Hd & _ & _ & _ & Hp & _).
  split.
  - apply Hp. cbn. split; [split; [done|lia]|]. repeat (constructor; [unfold is_u8; lia|]). constructor.
  - apply (Hd (CScriptID (repeat 9 20))). split; [done|]. cbn. repeat (constructor; [unfold is_u8; lia|]). constructor.
Defined.

(** The two ways to read an address agree.  With prefixes of one byte,
    as on every network here, CBitcoinAddress(str).Get() of base58.cpp is
    DecodeDestination(str) of key_io.cpp for every string, malformed ones
    included, and neither fails an assertion. *)
Theorem address_classes_agree P buf0 s : P = main_prefixes \/ P = test_prefixes \/ P = regtest_prefixes ->
  exists ok a, CBitcoinAddress_SetString buf0 s = Some (ok, a) /\
    DecodeDestination P buf0 s = Ret (CBitcoinAddress_Get (PUBKEY_ADDRESS P) (SCRIPT_ADDRESS P) a).
Proof. intros HP. apply address_class; destruct HP as [->|[->| ->]]; done. Qed.

(** A text that is no address. *)
Lemma address_classes_agree_witness : exists ok a, CBitcoinAddress_SetString (repeat 0 64) [49; 65; 49; 122] = Some (ok, a) /\
  DecodeDestination test_prefixes (repeat 0 64) [49; 65; 49; 122] = Ret (CBitcoinAddress_Get [0] [5] a).
Proof. apply (address_classes_agree test_prefixes). by right; left. Defined.
