(* ===== verification/StrEncodings.v ===== *)
(** * Text encodings (src/src/utilstrencodings.cpp, utilstrencodings.h, utilmoneystr.cpp)

    Hexadecimal, base 64 and base 32, integers and fixed-point amounts as text.
    Strings are lists of character codes; [strtol] and the printing of integers
    are the C library's. *)
From S2P Require Import Prelude Serialize Transaction Script Base58 Bech32.
#[local] Open Scope Z_scope.

(** ** Filters *)

Definition CHARS_ALPHA_NUM : bytes :=
  [97; 98; 99; 100; 101; 102; 103; 104; 105; 106; 107; 108; 109; 110; 111; 112; 113; 114; 115; 116; 117; 118; 119; 120; 121; 122; 65; 66; 67; 68; 69; 70; 71; 72; 73; 74; 75; 76; 77; 78; 79; 80; 81; 82; 83; 84; 85; 86; 87; 88; 89; 90; 48; 49; 50; 51; 52; 53; 54; 55; 56; 57].

Definition SAFE_CHARS (rule : Z) : bytes :=
  app CHARS_ALPHA_NUM
    (if rule =? 0 then [32; 46; 44; 59; 95; 47; 58; 63; 64; 40; 41]
     else if rule =? 1 then [32; 46; 44; 59; 95; 63; 64]
     else [33; 42; 39; 40; 41; 59; 58; 64; 38; 61; 43; 36; 44; 47; 63; 35; 91; 93; 45; 95; 46; 126; 37]).

Definition SanitizeString (str : bytes) (rule : Z) : bytes := filter (fun c => c ∈ SAFE_CHARS rule) str.

(** ** Hexadecimal *)

Definition p_util_hexdigit : list Z :=
  [
   -1; -1; -1; -1; -1; -1; -1; -1; -1; -1; -1; -1; -1; -1; -1; -1; -1; -1; -1; -1; -1; -1; -1; -1; -1; -1; -1; -1; -1; -1; -1; -1;
   -1; -1; -1; -1; -1; -1; -1; -1; -1; -1; -1; -1; -1; -1; -1; -1; 0; 1; 2; 3; 4; 5; 6; 7; 8; 9; -1; -1; -1; -1; -1; -1;
   -1; 10; 11; 12; 13; 14; 15; -1; -1; -1; -1; -1; -1; -1; -1; -1; -1; -1; -1; -1; -1; -1; -1; -1; -1; -1; -1; -1; -1; -1; -1; -1;
   -1; 10; 11; 12; 13; 14; 15; -1; -1; -1; -1; -1; -1; -1; -1; -1; -1; -1; -1; -1; -1; -1; -1; -1; -1; -1; -1; -1; -1; -1; -1; -1;
   -1; -1; -1; -1; -1; -1; -1; -1; -1; -1; -1; -1; -1; -1; -1; -1; -1; -1; -1; -1; -1; -1; -1; -1; -1; -1; -1; -1; -1; -1; -1; -1;
   -1; -1; -1; -1; -1; -1; -1; -1; -1; -1; -1; -1; -1; -1; -1; -1; -1; -1; -1; -1; -1; -1; -1; -1; -1; -1; -1; -1; -1; -1; -1; -1;
   -1; -1; -1; -1; -1; -1; -1; -1; -1; -1; -1; -1; -1; -1; -1; -1; -1; -1; -1; -1; -1; -1; -1; -1; -1; -1; -1; -1; -1; -1; -1; -1;
   -1; -1; -1; -1; -1; -1; -1; -1; -1; -1; -1; -1; -1; -1; -1; -1; -1; -1; -1; -1; -1; -1; -1; -1; -1; -1; -1; -1; -1; -1; -1; -1].

Definition HexDigit (c : Z) : Z := nth (Z.to_nat c) p_util_hexdigit (-1).

Definition IsHex (str : bytes) : bool :=
  forallb (fun c => negb (HexDigit c <? 0)) str && ((0 <? zlen str) && (zlen str mod 2 =? 0)).

(** The loop: a space is skipped only before the first digit of a pair. *)
Fixpoint parse_hex (psz : bytes) (high : option Z) : bytes :=
  match psz with
  | [] => []
  | ch :: psz =>
    match high with
    | None =>
      if isspace ch then parse_hex psz None
      else let c := HexDigit ch in if c =? -1 then [] else parse_hex psz (Some (u8 (Z.shiftl c 4)))
    | Some n => let c := HexDigit ch in if c =? -1 then [] else Z.lor n c :: parse_hex psz None
    end
  end.

Definition ParseHex (str : bytes) : bytes := parse_hex (c_str str) None.

Definition hexmap : bytes := [48; 49; 50; 51; 52; 53; 54; 55; 56; 57; 97; 98; 99; 100; 101; 102].

Fixpoint HexStr (vch : bytes) (fSpaces first : bool) : bytes :=
  match vch with
  | [] => []
  | val :: vch =>
    let space := if fSpaces && negb first then [32] else [] in
    app space (nth (Z.to_nat (Z.shiftr val 4)) hexmap 0 :: nth (Z.to_nat (Z.land val 15)) hexmap 0 :: HexStr vch fSpaces false)
  end.

(** ** Base 64 and base 32 *)

Definition pbase64 : bytes :=
  [65; 66; 67; 68; 69; 70; 71; 72; 73; 74; 75; 76; 77; 78; 79; 80; 81; 82; 83; 84; 85; 86; 87; 88; 89; 90; 97; 98; 99; 100; 101; 102; 103; 104; 105; 106; 107; 108; 109; 110; 111; 112; 113; 114; 115; 116; 117; 118; 119; 120; 121; 122; 48; 49; 50; 51; 52; 53; 54; 55; 56; 57; 43; 47].
Definition pbase32 : bytes :=
  [97; 98; 99; 100; 101; 102; 103; 104; 105; 106; 107; 108; 109; 110; 111; 112; 113; 114; 115; 116; 117; 118; 119; 120; 121; 122; 50; 51; 52; 53; 54; 55].

Definition decode64_table : list Z :=
  [
   -1; -1; -1; -1; -1; -1; -1; -1; -1; -1; -1; -1; -1; -1; -1; -1; -1; -1; -1; -1; -1; -1; -1; -1; -1; -1; -1; -1; -1; -1; -1; -1;
   -1; -1; -1; -1; -1; -1; -1; -1; -1; -1; -1; 62; -1; -1; -1; 63; 52; 53; 54; 55; 56; 57; 58; 59; 60; 61; -1; -1; -1; -1; -1; -1;
   -1; 0; 1; 2; 3; 4; 5; 6; 7; 8; 9; 10; 11; 12; 13; 14; 15; 16; 17; 18; 19; 20; 21; 22; 23; 24; 25; -1; -1; -1; -1; -1;
   -1; 26; 27; 28; 29; 30; 31; 32; 33; 34; 35; 36; 37; 38; 39; 40; 41; 42; 43; 44; 45; 46; 47; 48; 49; 50; 51; -1; -1; -1; -1; -1;
   -1; -1; -1; -1; -1; -1; -1; -1; -1; -1; -1; -1; -1; -1; -1; -1; -1; -1; -1; -1; -1; -1; -1; -1; -1; -1; -1; -1; -1; -1; -1; -1;
   -1; -1; -1; -1; -1; -1; -1; -1; -1; -1; -1; -1; -1; -1; -1; -1; -1; -1; -1; -1; -1; -1; -1; -1; -1; -1; -1; -1; -1; -1; -1; -1;
   -1; -1; -1; -1; -1; -1; -1; -1; -1; -1; -1; -1; -1; -1; -1; -1; -1; -1; -1; -1; -1; -1; -1; -1; -1; -1; -1; -1; -1; -1; -1; -1;
   -1; -1; -1; -1; -1; -1; -1; -1; -1; -1; -1; -1; -1; -1; -1; -1; -1; -1; -1; -1; -1; -1; -1; -1; -1; -1; -1; -1; -1; -1; -1; -1].
Definition decode32_table : list Z :=
  [
   -1; -1; -1; -1; -1; -1; -1; -1; -1; -1; -1; -1; -1; -1; -1; -1; -1; -1; -1; -1; -1; -1; -1; -1; -1; -1; -1; -1; -1; -1; -1; -1;
   -1; -1; -1; -1; -1; -1; -1; -1; -1; -1; -1; -1; -1; -1; -1; -1; -1; -1; 26; 27; 28; 29; 30; 31; -1; -1; -1; -1; -1; -1; -1; -1;
   -1; 0; 1; 2; 3; 4; 5; 6; 7; 8; 9; 10; 11; 12; 13; 14; 15; 16; 17; 18; 19; 20; 21; 22; 23; 24; 25; -1; -1; -1; -1; -1;
   -1; 0; 1; 2; 3; 4; 5; 6; 7; 8; 9; 10; 11; 12; 13; 14; 15; 16; 17; 18; 19; 20; 21; 22; 23; 24; 25; -1; -1; -1; -1; -1;
   -1; -1; -1; -1; -1; -1; -1; -1; -1; -1; -1; -1; -1; -1; -1; -1; -1; -1; -1; -1; -1; -1; -1; -1; -1; -1; -1; -1; -1; -1; -1; -1;
   -1; -1; -1; -1; -1; -1; -1; -1; -1; -1; -1; -1; -1; -1; -1; -1; -1; -1; -1; -1; -1; -1; -1; -1; -1; -1; -1; -1; -1; -1; -1; -1;
   -1; -1; -1; -1; -1; -1; -1; -1; -1; -1; -1; -1; -1; -1; -1; -1; -1; -1; -1; -1; -1; -1; -1; -1; -1; -1; -1; -1; -1; -1; -1; -1;
   -1; -1; -1; -1; -1; -1; -1; -1; -1; -1; -1; -1; -1; -1; -1; -1; -1; -1; -1; -1; -1; -1; -1; -1; -1; -1; -1; -1; -1; -1; -1; -1].

(** [while (str.size() % n) str += '=']: fewer than [n] times. *)
Fixpoint pad_to (fuel : nat) (n : Z) (str : bytes) : bytes :=
  match fuel with
  | O => str
  | S fuel => if zlen str mod n =? 0 then str else pad_to fuel n (app str [61])
  end.

Definition EncodeBase64 (pch : bytes) : bytes :=
  let str := map (fun v => nth (Z.to_nat v) pbase64 0) (fst (ConvertBits 8 6 true pch)) in
  pad_to 4 4 str.

Definition EncodeBase32 (pch : bytes) : bytes :=
  let str := map (fun v => nth (Z.to_nat v) pbase32 0) (fst (ConvertBits 8 5 true pch)) in
  pad_to 8 8 str.

(** The digits up to the first character that is none, and the rest. *)
Fixpoint read_table (table : list Z) (p : bytes) : list Z * bytes :=
  match p with
  | [] => ([], [])
  | c :: p' =>
    let x := nth (Z.to_nat c) table (-1) in
    if x =? -1 then ([], p)
    else let '(val, q) := read_table table p' in (x :: val, q)
  end.

(** The loop over the padding: whether all was '=' and the number of characters passed. *)
Fixpoint read_padding (p : bytes) : bool * Z :=
  match p with
  | [] => (true, 0)
  | c :: p => if negb (c =? 61) then (false, 0) else let '(v, k) := read_padding p in (v, k + 1)
  end.

(** The bytes, and [*pfInvalid] negated. *)
Definition decode_base (table : list Z) (frombits n : Z) (str : bytes) : bytes * bool :=
  let p := c_str str in
  let '(val, q) := read_table table p in
  let '(ret, valid) := ConvertBits frombits 8 false val in
  let '(valid, k) := if valid then read_padding q else (false, 0) in
  (ret, valid && ((zlen val + k) mod n =? 0) && (k <? n)).

Definition DecodeBase64 (str : bytes) : bytes * bool := decode_base decode64_table 6 4 str.
Definition DecodeBase32 (str : bytes) : bytes * bool := decode_base decode32_table 5 8 str.

(** ** Integers *)

(** The C library's decimal printing of a number that is not negative, and of one with eight places. *)
Fixpoint dec_digits (fuel : nat) (n : Z) (acc : bytes) : bytes :=
  match fuel with
  | O => acc
  | S fuel => let acc := 48 + n mod 10 :: acc in if n <? 10 then acc else dec_digits fuel (n / 10) acc
  end.
Definition print_dec (n : Z) : bytes := dec_digits 20 n [].

Fixpoint places (k : nat) (n : Z) : bytes :=
  match k with O => [] | S k => app (places k (n / 10)) [48 + n mod 10] end.

(** The C library's [strtoll] in base 10: the value within the type, whether it was in
    range, and what follows the number ([None]: no conversion). *)
Fixpoint scan_digits (s : bytes) (acc : Z) : Z * bytes :=
  match s with
  | [] => (acc, [])
  | c :: s' => if isdigit c then scan_digits s' (acc * 10 + (c - 48)) else (acc, s)
  end.

Definition strtoll (s : bytes) : Z * bool * option bytes :=
  let s := skip_while isspace s in
  let '(neg, s) := match s with c :: s' => if c =? 45 then (true, s') else if c =? 43 then (false, s') else (false, s) | [] => (false, s) end in
  match s with
  | c :: _ =>
    if isdigit c then
      let '(v, rest) := scan_digits s 0 in
      let v := if neg then - v else v in
      if v <? - 2 ^ 63 then (- 2 ^ 63, false, Some rest)
      else if 2 ^ 63 <=? v then (2 ^ 63 - 1, false, Some rest)
      else (v, true, Some rest)
    else (0, true, None)
  | [] => (0, true, None)
  end.

Definition ParsePrechecks (str : bytes) : bool :=
  if (length str =? 0)%nat then false
  else if (1 <=? zlen str) && (isspace (nth 0 str 0) || isspace (nth (length str - 1) str 0)) then false
  else if negb (zlen str =? zlen (c_str str)) then false
  else true.

(** The value stored, if any, and the result; [endp] stays at the start where nothing is converted. *)
Definition parse_int (lo hi : Z) (str : bytes) : option Z * bool :=
  if negb (ParsePrechecks str) then (None, false)
  else
    let '(n, in_range, endp) := strtoll (c_str str) in
    let at_end := match endp with Some [] => true | Some _ => false | None => (length (c_str str) =? 0)%nat end in
    (Some n, at_end && in_range && (lo <=? n) && (n <=? hi)).

Definition ParseInt32 (str : bytes) : option Z * bool :=
  let '(n, ok) := parse_int (- 2 ^ 31) (2 ^ 31 - 1) str in (n ← n; Some (i32 n), ok).
Definition ParseInt64 (str : bytes) : option Z * bool := parse_int (- 2 ^ 63) (2 ^ 63 - 1) str.

(** ** Amounts (utilmoneystr.cpp, rpc/server.cpp) *)

(** The trimming loop, on the text from its end. *)
Fixpoint trim_zeros (r : bytes) : bytes :=
  match r with
  | c :: r' => if (c =? 48) && isdigit (nth 1 r' 0) then trim_zeros r' else r
  | [] => []
  end.

Definition FormatMoney (n : Z) : bytes :=
  let n_abs := if 0 <? n then n else i64 (- n) in
  let quotient := n_abs ÷ COIN in
  let remainder := Z.rem n_abs COIN in
  let str := app (print_dec quotient) (46 :: places 8 remainder) in
  let str := rev (trim_zeros (rev str)) in
  if n <? 0 then 45 :: str else str.

Fixpoint money_units (p : bytes) (nMult nUnits : Z) : Z * bytes :=
  match p with
  | c :: p' => if isdigit c && (0 <? nMult) then money_units p' (nMult ÷ 10) (nUnits + nMult * (c - 48)) else (nUnits, p)
  | [] => (nUnits, [])
  end.

(** The first loop; [None] is the return of false. *)
Fixpoint money_whole (p strWhole : bytes) : option (bytes * Z * bytes) :=
  match p with
  | [] => Some (strWhole, 0, [])
  | c :: p' =>
    if c =? 46 then let '(nUnits, p) := money_units p' (CENT * 10) 0 in Some (strWhole, nUnits, p)
    else if isspace c then Some (strWhole, 0, p)
    else if negb (isdigit c) then None
    else money_whole p' (app strWhole [c])
  end.

Definition ParseMoney (pszIn : bytes) : option Z :=
  let p := skip_while isspace (c_str pszIn) in
  match money_whole p [] with
  | None => None
  | Some (strWhole, nUnits, p) =>
    if negb (forallb isspace p) then None
    else if (10 <? length strWhole)%nat then None
    else if (nUnits <? 0) || (COIN <? nUnits) then None
    else
      let '(nWhole, _, _) := strtoll strWhole in
      Some (i64 (nWhole * COIN + nUnits))
  end.

Definition ValueFromAmount (amount : Z) : bytes :=
  let sign := amount <? 0 in
  let n_abs := if sign then i64 (- amount) else amount in
  let quotient := n_abs ÷ COIN in
  let remainder := Z.rem n_abs COIN in
  app (if sign then [45] else []) (app (print_dec quotient) (46 :: places 8 remainder)).

Definition UPPER_BOUND : Z := 1000000000000000000 - 1.

(** [mantissa *= 10], [k] times, unless it would overflow. *)
Fixpoint scale (k : nat) (mantissa : Z) : option Z :=
  match k with
  | O => Some mantissa
  | S k => if (mantissa >? UPPER_BOUND ÷ 10) || (mantissa <? - (UPPER_BOUND ÷ 10)) then None else scale k (mantissa * 10)
  end.

(** The mantissa and its trailing zeros; the mantissa is not negative here. *)
Definition ProcessMantissaDigit (ch : Z) (mantissa : Z) (mantissa_tzeros : nat) : option (Z * nat) :=
  if ch =? 48 then Some (mantissa, S mantissa_tzeros)
  else mantissa ← scale (S mantissa_tzeros) mantissa; Some (mantissa + (ch - 48), 0%nat).

(** Digits into the mantissa; the count of those read. *)
Fixpoint mantissa_digits (s : bytes) (mantissa : Z) (tz : nat) : option (Z * nat * nat * bytes) :=
  match s with
  | c :: s' =>
    if isdigit c then
      '(mantissa, tz) ← ProcessMantissaDigit c mantissa tz;
      '(mantissa, tz, k, rest) ← mantissa_digits s' mantissa tz;
      Some (mantissa, tz, S k, rest)
    else Some (mantissa, tz, O, s)
  | [] => Some (mantissa, tz, O, [])
  end.

Fixpoint exponent_digits (s : bytes) (exponent : Z) : option (Z * bytes) :=
  match s with
  | c :: s' => if isdigit c then if exponent >? UPPER_BOUND ÷ 10 then None else exponent_digits s' (exponent * 10 + c - 48) else Some (exponent, s)
  | [] => Some (exponent, [])
  end.

(** Whether the whole 11 characters are digits, and their value in [uint64_t]. *)
Definition special_case (val : bytes) : option Z :=
  if (length val =? 11)%nat && ((nth 0 val 0 <? 57) || (nth 1 val 0 <? 51)) then
    if forallb isdigit val then Some (i64 (u64 (fold_left (fun v c => u64 (v * 10 + (c - 48))) val 0 * 100000000))) else None
  else None.

Definition head_is (s : bytes) (c : Z) : bool := match s with d :: _ => d =? c | [] => false end.
Definition head_digit (s : bytes) : bool := match s with d :: _ => isdigit d | [] => false end.

Definition ParseFixedPoint (val : bytes) (decimals : Z) : option Z :=
  match special_case val with
  | Some amount => Some amount
  | None =>
    let mantissa_sign := head_is val 45 in
    let s := if mantissa_sign then drop 1 val else val in
    if negb (head_digit s) then None
    else
      '(mantissa, tz, _, s) ← (if head_is s 48 then Some (0, O, O, drop 1 s) else mantissa_digits s 0 0);
      '(mantissa, tz, point_ofs, s) ←
        (if head_is s 46 then let s := drop 1 s in if head_digit s then mantissa_digits s mantissa tz else None
         else Some (mantissa, tz, O, s));
      '(exponent_sign, exponent, s) ←
        (if head_is s 101 || head_is s 69 then
           let s := drop 1 s in
           let '(sign, s) := if head_is s 43 then (false, drop 1 s) else if head_is s 45 then (true, drop 1 s) else (false, s) in
           if head_digit s then '(e, s) ← exponent_digits s 0; Some (sign, e, s) else None
         else Some (false, 0, s));
      if negb (length s =? 0)%nat then None
      else
        let exponent := if exponent_sign : bool then - exponent else exponent in
        let exponent := exponent - Z.of_nat point_ofs + Z.of_nat tz in
        let mantissa := if mantissa_sign then - mantissa else mantissa in
        let exponent := exponent + decimals in
        if exponent <? 0 then None
        else if exponent >=? 18 then None
        else
          mantissa ← scale (Z.to_nat exponent) mantissa;
          if (mantissa >? UPPER_BOUND) || (mantissa <? - UPPER_BOUND) then None else Some mantissa
  end.

(** [None]: the exceptions for an invalid amount and one out of range. *)
Definition AmountFromValue (MAX_MONEY : Z) (value : bytes) : option Z :=
  amount ← ParseFixedPoint value 8; if MoneyRange MAX_MONEY amount then Some amount else None.

(** ** Hexadecimal and base 64: the way back *)

#[local] Ltac Zify.zify_post_hook ::= Z.to_euclidean_division_equations.

Lemma table_ok (chars table : list Z) n :
  forallb (fun i => let c := nth i chars 0 in (nth (Z.to_nat c) table (-1) =? Z.of_nat i) && negb (c =? 0) && negb (c =? 61)) (seq 0 n) = true ->
  forall v, 0 <= v < Z.of_nat n -> let c := nth (Z.to_nat v) chars 0 in nth (Z.to_nat c) table (-1) = v /\ c <> 0 /\ c <> 61.
Proof.
  intros H v Hv c. rewrite forallb_forall in H. specialize (H (Z.to_nat v) ltac:(apply in_seq; lia)). cbv zeta in H. fold c in H.
  rewrite Z2Nat.id, !andb_true_iff, !negb_true_iff in H by lia. destruct H as ((H1 & H2) & H3). apply Z.eqb_eq in H1. lia.
Qed.

Lemma pad_to_spec fuel n str : n = 4 \/ n = 8 -> (- zlen str) mod n <= Z.of_nat fuel ->
  pad_to fuel n str = app str (replicate (Z.to_nat ((- zlen str) mod n)) 61).
Proof.
  intros Hn. revert str. induction fuel as [|fuel IH]; intros str Hf; cbn [pad_to].
  - assert ((- zlen str) mod n = 0) as -> by (destruct Hn as [->| ->]; lia). cbn. by rewrite app_nil_r.
  - destruct (Z.eqb_spec (zlen str mod n) 0) as [E|E].
    + assert ((- zlen str) mod n = 0) as -> by (destruct Hn as [->| ->]; lia). cbn. by rewrite app_nil_r.
    + assert (Hz : zlen (app str [61]) = zlen str + 1) by (unfold zlen; rewrite length_app; cbn [length]; lia).
      assert (Hm : (- zlen (app str [61])) mod n = (- zlen str) mod n - 1) by (rewrite Hz; destruct Hn as [->| ->]; lia).
      rewrite IH by (rewrite Hm; lia). rewrite Hm, <- app_assoc. f_equal.
      replace (Z.to_nat ((- zlen str) mod n)) with (S (Z.to_nat ((- zlen str) mod n - 1))); [done|].
      assert (1 <= (- zlen str) mod n) by (destruct Hn as [->| ->]; lia). lia.
Qed.

Lemma read_table_map (chars table : list Z) n : (forall v, 0 <= v < n -> let c := nth (Z.to_nat v) chars 0 in nth (Z.to_nat c) table (-1) = v /\ c <> 0 /\ c <> 61) ->
  nth 61 table (-1) = -1 -> forall l k, Forall (fun v => 0 <= v < n) l ->
  read_table table (app (map (fun v => nth (Z.to_nat v) chars 0) l) (replicate k 61)) = (l, replicate k 61).
Proof.
  intros Ht Hp l k Hl. induction Hl as [|v l Hv _ IH]; cbn [map app read_table].
  - destruct k as [|k]; [done|]. cbn [replicate read_table]. change (Z.to_nat 61) with 61%nat. by rewrite Hp.
  - destruct (Ht v Hv) as (E & _ & _). cbv zeta in E. rewrite E. destruct (Z.eqb_spec v (-1)); [lia|]. by rewrite IH.
Qed.

Lemma read_padding_all k : read_padding (replicate k 61) = (true, Z.of_nat k).
Proof. induction k as [|k IH]; [done|]. cbn [replicate read_padding Z.eqb Pos.eqb negb]. rewrite IH. f_equal. lia. Qed.

(** Either base: [t] bits to a character, groups of [n] characters. *)
Lemma base_roundtrip chars table t n fuel v : n = 4 \/ n = 8 -> 0 < t <= 8 -> (Z.to_nat n <= fuel)%nat ->
  (forall x, 0 <= x < 2 ^ t -> let c := nth (Z.to_nat x) chars 0 in nth (Z.to_nat c) table (-1) = x /\ c <> 0 /\ c <> 61) ->
  nth 61 table (-1) = -1 -> is_bytes v ->
  decode_base table t n (pad_to fuel n (map (fun x => nth (Z.to_nat x) chars 0) (fst (ConvertBits 8 t true v)))) = (v, true).
Proof.
  intros Hn Ht Hf Htab Hp Hv. destruct (ConvertBits_pad 8 t v ltac:(lia) ltac:(lia) ltac:(lia) ltac:(lia) Hv) as (out & p & -> & Hp1 & Ho & Hlen & Hval).
  cbn [fst]. set (str := map _ out). assert (Hz : zlen str = zlen out) by (unfold zlen, str; by rewrite length_map).
  assert (Hmod : 0 <= (- zlen str) mod n < n) by (destruct Hn as [->| ->]; lia).
  rewrite pad_to_spec by (done || lia). set (k := Z.to_nat _). unfold decode_base. assert (Hc : c_str (app str (replicate k 61)) = app str (replicate k 61)).
  { apply c_str_nonzero, Forall_app. split; [|by apply Forall_replicate]. apply Forall_map. eapply list.Forall_impl; [exact Ho|]. intros x Hx. by destruct (Htab x Hx) as (_ & ? & _). }
  rewrite Hc. unfold str. rewrite (read_table_map chars table (2 ^ t) Htab Hp _ _ Ho). rewrite (ConvertBits_unpad 8 t v out p) by (done || lia).
  rewrite read_padding_all. f_equal. cbn [andb]. unfold k. rewrite Z2Nat.id by lia. rewrite <- Hz. apply andb_true_iff. split; [|lia].
  apply Z.eqb_eq. destruct Hn as [->| ->]; lia.
Qed.

Lemma base64_roundtrip v : is_bytes v -> DecodeBase64 (EncodeBase64 v) = (v, true).
Proof. apply (base_roundtrip pbase64 decode64_table 6 4 4); [by left|lia|lia|apply (table_ok _ _ 64); by vm_compute|done]. Qed.

Lemma base32_roundtrip v : is_bytes v -> DecodeBase32 (EncodeBase32 v) = (v, true).
Proof. apply (base_roundtrip pbase32 decode32_table 5 8 8); [by right|lia|lia|apply (table_ok _ _ 32); by vm_compute|done]. Qed.

Lemma hex_digit_ok i : 0 <= i < 16 -> let c := nth (Z.to_nat i) hexmap 0 in HexDigit c = i /\ isspace c = false /\ c <> 0.
Proof.
  intros Hi c. assert (H : forallb (fun i => let c := nth i hexmap 0 in (HexDigit c =? Z.of_nat i) && negb (isspace c) && negb (c =? 0)) (seq 0 16) = true) by by vm_compute.
  rewrite forallb_forall in H. specialize (H (Z.to_nat i) ltac:(apply in_seq; lia)). cbv zeta in H. fold c in H.
  rewrite Z2Nat.id, !andb_true_iff, !negb_true_iff in H by lia. destruct H as ((H1 & H2) & H3). apply Z.eqb_eq in H1. split_and!; [done|done|lia].
Qed.

Lemma hex_byte val : is_u8 val -> 0 <= Z.shiftr val 4 < 16 /\ 0 <= Z.land val 15 < 16 /\ Z.lor (u8 (Z.shiftl (Z.shiftr val 4) 4)) (Z.land val 15) = val.
Proof.
  unfold is_u8. intros Hv. change 15 with (Z.ones 4). rewrite Z.land_ones, Z.shiftr_div_pow2, Z.shiftl_mul_pow2 by lia. change (2 ^ 4) with 16. change (2 ^ 8) with 256 in Hv.
  split; [lia|]. split; [lia|]. unfold u8. rewrite (Z.mod_small (val / 16 * 16)) by lia.
  rewrite (lor_low (val / 16 * 16) (val mod 16) 4); [lia|lia|change (2 ^ 4) with 16; apply Z.mod_mul; lia|change (2 ^ 4) with 16; lia].
Qed.

Lemma hex_roundtrip v fSpaces first : is_bytes v -> ParseHex (HexStr v fSpaces first) = v.
Proof.
  intros Hv. unfold ParseHex. rewrite c_str_nonzero.
  - revert first. induction Hv as [|b v Hb _ IH]; intros first; [done|]. destruct (hex_byte b Hb) as (H1 & H2 & H3).
    destruct (hex_digit_ok _ H1) as (E1 & S1 & _), (hex_digit_ok _ H2) as (E2 & S2 & _). cbn [HexStr].
    assert (Hstep : forall t, parse_hex (nth (Z.to_nat (Z.shiftr b 4)) hexmap 0 :: nth (Z.to_nat (Z.land b 15)) hexmap 0 :: t) None = b :: parse_hex t None).
    { intros t. cbn [parse_hex]. rewrite S1, E1, E2. destruct (Z.eqb_spec (Z.shiftr b 4) (-1)); [lia|]. destruct (Z.eqb_spec (Z.land b 15) (-1)); [lia|]. by rewrite H3. }
    assert (Hspace : forall t, parse_hex (32 :: t) None = parse_hex t None) by done.
    destruct (fSpaces && negb first); cbn [app]; rewrite ?Hspace; by rewrite Hstep, IH.
  - revert first. induction Hv as [|b v Hb _ IH]; intros first; [constructor|]. destruct (hex_byte b Hb) as (H1 & H2 & _).
    destruct (hex_digit_ok _ H1) as (_ & _ & ?), (hex_digit_ok _ H2) as (_ & _ & ?). cbn [HexStr].
    apply Forall_app. split; [destruct (fSpaces && negb first); repeat constructor; lia|]. constructor; [done|]. constructor; [done|apply IH].
Qed.

Lemma hex_IsHex v : is_bytes v -> v <> [] -> forall first, IsHex (HexStr v false first) = true.
Proof.
  intros Hv Hne first. assert (H : forall first, forallb (fun c => negb (HexDigit c <? 0)) (HexStr v false first) = true /\ zlen (HexStr v false first) = 2 * zlen v).
  { clear Hne. induction Hv as [|b v Hb _ IH]; intros f; [done|]. destruct (hex_byte b Hb) as (H1 & H2 & _).
    destruct (hex_digit_ok _ H1) as (E1 & _), (hex_digit_ok _ H2) as (E2 & _). cbn [HexStr andb app forallb]. rewrite E1, E2, !zlen_cons. destruct (IH false) as [-> ->].
    split; [|lia]. rewrite !andb_true_iff, !negb_true_iff. lia. }
  unfold IsHex. destruct (H first) as [-> ->]. assert (0 < zlen v) by (destruct v; [done|unfold zlen; cbn [length]; lia]). cbn [andb]. lia.
Qed.

(** ** Amounts: the way back *)

Definition chars (ds : list Z) : bytes := map (fun d => 48 + d) ds.

Lemma chars_app a b : chars (app a b) = app (chars a) (chars b).
Proof. apply map_app. Qed.

Lemma digit_char d : 0 <= d < 10 -> isdigit (48 + d) = true /\ isspace (48 + d) = false.
Proof. unfold isdigit, isspace. lia. Qed.

Lemma dec_digits_spec fuel : forall n acc, 0 <= n < 10 ^ Z.of_nat fuel -> (0 < fuel)%nat ->
  exists ds, dec_digits fuel n acc = app (chars ds) acc /\ digits_ok 10 ds /\ be_value 10 ds = n /\ ds <> [] /\ (no_zero_head ds \/ ds = [0]).
Proof.
  induction fuel as [|fuel IH]; intros n acc Hn Hf; [lia|]. cbn [dec_digits]. destruct (Z.ltb_spec n 10) as [Hlt|Hge].
  - exists [n]. rewrite Z.mod_small by lia. split_and!; [done|constructor; [lia|constructor]|unfold be_value, value; cbn; lia|done|]. cbn. destruct (Z.eq_dec n 0) as [->|]; [by right|by left].
  - assert (Hf' : (0 < fuel)%nat) by (destruct fuel; [cbn in Hn; lia|lia]). rewrite Nat2Z.inj_succ, Z.pow_succ_r in Hn by lia.
    destruct (IH (n / 10) (48 + n mod 10 :: acc)) as (ds & E & H1 & H2 & H3 & H4); [split; [apply Z.div_pos; lia|apply Z.div_lt_upper_bound; lia]|done|].
    exists (app ds [n mod 10]). rewrite E, chars_app, <- app_assoc. split; [done|]. split; [apply Forall_app; split; [done|constructor; [lia|constructor]]|].
    rewrite be_value_app, H2. change (zlen [n mod 10]) with 1. rewrite Z.pow_1_r. unfold be_value at 1, value. cbn [rev app foldr]. split; [lia|].
    split; [by destruct ds|]. left. destruct H4 as [H4| ->]; [by destruct ds|]. exfalso. unfold be_value, value in H2. cbn in H2. lia.
Qed.

Lemma print_dec_spec n : 0 <= n < 10 ^ 20 -> exists ds, print_dec n = chars ds /\ digits_ok 10 ds /\ be_value 10 ds = n /\ ds <> [] /\ (no_zero_head ds \/ ds = [0]).
Proof. intros Hn. destruct (dec_digits_spec 20 n [] Hn ltac:(lia)) as (ds & E & H). exists ds. rewrite app_nil_r in E. by split. Qed.

Lemma places_spec k : forall n, 0 <= n < 10 ^ Z.of_nat k -> exists ds, places k n = chars ds /\ digits_ok 10 ds /\ be_value 10 ds = n /\ length ds = k.
Proof.
  induction k as [|k IH]; intros n Hn; [exists []; cbn in Hn; split_and!; [done|constructor|unfold be_value, value; cbn; lia|done]|].
  rewrite Nat2Z.inj_succ, Z.pow_succ_r in Hn by lia. destruct (IH (n / 10)) as (ds & E & H1 & H2 & H3); [split; [apply Z.div_pos; lia|apply Z.div_lt_upper_bound; lia]|].
  exists (app ds [n mod 10]). cbn [places]. rewrite E, chars_app. split; [done|]. split; [apply Forall_app; split; [done|constructor; [lia|constructor]]|].
  rewrite be_value_app, H2. change (zlen [n mod 10]) with 1. rewrite Z.pow_1_r. unfold be_value at 1, value. cbn [rev app foldr]. split; [lia|].
  rewrite length_app, H3. cbn. lia.
Qed.

Lemma scan_digits_spec ds rest : digits_ok 10 ds -> match rest with [] => True | c :: _ => isdigit c = false end -> forall acc,
  scan_digits (app (chars ds) rest) acc = (acc * 10 ^ zlen ds + be_value 10 ds, rest).
Proof.
  intros Hds Hr. induction Hds as [|d ds Hd _ IH]; intros acc.
  - change (zlen []) with 0. change (be_value 10 []) with 0. cbn [chars map app]. rewrite Z.pow_0_r, Z.mul_1_r, Z.add_0_r. destruct rest as [|c rest]; [done|]. cbn. by rewrite Hr.
  - cbn [chars map app scan_digits]. destruct (digit_char d Hd) as [-> _]. fold (chars ds). rewrite IH, be_value_cons, zlen_cons. pose proof (zlen_nonneg ds).
    rewrite Z.pow_add_r, Z.pow_1_r by lia. f_equal. ring.
Qed.

Lemma strtoll_digits ds : digits_ok 10 ds -> ds <> [] -> be_value 10 ds < 2 ^ 63 -> strtoll (chars ds) = (be_value 10 ds, true, Some []).
Proof.
  intros Hds Hne Hb. pose proof (be_value_bound 10 ltac:(lia) ds Hds) as [Hp _]. unfold strtoll.
  destruct ds as [|d ds]; [done|]. pose proof Hds as Hds'. apply list.Forall_cons in Hds' as [Hd _]. destruct (digit_char d Hd) as [Ed Es].
  rewrite skip_while_head by (cbn; by rewrite Es). pose proof (scan_digits_spec (d :: ds) [] Hds I 0) as Hscan. rewrite app_nil_r, Z.mul_0_l, Z.add_0_l in Hscan.
  cbn [chars map] in *. destruct (Z.eqb_spec (48 + d) 45); [lia|]. destruct (Z.eqb_spec (48 + d) 43); [lia|]. rewrite Ed, Hscan.
  destruct (Z.ltb_spec (be_value 10 (d :: ds)) (- 2 ^ 63)); [lia|]. destruct (Z.leb_spec (2 ^ 63) (be_value 10 (d :: ds))); [lia|]. done.
Qed.

Lemma trim_spec pre ds : digits_ok 10 ds -> (2 <= length ds)%nat -> exists ds' z, ds = app ds' (replicate z 0) /\
  rev (trim_zeros (rev (app pre (46 :: chars ds)))) = app pre (46 :: chars ds').
Proof.
  induction ds as [|d ds IH] using rev_ind; intros Hds Hl; [cbn in Hl; lia|]. apply Forall_app in Hds as [Hds Hd]. apply list.Forall_cons in Hd as [Hd _].
  rewrite length_app in Hl. cbn [length] in Hl. assert (Erev : rev (app pre (46 :: chars (app ds [d]))) = 48 + d :: rev (app pre (46 :: chars ds))).
  { rewrite chars_app. change (46 :: app (chars ds) (chars [d])) with (app (46 :: chars ds) (chars [d])). rewrite app_assoc, rev_app_distr. done. }
  assert (Hstop : rev (48 + d :: rev (app pre (46 :: chars ds))) = app pre (46 :: chars (app ds [d]))) by by rewrite <- Erev, rev_involutive.
  rewrite Erev. cbn [trim_zeros]. destruct (Z.eqb_spec (48 + d) 48) as [E|E]; [|exists (app ds [d]), 0%nat; cbn [andb replicate]; by rewrite app_nil_r, Hstop].
  destruct (isdigit (nth 1 _ 0)) eqn:Edig; [|exists (app ds [d]), 0%nat; cbn [andb replicate]; by rewrite app_nil_r, Hstop]. cbn [andb].
  assert (d = 0) as -> by lia. destruct (decide (2 <= length ds)%nat) as [H2|H2].
  - destruct (IH Hds H2) as (ds' & z & E1 & E2). exists ds', (S z). split; [|exact E2]. rewrite E1 at 1. rewrite <- app_assoc. f_equal. symmetry. apply replicate_cons_app.
  - exfalso. destruct ds as [|e [|]]; [cbn in Hl; lia| |cbn in H2; lia]. rewrite rev_app_distr in Edig. cbn in Edig. done.
Qed.

Lemma money_units_spec ds : digits_ok 10 ds -> forall k acc, (length ds <= k)%nat ->
  money_units (chars ds) (match k with O => 0 | S k => 10 ^ Z.of_nat k end) acc = (acc + be_value 10 ds * 10 ^ (Z.of_nat k - zlen ds), []).
Proof.
  induction 1 as [|d ds Hd _ IH]; intros k acc Hk.
  - change (be_value 10 []) with 0. cbn [chars map money_units]. f_equal. lia.
  - destruct k as [|k]; [cbn in Hk; lia|]. cbn [chars map money_units]. destruct (digit_char d Hd) as [-> _].
    assert (Hp : 0 < 10 ^ Z.of_nat k) by (apply Z.pow_pos_nonneg; lia). destruct (Z.ltb_spec 0 (10 ^ Z.of_nat k)); [|lia]. cbn [andb].
    assert (Hq : 10 ^ Z.of_nat k ÷ 10 = match k with O => 0 | S k => 10 ^ Z.of_nat k end).
    { rewrite Z.quot_div_nonneg by lia. destruct k as [|k]; [done|]. rewrite Nat2Z.inj_succ, Z.pow_succ_r, Z.mul_comm, Z.div_mul by lia. done. }
    rewrite Hq. fold (chars ds). rewrite IH by (cbn in Hk; lia). f_equal. rewrite be_value_cons, zlen_cons. cbn [length] in Hk.
    replace (Z.of_nat (S k) - (1 + zlen ds)) with (Z.of_nat k - zlen ds) by lia.
    replace (10 ^ Z.of_nat k) with (10 ^ zlen ds * 10 ^ (Z.of_nat k - zlen ds)); [ring|].
    rewrite <- Z.pow_add_r by (unfold zlen; lia). f_equal. lia.
Qed.

Lemma money_whole_spec ds p w : digits_ok 10 ds -> money_whole (app (chars ds) (46 :: p)) w =
  let '(u, rest) := money_units p (CENT * 10) 0 in Some (app w (chars ds), u, rest).
Proof.
  intros Hds. revert w. induction Hds as [|d ds Hd _ IH]; intros w; [cbn; by rewrite app_nil_r|]. cbn [chars map app money_whole].
  destruct (digit_char d Hd) as [-> ->]. destruct (Z.eqb_spec (48 + d) 46); [lia|]. cbn [negb]. fold (chars ds). rewrite IH.
  destruct (money_units p _ 0). f_equal. f_equal. f_equal. by rewrite <- app_assoc.
Qed.

Lemma be_value_pad ds z : be_value 10 (app ds (replicate z 0)) = be_value 10 ds * 10 ^ Z.of_nat z.
Proof.
  rewrite be_value_app. unfold zlen. rewrite length_replicate. assert (be_value 10 (replicate z 0) = 0) as ->; [|lia].
  rewrite <- (app_nil_r (replicate z 0)). by rewrite be_value_zeros.
Qed.

(** The digits of an amount. *)
Lemma amount_digits n : 0 <= n < 10 ^ 18 -> exists q r, print_dec (n ÷ COIN) = chars q /\ places 8 (Z.rem n COIN) = chars r /\
  digits_ok 10 q /\ digits_ok 10 r /\ length r = 8%nat /\ q <> [] /\ (no_zero_head q \/ q = [0]) /\ n = be_value 10 q * 10 ^ 8 + be_value 10 r /\
  (length q <= 10)%nat.
Proof.
  intros Hn. rewrite Z.quot_div_nonneg, Z.rem_mod_nonneg by (unfold COIN; lia). unfold COIN.
  destruct (print_dec_spec (n / 100000000)) as (q & Eq & Q1 & Q2 & Q3 & Q4); [lia|].
  destruct (places_spec 8 (n mod 100000000)) as (r & Er & R1 & R2 & R3); [change (10 ^ Z.of_nat 8) with 100000000; lia|].
  exists q, r. split_and!; try done; [rewrite Q2, R2; change (10 ^ 8) with 100000000; lia|].
  destruct Q4 as [Q4| ->]; [|cbn; lia]. destruct (Nat.le_gt_cases (length q) 10) as [|Hgt]; [done|]. exfalso.
  pose proof (proj1 (numeral_length 10 q ltac:(lia) Q1 Q4 10 ltac:(lia)) ltac:(unfold zlen; lia)). change (10 ^ 10) with 10000000000 in *. change (10 ^ 18) with 1000000000000000000 in *. lia.
Qed.

Lemma chars_no_space_head ds rest : digits_ok 10 ds -> ds <> [] ->
  skip_while isspace (app (chars ds) rest) = app (chars ds) rest.
Proof. intros Hds Hne. apply skip_while_head. destruct Hds as [|d ds Hd _]; [done|]. cbn. by destruct (digit_char d Hd). Qed.

Lemma chars_nonzero ds : digits_ok 10 ds -> Forall (fun c => c <> 0) (chars ds).
Proof. intros H. apply Forall_map. eapply list.Forall_impl; [exact H|]. cbn. lia. Qed.

Lemma money_roundtrip n : 0 <= n < 10 ^ 18 -> ParseMoney (FormatMoney n) = Some n.
Proof.
  intros Hn. unfold FormatMoney. assert (Habs : (if 0 <? n then n else i64 (- n)) = n).
  { destruct (Z.ltb_spec 0 n); [done|]. by assert (n = 0) as -> by lia. }
  rewrite Habs. destruct (Z.ltb_spec n 0); [lia|]. destruct (amount_digits n Hn) as (q & r & -> & -> & Q1 & R1 & R2 & Q2 & _ & En & Q3).
  destruct (trim_spec (chars q) r R1 ltac:(lia)) as (r' & z & Er & ->). rewrite Er in R1, R2, En. apply Forall_app in R1 as [R1 _]. rewrite length_app, length_replicate in R2.
  unfold ParseMoney. rewrite c_str_nonzero.
  2:{ apply Forall_app. split; [by apply chars_nonzero|]. constructor; [done|by apply chars_nonzero]. }
  rewrite chars_no_space_head by done. rewrite money_whole_spec by done. change (CENT * 10) with (10 ^ Z.of_nat 7).
  pose proof (money_units_spec r' R1 8 0 ltac:(lia)) as Hu. rewrite Z.add_0_l in Hu. cbv iota in Hu. rewrite Hu. cbn [app forallb negb].
  unfold chars at 1. rewrite length_map. destruct (Nat.ltb_spec 10 (length q)); [lia|].
  rewrite be_value_pad in En. replace (Z.of_nat 8 - zlen r') with (Z.of_nat z) by (unfold zlen; lia).
  pose proof (be_value_bound 10 ltac:(lia) r' R1) as [Hr0 Hr1]. pose proof (be_value_bound 10 ltac:(lia) q Q1) as [Hq0 _].
  set (u := be_value 10 r' * 10 ^ Z.of_nat z) in *. assert (Hu0 : 0 <= u < 10 ^ 8).
  { unfold u. pose proof (Z.pow_pos_nonneg 10 (Z.of_nat z) ltac:(lia) ltac:(lia)). split; [nia|]. replace 8 with (zlen r' + Z.of_nat z) by (unfold zlen; lia).
    rewrite Z.pow_add_r by (unfold zlen; lia). nia. }
  clearbody u. unfold COIN. change (10 ^ 8) with 100000000 in *. change (10 ^ 18) with 1000000000000000000 in Hn.
  destruct (Z.ltb_spec u 0); [lia|]. destruct (Z.ltb_spec 100000000 u); [lia|]. cbn [orb].
  rewrite strtoll_digits by (done || change (2 ^ 63) with 9223372036854775808; lia). f_equal. rewrite i64_id; [lia|].
  unfold is_i64. change (2 ^ 63) with 9223372036854775808. lia.
Qed.

(** *** Fixed point *)

Lemma scale_ok k : forall m, 0 <= m -> m * 10 ^ Z.of_nat k <= UPPER_BOUND -> scale k m = Some (m * 10 ^ Z.of_nat k).
Proof.
  induction k as [|k IH]; intros m Hm Hb; [cbn [scale]; f_equal; lia|]. cbn [scale]. rewrite Nat2Z.inj_succ, Z.pow_succ_r in * by lia.
  assert (Hp : 0 < 10 ^ Z.of_nat k) by (apply Z.pow_pos_nonneg; lia). change (- (UPPER_BOUND ÷ 10)) with (-99999999999999999). change (UPPER_BOUND ÷ 10) with 99999999999999999. unfold UPPER_BOUND in Hb.
  assert (m * 10 <= 1000000000000000000 - 1) by nia. rewrite Z.gtb_ltb. destruct (Z.ltb_spec 99999999999999999 m); [lia|]. destruct (Z.ltb_spec m (-99999999999999999)); [lia|].
  cbn [orb]. replace (m * (10 * 10 ^ Z.of_nat k)) with (m * 10 * 10 ^ Z.of_nat k) by ring. apply IH; [lia|unfold UPPER_BOUND; lia].
Qed.

Lemma scale_neg k : forall m, 0 <= m -> m * 10 ^ Z.of_nat k <= UPPER_BOUND -> scale k (- m) = Some (- (m * 10 ^ Z.of_nat k)).
Proof.
  induction k as [|k IH]; intros m Hm Hb; [cbn [scale]; f_equal; lia|]. cbn [scale]. rewrite Nat2Z.inj_succ, Z.pow_succ_r in * by lia.
  assert (Hp : 0 < 10 ^ Z.of_nat k) by (apply Z.pow_pos_nonneg; lia). change (- (UPPER_BOUND ÷ 10)) with (-99999999999999999). change (UPPER_BOUND ÷ 10) with 99999999999999999. unfold UPPER_BOUND in Hb.
  assert (m * 10 <= 1000000000000000000 - 1) by nia. rewrite Z.gtb_ltb. destruct (Z.ltb_spec 99999999999999999 (- m)); [lia|]. destruct (Z.ltb_spec (- m) (-99999999999999999)); [lia|].
  cbn [orb]. replace (- m * 10) with (- (m * 10)) by lia. replace (m * (10 * 10 ^ Z.of_nat k)) with (m * 10 * 10 ^ Z.of_nat k) by ring. apply IH; [lia|unfold UPPER_BOUND; lia].
Qed.

(** The mantissa and its zeros are the number read so far. *)
Lemma mantissa_digits_spec ds rest : digits_ok 10 ds -> head_digit rest = false -> forall m tz, 0 <= m ->
  m * 10 ^ Z.of_nat tz * 10 ^ zlen ds + be_value 10 ds <= UPPER_BOUND ->
  exists m' tz', mantissa_digits (app (chars ds) rest) m tz = Some (m', tz', length ds, rest) /\ 0 <= m' /\ (tz' <= tz + length ds)%nat /\
    m' * 10 ^ Z.of_nat tz' = m * 10 ^ Z.of_nat tz * 10 ^ zlen ds + be_value 10 ds.
Proof.
  intros Hds Hr. induction Hds as [|d ds Hd Hds IH]; intros m tz Hm Hb.
  - exists m, tz. change (be_value 10 []) with 0. change (zlen []) with 0. split; [|split; [done|split; [lia|lia]]]. destruct rest as [|c rest]; [done|]. cbn in Hr |- *. by rewrite Hr.
  - rewrite be_value_cons, zlen_cons in Hb. pose proof (zlen_nonneg ds). rewrite Z.pow_add_r, Z.pow_1_r in Hb by lia. cbn [chars map app mantissa_digits]. fold (chars ds).
    destruct (digit_char d Hd) as [-> _]. pose proof (be_value_bound 10 ltac:(lia) ds Hds) as [Hb0 _].
    assert (Hp : 0 < 10 ^ zlen ds) by (apply Z.pow_pos_nonneg; lia). assert (Ht : 0 < 10 ^ Z.of_nat tz) by (apply Z.pow_pos_nonneg; lia).
    assert (Hv : 0 <= m * 10 ^ Z.of_nat tz) by nia. set (v := m * 10 ^ Z.of_nat tz) in *.
    assert (Hcases : exists m1 tz1, ProcessMantissaDigit (48 + d) m tz = Some (m1, tz1) /\ 0 <= m1 /\ (tz1 <= S tz)%nat /\ m1 * 10 ^ Z.of_nat tz1 = v * 10 + d).
    { unfold ProcessMantissaDigit. destruct (Z.eqb_spec (48 + d) 48) as [E|E].
      - exists m, (S tz). split_and!; [done|done|lia|]. rewrite Nat2Z.inj_succ, Z.pow_succ_r by lia. unfold v. lia.
      - rewrite scale_ok; [|done|rewrite Nat2Z.inj_succ, Z.pow_succ_r by lia; fold v; nia]. cbn [mbind option_bind]. eexists _, _. split; [done|].
        rewrite Nat2Z.inj_succ, Z.pow_succ_r by lia. unfold v. cbn [Z.of_nat]. rewrite Z.pow_0_r. split; [nia|]. split; lia. }
    destruct Hcases as (m1 & tz1 & -> & Hm1 & Htz1 & E1). cbn [mbind option_bind]. destruct (IH m1 tz1 Hm1) as (m' & tz' & -> & Hm' & Htz' & E').
    { rewrite E1. nia. }
    cbn [mbind option_bind length]. exists m', tz'. split; [done|]. split; [done|]. split; [lia|]. rewrite E', E1, be_value_cons, zlen_cons, Z.pow_add_r, Z.pow_1_r by lia. ring.
Qed.

Lemma forallb_dot a b : forallb isdigit (app a (46 :: b)) = false.
Proof. rewrite forallb_app. cbn. by rewrite andb_false_r. Qed.

Lemma no_special a b : special_case (app a (46 :: b)) = None.
Proof. unfold special_case. rewrite forallb_dot. by destruct (_ && _). Qed.

(** What follows the sign. *)
Lemma fixed_point_body (neg : bool) n s : 0 <= n < 10 ^ 18 -> s = app (print_dec (n ÷ COIN)) (46 :: places 8 (Z.rem n COIN)) ->
  ParseFixedPoint (app (if neg then [45] else []) s) 8 = Some (if neg then - n else n).
Proof.
  intros Hn ->. destruct (amount_digits n Hn) as (q & r & -> & -> & Q1 & R1 & R2 & Q2 & Q4 & En & Q3). unfold ParseFixedPoint.
  rewrite app_assoc, no_special, <- app_assoc. set (s := app (chars q) (46 :: chars r)).
  assert (Hh : head_is s 45 = false /\ head_digit s = true).
  { destruct Q1 as [|d q Hd _]; [done|]. unfold s. cbn. destruct (digit_char d Hd) as [-> _]. lia. }
  destruct Hh as [H45 Hdig]. assert (Hsign : head_is (app (if neg then [45] else []) s) 45 = neg /\ (if neg then drop 1 (app (if neg then [45] else []) s) else app (if neg then [45] else []) s) = s).
  { by destruct neg. }
  destruct Hsign as [-> ->]. rewrite Hdig. cbn [negb].
  change (10 ^ 18) with 1000000000000000000 in Hn. change (10 ^ 8) with 100000000 in En.
  pose proof (be_value_bound 10 ltac:(lia) q Q1) as [Hq0 _]. pose proof (be_value_bound 10 ltac:(lia) r R1) as [Hr0 _].
  assert (Hwhole : exists m tz k, (if head_is s 48 then Some (0, O, O, drop 1 s) else mantissa_digits s 0 0) = Some (m, tz, k, 46 :: chars r) /\
    0 <= m /\ m * 10 ^ Z.of_nat tz = be_value 10 q /\ (be_value 10 q = 0 -> tz = O)).
  { destruct Q4 as [Hz| ->]; [|by exists 0, O, O]. destruct q as [|d q]; [done|]. cbn in Hz. pose proof Q1 as Q1'. apply list.Forall_cons in Q1' as [Hd _].
    assert (head_is s 48 = false) as -> by (unfold s; cbn; lia). unfold s.
    destruct (mantissa_digits_spec (d :: q) (46 :: chars r) Q1 eq_refl 0 0) as (m & tz & E & Hm & _ & Ev); [lia|unfold UPPER_BOUND; lia|].
    exists m, tz, (length (d :: q)). split; [done|]. split; [done|]. split; [lia|]. intros E0. exfalso.
    pose proof (proj1 (numeral_length 10 (d :: q) ltac:(lia) Q1 Hz 0 ltac:(lia)) ltac:(unfold zlen; cbn [length]; lia)). rewrite Z.pow_0_r in *. lia. }
  destruct Hwhole as (m & tz & k & -> & Hm & Ev & Htz). cbn [mbind option_bind head_is Z.eqb Pos.eqb]. change (drop 1 (46 :: chars r)) with (chars r). cbv zeta.
  assert (Hhr : head_digit (chars r) = true) by (destruct R1 as [|d r Hd _]; [cbn in R2; lia|]; cbn; by destruct (digit_char d Hd)). rewrite Hhr.
  destruct (mantissa_digits_spec r [] R1 eq_refl m tz Hm) as (m' & tz' & E & Hm' & Htz' & Ev').
  { rewrite Ev. unfold zlen. rewrite R2. change (10 ^ Z.of_nat 8) with 100000000. unfold UPPER_BOUND. lia. }
  rewrite app_nil_r in E. rewrite E. cbn [mbind option_bind head_is orb length Nat.eqb negb].
  rewrite Ev in Ev'. unfold zlen in Ev'. rewrite R2 in Ev'. change (10 ^ Z.of_nat 8) with 100000000 in Ev'. rewrite <- En in Ev'.
  rewrite R2. replace (0 - Z.of_nat 8 + Z.of_nat tz' + 8) with (Z.of_nat tz') by lia. destruct (Z.ltb_spec (Z.of_nat tz') 0); [lia|].
  assert (H18 : Z.of_nat tz' < 18).
  { destruct (Z.eq_dec m' 0) as [->|Hne].
    - assert (be_value 10 q = 0) as E0 by lia. rewrite (Htz E0) in Htz'. lia.
    - apply (Z.pow_lt_mono_r_iff 10); [lia|lia|]. change (10 ^ 18) with 1000000000000000000.
      pose proof (Z.pow_pos_nonneg 10 (Z.of_nat tz') ltac:(lia) ltac:(lia)). nia. }
  destruct (Z.geb_spec (Z.of_nat tz') 18); [lia|]. rewrite Nat2Z.id. destruct neg.
  - rewrite scale_neg by (unfold UPPER_BOUND; lia). cbn [mbind option_bind]. rewrite Ev', Z.gtb_ltb. unfold UPPER_BOUND. destruct (Z.ltb_spec (1000000000000000000 - 1) (- n)); [lia|].
    destruct (Z.ltb_spec (- n) (- (1000000000000000000 - 1))); [lia|]. done.
  - rewrite scale_ok by (unfold UPPER_BOUND; lia). cbn [mbind option_bind]. rewrite Ev', Z.gtb_ltb. unfold UPPER_BOUND. destruct (Z.ltb_spec (1000000000000000000 - 1) n); [lia|].
    destruct (Z.ltb_spec n (- (1000000000000000000 - 1))); [lia|]. done.
Qed.

Lemma fixed_point_roundtrip n : - 10 ^ 18 < n < 10 ^ 18 -> ParseFixedPoint (ValueFromAmount n) 8 = Some n.
Proof.
  intros Hn. change (10 ^ 18) with 1000000000000000000 in Hn. unfold ValueFromAmount. destruct (Z.ltb_spec n 0) as [Hneg|Hpos].
  - rewrite i64_id by (unfold is_i64; change (2 ^ 63) with 9223372036854775808; lia).
    pose proof (fixed_point_body true (- n) _ ltac:(change (10 ^ 18) with 1000000000000000000; lia) eq_refl) as H. cbv iota in H. by rewrite Z.opp_involutive in H.
  - exact (fixed_point_body false n _ ltac:(change (10 ^ 18) with 1000000000000000000; lia) eq_refl).
Qed.

(** ** Properties *)

(** Byte strings survive their text encodings.  For every byte string,
    with or without spaces between the bytes, ParseHex (HexStr v) is v, and
    IsHex accepts the hexadecimal text unless it is empty; DecodeBase64 of
    EncodeBase64 and DecodeBase32 of EncodeBase32 give v and report a valid
    text, padding included. *)
Theorem text_codecs_roundtrip v : is_bytes v ->
  (forall fSpaces, ParseHex (HexStr v fSpaces true) = v) /\ (v <> [] -> IsHex (HexStr v false true) = true) /\
  DecodeBase64 (EncodeBase64 v) = (v, true) /\ DecodeBase32 (EncodeBase32 v) = (v, true).
Proof.
  intros Hv. split; [intros; by apply hex_roundtrip|]. split; [intros; by apply hex_IsHex|]. split; [by apply base64_roundtrip|by apply base32_roundtrip].
Qed.

Lemma text_codecs_roundtrip_witness : ParseHex (HexStr [0; 255; 16] true true) = [0; 255; 16] /\ DecodeBase64 (EncodeBase64 [0; 255; 16]) = ([0; 255; 16], true).
Proof.
  destruct (text_codecs_roundtrip [0; 255; 16]) as (H1 & _ & H2 & _); [repeat (constructor; [unfold is_u8; lia|]); constructor|].
  split; [apply H1|exact H2].
Defined.

(** Amounts survive as text.  Every amount below 10^18 that is not
    negative is what ParseMoney reads from FormatMoney's text, trimmed zeros
    and all; every amount strictly between -10^18 and 10^18 is what
    ParseFixedPoint with eight decimals reads from ValueFromAmount's text, so
    that AmountFromValue returns it whenever it is a valid amount. *)
Theorem amounts_roundtrip n :
  (0 <= n < 10 ^ 18 -> ParseMoney (FormatMoney n) = Some n) /\
  (- 10 ^ 18 < n < 10 ^ 18 -> ParseFixedPoint (ValueFromAmount n) 8 = Some n /\
    forall MAX_MONEY, MoneyRange MAX_MONEY n = true -> AmountFromValue MAX_MONEY (ValueFromAmount n) = Some n).
Proof.
  split; [apply money_roundtrip|]. intros Hn. split; [by apply fixed_point_roundtrip|]. intros M HM. unfold AmountFromValue.
  rewrite fixed_point_roundtrip by done. cbn. by rewrite HM.
Qed.

Lemma amounts_roundtrip_witness : ParseMoney (FormatMoney 1050000000) = Some 1050000000 /\ ParseFixedPoint (ValueFromAmount (-7)) 8 = Some (-7).
Proof.
  assert (H1 : 0 <= 1050000000 < 10 ^ 18) by lia. assert (H2 : - 10 ^ 18 < -7 < 10 ^ 18) by lia.
  split; [exact (proj1 (amounts_roundtrip 1050000000) H1)|exact (proj1 (proj2 (amounts_roundtrip (-7)) H2))].
Defined.

(** The special case of eleven digits: 92999999999 becomes a negative amount,
    the number of decimals is ignored, and zeros in front are accepted. *)
Lemma fixed_point_special_case :
  ParseFixedPoint [57; 50; 57; 57; 57; 57; 57; 57; 57; 57; 57] 8 = Some (-9146744073809551616) /\
  ParseFixedPoint [48; 48; 48; 48; 48; 48; 48; 48; 48; 48; 49] 3 = Some 100000000 /\
  ParseFixedPoint [48; 48; 48; 48; 48; 48; 48; 48; 48; 49] 8 = None.
Proof. split_and!; by vm_compute. Qed.
