(* ===== verification/Mempool.v ===== *)
(** * The memory pool (src/src/txmempool.cpp, txmempool.h)

    CTxMemPool with its indexes by outpoint and by nullifier, adding, removing
    with descendants, the removals that follow a change of the tip, and the part
    of AcceptToMemoryPool of main.cpp that guards the pool.  The entries of mapTx
    are objects with an address: the indexes hold pointers to their transactions,
    and following a pointer to an object that is gone is [None].  The fee
    estimator, priorities and the address and spent indexes are left out: none of
    them is read by what is modelled. *)
From S2P Require Import Prelude Serialize Transaction Compressor Coins CoinsView CoinsCache UpdateCoins Ledger SigHash TxInputs BlockChecks.
#[local] Open Scope Z_scope.

#[global] Instance COutPoint_countable : Countable COutPoint.
Proof. refine (inj_countable' (fun o => (hash o, n o)) (fun p => mkCOutPoint p.1 p.2) _). by intros []. Defined.

Definition MEMPOOL_HEIGHT : Z := 0x7FFFFFFF.

(** A transaction with its hash. *)
Abbreviation hashed_tx := (Z * CMutableTransaction)%type.

Record CTxMemPoolEntry := mkEntry {
  GetTx : hashed_tx; nFee : Z; nTxSize : Z; nUsageSize : Z; entry_nTime : Z; entry_nHeight : Z;
  spendsCoinbase : bool; nBranchId : Z
}.

(** [ptx] is the address of the transaction, inside its entry. *)
Record CInPoint := mkCInPoint { ptx : Z; ip_n : Z }.

(** [live_txs] are the transactions that exist, by address; [next_addr] is free. *)
Record CTxMemPool := mkMemPool {
  mapTx : gmap Z (Z * CTxMemPoolEntry);
  mapNextTx : gmap COutPoint CInPoint;
  mapSproutNullifiers : gmap Z Z;
  mapSaplingNullifiers : gmap Z Z;
  mapRecentlyAddedTx : gmap Z Z;
  nRecentlyAddedSequence : Z;
  nTransactionsUpdated : Z;
  totalTxSize : Z;
  cachedInnerUsage : Z;
  mapDeltas : gmap Z Z;
  live_txs : gmap Z hashed_tx;
  next_addr : Z
}.

Definition empty_mempool : CTxMemPool := mkMemPool ∅ ∅ ∅ ∅ ∅ 0 0 0 0 ∅ ∅ 0.

Definition map_nullifiers (t : ShieldedType) (m : CTxMemPool) : gmap Z Z :=
  match t with SPROUT => mapSproutNullifiers m | SAPLING => mapSaplingNullifiers m end.

Definition pool_exists (h : Z) (m : CTxMemPool) : bool := bool_decide (is_Some (mapTx m !! h)).
Definition nullifierExists (nullifier : Z) (t : ShieldedType) (m : CTxMemPool) : bool := bool_decide (is_Some (map_nullifiers t m !! nullifier)).
Definition lookup_tx (h : Z) (m : CTxMemPool) : option hashed_tx := (fun e => GetTx e.2) <$> mapTx m !! h.

(** ** Adding *)

Fixpoint add_next (a : Z) (l : list CTxIn) (i : Z) (m : gmap COutPoint CInPoint) : gmap COutPoint CInPoint :=
  match l with
  | [] => m
  | txin :: l => add_next a l (i + 1) (<[prevout txin := mkCInPoint a i]> m)
  end.

Fixpoint add_keys (a : Z) (l : list Z) (m : gmap Z Z) : gmap Z Z :=
  match l with [] => m | k :: l => add_keys a l (<[k := a]> m) end.

(** [mapTx.insert]: nothing where the key exists. *)
Definition insert_entry (entry : CTxMemPoolEntry) (m : CTxMemPool) : CTxMemPool :=
  match mapTx m !! (GetTx entry).1 with
  | Some _ => m
  | None =>
    mkMemPool (<[(GetTx entry).1 := (next_addr m, entry)]> (mapTx m)) (mapNextTx m) (mapSproutNullifiers m) (mapSaplingNullifiers m)
      (mapRecentlyAddedTx m) (nRecentlyAddedSequence m) (nTransactionsUpdated m) (totalTxSize m) (cachedInnerUsage m) (mapDeltas m)
      (<[next_addr m := GetTx entry]> (live_txs m)) (next_addr m + 1)
  end.

(** [None]: no entry of that hash to take the transaction from. *)
Definition addUnchecked (h : Z) (entry : CTxMemPoolEntry) (m : CTxMemPool) : option CTxMemPool :=
  let m := insert_entry entry m in
  '(a, e) ← mapTx m !! h;
  let tx := GetTx e in
  Some (mkMemPool (mapTx m)
    (if IsCoinImport tx.2 then mapNextTx m else add_next a (vin tx.2) 0 (mapNextTx m))
    (add_keys a (nullifiers_of SPROUT tx.2) (mapSproutNullifiers m))
    (add_keys a (nullifiers_of SAPLING tx.2) (mapSaplingNullifiers m))
    (<[tx.1 := a]> (mapRecentlyAddedTx m)) (u64 (nRecentlyAddedSequence m + 1))
    (u32 (nTransactionsUpdated m + 1)) (u64 (totalTxSize m + nTxSize entry)) (u64 (cachedInnerUsage m + nUsageSize entry))
    (mapDeltas m) (live_txs m) (next_addr m)).

(** ** Removing *)

Fixpoint delete_all {K A} `{Countable K} (l : list K) (m : gmap K A) : gmap K A :=
  match l with [] => m | k :: l => delete_all l (delete k m) end.

(** The hashes of the pool's transactions that spend outputs of [tx]; [None]: a pointer
    to no transaction. *)
Fixpoint spenders (m : CTxMemPool) (h : Z) (count : nat) (i : Z) : option (list Z) :=
  match count with
  | O => Some []
  | S count =>
    match mapNextTx m !! mkCOutPoint h i with
    | None => spenders m h count (i + 1)
    | Some it => tx ← live_txs m !! ptx it; l ← spenders m h count (i + 1); Some (tx.1 :: l)
    end
  end.

Definition children (m : CTxMemPool) (tx : hashed_tx) : option (list Z) := spenders m tx.1 (length (vout tx.2)) 0.

(** The body of the loop after the descendants are noted. *)
Definition erase_entry (h a : Z) (e : CTxMemPoolEntry) (m : CTxMemPool) : CTxMemPool :=
  let tx := GetTx e in
  mkMemPool (delete h (mapTx m)) (delete_all (map prevout (vin tx.2)) (mapNextTx m))
    (delete_all (nullifiers_of SPROUT tx.2) (mapSproutNullifiers m)) (delete_all (nullifiers_of SAPLING tx.2) (mapSaplingNullifiers m))
    (delete h (mapRecentlyAddedTx m)) (nRecentlyAddedSequence m)
    (u32 (nTransactionsUpdated m + 1)) (u64 (totalTxSize m - nTxSize e)) (u64 (cachedInnerUsage m - nUsageSize e))
    (mapDeltas m) (delete a (live_txs m)) (next_addr m).

(** The loop over [txToRemove]; [None]: the fuel ran out, or a pointer was dangling. *)
Fixpoint remove_loop (fuel : nat) (fRecursive : bool) (txToRemove : list Z) (m : CTxMemPool) (removed : list hashed_tx) : option (CTxMemPool * list hashed_tx) :=
  match txToRemove with
  | [] => Some (m, removed)
  | h :: txToRemove =>
    match fuel with
    | O => None
    | S fuel =>
      match mapTx m !! h with
      | None => remove_loop fuel fRecursive txToRemove m removed
      | Some (a, e) =>
        more ← (if fRecursive then children m (h, (GetTx e).2) else Some []);
        remove_loop fuel fRecursive (app txToRemove more) (erase_entry h a e m) (app removed [GetTx e])
      end
    end
  end.

(** Each turn takes a hash off, or a transaction out of the pool with at most its outputs put on. *)
Definition pool_weight (m : CTxMemPool) : nat := map_fold (fun _ e acc => (S (length (vout (GetTx e.2).2)) + acc)%nat) O (mapTx m).

Definition remove (origTx : hashed_tx) (removed : list hashed_tx) (fRecursive : bool) (m : CTxMemPool) : option (CTxMemPool * list hashed_tx) :=
  more ← (if fRecursive && negb (pool_exists origTx.1 m) then children m origTx else Some []);
  let txToRemove := origTx.1 :: more in
  remove_loop (length txToRemove + pool_weight m) fRecursive txToRemove m removed.

(** *** After a change of the tip *)

(** The removal, with their descendants, of the transactions found; the loops over mapTx
    collect those that satisfy a test; the order of the removals makes no difference
    ([remove_each_spec]). *)
Fixpoint remove_each (l : list hashed_tx) (m : CTxMemPool) : option CTxMemPool :=
  match l with
  | [] => Some m
  | tx :: l => '(m, _) ← remove tx [] true m; remove_each l m
  end.

Definition select (f : CTxMemPoolEntry -> bool) (m : CTxMemPool) : list hashed_tx :=
  map (fun p => GetTx p.2.2) (filter (fun p => f p.2.2 = true) (map_to_list (mapTx m))).

Definition removeWithAnchor (invalidRoot : Z) (t : ShieldedType) (m : CTxMemPool) : option CTxMemPool :=
  remove_each (select (fun e =>
    match t with
    | SPROUT => existsb (fun joinsplit => js_anchor joinsplit =? invalidRoot) (vjoinsplit (GetTx e).2)
    | SAPLING => existsb (fun spendDescription => sd_anchor spendDescription =? invalidRoot) (vShieldedSpend (GetTx e).2)
    end) m) m.

Definition removeWithoutBranchId (nMemPoolBranchId : Z) (m : CTxMemPool) : option CTxMemPool :=
  remove_each (select (fun e => negb (nBranchId e =? nMemPoolBranchId)) m) m.

(** The same loop where the test may fail an assertion. *)
Definition select_asserting (f : CTxMemPoolEntry -> option bool) (m : CTxMemPool) : option (list hashed_tx) :=
  l ← mapM (fun p => b ← f p.2.2; Some (b, GetTx p.2.2)) (map_to_list (mapTx m));
  Some (omap (fun p => if (p.1 : bool) then Some p.2 else None) l).

Section Reorg.
(** [CheckFinalTx] at the tip, the coins of the view, the chain's parameters, and the
    pool's setting that turns its assertions on. *)
Variables (CheckFinalTx : CMutableTransaction -> bool) (AccessCoins : Z -> option CCoins) (CoinbaseMaturity : Z)
  (ASSETCHAINS_TIMELOCKGTE ASSETCHAINS_TIMEUNLOCKFROM ASSETCHAINS_TIMEUNLOCKTO : Z) (squishy_block_prg : Z -> Z) (nCheckFrequency : Z).

(** A coinbase that is immature and whose first output is large enough to be time-locked,
    at a height before it unlocks: immaturity alone is not enough. *)
Definition immature_and_locked (nMemPoolHeight : Z) (coins : CCoins) : bool :=
  fCoinBase coins && (nMemPoolHeight - coins_nHeight coins <? CoinbaseMaturity) &&
  ((nMemPoolHeight <? squishy_block_unlocktime ASSETCHAINS_TIMEUNLOCKFROM ASSETCHAINS_TIMEUNLOCKTO squishy_block_prg (u32 (coins_nHeight coins))) && IsAvailable coins 0 &&
   match coins_vout coins !! 0%nat with Some o => u64 (nValue o) >=? ASSETCHAINS_TIMELOCKGTE | None => false end).

(** The inputs of a transaction that spends a coinbase, until one rules it out; [None] is
    [assert(coins)]. *)
Fixpoint reorg_inputs (nMemPoolHeight : Z) (m : CTxMemPool) (l : list CTxIn) : option bool :=
  match l with
  | [] => Some false
  | txin :: l =>
    match mapTx m !! hash (prevout txin) with
    | Some _ => reorg_inputs nMemPoolHeight m l
    | None =>
      match AccessCoins (hash (prevout txin)) with
      | None => if nCheckFrequency =? 0 then Some true else None
      | Some coins => if immature_and_locked nMemPoolHeight coins then Some true else reorg_inputs nMemPoolHeight m l
      end
    end
  end.

Definition reorg_test (nMemPoolHeight : Z) (m : CTxMemPool) (e : CTxMemPoolEntry) : option bool :=
  if negb (CheckFinalTx (GetTx e).2) then Some true
  else if spendsCoinbase e then reorg_inputs nMemPoolHeight m (vin (GetTx e).2) else Some false.

Definition removeForReorg (nMemPoolHeight : Z) (m : CTxMemPool) : option CTxMemPool :=
  l ← select_asserting (reorg_test nMemPoolHeight m) m; remove_each l m.

(** What the test amounts to where it asserts nothing: the transaction is no longer final,
    or is marked as spending a coinbase and has an input, from no transaction of the pool,
    whose coins are gone or are a coinbase that is immature and locked. *)
Definition reorg_rules_out (nMemPoolHeight : Z) (m : CTxMemPool) (e : CTxMemPoolEntry) : bool :=
  negb (CheckFinalTx (GetTx e).2) ||
  spendsCoinbase e && existsb (fun txin => negb (pool_exists (hash (prevout txin)) m) &&
    match AccessCoins (hash (prevout txin)) with Some coins => immature_and_locked nMemPoolHeight coins | None => true end) (vin (GetTx e).2).

(** The assertion fails on an input whose coins are gone. *)
Definition coins_missing (m : CTxMemPool) (e : CTxMemPoolEntry) : Prop :=
  nCheckFrequency <> 0 /\ CheckFinalTx (GetTx e).2 = true /\ spendsCoinbase e = true /\
  exists txin, txin ∈ vin (GetTx e).2 /\ mapTx m !! hash (prevout txin) = None /\ AccessCoins (hash (prevout txin)) = None.

Lemma reorg_test_spec h m e :
  match reorg_test h m e with Some b => b = reorg_rules_out h m e | None => coins_missing m e end.
Proof.
  unfold reorg_test, reorg_rules_out, coins_missing. destruct (CheckFinalTx (GetTx e).2); [|done]. destruct (spendsCoinbase e); [|done]. cbn [negb orb andb].
  induction (vin (GetTx e).2) as [|i l IH]; [done|]. cbn [reorg_inputs existsb]. unfold pool_exists at 1. destruct (mapTx m !! hash (prevout i)) as [p|] eqn:Hp.
  - rewrite bool_decide_eq_true_2 by eauto. cbn [negb andb orb]. destruct (reorg_inputs h m l); [done|].
    destruct IH as (H1 & H2 & H3 & x & Hx & ?). split_and!; try done. exists x. split; [by apply list_elem_of_further|done].
  - rewrite bool_decide_eq_false_2 by (by intros []). cbn [negb andb]. destruct (AccessCoins (hash (prevout i))) as [coins|] eqn:Hc.
    + destruct (immature_and_locked h coins); [done|]. cbn [orb]. destruct (reorg_inputs h m l); [done|].
      destruct IH as (H1 & H2 & H3 & x & Hx & ?). split_and!; try done. exists x. split; [by apply list_elem_of_further|done].
    + destruct (Z.eqb_spec nCheckFrequency 0); [done|]. split_and!; try done. exists i. split; [apply list_elem_of_here|done].
Qed.
End Reorg.

Lemma select_asserting_spec f (g : CTxMemPoolEntry -> bool) (bad : CTxMemPoolEntry -> Prop) m :
  (forall e, match f e with Some b => b = g e | None => bad e end) ->
  match select_asserting f m with
  | Some l => l = select g m
  | None => exists h a e, mapTx m !! h = Some (a, e) /\ bad e
  end.
Proof.
  intros Hf. unfold select_asserting, select.
  assert (Hin : forall x, x ∈ map_to_list (mapTx m) -> mapTx m !! x.1 = Some x.2) by (by intros [h p] ?%elem_of_map_to_list).
  induction (map_to_list (mapTx m)) as [|[h [a e]] l IH]; [done|]. cbn [mapM fst snd]. specialize (Hf e) as He. destruct (f e) as [b|].
  2: { cbn. exists h, a, e. split; [apply (Hin (h, (a, e))), list_elem_of_here|done]. }
  specialize (IH (fun x Hx => Hin x (list_elem_of_further _ _ _ Hx))). cbn [mbind option_bind].
  destruct (mapM _ l) as [r|]; [|done]. unfold mret, option_ret. cbn [mbind option_bind omap list_omap fst snd] in *.
  rewrite filter_cons. cbn [snd]. subst b. destruct (g e); [rewrite decide_True by done|rewrite decide_False by done]; cbn [map snd]; by rewrite <- IH.
Qed.

(** [tip]: the height and the median time past of the tip, if there is one. *)
Definition removeExpired (SQUISHY_REWIND : Z) (isKMD : bool) (tip : option (Z * Z)) (nBlockHeight : Z) (m : CTxMemPool) : option CTxMemPool :=
  remove_each (select (fun e =>
    let fInterestNotValidated :=
      match tip with
      | Some (nHeight, mtp) => isKMD && negb (squishy_validate_interest SQUISHY_REWIND isKMD (GetTx e).2 (nHeight + 1) (u32 (mtp + 777)))
      | None => false
      end in
    IsExpiredTx (GetTx e).2 nBlockHeight || fInterestNotValidated) m) m.

(** *** A block is connected *)

(** The removal of one transaction found in an index, if it is another one. *)
Definition remove_conflict (tx : hashed_tx) (found : option Z) (m : CTxMemPool) (removed : list hashed_tx) : option (CTxMemPool * list hashed_tx) :=
  match found with
  | None => Some (m, removed)
  | Some a =>
    txConflict ← live_txs m !! a;
    if txConflict.1 =? tx.1 then Some (m, removed) else remove txConflict removed true m
  end.

Fixpoint remove_conflicts_in {K} (find : K -> CTxMemPool -> option Z) (tx : hashed_tx) (l : list K) (m : CTxMemPool) (removed : list hashed_tx) : option (CTxMemPool * list hashed_tx) :=
  match l with
  | [] => Some (m, removed)
  | k :: l => '(m, removed) ← remove_conflict tx (find k m) m removed; remove_conflicts_in find tx l m removed
  end.

Definition removeConflicts (tx : hashed_tx) (m : CTxMemPool) (removed : list hashed_tx) : option (CTxMemPool * list hashed_tx) :=
  '(m, removed) ← remove_conflicts_in (fun o m => ptx <$> mapNextTx m !! o) tx (map prevout (vin tx.2)) m removed;
  '(m, removed) ← remove_conflicts_in (fun nf m => mapSproutNullifiers m !! nf) tx (nullifiers_of SPROUT tx.2) m removed;
  remove_conflicts_in (fun nf m => mapSaplingNullifiers m !! nf) tx (nullifiers_of SAPLING tx.2) m removed.

Definition ClearPrioritisation (h : Z) (m : CTxMemPool) : CTxMemPool :=
  mkMemPool (mapTx m) (mapNextTx m) (mapSproutNullifiers m) (mapSaplingNullifiers m) (mapRecentlyAddedTx m) (nRecentlyAddedSequence m)
    (nTransactionsUpdated m) (totalTxSize m) (cachedInnerUsage m) (delete h (mapDeltas m)) (live_txs m) (next_addr m).

(** The second loop; the first and the last call feed the fee estimator. *)
Fixpoint removeForBlock (vtx : list hashed_tx) (m : CTxMemPool) (conflicts : list hashed_tx) : option (CTxMemPool * list hashed_tx) :=
  match vtx with
  | [] => Some (m, conflicts)
  | tx :: vtx =>
    '(m, _) ← remove tx [] false m;
    '(m, conflicts) ← removeConflicts tx m conflicts;
    removeForBlock vtx (ClearPrioritisation tx.1 m) conflicts
  end.

(** The objects of mapTx go; the indexes by nullifier and the recently added stay. *)
Definition pool_clear (m : CTxMemPool) : CTxMemPool :=
  mkMemPool ∅ ∅ (mapSproutNullifiers m) (mapSaplingNullifiers m) (mapRecentlyAddedTx m) (nRecentlyAddedSequence m)
    (u32 (nTransactionsUpdated m + 1)) 0 0 (mapDeltas m) ∅ (next_addr m).

Definition PrioritiseTransaction (h nFeeDelta : Z) (m : CTxMemPool) : CTxMemPool :=
  mkMemPool (mapTx m) (mapNextTx m) (mapSproutNullifiers m) (mapSaplingNullifiers m) (mapRecentlyAddedTx m) (nRecentlyAddedSequence m)
    (nTransactionsUpdated m) (totalTxSize m) (cachedInnerUsage m) (<[h := i64 (default 0 (mapDeltas m !! h) + nFeeDelta)]> (mapDeltas m))
    (live_txs m) (next_addr m).

(** The transactions handed to the wallets; a pointer to none is [None].  The number notified
    last, kept on regtest only, is left out. *)
Definition NotifyRecentlyAdded (m : CTxMemPool) : option (list hashed_tx * CTxMemPool) :=
  txs ← mapM (fun kv => live_txs m !! kv.2) (map_to_list (mapRecentlyAddedTx m));
  Some (txs, mkMemPool (mapTx m) (mapNextTx m) (mapSproutNullifiers m) (mapSaplingNullifiers m) ∅ (nRecentlyAddedSequence m)
    (nTransactionsUpdated m) (totalTxSize m) (cachedInnerUsage m) (mapDeltas m) (live_txs m) (next_addr m)).

(** ** Consistency *)

(** [o] is what an entry of the pool at [a] spends with its input [i]. *)
Definition spent_by (m : CTxMemPool) (o : COutPoint) (a i : Z) : Prop :=
  exists h e j txin, mapTx m !! h = Some (a, e) /\ IsCoinImport (GetTx e).2 = false /\ vin (GetTx e).2 !! j = Some txin /\
    prevout txin = o /\ i = Z.of_nat j.

Definition reveals (m : CTxMemPool) (t : ShieldedType) (nf a : Z) : Prop :=
  exists h e, mapTx m !! h = Some (a, e) /\ nf ∈ nullifiers_of t (GetTx e).2.

(** Nothing of a transaction that is no import looks like an import's input. *)
Definition plain_inputs (tx : CMutableTransaction) : Prop :=
  IsCoinImport tx = false -> forall txin, txin ∈ vin tx -> n (prevout txin) <> 1000000000.

(** The indexes are exactly those of the entries, and no pointer dangles. *)
Record pool_inv (m : CTxMemPool) : Prop := {
  inv_key h a e : mapTx m !! h = Some (a, e) -> (GetTx e).1 = h;
  inv_live a tx : live_txs m !! a = Some tx <-> exists e, mapTx m !! tx.1 = Some (a, e) /\ GetTx e = tx;
  inv_free h a e : mapTx m !! h = Some (a, e) -> a < next_addr m;
  inv_next o ip : mapNextTx m !! o = Some ip <-> spent_by m o (ptx ip) (ip_n ip);
  inv_nulls t nf a : map_nullifiers t m !! nf = Some a <-> reveals m t nf a;
  inv_recent h a : mapRecentlyAddedTx m !! h = Some a -> exists e, mapTx m !! h = Some (a, e);
  inv_plain h a e : mapTx m !! h = Some (a, e) -> plain_inputs (GetTx e).2;
  inv_size : totalTxSize m = u64 (map_sum (fun ae : Z * CTxMemPoolEntry => nTxSize ae.2) (mapTx m));
  inv_usage : cachedInnerUsage m = u64 (map_sum (fun ae : Z * CTxMemPoolEntry => nUsageSize ae.2) (mapTx m))
}.

(** What AcceptToMemoryPool has seen to when it calls [addUnchecked]. *)
Record admissible (h : Z) (entry : CTxMemPoolEntry) (m : CTxMemPool) : Prop := {
  adm_hash : (GetTx entry).1 = h;
  adm_new : mapTx m !! h = None;
  adm_inputs : forall txin, txin ∈ vin (GetTx entry).2 -> mapNextTx m !! prevout txin = None;
  adm_nulls : forall t nf, nf ∈ nullifiers_of t (GetTx entry).2 -> map_nullifiers t m !! nf = None;
  adm_once : base.NoDup (map prevout (vin (GetTx entry).2));
  adm_plain : plain_inputs (GetTx entry).2
}.

Lemma lookup_delete_all {K A} `{Countable K} (l : list K) (m : gmap K A) k :
  delete_all l m !! k = if decide (k ∈ l) then None else m !! k.
Proof.
  revert m. induction l as [|x l IH]; intros m; [by rewrite decide_False by (by intros ?%elem_of_nil)|].
  cbn [delete_all]. rewrite IH. destruct (decide (k ∈ l)) as [Hi|Hi]; [by rewrite decide_True by (by right)|].
  destruct (decide (k = x)) as [->|Hn]; [by rewrite lookup_delete_eq, decide_True by (by left)|].
  by rewrite lookup_delete_ne, decide_False by (try intros [?|?]%elem_of_cons; congruence).
Qed.

Lemma lookup_add_keys a l m k : add_keys a l m !! k = if decide (k ∈ l) then Some a else m !! k.
Proof.
  revert m. induction l as [|x l IH]; intros m; [by rewrite decide_False by (by intros ?%elem_of_nil)|].
  cbn [add_keys]. rewrite IH. destruct (decide (k ∈ l)) as [Hi|Hi]; [by rewrite decide_True by (by right)|].
  destruct (decide (k = x)) as [->|Hn]; [by rewrite lookup_insert_eq, decide_True by (by left)|].
  by rewrite lookup_insert_ne, decide_False by (try intros [?|?]%elem_of_cons; congruence).
Qed.

Lemma lookup_add_next a l i m o ip : base.NoDup (map prevout l) ->
  add_next a l i m !! o = Some ip <->
  (exists j txin, l !! j = Some txin /\ prevout txin = o /\ ip = mkCInPoint a (i + Z.of_nat j)) \/
  (o ∉ map prevout l /\ m !! o = Some ip).
Proof.
  revert i m. induction l as [|x l IH]; intros i m Hnd; cbn [add_next map].
  { split; [intros Hm; right; split; [by intros ?%elem_of_nil|done]|]. intros [(j & ? & ? & _)|[_ ?]]; [by destruct j|done]. }
  apply list.NoDup_cons in Hnd as [Hx Hnd]. rewrite (IH _ _ Hnd). split.
  - intros [(j & txin & Hj & Ho & ->)|[Hn Hm]].
    + left. exists (S j), txin. split_and!; [done|done|]. f_equal. lia.
    + apply lookup_insert_Some in Hm as [[<- <-]|[Hne Hm]].
      * left. exists 0%nat, x. split_and!; [done|done|]. f_equal. lia.
      * right. split; [|done]. intros [->|?]%elem_of_cons; done.
  - intros [([|j] & txin & Hj & Ho & ->)|[Hn Hm]].
    + cbn in Hj. injection Hj as <-. right. subst o. split; [done|]. rewrite lookup_insert_eq. do 2 f_equal. lia.
    + left. exists j, txin. split_and!; [done|done|]. f_equal. lia.
    + right. apply not_elem_of_cons in Hn as [Hne Hn]. split; [done|]. by rewrite lookup_insert_ne.
Qed.

Lemma empty_mempool_inv : pool_inv empty_mempool.
Proof.
  split; unfold empty_mempool, spent_by, reveals; cbn [mapTx live_txs mapNextTx mapRecentlyAddedTx totalTxSize cachedInnerUsage next_addr].
  - by intros ? ? ? ?%lookup_empty_Some.
  - intros a tx. split; [by intros ?%lookup_empty_Some|]. by intros (? & ?%lookup_empty_Some & _).
  - by intros ? ? ? ?%lookup_empty_Some.
  - intros o ip. split; [by intros ?%lookup_empty_Some|]. by intros (? & ? & ? & ? & ?%lookup_empty_Some & _).
  - intros t nf a. split; [by destruct t; cbn; intros ?%lookup_empty_Some|]. by intros (? & ? & ?%lookup_empty_Some & _).
  - by intros ? ? ?%lookup_empty_Some.
  - by intros ? ? ? ?%lookup_empty_Some.
  - done.
  - done.
Qed.

Section Indexed.
Variable m : CTxMemPool.
Hypothesis Hm : pool_inv m.

(** An address is that of one entry. *)
Lemma same_address h h' a e e' : mapTx m !! h = Some (a, e) -> mapTx m !! h' = Some (a, e') -> h = h'.
Proof using Hm.
  intros H1 H2. assert (L1 : live_txs m !! a = Some (GetTx e)).
  { apply (inv_live m Hm). exists e. by rewrite (inv_key m Hm _ _ _ H1). }
  assert (L2 : live_txs m !! a = Some (GetTx e')).
  { apply (inv_live m Hm). exists e'. by rewrite (inv_key m Hm _ _ _ H2). }
  rewrite L1 in L2. injection L2 as E. by rewrite <- (inv_key m Hm _ _ _ H1), <- (inv_key m Hm _ _ _ H2), E.
Qed.

Lemma live_entry h a e : mapTx m !! h = Some (a, e) -> live_txs m !! a = Some (GetTx e).
Proof using Hm. intros H1. apply (inv_live m Hm). exists e. by rewrite (inv_key m Hm _ _ _ H1). Qed.

(** An entry that is no import and spends [o] is the one the index names. *)
Lemma spends_index o h a e txin : mapTx m !! h = Some (a, e) -> IsCoinImport (GetTx e).2 = false -> txin ∈ vin (GetTx e).2 -> prevout txin = o ->
  exists i, mapNextTx m !! o = Some (mkCInPoint a i).
Proof using Hm.
  intros H1 Himp [j Hj]%list_elem_of_lookup Ho. exists (Z.of_nat j). apply (inv_next m Hm). cbn. by exists h, e, j, txin.
Qed.
End Indexed.

(** *** Adding *)

Lemma addUnchecked_spec h entry m : pool_inv m -> admissible h entry m ->
  exists m', addUnchecked h entry m = Some m' /\ pool_inv m' /\ mapTx m' = <[h := (next_addr m, entry)]> (mapTx m).
Proof.
  intros Hm Ha. pose proof (adm_new _ _ _ Ha) as Hnew. pose proof (adm_hash _ _ _ Ha) as Hh. subst h.
  unfold addUnchecked, insert_entry. rewrite Hnew. cbn [mapTx mapNextTx mapSproutNullifiers mapSaplingNullifiers mapRecentlyAddedTx
    nRecentlyAddedSequence nTransactionsUpdated totalTxSize cachedInnerUsage mapDeltas live_txs next_addr].
  rewrite lookup_insert_eq. cbn [mbind option_bind]. set (a := next_addr m). set (tx := GetTx entry). fold tx in Hnew.
  eexists. split; [done|]. split; [|done].
  assert (Hne : forall k b e, mapTx m !! k = Some (b, e) -> b <> a /\ k <> tx.1).
  { intros k b e Hk. split; [intros ->; pose proof (inv_free m Hm _ _ _ Hk); unfold a in *; lia|intros ->; unfold tx in *; congruence]. }
  split; cbn [mapTx mapNextTx mapRecentlyAddedTx totalTxSize cachedInnerUsage live_txs next_addr].
  - intros k b e [[<- [= <- <-]]|[_ Hk]]%lookup_insert_Some; [done|by eapply inv_key].
  - intros b tx'. split.
    + intros [[<- <-]|[Hb Hl]]%lookup_insert_Some; [exists entry; by rewrite lookup_insert_eq|].
      apply (inv_live m Hm) in Hl as (e & He & Ht). exists e. by rewrite lookup_insert_ne by (intros E; by destruct (Hne _ _ _ He)).
    + intros (e & [[E [= <- <-]]|[Hk He]]%lookup_insert_Some & Ht); [rewrite lookup_insert_eq; by f_equal|].
      rewrite lookup_insert_ne by (intros E; by destruct (Hne _ _ _ He)). apply (inv_live m Hm). eauto.
  - intros k b e [[<- [= <- <-]]|[_ Hk]]%lookup_insert_Some; [lia|]. pose proof (inv_free m Hm _ _ _ Hk). lia.
  - intros o ip. fold tx. transitivity ((IsCoinImport tx.2 = false /\ exists j txin, vin tx.2 !! j = Some txin /\ prevout txin = o /\ ip = mkCInPoint a (Z.of_nat j)) \/ mapNextTx m !! o = Some ip).
    + destruct (IsCoinImport tx.2) eqn:Himp; [split; [by right|by intros [[? _]|?]]|].
      pose proof (adm_once _ _ _ Ha) as Hnd. fold tx in Hnd. rewrite (lookup_add_next _ _ _ _ _ _ Hnd). setoid_rewrite Z.add_0_l. split.
      * intros [?|[_ ?]]; [by left|by right].
      * intros [[_ ?]|Ho]; [by left|right]. split; [|done]. intros (txin & -> & Hin)%list_elem_of_fmap.
        by rewrite (adm_inputs _ _ _ Ha _ Hin) in Ho.
    + rewrite (inv_next m Hm). unfold spent_by. cbn [mapTx]. split.
      * intros [(Himp & j & txin & Hj & Ho & ->)|(k & e & j & txin & Hk & ?)].
        -- exists tx.1, entry, j, txin. unfold tx in *. by rewrite lookup_insert_eq.
        -- exists k, e, j, txin. rewrite lookup_insert_ne; [done|]. intros E. by destruct (Hne _ _ _ Hk).
      * intros (k & e & j & txin & [[E1 E2]|[_ Hk]]%lookup_insert_Some & Himp & Hj & Ho & Hi).
        -- left. injection E2 as E2 ->. split; [done|]. exists j, txin. split_and!; [done|done|]. destruct ip. cbn in *. by subst.
        -- right. by exists k, e, j, txin.
  - intros t nf b. transitivity (nf ∈ nullifiers_of t tx.2 /\ b = a \/ map_nullifiers t m !! nf = Some b).
    + assert (E : forall g, add_keys a (nullifiers_of t tx.2) g !! nf = Some b <-> nf ∈ nullifiers_of t tx.2 /\ b = a \/ nf ∉ nullifiers_of t tx.2 /\ g !! nf = Some b).
      { intros g. rewrite lookup_add_keys. case_decide; split; [by intros [= <-]; left|by intros [[_ ->]|[? _]]|by right|by intros [[? _]|[_ ?]]]. }
      assert (Hg : map_nullifiers t m !! nf = Some b -> nf ∉ nullifiers_of t tx.2).
      { intros Hs Hin. by rewrite (adm_nulls _ _ _ Ha _ _ Hin) in Hs. }
      destruct t; cbn [map_nullifiers mapSproutNullifiers mapSaplingNullifiers] in *; rewrite E; naive_solver.
    + rewrite (inv_nulls m Hm). unfold reveals. cbn [mapTx]. split.
      * intros [[Hin ->]|(k & e & Hk & Hin)]; [exists tx.1, entry; unfold tx; by rewrite lookup_insert_eq|].
        exists k, e. rewrite lookup_insert_ne; [done|]. intros E. by destruct (Hne _ _ _ Hk).
      * intros (k & e & [[E1 [= <- <-]]|[_ Hk]]%lookup_insert_Some & Hin); [by left|right; eauto].
  - intros k b [[<- <-]|[Hk Hr]]%lookup_insert_Some; [exists entry; unfold tx; by rewrite lookup_insert_eq|].
    apply (inv_recent m Hm) in Hr as [e He]. exists e. by rewrite lookup_insert_ne.
  - intros k b e [[<- [= <- <-]]|[_ Hk]]%lookup_insert_Some; [by apply (adm_plain _ _ _ Ha)|by eapply inv_plain].
  - rewrite map_sum_insert, Hnew, (inv_size m Hm), u64_add_l. cbn. f_equal. lia.
  - rewrite map_sum_insert, Hnew, (inv_usage m Hm), u64_add_l. cbn. f_equal. lia.
Qed.

(** *** Removing *)

Section Erase.
Variables (m : CTxMemPool) (h a : Z) (e : CTxMemPoolEntry).
Hypotheses (Hm : pool_inv m) (He : mapTx m !! h = Some (a, e)).

(** An entry's inputs lose only what the entry spends. *)
Lemma erase_next o ip : delete_all (map prevout (vin (GetTx e).2)) (mapNextTx m) !! o = Some ip <-> mapNextTx m !! o = Some ip /\ ptx ip <> a.
Proof using Hm He.
  rewrite lookup_delete_all. case_decide as Hin.
  - split; [done|]. intros [Ho Hp]. exfalso. apply list_elem_of_fmap in Hin as (txin & -> & Hin).
    apply (inv_next m Hm) in Ho as (h' & e' & j & txin' & Hh' & Himp & Hj & Heq & _).
    destruct (IsCoinImport (GetTx e).2) eqn:Hi.
    + apply (inv_plain m Hm _ _ _ Hh' Himp txin'); [by eapply list_elem_of_lookup_2|]. rewrite Heq.
      unfold IsCoinImport in Hi. destruct (vin (GetTx e).2) as [|i [|]]; try done. apply list_elem_of_singleton in Hin as ->. lia.
    + destruct (spends_index m Hm (prevout txin) h a e txin He Hi Hin eq_refl) as [i Hx].
      assert (Hy : mapNextTx m !! prevout txin = Some (mkCInPoint (ptx ip) (Z.of_nat j))).
      { apply (inv_next m Hm). cbn. exists h', e', j, txin'. done. }
      rewrite Hx in Hy. injection Hy as E _. done.
  - split; [|by intros [? _]]. intros Ho. split; [done|]. intros E. apply Hin.
    apply (inv_next m Hm) in Ho as (h' & e' & j & txin & Hh' & Himp & Hj & <- & _).
    rewrite E in Hh'. pose proof (same_address m Hm _ _ _ _ _ He Hh') as <-. rewrite He in Hh'. injection Hh' as <-.
    apply list_elem_of_fmap. exists txin. split; [done|]. by eapply list_elem_of_lookup_2.
Qed.

Lemma erase_nulls t nf b : delete_all (nullifiers_of t (GetTx e).2) (map_nullifiers t m) !! nf = Some b <-> map_nullifiers t m !! nf = Some b /\ b <> a.
Proof using Hm He.
  rewrite lookup_delete_all. assert (Hr : nf ∈ nullifiers_of t (GetTx e).2 -> map_nullifiers t m !! nf = Some a).
  { intros Hin. apply (inv_nulls m Hm). by exists h, e. }
  case_decide as Hin; [split; [done|]; intros [Hb Hn]; rewrite Hr in Hb by done; congruence|].
  split; [|by intros [? _]]. intros Hb. split; [done|]. intros ->. apply Hin. apply (inv_nulls m Hm) in Hb as (h' & e' & Hh' & Hin').
  pose proof (same_address m Hm _ _ _ _ _ He Hh') as <-. rewrite He in Hh'. by injection Hh' as <-.
Qed.

Lemma erase_lookup k b e' : delete h (mapTx m) !! k = Some (b, e') <-> mapTx m !! k = Some (b, e') /\ b <> a.
Proof using Hm He.
  rewrite lookup_delete_Some. split.
  - intros [Hn Hk]. split; [done|]. intros ->. apply Hn. by apply (same_address m Hm _ _ _ _ _ He Hk).
  - intros [Hk Hb]. split; [|done]. intros <-. rewrite He in Hk. by injection Hk as E _.
Qed.

Lemma erase_inv : pool_inv (erase_entry h a e m).
Proof using Hm He.
  unfold erase_entry. split; cbn [mapTx mapNextTx mapRecentlyAddedTx totalTxSize cachedInnerUsage live_txs next_addr].
  - intros k b e' [Hk _]%erase_lookup. by eapply inv_key.
  - intros b tx. rewrite lookup_delete_Some. setoid_rewrite erase_lookup. rewrite (inv_live m Hm). naive_solver.
  - intros k b e' [Hk _]%erase_lookup. by eapply inv_free.
  - intros o ip. rewrite erase_next, (inv_next m Hm). unfold spent_by. cbn [mapTx]. setoid_rewrite erase_lookup. naive_solver.
  - intros t nf b. transitivity (map_nullifiers t m !! nf = Some b /\ b <> a); [by destruct t; apply erase_nulls|].
    rewrite (inv_nulls m Hm). unfold reveals. cbn [mapTx]. setoid_rewrite erase_lookup. naive_solver.
  - intros k b [Hn Hk]%lookup_delete_Some. apply (inv_recent m Hm) in Hk as [e' Hk]. exists e'. by rewrite lookup_delete_ne.
  - intros k b e' [Hk _]%erase_lookup. by eapply inv_plain.
  - rewrite (inv_size m Hm), u64_sub_l, (map_sum_delete _ _ h), He. cbn. f_equal. lia.
  - rewrite (inv_usage m Hm), u64_sub_l, (map_sum_delete _ _ h), He. cbn. f_equal. lia.
Qed.

Lemma erase_weight : pool_weight m = (S (length (vout (GetTx e).2)) + pool_weight (erase_entry h a e m))%nat.
Proof using He.
  unfold pool_weight. cbn [mapTx erase_entry].
  rewrite (map_fold_delete_L (fun (_ : Z) (p : Z * CTxMemPoolEntry) (acc : nat) => (S (length (vout (GetTx p.2).2)) + acc)%nat) O h (a, e) (mapTx m)); [done| |done].
  intros. lia.
Qed.
End Erase.

(** The hash of a transaction of the pool that spends an output of [tx]. *)
Definition spends_of (m : CTxMemPool) (tx : hashed_tx) (h' : Z) : Prop :=
  exists a e txin, mapTx m !! h' = Some (a, e) /\ IsCoinImport (GetTx e).2 = false /\ txin ∈ vin (GetTx e).2 /\
    hash (prevout txin) = tx.1 /\ 0 <= n (prevout txin) < Z.of_nat (length (vout tx.2)).

Definition child (m : CTxMemPool) (h h' : Z) : Prop := exists p, mapTx m !! h = Some p /\ spends_of m (h, (GetTx p.2).2) h'.

(** The transaction of hash [x] descends from one of the hashes [l]. *)
Definition descends (m : CTxMemPool) (l : list Z) (x : Z) : Prop := exists r, r ∈ l /\ rtc (child m) r x.

Lemma spenders_spec m k count i : pool_inv m -> 0 <= i ->
  exists l, spenders m k count i = Some l /\ (length l <= count)%nat /\
    forall h', h' ∈ l <-> exists a e txin, mapTx m !! h' = Some (a, e) /\ IsCoinImport (GetTx e).2 = false /\ txin ∈ vin (GetTx e).2 /\
      hash (prevout txin) = k /\ i <= n (prevout txin) < i + Z.of_nat count.
Proof.
  intros Hm. revert i. induction count as [|count IH]; intros i Hi; cbn [spenders].
  { exists []. split_and!; [done|done|]. intros h'. split; [by intros ?%elem_of_nil|]. intros (? & ? & ? & ? & ? & ? & ? & ?). lia. }
  destruct (IH (i + 1) ltac:(lia)) as (l & Hl & Hlen & Hspec). rewrite Hl.
  assert (Hstep : forall h', (exists a e txin, mapTx m !! h' = Some (a, e) /\ IsCoinImport (GetTx e).2 = false /\ txin ∈ vin (GetTx e).2 /\
      hash (prevout txin) = k /\ i <= n (prevout txin) < i + Z.of_nat (S count)) <->
    (exists a e txin, mapTx m !! h' = Some (a, e) /\ IsCoinImport (GetTx e).2 = false /\ txin ∈ vin (GetTx e).2 /\ prevout txin = mkCOutPoint k i) \/ h' ∈ l).
  { intros h'. rewrite Hspec. split.
    - intros (a & e & txin & H1 & H2 & H3 & H4 & H5). destruct (decide (n (prevout txin) = i)) as [E|E].
      + left. exists a, e, txin. split_and!; try done. destruct (prevout txin). cbn in *. by subst.
      + right. exists a, e, txin. split_and!; try done; lia.
    - intros [(a & e & txin & H1 & H2 & H3 & H4)|(a & e & txin & H1 & H2 & H3 & H4 & H5)]; exists a, e, txin; [|split_and!; try done; lia].
      rewrite H4. cbn. split_and!; try done; lia. }
  destruct (mapNextTx m !! mkCOutPoint k i) as [ip|] eqn:Hip.
  - pose proof (proj1 (inv_next m Hm _ _) Hip) as (h & e & j & txin & Hh & Himp & Hj & Ho & _).
    rewrite (live_entry m Hm _ _ _ Hh). cbn [mbind option_bind]. rewrite (inv_key m Hm _ _ _ Hh).
    exists (h :: l). split_and!; [done|cbn; lia|]. intros h'. rewrite Hstep, elem_of_cons. split.
    + intros [->|?]; [left|by right]. exists (ptx ip), e, txin. split_and!; try done. by eapply list_elem_of_lookup_2.
    + intros [(a & e' & txin' & H1 & H2 & H3 & H4)|?]; [left|by right].
      destruct (spends_index m Hm _ _ _ _ _ H1 H2 H3 H4) as [i' Hx]. rewrite Hip in Hx. injection Hx as ->. by eapply same_address.
  - exists l. split_and!; [done|lia|]. intros h'. rewrite Hstep. split; [by right|]. intros [(a & e & txin & H1 & H2 & H3 & H4)|?]; [|done].
    destruct (spends_index m Hm _ _ _ _ _ H1 H2 H3 H4) as [? Hx]. congruence.
Qed.

Lemma children_spec m tx : pool_inv m ->
  exists l, children m tx = Some l /\ (length l <= length (vout tx.2))%nat /\ forall h', h' ∈ l <-> spends_of m tx h'.
Proof.
  intros Hm. destruct (spenders_spec m tx.1 (length (vout tx.2)) 0 Hm ltac:(lia)) as (l & Hl & Hlen & Hs).
  exists l. split_and!; [done|done|]. intros h'. by rewrite Hs.
Qed.

(** *** What a removal leaves *)

(** [m'] holds the entries of [m] outside [gone]. *)
Record keeps (m m' : CTxMemPool) (gone : Z -> Prop) : Prop := {
  keeps_at k p : mapTx m' !! k = Some p <-> mapTx m !! k = Some p /\ ~ gone k;
  keeps_or k p : mapTx m !! k = Some p -> mapTx m' !! k = None -> gone k
}.

Lemma spends_of_keeps m m' gone tx k : keeps m m' gone -> spends_of m' tx k <-> spends_of m tx k /\ ~ gone k.
Proof.
  intros Hk. unfold spends_of. setoid_rewrite (keeps_at _ _ _ Hk k). naive_solver.
Qed.

Lemma child_keeps m m' gone h k : keeps m m' gone -> child m' h k <-> child m h k /\ ~ gone h /\ ~ gone k.
Proof.
  intros Hk. unfold child. setoid_rewrite (keeps_at _ _ _ Hk h). setoid_rewrite (spends_of_keeps m m' gone); [|done]. naive_solver.
Qed.

(** A path that does not end in [h] avoids it, after its last visit to [h] at the latest. *)
Lemma rtc_avoid {A} `{EqDecision A} (R R' : A -> A -> Prop) (h : A) : (forall x y, R x y -> x <> h -> y <> h -> R' x y) ->
  forall r x, rtc R r x -> x <> h -> (r <> h /\ rtc R' r x) \/ exists c, R h c /\ c <> h /\ rtc R' c x.
Proof.
  intros HR r x Hr. induction Hr as [x|r y x Hry Hyx IH]; intros Hx; [left; split; [done|apply rtc_refl]|].
  destruct (IH Hx) as [[Hy Hp]|Hc]; [|by right]. destruct (decide (r = h)) as [->|Hn]; [right; eauto|].
  left. split; [done|]. eapply rtc_l; [by apply HR|done].
Qed.

Lemma descends_step m m1 h l more x p : mapTx m !! h = Some p -> keeps m m1 (fun k => k = h) ->
  (forall k, k ∈ more <-> child m h k) -> x <> h ->
  descends m (h :: l) x <-> descends m1 (app l more) x.
Proof.
  intros Hp Hk Hmore Hx. split.
  - intros (r & Hr & Hpath).
    destruct (rtc_avoid (child m) (child m1) h) with (r := r) (x := x) as [[Hn Hpath']|(c & Hc & Hn & Hpath')]; try done.
    + intros y z Hyz Hy Hz. by apply (child_keeps m m1 _ _ _ Hk).
    + exists r. split; [|done]. apply elem_of_cons in Hr as [->|Hr]; [done|]. apply elem_of_app. by left.
    + exists c. split; [|done]. apply elem_of_app. right. by apply Hmore.
  - intros (r & Hr & Hpath). assert (Hpath' : rtc (child m) r x).
    { eapply rtc_subrel; [|done]. intros y z Hyz. by apply (child_keeps m m1 _ _ _ Hk) in Hyz as [? _]. }
    apply elem_of_app in Hr as [Hr|Hr]; [exists r; split; [by right|done]|].
    exists h. split; [by left|]. eapply rtc_l; [by apply Hmore|done].
Qed.

Lemma descends_absent m h l x p : mapTx m !! h = None -> mapTx m !! x = Some p -> descends m (h :: l) x <-> descends m l x.
Proof.
  intros Hn Hx. split; [|intros (r & Hr & ?); exists r; split; [by right|done]].
  intros (r & [->|Hr]%elem_of_cons & Hpath); [|by exists r].
  apply rtc_inv in Hpath as [->|(y & (? & Hy & _) & _)]; congruence.
Qed.

(** The transactions noted as removed are those that went. *)
Definition noted (m m' : CTxMemPool) (l : list hashed_tx) : Prop :=
  forall tx, tx ∈ l <-> exists p, mapTx m !! tx.1 = Some p /\ GetTx p.2 = tx /\ mapTx m' !! tx.1 = None.

Lemma erase_keeps m h a e : keeps m (erase_entry h a e m) (fun k => k = h).
Proof.
  unfold erase_entry. split; cbn [mapTx]; [intros k p; rewrite lookup_delete_Some; naive_solver|].
  intros k p Hp [?|?]%lookup_delete_None; congruence.
Qed.

Lemma noted_cons m m1 m' h a e l : pool_inv m -> mapTx m !! h = Some (a, e) -> keeps m m1 (fun k => k = h) -> mapTx m' !! h = None ->
  noted m1 m' l -> noted m m' (GetTx e :: l).
Proof.
  intros Hm He Hk Hgone Hl tx. rewrite elem_of_cons, (Hl tx). pose proof (inv_key m Hm _ _ _ He) as Hkey. split.
  - intros [->|(p & Hp & Ht & Hn)]; [exists (a, e); by rewrite Hkey|]. apply (keeps_at _ _ _ Hk _ _) in Hp as [Hp _]. eauto.
  - intros (p & Hp & Ht & Hn). destruct (decide (tx.1 = h)) as [E|E].
    + left. rewrite E, He in Hp. by injection Hp as <-.
    + right. exists p. split_and!; [|done|done]. by apply (keeps_at _ _ _ Hk _ _).
Qed.

(** *** The removal loop *)

Lemma keeps_iff m m' (G G' : Z -> Prop) : keeps m m' G -> (forall x p, mapTx m !! x = Some p -> G x <-> G' x) -> keeps m m' G'.
Proof.
  intros Hk HG. split.
  - intros k p. rewrite (keeps_at _ _ _ Hk k p). split; intros [Hp Hn]; (split; [done|]); by rewrite (HG k p Hp) in *.
  - intros k p Hp Hn. apply (HG k p Hp). by eapply keeps_or.
Qed.

Lemma keeps_gone m m' G k : keeps m m' G -> G k -> mapTx m' !! k = None.
Proof. intros Hk HG. destruct (mapTx m' !! k) as [p|] eqn:E; [|done]. by apply (keeps_at _ _ _ Hk k p) in E as [_ ?]. Qed.

Lemma remove_loop_spec fuel q m removed : pool_inv m -> (length q + pool_weight m <= fuel)%nat ->
  exists m' l, remove_loop fuel true q m removed = Some (m', app removed l) /\ pool_inv m' /\ keeps m m' (descends m q) /\ noted m m' l.
Proof.
  revert q m removed. induction fuel as [|fuel IH]; intros [|h q] m removed Hm Hf; cbn [remove_loop]; try (cbn in Hf; lia).
  1,2: exists m, []; rewrite app_nil_r; split_and!; [done|done| |];
    [split; [intros k p; split; [intros Hk; split; [done|]; by intros (r & ?%elem_of_nil & _)|by intros [? _]]|congruence]|];
    intros tx; split; [by intros ?%elem_of_nil|]; intros (p & Hp & _ & Hn); congruence.
  destruct (mapTx m !! h) as [[a e]|] eqn:He.
  - destruct (children_spec m (h, (GetTx e).2) Hm) as (more & Hmore & Hlen & Hspec). rewrite Hmore. cbn [mbind option_bind].
    pose proof (erase_inv m h a e Hm He) as Hm1. pose proof (erase_keeps m h a e) as Hk1. pose proof (erase_weight m h a e He) as Hw.
    set (m1 := erase_entry h a e m) in *. cbn in Hlen. change (0%nat) with O in *. cbn [length] in Hf.
    destruct (IH (app q more) m1 (app removed [GetTx e]) Hm1) as (m' & l & Hrun & Hm' & Hk & Hl); [rewrite length_app; lia|].
    exists m', (GetTx e :: l). rewrite Hrun, <- app_assoc. split_and!; [done|done| |].
    + assert (Hd : forall k, k <> h -> descends m (h :: q) k <-> descends m1 (app q more) k).
      { intros k Hkh. apply (descends_step m m1 h q more k _ He Hk1); [|done]. intros x. rewrite Hspec. unfold child. rewrite He. naive_solver. }
      assert (Hh : descends m (h :: q) h) by (exists h; split; [by left|apply rtc_refl]).
      split; intros k p.
      * rewrite (keeps_at _ _ _ Hk k p), (keeps_at _ _ _ Hk1 k p). destruct (decide (k = h)) as [->|Hkh]; [naive_solver|]. rewrite (Hd k Hkh). naive_solver.
      * intros Hp Hn. destruct (decide (k = h)) as [->|Hkh]; [done|]. apply (Hd k Hkh). apply (keeps_or _ _ _ Hk k p); [|done].
        by apply (keeps_at _ _ _ Hk1 k p).
    + eapply noted_cons; [done|done|done| |done]. destruct (mapTx m' !! h) as [p|] eqn:E; [|done].
      apply (keeps_at _ _ _ Hk h p) in E as [E _]. by apply (keeps_at _ _ _ Hk1 h p) in E as [_ ?].
  - destruct (IH q m removed Hm) as (m' & l & Hrun & Hm' & Hk & Hl); [cbn in Hf; lia|].
    exists m', l. split_and!; [done|done| |done]. apply (keeps_iff _ _ _ _ Hk). intros x p Hx. symmetry. by eapply descends_absent.
Qed.

(** *** Removals one after the other *)

(** With a hash go its children. *)
Definition closed (m : CTxMemPool) (G : Z -> Prop) : Prop := forall h k, child m h k -> G h -> G k.

Lemma closed_rtc m G h k : closed m G -> rtc (child m) h k -> G h -> G k.
Proof. intros Hc Hr. induction Hr as [|x y z Hxy _ IH]; [done|]. intros Hx. apply IH. by eapply Hc. Qed.

Definition add_gone (m : CTxMemPool) (h : Z) (G : Z -> Prop) (x : Z) : Prop := G x \/ rtc (child m) h x.

Lemma closed_add m G h : closed m G -> closed m (add_gone m h G).
Proof. intros Hc x y Hxy [Hx|Hx]; [left; by eapply Hc|right; by eapply rtc_r]. Qed.

Lemma rtc_kept m m' G h x : keeps m m' G -> closed m G -> ~ G x -> rtc (child m) h x -> rtc (child m') h x.
Proof.
  intros Hk Hc Hx Hr. induction Hr as [|h y x Hhy Hr IH]; [by apply rtc_refl|].
  assert (Hy : ~ G y) by (intros Hy; apply Hx; by eapply closed_rtc).
  eapply rtc_l; [|by apply IH]. apply (child_keeps m m' _ _ _ Hk). split_and!; [done| |done]. intros Hh. apply Hy. by eapply Hc.
Qed.

Lemma rtc_kept_inv m m' G h x : keeps m m' G -> rtc (child m') h x -> rtc (child m) h x.
Proof. intros Hk. apply rtc_subrel. intros y z Hyz. by apply (child_keeps m m' _ _ _ Hk) in Hyz as [? _]. Qed.

(** In the course of removals from [m0], one more transaction of it goes, with its descendants. *)
Lemma remove_session m0 m G tx p removed : pool_inv m -> keeps m0 m G -> closed m0 G -> mapTx m0 !! tx.1 = Some p -> GetTx p.2 = tx ->
  exists m' l, remove tx removed true m = Some (m', app removed l) /\ pool_inv m' /\ keeps m0 m' (add_gone m0 tx.1 G) /\ noted m m' l.
Proof.
  intros Hm Hk Hc Hp Htx. unfold remove.
  assert (Hroots : exists more, (if true && negb (pool_exists tx.1 m) then children m tx else Some []) = Some more /\
    forall k, k ∈ more -> mapTx m !! tx.1 = None /\ spends_of m tx k).
  { unfold pool_exists. case_bool_decide as Hex; cbn [andb negb].
    - exists []. split; [done|]. by intros k ?%elem_of_nil.
    - destruct (children_spec m tx Hm) as (more & Hmore & _ & Hs). exists more. split; [done|]. intros k Hin. split; [by apply eq_None_not_Some|by apply Hs]. }
  destruct Hroots as (more & -> & Hmore). cbn [mbind option_bind].
  destruct (remove_loop_spec (length (tx.1 :: more) + pool_weight m) (tx.1 :: more) m removed Hm ltac:(lia)) as (m' & l & Hrun & Hm' & Hk' & Hl).
  assert (Hd : forall k, descends m (tx.1 :: more) k -> rtc (child m0) tx.1 k).
  { intros k (r & Hr & Hpath). apply (rtc_kept_inv _ _ _ _ _ Hk) in Hpath. apply elem_of_cons in Hr as [->|Hr]; [done|]. apply Hmore in Hr as [_ Hr].
    eapply rtc_l; [|done]. exists p. split; [done|]. rewrite Htx. apply (spends_of_keeps _ _ _ _ _ Hk) in Hr as [Hr _]. by destruct tx. }
  exists m', l. split_and!; [done|done| |done]. unfold add_gone. split; intros k q.
  - rewrite (keeps_at _ _ _ Hk' k q), (keeps_at _ _ _ Hk k q). split.
    + intros [[Hq HG] Hn]. split; [done|]. intros [?|Hr]; [done|]. apply Hn. exists tx.1. split; [by left|]. by eapply rtc_kept.
    + intros [Hq Hn]. split; [split; [done|]; intros HG; apply Hn; by left|]. intros Hr. apply Hn. right. by apply Hd.
  - intros Hq Hn. destruct (mapTx m !! k) as [q'|] eqn:E; [right; apply Hd; by eapply keeps_or|left; by eapply keeps_or].
Qed.

Lemma keeps_none m : keeps m m (fun _ => False).
Proof. split; [naive_solver|congruence]. Qed.

Definition shrunk (m m' : CTxMemPool) : Prop := forall k p, mapTx m' !! k = Some p -> mapTx m !! k = Some p.

Lemma keeps_shrunk m0 m m1 G G1 : keeps m0 m G -> keeps m0 m1 G1 -> (forall x, G x -> G1 x) -> shrunk m m1.
Proof. intros Hk Hk1 HG k p [Hp Hn]%(keeps_at _ _ _ Hk1). apply (keeps_at _ _ _ Hk). split; [done|]. intros ?. by apply Hn, HG. Qed.

Lemma noted_app m m1 m2 l l' : shrunk m m1 -> shrunk m1 m2 -> noted m m1 l -> noted m1 m2 l' -> noted m m2 (app l l').
Proof.
  intros Hk Hk1 Hl Hl' tx. rewrite elem_of_app, (Hl tx), (Hl' tx). split.
  - intros [(p & Hp & Ht & Hn)|(p & Hp & Ht & Hn)]; exists p; split_and!; try done.
    + destruct (mapTx m2 !! tx.1) as [q|] eqn:E; [|done]. apply Hk1 in E. congruence.
    + by apply Hk.
  - intros (p & Hp & Ht & Hn). destruct (mapTx m1 !! tx.1) as [q|] eqn:E; [right|left; eauto].
    exists q. split_and!; try done. apply Hk in E. congruence.
Qed.

Lemma noted_none m : noted m m [].
Proof. intros t. split; [by intros ?%elem_of_nil|]. intros (p & ? & _ & ?). congruence. Qed.

(** *** The evictions *)

Lemma remove_each_spec l m0 : forall m G, pool_inv m -> keeps m0 m G -> closed m0 G ->
  Forall (fun tx => exists p, mapTx m0 !! tx.1 = Some p /\ GetTx p.2 = tx) l ->
  exists m', remove_each l m = Some m' /\ pool_inv m' /\ keeps m0 m' (fun x => G x \/ exists tx, tx ∈ l /\ rtc (child m0) tx.1 x).
Proof.
  induction l as [|tx l IH]; intros m G Hm Hk Hc Hl; cbn [remove_each].
  { exists m. split_and!; [done|done|]. apply (keeps_iff _ _ _ _ Hk). intros x p _. split; [by left|].
    by intros [?|(? & ?%elem_of_nil & _)]. }
  apply Forall_cons_1 in Hl as [(p & Hp & Htx) Hl].
  destruct (remove_session m0 m G tx p [] Hm Hk Hc Hp Htx) as (m1 & l1 & -> & Hm1 & Hk1 & _). cbn [mbind option_bind].
  destruct (IH m1 _ Hm1 Hk1 (closed_add _ _ _ Hc) Hl) as (m' & -> & Hm' & Hk').
  exists m'. split_and!; [done|done|]. apply (keeps_iff _ _ _ _ Hk'). intros x q _. unfold add_gone. setoid_rewrite elem_of_cons. naive_solver.
Qed.

(** What satisfies [f] is gone with its descendants, and nothing else. *)
Definition evicted (f : CTxMemPoolEntry -> bool) (m m' : CTxMemPool) : Prop :=
  pool_inv m' /\ keeps m m' (fun x => exists r a e, mapTx m !! r = Some (a, e) /\ f e = true /\ rtc (child m) r x).

Lemma evict_select f m : pool_inv m -> exists m', remove_each (select f m) m = Some m' /\ evicted f m m'.
Proof.
  intros Hm.
  assert (Hsel : forall tx, tx ∈ select f m <-> exists a e, mapTx m !! tx.1 = Some (a, e) /\ f e = true /\ GetTx e = tx).
  { intros tx. unfold select. rewrite list_elem_of_fmap. setoid_rewrite list_elem_of_filter. split.
    - intros ([h [a e]] & -> & Hf & Hin%elem_of_map_to_list). cbn in *. exists a, e. by rewrite (inv_key m Hm _ _ _ Hin).
    - intros (a & e & Hin & Hf & <-). exists ((GetTx e).1, (a, e)). cbn. split_and!; [done|done|]. by apply elem_of_map_to_list. }
  destruct (remove_each_spec (select f m) m m (fun _ => False) Hm (keeps_none m)) as (m' & Hrun & Hm' & Hk); [by intros ? ? ? ?| |].
  { apply list.Forall_forall. intros tx (a & e & Hin & _ & Ht)%Hsel. by exists (a, e). }
  exists m'. split; [done|]. split; [done|]. apply (keeps_iff _ _ _ _ Hk). intros x p _. split.
  - intros [[]|(tx & (a & e & Hin & Hf & _)%Hsel & Hr)]. eauto 6.
  - intros (r & a & e & Hin & Hf & Hr). right. pose proof (inv_key m Hm _ _ _ Hin) as Hkey. exists (GetTx e). rewrite Hsel, Hkey. eauto 6.
Qed.

(** *** What a block does *)

Section Conflicts.
Context {K : Type} (find : K -> CTxMemPool -> option Z) (hits : K -> CTxMemPoolEntry -> Prop).
Hypothesis find_hits : forall m k a, pool_inv m -> find k m = Some a <-> exists r e, mapTx m !! r = Some (a, e) /\ hits k e.

Lemma conflicts_spec tx l m0 : mapTx m0 !! tx.1 = None -> pool_inv m0 -> forall m G removed, pool_inv m -> keeps m0 m G -> closed m0 G ->
  exists m' new, remove_conflicts_in find tx l m removed = Some (m', app removed new) /\ pool_inv m' /\ noted m m' new /\
    keeps m0 m' (fun x => G x \/ exists k r a e, k ∈ l /\ mapTx m0 !! r = Some (a, e) /\ hits k e /\ rtc (child m0) r x) /\
    closed m0 (fun x => G x \/ exists k r a e, k ∈ l /\ mapTx m0 !! r = Some (a, e) /\ hits k e /\ rtc (child m0) r x).
Proof using find_hits.
  intros Hno Hm0. induction l as [|k l IH]; intros m G removed Hm Hk Hc; cbn [remove_conflicts_in].
  { exists m, []. rewrite app_nil_r. split_and!; [done|done|apply noted_none| |].
    - apply (keeps_iff _ _ _ _ Hk). intros x p _. split; [by left|]. by intros [?|(? & ? & ? & ? & ?%elem_of_nil & _)].
    - intros x y Hxy [?|(? & ? & ? & ? & ?%elem_of_nil & _)]; [left; by eapply Hc|done]. }
  assert (Hone : exists m1 new, remove_conflict tx (find k m) m removed = Some (m1, app removed new) /\ pool_inv m1 /\ noted m m1 new /\
    exists G1, keeps m0 m1 G1 /\ closed m0 G1 /\ forall x, G1 x <-> G x \/ exists r a e, mapTx m0 !! r = Some (a, e) /\ hits k e /\ rtc (child m0) r x).
  { unfold remove_conflict. destruct (find k m) as [a|] eqn:Hf.
    - apply (find_hits m k a Hm) in Hf as Hr. destruct Hr as (r & e & Hr & Hh). rewrite (live_entry m Hm _ _ _ Hr). cbn [mbind option_bind].
      pose proof (inv_key m Hm _ _ _ Hr) as Hkey. pose proof (proj1 (keeps_at _ _ _ Hk _ _) Hr) as [Hr0 _].
      replace ((GetTx e).1 =? tx.1) with false by (symmetry; apply Z.eqb_neq; rewrite Hkey; intros E; congruence).
      destruct (remove_session m0 m G (GetTx e) (a, e) removed Hm Hk Hc) as (m1 & new & Hrun & Hm1 & Hk1 & Hl); [by rewrite Hkey|done|].
      exists m1, new. split_and!; [done|done|done|]. exists (add_gone m0 (GetTx e).1 G). split_and!; [done|by apply closed_add|].
      intros x. unfold add_gone. rewrite Hkey. split; [intros [?|?]; [by left|right; eauto 6]|].
      intros [?|(r' & a' & e' & Hr' & Hh' & Hp)]; [by left|].
      destruct (mapTx m !! r') as [q|] eqn:E.
      + pose proof (proj1 (keeps_at _ _ _ Hk _ _) E) as [E0 _]. rewrite Hr' in E0. injection E0 as <-.
        assert (Hf' : find k m = Some a') by (apply (find_hits m k a' Hm); eauto). rewrite Hf in Hf'. injection Hf' as <-.
        right. by rewrite (same_address m Hm _ _ _ _ _ Hr E).
      + left. eapply closed_rtc; [done|done|]. by eapply keeps_or.
    - exists m, []. rewrite app_nil_r. split_and!; [done|done|apply noted_none|].
      exists G. split_and!; [done|done|]. intros x. split; [by left|]. intros [?|(r & a & e & Hr & Hh & Hp)]; [done|].
      eapply closed_rtc; [done|done|]. eapply keeps_or; [done|done|]. destruct (mapTx m !! r) as [q|] eqn:E; [|done].
      pose proof (proj1 (keeps_at _ _ _ Hk _ _) E) as [E0 _]. rewrite Hr in E0. injection E0 as <-.
      assert (Hf' : find k m = Some a) by (apply (find_hits m k a Hm); eauto). congruence. }
  destruct Hone as (m1 & new & -> & Hm1 & Hl1 & G1 & Hk1 & Hc1 & HG1). cbn [mbind option_bind].
  destruct (IH m1 G1 (app removed new) Hm1 Hk1 Hc1) as (m' & new' & -> & Hm' & Hl' & Hk' & Hc').
  assert (Hiff : forall x, (G1 x \/ exists k r a e, k ∈ l /\ mapTx m0 !! r = Some (a, e) /\ hits k e /\ rtc (child m0) r x) <->
    (G x \/ exists k0 r a e, k0 ∈ k :: l /\ mapTx m0 !! r = Some (a, e) /\ hits k0 e /\ rtc (child m0) r x)).
  { intros x. rewrite HG1. setoid_rewrite elem_of_cons. naive_solver. }
  exists m', (app new new'). rewrite <- app_assoc. split_and!; [done|done| | |].
  - eapply noted_app; [| |done|done]; [eapply keeps_shrunk; [exact Hk|exact Hk1|]|eapply keeps_shrunk; [exact Hk1|exact Hk'|]].
    + intros x Hx. apply HG1. by left.
    + intros x Hx. by left.
  - apply (keeps_iff _ _ _ _ Hk'). intros x p _. apply Hiff.
  - intros x y Hxy Hx. apply Hiff. apply (Hc' x y Hxy). by apply Hiff.
Qed.
End Conflicts.

Lemma next_hits m o a : pool_inv m -> ptx <$> mapNextTx m !! o = Some a <->
  exists r e, mapTx m !! r = Some (a, e) /\ IsCoinImport (GetTx e).2 = false /\ o ∈ map prevout (vin (GetTx e).2).
Proof.
  intros Hm. rewrite fmap_Some. setoid_rewrite (inv_next m Hm). unfold spent_by. split.
  - intros (ip & (h & e & j & txin & Hh & Himp & Hj & <- & _) & ->). exists h, e. split_and!; [done|done|].
    apply list_elem_of_fmap. exists txin. split; [done|]. by eapply list_elem_of_lookup_2.
  - intros (r & e & Hr & Himp & (txin & -> & [j Hj]%list_elem_of_lookup)%list_elem_of_fmap).
    exists (mkCInPoint a (Z.of_nat j)). split; [|done]. by exists r, e, j, txin.
Qed.

Lemma null_hits t m nf a : pool_inv m -> map_nullifiers t m !! nf = Some a <->
  exists r e, mapTx m !! r = Some (a, e) /\ nf ∈ nullifiers_of t (GetTx e).2.
Proof. intros Hm. apply (inv_nulls m Hm). Qed.

(** The entry spends an input of [tx] or reveals a nullifier of it. *)
Definition conflicts (tx : CMutableTransaction) (e : CTxMemPoolEntry) : Prop :=
  (IsCoinImport (GetTx e).2 = false /\ exists o, o ∈ map prevout (vin tx) /\ o ∈ map prevout (vin (GetTx e).2)) \/
  exists t nf, nf ∈ nullifiers_of t tx /\ nf ∈ nullifiers_of t (GetTx e).2.

Lemma removeConflicts_spec tx m removed : pool_inv m -> mapTx m !! tx.1 = None ->
  exists m' new, removeConflicts tx m removed = Some (m', app removed new) /\ pool_inv m' /\ noted m m' new /\
    keeps m m' (fun x => exists r a e, mapTx m !! r = Some (a, e) /\ conflicts tx.2 e /\ rtc (child m) r x).
Proof.
  intros Hm Hno. unfold removeConflicts.
  destruct (conflicts_spec _ _ (fun m k a Hm => next_hits m k a Hm) tx (map prevout (vin tx.2)) m Hno Hm m (fun _ => False) removed Hm (keeps_none m))
    as (m1 & l1 & -> & Hm1 & Hl1 & Hk1 & Hc1); [by intros ? ? ? ?|]. cbn [mbind option_bind].
  destruct (conflicts_spec _ _ (fun m k a Hm => null_hits SPROUT m k a Hm) tx (nullifiers_of SPROUT tx.2) m Hno Hm m1 _ (app removed l1) Hm1 Hk1 Hc1)
    as (m2 & l2 & E2 & Hm2 & Hl2 & Hk2 & Hc2). cbn [map_nullifiers] in E2. rewrite E2. cbn [mbind option_bind].
  destruct (conflicts_spec _ _ (fun m k a Hm => null_hits SAPLING m k a Hm) tx (nullifiers_of SAPLING tx.2) m Hno Hm m2 _ (app (app removed l1) l2) Hm2 Hk2 Hc2)
    as (m3 & l3 & E3 & Hm3 & Hl3 & Hk3 & _). cbn [map_nullifiers] in E3. rewrite E3.
  exists m3, (app l1 (app l2 l3)). rewrite !app_assoc. split_and!; [done|done| |].
  - assert (S1 : shrunk m m1) by (eapply keeps_shrunk; [apply keeps_none|exact Hk1|done]).
    assert (S2 : shrunk m1 m2) by (eapply keeps_shrunk; [exact Hk1|exact Hk2|]; intros x Hx; by left).
    assert (S3 : shrunk m2 m3) by (eapply keeps_shrunk; [exact Hk2|exact Hk3|]; intros x Hx; by left).
    eapply noted_app; [|exact S3| |exact Hl3]; [by intros k p Hp; apply S1, S2|by eapply noted_app].
  - apply (keeps_iff _ _ _ _ Hk3). intros x p _. unfold conflicts. split.
    + intros [[[[]|(k & r & a & e & Hin & Hr & Hh & Hp)]|(k & r & a & e & Hin & Hr & Hh & Hp)]|(k & r & a & e & Hin & Hr & Hh & Hp)];
        exists r, a, e; (split_and!; [done| |done]); [left; destruct Hh; eauto|right; eauto|right; eauto].
    + intros (r & a & e & Hr & [[Himp (o & Ho & Ho')]|(t & nf & Hn & Hn')] & Hp); [left; left; right; exists o, r, a, e; done|].
      destruct t; [left; right|right]; exists nf, r, a, e; done.
Qed.

(** A removal of any transaction, in the pool or not, with the descendants. *)
Lemma remove_recursive_spec tx removed m : pool_inv m ->
  exists m' l, remove tx removed true m = Some (m', app removed l) /\ pool_inv m' /\ noted m m' l /\
    keeps m m' (fun x => exists r, (r = tx.1 \/ mapTx m !! tx.1 = None /\ spends_of m tx r) /\ rtc (child m) r x).
Proof.
  intros Hm. unfold remove, pool_exists. destruct (mapTx m !! tx.1) as [q|] eqn:Htx.
  - rewrite bool_decide_eq_true_2 by eauto. cbn [andb negb mbind option_bind].
    destruct (remove_loop_spec (length [tx.1] + pool_weight m) [tx.1] m removed Hm ltac:(lia)) as (m' & l & Hrun & Hm' & Hk & Hl).
    exists m', l. split_and!; [done|done|done|]. apply (keeps_iff _ _ _ _ Hk). intros x p _. unfold descends. split.
    + intros (r & ->%list_elem_of_singleton & Hr). eauto.
    + intros (r & [->|[? _]] & Hr); [|done]. exists tx.1. split; [by apply list_elem_of_singleton|done].
  - rewrite bool_decide_eq_false_2 by (by intros []). cbn [andb negb].
    destruct (children_spec m tx Hm) as (more & -> & _ & Hs). cbn [mbind option_bind].
    destruct (remove_loop_spec (length (tx.1 :: more) + pool_weight m) (tx.1 :: more) m removed Hm ltac:(lia)) as (m' & l & Hrun & Hm' & Hk & Hl).
    exists m', l. split_and!; [done|done|done|]. apply (keeps_iff _ _ _ _ Hk). intros x p _. unfold descends. setoid_rewrite elem_of_cons. setoid_rewrite Hs. naive_solver.
Qed.

(** Without the descendants at most one entry goes. *)
Lemma remove_single_spec tx removed m : pool_inv m ->
  exists m' l, remove tx removed false m = Some (m', app removed l) /\ pool_inv m' /\ noted m m' l /\ keeps m m' (fun x => x = tx.1).
Proof.
  intros Hm. unfold remove. cbn [andb mbind option_bind length Nat.add]. cbn [remove_loop]. destruct (mapTx m !! tx.1) as [[a e]|] eqn:Htx.
  - cbn [mbind option_bind]. rewrite app_nil_r. exists (erase_entry tx.1 a e m), [GetTx e].
    destruct (pool_weight m) eqn:Hw; cbn [remove_loop];
      (split_and!; [done|by apply erase_inv| |apply erase_keeps]; eapply noted_cons; [done|done|apply erase_keeps|by apply lookup_delete_eq|apply noted_none]).
  - exists m, []. destruct (pool_weight m); cbn [remove_loop]; rewrite app_nil_r;
      (split_and!; [done|done|apply noted_none|]; apply (keeps_iff _ _ _ _ (keeps_none m)); intros x p Hp; split; [done|intros ->; congruence]).
Qed.

(** One transaction of a block. *)
Lemma block_step_spec tx m conf : pool_inv m ->
  exists m1 l1 m2 l2, remove tx [] false m = Some (m1, l1) /\ keeps m m1 (fun x => x = tx.1) /\
    removeConflicts tx m1 conf = Some (m2, app conf l2) /\ pool_inv (ClearPrioritisation tx.1 m2) /\
    keeps m1 m2 (fun x => exists r a e, mapTx m1 !! r = Some (a, e) /\ conflicts tx.2 e /\ rtc (child m1) r x).
Proof.
  intros Hm. destruct (remove_single_spec tx [] m Hm) as (m1 & l1 & H1 & Hm1 & _ & Hk1).
  assert (Hno : mapTx m1 !! tx.1 = None).
  { destruct (mapTx m1 !! tx.1) as [q|] eqn:E; [|done]. by apply (keeps_at _ _ _ Hk1) in E as [_ ?]. }
  destruct (removeConflicts_spec tx m1 conf Hm1 Hno) as (m2 & l2 & H2 & Hm2 & _ & Hk2).
  exists m1, l1, m2, l2. split_and!; try done. destruct Hm2. split; try done.
Qed.

Lemma removeForBlock_inv vtx m conf : pool_inv m -> exists m' conf', removeForBlock vtx m conf = Some (m', conf') /\ pool_inv m'.
Proof.
  revert m conf. induction vtx as [|tx vtx IH]; intros m conf Hm; cbn [removeForBlock]; [eauto|].
  destruct (block_step_spec tx m conf Hm) as (m1 & l1 & m2 & l2 & -> & _ & E2 & Hm2 & _). cbn [mbind option_bind]. rewrite E2. cbn [mbind option_bind]. by apply IH.
Qed.

(** removeForReorg, unless its assertion fails. *)
Lemma removeForReorg_spec final coins maturity gte from to prg freq h m : pool_inv m ->
  match removeForReorg final coins maturity gte from to prg freq h m with
  | Some m' => evicted (reorg_rules_out final coins maturity gte from to prg h m) m m'
  | None => exists k a e, mapTx m !! k = Some (a, e) /\ coins_missing final coins freq m e
  end.
Proof.
  intros Hm. unfold removeForReorg. pose proof (select_asserting_spec _ _ _ m (reorg_test_spec final coins maturity gte from to prg freq h m)) as Hs.
  destruct (select_asserting (reorg_test final coins maturity gte from to prg freq h m) m) as [l|]; [|done]. subst l. cbn [mbind option_bind].
  by destruct (evict_select (reorg_rules_out final coins maturity gte from to prg h m) m Hm) as (m' & -> & ?).
Qed.

(** ** The operations *)

Inductive pool_op :=
| OpAdd (h : Z) (entry : CTxMemPoolEntry)
| OpRemove (tx : hashed_tx) (fRecursive : bool)
| OpAnchor (invalidRoot : Z) (t : ShieldedType)
| OpBranch (nMemPoolBranchId : Z)
| OpReorg (CheckFinalTx : CMutableTransaction -> bool) (AccessCoins : Z -> option CCoins) (maturity gte from to : Z) (prg : Z -> Z) (nCheckFrequency nMemPoolHeight : Z)
| OpExpired (SQUISHY_REWIND : Z) (isKMD : bool) (tip : option (Z * Z)) (nBlockHeight : Z)
| OpBlock (vtx : list hashed_tx)
| OpPrioritise (h nFeeDelta : Z)
| OpNotify
| OpClear.

Definition run_op (op : pool_op) (m : CTxMemPool) : option CTxMemPool :=
  match op with
  | OpAdd h entry => addUnchecked h entry m
  | OpRemove tx fRecursive => fst <$> remove tx [] fRecursive m
  | OpAnchor rt t => removeWithAnchor rt t m
  | OpBranch id => removeWithoutBranchId id m
  | OpReorg final coins maturity gte from to prg freq h => removeForReorg final coins maturity gte from to prg freq h m
  | OpExpired rewind isKMD tip h => removeExpired rewind isKMD tip h m
  | OpBlock vtx => fst <$> removeForBlock vtx m []
  | OpPrioritise h d => Some (PrioritiseTransaction h d m)
  | OpNotify => snd <$> NotifyRecentlyAdded m
  | OpClear => Some (pool_clear m)
  end.

(** Nothing is left over by [clear]: no nullifier is indexed and no addition is still to be
    notified. *)
Definition clear_safe (m : CTxMemPool) : Prop := mapSproutNullifiers m = ∅ /\ mapSaplingNullifiers m = ∅ /\ mapRecentlyAddedTx m = ∅.

(** Additions pass AcceptToMemoryPool's tests, the assertion of removeForReorg holds, and
    [clear] is called when it leaves nothing over. *)
Definition op_enabled (op : pool_op) (m : CTxMemPool) : Prop :=
  match op with
  | OpAdd h entry => admissible h entry m
  | OpReorg final coins _ _ _ _ _ freq _ => forall h a e, mapTx m !! h = Some (a, e) -> ~ coins_missing final coins freq m e
  | OpClear => clear_safe m
  | _ => True
  end.

(** [clear] keeps the invariant exactly then. *)
Lemma clear_inv m : pool_inv (pool_clear m) <-> clear_safe m.
Proof.
  split.
  - intros Hm. split_and!; apply map_empty; intros k.
    + destruct (mapSproutNullifiers m !! k) as [a|] eqn:E; [|done]. by apply (inv_nulls _ Hm SPROUT) in E as (h & e & ? & _).
    + destruct (mapSaplingNullifiers m !! k) as [a|] eqn:E; [|done]. by apply (inv_nulls _ Hm SAPLING) in E as (h & e & ? & _).
    + destruct (mapRecentlyAddedTx m !! k) as [a|] eqn:E; [|done]. by apply (inv_recent _ Hm) in E as (e & ?).
  - intros (E1 & E2 & E3). split; cbn; try done.
    + intros a tx. split; [done|]. by intros (e & ? & _).
    + intros o ip. split; [done|]. by intros (h & e & j & txin & ? & _).
    + intros t nf a. split; [destruct t; cbn; by rewrite ?E1, ?E2|]. by intros (h & e & ? & _).
    + intros h a. by rewrite E3.
Qed.

Lemma notify_spec m : pool_inv m -> exists txs m', NotifyRecentlyAdded m = Some (txs, m') /\ pool_inv m' /\
  forall tx, tx ∈ txs -> exists a e, mapTx m !! tx.1 = Some (a, e) /\ GetTx e = tx.
Proof.
  intros Hm. unfold NotifyRecentlyAdded.
  assert (Hall : forall l, (forall kv, kv ∈ l -> exists e, mapTx m !! kv.1 = Some (kv.2, e)) ->
    exists txs, mapM (fun kv => live_txs m !! kv.2) l = Some txs /\ forall tx, tx ∈ txs -> exists a e, mapTx m !! tx.1 = Some (a, e) /\ GetTx e = tx).
  { induction l as [|kv l IH]; intros Hl; [exists []; split; [done|]; by intros ? ?%elem_of_nil|].
    destruct (Hl kv ltac:(by left)) as [e He]. destruct IH as (txs & Htxs & Hin); [intros kv' Hkv'; apply Hl; by right|].
    exists (GetTx e :: txs). cbn [mapM]. rewrite (live_entry m Hm _ _ _ He), Htxs. split; [done|].
    intros tx [->|?]%elem_of_cons; [|by apply Hin]. exists kv.2, e. by rewrite (inv_key m Hm _ _ _ He). }
  destruct (Hall (map_to_list (mapRecentlyAddedTx m))) as (txs & -> & Htxs).
  { intros [k a] Hkv%elem_of_map_to_list. by apply (inv_recent m Hm). }
  cbn [mbind option_bind]. exists txs. eexists. split_and!; [done| |done]. destruct Hm. split; try done.
Qed.

Lemma run_op_inv op m : pool_inv m -> op_enabled op m -> exists m', run_op op m = Some m' /\ pool_inv m'.
Proof.
  intros Hm Hop. destruct op; cbn [run_op op_enabled] in *.
  - destruct (addUnchecked_spec _ _ _ Hm Hop) as (m' & ? & ? & _). eauto.
  - destruct fRecursive; [destruct (remove_recursive_spec tx [] m Hm) as (m' & l & -> & ? & _)|destruct (remove_single_spec tx [] m Hm) as (m' & l & -> & ? & _)];
      by exists m'.
  - destruct (evict_select (fun e => match t with
      | SPROUT => existsb (fun joinsplit => js_anchor joinsplit =? invalidRoot) (vjoinsplit (GetTx e).2)
      | SAPLING => existsb (fun d => sd_anchor d =? invalidRoot) (vShieldedSpend (GetTx e).2) end) m Hm) as (m' & ? & ? & _). eauto.
  - destruct (evict_select (fun e => negb (nBranchId e =? nMemPoolBranchId)) m Hm) as (m' & ? & ? & _). eauto.
  - pose proof (removeForReorg_spec CheckFinalTx AccessCoins maturity gte from to prg nCheckFrequency nMemPoolHeight m Hm) as Hs.
    destruct (removeForReorg _ _ _ _ _ _ _ _ _ _) as [m'|]; [exists m'; by destruct Hs|]. destruct Hs as (h & a & e & He & Hbad). by destruct (Hop h a e He).
  - unfold removeExpired. edestruct evict_select as (m' & -> & ? & _); [done|]. eauto.
  - destruct (removeForBlock_inv vtx m [] Hm) as (m' & c & -> & ?). by exists m'.
  - eexists. split; [done|]. destruct Hm. split; try done.
  - destruct (notify_spec m Hm) as (txs & m' & -> & ? & _). by exists m'.
  - eexists. split; [done|]. by apply clear_inv.
Qed.

(** The pools operations can lead to from the empty one. *)
Inductive pool_reachable : CTxMemPool -> Prop :=
| pr_empty : pool_reachable empty_mempool
| pr_step m op m' : pool_reachable m -> op_enabled op m -> run_op op m = Some m' -> pool_reachable m'.

Lemma reachable_inv m : pool_reachable m -> pool_inv m.
Proof.
  induction 1 as [|m op m' _ IH Hop Hrun]; [apply empty_mempool_inv|].
  destruct (run_op_inv op m IH Hop) as (m'' & Hrun' & ?). congruence.
Qed.

(** ** Theorems *)

(** A pool of two transactions: the second spends the first. *)
Definition demo_tx (from : Z) (spends : list SpendDescription) : CMutableTransaction :=
  {| fOverwintered := false; nVersion := 1; nVersionGroupId := 0;
     vin := [mkCTxIn (mkCOutPoint from 0) [] 7]; vout := [mkCTxOut 1000 [0x51]]; nLockTime := 9; nExpiryHeight := 0; valueBalance := 0;
     vShieldedSpend := spends; vShieldedOutput := []; vjoinsplit := []; joinSplitPubKey := 0; joinSplitSig := []; bindingSig := [] |}.

Definition demo_shielded : SpendDescription := mkSpendDescription 0 5 33 0 [] [].

Definition demo_entry (txid from : Z) (spends : list SpendDescription) : CTxMemPoolEntry :=
  mkEntry (txid, demo_tx from spends) 10 200 900 0 5 false 7.

Definition demo_pool : CTxMemPool :=
  default empty_mempool (addUnchecked 1 (demo_entry 1 9 []) empty_mempool ≫= addUnchecked 2 (demo_entry 2 1 [demo_shielded])).

Lemma demo_admissible txid from spends m : mapTx m !! txid = None -> mapNextTx m !! mkCOutPoint from 0 = None ->
  (forall t nf, nf ∈ nullifiers_of t (demo_tx from spends) -> map_nullifiers t m !! nf = None) -> admissible txid (demo_entry txid from spends) m.
Proof.
  intros Hn Hi Hs. split; try done.
  - intros txin ->%list_elem_of_singleton. done.
  - cbn. apply list.NoDup_singleton.
  - intros _ txin ->%list_elem_of_singleton. done.
Qed.

Lemma demo_pool_reachable : pool_reachable demo_pool.
Proof.
  unfold demo_pool. destruct (addUnchecked 1 (demo_entry 1 9 []) empty_mempool) as [m1|] eqn:E1; [|apply pr_empty].
  assert (H1 : pool_reachable m1).
  { refine (pr_step _ (OpAdd 1 (demo_entry 1 9 [])) _ pr_empty _ E1). apply demo_admissible; [done|done|]. by intros [] nf ?%elem_of_nil. }
  cbn [mbind option_bind]. destruct (addUnchecked 2 (demo_entry 2 1 [demo_shielded]) m1) as [m2|] eqn:E2; [|apply pr_empty].
  refine (pr_step _ (OpAdd 2 (demo_entry 2 1 [demo_shielded])) _ H1 _ E2). vm_compute in E1. injection E1 as <-.
  apply demo_admissible; [done|done|]. intros [] nf Hnf; [by apply elem_of_nil in Hnf|]. by apply list_elem_of_singleton in Hnf as ->.
Qed.

(** An addition that conflicts with the pool cannot keep the indexes exact. *)
Lemma conflict_breaks h entry m m' : pool_inv m -> (GetTx entry).1 = h -> mapTx m !! h = None -> IsCoinImport (GetTx entry).2 = false ->
  addUnchecked h entry m = Some m' -> pool_inv m' -> forall txin, txin ∈ vin (GetTx entry).2 -> mapNextTx m !! prevout txin = None.
Proof.
  intros Hm Hh Hno Him Ha Hm' txin Hin. destruct (mapNextTx m !! prevout txin) as [[a i]|] eqn:En; [|done]. exfalso.
  apply (inv_next _ Hm) in En as (k & e & j & x & Hk & Hi & Hj & Hx & _). cbn [ptx] in Hk. unfold addUnchecked, insert_entry in Ha. rewrite Hh, Hno in Ha. cbn in Ha.
  rewrite lookup_insert_eq in Ha. cbn in Ha. injection Ha as <-. apply list_elem_of_lookup_1 in Hin as [q Hq].
  assert (Hnew := proj2 (inv_next _ Hm' (prevout txin) (mkCInPoint (next_addr m) (Z.of_nat q)))).
  assert (Hold := proj2 (inv_next _ Hm' (prevout txin) (mkCInPoint a (Z.of_nat j)))).
  rewrite Hnew in Hold; [|exists h, entry, q, txin; cbn [mapTx ptx ip_n]; by rewrite lookup_insert_eq].
  assert (E : Some (mkCInPoint (next_addr m) (Z.of_nat q)) = Some (mkCInPoint a (Z.of_nat j))); [|injection E as E _].
  { apply Hold. exists k, e, j, x. cbn [mapTx ptx ip_n]. rewrite lookup_insert_ne by congruence. done. }
  pose proof (inv_free _ Hm _ _ _ Hk). lia.
Qed.

(** C12: from the empty pool, through any sequence of additions that pass AcceptToMemoryPool's
    tests, removals, evictions, connected blocks, changes of priority and notifications, and of
    clears at a time when no nullifier is indexed and no addition is still to be notified, the
    indexes are exactly those of the entries: an outpoint leads to the one
    transaction of the pool that spends it and to its input, a nullifier to the one that
    reveals it, a recent transaction is an entry, and the sizes are the sums.  Each of these
    operations returns: no pointer it follows dangles and the removals finish; removeForReorg
    may also stop at its own assertion, when it is on and the coins of an input are gone.
    Both conditions are needed: a clear at another time leaves pointers to destroyed
    transactions behind, and an addition that spends what another entry spends, as those
    that main.cpp makes without tests may, breaks the index. *)
Theorem mempool_indexes_exact m : pool_reachable m ->
  pool_inv m /\ (forall op, op_enabled op m -> exists m', run_op op m = Some m' /\ pool_inv m') /\
  (pool_inv (pool_clear m) <-> clear_safe m) /\
  (forall h entry m', (GetTx entry).1 = h -> mapTx m !! h = None -> IsCoinImport (GetTx entry).2 = false ->
     addUnchecked h entry m = Some m' -> pool_inv m' -> forall txin, txin ∈ vin (GetTx entry).2 -> mapNextTx m !! prevout txin = None).
Proof.
  intros Hr. pose proof (reachable_inv m Hr) as Hm. split; [done|]. split; [intros op; by apply run_op_inv|]. split; [apply clear_inv|].
  intros h entry m'. by apply conflict_breaks.
Qed.

Lemma mempool_indexes_exact_witness : pool_reachable demo_pool /\
  mapNextTx demo_pool !! mkCOutPoint 1 0 = Some (mkCInPoint 1 0) /\ exists m', run_op (OpAnchor 5 SAPLING) demo_pool = Some m' /\ pool_inv m'.
Proof.
  split; [exact demo_pool_reachable|]. split; [vm_compute; reflexivity|].
  exact (proj1 (proj2 (mempool_indexes_exact demo_pool demo_pool_reachable)) (OpAnchor 5 SAPLING) I).
Defined.

(** C13: removing a transaction with its descendants leaves exactly the entries that are
    neither it nor reachable from it by spending; when it is not in the pool, those that
    are reachable from the entries that spend its outputs.  The transactions reported are
    those that went, after those reported before. *)
Theorem remove_takes_descendants tx removed m : pool_inv m ->
  exists m' l, remove tx removed true m = Some (m', app removed l) /\ pool_inv m' /\ noted m m' l /\
    keeps m m' (fun x => exists r, (r = tx.1 \/ mapTx m !! tx.1 = None /\ spends_of m tx r) /\ rtc (child m) r x).
Proof. apply remove_recursive_spec. Qed.

Lemma remove_takes_descendants_witness : pool_inv demo_pool /\
  (exists m' l, remove (1, demo_tx 9 []) [] true demo_pool = Some (m', l) /\ pool_inv m' /\ mapTx m' !! 2 = None) /\
  fst <$> (snd <$> remove (1, demo_tx 9 []) [] true demo_pool) ≫= head = Some 1.
Proof.
  pose proof (reachable_inv _ demo_pool_reachable) as Hi. split; [exact Hi|]. split; [|vm_compute; reflexivity].
  destruct (remove_takes_descendants (1, demo_tx 9 []) [] demo_pool Hi) as (m' & l & H1 & H2 & H3 & H4). exists m', l. split; [exact H1|]. split; [exact H2|].
  apply (keeps_gone _ _ _ _ H4). exists 1. split; [left; reflexivity|]. apply rtc_once.
  exists (0, demo_entry 1 9 []). split; [vm_compute; reflexivity|]. exists 1, (demo_entry 2 1 [demo_shielded]), (mkCTxIn (mkCOutPoint 1 0) [] 7).
  split; [vm_compute; reflexivity|]. split; [reflexivity|]. split; [by apply list_elem_of_singleton|]. split; [reflexivity|]. cbn. lia.
Defined.



(** C22: of the transactions of the pool, a transaction of a block drives out exactly those
    that spend one of its inputs or reveal one of its nullifiers, with their descendants. *)
Theorem removeConflicts_exact tx m removed : pool_inv m -> mapTx m !! tx.1 = None ->
  exists m' new, removeConflicts tx m removed = Some (m', app removed new) /\ pool_inv m' /\ noted m m' new /\
    keeps m m' (fun x => exists r a e, mapTx m !! r = Some (a, e) /\ conflicts tx.2 e /\ rtc (child m) r x).
Proof. apply removeConflicts_spec. Qed.

Lemma removeConflicts_exact_witness : pool_inv demo_pool /\ mapTx demo_pool !! 3 = None /\
  exists m' new, removeConflicts (3, demo_tx 9 []) demo_pool [] = Some (m', new) /\ pool_inv m' /\ mapTx m' !! 1 = None.
Proof.
  pose proof (reachable_inv _ demo_pool_reachable) as Hi. assert (Hn : mapTx demo_pool !! 3 = None) by (vm_compute; reflexivity).
  split; [exact Hi|]. split; [exact Hn|].
  destruct (removeConflicts_exact (3, demo_tx 9 []) demo_pool [] Hi Hn) as (m' & new & H1 & H2 & _ & H3). exists m', new. split; [exact H1|]. split; [exact H2|].
  apply (keeps_gone _ _ _ _ H3). exists 1, 0, (demo_entry 1 9 []). split; [vm_compute; reflexivity|]. split; [|apply rtc_refl].
  left. split; [reflexivity|]. exists (mkCOutPoint 9 0). split; by apply list_elem_of_singleton.
Defined.

(** [clear] leaves the nullifier index and the recent transactions pointing to what it
    destroyed: notifying the wallets then follows a dangling pointer. *)
Lemma clear_leaves_pointers :
  mapSaplingNullifiers (pool_clear demo_pool) !! 33 = Some 1 /\ live_txs (pool_clear demo_pool) !! 1 = None /\
  NotifyRecentlyAdded (pool_clear demo_pool) = None.
Proof. split; [|split]; vm_compute; reflexivity. Qed.
