(* ===== verification/MempoolAccept.v ===== *)
(** * Accepting transactions to the memory pool (src/src/main.cpp, txmempool.cpp)

    The coins view over the pool, the standardness rules, AcceptToMemoryPool, and
    the pool against the ledger: what the pool holds could be mined on the tip, in
    the order of spending, and stays so when a block is connected.
    CheckTransaction and ContextualCheckTransaction are used through an interface;
    priorities and the limiter of free transactions are floating point and are
    arguments.  The missing-inputs flag and the crypto-condition state that
    brackets the last check are left out. *)
From Stdlib Require Ascii String.
From S2P Require Import Prelude Serialize Transaction Compressor Coins CoinsView CoinsCache UpdateCoins Ledger Interest Script Interpreter SigHash CheckTx BlockIndex TxInputs Standard Upgrades BlockChecks ConnectTxs ConnectBlock BlockEffect Mempool.
From stdpp Require Import strings.
Import String.StringSyntax.
#[local] Open Scope string_scope.
#[local] Open Scope Z_scope.

(** ** The view over the pool *)

Record CCoinsViewMemPool (V : Type) := mkViewMemPool { vm_base : V; vm_mempool : CTxMemPool }.
Arguments mkViewMemPool {V}.
Arguments vm_base {V}.
Arguments vm_mempool {V}.

Section View.
Context {Tree V : Type} `{!CoinsView Tree V}.

Definition on_base {A} (f : V -> A * V) (v : CCoinsViewMemPool V) : A * CCoinsViewMemPool V :=
  let '(a, b) := f (vm_base v) in (a, mkViewMemPool b (vm_mempool v)).

Definition MemPool_GetCoins (v : CCoinsViewMemPool V) (txid : Z) : option CCoins * CCoinsViewMemPool V :=
  match lookup_tx txid (vm_mempool v) with
  | Some tx => (Some (FromTx tx.2 MEMPOOL_HEIGHT), v)
  | None =>
    let '(coins, v) := on_base (fun b => GetCoins b txid) v in
    (match coins with Some coins => if IsPruned coins then None else Some coins | None => None end, v)
  end.

Definition MemPool_HaveCoins (v : CCoinsViewMemPool V) (txid : Z) : bool * CCoinsViewMemPool V :=
  if pool_exists txid (vm_mempool v) then (true, v) else on_base (fun b => HaveCoins b txid) v.

Definition MemPool_GetNullifier (t : ShieldedType) (v : CCoinsViewMemPool V) (nf : Z) : bool * CCoinsViewMemPool V :=
  if nullifierExists nf t (vm_mempool v) then (true, v) else on_base (fun b => GetNullifier t b nf) v.

#[global] Instance MemPool_CoinsView : CoinsView Tree (CCoinsViewMemPool V) := {|
  GetCoins := MemPool_GetCoins;
  HaveCoins := MemPool_HaveCoins;
  GetAnchorAt t v rt := on_base (fun b => GetAnchorAt t b rt) v;
  GetNullifier := MemPool_GetNullifier;
  GetBestBlock v := on_base GetBestBlock v;
  GetBestAnchor t v := on_base (GetBestAnchor t) v;
  BatchWrite v batch := b ← BatchWrite (vm_base v) batch; Some (mkViewMemPool b (vm_mempool v))
|}.

(** A pointer to a view, or to the [CCoinsView] that has nothing ([None]); that one's
    [BatchWrite] reports failure and is never called. *)
Definition on_backend {W A} (f : W -> A * W) (nothing : A) (v : option W) : A * option W :=
  match v with Some w => let '(a, w) := f w in (a, Some w) | None => (nothing, None) end.

#[global] Instance Backend_CoinsView {W} `{!CoinsView Tree W} : CoinsView Tree (option W) := {|
  GetCoins v k := on_backend (fun w => GetCoins w k) None v;
  HaveCoins v k := on_backend (fun w => HaveCoins w k) false v;
  GetAnchorAt t v rt := on_backend (fun w => GetAnchorAt t w rt) None v;
  GetNullifier t v nf := on_backend (fun w => GetNullifier t w nf) false v;
  GetBestBlock v := on_backend GetBestBlock 0 v;
  GetBestAnchor t v := on_backend (GetBestAnchor t) 0 v;
  BatchWrite v batch := w ← v; w ← BatchWrite w batch; Some (Some w)
|}.
End View.

(** ** Standard transactions *)

Definition SPROUT_MIN_CURRENT_VERSION : Z := 1.
Definition SPROUT_MAX_CURRENT_VERSION : Z := 2.
Definition OVERWINTER_MIN_CURRENT_VERSION : Z := 3.
Definition OVERWINTER_MAX_CURRENT_VERSION : Z := 3.
Definition SAPLING_MIN_CURRENT_VERSION : Z := 4.
Definition SAPLING_MAX_CURRENT_VERSION : Z := 4.

Definition MAX_P2SH_SIGOPS : Z := 15.
(** [MAX_BLOCK_SIGOPS/5] with the value [MAX_BLOCK_SIGOPS] starts with. *)
Definition MAX_STANDARD_TX_SIGOPS : Z := 20000 / 5.
Definition DEFAULT_BLOCK_PRIORITY_SIZE : Z := 2000000 / 2.
Definition ASYNC_RPC_OPERATION_DEFAULT_MINERS_FEE : Z := 10000.
Definition MANDATORY_SCRIPT_VERIFY_FLAGS : Z := SCRIPT_VERIFY_P2SH.
Definition STANDARD_SCRIPT_VERIFY_FLAGS : Z := Z.lor MANDATORY_SCRIPT_VERIFY_FLAGS STANDARD_NOT_MANDATORY_VERIFY_FLAGS.

(** The checks of a loose transaction, applied to the chain's parameters: CheckTransaction
    (time of the tip, transaction, txid) and ContextualCheckTransaction (transaction, height,
    DoS level). *)
Record tx_checker := mkTxChecker {
  tc_CheckTransaction : Z -> CMutableTransaction -> Z -> verdict unit;
  tc_ContextualCheckTransaction : CMutableTransaction -> Z -> Z -> verdict unit
}.

(** The node, its configuration and the tip; [ac_tip]: the time and the median time past of
    the tip.  Priorities, the limiter of free transactions and memory usage are functions of
    the transaction. *)
Record accept_env := mkAcceptEnv {
  ac_connect : connect_env; ac_checker : tx_checker;
  ac_REWIND : Z; ac_RequireStandard : bool; ac_fIsBareMultisigStd : bool; ac_minRelayTxFee : Z;
  ac_vSolutionsFixActive : bool; ac_supported_condition : bytes -> bool; ac_Hash160 : bytes -> bytes;
  ac_inputlimit : Z; ac_relaypriority : bool;
  ac_Height : Z; ac_tip : option (Z * Z); ac_GetTime : Z;
  ac_size : CMutableTransaction -> Z; ac_usage : CMutableTransaction -> Z;
  ac_priority_delta : Z -> bool; ac_AllowFree : CMutableTransaction -> bool; ac_free_limit : Z -> bool;
  (** the global pool, whose fee deltas count whatever pool is passed *)
  ac_mempool : CTxMemPool
}.

Section Accept.
Context {Tree V : Type} `{!MerkleTree Tree} `{!CoinsView Tree V} `{!CoinsMemory}.
Abbreviation cache := (CCoinsViewCache Tree (option (CCoinsViewMemPool V))).
Abbreviation check := (@check Tree (option (CCoinsViewMemPool V))).
Variables (E : accept_env) (objs : store) (mapBlockIndex : gmap Z (option Z)).
Let C := ac_connect E.
Let vUp := vUpgrades (ce_chain C).

Fixpoint standard_inputs (l : list CTxIn) : string + unit :=
  match l with
  | [] => inr tt
  | txin :: l =>
    if zlen (scriptSig txin) >? 1650 then inl "scriptsig-size"
    else if negb (IsPushOnly (scriptSig txin)) then inl "scriptsig-not-pushonly"
    else standard_inputs l
  end.

Definition Solve (script : bytes) : solved := Solver (ac_Hash160 E) (ce_CryptoConditions C) (ac_vSolutionsFixActive E) (ac_supported_condition E) script.

(** [None]: undefined behaviour of the solver's clients. *)
Fixpoint standard_outputs (l : list CTxOut) (nDataOut : Z) : option (string + Z) :=
  match l with
  | [] => Some (inr nDataOut)
  | txout :: l =>
    ok ← IsStandard (ac_Hash160 E) (ce_CryptoConditions C) (ac_vSolutionsFixActive E) (ac_supported_condition E) (scriptPubKey txout);
    if negb ok then Some (inl "scriptpubkey")
    else
      whichType ← typeRet (Solve (scriptPubKey txout));
      if bool_decide (whichType = TX_NULL_DATA) then
        if zlen (scriptPubKey txout) >? IGUANA_MAXSCRIPTSIZE then Some (inl "opreturn too big") else standard_outputs l (u32 (nDataOut + 1))
      else if bool_decide (whichType = TX_MULTISIG) && negb (ac_fIsBareMultisigStd E) then Some (inl "bare-multisig")
      else if negb (bool_decide (whichType = TX_CRYPTOCONDITION)) && IsDust (ac_minRelayTxFee E) txout then Some (inl "dust")
      else standard_outputs l nDataOut
  end.

Definition IsStandardTx (tx : CMutableTransaction) (nHeight : Z) : option (string + unit) :=
  overwinterActive ← NetworkUpgradeActive vUp nHeight UPGRADE_OVERWINTER;
  saplingActive ← NetworkUpgradeActive vUp nHeight UPGRADE_SAPLING;
  match (if saplingActive : bool then
           if (nVersion tx >? SAPLING_MAX_CURRENT_VERSION) || (nVersion tx <? SAPLING_MIN_CURRENT_VERSION) then inl "sapling-version" else inr tt
         else if overwinterActive : bool then
           if (nVersion tx >? OVERWINTER_MAX_CURRENT_VERSION) || (nVersion tx <? OVERWINTER_MIN_CURRENT_VERSION) then inl "overwinter-version" else inr tt
         else
           if (nVersion tx >? SPROUT_MAX_CURRENT_VERSION) || (nVersion tx <? SPROUT_MIN_CURRENT_VERSION) then inl "version" else inr tt) with
  | inl reason => Some (inl reason)
  | inr _ =>
    match standard_inputs (vin tx) with
    | inl reason => Some (inl reason)
    | inr _ =>
      r ← standard_outputs (vout tx) 0;
      Some (match r with inl reason => inl reason | inr nDataOut => if nDataOut >? 1 then inl "multi-op-return" else inr tt end)
    end
  end.

(** [BaseSignatureChecker()] *)
Definition base_checker : BaseSignatureChecker := mkChecker (fun _ _ _ _ => false) (fun _ => false) (fun _ _ _ _ => 0).

Fixpoint inputs_standard (branch : Z) (l : list CTxIn) : check bool :=
  match l with
  | [] => mret true
  | txin :: l =>
    prev ← GetOutputFor txin;
    let s := Solve (scriptPubKey prev) in
    if negb (solver_ok s) then mret false
    else
      whichType ← of_option (typeRet s);
      let nArgsExpected := ScriptSigArgsExpected whichType (vSolutionsRet s) in
      if nArgsExpected <? 0 then mret false
      else
        match EvalScript (ce_CheckLowS C) (ce_hashers C) (ce_CryptoConditions C) base_checker 0 branch [] (scriptSig txin) with
        | inl _ => mret false
        | inr stack =>
          let next nArgsExpected := if zlen stack =? nArgsExpected then inputs_standard branch l else mret false in
          if bool_decide (whichType = TX_SCRIPTHASH) then
            match stack with
            | [] => mret false
            | subscript :: _ =>
              let s2 := Solve subscript in
              if solver_ok s2 then
                whichType2 ← of_option (typeRet s2);
                let tmpExpected := ScriptSigArgsExpected whichType2 (vSolutionsRet s2) in
                if tmpExpected <? 0 then mret false else next (nArgsExpected + tmpExpected)
              else mret (GetSigOpCount true subscript <=? MAX_P2SH_SIGOPS)
            end
          else next nArgsExpected
        end
  end.

Definition AreInputsStandard (tx : CMutableTransaction) (branch : Z) : check bool :=
  if IsCoinBase tx then mret true
  else if IsCoinImport tx then
    i ← of_option (head (vin tx)); of_option (script_IsCoinImport (scriptSig i))
  else inputs_standard branch (vin tx).

Definition GetMinRelayFee (txid nBytes : Z) (fAllowFree : bool) : Z :=
  if ac_priority_delta E txid || (default 0 (mapDeltas (ac_mempool E) !! txid) >? 0) then 0
  else
    let nMinFee := GetFee (ac_minRelayTxFee E) nBytes in
    let nMinFee := if fAllowFree && (nBytes <? DEFAULT_BLOCK_PRIORITY_SIZE - 1000) then 0 else nMinFee in
    if negb (MoneyRange (MAX_MONEY (ce_rules C)) nMinFee) then MAX_MONEY (ce_rules C) else nMinFee.

(** ** AcceptToMemoryPool *)

Definition c_HaveCoins (txid : Z) : check bool := fun c => let '(b, c') := Cache_HaveCoins c txid in (inr b, c').
Definition c_of_verdict {A} (v : verdict A) : check A := fun c => (v, c).
Definition c_SetBackend (v : option (CCoinsViewMemPool V)) : check unit := fun c => (inr tt, set_base v c).

(** Whether all the transactions spent are there. *)
Fixpoint have_all (l : list CTxIn) : check bool :=
  match l with
  | [] => mret true
  | txin :: l => b ← c_HaveCoins (hash (prevout txin)); if (b : bool) then have_all l else mret false
  end.

Fixpoint spends_coinbase (l : list CTxIn) : check bool :=
  match l with
  | [] => mret false
  | txin :: l =>
    coins ← c_AccessCoins (hash (prevout txin));
    coins ← of_option coins;
    if fCoinBase coins then mret true else spends_coinbase l
  end.

(** Conflicts with the transactions of the pool. *)
Definition pool_conflict (pool : CTxMemPool) (tx : CMutableTransaction) : check unit :=
  _ ← stop_if (existsb (fun i => bool_decide (is_Some (mapNextTx pool !! prevout i))) (vin tx)) (Invalid "txn-mempool-conflict");
  _ ← stop_if (existsb (fun nf => nullifierExists nf SPROUT pool) (nullifiers_of SPROUT tx)) Failed;
  stop_if (existsb (fun nf => nullifierExists nf SAPLING pool) (nullifiers_of SAPLING tx)) Failed.

(** The inputs against the tip and the pool: the value that comes in. *)
Definition accept_inputs (txid : Z) (tx : CMutableTransaction) : check Z :=
  have ← c_HaveCoins txid;
  _ ← stop_if have (Invalid "already have coins");
  _ ← (if IsCoinImport tx then
         tomb ← c_HaveCoins (import_burn_txid tx);
         stop_if tomb (Invalid "import tombstone exists")
       else
         all ← have_all (vin tx);
         _ ← stop_if (negb all) Failed;
         have ← HaveInputs tx;
         stop_if (negb have) (Invalid "bad-txns-inputs-spent"));
  met ← HaveJoinSplitRequirements tx;
  _ ← stop_if (negb met) (Invalid "bad-txns-joinsplit-requirements-not-met");
  _ ← c_GetBestBlock;
  v ← GetValueIn (ce_rules C) (isKMD_env C) (ce_index C) (ce_GetCoinImportValue C) (ac_Height E) tx;
  mret v.1.

(** The fees asked of a transaction of [nSize] bytes. *)
Definition accept_fees (pool : CTxMemPool) (txid : Z) (tx : CMutableTransaction) (nSize nFees nValueOut : Z) (fLimitFree fRejectAbsurdFee : bool) : check unit :=
  let relay := GetFee (ac_minRelayTxFee E) nSize in
  _ ← stop_if (negb ((zlen (vjoinsplit tx) >? 0) && (nFees >=? ASYNC_RPC_OPERATION_DEFAULT_MINERS_FEE))
               && fLimitFree && (nFees <? GetMinRelayFee txid nSize true)) (DoS 0 "insufficient fee");
  _ ← stop_if (ac_relaypriority E && (nFees <? relay) && negb (ac_AllowFree E tx)) (DoS 0 "insufficient priority");
  _ ← stop_if (fLimitFree && (nFees <? relay) && negb (IsCoinImport tx) && ac_free_limit E nSize) (DoS 0 "rate limited free transaction");
  stop_if (negb (IsCoinImport tx) && fRejectAbsurdFee && (nFees >? i64 (relay * 10000)) && (nFees >? nValueOut ÷ 19)) (Invalid "absurdly high fees").

(** The checks that need no coins. *)
Definition accept_alone (pool : CTxMemPool) (txid : Z) (tx : CMutableTransaction) (dosLevel : Z) : check unit :=
  let nextBlockHeight := i32 (ac_Height E + 1) in
  let tiptime := match ac_tip E with Some (t, _) => if nextBlockHeight <=? 1 then u32 (ac_GetTime E) else t | None => u32 (ac_GetTime E) end in
  overwinter ← of_option (NetworkUpgradeActive vUp nextBlockHeight UPGRADE_OVERWINTER);
  _ ← stop_if (negb (overwinter : bool) && (ac_inputlimit E >? 0) && (zlen (vin tx) >? ac_inputlimit E)) Failed;
  _ ← stop_if (match ac_tip E with
               | Some (_, mtp) => isKMD_env C && negb (squishy_validate_interest (ac_REWIND E) (isKMD_env C) tx nextBlockHeight (u32 (mtp + 777)))
               | None => false end) (DoS 0 "squishy-interest-invalid");
  _ ← c_of_verdict (tc_CheckTransaction (ac_checker E) tiptime tx txid);
  _ ← c_of_verdict (tc_ContextualCheckTransaction (ac_checker E) tx nextBlockHeight (if dosLevel =? -1 then 10 else dosLevel));
  _ ← stop_if (IsCoinBase tx) (DoS 100 "coinbase");
  _ ← (if ac_RequireStandard E then
         r ← of_option (IsStandardTx tx nextBlockHeight);
         match r with inl reason => stop (DoS 0 reason) | inr _ => mret tt end
       else mret tt);
  mtp ← of_option (snd <$> ac_tip E);
  _ ← stop_if (negb (IsFinalTx (isKMD_env C) (ac_Height E) tx nextBlockHeight mtp)) (DoS 0 "non-final");
  _ ← stop_if (pool_exists txid pool) (Invalid "already in mempool");
  pool_conflict pool tx.

(** [C] with the script checks run at once: no [pvChecks] is given. *)
Definition inline_checks : connect_env :=
  mkConnectEnv (ce_chain C) (ce_rules C) (ce_index C) (ce_TIMELOCKGTE C) (ce_UNLOCKFROM C) (ce_UNLOCKTO C) (ce_block_prg C)
    (ce_CoinbaseMaturity C) (ce_coinbase_protected C) (ce_CheckLowS C) (ce_hashers C) (ce_CryptoConditions C) (ce_checker C)
    (ce_GetCoinImportValue C) (ce_VerifyCoinImport C) false.

(** The rest, on a view that has the coins in its cache and nothing below. *)
Definition accept_rest (pool : CTxMemPool) (txid : Z) (tx : CMutableTransaction) (branch nValueIn : Z) (fLimitFree fRejectAbsurdFee : bool) : check CTxMemPoolEntry :=
  standard ← (if ac_RequireStandard E then AreInputsStandard tx branch else mret true);
  _ ← stop_if (negb standard) Failed;
  k ← GetP2SHSigOpCount tx;
  let nSigOps := u32 (GetLegacySigOpCount tx + k) in
  _ ← stop_if (nSigOps >? MAX_STANDARD_TX_SIGOPS) (DoS 1 "bad-txns-too-many-sigops");
  nValueOut ← of_option (GetValueOut (MAX_MONEY (ce_rules C)) tx);
  let nFees := i64 (nValueIn - nValueOut) in
  _ ← stop_if ((nValueOut >? 777777 * COIN) && SQUISHY_VALUETOOBIG (u64 (nValueOut - 777777 * COIN))) (DoS 100 "tx valueout is too big");
  fSpendsCoinbase ← (if IsCoinImport tx then mret false else spends_coinbase (vin tx));
  let entry := mkEntry (txid, tx) nFees (ac_size E tx) (ac_usage E tx) (ac_GetTime E) (ac_Height E) fSpendsCoinbase branch in
  _ ← accept_fees pool txid tx (u32 (nTxSize entry)) nFees nValueOut fLimitFree fRejectAbsurdFee;
  _ ← ContextualCheckInputs inline_checks objs mapBlockIndex tx true STANDARD_SCRIPT_VERIFY_FLAGS branch;
  _ ← ContextualCheckInputs inline_checks objs mapBlockIndex tx true MANDATORY_SCRIPT_VERIFY_FLAGS branch;
  mret entry.

(** [tip]: the coins view of the tip; the result is the pool with the transaction. *)
Definition AcceptToMemoryPool (tip : V) (pool : CTxMemPool) (txid : Z) (tx : CMutableTransaction) (fLimitFree fRejectAbsurdFee : bool) (dosLevel : Z)
    : verdict CTxMemPool :=
  ((branch ← of_option (CurrentEpochBranchId vUp false (i32 (ac_Height E + 1)));
    _ ← accept_alone pool txid tx dosLevel;
    _ ← c_SetBackend (Some (mkViewMemPool tip pool));
    nValueIn ← accept_inputs txid tx;
    _ ← c_SetBackend None;
    entry ← accept_rest pool txid tx branch nValueIn fLimitFree fRejectAbsurdFee;
    of_option (addUnchecked txid entry pool)) (new_cache None)).1.
End Accept.

(** ** The view over the pool is right *)

(** What holds of the transactions of the pool: their amounts are not negative, and their
    outputs are fewer than the index that marks an import. *)
Definition pool_tx_ok (tx : CMutableTransaction) : Prop :=
  Forall (fun o => 0 <= nValue o) (vout tx) /\ zlen (vout tx) <= 1000000000.

Definition pool_txs_ok (m : CTxMemPool) : Prop := forall h a e, mapTx m !! h = Some (a, e) -> pool_tx_ok (GetTx e).2.

(** The tip's state with the pool's transactions on top. *)
Definition with_pool {Tree} (m : CTxMemPool) (s : utxo_state Tree) : utxo_state Tree :=
  mkState (fun k => match lookup_tx k m with Some tx => live (FromTx tx.2 MEMPOOL_HEIGHT) | None => st_coins s k end)
    (st_anchor s) (fun t nf => nullifierExists nf t m || st_null s t nf) (st_best s) (st_bestAnchor s).

#[global] Instance with_pool_proper {Tree} m : Proper ((≡) ==> (≡)) (@with_pool Tree m).
Proof.
  intros s s' (Hc & Ha & Hn & Hb & Hba). split_and!; simpl; intros; try done; [by case_match|]. by rewrite Hn.
Qed.

Lemma lookup_tx_Some m k tx : lookup_tx k m = Some tx <-> exists a e, mapTx m !! k = Some (a, e) /\ GetTx e = tx.
Proof.
  unfold lookup_tx. rewrite fmap_Some. split; [intros ([a e] & ? & ->); eauto|]. intros (a & e & ? & <-). by exists (a, e).
Qed.

Lemma lookup_tx_None m k : lookup_tx k m = None <-> mapTx m !! k = None.
Proof. unfold lookup_tx. by rewrite fmap_None. Qed.

Section Reads.
Context {Tree V : Type} `{!CoinsView Tree V} (tree_of : ShieldedType -> Z -> Tree) `{!CoinsViewReads tree_of V}.

Definition vm_inv (v : CCoinsViewMemPool V) : Prop := view_inv (vm_base v) /\ pool_txs_ok (vm_mempool v).
Definition vm_holds (v : CCoinsViewMemPool V) (k : Z) : Prop := is_Some (lookup_tx k (vm_mempool v)) \/ holds (vm_base v) k.
Definition vm_abs (v : CCoinsViewMemPool V) : utxo_state Tree := with_pool (vm_mempool v) (abs (vm_base v)).

Lemma on_base_same {A} (f : V -> A * V) v : vm_inv v -> same_view view_inv holds abs (vm_base v) (f (vm_base v)).2 ->
  same_view vm_inv vm_holds vm_abs v (on_base f v).2 /\ (on_base f v).1 = (f (vm_base v)).1.
Proof using Type.
  intros [Hi Hp] (Hi' & Ha & Hh). unfold on_base. destruct (f (vm_base v)) as [a b]. cbn [fst snd] in *. split; [|done].
  split_and!; [done| |].
  - unfold vm_abs. cbn [vm_base vm_mempool]. by rewrite Ha.
  - intros j [?|?]; [by left|right; by apply Hh].
Qed.

Lemma vm_refl v : vm_inv v -> same_view vm_inv vm_holds vm_abs v v.
Proof using Type. intros Hi. by split_and!. Qed.

#[global] Instance MemPool_Reads : CoinsViewReads tree_of (CCoinsViewMemPool V).
Proof using Type*.
  refine {| view_inv := vm_inv; holds := vm_holds; abs := vm_abs |}; intros; unfold vm_abs, with_pool; cbn [st_coins st_anchor st_null st_best st_bestAnchor].
  - cbn [GetCoins MemPool_CoinsView]. unfold MemPool_GetCoins. destruct (lookup_tx k (vm_mempool v)) as [tx|] eqn:E.
    + cbn [fst snd]. split; [by apply vm_refl|]. split; [|done]. intros c [= <-]. split; [|left; by rewrite E].
      apply FromTx_wf. apply lookup_tx_Some in E as (a & e & Hk & <-). by apply (proj2 H k a e Hk).
    + destruct (GetCoins_law (vm_base v) k (proj1 H)) as (Hs & Hc & Hl).
      destruct (on_base_same (fun b => GetCoins b k) v H Hs) as [Hs' Hv]. destruct (on_base _ v) as [r v'] eqn:Eb. cbn [fst snd] in *. subst r.
      split; [done|]. split.
      * intros c Hcc. destruct ((GetCoins (vm_base v) k).1) as [c0|] eqn:Ec; [|done]. destruct (IsPruned c0); [done|]. injection Hcc as ->.
        destruct (Hc _ eq_refl) as [? ?]. split; [done|]. right. unfold on_base in Eb. destruct (GetCoins (vm_base v) k) as [? b]. injection Eb as _ <-. done.
      * rewrite <- Hl. destruct ((GetCoins (vm_base v) k).1) as [c0|]; [|done]. cbn [mbind option_bind]. destruct (IsPruned c0) eqn:Hp; [|done].
        unfold live. by rewrite Hp.
  - destruct (GetAnchorAt_law t (vm_base v) k (proj1 H)) as (Hs & Hl). destruct (on_base_same (fun b => GetAnchorAt t b k) v H Hs) as [? E].
    cbn [GetAnchorAt MemPool_CoinsView]. by rewrite E, Hl.
  - by eapply anchor_tree_of; [apply H|].
  - cbn [GetNullifier MemPool_CoinsView]. unfold MemPool_GetNullifier. destruct (nullifierExists k t (vm_mempool v)); [split; [by apply vm_refl|done]|].
    destruct (GetNullifier_law t (vm_base v) k (proj1 H)) as (Hs & Hl). destruct (on_base_same (fun b => GetNullifier t b k) v H Hs) as [? E]. by rewrite E, Hl.
  - destruct (GetBestBlock_law (vm_base v) (proj1 H)) as (Hs & Hl). destruct (on_base_same GetBestBlock v H Hs) as [? E].
    cbn [GetBestBlock MemPool_CoinsView]. by rewrite E, Hl.
  - destruct (GetBestAnchor_law t (vm_base v) (proj1 H)) as (Hs & Hl). destruct (on_base_same (GetBestAnchor t) v H Hs) as [? E].
    cbn [GetBestAnchor MemPool_CoinsView]. by rewrite E, Hl.
Defined.

(** *** The pointer to a view *)

Definition nothing : utxo_state Tree := mkState (fun _ => None) (fun _ _ => None) (fun _ _ => false) 0 (fun _ => 0).

Lemma on_backend_same {W A} `{!CoinsView Tree W} `{!CoinsViewReads tree_of W} (f : W -> A * W) (d : A) (v : option W) (Q : utxo_state Tree -> A) :
  match v with Some w => view_inv w | None => True end ->
  (forall w, view_inv w -> same_view view_inv holds abs w (f w).2 /\ (f w).1 = Q (abs w)) -> Q nothing = d ->
  same_view (fun v => match v with Some w => view_inv w | None => True end) (fun v k => match v with Some w => holds w k | None => False end)
    (fun v => match v with Some w => abs w | None => nothing end) v (on_backend f d v).2 /\
  (on_backend f d v).1 = Q (match v with Some w => abs w | None => nothing end).
Proof using Type.
  intros Hv Hf Hd. destruct v as [w|]; cbn [on_backend].
  - destruct (Hf w Hv) as [Hs Hq]. destruct (f w) as [a w']. cbn [fst snd] in *. by split.
  - cbn [fst snd]. split; [by split_and!|done].
Qed.

#[global] Instance Backend_Reads {W} `{!CoinsView Tree W} `{!CoinsViewReads tree_of W} : CoinsViewReads tree_of (option W).
Proof using Type.
  refine {| view_inv v := match v with Some w => view_inv w | None => True end;
    holds v k := match v with Some w => holds w k | None => False end; abs v := match v with Some w => abs w | None => nothing end |}; intros.
  - destruct v as [w|]; [|by split_and!]. destruct (GetCoins_law w k H) as (Hs & Hc & Hl). cbn [GetCoins Backend_CoinsView on_backend].
    destruct (GetCoins w k) as [r w']. cbn [fst snd] in *. by split_and!.
  - apply (on_backend_same (fun w => GetAnchorAt t w k) None v (fun s => st_anchor s t k)); [done| |done]. intros w Hw. by apply GetAnchorAt_law.
  - destruct v as [w|]; [|done]. by eapply anchor_tree_of.
  - apply (on_backend_same (fun w => GetNullifier t w k) false v (fun s => st_null s t k)); [done| |done]. intros w Hw. by apply GetNullifier_law.
  - apply (on_backend_same GetBestBlock 0 v st_best); [done| |done]. intros w Hw. by apply GetBestBlock_law.
  - apply (on_backend_same (GetBestAnchor t) 0 v (fun s => st_bestAnchor s t)); [done| |done]. intros w Hw. by apply GetBestAnchor_law.
Defined.
End Reads.

(** ** The checker of transactions *)

(** What AcceptToMemoryPool relies on. *)
Class ChecksTransactions (K : tx_checker) : Prop :=
  checked_loose : forall tiptime tx txid, tc_CheckTransaction K tiptime tx txid = inr tt -> pool_tx_ok tx /\ base.NoDup (map prevout (vin tx)).

Lemma vector_longer {A} (f : A -> bytes) l : (forall a, a ∈ l -> (1 <= length (f a))%nat) -> (length l <= length (Serialize_elems f l))%nat.
Proof.
  induction l as [|a l IH]; intros Hf; [done|]. cbn. rewrite length_app. specialize (Hf a ltac:(by left)) as Ha.
  specialize (IH ltac:(intros b Hb; apply Hf; by right)). unfold Serialize_elems in IH. lia.
Qed.

Lemma outputs_in_size A tx bs : SerializeTransaction A tx = Some bs -> zlen (vout tx) <= zlen bs.
Proof.
  unfold SerializeTransaction. destruct (fOverwintered tx && _); [done|]. destruct ((nVersion tx >=? 2) && _); [done|]. intros Hbs. apply (inj Some) in Hbs as <-.
  unfold zlen. rewrite !length_app.
  enough (length (vout tx) <= length (ser (c_vector (sizeof_CTxOut A) c_CTxOut) (vout tx)))%nat by lia.
  cbn [ser c_vector]. unfold Serialize_vector. rewrite length_app.
  enough (length (vout tx) <= length (Serialize_elems (ser c_CTxOut) (vout tx)))%nat by lia.
  apply vector_longer. intros o _. cbn. lia.
Qed.

Section Node.
Context (A : abi) (R : chain_rules) (Hash160 : bytes -> bytes) (notaryvout : bytes -> Z -> bool) (symbol : string)
  (STAKED : Z) (newStakerActive : Z -> bool) (DecodeStakingOpRet : bytes -> bool)
  (joinsplit_Verify : JSDescription -> CMutableTransaction -> bool) (contextual : CMutableTransaction -> Z -> Z -> verdict unit).

Definition node_tx_checker : tx_checker := mkTxChecker
  (fun tiptime tx txid => CheckTransaction A R Hash160 notaryvout symbol STAKED newStakerActive DecodeStakingOpRet joinsplit_Verify tiptime tx txid 0 0)
  contextual.

#[global] Instance node_checks_transactions : 0 <= MAX_MONEY R < 2 ^ 62 -> ChecksTransactions node_tx_checker.
Proof.
  intros HM tiptime tx txid. cbn [tc_CheckTransaction node_tx_checker]. unfold CheckTransaction.
  do 2 match goal with |- (if ?b then _ else _) = _ -> _ => destruct b; [done|] end. intros (u & Hc & _)%verdict_bind_inr. destruct u.
  destruct (accepted_amounts _ _ _ _ _ _ _ HM Hc) as [Hv _].
  apply CheckTransaction_inv in Hc as (r1 & r2 & r3 & _ & Hs & _ & _ & _ & _ & _ & _ & Hd & _).
  split; [split; [done|]|].
  - unfold check_shape in Hs. apply reject_if_inr in Hs as [_ Hs]. apply reject_if_inr in Hs as [_ Hs].
    destruct (SerializeTransaction A tx) as [bs|] eqn:Hbs; [|done]. apply reject_if_inr in Hs as [Hz _]. rewrite Z.gtb_ltb in Hz. apply Z.ltb_ge in Hz.
    pose proof (outputs_in_size _ _ _ Hbs). unfold MAX_TX_SIZE_AFTER_SAPLING in Hz. lia.
  - unfold check_all_duplicates in Hd. apply verdict_bind_inr in Hd as ([] & Hd & _). apply check_duplicates_NoDup in Hd as [? _]; [done|constructor].
Qed.
End Node.

(** ** The pool against the ledger *)

(** An output a transaction of the pool can spend: unspent on the tip, or of the pool. *)
Definition funded (L : ledger) (m : CTxMemPool) (o : COutPoint) : Prop :=
  0 <= n o /\ (is_Some (unspent L o) \/
    exists a e, mapTx m !! hash o = Some (a, e) /\ is_Some (vout (GetTx e).2 !! Z.to_nat (n o) ≫= spendable)).

(** What an entry needs. *)
Definition entry_backed (L : ledger) (m : CTxMemPool) (tx : CMutableTransaction) : Prop :=
  (IsCoinImport tx = false -> forall txin, txin ∈ vin tx -> funded L m (prevout txin)) /\
  forall t nf, nf ∈ nullifiers_of t tx -> revealed L t nf = false.

Definition backed (L : ledger) (m : CTxMemPool) : Prop := forall h a e, mapTx m !! h = Some (a, e) -> entry_backed L m (GetTx e).2.

Lemma entry_backed_equiv L L' m tx : L ≡ L' -> entry_backed L m tx -> entry_backed L' m tx.
Proof.
  intros [Hu Hr] [H1 H2]. split.
  - intros Himp txin Hin. destruct (H1 Himp txin Hin) as [Hn Hf]. split; [done|]. by rewrite <- Hu.
  - intros t nf Hnf. rewrite <- Hr. by apply H2.
Qed.

Lemma funded_more L m m' o : (forall k p, mapTx m !! k = Some p -> mapTx m' !! k = Some p) -> funded L m o -> funded L m' o.
Proof. intros Hm [Hn [?|(a & e & Hk & ?)]]; (split; [done|]); [by left|right; eauto]. Qed.

Section Sound.
Context {Tree V : Type} `{!MerkleTree Tree} `{!CoinsView Tree V} `{!CoinsMemory}.
Context (tree_of : ShieldedType -> Z -> Tree) `{!CoinsViewReads tree_of V}.
Abbreviation cache := (CCoinsViewCache Tree (option (CCoinsViewMemPool V))).
Abbreviation check := (@check Tree (option (CCoinsViewMemPool V))).
Abbreviation query := (query tree_of (V := option (CCoinsViewMemPool V))).
Abbreviation shows := (shows tree_of (V := option (CCoinsViewMemPool V))).

Lemma query_have s k : query s (c_HaveCoins k) (fun b => b = bool_decide (is_Some (st_coins s k))).
Proof using Type*.
  intros c Hc. destruct (Cache_HaveCoins_law tree_of c k (proj1 Hc)) as (Hs & Hl).
  unfold c_HaveCoins. destruct (Cache_HaveCoins c k) as [r c']; cbn [fst snd] in *.
  split; [by eapply shows_same|]. intros a [= <-]. rewrite Hl. apply bool_decide_ext. destruct Hc as [_ (Hst & _)]. by rewrite Hst.
Qed.

Lemma query_have_all s l : query s (have_all l) (fun _ => True).
Proof using Type*.
  induction l as [|i l IH]; [by apply query_ret|]. eapply query_bind; [apply query_have|]. intros [] _; [done|by apply query_ret].
Qed.

(** What the inputs are known to be. *)
Definition inputs_known (s : utxo_state Tree) (txid : Z) (tx : CMutableTransaction) : Prop :=
  st_coins s txid = None /\ (IsMint tx = false -> Forall (input_available s) (vin tx)) /\
  forall t nf, nf ∈ nullifiers_of t tx -> st_null s t nf = false.

Lemma accept_inputs_known E s txid tx c v c' : shows s c -> accept_inputs E txid tx c = (inr v, c') -> inputs_known s txid tx.
Proof using Type*.
  intros Hs. unfold accept_inputs.
  intros (have & c1 & H1 & Hr)%check_bind_inr. eapply query_run in H1 as [Hs1 Hh]; [|apply query_have|done]. cbn beta in Hh.
  apply check_bind_inr in Hr as (u & c2 & H2 & Hr). apply stop_if_inr in H2 as [-> ->].
  apply check_bind_inr in Hr as (u2 & c3 & H3 & Hr).
  assert (Hin : shows s c3 /\ (IsMint tx = false -> Forall (input_available s) (vin tx))).
  { unfold IsMint. destruct (IsCoinImport tx) eqn:Himp.
    - apply check_bind_inr in H3 as (tomb & c4 & H4 & H5). eapply query_run in H4 as [Hs4 _]; [|apply query_have|done].
      apply stop_if_inr in H5 as [_ ->]. by split.
    - apply check_bind_inr in H3 as (all & c4 & H4 & H5). eapply query_run in H4 as [Hs4 _]; [|apply query_have_all|done].
      apply check_bind_inr in H5 as (u3 & c5 & H5 & H6). apply stop_if_inr in H5 as [_ ->].
      apply check_bind_inr in H6 as (hv & c6 & H6 & H7). apply stop_if_inr in H7 as [Hhv ->]. apply negb_false_iff in Hhv as ->.
      unfold HaveInputs, IsMint in H6. rewrite Himp in H6. cbn [orb] in *. destruct (IsCoinBase tx) eqn:Hcb; cbn [negb] in H6.
      + apply check_ret_inr in H6 as [_ ->]. by split.
      + eapply query_run in H6 as [Hs6 Hq]; [|apply query_have_inputs|done]. split; [done|]. intros _. by apply Hq. }
  destruct Hin as [Hs3 Hin]. apply check_bind_inr in Hr as (met & c4 & H4 & Hr).
  eapply query_run in H4 as [_ Hq]; [|apply query_requirements|exact Hs3].
  apply check_bind_inr in Hr as (u4 & c5 & H5 & _). apply stop_if_inr in H5 as [Hmet _]. apply negb_false_iff in Hmet as ->.
  destruct (Hq eq_refl) as [Hjs Hsp].
  split; [|split; [done|]].
  - symmetry in Hh. apply bool_decide_eq_false in Hh. by apply eq_None_not_Some.
  - intros [] nf; cbn [nullifiers_of].
    + rewrite list_elem_of_In, in_concat. intros (l & (js & <- & Hjs')%in_map_iff & Hnf). apply list_elem_of_In, list_elem_of_lookup in Hjs' as [i Hi].
      destruct (Hjs i js Hi) as [Hf _]. rewrite list.Forall_forall in Hf. apply Hf. by apply list_elem_of_In.
    + intros (d & -> & Hd)%list_elem_of_fmap. rewrite list.Forall_forall in Hsp. by apply Hsp.
Qed.

(** The checks that need no coins. *)
Lemma accept_alone_known E pool txid tx dos (c c' : cache) u : accept_alone E pool txid tx dos c = (inr u, c') ->
  c' = c /\ (exists t, tc_CheckTransaction (ac_checker E) t tx txid = inr tt) /\ IsCoinBase tx = false /\ mapTx pool !! txid = None /\
  (forall txin, txin ∈ vin tx -> mapNextTx pool !! prevout txin = None) /\
  (forall t nf, nf ∈ nullifiers_of t tx -> map_nullifiers t pool !! nf = None).
Proof using Type.
  unfold accept_alone.
  intros (ow & c1 & H1 & Hr)%check_bind_inr. apply of_option_inr in H1 as [_ ->].
  apply check_bind_inr in Hr as (? & c1 & H1 & Hr). apply stop_if_inr in H1 as [_ ->].
  apply check_bind_inr in Hr as (? & c1 & H1 & Hr). apply stop_if_inr in H1 as [_ ->].
  apply check_bind_inr in Hr as (u1 & c1 & H1 & Hr). unfold c_of_verdict in H1. injection H1 as Hct <-.
  apply check_bind_inr in Hr as (u2 & c1 & H1 & Hr). unfold c_of_verdict in H1. injection H1 as _ <-.
  apply check_bind_inr in Hr as (? & c1 & H1 & Hr). apply stop_if_inr in H1 as [Hcb ->].
  apply check_bind_inr in Hr as (? & c1 & H1 & Hr).
  assert (c1 = c) as ->.
  { destruct (ac_RequireStandard E); [|by apply check_ret_inr in H1 as [_ ->]]. apply check_bind_inr in H1 as (r & c2 & H1 & H2).
    apply of_option_inr in H1 as [_ ->]. destruct r; [done|by apply check_ret_inr in H2 as [_ ->]]. }
  apply check_bind_inr in Hr as (? & c1 & H2 & Hr). apply of_option_inr in H2 as [_ ->].
  apply check_bind_inr in Hr as (? & c1 & H2 & Hr). apply stop_if_inr in H2 as [_ ->].
  apply check_bind_inr in Hr as (? & c1 & H2 & Hr). apply stop_if_inr in H2 as [Hex ->].
  unfold pool_conflict in Hr.
  apply check_bind_inr in Hr as (? & c1 & H2 & Hr). apply stop_if_inr in H2 as [Hin ->].
  apply check_bind_inr in Hr as (? & c1 & H2 & Hr). apply stop_if_inr in H2 as [Hsp ->].
  apply stop_if_inr in Hr as [Hsa ->]. destruct u1.
  assert (Hfind : forall t l, existsb (fun nf => nullifierExists nf t pool) l = false -> forall nf, nf ∈ l -> map_nullifiers t pool !! nf = None).
  { intros t l Hl nf Hnf. apply not_true_iff_false in Hl. destruct (map_nullifiers t pool !! nf) as [a|] eqn:Ea; [|done]. exfalso. apply Hl.
    apply existsb_exists. exists nf. split; [by apply list_elem_of_In|]. unfold nullifierExists. apply bool_decide_eq_true. by rewrite Ea. }
  split_and!; [done|eauto|done| | |].
  - apply bool_decide_eq_false in Hex. by apply eq_None_not_Some.
  - intros txin Hi. apply not_true_iff_false in Hin. destruct (mapNextTx pool !! prevout txin) as [ip|] eqn:Ep; [|done]. exfalso. apply Hin.
    apply existsb_exists. exists txin. split; [by apply list_elem_of_In|]. apply bool_decide_eq_true. by rewrite Ep.
  - intros [] nf Hnf; by eapply Hfind.
Qed.

(** The outputs of the coins objects of the tip are fewer than the index that marks an import. *)
Definition outputs_bounded (s : utxo_state Tree) : Prop := forall k co, st_coins s k = Some co -> zlen (coins_vout co) <= 1000000000.

Lemma available_funded pool s i : pool_txs_ok pool -> outputs_bounded s -> 0 <= n (prevout i) -> input_available (with_pool pool s) i ->
  funded (ledger_of s) pool (prevout i) /\ n (prevout i) <> 1000000000.
Proof using Type.
  intros Hp Hb Hn (co & Hco & Ha). unfold with_pool in Hco. cbn [st_coins] in Hco.
  assert (Hout : is_Some (out_at (coins_vout co) (Z.to_nat (n (prevout i))))) by (apply out_at_avail; exact Ha).
  assert (Hlen : (Z.to_nat (n (prevout i)) < length (coins_vout co))%nat).
  { apply lookup_lt_is_Some. unfold out_at in Hout. destruct (coins_vout co !! _); [by eexists|by destruct Hout]. }
  destruct (lookup_tx (hash (prevout i)) pool) as [tx|] eqn:Htx.
  - apply lookup_tx_Some in Htx as (a & e & Hk & <-). destruct (Hp _ _ _ Hk) as [Hv Hlt].
    unfold live in Hco. destruct (IsPruned _) in Hco; [done|]. injection Hco as <-. rewrite out_at_FromTx in Hout by done.
    split; [split; [done|right; eauto]|]. destruct Hout as [o Ho]. destruct (vout (GetTx e).2 !! Z.to_nat (n (prevout i))) as [o'|] eqn:E; [|done].
    apply lookup_lt_Some in E. unfold zlen in Hlt. lia.
  - split; [|pose proof (Hb _ _ Hco) as Hl; unfold zlen in Hl; lia]. split; [done|]. left. unfold ledger_of. cbn [unspent]. by rewrite Hco.
Qed.

(** An accepted transaction was admissible, and is backed. *)
Lemma accept_spec E objs mbi (tip : V) pool txid tx free absurd dos pool' : ChecksTransactions (ac_checker E) ->
  view_inv (tree_of := tree_of) tip -> pool_inv pool -> pool_txs_ok pool -> outputs_bounded (abs (tree_of := tree_of) tip) ->
  (IsMint tx = false -> input_positions (vin tx)) ->
  AcceptToMemoryPool E objs mbi tip pool txid tx free absurd dos = inr pool' ->
  exists entry, GetTx entry = (txid, tx) /\ admissible txid entry pool /\ addUnchecked txid entry pool = Some pool' /\ pool_tx_ok tx /\
    entry_backed (ledger_of (abs (tree_of := tree_of) tip)) pool tx /\ st_coins (abs (tree_of := tree_of) tip) txid = None.
Proof using Type*.
  intros HK Hv Hm Hp Hb Hpos. unfold AcceptToMemoryPool. match goal with |- (?f (new_cache None)).1 = _ -> _ => destruct (f (new_cache None)) as [r c'] eqn:Hrun end. cbn [fst]. intros ->.
  apply check_bind_inr in Hrun as (branch & c1 & H1 & Hr). apply of_option_inr in H1 as [_ ->].
  apply check_bind_inr in Hr as (u1 & c1 & H1 & Hr). apply accept_alone_known in H1 as (-> & (t & Hct) & Hcb & Hnew & Hins & Hnul).
  apply check_bind_inr in Hr as (u2 & c1 & H1 & Hr). unfold c_SetBackend in H1. injection H1 as _ <-.
  apply check_bind_inr in Hr as (v & c1 & H1 & Hr).
  assert (Hs : shows (with_pool pool (abs (tree_of := tree_of) tip)) (new_cache (Some (mkViewMemPool tip pool)))).
  { exact (new_cache_inv tree_of (Some (mkViewMemPool tip pool)) (conj Hv Hp)). }
  apply (accept_inputs_known E _ txid tx _ _ _ Hs) in H1 as (Hnone & Hav & Hnulls).
  apply check_bind_inr in Hr as (u3 & c2 & H1 & Hr). clear H1. apply check_bind_inr in Hr as (entry & c3 & H1 & Hr).
  apply of_option_inr in Hr as [Hadd _]. destruct (HK _ _ _ Hct) as [Hok Hnd].
  assert (He : GetTx entry = (txid, tx)).
  { unfold accept_rest in H1. do 10 (apply check_bind_inr in H1 as (? & ? & _ & H1)). by apply check_ret_inr in H1 as [<- _]. }
  exists entry. split; [done|]. split.
  - split; rewrite ?He; try done. cbn [snd]. intros Himp txin Hin. assert (Hmint : IsMint tx = false) by (unfold IsMint; by rewrite Himp, Hcb).
    specialize (Hav Hmint). specialize (Hpos Hmint). unfold input_positions in Hpos. rewrite list.Forall_forall in Hav, Hpos.
    exact (proj2 (available_funded pool _ txin Hp Hb (proj1 (Hpos _ Hin)) (Hav _ Hin))).
  - split; [done|]. split; [done|]. split.
    + split.
      * intros Himp txin Hin. assert (Hmint : IsMint tx = false) by (unfold IsMint; by rewrite Himp, Hcb).
        specialize (Hav Hmint). specialize (Hpos Hmint). unfold input_positions in Hpos. rewrite list.Forall_forall in Hav, Hpos.
        exact (proj1 (available_funded pool _ txin Hp Hb (proj1 (Hpos _ Hin)) (Hav _ Hin))).
      * intros t' nf Hnf. specialize (Hnulls t' nf Hnf). cbn [with_pool st_null] in Hnulls. by apply orb_false_iff in Hnulls as [_ ?].
    + unfold with_pool in Hnone. cbn [st_coins] in Hnone. by rewrite (proj2 (lookup_tx_None pool txid) Hnew) in Hnone.
Qed.
End Sound.

(** ** The pool and the chain *)

(** Taking transactions out together with what descends from them leaves the rest backed. *)
Lemma keeps_backed L m m' G : keeps m m' G -> closed m G -> backed L m -> backed L m'.
Proof.
  intros Hk Hc Hb h a e [He Hn]%(keeps_at _ _ _ Hk). destruct (Hb h a e He) as [H1 H2]. split; [|done].
  intros Himp txin Hin. destruct (H1 Himp txin Hin) as [Hpos [?|(a' & e' & He' & Ho)]]; (split; [done|]); [by left|right].
  exists a', e'. split; [|done]. apply (keeps_at _ _ _ Hk). split; [done|]. intros HG. apply Hn. eapply Hc; [|exact HG].
  exists (a', e'). split; [done|]. exists a, e, txin. split_and!; try done. cbn [snd]. destruct Ho as [o Ho].
  destruct (vout (GetTx e').2 !! Z.to_nat (n (prevout txin))) as [o'|] eqn:E; [|done]. apply lookup_lt_Some in E. lia.
Qed.

Lemma closed_reach m (P : Z -> Prop) : closed m (fun x => exists r, P r /\ rtc (child m) r x).
Proof. intros x y Hxy (r & Hr & Hp). exists r. split; [done|]. by eapply rtc_r. Qed.

Lemma evicted_backed L f m m' : evicted f m m' -> backed L m -> backed L m'.
Proof.
  intros [_ Hk]. eapply keeps_backed; [exact Hk|]. intros x y Hxy (r & a & e & Hr & Hf & Hp). exists r, a, e. split_and!; [done|done|]. by eapply rtc_r.
Qed.

Lemma keeps_txs_ok m m' G : keeps m m' G -> pool_txs_ok m -> pool_txs_ok m'.
Proof. intros Hk Hp h a e [He _]%(keeps_at _ _ _ Hk). by apply (Hp h a e). Qed.

(** No unspent output has the id of the transaction, and no other transaction of the pool. *)
Definition fresh_tx (L : ledger) (m : CTxMemPool) (tx : hashed_tx) : Prop :=
  (forall o, 0 <= n o -> hash o = tx.1 -> unspent L o = None) /\
  forall a e, mapTx m !! tx.1 = Some (a, e) -> (GetTx e).2 = tx.2.

Section Block.
Variables (L : ledger) (m m1 m2 : CTxMemPool) (tx : hashed_tx).
Hypothesis Hfresh : fresh_tx L m tx.
Hypothesis Hk1 : keeps m m1 (fun x => x = tx.1).
Hypothesis Hk2 : keeps m1 m2 (fun x => exists r a e, mapTx m1 !! r = Some (a, e) /\ conflicts tx.2 e /\ rtc (child m1) r x).

(** What stays does not conflict with the transaction. *)
Lemma stays_compatible h a e : mapTx m2 !! h = Some (a, e) -> mapTx m !! h = Some (a, e) /\ h <> tx.1 /\ ~ conflicts tx.2 e.
Proof using Hk1 Hk2.
  intros [H1 H2]%(keeps_at _ _ _ Hk2). pose proof (proj1 (keeps_at _ _ _ Hk1 _ _) H1) as [? ?]. split_and!; [done|done|].
  intros Hc. apply H2. exists h, a, e. split_and!; [done|done|apply rtc_refl].
Qed.

Lemma block_step_backed : backed L m -> backed (apply_tx tx.1 tx.2 L) m2.
Proof using Hfresh Hk1 Hk2.
  intros Hb h a e He. destruct (stays_compatible h a e He) as (Hm & Hne & Hcf). destruct (Hb h a e Hm) as [H1 H2]. split.
  - intros Himp txin Hin. destruct (H1 Himp txin Hin) as [Hpos Hf]. split; [done|].
    assert (Hun : prevout txin ∉ consumed tx.2).
    { intros Hc. apply Hcf. left. split; [done|]. exists (prevout txin). split; [|apply list_elem_of_fmap; by exists txin].
      unfold consumed in Hc. destruct (IsMint tx.2); [by apply elem_of_nil in Hc|done]. }
    destruct (decide (hash (prevout txin) = tx.1)) as [Eh|Eh].
    + left. unfold apply_tx. cbn [unspent]. rewrite decide_True by done. destruct Hf as [Hf|(a' & e' & He' & Ho)].
      * rewrite (proj1 Hfresh) in Hf by done. by destruct Hf.
      * rewrite Eh in He'. by rewrite (proj2 Hfresh _ _ He') in Ho.
    + destruct Hf as [Hf|(a' & e' & He' & Ho)].
      * left. unfold apply_tx. cbn [unspent]. by rewrite decide_False, decide_False.
      * right. exists a', e'. split; [|done]. assert (He1 : mapTx m1 !! hash (prevout txin) = Some (a', e')) by by apply (keeps_at _ _ _ Hk1).
        apply (keeps_at _ _ _ Hk2). split; [done|]. intros (r & ar & er & Hr & Hc & Hp).
        pose proof (proj1 (keeps_at _ _ _ Hk2 _ _) He) as [He2 Hn]. apply Hn. exists r, ar, er. split_and!; [done|done|]. eapply rtc_r; [exact Hp|].
        exists (a', e'). split; [done|]. exists a, e, txin. split_and!; try done. cbn [snd]. destruct Ho as [o Ho].
        destruct (vout (GetTx e').2 !! Z.to_nat (n (prevout txin))) as [o'|] eqn:E; [|done]. apply lookup_lt_Some in E. lia.
  - intros t nf Hnf. unfold apply_tx. cbn [revealed]. rewrite decide_False; [by apply H2|]. intros Hc. apply Hcf. right. eauto.
Qed.
End Block.

(** The transactions of a block in turn. *)
Definition ledger_after (L : ledger) (vtx : list hashed_tx) : ledger := foldl (fun L tx => apply_tx tx.1 tx.2 L) L vtx.

Lemma ledger_txs_after C h P L vtx accounts L' : ledger_txs C h P L vtx accounts L' -> ledger_after L vtx ≡ L'.
Proof.
  assert (Hpr : forall vtx L1 L2, L1 ≡ L2 -> ledger_after L1 vtx ≡ ledger_after L2 vtx).
  { clear. induction vtx as [|tx vtx IH]; intros L1 L2 HL; [done|]. cbn. apply IH. by rewrite HL. }
  induction 1 as [L L' HL|L L1 L' txid tx l acc Hcb HL _ IH|L L1 L' txid tx l oxs fee acc Hcb Hs Hv HL _ IH]; cbn.
  - done.
  - rewrite <- IH. apply Hpr. by rewrite HL.
  - rewrite <- IH. apply Hpr. by rewrite HL.
Qed.

Lemma block_backed vtx : forall L m conf, pool_inv m -> pool_txs_ok m -> backed L m -> base.NoDup (map fst vtx) -> Forall (fresh_tx L m) vtx ->
  exists m' conf', removeForBlock vtx m conf = Some (m', conf') /\ pool_inv m' /\ pool_txs_ok m' /\ shrunk m m' /\ backed (ledger_after L vtx) m' /\
    forall tx, tx ∈ vtx -> mapTx m' !! tx.1 = None.
Proof.
  induction vtx as [|tx vtx IH]; intros L m conf Hm Hp Hb Hnd Hf; cbn [removeForBlock].
  { exists m, conf. split_and!; [done|done|done|by intros ? ?|done|by intros ? ?%elem_of_nil]. }
  cbn [map] in Hnd. apply list.NoDup_cons in Hnd as [Hni Hnd]. apply Forall_cons_1 in Hf as [Hf1 Hf].
  destruct (block_step_spec tx m conf Hm) as (m1 & l1 & m2 & l2 & -> & Hk1 & E2 & Hm2 & Hk2). cbn [mbind option_bind]. rewrite E2. cbn [mbind option_bind].
  assert (Hsh : shrunk m m2).
  { intros k p [Hk _]%(keeps_at _ _ _ Hk2). by apply (keeps_at _ _ _ Hk1) in Hk as [? _]. }
  destruct (IH (apply_tx tx.1 tx.2 L) (ClearPrioritisation tx.1 m2) (app conf l2) Hm2) as (m' & conf' & -> & Hm' & Hp' & Hs' & Hb' & Hg').
  - intros h a e He. by apply (Hp h a e), Hsh.
  - exact (block_step_backed L m m1 m2 tx Hf1 Hk1 Hk2 Hb).
  - done.
  - rewrite list.Forall_forall in Hf |- *. intros t Ht. destruct (Hf t Ht) as [F1 F2]. split; [|intros a e He; by apply (F2 a e), Hsh].
    intros o Ho Hh. unfold apply_tx. cbn [unspent]. rewrite decide_False.
    + case_decide; [done|]. by apply F1.
    + rewrite Hh. intros E. apply Hni. rewrite <- E. apply list_elem_of_fmap. by exists t.
  - exists m', conf'. split_and!; [done|done|done| |done|].
    + intros k p Hk. by apply Hsh, Hs'.
    + intros t [->|Ht]%elem_of_cons; [|by apply Hg']. destruct (mapTx m' !! tx.1) as [p|] eqn:E; [|done]. apply Hs' in E. cbn [mapTx ClearPrioritisation] in E.
      apply (keeps_at _ _ _ Hk2) in E as [E _]. by apply (keeps_at _ _ _ Hk1) in E as [_ ?].
Qed.

Section Node.
Context {Tree V : Type} `{!MerkleTree Tree} `{!CoinsView Tree V} `{!CoinsMemory}.
Context (tree_of : ShieldedType -> Z -> Tree) `{!CoinsViewReads tree_of V}.
Abbreviation st := (abs (tree_of := tree_of)).

(** What changes the pool without a new tip. *)
Definition evicts (op : pool_op) : Prop :=
  match op with OpAdd _ _ | OpRemove _ false | OpBlock _ | OpClear => False | _ => True end.

(** Transactions are accepted against a view of the ledger, ruled out, or come in a block. *)
Inductive node_step : ledger * CTxMemPool -> ledger * CTxMemPool -> Prop :=
| ns_accept L m E objs mbi (tip : V) txid tx free absurd dos m' :
    ChecksTransactions (ac_checker E) -> view_inv (tree_of := tree_of) tip -> ledger_of (st tip) ≡ L -> outputs_bounded (st tip) ->
    (IsMint tx = false -> input_positions (vin tx)) ->
    AcceptToMemoryPool E objs mbi tip m txid tx free absurd dos = inr m' -> node_step (L, m) (L, m')
| ns_evict L m op m' : evicts op -> run_op op m = Some m' -> node_step (L, m) (L, m')
| ns_block L m C h P vtx accounts L' m' conf :
    ledger_txs C h P L vtx accounts L' -> base.NoDup (map fst vtx) -> Forall (fresh_tx L m) vtx ->
    removeForBlock vtx m [] = Some (m', conf) -> node_step (L, m) (L', m').

Definition pool_sound (x : ledger * CTxMemPool) : Prop := pool_inv x.2 /\ pool_txs_ok x.2 /\ backed x.1 x.2.

Lemma added_backed L m h entry m' : mapTx m' = <[h := (next_addr m, entry)]> (mapTx m) -> mapTx m !! h = None ->
  pool_txs_ok m -> pool_tx_ok (GetTx entry).2 -> backed L m -> entry_backed L m (GetTx entry).2 -> pool_txs_ok m' /\ backed L m'.
Proof.
  intros Hm' Hn Hp Hok Hb He.
  assert (Hmore : forall k p, mapTx m !! k = Some p -> mapTx m' !! k = Some p).
  { intros k p Hk. rewrite Hm', lookup_insert_ne; [done|]. intros ->. congruence. }
  assert (Hup : forall tx, entry_backed L m tx -> entry_backed L m' tx).
  { intros tx [H1 H2]. split; [|done]. intros Himp txin Hin. eapply funded_more; [exact Hmore|]. by apply H1. }
  split; intros k a e Hk; rewrite Hm' in Hk; apply lookup_insert_Some in Hk as [[<- [= <- <-]]|[_ Hk]]; [done|by apply (Hp k a e)|by apply Hup|by apply Hup, (Hb k a e)].
Qed.

Lemma accept_sound L m E objs mbi (tip : V) txid tx free absurd dos m' : ChecksTransactions (ac_checker E) -> view_inv (tree_of := tree_of) tip ->
  ledger_of (st tip) ≡ L -> outputs_bounded (st tip) -> (IsMint tx = false -> input_positions (vin tx)) -> pool_sound (L, m) ->
  AcceptToMemoryPool E objs mbi tip m txid tx free absurd dos = inr m' ->
  pool_sound (L, m') /\ exists entry, GetTx entry = (txid, tx) /\ mapTx m' = <[txid := (next_addr m, entry)]> (mapTx m) /\
    mapTx m !! txid = None /\ st_coins (st tip) txid = None.
Proof using Type*.
  intros HK Hv HL Hb Hpos (Hi & Hp & Hbk) Hacc. cbn [fst snd] in *.
  destruct (accept_spec tree_of E objs mbi tip m txid tx free absurd dos m' HK Hv Hi Hp Hb Hpos Hacc) as (entry & He & Ha & Hadd & Hok & Heb & Hnone).
  destruct (addUnchecked_spec txid entry m Hi Ha) as (m'' & Hadd' & Hi' & Hmap). rewrite Hadd in Hadd'. injection Hadd' as <-.
  pose proof (adm_new _ _ _ Ha) as Hnew. apply (entry_backed_equiv _ _ _ _ HL) in Heb.
  destruct (added_backed L m txid entry m' Hmap Hnew Hp) as [Hp' Hb']; [by rewrite He|done|by rewrite He|]. split; [done|]. by exists entry.
Qed.

Lemma evict_sound op L m m' : evicts op -> pool_sound (L, m) -> run_op op m = Some m' -> pool_sound (L, m').
Proof using Type.
  intros Hop (Hi & Hp & Hb) Hrun. cbn [fst snd] in *.
  assert (Hel : forall f, remove_each (select f m) m = Some m' -> pool_sound (L, m')).
  { intros f Hf. destruct (evict_select f m Hi) as (m'' & Hf' & He). rewrite Hf in Hf'. injection Hf' as <-.
    split; [apply He|]. split; [|by eapply evicted_backed]. eapply keeps_txs_ok; [apply He|done]. }
  destruct op as [h entry|tx rec|rt t|id|fin co mat g fr to pr fq h|rw km tp h|vtx|h d| |]; cbn [run_op] in Hrun; try done.
  - destruct rec; [|done]. destruct (remove_recursive_spec tx [] m Hi) as (m'' & l & Hr & Hi'' & _ & Hk). rewrite Hr in Hrun. injection Hrun as <-.
    split; [done|]. split; [by eapply keeps_txs_ok|]. eapply keeps_backed; [exact Hk| |done]. apply closed_reach.
  - by eapply Hel.
  - by eapply Hel.
  - pose proof (removeForReorg_spec fin co mat g fr to pr fq h m Hi) as He. rewrite Hrun in He. split; [apply He|].
    split; [|by eapply evicted_backed]. eapply keeps_txs_ok; [apply He|done].
  - by eapply Hel.
  - injection Hrun as <-. split; [|split; [exact Hp|exact Hb]]. destruct Hi. by split.
  - destruct (notify_spec m Hi) as (txs & m'' & Hn & Hi'' & _). rewrite Hn in Hrun. injection Hrun as <-. split; [done|].
    unfold NotifyRecentlyAdded in Hn. destruct (mapM _ _); [|done]. injection Hn as _ <-. by split.
Qed.

Lemma node_step_sound x y : node_step x y -> pool_sound x -> pool_sound y.
Proof using Type*.
  intros [L m E objs mbi tip txid tx free absurd dos m' HK Hv HL Hb Hpos Hacc|L m op m' Hop Hrun|L m C h P vtx acc L' m' conf Hl Hnd Hf Hrun] Hs.
  - by eapply accept_sound in Hacc as [? _].
  - by eapply evict_sound.
  - destruct Hs as (Hi & Hp & Hb). destruct (block_backed vtx L m [] Hi Hp Hb Hnd Hf) as (m'' & c'' & Hr & Hi' & Hp' & _ & Hb' & _).
    rewrite Hrun in Hr. injection Hr as <- <-. split; [done|]. split; [done|]. intros k a e He. eapply entry_backed_equiv; [|by apply (Hb' k a e)].
    by eapply ledger_txs_after.
Qed.
End Node.

(** ** Theorems *)

#[local] Existing Instance toy_tree.
#[local] Existing Instance toy_memory.

(** A regression-test node at the tip of [demo_entries]; [toy_spend] pays a fee of 1000. *)
Definition demo_accept : accept_env := mkAcceptEnv demo_connect
  (node_tx_checker abi_x86_64 rules_main (fun b => take 20 b) (fun _ _ => false) "" 0 (fun _ => false) (fun _ => false) (fun _ _ => true) (fun _ _ _ => inr tt))
  0 false true 100 true (fun _ => false) (fun b => take 20 b) 0 false 900000 (Some (1500000000, 1500000000)) 1500000500
  (fun _ => 85) (fun _ => 500) (fun _ => false) (fun _ => true) (fun _ => false) empty_mempool.

Definition demo_accepted : verdict CTxMemPool := AcceptToMemoryPool demo_accept demo_entries demo_hashes toy_db empty_mempool 200 toy_spend true false (-1).

Lemma demo_accepted_ok : demo_accepted = inr (match demo_accepted with inr m => m | inl _ => empty_mempool end).
Proof. assert (H : match demo_accepted with inr _ => true | inl _ => false end = true) by by vm_compute. by destruct demo_accepted. Qed.

Definition demo_mempool : CTxMemPool := match demo_accepted with inr m => m | inl _ => empty_mempool end.

#[local] Instance demo_checks_transactions : ChecksTransactions (ac_checker demo_accept).
Proof. apply node_checks_transactions. by vm_compute. Qed.

Definition demo_ledger : ledger := ledger_of (abs (tree_of := toy_tree_of) toy_db).

Lemma demo_bounded : outputs_bounded (abs (tree_of := toy_tree_of) toy_db).
Proof. intros k co. simpl. unfold DB_GetCoins. simpl. intros [_ <-]%lookup_singleton_Some. by vm_compute. Qed.

Lemma demo_positions : IsMint toy_spend = false -> input_positions (vin toy_spend).
Proof. intros _. constructor; [split; [apply Z.le_refl|reflexivity]|constructor]. Qed.

Lemma empty_sound L : pool_sound (L, empty_mempool).
Proof.
  split; [apply empty_mempool_inv|]. split; intros k a e; cbn [fst snd empty_mempool mapTx]; by intros ?%lookup_empty_Some.
Qed.

(** C5: a transaction that AcceptToMemoryPool accepts leaves the pool consistent and
    minable on the tip: it was not in the pool and has no unspent output yet; each of its
    inputs, unless it is an import, is unspent on the tip or an output of the pool, each
    taken by no other transaction of the pool; none of its nullifiers is revealed on the
    tip or in the pool; and the pool gains exactly its entry. *)
Theorem AcceptToMemoryPool_sound {Tree V : Type} `{!MerkleTree Tree} `{!CoinsView Tree V} `{!CoinsMemory}
    (tree_of : ShieldedType -> Z -> Tree) `{!CoinsViewReads tree_of V} L m E objs mbi (tip : V) txid tx free absurd dos m' :
  ChecksTransactions (ac_checker E) -> view_inv (tree_of := tree_of) tip -> ledger_of (abs (tree_of := tree_of) tip) ≡ L ->
  outputs_bounded (abs (tree_of := tree_of) tip) -> (IsMint tx = false -> input_positions (vin tx)) -> pool_sound (L, m) ->
  AcceptToMemoryPool E objs mbi tip m txid tx free absurd dos = inr m' ->
  pool_sound (L, m') /\ exists entry, GetTx entry = (txid, tx) /\ mapTx m' = <[txid := (next_addr m, entry)]> (mapTx m) /\
    mapTx m !! txid = None /\ st_coins (abs (tree_of := tree_of) tip) txid = None.
Proof. intros. by eapply accept_sound. Qed.

Lemma AcceptToMemoryPool_sound_witness : demo_accepted = inr demo_mempool /\ pool_sound (demo_ledger, demo_mempool).
Proof.
  split; [exact demo_accepted_ok|].
  exact (proj1 (AcceptToMemoryPool_sound toy_tree_of demo_ledger empty_mempool demo_accept demo_entries demo_hashes toy_db 200 toy_spend true false (-1) demo_mempool
    demo_checks_transactions toy_db_inv (reflexivity _) demo_bounded
    demo_positions (empty_sound _) demo_accepted_ok)).
Defined.

(** C40: a transaction that is in the pool, that spends an input or reveals a nullifier that
    a transaction of the pool does, or that is a coinbase is not accepted. *)
Theorem pool_conflicts_rejected {Tree V : Type} `{!MerkleTree Tree} `{!CoinsView Tree V} `{!CoinsMemory} m E objs mbi (tip : V) txid tx free absurd dos :
  is_Some (mapTx m !! txid) \/ (exists txin, txin ∈ vin tx /\ is_Some (mapNextTx m !! prevout txin)) \/
  (exists t nf, nf ∈ nullifiers_of t tx /\ is_Some (map_nullifiers t m !! nf)) \/ IsCoinBase tx = true ->
  exists r, AcceptToMemoryPool E objs mbi tip m txid tx free absurd dos = inl r.
Proof.
  intros Hc. unfold AcceptToMemoryPool. match goal with |- exists r, (?f (new_cache None)).1 = _ => destruct (f (new_cache None)) as [[r|m'] c'] eqn:Hrun end; [by exists r|].
  exfalso. apply check_bind_inr in Hrun as (branch & c1 & H1 & Hr). apply of_option_inr in H1 as [_ ->].
  apply check_bind_inr in Hr as (u1 & c1 & H1 & _). apply accept_alone_known in H1 as (_ & _ & Hcb & Hnew & Hins & Hnul).
  destruct Hc as [[p Hp]|[(txin & Hin & [ip Hip])|[(t & nf & Hnf & [a Ha])|Hb]]].
  - congruence.
  - by rewrite (Hins _ Hin) in Hip.
  - by rewrite (Hnul _ _ Hnf) in Ha.
  - congruence.
Qed.

Lemma pool_conflicts_rejected_witness : mapNextTx demo_mempool !! mkCOutPoint 77 0 = Some (mkCInPoint 0 0) /\
  exists r, AcceptToMemoryPool demo_accept demo_entries demo_hashes toy_db demo_mempool 201 toy_spend true false (-1) = inl r.
Proof.
  assert (H : mapNextTx demo_mempool !! mkCOutPoint 77 0 = Some (mkCInPoint 0 0)) by (vm_compute; reflexivity). split; [exact H|].
  apply (pool_conflicts_rejected demo_mempool demo_accept demo_entries demo_hashes toy_db 201 toy_spend true false (-1)).
  right. left. exists (mkCTxIn (mkCOutPoint 77 0) [] 7). split; [by apply list_elem_of_singleton|]. exact (ex_intro _ _ H).
Defined.

(** C4: from the empty pool, through accepted transactions, evictions with descendants, and
    the blocks that are connected, the pool is consistent and stays minable on the current
    ledger: every input is unspent there or an output of the pool, and no nullifier is revealed. *)
Theorem mempool_stays_backed {Tree V : Type} `{!MerkleTree Tree} `{!CoinsView Tree V} `{!CoinsMemory}
    (tree_of : ShieldedType -> Z -> Tree) `{!CoinsViewReads tree_of V} L L' m :
  rtc (node_step tree_of (V := V)) (L, empty_mempool) (L', m) -> pool_inv m /\ pool_txs_ok m /\ backed L' m.
Proof.
  intros Hr. enough (pool_sound (L', m)) as (? & ? & ?) by done.
  assert (H0 : pool_sound (L, empty_mempool)) by apply empty_sound.
  revert Hr H0. generalize (L, empty_mempool), (L', m). intros x y Hr Hx. induction Hr as [|x y z Hxy _ IH]; [done|]. apply IH. by eapply node_step_sound.
Qed.

Definition demo_block : list hashed_tx := [(300, demo_coinbase 900001)].

Lemma mempool_stays_backed_witness : exists m', removeForBlock demo_block demo_mempool [] = Some (m', []) /\
  rtc (node_step toy_tree_of (V := CCoinsViewDB Z)) (demo_ledger, empty_mempool) (ledger_after demo_ledger demo_block, m') /\
  mapTx m' !! 200 = mapTx demo_mempool !! 200 /\ backed (ledger_after demo_ledger demo_block) m'.
Proof.
  destruct (removeForBlock demo_block demo_mempool []) as [[m' conf]|] eqn:E; [|vm_compute in E; discriminate].
  assert (Hc : conf = []) by (vm_compute in E; injection E as _ <-; reflexivity). subst conf. exists m'. split; [reflexivity|].
  assert (H : rtc (node_step toy_tree_of (V := CCoinsViewDB Z)) (demo_ledger, empty_mempool) (ledger_after demo_ledger demo_block, m')).
  { eapply rtc_l.
    - exact (ns_accept toy_tree_of demo_ledger empty_mempool demo_accept demo_entries demo_hashes toy_db 200 toy_spend true false (-1) demo_mempool
        demo_checks_transactions toy_db_inv (reflexivity _) demo_bounded
        demo_positions demo_accepted_ok).
    - apply rtc_once. refine (ns_block toy_tree_of demo_ledger demo_mempool demo_connect 900001 (fun _ _ => True) demo_block [] _ m' [] _ _ _ E).
      + eapply lt_coinbase; [vm_compute; reflexivity|reflexivity|]. by apply lt_nil.
      + apply list.NoDup_singleton.
      + constructor; [|constructor]. split.
        * intros o _ Ho. cbn in Ho. unfold demo_ledger, ledger_of. cbn [unspent]. rewrite Ho. reflexivity.
        * intros a e He. vm_compute in He. discriminate. }
  split; [exact H|]. split; [vm_compute in E; injection E as <-; vm_compute; reflexivity|].
  exact (proj2 (proj2 (mempool_stays_backed toy_tree_of demo_ledger _ m' H))).
Defined.

(** C27: connecting a block of new transactions always finishes, takes its transactions
    out of the pool, adds nothing, and leaves what is minable on the ledger after it. *)
Theorem block_clears_mempool L m C h P vtx accounts L' : pool_sound (L, m) ->
  ledger_txs C h P L vtx accounts L' -> base.NoDup (map fst vtx) -> Forall (fresh_tx L m) vtx ->
  exists m' conf, removeForBlock vtx m [] = Some (m', conf) /\ pool_sound (L', m') /\ shrunk m m' /\
    forall tx, tx ∈ vtx -> mapTx m' !! tx.1 = None.
Proof.
  intros (Hi & Hp & Hb) Hl Hnd Hf. destruct (block_backed vtx L m [] Hi Hp Hb Hnd Hf) as (m' & c' & Hr & Hi' & Hp' & Hs' & Hb' & Hg').
  exists m', c'. split_and!; [done| |done|done]. split; [done|]. split; [done|]. intros k a e He. eapply entry_backed_equiv; [|by apply (Hb' k a e)].
  by eapply ledger_txs_after.
Qed.

Lemma block_clears_mempool_witness : exists m' conf, removeForBlock demo_block demo_mempool [] = Some (m', conf) /\
  pool_sound (ledger_after demo_ledger demo_block, m') /\ mapTx m' !! 300 = None.
Proof.
  assert (Hs : pool_sound (demo_ledger, demo_mempool)).
  { apply (accept_sound toy_tree_of demo_ledger empty_mempool demo_accept demo_entries demo_hashes toy_db 200 toy_spend true false (-1) demo_mempool
      demo_checks_transactions toy_db_inv (reflexivity _) demo_bounded demo_positions); [apply empty_sound|exact demo_accepted_ok]. }
  destruct (block_clears_mempool demo_ledger demo_mempool demo_connect 900001 (fun _ _ => True) demo_block [] (ledger_after demo_ledger demo_block) Hs)
    as (m' & conf & H1 & H2 & _ & H3).
  - eapply lt_coinbase; [vm_compute; reflexivity|reflexivity|]. by apply lt_nil.
  - apply list.NoDup_singleton.
  - constructor; [|constructor]. split.
    + intros o _ Ho. cbn in Ho. unfold demo_ledger, ledger_of. cbn [unspent]. rewrite Ho. reflexivity.
    + intros a e He. vm_compute in He. discriminate.
  - exists m', conf. split; [exact H1|]. split; [exact H2|]. apply (H3 (300, demo_coinbase 900001)). by apply list_elem_of_singleton.
Defined.
