(* ===== verification/ActivateChain.v ===== *)
(** * Activating the best chain (src/src/main.cpp)

    DisconnectTip, ConnectTip, InvalidateBlock, ActivateBestChainStep and
    ActivateBestChain over the block tree, the coins of the tip, the memory pool and
    the notarised checkpoints.  The block files, the clock and the disk that decide
    when state is written, and the request to shut down are functions of a record.
    Warnings, timers, progress counters, the block database with its set of dirty
    entries, the notarisation database, the check of the pool against the coins, the
    snapshots and the detection of the Sapling height of asset chains are left out.
    An action returns what its CValidationState says when it fails; what a failed
    call of the rewind leaves in that state is not carried into the steps after it. *)
From Stdlib Require Ascii String.
From S2P Require Import Prelude Serialize Arith256 Transaction Compressor Coins CoinsView CoinsCache UpdateCoins Ledger Interest Script SigHash CheckTx BlockIndex TxInputs Notary Upgrades Checkpoints BlockChecks ConnectTxs Mempool MempoolAccept BlockTree ConnectBlock BlockEffect.
From stdpp Require Import strings.
Import String.StringSyntax.
#[local] Open Scope string_scope.
#[local] Open Scope Z_scope.

(** ** The node *)

(** Each file that includes main.h has a copy of its own; this is main.cpp's. *)
Definition MAX_REORG_LENGTH : Z := 100 - 1.

(** The modes ActivateBestChain uses; what the clock, the cache's size and the disk make
    of a call: nothing, an error, before or after the entries [written] were, writing
    these entries, or the coins as well. *)
Inductive flush_mode := FLUSH_STATE_IF_NEEDED | FLUSH_STATE_PERIODIC.
Inductive flush_choice := flush_nothing | flush_error (written : list Z) | flush_index (written : list Z) | flush_all (written : list Z).

(** The fields of an entry that the block tree does not read. *)
Record block_extra := mkExtra { x_hashSproutAnchor : Z; x_hashFinalSproutRoot : Z; x_nCachedBranchId : option Z; x_nNotaryPay : Z }.
Definition no_extra : block_extra := mkExtra 0 0 None 0.

(** What the wallets are told. *)
Inductive signal (Tree : Type) :=
| ChainTip (pindex : Z) (block : CBlock) (sproutTree saplingTree : Tree) (added : bool)
| SyncWithWallets (tx : hashed_tx) (in_block : bool)
| EraseFromWallet (txid : Z).
Arguments ChainTip {Tree}.
Arguments SyncWithWallets {Tree}.
Arguments EraseFromWallet {Tree}.

(** The globals: the block tree with the active chain, pcoinsTip, the undo files, the
    pool, the notaries, the notarised checkpoints, and the signals sent so far. *)
Record node (Tree V : Type) := mkNode {
  nd_tree : tree; nd_extra : gmap Z block_extra; nd_tip : CCoinsViewCache Tree V; nd_undo : gmap (Z * Z) (CBlockUndo * Z);
  nd_pool : CTxMemPool; nd_notary : notary_state; nd_points : squishy_state; nd_REWIND : Z; nd_signals : list (signal Tree)
}.
Arguments mkNode {Tree V}.
Arguments nd_tree {Tree V}.
Arguments nd_extra {Tree V}.
Arguments nd_tip {Tree V}.
Arguments nd_undo {Tree V}.
Arguments nd_pool {Tree V}.
Arguments nd_notary {Tree V}.
Arguments nd_points {Tree V}.
Arguments nd_REWIND {Tree V}.
Arguments nd_signals {Tree V}.

(** [av_read]: a block at a height and a position of the block files. *)
Record activate_env (Tree V : Type) := mkActivateEnv {
  av_block : block_env; av_accept : accept_env; av_read : Z -> Z * Z -> option CBlock;
  (** the pool's setting that turns its assertions on *)
  av_nCheckFrequency : Z;
  av_isPoS : CBlock -> Z -> bool; av_newStakerActive : Z -> bool;
  av_flush : flush_mode -> node Tree V -> flush_choice; av_ShutdownRequested : node Tree V -> bool
}.
Arguments mkActivateEnv {Tree V}.
Arguments av_block {Tree V}.
Arguments av_accept {Tree V}.
Arguments av_read {Tree V}.
Arguments av_nCheckFrequency {Tree V}.
Arguments av_isPoS {Tree V}.
Arguments av_newStakerActive {Tree V}.
Arguments av_flush {Tree V}.
Arguments av_ShutdownRequested {Tree V}.

(** Statements on one field. *)
Section Setters.
Context {Tree V : Type}.
Abbreviation node := (node Tree V).

Definition with_tree (t : tree) (s : node) : node :=
  mkNode t (nd_extra s) (nd_tip s) (nd_undo s) (nd_pool s) (nd_notary s) (nd_points s) (nd_REWIND s) (nd_signals s).
Definition with_extra (x : gmap Z block_extra) (s : node) : node :=
  mkNode (nd_tree s) x (nd_tip s) (nd_undo s) (nd_pool s) (nd_notary s) (nd_points s) (nd_REWIND s) (nd_signals s).
Definition with_tip (c : CCoinsViewCache Tree V) (s : node) : node :=
  mkNode (nd_tree s) (nd_extra s) c (nd_undo s) (nd_pool s) (nd_notary s) (nd_points s) (nd_REWIND s) (nd_signals s).
Definition with_undo (f : gmap (Z * Z) (CBlockUndo * Z)) (s : node) : node :=
  mkNode (nd_tree s) (nd_extra s) (nd_tip s) f (nd_pool s) (nd_notary s) (nd_points s) (nd_REWIND s) (nd_signals s).
Definition with_mempool (m : CTxMemPool) (s : node) : node :=
  mkNode (nd_tree s) (nd_extra s) (nd_tip s) (nd_undo s) m (nd_notary s) (nd_points s) (nd_REWIND s) (nd_signals s).
Definition with_notary (st : notary_state) (s : node) : node :=
  mkNode (nd_tree s) (nd_extra s) (nd_tip s) (nd_undo s) (nd_pool s) st (nd_points s) (nd_REWIND s) (nd_signals s).
Definition with_points (sp : squishy_state) (s : node) : node :=
  mkNode (nd_tree s) (nd_extra s) (nd_tip s) (nd_undo s) (nd_pool s) (nd_notary s) sp (nd_REWIND s) (nd_signals s).
Definition with_rewind (r : Z) (s : node) : node :=
  mkNode (nd_tree s) (nd_extra s) (nd_tip s) (nd_undo s) (nd_pool s) (nd_notary s) (nd_points s) r (nd_signals s).
Definition with_signals (l : list (signal Tree)) (s : node) : node :=
  mkNode (nd_tree s) (nd_extra s) (nd_tip s) (nd_undo s) (nd_pool s) (nd_notary s) (nd_points s) (nd_REWIND s) l.

(** An action returns [inr] for true, [inl] for false with what its state says, or an
    assertion that fails; the globals keep what was done before. *)
Definition act (A : Type) : Type := node -> verdict A * node.
#[global] Instance act_ret : MRet act := fun A a s => (inr a, s).
#[global] Instance act_bind : MBind act := fun A B f m s =>
  match m s with
  | (inl e, s') => (inl e, s')
  | (inr a, s') => f a s'
  end.

Definition get {A} (f : node -> A) : act A := fun s => (inr (f s), s).
Definition put (f : node -> node) : act unit := fun s => (inr tt, f s).
Definition fails {A} (r : reject) : act A := fun s => (inl r, s).
Definition fail_if (b : bool) (r : reject) : act unit := if b then fails r else mret tt.
Definition asserts {A} (o : option A) : act A := match o with Some a => mret a | None => fails Thrown end.
(** A call whose failure is not looked at further: whether it returned true. *)
Definition attempt {A} (m : act A) : act (reject + A) := fun s => let '(r, s') := m s in (inr r, s').

Definition on_tip `{!CoinsView Tree V} {A} (m : @check Tree V A) : act A := fun s =>
  let '(r, c) := m (nd_tip s) in (r, with_tip c s).
Definition on_pool (f : CTxMemPool -> option CTxMemPool) : act unit := fun s =>
  match f (nd_pool s) with Some m => (inr tt, with_mempool m s) | None => (inl Thrown, s) end.
Definition on_tree (f : tree -> option tree) : act unit := fun s =>
  match f (nd_tree s) with Some t => (inr tt, with_tree t s) | None => (inl Thrown, s) end.
Definition emit (x : signal Tree) : act unit := put (fun s => with_signals (nd_signals s ++ [x]) s).
End Setters.

Section Activate.
Context {Tree V : Type} `{!MerkleTree Tree} `{!CoinsView Tree V} `{!CoinsMemory}.
Abbreviation node := (node Tree V).
Abbreviation act := (@act Tree V).
Variable W : activate_env Tree V.
Let N := av_block W.
Let C := en_connect N.
Let E := ce_chain C.

(** ** Entries and the chain *)

Definition get_tip : act (option Z) := get (fun s => Tip (chainActive (nd_tree s))).
Definition the_entry (p : Z) : act CBlockIndex := o ← get (fun s => objs (nd_tree s)); asserts (o !! p).
Definition update_entry (p : Z) (f : CBlockIndex -> CBlockIndex) : act unit :=
  b ← the_entry p; put (fun s => with_tree (set_objs (<[p := f b]> (objs (nd_tree s))) (nd_tree s)) s).
Definition update_extra (p : Z) (f : block_extra -> block_extra) : act unit :=
  put (fun s => with_extra (<[p := f (default no_extra (nd_extra s !! p))]> (nd_extra s)) s).
Definition erase_candidate (p : Z) (t : tree) : tree :=
  mkTree (objs t) (mapBlockIndex t) (pindexBestHeader t) (setBlockIndexCandidates t ∖ {[p]}) (mapBlocksUnlinked t)
    (nBlockSequenceId t) (pindexBestInvalid t) (chainActive t) (setDirtyBlockIndex t).

(** The message at the end follows the new tip: there must be one. *)
Definition UpdateTip (pindexNew : option Z) : act unit :=
  _ ← on_tree (fun t => v ← SetTip (objs t) pindexNew (chainActive t); Some (set_chain v t));
  _ ← on_pool (fun m => Some (mkMemPool (mapTx m) (mapNextTx m) (mapSproutNullifiers m) (mapSaplingNullifiers m) (mapRecentlyAddedTx m)
    (nRecentlyAddedSequence m) (u32 (nTransactionsUpdated m + 1)) (totalTxSize m) (cachedInnerUsage m) (mapDeltas m) (live_txs m) (next_addr m)));
  _ ← asserts pindexNew;
  mret tt.

Definition ReadBlockFromDisk (b : CBlockIndex) : option CBlock :=
  block ← av_read W (nHeight b) (GetBlockPos b);
  if en_GetHash N (hdr block) =? phashBlock b then Some block else None.

(** The height of the last notarisation whose block is known, and its hash. *)
Definition squishy_notarized_height : act (Z * Z) := fun s =>
  let blockheight h := match mapBlockIndex (nd_tree s) !! h with Some (Some p) => nHeight <$> objs (nd_tree s) !! p | _ => None end in
  let '(height, known, sp) := NotarizedHeight blockheight (nd_points s) in
  (inr (height, match known with Some (_, hash, _) => hash | None => 0 end), with_points sp s).

(** Writing the block index trims the solutions of its entries. *)
Definition trim_entries (l : list Z) (t : tree) : tree :=
  set_objs (foldr (fun p o => match o !! p with Some b => <[p := TrimSolution b]> o | None => o end) (objs t) l) t.

Definition FlushStateToDisk (mode : flush_mode) : act unit :=
  choice ← get (av_flush W mode);
  match choice with
  | flush_nothing => mret tt
  | flush_error written => _ ← put (fun s => with_tree (trim_entries written (nd_tree s)) s); fails Failed
  | flush_index written => put (fun s => with_tree (trim_entries written (nd_tree s)) s)
  | flush_all written =>
    _ ← put (fun s => with_tree (trim_entries written (nd_tree s)) s);
    c ← get (fun s => Flush (nd_tip s));
    match c with Some c => put (with_tip c) | None => fails Failed end
  end.

(** The trees of the best anchors, which are asserted to be there. *)
Definition tip_trees : act (Tree * Tree) :=
  root ← on_tip (c_GetBestAnchor SPROUT);
  sprout ← on_tip (c_GetAnchorAt SPROUT root);
  sprout ← asserts sprout;
  root ← on_tip (c_GetBestAnchor SAPLING);
  sapling ← on_tip (c_GetAnchorAt SAPLING root);
  sapling ← asserts sapling;
  mret (sprout, sapling).

(** *** The pool after a change of the tip *)

(** The time and the median time past of the tip. *)
Definition tip_times (t : tree) : option (Z * Z) :=
  p ← Tip (chainActive t); b ← objs t !! p; mtp ← GetMedianTimePast (objs t) p; Some (bi_nTime b, mtp).
Definition tip_height_mtp (t : tree) : option (Z * Z) :=
  p ← Tip (chainActive t); b ← objs t !! p; mtp ← GetMedianTimePast (objs t) p; Some (nHeight b, mtp).

(** AcceptToMemoryPool's environment at the tip, with the global pool. *)
Definition accept_at (t : tree) (m : CTxMemPool) : accept_env :=
  let A := av_accept W in
  mkAcceptEnv (ac_connect A) (ac_checker A) (ac_REWIND A) (ac_RequireStandard A) (ac_fIsBareMultisigStd A) (ac_minRelayTxFee A)
    (ac_vSolutionsFixActive A) (ac_supported_condition A) (ac_Hash160 A) (ac_inputlimit A) (ac_relaypriority A)
    (Height (chainActive t)) (tip_times t) (ac_GetTime A) (ac_size A) (ac_usage A) (ac_priority_delta A) (ac_AllowFree A) (ac_free_limit A) m.

(** [CheckFinalTx] with STANDARD_LOCKTIME_VERIFY_FLAGS: by the median time past of the tip. *)
Definition CheckFinalTx (t : tree) (tx : CMutableTransaction) : bool :=
  IsFinalTx (isKMD_env C) (Height (chainActive t)) tx (i32 (Height (chainActive t) + 1))
    (match tip_times t with Some (_, mtp) => mtp | None => 0 end).

(** [mempool.removeForReorg] and [removeWithoutBranchId] as they are called together. *)
Definition pool_for_reorg : act unit :=
  p ← get_tip; p ← asserts p; b ← the_entry p;
  t ← get nd_tree; c ← get nd_tip;
  on_pool (removeForReorg (CheckFinalTx t) (fun k => (AccessCoins c k).1) (ce_CoinbaseMaturity C) (ce_TIMELOCKGTE C)
    (ce_UNLOCKFROM C) (ce_UNLOCKTO C) (ce_block_prg C) (av_nCheckFrequency W) (u32 (nHeight b + 1))).
Definition pool_for_branch : act unit :=
  p ← get_tip; p ← asserts p; b ← the_entry p;
  branch ← asserts (CurrentEpochBranchId (vUpgrades E) (en_SUPERLITE N) (i32 (nHeight b + 1)));
  on_pool (removeWithoutBranchId branch).

(** ** A block on a view over pcoinsTip *)

Abbreviation view := (CCoinsViewCache Tree (CCoinsViewCache Tree V)).

Definition block_entry_of (p : Z) : act block_entry :=
  b ← the_entry p;
  x ← get (fun s => default no_extra (nd_extra s !! p));
  mret (ConnectBlock.mkEntry b (x_hashSproutAnchor x) (x_hashFinalSproutRoot x) (x_nCachedBranchId x) (x_nNotaryPay x)).

(** The state left behind: the entry, what was read into pcoinsTip, and the undo files. *)
Definition leave (p : Z) (st : @connect_state Tree (CCoinsViewCache Tree V)) : act unit :=
  let e := cs_entry st in
  _ ← update_entry p (fun _ => be_index e);
  _ ← update_extra p (fun _ => mkExtra (hashSproutAnchor e) (hashFinalSproutRoot e) (nCachedBranchId e) (nNotaryPay e));
  _ ← put (with_tip (base (cs_view st)));
  put (with_undo (cs_undo_file st)).

(** [CCoinsViewCache view(pcoinsTip)], then ConnectBlock: the view, if it succeeds. *)
Definition connect_on_tip (p : Z) (block : CBlock) : act view :=
  e ← block_entry_of p;
  s ← get id;
  let prev := match pprev (be_index e) with Some q => default no_extra (nd_extra s !! q) | None => no_extra end in
  let '(r, notary, st) := ConnectBlock N (objs (nd_tree s)) (mapBlockIndex (nd_tree s)) (Height (chainActive (nd_tree s)))
    (x_nCachedBranchId prev) (x_nNotaryPay prev) p block false true (nd_notary s) (mkConnectState e (new_cache (nd_tip s)) (nd_undo s)) in
  _ ← leave p st;
  _ ← put (with_notary notary);
  match r with inl r => fails r | inr _ => mret (cs_view st) end.

(** The same with DisconnectBlock, which without [pfClean] fails unless the undo data fit. *)
Definition disconnect_on_tip (p : Z) (block : CBlock) : act view :=
  e ← block_entry_of p;
  s ← get id;
  let prev := pprev (be_index e) ≫= fun q => objs (nd_tree s) !! q in
  let '(r, st) := DisconnectBlock N block prev (mkConnectState e (new_cache (nd_tip s)) (nd_undo s)) in
  _ ← leave p st;
  match r with
  | inl r => fails r
  | inr clean => _ ← fail_if (negb clean) Failed; mret (cs_view st)
  end.

(** [assert(view.Flush())] *)
Definition flush_view (c : view) : act unit := c ← asserts (Flush c); put (with_tip (base c)).

(** ** DisconnectTip *)

(** The staking transaction at the end of a block of an old staking chain. *)
Definition staking_last (block : CBlock) (b : CBlockIndex) (i : nat) : bool :=
  (i =? length (vtx block) - 1)%nat && negb (av_newStakerActive W (bi_nTime b)) && av_isPoS W block (nHeight b).

(** The transactions of the block go back to the pool, or what spends them leaves it. *)
Fixpoint resurrect (block : CBlock) (b : CBlockIndex) (i : nat) (l : list hashed_tx) : act unit :=
  match l with
  | [] => mret tt
  | (txid, tx) :: l =>
    _ ← (fun s =>
      let accepted :=
        if IsCoinBase tx || staking_last block b i then inl Failed
        else AcceptToMemoryPool (accept_at (nd_tree s) (nd_pool s)) (objs (nd_tree s)) (mapBlockIndex (nd_tree s)) (nd_tip s) (nd_pool s) txid tx false false (-1) in
      match accepted with
      | inr m => (inr tt, with_mempool m s)
      | inl Thrown => (inl Thrown, s)
      | inl _ => on_pool (fun m => fst <$> Mempool.remove (txid, tx) [] true m) s
      end);
    resurrect block b (S i) l
  end.

Fixpoint sync_disconnected (block : CBlock) (b : CBlockIndex) (i : nat) (l : list hashed_tx) : act unit :=
  match l with
  | [] => mret tt
  | tx :: l =>
    _ ← (if staking_last block b i then emit (EraseFromWallet tx.1) else emit (SyncWithWallets tx false));
    sync_disconnected block b (S i) l
  end.

Definition DisconnectTip (fBare : bool) : act unit :=
  pindexDelete ← get_tip;
  p ← asserts pindexDelete;
  b ← the_entry p;
  block ← (match ReadBlockFromDisk b with Some block => mret block | None => fails Failed end);
  notarized ← squishy_notarized_height;
  _ ← fail_if (en_GetHash N (hdr block) =? notarized.2) (DoS 100 "past-notarized-height");
  sproutBefore ← on_tip (c_GetBestAnchor SPROUT);
  saplingBefore ← on_tip (c_GetBestAnchor SAPLING);
  c ← disconnect_on_tip p block;
  _ ← flush_view c;
  _ ← update_extra p (fun x => mkExtra (x_hashSproutAnchor x) (x_hashFinalSproutRoot x) (x_nCachedBranchId x) 0);
  sproutAfter ← on_tip (c_GetBestAnchor SPROUT);
  saplingAfter ← on_tip (c_GetBestAnchor SAPLING);
  _ ← FlushStateToDisk FLUSH_STATE_IF_NEEDED;
  _ ← (if fBare then mret tt
       else
         _ ← resurrect block b 0 (vtx block);
         _ ← (if sproutBefore =? sproutAfter then mret tt else on_pool (removeWithAnchor sproutBefore SPROUT));
         if saplingBefore =? saplingAfter then mret tt else on_pool (removeWithAnchor saplingBefore SAPLING));
  _ ← UpdateTip (pprev b);
  trees ← tip_trees;
  _ ← sync_disconnected block b 0 (vtx block);
  emit (ChainTip p block trees.1 trees.2 false).

(** ** ConnectTip *)

Definition IsInvalid (r : reject) : bool := match r with DoS _ _ | Corrupted _ _ | Invalid _ => true | _ => false end.
Definition CorruptionPossible (r : reject) : bool := match r with Corrupted _ _ => true | _ => false end.

Definition InvalidChainFound (pindexNew : Z) : act unit :=
  _ ← on_tree (fun t => note_invalid t pindexNew);
  tip ← get_tip;
  _ ← asserts tip;
  mret tt.

(** The peer that sent the block is punished elsewhere. *)
Definition InvalidBlockFound (pindex : Z) (r : reject) : act unit :=
  if CorruptionPossible r then mret tt
  else
    _ ← update_entry pindex (fun b => set_nStatus (Z.lor (nStatus b) BLOCK_FAILED_VALID) b);
    _ ← on_tree (fun t => Some (erase_candidate pindex t));
    InvalidChainFound pindex.

Fixpoint sync_all (in_block : bool) (l : list hashed_tx) : act unit :=
  match l with
  | [] => mret tt
  | tx :: l => _ ← emit (SyncWithWallets tx in_block); sync_all in_block l
  end.

(** The pool after a block: what it holds of the block or against it, and what expired. *)
Definition pool_for_block (block : CBlock) (height : Z) : act (list hashed_tx) :=
  m ← get nd_pool;
  r ← asserts (removeForBlock (vtx block) m []);
  _ ← put (with_mempool r.1);
  t ← get nd_tree;
  rewind ← get nd_REWIND;
  _ ← on_pool (removeExpired rewind (isKMD_env C) (tip_height_mtp t) height);
  mret r.2.

Definition ConnectTip (p : Z) (pblock : option CBlock) : act unit :=
  b ← the_entry p;
  tip ← get_tip;
  _ ← fail_if (negb (bool_decide (pprev b = tip))) Thrown;
  block ← (match pblock with
           | Some block => mret block
           | None => match ReadBlockFromDisk b with Some block => mret block | None => fails Failed end
           end);
  trees ← (if en_SUPERLITE N then mret (tree_empty, tree_empty) else tip_trees);
  r ← attempt (connect_on_tip p block);
  match r with
  | inl Thrown => fails Thrown
  | inl r => _ ← (if IsInvalid r then InvalidBlockFound p r else mret tt); fails r
  | inr c =>
    _ ← (if en_SUPERLITE N then mret tt else _ ← flush_view c; FlushStateToDisk FLUSH_STATE_IF_NEEDED);
    txConflicted ← pool_for_block block (nHeight b);
    _ ← UpdateTip (Some p);
    _ ← (if en_SUPERLITE N then mret tt else _ ← sync_all false txConflicted; sync_all true (vtx block));
    emit (ChainTip p block trees.1 trees.2 true)
  end.

(** ** InvalidateBlock *)

(** The entries of the index that are no worse than the tip are candidates again. *)
Definition linked_entry (o : store) (p : Z) : bool :=
  match o !! p with Some b => IsValid BLOCK_VALID_TRANSACTIONS b && negb (nChainTx b =? 0) | None => false end.
Definition readd_candidates (t : tree) : option tree :=
  let known := filter (fun p => linked_entry (objs t) p = true) (omap snd (map_to_list (mapBlockIndex t))) in
  match Tip (chainActive t) with
  | None => if decide (known = []) then Some t else None
  | Some tip =>
    Some (mkTree (objs t) (mapBlockIndex t) (pindexBestHeader t)
            (list_to_set (filter (fun p => work_comp (objs t) p tip = false) known) ∪ setBlockIndexCandidates t)
            (mapBlocksUnlinked t) (nBlockSequenceId t) (pindexBestInvalid t) (chainActive t) (setDirtyBlockIndex t))
  end.

(** Disconnects until the chain does not contain the block. *)
Fixpoint invalidate_loop (fuel : nat) (pindex : Z) : act unit :=
  t ← get nd_tree;
  contained ← asserts (Contains (objs t) (chainActive t) pindex);
  if contained : bool then
    match fuel with
    | O => fails Thrown
    | S fuel =>
      tip ← get_tip;
      w ← asserts tip;
      _ ← update_entry w (fun b => set_nStatus (Z.lor (nStatus b) BLOCK_FAILED_CHILD) b);
      _ ← on_tree (fun t => Some (erase_candidate w t));
      r ← attempt (DisconnectTip false);
      match r with
      | inl Thrown => fails Thrown
      | inl r => _ ← pool_for_reorg; _ ← pool_for_branch; fails r
      | inr _ => invalidate_loop fuel pindex
      end
    end
  else mret tt.

Definition InvalidateBlock (pindex : Z) : act unit :=
  _ ← update_entry pindex (fun b => set_nStatus (Z.lor (nStatus b) BLOCK_FAILED_VALID) b);
  _ ← on_tree (fun t => Some (erase_candidate pindex t));
  n ← get (fun s => length (chainActive (nd_tree s)));
  _ ← invalidate_loop n pindex;
  _ ← on_tree readd_candidates;
  _ ← InvalidChainFound pindex;
  _ ← pool_for_reorg;
  pool_for_branch.

(** ** ActivateBestChainStep *)

(** The call's result is not looked at; an assertion in it still stops. *)
Definition ignore {A} (m : act A) : act unit :=
  r ← attempt m; match r with inl Thrown => fails Thrown | _ => mret tt end.

(** The height of an entry, -1 for NULL. *)
Definition height_of (p : option Z) : act Z := match p with Some p => b ← the_entry p; mret (nHeight b) | None => mret (-1) end.

Fixpoint disconnect_to (fuel : nat) (pindexFork : option Z) (fBlocksDisconnected : bool) : act bool :=
  tip ← get_tip;
  if bool_decide (tip = None \/ tip = pindexFork) then mret fBlocksDisconnected
  else
    match fuel with
    | O => fails Thrown
    | S fuel => _ ← DisconnectTip false; disconnect_to fuel pindexFork true
    end.

(** [-rewind]: each round takes the tip out twice. *)
Fixpoint rewind_loop (fuel : nat) (fBlocksDisconnected : bool) : act bool :=
  rewind ← get nd_REWIND;
  tip ← get_tip;
  h ← height_of tip;
  match tip with
  | Some p =>
    if (rewind >? 0) && (h >? rewind) then
      match fuel with
      | O => fails Thrown
      | S fuel =>
        _ ← ignore (InvalidateBlock p);
        r ← attempt (DisconnectTip false);
        match r with
        | inl Thrown => fails Thrown
        | inl _ => mret true
        | inr _ => rewind_loop fuel true
        end
      end
    else mret fBlocksDisconnected
  | None => mret fBlocksDisconnected
  end.

Definition rewind_all (fuel : nat) (fBlocksDisconnected : bool) : act bool :=
  rewind ← get nd_REWIND;
  if rewind =? 0 then mret fBlocksDisconnected
  else
    tip ← get_tip;
    _ ← asserts tip;
    r ← rewind_loop fuel fBlocksDisconnected;
    _ ← put (with_rewind 0);
    mret r.

(** The entries from [pindexIter] down to height [nHeight], the lowest first. *)
Fixpoint to_connect (fuel : nat) (o : store) (pindexIter : option Z) (nHeight : Z) (acc : list Z) : option (list Z) :=
  match pindexIter with
  | None => Some acc
  | Some p =>
    b ← o !! p;
    if BlockIndex.nHeight b =? nHeight then Some acc
    else match fuel with O => None | S fuel => to_connect fuel o (pprev b) nHeight (p :: acc) end
  end.

Inductive progress := connected_all | position_better | invalid_found.

(** Whether the tip has more work than the old one. *)
Definition tip_better (pindexOldTip : option Z) : act bool :=
  match pindexOldTip with
  | None => mret true
  | Some p =>
    tip ← get_tip; q ← asserts tip; b ← the_entry q; o ← the_entry p;
    mret (CompareTo (nChainWork b) (nChainWork o) >? 0)
  end.

Fixpoint connect_list (pindexMostWork : Z) (pindexOldTip : option Z) (pblock : option CBlock) (lowest : Z) (l : list Z) : act progress :=
  match l with
  | [] => mret connected_all
  | p :: l =>
    r ← attempt (ConnectTip p (if p =? pindexMostWork then pblock else None));
    match r with
    | inl r =>
      if IsInvalid r then
        _ ← (if CorruptionPossible r then mret tt else InvalidChainFound lowest);
        mret invalid_found
      else fails r
    | inr _ =>
      _ ← on_tree PruneBlockIndexCandidates;
      better ← tip_better pindexOldTip;
      if better : bool then mret position_better else connect_list pindexMostWork pindexOldTip pblock lowest l
    end
  end.

(** 32 blocks at a time: whether an invalid block was met. *)
Fixpoint connect_rounds (fuel : nat) (pindexMostWork : Z) (pindexOldTip : option Z) (pblock : option CBlock) (nHeight : Z) : act bool :=
  most ← the_entry pindexMostWork;
  if nHeight =? BlockIndex.nHeight most then mret false
  else
    match fuel with
    | O => fails Thrown
    | S fuel =>
      let nTargetHeight := Z.min (nHeight + 32) (BlockIndex.nHeight most) in
      t ← get nd_tree;
      iter ← asserts (GetAncestor (objs t) pindexMostWork nTargetHeight);
      l ← asserts (to_connect (S (Z.to_nat nTargetHeight)) (objs t) iter nHeight []);
      r ← connect_list pindexMostWork pindexOldTip pblock (hd pindexMostWork l) l;
      match r with
      | connected_all => connect_rounds fuel pindexMostWork pindexOldTip pblock nTargetHeight
      | position_better => mret false
      | invalid_found => mret true
      end
    end.

Definition ActivateBestChainStep (fSkipdpow : bool) (pindexMostWork : Z) (pblock : option CBlock) : act unit :=
  t ← get nd_tree;
  pindexOldTip ← get_tip;
  pindexFork ← asserts (FindFork (objs t) (chainActive t) (Some pindexMostWork));
  notarized ← squishy_notarized_height;
  old ← height_of pindexOldTip;
  fork ← height_of pindexFork;
  if negb fSkipdpow && bool_decide (is_Some pindexFork) && (old >? notarized.1) && (fork <? notarized.1) then
    _ ← ignore (InvalidateBlock pindexMostWork);
    fails (DoS 100 "past-notarized-height")
  else if match pindexOldTip with Some _ => old - fork | None => 0 end >? MAX_REORG_LENGTH then
    fails (if bool_decide (is_Some pindexFork) then Failed else Thrown)
  else
    fBlocksDisconnected ← disconnect_to (length (chainActive t)) pindexFork false;
    n ← get (fun s => length (chainActive (nd_tree s)));
    fBlocksDisconnected ← rewind_all n fBlocksDisconnected;
    most ← the_entry pindexMostWork;
    _ ← connect_rounds (S (Z.to_nat (nHeight most))) pindexMostWork pindexOldTip pblock fork;
    _ ← (if fBlocksDisconnected : bool then pool_for_reorg else mret tt);
    pool_for_branch.

(** ** ActivateBestChain *)

(** [None] is a loop that has not ended within the fuel. *)
Fixpoint ActivateBestChain (fuel : nat) (fSkipdpow : bool) (pblock : option CBlock) (s : node) : option (verdict unit * node) :=
  match fuel with
  | O => None
  | S fuel =>
    if av_ShutdownRequested W s then Some (FlushStateToDisk FLUSH_STATE_PERIODIC s)
    else
      match FindMostWorkChain (nd_tree s) with
      | None => Some (inl Thrown, s)
      | Some (t, None) => Some (inr tt, with_tree t s)
      | Some (t, Some pindexMostWork) =>
        let s := with_tree t s in
        if bool_decide (Tip (chainActive t) = Some pindexMostWork) then Some (inr tt, s)
        else
          match objs t !! pindexMostWork with
          | None => Some (inl Thrown, s)
          | Some most =>
            match ActivateBestChainStep fSkipdpow pindexMostWork
                    (block ← pblock; if en_GetHash N (hdr block) =? phashBlock most then Some block else None) s with
            | (inl r, s) => Some (inl r, s)
            | (inr _, s) =>
              match Tip (chainActive (nd_tree s)) with
              | None => Some (inl Thrown, s)
              | Some pindexNewTip =>
                if pindexMostWork =? pindexNewTip then Some (FlushStateToDisk FLUSH_STATE_PERIODIC s)
                else ActivateBestChain fuel fSkipdpow pblock s
              end
            end
          end
      end
  end.
End Activate.
