(* ===== verification/ActivateEffect.v ===== *)
(** * What activating the best chain does (src/src/main.cpp)

    What each action leaves as it was: the fields of the entries, the failures, the
    chain; how DisconnectTip and ConnectTip move the chain; and that a notarised block
    of the chain stays in it through all of them. *)
From Stdlib Require Ascii String.
From S2P Require Import Prelude Serialize Arith256 Transaction Compressor Coins CoinsView CoinsCache UpdateCoins Ledger Interest Script SigHash CheckTx BlockIndex TxInputs Notary Upgrades Checkpoints BlockChecks ConnectTxs Mempool MempoolAccept BlockTree ConnectBlock BlockEffect ActivateChain.
From stdpp Require Import strings.
Import String.StringSyntax.
#[local] Open Scope string_scope.
#[local] Open Scope Z_scope.

(** ** Entries and trees over time *)

Definition failed (b : CBlockIndex) : bool := negb (Z.land (nStatus b) BLOCK_FAILED_MASK =? 0).

(** The fields of an entry that no part of the activation changes. *)
Record same_static (b b' : CBlockIndex) : Prop := {
  ss_hash : phashBlock b' = phashBlock b;
  ss_links : same_links b b';
  ss_work : nChainWork b' = nChainWork b;
  ss_ntx : nChainTx b' = nChainTx b;
  ss_seq : nSequenceId b' = nSequenceId b;
  ss_data : Z.testbit (nStatus b') 3 = Z.testbit (nStatus b) 3;
  ss_tmp : Z.testbit (nStatus b') 8 = Z.testbit (nStatus b) 8
}.

(** A failure stays; [same_fate] is when no failure is added either. *)
Definition evolved (b b' : CBlockIndex) : Prop := same_static b b' /\ (failed b = true -> failed b' = true).
Definition same_fate (b b' : CBlockIndex) : Prop := same_static b b' /\ failed b' = failed b.

#[global] Instance same_static_preorder : PreOrder same_static.
Proof.
  split; [by split|]. intros a b c [] []. split; try congruence. unfold same_links in *. intuition congruence.
Qed.

#[global] Instance same_fate_preorder : PreOrder same_fate.
Proof. split; [by split|]. intros a b c [? H1] [? H2]. split; [by etrans|congruence]. Qed.

#[global] Instance evolved_preorder : PreOrder evolved.
Proof. split; [by split|]. intros a b c [? H1] [? H2]. split; [by etrans|auto]. Qed.

Lemma same_fate_evolved b b' : same_fate b b' -> evolved b b'.
Proof. intros [H1 H2]. split; [done|congruence]. Qed.

Lemma failed_bits b : failed b = Z.testbit (nStatus b) 5 || Z.testbit (nStatus b) 6.
Proof.
  unfold failed. change BLOCK_FAILED_MASK with (Z.lor (2 ^ 5) (2 ^ 6)). apply eq_true_iff_eq.
  rewrite negb_true_iff, Z.eqb_neq, orb_true_iff. split.
  - intros Hne. destruct (Z.testbit (nStatus b) 5) eqn:H5; [by left|]. destruct (Z.testbit (nStatus b) 6) eqn:H6; [by right|].
    destruct Hne. apply Z.bits_inj'. intros n Hn. rewrite Z.land_spec, Z.lor_spec, !Z.pow2_bits_eqb, Z.bits_0 by lia.
    destruct (Z.eqb_spec 5 n) as [<-|]; [by rewrite H5|]. destruct (Z.eqb_spec 6 n) as [<-|]; [by rewrite H6|]. apply andb_false_r.
  - intros H E. assert (Hb : forall n, Z.testbit (Z.land (nStatus b) (Z.lor (2 ^ 5) (2 ^ 6))) n = false) by (intros n; by rewrite E, Z.bits_0).
    destruct H as [H|H]; [specialize (Hb 5)|specialize (Hb 6)]; by rewrite Z.land_spec, H in Hb.
Qed.

(** Setting status bits. *)
Lemma set_status_static m b : Z.testbit m 3 = false -> Z.testbit m 8 = false -> same_static b (set_nStatus (Z.lor (nStatus b) m) b).
Proof. intros H3 H8. split; try done; cbn [set_nStatus nStatus]; rewrite Z.lor_spec, ?H3, ?H8; apply orb_false_r. Qed.

Lemma set_status_failed m b :
  failed (set_nStatus (Z.lor (nStatus b) m) b) = failed b || Z.testbit m 5 || Z.testbit m 6.
Proof. rewrite !failed_bits. cbn [set_nStatus nStatus]. rewrite !Z.lor_spec. by destruct (Z.testbit _ 5), (Z.testbit _ 6), (Z.testbit m 5), (Z.testbit m 6). Qed.

Lemma set_status_fate m b : Z.testbit m 3 = false -> Z.testbit m 8 = false -> Z.testbit m 5 = false -> Z.testbit m 6 = false ->
  same_fate b (set_nStatus (Z.lor (nStatus b) m) b).
Proof. intros H3 H8 H5 H6. split; [by apply set_status_static|]. by rewrite set_status_failed, H5, H6, !orb_false_r. Qed.

Lemma set_failed_evolved m b : Z.testbit m 3 = false -> Z.testbit m 8 = false -> evolved b (set_nStatus (Z.lor (nStatus b) m) b).
Proof. intros H3 H8. split; [by apply set_status_static|]. rewrite set_status_failed. by intros ->. Qed.

Lemma raise_validity_fate b : same_fate b (RaiseValidity BLOCK_VALID_SCRIPTS b).1.
Proof.
  unfold RaiseValidity. destruct (negb _); [done|]. destruct (_ <? _); [|done].
  split; [|rewrite !failed_bits]; [split; try done|]; cbn [fst set_nStatus nStatus]; rewrite !Z.lor_spec, !Z.land_spec, !Z.lnot_spec by lia;
    cbn; by rewrite ?andb_true_r, ?orb_false_r.
Qed.

Lemma undo_pos_fate v b : same_fate b (set_nUndoPos v b).
Proof. done. Qed.

Lemma trim_fate b : same_fate b (TrimSolution b).
Proof. unfold TrimSolution. by destruct (HasSolution b). Qed.

(** *** The entry of a block that is connected or disconnected *)

Section Entry.
Context {Tree V : Type} `{!MerkleTree Tree} `{!CoinsView Tree V} `{!CoinsMemory}.
Abbreviation bcheck := (@bcheck Tree V).
Abbreviation connect_state := (@connect_state Tree V).

Definition index_of (s : connect_state) : CBlockIndex := be_index (cs_entry s).

(** Unless the block is in the temporary file, the entry keeps its fate, however the
    computation ends. *)
Definition entry_kept {A} (m : bcheck A) : Prop :=
  forall s, Z.testbit (nStatus (index_of s)) 8 = false -> same_fate (index_of s) (index_of (m s).2).

Lemma kept_ret {A} (a : A) : entry_kept (mret a).
Proof. by intros s _. Qed.

Lemma kept_bind {A B} (m : bcheck A) (f : A -> bcheck B) : entry_kept m -> (forall a, entry_kept (f a)) -> entry_kept (m ≫= f).
Proof.
  intros Hm Hf s Hs. specialize (Hm s Hs). unfold mbind, bcheck_bind. destruct (m s) as [[e|a] s1]; [done|]. cbn [snd] in Hm.
  etrans; [exact Hm|]. apply Hf. by rewrite (ss_tmp _ _ (proj1 Hm)).
Qed.

Lemma kept_get {B} (f : block_entry -> bcheck B) :
  (forall e, Z.testbit (nStatus (be_index e)) 8 = false -> entry_kept (f e)) -> entry_kept (get_entry ≫= f).
Proof. intros Hf s Hs. by apply (Hf (cs_entry s)). Qed.

Lemma kept_view {A} (m : @check Tree V A) : entry_kept (on_view m).
Proof. intros s _. unfold on_view. by destruct (m (cs_view s)). Qed.

Lemma kept_refuse b r : entry_kept (refuse_if (Tree := Tree) (V := V) b r).
Proof. apply kept_view. Qed.

Lemma kept_from {A} (o : option A) : entry_kept (ConnectBlock.from_option (Tree := Tree) (V := V) o).
Proof. apply kept_view. Qed.

Lemma kept_if {A} (b : bool) (m1 m2 : bcheck A) : (b = true -> entry_kept m1) -> entry_kept m2 -> entry_kept (if b then m1 else m2).
Proof. destruct b; auto. Qed.

Lemma kept_index f : (forall b, same_fate b (f b)) -> entry_kept (set_index f).
Proof. intros Hf s _. apply Hf. Qed.

Lemma kept_entry f : (forall e, be_index (f e) = be_index e) -> entry_kept (set_entry f).
Proof. intros Hf s _. unfold index_of. cbn. by rewrite Hf. Qed.
End Entry.

Create HintDb kept.
#[export] Hint Resolve kept_ret kept_view kept_refuse kept_from kept_index kept_entry undo_pos_fate raise_validity_fate : kept.

(** Peels a computation down to its primitive steps. *)
Ltac kept :=
  repeat first
    [ solve [auto with kept]
    | apply kept_get; intros ? ?
    | apply kept_bind; [|intros]
    | apply kept_if; [intros|]
    | match goal with |- entry_kept (match ?x with _ => _ end) => destruct x end
    | solve [by intros s _] ].

Section Blocks.
Context {Tree V : Type} `{!MerkleTree Tree} `{!CoinsView Tree V} `{!CoinsMemory}.
Context (N : block_env) (o : store) (mbi : gmap Z (option Z)) (tipheight : Z) (prev_branch : option Z) (prev_pay : Z).

Lemma write_block_kept u : entry_kept (Tree := Tree) (V := V) (write_block N o prev_branch u).
Proof.
  unfold write_block. cbv zeta. kept; apply kept_index; intros b; try apply raise_validity_fate.
  - etrans; [|apply undo_pos_fate]. by apply set_status_fate.
  - by apply set_status_fate.
Qed.
#[local] Hint Resolve write_block_kept : kept.

Lemma connect_checked_kept p b e :
  entry_kept (Tree := Tree) (V := V) (connect_checked N o mbi tipheight prev_branch prev_pay p b false true e).
Proof.
  assert (Htmp : forall i, Z.testbit (nStatus i) 8 = false -> negb (Z.land (nStatus i) BLOCK_IN_TMPFILE =? 0) = false).
  { intros i Hi. apply negb_false_iff, Z.eqb_eq. change BLOCK_IN_TMPFILE with (2 ^ 8). apply Z.bits_inj'. intros n Hn.
    rewrite Z.land_spec, Z.pow2_bits_eqb, Z.bits_0 by lia. destruct (Z.eqb_spec 8 n) as [<-|]; [by rewrite Hi|apply andb_false_r]. }
  unfold connect_checked. cbv zeta. kept; try (by apply kept_index; intros; apply set_status_fate).
  by rewrite Htmp in * by done.
Qed.

(** However ConnectBlock and DisconnectBlock end. *)
Lemma ConnectBlock_kept p b st s : Z.testbit (nStatus (index_of s)) 8 = false ->
  same_fate (index_of s) (index_of (ConnectBlock (Tree := Tree) (V := V) N o mbi tipheight prev_branch prev_pay p b false true st s).2).
Proof.
  intros Hs. unfold ConnectBlock. destruct (en_SUPERLITE N); [done|]. destruct (_ && _); [done|]. destruct (expensive_checks _ _ _ _ _) as [e|]; [|done].
  destruct (bc_CheckBlock _ _ _ _ _ _ _) as [future checked]. destruct (checked st) as [[r|u] st']; [done|]. destruct future; [done|].
  pose proof (connect_checked_kept p b e s Hs) as Hk. by destruct (connect_checked _ _ _ _ _ _ _ _ _ _ _ s) as [r s'].
Qed.

Lemma DisconnectBlock_kept b prev : entry_kept (Tree := Tree) (V := V) (DisconnectBlock N b prev).
Proof. unfold DisconnectBlock. cbv zeta. kept. intros s _. by destruct (UndoReadFromDisk _ _ _). Qed.
End Blocks.

(** ** Stores whose entries evolve *)

Definition rel_objs (R : CBlockIndex -> CBlockIndex -> Prop) (o o' : store) : Prop := forall p, option_Forall2 R (o !! p) (o' !! p).

#[global] Instance rel_objs_preorder R : PreOrder R -> PreOrder (rel_objs R).
Proof.
  intros HR. split.
  - intros o p. destruct (o !! p); constructor. done.
  - intros a b c H1 H2 p. specialize (H1 p). specialize (H2 p). destruct H1 as [x y H1|]; inversion H2; subst; constructor. by etrans.
Qed.

Lemma rel_objs_impl (R R' : CBlockIndex -> CBlockIndex -> Prop) o o' : (forall b b', R b b' -> R' b b') -> rel_objs R o o' -> rel_objs R' o o'.
Proof. intros HR H p. destruct (H p); constructor. auto. Qed.

Lemma rel_objs_update (R : CBlockIndex -> CBlockIndex -> Prop) o p b b' : PreOrder R -> o !! p = Some b -> R b b' -> rel_objs R o (<[p := b']> o).
Proof.
  intros HR Hp Hb x. destruct (decide (x = p)) as [->|]; [rewrite lookup_insert_eq, Hp; by constructor|].
  rewrite lookup_insert_ne by done. by apply (reflexivity (R := rel_objs R)).
Qed.

Lemma rel_fwd {R o o'} p b : rel_objs R o o' -> o !! p = Some b -> exists b', o' !! p = Some b' /\ R b b'.
Proof. intros H Hp. specialize (H p). rewrite Hp in H. inversion H; subst. eauto. Qed.

Lemma rel_bwd {R o o'} p b' : rel_objs R o o' -> o' !! p = Some b' -> exists b, o !! p = Some b /\ R b b'.
Proof. intros H Hp. specialize (H p). rewrite Hp in H. inversion H; subst. eauto. Qed.

Section Static.
Context (o o' : store) (Hr : rel_objs same_static o o').

Lemma static_back n p : back o' n p = back o n p.
Proof using Hr.
  revert p. induction n as [|n IH]; intros p; [done|]. cbn [back]. destruct (Hr p) as [b b' [_ (E & _) _ _ _ _ _]|]; [|done].
  cbn [mbind option_bind]. rewrite E. destruct (pprev b); [cbn; apply IH|done].
Qed.

Lemma static_Contains v p : Contains o' v p = Contains o v p.
Proof using Hr. unfold Contains. destruct (Hr p) as [b b' [_ (_ & _ & E) _ _ _ _ _]|]; [|done]. cbn [mbind option_bind]. by rewrite E. Qed.

Lemma static_in_chain v p : in_chain o' v p <-> in_chain o v p.
Proof using Hr. unfold in_chain. by rewrite static_Contains. Qed.

Lemma static_wf : wf_store o -> wf_store o'.
Proof using Hr.
  intros Hwf p b' Hp. destruct (rel_bwd p b' Hr Hp) as (b & Hb & [_ (E1 & E2 & E3) _ _ _ _ _]). destruct (Hwf p b Hb) as (H1 & H2 & H3).
  unfold entry_ok. rewrite E1, E2, E3. split; [done|]. split.
  - destruct (pprev b) as [q|]; [|done]. destruct H2 as (c & Hc & Hh). destruct (rel_fwd q c Hr Hc) as (c' & Hc' & [_ (_ & _ & E) _ _ _ _ _]).
    exists c'. by rewrite E.
  - intros s Hs. rewrite static_back. by apply H3.
Qed.

Lemma static_works : works_ok o -> works_ok o'.
Proof using Hr. intros Hw p b' Hp. destruct (rel_bwd p b' Hr Hp) as (b & Hb & Hs). rewrite (ss_work _ _ Hs). by apply (Hw p). Qed.

Lemma static_comp p q : work_comp o' p q = work_comp o p q.
Proof using Hr.
  unfold work_comp, work_less. destruct (Hr p) as [a a' [_ _ Ea _ Es _ _]|]; [|done]. destruct (Hr q) as [b b' [_ _ Eb _ Et _ _]|]; [|done].
  by rewrite Ea, Eb, Es, Et.
Qed.

Lemma static_path p h : path o' p h = path o p h.
Proof using Hr. unfold path. apply list_fmap_ext. intros i x _. by rewrite static_back. Qed.

Lemma static_chain v : chain_ok o v -> chain_ok o' v.
Proof using Hr.
  intros [->|(p & b & Hp & ->)]; [by left|]. right. destruct (rel_fwd p b Hr Hp) as (b' & Hb' & Hs). exists p, b'.
  split; [done|]. destruct Hs as [_ (_ & _ & E) _ _ _ _ _]. by rewrite static_path, E.
Qed.
End Static.

(** *** Trees *)

(** What activation relies on: the links, the active chain, the candidates, and no block
    in the temporary file. *)
Record tree_ok (t : tree) : Prop := {
  to_candidates : candidates_ok t;
  to_chain : chain_ok (objs t) (chainActive t);
  to_tmp : forall p b, objs t !! p = Some b -> Z.testbit (nStatus b) 8 = false
}.

(** Entries may fail, candidates may go; the chain and the index stay. *)
Record tree_evolves (R : CBlockIndex -> CBlockIndex -> Prop) (t t' : tree) : Prop := {
  te_objs : rel_objs R (objs t) (objs t');
  te_index : mapBlockIndex t' = mapBlockIndex t;
  te_candidates : setBlockIndexCandidates t' ⊆ setBlockIndexCandidates t;
  te_invalid : forall i, pindexBestInvalid t' = Some i -> pindexBestInvalid t = Some i \/ is_Some (objs t !! i)
}.

#[global] Instance tree_evolves_preorder R : PreOrder R -> PreOrder (tree_evolves R).
Proof.
  intros HR. split; [intros t; split; auto; reflexivity|]. intros a b c [A1 A2 A3 A4] [B1 B2 B3 B4]. split; [by etrans|congruence|set_solver|].
  intros i Hi. destruct (B4 i Hi) as [|[x Hx]]; [auto|]. right. destruct (rel_bwd i x A1 Hx) as (y & Hy & _). eauto.
Qed.

Lemma tree_evolves_impl (R R' : CBlockIndex -> CBlockIndex -> Prop) t t' : (forall b b', R b b' -> R' b b') -> tree_evolves R t t' -> tree_evolves R' t t'.
Proof. intros HR []. split; try done. by eapply rel_objs_impl. Qed.

Lemma evolved_static b b' : evolved b b' -> same_static b b'.
Proof. by intros []. Qed.

(** Candidates need links. *)
Lemma candidates_evolve t t' : candidates_ok t -> rel_objs same_static (objs t) (objs t') ->
  (forall x, x ∈ setBlockIndexCandidates t' -> x ∈ setBlockIndexCandidates t \/ linked_entry (objs t') x = true) ->
  (forall i, pindexBestInvalid t' = Some i -> pindexBestInvalid t = Some i \/ is_Some (objs t !! i)) -> candidates_ok t'.
Proof.
  intros [C1 C2 C3 C4 C5] Hs Hsub Hinv. split.
  - by eapply static_wf.
  - by eapply static_works.
  - intros p b' q Hp Hn Hq. destruct (rel_bwd p b' Hs Hp) as (b & Hb & S). destruct S as [_ (E & _) _ En _ _ _]. rewrite En in Hn. rewrite E in Hq.
    destruct (C3 p b q Hb Hn Hq) as (c & Hc & Hcn). destruct (rel_fwd q c Hs Hc) as (c' & Hc' & S'). exists c'. by rewrite (ss_ntx _ _ S').
  - intros x [Hx|Hx]%Hsub.
    + destruct (C4 x Hx) as (b & Hb & Hn). destruct (rel_fwd x b Hs Hb) as (b' & Hb' & S). exists b'. by rewrite (ss_ntx _ _ S).
    + unfold linked_entry in Hx. destruct (objs t' !! x) as [b|]; [|done]. exists b. split; [done|]. apply andb_true_iff in Hx as [_ Hx].
      by apply negb_true_iff, Z.eqb_neq in Hx.
  - intros i Hi. assert (is_Some (objs t !! i)) as [b Hb] by (destruct (Hinv i Hi); auto). destruct (rel_fwd i b Hs Hb) as (b' & ? & _). eauto.
Qed.

Lemma tree_ok_evolves t t' : tree_ok t -> tree_evolves evolved t t' -> chainActive t' = chainActive t -> tree_ok t'.
Proof.
  intros [H1 H2 H3] [E1 E2 E3 E4] Hc. pose proof (rel_objs_impl _ _ _ _ evolved_static E1) as Hs. split.
  - eapply candidates_evolve; [done|done|set_solver|done].
  - rewrite Hc. by eapply static_chain.
  - intros p b' Hp. destruct (rel_bwd p b' Hs Hp) as (b & Hb & S). rewrite (ss_tmp _ _ S). by apply (H3 p).
Qed.

(** FindMostWorkChain marks failures and drops candidates. *)
Lemma evolves_intro R t t' : rel_objs R (objs t) (objs t') -> mapBlockIndex t' = mapBlockIndex t ->
  setBlockIndexCandidates t' ⊆ setBlockIndexCandidates t -> pindexBestInvalid t' = pindexBestInvalid t -> tree_evolves R t t'.
Proof. intros H1 H2 H3 H4. split; [done|done|done|]. rewrite H4. auto. Qed.

Lemma note_invalid_evolves t p t' : note_invalid t p = Some t' -> tree_evolves same_fate t t' /\ chainActive t' = chainActive t.
Proof.
  unfold note_invalid. intros H. apply bind_Some in H as (n & Hn & H). apply bind_Some in H as (w & _ & [= <-]). destruct w; [|done].
  split; [|done]. split; cbn; try done. intros i [= <-]. right. eauto.
Qed.

Lemma remove_chain_evolves fuel f x : forall p t t', remove_chain fuel f x p t = Some t' -> tree_evolves evolved t t' /\ chainActive t' = chainActive t.
Proof.
  induction fuel as [|fuel IH]; intros p t t'; cbn [remove_chain]; [done|]. destruct (x =? p).
  - intros [= <-]. split; [|done]. apply evolves_intro; cbn; [done|done|set_solver|done].
  - intros H. apply bind_Some in H as (b & Hb & H). apply bind_Some in H as (q & _ & H). apply IH in H as [H1 H2]. split; [|done].
    etrans; [|exact H1]. apply evolves_intro; cbn; [|done|set_solver|done]. destruct f; [|done].
    eapply rel_objs_update; [apply _|done|]. by apply set_failed_evolved.
Qed.

Lemma most_work_evolves fuel : forall t t' r, most_work_loop fuel t = Some (t', r) -> tree_evolves evolved t t' /\ chainActive t' = chainActive t.
Proof.
  induction fuel as [|fuel IH]; intros t t' r; cbn [most_work_loop]; [done|]. destruct (best_candidate _ _) as [p|]; [|by intros [= <- <-]].
  intros H. apply bind_Some in H as (n & _ & H). apply bind_Some in H as (bad & _ & H). destruct bad as [x|]; [|by injection H as <- <-].
  apply bind_Some in H as (c & _ & H). apply bind_Some in H as (t1 & H1 & H). apply bind_Some in H as (t2 & H2 & H).
  apply remove_chain_evolves in H2 as [E2 C2]. apply IH in H as [E3 C3].
  assert (tree_evolves evolved t t1 /\ chainActive t1 = chainActive t) as [E1 C1].
  { destruct (negb _); [|by injection H1 as <-]. apply note_invalid_evolves in H1 as [E1 C1]. split; [|done].
    eapply tree_evolves_impl; [|exact E1]. apply same_fate_evolved. }
  split; [by do 2 (etrans; [eassumption|])|congruence].
Qed.

(** ** Actions *)

Section Actions.
Context {Tree V : Type} `{!MerkleTree Tree} `{!CoinsView Tree V} `{!CoinsMemory}.
Abbreviation node := (node Tree V).
Abbreviation act := (@act Tree V).

(** The last notarisation is of the block at [p]. *)
Definition notarised (s : node) (p : Z) : Prop :=
  exists b, objs (nd_tree s) !! p = Some b /\ phashBlock b = notarized_hash (last_cp (nd_points s)) /\
    mapBlockIndex (nd_tree s) !! phashBlock b = Some (Some p).

(** Nothing happens to the chain and to the failures of blocks. *)
Record calm (s s' : node) : Prop := {
  cm_tree : tree_evolves same_fate (nd_tree s) (nd_tree s');
  cm_chain : chainActive (nd_tree s') = chainActive (nd_tree s);
  cm_rewind : nd_REWIND s' = nd_REWIND s;
  cm_points : forall p, notarised s p -> tree_ok (nd_tree s) -> nd_points s' = nd_points s
}.

Lemma notarised_evolves s s' p : tree_evolves same_static (nd_tree s) (nd_tree s') -> nd_points s' = nd_points s -> notarised s p -> notarised s' p.
Proof.
  intros [H1 H2 _ _] Hp (b & Hb & Hh & Hm). destruct (rel_fwd p b H1 Hb) as (b' & Hb' & S). exists b'. rewrite (ss_hash _ _ S), Hp, H2. done.
Qed.

Lemma same_fate_static b b' : same_fate b b' -> same_static b b'.
Proof. by intros []. Qed.

Lemma calm_ok s s' : calm s s' -> tree_ok (nd_tree s) -> tree_ok (nd_tree s').
Proof.
  intros [H1 H2 _ _] Ht. eapply tree_ok_evolves; [done| |done]. eapply tree_evolves_impl; [|done]. apply same_fate_evolved.
Qed.

#[global] Instance calm_preorder : PreOrder calm.
Proof.
  split; [done|]. intros a b c Hab Hbc. pose proof Hab as [A1 A2 A3 A4]. pose proof Hbc as [B1 B2 B3 B4]. split; [by etrans|congruence|congruence|].
  intros p Hp Ht. rewrite <- (A4 p Hp Ht). apply (B4 p); [|by eapply calm_ok]. eapply notarised_evolves; [|by apply (A4 p)|done].
  eapply tree_evolves_impl; [|exact A1]. apply same_fate_static.
Qed.

Definition calm_act {A} (m : act A) : Prop := forall s, tree_ok (nd_tree s) -> calm s (m s).2.

Lemma calm_same s s' : nd_tree s' = nd_tree s -> nd_REWIND s' = nd_REWIND s -> nd_points s' = nd_points s -> calm s s'.
Proof. intros H1 H2 H3. split; [by rewrite H1|by rewrite H1|done|done]. Qed.

Lemma calm_points s sp : (forall p, notarised s p -> sp = nd_points s) -> calm s (with_points sp s).
Proof. intros Hp. split; [reflexivity|done|done|]. intros p Hn _. by apply (Hp p). Qed.

Lemma calm_ret {A} (a : A) : calm_act (mret a).
Proof. by intros s _. Qed.
Lemma calm_get {A} (f : node -> A) : calm_act (get f).
Proof. by intros s _. Qed.
Lemma calm_fails {A} r : calm_act (fails (A := A) r).
Proof. by intros s _. Qed.
Lemma calm_fail_if b r : calm_act (fail_if b r).
Proof. unfold fail_if. destruct b; by intros s _. Qed.
Lemma calm_asserts {A} (o : option A) : calm_act (asserts o).
Proof. unfold asserts. destruct o; by intros s _. Qed.

Lemma calm_bind {A B} (m : act A) (f : A -> act B) : calm_act m -> (forall a, calm_act (f a)) -> calm_act (m ≫= f).
Proof.
  intros Hm Hf s Hs. specialize (Hm s Hs). unfold mbind, act_bind. destruct (m s) as [[e|a] s1]; [done|]. cbn [snd] in Hm.
  etrans; [exact Hm|]. apply Hf. by eapply calm_ok.
Qed.

Lemma calm_attempt {A} (m : act A) : calm_act m -> calm_act (attempt m).
Proof. intros Hm s Hs. specialize (Hm s Hs). unfold attempt. by destruct (m s). Qed.

Lemma calm_put f : (forall s, nd_tree (f s) = nd_tree s /\ nd_REWIND (f s) = nd_REWIND s /\ nd_points (f s) = nd_points s) -> calm_act (put f).
Proof. intros Hf s _. destruct (Hf s) as (? & ? & ?). by apply calm_same. Qed.

Lemma calm_on_tip {A} (m : @check Tree V A) : calm_act (on_tip m).
Proof. intros s _. unfold on_tip. destruct (m (nd_tip s)). by apply calm_same. Qed.

Lemma calm_on_pool f : calm_act (on_pool f).
Proof. intros s _. unfold on_pool. destruct (f (nd_pool s)); by apply calm_same. Qed.

Lemma calm_if {A} (b : bool) (m1 m2 : act A) : calm_act m1 -> calm_act m2 -> calm_act (if b then m1 else m2).
Proof. by destruct b. Qed.

Lemma calm_tree s t : tree_evolves same_fate (nd_tree s) t -> chainActive t = chainActive (nd_tree s) -> calm s (with_tree t s).
Proof. by split. Qed.
End Actions.

Create HintDb calm.
#[export] Hint Resolve calm_ret calm_get calm_fails calm_fail_if calm_asserts calm_on_tip calm_on_pool : calm.

Ltac calm :=
  repeat first
    [ solve [auto with calm]
    | apply calm_bind; [|intros]
    | apply calm_attempt
    | apply calm_if
    | apply calm_put; intros; split_and!; reflexivity
    | match goal with |- calm_act (match ?x with _ => _ end) => destruct x end ].

Section Calm.
Context {Tree V : Type} `{!MerkleTree Tree} `{!CoinsView Tree V} `{!CoinsMemory}.
Abbreviation node := (node Tree V).
Abbreviation act := (@act Tree V).
Context (W : activate_env Tree V).
Let N := av_block W.

Lemma calm_entry p : calm_act (Tree := Tree) (V := V) (the_entry p).
Proof. unfold the_entry. calm. Qed.
Lemma calm_extra p f : calm_act (Tree := Tree) (V := V) (update_extra p f).
Proof. unfold update_extra. calm. Qed.
Lemma calm_emit x : calm_act (emit (Tree := Tree) (V := V) x).
Proof. unfold emit. calm. Qed.
#[local] Hint Resolve calm_entry calm_extra calm_emit : calm.

Lemma calm_update p f : (forall b, same_fate b (f b)) -> calm_act (Tree := Tree) (V := V) (update_entry p f).
Proof.
  intros Hf s Hs. unfold update_entry, the_entry, mbind, act_bind, get, asserts. destruct (objs (nd_tree s) !! p) as [b|] eqn:Hb; [|done].
  cbn. apply calm_tree; [|done]. apply evolves_intro; cbn; [|done|done|done]. eapply rel_objs_update; [apply _|done|apply Hf].
Qed.

Lemma calm_notarized : calm_act (Tree := Tree) (V := V) squishy_notarized_height.
Proof.
  intros s Hs. unfold squishy_notarized_height. match goal with |- context [NotarizedHeight ?f _] => set (bh := f) end. unfold NotarizedHeight.
  assert (Hk : forall p, notarised s p -> exists h, bh (notarized_hash (last_cp (nd_points s))) = Some h /\ 0 <= h).
  { intros p (b & Hb & Hh & Hm). exists (nHeight b). unfold bh. rewrite <- Hh, Hm, Hb. split; [done|]. apply (c_wf _ (to_candidates _ Hs) p b Hb). }
  destruct (bh _) as [h|] eqn:E.
  - destruct (Z.ltb_spec h 0); cbn [snd]; apply calm_points; intros p Hp; [|done]. destruct (Hk p Hp) as (h' & E' & ?). simplify_eq. lia.
  - cbn [snd]. apply calm_points. intros p Hp. by destruct (Hk p Hp) as (h' & ? & _).
Qed.

Lemma trim_evolves l t : tree_evolves same_fate t (trim_entries l t).
Proof.
  apply evolves_intro; try done. unfold trim_entries. cbn [objs set_objs]. induction l as [|p l IH]; [done|]. cbn [foldr].
  etrans; [exact IH|]. destruct (foldr _ _ l !! p) as [b|] eqn:Hb; [|done]. eapply rel_objs_update; [apply _|done|apply trim_fate].
Qed.

Lemma calm_trim l : calm_act (Tree := Tree) (V := V) (put (fun s => with_tree (trim_entries l (nd_tree s)) s)).
Proof. intros s _. apply calm_tree; [apply trim_evolves|done]. Qed.
#[local] Hint Resolve calm_notarized calm_trim : calm.

Lemma calm_flush mode : calm_act (FlushStateToDisk W mode).
Proof. unfold FlushStateToDisk. calm. Qed.
Lemma calm_trees : calm_act (Tree := Tree) (V := V) tip_trees.
Proof. unfold tip_trees. calm. Qed.
Lemma calm_reorg : calm_act (pool_for_reorg W).
Proof. unfold pool_for_reorg, get_tip. calm. Qed.
Lemma calm_branch : calm_act (pool_for_branch W).
Proof. unfold pool_for_branch, get_tip. calm. Qed.
Lemma calm_flush_view c : calm_act (Tree := Tree) (V := V) (flush_view c).
Proof. unfold flush_view. calm. Qed.
Lemma calm_resurrect block b : forall l i, calm_act (resurrect W block b i l).
Proof.
  induction l as [|[txid tx] l IH]; intros i; cbn [resurrect]; [calm|]. calm. intros s Hs.
  match goal with |- calm _ (match ?x with _ => _ end).2 => destruct x as [[]|] end; first [by apply calm_same|by apply calm_on_pool].
Qed.
Lemma calm_sync_disconnected block b : forall l i, calm_act (sync_disconnected W block b i l).
Proof. induction l as [|tx l IH]; intros i; cbn [sync_disconnected]; calm. Qed.
Lemma calm_sync_all f : forall l, calm_act (Tree := Tree) (V := V) (sync_all f l).
Proof. induction l as [|tx l IH]; cbn [sync_all]; calm. Qed.
Lemma calm_pool_for_block block h : calm_act (pool_for_block W block h).
Proof. unfold pool_for_block. calm. Qed.
Lemma calm_invalid_chain p : calm_act (Tree := Tree) (V := V) (InvalidChainFound p).
Proof.
  unfold InvalidChainFound, get_tip. calm. intros s Hs. unfold on_tree. destruct (note_invalid _ _) as [t|] eqn:Ht; [|done].
  apply note_invalid_evolves in Ht as [? ?]. by apply calm_tree.
Qed.
#[local] Hint Resolve calm_flush calm_trees calm_reorg calm_branch calm_flush_view calm_resurrect calm_sync_disconnected calm_sync_all
  calm_pool_for_block calm_invalid_chain : calm.

(** The entry after ConnectBlock or DisconnectBlock has the fate of the one before. *)
Lemma leave_calm p (st : @connect_state Tree (CCoinsViewCache Tree V)) (s : node) b : tree_ok (nd_tree s) -> objs (nd_tree s) !! p = Some b -> same_fate b (index_of st) ->
  calm s (leave p st s).2.
Proof.
  intros Hs Hb Hf. unfold leave, mbind, act_bind.
  assert (Hu : calm s (update_entry p (fun _ => be_index (cs_entry st)) s).2).
  { unfold update_entry, the_entry, mbind, act_bind, get, asserts. rewrite Hb. cbn. apply calm_tree; [|done].
    apply evolves_intro; cbn; [|done|done|done]. eapply rel_objs_update; [apply _|done|done]. }
  destruct (update_entry _ _ s) as [[e|[]] s1]; [done|]. cbn [snd] in Hu. etrans; [exact Hu|].
  by apply calm_same.
Qed.

Lemma the_entry_run p s : the_entry (Tree := Tree) (V := V) p s = match objs (nd_tree s) !! p with Some b => (inr b, s) | None => (inl Thrown, s) end.
Proof. unfold the_entry, mbind, act_bind, get, asserts. by destruct (objs (nd_tree s) !! p). Qed.

Lemma block_entry_run p (s : node) :
  match objs (nd_tree s) !! p with
  | Some b => exists e, block_entry_of (Tree := Tree) (V := V) p s = (inr e, s) /\ be_index e = b
  | None => block_entry_of (Tree := Tree) (V := V) p s = (inl Thrown, s)
  end.
Proof.
  pose proof (the_entry_run p s) as Hr. destruct (objs (nd_tree s) !! p) as [b|]; [eexists; split|];
    unfold block_entry_of, mbind, act_bind; rewrite ?Hr; reflexivity.
Qed.

Lemma calm_after_leave {A} p (st : @connect_state Tree (CCoinsViewCache Tree V)) (s : node) b (k : act A) : tree_ok (nd_tree s) ->
  objs (nd_tree s) !! p = Some b -> same_fate b (index_of st) -> calm_act k -> calm s ((_ ← leave p st; k) s).2.
Proof.
  intros Hs Hb Hf Hk. pose proof (leave_calm p st s b Hs Hb Hf) as Hl. unfold mbind at 1, act_bind at 1. destruct (leave p st s) as [[e|[]] s2]; [done|].
  cbn [snd] in Hl. etrans; [exact Hl|]. apply Hk. by eapply calm_ok.
Qed.

Lemma calm_connect p block : calm_act (connect_on_tip W p block).
Proof.
  intros s Hs. unfold connect_on_tip. unfold mbind at 1, act_bind at 1. pose proof (block_entry_run p s) as He.
  destruct (objs (nd_tree s) !! p) as [b|] eqn:Hb; [|by rewrite He]. destruct He as (e & -> & He).
  unfold mbind at 1, act_bind at 1, get. cbv zeta beta. unfold id. set (s0 := mkConnectState _ _ _).
  destruct (ConnectBlock _ _ _ _ _ _ _ _ _ _ _ _) as [[r st'] s1] eqn:Ek.
  eapply calm_after_leave; [done|done| |calm].
  assert (Hk : same_fate (index_of s0) (index_of (r, st', s1).2)); [|unfold index_of at 1 in Hk; cbn in Hk; by rewrite He in Hk].
  rewrite <- Ek. apply ConnectBlock_kept. unfold index_of. cbn. rewrite He. by apply (to_tmp _ Hs p).
Qed.

Lemma calm_disconnect p block : calm_act (disconnect_on_tip W p block).
Proof.
  intros s Hs. unfold disconnect_on_tip. unfold mbind at 1, act_bind at 1. pose proof (block_entry_run p s) as He.
  destruct (objs (nd_tree s) !! p) as [b|] eqn:Hb; [|by rewrite He]. destruct He as (e & -> & He).
  unfold mbind at 1, act_bind at 1, get. cbv zeta beta. unfold id. set (s0 := mkConnectState _ _ _).
  destruct (DisconnectBlock _ _ _ _) as [r s1] eqn:Ek.
  eapply calm_after_leave; [done|done| |calm].
  assert (Hk : same_fate (index_of s0) (index_of (r, s1).2)); [|unfold index_of at 1 in Hk; cbn in Hk; by rewrite He in Hk].
  rewrite <- Ek. apply DisconnectBlock_kept. unfold index_of. cbn. rewrite He. by apply (to_tmp _ Hs p).
Qed.
End Calm.

#[export] Hint Resolve calm_entry calm_extra calm_emit calm_notarized calm_trim calm_flush calm_trees calm_reorg calm_branch calm_flush_view calm_resurrect
  calm_sync_disconnected calm_sync_all calm_pool_for_block calm_invalid_chain calm_connect calm_disconnect : calm.

(** *** Errors that reject no block *)

Section Quiet.
Context {Tree V : Type} `{!MerkleTree Tree} `{!CoinsView Tree V} `{!CoinsMemory}.
Abbreviation node := (node Tree V).
Abbreviation act := (@act Tree V).
Context (W : activate_env Tree V).

Definition quiet {A} (m : act A) : Prop := forall s e, (m s).1 = inl e -> IsInvalid e = false.

Lemma quiet_ret {A} (a : A) : quiet (mret a).
Proof. done. Qed.
Lemma quiet_get {A} (f : node -> A) : quiet (get f).
Proof. done. Qed.
Lemma quiet_put f : quiet (put f).
Proof. done. Qed.
Lemma quiet_fails {A} r : IsInvalid r = false -> quiet (fails (A := A) r).
Proof. by intros Hr s e [= <-]. Qed.
Lemma quiet_fail_if b r : IsInvalid r = false -> quiet (fail_if b r).
Proof. intros Hr. unfold fail_if. destruct b; [by apply quiet_fails|done]. Qed.
Lemma quiet_asserts {A} (o : option A) : quiet (asserts o).
Proof. unfold asserts. destruct o; [done|by apply quiet_fails]. Qed.
Lemma quiet_on_pool f : quiet (on_pool f).
Proof. intros s e. unfold on_pool. destruct (f _); [done|by intros [= <-]]. Qed.
Lemma quiet_on_tree f : quiet (on_tree f).
Proof. intros s e. unfold on_tree. destruct (f _); [done|by intros [= <-]]. Qed.
Lemma quiet_if {A} (b : bool) (m1 m2 : act A) : quiet m1 -> quiet m2 -> quiet (if b then m1 else m2).
Proof. by destruct b. Qed.
Lemma quiet_bind {A B} (m : act A) (f : A -> act B) : quiet m -> (forall a, quiet (f a)) -> quiet (m ≫= f).
Proof.
  intros Hm Hf s e. specialize (Hm s). unfold mbind, act_bind. destruct (m s) as [[r|a] s1]; [intros [= ->]; by apply Hm|]. apply Hf.
Qed.
Lemma quiet_best_anchor t : quiet (on_tip (c_GetBestAnchor t)).
Proof. intros s e. unfold on_tip, c_GetBestAnchor. by destruct (Cache_GetBestAnchor t (nd_tip s)). Qed.
Lemma quiet_anchor_at t rt : quiet (on_tip (c_GetAnchorAt t rt)).
Proof. intros s e. unfold on_tip, c_GetAnchorAt. by destruct (Cache_GetAnchorAt t (nd_tip s) rt). Qed.
End Quiet.

Create HintDb quiet.
#[export] Hint Resolve quiet_ret quiet_get quiet_put quiet_fails quiet_fail_if quiet_asserts quiet_on_pool quiet_on_tree quiet_best_anchor quiet_anchor_at : quiet.

Ltac quiet :=
  repeat first
    [ solve [auto with quiet]
    | apply quiet_bind; [|intros]
    | apply quiet_if
    | match goal with |- quiet (match ?x with _ => _ end) => destruct x end ].

Section QuietSteps.
Context {Tree V : Type} `{!MerkleTree Tree} `{!CoinsView Tree V} `{!CoinsMemory}.
Abbreviation act := (@act Tree V).
Context (W : activate_env Tree V).

Lemma quiet_entry p : quiet (Tree := Tree) (V := V) (the_entry p).
Proof. unfold the_entry. quiet. Qed.
#[local] Hint Resolve quiet_entry : quiet.
Lemma quiet_flush mode : quiet (FlushStateToDisk W mode).
Proof. unfold FlushStateToDisk. quiet. Qed.
Lemma quiet_trees : quiet (Tree := Tree) (V := V) tip_trees.
Proof. unfold tip_trees. quiet. Qed.
Lemma quiet_flush_view c : quiet (Tree := Tree) (V := V) (flush_view c).
Proof. unfold flush_view. quiet. Qed.
Lemma quiet_sync_all f : forall l, quiet (Tree := Tree) (V := V) (sync_all f l).
Proof. induction l as [|tx l IH]; cbn [sync_all]; unfold emit; quiet. Qed.
Lemma quiet_pool_for_block block h : quiet (pool_for_block W block h).
Proof. unfold pool_for_block. quiet. Qed.
Lemma quiet_UpdateTip p : quiet (Tree := Tree) (V := V) (UpdateTip p).
Proof. unfold UpdateTip. quiet. Qed.
Lemma quiet_invalid_chain p : quiet (Tree := Tree) (V := V) (InvalidChainFound p).
Proof. unfold InvalidChainFound, get_tip. quiet. Qed.
Lemma quiet_emit x : quiet (Tree := Tree) (V := V) (emit x).
Proof. unfold emit. quiet. Qed.
Lemma quiet_reorg : quiet (pool_for_reorg W).
Proof. unfold pool_for_reorg, get_tip. quiet. Qed.
Lemma quiet_branch : quiet (pool_for_branch W).
Proof. unfold pool_for_branch, get_tip. quiet. Qed.
End QuietSteps.
#[export] Hint Resolve quiet_entry quiet_flush quiet_trees quiet_flush_view quiet_sync_all quiet_pool_for_block quiet_UpdateTip quiet_invalid_chain
  quiet_emit quiet_reorg quiet_branch : quiet.

(** ** The tip moves *)

Section Moves.
Context {Tree V : Type} `{!MerkleTree Tree} `{!CoinsView Tree V} `{!CoinsMemory}.
Abbreviation node := (node Tree V).
Abbreviation act := (@act Tree V).
Abbreviation objs_of s := (objs (nd_tree s)).
Abbreviation chain_of s := (chainActive (nd_tree s)).
Context (W : activate_env Tree V).

(** The chain of a tip. *)
Definition chain_to (o : store) (p : option Z) : list (option Z) :=
  match p with Some p => match o !! p with Some b => path o p (Z.to_nat (nHeight b)) | None => [] end | None => [] end.

(** Entries as relation [R] lets them, and the chain [v]. *)
Record moves (R : CBlockIndex -> CBlockIndex -> Prop) (s s' : node) (v : list (option Z)) : Prop := {
  mv_tree : tree_evolves R (nd_tree s) (nd_tree s');
  mv_chain : chain_of s' = v;
  mv_rewind : nd_REWIND s' = nd_REWIND s;
  mv_points : forall p, notarised s p -> nd_points s' = nd_points s
}.

(** Whatever else happens, the entries keep what they are, and a notarised block of the
    chain stays in it. *)
Record stays (s s' : node) : Prop := {
  st_ok : tree_ok (nd_tree s');
  st_objs : rel_objs same_static (objs_of s) (objs_of s');
  st_index : mapBlockIndex (nd_tree s') = mapBlockIndex (nd_tree s);
  st_final : forall p, notarised s p -> in_chain (objs_of s) (chain_of s) p ->
    nd_points s' = nd_points s /\ in_chain (objs_of s') (chain_of s') p
}.

Lemma stays_refl s : tree_ok (nd_tree s) -> stays s s.
Proof. by intros Hs. Qed.

Lemma stays_trans a b c : stays a b -> stays b c -> stays a c.
Proof.
  intros [A1 A2 A3 A4] [B1 B2 B3 B4]. split; [done|by etrans|congruence|]. intros p Hp Hin. destruct (A4 p Hp Hin) as [Ep Hin'].
  destruct (B4 p) as [Ep' Hin'']; [|done|split; [congruence|done]]. destruct Hp as (x & Hx & Hh & Hm).
  destruct (rel_fwd p x A2 Hx) as (x' & Hx' & S). exists x'. rewrite (ss_hash _ _ S), Ep, A3. done.
Qed.

Lemma calm_moves s s' : calm s s' -> tree_ok (nd_tree s) -> moves same_fate s s' (chain_of s).
Proof. intros [H1 H2 H3 H4] Hs. split; try done. intros p Hp. by apply (H4 p). Qed.

Lemma moves_weaken (R R' : CBlockIndex -> CBlockIndex -> Prop) s s' v : (forall b b', R b b' -> R' b b') -> moves R s s' v -> moves R' s s' v.
Proof. intros HR []. split; try done. by eapply tree_evolves_impl. Qed.

Lemma moves_ok s s' v : tree_ok (nd_tree s) -> moves evolved s s' v -> chain_ok (objs_of s) v -> tree_ok (nd_tree s').
Proof.
  intros [H1 H2 H3] [M1 M2 M3 M4] Hv. pose proof (rel_objs_impl _ _ _ _ evolved_static (te_objs _ _ _ M1)) as Hs. split.
  - eapply candidates_evolve; [exact H1|done| |apply M1]. intros x Hx. left. by apply (te_candidates _ _ _ M1).
  - rewrite M2. by eapply static_chain.
  - intros p b' Hp. destruct (rel_bwd p b' Hs Hp) as (b & Hb & S). rewrite (ss_tmp _ _ S). by apply (H3 p).
Qed.

Lemma chain_to_ok o p : chain_ok o (chain_to o p).
Proof. unfold chain_to. destruct p as [p|]; [|by left]. destruct (o !! p) as [b|] eqn:Hp; [|by left]. right. eauto. Qed.

Lemma in_chain_to o p b x : wf_store o -> o !! p = Some b -> in_chain o (chain_to o (Some p)) x <-> ancestor o x p.
Proof. intros Hwf Hp. unfold chain_to. rewrite Hp. by apply in_chain_ancestor. Qed.

(** A chain is the chain of its tip. *)
Lemma chain_tip o v : wf_store o -> chain_ok o v -> v = chain_to o (Tip v) /\ (forall p, Tip v = Some p -> is_Some (o !! p)).
Proof.
  intros Hwf [->|(p & b & Hp & ->)]; [done|]. rewrite (Tip_path o Hwf p b Hp). unfold chain_to. rewrite Hp. split; [done|]. intros ? [= <-]. eauto.
Qed.

Lemma stays_moves s s' v : tree_ok (nd_tree s) -> moves evolved s s' v -> chain_ok (objs_of s) v ->
  (forall p, notarised s p -> in_chain (objs_of s) (chain_of s) p -> in_chain (objs_of s) v p) -> stays s s'.
Proof.
  intros Hs Hm Hv Hin. pose proof (moves_ok _ _ _ Hs Hm Hv) as Ht. pose proof Hm as [M1 M2 M3 M4].
  pose proof (rel_objs_impl _ _ _ _ evolved_static (te_objs _ _ _ M1)) as Hst. split; [done|done|apply M1|].
  intros p Hp Hc. split; [by apply (M4 p)|]. rewrite M2. apply (static_in_chain _ _ Hst). by apply Hin.
Qed.

Lemma stays_calm s s' : tree_ok (nd_tree s) -> calm s s' -> stays s s'.
Proof.
  intros Hs Hc. eapply stays_moves; [done|eapply moves_weaken; [|by apply calm_moves]; apply same_fate_evolved|apply (to_chain _ Hs)|done].
Qed.

(** A step of a run of actions: what holds of the end if it stops here, and if it goes on. *)
Lemma run_calm {A B} (m : act A) (f : A -> act B) s0 s (Q : verdict B * node -> Prop) : tree_ok (nd_tree s0) -> calm s0 s -> calm_act m ->
  (forall e s1, m s = (inl e, s1) -> calm s0 s1 -> Q (inl e, s1)) -> (forall a s1, m s = (inr a, s1) -> calm s0 s1 -> Q (f a s1)) -> Q ((m ≫= f) s).
Proof.
  intros Hs0 Hc Hm He Hf. specialize (Hm s (calm_ok _ _ Hc Hs0)). unfold mbind, act_bind. destruct (m s) as [[e|a] s1]; cbn [snd] in Hm.
  - apply He; [done|by etrans].
  - apply Hf; [done|by etrans].
Qed.

Lemma run_get {A B} (g : node -> A) (f : A -> act B) s : (get g ≫= f) s = f (g s) s.
Proof. done. Qed.

Lemma bind_run {A B} (m : act A) (f : A -> act B) s a s1 : m s = (inr a, s1) -> (m ≫= f) s = f a s1.
Proof. intros E. unfold mbind, act_bind. by rewrite E. Qed.

Lemma bind_stop {A B} (m : act A) (f : A -> act B) s e s1 : m s = (inl e, s1) -> (m ≫= f) s = (inl e, s1).
Proof. intros E. unfold mbind, act_bind. by rewrite E. Qed.

Lemma update_entry_run p f (s : node) : update_entry p f s =
  match objs_of s !! p with
  | Some b => (inr tt, with_tree (set_objs (<[p := f b]> (objs_of s)) (nd_tree s)) s)
  | None => (inl Thrown, s)
  end.
Proof. unfold update_entry, mbind, act_bind. rewrite the_entry_run. by destruct (objs_of s !! p). Qed.

Lemma UpdateTip_run p (s : node) : tree_ok (nd_tree s) -> (forall q, p = Some q -> is_Some (objs_of s !! q)) ->
  exists r (s' : node), UpdateTip p s = (r, s') /\ nd_tree s' = set_chain (chain_to (objs_of s) p) (nd_tree s) /\ nd_REWIND s' = nd_REWIND s /\ nd_points s' = nd_points s.
Proof.
  intros Hs Hp. unfold UpdateTip, mbind, act_bind, on_tree.
  assert (Hv : SetTip (objs_of s) p (chain_of s) = Some (chain_to (objs_of s) p)).
  { destruct p as [p|]; [|done]. destruct (Hp p eq_refl) as [b Hb]. rewrite (SetTip_path _ (c_wf _ (to_candidates _ Hs)) _ p b (to_chain _ Hs) Hb).
    unfold chain_to. by rewrite Hb. }
  rewrite Hv. cbn. destruct p; by eexists _, _.
Qed.

Lemma chain_to_static o o' p : rel_objs same_static o o' -> chain_to o' p = chain_to o p.
Proof.
  intros Hr. unfold chain_to. destruct p as [p|]; [|done]. destruct (Hr p) as [b b' [_ (_ & _ & E) _ _ _ _ _]|]; [|done].
  by rewrite E, (static_path _ _ Hr).
Qed.

(** UpdateTip between two runs of calm actions. *)
Lemma moves_around s s1 s2 s3 p : tree_ok (nd_tree s) -> calm s s1 -> nd_tree s2 = set_chain (chain_to (objs_of s1) p) (nd_tree s1) ->
  nd_REWIND s2 = nd_REWIND s1 -> nd_points s2 = nd_points s1 -> calm s2 s3 ->
  moves same_fate s s3 (chain_to (objs_of s) p).
Proof.
  intros Hs Hc1 Ht Hr Hp Hc2. pose proof (rel_objs_impl _ _ _ _ same_fate_static (te_objs _ _ _ (cm_tree _ _ Hc1))) as Hst1.
  assert (E12 : tree_evolves same_fate (nd_tree s1) (nd_tree s2)) by (rewrite Ht; by apply evolves_intro).
  assert (Hok2 : tree_ok (nd_tree s2)).
  { eapply (moves_ok s1 s2 (chain_to (objs_of s1) p)); [by eapply calm_ok| |apply chain_to_ok]. split; [|by rewrite Ht|done|done].
    eapply tree_evolves_impl; [|exact E12]. apply same_fate_evolved. }
  split.
  - etrans; [apply Hc1|]. etrans; [exact E12|apply Hc2].
  - rewrite (cm_chain _ _ Hc2), Ht. cbn [chainActive set_chain]. by apply chain_to_static.
  - rewrite (cm_rewind _ _ Hc2), Hr. apply Hc1.
  - intros q Hq. pose proof (cm_points _ _ Hc1 q Hq Hs) as Ep. rewrite <- Ep, <- Hp. apply (cm_points _ _ Hc2 q); [|done].
    eapply (notarised_evolves s); [|congruence|done]. etrans; [|eapply tree_evolves_impl; [|exact E12]; apply same_fate_static].
    eapply tree_evolves_impl; [|apply Hc1]. apply same_fate_static.
Qed.

Lemma run_tip {B} (k : act B) p s sk (Q : verdict B * node -> Prop) : tree_ok (nd_tree s) -> calm s sk ->
  (forall q, p = Some q -> is_Some (objs_of s !! q)) -> calm_act k ->
  (forall x, moves same_fate s x.2 (chain_to (objs_of s) p) -> Q x) -> Q ((UpdateTip p ≫= fun _ => k) sk).
Proof.
  intros Hs Hc Hp Hk HQ. pose proof (rel_objs_impl _ _ _ _ same_fate_static (te_objs _ _ _ (cm_tree _ _ Hc))) as Hst.
  destruct (UpdateTip_run p sk) as (r & s3 & E & Ht & Hr & Hn); [by eapply calm_ok| |].
  { intros q Hq. destruct (Hp q Hq) as [b Hb]. destruct (rel_fwd q b Hst Hb) as (b' & ? & _). eauto. }
  unfold mbind, act_bind. rewrite E. destruct r as [e|u]; apply HQ; (eapply moves_around; [done|exact Hc|exact Ht|exact Hr|exact Hn|]); [reflexivity|]. apply Hk.
  rewrite Ht. pose proof (calm_ok _ _ Hc Hs) as [K1 K2 K3]. split; [|apply chain_to_ok|done].
  eapply candidates_evolve; [exact K1|done|by left|by left].
Qed.

Lemma notarized_value (s : node) p r s' : notarised s p -> tree_ok (nd_tree s) -> squishy_notarized_height s = (inr r, s') ->
  r = (notarized_height (last_cp (nd_points s)), notarized_hash (last_cp (nd_points s))).
Proof.
  intros (b & Hb & Hh & Hm) Hs. unfold squishy_notarized_height, NotarizedHeight. rewrite <- Hh, Hm, Hb. cbn [fmap option_fmap option_map].
  pose proof (c_wf _ (to_candidates _ Hs) p b Hb) as [H0 _]. rewrite (proj2 (Z.ltb_ge _ _)) by lia. by intros [= <- <-].
Qed.

Lemma DisconnectTip_spec fBare s : tree_ok (nd_tree s) -> let x := DisconnectTip W fBare s in
  (calm s x.2 /\ exists e, x.1 = inl e) \/
  (exists p b, Tip (chain_of s) = Some p /\ objs_of s !! p = Some b /\ ~ notarised s p /\ moves same_fate s x.2 (chain_to (objs_of s) (pprev b))).
Proof.
  intros Hs. cbv zeta. pattern (DisconnectTip W fBare s).
  match goal with |- ?P _ => set (Q := P) end. assert (Hstop : forall e s1, calm s s1 -> Q (inl e, s1)) by (intros e s1 Hc; left; eauto).
  unfold DisconnectTip, get_tip. rewrite run_get. destruct (Tip (chain_of s)) as [p|] eqn:Htip; [|by apply Hstop].
  apply (run_calm _ _ s s); auto with calm; try done. intros a s1 [= <- <-] _.
  apply (run_calm _ _ s s); auto with calm; try done. intros b s1. rewrite the_entry_run. destruct (objs_of s !! p) as [b'|] eqn:Hb; [|done].
  intros [= -> <-] _. destruct (ReadBlockFromDisk W b) as [block|] eqn:Hread; [|apply (run_calm _ _ s s); auto with calm; done].
  apply (run_calm _ _ s s); auto with calm; try done. intros a s1 [= <- <-] _.
  apply (run_calm _ _ s s); auto with calm; try done. intros nt s1 Hnt Hc1.
  apply (run_calm _ _ s s1); auto with calm. intros [] s2 Hfail Hc2.
  assert (Hnot : ~ notarised s p).
  { intros Hn. rewrite (notarized_value s p nt s1 Hn Hs Hnt) in Hfail. destruct Hn as (b' & Hb' & Hh & _). rewrite Hb in Hb'. injection Hb' as <-.
    unfold ReadBlockFromDisk in Hread. apply bind_Some in Hread as (bl & _ & Hread). destruct (Z.eqb_spec (en_GetHash (av_block W) (hdr bl)) (phashBlock b)) as [E|]; [|done].
    injection Hread as <-. cbn [snd] in Hfail. rewrite E, Hh, Z.eqb_refl in Hfail. done. }
  do 9 (apply run_calm with (s0 := s); [done|assumption|solve [calm]|by auto|intros ? ? _ ?]).
  match goal with Hc : calm s ?sk |- Q ((UpdateTip _ ≫= fun _ => ?k) ?sk) => apply (run_tip k (pprev b) s sk Q); [done|done| |calm|] end.
  - intros q Hq. destruct (c_wf _ (to_candidates _ Hs) p b Hb) as (_ & Hprev & _). rewrite Hq in Hprev. destruct Hprev as (c & ? & _). eauto.
  - intros x Hx. right. by exists p, b.
Qed.

Lemma chain_to_tip (s : node) : tree_ok (nd_tree s) -> chain_of s = chain_to (objs_of s) (Tip (chain_of s)).
Proof. intros Hs. apply chain_tip; apply Hs. Qed.

(** What is below the tip is in the chain without it. *)
Lemma below_tip_in_chain (s : node) p b q : tree_ok (nd_tree s) -> Tip (chain_of s) = Some p -> objs_of s !! p = Some b ->
  in_chain (objs_of s) (chain_of s) q -> q <> p -> in_chain (objs_of s) (chain_to (objs_of s) (pprev b)) q.
Proof.
  intros Hs Htip Hb Hin Hne. pose proof (c_wf _ (to_candidates _ Hs)) as Hwf.
  rewrite (chain_to_tip s Hs), Htip, (in_chain_to _ p b q Hwf Hb) in Hin. destruct (ancestor_cases _ q p b Hb Hin) as [->|(r & Er & Hr)]; [done|].
  rewrite Er. destruct (Hwf p b Hb) as (_ & Hprev & _). rewrite Er in Hprev. destruct Hprev as (c & Hc & _). by apply (in_chain_to _ r c).
Qed.

(** Taking out a tip that is not notarised, and connecting on top of the tip. *)
Lemma DisconnectTip_stays fBare s : tree_ok (nd_tree s) -> stays s (DisconnectTip W fBare s).2.
Proof.
  intros Hs. destruct (DisconnectTip_spec fBare s Hs) as [[Hc _]|(p & b & Htip & Hb & Hnot & Hm)]; [by apply stays_calm|].
  eapply stays_moves; [done|eapply moves_weaken; [apply same_fate_evolved|exact Hm]|apply chain_to_ok|].
  intros q Hq Hin. eapply below_tip_in_chain; [done|done|done|done|]. by intros ->.
Qed.

Lemma extend_in_chain (s : node) p b q : tree_ok (nd_tree s) -> objs_of s !! p = Some b -> pprev b = Tip (chain_of s) ->
  in_chain (objs_of s) (chain_of s) q -> in_chain (objs_of s) (chain_to (objs_of s) (Some p)) q.
Proof.
  intros Hs Hb Hprev Hin. pose proof (c_wf _ (to_candidates _ Hs)) as Hwf. apply (in_chain_to _ p b q Hwf Hb).
  destruct (Tip (chain_of s)) as [t|] eqn:Htip.
  - destruct (proj2 (chain_tip _ _ Hwf (to_chain _ Hs)) t Htip) as [c Hc].
    rewrite (chain_to_tip s Hs), Htip, (in_chain_to _ t c q Hwf Hc) in Hin. eapply ancestor_trans; [done|]. by eapply ancestor_prev.
  - rewrite (chain_to_tip s Hs), Htip in Hin. unfold in_chain, Contains, chain_to in Hin. destruct (objs_of s !! q) as [c|]; [|done].
    cbn in Hin. apply (inj Some), bool_decide_eq_true_1 in Hin. unfold chain_at in Hin. cbn in Hin. by destruct (_ || _) in Hin.
Qed.

Lemma InvalidBlockFound_spec p e s : tree_ok (nd_tree s) -> CorruptionPossible e = false -> let x := InvalidBlockFound (Tree := Tree) (V := V) p e s in
  moves evolved s x.2 (chain_of s) /\ (forall e', x.1 = inl e' -> IsInvalid e' = false) /\
  (forall u, x.1 = inr u -> exists b', objs_of x.2 !! p = Some b' /\ failed b' = true).
Proof.
  intros Hs He. cbv zeta. unfold InvalidBlockFound. rewrite He.
  pose proof (update_entry_run p (fun b => set_nStatus (Z.lor (nStatus b) BLOCK_FAILED_VALID) b) s) as Hu. destruct (objs_of s !! p) as [b|] eqn:Hb.
  2:{ rewrite (bind_stop _ _ _ _ _ Hu). split_and!; [|by intros ? [= <-]|done]. eapply moves_weaken; [apply same_fate_evolved|]. by apply calm_moves. }
  rewrite (bind_run _ _ _ _ _ Hu). erewrite bind_run by reflexivity. set (s1 := with_tree (erase_candidate p _) _).
  assert (M1 : moves evolved s s1 (chain_of s)).
  { split; try done. apply evolves_intro; cbn; [|done|set_solver|done]. eapply rel_objs_update; [apply _|done|]. by apply set_failed_evolved. }
  pose proof (moves_ok _ _ _ Hs M1 (to_chain _ Hs)) as Hs1. pose proof (calm_invalid_chain p s1 Hs1) as Hc. pose proof (quiet_invalid_chain p s1) as Hq.
  destruct (InvalidChainFound p s1) as [r s2]. cbn [fst snd] in *. split; [|split; [done|]].
  - destruct M1 as [A1 A2 A3 A4], Hc as [B1 B2 B3 B4]. split; [|congruence|congruence|].
    + etrans; [exact A1|]. eapply tree_evolves_impl; [apply same_fate_evolved|exact B1].
    + intros q Hn. rewrite <- (A4 q Hn). apply (B4 q); [|done]. eapply (notarised_evolves s); [|by apply (A4 q)|done].
      eapply tree_evolves_impl; [apply evolved_static|exact A1].
  - intros u _. assert (Hp1 : objs_of s1 !! p = Some (set_nStatus (Z.lor (nStatus b) BLOCK_FAILED_VALID) b)) by apply lookup_insert_eq.
    destruct (rel_fwd p _ (te_objs _ _ _ (cm_tree _ _ Hc)) Hp1) as (b' & Hb' & [_ Hf]). exists b'. split; [done|]. rewrite Hf, set_status_failed. cbn. by rewrite orb_true_r.
Qed.

(** The same for a step that rejects no block. *)
Lemma run_quiet {A B} (m : act A) (f : A -> act B) s0 s (Q : verdict B * node -> Prop) : tree_ok (nd_tree s0) -> calm s0 s -> calm_act m -> quiet m ->
  (forall e s1, IsInvalid e = false -> calm s0 s1 -> Q (inl e, s1)) -> (forall a s1, m s = (inr a, s1) -> calm s0 s1 -> Q (f a s1)) -> Q ((m ≫= f) s).
Proof.
  intros Hs0 Hc Hm Hq He Hf. eapply run_calm; [done|done|done| |done]. intros e s1 E Hc1. apply He; [|done]. apply (Hq s). by rewrite E.
Qed.

(** How a call of ConnectTip ends. *)
Definition connect_end (p : Z) (s : node) (x : verdict unit * node) : Prop :=
  match x.1 with
  | inr _ => exists b, objs_of s !! p = Some b /\ pprev b = Tip (chain_of s) /\ moves same_fate s x.2 (chain_to (objs_of s) (Some p))
  | inl r =>
    (calm s x.2 /\ (IsInvalid r = true -> CorruptionPossible r = true)) \/
    (moves evolved s x.2 (chain_of s) /\ (IsInvalid r = true -> exists b', objs_of x.2 !! p = Some b' /\ failed b' = true)) \/
    (IsInvalid r = false /\ exists b, objs_of s !! p = Some b /\ pprev b = Tip (chain_of s) /\ moves same_fate s x.2 (chain_to (objs_of s) (Some p)))
  end.

Lemma moves_after_calm s s1 s2 v : tree_ok (nd_tree s) -> calm s s1 -> moves evolved s1 s2 v -> moves evolved s s2 v.
Proof.
  intros Hs [A1 A2 A3 A4] [B1 B2 B3 B4]. split; [|done|congruence|].
  - etrans; [|exact B1]. eapply tree_evolves_impl; [apply same_fate_evolved|exact A1].
  - intros q Hq. rewrite <- (A4 q Hq Hs). apply (B4 q). eapply (notarised_evolves s); [|by apply (A4 q)|done].
    eapply tree_evolves_impl; [apply same_fate_static|exact A1].
Qed.

Lemma ConnectTip_spec p pblock s : tree_ok (nd_tree s) -> connect_end p s (ConnectTip W p pblock s).
Proof.
  intros Hs. set (Q := connect_end p s). assert (Hstop : forall e s1, IsInvalid e = false -> calm s s1 -> Q (inl e, s1)).
  { intros e s1 He Hc. left. split; [done|]. cbn. by rewrite He. }
  unfold ConnectTip, get_tip.
  apply (run_quiet _ _ s s); auto with calm quiet; try done. intros b s1. rewrite the_entry_run. destruct (objs_of s !! p) as [b'|] eqn:Hb; [|done].
  intros [= -> <-] _. rewrite run_get.
  apply (run_quiet _ _ s s); auto with calm quiet; try done. intros [] s1 Hprev Hc1.
  assert (Ep : pprev b = Tip (chain_of s)).
  { unfold fail_if in Hprev. destruct (bool_decide _) eqn:E; [by apply bool_decide_eq_true_1 in E|done]. }
  assert (Hblock : quiet (Tree := Tree) (V := V) (match pblock with Some block => mret block | None => match ReadBlockFromDisk W b with Some block => mret block | None => fails Failed end end)) by quiet.
  apply (run_quiet _ _ s s1); auto with calm quiet; [calm|]. clear Hblock. intros block s2 _ Hc2.
  apply (run_quiet _ _ s s2); auto with calm quiet; [calm|quiet|]. intros trees s3 _ Hc3.
  apply (run_calm _ _ s s3); auto with calm; [apply calm_attempt; auto with calm|unfold attempt; intros e s4; by destruct (connect_on_tip _ _ _ _)|].
  intros r s4 _ Hc4. destruct r as [r|c].
  - assert (Hr : IsInvalid r = true -> Q ((_ ← (if IsInvalid r then InvalidBlockFound p r else mret tt); fails r) s4)).
    { intros Hi. rewrite Hi. destruct (CorruptionPossible r) eqn:Ec.
      - unfold InvalidBlockFound. rewrite Ec. left. split; [done|]. intros _. exact Ec.
      - pose proof (InvalidBlockFound_spec p r s4 (calm_ok _ _ Hc4 Hs) Ec) as (M1 & M2 & M3). unfold mbind at 1, act_bind at 1.
        rewrite (cm_chain _ _ Hc4) in M1. pose proof (moves_after_calm _ _ _ _ Hs Hc4 M1) as M1'.
        destruct (InvalidBlockFound p r s4) as [[e|u] s5]; cbn [fst snd] in *.
        + right. left. split; [done|]. cbn. by rewrite M2.
        + right. left. split; [done|]. intros _. by apply (M3 u). }
    destruct r; try by apply Hr. all: by apply Hstop.
  - apply (run_quiet _ _ s s4); auto with calm quiet; [calm|quiet|]. intros [] s5 _ Hc5.
    apply (run_quiet _ _ s s5); auto with calm quiet. intros conf s6 _ Hc6.
    match goal with |- Q ((UpdateTip _ ≫= fun _ => ?k) ?sk) => assert (Hk : quiet k) by quiet; pose proof (quiet_bind (UpdateTip (Some p)) (fun _ => k) (quiet_UpdateTip _) (fun _ => Hk) sk) as Hq;
      revert Hq; apply (run_tip k (Some p) s sk (fun x => (forall e, x.1 = inl e -> IsInvalid e = false) -> Q x)); [done|done| |calm|] end.
    + intros q [= <-]. eauto.
    + intros x Hx Hq. unfold Q, connect_end. destruct (x.1) as [e|u]; [|by exists b]. right. right. split; [by apply Hq|]. by exists b.
Qed.

Lemma ConnectTip_stays p pblock s : tree_ok (nd_tree s) -> stays s (ConnectTip W p pblock s).2.
Proof.
  intros Hs. pose proof (ConnectTip_spec p pblock s Hs) as Hx. unfold connect_end in Hx. destruct (ConnectTip W p pblock s) as [r s']. cbn [fst snd] in *.
  assert (Hmv : forall b, objs_of s !! p = Some b -> pprev b = Tip (chain_of s) -> moves same_fate s s' (chain_to (objs_of s) (Some p)) -> stays s s').
  { intros b Hb Ep Hm. eapply stays_moves; [done|eapply moves_weaken; [apply same_fate_evolved|exact Hm]|apply chain_to_ok|]. intros q _. by eapply extend_in_chain. }
  destruct r as [r|u]; [destruct Hx as [[Hc _]|[[Hm _]|(_ & b & Hb & Ep & Hm)]]|destruct Hx as (b & Hb & Ep & Hm)]; [by apply stays_calm| |by eapply Hmv|by eapply Hmv].
  eapply stays_moves; [done|exact Hm|apply Hs|done].
Qed.
End Moves.

(** ** A notarised block stays in the chain *)

Section Stays.
Context {Tree V : Type} `{!MerkleTree Tree} `{!CoinsView Tree V} `{!CoinsMemory}.
Abbreviation node := (node Tree V).
Abbreviation act := (@act Tree V).
Abbreviation objs_of s := (objs (nd_tree s)).
Abbreviation chain_of s := (chainActive (nd_tree s)).
Context (W : activate_env Tree V).

Definition stays_act {A} (m : act A) : Prop := forall s, tree_ok (nd_tree s) -> stays s (m s).2.

Lemma stays_of_calm {A} (m : act A) : calm_act m -> stays_act m.
Proof. intros Hm s Hs. apply stays_calm; auto. Qed.

Lemma stays_bind {A B} (m : act A) (f : A -> act B) : stays_act m -> (forall a, stays_act (f a)) -> stays_act (m ≫= f).
Proof.
  intros Hm Hf s Hs. specialize (Hm s Hs). unfold mbind, act_bind. destruct (m s) as [[e|a] s1]; [done|]. cbn [snd] in Hm.
  eapply stays_trans; [exact Hm|]. apply Hf, Hm.
Qed.

Lemma stays_attempt {A} (m : act A) : stays_act m -> stays_act (attempt m).
Proof. intros Hm s Hs. specialize (Hm s Hs). unfold attempt. by destruct (m s). Qed.

Lemma stays_if {A} (b : bool) (m1 m2 : act A) : stays_act m1 -> stays_act m2 -> stays_act (if b then m1 else m2).
Proof. by destruct b. Qed.

Lemma stays_rewind r : stays_act (put (with_rewind (Tree := Tree) (V := V) r)).
Proof. intros s Hs. by split. Qed.

Lemma stays_tree (s : node) (t : tree) : tree_ok (nd_tree s) -> tree_evolves evolved (nd_tree s) t -> chainActive t = chainActive (nd_tree s) -> stays s (with_tree t s).
Proof. intros Hs He Hc. eapply stays_moves; [done| |apply Hs|done]. by split. Qed.

Lemma stays_fail p m : Z.testbit m 3 = false -> Z.testbit m 8 = false ->
  stays_act (A := unit) (update_entry (Tree := Tree) (V := V) p (fun b => set_nStatus (Z.lor (nStatus b) m) b)).
Proof.
  intros H3 H8 s Hs. rewrite update_entry_run. destruct (objs_of s !! p) as [b|] eqn:Hb; [|by apply stays_refl].
  apply stays_tree; [done| |done]. apply evolves_intro; cbn; [|done|done|done].
  eapply rel_objs_update; [apply _|done|]. by apply set_failed_evolved.
Qed.

Lemma stays_erase p : stays_act (A := unit) (on_tree (fun t => Some (erase_candidate p t))).
Proof. intros s Hs. apply stays_tree; [done| |done]. apply evolves_intro; cbn; [done|done|set_solver|done]. Qed.

Lemma stays_readd : stays_act (A := unit) (on_tree readd_candidates).
Proof.
  intros s Hs. unfold on_tree, readd_candidates. destruct (Tip (chain_of s)) as [t|].
  - cbn [snd]. split; cbn [with_tree nd_tree objs mapBlockIndex chainActive]; [|done|done|done].
    pose proof Hs as [H1 H2 H3]. split; [|done|done]. eapply candidates_evolve; [exact H1|done| |by left].
    cbn [setBlockIndexCandidates objs]. intros x [Hx|Hx]%elem_of_union; [|by left]. right.
    by apply elem_of_list_to_set, list_elem_of_filter in Hx as [_ [Hx _]%list_elem_of_filter].
  - destruct (decide _); [|by apply stays_refl]. by apply stays_tree.
Qed.

Lemma stays_prune : stays_act (A := unit) (on_tree PruneBlockIndexCandidates).
Proof.
  intros s Hs. unfold on_tree, PruneBlockIndexCandidates. destruct (Tip (chain_of s)) as [t|]; [|by apply stays_refl]. cbn [mbind option_bind].
  destruct (decide _); [by apply stays_refl|]. eapply stays_moves; [done| |apply Hs|done]. split; try done.
  apply evolves_intro; cbn; [done|done|set_solver|done].
Qed.
End Stays.

Create HintDb stays.
#[export] Hint Resolve stays_rewind stays_fail stays_erase stays_readd stays_prune DisconnectTip_stays ConnectTip_stays : stays.

Ltac stays :=
  repeat first
    [ solve [auto with stays]
    | apply stays_of_calm; solve [calm]
    | apply stays_bind; [|intros]
    | apply stays_attempt
    | apply stays_if
    | match goal with |- stays_act (match ?x with _ => _ end) => destruct x end ].

Section StaysSteps.
Context {Tree V : Type} `{!MerkleTree Tree} `{!CoinsView Tree V} `{!CoinsMemory}.
Abbreviation node := (node Tree V).
Context (W : activate_env Tree V).

Lemma stays_disconnect fBare : stays_act (DisconnectTip W fBare).
Proof. intros s Hs. by apply DisconnectTip_stays. Qed.
Lemma stays_connect p pblock : stays_act (ConnectTip W p pblock).
Proof. intros s Hs. by apply ConnectTip_stays. Qed.
#[local] Hint Resolve stays_disconnect stays_connect : stays.

Lemma stays_invalidate_loop p : forall fuel, stays_act (invalidate_loop W fuel p).
Proof. induction fuel as [|fuel IH]; cbn [invalidate_loop]; unfold get_tip; stays. Qed.
#[local] Hint Resolve stays_invalidate_loop : stays.

Lemma stays_InvalidateBlock p : stays_act (InvalidateBlock W p).
Proof. unfold InvalidateBlock. stays. Qed.
#[local] Hint Resolve stays_InvalidateBlock : stays.

Lemma stays_ignore {A} (m : @act Tree V A) : stays_act m -> stays_act (ignore m).
Proof. intros Hm. unfold ignore. stays. Qed.

Lemma calm_height p : calm_act (Tree := Tree) (V := V) (height_of p).
Proof. unfold height_of. destruct p; calm. Qed.
#[local] Hint Resolve stays_ignore calm_height : stays calm.

Lemma stays_disconnect_to f : forall fuel b, stays_act (disconnect_to W fuel f b).
Proof. induction fuel as [|fuel IH]; intros b; cbn [disconnect_to]; unfold get_tip; stays. Qed.
Lemma stays_rewind_loop : forall fuel b, stays_act (rewind_loop W fuel b).
Proof. induction fuel as [|fuel IH]; intros b; cbn [rewind_loop]; unfold get_tip; stays. Qed.
#[local] Hint Resolve stays_disconnect_to stays_rewind_loop : stays.
Lemma stays_rewind_all fuel b : stays_act (rewind_all W fuel b).
Proof. unfold rewind_all, get_tip. stays. Qed.
Lemma calm_tip_better old : calm_act (Tree := Tree) (V := V) (tip_better old).
Proof. unfold tip_better, get_tip. destruct old; calm. Qed.
#[local] Hint Resolve calm_tip_better : calm.
Lemma stays_connect_list most old pblock lowest : forall l, stays_act (connect_list W most old pblock lowest l).
Proof. induction l as [|p l IH]; cbn [connect_list]; stays. Qed.
#[local] Hint Resolve stays_rewind_all stays_connect_list : stays.
Lemma stays_connect_rounds most old pblock : forall fuel h, stays_act (connect_rounds W fuel most old pblock h).
Proof. induction fuel as [|fuel IH]; intros h; cbn [connect_rounds]; stays. Qed.
#[local] Hint Resolve stays_connect_rounds : stays.

Lemma stays_Step skip most pblock : stays_act (ActivateBestChainStep W skip most pblock).
Proof. unfold ActivateBestChainStep, get_tip. stays. Qed.

Lemma ActivateBestChain_stays skip pblock : forall fuel s r s', tree_ok (nd_tree s) -> ActivateBestChain W fuel skip pblock s = Some (r, s') -> stays s s'.
Proof.
  induction fuel as [|fuel IH]; intros s r s' Hs; cbn [ActivateBestChain]; [done|].
  assert (Hfl : forall s1 r1 s2, stays s s1 -> Some (FlushStateToDisk W FLUSH_STATE_PERIODIC s1) = Some (r1, s2) -> stays s s2).
  { intros s1 r1 s2 H1 [= E]. pose proof (stays_of_calm _ (calm_flush W FLUSH_STATE_PERIODIC) s1 (st_ok _ _ H1)) as H2. rewrite E in H2.
    by eapply stays_trans. }
  destruct (av_ShutdownRequested W s); [apply Hfl; by apply stays_refl|].
  destruct (FindMostWorkChain (nd_tree s)) as [[t o]|] eqn:Hf; [|intros [= <- <-]; by apply stays_refl].
  apply most_work_evolves in Hf as [He Hc]. pose proof (stays_tree s t Hs He Hc) as H1. destruct o as [most|]; [|by intros [= <- <-]].
  destruct (bool_decide _); [by intros [= <- <-]|]. destruct (objs t !! most) as [b|]; [|by intros [= <- <-]].
  match goal with |- context [ActivateBestChainStep W skip most ?x ?y] => pose proof (stays_Step skip most x y (st_ok _ _ H1)) as H2; destruct (ActivateBestChainStep W skip most x y) as [[e|u] s2] end;
    cbn [snd] in H2; pose proof (stays_trans _ _ _ H1 H2) as H3; [by intros [= <- <-]|].
  destruct (Tip _) as [q|]; [|by intros [= <- <-]]. destruct (most =? q); [by apply Hfl|]. intros E. eapply stays_trans; [exact H3|].
  by eapply IH; [apply H3|].
Qed.
End StaysSteps.
