(* ===== verification/ActivateEnd.v ===== *)
(** * The rounds of ActivateBestChain (src/src/main.cpp)

    Only CheckBlock calls a block corrupted; without such an answer each round of
    ActivateBestChain ends it, makes the tip better or marks a block as failed.  The
    loops inside a round end within the bounds of the model. *)
From Stdlib Require Ascii String.
From S2P Require Import Prelude Serialize Arith256 Transaction Compressor Coins CoinsView CoinsCache UpdateCoins Ledger Interest Script SigHash CheckTx BlockIndex TxInputs Notary Upgrades Checkpoints BlockChecks ConnectTxs Mempool MempoolAccept BlockTree ConnectBlock BlockEffect ActivateChain ActivateEffect.
From stdpp Require Import strings.
Import String.StringSyntax.
#[local] Open Scope string_scope.
#[local] Open Scope Z_scope.

(** ** Only CheckBlock speaks of corruption *)

Section Clean.
Context {S : Type}.

(** No error of the computation says that the block may be corrupted. *)
Definition clean {A} (m : S -> verdict A * S) : Prop := forall s e, (m s).1 = inl e -> CorruptionPossible e = false.

Lemma clean_ret {A} (a : A) : clean (fun s => (inr a, s)).
Proof. done. Qed.

Lemma clean_stop {A} r : CorruptionPossible r = false -> clean (fun s => (inl r : verdict A, s)).
Proof. by intros Hr s e [= <-]. Qed.

Lemma clean_run {A B} (m : S -> verdict A * S) (f : A -> S -> verdict B * S) : clean m -> (forall a, clean (f a)) ->
  clean (fun s => match m s with (inl e, s') => (inl e, s') | (inr a, s') => f a s' end).
Proof. intros Hm Hf s e. specialize (Hm s). destruct (m s) as [[r|a] s1]; [intros [= ->]; by apply Hm|]. apply Hf. Qed.

Lemma clean_if {A} (b : bool) (m1 m2 : S -> verdict A * S) : clean m1 -> clean m2 -> clean (if b then m1 else m2).
Proof. by destruct b. Qed.
End Clean.

Create HintDb clean.
#[export] Hint Resolve clean_ret clean_stop : clean.

Section CleanChecks.
Context {Tree V : Type} `{!MerkleTree Tree} `{!CoinsView Tree V} `{!CoinsMemory}.
Abbreviation check := (@check Tree V).
Abbreviation bcheck := (@bcheck Tree V).

Lemma clean_check_ret {A} (a : A) : clean (mret a : check A).
Proof. done. Qed.
Lemma clean_check_bind {A B} (m : check A) (f : A -> check B) : clean m -> (forall a, clean (f a)) -> clean (m ≫= f).
Proof. exact (clean_run m f). Qed.
Lemma clean_check_stop {A} r : CorruptionPossible r = false -> clean (stop r : check A).
Proof. exact (clean_stop r). Qed.
Lemma clean_stop_if b r : CorruptionPossible r = false -> clean (stop_if b r : check unit).
Proof. intros Hr. unfold stop_if. destruct b; [by apply clean_check_stop|done]. Qed.
Lemma clean_of_option {A} (o : option A) : clean (of_option o : check A).
Proof. unfold of_option. destruct o; [done|by apply clean_check_stop]. Qed.
Lemma clean_AccessCoins txid : clean (c_AccessCoins txid : check _).
Proof. intros s e. unfold c_AccessCoins. by destruct (AccessCoins _ _). Qed.
Lemma clean_GetNullifier t nf : clean (c_GetNullifier t nf : check _).
Proof. intros s e. unfold c_GetNullifier. by destruct (Cache_GetNullifier _ _ _). Qed.
Lemma clean_GetAnchorAt t rt : clean (c_GetAnchorAt t rt : check _).
Proof. intros s e. unfold c_GetAnchorAt. by destruct (Cache_GetAnchorAt _ _ _). Qed.
Lemma clean_GetBestBlock : clean (c_GetBestBlock : check _).
Proof. intros s e. unfold c_GetBestBlock. by destruct (Cache_GetBestBlock _). Qed.
Lemma clean_GetBestAnchor t : clean (c_GetBestAnchor t : check _).
Proof. intros s e. unfold c_GetBestAnchor. by destruct (Cache_GetBestAnchor _ _). Qed.
Lemma clean_UpdateCoins txid tx h : clean (c_UpdateCoins txid tx h : check _).
Proof. intros s e. unfold c_UpdateCoins. destruct (UpdateCoins _ _ _ _) as [[? ?]|]; [done|by intros [= <-]]. Qed.

Lemma clean_bcheck_ret {A} (a : A) : clean (mret a : bcheck A).
Proof. done. Qed.
Lemma clean_bcheck_bind {A B} (m : bcheck A) (f : A -> bcheck B) : clean m -> (forall a, clean (f a)) -> clean (m ≫= f).
Proof. exact (clean_run m f). Qed.
Lemma clean_on_view {A} (m : check A) : clean m -> clean (on_view m).
Proof. intros Hm s e. specialize (Hm (cs_view s)). unfold on_view. destruct (m (cs_view s)). apply Hm. Qed.
Lemma clean_set_view f : clean (set_view f : bcheck unit).
Proof. done. Qed.
Lemma clean_get_entry : clean (get_entry : bcheck _).
Proof. done. Qed.
Lemma clean_set_entry f : clean (set_entry f : bcheck _).
Proof. done. Qed.
Lemma clean_set_index f : clean (set_index f : bcheck _).
Proof. done. Qed.
Lemma clean_write_undo pos u h : clean (write_undo pos u h : bcheck _).
Proof. done. Qed.
Lemma clean_refuse_if b r : CorruptionPossible r = false -> clean (refuse_if b r : bcheck unit).
Proof. intros Hr. by apply clean_on_view, clean_stop_if. Qed.
Lemma clean_from_option {A} (o : option A) : clean (ConnectBlock.from_option o : bcheck A).
Proof. apply clean_on_view, clean_of_option. Qed.
End CleanChecks.

#[export] Hint Resolve clean_check_ret clean_check_stop clean_stop_if clean_of_option clean_AccessCoins clean_GetNullifier clean_GetAnchorAt clean_GetBestBlock
  clean_GetBestAnchor clean_UpdateCoins clean_bcheck_ret clean_on_view clean_set_view clean_get_entry clean_set_entry clean_set_index clean_write_undo clean_refuse_if
  clean_from_option : clean.

Ltac clean :=
  repeat first
    [ solve [auto with clean]
    | apply clean_check_bind; [|intros]
    | apply clean_bcheck_bind; [|intros]
    | apply clean_on_view
    | apply clean_if
    | match goal with |- clean (match ?x with _ => _ end) => destruct x end ].

Section CleanBlock.
Context {Tree V : Type} `{!MerkleTree Tree} `{!CoinsView Tree V} `{!CoinsMemory}.
Abbreviation check := (@check Tree V).
Abbreviation bcheck := (@bcheck Tree V).

Lemma clean_output_for i : clean (GetOutputFor i : check _).
Proof. unfold GetOutputFor. clean. Qed.
Lemma clean_have_inputs l : clean (have_inputs_loop l : check _).
Proof. induction l as [|i l IH]; cbn [have_inputs_loop]; clean. Qed.
Lemma clean_any_nullifier t l : clean (any_nullifier t l : check _).
Proof. induction l as [|i l IH]; cbn [any_nullifier]; clean. Qed.
#[local] Hint Resolve clean_output_for clean_have_inputs clean_any_nullifier : clean.
Lemma clean_js_requirements l : forall m, clean (js_requirements m l : check _).
Proof. induction l as [|i l IH]; intros m; cbn [js_requirements]; clean. Qed.
Lemma clean_spend_requirements l : clean (spend_requirements l : check _).
Proof. induction l as [|i l IH]; cbn [spend_requirements]; clean. Qed.
#[local] Hint Resolve clean_js_requirements clean_spend_requirements : clean.
Lemma clean_HaveInputs tx : clean (HaveInputs tx : check _).
Proof. unfold HaveInputs. clean. Qed.
Lemma clean_HaveRequirements tx : clean (HaveJoinSplitRequirements tx : check _).
Proof. unfold HaveJoinSplitRequirements. clean. Qed.
#[local] Hint Resolve clean_HaveInputs clean_HaveRequirements : clean.
Lemma clean_value_in kmd ci h l : forall a b, clean (value_in_loop kmd ci h l a b : check _).
Proof. induction l as [|i l IH]; intros a b; cbn [value_in_loop]; clean. Qed.
#[local] Hint Resolve clean_value_in : clean.
Lemma clean_GetValueIn R kmd ci imp h tx : clean (GetValueIn R kmd ci imp h tx : check _).
Proof. unfold GetValueIn. clean. Qed.
Lemma clean_inputs_loop R kmd ci a1 a2 a3 f m p tx h l : forall v, clean (inputs_loop R kmd ci a1 a2 a3 f m p tx h l v : check _).
Proof. induction l as [|i l IH]; intros v; cbn [inputs_loop]; unfold check_coinbase; clean. Qed.
#[local] Hint Resolve clean_GetValueIn clean_inputs_loop : clean.
Lemma clean_CheckTxInputs R kmd ci a1 a2 a3 f m p tx h : clean (CheckTxInputs R kmd ci a1 a2 a3 f m p tx h : check _).
Proof. unfold CheckTxInputs. clean. Qed.
#[local] Hint Resolve clean_CheckTxInputs : clean.

Context (C : connect_env) (o : store) (mbi : gmap Z (option Z)).
Lemma clean_p2sh l : forall k, clean (p2sh_loop l k : check _).
Proof. induction l as [|i l IH]; intros k; cbn [p2sh_loop]; clean. Qed.
Lemma clean_script_loop flags branch tx l : forall i pv, clean (script_loop C flags branch tx i l pv : check _).
Proof.
  induction l as [|i l IH]; intros k pv; cbn [script_loop]; clean. apply clean_check_stop. by case_match.
Qed.
#[local] Hint Resolve clean_p2sh clean_script_loop : clean.
Lemma clean_inputs tx f flags branch : clean (ContextualCheckInputs C o mbi tx f flags branch : check _).
Proof. unfold ContextualCheckInputs, GetSpendHeight. clean. Qed.
#[local] Hint Resolve clean_inputs : clean.
Lemma clean_connect_loop h th f flags branch l : forall a, clean (connect_loop C o mbi h th f flags branch l a : check _).
Proof.
  induction l as [|[txid tx] l IH]; intros a; cbn [connect_loop]; clean.
Qed.
Lemma clean_BIP30 l : clean (check_BIP30 l : check _).
Proof. induction l as [|[txid tx] l IH]; cbn [check_BIP30]; clean. Qed.
Lemma clean_best_trees : clean (best_trees : check _).
Proof. unfold best_trees. clean. Qed.
End CleanBlock.
#[export] Hint Resolve clean_connect_loop clean_BIP30 clean_best_trees : clean.

(** What a checker promises of a block: CheckBlock and ContextualCheckBlock do not call it
    corrupted, whatever else they find. *)
Class UncorruptedBlock (K : block_checker) (block : CBlock) : Prop := {
  uncorrupted_check : forall strict height prev_time pow merkle, clean (bc_CheckBlock K strict height prev_time block pow merkle).2;
  uncorrupted_context : forall prev r, bc_ContextualCheckBlock K block prev = inl r -> CorruptionPossible r = false
}.

Section CleanConnect.
Context {Tree V : Type} `{!MerkleTree Tree} `{!CoinsView Tree V} `{!CoinsMemory}.
Context (N : block_env) (o : store) (mbi : gmap Z (option Z)) (tipheight : Z) (prev_branch : option Z) (prev_pay : Z).
Abbreviation bcheck := (@bcheck Tree V).

Lemma clean_write_block u : clean (write_block N o prev_branch u : bcheck _).
Proof. unfold write_block. cbv zeta. clean. Qed.
#[local] Hint Resolve clean_write_block : clean.

Lemma clean_connect_transactions b j pow exp r pay : clean (connect_transactions N o mbi tipheight b j pow exp r pay : bcheck _).
Proof. unfold connect_transactions. cbv zeta. clean. Qed.
#[local] Hint Resolve clean_connect_transactions : clean.

Lemma clean_reward cb h r : clean (check_reward N cb h r : bcheck _).
Proof. unfold check_reward. cbv zeta. clean. Qed.
Lemma clean_notary_pay b h r : clean (notary_pay N b h r : bcheck _).
Proof. unfold notary_pay. cbv zeta. clean. Qed.
#[local] Hint Resolve clean_reward clean_notary_pay : clean.

Lemma clean_connect_checked p b j pow exp `{!UncorruptedBlock (en_checker N) b} :
  clean (connect_checked N o mbi tipheight prev_branch prev_pay p b j pow exp : bcheck _).
Proof.
  unfold connect_checked. cbv zeta. apply clean_bcheck_bind; [clean|]. intros e. apply clean_bcheck_bind; [|intros; clean].
  apply clean_if; [|clean]. pose proof (uncorrupted_context (pprev (be_index e))) as Hr. destruct (bc_ContextualCheckBlock _ _ _) as [r|]; [|clean].
  specialize (Hr r eq_refl). destruct r; clean.
Qed.

Lemma clean_ConnectBlock p b st `{!UncorruptedBlock (en_checker N) b} s r st' s' :
  ConnectBlock (Tree := Tree) (V := V) N o mbi tipheight prev_branch prev_pay p b false true st s = (inl r, st', s') -> CorruptionPossible r = false.
Proof.
  unfold ConnectBlock. destruct (en_SUPERLITE N); [done|]. destruct (_ && _); [by intros [= <-]|]. destruct (expensive_checks _ _ _ _ _) as [e|]; [|by intros [= <-]].
  pose proof (uncorrupted_check e (nHeight (be_index (cs_entry s))) (bi_nTime <$> (pprev (be_index (cs_entry s)) ≫= fun q => o !! q)) true (negb false)) as Hc.
  destruct (bc_CheckBlock _ _ _ _ _ _ _) as [future checked]. cbn [snd] in Hc. specialize (Hc st). destruct (checked st) as [[x|u] st1].
  - intros [= <- _ _]. by apply Hc.
  - destruct future; [by intros [= <-]|]. pose proof (clean_connect_checked p b false true e s) as Hk.
    destruct (connect_checked _ _ _ _ _ _ _ _ _ _ _ _) as [x s1]. intros [= -> _ _]. by apply Hk.
Qed.
End CleanConnect.

Section CleanTip.
Context {Tree V : Type} `{!MerkleTree Tree} `{!CoinsView Tree V} `{!CoinsMemory}.
Context (W : activate_env Tree V).

Lemma clean_connect_on_tip p block `{!UncorruptedBlock (en_checker (av_block W)) block} : clean (connect_on_tip W p block).
Proof.
  intros s e. unfold connect_on_tip. unfold mbind at 1, act_bind at 1. pose proof (block_entry_run p s) as He.
  destruct (objs (nd_tree s) !! p) as [b|]; [|rewrite He; by intros [= <-]]. destruct He as (x & -> & _).
  unfold mbind at 1, act_bind at 1, get. cbv zeta beta. unfold id.
  destruct (ConnectBlock _ _ _ _ _ _ _ _ _ _ _ _) as [[r st'] s1] eqn:Ek. unfold mbind at 1, act_bind at 1.
  assert (Hl : quiet (leave (Tree := Tree) (V := V) p s1)) by (unfold leave, update_entry, update_extra; quiet).
  specialize (Hl s). destruct (leave p s1 s) as [[l|[]] s2]; cbn [fst] in *.
  - intros [= ->]. specialize (Hl e eq_refl). by destruct e.
  - destruct r as [r|u]; [|done]. intros [= <-]. by eapply (clean_ConnectBlock (V := CCoinsViewCache Tree V)).
Qed.
End CleanTip.

(** ** Entries evolve, the candidates shrink *)

Section Advance.
Context {Tree V : Type} `{!MerkleTree Tree} `{!CoinsView Tree V} `{!CoinsMemory}.
Abbreviation node := (node Tree V).
Abbreviation act := (@act Tree V).
Abbreviation objs_of s := (objs (nd_tree s)).
Abbreviation chain_of s := (chainActive (nd_tree s)).
Context (W : activate_env Tree V).

Record drift (R : CBlockIndex -> CBlockIndex -> Prop) (s s' : node) : Prop := {
  dr_ok : tree_ok (nd_tree s');
  dr_tree : tree_evolves R (nd_tree s) (nd_tree s');
  dr_rewind : nd_REWIND s' = nd_REWIND s
}.

Lemma drift_refl R s : PreOrder R -> tree_ok (nd_tree s) -> drift R s s.
Proof. by split. Qed.

Lemma drift_trans R s1 s2 s3 : PreOrder R -> drift R s1 s2 -> drift R s2 s3 -> drift R s1 s3.
Proof. intros HR [A1 A2 A3] [B1 B2 B3]. split; [done|by etrans|congruence]. Qed.

Lemma drift_evolved s s' : drift same_fate s s' -> drift evolved s s'.
Proof. intros [H1 H2 H3]. split; [done| |done]. eapply tree_evolves_impl; [apply same_fate_evolved|done]. Qed.

Lemma drift_static s s' : drift evolved s s' -> rel_objs same_static (objs_of s) (objs_of s').
Proof. intros [_ Ht _]. eapply rel_objs_impl; [apply evolved_static|apply Ht]. Qed.

Lemma drift_calm s s' : tree_ok (nd_tree s) -> calm s s' -> drift same_fate s s'.
Proof. intros Hs Hc. split; [by eapply calm_ok|apply Hc|apply Hc]. Qed.

Lemma drift_moves s s' v : tree_ok (nd_tree s) -> moves evolved s s' v -> chain_ok (objs_of s) v -> drift evolved s s'.
Proof. intros Hs Hm Hv. split; [by eapply moves_ok|apply Hm|apply Hm]. Qed.

Lemma drift_moves_to s s' p : tree_ok (nd_tree s) -> moves same_fate s s' (chain_to (objs_of s) p) -> drift same_fate s s'.
Proof.
  intros Hs Hm. split; [|apply Hm|apply Hm]. eapply (moves_ok s s'); [done| |apply chain_to_ok].
  eapply moves_weaken; [apply same_fate_evolved|exact Hm].
Qed.

(** The tip of the chain of a tip. *)
Lemma Tip_chain_to (o : store) p : wf_store o -> (forall q, p = Some q -> is_Some (o !! q)) -> Tip (chain_to o p) = p.
Proof.
  intros Hwf Hp. destruct p as [p|]; [|done]. destruct (Hp p eq_refl) as [b Hb]. unfold chain_to. rewrite Hb. by apply Tip_path.
Qed.

Lemma chain_length (s : node) p b : tree_ok (nd_tree s) -> Tip (chain_of s) = Some p -> objs_of s !! p = Some b -> length (chain_of s) = S (Z.to_nat (nHeight b)).
Proof. intros Hs Ht Hb. rewrite (chain_to_tip s Hs), Ht. unfold chain_to. by rewrite Hb, length_path. Qed.

Lemma prev_entry (s : node) p b q : tree_ok (nd_tree s) -> objs_of s !! p = Some b -> pprev b = Some q ->
  exists c, objs_of s !! q = Some c /\ nHeight b = nHeight c + 1.
Proof. intros Hs Hb Hq. destruct (c_wf _ (to_candidates _ Hs) p b Hb) as (_ & Hprev & _). by rewrite Hq in Hprev. Qed.

(** A DisconnectTip that returns true. *)
Lemma DisconnectTip_true fBare s s' : tree_ok (nd_tree s) -> DisconnectTip W fBare s = (inr tt, s') ->
  exists p b, Tip (chain_of s) = Some p /\ objs_of s !! p = Some b /\ drift same_fate s s' /\
    chain_of s' = chain_to (objs_of s) (pprev b) /\ Tip (chain_of s') = pprev b /\ length (chain_of s) = S (length (chain_of s')).
Proof.
  intros Hs E. destruct (DisconnectTip_spec W fBare s Hs) as [[_ [e He]]|(p & b & Htip & Hb & _ & Hm)]; rewrite E in *; [done|]. cbn [snd] in Hm.
  pose proof (c_wf _ (to_candidates _ Hs)) as Hwf. exists p, b. split_and!; [done|done|by eapply drift_moves_to|apply Hm| |].
  - rewrite (mv_chain _ _ _ _ Hm). apply Tip_chain_to; [done|]. intros q Hq. destruct (prev_entry s p b q Hs Hb Hq) as (c & ? & _). eauto.
  - rewrite (chain_length s p b Hs Htip Hb), (mv_chain _ _ _ _ Hm). f_equal. destruct (Hwf p b Hb) as (H0 & Hprev & _). unfold chain_to.
    destruct (pprev b) as [q|]; [|by rewrite Hprev]. destruct Hprev as (c & Hc & Hh). destruct (Hwf q c Hc) as [H1 _].
    rewrite Hc, length_path. lia.
Qed.

Lemma disconnect_to_run fuel fork d s : disconnect_to W fuel fork d s =
  if bool_decide (Tip (chain_of s) = None \/ Tip (chain_of s) = fork) then (inr d, s)
  else match fuel with
       | O => (inl Thrown, s)
       | S fuel => match DisconnectTip W false s with (inl e, s1) => (inl e, s1) | (inr _, s1) => disconnect_to W fuel fork true s1 end
       end.
Proof. destruct fuel; cbn [disconnect_to]; unfold get_tip; rewrite run_get; by case_bool_decide. Qed.

(** The chain is cut back to the fork. *)
Lemma disconnect_to_spec fork : forall fuel d s d' s', tree_ok (nd_tree s) -> (forall f, fork = Some f -> in_chain (objs_of s) (chain_of s) f) ->
  disconnect_to W fuel fork d s = (inr d', s') -> drift same_fate s s' /\ Tip (chain_of s') = fork.
Proof.
  induction fuel as [|fuel IH]; intros d s d' s' Hs Hf; rewrite disconnect_to_run; destruct (bool_decide_reflect (Tip (chain_of s) = None \/ Tip (chain_of s) = fork)) as [Hd|Hd]; try done.
  1, 2: intros [= <- <-]; split; [by apply drift_refl; [apply _|]|]; destruct Hd as [Hd|]; [|done]; destruct fork as [f|]; [|done];
    specialize (Hf f eq_refl); rewrite (chain_to_tip s Hs), Hd in Hf; unfold in_chain, Contains, chain_at in Hf; cbn in Hf;
    destruct (objs_of s !! f); [|done]; cbn in Hf; destruct (_ || _) in Hf; done.
  destruct (DisconnectTip W false s) as [[e|[]] s1] eqn:Ek; [done|]. intros E.
  destruct (DisconnectTip_true false s s1 Hs Ek) as (p & b & Htip & Hb & Hdr & Hc & _). pose proof (drift_evolved _ _ Hdr) as Hev.
  destruct (IH true s1 d' s' (dr_ok _ _ _ Hdr)) as [H1 H2]; [|exact E|split; [by eapply drift_trans; [apply _| |]|done]].
  intros f ->. apply (static_in_chain _ _ (drift_static _ _ Hev)). rewrite Hc. eapply below_tip_in_chain; [done|done|done|by apply Hf|].
  intros ->. destruct Hd. by right.
Qed.

(** The bound on its rounds is never met. *)
Lemma disconnect_to_fuel fork k : forall fuel d s, tree_ok (nd_tree s) -> (length (chain_of s) <= fuel)%nat ->
  disconnect_to W (fuel + k) fork d s = disconnect_to W fuel fork d s.
Proof.
  induction fuel as [|fuel IH]; intros d s Hs Hl.
  - rewrite !disconnect_to_run. assert (chain_of s = []) as -> by (by apply length_zero_iff_nil; lia). by rewrite bool_decide_eq_true_2 by by left.
  - cbn [Nat.add]. rewrite !(disconnect_to_run (S _)). destruct (bool_decide _); [done|]. destruct (DisconnectTip W false s) as [[e|[]] s1] eqn:Ek; [done|].
    destruct (DisconnectTip_true false s s1 Hs Ek) as (p & b & _ & _ & Hdr & _ & _ & Hlen). apply IH; [apply Hdr|lia].
Qed.

(** *** The blocks to connect *)

(** The list that ends at [p] and starts above [h]. *)
Lemma to_connect_spec (o : store) h (Hwf : wf_store o) : forall fuel p b acc, o !! p = Some b -> h < nHeight b -> -1 <= h -> (Z.to_nat (nHeight b - h) <= fuel)%nat ->
  exists l, to_connect fuel o (Some p) h acc = Some (l ++ p :: acc)%list /\
    forall x, x ∈ l \/ x = p -> ancestor o x p /\ exists c, o !! x = Some c /\ h < nHeight c.
Proof.
  induction fuel as [|fuel IH]; intros p b acc Hp Hb Hh Hf; [lia|]. cbn [to_connect]. rewrite Hp. cbn [mbind option_bind].
  rewrite (proj2 (Z.eqb_neq _ _)) by lia. destruct (Hwf p b Hp) as (H0 & Hprev & _).
  assert (Hself : ancestor o p p /\ exists c, o !! p = Some c /\ h < nHeight c) by (split; [by exists 0%nat|eauto]).
  destruct (pprev b) as [q|] eqn:Eq.
  - destruct Hprev as (c & Hc & Hcb). destruct (decide (nHeight c = h)) as [E|].
    + exists []. split; [|by intros x [?%elem_of_nil| ->]]. destruct fuel; cbn [to_connect]; rewrite Hc; cbn [mbind option_bind]; by rewrite (proj2 (Z.eqb_eq _ _)).
    + destruct (IH q c (p :: acc) Hc) as (l & E & Hl); [lia|lia|lia|]. exists (l ++ [q])%list. split; [by rewrite E, <- app_assoc|].
      intros x [[Hx|Hx%list_elem_of_singleton]%elem_of_app| ->]; [| |done].
      * destruct (Hl x (or_introl Hx)) as [Ha ?]. split; [|done]. eapply ancestor_trans; [exact Ha|by eapply ancestor_prev].
      * destruct (Hl x (or_intror Hx)) as [Ha ?]. split; [|done]. eapply ancestor_trans; [exact Ha|by eapply ancestor_prev].
  - exists []. split; [by destruct fuel|]. by intros x [?%elem_of_nil| ->].
Qed.

(** The sources of blocks never hand out a corrupted one. *)
Context (sources_ok : forall h pos block, av_read W h pos = Some block -> UncorruptedBlock (en_checker (av_block W)) block).

Lemma quiet_clean {A} (m : act A) : quiet m -> clean m.
Proof. intros Hm s e He. specialize (Hm s e He). by destruct e. Qed.

Lemma clean_act {A B} (m : act A) (f : A -> act B) : clean m -> (forall a s s1, m s = (inr a, s1) -> clean (f a)) -> clean (m ≫= f).
Proof.
  intros Hm Hf s e. specialize (Hm s). specialize (Hf). unfold mbind, act_bind. destruct (m s) as [[r|a] s1] eqn:E; [intros [= ->]; by apply Hm|].
  by eapply Hf.
Qed.

Lemma clean_quiet_act {A B} (m : act A) (f : A -> act B) : quiet m -> (forall a, clean (f a)) -> clean (m ≫= f).
Proof. intros Hm Hf. apply clean_act; [by apply quiet_clean|auto]. Qed.

Lemma clean_fails {A} r : CorruptionPossible r = false -> clean (fails (Tree := Tree) (V := V) (A := A) r).
Proof. by intros Hr s e [= <-]. Qed.

Lemma ReadBlockFromDisk_sound b block : ReadBlockFromDisk W b = Some block -> UncorruptedBlock (en_checker (av_block W)) block.
Proof.
  unfold ReadBlockFromDisk. intros E. apply bind_Some in E as (x & Hx & E). destruct (_ =? _); [|done]. injection E as <-. by eapply sources_ok.
Qed.

Lemma clean_ConnectTip p pblock : (forall block, pblock = Some block -> UncorruptedBlock (en_checker (av_block W)) block) -> clean (ConnectTip W p pblock).
Proof.
  intros Hp. unfold ConnectTip, get_tip. do 3 (apply clean_quiet_act; [quiet|intros ?]).
  apply clean_act; [apply quiet_clean; quiet|]. intros block s s1 Hb.
  assert (UncorruptedBlock (en_checker (av_block W)) block).
  { destruct pblock as [b0|]; [injection Hb as <- _; by apply Hp|]. destruct (ReadBlockFromDisk W a) as [b0|] eqn:Hr; [|done]. injection Hb as <- _.
    by eapply ReadBlockFromDisk_sound. }
  apply clean_quiet_act; [quiet|]. intros trees. apply clean_act.
  { intros s2 e. unfold attempt. by destruct (connect_on_tip W p block s2). }
  intros r s2 s3 Hr. assert (Hc : forall e, r = inl e -> CorruptionPossible e = false).
  { unfold attempt in Hr. pose proof (clean_connect_on_tip W p block s2) as Hk. destruct (connect_on_tip W p block s2) as [x s4]. injection Hr as -> _.
    intros e ->. by apply Hk. }
  destruct r as [r|c].
  - specialize (Hc r eq_refl). assert (Hk : clean (_ ← (if IsInvalid r then InvalidBlockFound p r else mret tt); fails (Tree := Tree) (V := V) (A := unit) r)).
    { apply clean_quiet_act; [|intros; by apply clean_fails]. unfold InvalidBlockFound, update_entry. quiet. }
    destruct r; first [exact Hk|by apply clean_fails].
  - apply quiet_clean. quiet.
Qed.

(** A block refused as invalid is marked, unless it may be corrupted. *)
Lemma ConnectTip_end p pblock s : tree_ok (nd_tree s) -> (forall block, pblock = Some block -> UncorruptedBlock (en_checker (av_block W)) block) ->
  match ConnectTip W p pblock s with
  | (inr _, s') => drift same_fate s s' /\ Tip (chain_of s') = Some p
  | (inl r, s') => drift evolved s s' /\ (IsInvalid r = true -> CorruptionPossible r = false /\ exists b', objs_of s' !! p = Some b' /\ failed b' = true)
  end.
Proof.
  intros Hs Hp. pose proof (ConnectTip_spec W p pblock s Hs) as Hx. unfold connect_end in Hx.
  pose proof (clean_ConnectTip p pblock Hp s) as Hc. destruct (ConnectTip W p pblock s) as [[r|u] s']; cbn [fst snd] in *.
  - specialize (Hc r eq_refl). destruct Hx as [[Hx Hi]|[[Hm Hi]|(Hi & b & Hb & _ & Hm)]].
    + split; [by apply drift_evolved, drift_calm|]. intros Hv. specialize (Hi Hv). congruence.
    + split; [eapply drift_moves; [done|exact Hm|apply Hs]|]. intros Hv. split; [done|]. by apply Hi.
    + split; [by eapply drift_evolved, drift_moves_to|]. by rewrite Hi.
  - destruct Hx as (b & Hb & _ & Hm). split; [by eapply drift_moves_to|]. rewrite (mv_chain _ _ _ _ Hm). apply Tip_chain_to; [apply Hs|].
    intros q [= <-]. eauto.
Qed.

(** The tip has more work than the old one; without an old one, it is there. *)
Definition better_than (o : store) (old tip : option Z) : Prop :=
  match old with
  | None => is_Some tip
  | Some p => exists q b c, tip = Some q /\ o !! q = Some b /\ o !! p = Some c /\ bu_val (nChainWork c) < bu_val (nChainWork b)
  end.

Lemma rel_static_sym (o o' : store) : rel_objs same_static o o' -> rel_objs same_static o' o.
Proof.
  intros Hr p. destruct (Hr p) as [b b' []|]; constructor. split; try congruence. unfold same_links in *. intuition congruence.
Qed.

Lemma better_static (o o' : store) old tip : rel_objs same_static o o' -> better_than o' old tip -> better_than o old tip.
Proof.
  intros Hr. destruct old as [p|]; [|done]. intros (q & b' & c' & Ht & Hq & Hp & Hlt). destruct (rel_bwd q b' Hr Hq) as (b & Hb & Sb).
  destruct (rel_bwd p c' Hr Hp) as (c & Hc & Sc). exists q, b, c. rewrite <- (ss_work _ _ Sb), <- (ss_work _ _ Sc). done.
Qed.

Lemma tip_better_run old s b s1 : tree_ok (nd_tree s) -> is_Some (Tip (chain_of s)) -> tip_better (Tree := Tree) (V := V) old s = (inr b, s1) ->
  s1 = s /\ (b = true -> better_than (objs_of s) old (Tip (chain_of s))).
Proof.
  intros Hs Ht. unfold tip_better, get_tip. destruct old as [p|]; [|by intros [= <- <-]]. rewrite run_get. destruct Ht as [q Hq]. rewrite Hq.
  rewrite (bind_run (asserts (Some q)) _ s q s) by done. unfold mbind at 1, act_bind at 1. rewrite the_entry_run. destruct (objs_of s !! q) as [x|] eqn:Hx; [|done].
  unfold mbind at 1, act_bind at 1. rewrite the_entry_run. destruct (objs_of s !! p) as [y|] eqn:Hy; [|done]. intros [= <- <-]. split; [done|].
  pose proof (c_works _ (to_candidates _ Hs)) as Hw. rewrite (CompareTo_spec _ _ (Hw _ _ Hx) (Hw _ _ Hy)). intros Hc. exists q, x, y. split_and!; try done.
  destruct (Z.compare_spec (bu_val (nChainWork x)) (bu_val (nChainWork y))); cbn in Hc; (done || lia).
Qed.

Lemma prune_run s u s1 : tree_ok (nd_tree s) -> on_tree (V := V) PruneBlockIndexCandidates s = (inr u, s1) -> drift same_fate s s1 /\ chain_of s1 = chain_of s.
Proof.
  intros Hs. unfold on_tree, PruneBlockIndexCandidates. destruct (Tip (chain_of s)) as [t|]; [|done]. cbn [mbind option_bind].
  destruct (decide _); [done|]. intros [= <- <-]. split; [|done].
  assert (He : tree_evolves same_fate (nd_tree s) (mkTree (objs_of s) (mapBlockIndex (nd_tree s)) (pindexBestHeader (nd_tree s))
    (filter (fun p => work_comp (objs_of s) p t = false) (setBlockIndexCandidates (nd_tree s))) (mapBlocksUnlinked (nd_tree s))
    (nBlockSequenceId (nd_tree s)) (pindexBestInvalid (nd_tree s)) (chain_of s) (setDirtyBlockIndex (nd_tree s)))).
  { apply evolves_intro; cbn; [done|done|set_solver|done]. }
  split; [|exact He|done]. eapply tree_ok_evolves; [done| |done]. eapply tree_evolves_impl; [apply same_fate_evolved|exact He].
Qed.

(** How a run of [connect_list] over [l] ends when it returns. *)
Definition list_end (old : option Z) (l : list Z) (s : node) (x : verdict progress * node) : Prop :=
  match x with
  | (inl _, _) => True
  | (inr connected_all, s') => drift same_fate s s' /\ Tip (chain_of s') = match last l with Some p => Some p | None => Tip (chain_of s) end
  | (inr position_better, s') => drift same_fate s s' /\ better_than (objs_of s') old (Tip (chain_of s'))
  | (inr invalid_found, s') => drift evolved s s' /\ exists p b', p ∈ l /\ objs_of s' !! p = Some b' /\ failed b' = true
  end.

Lemma list_end_after old p l s s1 x : drift same_fate s s1 -> Tip (chain_of s1) = Some p -> list_end old l s1 x -> list_end old (p :: l) s x.
Proof.
  intros H1 Ht. destruct x as [[r|[| |]] s']; cbn; [done| | |].
  - intros [H2 E]. split; [by eapply drift_trans; [apply _| |]|]. rewrite E, Ht. change (p :: l) with ([p] ++ l)%list. rewrite last_app. by destruct (last l).
  - intros [H2 E]. split; [by eapply drift_trans; [apply _| |]|done].
  - intros [H2 (q & b & Hq & Hb)]. split; [by eapply drift_trans; [apply _|apply drift_evolved|]|]. exists q, b. split; [by apply list_elem_of_further|done].
Qed.

Lemma connect_list_spec most old pblock lowest : (forall block, pblock = Some block -> UncorruptedBlock (en_checker (av_block W)) block) ->
  forall l s, tree_ok (nd_tree s) -> list_end old l s (connect_list W most old pblock lowest l s).
Proof.
  intros Hp. induction l as [|p l IH]; intros s Hs; cbn [connect_list]; [split; [by apply drift_refl; [apply _|]|done]|].
  assert (Hp' : forall block, (if p =? most then pblock else None) = Some block -> UncorruptedBlock (en_checker (av_block W)) block) by (intros block; destruct (p =? most); auto; done).
  pose proof (ConnectTip_end p _ s Hs Hp') as Hc. unfold mbind at 1, act_bind at 1. unfold attempt. destruct (ConnectTip W p _ s) as [[r|u] s1]; destruct Hc as [Hd Hc].
  - destruct (IsInvalid r) eqn:Ei; [|done]. destruct (Hc eq_refl) as [Ec (b' & Hb & Hf)]. rewrite Ec. unfold mbind, act_bind.
    pose proof (calm_invalid_chain lowest s1 (dr_ok _ _ _ Hd)) as Hi. destruct (InvalidChainFound lowest s1) as [[e|[]] s2]; [done|]. cbn [snd] in Hi.
    pose proof (drift_calm _ _ (dr_ok _ _ _ Hd) Hi) as Hd2. split; [by eapply drift_trans; [apply _| |apply drift_evolved]|].
    destruct (rel_fwd p b' (te_objs _ _ _ (dr_tree _ _ _ Hd2)) Hb) as (b2 & Hb2 & [_ Hf2]). exists p, b2. rewrite Hf2. split; [apply list_elem_of_here|done].
  - unfold mbind at 1, act_bind at 1. destruct (on_tree _ s1) as [[e|[]] s2] eqn:Ep; [done|]. destruct (prune_run s1 tt s2 (dr_ok _ _ _ Hd) Ep) as [Hd2 Hc2].
    assert (Hd12 : drift same_fate s s2) by (by eapply drift_trans; [apply _| |]). rewrite <- Hc2 in Hc.
    unfold mbind, act_bind. destruct (tip_better old s2) as [[e|better] s3] eqn:Eb; [done|]. destruct (tip_better_run old s2 better s3 (dr_ok _ _ _ Hd2)) as [-> Hbt]; [by rewrite Hc|done|].
    destruct better; [split; [done|by apply Hbt]|]. eapply list_end_after; [exact Hd12|done|]. apply IH, Hd2.
Qed.

(** How connecting the blocks up to [m] from above the height [fork] ends when it returns. *)
Definition rounds_end {A} (old : option Z) (m fork : Z) (s : node) (x : verdict A * node) : Prop :=
  match x with
  | (inl _, _) => True
  | (inr _, s') => drift evolved s s' /\
      (Tip (chain_of s') = Some m \/ better_than (objs_of s') old (Tip (chain_of s')) \/
       exists p c b', ancestor (objs_of s) p m /\ objs_of s !! p = Some c /\ fork < nHeight c /\ objs_of s' !! p = Some b' /\ failed b' = true)
  end.

Lemma static_ancestor (o o' : store) x p : rel_objs same_static o o' -> ancestor o' x p <-> ancestor o x p.
Proof. intros Hr. unfold ancestor. by setoid_rewrite (static_back _ _ Hr). Qed.

Lemma rounds_end_after {A} old m fork s s1 (x : verdict A * node) : drift same_fate s s1 -> rounds_end old m fork s1 x -> rounds_end old m fork s x.
Proof.
  intros H1. pose proof (drift_evolved _ _ H1) as He. pose proof (drift_static _ _ He) as Hst. destruct x as [[r|a] s']; [done|]. intros [H2 Hx].
  split; [by eapply drift_trans; [apply _| |]|]. destruct Hx as [?|[?|(p & c' & b' & Ha & Hc & Hf & Hb)]]; [by left|right; by left|]. right. right.
  destruct (rel_bwd p c' Hst Hc) as (c & Hc0 & S). destruct (ss_links _ _ S) as (_ & _ & E). exists p, c, b'. rewrite <- E. split; [|done].
  by apply (static_ancestor _ _ p m Hst).
Qed.

Lemma connect_rounds_spec m old pblock fork : (forall block, pblock = Some block -> UncorruptedBlock (en_checker (av_block W)) block) ->
  forall fuel h s b, tree_ok (nd_tree s) -> objs_of s !! m = Some b -> fork <= h <= nHeight b -> -1 <= h -> (h = nHeight b -> Tip (chain_of s) = Some m) ->
  rounds_end old m fork s (connect_rounds W fuel m old pblock h s).
Proof.
  intros Hp. induction fuel as [|fuel IH]; intros h s b Hs Hb Hh H1 Htip; cbn [connect_rounds]; unfold mbind at 1, act_bind at 1; rewrite the_entry_run, Hb.
  { destruct (Z.eqb_spec h (nHeight b)) as [E|]; [|done]. split; [by apply drift_refl; [apply _|]|]. left. by apply Htip. }
  destruct (Z.eqb_spec h (nHeight b)) as [E|Hne]; [split; [by apply drift_refl; [apply _|]|]; left; by apply Htip|].
  set (target := Z.min (h + 32) (nHeight b)). rewrite run_get. pose proof (c_wf _ (to_candidates _ Hs)) as Hwf.
  rewrite (GetAncestor_back _ Hwf m b target Hb), (proj2 (Z.leb_le 0 _)), (proj2 (Z.leb_le target _)) by lia. cbn [andb].
  destruct (back_exists _ Hwf (Z.to_nat (nHeight b - target)) m b Hb) as (iter & c & Hi & Hc & Hch); [lia|]. rewrite Hi.
  rewrite (bind_run (asserts _) _ s (Some iter) s) by done.
  destruct (to_connect_spec (objs_of s) h Hwf (S (Z.to_nat target)) iter c [] Hc) as (l & El & Hl); [lia|lia|lia|]. rewrite El.
  rewrite (bind_run (asserts _) _ s (l ++ [iter])%list s) by done.
  pose proof (connect_list_spec m old pblock (hd m (l ++ [iter])%list) Hp (l ++ [iter])%list s Hs) as Hend. unfold mbind at 1, act_bind at 1.
  assert (Hanc : ancestor (objs_of s) iter m) by (by eexists).
  destruct (connect_list W m old pblock _ _ s) as [[r|[| |]] s1]; [done| | |].
  - destruct Hend as [Hd Ht]. rewrite last_snoc in Ht. eapply rounds_end_after; [exact Hd|].
    destruct (rel_fwd m b (drift_static _ _ (drift_evolved _ _ Hd)) Hb) as (b1 & Hb1 & S). destruct (ss_links _ _ S) as (_ & _ & E).
    apply (IH target s1 b1); [apply Hd|done|lia|lia|]. rewrite E. intros Et. rewrite Ht, <- Hi, Et, Z.sub_diag. done.
  - destruct Hend as [Hd Ht]. split; [by apply drift_evolved|]. right. by left.
  - destruct Hend as [Hd (p & b' & Hpl & Hb' & Hf)]. split; [done|]. right. right.
    destruct (Hl p) as (Ha & d & Hd1 & Hd2); [apply elem_of_app in Hpl as [?|?%list_elem_of_singleton]; auto|].
    exists p, d, b'. split; [by eapply ancestor_trans|]. split; [done|]. split; [lia|done].
Qed.

(** ** A step *)

(** A step that returns reaches [m], makes the tip better or marks a block as failed. *)
Definition step_end (m : Z) (s : node) (x : verdict unit * node) : Prop :=
  match x with
  | (inl _, _) => True
  | (inr _, s') => drift evolved s s' /\
      (Tip (chain_of s') = Some m \/ better_than (objs_of s') (Tip (chain_of s)) (Tip (chain_of s')) \/
       exists p c b', objs_of s !! p = Some c /\ failed c = false /\ objs_of s' !! p = Some b' /\ failed b' = true)
  end.

(** The height of the fork. *)
Definition fork_height (o : store) (p : option Z) : Z := match p with Some f => match o !! f with Some b => nHeight b | None => -1 end | None => -1 end.

Lemma height_of_run p s h s1 : height_of (Tree := Tree) (V := V) p s = (inr h, s1) -> s1 = s /\ h = fork_height (objs_of s) p.
Proof.
  unfold height_of, fork_height. destruct p as [p|]; [|by intros [= <- <-]]. unfold mbind, act_bind. rewrite the_entry_run.
  destruct (objs_of s !! p); [|done]. by intros [= <- <-].
Qed.

(** The blocks above the fork are not failed. *)
Lemma above_fork_sound (o : store) v m r p c : wf_store o -> is_Some (o !! m) -> first_in_chain o v m r -> ~ unusable o v m ->
  ancestor o p m -> o !! p = Some c -> fork_height o r < nHeight c -> failed c = false.
Proof.
  intros Hwf [b Hb] Hr Hu [n Hn] Hc Hh. apply not_true_iff_false. intros Hf. apply Hu. exists n, p, c. split_and!; [done|done|unfold bad_block, failed in *; by rewrite Hf|].
  intros k y Hk Hy. destruct r as [f|]; cbn in Hr; [|by eapply Hr]. destruct Hr as (nf & Enf & _ & Hmin). apply (Hmin k); [|done].
  destruct (back_entry o Hwf n m b p Hb Hn) as (c' & Hc' & Hch). destruct (back_entry o Hwf nf m b f Hb Enf) as (d & Hd & Hdh).
  unfold fork_height in Hh. rewrite Hd in Hh. simplify_eq. lia.
Qed.

Lemma rewind_none fuel d s : nd_REWIND s = 0 -> rewind_all W fuel d s = (inr d, s).
Proof. intros H0. unfold rewind_all. rewrite run_get, H0. done. Qed.

Lemma calm_drift {A} (m : act A) s0 s a s1 : drift evolved s0 s -> calm_act m -> m s = (a, s1) -> drift evolved s0 s1 /\ chain_of s1 = chain_of s /\ rel_objs same_fate (objs_of s) (objs_of s1).
Proof.
  intros Hd Hm E. specialize (Hm s (dr_ok _ _ _ Hd)). rewrite E in Hm. cbn [snd] in Hm. split; [|split; apply Hm].
  eapply drift_trans; [apply _|exact Hd|]. apply drift_evolved, drift_calm; [apply Hd|done].
Qed.

Lemma Step_spec skip m pblock s b : (forall block, pblock = Some block -> UncorruptedBlock (en_checker (av_block W)) block) ->
  tree_ok (nd_tree s) -> nd_REWIND s = 0 -> objs_of s !! m = Some b -> ~ unusable (objs_of s) (chain_of s) m -> step_end m s (ActivateBestChainStep W skip m pblock s).
Proof.
  intros Hp Hs Hrw Hb Hu. pose proof (c_wf _ (to_candidates _ Hs)) as Hwf. unfold ActivateBestChainStep, get_tip. rewrite !run_get.
  destruct (FindFork_first _ Hwf (chain_of s) m b Hb) as (fork & Ef & Hfork). rewrite Ef. rewrite (bind_run (asserts _) _ s fork s) by done.
  unfold mbind at 1, act_bind at 1. destruct (squishy_notarized_height s) as [[?|nt] s1] eqn:En; [done|].
  pose proof (calm_notarized s Hs) as Hc1. rewrite En in Hc1. cbn [snd] in Hc1. pose proof (drift_calm _ _ Hs Hc1) as Hd1.
  unfold mbind at 1, act_bind at 1. destruct (height_of (Tip (chain_of s)) s1) as [[?|old] s2] eqn:Eo; [done|]. apply height_of_run in Eo as [-> _].
  unfold mbind at 1, act_bind at 1. destruct (height_of fork s1) as [[?|h] s2] eqn:Eh; [done|]. apply height_of_run in Eh as [-> Eh].
  match goal with |- step_end m s ((if ?x then _ else _) s1) => destruct x end; [unfold mbind, act_bind; by destruct (ignore _ s1) as [[?|?] ?]|].
  match goal with |- step_end m s ((if ?x then _ else _) s1) => destruct x end; [done|].
  unfold mbind at 1, act_bind at 1. destruct (disconnect_to W _ fork false s1) as [[?|d] s2] eqn:Ed; [done|].
  pose proof (drift_static _ _ (drift_evolved _ _ Hd1)) as Hst1.
  destruct (disconnect_to_spec fork (length (chain_of s)) false s1 d s2 (dr_ok _ _ _ Hd1)) as [Hd2 Ht2]; [|exact Ed|].
  { intros f ->. destruct Hfork as (nf & _ & Hin & _). apply (static_in_chain _ _ Hst1). by rewrite (cm_chain _ _ Hc1). }
  assert (Hd12 : drift same_fate s s2) by (by eapply drift_trans; [apply _| |]). clear Hd2. rewrite run_get.
  rewrite (bind_run _ _ s2 d s2) by (apply rewind_none; rewrite (dr_rewind _ _ _ Hd12); done).
  pose proof (te_objs _ _ _ (dr_tree _ _ _ Hd12)) as Hf2. pose proof (drift_static _ _ (drift_evolved _ _ Hd12)) as Hst2.
  destruct (rel_fwd m b Hst2 Hb) as (b2 & Hb2 & S2). destruct (ss_links _ _ S2) as (_ & _ & Eb2). unfold mbind at 1, act_bind at 1. rewrite the_entry_run, Hb2.
  assert (Ehs : h = fork_height (objs_of s) fork).
  { rewrite Eh. unfold fork_height. destruct fork as [f|]; [|done]. destruct (Hst1 f) as [x y Sx|]; [|done]. by destruct (ss_links _ _ Sx) as (_ & _ & ->). }
  assert (Hhb : -1 <= h <= nHeight b2 /\ (h = nHeight b2 -> Tip (chain_of s2) = Some m)).
  { rewrite Ht2, Ehs, Eb2. destruct (Hwf m b Hb) as [H0 _]. unfold fork_height. destruct fork as [f|]; [|split; [lia|lia]]. destruct Hfork as (nf & Enf & _ & _).
    destruct (back_entry _ Hwf nf m b f Hb Enf) as (c & Hc & Hch). rewrite Hc. destruct (Hwf f c Hc) as [Hc0 _]. split; [lia|]. intros E. assert (nf = 0%nat) as -> by lia. by injection Enf as ->. }
  destruct Hhb as [Hhb Htm]. pose proof (connect_rounds_spec m (Tip (chain_of s)) pblock h Hp (S (Z.to_nat (nHeight b2))) h s2 b2 (dr_ok _ _ _ Hd12) Hb2) as Hend.
  specialize (Hend ltac:(lia) ltac:(lia) Htm). unfold mbind at 1, act_bind at 1. destruct (connect_rounds _ _ _ _ _ _ _) as [[?|bad] s3]; [done|]. destruct Hend as [Hd3 Hend].
  assert (Hd13 : drift evolved s s3) by (eapply drift_trans; [apply _|apply drift_evolved; exact Hd12|done]).
  unfold mbind at 1, act_bind at 1. destruct ((if d then pool_for_reorg W else mret tt) s3) as [[?|[]] s4] eqn:E4; [done|].
  destruct (calm_drift (if d then pool_for_reorg W else mret tt) s s3 _ s4 Hd13 ltac:(calm) E4) as (Hd14 & Hch4 & Hf4).
  destruct (pool_for_branch W s4) as [[?|u] s5] eqn:E5; [done|].
  destruct (calm_drift (pool_for_branch W) s s4 _ s5 Hd14 ltac:(calm) E5) as (Hd15 & Hch5 & Hf5). split; [done|]. rewrite Hch5, Hch4.
  assert (Hf35 : rel_objs same_fate (objs_of s3) (objs_of s5)) by (by etrans).
  destruct Hend as [Hend|[Hend|(p & c2 & b' & Ha & Hc2 & Hh & Hb' & Hfl)]]; [by left|right; left|right; right].
  - eapply better_static; [|exact Hend]. apply rel_static_sym. eapply rel_objs_impl; [apply same_fate_static|exact Hf35].
  - destruct (rel_bwd p c2 Hf2 Hc2) as (c & Hc & Sc & Efc). destruct (ss_links _ _ Sc) as (_ & _ & Ehc).
    destruct (rel_fwd p b' Hf35 Hb') as (b5 & Hb5 & _ & Ef5). exists p, c, b5. split; [done|]. rewrite Ef5. split; [|done].
    apply (above_fork_sound (objs_of s) (chain_of s) m fork p c); [done|by exists b|done|done|by apply (static_ancestor _ _ p m Hst2)|done|]. by rewrite <- Ehc, <- Ehs.
Qed.

(** ** The other loops end within their bounds *)

(** One round of [connect_rounds]. *)
Definition connect_round (m : Z) (old : option Z) (pblock : option CBlock) (h target : Z) : act progress :=
  t ← get nd_tree;
  iter ← asserts (GetAncestor (objs t) m target);
  l ← asserts (to_connect (S (Z.to_nat target)) (objs t) iter h []);
  connect_list W m old pblock (hd m l) l.

Lemma connect_rounds_run m old pblock fuel h s b : objs_of s !! m = Some b -> connect_rounds W fuel m old pblock h s =
  if h =? nHeight b then (inr false, s)
  else match fuel with
       | O => (inl Thrown, s)
       | S fuel => let target := Z.min (h + 32) (nHeight b) in
         match connect_round m old pblock h target s with
         | (inl e, s1) => (inl e, s1)
         | (inr connected_all, s1) => connect_rounds W fuel m old pblock target s1
         | (inr position_better, s1) => (inr false, s1)
         | (inr invalid_found, s1) => (inr true, s1)
         end
       end.
Proof.
  intros Hb. destruct fuel; cbn [connect_rounds]; unfold connect_round, mbind, act_bind; rewrite the_entry_run, Hb; (destruct (_ =? _); [done|]); [done|].
  unfold get, asserts, fails, mret, act_ret. destruct (GetAncestor _ _ _) as [iter|]; [|done].
  match goal with |- context [to_connect ?n ?o ?i ?h ?acc] => destruct (to_connect n o i h acc) as [l|]; [|done] end.
  by destruct (connect_list W m old pblock _ l s) as [[e|[| |]] s1].
Qed.

Lemma stays_connect_round m old pblock h target : stays_act (connect_round m old pblock h target).
Proof. unfold connect_round. stays. apply stays_connect_list. Qed.

Lemma connect_rounds_fuel m old pblock k : forall fuel h s b, tree_ok (nd_tree s) -> objs_of s !! m = Some b -> h <= nHeight b ->
  (Z.to_nat (nHeight b - h) <= fuel)%nat -> connect_rounds W (fuel + k) m old pblock h s = connect_rounds W fuel m old pblock h s.
Proof.
  induction fuel as [|fuel IH]; intros h s b Hs Hb Hh Hf; rewrite !(connect_rounds_run _ _ _ _ h s b Hb); destruct (Z.eqb_spec h (nHeight b)); try done; [lia|].
  cbn [Nat.add]. cbv zeta. pose proof (stays_connect_round m old pblock h (Z.min (h + 32) (nHeight b)) s Hs) as Hst.
  destruct (connect_round _ _ _ _ _ s) as [[e|[| |]] s1]; try done. cbn [snd] in Hst. destruct (rel_fwd m b (st_objs _ _ Hst) Hb) as (b1 & Hb1 & S).
  destruct (ss_links _ _ S) as (_ & _ & E). apply (IH _ s1 b1); [apply Hst|done|rewrite E; lia|rewrite E; lia].
Qed.

Lemma invalidate_loop_run fuel p s : invalidate_loop W fuel p s =
  match Contains (objs_of s) (chain_of s) p with
  | None => (inl Thrown, s)
  | Some false => (inr tt, s)
  | Some true =>
    match fuel with
    | O => (inl Thrown, s)
    | S fuel =>
      match (tip ← get_tip; w ← asserts tip; _ ← update_entry w (fun b => set_nStatus (Z.lor (nStatus b) BLOCK_FAILED_CHILD) b);
             _ ← on_tree (fun t => Some (erase_candidate w t)); attempt (DisconnectTip W false)) s with
      | (inl e, s1) => (inl e, s1)
      | (inr (inl Thrown), s1) => (inl Thrown, s1)
      | (inr (inl r), s1) => (_ ← pool_for_reorg W; _ ← pool_for_branch W; fails r) s1
      | (inr (inr _), s1) => invalidate_loop W fuel p s1
      end
    end
  end.
Proof.
  destruct fuel; cbn [invalidate_loop]; rewrite run_get; unfold mbind at 1, act_bind at 1; unfold asserts at 1; destruct (Contains _ _ _) as [[|]|]; try done.
  unfold mbind, act_bind, get_tip, get, asserts, mret, act_ret. destruct (Tip (chain_of s)) as [w|]; [|done].
  destruct (update_entry w _ s) as [[e|[]] s1]; [done|]. destruct (on_tree _ s1) as [[e|[]] s2]; [done|].
  destruct (attempt (DisconnectTip W false) s2) as [[e|[[]|[]]] s3]; done.
Qed.

(** A round takes the tip out. *)
Lemma invalidate_round (s s1 : node) : tree_ok (nd_tree s) ->
  (tip ← get_tip; w ← asserts tip; _ ← update_entry w (fun b => set_nStatus (Z.lor (nStatus b) BLOCK_FAILED_CHILD) b);
   _ ← on_tree (fun t => Some (erase_candidate w t)); attempt (DisconnectTip W false)) s = (inr (inr tt), s1) ->
  tree_ok (nd_tree s1) /\ length (chain_of s) = S (length (chain_of s1)).
Proof.
  intros Hs. unfold get_tip. rewrite run_get. destruct (Tip (chain_of s)) as [w|]; [|done]. rewrite (bind_run (asserts _) _ s w s) by done.
  unfold mbind at 1, act_bind at 1. pose proof (stays_fail w BLOCK_FAILED_CHILD eq_refl eq_refl s Hs) as H1. rewrite update_entry_run in *.
  destruct (objs_of s !! w) as [b|]; [|done]. cbn [snd] in H1. set (s2 := with_tree _ s) in *.
  pose proof (stays_erase w s2 (st_ok _ _ H1)) as H2. unfold mbind at 1, act_bind at 1. unfold on_tree in *. cbn [snd] in H2. set (s3 := with_tree _ s2) in *.
  unfold attempt. destruct (DisconnectTip W false s3) as [[e|[]] s4] eqn:E; [done|]. intros [= <-].
  destruct (DisconnectTip_true false s3 s4 (st_ok _ _ H2) E) as (p & c & _ & _ & Hd & _ & _ & Hl). split; [apply Hd|exact Hl].
Qed.

Lemma invalidate_loop_fuel p k : forall fuel s, tree_ok (nd_tree s) -> (length (chain_of s) <= fuel)%nat ->
  invalidate_loop W (fuel + k) p s = invalidate_loop W fuel p s.
Proof.
  induction fuel as [|fuel IH]; intros s Hs Hl; rewrite !(invalidate_loop_run _ p s).
  - assert (chain_of s = []) as -> by (by apply length_zero_iff_nil; lia). unfold Contains, chain_at. destruct (objs_of s !! p); [|done].
    cbn. by destruct (_ || _).
  - destruct (Contains _ _ _) as [[|]|]; try done. cbn [Nat.add].
    match goal with |- (let (_, _) := ?x in _) = _ => destruct x as [[e|[[]|[]]] s1] eqn:E; try done end. apply invalidate_round in E as [H1 H2]; [|done]. apply IH; [done|lia].
Qed.

(** *** The rewind *)

(** The chain gets no longer. *)
Definition shrinks {A} (m : act A) : Prop := stays_act m /\ forall s, tree_ok (nd_tree s) -> (length (chain_of (m s).2) <= length (chain_of s))%nat.

Lemma shrinks_calm {A} (m : act A) : calm_act m -> shrinks m.
Proof. intros Hm. split; [by apply stays_of_calm|]. intros s Hs. by rewrite (cm_chain _ _ (Hm s Hs)). Qed.

Lemma shrinks_bind {A B} (m : act A) (f : A -> act B) : shrinks m -> (forall a, shrinks (f a)) -> shrinks (m ≫= f).
Proof.
  intros [S1 L1] Hf. split; [apply stays_bind; [done|]; intros a; apply (Hf a)|]. intros s Hs. specialize (S1 s Hs). specialize (L1 s Hs).
  unfold mbind, act_bind. destruct (m s) as [[e|a] s1]; [done|]. destruct (Hf a) as [_ L2]. specialize (L2 s1 (st_ok _ _ S1)). cbn [snd] in L1. lia.
Qed.

Lemma shrinks_attempt {A} (m : act A) : shrinks m -> shrinks (attempt m).
Proof. intros [S L]. split; [by apply stays_attempt|]. intros s Hs. specialize (L s Hs). unfold attempt. by destruct (m s). Qed.

Lemma shrinks_tree {A} (m : act A) : stays_act m -> (forall s, chain_of (m s).2 = chain_of s) -> shrinks m.
Proof. intros S E. split; [done|]. intros s _. by rewrite E. Qed.

Lemma on_tree_chain f (s : node) : (forall t t', f t = Some t' -> chainActive t' = chainActive t) -> chain_of (on_tree (V := V) f s).2 = chain_of s.
Proof. intros Hf. unfold on_tree. destruct (f _) as [t|] eqn:E; [by apply Hf|done]. Qed.

Lemma shrinks_fail p m : Z.testbit m 3 = false -> Z.testbit m 8 = false ->
  shrinks (update_entry (Tree := Tree) (V := V) p (fun b => set_nStatus (Z.lor (nStatus b) m) b)).
Proof. intros H3 H8. apply shrinks_tree; [by apply stays_fail|]. intros s. rewrite update_entry_run. by destruct (_ !! p). Qed.

Lemma shrinks_erase p : shrinks (A := unit) (on_tree (fun t => Some (erase_candidate p t))).
Proof. apply shrinks_tree; [apply stays_erase|]. intros s. apply on_tree_chain. by intros t t' [= <-]. Qed.

Lemma shrinks_readd : shrinks (A := unit) (on_tree readd_candidates).
Proof.
  apply shrinks_tree; [apply stays_readd|]. intros s. apply on_tree_chain. intros t t'. unfold readd_candidates. destruct (Tip _); [by intros [= <-]|].
  destruct (decide _); [by intros [= <-]|done].
Qed.

Lemma shrinks_disconnect fBare : shrinks (DisconnectTip W fBare).
Proof.
  split; [apply stays_disconnect|]. intros s Hs. destruct (DisconnectTip W fBare s) as [[e|[]] s1] eqn:E.
  - destruct (DisconnectTip_spec W fBare s Hs) as [[Hc _]|(p & b & Ht & Hb & _ & Hm)]; rewrite E in *; cbn [snd] in *; [by rewrite (cm_chain _ _ Hc)|].
    rewrite (mv_chain _ _ _ _ Hm), (chain_length s p b Hs Ht Hb). unfold chain_to. destruct (pprev b) as [q|] eqn:Eq; [|cbn; lia].
    destruct (prev_entry s p b q Hs Hb Eq) as (c & Hc & Hh). rewrite Hc, length_path. lia.
  - destruct (DisconnectTip_true fBare s s1 Hs E) as (p & b & _ & _ & _ & _ & _ & Hl). cbn [snd]. lia.
Qed.

Ltac shrinks :=
  repeat first
    [ solve [auto using shrinks_erase, shrinks_readd, shrinks_disconnect]
    | solve [apply shrinks_fail; reflexivity]
    | apply shrinks_calm; solve [calm]
    | apply shrinks_bind; [|intros]
    | apply shrinks_attempt
    | match goal with |- shrinks (match ?x with _ => _ end) => destruct x end ].

Lemma shrinks_invalidate_loop p : forall fuel, shrinks (invalidate_loop W fuel p).
Proof. induction fuel as [|fuel IH]; cbn [invalidate_loop]; shrinks. Qed.

Lemma shrinks_InvalidateBlock p : shrinks (InvalidateBlock W p).
Proof.
  assert (forall n, shrinks (invalidate_loop W n p)) by (intros n; apply shrinks_invalidate_loop).
  unfold InvalidateBlock. shrinks; auto.
Qed.

(** One round of the rewind. *)
Definition rewind_round (p : Z) : act (reject + unit) := _ ← ignore (InvalidateBlock W p); attempt (DisconnectTip W false).

Lemma rewind_loop_run fuel d s : rewind_loop W fuel d s =
  match height_of (Tip (chain_of s)) s with
  | (inl e, s1) => (inl e, s1)
  | (inr h, s1) =>
    match Tip (chain_of s) with
    | Some p =>
      if (nd_REWIND s >? 0) && (h >? nd_REWIND s) then
        match fuel with
        | O => (inl Thrown, s1)
        | S fuel => match rewind_round p s1 with
                    | (inl e, s2) => (inl e, s2)
                    | (inr (inl Thrown), s2) => (inl Thrown, s2)
                    | (inr (inl _), s2) => (inr true, s2)
                    | (inr (inr _), s2) => rewind_loop W fuel true s2
                    end
        end
      else (inr d, s1)
    | None => (inr d, s1)
    end
  end.
Proof.
  destruct fuel; cbn [rewind_loop]; unfold rewind_round, get_tip; rewrite !run_get; unfold mbind, act_bind, mret, act_ret;
    (destruct (height_of _ s) as [[e|h] s1]; [done|]); (destruct (Tip _) as [p|]; [|done]); (destruct (_ && _); [|done]); [done|].
  destruct (ignore _ s1) as [[e|[]] s2]; [done|]. by destruct (attempt (DisconnectTip W false) s2) as [[e|[[]|[]]] s3].
Qed.

Lemma rewind_loop_fuel k : forall fuel d s, tree_ok (nd_tree s) -> (length (chain_of s) <= fuel)%nat ->
  rewind_loop W (fuel + k) d s = rewind_loop W fuel d s.
Proof.
  induction fuel as [|fuel IH]; intros d s Hs Hl; rewrite !(rewind_loop_run _ d s).
  - assert (chain_of s = []) as -> by (by apply length_zero_iff_nil; lia). done.
  - cbn [Nat.add]. destruct (height_of _ s) as [[e|h] s1] eqn:Eh; [done|]. apply height_of_run in Eh as [-> _].
    destruct (Tip _) as [p|]; [|done]. destruct (_ && _); [|done]. unfold rewind_round, mbind, act_bind.
    destruct (shrinks_InvalidateBlock p) as [S L]. pose proof (stays_ignore _ S s Hs) as S1. specialize (L s Hs).
    assert (L1 : (length (chain_of (ignore (InvalidateBlock W p) s).2) <= length (chain_of s))%nat).
    { unfold ignore, mbind, act_bind, attempt. destruct (InvalidateBlock W p s) as [[[]|?] s2]; done. }
    clear S L. destruct (ignore _ s) as [[e|[]] s2]; [done|]. cbn [snd] in *. unfold attempt. destruct (DisconnectTip W false s2) as [[[]|[]] s3] eqn:E; try done.
    destruct (DisconnectTip_true false s2 s3 (st_ok _ _ S1) E) as (q & b & _ & _ & Hd & _ & _ & Hlen). apply IH; [apply Hd|lia].
Qed.
End Advance.
