(* ===== verification/ActivateBest.v ===== *)
(** * ActivateBestChain as a whole (src/src/main.cpp)

    A round of ActivateBestChain ends it, makes the tip better or marks a block as
    failed; so it ends, and when it ends well no candidate that can be connected is
    better than the tip.  A notarised block of the chain is never taken out.  The
    node's CheckBlock meets the interface [UncorruptedBlock] for every block whose
    Merkle root and number of signature operations are right ([node_uncorrupted]). *)
From Stdlib Require Ascii String.
From S2P Require Import Prelude Serialize Arith256 Transaction Compressor Coins CoinsView CoinsCache UpdateCoins Ledger Interest Script SigHash CheckTx BlockMerkle BlockIndex TxInputs Notary Upgrades Checkpoints BlockChecks ConnectTxs Mempool MempoolAccept BlockTree ConnectBlock BlockEffect ActivateChain ActivateEffect ActivateEnd.
From stdpp Require Import strings.
Import String.StringSyntax.
#[local] Open Scope string_scope.
#[local] Open Scope Z_scope.

(** ** What a candidate needs, when the chain moves *)

Lemma evolved_bad b b' : evolved b b' -> bad_block b = true -> bad_block b' = true.
Proof.
  intros [S Hf]. unfold bad_block. intros [H|H]%orb_true_iff; apply orb_true_iff; [left; by apply Hf|right].
  apply Z.eqb_eq in H. apply Z.eqb_eq. apply Z.bits_inj'. intros n Hn. assert (H' : Z.testbit (Z.land (nStatus b) BLOCK_HAVE_DATA) n = false) by (by rewrite H, Z.bits_0).
  rewrite Z.land_spec, Z.bits_0 in *. change BLOCK_HAVE_DATA with (2 ^ 3) in *. rewrite Z.pow2_bits_eqb in * by lia.
  destruct (Z.eqb_spec 3 n) as [<-|]; [|by rewrite andb_false_r]. by rewrite (ss_data _ _ S).
Qed.

(** A chain contains what its blocks build on. *)
Lemma chain_below (o : store) v z y : wf_store o -> chain_ok o v -> in_chain o v z -> ancestor o y z -> in_chain o v y.
Proof.
  intros Hwf [->|(p & b & Hp & ->)] Hin Ha.
  - unfold in_chain, Contains, chain_at in Hin. destruct (o !! z); [|done]. cbn in Hin. by destruct (_ || _) in Hin.
  - assert (E : forall x, in_chain o (path o p (Z.to_nat (nHeight b))) x <-> ancestor o x p).
    { intros x. pose proof (in_chain_to o p b x Hwf Hp) as E. unfold chain_to in E. by rewrite Hp in E. }
    apply E. apply E in Hin. by eapply ancestor_trans.
Qed.

(** What could not be connected to a chain cannot be connected to one that could. *)
Lemma unusable_moves (o o' : store) v m q : wf_store o -> chain_ok o v -> is_Some (o !! m) -> rel_objs evolved o o' ->
  ~ unusable o v m -> unusable o v q -> unusable o' (chain_to o' (Some m)) q.
Proof.
  intros Hwf Hv [bm Hm] Hr Hok (n & x & c & Hx & Hc & Hbad & Hno). pose proof (rel_objs_impl _ _ _ _ evolved_static Hr) as Hst.
  destruct (rel_fwd x c Hr Hc) as (c' & Hc' & Ec). exists n, x, c'. rewrite (static_back _ _ Hst). split_and!; [done|done|by eapply evolved_bad|].
  intros k y Hk Hy. rewrite (static_back _ _ Hst) in Hy. rewrite (chain_to_static _ _ _ Hst), (static_in_chain _ _ Hst), (in_chain_to _ _ _ _ Hwf Hm).
  intros [j Hj]. apply Hok. exists (j + (n - k))%nat, x, c. replace n with (k + (n - k))%nat in Hx by lia. rewrite back_add, Hy in Hx. cbn [mbind option_bind] in Hx.
  rewrite back_add, Hj. split_and!; [done|done|done|]. intros i z Hi Hz.
  destruct (decide (i < j)%nat) as [Hij|Hij].
  - replace j with (i + (j - i))%nat in Hj by lia. rewrite back_add, Hz in Hj. cbn [mbind option_bind] in Hj. intros Hin. apply (Hno k y); [lia|done|].
    eapply chain_below; [done|done|exact Hin|by eexists].
  - apply (Hno (k + (i - j))%nat); [lia|]. rewrite back_add, Hy. cbn [mbind option_bind]. replace i with (j + (i - j))%nat in Hz by lia. by rewrite back_add, Hj in Hz.
Qed.

(** ** Why it ends *)

(** The entries that have not failed; those with more work than the tip, one more than
    there are without a tip. *)
Definition unfailed (o : store) : nat := size (filter (fun p => failed <$> o !! p = Some false) (dom o : gset Z)).
Definition more_work (o : store) (t p : Z) : bool :=
  match o !! t, o !! p with Some c, Some b => bu_val (nChainWork c) <? bu_val (nChainWork b) | _, _ => false end.
Definition ahead (o : store) (tip : option Z) : nat :=
  match tip with Some t => size (filter (fun p => more_work o t p = true) (dom o : gset Z)) | None => S (size (dom o : gset Z)) end.
(** An upper bound on the rounds that are left. *)
Definition rounds_left (o : store) (tip : option Z) : nat := unfailed o * (size (dom o : gset Z) + 2) + ahead o tip.

Lemma rel_dom R (o o' : store) : rel_objs R o o' -> (dom o' : gset Z) = dom o.
Proof.
  intros Hr. apply set_eq. intros p. rewrite !elem_of_dom. pose proof (Hr p) as H. split; intros [b Hb]; rewrite Hb in H; inversion H; eauto.
Qed.

Lemma unfailed_evolves (o o' : store) : rel_objs evolved o o' -> (unfailed o' <= unfailed o)%nat.
Proof.
  intros Hr. unfold unfailed. apply subseteq_size. intros p. rewrite !elem_of_filter, (rel_dom _ _ _ Hr). intros [Hp Hd]. split; [|done].
  destruct (o' !! p) as [b'|] eqn:E; [|done]. destruct (rel_bwd p b' Hr E) as (b & Hb & _ & Hf). rewrite Hb. cbn in *.
  destruct (failed b); [|done]. injection Hp as Hp. by rewrite Hf in Hp.
Qed.

Lemma unfailed_fails (o o' : store) p b b' : rel_objs evolved o o' -> o !! p = Some b -> failed b = false -> o' !! p = Some b' -> failed b' = true ->
  (unfailed o' < unfailed o)%nat.
Proof.
  intros Hr Hb Hf Hb' Hf'. unfold unfailed. apply subset_size. split.
  - intros q. rewrite !elem_of_filter, (rel_dom _ _ _ Hr). intros [Hq Hd]. split; [|done].
    destruct (o' !! q) as [c'|] eqn:E; [|done]. destruct (rel_bwd q c' Hr E) as (c & Hc & _ & Hcf). rewrite Hc. cbn in *.
    destruct (failed c); [|done]. injection Hq as Hq. by rewrite Hcf in Hq.
  - intros Hsub. assert (Hp : p ∈ filter (fun p => failed <$> o !! p = Some false) (dom o : gset Z)).
    { apply elem_of_filter. rewrite Hb. cbn. rewrite Hf. split; [done|]. apply elem_of_dom. by exists b. }
    apply Hsub, elem_of_filter in Hp as [Hp _]. rewrite Hb' in Hp. cbn in Hp. by rewrite Hf' in Hp.
Qed.

Lemma more_work_static (o o' : store) t p : rel_objs same_static o o' -> more_work o' t p = more_work o t p.
Proof.
  intros Hr. unfold more_work. destruct (Hr t) as [c c' S|]; [|done]. destruct (Hr p) as [b b' S'|]; [|done].
  by rewrite (ss_work _ _ S), (ss_work _ _ S').
Qed.

Lemma ahead_static (o o' : store) tip : rel_objs same_static o o' -> ahead o' tip = ahead o tip.
Proof.
  intros Hr. unfold ahead. rewrite (rel_dom _ _ _ Hr). destruct tip as [t|]; [|done]. f_equal. apply set_eq. intros p.
  rewrite !elem_of_filter. by rewrite (more_work_static _ _ _ _ Hr).
Qed.

Lemma ahead_bound (o : store) tip : (ahead o tip < size (dom o : gset Z) + 2)%nat.
Proof.
  unfold ahead. destruct tip as [t|]; [|lia]. assert (size (filter (fun p => more_work o t p = true) (dom o : gset Z)) <= size (dom o : gset Z))%nat; [|lia].
  apply subseteq_size. intros p [_ ?]%elem_of_filter. done.
Qed.

Lemma ahead_better (o : store) old tip : better_than o old tip -> (ahead o tip < ahead o old)%nat.
Proof.
  intros Hb. destruct old as [p|].
  - destruct Hb as (q & b & c & -> & Hq & Hp & Hlt). cbn [ahead]. apply subset_size. split.
    + intros x. rewrite !elem_of_filter. intros [Hx Hd]. split; [|done]. unfold more_work in *. rewrite Hp. rewrite Hq in Hx.
      destruct (o !! x); [|done]. apply Z.ltb_lt in Hx. apply Z.ltb_lt. lia.
    + intros Hsub. assert (Hin : q ∈ filter (fun x => more_work o p x = true) (dom o : gset Z)).
      { apply elem_of_filter. split; [unfold more_work; rewrite Hp, Hq; by apply Z.ltb_lt|]. apply elem_of_dom. eauto. }
      apply Hsub, elem_of_filter in Hin as [Hin _]. unfold more_work in Hin. rewrite Hq in Hin. apply Z.ltb_lt in Hin. lia.
  - destruct Hb as [t ->]. cbn [ahead]. assert (size (filter (fun p => more_work o t p = true) (dom o : gset Z)) <= size (dom o : gset Z))%nat; [|lia].
    apply subseteq_size. intros p [_ ?]%elem_of_filter. done.
Qed.

(** ** The loop *)

Section Loop.
Context {Tree V : Type} `{!MerkleTree Tree} `{!CoinsView Tree V} `{!CoinsMemory}.
Abbreviation node := (node Tree V).
Abbreviation objs_of s := (objs (nd_tree s)).
Abbreviation chain_of s := (chainActive (nd_tree s)).

(** No candidate that can be connected is better than the tip. *)
Definition settled (t : tree) : Prop :=
  forall q, q ∈ setBlockIndexCandidates t -> ~ unusable (objs t) (chainActive t) q ->
    exists p, Tip (chainActive t) = Some p /\ work_comp (objs t) p q = false.

(** What FindMostWorkChain finds, in terms of the tree it leaves. *)
Lemma find_spec (t : tree) : candidates_ok t -> exists t' r, FindMostWorkChain t = Some (t', r) /\
  tree_evolves evolved t t' /\ chainActive t' = chainActive t /\
  match r with
  | None => settled t'
  | Some m => is_Some (objs t' !! m) /\ ~ unusable (objs t') (chainActive t') m /\
      forall q, q ∈ setBlockIndexCandidates t' -> ~ unusable (objs t') (chainActive t') q -> work_comp (objs t') m q = false
  end.
Proof.
  intros Hok. unfold FindMostWorkChain. destruct (most_work_loop_ok t (S (size (setBlockIndexCandidates t))) t Hok Hok (marked_refl _ _) eq_refl)
    as (t' & r & E & Hm & Hsub & Hrem & Hr); [done|done|lia|]. exists t', r. split; [done|]. apply most_work_evolves in E as [He Hc]. split; [done|]. split; [done|].
  rewrite Hc. destruct r as [m|].
  - destruct Hr as (Hin & Hus & Hbest). destruct (c_candidate _ Hok m Hin) as (b & Hb & _). split_and!.
    + destruct (rel_fwd m b (te_objs _ _ _ He) Hb) as (b' & Hb' & _). eauto.
    + by rewrite (marked_unusable _ _ _ Hm).
    + intros q Hq. rewrite (marked_unusable _ _ _ Hm), (marked_comp _ _ _ Hm). apply Hbest. by apply Hsub.
  - intros q Hq Hu. destruct Hu. rewrite Hc, (marked_unusable _ _ _ Hm). apply Hr. by apply Hsub.
Qed.

Context (W : activate_env Tree V).
Context (sources_ok : forall h pos block, av_read W h pos = Some block -> UncorruptedBlock (en_checker (av_block W)) block).

(** There is a way out of the loop; what holds if it returns true. *)
Definition loop_end (s : node) (x : option (verdict unit * node)) : Prop :=
  exists r s', x = Some (r, s') /\ (r = inr tt -> drift evolved s s' /\ ((forall s, av_ShutdownRequested W s = false) -> settled (nd_tree s'))).

Lemma loop_end_after s s1 x : drift evolved s s1 -> loop_end s1 x -> loop_end s x.
Proof.
  intros H1 (r & s' & E & H2). exists r, s'. split; [done|]. intros ->. destruct (H2 eq_refl) as [H3 H4]. split; [|done]. by eapply drift_trans; [apply _| |].
Qed.

Lemma settled_static (t t' : tree) : rel_objs same_fate (objs t) (objs t') -> setBlockIndexCandidates t' ⊆ setBlockIndexCandidates t ->
  chainActive t' = chainActive t -> settled t -> settled t'.
Proof.
  intros Hr Hsub Hc Hset q Hq Hu. pose proof (rel_objs_impl _ _ _ _ same_fate_static Hr) as Hst. rewrite Hc in *.
  destruct (Hset q (Hsub q Hq)) as (p & Hp & Hw); [|exists p; by rewrite (static_comp _ _ Hst)].
  intros (n & x & c & Hx & Hcx & Hb & Hno). destruct Hu. destruct (rel_fwd x c Hr Hcx) as (c' & Hc' & E). exists n, x, c'.
  rewrite (static_back _ _ Hst). split_and!; [done|done|by eapply evolved_bad; [apply same_fate_evolved|]|].
  intros k y Hk. rewrite (static_back _ _ Hst), (static_in_chain _ _ Hst). by apply Hno.
Qed.

(** The last flush changes nothing that matters here. *)
Lemma flush_end s : tree_ok (nd_tree s) -> settled (nd_tree s) \/ ~ (forall s, av_ShutdownRequested W s = false) ->
  loop_end s (Some (FlushStateToDisk W FLUSH_STATE_PERIODIC s)).
Proof.
  intros Hs Hset. pose proof (calm_flush W FLUSH_STATE_PERIODIC s Hs) as Hc. destruct (FlushStateToDisk W FLUSH_STATE_PERIODIC s) as [r s'].
  cbn [snd] in Hc. exists r, s'. split; [done|]. intros _. split; [by apply drift_evolved, drift_calm|]. intros Hno. destruct Hset as [Hset|]; [|done].
  eapply settled_static; [apply Hc|apply Hc|apply Hc|done].
Qed.

(** A step that reached the best candidate leaves nothing better. *)
Lemma reached_settled (s s' : node) m : tree_ok (nd_tree s) -> drift evolved s s' -> Tip (chain_of s') = Some m -> is_Some (objs_of s !! m) -> ~ unusable (objs_of s) (chain_of s) m ->
  (forall q, q ∈ setBlockIndexCandidates (nd_tree s) -> ~ unusable (objs_of s) (chain_of s) q -> work_comp (objs_of s) m q = false) ->
  settled (nd_tree s').
Proof.
  intros Hs Hd Ht Hm Hu Hbest q Hq Hqu. exists m. split; [done|]. rewrite (static_comp _ _ (drift_static _ _ Hd)).
  apply Hbest; [by apply (te_candidates _ _ _ (dr_tree _ _ _ Hd))|]. intros Hold. apply Hqu.
  rewrite (chain_to_tip s' (dr_ok _ _ _ Hd)), Ht. eapply unusable_moves; [apply (to_candidates _ Hs)|apply Hs|exact Hm|apply (dr_tree _ _ _ Hd)|exact Hu|exact Hold].
Qed.

(** A round that does not end the loop leaves fewer rounds. *)
Lemma round_decreases (o o' : store) tip tip' : rel_objs evolved o o' ->
  better_than o' tip tip' \/ (exists p c b', o !! p = Some c /\ failed c = false /\ o' !! p = Some b' /\ failed b' = true) ->
  (rounds_left o' tip' < rounds_left o tip)%nat.
Proof.
  intros Hr Hx. pose proof (rel_objs_impl _ _ _ _ evolved_static Hr) as Hst. unfold rounds_left. rewrite (rel_dom _ _ _ Hr).
  pose proof (unfailed_evolves _ _ Hr) as Hu. destruct Hx as [Hb|(p & c & b' & H1 & H2 & H3 & H4)].
  - apply ahead_better in Hb. rewrite (ahead_static o o' tip Hst) in Hb. nia.
  - pose proof (unfailed_fails _ _ _ _ _ Hr H1 H2 H3 H4). pose proof (ahead_bound o' tip') as Ha. rewrite (rel_dom _ _ _ Hr) in Ha. nia.
Qed.

Lemma rounds_evolved (o o' : store) tip : rel_objs evolved o o' -> (rounds_left o' tip <= rounds_left o tip)%nat.
Proof.
  intros Hr. unfold rounds_left. rewrite (rel_dom _ _ _ Hr), (ahead_static o o' tip (rel_objs_impl _ _ _ _ evolved_static Hr)).
  pose proof (unfailed_evolves _ _ Hr). nia.
Qed.

Lemma loop_ends skip pblock : (forall block, pblock = Some block -> UncorruptedBlock (en_checker (av_block W)) block) ->
  forall fuel s, tree_ok (nd_tree s) -> nd_REWIND s = 0 -> (rounds_left (objs_of s) (Tip (chain_of s)) < fuel)%nat ->
  loop_end s (ActivateBestChain W fuel skip pblock s).
Proof.
  intros Hp. induction fuel as [|fuel IH]; intros s Hs Hrw Hf; [lia|]. cbn [ActivateBestChain].
  destruct (av_ShutdownRequested W s) eqn:Esd; [apply flush_end; [done|]; right; congruence|].
  destruct (find_spec _ (to_candidates _ Hs)) as (t & r & -> & He & Hc & Hr).
  assert (H1 : drift evolved s (with_tree t s)) by (split; [by eapply tree_ok_evolves|done|done]).
  assert (Hstop : forall e, e = inl Thrown \/ settled t -> loop_end s (Some (e, with_tree t s))).
  { intros e Hset. exists e, (with_tree t s). split; [done|]. intros ->. split; [done|]. by destruct Hset. }
  destruct r as [m|]; [|apply Hstop; by right]. destruct Hr as ((b & Hb) & Hu & Hbest).
  destruct (bool_decide_reflect (Tip (chainActive t) = Some m)) as [Ht|_].
  { apply Hstop. right. intros q Hq Hqu. exists m. split; [done|by apply Hbest]. }
  rewrite Hb. eapply loop_end_after; [exact H1|].
  match goal with |- context [ActivateBestChainStep W skip m ?x] => set (pb := x) end.
  assert (Hpb : forall block, pb = Some block -> UncorruptedBlock (en_checker (av_block W)) block).
  { intros block E. subst pb. apply bind_Some in E as (b0 & E0 & E). destruct (_ =? _); [|done]. injection E as <-. by apply Hp. }
  pose proof (Step_spec W sources_ok skip m pb (with_tree t s) b Hpb (dr_ok _ _ _ H1) Hrw Hb Hu) as Hstep.
  destruct (ActivateBestChainStep W skip m pb (with_tree t s)) as [[e|u] s2].
  { by exists (inl e), s2. }
  destruct Hstep as [H2 Hend]. destruct (Tip (chain_of s2)) as [q|] eqn:Hq; [|by exists (inl Thrown), s2].
  destruct (Z.eqb_spec m q) as [<-|Hne].
  - eapply loop_end_after; [exact H2|]. apply flush_end; [apply H2|]. left.
    eapply reached_settled; [apply (dr_ok _ _ _ H1)|exact H2|exact Hq|by exists b|exact Hu|exact Hbest].
  - eapply loop_end_after; [exact H2|]. apply IH; [apply H2|by rewrite (dr_rewind _ _ _ H2)|]. rewrite Hq.
    pose proof (rounds_evolved _ _ (Tip (chain_of s)) (te_objs _ _ _ He)) as Hle.
    destruct Hend as [Hend|Hend]; [congruence|]. pose proof (round_decreases _ _ _ _ (te_objs _ _ _ (dr_tree _ _ _ H2)) Hend) as Hlt.
    cbn [nd_tree with_tree] in Hlt. rewrite Hc in Hlt. lia.
Qed.
End Loop.

(** More fuel does not change the result. *)
Lemma ActivateBestChain_more {Tree V : Type} `{!MerkleTree Tree} `{!CoinsView Tree V} `{!CoinsMemory} (W : activate_env Tree V) skip pblock k :
  forall fuel s x, ActivateBestChain W fuel skip pblock s = Some x -> ActivateBestChain W (fuel + k) skip pblock s = Some x.
Proof.
  induction fuel as [|fuel IH]; intros s x; [done|]. cbn [Nat.add ActivateBestChain]. repeat (case_match; try done). apply IH.
Qed.

(** The rounds left are bounded by the number of entries alone. *)
Lemma rounds_bound (o : store) tip : (rounds_left o tip < (size o + 1) * (size o + 2))%nat.
Proof.
  unfold rounds_left. pose proof (ahead_bound o tip) as Ha. assert (Hu : (unfailed o <= size (dom o : gset Z))%nat).
  { unfold unfailed. apply subseteq_size. intros p [_ ?]%elem_of_filter. done. }
  rewrite size_dom in *. nia.
Qed.

Section Claims.
Context {Tree V : Type} `{!MerkleTree Tree} `{!CoinsView Tree V} `{!CoinsMemory}.
Context (W : activate_env Tree V).


(** C16: when neither the block passed in nor any block on disk is one that CheckBlock calls
    possibly corrupted, and no rewind is asked for, ActivateBestChain ends: for an index of
    n entries after fewer than (n + 1) (n + 2) rounds, since a round that is not the last
    makes the tip better or marks one more block as failed.  When it returns true and no
    shutdown was requested, the tip is at least as good as every candidate that is left and
    that neither a failed block nor one without data keeps from being connected. *)
Theorem ActivateBestChain_settles (skip : bool) (pblock : option CBlock) (s : node Tree V)
  (sources_ok : forall h pos block, av_read W h pos = Some block -> UncorruptedBlock (en_checker (av_block W)) block)
  (pblock_ok : forall block, pblock = Some block -> UncorruptedBlock (en_checker (av_block W)) block) :
  tree_ok (nd_tree s) -> nd_REWIND s = 0 ->
  exists r s', (forall fuel, ((size (objs (nd_tree s)) + 1) * (size (objs (nd_tree s)) + 2) <= fuel)%nat ->
      ActivateBestChain W fuel skip pblock s = Some (r, s')) /\
    ((forall s, av_ShutdownRequested W s = false) -> r = inr tt -> forall q, q ∈ setBlockIndexCandidates (nd_tree s') ->
      ~ unusable (objs (nd_tree s')) (chainActive (nd_tree s')) q ->
      exists p, Tip (chainActive (nd_tree s')) = Some p /\ work_comp (objs (nd_tree s')) p q = false).
Proof.
  intros Hs Hrw. set (n := ((size (objs (nd_tree s)) + 1) * (size (objs (nd_tree s)) + 2))%nat).
  destruct (loop_ends W sources_ok skip pblock pblock_ok n s Hs Hrw (rounds_bound _ _)) as (r & s' & E & Hr). exists r, s'. split.
  - intros fuel Hf. replace fuel with (n + (fuel - n))%nat by lia. by apply ActivateBestChain_more.
  - intros Hno ->. by apply Hr.
Qed.
End Claims.

(** ** The node's CheckBlock speaks of corruption only for the block's own sake *)

Definition sound {A} (v : verdict A) : Prop := forall r, v = inl r -> CorruptionPossible r = false.

Lemma sound_inr {A} (a : A) : sound (inr a).
Proof. done. Qed.
Lemma sound_inl {A} r : CorruptionPossible r = false -> sound (inl r : verdict A).
Proof. by intros Hr r' [= <-]. Qed.
Lemma sound_bind {A B} (m : verdict A) (f : A -> verdict B) : sound m -> (forall a, sound (f a)) -> sound (m ≫= f).
Proof. intros Hm Hf. destruct m as [r|a]; [intros r' [= <-]; by apply Hm|apply Hf]. Qed.
Lemma sound_reject {A} b r (k : verdict A) : CorruptionPossible r = false -> sound k -> sound (reject_if b r k).
Proof. intros Hr Hk. unfold reject_if. destruct b; [by apply sound_inl|done]. Qed.

Ltac sound :=
  repeat first
    [ solve [auto]
    | apply sound_inr
    | apply sound_inl; reflexivity
    | apply sound_reject; [reflexivity|]
    | apply sound_bind; [|intros]
    | match goal with |- sound (match ?x with _ => _ end) => destruct x end
    | progress cbv zeta ].

Lemma sound_duplicates {T} `{EqDecision T} r (l : list T) : CorruptionPossible r = false -> forall seen, sound (check_duplicates r seen l).
Proof. intros Hr. induction l as [|x l IH]; intros seen; cbn [check_duplicates]; [apply sound_inr|]. by apply sound_reject. Qed.

Section Sound.
Context (A : abi) (R : chain_rules) (Hash160 : bytes -> bytes) (notaryvout : bytes -> Z -> bool).

Lemma sound_version tx : sound (check_version tx).
Proof. unfold check_version. sound. Qed.
Lemma sound_outputs cb t l : forall v p, sound (check_outputs R notaryvout cb t l v p).
Proof. induction l as [|o l IH]; intros v p; cbn [check_outputs]; sound. Qed.
Lemma sound_balance tx t v p : sound (check_balance R Hash160 tx t v p).
Proof. unfold check_balance. sound. Qed.
Lemma sound_joinsplits t l : forall v c, sound (check_joinsplits R t l v c).
Proof. induction l as [|o l IH]; intros v c; cbn [check_joinsplits]; sound. Qed.
Lemma sound_value_in l : forall v, sound (check_value_in R l v).
Proof. induction l as [|o l IH]; intros v; cbn [check_value_in]; sound. Qed.

Lemma sound_CheckTransaction staked active opret verify symbol tiptime tx txid i count :
  sound (CheckTransaction A R Hash160 notaryvout symbol staked active opret verify tiptime tx txid i count).
Proof.
  pose proof sound_version. pose proof sound_outputs. pose proof sound_balance. pose proof sound_joinsplits. pose proof sound_value_in.
  pose proof (@sound_duplicates). unfold CheckTransaction, CheckTransactionWithoutProofVerification, check_shape, check_privacy, check_txpow, check_shielded_in, check_all_duplicates, check_mint.
  sound.
Qed.
End Sound.

Section NodeChecker.
Abbreviation nclean := (clean (S := notary_state)).

Lemma nclean_ret {A} (a : A) : nclean (mret a : ncheck A).
Proof. done. Qed.
Lemma nclean_bind {A B} (m : ncheck A) (f : A -> ncheck B) : nclean m -> (forall a, nclean (f a)) -> nclean (m ≫= f).
Proof. exact (clean_run m f). Qed.
Lemma nclean_of_verdict {A} (v : verdict A) : sound v -> nclean (of_verdict v).
Proof. intros Hv s e. apply Hv. Qed.
Lemma nclean_of_notary {A} f : nclean (of_notary (A := A) f).
Proof. intros s e. unfold of_notary. destruct (f s) as [[a s']|]; [done|]. by intros [= <-]. Qed.
Lemma nclean_of_option {A} (o : option A) : nclean (n_of_option o).
Proof. destruct o; [done|]. by intros s e [= <-]. Qed.
Lemma nclean_stop_if b r : (b = true -> CorruptionPossible r = false) -> nclean (nstop_if b r).
Proof. intros Hr. destruct b; [|done]. intros s e [= <-]. by apply Hr. Qed.

Ltac nclean :=
  repeat first
    [ apply nclean_ret
    | apply nclean_of_notary
    | apply nclean_of_option
    | apply nclean_stop_if; reflexivity
    | apply nclean_bind; [|intros]
    | apply clean_if
    | match goal with |- clean (match ?x with _ => _ end) => destruct x end
    | progress cbv zeta ].

Lemma sound_extra M l : forall i a b c, sound (extra_loop M i l a b c).
Proof. induction l as [|o l IH]; intros i a b c; cbn [extra_loop]; sound. Qed.

Lemma nclean_deposit E M gt gs cm el by_ h b : nclean (squishy_check_deposit E M gt gs cm el by_ h b).
Proof. unfold squishy_check_deposit. nclean; apply nclean_of_verdict, sound_extra. Qed.

Lemma sound_transactions E G R A Hash160 nv act op ver t count l : forall i, sound (check_transactions E G R A Hash160 nv act op ver t i count l).
Proof. induction l as [|[txid tx] l IH]; intros i; cbn [check_transactions]; [done|]. apply sound_bind; [apply sound_CheckTransaction|auto]. Qed.

(** A block whose Merkle root is that of its transactions, without duplicates, and whose
    signature operations are within the limit is not called corrupted. *)
Lemma node_uncorrupted E G params R A elected STAKED_ genesis o chain Hash160 cc fix_active supported loading blockload current GetHash hash2 notaryvout active opret
    verify GetTransaction subsidy commission beyond equihash time pow copret garbage contextual block :
  ComputeMerkleRoot hash2 (map fst (vtx block)) = (hashMerkleRoot (hdr block), false) -> block_sigops (vtx block) <= MAX_BLOCK_SIGOPS E ->
  (forall prev, sound (contextual block prev)) ->
  UncorruptedBlock (node_checker E G params R A elected STAKED_ genesis o chain Hash160 cc fix_active supported loading blockload current GetHash hash2 notaryvout active opret
    verify GetTransaction subsidy commission beyond equihash time pow copret garbage contextual) block.
Proof.
  intros Hroot Hops Hctx. split; [|intros prev r; apply Hctx]. intros strict height prev_time pw merkle. cbn [bc_CheckBlock node_checker]. unfold CheckBlock.
  destruct (CheckBlockHeader _ _ _ _ _ _) as [future hv] eqn:Eh. cbn [snd].
  assert (Hv : sound hv) by (unfold CheckBlockHeader in Eh; repeat case_match; injection Eh as _ <-; sound).
  apply nclean_bind; [apply clean_if; [done|by apply nclean_of_verdict]|]. intros _.
  apply nclean_bind; [unfold check_work; nclean|]. intros _.
  apply nclean_bind. { apply nclean_of_verdict. unfold check_structure. rewrite Hroot, Z.eqb_refl. sound. } intros _.
  apply clean_if; [done|]. apply nclean_bind; [apply nclean_of_verdict, sound_transactions|]. intros _.
  apply nclean_bind; [apply nclean_stop_if; intros Hb; apply Z.gtb_lt in Hb; lia|]. intros _.
  apply clean_if; [|done]. apply nclean_bind; [apply nclean_deposit|]. intros d. by apply nclean_stop_if.
Qed.
End NodeChecker.

#[local] Existing Instance toy_tree.
#[local] Existing Instance toy_memory.

(** A node whose tip is the genesis block, notarised, with a block on top of it that
    waits on disk to be connected. *)

Definition demo_genesis : CBlockIndex := mkIndex 9 None None 0 0 8 0 (bu_of_u64 1) 1 1 11 None None 0 None 4 0 0 1500000000 0 0 [] 0.
Definition demo_waiting : CBlockIndex := mkIndex 10 (Some 0) None 1 0 16 0 (bu_of_u64 2) 1 2 11 None None 0 None 4 0 0 1500001000 0 0 [] 0.
Definition demo_tree : tree :=
  mkTree (<[1 := demo_waiting]> {[ 0 := demo_genesis ]}) (<[10 := Some 1]> {[ 9 := Some 0 ]}) (Some 1) {[ 0; 1 ]} [] 0 None [Some 0] ∅.
Definition demo_first : CBlock := mkBlock (mkHeader 4 9 98 0 1500001000 0x200f0f0f 0 []) [(98, demo_coinbase 1)].
Definition demo_activate : activate_env Z (CCoinsViewDB Z) :=
  mkActivateEnv demo_node demo_accept (fun h pos => if (h =? 1) && (pos.2 =? 16) then Some demo_first else None)
    0 (fun _ _ => false) (fun _ => true) (fun _ _ => flush_nothing) (fun _ => false).
Definition demo_points : squishy_state := mkState [] 0 (mkCheckpoint 9 0 0 0 5 0 0 0 0 0 0).
Definition demo_idle : node Z (CCoinsViewDB Z) :=
  mkNode demo_tree ∅ (new_cache toy_db) ∅ empty_mempool notary_start demo_points 0 [].
Definition demo_run := ActivateBestChain demo_activate 20 false None demo_idle.

Lemma demo_entries_cases p b : objs demo_tree !! p = Some b -> p = 0 /\ b = demo_genesis \/ p = 1 /\ b = demo_waiting.
Proof. cbn. intros [[<- <-]|[_ [<- <-]%lookup_singleton_Some]]%lookup_insert_Some; auto. Qed.

Lemma demo_tree_ok : tree_ok demo_tree.
Proof.
  split; [split| |].
  - intros p b [[-> ->]|[-> ->]]%demo_entries_cases; (split; [done|]); (split; [|done]); [done|]. by exists demo_genesis.
  - intros p b [[-> ->]|[-> ->]]%demo_entries_cases; by apply bu_val_of_u64.
  - intros p b q [[-> ->]|[-> ->]]%demo_entries_cases; [done|]. intros _ [= <-]. by exists demo_genesis.
  - cbn. intros x [->%elem_of_singleton| ->%elem_of_singleton]%elem_of_union; [by exists demo_genesis|by exists demo_waiting].
  - done.
  - right. by exists 0, demo_genesis.
  - by intros p b [[-> ->]|[-> ->]]%demo_entries_cases.
Qed.

#[local] Instance demo_first_uncorrupted : UncorruptedBlock demo_checker demo_first.
Proof. apply node_uncorrupted; [vm_compute; reflexivity|by vm_compute|done]. Qed.

Lemma demo_run_end : exists s', demo_run = Some (inr tt, s') /\ chainActive (nd_tree s') = [Some 0; Some 1].
Proof.
  assert (H : (fun x => (x.1, chainActive (nd_tree x.2))) <$> demo_run = Some (inr tt, [Some 0; Some 1])) by (vm_compute; reflexivity).
  destruct demo_run as [[r s']|]; [|done]. injection H as -> H. by exists s'.
Qed.


Lemma ActivateBestChain_settles_witness : exists s', demo_run = Some (inr tt, s') /\ chainActive (nd_tree s') = [Some 0; Some 1] /\
  forall q, q ∈ setBlockIndexCandidates (nd_tree s') -> ~ unusable (objs (nd_tree s')) [Some 0; Some 1] q ->
    exists p, Tip [Some 0; Some 1] = Some p /\ work_comp (objs (nd_tree s')) p q = false.
Proof.
  destruct demo_run_end as (s' & E & Hc). exists s'. split; [exact E|]. split; [exact Hc|]. rewrite <- Hc.
  destruct (ActivateBestChain_settles demo_activate false None demo_idle) as (r & s2 & H1 & H2).
  - cbn. intros h pos block H. destruct (_ && _) in H; [|discriminate H]. injection H as <-. exact demo_first_uncorrupted.
  - intros block H. discriminate H.
  - exact demo_tree_ok.
  - reflexivity.
  - specialize (H1 20%nat ltac:(vm_compute; lia)). change (ActivateBestChain demo_activate 20 false None demo_idle) with demo_run in H1.
    rewrite E in H1. injection H1 as <- <-. exact (H2 (fun _ => eq_refl) eq_refl).
Defined.
